(* ===== verification/_CoqProject ===== *)
-Q . S2P
Prelude.v
Kernel.v
Manifest.v
Lifecycle.v
JournalFormat.v
Automerge.v
Journal.v
Durability.v
FileCheckpoint.v
Room.v
Framing.v
BlobStore.v
BlobUpload.v
Automunge.v
RuntimeDoc.v
RuntimeOutputs.v
RuntimeComms.v
Identity.v
RuntimePolicy.v
NotebookDoc.v
NotebookImport.v
Text.v
PeerWriter.v
Presence.v
PresenceRelay.v
Comments.v
EnvPool.v
AmSync.v
RoomHost.v
RoomRepair.v
RoomRequests.v
RoomExamples.v
RoomRegistry.v
LaunchGate.v
TerminalText.v
StreamSegments.v
OutputPipeline.v
OutputSpec.v
OutputPlumbing.v
OutputOrder.v
OutputExamples.v
RuntimeAgent.v
