(* ===== verification/Prelude.v ===== *)
(** * Verification of the nteract notebook runtime

    nteract runs Jupyter notebooks through a daemon.  A notebook is open in a _room_;
    clients edit it as an Automerge document over a socket; a _runtime agent_ drives
    the kernel and writes what happens into a second document, the runtime state;
    outputs that are large live in a content-addressed blob store; every accepted
    edit goes to a recovery journal before it is acknowledged, and from time to time
    the document is saved as an [.ipynb] file.  The development models the parts that
    carry this logic, one file each, and proves what makes them correct.

    ** Files and what they model (paths under [src/crates/])

    - [Prelude]: results, machine-width integers, byte codecs, lemmas and tactics.
    - [Kernel]: [runtimed/src/kernel_state.rs], the execution queue of one kernel.  Its
      writes to the runtime state document go through the class [StateDoc], its laws
      through [StateDocLaws].
    - [RuntimeAgent]: [runtimed/src/runtime_agent.rs], the session that drives the kernel:
      synced executions, kernel signals, interrupts, shutdown, launch and restart, with
      every write to the document of [RuntimeDoc] (the last file of the list).
    - [Manifest], [JournalFormat], [Journal]: [notebook_sync_server/recovery.rs], the
      recovery manifest, the record format on bytes and the journal file with append,
      tail repair, compaction, archiving, migration and discovery.
    - [Automerge]: the interface of Automerge that durability relies on, as a class
      with laws (a change set with dependencies, heads, save and load).
    - [Durability]: [durability.rs], the coordinator that commits edits, checkpoints
      and source revisions to the journal and answers durability barriers.
    - [Lifecycle]: [lifecycle.rs], the room state machine from attach to interactive.
    - [FileCheckpoint]: [file_checkpoint.rs], the order of file replacements.
    - [Room]: [persist.rs] and the daemon's own edits, the composition of the lifecycle,
      the durability coordinator and the file checkpoint in a save.
    - [Framing]: [notebook-wire] and [notebook-protocol/src/connection], length-prefixed
      and typed frames, keyed document frames and the cancel-safe reader.
    - [BlobStore], [BlobUpload]: [blob_store.rs] and [blob_upload.rs], the store with its
      memory layer, leases and multipart publication, and the upload sessions.
    - [Automunge]: [automunge/src/lib.rs], JSON values in an Automerge tree.
    - [RuntimeDoc], [RuntimeOutputs], [RuntimeComms]: [runtime-doc/src/doc.rs] and
      [types.rs], the runtime state document: lifecycle, queue, executions, file
      checkpoint and environment; outputs, positions, display index, trimming,
      restoration and diffs; trust, workstation, project, widgets and Bokeh sessions.
      [RuntimeDoc] is the instance of the interface that [Kernel] is proved against.
    - [Identity]: [nteract-identity], principals, operators, actor labels and scopes.
    - [RuntimePolicy]: [runtime-doc/src/policy.rs] and [bokeh_session_policy.rs], which
      changes of the runtime state document are accepted from a connection.
    - [NotebookDoc]: [notebook-doc/src/lib.rs], the notebook document: cells ordered by
      fractional index, sources, metadata, assets and attachments.  The index library
      and the text units of Automerge are the classes [FractionalIndex] and [TextOps].
    - [NotebookImport]: [notebook_sync_server/load.rs], cells of a parsed notebook file
      staged into the document.
    - [Text]: UTF-8, characters and trimming, shared by the following.
    - [PeerWriter]: [peer_writer.rs], the two outbound lanes of a peer and its request
      queue with causal heads.
    - [Presence], [PresenceRelay]: [notebook-doc/src/presence.rs] and
      [peer_presence.rs], the presence table, its messages and frame encoding (CBOR is
      a class), and the relay between daemon and clients.
    - [Comments]: [comments-doc/src], threads and messages on anchors, source ranges,
      the identity of the document and its repair.
    - [EnvPool]: the environment pools of [runtimed/src/daemon.rs]: retry lifecycle,
      taking, warming, leases, returns, startup adoption and the orphan sweep.
    - [AmSync]: [automerge-recovery/src/lib.rs] and the recovering sync methods of the
      four documents of a room: panics as errors, one class of errors answered by a
      rebuild and one retry.  Automerge's documents are the class [AmDoc] over the
      library [AmLib], what the room relies on the class [AmDocLaws].
    - [RoomHost], [RoomRepair], [RoomRequests], [RoomExamples]:
      [notebook-room-host/src/lib.rs], the state machine of a hosted room in the monad
      [HostM]: authorized frames for the four documents, execution requests, the queue
      of a managed runtime, repairs when the runtime goes away.  It composes [AmSync],
      [Identity], [RuntimePolicy] and the documents; the second and third file hold
      theorems, the last an instance of the library and the witnesses.
    - [RoomRegistry]: [notebook_sync_server/registry.rs], [path_index.rs], the connection
      counters of [room.rs] and the reaper of idle rooms in [daemon.rs]: rooms in a heap,
      sessions that attach and leave, sweeps that sample and commit, interleaved.
    - [LaunchGate]: the kernel launch gate of [room.rs]: the attempts of one room as
      tasks whose steps interleave with shutdowns, agents that start, write what they sync
      and end, and drops.
    - [TerminalText], [StreamSegments]: [runtimed/src/stream_terminal.rs] and
      [stream_flush.rs], a terminal grid as text, the segments of the streams of an
      execution and the buffer of their flushes; the stream manifests of
      [output_store.rs].  The terminal emulator is the class [Emulator].
    - [OutputPipeline], [OutputSpec], [OutputPlumbing], [OutputOrder], [OutputExamples]:
      the output arms of the reader in [jupyter_kernel.rs] with [stream_committer.rs] and
      [output_committer.rs], three tasks whose steps interleave on the terminals and the
      runtime state document of [RuntimeOutputs].  The first file holds the model, the
      others the specification, the acknowledgements, the order theorem and runs.

    ** How code becomes definitions

    A struct is a record, an enum an inductive type, a method a function from the
    state to the state and a [result].  [u64] counters are integers with the code's
    checked, saturating or wrapping operation written out.  A method that can stop
    half way returns the state reached together with the error.  Each system call of
    the journal, the file checkpoint and the blob store has an outcome that the caller
    of the model supplies, so a theorem over all outcomes covers every failure and
    every crash point.  Concurrent code is a relation or a list of steps that
    interleave where the code awaits or releases a lock.  A current Automerge document
    is a tree of maps, lists, texts and scalars; what two peers wrote concurrently to
    one key is represented only for the identity of a comments document and the status
    of an execution in a managed room.  Error messages are abbreviated to the kind of
    error.  SHA-256, serde, CBOR, UUIDs, fractional indices and Automerge's merge are
    arguments with the laws the code relies on, and every theorem under such a law has a
    witness at a concrete instance.

    Loops that are not structural take fuel that the theorems show to be enough: the
    journal scan takes the length of the file plus one (every turn consumes at least
    one byte), the frame readers the length of the stream, the eviction of the memory
    layer the length of its order queue.  Drawing an unused identifier tries one more
    draw than there are identifiers in use.  The theorems on rooms and launches that
    rest on unique generations take histories shorter than 2^64 steps; the order of
    outputs needs room for 128 positions (one batch) for every step of the run.

    ** What the theorems show

    - Durability: acknowledged changes survive any history of commits, failed appends
      and restarts; an append commits or preserves; a torn append is repaired and a
      corrupt tail refused, and every record of a journal is read back at its place; a
      restart resolves an unfinished save by the file alone, as its commit, as its abort or
      as a conflict; a save never manufactures a conflict.
    - Rooms: the lifecycle invariant, one owner of the import task, imports complete,
      older saves never replace newer ones, daemon edits commit or roll back.
    - Registry and launches: a room a session holds stays resident, the reaper takes the
      oldest rooms and only unvisited ones; launches are single-flight; after a
      shutdown only agents change what is shown, until the next launch; after a failure no
      automatic launch is under way for five seconds; a dropped launch reopens the gate.
    - Kernel queue: refinement of a FIFO queue with an interrupt gate, for calls without a
      second interrupt while one is awaited, and the session of the runtime agent publishes
      that queue in the modelled document after every handler.
    - Runtime state document: outputs refine an ordered list, batches equal single
      appends, cached positions and the display index are exact in every reachable
      document, trimming drops the oldest, restored executions read back, stale
      checkpoints are ignored, JSON written is JSON read.
    - Outputs of a kernel: the text of a terminal grid shows, to a reader of escape
      sequences written apart from the serializer, every character and attribute up to
      trailing blanks; when an execution is reported done its outputs and runs of text are in
      the document once, in the order of its messages.  The order holds in every
      interleaving outside four windows, which [OutputSpec] names and [OutputExamples]
      shows to lose, repeat or reorder text, and without failed writes of that execution.
    - Access: labels carry the authenticated principal; accepted changes leave
      host-owned state alone, only move executions and sessions forward and keep the
      results of done and failed ones.
    - Notebook: any history of insertions, moves and deletions is that of a list of ids,
      the readers agree, edits and metadata writes are exact, and an imported file reads
      back cell by cell.
    - Peers: each outbound lane is lossless and in order under every schedule, every
      request is answered once, a receipt is given only for heads that are there;
      presence cannot be spoofed and converges for a client that does not lag, as long as
      the messages about one peer, which the code sends outside its lock, are sent in the
      order of the changes.
    - Comments: a document refines a board of ordered threads and messages with their
      authors, a received document keeps its identity or is put back, and points of a
      source are located exactly.
    - Hosted rooms: a frame changes a document only in its scope and by its author, and
      a refused one changes none; requests queue exactly the cells they name, in order
      and once, or are undone; a managed runtime reports progress and never owns the
      queue; a room whose runtime is gone settles.
    - Environments: in every orderly run (clients return what they were lent, and what a
      sweep read still covers the directories in use) every directory has one owner and is
      deleted only without one; the retry lifecycle counts failures exactly, a take ends by its deadline.
    - Wire and blobs: frames round-trip, the reader loses nothing under any schedule,
      stored blobs hash to their key, leases protect, uploads publish what was declared
      and stay within budget.

    Examples at the end of the files evaluate the definitions on concrete inputs;
    several record behaviour that differs from a comment or is likely unintended.

    ** Not modelled

    The socket loops of the peers ([peer_loop.rs], [peer_session.rs]), the rest of the
    daemon process, the subprocesses that build environments and kernel launch are I/O
    around the modelled parts.  The sync protocol, merge, fork and compaction of
    documents are Automerge itself.  OIDC and JupyterHub authentication, HMAC trust
    signatures, the text syntax of JSON and the CBOR codec rest on third-party code; the
    models start from parsed values.  The desktop application, the command-line tools,
    the language bindings, rendering and telemetry are front ends.
    Of the room host, creating, loading and saving a room are not modelled.
    Also left out: the transport loop, comms and environment syncs of the runtime agent,
    the end of a request worker with its connection, the typed notebook metadata, peer
    eviction, the client's sync handle and the comments store.  Of the output pipeline,
    outputs captured by widgets, display updates, output hooks and closed channels are
    left out; the manifests and the redaction of displays and errors are the class
    [OutputManifests]. *)

From Stdlib Require Export ZArith Lia.
From Stdlib Require Import Strings.Byte.
From stdpp Require Export base tactics decidable option list strings gmap sorting.

#[global] Open Scope Z_scope.
#[export] Set Warnings "-clear-no-such-hyp".

(** ** Results of fallible code *)

(** Rust's [Result<A, E>]. *)
Inductive result (E A : Type) : Type :=
| Ok (a : A)
| Err (e : E).
Arguments Ok {E A} a.
Arguments Err {E A} e.

#[export] Instance result_eq_dec {E A} `{EqDecision E, EqDecision A} :
  EqDecision (result E A).
Proof. solve_decision. Defined.

Definition is_ok {E A} (r : result E A) : bool :=
  match r with Ok _ => true | Err _ => false end.

Declare Scope rust_scope.
Delimit Scope rust_scope with rust.

(** The [?] operator: bind the success value, return the error early. *)
Notation "'let?' x ':=' e 'in' k" :=
  (match e with Ok x => k | Err err => Err err end)
  (at level 10, x pattern, e at level 100, k at level 200,
   format "'[v' 'let?'  x  ':='  e  'in' '/' k ']'") : rust_scope.
#[global] Open Scope rust_scope.

(** ** Machine-width unsigned integers *)

Definition u16_max : Z := 2 ^ 16 - 1.
Definition u32_max : Z := 2 ^ 32 - 1.
Definition u64_max : Z := 2 ^ 64 - 1.

Definition is_u64 (n : Z) : Prop := 0 <= n <= u64_max.

(** [u64::checked_add]. *)
Definition checked_add_u64 (a b : Z) : option Z :=
  if decide (a + b <= u64_max) then Some (a + b) else None.

(** [u64::saturating_add] and [u64::saturating_sub]. *)
Definition saturating_add_u64 (a b : Z) : Z := Z.min (a + b) u64_max.
Definition saturating_sub_u64 (a b : Z) : Z := Z.max (a - b) 0.

(** [u64::try_from(n).unwrap_or(u64::MAX)] for a length [n]. *)
Definition u64_of_len (n : nat) : Z := Z.min (Z.of_nat n) u64_max.

Lemma checked_add_u64_Some a b c :
  checked_add_u64 a b = Some c <-> c = a + b /\ a + b <= u64_max.
Proof. unfold checked_add_u64. case_decide; naive_solver lia. Qed.

Lemma checked_add_u64_None a b :
  checked_add_u64 a b = None <-> u64_max < a + b.
Proof. unfold checked_add_u64. case_decide; naive_solver lia. Qed.

Lemma saturating_add_u64_le a b :
  0 <= b -> a <= u64_max -> a <= saturating_add_u64 a b <= u64_max.
Proof. unfold saturating_add_u64. lia. Qed.

Lemma saturating_add_u64_succ a :
  a < u64_max -> saturating_add_u64 a 1 = a + 1.
Proof. unfold saturating_add_u64. lia. Qed.

Lemma u64_of_len_bounds n : 0 <= u64_of_len n <= u64_max.
Proof. unfold u64_of_len, u64_max. lia. Qed.

(** ** Bytes and fixed-width integers on the wire *)

Abbreviation byte := Byte.byte.
Abbreviation bytes := (list Byte.byte).

#[export] Instance byte_eq_dec : EqDecision byte := Byte.byte_eq_dec.

Definition b2Z (b : byte) : Z := Z.of_N (Byte.to_N b).
Definition Z2b (z : Z) : byte :=
  default Byte.x00 (Byte.of_N (Z.to_N (z mod 256))).

Lemma b2Z_bounds b : 0 <= b2Z b < 256.
Proof. unfold b2Z. pose proof (Byte.to_N_bounded b). lia. Qed.

Lemma Z2b_b2Z b : Z2b (b2Z b) = b.
Proof.
  unfold Z2b. rewrite Z.mod_small by apply b2Z_bounds.
  unfold b2Z. rewrite N2Z.id, Byte.of_to_N. done.
Qed.

Lemma b2Z_Z2b z : b2Z (Z2b z) = z mod 256.
Proof.
  unfold Z2b. pose proof (Z.mod_pos_bound z 256 ltac:(lia)) as Hz.
  destruct (Byte.of_N (Z.to_N (z mod 256))) as [b|] eqn:E; simpl.
  - apply Byte.to_of_N in E. unfold b2Z. rewrite E. lia.
  - apply Byte.of_N_None_iff in E. lia.
Qed.

(** [uN::to_le_bytes] / [uN::from_le_bytes] on [n] bytes, and the big-endian
    pair. *)
Fixpoint to_le_bytes (n : nat) (z : Z) : bytes :=
  match n with
  | O => []
  | S n' => Z2b z :: to_le_bytes n' (z / 256)
  end.

Fixpoint from_le_bytes (bs : bytes) : Z :=
  match bs with
  | [] => 0
  | b :: bs' => b2Z b + 256 * from_le_bytes bs'
  end.

Definition to_be_bytes (n : nat) (z : Z) : bytes := reverse (to_le_bytes n z).
Definition from_be_bytes (bs : bytes) : Z := from_le_bytes (reverse bs).

Lemma length_to_le_bytes n z : length (to_le_bytes n z) = n.
Proof. revert z. induction n as [|n IH]; intros z; simpl; [done|]. by rewrite IH. Qed.

Lemma length_to_be_bytes n z : length (to_be_bytes n z) = n.
Proof. unfold to_be_bytes. by rewrite length_reverse, length_to_le_bytes. Qed.

Lemma from_to_le_bytes n z :
  0 <= z < 256 ^ Z.of_nat n -> from_le_bytes (to_le_bytes n z) = z.
Proof.
  revert z. induction n as [|n IH]; intros z Hz; cbn [to_le_bytes from_le_bytes].
  - change (256 ^ Z.of_nat 0) with 1 in Hz. lia.
  - rewrite b2Z_Z2b, IH.
    + pose proof (Z.div_mod z 256). lia.
    + rewrite Nat2Z.inj_succ, Z.pow_succ_r in Hz by lia.
      split; [apply Z.div_pos; lia|]. apply Z.div_lt_upper_bound; lia.
Qed.

Lemma from_to_be_bytes n z :
  0 <= z < 256 ^ Z.of_nat n -> from_be_bytes (to_be_bytes n z) = z.
Proof.
  intros Hz. unfold from_be_bytes, to_be_bytes.
  by rewrite reverse_involutive, from_to_le_bytes.
Qed.

Lemma from_le_bytes_bounds bs :
  0 <= from_le_bytes bs < 256 ^ Z.of_nat (length bs).
Proof.
  induction bs as [|b bs IH]; cbn [from_le_bytes length]; [simpl; lia|].
  rewrite Nat2Z.inj_succ, Z.pow_succ_r by lia. pose proof (b2Z_bounds b). lia.
Qed.

Lemma from_be_bytes_bounds bs :
  0 <= from_be_bytes bs < 256 ^ Z.of_nat (length bs).
Proof.
  unfold from_be_bytes. pose proof (from_le_bytes_bounds (reverse bs)) as H.
  by rewrite length_reverse in H.
Qed.

(** ** Shared list and option lemmas *)

(** Length of a byte slice, as the code's [usize]/[u64]. *)
Definition zlen {A} (l : list A) : Z := Z.of_nat (length l).

Lemma zlen_nonneg {A} (l : list A) : 0 <= zlen l.
Proof. unfold zlen. lia. Qed.

Lemma zlen_app {A} (l k : list A) : zlen (l ++ k) = zlen l + zlen k.
Proof. unfold zlen. rewrite length_app. lia. Qed.

Lemma take_app_exact {A} (l k : list A) n : n = length l -> take n (l ++ k) = l.
Proof. intros ->. by rewrite take_app_length. Qed.

Lemma drop_app_exact {A} (l k : list A) n : n = length l -> drop n (l ++ k) = k.
Proof. intros ->. by rewrite drop_app_length. Qed.

Lemma NoDup_snoc {A} (l : list A) x : NoDup l -> x ∉ l -> NoDup (l ++ [x]).
Proof.
  intros Hl Hx. apply NoDup_app. split_and!; [done| |apply NoDup_singleton].
  intros y Hy ->%list_elem_of_singleton. done.
Qed.

(** ** Automation *)

Create HintDb nteract.
#[export] Hint Resolve zlen_nonneg b2Z_bounds u64_of_len_bounds : nteract.

(** Split every [match]/[if] scrutinee of the goal and the hypotheses, keeping
    the equations, and close the branches that contradict each other. *)
Ltac destruct_matches :=
  repeat (case_match; simplify_eq/=; try done).

(** Split the scrutinee at the head of a hypothesis [match e with ... end = r]
    only, leaving the ones under it. *)
Ltac case_head H :=
  lazymatch type of H with
  | (if decide ?P then _ else _) = _ => destruct (decide P)
  | (match ?e with _ => _ end) = _ => let E := fresh "E" in destruct e eqn:E
  end; simplify_eq/=.
