(* ===== verification/Kernel.v ===== *)
(** * Kernel execution queue

    Model of [crates/runtimed/src/kernel_state.rs]: the execution state machine
    the runtime agent holds as a local variable.  The runtime state document is
    reached through the interface [StateDoc] (what [KernelState] uses of
    [runtime_doc::RuntimeStateDoc] through [RuntimeStateHandle::with_doc]), the
    kernel connection through [Conn], a scripted connection that records every
    [execute] call and answers with an arbitrary list of outcomes. *)

From S2P Require Import Prelude.

(** ** Data *)

(** [notebook_protocol::protocol::QueueEntry]. *)
Record QueueEntry := mkQueueEntry { qe_cell_id : string; qe_execution_id : string }.

(** [runtime_doc::QueueEntry]. *)
Record DocQueueEntry := mkDocQueueEntry { dqe_execution_id : string }.

(** [runtime_doc::QueueState]. *)
Record QueueState := mkQueueState {
  qs_executing : option DocQueueEntry;
  qs_queued : list DocQueueEntry;
}.

(** [output_prep::QueuedCell]; [queued_at] is the instant the caller read. *)
Record QueuedCell := mkQueuedCell {
  qc_execution_id : string;
  qc_cell_id : option string;
  qc_code : string;
  qc_queued_at : Z;
}.

(** [output_prep::KernelStatus]. *)
Inductive KernelStatus := Starting | Idle | Busy | Error | ShuttingDown | Dead.

#[export] Instance KernelStatus_eq_dec : EqDecision KernelStatus.
Proof. solve_decision. Defined.
#[export] Instance DocQueueEntry_eq_dec : EqDecision DocQueueEntry.
Proof. solve_decision. Defined.
#[export] Instance QueueState_eq_dec : EqDecision QueueState.
Proof. solve_decision. Defined.

(** ** Interfaces the state machine is written against *)

(** What the queue uses of the runtime state document.  Every writer returns
    the document it left behind together with its outcome: a batch that fails
    half way keeps the writes before the failure, as [with_doc] does. *)
Class StateDoc := {
  sdoc : Type;
  sdoc_error : Type;
  create_execution : string -> sdoc -> sdoc * result sdoc_error unit;
  set_execution_running : string -> sdoc -> sdoc * result sdoc_error unit;
  set_execution_done : string -> bool -> sdoc -> sdoc * result sdoc_error unit;
  set_execution_cancelled : string -> sdoc -> sdoc * result sdoc_error unit;
  abort_inflight_executions : sdoc -> sdoc * result sdoc_error nat;
  set_queue : option DocQueueEntry -> list DocQueueEntry ->
    sdoc -> sdoc * result sdoc_error unit;
  read_explicit_queue : sdoc -> QueueState;
  execution_status : sdoc -> string -> option string;
}.

(** What the document promises the queue.  [doc_ready] says that the scaffold
    the writers need is present; on such a document every write succeeds. *)
Class StateDocLaws `{StateDoc} := {
  doc_ready : sdoc -> Prop;
  set_queue_ok e q d : doc_ready d ->
    exists d', set_queue e q d = (d', Ok tt) /\ doc_ready d';
  create_execution_ok eid d : doc_ready d ->
    exists d', create_execution eid d = (d', Ok tt) /\ doc_ready d';
  set_execution_running_ok eid d : doc_ready d ->
    exists d', set_execution_running eid d = (d', Ok tt) /\ doc_ready d';
  set_execution_done_ok eid b d : doc_ready d ->
    exists d', set_execution_done eid b d = (d', Ok tt) /\ doc_ready d';
  set_queue_read e q d d' :
    doc_ready d -> set_queue e q d = (d', Ok tt) ->
    read_explicit_queue d' = mkQueueState e q;
  set_queue_status e q d eid : doc_ready d ->
    execution_status (set_queue e q d).1 eid = execution_status d eid;
  create_execution_status eid eid' d : doc_ready d ->
    execution_status (create_execution eid d).1 eid' =
      if decide (eid' = eid) then Some (default "queued" (execution_status d eid))
      else execution_status d eid';
  set_execution_running_status eid eid' d : doc_ready d ->
    execution_status (set_execution_running eid d).1 eid' =
      if decide (eid' = eid) then (fun _ => "running") <$> execution_status d eid
      else execution_status d eid';
  set_execution_done_status eid (b : bool) eid' d : doc_ready d ->
    execution_status (set_execution_done eid b d).1 eid' =
      if decide (eid' = eid)
      then (fun _ => if b then "done" else "error") <$> execution_status d eid
      else execution_status d eid';
}.

(** One [conn.execute(..)] call. *)
Record ExecRequest := mkExecRequest {
  er_execution_id : string;
  er_cell_id : option string;
  er_code : string;
}.

(** A kernel connection: the calls made so far and the outcomes of the calls to
    come ([Ok] once the script is exhausted). *)
Record Conn := mkConn {
  sent : list ExecRequest;
  replies : list (result string unit);
}.

(** [KernelConnection::execute]. *)
Definition conn_execute (r : ExecRequest) (c : Conn) : Conn * result string unit :=
  (mkConn (sent c ++ [r]) (tail (replies c)), default (Ok tt) (head (replies c))).

Section WithStateDoc.
Context `{SD : StateDoc}.

(** Two document writes joined by [?] inside one [with_doc] closure. *)
Definition sd_seq {A B} (f : sdoc -> sdoc * result sdoc_error A)
    (g : sdoc -> sdoc * result sdoc_error B) (d : sdoc) : sdoc * result sdoc_error B :=
  let '(d1, r) := f d in
  match r with Ok _ => g d1 | Err e => (d1, Err e) end.

(** [for x in xs { f(x)?; }]. *)
Fixpoint sd_for {A} (f : A -> sdoc -> sdoc * result sdoc_error unit) (xs : list A)
    (d : sdoc) : sdoc * result sdoc_error unit :=
  match xs with
  | [] => (d, Ok tt)
  | x :: xs' => sd_seq (f x) (sd_for f xs') d
  end.

(** [KernelState], without the shared document handle. *)
Record KernelState := mkKernelState {
  queue : list QueuedCell;
  executing : option string;
  execution_had_error : bool;
  interrupt_pending : option string;
  status : KernelStatus;
}.

(** The state machine with the document and the connection it acts on. *)
Record World := mkWorld { ks : KernelState; sd : sdoc; conn : Conn }.

(** ** Helpers *)

Definition to_doc_entry (e : QueueEntry) : DocQueueEntry :=
  mkDocQueueEntry (qe_execution_id e).

Definition to_doc_entries (es : list QueueEntry) : list DocQueueEntry :=
  to_doc_entry <$> es.

(** ** Operations of [KernelState] *)

Definition ks_new : KernelState := mkKernelState [] None false None Starting.

Definition ks_reset (s : KernelState) : KernelState :=
  mkKernelState [] None false None Starting.

Definition ks_set_idle (s : KernelState) : KernelState :=
  mkKernelState (queue s) (executing s) (execution_had_error s) None Idle.

Definition clear_queue (s : KernelState) : list QueueEntry * KernelState :=
  ((fun c => mkQueueEntry "" (qc_execution_id c)) <$> queue s,
   mkKernelState [] (executing s) (execution_had_error s) (interrupt_pending s) (status s)).

Definition ks_shutdown (s : KernelState)
    : (option string * list QueueEntry) * KernelState :=
  let exec := executing s in
  let s1 := mkKernelState (queue s) None (execution_had_error s)
              (interrupt_pending s) (status s) in
  let '(queued, s2) := clear_queue s1 in
  ((exec, queued),
   mkKernelState (queue s2) (executing s2) false None ShuttingDown).

Definition queued_entries (s : KernelState) : list QueueEntry :=
  (fun c => mkQueueEntry "" (qc_execution_id c)) <$> queue s.

Definition executing_entry (s : KernelState) : option QueueEntry :=
  (fun eid => mkQueueEntry "" eid) <$> executing s.

(** [process_next]: pop the next cell and send it to the kernel. *)
Definition process_next (w : World) : World * result string unit :=
  let s := ks w in
  match executing s, interrupt_pending s, queue s with
  | Some _, _, _ => (w, Ok tt)
  | None, Some _, _ => (w, Ok tt)
  | None, None, [] => (w, Ok tt)
  | None, None, cell :: rest =>
      let s' := mkKernelState rest (Some (qc_execution_id cell))
                  (execution_had_error s) None Busy in
      let doc_exec := to_doc_entry <$> executing_entry s' in
      let doc_queued := to_doc_entries (queued_entries s') in
      let d' := (sd_seq (set_execution_running (qc_execution_id cell))
                        (set_queue doc_exec doc_queued) (sd w)).1 in
      let '(c', r) := conn_execute
        (mkExecRequest (qc_execution_id cell) (qc_cell_id cell) (qc_code cell)) (conn w) in
      (mkWorld s' d' c', r)
  end.

(** [queue_cell]. *)
Definition queue_cell (now : Z) (execution_id : string) (cell_id : option string)
    (source : string) (w : World) : World * result string string :=
  let s := ks w in
  if decide (executing s = Some execution_id) then (w, Ok execution_id) else
  match list_find (fun c => qc_execution_id c = execution_id) (queue s) with
  | Some (_, existing) => (w, Ok (qc_execution_id existing))
  | None =>
      let s' := mkKernelState
        (queue s ++ [mkQueuedCell execution_id cell_id source now])
        (executing s) (execution_had_error s) (interrupt_pending s) (status s) in
      let doc_exec := to_doc_entry <$> executing_entry s' in
      let doc_queued := to_doc_entries (queued_entries s') in
      let d' := (sd_seq (create_execution execution_id)
                        (set_queue doc_exec doc_queued) (sd w)).1 in
      let '(w', r) := process_next (mkWorld s' d' (conn w)) in
      (w', match r with Ok _ => Ok execution_id | Err e => Err e end)
  end.

(** [execution_done]. *)
Definition execution_done (execution_id : string) (w : World)
    : World * result string unit :=
  let s := ks w in
  if decide (executing s = Some execution_id) then
    let success := negb (execution_had_error s) in
    let s' := mkKernelState (queue s) None false (interrupt_pending s) Idle in
    let doc_queued := to_doc_entries (queued_entries s') in
    let d' := (sd_seq (set_execution_done execution_id success)
                      (set_queue None doc_queued) (sd w)).1 in
    process_next (mkWorld s' d' (conn w))
  else (w, Ok tt).

(** [mark_execution_error]. *)
Definition mark_execution_error (execution_id : string) (s : KernelState)
    : bool * KernelState :=
  if decide (executing s = Some execution_id) then
    (true, mkKernelState (queue s) (executing s) true (interrupt_pending s) (status s))
  else (false, s).

(** [interrupt]. *)
Definition ks_interrupt (s : KernelState)
    : (option QueueEntry * list QueueEntry) * KernelState :=
  let interrupted := (fun eid => mkQueueEntry "" eid) <$> executing s in
  let pending := qe_execution_id <$> interrupted in
  let '(cleared, s1) := clear_queue
    (mkKernelState (queue s) None (execution_had_error s) pending (status s)) in
  ((interrupted, cleared),
   mkKernelState (queue s1) None false pending
     (match pending with Some _ => Busy | None => Idle end)).

(** [kernel_idle]. *)
Definition kernel_idle (execution_id : option string) (w : World)
    : World * result string unit :=
  let s := ks w in
  match interrupt_pending s with
  | Some pending =>
      if decide (Some pending = execution_id) then
        process_next (mkWorld
          (mkKernelState (queue s) (executing s) (execution_had_error s) None Idle)
          (sd w) (conn w))
      else (w, Ok tt)
  | None => (w, Ok tt)
  end.

(** [kernel_died]. *)
Definition kernel_died (s : KernelState)
    : (option string * list QueueEntry) * KernelState :=
  match status s with
  | Dead | ShuttingDown => ((None, []), s)
  | _ =>
      let interrupted := executing s in
      let '(cleared, s1) := clear_queue
        (mkKernelState (queue s) None (execution_had_error s) (interrupt_pending s) Dead) in
      ((interrupted, cleared), s1)
  end.

Definition is_running (s : KernelState) : bool :=
  match status s with Dead | ShuttingDown => false | _ => true end.

(** [write_queue_to_state_doc]. *)
Definition write_queue_to_state_doc (w : World) : World :=
  let doc_exec := to_doc_entry <$> executing_entry (ks w) in
  let doc_queued := to_doc_entries (queued_entries (ks w)) in
  mkWorld (ks w) (set_queue doc_exec doc_queued (sd w)).1 (conn w).

End WithStateDoc.

(** ** Runs of the state machine *)

(** One call on the queue, as the runtime agent makes them.  [KLaunched] is the
    [reset(); set_idle()] pair of a completed launch. *)
Inductive kop :=
| KLaunched
| KSubmit (now : Z) (execution_id : string) (cell_id : option string) (source : string)
| KDone (execution_id : string)
| KError (execution_id : string)
| KClear
| KInterrupt
| KIdle (execution_id : option string)
| KDied
| KShutdown
| KWriteQueue.

Section Runs.
Context `{SD : StateDoc}.

Definition with_ks (w : World) (s : KernelState) : World := mkWorld s (sd w) (conn w).

Definition kstep (w : World) (op : kop) : World :=
  match op with
  | KLaunched => with_ks w (ks_set_idle (ks_reset (ks w)))
  | KSubmit now eid cell src => (queue_cell now eid cell src w).1
  | KDone eid => (execution_done eid w).1
  | KError eid => with_ks w (mark_execution_error eid (ks w)).2
  | KClear => with_ks w (clear_queue (ks w)).2
  | KInterrupt => with_ks w (ks_interrupt (ks w)).2
  | KIdle eid => (kernel_idle eid w).1
  | KDied => with_ks w (kernel_died (ks w)).2
  | KShutdown => with_ks w (ks_shutdown (ks w)).2
  | KWriteQueue => write_queue_to_state_doc w
  end.

Definition krun (w : World) (ops : list kop) : World := foldl kstep w ops.

Definition kinit (d : sdoc) (c : Conn) : World := mkWorld ks_new d c.
End Runs.

(** ** Abstract specification: one first-in-first-out list of requests

    The list [pend] holds every request accepted and not yet finished, oldest
    first.  While no interrupt is being waited for ([gate] is [None]) its head
    is the running request; [stopped] says whether the kernel is gone. *)
Record Fifo := mkFifo {
  pend : list ExecRequest;
  gate : option string;
  stopped : bool;
}.

Definition fifo_running (a : Fifo) : option string :=
  match gate a with None => er_execution_id <$> head (pend a) | Some _ => None end.

Definition fifo_waiting (a : Fifo) : list ExecRequest :=
  match gate a with None => tail (pend a) | Some _ => pend a end.

(** One call on the specification: the next state and the request it starts.  An
    interrupt closes the gate on what runs; only the idle report of that execution, a new
    launch or a shutdown opens it again. *)
Definition fifo_step (a : Fifo) (op : kop) : Fifo * list ExecRequest :=
  match op with
  | KLaunched => (mkFifo [] None false, [])
  | KSubmit _ eid cell src =>
      if decide (eid ∈ (er_execution_id <$> pend a)) then (a, []) else
      let r := mkExecRequest eid cell src in
      match gate a, pend a with
      | None, [] => (mkFifo [r] None false, [r])
      | g, p => (mkFifo (p ++ [r]) g (stopped a), [])
      end
  | KDone eid =>
      if decide (fifo_running a = Some eid) then
        (mkFifo (tail (pend a)) None false, take 1 (tail (pend a)))
      else (a, [])
  | KError _ | KWriteQueue => (a, [])
  | KClear =>
      (mkFifo (match gate a with None => take 1 (pend a) | Some _ => [] end)
         (gate a) (stopped a), [])
  | KInterrupt =>
      (mkFifo [] (match gate a with Some g => Some g | None => fifo_running a end) false, [])
  | KIdle eid =>
      match gate a with
      | Some g => if decide (Some g = eid)
                  then (mkFifo (pend a) None false, take 1 (pend a)) else (a, [])
      | None => (a, [])
      end
  | KDied => if stopped a then (a, []) else (mkFifo [] (gate a) true, [])
  | KShutdown => (mkFifo [] None true, [])
  end.

Definition fifo_init : Fifo := mkFifo [] None false.

Fixpoint fifo_run (a : Fifo) (ops : list kop) : Fifo * list ExecRequest :=
  match ops with
  | [] => (a, [])
  | op :: ops' =>
      let '(a1, started) := fifo_step a op in
      let '(a2, started') := fifo_run a1 ops' in
      (a2, started ++ started')
  end.

(** No interrupt is asked for while the idle report of an earlier one is awaited. *)
Fixpoint interrupts_apart (a : Fifo) (ops : list kop) : bool :=
  match ops with
  | [] => true
  | op :: ops' =>
      match op with KInterrupt => bool_decide (gate a = None) | _ => true end &&
      interrupts_apart (fifo_step a op).1 ops'
  end.

Definition request_of (c : QueuedCell) : ExecRequest :=
  mkExecRequest (qc_execution_id c) (qc_cell_id c) (qc_code c).

(** How a queue state represents a specification state. *)
Record represents (s : KernelState) (a : Fifo) : Prop := {
  rep_executing : executing s = fifo_running a;
  rep_queue : request_of <$> queue s = fifo_waiting a;
  rep_gate : interrupt_pending s = gate a;
  rep_stopped : is_running s = negb (stopped a);
  rep_nodup : NoDup (er_execution_id <$> pend a);
  rep_busy : forall eid, executing s = Some eid -> status s = Busy;
}.

Section Refinement.
Context `{SD : StateDoc}.
Implicit Types (w : World) (s : KernelState) (a : Fifo).

Lemma represents_new : represents ks_new fifo_init.
Proof. split; try done. constructor. Qed.

Lemma queue_ids_requests (q : list QueuedCell) :
  qc_execution_id <$> q = er_execution_id <$> (request_of <$> q).
Proof. rewrite <- list_fmap_compose. done. Qed.

(** [process_next] from a state whose running slot is free: it starts the head
    of the queue unless an interrupt is pending. *)
Lemma process_next_spec w a :
  executing (ks w) = None ->
  request_of <$> queue (ks w) = pend a ->
  interrupt_pending (ks w) = gate a ->
  NoDup (er_execution_id <$> pend a) ->
  let st := match gate a, pend a with None, _ :: _ => false | _, _ => stopped a end in
  is_running (ks w) = negb (stopped a) ->
  represents (ks (process_next w).1) (mkFifo (pend a) (gate a) st) /\
  sent (conn (process_next w).1) =
    sent (conn w) ++ match gate a with None => take 1 (pend a) | Some _ => [] end.
Proof.
  destruct w as [[q ex he ip st] d c], a as [p g stp]; simpl.
  intros -> <- <- Hnd Hrun. unfold process_next; simpl.
  destruct ip as [i|]; [|destruct q as [|cell q]]; simpl.
  - rewrite app_nil_r. split; [split|]; simpl; done.
  - rewrite app_nil_r. split; [split|]; simpl; done.
  - split; [split|]; simpl; try done.
Qed.

Lemma list_find_exec_None (q : list QueuedCell) eid :
  list_find (fun c => qc_execution_id c = eid) q = None <->
  eid ∉ (er_execution_id <$> (request_of <$> q)).
Proof.
  rewrite list_find_None, <- queue_ids_requests, Forall_forall.
  split.
  - intros H (c & -> & Hc)%list_elem_of_fmap. by apply (H c).
  - intros H c Hc <-. apply H, list_elem_of_fmap. eauto.
Qed.

Lemma represents_not_pending s a eid :
  represents s a ->
  (executing s <> Some eid /\
   list_find (fun c => qc_execution_id c = eid) (queue s) = None) <->
  eid ∉ (er_execution_id <$> pend a).
Proof.
  intros [Hex Hq Hg _ _ _]. rewrite list_find_exec_None, Hex, Hq.
  unfold fifo_running, fifo_waiting.
  destruct (gate a), (pend a) as [|r p]; simpl;
    rewrite ?not_elem_of_cons; naive_solver.
Qed.

Lemma kstep_submit_refines w a now eid cell src :
  represents (ks w) a ->
  let '(a', started) := fifo_step a (KSubmit now eid cell src) in
  represents (ks (kstep w (KSubmit now eid cell src))) a' /\
  sent (conn (kstep w (KSubmit now eid cell src))) = sent (conn w) ++ started.
Proof.
  intros Hrep. simpl. unfold queue_cell.
  pose proof (represents_not_pending _ _ eid Hrep) as Hpend.
  case_decide as Hin.
  - (* already accepted *)
    destruct (decide (executing (ks w) = Some eid)) as [|Hne].
    { simpl. by rewrite app_nil_r. }
    destruct (list_find _ _) as [[i c]|] eqn:Hf.
    { simpl. by rewrite app_nil_r. }
    exfalso. by apply Hpend in Hin.
  - apply Hpend in Hin as Hin'. destruct Hin' as [Hne Hf].
    rewrite decide_False, Hf by done. simpl.
    destruct Hrep as [Hex Hq Hg Hst Hnd Hb].
    set (d' := (sd_seq _ _ _).1). clearbody d'.
    unfold fifo_running, fifo_waiting in *.
    destruct w as [[q ex he ip st] d c], a as [p g stp]; simpl in *.
    destruct ip as [i|], g as [g|]; simplify_eq/=.
    + split; [split|]; simpl; rewrite ?fmap_app, ?app_nil_r, ?Hq; try done.
      by apply NoDup_snoc.
    + destruct p as [|r p]; simpl in *.
      * destruct q; [|done]. simpl. split; [split|]; simpl; try done.
        apply NoDup_singleton.
      * split; [split|]; simpl; rewrite ?fmap_app, ?app_nil_r, ?Hq; try done.
        rewrite app_comm_cons. by apply NoDup_snoc.
Qed.

Lemma kstep_done_refines w a eid :
  represents (ks w) a ->
  let '(a', started) := fifo_step a (KDone eid) in
  represents (ks (kstep w (KDone eid))) a' /\
  sent (conn (kstep w (KDone eid))) = sent (conn w) ++ started.
Proof.
  intros [Hex Hq Hg Hst Hnd Hb]. simpl. unfold execution_done. rewrite Hex.
  case_decide as Hrun; [|by rewrite app_nil_r].
  set (d' := (sd_seq _ _ _).1). clearbody d'.
  destruct w as [[q ex he ip st] d c], a as [p g stp]; simpl in *.
  unfold fifo_running, fifo_waiting in *; simpl in *.
  destruct g as [g|]; [done|]. destruct p as [|r p]; [done|]. simplify_eq/=.
  destruct (process_next_spec
    (mkWorld (mkKernelState q None false None Idle) d' c)
    (mkFifo (request_of <$> q) None false)) as [Hr Hs]; simpl; try done.
  { by apply NoDup_cons in Hnd as [_ ?]. }
  split; [|done]. by destruct q.
Qed.

Lemma kstep_idle_refines w a eid :
  represents (ks w) a ->
  let '(a', started) := fifo_step a (KIdle eid) in
  represents (ks (kstep w (KIdle eid))) a' /\
  sent (conn (kstep w (KIdle eid))) = sent (conn w) ++ started.
Proof.
  intros Hrep. pose proof Hrep as [Hex Hq Hg Hst Hnd Hb].
  cbn [kstep fifo_step]. unfold kernel_idle. rewrite Hg.
  destruct (gate a) as [g|] eqn:Ha; [|by rewrite app_nil_r].
  case_decide as He; [|by rewrite app_nil_r].
  unfold fifo_running, fifo_waiting in *. rewrite Ha in *.
  destruct w as [[q ex he ip st] d c], a as [p g' stp]; simpl in *. simplify_eq/=.
  destruct (process_next_spec
    (mkWorld (mkKernelState q None he None Idle) d c) (mkFifo (request_of <$> q) None false))
    as [Hr Hs]; simpl; try done.
  split; [|done]. by destruct q.
Qed.

(** Every call keeps the correspondence and sends exactly what the
    specification starts. *)
Lemma kstep_refines w a op :
  represents (ks w) a -> (op = KInterrupt -> gate a = None) ->
  let '(a', started) := fifo_step a op in
  represents (ks (kstep w op)) a' /\
  sent (conn (kstep w op)) = sent (conn w) ++ started.
Proof.
  intros Hrep Hint. destruct op;
    try solve [ by apply kstep_submit_refines | by apply kstep_done_refines
              | by apply kstep_idle_refines ];
    destruct Hrep as [Hex Hq Hg Hst Hnd Hb];
    destruct w as [[q ex he ip st] d c], a as [p g stp];
    unfold fifo_running, fifo_waiting in *; simpl in *; rewrite ?app_nil_r; simplify_eq/=.
  - split; [split|]; try done. constructor.
  - unfold mark_execution_error; simpl. case_decide; split; try done; split; done.
  - split; [split|]; simpl; try done; destruct g, p; simpl in *;
      solve [ done | constructor | apply NoDup_singleton ].
  - specialize (Hint eq_refl). subst g.
    split; [split|]; simpl; try done; destruct p; simpl in *; solve [ done | constructor ].
  - unfold kernel_died, is_running in *; simpl in *.
    destruct st, stp; simpl in *; rewrite ?app_nil_r; try done; (split; [|done]);
      (split; [..|]; try done); solve [ by destruct g | constructor ].
  - split; [split|]; simpl; try done. constructor.
  - split; [split|]; done.
Qed.

(** A second interrupt also leaves a queue: the empty one, with the gate open. *)
Lemma kstep_represents w a op :
  represents (ks w) a ->
  exists a', represents (ks (kstep w op)) a' /\
    (op = KInterrupt /\ sent (conn (kstep w op)) = sent (conn w) \/
     a' = (fifo_step a op).1 /\ sent (conn (kstep w op)) = sent (conn w) ++ (fifo_step a op).2).
Proof.
  intros Hrep. assert (op = KInterrupt \/ op <> KInterrupt) as [->|Hop] by (destruct op; naive_solver).
  - destruct Hrep as [Hex Hq Hg Hst Hnd Hb]. eexists (mkFifo [] (executing (ks w)) false).
    split; [|by left]. destruct w as [[q ex he ip st] d c], a as [p g stp]. simpl in *.
    split; simpl; try done; destruct ex; by try constructor.
  - pose proof (kstep_refines w a op Hrep ltac:(done)) as H. destruct (fifo_step a op) as [a' started].
    exists a'. destruct H. split; [done|by right].
Qed.

Lemma krun_represents w a ops : represents (ks w) a -> exists a', represents (ks (krun w ops)) a'.
Proof.
  revert w a. induction ops as [|op ops IH]; intros w a Hrep; [by exists a|].
  destruct (kstep_represents w a op Hrep) as (a' & Ha' & _). by apply (IH (kstep w op) a').
Qed.

Lemma krun_refines w a ops :
  represents (ks w) a -> interrupts_apart a ops = true ->
  let '(a', started) := fifo_run a ops in
  represents (ks (krun w ops)) a' /\
  sent (conn (krun w ops)) = sent (conn w) ++ started.
Proof.
  revert w a. induction ops as [|op ops IH]; intros w a Hrep Hap; simpl.
  - by rewrite app_nil_r.
  - simpl in Hap. apply andb_true_iff in Hap as [Hop Hap].
    assert (op = KInterrupt -> gate a = None) as Hg by (intros ->; by apply bool_decide_eq_true in Hop).
    pose proof (kstep_refines w a op Hrep Hg) as Hstep.
    destruct (fifo_step a op) as [a1 st1]. destruct Hstep as [Hrep1 Hs1].
    specialize (IH (kstep w op) a1 Hrep1 Hap).
    destruct (fifo_run a1 ops) as [a2 st2]. destruct IH as [Hrep2 Hs2].
    split; [done|]. unfold krun in *. simpl. rewrite Hs2, Hs1, app_assoc. done.
Qed.
End Refinement.

(** ** Properties of the queue *)

Section QueueProperties.
Context `{SD : StateDoc}.

(** C2. The queue refines the first-in-first-out specification with an interrupt gate.
    After any sequence of calls that asks for no second interrupt while the first one is
    awaited, the running request is the head of the specification's list, the local queue
    is its tail, the gate is closed on the interrupted execution until its idle report, a
    launch or a shutdown, and the requests sent to the kernel are exactly those the
    specification starts, in that order, with the submitted cell id and code, whatever the
    kernel connection and the document answer.  (A second interrupt opens the gate, against
    the comment of the code: [second_interrupt_opens_gate].) *)
Theorem queue_refines_fifo (d : sdoc) (c : Conn) (ops : list kop) :
  interrupts_apart fifo_init ops = true ->
  let w := krun (kinit d c) ops in
  let '(a, started) := fifo_run fifo_init ops in
  executing (ks w) = fifo_running a /\
  request_of <$> queue (ks w) = fifo_waiting a /\
  interrupt_pending (ks w) = gate a /\
  sent (conn w) = sent c ++ started.
Proof.
  intros Hap. pose proof (krun_refines (kinit d c) fifo_init ops represents_new Hap) as H.
  destruct (fifo_run fifo_init ops) as [a started]. destruct H as [[Hex Hq Hg _ _ _] Hs].
  done.
Qed.

Lemma represents_invariant s a :
  represents s a ->
  NoDup (qc_execution_id <$> queue s) /\
  (forall eid, executing s = Some eid ->
     (eid ∉ (qc_execution_id <$> queue s)) /\ interrupt_pending s = None /\ status s = Busy) /\
  (executing s = None -> interrupt_pending s = None -> queue s = []).
Proof.
  intros [Hex Hq Hg _ Hnd Hb]. rewrite !queue_ids_requests, Hq, Hex, Hg.
  unfold fifo_running, fifo_waiting in *. split_and!.
  - destruct (gate a), (pend a); simpl in *;
      solve [done | by apply NoDup_cons in Hnd as [_ ?]].
  - intros eid Heid. rewrite Heid in Hex. split_and!; [|by destruct (gate a)|eauto].
    destruct (gate a), (pend a); simplify_eq/=. by apply NoDup_cons in Hnd as [? _].
  - intros Hnone Hg0. rewrite Hg0 in *. destruct (pend a); [|done]. by destruct (queue s).
Qed.

Lemma krun_invariant d c ops :
  let s := ks (krun (kinit d c) ops) in
  NoDup (qc_execution_id <$> queue s) /\
  (forall eid, executing s = Some eid ->
     (eid ∉ (qc_execution_id <$> queue s)) /\ interrupt_pending s = None /\ status s = Busy) /\
  (executing s = None -> interrupt_pending s = None -> queue s = []).
Proof.
  destruct (krun_represents (kinit d c) fifo_init ops represents_new) as [a H].
  by eapply represents_invariant.
Qed.

(** In every reachable state no execution id is queued twice, the running
    execution is not also queued, an execution never runs while an interrupt is
    awaited, the status of a running queue is [Busy], and the queue never holds
    work back: when nothing runs and no interrupt is awaited it is empty. *)
Theorem queue_reachable_invariant (d : sdoc) (c : Conn) (ops : list kop) :
  let s := ks (krun (kinit d c) ops) in
  NoDup (qc_execution_id <$> queue s) /\
  (forall eid, executing s = Some eid ->
     (eid ∉ (qc_execution_id <$> queue s)) /\ interrupt_pending s = None /\ status s = Busy) /\
  (executing s = None -> interrupt_pending s = None -> queue s = []).
Proof. apply krun_invariant. Qed.

(** Signals and submissions that name an execution the queue does not run
    are ignored: a repeated submission returns the same id and changes nothing,
    and a completion, an error or an idle report for another execution leaves
    queue, document and connection untouched. *)
Theorem stale_calls_ignored (w : World) (now : Z) (eid : string) (cell : option string)
    (src : string) :
  (executing (ks w) = Some eid \/ (eid ∈ (qc_execution_id <$> queue (ks w))) ->
   queue_cell now eid cell src w = (w, Ok eid)) /\
  (executing (ks w) <> Some eid ->
   execution_done eid w = (w, Ok tt) /\
   mark_execution_error eid (ks w) = (false, ks w)) /\
  (interrupt_pending (ks w) <> Some eid -> kernel_idle (Some eid) w = (w, Ok tt)).
Proof.
  split_and!.
  - unfold queue_cell. intros H. case_decide as Hex; [done|].
    destruct H as [|Hin]; [done|].
    destruct (list_find _ _) as [[i c]|] eqn:Hf.
    + apply list_find_Some in Hf as (_ & -> & _). done.
    + apply list_find_exec_None in Hf. by rewrite <- queue_ids_requests in Hf.
  - intros H. unfold execution_done, mark_execution_error.
    by rewrite !decide_False.
  - intros H. unfold kernel_idle. destruct (interrupt_pending (ks w)) as [p|]; [|done].
    rewrite decide_False; [done|]. congruence.
Qed.

(** At most one request is sent per call, only while nothing was running
    and, after the call, no interrupt is awaited; the request sent is the one
    the queue then reports as running. *)
Theorem send_only_when_free (d : sdoc) (c : Conn) (ops : list kop) (op : kop) :
  let w := krun (kinit d c) ops in
  let w' := kstep w op in
  sent (conn w') = sent (conn w) \/
  exists r, sent (conn w') = sent (conn w) ++ [r] /\
    executing (ks w') = Some (er_execution_id r) /\
    interrupt_pending (ks w') = None /\
    (executing (ks w) = None \/ exists eid, op = KDone eid /\ executing (ks w) = Some eid).
Proof.
  destruct (krun_represents (kinit d c) fifo_init ops represents_new) as [a Hrep].
  simpl. set (w := krun _ _) in *. clearbody w.
  destruct (kstep_represents w a op Hrep) as (a' & Hrep' & [[-> Hs]|[Heq ->]]); [by left|].
  destruct (fifo_step a op) as [a1 st] eqn:Ha. simpl in Heq. subst a1. simpl.
  destruct st as [|r st]; [left; by rewrite app_nil_r|right]. exists r.
  rewrite (rep_executing _ _ Hrep'), (rep_gate _ _ Hrep'), (rep_executing _ _ Hrep).
  clear Hrep Hrep'. destruct a as [p g stp]. unfold fifo_running in *.
  destruct op; simpl in Ha; repeat case_match; simplify_eq/=; try done.
  all: try destruct p as [|r0 [|r1 p]]; simplify_eq/=.
  all: repeat split; eauto.
Qed.

(** A second interrupt opens the gate the first one closed.  Whatever the
    state, after two interrupts no idle report is awaited, so the next
    submission is sent at once. *)
Theorem second_interrupt_opens_gate (w : World) (now : Z) (eid : string)
    (cell : option string) (src : string) :
  let s2 := (ks_interrupt (ks_interrupt (ks w)).2).2 in
  interrupt_pending s2 = None /\ status s2 = Idle /\
  sent (conn (queue_cell now eid cell src (with_ks w s2)).1) =
    sent (conn w) ++ [mkExecRequest eid cell src].
Proof. done. Qed.

End QueueProperties.

(** ** The projection of the queue into the runtime state document *)

Section Projection.
Context `{SDL : StateDocLaws}.

(** The queue a client reads from the document is the local one. *)
Definition projected (w : World) : Prop :=
  read_explicit_queue (sd w) =
  mkQueueState (to_doc_entry <$> executing_entry (ks w))
    (to_doc_entries (queued_entries (ks w))).

(** The document knows every accepted execution, and calls the running one
    ["running"]. *)
Definition statuses_recorded (w : World) : Prop :=
  (forall eid, eid ∈ (qc_execution_id <$> queue (ks w)) ->
     is_Some (execution_status (sd w) eid)) /\
  (forall eid, executing (ks w) = Some eid ->
     execution_status (sd w) eid = Some "running").

Lemma sd_seq_ready {A B} (f : sdoc -> sdoc * result sdoc_error A)
    (g : sdoc -> sdoc * result sdoc_error B) d d1 x :
  f d = (d1, Ok x) -> sd_seq f g d = g d1.
Proof. intros Hf. unfold sd_seq. by rewrite Hf. Qed.

(** A started cell: the effect of [process_next] on document and state. *)
Lemma process_next_ready w :
  doc_ready (sd w) ->
  let w' := (process_next w).1 in
  doc_ready (sd w') /\
  (w' = w \/
   exists cell rest, queue (ks w) = cell :: rest /\
     executing (ks w) = None /\ interrupt_pending (ks w) = None /\
     queue (ks w') = rest /\ executing (ks w') = Some (qc_execution_id cell) /\
     projected w' /\
     forall eid, execution_status (sd w') eid =
       if decide (eid = qc_execution_id cell)
       then (fun _ => "running") <$> execution_status (sd w) eid
       else execution_status (sd w) eid).
Proof.
  destruct w as [[q ex he ip st] d c]; simpl. intros Hd.
  unfold process_next; simpl.
  destruct ex; [simpl; eauto|]. destruct ip; [simpl; eauto|].
  destruct q as [|cell q]; [simpl; eauto|].
  destruct (set_execution_running_ok (qc_execution_id cell) d Hd) as (d1 & Hr & Hd1).
  rewrite (sd_seq_ready _ _ _ _ _ Hr).
  pose proof (set_execution_running_status (qc_execution_id cell)) as Hst.
  match goal with |- context [set_queue ?e ?q' d1] =>
    destruct (set_queue_ok e q' d1 Hd1) as (d2 & Hq & Hd2);
    pose proof (fun eid => set_queue_status e q' d1 eid Hd1) as Hs2;
    pose proof (set_queue_read _ _ _ _ Hd1 Hq) as Hread
  end.
  rewrite Hq in *. simpl in *. split; [done|]. right.
  exists cell, q. split_and!; try done.
  intros eid. rewrite Hs2. specialize (Hst eid d Hd). rewrite Hr in Hst. simpl in Hst.
  rewrite Hst. by case_decide; subst.
Qed.

Lemma process_next_statuses w :
  doc_ready (sd w) -> NoDup (qc_execution_id <$> queue (ks w)) ->
  statuses_recorded w -> statuses_recorded (process_next w).1.
Proof.
  intros Hd Hnd [Hq Hex]. destruct (process_next_ready w Hd) as [_ [->|Hstep]]; [done|].
  destruct Hstep as (cell & rest & Hqw & Hexw & _ & Hq' & Hex' & _ & Hst).
  rewrite Hqw in *. simpl in *. apply NoDup_cons in Hnd as [Hnin _].
  split; [rewrite Hq'|rewrite Hex']; intros eid Heid; rewrite Hst.
  - case_decide as He; [subst; done|]. apply Hq. by right.
  - simplify_eq. rewrite decide_True by done.
    destruct (Hq (qc_execution_id cell)) as [x ->]; [by left|done].
Qed.

Lemma submit_ready w now eid cell src :
  doc_ready (sd w) -> NoDup (qc_execution_id <$> queue (ks w)) ->
  let w' := (queue_cell now eid cell src w).1 in
  doc_ready (sd w') /\
  (w' = w \/ projected w') /\
  (statuses_recorded w -> statuses_recorded w').
Proof.
  intros Hd Hnd. unfold queue_cell.
  case_decide as Hex; [by auto|].
  destruct (list_find _ _) as [[i c]|] eqn:Hf; [by auto|].
  apply list_find_exec_None in Hf. rewrite <- queue_ids_requests in Hf.
  destruct w as [[q ex he ip st] d c]; simpl in *.
  destruct (create_execution_ok eid d Hd) as (d1 & Hc & Hd1).
  rewrite (sd_seq_ready _ _ _ _ _ Hc).
  match goal with |- context [set_queue ?e ?q' d1] =>
    destruct (set_queue_ok e q' d1 Hd1) as (d2 & Hq & Hd2);
    pose proof (fun x => set_queue_status e q' d1 x Hd1) as Hs2;
    pose proof (set_queue_read _ _ _ _ Hd1 Hq) as Hread
  end.
  rewrite Hq in *. cbn [fst] in *.
  pose proof (fun x => create_execution_status eid x d Hd) as Hst.
  rewrite Hc in Hst. cbn [fst] in Hst.
  match goal with |- context [process_next ?w1] => set (w1' := w1) end.
  destruct (process_next w1') as [w2 r] eqn:Hp. cbn [fst].
  destruct (process_next_ready w1' Hd2) as [Hd3 Hstep]. rewrite Hp in Hd3, Hstep.
  cbn [fst] in Hd3, Hstep.
  split_and!; [done| |].
  - right. destruct Hstep as [->|(cell' & rest & _ & _ & _ & _ & _ & Hproj & _)];
      [|done]. exact Hread.
  - intros [Hsq Hse].
    pose proof (process_next_statuses w1' Hd2) as Hps. rewrite Hp in Hps. apply Hps.
    + unfold w1'; simpl. rewrite fmap_app. by apply NoDup_snoc.
    + unfold w1'; simpl in *. split; simpl.
      * intros x. rewrite fmap_app, elem_of_app, Hs2, Hst. simpl.
        intros [Hx | ->%list_elem_of_singleton].
        -- rewrite decide_False by (intros ->; done). by apply Hsq.
        -- by rewrite decide_True.
      * intros x Hx. rewrite Hs2, Hst, decide_False by (intros ->; done). by apply Hse.
Qed.

Lemma done_ready w eid :
  doc_ready (sd w) -> NoDup (qc_execution_id <$> queue (ks w)) ->
  (eid ∉ (qc_execution_id <$> queue (ks w))) ->
  let w' := (execution_done eid w).1 in
  doc_ready (sd w') /\
  (w' = w \/ projected w') /\
  (statuses_recorded w -> statuses_recorded w') /\
  (executing (ks w) = Some eid ->
   execution_status (sd w') eid =
     (fun _ => if execution_had_error (ks w) then "error" else "done")
       <$> execution_status (sd w) eid).
Proof.
  intros Hd Hnd Hnin. unfold execution_done.
  case_decide as Hex; [|by split_and!; [|left|..]].
  destruct w as [[q ex he ip st] d c]; simpl in *.
  destruct (set_execution_done_ok eid (negb he) d Hd) as (d1 & Hc & Hd1).
  rewrite (sd_seq_ready _ _ _ _ _ Hc).
  match goal with |- context [set_queue ?e ?q' d1] =>
    destruct (set_queue_ok e q' d1 Hd1) as (d2 & Hq & Hd2);
    pose proof (fun x => set_queue_status e q' d1 x Hd1) as Hs2;
    pose proof (set_queue_read _ _ _ _ Hd1 Hq) as Hread
  end.
  rewrite Hq in *. cbn [fst] in *.
  pose proof (fun x => set_execution_done_status eid (negb he) x d Hd) as Hst.
  rewrite Hc in Hst. cbn [fst] in Hst.
  match goal with |- context [process_next ?w1] => set (w1' := w1) end.
  destruct (process_next_ready w1' Hd2) as [Hd3 Hstep].
  split_and!; [done| | |].
  - right. destruct Hstep as [->|(cell' & rest & _ & _ & _ & _ & _ & Hproj & _)];
      [|done]. exact Hread.
  - intros [Hsq Hse]. apply process_next_statuses; try done.
    unfold w1'; simpl in *. split; simpl; [|done].
    intros x Hx. rewrite Hs2, Hst, decide_False by (intros ->; done). by apply Hsq.
  - intros _. destruct Hstep as [->|(cell' & rest & Hqw & _ & _ & _ & _ & _ & Hst')].
    + unfold w1'; simpl. rewrite Hs2, Hst, decide_True by done. by destruct he.
    + rewrite Hst'. unfold w1' in *; simpl in *. subst q. simpl in Hnin.
      rewrite decide_False by set_solver.
      rewrite Hs2, Hst, decide_True by done. by destruct he.
Qed.

Lemma idle_ready w eid :
  doc_ready (sd w) -> NoDup (qc_execution_id <$> queue (ks w)) ->
  let w' := (kernel_idle eid w).1 in
  doc_ready (sd w') /\
  (projected w -> projected w') /\
  (statuses_recorded w -> statuses_recorded w').
Proof.
  intros Hd Hnd. unfold kernel_idle.
  destruct (interrupt_pending (ks w)) as [p|]; [|done].
  case_decide; [|done].
  match goal with |- context [process_next ?w1] => set (w1' := w1) end.
  destruct (process_next_ready w1' Hd) as [Hd3 Hstep].
  split_and!; [done| |].
  - intros Hp. destruct Hstep as [->|(cell' & rest & _ & _ & _ & _ & _ & Hproj & _)];
      [|done]. exact Hp.
  - intros Hs. by apply process_next_statuses.
Qed.

(** Calls that only change the local state keep the recorded statuses when
    they keep or drop executions. *)
Lemma statuses_recorded_local w s :
  (forall eid, eid ∈ (qc_execution_id <$> queue s) ->
     eid ∈ (qc_execution_id <$> queue (ks w))) ->
  (forall eid, executing s = Some eid -> executing (ks w) = Some eid) ->
  statuses_recorded w -> statuses_recorded (with_ks w s).
Proof. intros Hq He [H1 H2]. split; simpl; eauto. Qed.

Lemma kstep_statuses w a op :
  represents (ks w) a -> doc_ready (sd w) ->
  statuses_recorded w ->
  doc_ready (sd (kstep w op)) /\ statuses_recorded (kstep w op).
Proof.
  intros Hrep Hd Hs.
  destruct (represents_invariant _ _ Hrep) as (Hnd & Hex & _).
  destruct op as [|now eid cell src|eid|eid| | |eid| | |]; cbn [kstep].
  - split; [done|]. apply statuses_recorded_local; simpl; set_solver.
  - destruct (submit_ready w now eid cell src Hd Hnd) as (? & ? & ?). auto.
  - destruct (decide (executing (ks w) = Some eid)) as [He|He].
    + destruct (done_ready w eid Hd Hnd) as (? & ? & ? & ?); [by apply Hex|]. auto.
    + unfold execution_done. by rewrite decide_False.
  - split; [done|]. unfold mark_execution_error. case_decide;
      apply statuses_recorded_local; simpl; set_solver.
  - split; [done|]. apply statuses_recorded_local; simpl; set_solver.
  - split; [done|]. apply statuses_recorded_local; simpl; set_solver.
  - destruct (idle_ready w eid Hd Hnd) as (? & ? & ?). auto.
  - split; [done|]. unfold kernel_died. destruct (status (ks w));
      apply statuses_recorded_local; simpl; set_solver.
  - split; [done|]. apply statuses_recorded_local; simpl; set_solver.
  - unfold write_queue_to_state_doc; simpl.
    match goal with |- context [set_queue ?e ?q' (sd w)] =>
      destruct (set_queue_ok e q' (sd w) Hd) as (d2 & Hq & Hd2);
      pose proof (fun x => set_queue_status e q' (sd w) x Hd) as Hs2
    end.
    rewrite Hq in *. split; [done|]. destruct Hs as [H1 H2].
    split; simpl in *; intros eid Heid; rewrite Hs2; eauto.
Qed.

Lemma krun_statuses w a ops :
  represents (ks w) a -> doc_ready (sd w) -> statuses_recorded w ->
  doc_ready (sd (krun w ops)) /\ statuses_recorded (krun w ops).
Proof.
  revert w a. induction ops as [|op ops IH]; intros w a Hrep Hd Hs; [done|].
  destruct (kstep_statuses w a op Hrep Hd Hs) as [Hd' Hs'].
  destruct (kstep_represents w a op Hrep) as (a' & Hrep' & _).
  by apply (IH _ a').
Qed.

(** Once the document shows the queue, every submission, completion, idle
    report and error mark keeps it showing exactly the running execution and
    the waiting ones in order; [write_queue_to_state_doc] restores this from
    any state. *)
Theorem document_shows_queue (w : World) (a : Fifo) (op : kop) :
  represents (ks w) a -> doc_ready (sd w) ->
  match op with
  | KSubmit _ _ _ _ | KDone _ | KIdle _ | KError _ => projected w
  | KWriteQueue => True
  | _ => False
  end ->
  projected (kstep w op).
Proof.
  intros Hrep Hd Hop. destruct (represents_invariant _ _ Hrep) as (Hnd & Hex & _).
  destruct op as [|now eid cell src|eid|eid| | |eid| | |]; try done; cbn [kstep].
  - by destruct (submit_ready w now eid cell src Hd Hnd) as (_ & [->|?] & _).
  - destruct (decide (executing (ks w) = Some eid)) as [He|He].
    + destruct (done_ready w eid Hd Hnd) as (_ & [->|?] & _); [by apply Hex|done..].
    + unfold execution_done. by rewrite decide_False.
  - unfold mark_execution_error. by case_decide.
  - by apply idle_ready.
  - unfold projected, write_queue_to_state_doc; simpl.
    match goal with |- context [set_queue ?e ?q' (sd w)] =>
      destruct (set_queue_ok e q' (sd w) Hd) as (d2 & Hq & Hd2) end.
    rewrite Hq. by apply (set_queue_read _ _ _ _ Hd).
Qed.

(** In every run from a ready document, every queued execution has an entry
    in the document and the running one is recorded as ["running"]. *)
Theorem running_is_recorded (d : sdoc) (c : Conn) (ops : list kop) :
  doc_ready d -> statuses_recorded (krun (kinit d c) ops).
Proof.
  intros Hd. apply (krun_statuses (kinit d c) fifo_init); [apply represents_new|done|].
  split; simpl; [set_solver|done].
Qed.

(** Completing the running execution records ["error"] when an error output
    was marked for it and ["done"] otherwise, in every reachable state, even
    when the completion starts the next queued execution. *)
Theorem completion_records_outcome (d : sdoc) (c : Conn) (ops : list kop) (eid : string) :
  let w := krun (kinit d c) ops in
  doc_ready d -> executing (ks w) = Some eid ->
  execution_status (sd (execution_done eid w).1) eid =
    Some (if execution_had_error (ks w) then "error" else "done").
Proof.
  intros w Hd Hex. destruct (krun_invariant d c ops) as (Hnd & Hi & _).
  destruct (krun_statuses (kinit d c) fifo_init ops) as [Hdw [_ Hst]];
    [apply represents_new|done|split; simpl; [set_solver|done]|].
  destruct (done_ready w eid Hdw Hnd) as (_ & _ & _ & Hdone); [by apply Hi|].
  rewrite Hdone by done. fold w in Hst. by rewrite (Hst eid Hex).
Qed.
End Projection.

(** ** A reference document

    The smallest document that keeps the promises of [StateDocLaws]: a status
    per execution and the published queue. *)
Module PlainDoc.

Record t := mk { statuses : gmap string string; published : QueueState }.

Definition set_status (eid st : string) (d : t) : t * result string unit :=
  (mk (alter (fun _ => st) eid (statuses d)) (published d), Ok tt).

#[export] Instance ops : StateDoc := {
  sdoc := t;
  sdoc_error := string;
  create_execution eid d :=
    (mk (<[eid := default "queued" (statuses d !! eid)]> (statuses d)) (published d), Ok tt);
  set_execution_running eid := set_status eid "running";
  set_execution_done eid b := set_status eid (if b then "done" else "error");
  set_execution_cancelled eid := set_status eid "cancelled";
  abort_inflight_executions d :=
    (mk ((fun st => if decide (st = "running") then "error"
                    else if decide (st = "queued") then "cancelled" else st)
           <$> statuses d) (published d),
     Ok (size (filter (fun p => p.2 = "running" \/ p.2 = "queued") (statuses d))));
  set_queue e q d := (mk (statuses d) (mkQueueState e q), Ok tt);
  read_explicit_queue := published;
  execution_status d eid := statuses d !! eid;
}.

Lemma lookup_set_status eid st d eid' :
  statuses (set_status eid st d).1 !! eid' =
  if decide (eid' = eid) then (fun _ => st) <$> statuses d !! eid else statuses d !! eid'.
Proof.
  simpl. case_decide as H; [subst; by rewrite lookup_alter_eq|by rewrite lookup_alter_ne].
Qed.

Lemma lookup_create (m : gmap string string) eid x eid' :
  <[eid := x]> m !! eid' = if decide (eid' = eid) then Some x else m !! eid'.
Proof.
  case_decide as H; [subst; by rewrite lookup_insert_eq|by rewrite lookup_insert_ne].
Qed.

#[export] Instance laws : StateDocLaws.
Proof.
  refine {| doc_ready _ := True |}; intros;
    first [ apply lookup_set_status | apply lookup_create | simpl in *; simplify_eq; eauto ].
Defined.

Definition empty : t := mk ∅ (mkQueueState None []).

End PlainDoc.

(** A short session on the reference document: two submissions, one failure,
    an interrupt. *)
Definition sample_ops : list kop :=
  [KLaunched; KSubmit 1 "e1" (Some "c1") "1/0"; KSubmit 2 "e2" None "2"; KError "e1"].

Lemma document_shows_queue_witness :
  projected (kstep (krun (kinit (SD := PlainDoc.ops) PlainDoc.empty (mkConn [] [])) sample_ops)
    (KDone "e1")).
Proof.
  apply (document_shows_queue (SDL := PlainDoc.laws) _
    (mkFifo [mkExecRequest "e1" (Some "c1") "1/0"; mkExecRequest "e2" None "2"] None false)).
  - split; try done. simpl. repeat constructor; set_solver.
  - exact I.
  - reflexivity.
Defined.

Lemma running_is_recorded_witness :
  statuses_recorded (krun (kinit (SD := PlainDoc.ops) PlainDoc.empty (mkConn [] [])) sample_ops).
Proof. apply (running_is_recorded (SDL := PlainDoc.laws)). exact I. Defined.

Lemma completion_records_outcome_witness :
  execution_status (StateDoc := PlainDoc.ops)
    (sd (execution_done "e1"
      (krun (kinit (SD := PlainDoc.ops) PlainDoc.empty (mkConn [] [])) sample_ops)).1) "e1" =
  Some "error".
Proof.
  apply (completion_records_outcome (SDL := PlainDoc.laws) PlainDoc.empty (mkConn [] [])
    sample_ops "e1"); [exact I|reflexivity].
Defined.

(** Two executions, an interrupt, a submission that waits for the idle report. *)
Definition interrupted_ops : list kop :=
  [KLaunched; KSubmit 1 "e1" (Some "c1") "x"; KSubmit 2 "e2" None "y"; KInterrupt;
   KSubmit 3 "e3" None "z"; KDone "e1"; KIdle (Some "e1")].

Lemma queue_refines_fifo_witness :
  let w := krun (kinit (SD := PlainDoc.ops) PlainDoc.empty (mkConn [] [])) interrupted_ops in
  executing (ks w) = Some "e3" /\ interrupt_pending (ks w) = None /\
  sent (conn w) = [mkExecRequest "e1" (Some "c1") "x"; mkExecRequest "e3" None "z"].
Proof.
  destruct (queue_refines_fifo (SD := PlainDoc.ops) PlainDoc.empty (mkConn [] []) interrupted_ops eq_refl)
    as (H1 & _ & H2 & H3). exact (conj H1 (conj H2 H3)).
Defined.
