(* ===== verification/Manifest.v ===== *)
(** * Recovery manifests

    Model of the data types of
    [crates/runtimed/src/notebook_sync_server/recovery.rs]: source
    fingerprints, the causal manifest stored beside every journaled snapshot,
    its version-1 predecessor and the migration between them.  JSON encoding
    ([serde_json]) and SHA-256 ([sha2]) are third-party code and enter as the
    interfaces [ManifestJson] and [Sha256]. *)

From S2P Require Import Prelude.

(** ** Order on change hashes

    [[u8; 32]] values are compared lexicographically by [sort_unstable]. *)

Abbreviation change_hash := bytes.

Fixpoint bytes_leb (x y : bytes) : bool :=
  match x, y with
  | [], _ => true
  | _ :: _, [] => false
  | a :: x', b :: y' =>
      if b2Z a <? b2Z b then true
      else if b2Z a =? b2Z b then bytes_leb x' y' else false
  end.

Definition bytes_le (x y : bytes) : Prop := bytes_leb x y = true.

#[export] Instance bytes_le_dec : RelDecision bytes_le.
Proof. intros x y. unfold bytes_le. apply _. Defined.

Lemma b2Z_inj a b : b2Z a = b2Z b -> a = b.
Proof. intros H. by rewrite <- (Z2b_b2Z a), H, Z2b_b2Z. Qed.

#[export] Instance bytes_le_total : Total bytes_le.
Proof.
  intros x. unfold bytes_le. induction x as [|a x IH]; intros [|b y]; simpl; auto.
  destruct (Z.ltb_spec (b2Z a) (b2Z b)), (Z.ltb_spec (b2Z b) (b2Z a)); auto; try lia.
  rewrite !(proj2 (Z.eqb_eq _ _)) by lia. apply IH.
Qed.

#[export] Instance bytes_le_trans : Transitive bytes_le.
Proof.
  intros x. unfold bytes_le. induction x as [|a x IH]; intros [|b y] [|c z]; simpl; auto;
    try done.
  destruct (Z.ltb_spec (b2Z a) (b2Z b)), (Z.ltb_spec (b2Z b) (b2Z c)),
    (Z.ltb_spec (b2Z a) (b2Z c)), (Z.eqb_spec (b2Z a) (b2Z b)),
    (Z.eqb_spec (b2Z b) (b2Z c)), (Z.eqb_spec (b2Z a) (b2Z c)); try done; try lia.
  apply IH.
Qed.

#[export] Instance bytes_le_antisymm : AntiSymm (=) bytes_le.
Proof.
  intros x. unfold bytes_le. induction x as [|a x IH]; intros [|b y]; simpl; try done.
  destruct (Z.ltb_spec (b2Z a) (b2Z b)), (Z.ltb_spec (b2Z b) (b2Z a)); try lia.
  - destruct (Z.eqb_spec (b2Z b) (b2Z a)); [lia|done].
  - destruct (Z.eqb_spec (b2Z a) (b2Z b)); [lia|done].
  - destruct (Z.eqb_spec (b2Z a) (b2Z b)) as [Hab|]; [|done].
    rewrite (proj2 (Z.eqb_eq _ _)) by lia. intros H1 H2.
    f_equal; [by apply b2Z_inj|by apply IH].
Qed.

(** [heads.sort_unstable()]. *)
Definition sort_heads (hs : list change_hash) : list change_hash :=
  merge_sort bytes_le hs.

Lemma sort_heads_eq (hs ks : list change_hash) :
  sort_heads hs = sort_heads ks <-> hs ≡ₚ ks.
Proof.
  unfold sort_heads. split; intros H.
  - rewrite <- (merge_sort_Permutation bytes_le hs), H. apply merge_sort_Permutation.
  - apply (Sorted_unique bytes_le); [apply Sorted_merge_sort, _..|].
    by rewrite !merge_sort_Permutation.
Qed.

(** ** Fingerprints and manifests *)

(** [SourceFingerprint]: the SHA-256 of the [.ipynb] bytes. *)
Record SourceFingerprint := mkFingerprint { fp_digest : bytes }.

#[export] Instance SourceFingerprint_eq_dec : EqDecision SourceFingerprint.
Proof. solve_decision. Defined.

(** Lower-case hexadecimal ([hex::encode], [ChangeHash::to_string]); distinct
    values print differently. *)
Class HexCodec := {
  hex_encode : bytes -> string;
  hex_encode_inj x y : hex_encode x = hex_encode y -> x = y;
}.

(** The SHA-256 implementation and what the code relies on: digests are 32
    bytes long. *)
Class Sha256 := {
  sha256 : bytes -> bytes;
  sha256_length bs : length (sha256 bs) = 32%nat;
}.

(** [SourceFingerprint::from_content], [source_fingerprint]. *)
Definition source_fingerprint `{Sha256} (content : bytes) : SourceFingerprint :=
  mkFingerprint (sha256 content).

Definition LEGACY_RECOVERY_MANIFEST_VERSION : Z := 1.
Definition RECOVERY_MANIFEST_VERSION : Z := 2.

(** [RecoverySourcePhase]. *)
Inductive RecoverySourcePhase := PhPending | PhDurablyStaged | PhReady | PhFailed.

#[export] Instance RecoverySourcePhase_eq_dec : EqDecision RecoverySourcePhase.
Proof. solve_decision. Defined.

(** [PendingFileCheckpoint]. *)
Record PendingFileCheckpoint := mkPending {
  pfc_canonical_path : string;
  pfc_file_fingerprint : SourceFingerprint;
  pfc_exported_heads : list change_hash;
  pfc_save_sequence : Z;
  pfc_source_generation : option Z;
}.

#[export] Instance PendingFileCheckpoint_eq_dec : EqDecision PendingFileCheckpoint.
Proof. solve_decision. Defined.

(** [RecoveryManifest]. *)
Record RecoveryManifest := mkManifest {
  version : Z;
  sequence : Z;
  notebook_id : string;
  canonical_path : option string;
  notebook_schema_version : Z;
  manifest_source_fingerprint : SourceFingerprint;
  source_generation : Z;
  source_phase : RecoverySourcePhase;
  staged_change_count : Z;
  peer_change_count : Z;
  durable_heads : list change_hash;
  exported_heads : list change_hash;
  file_save_sequence : option Z;
  pending_file_checkpoint : option PendingFileCheckpoint;
}.

#[export] Instance RecoveryManifest_eq_dec : EqDecision RecoveryManifest.
Proof. solve_decision. Defined.

(** [RecoveryManifest::new]. *)
Definition manifest_new (sequence : Z) (notebook_id : string) (path : option string)
    (schema_version : Z) (fp : SourceFingerprint) (generation : Z) : RecoveryManifest :=
  mkManifest RECOVERY_MANIFEST_VERSION sequence notebook_id path schema_version fp
    generation PhPending 0 0 [] [] None None.

(** [RecoveryManifest::file_checkpoint_covers_durable_heads]. *)
Definition file_checkpoint_covers_durable_heads (m : RecoveryManifest) : bool :=
  match canonical_path m, file_save_sequence m, durable_heads m with
  | None, _, _ | _, None, _ | _, _, [] => false
  | Some _, Some _, _ :: _ =>
      bool_decide (sort_heads (exported_heads m) = sort_heads (durable_heads m))
  end.

(** [LegacyRecoveryManifestV1]: version 1 kept every change hash. *)
Record LegacyRecoveryManifestV1 := mkLegacy {
  lg_version : Z;
  lg_sequence : Z;
  lg_notebook_id : string;
  lg_canonical_path : option string;
  lg_notebook_schema_version : Z;
  lg_source_fingerprint : SourceFingerprint;
  lg_source_generation : Z;
  lg_source_phase : RecoverySourcePhase;
  lg_staged_change_hashes : list change_hash;
  lg_peer_change_hashes : list change_hash;
  lg_durable_heads : list change_hash;
  lg_exported_heads : list change_hash;
  lg_file_save_sequence : option Z;
  lg_pending_file_checkpoint : option PendingFileCheckpoint;
}.

(** [impl From<LegacyRecoveryManifestV1> for RecoveryManifest]. *)
Definition manifest_of_legacy (l : LegacyRecoveryManifestV1) : RecoveryManifest :=
  mkManifest RECOVERY_MANIFEST_VERSION (lg_sequence l) (lg_notebook_id l)
    (lg_canonical_path l) (lg_notebook_schema_version l) (lg_source_fingerprint l)
    (lg_source_generation l) (lg_source_phase l)
    (u64_of_len (length (lg_staged_change_hashes l)))
    (u64_of_len (length (lg_peer_change_hashes l)))
    (lg_durable_heads l) (lg_exported_heads l) (lg_file_save_sequence l)
    (lg_pending_file_checkpoint l).

(** [serde_json] on manifests: the encoder, the version probe and the two
    decoders.  What the journal relies on: a manifest that encodes is read back
    unchanged, with its own version. *)
Class ManifestJson := {
  to_vec : RecoveryManifest -> result string bytes;
  header_version : bytes -> result string Z;
  parse_v1 : bytes -> result string LegacyRecoveryManifestV1;
  parse_v2 : bytes -> result string RecoveryManifest;
  to_vec_header m bs : to_vec m = Ok bs -> header_version bs = Ok (version m);
  to_vec_parse m bs : to_vec m = Ok bs -> parse_v2 bs = Ok m;
}.

(** [DecodedRecoveryManifest]. *)
Inductive DecodedRecoveryManifest :=
| Supported (manifest : RecoveryManifest) (source_version : Z)
| Unsupported (version : Z).

(** [decode_manifest]. *)
Definition decode_manifest `{ManifestJson} (bs : bytes)
    : result string DecodedRecoveryManifest :=
  let? v := header_version bs in
  if decide (v = LEGACY_RECOVERY_MANIFEST_VERSION) then
    let? l := parse_v1 bs in
    Ok (Supported (manifest_of_legacy l) LEGACY_RECOVERY_MANIFEST_VERSION)
  else if decide (v = RECOVERY_MANIFEST_VERSION) then
    let? m := parse_v2 bs in Ok (Supported m RECOVERY_MANIFEST_VERSION)
  else Ok (Unsupported v).

Lemma decode_encoded_manifest `{ManifestJson} m bs :
  version m = RECOVERY_MANIFEST_VERSION -> to_vec m = Ok bs ->
  decode_manifest bs = Ok (Supported m RECOVERY_MANIFEST_VERSION).
Proof.
  intros Hv Hb. unfold decode_manifest.
  rewrite (to_vec_header _ _ Hb), Hv. simpl. by rewrite (to_vec_parse _ _ Hb).
Qed.

(** ** Setters

    One field of a manifest replaced, as the code's [manifest.field = value]. *)

Definition set_sequence (x : Z) (m : RecoveryManifest) : RecoveryManifest :=
  mkManifest (version m) x (notebook_id m) (canonical_path m)
    (notebook_schema_version m) (manifest_source_fingerprint m) (source_generation m)
    (source_phase m) (staged_change_count m) (peer_change_count m) (durable_heads m)
    (exported_heads m) (file_save_sequence m) (pending_file_checkpoint m).
Definition set_canonical_path (x : option string) (m : RecoveryManifest) :=
  mkManifest (version m) (sequence m) (notebook_id m) x
    (notebook_schema_version m) (manifest_source_fingerprint m) (source_generation m)
    (source_phase m) (staged_change_count m) (peer_change_count m) (durable_heads m)
    (exported_heads m) (file_save_sequence m) (pending_file_checkpoint m).
Definition set_source_fingerprint (x : SourceFingerprint) (m : RecoveryManifest) :=
  mkManifest (version m) (sequence m) (notebook_id m) (canonical_path m)
    (notebook_schema_version m) x (source_generation m)
    (source_phase m) (staged_change_count m) (peer_change_count m) (durable_heads m)
    (exported_heads m) (file_save_sequence m) (pending_file_checkpoint m).
Definition set_source_generation (x : Z) (m : RecoveryManifest) :=
  mkManifest (version m) (sequence m) (notebook_id m) (canonical_path m)
    (notebook_schema_version m) (manifest_source_fingerprint m) x
    (source_phase m) (staged_change_count m) (peer_change_count m) (durable_heads m)
    (exported_heads m) (file_save_sequence m) (pending_file_checkpoint m).
Definition set_source_phase (x : RecoverySourcePhase) (m : RecoveryManifest) :=
  mkManifest (version m) (sequence m) (notebook_id m) (canonical_path m)
    (notebook_schema_version m) (manifest_source_fingerprint m) (source_generation m)
    x (staged_change_count m) (peer_change_count m) (durable_heads m)
    (exported_heads m) (file_save_sequence m) (pending_file_checkpoint m).
Definition set_staged_change_count (x : Z) (m : RecoveryManifest) :=
  mkManifest (version m) (sequence m) (notebook_id m) (canonical_path m)
    (notebook_schema_version m) (manifest_source_fingerprint m) (source_generation m)
    (source_phase m) x (peer_change_count m) (durable_heads m)
    (exported_heads m) (file_save_sequence m) (pending_file_checkpoint m).
Definition set_peer_change_count (x : Z) (m : RecoveryManifest) :=
  mkManifest (version m) (sequence m) (notebook_id m) (canonical_path m)
    (notebook_schema_version m) (manifest_source_fingerprint m) (source_generation m)
    (source_phase m) (staged_change_count m) x (durable_heads m)
    (exported_heads m) (file_save_sequence m) (pending_file_checkpoint m).
Definition set_durable_heads (x : list change_hash) (m : RecoveryManifest) :=
  mkManifest (version m) (sequence m) (notebook_id m) (canonical_path m)
    (notebook_schema_version m) (manifest_source_fingerprint m) (source_generation m)
    (source_phase m) (staged_change_count m) (peer_change_count m) x
    (exported_heads m) (file_save_sequence m) (pending_file_checkpoint m).
Definition set_exported_heads (x : list change_hash) (m : RecoveryManifest) :=
  mkManifest (version m) (sequence m) (notebook_id m) (canonical_path m)
    (notebook_schema_version m) (manifest_source_fingerprint m) (source_generation m)
    (source_phase m) (staged_change_count m) (peer_change_count m) (durable_heads m)
    x (file_save_sequence m) (pending_file_checkpoint m).
Definition set_file_save_sequence (x : option Z) (m : RecoveryManifest) :=
  mkManifest (version m) (sequence m) (notebook_id m) (canonical_path m)
    (notebook_schema_version m) (manifest_source_fingerprint m) (source_generation m)
    (source_phase m) (staged_change_count m) (peer_change_count m) (durable_heads m)
    (exported_heads m) x (pending_file_checkpoint m).
Definition set_pending_file_checkpoint (x : option PendingFileCheckpoint)
    (m : RecoveryManifest) :=
  mkManifest (version m) (sequence m) (notebook_id m) (canonical_path m)
    (notebook_schema_version m) (manifest_source_fingerprint m) (source_generation m)
    (source_phase m) (staged_change_count m) (peer_change_count m) (durable_heads m)
    (exported_heads m) (file_save_sequence m) x.

(** ** A concrete hexadecimal codec

    The lower-case encoding itself, as an instance of the interface. *)
Module PlainHex.

Definition hex_digit (n : Z) : Ascii.ascii :=
  Ascii.ascii_of_N (Z.to_N (if n <? 10 then 48 + n else 87 + n)).

Fixpoint encode (bs : bytes) : string :=
  match bs with
  | [] => EmptyString
  | b :: bs' => String (hex_digit (b2Z b / 16)) (String (hex_digit (b2Z b mod 16)) (encode bs'))
  end.

Lemma hex_digits_inj (a b : byte) :
  hex_digit (b2Z a / 16) = hex_digit (b2Z b / 16) ->
  hex_digit (b2Z a mod 16) = hex_digit (b2Z b mod 16) -> a = b.
Proof.
  assert (forall n m, 0 <= n < 16 -> 0 <= m < 16 -> hex_digit n = hex_digit m -> n = m)
    as Hd.
  { intros n m Hn Hm E. apply (f_equal Ascii.N_of_ascii) in E. unfold hex_digit in E.
    rewrite !Ascii.N_ascii_embedding in E by (repeat case_match; lia).
    destruct (Z.ltb_spec n 10), (Z.ltb_spec m 10); lia. }
  pose proof (b2Z_bounds a). pose proof (b2Z_bounds b). intros H1 H2.
  apply Hd in H1; [|split; [apply Z.div_pos; lia|apply Z.div_lt_upper_bound; lia]..].
  apply Hd in H2; [|apply Z.mod_pos_bound; lia..].
  apply b2Z_inj. rewrite (Z.div_mod (b2Z a) 16), (Z.div_mod (b2Z b) 16) by lia. congruence.
Qed.

Lemma encode_inj x y : encode x = encode y -> x = y.
Proof.
  revert y. induction x as [|a x IH]; intros [|b y] E; simplify_eq/=; [done|].
  f_equal; [by apply hex_digits_inj|by apply IH].
Qed.

#[export] Instance plain_hex : HexCodec := {| hex_encode := encode; hex_encode_inj := encode_inj |}.
End PlainHex.

(** ** A concrete manifest codec and digest

    Instances of the two interfaces that run: a manifest is written as the
    binary numeral of its code (the empty text stands for one version-1
    manifest), and the digest is a polynomial checksum in 32 bytes.  Examples are
    evaluated with these. *)
Module PlainCodec.

#[export] Instance byte_countable : Countable byte :=
  inj_countable' Byte.to_N (fun n => default Byte.x00 (Byte.of_N n)) ltac:(
    intros b; simpl; by rewrite Byte.of_to_N).

#[export] Instance fingerprint_countable : Countable SourceFingerprint :=
  inj_countable' fp_digest mkFingerprint ltac:(by intros []).

#[export] Instance phase_countable : Countable RecoverySourcePhase :=
  inj_countable'
    (fun p => match p with PhPending => 0 | PhDurablyStaged => 1 | PhReady => 2 | PhFailed => 3 end)
    (fun n => match n with 0 => PhPending | 1 => PhDurablyStaged | 2 => PhReady | _ => PhFailed end)
    ltac:(by intros []).

#[export] Instance pending_countable : Countable PendingFileCheckpoint :=
  inj_countable'
    (fun c => ((pfc_canonical_path c, pfc_file_fingerprint c),
               (pfc_exported_heads c, (pfc_save_sequence c, pfc_source_generation c))))
    (fun '((p, f), (h, (s, g))) => mkPending p f h s g) ltac:(by intros []).

#[export] Instance manifest_countable : Countable RecoveryManifest :=
  inj_countable'
    (fun m =>
       ((((version m, sequence m), (notebook_id m, canonical_path m)),
         ((notebook_schema_version m, manifest_source_fingerprint m),
          (source_generation m, source_phase m))),
        (((staged_change_count m, peer_change_count m),
          (durable_heads m, exported_heads m)),
         (file_save_sequence m, pending_file_checkpoint m))))
    (fun '((((a, b), (c, d)), ((e, f), (g, h))), (((i, j), (k, l)), (n, o))) =>
       mkManifest a b c d e f g h i j k l n o) ltac:(by intros []).

(** The bits of a positive, eight to a byte: [acc] holds the bits below weight
    [2 ^ k] of the current byte. *)
Fixpoint pos_bytes_from (k : nat) (acc w : Z) (p : positive) : bytes :=
  match p with
  | xH => [Z2b (acc + w)]
  | xO p' => match k with
             | O => Z2b acc :: pos_bytes_from 7 0 1 p'
             | S k' => pos_bytes_from k' acc (2 * w) p'
             end
  | xI p' => match k with
             | O => Z2b (acc + w) :: pos_bytes_from 7 0 1 p'
             | S k' => pos_bytes_from k' (acc + w) (2 * w) p'
             end
  end.

Definition pos_bytes (p : positive) : bytes := pos_bytes_from 7 0 1 p.

Lemma from_pos_bytes_from k acc w p :
  (k <= 7)%nat -> w = 2 ^ (7 - Z.of_nat k) -> 0 <= acc < w ->
  from_le_bytes (pos_bytes_from k acc w p) = acc + w * Zpos p.
Proof.
  revert k acc w. induction p as [p IH|p IH|]; intros k acc w Hk Hw Hacc.
  3: { cbn [pos_bytes_from from_le_bytes]. rewrite b2Z_Z2b.
       assert (w <= 2 ^ 7) by (subst w; apply Z.pow_le_mono_r; lia).
       rewrite Z.mod_small; lia. }
  all: destruct k as [|k]; cbn [pos_bytes_from from_le_bytes].
  1, 3: change (2 ^ (7 - Z.of_nat 0)) with 128 in Hw; rewrite b2Z_Z2b, Z.mod_small by lia;
    rewrite IH by (simpl; lia); lia.
  all: assert (2 * w = 2 ^ (7 - Z.of_nat k)) as Hw2 by
    (subst w; rewrite <- Z.pow_succ_r by lia; f_equal; lia);
    rewrite IH by lia; lia.
Qed.

Lemma from_pos_bytes p : from_le_bytes (pos_bytes p) = Zpos p.
Proof. unfold pos_bytes. rewrite from_pos_bytes_from; simpl; lia. Qed.

Definition parse (bs : bytes) : result string RecoveryManifest :=
  match decode (Z.to_pos (from_le_bytes bs)) with Some m => Ok m | None => Err "not a manifest" end.

Lemma parse_encode m : parse (pos_bytes (encode m)) = Ok m.
Proof. unfold parse. by rewrite from_pos_bytes, Pos2Z.id, decode_encode. Qed.

Definition legacy0 : LegacyRecoveryManifestV1 :=
  mkLegacy 1 7 "nb" (Some "/a.ipynb") 3 (mkFingerprint [Byte.x01]) 1 PhReady
    [[Byte.x01]; [Byte.x02]] [] [[Byte.x02]] [[Byte.x02]] None None.

#[export] Program Instance plain_json : ManifestJson := {|
  to_vec m := Ok (pos_bytes (encode m));
  header_version bs :=
    if decide (bs = []) then Ok 1 else let? m := parse bs in Ok (version m);
  parse_v1 bs := if decide (bs = []) then Ok legacy0 else Err "not version 1";
  parse_v2 := parse;
|}.
Next Obligation.
  intros m bs [= <-]. rewrite decide_False; [by rewrite parse_encode|].
  intros Hn. pose proof (from_pos_bytes (encode m)) as H. by rewrite Hn in H.
Qed.
Next Obligation. intros m bs [= <-]. apply parse_encode. Qed.

#[export] Program Instance plain_sha : Sha256 := {|
  sha256 bs := to_le_bytes 32
    (foldl (fun h b => (h * 31 + b2Z b + 1) mod 2 ^ 16) 7 bs);
|}.
Next Obligation. intros bs. apply length_to_le_bytes. Qed.
End PlainCodec.
