(* ===== verification/Lifecycle.v ===== *)
(** * Room source and availability lifecycle

    Model of [crates/runtimed/src/notebook_sync_server/lifecycle.rs].  Every
    transition of [RoomLifecycle] runs under the [transition] mutex, so each is
    one function on the whole state: both watch channels, the task claim and the
    retained artifacts.  A room's history is a sequence of these calls. *)

From S2P Require Import Prelude Manifest.

(** ** Data *)

Inductive RoomSourceFingerprint :=
| NotApplicable
| FpPending
| Content (fp : SourceFingerprint).

Inductive RoomSourceProgressStage := StPreparing | StJournaling | StPublishing | StComplete.

Record RoomSourceProgress := mkProgress {
  stage : RoomSourceProgressStage;
  completed : Z;
  total : option Z;
}.

Record RoomSourceError := mkSourceError { code : string; message : string }.

Inductive RoomSourceRetry :=
| NotNeeded
| RegenerateIfPristine
| ResumeStaged
| ExplicitReconciliation.

Record RoomSourceStatus := mkSourceStatus {
  st_generation : Z;
  fingerprint : RoomSourceFingerprint;
  progress : RoomSourceProgress;
  error : option RoomSourceError;
  retry : RoomSourceRetry;
}.

Inductive RoomSourceState :=
| Preparing (st : RoomSourceStatus)
| Publishing (st : RoomSourceStatus)
| Ready (st : RoomSourceStatus)
| Failed (st : RoomSourceStatus).

Definition source_status (s : RoomSourceState) : RoomSourceStatus :=
  match s with Preparing st | Publishing st | Ready st | Failed st => st end.

Definition generation (s : RoomSourceState) : Z := st_generation (source_status s).

Definition is_in_progress (s : RoomSourceState) : bool :=
  match s with Preparing _ | Publishing _ => true | _ => false end.

Record RoomCapabilities := mkCaps {
  read_projection : bool;
  read_document : bool;
  mutate : bool;
  execute : bool;
}.

Definition caps_attached : RoomCapabilities := mkCaps false false false false.
Definition caps_projection_ready : RoomCapabilities := mkCaps true false false false.
Definition caps_interactive : RoomCapabilities := mkCaps true true true true.
Definition caps_degraded (read_projection read_document : bool) : RoomCapabilities :=
  mkCaps read_projection read_document false false.

Record RoomAvailabilityStatus := mkAvail {
  av_generation : Z;
  document_heads : list string;
  av_projection_heads : list string;
  capabilities : RoomCapabilities;
  reason : option string;
}.

Inductive RoomAvailability :=
| Attached (st : RoomAvailabilityStatus)
| ProjectionReady (st : RoomAvailabilityStatus)
| Interactive (st : RoomAvailabilityStatus)
| Degraded (st : RoomAvailabilityStatus).

Definition avail_status (a : RoomAvailability) : RoomAvailabilityStatus :=
  match a with
  | Attached st | ProjectionReady st | Interactive st | Degraded st => st
  end.

(** What the lifecycle reads of [NotebookProjection]; [np_content] stands for
    the cells and metadata it only carries. *)
Record NotebookProjection := mkProjection {
  load_generation : Z;
  projection_heads : list string;
  np_content : string;
}.

(** What the lifecycle reads of [StagedImportArtifact]; [sa_content] stands for
    the snapshot, sources and imports it only carries. *)
Record StagedImportArtifact := mkArtifact {
  sa_generation : Z;
  change_batches : list (list change_hash);
  staged_heads : list change_hash;
  sa_content : string;
}.

Inductive RoomSourceStart := Started (generation : Z) | Observing (generation : Z).

Record RoomLifecycle := mkLifecycle {
  source : RoomSourceState;
  avail : RoomAvailability;
  task_claimed : bool;
  staged : option StagedImportArtifact;
  prepared_projection : option NotebookProjection;
  projection : option NotebookProjection;
}.

(** ** Operations *)

Definition complete_progress (n : Z) : RoomSourceProgress := mkProgress StComplete n (Some n).

(** [RoomLifecycle::new]. *)
Definition lifecycle_new (heads : list string) : RoomLifecycle :=
  mkLifecycle
    (Ready (mkSourceStatus 0 NotApplicable (complete_progress 0) None NotNeeded))
    (Interactive (mkAvail 0 heads [] caps_interactive None))
    false None None None.

(** [staged_import], [projection] and [prepared_projection]: only the artifact
    of the asked generation is visible. *)
Definition staged_import (gen : Z) (l : RoomLifecycle) : option StagedImportArtifact :=
  a ← staged l; if decide (sa_generation a = gen) then Some a else None.

Definition projection_at (gen : Z) (l : RoomLifecycle) : option NotebookProjection :=
  p ← projection l; if decide (load_generation p = gen) then Some p else None.

Definition prepared_projection_at (gen : Z) (l : RoomLifecycle) : option NotebookProjection :=
  p ← prepared_projection l; if decide (load_generation p = gen) then Some p else None.

Definition latest_projection (l : RoomLifecycle) : option NotebookProjection := projection l.

(** The [Preparing]/[Attached] pair a new source generation starts in. *)
Definition fresh_preparing (gen : Z) : RoomSourceState :=
  Preparing (mkSourceStatus gen FpPending (mkProgress StPreparing 0 None) None
    RegenerateIfPristine).

Definition attached_at (gen : Z) (heads : list string) : RoomAvailability :=
  Attached (mkAvail gen heads [] caps_attached None).

(** [mark_source_required]. *)
Definition mark_source_required (l : RoomLifecycle) : RoomLifecycle * bool :=
  let advance :=
    let gen := saturating_add_u64 (generation (source l)) 1 in
    (mkLifecycle (fresh_preparing gen)
       (attached_at gen (document_heads (avail_status (avail l))))
       false None None (projection l), true) in
  match source l with
  | Preparing _ | Publishing _ => (l, true)
  | Ready st =>
      match fingerprint st with
      | NotApplicable => if decide (st_generation st = 0) then advance else (l, false)
      | _ => (l, false)
      end
  | Failed _ => (l, false)
  end.

(** [begin_source]. *)
Definition begin_source (l : RoomLifecycle) : RoomLifecycle * RoomSourceStart :=
  let gen := generation (source l) in
  if negb (is_in_progress (source l)) then (l, Observing gen)
  else
    (mkLifecycle (source l) (avail l) true (staged l) (prepared_projection l) (projection l),
     if task_claimed l then Observing gen else Started gen).

(** [retry_failed_claimed]. *)
Definition retry_failed_claimed (l : RoomLifecycle) : RoomLifecycle * option Z :=
  match source l with
  | Failed previous =>
      let gen := saturating_add_u64 (st_generation previous) 1 in
      (mkLifecycle (fresh_preparing gen)
         (attached_at gen (document_heads (avail_status (avail l))))
         true None None (projection l), Some gen)
  | _ => (l, None)
  end.

(** [resume_failed_staged_claimed]. *)
Definition resume_failed_staged_claimed (l : RoomLifecycle) : RoomLifecycle * option Z :=
  match source l with
  | Failed previous =>
      match staged_import (st_generation previous) l with
      | Some _ =>
          let st := mkSourceStatus (st_generation previous) (fingerprint previous)
            (mkProgress StPreparing (completed (progress previous))
               (total (progress previous))) None ResumeStaged in
          (mkLifecycle (Preparing st)
             (attached_at (st_generation st) (document_heads (avail_status (avail l))))
             true (staged l) (prepared_projection l) (projection l),
           Some (st_generation st))
      | None => (l, None)
      end
  | _ => (l, None)
  end.

(** [record_prepared_artifacts]. *)
Definition record_prepared_artifacts (gen : Z) (artifact : StagedImportArtifact)
    (proj : NotebookProjection) (l : RoomLifecycle) : RoomLifecycle * bool :=
  match source l with
  | Preparing st =>
      if decide (st_generation st = gen /\ sa_generation artifact = gen /\
                 load_generation proj = gen) then
        (mkLifecycle (source l) (avail l) (task_claimed l) (Some artifact) (Some proj)
           (projection l), true)
      else (l, false)
  | _ => (l, false)
  end.

(** Replace the source state only. *)
Definition with_source (s : RoomSourceState) (l : RoomLifecycle) : RoomLifecycle :=
  mkLifecycle s (avail l) (task_claimed l) (staged l) (prepared_projection l) (projection l).

(** [note_prepared]. *)
Definition note_prepared (gen : Z) (fp : SourceFingerprint) (total_cells : Z)
    (l : RoomLifecycle) : RoomLifecycle * bool :=
  match source l with
  | Preparing st =>
      if decide (st_generation st = gen) then
        (with_source (Preparing (mkSourceStatus (st_generation st) (Content fp)
           (mkProgress (stage (progress st)) (completed (progress st)) (Some total_cells))
           (error st) (retry st))) l, true)
      else (l, false)
  | _ => (l, false)
  end.

(** [note_journaling]. *)
Definition note_journaling (gen : Z) (l : RoomLifecycle) : RoomLifecycle * bool :=
  match source l with
  | Preparing st =>
      if decide (st_generation st = gen) then
        (with_source (Preparing (mkSourceStatus (st_generation st) (fingerprint st)
           (mkProgress StJournaling (completed (progress st)) (total (progress st)))
           (error st) (retry st))) l, true)
      else (l, false)
  | _ => (l, false)
  end.

Section WithHex.
Context `{HexCodec}.

(** [publish_projection_ready]. *)
Definition publish_projection_ready (gen : Z) (artifact : StagedImportArtifact)
    (proj : NotebookProjection) (heads : list string) (l : RoomLifecycle)
    : RoomLifecycle * bool :=
  if decide (generation (source l) = gen /\ sa_generation artifact = gen /\
             load_generation proj = gen) then
    let pheads := hex_encode <$> staged_heads artifact in
    let installed := fun s a =>
      mkLifecycle s a (task_claimed l) (Some artifact) (Some proj) (Some proj) in
    match source l with
    | Preparing st =>
        (installed
           (Publishing (mkSourceStatus (st_generation st) (fingerprint st)
              (mkProgress StPublishing 0 (Some (zlen (change_batches artifact))))
              (error st) ResumeStaged))
           (ProjectionReady (mkAvail gen heads pheads caps_projection_ready None)), true)
    | Failed st =>
        (installed
           (Failed (mkSourceStatus (st_generation st) (fingerprint st) (progress st)
              (error st) ResumeStaged))
           (Degraded (mkAvail gen heads pheads caps_projection_ready
              (message <$> error st))), false)
    | Publishing _ | Ready _ => (installed (source l) (avail l), false)
    end
  else (l, false).
End WithHex.

(** [note_published_batch]. *)
Definition note_published_batch (gen : Z) (completed_batches : Z) (heads : list string)
    (l : RoomLifecycle) : RoomLifecycle * bool :=
  match source l with
  | Publishing st =>
      if decide (st_generation st = gen) then
        (mkLifecycle
           (Publishing (mkSourceStatus (st_generation st) (fingerprint st)
              (mkProgress (stage (progress st)) completed_batches (total (progress st)))
              (error st) (retry st)))
           (ProjectionReady (mkAvail gen heads
              (av_projection_heads (avail_status (avail l))) caps_projection_ready None))
           (task_claimed l) (staged l) (prepared_projection l) (projection l), true)
      else (l, false)
  | _ => (l, false)
  end.

(** [complete_ready]. *)
Definition complete_ready (gen : Z) (cell_count : Z) (heads : list string)
    (l : RoomLifecycle) : RoomLifecycle * bool :=
  if decide (generation (source l) = gen /\ is_in_progress (source l) = true) then
    match projection_at gen l with
    | Some proj =>
        let st := source_status (source l) in
        (mkLifecycle
           (Ready (mkSourceStatus (st_generation st) (fingerprint st)
              (complete_progress cell_count) None NotNeeded))
           (Interactive (mkAvail gen heads (projection_heads proj) caps_interactive None))
           false None None (projection l), true)
    | None => (l, false)
    end
  else (l, false).

(** [complete_failed]. *)
Definition complete_failed (gen : Z) (cd msg : string) (l : RoomLifecycle)
    : RoomLifecycle * bool :=
  if decide (generation (source l) = gen /\ is_in_progress (source l) = true) then
    let st := source_status (source l) in
    let rt := match staged_import gen l with
              | Some _ => ResumeStaged | None => RegenerateIfPristine end in
    let retained := latest_projection l in
    (mkLifecycle
       (Failed (mkSourceStatus (st_generation st) (fingerprint st) (progress st)
          (Some (mkSourceError cd msg)) rt))
       (Degraded (mkAvail gen (document_heads (avail_status (avail l)))
          (default [] (projection_heads <$> retained))
          (match retained with Some _ => caps_projection_ready | None => caps_attached end)
          (Some msg)))
       false (staged l) (prepared_projection l) (projection l), true)
  else (l, false).

(** [mark_degraded_with_code], and its two callers [mark_degraded] and
    [mark_source_conflict]. *)
Definition mark_degraded_with_code (cd rsn : string) (heads : list string)
    (document_readable : bool) (l : RoomLifecycle) : RoomLifecycle :=
  let st := source_status (source l) in
  let gen := generation (source l) in
  let retained := latest_projection l in
  let rt :=
    if decide (cd = "source_conflict") then ExplicitReconciliation
    else match staged_import gen l with
         | Some _ => ResumeStaged | None => ExplicitReconciliation end in
  mkLifecycle
    (Failed (mkSourceStatus (st_generation st) (fingerprint st) (progress st)
       (Some (mkSourceError cd rsn)) rt))
    (Degraded (mkAvail gen heads (default [] (projection_heads <$> retained))
       (caps_degraded (bool_decide (is_Some retained)) document_readable) (Some rsn)))
    false (staged l) (prepared_projection l) (projection l).

Definition mark_degraded (rsn : string) (heads : list string) (document_readable : bool)
    (l : RoomLifecycle) : RoomLifecycle :=
  mark_degraded_with_code "source_degraded" rsn heads document_readable l.

Definition mark_source_conflict (rsn : string) (heads : list string) (l : RoomLifecycle)
    : RoomLifecycle :=
  mark_degraded_with_code "source_conflict" rsn heads true l.

(** [restore_recovered_pending]. *)
Definition restore_recovered_pending (gen : Z) (fp : SourceFingerprint) (cell_count : Z)
    (heads : list string) (l : RoomLifecycle) : RoomLifecycle :=
  mkLifecycle
    (Preparing (mkSourceStatus gen (Content fp) (mkProgress StPreparing 0 (Some cell_count))
       None ResumeStaged))
    (attached_at gen heads) false (staged l) (prepared_projection l) (projection l).

(** [publish_recovered_projection_ready]. *)
Definition publish_recovered_projection_ready (gen : Z) (proj : NotebookProjection)
    (heads : list string) (l : RoomLifecycle) : RoomLifecycle * bool :=
  match source l with
  | Preparing st =>
      if decide (st_generation st = gen /\ load_generation proj = gen) then
        (mkLifecycle
           (Publishing (mkSourceStatus (st_generation st) (fingerprint st)
              (mkProgress StPublishing (default 0 (total (progress st)))
                 (total (progress st))) (error st) (retry st)))
           (ProjectionReady (mkAvail gen heads (projection_heads proj)
              caps_projection_ready None))
           (task_claimed l) (staged l) (prepared_projection l) (Some proj), true)
      else (l, false)
  | _ => (l, false)
  end.

(** The state both restore conflicts install. *)
Definition restored_failure (gen : Z) (fp : SourceFingerprint) (cell_count : Z)
    (heads : list string) (cd rsn : string) (l : RoomLifecycle) : RoomLifecycle :=
  mkLifecycle
    (Failed (mkSourceStatus gen (Content fp) (complete_progress cell_count)
       (Some (mkSourceError cd rsn)) ExplicitReconciliation))
    (Degraded (mkAvail gen heads [] (caps_degraded false true) (Some rsn)))
    false (staged l) (prepared_projection l) (projection l).

(** [restore_incomplete_source]. *)
Definition restore_incomplete_source (gen : Z) (fp : SourceFingerprint) (cell_count : Z)
    (heads : list string) (rsn : string) (l : RoomLifecycle) : RoomLifecycle :=
  restored_failure gen fp cell_count heads "source_degraded" rsn l.

(** [restore_source_conflict]. *)
Definition restore_source_conflict (gen : Z) (fp : SourceFingerprint) (cell_count : Z)
    (heads : list string) (rsn : string) (l : RoomLifecycle) : RoomLifecycle :=
  restored_failure gen fp cell_count heads "source_conflict" rsn l.

(** [recover_failed]. *)
Definition recover_failed (cell_count : Z) (heads : list string) (proj : NotebookProjection)
    (l : RoomLifecycle) : RoomLifecycle * option Z :=
  match source l with
  | Failed previous =>
      let gen := saturating_add_u64 (st_generation previous) 1 in
      if decide (load_generation proj = gen) then
        (mkLifecycle
           (Ready (mkSourceStatus gen (fingerprint previous) (complete_progress cell_count)
              None NotNeeded))
           (Interactive (mkAvail gen heads (projection_heads proj) caps_interactive None))
           false (staged l) (prepared_projection l) (Some proj), Some gen)
      else (l, None)
  | _ => (l, None)
  end.

(** The ready state a committed revision installs. *)
Definition install_ready (gen : Z) (fp : SourceFingerprint) (cell_count : Z)
    (proj : NotebookProjection) (heads : list string) : RoomLifecycle :=
  mkLifecycle
    (Ready (mkSourceStatus gen (Content fp) (complete_progress cell_count) None NotNeeded))
    (Interactive (mkAvail gen heads (projection_heads proj) caps_interactive None))
    false None None (Some proj).

(** [promote_file_backed_checkpoint]. *)
Definition promote_file_backed_checkpoint (gen : Z) (fp : SourceFingerprint)
    (cell_count : Z) (proj : NotebookProjection) (heads : list string) (l : RoomLifecycle)
    : RoomLifecycle := install_ready gen fp cell_count proj heads.

(** [complete_external_source_revision]. *)
Definition complete_external_source_revision (gen : Z) (fp : SourceFingerprint)
    (cell_count : Z) (proj : NotebookProjection) (heads : list string) (l : RoomLifecycle)
    : RoomLifecycle := install_ready gen fp cell_count proj heads.

(** [complete_reconciliation]. *)
Definition complete_reconciliation (gen : Z) (fp : SourceFingerprint)
    (cell_count : Z) (proj : NotebookProjection) (heads : list string) (l : RoomLifecycle)
    : RoomLifecycle := install_ready gen fp cell_count proj heads.

(** [fail_reconciliation]. *)
Definition fail_reconciliation (gen : Z) (fp : SourceFingerprint) (cell_count : Z)
    (heads : list string) (rsn : string) (l : RoomLifecycle) : RoomLifecycle :=
  let retained := latest_projection l in
  mkLifecycle
    (Failed (mkSourceStatus gen (Content fp) (complete_progress cell_count)
       (Some (mkSourceError "source_degraded" rsn)) ExplicitReconciliation))
    (Degraded (mkAvail gen heads (default [] (projection_heads <$> retained))
       (caps_degraded (bool_decide (is_Some retained)) true) (Some rsn)))
    false None None (projection l).

(** ** Waiting on the watch channels

    The receiver observes a first value and then some later values of the
    channel; when the timeout fires first, the call reports [at_timeout], the
    value the channel holds at that moment. *)

Inductive RoomWaitResult (T : Type) := Reached (v : T) | Current (v : T).
Arguments Reached {T} v.
Arguments Current {T} v.

(** [wait_for_source_settled]: the first settled state observed. *)
Fixpoint wait_for_source_settled (now : RoomSourceState) (later : list RoomSourceState)
    (at_timeout : RoomSourceState) : RoomWaitResult RoomSourceState :=
  if negb (is_in_progress now) then Reached now
  else match later with
       | [] => Current at_timeout
       | s :: later' => wait_for_source_settled s later' at_timeout
       end.

(** [wait_for_projection_ready]. *)
Fixpoint wait_for_projection_ready (now : RoomAvailability) (later : list RoomAvailability)
    (at_timeout : RoomAvailability) : RoomWaitResult RoomAvailability :=
  match now with
  | ProjectionReady _ | Interactive _ => Reached now
  | Degraded _ => Current now
  | Attached _ =>
      match later with
      | [] => Current at_timeout
      | a :: later' => wait_for_projection_ready a later' at_timeout
      end
  end.

(** ** Histories of a room

    One constructor per transition; [lstep] runs it and reports the generation
    whose import task the call hands to its caller, if any. *)

Inductive lop :=
| OMarkRequired
| OBegin
| ORetry
| OResume
| ORecord (gen : Z) (artifact : StagedImportArtifact) (proj : NotebookProjection)
| ONotePrepared (gen : Z) (fp : SourceFingerprint) (total_cells : Z)
| ONoteJournaling (gen : Z)
| OPublish (gen : Z) (artifact : StagedImportArtifact) (proj : NotebookProjection)
    (heads : list string)
| OBatch (gen completed_batches : Z) (heads : list string)
| OCompleteReady (gen cell_count : Z) (heads : list string)
| OCompleteFailed (gen : Z) (cd msg : string)
| OMarkDegraded (rsn : string) (heads : list string) (document_readable : bool)
| OMarkConflict (rsn : string) (heads : list string)
| ORestorePending (gen : Z) (fp : SourceFingerprint) (cell_count : Z) (heads : list string)
| OPublishRecovered (gen : Z) (proj : NotebookProjection) (heads : list string)
| ORestoreIncomplete (gen : Z) (fp : SourceFingerprint) (cell_count : Z)
    (heads : list string) (rsn : string)
| ORestoreConflict (gen : Z) (fp : SourceFingerprint) (cell_count : Z)
    (heads : list string) (rsn : string)
| ORecoverFailed (cell_count : Z) (heads : list string) (proj : NotebookProjection)
| OPromote (gen : Z) (fp : SourceFingerprint) (cell_count : Z) (proj : NotebookProjection)
    (heads : list string)
| OExternalRevision (gen : Z) (fp : SourceFingerprint) (cell_count : Z)
    (proj : NotebookProjection) (heads : list string)
| OReconciled (gen : Z) (fp : SourceFingerprint) (cell_count : Z)
    (proj : NotebookProjection) (heads : list string)
| OFailReconciliation (gen : Z) (fp : SourceFingerprint) (cell_count : Z)
    (heads : list string) (rsn : string).

Section Histories.
Context `{HexCodec}.

Definition started (s : RoomSourceStart) : option Z :=
  match s with Started g => Some g | Observing _ => None end.

Definition lstep (o : lop) (l : RoomLifecycle) : RoomLifecycle * option Z :=
  match o with
  | OMarkRequired => (fst (mark_source_required l), None)
  | OBegin => let '(l', r) := begin_source l in (l', started r)
  | ORetry => retry_failed_claimed l
  | OResume => resume_failed_staged_claimed l
  | ORecord g a p => (fst (record_prepared_artifacts g a p l), None)
  | ONotePrepared g fp n => (fst (note_prepared g fp n l), None)
  | ONoteJournaling g => (fst (note_journaling g l), None)
  | OPublish g a p hs => (fst (publish_projection_ready g a p hs l), None)
  | OBatch g n hs => (fst (note_published_batch g n hs l), None)
  | OCompleteReady g n hs => (fst (complete_ready g n hs l), None)
  | OCompleteFailed g c m => (fst (complete_failed g c m l), None)
  | OMarkDegraded r hs d => (mark_degraded r hs d l, None)
  | OMarkConflict r hs => (mark_source_conflict r hs l, None)
  | ORestorePending g fp n hs => (restore_recovered_pending g fp n hs l, None)
  | OPublishRecovered g p hs => (fst (publish_recovered_projection_ready g p hs l), None)
  | ORestoreIncomplete g fp n hs r => (restore_incomplete_source g fp n hs r l, None)
  | ORestoreConflict g fp n hs r => (restore_source_conflict g fp n hs r l, None)
  | ORecoverFailed n hs p => (fst (recover_failed n hs p l), None)
  | OPromote g fp n p hs => (promote_file_backed_checkpoint g fp n p hs l, None)
  | OExternalRevision g fp n p hs => (complete_external_source_revision g fp n p hs l, None)
  | OReconciled g fp n p hs => (complete_reconciliation g fp n p hs l, None)
  | OFailReconciliation g fp n hs r => (fail_reconciliation g fp n hs r l, None)
  end.

Definition lrun (ops : list lop) (l : RoomLifecycle) : RoomLifecycle :=
  foldl (fun l o => fst (lstep o l)) l ops.

(** The claim an operation hands out when run after the history [ops]. *)
Definition granted (heads : list string) (ops : list lop) (o : lop) : option Z :=
  snd (lstep o (lrun ops (lifecycle_new heads))).

(** ** The room invariant *)

(** What is true of the two published states together. *)
Definition phase_ok (l : RoomLifecycle) : Prop :=
  match source l, avail l with
  | Preparing st, Attached a =>
      capabilities a = caps_attached /\ error st = None /\ reason a = None
  | Publishing st, ProjectionReady a =>
      capabilities a = caps_projection_ready /\ error st = None /\ reason a = None /\
      is_Some (projection_at (st_generation st) l)
  | Ready st, Interactive a =>
      capabilities a = caps_interactive /\ error st = None /\ reason a = None /\
      retry st = NotNeeded /\ stage (progress st) = StComplete /\
      task_claimed l = false
  | Failed st, Degraded a =>
      mutate (capabilities a) = false /\ execute (capabilities a) = false /\
      (read_projection (capabilities a) = true -> is_Some (projection l)) /\
      is_Some (error st) /\ reason a = message <$> error st /\
      (retry st = ResumeStaged -> is_Some (staged_import (st_generation st) l)) /\
      retry st <> NotNeeded /\
      task_claimed l = false
  | _, _ => False
  end.

Definition lifecycle_ok (l : RoomLifecycle) : Prop :=
  generation (source l) = av_generation (avail_status (avail l)) /\ phase_ok l.

Ltac unfold_ops :=
  unfold mark_source_required, begin_source, retry_failed_claimed,
    resume_failed_staged_claimed, record_prepared_artifacts, note_prepared,
    note_journaling, publish_projection_ready, note_published_batch, complete_ready,
    complete_failed, mark_degraded, mark_source_conflict, mark_degraded_with_code,
    restore_recovered_pending, publish_recovered_projection_ready,
    restore_incomplete_source, restore_source_conflict, restored_failure, recover_failed,
    promote_file_backed_checkpoint, complete_external_source_revision,
    complete_reconciliation, fail_reconciliation, install_ready, with_source,
    fresh_preparing, attached_at, latest_projection, complete_progress in *.

Lemma lifecycle_new_ok heads : lifecycle_ok (lifecycle_new heads).
Proof. by repeat split. Qed.

Ltac solve_phase :=
  unfold lifecycle_ok, phase_ok, staged_import, projection_at, generation,
    caps_degraded, complete_progress in *; simpl in *;
  destruct_and?; split_and?; intros; simplify_option_eq; eauto; try done.

Lemma lstep_ok o l : lifecycle_ok l -> lifecycle_ok (fst (lstep o l)).
Proof.
  destruct l as [s a tc stg pp pr]. intros Hok.
  destruct o; unfold lstep; unfold_ops; simpl in *.
  all: destruct s, a; try (by destruct Hok as [_ []]).
  all: repeat (case_match; simplify_eq/=; try done); solve_phase.
  all: by eapply bool_decide_eq_true.
Qed.

Lemma lrun_ok ops l : lifecycle_ok l -> lifecycle_ok (lrun ops l).
Proof.
  revert l. induction ops as [|o ops IH]; intros l Hl; [done|].
  apply IH. by apply lstep_ok.
Qed.

Lemma lrun_app ops1 ops2 l : lrun (ops1 ++ ops2) l = lrun ops2 (lrun ops1 l).
Proof. apply foldl_app. Qed.

(** ** Ownership of the import task *)

(** The calls that take back the claim of generation [g]: its two completions, the
    degradations, and the calls that install a whole recovered or committed generation. *)
Definition ends_claim (g : Z) (o : lop) : Prop :=
  match o with
  | OCompleteReady gen _ _ | OCompleteFailed gen _ _ => gen = g
  | OMarkDegraded _ _ _ | OMarkConflict _ _ | ORestorePending _ _ _ _
  | ORestoreIncomplete _ _ _ _ _ | ORestoreConflict _ _ _ _ _ | OPromote _ _ _ _ _
  | OExternalRevision _ _ _ _ _ | OReconciled _ _ _ _ _ | OFailReconciliation _ _ _ _ _ => True
  | _ => False
  end.

(** The task of generation [g] is handed out. *)
Definition owned (g : Z) (l : RoomLifecycle) : Prop :=
  task_claimed l = true /\ generation (source l) = g.

Lemma claimed_in_progress l :
  lifecycle_ok l -> task_claimed l = true -> is_in_progress (source l) = true.
Proof.
  intros [_ Hp] Hc. unfold phase_ok in Hp.
  destruct (source l), (avail l); try done; naive_solver.
Qed.

Lemma grant_unclaimed o l g :
  lifecycle_ok l -> snd (lstep o l) = Some g ->
  task_claimed l = false /\ owned g (fst (lstep o l)).
Proof.
  intros Hok Hg. pose proof (claimed_in_progress l Hok) as Hc. unfold owned, generation.
  destruct l as [s a tc stg pp pr]; destruct o; simpl in *; try done;
    unfold_ops; simpl in *; destruct s, tc; simplify_eq/=; try done; eauto;
    try (by specialize (Hc eq_refl)).
  case_match; simplify_eq/=; done.
Qed.

(** A claim is kept by every call that does not end it. *)
Lemma claim_kept_or_ended o l g :
  lifecycle_ok l -> owned g l ->
  owned g (fst (lstep o l)) \/ task_claimed (fst (lstep o l)) = false /\ ends_claim g o.
Proof.
  intros Hok [Hc Hg]. pose proof (claimed_in_progress l Hok Hc) as Hp.
  destruct l as [s a tc stg pp pr]; unfold owned, generation in *; simpl in *; subst tc.
  destruct o; unfold lstep; unfold_ops; destruct s; try done; simpl in *;
    repeat case_match; simplify_eq/=; unfold generation in *; simpl in *; naive_solver.
Qed.

Lemma claim_ends_once g ops l :
  lifecycle_ok l -> owned g l -> task_claimed (lrun ops l) = false ->
  exists pre o post, ops = pre ++ o :: post /\ ends_claim g o /\
    Forall (fun k => owned g (lrun (take k pre) l)) (seq 0 (S (length pre))) /\
    task_claimed (lrun (pre ++ [o]) l) = false.
Proof.
  revert l. induction ops as [|o ops IH]; intros l Hok Ho Hc; [destruct Ho as [Ho _]; simpl in Hc; congruence|].
  destruct (claim_kept_or_ended o l g Hok Ho) as [Ho'|[Hc' He]].
  - destruct (IH _ (lstep_ok o l Hok) Ho' Hc) as (pre & o' & post & -> & He & Hpre & Hend).
    exists (o :: pre), o', post. split_and!; [done..| |done].
    cbn [length]. rewrite <- cons_seq. constructor; [done|]. rewrite <- fmap_S_seq.
    apply Forall_fmap. by eapply Forall_impl; [exact Hpre|].
  - exists [], o, ops. split_and!; [done..| |done]. by apply Forall_singleton.
Qed.

(** The calls that name the generation they belong to. *)
Definition guarded_generation (o : lop) : option Z :=
  match o with
  | ORecord g _ _ | ONotePrepared g _ _ | ONoteJournaling g | OPublish g _ _ _
  | OBatch g _ _ | OCompleteReady g _ _ | OCompleteFailed g _ _
  | OPublishRecovered g _ _ => Some g
  | _ => None
  end.

(** The calls whose generation the caller chooses: recovery and committed
    revisions. *)
Definition chooses_generation (o : lop) : bool :=
  match o with
  | ORestorePending _ _ _ _ | ORestoreIncomplete _ _ _ _ _ | ORestoreConflict _ _ _ _ _
  | OPromote _ _ _ _ _ | OExternalRevision _ _ _ _ _ | OReconciled _ _ _ _ _
  | OFailReconciliation _ _ _ _ _ => true
  | _ => false
  end.

Lemma guarded_stale o l g :
  guarded_generation o = Some g -> g <> generation (source l) -> fst (lstep o l) = l.
Proof.
  intros Ho Hg. destruct l as [s a tc stg pp pr]. unfold generation in Hg.
  destruct o; simplify_eq/=; unfold_ops; unfold generation; destruct s; simpl in *;
    repeat case_match; try done; naive_solver.
Qed.

Lemma lstep_generation o l :
  chooses_generation o = false -> generation (source l) <= u64_max ->
  generation (source l) <= generation (source (fst (lstep o l))) <= u64_max.
Proof.
  intros Ho Hg. destruct l as [s a tc stg pp pr]; unfold generation in *; simpl in Hg.
  pose proof (saturating_add_u64_le (st_generation (source_status s)) 1 ltac:(lia) Hg).
  destruct o; try done; unfold lstep; unfold_ops; unfold generation;
    destruct s; simpl in *; repeat case_match; simplify_eq/=; lia.
Qed.







(** ** Claims *)

(** C10. The room invariant: after any history of transitions, the published
    source state and availability carry the same generation and move in step
    (preparing/attached, publishing/projection-ready with that generation's
    projection installed, ready/interactive, failed/degraded with the same error
    message), a failed room that says it can resume still holds the artifact to
    resume from, and peers may edit or run cells exactly when the source is
    ready. *)
Theorem lifecycle_invariant heads ops :
  let l := lrun ops (lifecycle_new heads) in
  lifecycle_ok l /\
  (mutate (capabilities (avail_status (avail l))) = true <->
     exists st, source l = Ready st) /\
  (execute (capabilities (avail_status (avail l))) = true <->
     exists st, source l = Ready st).
Proof.
  intros l. pose proof (lrun_ok ops _ (lifecycle_new_ok heads)) as Hok. fold l in Hok.
  split; [done|]. destruct Hok as [_ Hp]. unfold phase_ok in Hp.
  destruct (source l), (avail l); try done; simpl; destruct_and?.
  all: try match goal with Hc : capabilities _ = _ |- _ => rewrite Hc; clear Hc end.
  all: split; split; [intros Hm|intros [? Hm]|intros Hm|intros [? Hm]]; simpl in *;
    simplify_eq; eauto; congruence.
Qed.

(** C11. One owner at a time: when a call hands out the import task of generation [g1]
    after some history and a later call hands the task out again, one of the calls in
    between took the first claim back.  Up to that call every state still has generation
    [g1] claimed; the call is the completion of exactly that generation, a degradation, or
    the installation of a recovered or committed generation, and it clears the claim.  A
    completion of any other generation never gives the task away. *)
Theorem single_source_owner heads before o1 between o2 g1 g2 :
  granted heads before o1 = Some g1 ->
  granted heads (before ++ o1 :: between) o2 = Some g2 ->
  let after pre := lrun (before ++ o1 :: pre) (lifecycle_new heads) in
  exists pre o post, between = pre ++ o :: post /\ ends_claim g1 o /\
    Forall (fun k => owned g1 (after (take k pre))) (seq 0 (S (length pre))) /\
    task_claimed (after (pre ++ [o])) = false.
Proof.
  intros H1 H2 after. unfold granted in *. rewrite lrun_app in H2.
  set (l := lrun before (lifecycle_new heads)) in *.
  assert (lifecycle_ok l) as Hl by apply lrun_ok, lifecycle_new_ok.
  destruct (grant_unclaimed o1 l g1 Hl H1) as [_ Hc1].
  pose proof (lstep_ok o1 l Hl) as Hl1. change (lrun (o1 :: between) l)
    with (lrun between (fst (lstep o1 l))) in H2.
  destruct (grant_unclaimed o2 _ g2 (lrun_ok between _ Hl1) H2) as [Hc2 _].
  destruct (claim_ends_once g1 between _ Hl1 Hc1 Hc2) as (pre & o & post & -> & He & Hpre & Hend).
  assert (forall ops, after ops = lrun ops (fst (lstep o1 l))) as Hafter
    by (intros ops; subst after l; cbn; by rewrite lrun_app).
  exists pre, o, post. rewrite Hafter. split_and!; [done..| |done].
  eapply Forall_impl; [exact Hpre|]. intros k. by rewrite Hafter.
Qed.

(** Calls that belong to another generation change nothing: a worker whose
    generation was superseded can neither publish, complete nor fail the room,
    and its artifacts are not installed. *)
Theorem stale_generation_ignored heads ops o g :
  let l := lrun ops (lifecycle_new heads) in
  guarded_generation o = Some g -> g <> generation (source l) ->
  lstep o l = (l, None).
Proof.
  intros l Ho Hg. rewrite (surjective_pairing (lstep o l)).
  f_equal; [by eapply guarded_stale|]. by destruct o.
Qed.


(** A failed import is resumable without a second history: when the task of
    a generation with a recorded artifact fails, the room keeps the artifact and
    the next resume hands out the same generation with the same artifact; without
    an artifact there is nothing to resume and the retry opens the next
    generation. *)
Theorem failed_import_resumes l cd msg :
  is_in_progress (source l) = true ->
  let g := generation (source l) in
  let l1 := fst (complete_failed g cd msg l) in
  snd (complete_failed g cd msg l) = true /\ task_claimed l1 = false /\
  match staged_import g l with
  | Some a =>
      snd (resume_failed_staged_claimed l1) = Some g /\
      staged_import g (fst (resume_failed_staged_claimed l1)) = Some a /\
      task_claimed (fst (resume_failed_staged_claimed l1)) = true
  | None =>
      resume_failed_staged_claimed l1 = (l1, None) /\
      snd (retry_failed_claimed l1) = Some (saturating_add_u64 g 1) /\
      generation (source (fst (retry_failed_claimed l1))) = saturating_add_u64 g 1
  end.
Proof.
  intros Hp g l1. subst l1. unfold complete_failed.
  rewrite decide_True by done. split; [done|]. split; [done|].
  destruct (staged_import g l) as [a|] eqn:Ea; subst g;
    unfold resume_failed_staged_claimed, staged_import, generation in *; simpl;
    rewrite Ea; done.
Qed.

(** Generations never go back: the calls that do not install a generation
    chosen by recovery or by a committed revision leave the generation unchanged
    or advance it, and never past [u64::MAX]. *)
Theorem generation_monotone ops l :
  Forall (fun o => chooses_generation o = false) ops ->
  generation (source l) <= u64_max ->
  generation (source l) <= generation (source (lrun ops l)) <= u64_max.
Proof.
  revert l. induction ops as [|o ops IH]; intros l Ho Hg; [simpl; lia|].
  inversion_clear Ho as [|?? Ho1 Ho2].
  pose proof (lstep_generation o l Ho1 Hg) as [H1 H2].
  pose proof (IH (fst (lstep o l)) Ho2 H2). simpl. lia.
Qed.

(** Waiting callers are told the truth: over the availabilities of any
    history, a projection wait that reports success returns a state in which the
    projection may be read, and it never reports success on a degraded room; a
    source wait that reports success returns a settled source. *)
Theorem waits_are_truthful heads ops_now ops_later ops_end :
  let at_ ops := lrun ops (lifecycle_new heads) in
  (forall a,
     wait_for_projection_ready (avail (at_ ops_now)) ((fun ops => avail (at_ ops)) <$> ops_later)
       (avail (at_ ops_end)) = Reached a ->
     read_projection (capabilities (avail_status a)) = true /\ reason (avail_status a) = None) /\
  (forall s,
     wait_for_source_settled (source (at_ ops_now))
       ((fun ops => source (at_ ops)) <$> ops_later) (source (at_ ops_end)) = Reached s ->
     is_in_progress s = false).
Proof.
  intros at_. split.
  - revert ops_now. induction ops_later as [|ops later IH]; intros now a; simpl.
    all: pose proof (lrun_ok now _ (lifecycle_new_ok heads)) as [_ Hp]; fold (at_ now) in Hp.
    all: unfold phase_ok in Hp; destruct (avail (at_ now)) eqn:Ea, (source (at_ now));
      try done; intros Hw; simplify_eq/=; destruct_and?.
    all: try (split; [|done]; match goal with Hc : capabilities _ = _ |- _ => by rewrite Hc end).
    by apply IH in Hw.
  - revert ops_now. induction ops_later as [|ops later IH]; intros now s; simpl;
      destruct (is_in_progress (source (at_ now))) eqn:E; simpl; intros Hw; simplify_eq; try done.
    by apply IH in Hw.
Qed.
End Histories.

(** ** Witnesses *)

Module LifecycleExamples.
Import PlainHex.

Definition art1 : StagedImportArtifact := mkArtifact 1 [[[Byte.x01]]] [[Byte.x01]] "nb".
Definition proj1 : NotebookProjection := mkProjection 1 ["01"] "cells".
Definition preparing1 : RoomLifecycle := lrun [OMarkRequired; OBegin] (lifecycle_new ["00"]).

Lemma single_source_owner_witness :
  let between := [OCompleteFailed 0 "io" "late"; ORecord 1 art1 proj1; OCompleteFailed 1 "io" "disk"] in
  let after pre := lrun ([OMarkRequired] ++ OBegin :: pre) (lifecycle_new ["00"]) in
  exists pre o post, between = pre ++ o :: post /\ ends_claim 1 o /\
    Forall (fun k => owned 1 (after (take k pre))) (seq 0 (S (length pre))) /\
    task_claimed (after (pre ++ [o])) = false.
Proof.
  apply (single_source_owner ["00"] [OMarkRequired] OBegin
    [OCompleteFailed 0 "io" "late"; ORecord 1 art1 proj1; OCompleteFailed 1 "io" "disk"] OResume 1 1); vm_compute; done.
Defined.

Lemma stale_generation_ignored_witness :
  let l := lrun [OMarkRequired; OBegin; OCompleteFailed 1 "io" "disk"; ORetry]
             (lifecycle_new ["00"]) in
  generation (source l) = 2 /\ lstep (OPublish 1 art1 proj1 []) l = (l, None).
Proof.
  split; [vm_compute; done|].
  apply (stale_generation_ignored ["00"] _ (OPublish 1 art1 proj1 []) 1);
    vm_compute; done.
Defined.



Lemma failed_import_resumes_witness :
  let l := lrun [ORecord 1 art1 proj1] preparing1 in
  snd (resume_failed_staged_claimed (fst (complete_failed 1 "io" "disk" l))) = Some 1 /\
  staged_import 1 (fst (resume_failed_staged_claimed (fst (complete_failed 1 "io" "disk" l))))
    = Some art1.
Proof.
  destruct (failed_import_resumes (lrun [ORecord 1 art1 proj1] preparing1) "io" "disk")
    as (_ & _ & H1 & H2 & _); [reflexivity|]. exact (conj H1 H2).
Defined.

Lemma generation_monotone_witness :
  1 <= generation (source (lrun [OCompleteFailed 1 "io" "disk"; ORetry] preparing1)) <= u64_max.
Proof.
  apply (generation_monotone [OCompleteFailed 1 "io" "disk"; ORetry] preparing1);
    [repeat constructor|vm_compute; discriminate].
Defined.
End LifecycleExamples.
