(* ===== verification/JournalFormat.v ===== *)
(** * Recovery journal records

    The on-disk format of
    [crates/runtimed/src/notebook_sync_server/recovery.rs]: [encode_record] and
    the scanning loop of [scan_file].  A record is

      magic (8) | version (2) | manifest length (4) | snapshot length (8) |
      SHA-256 of the rest (32) | manifest JSON | Automerge snapshot

    with little-endian integers.  [scans] is the declarative reading of a file
    as a sequence of records followed by an unreadable tail; [scan_file] is
    proved to compute it. *)

From S2P Require Import Prelude Manifest.

(** ** Constants and data *)

Definition RECORD_MAGIC : bytes :=
  Z2b <$> [78; 84; 82; 74; 78; 76; 48; 49].
Definition RECORD_FORMAT_VERSION : Z := 1.
Definition HEADER_PREFIX_LEN : nat := 8 + 2 + 4 + 8.
Definition CHECKSUM_LEN : nat := 32.
Definition HEADER_LEN : nat := HEADER_PREFIX_LEN + CHECKSUM_LEN.
Definition MAX_MANIFEST_BYTES : Z := 256 * 1024.
Definition MAX_AUTOMERGE_SNAPSHOT_BYTES : Z := 256 * 1024 * 1024.
Definition MAX_RECORD_BYTES : Z :=
  Z.of_nat HEADER_LEN + MAX_MANIFEST_BYTES + MAX_AUTOMERGE_SNAPSHOT_BYTES.
Definition COMPACT_AFTER_RECORDS : Z := 32.
Definition COMPACT_AFTER_BYTES : Z := 64 * 1024 * 1024.

(** [RecoveryRecord]. *)
Record RecoveryRecord := mkRecord {
  rec_manifest : RecoveryManifest;
  automerge_snapshot : bytes;
  source_manifest_version : Z;
}.

#[export] Instance RecoveryRecord_eq_dec : EqDecision RecoveryRecord.
Proof. solve_decision. Defined.

(** [JournalTailIssue]. *)
Inductive JournalTailIssue :=
| TruncatedHeader (offset available : Z)
| InvalidMagic (offset : Z)
| UnsupportedRecordVersion (offset version : Z)
| InvalidLengths (offset manifest_len snapshot_len : Z)
| TruncatedPayload (offset expected available : Z)
| ChecksumMismatch (offset : Z)
| InvalidManifest (offset : Z) (reason : string)
| UnsupportedManifestVersion (offset version : Z).

#[export] Instance JournalTailIssue_eq_dec : EqDecision JournalTailIssue.
Proof. solve_decision. Defined.

Definition is_unsupported_version (i : JournalTailIssue) : bool :=
  match i with
  | UnsupportedRecordVersion _ _ | UnsupportedManifestVersion _ _ => true
  | _ => false
  end.

Definition is_repairable_torn_suffix (i : JournalTailIssue) : bool :=
  match i with TruncatedHeader _ _ | TruncatedPayload _ _ _ => true | _ => false end.

(** [RecoveryArchivePaths]: [manifest] is present when the sidecar was. *)
Record RecoveryArchivePaths := mkArchivePaths {
  archive_directory : string;
  archive_journal : string;
  archive_manifest : option string;
}.

(** [RecoveryJournalError]. *)
Inductive RecoveryJournalError :=
| Io (e : string)
| ManifestSerialization (e : string)
| ErrUnsupportedManifestVersion (version : Z)
| EmptySnapshot
| ManifestTooLarge (actual maximum : Z)
| SnapshotTooLarge (actual maximum : Z)
| RecordTooLarge (actual maximum : Z)
| ErrNoValidRecord (tail : JournalTailIssue)
| UnsupportedTailVersion (tail : JournalTailIssue)
| CorruptTailRequiresReconciliation (tail : JournalTailIssue)
| ArchiveNotCommitted (archive : RecoveryArchivePaths) (source : string)
| InvalidSnapshot (e : string)
| SnapshotHeadsMismatch
| ChangedAfterArchive.

(** [RecoveryManifest::validate]. *)
Definition validate (m : RecoveryManifest) : result RecoveryJournalError () :=
  if decide (version m = RECOVERY_MANIFEST_VERSION) then Ok ()
  else Err (ErrUnsupportedManifestVersion (version m)).

(** [slice bs a b] is [&bs[a..b]]. *)
Definition slice (bs : bytes) (a b : nat) : bytes := take (b - a) (drop a bs).

(** [read_u16], [read_u32] and [read_u64]. *)
Definition read_u16 (bs : bytes) : Z := from_le_bytes bs.
Definition read_u32 (bs : bytes) : Z := from_le_bytes bs.
Definition read_u64 (bs : bytes) : Z := from_le_bytes bs.

Section Format.
Context `{Sha256, ManifestJson}.

(** [record_checksum]. *)
Definition record_checksum (prefix manifest snapshot : bytes) : bytes :=
  sha256 (prefix ++ manifest ++ snapshot).

Definition record_prefix (manifest_len snapshot_len : Z) : bytes :=
  RECORD_MAGIC ++ to_le_bytes 2 RECORD_FORMAT_VERSION ++ to_le_bytes 4 manifest_len ++
  to_le_bytes 8 snapshot_len.

(** [encode_record]; [usize] is 64 bits wide. *)
Definition encode_record (m : RecoveryManifest) (snapshot : bytes)
    : result RecoveryJournalError bytes :=
  let? _ := validate m in
  if decide (snapshot = []) then Err EmptySnapshot
  else if decide (MAX_AUTOMERGE_SNAPSHOT_BYTES < zlen snapshot) then
    Err (SnapshotTooLarge (zlen snapshot) MAX_AUTOMERGE_SNAPSHOT_BYTES)
  else match to_vec m with
  | Err e => Err (ManifestSerialization e)
  | Ok manifest_bytes =>
      if decide (MAX_MANIFEST_BYTES < zlen manifest_bytes) then
        Err (ManifestTooLarge (zlen manifest_bytes) MAX_MANIFEST_BYTES)
      else
        match
          length ← checked_add_u64 (Z.of_nat HEADER_LEN) (zlen manifest_bytes);
          checked_add_u64 length (zlen snapshot)
        with
        | None => Err (RecordTooLarge u64_max MAX_RECORD_BYTES)
        | Some total_len =>
            if decide (MAX_RECORD_BYTES < total_len) then
              Err (RecordTooLarge total_len MAX_RECORD_BYTES)
            else if decide (u32_max < zlen manifest_bytes) then
              Err (ManifestTooLarge (zlen manifest_bytes) MAX_MANIFEST_BYTES)
            else
              let prefix := record_prefix (zlen manifest_bytes) (zlen snapshot) in
              let checksum := record_checksum prefix manifest_bytes snapshot in
              Ok (prefix ++ checksum ++ manifest_bytes ++ snapshot)
        end
  end.

(** One iteration of the [scan_file] loop: [rest] is what follows the file
    position [offset].  A complete record comes with its length. *)
Definition scan_record (offset : Z) (rest : bytes)
    : (RecoveryRecord * Z) + JournalTailIssue :=
  let available_header := zlen rest in
  if decide (available_header < Z.of_nat HEADER_LEN) then
    inr (TruncatedHeader offset available_header)
  else
    let header := take HEADER_LEN rest in
    if decide (take (length RECORD_MAGIC) header = RECORD_MAGIC) then
      let record_version := read_u16 (slice header 8 10) in
      if decide (record_version = RECORD_FORMAT_VERSION) then
        let manifest_len := read_u32 (slice header 10 14) in
        let snapshot_len := read_u64 (slice header 14 22) in
        let payload_ok := fun payload_len =>
          if decide (manifest_len <= MAX_MANIFEST_BYTES /\ 0 < snapshot_len /\
                     snapshot_len <= MAX_AUTOMERGE_SNAPSHOT_BYTES /\
                     payload_len <= MAX_RECORD_BYTES - Z.of_nat HEADER_LEN)
          then Some payload_len else None in
        match checked_add_u64 manifest_len snapshot_len ≫= payload_ok with
        | None => inr (InvalidLengths offset manifest_len snapshot_len)
        | Some payload_len =>
            let available_payload := zlen rest - Z.of_nat HEADER_LEN in
            if decide (available_payload < payload_len) then
              inr (TruncatedPayload offset payload_len available_payload)
            else
              let payload := drop HEADER_LEN rest in
              let manifest_bytes := take (Z.to_nat manifest_len) payload in
              let snapshot :=
                take (Z.to_nat snapshot_len) (drop (Z.to_nat manifest_len) payload) in
              let expected_checksum := slice header HEADER_PREFIX_LEN HEADER_LEN in
              let actual_checksum :=
                record_checksum (take HEADER_PREFIX_LEN header) manifest_bytes snapshot in
              if decide (actual_checksum = expected_checksum) then
                match decode_manifest manifest_bytes with
                | Ok (Supported m v) =>
                    inl (mkRecord m snapshot v, Z.of_nat HEADER_LEN + payload_len)
                | Ok (Unsupported v) => inr (UnsupportedManifestVersion offset v)
                | Err e => inr (InvalidManifest offset e)
                end
              else inr (ChecksumMismatch offset)
        end
      else inr (UnsupportedRecordVersion offset record_version)
    else inr (InvalidMagic offset).

(** [JournalScan]. *)
Record JournalScan := mkScan {
  latest : option RecoveryRecord;
  ignored_tail : option JournalTailIssue;
  last_valid_end : Z;
  scan_file_len : Z;
  valid_record_count : Z;
}.

(** The [while offset < file_len] loop.  Every complete record is longer than
    [HEADER_LEN], so the length of the file is more than enough fuel. *)
Fixpoint scan_loop (fuel : nat) (offset : Z) (rest : bytes) (acc : JournalScan) : JournalScan :=
  match fuel with
  | O => acc
  | S fuel' =>
      if decide (rest = []) then acc
      else match scan_record offset rest with
           | inr issue =>
               mkScan (latest acc) (Some issue) (last_valid_end acc) (scan_file_len acc)
                 (valid_record_count acc)
           | inl (record, record_len) =>
               scan_loop fuel' (offset + record_len) (drop (Z.to_nat record_len) rest)
                 (mkScan (Some record) None (offset + record_len) (scan_file_len acc)
                    (saturating_add_u64 (valid_record_count acc) 1))
           end
  end.

(** [scan_file]. *)
Definition scan_file (file : bytes) : JournalScan :=
  scan_loop (S (length file)) 0 file (mkScan None None 0 (zlen file) 0).

(** ** The declarative reading of a file *)

(** [scans off f rs tl i]: read at offset [off], the bytes [f] are the records
    [rs] followed by [tl], which is empty when [i] is [None] and unreadable
    because of [i] otherwise. *)
Inductive scans : Z -> bytes -> list RecoveryRecord -> bytes -> option JournalTailIssue -> Prop :=
| scans_end off : scans off [] [] [] None
| scans_issue off rest i :
    rest <> [] -> scan_record off rest = inr i -> scans off rest [] rest (Some i)
| scans_cons off rest r n rs tl i :
    rest <> [] -> scan_record off rest = inl (r, n) ->
    scans (off + n) (drop (Z.to_nat n) rest) rs tl i -> scans off rest (r :: rs) tl i.
End Format.

(** ** Locality of a record *)

Lemma take_take_app {A} (l x : list A) n m :
  (m <= n)%nat -> (n <= length l)%nat -> take m (take n l ++ x) = take m l.
Proof.
  intros Hm Hn. rewrite take_app_le by (rewrite length_take; lia).
  rewrite take_take. f_equal. lia.
Qed.

Lemma drop_take_app {A} (l x : list A) n m :
  (m <= n)%nat -> (n <= length l)%nat ->
  drop m (take n l ++ x) = take (n - m) (drop m l) ++ x.
Proof.
  intros Hm Hn. rewrite drop_app_le by (rewrite length_take; lia).
  by rewrite skipn_firstn_comm.
Qed.

Section FormatLemmas.
Context `{Sha256, ManifestJson}.

(** What a complete record is, without the offset it was read at. *)
Definition record_at (rest : bytes) (r : RecoveryRecord) (n : Z) : Prop :=
  let header := take HEADER_LEN rest in
  let ml := read_u32 (slice header 10 14) in
  let sl := read_u64 (slice header 14 22) in
  let payload := drop HEADER_LEN rest in
  n = Z.of_nat HEADER_LEN + (ml + sl) /\ n <= zlen rest /\
  take (length RECORD_MAGIC) header = RECORD_MAGIC /\
  read_u16 (slice header 8 10) = RECORD_FORMAT_VERSION /\
  ml <= MAX_MANIFEST_BYTES /\ 0 < sl <= MAX_AUTOMERGE_SNAPSHOT_BYTES /\
  automerge_snapshot r = take (Z.to_nat sl) (drop (Z.to_nat ml) payload) /\
  record_checksum (take HEADER_PREFIX_LEN header) (take (Z.to_nat ml) payload)
    (automerge_snapshot r) = slice header HEADER_PREFIX_LEN HEADER_LEN /\
  decode_manifest (take (Z.to_nat ml) payload) =
    Ok (Supported (rec_manifest r) (source_manifest_version r)).

Lemma MAX_RECORD_BYTES_payload :
  MAX_RECORD_BYTES - Z.of_nat HEADER_LEN = MAX_MANIFEST_BYTES + MAX_AUTOMERGE_SNAPSHOT_BYTES.
Proof. unfold MAX_RECORD_BYTES. lia. Qed.

Lemma MAX_payload_u64 : MAX_MANIFEST_BYTES + MAX_AUTOMERGE_SNAPSHOT_BYTES <= u64_max.
Proof. done. Qed.

Lemma scan_record_inl off rest r n :
  scan_record off rest = inl (r, n) <-> record_at rest r n.
Proof.
  unfold scan_record, record_at. rewrite MAX_RECORD_BYTES_payload.
  pose proof MAX_payload_u64 as Hu. pose proof (zlen_nonneg rest).
  set (hl := HEADER_LEN). set (mm := MAX_MANIFEST_BYTES) in *.
  set (ms := MAX_AUTOMERGE_SNAPSHOT_BYTES) in *. cbv zeta.
  set (ml := read_u32 _). set (sl := read_u64 _).
  assert (0 <= ml) by apply from_le_bytes_bounds.
  split.
  - intros Hs. case_head Hs. case_head Hs. case_head Hs.
    destruct (checked_add_u64 ml sl) as [p|] eqn:Ep; simplify_eq/=.
    apply checked_add_u64_Some in Ep as [-> _]. case_decide; simplify_eq/=.
    case_head Hs. case_head Hs. case_head Hs. case_head Hs.
    destruct_and?. split_and!; try done; lia.
  - intros (-> & Hn & Hm & Hv & Hlm & [Hl1 Hl2] & Hsn & Hc & Hd).
    rewrite decide_False by lia. rewrite (decide_True _ _ Hm), (decide_True _ _ Hv).
    rewrite (proj2 (checked_add_u64_Some ml sl (ml + sl))) by (split; [done|lia]). simpl.
    rewrite decide_True by lia. rewrite decide_False by lia.
    rewrite <- Hsn, (decide_True _ _ Hc), Hd. by destruct r.
Qed.

Lemma record_at_bounds rest r n : record_at rest r n -> Z.of_nat HEADER_LEN < n <= zlen rest.
Proof.
  unfold record_at. cbv zeta. intros (-> & Hn & _ & _ & _ & [Hs _] & _).
  match goal with |- context [read_u32 ?b] =>
    assert (0 <= read_u32 b) by apply from_le_bytes_bounds end. lia.
Qed.

Lemma scan_record_bounds off rest r n :
  scan_record off rest = inl (r, n) -> Z.of_nat HEADER_LEN < n <= zlen rest.
Proof. intros Hs%scan_record_inl. by eapply record_at_bounds. Qed.

(** A complete record is recognised from its own bytes, whatever follows. *)
Lemma record_at_local rest r n x :
  record_at rest r n -> record_at (take (Z.to_nat n) rest ++ x) r n.
Proof.
  intros Hr. pose proof (record_at_bounds _ _ _ Hr) as Hb.
  assert (Hn : (HEADER_LEN <= Z.to_nat n)%nat) by lia.
  assert (Hl : (Z.to_nat n <= length rest)%nat) by (unfold zlen in Hb; lia).
  assert (Hz : zlen (take (Z.to_nat n) rest ++ x) = n + zlen x).
  { rewrite zlen_app. unfold zlen at 1. rewrite length_take. lia. }
  revert Hr. unfold record_at.
  rewrite Hz, (take_take_app _ _ _ _ Hn Hl), (drop_take_app _ _ _ _ Hn Hl).
  pose proof (zlen_nonneg x) as Hx. set (hl := HEADER_LEN) in *. cbv zeta.
  set (ml := read_u32 _). set (sl := read_u64 _).
  assert (0 <= ml) by apply from_le_bytes_bounds.
  intros (Hne & ? & ? & ? & ? & ? & ? & ? & ?).
  assert (Hdl : (Z.to_nat n - hl <= length (drop hl rest))%nat) by (rewrite length_drop; lia).
  rewrite (take_take_app (drop hl rest) x (Z.to_nat n - hl) (Z.to_nat ml)) by lia.
  rewrite (drop_take_app (drop hl rest) x (Z.to_nat n - hl) (Z.to_nat ml)) by lia.
  rewrite take_take_app by (rewrite ?length_drop in *; lia).
  split_and!; try done; lia.
Qed.

(** ** Sequences of records *)

Lemma scans_total off f : exists rs tl i, scans off f rs tl i.
Proof.
  remember (length f) as k eqn:Hk. revert off f Hk.
  induction (lt_wf k) as [k _ IH]; intros off f ->.
  destruct (decide (f = [])) as [->|Hne]; [do 3 eexists; constructor|].
  destruct (scan_record off f) as [[r n]|i] eqn:Es.
  - pose proof (scan_record_bounds _ _ _ _ Es) as Hb.
    destruct (IH (length (drop (Z.to_nat n) f))) with (off := off + n)
      (f := drop (Z.to_nat n) f) as (rs & tl & i & Hr); [|done|].
    + rewrite length_drop. destruct f; [done|]. simpl. lia.
    + exists (r :: rs), tl, i. by eapply scans_cons.
  - do 3 eexists. by eapply scans_issue.
Qed.

Lemma scans_det off f rs tl i rs' tl' i' :
  scans off f rs tl i -> scans off f rs' tl' i' -> rs = rs' /\ tl = tl' /\ i = i'.
Proof.
  intros Hs. revert rs' tl' i'.
  induction Hs as [off|off rest i Hne Hs|off rest r n rs tl i Hne Hs Hr IH];
    intros rs' tl' i' Hs'; inversion Hs' as [|???? Hq|???????? Hq Hr']; simplify_eq;
    try done; try congruence.
  { rewrite Hs in Hq. by simplify_eq. }
  rewrite Hs in Hq. simplify_eq. by destruct (IH _ _ _ Hr') as (-> & -> & ->).
Qed.

(** The readable part is a journal of its own. *)
Lemma scans_split off f rs tl i :
  scans off f rs tl i -> exists p, f = p ++ tl /\ scans off p rs [] None.
Proof.
  induction 1 as [off|off rest i Hne Hs|off rest r n rs tl i Hne Hs Hr (p & Hp & Hps)].
  - exists []. split; [done|constructor].
  - exists []. split; [done|constructor].
  - apply scan_record_inl in Hs. pose proof (record_at_bounds _ _ _ Hs) as Hb.
    exists (take (Z.to_nat n) rest ++ p). split.
    { by rewrite <- (take_drop (Z.to_nat n) rest) at 1; rewrite Hp, app_assoc. }
    assert (length (take (Z.to_nat n) rest) = Z.to_nat n) as Hlen
      by (rewrite length_take; unfold zlen in Hb; lia).
    eapply scans_cons.
    + intros E%(f_equal length). rewrite length_app in E. simpl in E. lia.
    + by apply scan_record_inl, record_at_local.
    + by rewrite drop_app_exact.
Qed.

(** Appending to a complete journal continues its reading. *)
Lemma scans_app off f rs x rs' tl i :
  scans off f rs [] None -> scans (off + zlen f) x rs' tl i -> scans off (f ++ x) (rs ++ rs') tl i.
Proof.
  intros Hs. remember [] as e eqn:He. remember None as o eqn:Ho. revert He Ho.
  induction Hs as [off|off rest i0 Hne Hs|off rest r n rs tl' i' Hne Hs Hr IH];
    intros He Ho Hx; simplify_eq; simpl in *.
  - unfold zlen in Hx. simpl in Hx. by rewrite Z.add_0_r in Hx.
  - apply scan_record_inl in Hs. pose proof (record_at_bounds _ _ _ Hs) as Hb.
    assert (length (take (Z.to_nat n) rest) = Z.to_nat n) as Hlen
      by (rewrite length_take; unfold zlen in Hb; lia).
    eapply (scans_cons _ _ _ n).
    + by destruct rest.
    + apply scan_record_inl. rewrite <- (take_drop (Z.to_nat n) rest), <- app_assoc.
      by apply record_at_local.
    + rewrite drop_app_le by (unfold zlen in Hb; lia). apply IH; [done..|].
      replace (off + n + zlen (drop (Z.to_nat n) rest)) with (off + zlen rest); [done|].
      unfold zlen in *. rewrite length_drop. lia.
Qed.

Lemma scans_offset off f rs : scans off f rs [] None -> forall off', scans off' f rs [] None.
Proof.
  intros Hs. remember [] as e eqn:He. remember None as o eqn:Ho. revert He Ho.
  induction Hs as [off|off rest i Hne Hs|off rest r n rs tl i Hne Hs Hr IH];
    intros He Ho off'; simplify_eq; [constructor|].
  eapply scans_cons; [done| |by apply IH]. apply scan_record_inl in Hs.
  by apply scan_record_inl.
Qed.

Lemma scans_records_len off f rs tl i :
  scans off f rs tl i -> Z.of_nat HEADER_LEN * Z.of_nat (length rs) <= zlen f - zlen tl.
Proof.
  induction 1 as [off|off rest i Hne Hs|off rest r n rs tl i Hne Hs Hr IH];
    [unfold zlen; simpl; lia..|].
  apply scan_record_inl, record_at_bounds in Hs. cbn [length]. rewrite Nat2Z.inj_succ.
  unfold zlen in *. rewrite length_drop in IH. lia.
Qed.

Definition count_u64 (n : Z) : Z := Z.min n u64_max.

Lemma scan_loop_spec off f rs tl i fuel acc :
  scans off f rs tl i -> (length f < fuel)%nat -> last_valid_end acc = off ->
  0 <= valid_record_count acc <= u64_max -> ignored_tail acc = None ->
  scan_loop fuel off f acc =
    mkScan (match last rs with Some r => Some r | None => latest acc end) i
      (off + zlen f - zlen tl) (scan_file_len acc)
      (count_u64 (valid_record_count acc + Z.of_nat (length rs))).
Proof.
  intros Hs. revert fuel acc.
  induction Hs as [off|off rest i Hne Hs|off rest r n rs tl i Hne Hs Hr IH];
    intros [|fuel] acc Hf He Hc Hi; try lia; cbn [scan_loop].
  - rewrite decide_True by done. destruct acc as [la it lv fl vc]; simpl in *; subst.
    f_equal; unfold zlen, count_u64; simpl; lia.
  - rewrite decide_False, Hs by done. simpl. f_equal; unfold count_u64; lia.
  - rewrite decide_False, Hs by done. pose proof (scan_record_bounds _ _ _ _ Hs) as Hb.
    unfold zlen in Hb. rewrite IH; simpl; [|rewrite length_drop; lia|done| |done].
    + f_equal.
      * rewrite last_cons. by destruct (last rs).
      * unfold zlen. rewrite length_drop. lia.
      * unfold count_u64, saturating_add_u64. lia.
    + unfold saturating_add_u64. lia.
Qed.

Lemma scan_file_of_scans f rs tl i :
  scans 0 f rs tl i ->
  scan_file f = mkScan (last rs) i (zlen f - zlen tl) (zlen f)
    (count_u64 (Z.of_nat (length rs))).
Proof.
  intros Hs. unfold scan_file.
  rewrite (scan_loop_spec _ _ _ _ _ _ _ Hs) by (simpl; try done; unfold u64_max; lia).
  simpl. f_equal. by destruct (last rs).
Qed.

(** ** Encoded records *)

Lemma length_record_prefix a b : length (record_prefix a b) = HEADER_PREFIX_LEN.
Proof. unfold record_prefix. by rewrite !length_app, !length_to_le_bytes. Qed.

(** The fields of a header built by [record_prefix] and a checksum. *)
Lemma record_prefix_fields a b chk x :
  length chk = CHECKSUM_LEN -> 0 <= a <= u32_max -> 0 <= b <= u64_max ->
  let rest := record_prefix a b ++ chk ++ x in
  let header := take HEADER_LEN rest in
  header = record_prefix a b ++ chk /\
  take (length RECORD_MAGIC) header = RECORD_MAGIC /\
  read_u16 (slice header 8 10) = RECORD_FORMAT_VERSION /\
  read_u32 (slice header 10 14) = a /\ read_u64 (slice header 14 22) = b /\
  take HEADER_PREFIX_LEN header = record_prefix a b /\
  slice header HEADER_PREFIX_LEN HEADER_LEN = chk.
Proof.
  intros Hc Ha Hb rest header.
  assert (header = record_prefix a b ++ chk) as Hh.
  { subst header rest. rewrite app_assoc. apply take_app_exact.
    by rewrite length_app, length_record_prefix, Hc. }
  rewrite Hh. clear header rest Hh. split; [done|].
  unfold slice.
  rewrite (drop_app_exact _ _ HEADER_PREFIX_LEN) by (by rewrite length_record_prefix).
  rewrite (take_app_exact _ _ HEADER_PREFIX_LEN) by (by rewrite length_record_prefix).
  change (HEADER_LEN - HEADER_PREFIX_LEN)%nat with 32%nat.
  rewrite (firstn_all2 chk) by (unfold CHECKSUM_LEN in Hc; lia).
  unfold record_prefix, read_u16, read_u32, read_u64. rewrite <- !app_assoc.
  split; [done|]. split; [done|].
  rewrite !(app_assoc RECORD_MAGIC).
  rewrite drop_app_exact by done. rewrite take_app_exact by (by rewrite length_to_le_bytes).
  rewrite from_to_le_bytes by (unfold u32_max in Ha; simpl; lia). split; [done|].
  rewrite (app_assoc (RECORD_MAGIC ++ to_le_bytes 2 RECORD_FORMAT_VERSION)).
  rewrite drop_app_exact by (by rewrite length_app, length_to_le_bytes).
  rewrite take_app_exact by (by rewrite length_to_le_bytes).
  rewrite from_to_le_bytes by (unfold u64_max in Hb; simpl; lia). done.
Qed.

(** What a successful encoding is made of. *)
Lemma encode_record_Ok m s enc :
  encode_record m s = Ok enc ->
  exists mb, to_vec m = Ok mb /\ version m = RECOVERY_MANIFEST_VERSION /\
    zlen mb <= MAX_MANIFEST_BYTES /\ 0 < zlen s <= MAX_AUTOMERGE_SNAPSHOT_BYTES /\
    enc = record_prefix (zlen mb) (zlen s) ++
      record_checksum (record_prefix (zlen mb) (zlen s)) mb s ++ mb ++ s.
Proof.
  unfold encode_record, validate. intros He.
  destruct (decide (version m = _)) as [Hv|]; [|done]. simpl in He.
  destruct (decide (s = [])) as [|Hs]; [done|]. do 2 case_head He.
  case_head He. destruct (checked_add_u64 _ (zlen _)) as [p|] eqn:Ep; simplify_eq/=.
  do 3 case_head He. eexists. split_and!; try done; try lia.
  destruct s; [done|]. unfold zlen. simpl. lia.
Qed.

Lemma encoded_record_at m s enc x :
  encode_record m s = Ok enc ->
  record_at (enc ++ x) (mkRecord m s RECOVERY_MANIFEST_VERSION) (zlen enc).
Proof.
  intros (mb & Hmb & Hv & Hml & Hsl & ->)%encode_record_Ok.
  set (chk := record_checksum _ mb s).
  assert (length chk = CHECKSUM_LEN) as Hc by apply sha256_length.
  pose proof (zlen_nonneg mb).
  destruct (record_prefix_fields (zlen mb) (zlen s) chk (mb ++ s ++ x) Hc)
    as (Hh & Hm & Hver & Ha & Hb & Hp & Hk).
  { change u32_max with 4294967295. unfold MAX_MANIFEST_BYTES in *. lia. }
  { change u64_max with 18446744073709551615. unfold MAX_AUTOMERGE_SNAPSHOT_BYTES in *. lia. }
  unfold record_at. rewrite <- !app_assoc. cbv zeta in *. rewrite Ha, Hb, Hp, Hm, Hver, Hk.
  assert (drop HEADER_LEN (record_prefix (zlen mb) (zlen s) ++ chk ++ mb ++ s ++ x)
    = mb ++ s ++ x) as ->.
  { rewrite app_assoc. apply drop_app_exact. by rewrite length_app, length_record_prefix, Hc. }
  assert (zlen (record_prefix (zlen mb) (zlen s) ++ chk ++ mb ++ s)
    = Z.of_nat HEADER_LEN + (zlen mb + zlen s)) as Hz.
  { unfold zlen. rewrite !length_app, length_record_prefix, Hc.
    unfold HEADER_LEN. lia. }
  assert (zlen (record_prefix (zlen mb) (zlen s) ++ chk ++ mb ++ s ++ x)
    = Z.of_nat HEADER_LEN + (zlen mb + zlen s) + zlen x) as Hzx.
  { rewrite <- Hz, <- zlen_app. by rewrite <- !app_assoc. }
  rewrite Hz, Hzx. pose proof (zlen_nonneg x).
  assert (forall l : bytes, Z.to_nat (zlen l) = length l) as Hzn
    by (intros l; unfold zlen; lia).
  rewrite !Hzn, take_app_length, drop_app_length, take_app_length.
  simpl. split_and!; try done; try lia. by apply decode_encoded_manifest.
Qed.

(** A strict prefix of an encoded record is a torn append. *)
Lemma torn_record off m s enc k :
  encode_record m s = Ok enc -> (k < length enc)%nat ->
  exists i, scan_record off (take k enc) = inr i /\ is_repairable_torn_suffix i = true.
Proof.
  intros He Hk. pose proof (encoded_record_at m s enc [] He) as Hr.
  rewrite app_nil_r in Hr. revert Hr. unfold record_at. cbv zeta.
  intros (Hn & _ & Hm & Hv & Hml & Hsl & _).
  assert (zlen (take k enc) = Z.of_nat k) as Hz by (unfold zlen; rewrite length_take; lia).
  unfold scan_record. rewrite Hz.
  destruct (decide (Z.of_nat k < Z.of_nat HEADER_LEN)) as [|Hh]; [by eexists|].
  assert (take HEADER_LEN (take k enc) = take HEADER_LEN enc) as ->
    by (rewrite take_take; f_equal; lia).
  rewrite (decide_True _ _ Hm), (decide_True _ _ Hv).
  pose proof MAX_payload_u64. rewrite MAX_RECORD_BYTES_payload.
  rewrite (proj2 (checked_add_u64_Some _ _ _)) by (split; [done|lia]). simpl.
  rewrite decide_True by lia. rewrite decide_True by (unfold zlen in Hn; lia). by eexists.
Qed.

Lemma encoded_nonempty m s enc : encode_record m s = Ok enc -> enc <> [].
Proof.
  intros He ->. apply (encoded_record_at _ _ _ []) in He. simpl in He.
  apply record_at_bounds in He. unfold zlen in He. simpl in He. lia.
Qed.

Lemma scans_encoded off m s enc :
  encode_record m s = Ok enc ->
  scans off enc [mkRecord m s RECOVERY_MANIFEST_VERSION] [] None.
Proof.
  intros He. eapply scans_cons; [by eapply encoded_nonempty| |].
  - apply scan_record_inl. rewrite <- (app_nil_r enc) at 1. by apply encoded_record_at.
  - unfold zlen. rewrite Nat2Z.id, drop_all. constructor.
Qed.

Lemma scans_torn off m s enc k :
  encode_record m s = Ok enc -> (0 < k < length enc)%nat ->
  exists i, scans off (take k enc) [] (take k enc) (Some i) /\
    is_repairable_torn_suffix i = true.
Proof.
  intros He Hk. destruct (torn_record off m s enc k He) as (i & Hi & Hr); [lia|].
  exists i. split; [|done]. apply scans_issue; [|done].
  intros E%(f_equal length). rewrite length_take in E. simpl in E. lia.
Qed.

(** A file of encoded records. *)
Lemma scan_encoded_file (batch : list (RecoveryManifest * bytes)) (encs : list bytes) :
  Forall2 (fun ms enc => encode_record ms.1 ms.2 = Ok enc) batch encs ->
  scan_file (mjoin encs) =
    mkScan (last ((fun ms => mkRecord ms.1 ms.2 RECOVERY_MANIFEST_VERSION) <$> batch)) None
      (zlen (mjoin encs)) (zlen (mjoin encs)) (count_u64 (Z.of_nat (length batch))).
Proof.
  intros Hb.
  assert (scans 0 (mjoin encs)
    ((fun ms => mkRecord ms.1 ms.2 RECOVERY_MANIFEST_VERSION) <$> batch) [] None) as Hs.
  { generalize 0. induction Hb as [|ms enc batch encs He Hb IH]; intros off; [constructor|].
    apply (scans_app _ _ [_]); [by apply scans_encoded|apply IH]. }
  rewrite (scan_file_of_scans _ _ _ _ Hs). rewrite length_fmap. f_equal.
  unfold zlen. simpl. lia.
Qed.

(** ** Claims *)

(** Recovery scanning is total and exact: every file, of any content, is a
    sequence of complete records followed by a tail that is empty or unreadable;
    the scan returns the newest of these records, the reason the tail is
    unreadable, the offset where the tail starts and the number of records. *)
Theorem scan_file_reads_records file :
  exists valid rs tl issue,
    file = valid ++ tl /\ scans 0 valid rs [] None /\
    (issue = None <-> tl = []) /\
    scan_file file = mkScan (last rs) issue (zlen valid) (zlen file)
      (count_u64 (Z.of_nat (length rs))).
Proof.
  destruct (scans_total 0 file) as (rs & tl & i & Hs).
  destruct (scans_split _ _ _ _ _ Hs) as (p & -> & Hp).
  exists p, rs, tl, i. split; [done|]. split; [done|]. split.
  - clear Hp. induction Hs; naive_solver.
  - rewrite (scan_file_of_scans _ _ _ _ Hs), zlen_app. f_equal. lia.
Qed.

(** C31. Round trip: in the concatenation of any encoded records every one of them is
    read back at its place, with its manifest and snapshot unchanged and exactly its
    length consumed; the scan of the whole file ends with the last of them, no ignored
    tail, and the exact number of records, and so does the scan of any number of leading
    records. *)
Theorem journal_roundtrip (batch : list (RecoveryManifest * bytes)) (encs : list bytes) :
  Forall2 (fun ms enc => encode_record ms.1 ms.2 = Ok enc) batch encs ->
  let file := mjoin encs in
  let offset k := zlen (mjoin (take k encs)) in
  (forall k ms enc, batch !! k = Some ms -> encs !! k = Some enc ->
     scan_record (offset k) (drop (Z.to_nat (offset k)) file) =
       inl (mkRecord ms.1 ms.2 RECOVERY_MANIFEST_VERSION, zlen enc)) /\
  (forall k, scan_file (mjoin (take k encs)) =
     mkScan (last ((fun ms => mkRecord ms.1 ms.2 RECOVERY_MANIFEST_VERSION) <$> take k batch)) None
       (offset k) (offset k) (count_u64 (Z.of_nat (length (take k batch))))) /\
  scan_file file =
    mkScan (last ((fun ms => mkRecord ms.1 ms.2 RECOVERY_MANIFEST_VERSION) <$> batch)) None
      (zlen file) (zlen file) (count_u64 (Z.of_nat (length batch))).
Proof.
  intros Hb file offset. subst file offset. split_and!; cbn beta.
  - intros k ms enc Hk He. apply scan_record_inl. unfold zlen at 1. rewrite Nat2Z.id.
    assert (mjoin encs = mjoin (take k encs) ++ enc ++ mjoin (drop (S k) encs)) as ->.
    { rewrite <- (take_drop_middle encs k enc He) at 1. by rewrite join_app. }
    rewrite drop_app_length. apply encoded_record_at. by eapply Forall2_lookup_lr in Hb.
  - intros k. by apply scan_encoded_file, Forall2_take.
  - by apply scan_encoded_file.
Qed.

(** A crash in the middle of an append loses nothing: whatever number of
    bytes of the new record reached the file, the scan still returns the newest
    record that was complete before, classifies the rest as a repairable torn
    suffix, and points the next append at the end of the complete part. *)
Theorem torn_append_recovers file rs m s enc k :
  scans 0 file rs [] None -> encode_record m s = Ok enc -> (0 < k < length enc)%nat ->
  let scan := scan_file (file ++ take k enc) in
  latest scan = last rs /\ last_valid_end scan = zlen file /\
  valid_record_count scan = count_u64 (Z.of_nat (length rs)) /\
  exists issue, ignored_tail scan = Some issue /\ is_repairable_torn_suffix issue = true.
Proof.
  intros Hf He Hk. destruct (scans_torn (0 + zlen file) m s enc k He Hk) as (i & Hi & Hr).
  pose proof (scans_app _ _ _ _ _ _ _ Hf Hi) as Hs. rewrite app_nil_r in Hs.
  rewrite (scan_file_of_scans _ _ _ _ Hs). simpl. rewrite zlen_app.
  split_and!; [done|lia|done|by exists i].
Qed.
End FormatLemmas.

(** ** Witnesses *)

Module FormatExamples.
Import PlainCodec.

Definition m1 : RecoveryManifest := manifest_new 1 "nb" (Some "/a.ipynb") 3 (mkFingerprint [Byte.x01]) 1.
Definition m2 : RecoveryManifest := set_sequence 2 m1.
Definition snap1 : bytes := [Byte.x01; Byte.x02].
Definition snap2 : bytes := [Byte.x03].
Definition enc (m : RecoveryManifest) (s : bytes) : bytes :=
  match encode_record m s with Ok e => e | Err _ => [] end.

Lemma enc1_ok : encode_record m1 snap1 = Ok (enc m1 snap1).
Proof. vm_compute. reflexivity. Qed.

Lemma enc2_ok : encode_record m2 snap2 = Ok (enc m2 snap2).
Proof. vm_compute. reflexivity. Qed.

Lemma journal_roundtrip_witness :
  scan_record 0 (mjoin [enc m1 snap1; enc m2 snap2]) = inl (mkRecord m1 snap1 2, zlen (enc m1 snap1)) /\
  latest (scan_file (mjoin [enc m1 snap1; enc m2 snap2])) = Some (mkRecord m2 snap2 2).
Proof.
  assert (Forall2 (fun (ms : RecoveryManifest * bytes) e => encode_record ms.1 ms.2 = Ok e)
    [(m1, snap1); (m2, snap2)] [enc m1 snap1; enc m2 snap2]) as Hb
    by (rewrite !Forall2_cons; auto using enc1_ok, enc2_ok).
  destruct (journal_roundtrip _ _ Hb) as (H0 & _ & Hall). split.
  - exact (H0 0%nat _ _ eq_refl eq_refl).
  - rewrite Hall. reflexivity.
Defined.

Lemma torn_append_recovers_witness :
  latest (scan_file (enc m1 snap1 ++ take 60 (enc m2 snap2))) = Some (mkRecord m1 snap1 2).
Proof.
  apply (torn_append_recovers (enc m1 snap1) [mkRecord m1 snap1 2] m2 snap2 (enc m2 snap2) 60).
  - apply scans_encoded, enc1_ok.
  - apply enc2_ok.
  - assert ((60 <? length (enc m2 snap2))%nat = true) as Hl by (vm_compute; reflexivity).
    apply Nat.ltb_lt in Hl. lia.
Defined.
End FormatExamples.
