(* ===== verification/Automerge.v ===== *)
(** * Automerge documents, as the runtime uses them

    [automerge] is a third-party crate.  The durability and recovery code uses
    whole documents through the operations below; the laws are the documented
    behaviour it relies on.  [known d h] says that change [h] is part of the
    applied history of [d]. *)

From S2P Require Import Prelude Manifest.

Class Automerge := {
  am_doc : Type;
  am_change : Type;
  am_load : bytes -> result string am_doc;
  am_save : am_doc -> bytes;
  am_heads : am_doc -> list change_hash;
  am_changes : am_doc -> list am_change;
  am_change_hash : am_change -> change_hash;
  am_deps : am_change -> list change_hash;
  am_get_change_by_hash : am_doc -> change_hash -> option am_change;
  am_apply_changes : am_doc -> list am_change -> result string am_doc;
}.

Definition known `{Automerge} (d : am_doc) (h : change_hash) : Prop :=
  is_Some (am_get_change_by_hash d h).

#[export] Instance known_dec `{Automerge} d h : Decision (known d h).
Proof. unfold known. apply _. Defined.

(** - a saved document loads, with the same history and heads;
    - the heads of a document belong to its history;
    - [get_changes] lists exactly the history, dependencies first;
    - [apply_changes] keeps the history and applies every change whose
      dependencies are present afterwards;
    - a change's hash determines its dependencies. *)
Class AutomergeLaws `{Automerge} : Prop := {
  am_load_save d : exists d', am_load (am_save d) = Ok d' /\
    (forall h, known d' h <-> known d h) /\ am_heads d' = am_heads d;
  am_heads_known d h : h ∈ am_heads d -> known d h;
  am_changes_known d h :
    known d h <-> exists c, c ∈ am_changes d /\ am_change_hash c = h;
  am_changes_causal d pre c post h :
    am_changes d = pre ++ c :: post -> h ∈ am_deps c ->
    exists c', c' ∈ pre /\ am_change_hash c' = h;
  am_apply_keeps d cs d' h : am_apply_changes d cs = Ok d' -> known d h -> known d' h;
  am_apply_ready d cs d' c :
    am_apply_changes d cs = Ok d' -> c ∈ cs ->
    (forall h, h ∈ am_deps c -> known d' h) -> known d' (am_change_hash c);
  am_hash_deps c c' : am_change_hash c = am_change_hash c' -> am_deps c = am_deps c';
}.

Section Merging.
Context `{AutomergeLaws}.

(** [get_changes(&[])] filtered by [get_change_by_hash(..).is_none()]. *)
Definition missing_changes (into : am_doc) (cs : list am_change) : list am_change :=
  filter (fun c => ~ known into (am_change_hash c)) cs.

(** Applying what is missing of another document merges its whole history. *)
Lemma apply_missing_merges into from into' h :
  am_apply_changes into (missing_changes into (am_changes from)) = Ok into' ->
  known from h -> known into' h.
Proof.
  intros Ha. rewrite am_changes_known. intros (c & Hc & <-).
  apply list_elem_of_split in Hc as (pre & post & Hsplit).
  remember (length pre) as n eqn:Hn. revert pre c post Hsplit Hn.
  induction (lt_wf n) as [n _ IH]; intros pre c post Hsplit ->.
  destruct (decide (known into (am_change_hash c))) as [Hk|Hk]; [by eapply am_apply_keeps|].
  apply (am_apply_ready _ _ _ c Ha).
  - apply list_elem_of_filter. split; [done|]. rewrite Hsplit. set_solver.
  - intros dep Hd. destruct (am_changes_causal _ _ _ _ _ Hsplit Hd) as (c' & Hc' & <-).
    apply list_elem_of_split in Hc' as (p1 & p2 & ->).
    apply (IH (length p1)) with (pre := p1) (post := p2 ++ c :: post); [|by rewrite Hsplit, <- app_assoc|done].
    rewrite length_app. simpl. lia.
Qed.
End Merging.

(** ** A concrete document store

    Documents whose changes are independent of each other: a list of change
    hashes, written as the numeral of its code. *)
Module PlainAutomerge.
Import PlainCodec.

Definition doc := list change_hash.

Definition load_doc (bs : bytes) : result string doc :=
  match decode (Z.to_pos (from_le_bytes bs)) with Some d => Ok d | None => Err "corrupt" end.

#[export] Instance plain_automerge : Automerge := {|
  am_doc := doc;
  am_change := change_hash;
  am_load := load_doc;
  am_save d := pos_bytes (encode d);
  am_heads d := d;
  am_changes d := d;
  am_change_hash c := c;
  am_deps _ := [];
  am_get_change_by_hash d h := if decide (h ∈ d) then Some h else None;
  am_apply_changes d cs := Ok (d ++ cs);
|}.

Lemma plain_known d h : known d h <-> h ∈ d.
Proof. unfold known. simpl. case_decide; split; naive_solver. Qed.

#[export] Instance plain_automerge_laws : AutomergeLaws.
Proof.
  split.
  - intros d. exists d. simpl. unfold load_doc.
    by rewrite from_pos_bytes, Pos2Z.id, decode_encode.
  - intros d h Hh. by apply plain_known.
  - intros d h. rewrite plain_known. simpl. naive_solver.
  - intros d pre c post h _ Hh. by apply elem_of_nil in Hh.
  - intros d cs d' h [= <-]. rewrite !plain_known. set_solver.
  - intros d cs d' c [= <-] Hc _. apply plain_known. simpl. set_solver.
  - done.
Qed.
End PlainAutomerge.
