(* ===== verification/Journal.v ===== *)
(** * The recovery journal on disk

    The [RecoveryJournal] operations of
    [crates/runtimed/src/notebook_sync_server/recovery.rs]: append with torn-tail
    repair and compaction, reading the latest record, classification against the
    source file, archiving, legacy migration and discovery by path.

    The model keeps what the operations read and write: the bytes of the journal
    file, its modification stamp, the manifest sidecar, the published archive
    directories and the process-local append cursor.  Every call into the
    operating system takes its outcome from an explicit record of I/O results
    ([None] is success), and a failing write says how many bytes reached the
    file, so a crash at any point is one of these outcomes followed by
    [restart]. *)

From Stdlib Require Import Ascii String.
From S2P Require Import Prelude Manifest JournalFormat Automerge.

(** ** State *)

(** [JournalAppendCursor]. *)
Record JournalAppendCursor := mkCursor {
  cur_file_len : Z;
  cur_modified : option Z;
  cur_last_valid_end : Z;
  cur_valid_record_count : Z;
}.

(** A [RecoveryJournal] with the part of the disk it owns.  [mtime] is the
    modification time of the journal file: every change of its content stamps a
    later one. *)
Record RecoveryJournal := mkJournal {
  path : string;
  file : option bytes;
  mtime : Z;
  sidecar : option bytes;
  archives : gmap string (bytes * option bytes);
  append_cursor : option JournalAppendCursor;
}.

Definition set_file (f : bytes) (j : RecoveryJournal) : RecoveryJournal :=
  mkJournal (path j) (Some f) (mtime j + 1) (sidecar j) (archives j) (append_cursor j).
Definition set_sidecar (s : option bytes) (j : RecoveryJournal) : RecoveryJournal :=
  mkJournal (path j) (file j) (mtime j) s (archives j) (append_cursor j).
Definition set_cursor (c : option JournalAppendCursor) (j : RecoveryJournal)
    : RecoveryJournal :=
  mkJournal (path j) (file j) (mtime j) (sidecar j) (archives j) c.
Definition set_archive (d : string) (a : bytes * option bytes) (j : RecoveryJournal)
    : RecoveryJournal :=
  mkJournal (path j) (file j) (mtime j) (sidecar j) (<[d := a]> (archives j))
    (append_cursor j).

(** A new process: the cursor is gone, the disk is what it was. *)
Definition restart (j : RecoveryJournal) : RecoveryJournal := set_cursor None j.

(** How [replace_file_atomically] ends: an error before the rename leaves the
    destination alone, an error flushing the directory after the rename is
    reported although the destination has the new bytes. *)
Inductive ReplaceOutcome :=
| Replaced
| FailedBefore (e : string)
| FailedAfter (e : string).

(** [replace_file_atomically]. *)
Definition replace_file_atomically (o : ReplaceOutcome) (old : option bytes) (new : bytes)
    : option bytes * result string () :=
  match o with
  | Replaced => (Some new, Ok ())
  | FailedBefore e => (old, Err e)
  | FailedAfter e => (Some new, Err e)
  end.

Definition is_replaced (o : ReplaceOutcome) : bool :=
  match o with FailedBefore _ => false | _ => true end.

(** [replace_file_atomically] on the journal file itself. *)
Definition replace_journal (o : ReplaceOutcome) (new : bytes) (j : RecoveryJournal)
    : RecoveryJournal := if is_replaced o then set_file new j else j.

(** [write_all] at an offset; a gap is filled with zeros. *)
Definition write_at (f : bytes) (offset : nat) (data : bytes) : bytes :=
  take offset f ++ replicate (offset - length f) Byte.x00 ++ data ++
  drop (offset + length data) f.

(** The results of the system calls of one [append]. *)
Record AppendIo := mkAppendIo {
  io_mkdir : option string;
  io_open : option string;
  io_metadata : option string;
  io_dir_sync : option string;
  io_modified_known : bool;
  io_scan : option string;
  io_set_len : option string;
  io_sync_repair : option string;
  io_seek : option string;
  io_write : option (nat * string);
  io_sync : option string;
  io_sidecar : ReplaceOutcome;
  io_compact : ReplaceOutcome;
  io_modified_known_after : bool;
}.

(** Return the state and [Err (Io e)] when a call failed. *)
Notation "'io!' r 'else' j 'in' k" :=
  (match r with Some e => (j, Err (Io e)) | None => k end)
  (at level 10, r at level 9, j at level 9, k at level 200).

Section JournalOps.
Context `{Sha256, ManifestJson}.

(** [OpenOptions::new().read(true).write(true).create(true).open(path)]. *)
Definition open_or_create (j : RecoveryJournal) : RecoveryJournal :=
  match file j with Some _ => j | None => set_file [] j end.

Definition contents (j : RecoveryJournal) : bytes := default [] (file j).

(** The cursor is trusted when length and modification time still match. *)
Definition cursor_matches (modified : option Z) (f : bytes) (c : JournalAppendCursor) : bool :=
  bool_decide (cur_file_len c = zlen f /\ is_Some (cur_modified c) /\
               cur_modified c = modified).

(** Where the record goes: from the cursor, or from a scan of the file. *)
Definition append_position (io : AppendIo) (j : RecoveryJournal)
    : result RecoveryJournalError (Z * Z * option JournalTailIssue) :=
  let f := contents j in
  let modified := if io_modified_known io then Some (mtime j) else None in
  let scanned :=
    match io_scan io with
    | Some e => Err (Io e)
    | None =>
        let scan := scan_file f in
        Ok (last_valid_end scan, valid_record_count scan, ignored_tail scan)
    end in
  match append_cursor j with
  | Some c =>
      if cursor_matches modified f c then
        Ok (cur_last_valid_end c, cur_valid_record_count c, None)
      else scanned
  | None => scanned
  end.

(** Refuse or truncate the tail that precedes the new record. *)
Definition repair_tail (io : AppendIo) (last_valid_end count : Z)
    (tail : option JournalTailIssue) (j : RecoveryJournal)
    : RecoveryJournal * result RecoveryJournalError () :=
  match tail with
  | None => (j, Ok ())
  | Some tail =>
      if is_unsupported_version tail then (j, Err (UnsupportedTailVersion tail))
      else if decide (count = 0) then (j, Err (ErrNoValidRecord tail))
      else if negb (is_repairable_torn_suffix tail) then
        (j, Err (CorruptTailRequiresReconciliation tail))
      else
        io! (io_set_len io) else j in
        let j := set_file (take (Z.to_nat last_valid_end) (contents j)) j in
        io! (io_sync_repair io) else j in (j, Ok ())
  end.

(** Replace the inspectability sidecar, best effort. *)
Definition refresh_sidecar (o : ReplaceOutcome) (m : RecoveryManifest) (j : RecoveryJournal)
    : RecoveryJournal :=
  match to_vec m with
  | Ok bs => set_sidecar (fst (replace_file_atomically o (sidecar j) bs)) j
  | Err _ => j
  end.

(** The part of [append] after the record is durable: sidecar, compaction and
    the new cursor. *)
Definition finish_append (io : AppendIo) (m : RecoveryManifest) (encoded : bytes)
    (start_offset count : Z) (j : RecoveryJournal) : RecoveryJournal :=
  let j := refresh_sidecar (io_sidecar io) m j in
  let encoded_len := zlen encoded in
  let appended_end := start_offset + encoded_len in
  let appended_record_count := saturating_add_u64 count 1 in
  let should_compact :=
    bool_decide (COMPACT_AFTER_RECORDS <= appended_record_count \/
                 COMPACT_AFTER_BYTES <= appended_end) in
  let '(j, active_end, active_record_count) :=
    if should_compact then
      match snd (replace_file_atomically (io_compact io) (file j) encoded) with
      | Ok _ => (replace_journal (io_compact io) encoded j, encoded_len, 1)
      | Err _ =>
          (replace_journal (io_compact io) encoded j, appended_end, appended_record_count)
      end
    else (j, appended_end, appended_record_count) in
  set_cursor (Some (mkCursor active_end
    (if io_modified_known_after io then Some (mtime j) else None)
    active_end active_record_count)) j.

(** [append] / [append_with_directory_sync]. *)
Definition append (io : AppendIo) (m : RecoveryManifest) (snapshot : bytes)
    (j : RecoveryJournal) : RecoveryJournal * result RecoveryJournalError () :=
  match encode_record m snapshot with
  | Err e => (j, Err e)
  | Ok encoded =>
      io! (io_mkdir io) else j in
      io! (io_open io) else j in
      let j := open_or_create j in
      io! (io_metadata io) else j in
      io! (if decide (contents j = []) then io_dir_sync io else None) else j in
      match append_position io j with
      | Err e => (j, Err e)
      | Ok (last_valid_end, count, tail) =>
          match repair_tail io last_valid_end count tail j with
          | (j, Err e) => (j, Err e)
          | (j, Ok _) =>
              io! (io_seek io) else j in
              let start := Z.to_nat last_valid_end in
              match io_write io with
              | Some (k, e) =>
                  let j := if decide (take k encoded = []) then j
                    else set_file (write_at (contents j) start (take k encoded)) j in
                  (j, Err (Io e))
              | None =>
                  let j := set_file (write_at (contents j) start encoded) j in
                  io! (io_sync io) else j in
                  (finish_append io m encoded last_valid_end count j, Ok ())
              end
          end
      end
  end.

(** ** Reading *)

(** [RecoveryUnavailableReason], [RecoveredJournalRecord],
    [RecoveryLatestOutcome] and [RecoveryLoadOutcome]. *)
Inductive RecoveryUnavailableReason :=
| MissingJournal
| EmptyJournal
| NoValidRecord (tail : JournalTailIssue).

Record RecoveredJournalRecord := mkRecovered {
  record : RecoveryRecord;
  recovered_ignored_tail : option JournalTailIssue;
}.

Inductive RecoveryLatestOutcome :=
| Recovered (r : RecoveredJournalRecord)
| LatestUnavailable (reason : RecoveryUnavailableReason).

Inductive RecoveryLoadOutcome :=
| Match (r : RecoveredJournalRecord)
| SourceConflict (recovery : RecoveredJournalRecord)
    (current_source_fingerprint : SourceFingerprint)
| LoadUnavailable (reason : RecoveryUnavailableReason).

(** [latest_record] on the bytes at the journal's path; [io] is an error other
    than the file not existing. *)
Definition latest_record (io : option string) (f : option bytes)
    : result RecoveryJournalError RecoveryLatestOutcome :=
  match io, f with
  | Some e, _ => Err (Io e)
  | None, None => Ok (LatestUnavailable MissingJournal)
  | None, Some f =>
      let scan := scan_file f in
      match latest scan with
      | None =>
          Ok (LatestUnavailable
                (match ignored_tail scan with
                 | Some tail => NoValidRecord tail | None => EmptyJournal end))
      | Some r => Ok (Recovered (mkRecovered r (ignored_tail scan)))
      end
  end.

(** [load]. *)
Definition load (io : option string) (current : SourceFingerprint) (f : option bytes)
    : result RecoveryJournalError RecoveryLoadOutcome :=
  let? l := latest_record io f in
  match l with
  | LatestUnavailable reason => Ok (LoadUnavailable reason)
  | Recovered r =>
      let m := rec_manifest (record r) in
      if decide (manifest_source_fingerprint m = current \/
                 pfc_file_fingerprint <$> pending_file_checkpoint m = Some current)
      then Ok (Match r) else Ok (SourceConflict r current)
  end.
End JournalOps.

(** ** Archiving and replacement *)

Fixpoint has_slash (p : string) : bool :=
  match p with
  | EmptyString => false
  | String c p' => bool_decide (c = "/"%char) || has_slash p'
  end.

(** [Path::file_name] of a path that does not end in a slash. *)
Fixpoint file_name (p : string) : string :=
  match p with
  | EmptyString => EmptyString
  | String c p' =>
      if has_slash p' then file_name p'
      else if decide (c = "/"%char) then p' else String c p'
  end.

Definition manifest_path (p : string) : string := p +:+ ".manifest.json".

(** The results of the system calls of one archive publication.  An attempt at a
    directory name carries the random identifier, the [try_exists] error and the
    outcome of [create_dir]. *)
Inductive CreateDir := Created | AlreadyExists | CreateFailed (e : string).

Record ArchiveIo := mkArchiveIo {
  ar_open : option string;
  ar_sidecar_exists : option string;
  ar_mkdir : option string;
  ar_attempts : list (string * option string * CreateDir);
  ar_copy : option string;
  ar_rename : option string;
  ar_parent_sync : option string;
}.

(** [create_archive_staging_directory]: at most sixteen attempts. *)
Fixpoint allocate_archive (p : string) (manifest_present : bool)
    (existing : gmap string (bytes * option bytes))
    (attempts : list (string * option string * CreateDir))
    : result RecoveryJournalError RecoveryArchivePaths :=
  match attempts with
  | [] => Err (Io "could not allocate a unique recovery archive path after 16 attempts")
  | (id, exists_err, created) :: rest =>
      let directory := p +:+ ".archive-" +:+ id in
      match exists_err with
      | Some e => Err (Io e)
      | None =>
          if decide (is_Some (existing !! directory)) then
            allocate_archive p manifest_present existing rest
          else match created with
               | Created =>
                   Ok (mkArchivePaths directory (directory +:+ "/" +:+ file_name p)
                         (if manifest_present then
                            Some (directory +:+ "/" +:+ manifest_path (file_name p))
                          else None))
               | AlreadyExists => allocate_archive p manifest_present existing rest
               | CreateFailed e => Err (Io e)
               end
      end
  end.

Definition create_archive_staging_directory (io : ArchiveIo) (manifest_present : bool)
    (j : RecoveryJournal) : result RecoveryJournalError RecoveryArchivePaths :=
  match ar_mkdir io with
  | Some e => Err (Io e)
  | None => allocate_archive (path j) manifest_present (archives j) (take 16 (ar_attempts io))
  end.

(** [publish_archive_copy]. *)
Definition publish_archive_copy (io : ArchiveIo) (j : RecoveryJournal)
    : RecoveryJournal * result RecoveryJournalError RecoveryArchivePaths :=
  match file j, ar_open io with
  | None, _ => (j, Err (Io "not found"))
  | Some _, Some e => (j, Err (Io e))
  | Some f, None =>
      io! (ar_sidecar_exists io) else j in
      match create_archive_staging_directory io (bool_decide (is_Some (sidecar j))) j with
      | Err e => (j, Err e)
      | Ok archive =>
          io! (ar_copy io) else j in
          io! (ar_rename io) else j in
          let j := set_archive (archive_directory archive) (f, sidecar j) j in
          match ar_parent_sync io with
          | Some e => (j, Err (ArchiveNotCommitted archive e))
          | None => (j, Ok archive)
          end
      end
  end.

(** [RecoveryArchiveReplacement]. *)
Record RecoveryArchiveReplacement := mkReplacement {
  archive : RecoveryArchivePaths;
  durability_warning : option string;
}.

Record ReplaceIo := mkReplaceIo {
  re_archive : ArchiveIo;
  re_replace : ReplaceOutcome;
  re_read_back : bool;
  re_modified_known : bool;
  re_sidecar : ReplaceOutcome;
}.

Section ArchiveOps.
Context `{Sha256, ManifestJson}.

(** The part of [archive_and_replace_with] after the new journal is in place. *)
Definition commit_replacement (io : ReplaceIo) (m : RecoveryManifest) (encoded : bytes)
    (archive : RecoveryArchivePaths) (warning : option string) (j : RecoveryJournal)
    : RecoveryJournal * result RecoveryJournalError RecoveryArchiveReplacement :=
  let j := set_cursor (Some (mkCursor (zlen encoded)
    (if re_modified_known io then Some (mtime j) else None) (zlen encoded) 1)) j in
  (refresh_sidecar (re_sidecar io) m j, Ok (mkReplacement archive warning)).

(** [archive_and_replace] / [archive_and_replace_with]. *)
Definition archive_and_replace (io : ReplaceIo) (m : RecoveryManifest) (snapshot : bytes)
    (j : RecoveryJournal)
    : RecoveryJournal * result RecoveryJournalError RecoveryArchiveReplacement :=
  match encode_record m snapshot with
  | Err e => (j, Err e)
  | Ok encoded =>
      match publish_archive_copy (re_archive io) j with
      | (j, Err e) => (j, Err e)
      | (j, Ok archive) =>
          let outcome := snd (replace_file_atomically (re_replace io) (file j) encoded) in
          let j := replace_journal (re_replace io) encoded j in
          match outcome with
          | Ok _ => commit_replacement io m encoded archive None j
          | Err e =>
              if re_read_back io && bool_decide (file j = Some encoded) then
                commit_replacement io m encoded archive (Some e) j
              else (j, Err (ArchiveNotCommitted archive e))
          end
      end
  end.

(** [replace_after_verified_archive]. *)
Definition replace_after_verified_archive (read_active read_archived : option string)
    (o side : ReplaceOutcome) (archive : RecoveryArchivePaths) (m : RecoveryManifest)
    (snapshot : bytes) (j : RecoveryJournal)
    : RecoveryJournal * result RecoveryJournalError () :=
  io! read_active else j in
  io! read_archived else j in
  match file j, archives j !! archive_directory archive with
  | Some active, Some (archived, _) =>
      if decide (active = archived) then
        match encode_record m snapshot with
        | Err e => (j, Err e)
        | Ok encoded =>
            let j' := replace_journal o encoded j in
            match snd (replace_file_atomically o (file j) encoded) with
            | Err e => (j', Err (Io e))
            | Ok _ => (refresh_sidecar side m j', Ok ())
            end
        end
      else (j, Err ChangedAfterArchive)
  | _, _ => (j, Err (Io "not found"))
  end.
End ArchiveOps.

(** ** Migration of version-1 journals *)

Section Migration.
Context `{Sha256, ManifestJson, Automerge}.
(** [notebook_doc::NotebookDoc::load], used only to accept or refuse. *)
Context (notebook_doc_load : bytes -> result string ()).

(** [verified_recovery_record]. *)
Definition verified_recovery_record (io : option string) (f : option bytes)
    (id : string) (required_source_version : option Z)
    : result RecoveryJournalError RecoveryRecord :=
  let? l := latest_record io f in
  match l with
  | LatestUnavailable (NoValidRecord tail) => Err (ErrNoValidRecord tail)
  | LatestUnavailable _ => Err (InvalidSnapshot "recovery journal is unavailable")
  | Recovered r =>
      match recovered_ignored_tail r with
      | Some _ => Err (InvalidSnapshot "recovery journal has a non-empty tail")
      | None =>
          let v := source_manifest_version (record r) in
          let m := rec_manifest (record r) in
          if decide (required_source_version <> None /\ required_source_version <> Some v)
          then Err (ErrUnsupportedManifestVersion v)
          else if decide (notebook_id m = id) then
            match am_load (automerge_snapshot (record r)) with
            | Err e => Err (InvalidSnapshot e)
            | Ok document =>
                if decide (sort_heads (am_heads document) = sort_heads (durable_heads m))
                then
                  match notebook_doc_load (automerge_snapshot (record r)) with
                  | Err e => Err (InvalidSnapshot e)
                  | Ok _ => Ok (record r)
                  end
                else Err SnapshotHeadsMismatch
            end
          else Err (InvalidSnapshot "journal claims another notebook")
      end
  end.

(** [PreparedLegacyOverflowJournal]; the journal itself is the state. *)
Record PreparedLegacyOverflowJournal := mkPrepared {
  prepared_notebook_id : string;
  prepared_archive : RecoveryArchivePaths;
  prepared_manifest : RecoveryManifest;
  prepared_snapshot : bytes;
}.

(** [prepare_legacy_overflow_journal]: archive first, then validate the archived
    bytes. *)
Definition prepare_legacy_overflow_journal (io : ArchiveIo) (read : option string)
    (id : string) (j : RecoveryJournal)
    : RecoveryJournal * result RecoveryJournalError PreparedLegacyOverflowJournal :=
  match publish_archive_copy io (restart j) with
  | (j, Err e) => (j, Err e)
  | (j, Ok archive) =>
      match verified_recovery_record read (fst <$> archives j !! archive_directory archive)
              id (Some LEGACY_RECOVERY_MANIFEST_VERSION) with
      | Err e => (j, Err e)
      | Ok r => (j, Ok (mkPrepared id archive (rec_manifest r) (automerge_snapshot r)))
      end
  end.

(** [migrate_prepared_legacy_overflow_journal]. *)
Definition migrate_prepared_legacy_overflow_journal (read_active read_archived : option string)
    (o side : ReplaceOutcome) (p : PreparedLegacyOverflowJournal) (j : RecoveryJournal)
    : RecoveryJournal * result RecoveryJournalError () :=
  replace_after_verified_archive read_active read_archived o side (prepared_archive p)
    (prepared_manifest p) (prepared_snapshot p) j.

(** [verify_prepared_legacy_overflow_fallback]. *)
Definition verify_prepared_legacy_overflow_fallback (io : option string)
    (p : PreparedLegacyOverflowJournal) (j : RecoveryJournal)
    : result RecoveryJournalError () :=
  let? _ := verified_recovery_record io (file j) (prepared_notebook_id p) None in Ok ().
End Migration.

(** ** Discovery by canonical path *)

Fixpoint rsplit_dot (s : string) : option (string * string) :=
  match s with
  | EmptyString => None
  | String c s' =>
      match rsplit_dot s' with
      | Some (before, after) => Some (String c before, after)
      | None => if decide (c = "."%char) then Some (EmptyString, s') else None
      end
  end.

(** [Path::extension] of a file name. *)
Definition extension (name : string) : option string :=
  if decide (name = "..") then None
  else match rsplit_dot name with
       | Some (EmptyString, _) | None => None
       | Some (_, after) => Some after
       end.

Definition string_le (a b : string) : Prop := String.leb a b = true.
#[export] Instance string_le_dec : RelDecision string_le.
Proof. intros a b. unfold string_le. apply _. Defined.

(** [RecoveryJournalDiscovery] and its errors; journals are named within the
    documents directory. *)
Inductive RecoveryJournalDiscovery :=
| NotFound
| Found (notebook_id : string) (journal : string).

Inductive RecoveryJournalDiscoveryError :=
| Directory (e : string)
| DiscoveryJournal (journal : string) (source : RecoveryJournalError)
| MisboundJournal (notebook_id journal expected : string)
| AmbiguousPath (canonical_path : string) (candidates : list (string * string)).

(** [std::fs::read_dir] and its entries. *)
Inductive ReadDir :=
| DirMissing
| DirError (e : string)
| DirEntries (entries : list (result string string)).

Section Discovery.
Context `{Sha256, ManifestJson, HexCodec}.

(** [docs_dir.join(notebook_doc_filename(id)).with_extension("recovery")]. *)
Definition expected_journal (id : string) : string :=
  hex_encode (sha256 (list_byte_of_string id)) +:+ ".recovery".

Fixpoint recovery_entries (entries : list (result string string))
    : result RecoveryJournalDiscoveryError (list string) :=
  match entries with
  | [] => Ok []
  | Err e :: _ => Err (Directory e)
  | Ok name :: rest =>
      let? names := recovery_entries rest in
      Ok (if decide (extension name = Some "recovery") then name :: names else names)
  end.

(** The loop over the sorted journals; [read name] is what opening it gives. *)
Fixpoint discover_candidates (read : string -> option string * option bytes)
    (target : string) (names : list string)
    : result RecoveryJournalDiscoveryError (list (string * string)) :=
  match names with
  | [] => Ok []
  | name :: rest =>
      match latest_record (fst (read name)) (snd (read name)) with
      | Err source => Err (DiscoveryJournal name source)
      | Ok (LatestUnavailable (NoValidRecord tail)) =>
          Err (DiscoveryJournal name (ErrNoValidRecord tail))
      | Ok (LatestUnavailable _) => discover_candidates read target rest
      | Ok (Recovered r) =>
          let m := rec_manifest (record r) in
          if decide (canonical_path m = Some target) then
            let expected := expected_journal (notebook_id m) in
            if decide (name = expected) then
              let? cs := discover_candidates read target rest in
              Ok ((notebook_id m, name) :: cs)
            else Err (MisboundJournal (notebook_id m) name expected)
          else discover_candidates read target rest
      end
  end.

(** [discover_journal_by_canonical_path]. *)
Definition discover_journal_by_canonical_path (dir : ReadDir)
    (read : string -> option string * option bytes) (target : string)
    : result RecoveryJournalDiscoveryError RecoveryJournalDiscovery :=
  match dir with
  | DirMissing => Ok NotFound
  | DirError e => Err (Directory e)
  | DirEntries entries =>
      let? names := recovery_entries entries in
      let? candidates := discover_candidates read target (merge_sort string_le names) in
      match candidates with
      | [] => Ok NotFound
      | [(id, journal)] => Ok (Found id journal)
      | _ => Err (AmbiguousPath target candidates)
      end
  end.
End Discovery.

(** ** The append cursor is honest

    When the cursor matches the file's length and modification time, the file is
    a complete journal with the cursor's number of records. *)

Section AppendLemmas.
Context `{Sha256, ManifestJson}.

Definition cursor_honest (j : RecoveryJournal) : Prop :=
  forall c, append_cursor j = Some c ->
    (forall t, cur_modified c = Some t -> t <= mtime j) /\
    (cur_file_len c = zlen (contents j) -> cur_modified c = Some (mtime j) ->
     exists rs, scans 0 (contents j) rs [] None /\
       cur_last_valid_end c = zlen (contents j) /\
       cur_valid_record_count c = count_u64 (Z.of_nat (length rs))).

(** The records of the journal and the issue with its tail, if any. *)
Definition reads (j : RecoveryJournal) (rs : list RecoveryRecord)
    (i : option JournalTailIssue) : Prop :=
  exists tl, scans 0 (contents j) rs tl i.

Lemma scans_tail off f rs tl i : scans off f rs tl i -> i = None <-> tl = [].
Proof. induction 1; naive_solver. Qed.

Lemma contents_set_cursor c j : contents (set_cursor c j) = contents j.
Proof. done. Qed.

Lemma contents_set_file f j : contents (set_file f j) = f.
Proof. done. Qed.

Lemma set_file_honest f j : cursor_honest j -> cursor_honest (set_file f j).
Proof.
  intros Hc c Hj. destruct (Hc c Hj) as [Ht _]. simpl in *. split.
  - intros t Et. specialize (Ht t Et). lia.
  - intros _ Et. specialize (Ht _ Et). lia.
Qed.

Lemma open_or_create_honest j : cursor_honest j -> cursor_honest (open_or_create j).
Proof. intros Hc. unfold open_or_create. case_match; [done|by apply set_file_honest]. Qed.

Lemma open_or_create_contents j : contents (open_or_create j) = contents j.
Proof. unfold open_or_create, contents. by destruct (file j) eqn:E; rewrite ?E. Qed.

Lemma append_position_spec io j lve cnt tail rs tl i :
  cursor_honest j -> scans 0 (contents j) rs tl i ->
  append_position io j = Ok (lve, cnt, tail) ->
  tail = i /\ lve = zlen (contents j) - zlen tl /\ cnt = count_u64 (Z.of_nat (length rs)).
Proof.
  intros Hc Hs. unfold append_position.
  assert (match io_scan io with
          | Some e => Err (Io e)
          | None => Ok (last_valid_end (scan_file (contents j)),
              valid_record_count (scan_file (contents j)), ignored_tail (scan_file (contents j)))
          end = Ok (lve, cnt, tail) ->
    tail = i /\ lve = zlen (contents j) - zlen tl /\ cnt = count_u64 (Z.of_nat (length rs)))
    as Hscan.
  { rewrite (scan_file_of_scans _ _ _ _ Hs). by destruct (io_scan io); intros; simplify_eq/=. }
  destruct (append_cursor j) as [c|] eqn:Ec; [|done].
  unfold cursor_matches. case_bool_decide as Hm; [|done]. intros [= <- <- <-].
  destruct Hm as (Hl & [t Ht] & Hmod). destruct (Hc c Ec) as [_ Hh].
  rewrite Ht in Hmod. destruct (io_modified_known io); simplify_eq.
  destruct (Hh Hl Ht) as (rs' & Hs' & He & Hn).
  destruct (scans_det _ _ _ _ _ _ _ _ Hs Hs') as (-> & -> & ->).
  split_and!; [done| |done]. rewrite He. unfold zlen at 3. simpl. lia.
Qed.

Lemma repair_tail_spec io j j' r rs p tl i :
  cursor_honest j -> contents j = p ++ tl -> scans 0 (contents j) rs tl i ->
  repair_tail io (zlen p) (count_u64 (Z.of_nat (length rs))) i j = (j', r) ->
  cursor_honest j' /\
  match r with
  | Ok _ => contents j' = p
  | Err _ => contents j' = contents j \/ contents j' = p
  end.
Proof.
  intros Hc Hp Hs. unfold repair_tail. destruct i as [i|].
  - intros Hr. repeat case_match; simplify_eq; try (split; [done|by left]).
    all: split; [by apply set_file_honest|]; try right; unfold contents at 1; simpl.
    all: rewrite Hp; apply take_app_exact; unfold zlen; lia.
  - intros [= <- <-]. split; [done|]. rewrite Hp.
    rewrite (proj1 (scans_tail _ _ _ _ _ Hs) eq_refl). apply app_nil_r.
Qed.

Lemma write_at_end (p data : bytes) : write_at p (Z.to_nat (zlen p)) data = p ++ data.
Proof.
  unfold write_at, zlen. rewrite Nat2Z.id, firstn_all, Nat.sub_diag, drop_ge by lia.
  by rewrite app_nil_r.
Qed.

(** The records after a completed append: the old ones and the new one, or, when
    the journal was compacted, the new one alone. *)
Lemma finish_append_spec io m s enc j rs p :
  let new := mkRecord m s RECOVERY_MANIFEST_VERSION in
  let j' := finish_append io m enc (zlen p) (count_u64 (Z.of_nat (length rs))) j in
  contents j = p ++ enc -> scans 0 p rs [] None -> encode_record m s = Ok enc ->
  cursor_honest j' /\
  exists rs', scans 0 (contents j') rs' [] None /\
    ((contents j' = p ++ enc /\ rs' = rs ++ [new]) \/ (contents j' = enc /\ rs' = [new])) /\
    (io_compact io = Replaced ->
     rs' = [new] \/ (zlen (contents j') < COMPACT_AFTER_BYTES /\
       Z.of_nat (length rs') < COMPACT_AFTER_RECORDS)).
Proof.
  intros new j' Hj Hp He. subst j'.
  pose proof (scans_encoded 0 m s enc He) as Hnew.
  pose proof (scans_app _ _ _ _ _ _ _ Hp (scans_encoded _ m s enc He)) as Hall.
  assert (count_u64 (Z.of_nat (length (rs ++ [new])))
    = saturating_add_u64 (count_u64 (Z.of_nat (length rs))) 1) as Hcnt.
  { rewrite length_app. unfold count_u64, saturating_add_u64. simpl. lia. }
  unfold finish_append. set (j1 := refresh_sidecar _ _ _).
  assert (contents j1 = p ++ enc) as Hj1
    by (subst j1; unfold refresh_sidecar; by destruct (to_vec m)).
  clearbody j1.
  assert (zlen (p ++ enc) = zlen p + zlen enc) as Hz by apply zlen_app.
  case_bool_decide as Hcompact.
  - destruct (io_compact io) as [|e|e]; cbn [replace_file_atomically snd replace_journal is_replaced];
      rewrite contents_set_cursor, ?contents_set_file.
    + split; [|exists [new]; split_and!; eauto].
      intros c [= <-]; simpl. split; [intros t; case_match; intros; simplify_eq; lia|].
      intros _ _. by exists [new].
    + rewrite Hj1. split; [|exists (rs ++ [new]); split_and!; eauto; done].
      intros c [= <-]. rewrite contents_set_cursor, Hj1. cbn.
      split; [intros t; case_match; intros; simplify_eq; lia|].
      intros _ _. exists (rs ++ [new]). by rewrite Hz.
    + split; [|exists [new]; split_and!; eauto; done].
      intros c [= <-]. rewrite contents_set_cursor, contents_set_file. cbn.
      split; [intros t; case_match; intros; simplify_eq; lia|]. intros Hlen _.
      assert (zlen p = 0) as Hp0 by lia.
      assert (p = []) as -> by (destruct p; [done|unfold zlen in Hp0; simpl in Hp0; lia]).
      inversion Hp; simplify_eq. by exists [new].
  - assert (~ COMPACT_AFTER_RECORDS <= saturating_add_u64 (count_u64 (Z.of_nat (length rs))) 1
      /\ ~ COMPACT_AFTER_BYTES <= zlen p + zlen enc) as [Hc1 Hc2] by tauto.
    rewrite contents_set_cursor, Hj1. split.
    + intros c [= <-]. rewrite contents_set_cursor, Hj1. cbn.
      split; [intros t; case_match; intros; simplify_eq; lia|].
      intros _ _. exists (rs ++ [new]). by rewrite Hz.
    + exists (rs ++ [new]). split_and!; eauto. intros _. right. rewrite Hz. split; [lia|].
      unfold COMPACT_AFTER_RECORDS in *. rewrite <- Hcnt in Hc1. unfold count_u64, u64_max in Hc1.
      lia.
Qed.

Lemma refresh_sidecar_same o m j :
  contents (refresh_sidecar o m j) = contents j /\
  mtime (refresh_sidecar o m j) = mtime j /\
  append_cursor (refresh_sidecar o m j) = append_cursor j.
Proof. unfold refresh_sidecar. by destruct (to_vec m). Qed.

(** A partial or complete write of a record after a complete journal. *)
Lemma torn_or_complete m s enc k p rs j :
  encode_record m s = Ok enc -> scans 0 p rs [] None -> take k enc <> [] ->
  let new := mkRecord m s RECOVERY_MANIFEST_VERSION in
  exists rs' i', reads (set_file (p ++ take k enc) j) rs' i' /\ (rs' = rs \/ rs' = rs ++ [new]).
Proof.
  intros He Hp Hk new. unfold reads. rewrite contents_set_file.
  destruct (decide (length enc <= k)%nat) as [Hle|Hlt].
  - rewrite take_ge by done. exists (rs ++ [new]), None. split; [|by right].
    exists []. by eapply scans_app, scans_encoded.
  - assert (0 < k)%nat by (destruct k; [done|lia]).
    destruct (scans_torn (0 + zlen p) m s enc k He) as (i & Hi & _); [lia|].
    exists rs, (Some i). split; [|by left]. exists (take k enc).
    rewrite <- (app_nil_r rs). by eapply scans_app.
Qed.

(** Everything an append can do to the journal, whatever fails. *)
Lemma append_spec io m s j j' r rs i :
  cursor_honest j -> reads j rs i -> append io m s j = (j', r) ->
  let new := mkRecord m s RECOVERY_MANIFEST_VERSION in
  cursor_honest j' /\
  exists rs' i', reads j' rs' i' /\
    match r with
    | Ok _ => i' = None /\ (rs' = rs ++ [new] \/ rs' = [new]) /\
        (io_compact io = Replaced ->
         rs' = [new] \/ (zlen (contents j') < COMPACT_AFTER_BYTES /\
           Z.of_nat (length rs') < COMPACT_AFTER_RECORDS))
    | Err _ => rs' = rs \/ rs' = rs ++ [new]
    end.
Proof.
  intros Hc [tl Hs] Ha new. unfold append in Ha.
  assert (forall j, cursor_honest j -> scans 0 (contents j) rs tl i -> cursor_honest j /\
    exists rs' i', reads j rs' i' /\ (rs' = rs \/ rs' = rs ++ [new])) as Hkeep.
  { intros j1 Hc1 Hs1. split; [done|]. exists rs, i. split; [by exists tl|by left]. }
  destruct (encode_record m s) as [enc|e] eqn:Henc; [|simplify_eq; by apply Hkeep].
  destruct (io_mkdir io); [simplify_eq; by apply Hkeep|].
  destruct (io_open io); [simplify_eq; by apply Hkeep|].
  rewrite <- (open_or_create_contents j) in Hs. apply open_or_create_honest in Hc.
  set (j0 := open_or_create j) in *. clearbody j0. clear j.
  specialize (Hkeep j0 Hc Hs).
  destruct (io_metadata io); [by simplify_eq|].
  destruct (if decide (contents j0 = []) then io_dir_sync io else None); [by simplify_eq|].
  destruct (append_position io j0) as [[[lve cnt] tail]|e] eqn:Hpos; [|by simplify_eq].
  destruct (append_position_spec _ _ _ _ _ _ _ _ Hc Hs Hpos) as (-> & -> & ->).
  destruct (scans_split _ _ _ _ _ Hs) as (p & Hp & Hps).
  replace (zlen (contents j0) - zlen tl) with (zlen p) in Ha by (rewrite Hp, zlen_app; lia).
  destruct (repair_tail _ _ _ _ _) as [j1 [u|e]] eqn:Hrep;
    destruct (repair_tail_spec _ _ _ _ _ _ _ _ Hc Hp Hs Hrep) as [Hc1 Hj1].
  2: { simplify_eq. split; [done|]. destruct Hj1 as [Hj1|Hj1].
       - exists rs, i. split; [|by left]. exists tl. by rewrite Hj1.
       - exists rs, None. split; [|by left]. exists []. by rewrite Hj1. }
  rewrite Hj1, write_at_end in Ha.
  assert (cursor_honest j1 /\ exists rs' i', reads j1 rs' i' /\ (rs' = rs \/ rs' = rs ++ [new]))
    as Hsame1.
  { split; [done|]. exists rs, None. split; [exists []; by rewrite Hj1|by left]. }
  destruct (io_seek io); [by simplify_eq|].
  destruct (io_write io) as [[k e]|].
  - rewrite write_at_end in Ha. injection Ha as <- <-. case_decide as Hk; [done|].
    split; [by apply set_file_honest|]. by apply torn_or_complete.
  - destruct (io_sync io).
    + injection Ha as <- <-. split; [by apply set_file_honest|].
      exists (rs ++ [new]), None. split; [|by right]. exists [].
      rewrite contents_set_file. by eapply scans_app, scans_encoded.
    + injection Ha as <- <-. destruct (finish_append_spec io m s enc (set_file (p ++ enc) j1) rs p)
        as (Hch & rs' & Hrs' & Hor & Hcomp); [done..|].
      split; [done|]. exists rs', None. split; [by exists []|]. naive_solver.
Qed.
End AppendLemmas.

(** ** Histories of a journal *)

Section Histories.
Context `{Sha256, ManifestJson}.

Definition latest_of (j : RecoveryJournal) : option RecoveryRecord :=
  latest (scan_file (contents j)).

Lemma reads_latest j rs i : reads j rs i -> latest_of j = last rs.
Proof. intros [tl Hs]. unfold latest_of. by rewrite (scan_file_of_scans _ _ _ _ Hs). Qed.

Lemma reads_total j : exists rs i, reads j rs i.
Proof. destruct (scans_total 0 (contents j)) as (rs & tl & i & Hs). by exists rs, i, tl. Qed.

(** An append keeps the cursor honest; success makes the new record the latest,
    failure leaves the latest alone or replaces it by the new one. *)
Lemma append_latest io m s j j' r :
  cursor_honest j -> append io m s j = (j', r) ->
  cursor_honest j' /\
  match r with
  | Ok _ => latest_of j' = Some (mkRecord m s RECOVERY_MANIFEST_VERSION)
  | Err _ => latest_of j' = latest_of j \/
      latest_of j' = Some (mkRecord m s RECOVERY_MANIFEST_VERSION)
  end.
Proof.
  intros Hc Ha. destruct (reads_total j) as (rs & i & Hr).
  destruct (append_spec io m s j j' r rs i Hc Hr Ha) as [Hc' (rs' & i' & Hr' & Hm)].
  split; [done|]. rewrite (reads_latest _ _ _ Hr), (reads_latest _ _ _ Hr').
  destruct r; [destruct Hm as (_ & [-> | ->] & _)|destruct Hm as [-> | ->]];
    rewrite ?last_snoc; auto.
Qed.

(** One event in the life of a journal: an append with some outcome of its
    system calls, or a restart of the process. *)
Inductive event :=
| Append (io : AppendIo) (m : RecoveryManifest) (snapshot : bytes)
| Restart.

(** The journal after an event, and the records that may be the newest one on
    disk: after a successful append only its record, after a failed one also
    those that were possible before. *)
Definition after (e : event) (st : RecoveryJournal * list (option RecoveryRecord))
    : RecoveryJournal * list (option RecoveryRecord) :=
  let '(j, possible) := st in
  match e with
  | Restart => (restart j, possible)
  | Append io m s =>
      let new := Some (mkRecord m s RECOVERY_MANIFEST_VERSION) in
      match append io m s j with
      | (j', Ok _) => (j', [new])
      | (j', Err _) => (j', possible ++ [new])
      end
  end.

Lemma after_ok e st :
  cursor_honest st.1 -> latest_of st.1 ∈ st.2 ->
  cursor_honest (after e st).1 /\ latest_of (after e st).1 ∈ (after e st).2.
Proof.
  destruct st as [j possible]; simpl. intros Hc Hl. destruct e as [io m s|]; simpl.
  - destruct (append io m s j) as [j' [u|e]] eqn:Ha;
      destruct (append_latest _ _ _ _ _ _ Hc Ha) as [Hc' Hl']; simpl; split; try done.
    + rewrite Hl'. set_solver.
    + destruct Hl' as [-> | ->]; set_solver.
  - split; [|done]. by intros c.
Qed.

(** The newly created journal of a room. *)
Definition journal_new (p : string) (side : option bytes)
    (arch : gmap string (bytes * option bytes)) : RecoveryJournal :=
  mkJournal p None 0 side arch None.
End Histories.

(** ** Lemmas on archiving *)

Section ArchiveLemmas.
Context `{Sha256, ManifestJson}.

Lemma allocate_archive_fresh p mp existing attempts a :
  allocate_archive p mp existing attempts = Ok a -> existing !! archive_directory a = None.
Proof.
  induction attempts as [|[[id ex] cr] rest IH]; simpl; [done|]. intros Ha.
  repeat case_match; simplify_eq/=; eauto; by apply eq_None_not_Some.
Qed.

Lemma publish_archive_copy_spec io j j' r :
  publish_archive_copy io j = (j', r) ->
  path j' = path j /\ file j' = file j /\ mtime j' = mtime j /\ sidecar j' = sidecar j /\
  append_cursor j' = append_cursor j /\ archives j ⊆ archives j' /\
  match r with
  | Ok a => exists f, file j = Some f /\ archives j !! archive_directory a = None /\
      archives j' = <[archive_directory a := (f, sidecar j)]> (archives j)
  | Err _ => True
  end.
Proof.
  unfold publish_archive_copy, create_archive_staging_directory. intros Hp.
  destruct (file j) as [f|] eqn:Ef; [|by simplify_eq].
  destruct (ar_open io); [by simplify_eq|]. destruct (ar_sidecar_exists io); [by simplify_eq|].
  destruct (match ar_mkdir io with Some e => Err (Io e) | None => _ end) as [a|e] eqn:Ea;
    [|by simplify_eq].
  destruct (ar_mkdir io); [done|]. apply allocate_archive_fresh in Ea.
  destruct (ar_copy io); [by simplify_eq|]. destruct (ar_rename io); [by simplify_eq|].
  destruct (ar_parent_sync io); simplify_eq/=; split_and!; try done;
    try (by apply insert_subseteq). by exists f.
Qed.

Lemma commit_replacement_spec io m s enc a w j :
  encode_record m s = Ok enc -> file j = Some enc ->
  exists j', commit_replacement io m enc a w j = (j', Ok (mkReplacement a w)) /\
    cursor_honest j' /\ file j' = Some enc /\ archives j' = archives j.
Proof.
  intros He Hf. unfold commit_replacement. eexists. split; [done|].
  set (j0 := set_cursor _ j).
  destruct (refresh_sidecar_same (re_sidecar io) m j0) as (Hc & Ht & Hcu).
  assert (file (refresh_sidecar (re_sidecar io) m j0) = file j /\
    archives (refresh_sidecar (re_sidecar io) m j0) = archives j) as [-> ->]
    by (unfold refresh_sidecar; by destruct (to_vec m)).
  split; [|done]. intros c. rewrite Hc, Ht, Hcu. intros [= <-].
  assert (contents j0 = enc) as -> by (unfold contents; simpl; by rewrite Hf). simpl.
  split; [intros t; case_match; intros; simplify_eq; lia|]. intros _ _.
  exists [mkRecord m s RECOVERY_MANIFEST_VERSION]. by split_and!; [apply scans_encoded|..].
Qed.

Lemma archive_and_replace_spec io m s j j' r :
  cursor_honest j -> archive_and_replace io m s j = (j', r) ->
  cursor_honest j' /\ archives j ⊆ archives j' /\
  match r with
  | Ok rep => exists f enc, file j = Some f /\ encode_record m s = Ok enc /\
      file j' = Some enc /\
      archives j !! archive_directory (archive rep) = None /\
      archives j' !! archive_directory (archive rep) = Some (f, sidecar j)
  | Err _ => file j' = file j \/
      exists enc, encode_record m s = Ok enc /\ file j' = Some enc
  end.
Proof.
  intros Hc. unfold archive_and_replace.
  destruct (encode_record m s) as [enc|e] eqn:He; [|intros [= <- <-]; eauto].
  destruct (publish_archive_copy (re_archive io) j) as [j1 pr] eqn:Hp.
  destruct (publish_archive_copy_spec _ _ _ _ Hp) as (_ & Hf & Ht & _ & Hcu & Har & Hm).
  assert (cursor_honest j1) as Hc1.
  { intros c. unfold contents. rewrite Hf, Ht, Hcu. apply Hc. }
  destruct pr as [a|e]; [|intros [= <- <-]; eauto].
  destruct Hm as (f & Hfile & Hfresh & Hins).
  assert (forall w j2 r2, file j2 = Some enc -> archives j2 = archives j1 ->
    commit_replacement io m enc a w j2 = (j', r2) ->
    cursor_honest j' /\ archives j ⊆ archives j' /\ r2 = Ok (mkReplacement a w) /\
    exists f0 enc0, file j = Some f0 /\ Ok enc = @Ok RecoveryJournalError _ enc0 /\
      file j' = Some enc0 /\ archives j !! archive_directory a = None /\
      archives j' !! archive_directory a = Some (f0, sidecar j)) as Hcommit.
  { intros w j2 r2 Hf2 Ha2 Hr. destruct (commit_replacement_spec io m s enc a w j2 He Hf2)
      as (j3 & Hj3 & Hh & Hf3 & Ha3). rewrite Hj3 in Hr. injection Hr as <- <-.
    rewrite Ha3, Ha2. split_and!; try done. exists f, enc.
    by rewrite Hins, lookup_insert_eq. }
  destruct (re_replace io) as [|e|e]; cbn; intros Hr.
  - destruct (Hcommit _ (set_file enc j1) _ eq_refl eq_refl Hr) as (? & ? & -> & ?). done.
  - case_match eqn:Hb; [|injection Hr as <- <-; rewrite Hf; eauto].
    apply andb_true_iff in Hb as [_ Hb%bool_decide_eq_true].
    destruct (Hcommit _ _ _ Hb eq_refl Hr) as (? & ? & -> & ?). done.
  - case_match; [|injection Hr as <- <-; split_and!; eauto using set_file_honest].
    destruct (Hcommit _ (set_file enc j1) _ eq_refl eq_refl Hr) as (? & ? & -> & ?). done.
Qed.
End ArchiveLemmas.

(** ** What the journal promises to its clients

    The durability coordinator is written against this interface: [log_latest]
    is the record a restart would recover, and [log_ok] the internal invariant
    that makes the laws hold. *)

Class RecoveryLog (J : Type) := {
  log_io : Type;
  log_replace_io : Type;
  log_path : J -> string;
  log_append : log_io -> RecoveryManifest -> bytes -> J -> J * result RecoveryJournalError ();
  log_archive_and_replace : log_replace_io -> RecoveryManifest -> bytes -> J ->
    J * result RecoveryJournalError RecoveryArchiveReplacement;
  log_latest : J -> option RecoveryRecord;
  log_ok : J -> Prop;
}.

Definition committed_record (m : RecoveryManifest) (s : bytes) : RecoveryRecord :=
  mkRecord m s RECOVERY_MANIFEST_VERSION.

Class RecoveryLogLaws (J : Type) `{RecoveryLog J} : Prop := {
  log_append_law io m s j j' r :
    log_ok j -> log_append io m s j = (j', r) ->
    log_ok j' /\ log_path j' = log_path j /\
    match r with
    | Ok _ => log_latest j' = Some (committed_record m s)
    | Err _ => log_latest j' = log_latest j \/ log_latest j' = Some (committed_record m s)
    end;
  log_replace_law io m s j j' r :
    log_ok j -> log_archive_and_replace io m s j = (j', r) ->
    log_ok j' /\ log_path j' = log_path j /\
    match r with
    | Ok _ => log_latest j' = Some (committed_record m s)
    | Err _ => log_latest j' = log_latest j \/ log_latest j' = Some (committed_record m s)
    end;
}.

Section JournalInstance.
Context `{Sha256, ManifestJson}.

#[export] Instance journal_log : RecoveryLog RecoveryJournal := {|
  log_io := AppendIo;
  log_replace_io := ReplaceIo;
  log_path := path;
  log_append := append;
  log_archive_and_replace := archive_and_replace;
  log_latest := latest_of;
  log_ok := cursor_honest;
|}.

Lemma finish_append_path io m enc lve cnt j : path (finish_append io m enc lve cnt j) = path j.
Proof.
  unfold finish_append, refresh_sidecar, replace_journal.
  destruct (to_vec m), (io_compact io); simpl; case_bool_decide; done.
Qed.

Lemma append_path io m s j : path (fst (append io m s j)) = path j.
Proof.
  unfold append. destruct (encode_record m s) as [enc|e]; [|done].
  destruct (io_mkdir io), (io_open io); try done.
  assert (path (open_or_create j) = path j) as <-
    by (unfold open_or_create; by destruct (file j)).
  destruct (io_metadata io); [done|]. destruct (if decide _ then _ else _); [done|].
  destruct (append_position _ _) as [[[lve cnt] tail]|e]; [|done].
  destruct (repair_tail _ _ _ _ _) as [j1 r] eqn:Hr.
  assert (path j1 = path (open_or_create j)) as <-
    by (unfold repair_tail in Hr; repeat case_match; by simplify_eq/=).
  destruct r; [|done]. destruct (io_seek io); [done|]. destruct (io_write io) as [[k e]|].
  - by case_decide.
  - destruct (io_sync io); [done|]. simpl. by rewrite finish_append_path.
Qed.

Lemma archive_and_replace_path io m s j : path (fst (archive_and_replace io m s j)) = path j.
Proof.
  unfold archive_and_replace. destruct (encode_record m s) as [enc|e]; [|done].
  destruct (publish_archive_copy _ _) as [j1 r] eqn:Hp.
  destruct (publish_archive_copy_spec _ _ _ _ Hp) as (<- & _). destruct r as [ar|]; [|done].
  unfold commit_replacement, refresh_sidecar, replace_journal.
  destruct (re_replace io), (to_vec m); simpl; try done; by case_match.
Qed.

Lemma latest_of_encoded m s enc j :
  encode_record m s = Ok enc -> file j = Some enc -> latest_of j = Some (committed_record m s).
Proof.
  intros He Hf. unfold latest_of, contents. rewrite Hf. simpl.
  by rewrite (scan_file_of_scans _ _ _ _ (scans_encoded 0 _ _ _ He)).
Qed.

#[export] Instance journal_log_laws : RecoveryLogLaws RecoveryJournal.
Proof.
  split.
  - intros io m s j j' r Hok Ha. destruct (append_latest _ _ _ _ _ _ Hok Ha) as [Hok' Hl].
    split_and!; [done| |done]. simpl in Ha |- *. by rewrite <- (append_path io m s j), Ha.
  - intros io m s j j' r Hok Ha. simpl in *.
    destruct (archive_and_replace_spec _ _ _ _ _ _ Hok Ha) as (Hok' & _ & Hr).
    split_and!; [done| |].
    + by rewrite <- (archive_and_replace_path io m s j), Ha.
    + destruct r.
      * destruct Hr as (f & enc & _ & He & Hf & _). by eapply latest_of_encoded.
      * destruct Hr as [Hf|(enc & He & Hf)]; [left|right; by eapply latest_of_encoded].
        unfold latest_of, contents. by rewrite Hf.
Qed.
End JournalInstance.

(** ** Claims *)

Section Claims.
Context `{Sha256, ManifestJson}.

(** C7. Appends commit or preserve: with an honest cursor, an append that
    returns success leaves a journal from which a restart recovers exactly the
    appended record with no ignored tail, and an append that fails at any system
    call, even after writing part of the record, leaves the previous latest
    record, or the appended one, as what a restart recovers.  The cursor stays
    honest either way. *)
Theorem append_commits_or_preserves io m s j j' r :
  cursor_honest j -> append io m s j = (j', r) ->
  cursor_honest j' /\
  let new := committed_record m s in
  match r with
  | Ok _ => latest_record None (Some (contents j')) = Ok (Recovered (mkRecovered new None))
  | Err _ => latest_of j' = latest_of j \/ latest_of j' = Some new
  end.
Proof.
  intros Hc Ha. destruct (reads_total j) as (rs & i & Hr).
  destruct (append_spec io m s j j' r rs i Hc Hr Ha) as [Hc' (rs' & i' & Hr' & Hm)].
  split; [done|]. pose proof (append_latest _ _ _ _ _ _ Hc Ha) as [_ Hl].
  destruct r; [|done]. destruct Hm as (-> & Hor & _). destruct Hr' as [tl Hs].
  unfold latest_record. rewrite (scan_file_of_scans _ _ _ _ Hs). simpl.
  by destruct Hor as [-> | ->]; rewrite ?last_snoc.
Qed.

(** Acknowledged records survive: in any history of appends (with arbitrary
    failures) and process restarts, starting from a room without a journal, the
    record recovered at the end is the one of the last successful append or of a
    later attempt, never an older one. *)
Theorem acknowledged_appends_survive p side arch (events : list event) :
  let '(j, possible) := foldr after (journal_new p side arch, [None]) events in
  latest_of j ∈ possible.
Proof.
  assert (cursor_honest (foldr after (journal_new p side arch, [None]) events).1 /\
    latest_of (foldr after (journal_new p side arch, [None]) events).1
    ∈ (foldr after (journal_new p side arch, [None]) events).2) as [_ Hl].
  { induction events as [|e events [IH1 IH2]]; cbn [foldr]; [|by apply after_ok].
    split; [by intros c|]. vm_compute. constructor. }
  by destruct (foldr after _ events).
Qed.

(** Corrupt recovery data is never overwritten: when the journal ends in
    data that is not a torn append (bad magic, checksum, lengths or manifest, or a
    newer format), or holds no complete record at all before its tail, an append
    fails and the file keeps its bytes. *)
Theorem append_refuses_corrupt io m s j rs issue :
  cursor_honest j -> reads j rs (Some issue) ->
  is_repairable_torn_suffix issue = false \/ rs = [] ->
  exists e, snd (append io m s j) = Err e /\ file (fst (append io m s j)) = file j.
Proof.
  intros Hc [tl Hs] Hbad. unfold append.
  destruct (encode_record m s) as [enc|e]; [|eauto].
  destruct (io_mkdir io); [eauto|]. destruct (io_open io); [eauto|].
  assert (open_or_create j = j) as ->.
  { unfold open_or_create. destruct (file j) eqn:Ef; [done|].
    unfold contents in Hs. rewrite Ef in Hs. inversion Hs; simplify_eq. }
  destruct (io_metadata io); [eauto|]. destruct (if decide _ then _ else _); [eauto|].
  destruct (append_position io j) as [[[lve cnt] tail]|e] eqn:Hpos; [|eauto].
  destruct (append_position_spec _ _ _ _ _ _ _ _ Hc Hs Hpos) as (-> & -> & ->).
  unfold repair_tail. destruct (is_unsupported_version issue); [eauto|].
  case_decide as Hz; [eauto|]. destruct Hbad as [-> | ->]; simpl; [eauto|]. by destruct Hz.
Qed.

(** The active journal stays bounded: after a successful append whose
    compaction (when due) succeeded, the file holds fewer than 32 records in less
    than 64 MiB, or only the record just appended. *)
Theorem journal_bounded io m s j j' :
  cursor_honest j -> io_compact io = Replaced -> append io m s j = (j', Ok ()) ->
  exists rs, reads j' rs None /\
    (rs = [committed_record m s] \/
     (zlen (contents j') < COMPACT_AFTER_BYTES /\
      Z.of_nat (length rs) < COMPACT_AFTER_RECORDS)).
Proof.
  intros Hc Hcomp Ha. destruct (reads_total j) as (rs & i & Hr).
  destruct (append_spec io m s j j' _ rs i Hc Hr Ha) as [_ (rs' & i' & Hr' & -> & _ & Hb)].
  exists rs'. split; [done|]. by apply Hb.
Qed.

(** Reconciliation preserves evidence: a successful archive-and-replace
    leaves the new record as the only content of the active journal and a fresh
    archive directory with the exact previous journal and sidecar, every earlier
    archive untouched; a failed one leaves the active journal as it was or, when
    only the final directory flush or read-back failed, already replaced.  The
    active journal is never absent afterwards. *)
Theorem archive_and_replace_preserves io m s j j' r :
  cursor_honest j -> archive_and_replace io m s j = (j', r) ->
  archives j ⊆ archives j' /\
  match r with
  | Ok rep =>
      latest_of j' = Some (committed_record m s) /\
      exists f, file j = Some f /\
        archives j !! archive_directory (archive rep) = None /\
        archives j' !! archive_directory (archive rep) = Some (f, sidecar j)
  | Err _ => file j' = file j \/ latest_of j' = Some (committed_record m s)
  end.
Proof.
  intros Hc Ha. destruct (archive_and_replace_spec _ _ _ _ _ _ Hc Ha) as (_ & Har & Hr).
  split; [done|]. destruct r.
  - destruct Hr as (f & enc & Hf & He & Hf' & Hn & Ha'). split; [by eapply latest_of_encoded|].
    by exists f.
  - destruct Hr as [Hf|(enc & He & Hf)]; [by left|right; by eapply latest_of_encoded].
Qed.

(** Loading compares against both ends of a checkpoint: after a successful
    append, the journal matches the source file exactly when the file has the
    manifest's fingerprint or that of its pending checkpoint; otherwise the same
    record is handed out as a conflict, not discarded. *)
Theorem load_classifies io m s j j' current :
  cursor_honest j -> append io m s j = (j', Ok ()) ->
  let r := mkRecovered (committed_record m s) None in
  let represented :=
    manifest_source_fingerprint m = current \/
    exists pending, pending_file_checkpoint m = Some pending /\
      pfc_file_fingerprint pending = current in
  (represented -> load None current (Some (contents j')) = Ok (Match r)) /\
  (~ represented -> load None current (Some (contents j')) = Ok (SourceConflict r current)).
Proof.
  intros Hc Ha r. destruct (reads_total j) as (rs & i & Hr).
  destruct (append_spec io m s j j' _ rs i Hc Hr Ha) as [_ (rs' & i' & [tl Hs] & -> & Hor & _)].
  unfold load, latest_record. rewrite (scan_file_of_scans _ _ _ _ Hs). simpl.
  assert (last rs' = Some (committed_record m s)) as ->
    by (by destruct Hor as [-> | ->]; rewrite ?last_snoc).
  simpl. destruct (pending_file_checkpoint m); case_decide; naive_solver.
Qed.
End Claims.

Section MigrationClaims.
Context `{Sha256, ManifestJson, Automerge}.
Context (notebook_doc_load : bytes -> result string ()).

Lemma verified_recovery_record_Ok io f id req r :
  verified_recovery_record notebook_doc_load io f id req = Ok r ->
  latest_record io f = Ok (Recovered (mkRecovered r None)) /\
  notebook_id (rec_manifest r) = id /\
  (forall v, req = Some v -> source_manifest_version r = v) /\
  exists d, am_load (automerge_snapshot r) = Ok d /\
    am_heads d ≡ₚ durable_heads (rec_manifest r).
Proof.
  unfold verified_recovery_record. intros Hv.
  destruct (latest_record io f) as [[[r0 tl]|[]]|]; simplify_eq/=.
  destruct tl; [done|]. case_head Hv. case_head Hv. case_head Hv. case_head Hv. case_head Hv.
  split; [done|]. split; [done|]. split.
  - intros v ->. destruct (decide (source_manifest_version r = v)); [done|].
    destruct n. split; congruence.
  - eexists. split; [done|]. by apply sort_heads_eq.
Qed.

Lemma supported_manifest_version bs m v :
  decode_manifest bs = Ok (Supported m v) -> v = LEGACY_RECOVERY_MANIFEST_VERSION ->
  version m = RECOVERY_MANIFEST_VERSION.
Proof.
  unfold decode_manifest. intros Hd ->. destruct (header_version bs); [|done].
  case_decide; [by destruct (parse_v1 bs); simplify_eq|].
  case_decide; [|done]. by destruct (parse_v2 bs); simplify_eq.
Qed.

(** Migrating a version-1 journal loses nothing: a prepared migration that
    commits replaces exactly the bytes that were archived, the archive keeps
    them, and the journal then recovers the same snapshot with the same durable
    heads under a version-2 manifest.  When the active journal changed since the
    archive was made, the migration is refused and nothing is written. *)
Theorem legacy_migration_preserves io read id j j1 p o side j2 j3 r :
  prepare_legacy_overflow_journal notebook_doc_load io read id j = (j1, Ok p) ->
  archives j2 !! archive_directory (prepared_archive p) =
    archives j1 !! archive_directory (prepared_archive p) ->
  migrate_prepared_legacy_overflow_journal None None o side p j2 = (j3, r) ->
  exists old legacy,
    file j = Some old /\ latest_record read (Some old) = Ok (Recovered (mkRecovered legacy None)) /\
    source_manifest_version legacy = LEGACY_RECOVERY_MANIFEST_VERSION /\
    notebook_id (rec_manifest legacy) = id /\
    (fst <$> archives j3 !! archive_directory (prepared_archive p)) = Some old /\
    match r with
    | Ok _ => file j2 = Some old /\
        latest_of j3 = Some (committed_record (rec_manifest legacy) (automerge_snapshot legacy))
    | Err _ => file j2 <> Some old -> file j3 = file j2
    end.
Proof.
  unfold prepare_legacy_overflow_journal, migrate_prepared_legacy_overflow_journal.
  destruct (publish_archive_copy io (restart j)) as [ja [a|e]] eqn:Hp; [|done].
  destruct (publish_archive_copy_spec _ _ _ _ Hp) as (_ & _ & _ & _ & _ & _ & old & Hold & _ & Hins).
  rewrite Hins, lookup_insert_eq. simpl.
  destruct (verified_recovery_record _ _ _ _ _) as [legacy|e] eqn:Hv; intros Hprep; simplify_eq/=.
  rewrite Hins, lookup_insert_eq. intros Harch.
  apply verified_recovery_record_Ok in Hv as (Hl & Hid & Hver & _).
  specialize (Hver _ eq_refl). unfold replace_after_verified_archive; simpl. rewrite Harch.
  intros Hm. exists old, legacy. split_and!; try done.
  - destruct (file j2) as [f2|]; [|by simplify_eq; rewrite Harch].
    case_decide; [|by simplify_eq; rewrite Harch].
    destruct (encode_record _ _); [|by simplify_eq; rewrite Harch].
    unfold replace_journal, refresh_sidecar in Hm.
    destruct o; simpl in Hm; repeat case_match; simplify_eq/=; by rewrite Harch.
  - destruct (file j2) as [f2|] eqn:Ef2; [|by simplify_eq; rewrite Ef2].
    destruct (decide (f2 = old)) as [->|Hne].
    2: { simplify_eq. rewrite Ef2. eauto. }
    destruct (encode_record _ _) as [enc|e] eqn:He; [|simplify_eq; by intros []].
    destruct o; simpl in Hm; simplify_eq; try by intros [].
    split; [done|]. eapply latest_of_encoded; [done|].
    unfold refresh_sidecar. by destruct (to_vec _).
Qed.
End MigrationClaims.

Section DiscoveryClaims.
Context `{Sha256, ManifestJson, HexCodec}.

(** A journal of the directory that claims the path. *)
Definition claims (read : string -> option string * option bytes) (target name : string)
    (id : string) : Prop :=
  exists r, latest_record (fst (read name)) (snd (read name)) = Ok (Recovered r) /\
    canonical_path (rec_manifest (record r)) = Some target /\
    notebook_id (rec_manifest (record r)) = id.

Lemma claims_det read target name id r :
  claims read target name id ->
  latest_record (fst (read name)) (snd (read name)) = Ok (Recovered r) ->
  canonical_path (rec_manifest (record r)) = Some target /\
  notebook_id (rec_manifest (record r)) = id.
Proof. intros (r' & Hr & Hc & Hi) Hr'. rewrite Hr in Hr'. by simplify_eq. Qed.

Lemma discover_candidates_spec read target names cs :
  discover_candidates read target names = Ok cs ->
  forall id name, (id, name) ∈ cs <->
    name ∈ names /\ claims read target name id.
Proof.
  revert cs. induction names as [|n names IH]; intros cs Hd id name; simpl in Hd.
  { simplify_eq. set_solver. }
  assert (forall cs', discover_candidates read target names = Ok cs' ->
    ~ claims read target n id ->
    ((id, name) ∈ cs' <-> name ∈ n :: names /\ claims read target name id)) as Hskip.
  { intros cs' Hcs' Hn. rewrite (IH _ Hcs'), elem_of_cons. naive_solver. }
  destruct (latest_record _ _) as [[r|[| |tl]]|e] eqn:Hl; simplify_eq/=.
  - destruct (decide (canonical_path _ = Some target)) as [Hcp|Hcp].
    + destruct (decide (n = _)); [|done].
      destruct (discover_candidates read target names) as [cs'|] eqn:Hcs'; simplify_eq/=.
      rewrite !elem_of_cons, (IH _ eq_refl). split; [|intros [[->|Hn] Hc]; [left|by right]].
      * intros [[= -> ->]|[Hn Hc]]; [|by auto]. split; [by left|]. by exists r.
      * by destruct (claims_det _ _ _ _ _ Hc Hl) as [_ <-].
    + apply Hskip; [done|]. intros Hc. by destruct (claims_det _ _ _ _ _ Hc Hl).
  - apply Hskip; [done|]. intros (r & Hr & _). by rewrite Hl in Hr.
  - apply Hskip; [done|]. intros (r & Hr & _). by rewrite Hl in Hr.
Qed.

Lemma discover_candidates_bound read target names cs :
  discover_candidates read target names = Ok cs ->
  Forall (fun c => c.2 = expected_journal c.1) cs.
Proof.
  revert cs. induction names as [|n names IH]; intros cs Hd; simpl in Hd; [by simplify_eq|].
  destruct (latest_record _ _) as [[r|[| |tl]]|e]; simplify_eq/=; eauto.
  case_decide; [|eauto]. case_decide; [|done].
  destruct (discover_candidates read target names); simplify_eq/=. by constructor; eauto.
Qed.

Lemma recovery_entries_spec entries names name :
  recovery_entries entries = Ok names ->
  name ∈ names <-> Ok name ∈ entries /\ extension name = Some "recovery".
Proof.
  revert names. induction entries as [|[n|e] entries IH]; intros names Hr; simplify_eq/=;
    [set_solver|].
  destruct (recovery_entries entries) as [names'|]; simplify_eq/=.
  specialize (IH _ eq_refl). case_decide; rewrite ?elem_of_cons, IH; naive_solver.
Qed.

(** Discovery by path is exact: when it answers, every readable journal of
    the directory that claims the notebook path is the answer, the answer is such
    a journal stored under the name of the identity it claims, and "not found" is
    reported only when no journal claims the path.  Two claims on one path, or a
    claim stored under a foreign name, are never resolved by picking one. *)
Theorem discovery_is_exact entries read target d :
  discover_journal_by_canonical_path (DirEntries entries) read target = Ok d ->
  (forall name id, Ok name ∈ entries -> extension name = Some "recovery" ->
     claims read target name id -> d = Found id name) /\
  (forall id name, d = Found id name ->
     Ok name ∈ entries /\ claims read target name id /\ name = expected_journal id).
Proof.
  unfold discover_journal_by_canonical_path. intros Hd.
  destruct (recovery_entries entries) as [names|] eqn:Hn; [|done].
  destruct (discover_candidates _ _ _) as [cs|] eqn:Hcs; [|done].
  pose proof (discover_candidates_spec _ _ _ _ Hcs) as Hspec.
  pose proof (discover_candidates_bound _ _ _ _ Hcs) as Hbound.
  assert (forall id name, (id, name) ∈ cs <-> (Ok name ∈ entries /\
    extension name = Some "recovery") /\ claims read target name id) as Hin.
  { intros id name. rewrite Hspec, merge_sort_Permutation.
    by rewrite (recovery_entries_spec _ _ _ Hn). }
  split.
  - intros name id He Hx Hc. specialize (Hin id name). destruct cs as [|[i n] [|]]; simplify_eq.
    + exfalso. by apply (not_elem_of_nil (id, name)), Hin.
    + assert ((id, name) = (i, n)) as [= -> ->]; [|done].
      apply list_elem_of_singleton, Hin. done.
  - intros id name ->. destruct cs as [|[i n] [|]]; simplify_eq.
    inversion_clear Hbound.
    destruct (proj1 (Hin id name)) as [[? _] ?]; [by apply list_elem_of_singleton|].
    by split_and!.
Qed.
End DiscoveryClaims.

(** ** Witnesses *)

Module JournalExamples.
Import PlainHex PlainCodec PlainAutomerge FormatExamples.

Definition io_ok : AppendIo :=
  mkAppendIo None None None None true None None None None None None Replaced Replaced true.
Definition io_torn : AppendIo :=
  mkAppendIo None None None None true None None None None (Some (60%nat, "ENOSPC")) None
    Replaced Replaced true.
Definition empty : RecoveryJournal := journal_new "/d/nb.recovery" None ∅.
Definition one : RecoveryJournal := fst (append io_ok m1 snap1 empty).

Lemma empty_honest : cursor_honest empty.
Proof. by intros c. Qed.

Lemma one_ok : append io_ok m1 snap1 empty = (one, Ok ()).
Proof. vm_compute. reflexivity. Qed.

Lemma one_honest : cursor_honest one.
Proof. apply (append_latest _ _ _ _ _ _ empty_honest one_ok). Qed.

Lemma append_commits_or_preserves_witness :
  let j' := fst (append io_torn m2 snap2 one) in
  cursor_honest j' /\
  (latest_of j' = latest_of one \/ latest_of j' = Some (committed_record m2 snap2)).
Proof.
  apply (append_commits_or_preserves io_torn m2 snap2 one _ (Err (Io "ENOSPC")) one_honest).
  vm_compute. reflexivity.
Defined.

Lemma append_refuses_corrupt_witness :
  exists e, snd (append io_ok m2 snap2 (set_file (contents one ++ replicate 54 Byte.x00) one)) = Err e /\
    file (fst (append io_ok m2 snap2 (set_file (contents one ++ replicate 54 Byte.x00) one))) =
    Some (contents one ++ replicate 54 Byte.x00).
Proof.
  apply (append_refuses_corrupt io_ok m2 snap2 (set_file (contents one ++ replicate 54 Byte.x00) one)
    [mkRecord m1 snap1 2] (InvalidMagic (zlen (contents one)))).
  - apply set_file_honest, one_honest.
  - exists (replicate 54 Byte.x00). rewrite contents_set_file.
    rewrite <- (app_nil_r [mkRecord m1 snap1 2]). apply scans_app.
    + replace (contents one) with (enc m1 snap1) by (vm_compute; reflexivity).
      apply scans_encoded, enc1_ok.
    + apply scans_issue; [done|]. vm_compute. reflexivity.
  - by left.
Defined.

Lemma journal_bounded_witness :
  exists rs, reads one rs None /\
    (rs = [committed_record m1 snap1] \/
     (zlen (contents one) < COMPACT_AFTER_BYTES /\ Z.of_nat (length rs) < COMPACT_AFTER_RECORDS)).
Proof. apply (journal_bounded io_ok m1 snap1 empty one empty_honest eq_refl one_ok). Defined.

Definition replace_ok : ReplaceIo :=
  mkReplaceIo (mkArchiveIo None None None [("u1", None, Created)] None None None)
    Replaced true true Replaced.
Definition replaced := archive_and_replace replace_ok m2 snap2 one.

Lemma archive_and_replace_preserves_witness :
  archives one ⊆ archives (fst replaced) /\
  latest_of (fst replaced) = Some (committed_record m2 snap2).
Proof.
  destruct (archive_and_replace_preserves replace_ok m2 snap2 one (fst replaced)
    (Ok (mkReplacement (mkArchivePaths "/d/nb.recovery.archive-u1"
      "/d/nb.recovery.archive-u1/nb.recovery"
      (Some "/d/nb.recovery.archive-u1/nb.recovery.manifest.json")) None)) one_honest)
    as (H1 & H2 & _); [vm_compute; reflexivity|]. exact (conj H1 H2).
Defined.

Lemma load_classifies_witness :
  load None (mkFingerprint [Byte.x01]) (Some (contents one)) =
  Ok (Match (mkRecovered (committed_record m1 snap1) None)).
Proof.
  apply (load_classifies io_ok m1 snap1 empty one (mkFingerprint [Byte.x01]) empty_honest one_ok).
  left. reflexivity.
Defined.

(** A version-1 journal: its manifest text is the empty one of the codec. *)
Definition legacy_snapshot : bytes := am_save [[Byte.x02]].
Definition legacy_bytes : bytes :=
  let prefix := record_prefix 0 (zlen legacy_snapshot) in
  prefix ++ record_checksum prefix [] legacy_snapshot ++ legacy_snapshot.
Definition legacy_journal : RecoveryJournal := set_file legacy_bytes empty.
Definition accept (_ : bytes) : result string () := Ok ().
Definition prep := prepare_legacy_overflow_journal accept (re_archive replace_ok) None "nb" legacy_journal.
Definition prep_plan : PreparedLegacyOverflowJournal :=
  match snd prep with Ok p => p | Err _ => mkPrepared "" (mkArchivePaths "" "" None) m1 [] end.

Lemma legacy_migration_preserves_witness :
  exists old legacy,
    file legacy_journal = Some old /\
    latest_record None (Some old) = Ok (Recovered (mkRecovered legacy None)) /\
    latest_of (fst (migrate_prepared_legacy_overflow_journal None None Replaced Replaced prep_plan
      (fst prep))) = Some (committed_record (rec_manifest legacy) (automerge_snapshot legacy)).
Proof.
  destruct (legacy_migration_preserves accept (re_archive replace_ok) None "nb" legacy_journal
    (fst prep) prep_plan Replaced Replaced (fst prep)
    (fst (migrate_prepared_legacy_overflow_journal None None Replaced Replaced prep_plan (fst prep)))
    (Ok ())) as (old & legacy & H1 & H2 & _ & _ & _ & _ & H3);
    [vm_compute; reflexivity|reflexivity|vm_compute; reflexivity|].
  exact (ex_intro _ old (ex_intro _ legacy (conj H1 (conj H2 H3)))).
Defined.

Definition disk_of (name : string) : option string * option bytes :=
  if decide (name = expected_journal "nb") then (None, Some (contents one)) else (None, None).

Lemma discovery_is_exact_witness :
  discover_journal_by_canonical_path
    (DirEntries [Ok "x.automerge"; Ok (expected_journal "nb")]) disk_of "/a.ipynb" =
    Ok (Found "nb" (expected_journal "nb")) /\
  claims disk_of "/a.ipynb" (expected_journal "nb") "nb".
Proof.
  assert (discover_journal_by_canonical_path
    (DirEntries [Ok "x.automerge"; Ok (expected_journal "nb")]) disk_of "/a.ipynb" =
    Ok (Found "nb" (expected_journal "nb"))) as Hd by (vm_compute; reflexivity).
  split; [exact Hd|].
  destruct (discovery_is_exact _ _ _ _ Hd) as [_ H2].
  destruct (H2 _ _ eq_refl) as (_ & H3 & _). exact H3.
Defined.
End JournalExamples.
