(* ===== verification/Durability.v ===== *)
(** * Room-wide durability coordination

    Model of [crates/runtimed/src/notebook_sync_server/durability.rs].  Every
    operation of [RoomDurability] runs under the state mutex, so it is one
    function on the coordinator's state: the manifest, the durable snapshot, the
    degradation, the bound journal, the published status and the commit gate.
    The journal is used through the interface [RecoveryLog], documents through
    [Automerge]; the I/O outcomes of a journal call are an argument. *)

From S2P Require Import Prelude Manifest JournalFormat Automerge Journal.

(** ** Data *)

Inductive DegradationKind := DurabilityBoundary | SourceState.

Record RoomDegradation := mkDegradation { kind : DegradationKind; reason : string }.

Definition boundary (reason : string) : RoomDegradation :=
  mkDegradation DurabilityBoundary reason.

Record RoomDurabilityStatus := mkStatus {
  st_has_durable_record : bool;
  st_journal_sequence : Z;
  st_durable_heads : list string;
  st_exported_heads : list string;
  st_source_generation : Z;
  st_source_phase : RecoverySourcePhase;
  st_source_fingerprint : SourceFingerprint;
  st_has_peer_changes : bool;
  st_degraded : option RoomDegradation;
}.

Definition is_degraded (s : RoomDurabilityStatus) : bool := bool_decide (is_Some (st_degraded s)).

Definition degraded_reason (s : RoomDurabilityStatus) : option string :=
  reason <$> st_degraded s.

Definition requires_durability_repair (s : RoomDurabilityStatus) : bool :=
  match st_degraded s with
  | Some (mkDegradation DurabilityBoundary _) => true
  | _ => false
  end.

Inductive DurableMutation :=
| Source (generation : Z) (fingerprint : SourceFingerprint)
    (staged_change_hashes : list change_hash)
| Peer (change_hashes : list change_hash)
| SourceReady (generation : Z)
| Daemon
| FileCheckpoint (p : PendingFileCheckpoint).

Inductive DurableCommitOutcome :=
| Committed (s : RoomDurabilityStatus)
| AlreadyDurable (s : RoomDurabilityStatus).

Record ReconciledSourceCommit := mkReconciled {
  rc_status : RoomDurabilityStatus;
  archived_directory : string;
  archive_durability_warning : option string;
}.

Inductive RoomDurabilityError :=
| JournalFailed (e : RecoveryJournalError)
| BadSnapshot (e : string)
| InvalidHead (head reason : string)
| TimedOut
| DegradedRoom (reason : string)
| ShutdownInProgress
| SequenceExhausted
| FileCheckpointHeadsNotDurable
| DivergedSource (journal_source observed_source : SourceFingerprint)
| JournalUnavailable.

Record DurabilityState := mkDState {
  ds_manifest : RecoveryManifest;
  durable_snapshot : bytes;
  has_durable_record : bool;
  degraded : option RoomDegradation;
}.

Record RoomDurability (J : Type) := mkRoom {
  journal : option J;
  state : DurabilityState;
  status_tx : RoomDurabilityStatus;
  accepting_commits : bool;
}.
Arguments mkRoom {J} _ _ _ _.
Arguments journal {J} _.
Arguments state {J} _.
Arguments status_tx {J} _.
Arguments accepting_commits {J} _.

Definition with_manifest (m : RecoveryManifest) (st : DurabilityState) : DurabilityState :=
  mkDState m (durable_snapshot st) (has_durable_record st) (degraded st).

Definition with_degraded (d : option RoomDegradation) (st : DurabilityState)
    : DurabilityState :=
  mkDState (ds_manifest st) (durable_snapshot st) (has_durable_record st) d.

(** [status_from_state]. *)
Definition status_from_state `{HexCodec} (st : DurabilityState) : RoomDurabilityStatus :=
  let m := ds_manifest st in
  mkStatus (has_durable_record st) (sequence m) (hex_encode <$> durable_heads m)
    (hex_encode <$> exported_heads m) (source_generation m) (source_phase m)
    (manifest_source_fingerprint m) (bool_decide (0 < peer_change_count m)) (degraded st).

(** [promote_full_coverage_checkpoint_baseline]. *)
Definition promote_full_coverage_checkpoint_baseline (m : RecoveryManifest)
    : RecoveryManifest :=
  if decide ((source_phase m = PhPending \/ source_phase m = PhFailed) /\
             pending_file_checkpoint m = None /\
             file_checkpoint_covers_durable_heads m = true)
  then set_source_phase PhDurablyStaged m else m.

(** Callers promote only while the room is not degraded. *)
Definition promote_unless_degraded (d : option RoomDegradation) (m : RecoveryManifest)
    : RecoveryManifest :=
  match d with None => promote_full_coverage_checkpoint_baseline m | Some _ => m end.

(** [apply_mutation_to_manifest]. *)
Definition apply_mutation_to_manifest (mutation : DurableMutation) (m : RecoveryManifest)
    : RecoveryManifest :=
  match mutation with
  | Source generation fingerprint hashes =>
      set_staged_change_count (u64_of_len (length hashes))
        (set_source_phase PhDurablyStaged
          (set_source_fingerprint fingerprint (set_source_generation generation m)))
  | Peer hashes =>
      set_peer_change_count
        (saturating_add_u64 (peer_change_count m) (u64_of_len (length hashes))) m
  | SourceReady generation => set_source_phase PhReady (set_source_generation generation m)
  | Daemon => m
  | FileCheckpoint p =>
      let m := set_file_save_sequence (Some (pfc_save_sequence p))
        (set_exported_heads (pfc_exported_heads p)
          (set_source_fingerprint (pfc_file_fingerprint p)
            (set_canonical_path (Some (pfc_canonical_path p)) m))) in
      let m := match pfc_source_generation p with
        | Some g => set_source_phase PhDurablyStaged (set_source_generation g m)
        | None => m
        end in
      set_pending_file_checkpoint None m
  end.

(** [mutation_is_already_reflected]. *)
Definition mutation_is_already_reflected (m : RecoveryManifest) (mutation : DurableMutation)
    : bool :=
  match mutation with
  | Source generation fingerprint hashes =>
      bool_decide (source_generation m = generation /\
        manifest_source_fingerprint m = fingerprint /\
        staged_change_count m = u64_of_len (length hashes))
  | Peer _ => true
  | SourceReady generation =>
      bool_decide (source_generation m = generation /\ source_phase m = PhReady)
  | Daemon => true
  | FileCheckpoint p =>
      bool_decide (canonical_path m = Some (pfc_canonical_path p) /\
        manifest_source_fingerprint m = pfc_file_fingerprint p /\
        exported_heads m = pfc_exported_heads p /\
        file_save_sequence m = Some (pfc_save_sequence p) /\
        (pfc_source_generation p = None \/
         pfc_source_generation p = Some (source_generation m)) /\
        pending_file_checkpoint m = None)
  end.

(** [manifest.sequence.checked_add(1).ok_or(SequenceExhausted)?]. *)
Definition next_sequence (m : RecoveryManifest)
    : result RoomDurabilityError RecoveryManifest :=
  match checked_add_u64 (sequence m) 1 with
  | Some n => Ok (set_sequence n m)
  | None => Err SequenceExhausted
  end.

(** The [?] operator in an operation that keeps the coordinator as it is. *)
Notation "'try!' x ':=' e 'else' r 'in' k" :=
  (match e with Ok x => k | Err err => (r, Err err) end)
  (at level 10, x pattern, e at level 100, r at level 9, k at level 200).

Section Durability.
Context `{Automerge, HexCodec} {J : Type} `{RecoveryLog J}.
(** [notebook_doc::SCHEMA_VERSION] and the [Display] of journal errors. *)
Context (SCHEMA_VERSION : Z) (error_string : RecoveryJournalError -> string).

Definition outcome : Type := result RoomDurabilityError DurableCommitOutcome.

(** ** Construction *)

(** [from_state]. *)
Definition from_state (j : option J) (m : RecoveryManifest) (snapshot : bytes)
    (has_record : bool) (d : option RoomDegradation) : RoomDurability J :=
  let st := mkDState m snapshot has_record d in
  mkRoom j st (status_from_state st) true.

(** [journaled]. *)
Definition journaled (j : J) (id : string) (p : option string) (fp : SourceFingerprint)
    (generation : Z) (genesis_snapshot : bytes) : RoomDurability J :=
  from_state (Some j) (manifest_new 0 id p SCHEMA_VERSION fp generation) genesis_snapshot
    false None.

(** [recovered]; [corrupt] is the text that describes a preserved corrupt tail. *)
Definition recovered (corrupt : JournalTailIssue -> string) (j : J)
    (r : RecoveredJournalRecord) : RoomDurability J :=
  let d := match recovered_ignored_tail r with
    | Some tail =>
        if is_repairable_torn_suffix tail then None else Some (boundary (corrupt tail))
    | None => None
    end in
  let m := promote_unless_degraded d (rec_manifest (record r)) in
  from_state (Some j) m (automerge_snapshot (record r)) true d.

(** [volatile]. *)
Definition volatile `{Sha256} (id : string) (snapshot : bytes) (heads : list change_hash)
    : RoomDurability J :=
  from_state None
    (set_durable_heads heads (manifest_new 0 id None SCHEMA_VERSION (source_fingerprint []) 0))
    snapshot true None.

(** ** The commit point *)

(** Install a state and publish its status ([status_tx.send_replace]). *)
Definition publish (st : DurabilityState) (r : RoomDurability J) : RoomDurability J :=
  mkRoom (journal r) st (status_from_state st) (accepting_commits r).

Definition with_journal (j : option J) (r : RoomDurability J) : RoomDurability J :=
  mkRoom j (state r) (status_tx r) (accepting_commits r).

(** Append the manifest and snapshot of [st] to the journal, if there is one,
    then make [st] the state; a failed append degrades the room instead. *)
Definition commit_state (io : log_io) (st : DurabilityState) (r : RoomDurability J)
    : RoomDurability J * outcome :=
  let done j := (publish st (with_journal j r), Ok (Committed (status_from_state st))) in
  match journal r with
  | None => done None
  | Some j =>
      match log_append io (ds_manifest st) (durable_snapshot st) j with
      | (j, Ok _) => done (Some j)
      | (j, Err e) =>
          (publish (with_degraded (Some (boundary (error_string e))) (state r))
             (with_journal (Some j) r), Err (JournalFailed e))
      end
  end.

Definition already_durable (r : RoomDurability J) : RoomDurability J * outcome :=
  (r, Ok (AlreadyDurable (status_from_state (state r)))).

Definition ensure_accepting_commits (r : RoomDurability J) : result RoomDurabilityError () :=
  if accepting_commits r then Ok () else Err ShutdownInProgress.

(** [freeze_commits] and [thaw_commits]. *)
Definition freeze_commits (r : RoomDurability J) : RoomDurability J :=
  mkRoom (journal r) (state r) (status_tx r) false.
Definition thaw_commits (r : RoomDurability J) : RoomDurability J :=
  mkRoom (journal r) (state r) (status_tx r) true.

(** [AutoCommit::load(..).map_err(InvalidSnapshot)]. *)
Definition load_snapshot (bs : bytes) : result RoomDurabilityError am_doc :=
  match am_load bs with Ok d => Ok d | Err e => Err (BadSnapshot e) end.

Definition apply_all (d : am_doc) (cs : list am_change) : result RoomDurabilityError am_doc :=
  match am_apply_changes d cs with Ok d => Ok d | Err e => Err (BadSnapshot e) end.

(** [snapshot_contains_heads]. *)
Definition snapshot_contains_heads (snapshot : bytes) (required : list change_hash)
    : result RoomDurabilityError bool :=
  if decide (required = []) then Ok true
  else let? d := load_snapshot snapshot in
       Ok (bool_decide (Forall (known d) required)).

(** [changes.filter(|change| seen.insert(change.hash()))]. *)
Fixpoint dedup_changes (seen : list change_hash) (cs : list am_change) : list am_change :=
  match cs with
  | [] => []
  | c :: cs' =>
      if decide (am_change_hash c ∈ seen) then dedup_changes seen cs'
      else c :: dedup_changes (am_change_hash c :: seen) cs'
  end.

(** [apply_retained_change_batch]. *)
Definition apply_retained_change_batch (d : am_doc) (cs : list am_change)
    : result RoomDurabilityError (am_doc * list change_hash) :=
  let missing := missing_changes d (dedup_changes [] cs) in
  let? d' := apply_all d missing in
  Ok (d', am_change_hash <$> missing).

(** ** Commits *)

(** [promote_to_journal]. *)
Definition promote_to_journal (io : log_io) (j : J) (r : RoomDurability J)
    : RoomDurability J * outcome :=
  try! _ := ensure_accepting_commits r else r in
  let st := state r in
  let m := ds_manifest st in
  match journal r with
  | Some current =>
      if decide (log_path current = log_path j) then already_durable r
      else (r, Err (BadSnapshot "room recovery journal is already bound"))
  | None =>
      if decide (canonical_path m = None \/ file_save_sequence m = None) then
        (r, Err (BadSnapshot
          "a room must have a committed file checkpoint before journal promotion"))
      else
        try! promoted :=
          (if decide (source_phase m = PhPending) then
             let? durable := load_snapshot (durable_snapshot st) in
             let? m := next_sequence m in
             match checked_add_u64 (source_generation m) 1 with
             | None => Err SequenceExhausted
             | Some g =>
                 Ok (set_staged_change_count (u64_of_len (length (am_changes durable)))
                      (set_source_phase PhReady (set_source_generation g m)))
             end
           else Ok m) else r in
        match log_append io promoted (durable_snapshot st) j with
        | (_, Err e) =>
            (publish (with_degraded (Some (boundary (error_string e))) st) r,
             Err (JournalFailed e))
        | (j, Ok _) =>
            let st := mkDState promoted (durable_snapshot st) true (degraded st) in
            (publish st (with_journal (Some j) r), Ok (Committed (status_from_state st)))
        end
  end.

(** [commit_snapshot]. *)
Definition commit_snapshot (io : log_io) (snapshot : bytes) (heads : list change_hash)
    (mutation : DurableMutation) (r : RoomDurability J) : RoomDurability J * outcome :=
  try! _ := ensure_accepting_commits r else r in
  try! candidate := load_snapshot snapshot else r in
  let st := state r in
  try! (committed, heads) :=
    (match has_durable_record st, mutation with
     | true, Daemon =>
         let? durable := load_snapshot (durable_snapshot st) in
         let? merged := apply_all candidate (missing_changes candidate (am_changes durable)) in
         Ok (am_save merged, am_heads merged)
     | _, _ => Ok (snapshot, heads)
     end) else r in
  if has_durable_record st && bool_decide (durable_heads (ds_manifest st) = heads) &&
     mutation_is_already_reflected (ds_manifest st) mutation then already_durable r
  else
    try! m := next_sequence (ds_manifest st) else r in
    let m := set_durable_heads heads m in
    let m := match mutation with
      | Source _ _ _ => set_file_save_sequence (Some 0) (set_exported_heads heads m)
      | _ => m
      end in
    commit_state io (mkDState (apply_mutation_to_manifest mutation m) committed true None) r.

(** [commit_staged_source]. *)
Definition commit_staged_source (io : log_io) (staged_snapshot : bytes)
    (staged_heads : list change_hash) (generation : Z) (fingerprint : SourceFingerprint)
    (staged_change_hashes : list change_hash) (r : RoomDurability J)
    : RoomDurability J * outcome :=
  try! _ := ensure_accepting_commits r else r in
  try! staged := load_snapshot staged_snapshot else r in
  if bool_decide (Forall (known staged) staged_heads) then
    let mutation := Source generation fingerprint staged_change_hashes in
    let st := state r in
    try! present :=
      (if has_durable_record st && mutation_is_already_reflected (ds_manifest st) mutation &&
          bool_decide (exported_heads (ds_manifest st) = staged_heads)
       then snapshot_contains_heads (durable_snapshot st) staged_heads
       else Ok false) else r in
    if (present : bool) then already_durable r
    else
      try! durable := load_snapshot (durable_snapshot st) else r in
      try! merged := apply_all durable (missing_changes durable (am_changes staged)) else r in
      try! m := next_sequence (ds_manifest st) else r in
      let m := set_file_save_sequence (Some 0)
        (set_exported_heads staged_heads (set_durable_heads (am_heads merged) m)) in
      commit_state io
        (mkDState (apply_mutation_to_manifest mutation m) (am_save merged) true None) r
  else (r, Err (BadSnapshot "staged source snapshot does not contain its declared heads")).

(** [commit_source_ready]. *)
Definition commit_source_ready (io : log_io) (generation : Z) (r : RoomDurability J)
    : RoomDurability J * outcome :=
  try! _ := ensure_accepting_commits r else r in
  let st := state r in
  let m := ds_manifest st in
  if decide (source_generation m <> generation) then
    (r, Err (BadSnapshot "source generation cannot complete durable generation"))
  else if has_durable_record st && mutation_is_already_reflected m (SourceReady generation)
  then already_durable r
  else if decide (source_phase m <> PhDurablyStaged) then
    (r, Err (BadSnapshot "source generation is not durably staged"))
  else
    try! m := next_sequence m else r in
    commit_state io
      (mkDState (apply_mutation_to_manifest (SourceReady generation) m)
         (durable_snapshot st) true None) r.

(** [prepare_file_checkpoint]. *)
Definition prepare_file_checkpoint (io : log_io) (pending : PendingFileCheckpoint)
    (r : RoomDurability J) : RoomDurability J * outcome :=
  try! _ := ensure_accepting_commits r else r in
  let st := state r in
  try! contained :=
    snapshot_contains_heads (durable_snapshot st) (pfc_exported_heads pending) else r in
  if negb contained then (r, Err FileCheckpointHeadsNotDurable)
  else match pending_file_checkpoint (ds_manifest st) with
  | Some existing =>
      if decide (existing = pending) then already_durable r
      else (r, Err (BadSnapshot "a file checkpoint is still pending"))
  | None =>
      try! m := next_sequence (ds_manifest st) else r in
      commit_state io
        (mkDState (set_pending_file_checkpoint (Some pending) m) (durable_snapshot st) true
           (degraded st)) r
  end.

(** [abort_file_checkpoint]. *)
Definition abort_file_checkpoint (io : log_io) (save_sequence : Z) (r : RoomDurability J)
    : RoomDurability J * outcome :=
  try! _ := ensure_accepting_commits r else r in
  let st := state r in
  match pending_file_checkpoint (ds_manifest st) with
  | None => already_durable r
  | Some pending =>
      if decide (pfc_save_sequence pending = save_sequence) then
        try! m := next_sequence (ds_manifest st) else r in
        commit_state io (with_manifest (set_pending_file_checkpoint None m) st) r
      else (r, Err (BadSnapshot "cannot abort another checkpoint sequence"))
  end.

(** [resolve_recovered_file_checkpoint]. *)
Definition resolve_recovered_file_checkpoint (io : log_io) (current : SourceFingerprint)
    (r : RoomDurability J) : RoomDurability J * outcome :=
  try! _ := ensure_accepting_commits r else r in
  let st := state r in
  let m := ds_manifest st in
  match pending_file_checkpoint m with
  | None => already_durable r
  | Some pending =>
      try! m :=
        (if decide (current = pfc_file_fingerprint pending) then
           Ok (apply_mutation_to_manifest (FileCheckpoint pending) m)
         else if decide (current = manifest_source_fingerprint m) then
           Ok (set_pending_file_checkpoint None m)
         else Err (DivergedSource (manifest_source_fingerprint m) current)) else r in
      try! m := next_sequence (promote_unless_degraded (degraded st) m) else r in
      commit_state io (mkDState m (durable_snapshot st) true None) r
  end.

(** [commit_file_checkpoint_with_generation], behind [commit_file_checkpoint]
    and [commit_reconciled_file_checkpoint]. *)
Definition commit_file_checkpoint_with_generation (io : log_io)
    (checkpoint : PendingFileCheckpoint) (r : RoomDurability J)
    : RoomDurability J * outcome :=
  try! _ := ensure_accepting_commits r else r in
  let st := state r in
  try! contained :=
    snapshot_contains_heads (durable_snapshot st) (pfc_exported_heads checkpoint) else r in
  if negb contained then (r, Err FileCheckpointHeadsNotDurable)
  else if decide (is_Some (pending_file_checkpoint (ds_manifest st)) /\
                  pending_file_checkpoint (ds_manifest st) <> Some checkpoint) then
    (r, Err (BadSnapshot "file checkpoint does not match prepared intent"))
  else
    let already_reflected := has_durable_record st &&
      mutation_is_already_reflected (ds_manifest st) (FileCheckpoint checkpoint) in
    let m := if already_reflected then ds_manifest st
      else apply_mutation_to_manifest (FileCheckpoint checkpoint) (ds_manifest st) in
    let m := promote_unless_degraded (degraded st) m in
    if already_reflected && bool_decide (m = ds_manifest st) then already_durable r
    else
      try! m := next_sequence m else r in
      commit_state io (mkDState m (durable_snapshot st) true (degraded st)) r.

Definition commit_file_checkpoint (io : log_io) (p : string) (fp : SourceFingerprint)
    (heads : list change_hash) (save_sequence : Z) (r : RoomDurability J) :=
  commit_file_checkpoint_with_generation io (mkPending p fp heads save_sequence None) r.

Definition commit_reconciled_file_checkpoint (io : log_io) (p : string)
    (fp : SourceFingerprint) (heads : list change_hash) (save_sequence generation : Z)
    (r : RoomDurability J) :=
  commit_file_checkpoint_with_generation io
    (mkPending p fp heads save_sequence (Some generation)) r.

(** [archive_and_commit_reconciled_source]. *)
Definition archive_and_commit_reconciled_source (io : log_replace_io) (snapshot : bytes)
    (heads : list change_hash) (p : string) (fp : SourceFingerprint) (generation : Z)
    (replacement_change_hashes : list change_hash) (save_sequence : Z)
    (r : RoomDurability J)
    : RoomDurability J * result RoomDurabilityError ReconciledSourceCommit :=
  try! _ := ensure_accepting_commits r else r in
  try! candidate := load_snapshot snapshot else r in
  if decide (sort_heads (am_heads candidate) = sort_heads heads) then
    match journal r with
    | None => (r, Err JournalUnavailable)
    | Some j =>
        match checked_add_u64 (sequence (ds_manifest (state r))) 1 with
        | None => (r, Err SequenceExhausted)
        | Some n =>
            let m := manifest_new n (notebook_id (ds_manifest (state r))) (Some p)
              SCHEMA_VERSION fp generation in
            let m := set_staged_change_count (u64_of_len (length replacement_change_hashes))
              (set_source_phase PhDurablyStaged m) in
            let m := set_file_save_sequence (Some save_sequence)
              (set_exported_heads heads (set_durable_heads heads m)) in
            match log_archive_and_replace io m snapshot j with
            | (j, Err e) => (with_journal (Some j) r, Err (JournalFailed e))
            | (j, Ok replacement) =>
                let st := mkDState m snapshot true None in
                (publish st (with_journal (Some j) r),
                 Ok (mkReconciled (status_from_state st)
                       (archive_directory (archive replacement))
                       (durability_warning replacement)))
            end
        end
    end
  else (r, Err (BadSnapshot
    "reconciled source snapshot heads do not match the declared heads")).

(** [commit_peer_changes]. *)
Definition commit_peer_changes (io : log_io) (changes : list am_change)
    (r : RoomDurability J) : RoomDurability J * outcome :=
  try! _ := ensure_accepting_commits r else r in
  match changes with
  | [] => (r, Ok (AlreadyDurable (status_tx r)))
  | _ =>
      let st := state r in
      try! durable := load_snapshot (durable_snapshot st) else r in
      try! (durable, peer_hashes) := apply_retained_change_batch durable changes else r in
      if decide (peer_hashes = []) then already_durable r
      else
        let snapshot := am_save durable in
        if decide (snapshot = durable_snapshot st) then already_durable r
        else
          try! m := next_sequence (ds_manifest st) else r in
          let m := set_durable_heads (am_heads durable) m in
          commit_state io
            (mkDState (apply_mutation_to_manifest (Peer peer_hashes) m) snapshot true None) r
  end.

(** [commit_external_source_revision]. *)
Definition commit_external_source_revision (io : log_io) (changes : list am_change)
    (observed_source : SourceFingerprint) (p : string) (save_sequence : Z)
    (r : RoomDurability J) : RoomDurability J * outcome :=
  try! _ := ensure_accepting_commits r else r in
  let st := state r in
  let m := ds_manifest st in
  if decide (has_durable_record st = true /\ durable_heads m <> exported_heads m /\
             manifest_source_fingerprint m <> observed_source) then
    (r, Err (DivergedSource (manifest_source_fingerprint m) observed_source))
  else
    try! durable := load_snapshot (durable_snapshot st) else r in
    let source_hashes := am_change_hash <$> dedup_changes [] changes in
    try! (durable, _) := apply_retained_change_batch durable changes else r in
    let heads := am_heads durable in
    match checked_add_u64 (source_generation m) 1 with
    | None => (r, Err SequenceExhausted)
    | Some generation =>
        try! m := next_sequence m else r in
        let m := set_source_fingerprint observed_source
          (set_source_phase PhDurablyStaged (set_source_generation generation m)) in
        let m := set_exported_heads heads (set_durable_heads heads
          (set_staged_change_count (u64_of_len (length source_hashes)) m)) in
        let m := set_file_save_sequence (Some save_sequence) (set_canonical_path (Some p) m) in
        commit_state io (mkDState m (am_save durable) true None) r
    end.

(** [mark_degraded] and [clear_degraded]. *)
Definition mark_degraded (k : DegradationKind) (rsn : string) (r : RoomDurability J)
    : RoomDurability J := publish (with_degraded (Some (mkDegradation k rsn)) (state r)) r.

Definition clear_degraded (r : RoomDurability J) : RoomDurability J :=
  publish (with_degraded None (state r)) r.

(** [parse_heads]; [parse_head] is [ChangeHash::from_str]. *)
Fixpoint parse_heads (parse_head : string -> result string change_hash)
    (heads : list string) : result RoomDurabilityError (list change_hash) :=
  match heads with
  | [] => Ok []
  | h :: heads' =>
      match parse_head h with
      | Err e => Err (InvalidHead h e)
      | Ok x => let? xs := parse_heads parse_head heads' in Ok (x :: xs)
      end
  end.

(** [await_durable]: the statuses observed on the channel, each with the snapshot
    held at that moment, until one decides or the timeout fires. *)
Fixpoint await_observed (required : list change_hash)
    (observed : list (RoomDurabilityStatus * bytes))
    : result RoomDurabilityError RoomDurabilityStatus :=
  match observed with
  | [] => Err TimedOut
  | (status, snapshot) :: later =>
      match st_degraded status with
      | Some (mkDegradation DurabilityBoundary rsn) => Err (DegradedRoom rsn)
      | _ =>
          if st_has_durable_record status then
            let? contained := snapshot_contains_heads snapshot required in
            if (contained : bool) then Ok status else await_observed required later
          else await_observed required later
      end
  end.

Definition await_durable (parse_head : string -> result string change_hash)
    (required : list string) (observed : list (RoomDurabilityStatus * bytes))
    : result RoomDurabilityError RoomDurabilityStatus :=
  let? parsed := parse_heads parse_head required in await_observed parsed observed.
End Durability.

(** ** What a commit may change *)

Section CommitShapes.
Context `{AutomergeLaws, HexCodec} {J : Type} `{RecoveryLogLaws J}.
Context (SCHEMA_VERSION : Z) (error_string : RecoveryJournalError -> string).

Abbreviation room := (RoomDurability J).

(** [covers s s']: the document saved in [s'] has the history of the one in [s]. *)
Definition covers (s s' : bytes) : Prop :=
  forall d, am_load s = Ok d ->
  exists d', am_load s' = Ok d' /\ forall h, known d h -> known d' h.

#[export] Instance covers_refl : Reflexive covers.
Proof. intros s d Hd. by exists d. Qed.

#[export] Instance covers_trans : Transitive covers.
Proof.
  intros s1 s2 s3 H12 H23 d Hd. destruct (H12 d Hd) as (d2 & Hd2 & Hk2).
  destruct (H23 d2 Hd2) as (d3 & Hd3 & Hk3). exists d3. auto.
Qed.

(** The change hashes the manifest says are exported, or about to be. *)
Definition checkpoint_heads (m : RecoveryManifest) : list change_hash :=
  exported_heads m ++ default [] (pfc_exported_heads <$> pending_file_checkpoint m).

(** Everything exported to the file, or about to be, is in the durable snapshot;
    a room without a durable record has exported nothing. *)
Definition exports_durable (st : DurabilityState) : Prop :=
  (has_durable_record st = false -> checkpoint_heads (ds_manifest st) = []) /\
  forall d, am_load (durable_snapshot st) = Ok d ->
    Forall (known d) (checkpoint_heads (ds_manifest st)).

(** The bookkeeping every commit does. *)
Definition advances (old new : DurabilityState) : Prop :=
  sequence (ds_manifest new) = sequence (ds_manifest old) + 1 /\
  sequence (ds_manifest new) <= u64_max /\
  notebook_id (ds_manifest new) = notebook_id (ds_manifest old) /\
  (degraded new = None \/ degraded new = degraded old) /\
  (has_durable_record new = true \/ has_durable_record new = has_durable_record old).

(** A commit that keeps the acknowledged history. *)
Definition merges (old new : DurabilityState) : Prop :=
  advances old new /\
  (has_durable_record old = true -> covers (durable_snapshot old) (durable_snapshot new)) /\
  (exports_durable old -> exports_durable new).

(** The results of an operation: nothing happened, or one state related to the
    old one by [P] went through the commit point. *)
Inductive shape (P : DurabilityState -> DurabilityState -> Prop) (r : room)
    : room * outcome -> Prop :=
| shape_same o : (forall s, o <> Ok (Committed s)) -> shape P r (r, o)
| shape_commit io st : P (state r) st -> shape P r (commit_state error_string io st r).

Lemma next_sequence_Ok m m' :
  next_sequence m = Ok m' ->
  m' = set_sequence (sequence m + 1) m /\ sequence m + 1 <= u64_max.
Proof.
  unfold next_sequence. destruct (checked_add_u64 _ _) as [n|] eqn:E; [|done].
  apply checked_add_u64_Some in E as [-> ?]. intros [= <-]. done.
Qed.

Lemma load_snapshot_Ok bs d : load_snapshot bs = Ok d -> am_load bs = Ok d.
Proof. unfold load_snapshot. by destruct (am_load bs); intros; simplify_eq. Qed.

Lemma apply_all_Ok d cs d' : apply_all d cs = Ok d' -> am_apply_changes d cs = Ok d'.
Proof. unfold apply_all. by destruct (am_apply_changes d cs); intros; simplify_eq. Qed.

(** Saving a document that grew from a loaded snapshot covers the snapshot. *)
Lemma covers_grown s d d' :
  am_load s = Ok d -> (forall h, known d h -> known d' h) -> covers s (am_save d').
Proof.
  intros Hd Hk d0 Hd0. rewrite Hd in Hd0. injection Hd0 as <-.
  destruct (am_load_save d') as (d2 & Hd2 & Hk2 & _).
  exists d2. split; [done|]. intros h Hh. by apply Hk2, Hk.
Qed.

Lemma snapshot_contains_heads_true s hs :
  snapshot_contains_heads s hs = Ok true ->
  forall d, am_load s = Ok d -> Forall (known d) hs.
Proof.
  unfold snapshot_contains_heads. case_decide as Hn; [subst; by constructor|].
  intros Hc d Hd. unfold load_snapshot in Hc. rewrite Hd in Hc.
  injection Hc as Hc. by apply bool_decide_eq_true in Hc.
Qed.

Lemma forall_known_grows hs d d' :
  (forall h, known d h -> known d' h) -> Forall (known d) hs -> Forall (known d') hs.
Proof. intros Hk Hf. by eapply Forall_impl. Qed.

(** Keeping the snapshot keeps the exports when the checkpoint heads are old ones
    or known. *)
Lemma exports_same_snapshot old m b d :
  (forall doc, am_load (durable_snapshot old) = Ok doc ->
     Forall (known doc) (checkpoint_heads (ds_manifest old)) ->
     Forall (known doc) (checkpoint_heads m)) ->
  exports_durable old -> b = true \/ (b = has_durable_record old /\
    checkpoint_heads m = []) -> exports_durable (mkDState m (durable_snapshot old) b d).
Proof.
  intros Hm [Ho1 Ho2] Hb. split; simpl.
  - intros ->. destruct Hb as [|[_ ?]]; done.
  - intros doc Hd. auto.
Qed.

Lemma apply_retained_keeps d cs d' hs h :
  apply_retained_change_batch d cs = Ok (d', hs) -> known d h -> known d' h.
Proof.
  unfold apply_retained_change_batch. destruct (apply_all _ _) as [d0|] eqn:Ea; [|done].
  intros [= <- <-]. by eapply am_apply_keeps, apply_all_Ok.
Qed.

Lemma shape_err P (r : room) e : shape P r (r, Err e).
Proof. apply shape_same. intros s. discriminate. Qed.

Ltac accept_gate :=
  unfold ensure_accepting_commits;
  match goal with |- context [accepting_commits ?r] =>
    destruct (accepting_commits r); cbv beta iota; [|apply shape_err] end.

Lemma already_durable_shape P (r : room) : shape P r (already_durable r).
Proof. apply shape_same. intros s. discriminate. Qed.

Lemma commit_snapshot_shape io s hs mu r :
  shape (fun old new => advances old new /\ (mu = Daemon -> merges old new)) r
    (commit_snapshot error_string io s hs mu r).
Proof.
  unfold commit_snapshot. accept_gate.
  destruct (load_snapshot s) as [cand|] eqn:Hc; [|apply shape_err]. simpl.
  set (st := state r).
  match goal with |- shape _ _ (match ?e with _ => _ end) =>
    destruct e as [[committed heads]|] eqn:Hm; [|apply shape_err] end. simpl.
  destruct (_ && _); [apply already_durable_shape|].
  destruct (next_sequence (ds_manifest st)) as [m|] eqn:Hn; [|apply shape_err].
  apply next_sequence_Ok in Hn as [-> Hle]. apply shape_commit. fold st.
  assert (advances st (mkDState (apply_mutation_to_manifest mu
    match mu with
    | Source _ _ _ => set_file_save_sequence (Some 0) (set_exported_heads heads
        (set_durable_heads heads (set_sequence (sequence (ds_manifest st) + 1) (ds_manifest st))))
    | _ => set_durable_heads heads (set_sequence (sequence (ds_manifest st) + 1) (ds_manifest st))
    end) committed true None)) as Hadv.
  { unfold advances. destruct mu; simpl; try (destruct (pfc_source_generation p));
      split_and!; auto. }
  split; [done|]. intros ->. split; [done|].
  destruct (has_durable_record st) eqn:Hr.
  - destruct (load_snapshot (durable_snapshot st)) as [dur|] eqn:Hd; [|done]. simpl in Hm.
    destruct (apply_all _ _) as [merged|] eqn:Ha; [|done]. simplify_eq/=.
    apply load_snapshot_Ok in Hd. apply apply_all_Ok in Ha.
    assert (forall h, known dur h -> known merged h) as Hk
      by (intros h; by eapply apply_missing_merges).
    split; [intros _; by eapply covers_grown|].
    intros [_ Ho]. split; [done|]. simpl. intros d Hd'.
    destruct (am_load_save merged) as (d2 & Hd2 & Hk2 & _).
    rewrite Hd2 in Hd'. injection Hd' as <-.
    eapply (forall_known_grows _ dur); [intros h Hh; by apply Hk2, Hk|]. by apply Ho.
  - simplify_eq. split; [done|]. intros [Ho _]. split; [done|]. simpl. intros d _.
    specialize (Ho Hr). unfold checkpoint_heads in *. simpl. by rewrite Ho.
Qed.

Lemma commit_staged_source_shape io s hs g fp chs r :
  shape merges r (commit_staged_source error_string io s hs g fp chs r).
Proof.
  unfold commit_staged_source. accept_gate.
  destruct (load_snapshot s) as [staged|] eqn:Hs; [|apply shape_err]. simpl.
  case_bool_decide as Hkn; [|apply shape_err]. set (st := state r).
  destruct (if _ && _ then _ else Ok false) as [[]|]; [apply already_durable_shape| |apply shape_err].
  destruct (load_snapshot (durable_snapshot st)) as [dur|] eqn:Hd; [|apply shape_err]. simpl.
  destruct (apply_all _ _) as [merged|] eqn:Ha; [|apply shape_err]. simpl.
  destruct (next_sequence (ds_manifest st)) as [m|] eqn:Hn; [|apply shape_err].
  apply next_sequence_Ok in Hn as [-> Hle]. apply shape_commit. fold st.
  apply load_snapshot_Ok in Hd. apply apply_all_Ok in Ha.
  assert (forall h, known dur h -> known merged h) as Hk1
    by (intros h; by eapply am_apply_keeps).
  assert (forall h, known staged h -> known merged h) as Hk2
    by (intros h; by eapply apply_missing_merges).
  split; [by unfold advances; simpl; split_and!; auto|].
  split; [intros _; by eapply covers_grown|]. intros [_ Ho]. split; [done|]. simpl.
  intros d Hd'. destruct (am_load_save merged) as (d2 & Hd2 & Hk & _).
  rewrite Hd2 in Hd'. injection Hd' as <-.
  unfold checkpoint_heads in *. simpl. apply Forall_app. split.
  - eapply forall_known_grows; [|exact Hkn]. intros h Hh. by apply Hk, Hk2.
  - specialize (Ho dur Hd). apply Forall_app in Ho as [_ Ho].
    eapply forall_known_grows; [|exact Ho]. intros h Hh. by apply Hk, Hk1.
Qed.

(** Commits that keep the snapshot. *)
Lemma merges_same_snapshot old m b d :
  sequence m = sequence (ds_manifest old) + 1 -> sequence m <= u64_max ->
  notebook_id m = notebook_id (ds_manifest old) ->
  d = None \/ d = degraded old -> b = true \/ b = has_durable_record old ->
  (checkpoint_heads (ds_manifest old) = [] -> b = false -> checkpoint_heads m = []) ->
  (forall doc, am_load (durable_snapshot old) = Ok doc ->
     Forall (known doc) (checkpoint_heads (ds_manifest old)) ->
     Forall (known doc) (checkpoint_heads m)) ->
  merges old (mkDState m (durable_snapshot old) b d).
Proof.
  intros Hs Hu Hi Hd Hb Hz Hf. split; [by unfold advances|]. split; [done|].
  intros [Ho1 Ho2]. split; simpl; [|by auto].
  intros ->. destruct Hb as [|Hb]; [done|]. apply Hz; [|done]. by apply Ho1.
Qed.

Lemma promote_same m :
  sequence (promote_full_coverage_checkpoint_baseline m) = sequence m /\
  notebook_id (promote_full_coverage_checkpoint_baseline m) = notebook_id m /\
  checkpoint_heads (promote_full_coverage_checkpoint_baseline m) = checkpoint_heads m.
Proof. unfold promote_full_coverage_checkpoint_baseline. by case_decide. Qed.

Lemma promote_unless_degraded_same d m :
  sequence (promote_unless_degraded d m) = sequence m /\
  notebook_id (promote_unless_degraded d m) = notebook_id m /\
  checkpoint_heads (promote_unless_degraded d m) = checkpoint_heads m.
Proof. destruct d; [done|apply promote_same]. Qed.

Lemma file_checkpoint_same p m :
  sequence (apply_mutation_to_manifest (FileCheckpoint p) m) = sequence m /\
  notebook_id (apply_mutation_to_manifest (FileCheckpoint p) m) = notebook_id m /\
  checkpoint_heads (apply_mutation_to_manifest (FileCheckpoint p) m) = pfc_exported_heads p.
Proof.
  unfold checkpoint_heads. simpl. by destruct (pfc_source_generation p); simpl; rewrite app_nil_r.
Qed.

Lemma commit_source_ready_shape io g r :
  shape merges r (commit_source_ready error_string io g r).
Proof.
  unfold commit_source_ready. accept_gate. set (st := state r).
  case_decide; [apply shape_err|]. destruct (_ && _); [apply already_durable_shape|].
  case_decide; [apply shape_err|].
  destruct (next_sequence (ds_manifest st)) as [m|] eqn:Hn; [|apply shape_err].
  apply next_sequence_Ok in Hn as [-> Hle]. apply shape_commit.
  apply merges_same_snapshot; auto.
Qed.

Lemma prepare_file_checkpoint_shape io p r :
  shape merges r (prepare_file_checkpoint error_string io p r).
Proof.
  unfold prepare_file_checkpoint. accept_gate. set (st := state r).
  destruct (snapshot_contains_heads _ _) as [[]|] eqn:Hc; simpl; [| |apply shape_err].
  2: apply shape_err.
  destruct (pending_file_checkpoint (ds_manifest st)) as [q|] eqn:Hp.
  { case_decide; [apply already_durable_shape|apply shape_err]. }
  destruct (next_sequence (ds_manifest st)) as [m|] eqn:Hn; [|apply shape_err].
  apply next_sequence_Ok in Hn as [-> Hle]. apply shape_commit.
  apply merges_same_snapshot; auto; [done|]. intros doc Hd Hk.
  unfold checkpoint_heads in *. fold st in Hk. simpl. apply Forall_app in Hk as [Hk _].
  apply Forall_app. split; [done|]. by eapply snapshot_contains_heads_true.
Qed.

Lemma abort_file_checkpoint_shape io n r :
  shape merges r (abort_file_checkpoint error_string io n r).
Proof.
  unfold abort_file_checkpoint. accept_gate. set (st := state r).
  destruct (pending_file_checkpoint (ds_manifest st)) as [q|] eqn:Hp;
    [|apply already_durable_shape].
  case_decide; [|apply shape_err].
  destruct (next_sequence (ds_manifest st)) as [m|] eqn:Hn; [|apply shape_err].
  apply next_sequence_Ok in Hn as [-> Hle]. apply shape_commit. unfold with_manifest.
  apply merges_same_snapshot; auto; unfold checkpoint_heads; simpl.
  - intros Hz%app_eq_nil _. by rewrite (proj1 Hz).
  - intros doc _ Hk. apply Forall_app in Hk as [Hk _]. by rewrite app_nil_r.
Qed.

Lemma resolve_recovered_file_checkpoint_shape io fp r :
  shape merges r (resolve_recovered_file_checkpoint error_string io fp r).
Proof.
  unfold resolve_recovered_file_checkpoint. accept_gate. set (st := state r).
  destruct (pending_file_checkpoint (ds_manifest st)) as [q|] eqn:Hp;
    [|apply already_durable_shape].
  assert (forall m0, sequence m0 = sequence (ds_manifest st) ->
    notebook_id m0 = notebook_id (ds_manifest st) ->
    incl (checkpoint_heads m0) (checkpoint_heads (ds_manifest st)) ->
    shape merges r
      (try! m := next_sequence (promote_unless_degraded (degraded st) m0) else r in
       commit_state error_string io (mkDState m (durable_snapshot st) true None) r)) as Hfin.
  { intros m0 Hs Hi Hh. destruct (promote_unless_degraded_same (degraded st) m0) as (H1' & H2' & H3').
    destruct (next_sequence _) as [m|] eqn:Hn; [|apply shape_err].
    apply next_sequence_Ok in Hn as [-> Hle]. rewrite H1', Hs in Hle. apply shape_commit.
    apply merges_same_snapshot; simpl; rewrite ?H1', ?H2', ?Hs, ?Hi; auto; [done|].
    intros doc _ Hk. change (checkpoint_heads (set_sequence ?n ?m)) with (checkpoint_heads m).
    rewrite H3'. rewrite Forall_forall in Hk |- *. intros h Hh'. apply Hk.
    apply list_elem_of_In, Hh, list_elem_of_In, Hh'. }
  case_decide; [|case_decide; [|apply shape_err]].
  - destruct (file_checkpoint_same q (ds_manifest st)) as (H1' & H2' & H3'). apply Hfin; [done..|].
    rewrite H3'. unfold checkpoint_heads. rewrite Hp. simpl. apply incl_appr, incl_refl.
  - apply Hfin; [done..|]. unfold checkpoint_heads. simpl. rewrite app_nil_r. apply incl_appl, incl_refl.
Qed.

Lemma commit_file_checkpoint_shape io p r :
  shape merges r (commit_file_checkpoint_with_generation error_string io p r).
Proof.
  unfold commit_file_checkpoint_with_generation. accept_gate. set (st := state r).
  destruct (snapshot_contains_heads _ _) as [[]|] eqn:Hc; cbv beta iota;
    [cbn [negb]|apply shape_err..].
  case_decide as Hpend; [apply shape_err|].
  set (already := has_durable_record st && _).
  set (m0 := if already then ds_manifest st else _).
  assert (sequence m0 = sequence (ds_manifest st) /\
    notebook_id m0 = notebook_id (ds_manifest st) /\
    (checkpoint_heads m0 = checkpoint_heads (ds_manifest st) \/
     checkpoint_heads m0 = pfc_exported_heads p)) as (Hs & Hi & Hh).
  { subst m0. destruct already; [by auto|].
    destruct (file_checkpoint_same p (ds_manifest st)) as (-> & -> & ->). auto. }
  destruct (promote_unless_degraded_same (degraded st) m0) as (H1' & H2' & H3').
  set (m1 := promote_unless_degraded (degraded st) m0) in *.
  destruct (already && _); [apply already_durable_shape|].
  destruct (next_sequence m1) as [m|] eqn:Hn; [|apply shape_err].
  apply next_sequence_Ok in Hn as [-> Hle]. rewrite H1', Hs in Hle. apply shape_commit.
  apply merges_same_snapshot; cbn [sequence notebook_id set_sequence];
    rewrite ?H1', ?H2', ?Hs, ?Hi; auto; [done|].
  intros doc Hd Hk. change (checkpoint_heads (set_sequence ?n m1)) with (checkpoint_heads m1).
  rewrite H3'. destruct Hh as [-> | ->]; [done|]. by eapply snapshot_contains_heads_true.
Qed.

Lemma commit_peer_changes_shape io cs r :
  shape merges r (commit_peer_changes error_string io cs r).
Proof.
  unfold commit_peer_changes. accept_gate. destruct cs as [|c cs].
  { apply shape_same. intros s. discriminate. }
  set (st := state r).
  destruct (load_snapshot _) as [dur|] eqn:Hd; [|apply shape_err].
  destruct (apply_retained_change_batch _ _) as [[dur' hs]|] eqn:Ha; [|apply shape_err].
  case_decide; [apply already_durable_shape|]. case_decide; [apply already_durable_shape|].
  destruct (next_sequence (ds_manifest st)) as [m|] eqn:Hn; [|apply shape_err].
  apply next_sequence_Ok in Hn as [-> Hle]. apply shape_commit. fold st.
  apply load_snapshot_Ok in Hd.
  assert (forall h, known dur h -> known dur' h) as Hk
    by (intros h; by eapply apply_retained_keeps).
  split; [by unfold advances; simpl; split_and!; auto|].
  split; [intros _; by eapply covers_grown|]. intros [_ Ho]. split; [done|]. simpl.
  intros d Hd'. destruct (am_load_save dur') as (d2 & Hd2 & Hk2 & _).
  rewrite Hd2 in Hd'. injection Hd' as <-.
  eapply (forall_known_grows _ dur); [intros h Hh; by apply Hk2, Hk|]. by apply Ho.
Qed.

Lemma commit_external_source_revision_shape io cs fp p n r :
  shape merges r (commit_external_source_revision error_string io cs fp p n r).
Proof.
  unfold commit_external_source_revision. accept_gate. set (st := state r).
  case_decide; [apply shape_err|].
  destruct (load_snapshot _) as [dur|] eqn:Hd; [|apply shape_err].
  destruct (apply_retained_change_batch _ _) as [[dur' hs]|] eqn:Ha; [|apply shape_err].
  destruct (checked_add_u64 _ _) as [g|]; [|apply shape_err].
  destruct (next_sequence (ds_manifest st)) as [m|] eqn:Hn; [|apply shape_err].
  apply next_sequence_Ok in Hn as [-> Hle]. apply shape_commit. fold st.
  apply load_snapshot_Ok in Hd.
  assert (forall h, known dur h -> known dur' h) as Hk
    by (intros h; by eapply apply_retained_keeps).
  split; [by unfold advances; simpl; split_and!; auto|].
  split; [intros _; by eapply covers_grown|]. intros [_ Ho]. split; [done|]. simpl.
  intros d Hd'. destruct (am_load_save dur') as (d2 & Hd2 & Hk2 & _).
  rewrite Hd2 in Hd'. injection Hd' as <-.
  unfold checkpoint_heads in *. simpl. apply Forall_app. split.
  - apply Forall_forall. intros h Hh. by apply Hk2, am_heads_known.
  - specialize (Ho dur Hd). apply Forall_app in Ho as [_ Ho].
    eapply forall_known_grows; [|exact Ho]. intros h Hh. by apply Hk2, Hk.
Qed.

(** ** Histories of a room's durability *)

Inductive dop :=
| DPromote (io : log_io) (j : J)
| DSnapshot (io : log_io) (snapshot : bytes) (heads : list change_hash) (mu : DurableMutation)
| DStaged (io : log_io) (snapshot : bytes) (heads : list change_hash) (generation : Z)
    (fp : SourceFingerprint) (hashes : list change_hash)
| DReady (io : log_io) (generation : Z)
| DPrepare (io : log_io) (p : PendingFileCheckpoint)
| DAbort (io : log_io) (save_sequence : Z)
| DResolve (io : log_io) (current : SourceFingerprint)
| DCheckpoint (io : log_io) (p : PendingFileCheckpoint)
| DReconcile (io : log_replace_io) (snapshot : bytes) (heads : list change_hash)
    (p : string) (fp : SourceFingerprint) (generation : Z) (hashes : list change_hash)
    (save_sequence : Z)
| DPeer (io : log_io) (changes : list am_change)
| DExternal (io : log_io) (changes : list am_change) (fp : SourceFingerprint) (p : string)
    (save_sequence : Z)
| DMark (k : DegradationKind) (rsn : string)
| DClear
| DFreeze
| DThaw.

(** What a caller is told: committed, nothing to do, or refused. *)
Inductive ack := AckCommitted | AckAlready | AckRefused (e : RoomDurabilityError) | AckNone.

Definition ack_of (o : outcome) : ack :=
  match o with
  | Ok (Committed _) => AckCommitted
  | Ok (AlreadyDurable _) => AckAlready
  | Err e => AckRefused e
  end.

Definition dstep (o : dop) (r : room) : room * ack :=
  let plain x := let '(r', res) := (x : room * outcome) in (r', ack_of res) in
  match o with
  | DPromote io j => plain (promote_to_journal error_string io j r)
  | DSnapshot io s hs mu => plain (commit_snapshot error_string io s hs mu r)
  | DStaged io s hs g fp chs => plain (commit_staged_source error_string io s hs g fp chs r)
  | DReady io g => plain (commit_source_ready error_string io g r)
  | DPrepare io p => plain (prepare_file_checkpoint error_string io p r)
  | DAbort io n => plain (abort_file_checkpoint error_string io n r)
  | DResolve io fp => plain (resolve_recovered_file_checkpoint error_string io fp r)
  | DCheckpoint io p => plain (commit_file_checkpoint_with_generation error_string io p r)
  | DReconcile io s hs p fp g chs n =>
      let '(r', res) :=
        archive_and_commit_reconciled_source SCHEMA_VERSION io s hs p fp g chs n r in
      (r', match res with Ok _ => AckCommitted | Err e => AckRefused e end)
  | DPeer io cs => plain (commit_peer_changes error_string io cs r)
  | DExternal io cs fp p n => plain (commit_external_source_revision error_string io cs fp p n r)
  | DMark k rsn => (mark_degraded k rsn r, AckNone)
  | DClear => (clear_degraded r, AckNone)
  | DFreeze => (freeze_commits r, AckNone)
  | DThaw => (thaw_commits r, AckNone)
  end.

Definition drun (ops : list dop) (r : room) : room := foldl (fun r o => fst (dstep o r)) r ops.

(** The operations that extend the acknowledged history; the two others replace
    the snapshot: an explicit reconciliation, and a snapshot commit that is not
    daemon-authored (the code has no such caller). *)
Definition extends_history (o : dop) : bool :=
  match o with
  | DSnapshot _ _ _ Daemon => true
  | DSnapshot _ _ _ _ | DReconcile _ _ _ _ _ _ _ _ => false
  | _ => true
  end.

(** One step, seen from the state and the journal: nothing relevant changed, or
    a state related by [P] was appended to the journal. *)
Inductive committed_step (P : DurabilityState -> DurabilityState -> Prop) (r r' : room)
    : ack -> Prop :=
| cs_quiet a : a <> AckCommitted ->
    ds_manifest (state r') = ds_manifest (state r) ->
    durable_snapshot (state r') = durable_snapshot (state r) ->
    has_durable_record (state r') = has_durable_record (state r) ->
    journal r' = journal r -> committed_step P r r' a
| cs_failed j j' st e : P (state r) st ->
    ds_manifest (state r') = ds_manifest (state r) ->
    durable_snapshot (state r') = durable_snapshot (state r) ->
    has_durable_record (state r') = has_durable_record (state r) ->
    degraded (state r') = Some (boundary (error_string e)) ->
    journal r = Some j -> journal r' = Some j' ->
    (exists io, log_append io (ds_manifest st) (durable_snapshot st) j = (j', Err e)) ->
    committed_step P r r' (AckRefused (JournalFailed e))
| cs_done st : P (state r) st -> state r' = st ->
    match journal r with
    | None => journal r' = None
    | Some j => exists j' io, journal r' = Some j' /\
        log_append io (ds_manifest st) (durable_snapshot st) j = (j', Ok ())
    end -> committed_step P r r' AckCommitted.

Lemma shape_step P r r' o :
  shape P r (r', o) -> committed_step P r r' (ack_of o).
Proof.
  intros Hs. remember (r', o) as x eqn:Hx. destruct Hs as [o' Ho|io st HP].
  - simplify_eq. apply cs_quiet; [|done..]. intros Hc. destruct o as [[s|s]|e]; try done.
    by destruct (Ho s).
  - unfold commit_state in Hx. destruct (journal r) as [j|] eqn:Hj.
    + destruct (log_append io _ _ j) as [j' [[]|e]] eqn:Ha; simplify_eq/=.
      * eapply cs_done; [done..|]. rewrite Hj. eauto.
      * eapply cs_failed; eauto.
    + simplify_eq/=. eapply cs_done; [done..|]. by rewrite Hj.
Qed.

Lemma shape_weaken (P Q : DurabilityState -> DurabilityState -> Prop) r x :
  (forall old new, P old new -> Q old new) -> shape P r x -> shape Q r x.
Proof. intros HPQ []; [by apply shape_same|apply shape_commit; auto]. Qed.

(** The operations with a commit point of their own. *)
Definition own_commit (o : dop) : bool :=
  match o with DPromote _ _ | DReconcile _ _ _ _ _ _ _ _ => true | _ => false end.

Lemma dstep_committed o r :
  own_commit o = false ->
  committed_step (fun old new => advances old new /\ (extends_history o = true -> merges old new))
    r (fst (dstep o r)) (snd (dstep o r)).
Proof.
  intros Ho. set (P := fun old new => advances old new /\ _).
  assert (forall x : room * outcome, shape merges r x ->
    committed_step P r (fst (let '(r', res) := x in (r', ack_of res)))
      (snd (let '(r', res) := x in (r', ack_of res)))) as Hx.
  { intros [r' res] Hs. apply shape_step. eapply shape_weaken; [|exact Hs].
    intros old new Hm. split; [apply Hm|done]. }
  destruct o; simpl in Ho |- *; try discriminate.
  2-7: apply Hx; auto using commit_staged_source_shape, commit_source_ready_shape,
    prepare_file_checkpoint_shape, abort_file_checkpoint_shape,
    resolve_recovered_file_checkpoint_shape, commit_file_checkpoint_shape.
  2-3: apply Hx; auto using commit_peer_changes_shape, commit_external_source_revision_shape.
  2-5: by apply cs_quiet.
  pose proof (commit_snapshot_shape io snapshot heads mu r) as Hs.
  destruct (commit_snapshot _ _ _ _ _ _) as [r' res]. apply shape_step.
  eapply shape_weaken; [|exact Hs]. intros old new [Ha Hm]. split; [done|]. simpl.
  destruct mu; intros; try discriminate. by apply Hm.
Qed.

(** Attaching a journal to a room that has none. *)
Lemma promote_to_journal_spec io j r :
  let r' := fst (promote_to_journal error_string io j r) in
  let a := ack_of (snd (promote_to_journal error_string io j r)) in
  (a <> AckCommitted /\ ds_manifest (state r') = ds_manifest (state r) /\
   durable_snapshot (state r') = durable_snapshot (state r) /\
   has_durable_record (state r') = has_durable_record (state r) /\ journal r' = journal r) \/
  (a = AckCommitted /\ journal r = None /\ has_durable_record (state r') = true /\
   durable_snapshot (state r') = durable_snapshot (state r) /\
   notebook_id (ds_manifest (state r')) = notebook_id (ds_manifest (state r)) /\
   checkpoint_heads (ds_manifest (state r')) = checkpoint_heads (ds_manifest (state r)) /\
   exists j', journal r' = Some j' /\
     log_append io (ds_manifest (state r')) (durable_snapshot (state r')) j = (j', Ok ())).
Proof.
  unfold promote_to_journal, ensure_accepting_commits.
  destruct (accepting_commits r); [|by left].
  destruct (journal r) as [cur|] eqn:Hj; [case_decide; by left|].
  case_decide; [by left|]. set (st := state r). set (m := ds_manifest st).
  match goal with |- context [match ?e with Ok promoted => _ | Err err => (r, Err err) end] =>
    destruct e as [promoted|perr] eqn:Hp end; [|by left].
  destruct (log_append io promoted _ j) as [j' [[]|e]] eqn:Ha; [right|by left].
  assert (notebook_id promoted = notebook_id m /\ checkpoint_heads promoted = checkpoint_heads m)
    as [Hi Hh].
  { case_decide; [|by simplify_eq]. destruct (load_snapshot _); [|done].
    destruct (next_sequence m) as [m1|] eqn:Hn; [|done].
    apply next_sequence_Ok in Hn as [-> _]. destruct (checked_add_u64 _ _); by simplify_eq. }
  simpl. split_and!; eauto.
Qed.

(** ** The journal covers what was acknowledged *)

(** The record a restart would recover has the whole history of the durable
    snapshot. *)
Definition journal_covers (r : room) : Prop :=
  forall j, journal r = Some j -> log_ok j /\
    (has_durable_record (state r) = true ->
     exists rc, log_latest j = Some rc /\
       covers (durable_snapshot (state r)) (automerge_snapshot rc)).

Definition good_op (o : dop) : Prop :=
  extends_history o = true /\ match o with DPromote _ j => log_ok j | _ => True end.

Lemma dstep_journal_covers o r :
  good_op o -> journal_covers r ->
  journal_covers (fst (dstep o r)) /\
  (has_durable_record (state r) = true ->
   has_durable_record (state (fst (dstep o r))) = true /\
   covers (durable_snapshot (state r)) (durable_snapshot (state (fst (dstep o r))))).
Proof.
  intros [Hext Hop] Hc. destruct (own_commit o) eqn:Hown.
  - destruct o as [io j| | | | | | | | | | | | | |]; try discriminate. simpl.
    pose proof (promote_to_journal_spec io j r) as Hp.
    destruct (promote_to_journal _ _ _ _) as [r' res]. simpl in *.
    destruct Hp as [(_ & _ & Hs & Hh & Hj)|(_ & Hj & Hh & Hs & _ & _ & j' & Hj' & Ha)].
    + unfold journal_covers. rewrite Hs, Hh, Hj. done.
    + rewrite Hs, Hh. split; [|done]. intros j0 Hj0. simplify_eq.
      destruct (log_append_law _ _ _ _ _ _ Hop Ha) as (Hok & _ & Hl). split; [done|].
      intros _. eexists. split; [done|]. simpl. by rewrite Hs.
  - destruct (dstep_committed o r Hown) as [a _ _ Hs Hh Hj|j j' st e [_ HP] _ Hs Hh _ Hj Hj' [io Ha]|st [_ HP] Hst Hj].
    + unfold journal_covers. rewrite Hs, Hh, Hj. done.
    + specialize (HP Hext). destruct HP as (_ & Hcov & _). destruct (Hc j Hj) as [Hok Hl].
      destruct (log_append_law _ _ _ _ _ _ Hok Ha) as (Hok' & _ & Hl').
      rewrite Hs, Hh. split; [|done]. intros j0 Hj0. rewrite Hj' in Hj0. simplify_eq.
      rewrite Hs, Hh. split; [done|]. intros Hr. destruct Hl' as [-> | ->]; [by apply Hl|].
      eexists. split; [done|]. by apply Hcov.
    + specialize (HP Hext). destruct HP as ((_ & _ & _ & _ & Hrec) & Hcov & _).
      rewrite Hst. split.
      * intros j0 Hj0. destruct (journal r) as [j|] eqn:Hjr; [|congruence].
        destruct Hj as (j' & io & Hj' & Ha). rewrite Hj' in Hj0. simplify_eq.
        destruct (Hc j Hjr) as [Hok _].
        destruct (log_append_law _ _ _ _ _ _ Hok Ha) as (Hok' & _ & Hl'). split; [done|].
        intros _. eexists. split; [done|]. done.
      * intros Hr. rewrite Hr in Hrec. split; [by destruct Hrec|by apply Hcov].
Qed.

Lemma drun_journal_covers ops r :
  Forall good_op ops -> journal_covers r ->
  journal_covers (drun ops r) /\
  (has_durable_record (state r) = true ->
   has_durable_record (state (drun ops r)) = true /\
   covers (durable_snapshot (state r)) (durable_snapshot (state (drun ops r)))).
Proof.
  intros Hops. revert r. induction Hops as [|o ops Ho Hops IH]; intros r Hc; [done|].
  destruct (dstep_journal_covers o r Ho Hc) as [Hc1 Hk1].
  destruct (IH (fst (dstep o r)) Hc1) as [Hc2 Hk2]. split; [done|]. intros Hr.
  destruct (Hk1 Hr) as [Hr1 Hs1]. destruct (Hk2 Hr1) as [Hr2 Hs2]. split; [done|].
  by transitivity (durable_snapshot (state (fst (dstep o r)))).
Qed.

Lemma dstep_exports o r :
  extends_history o = true -> exports_durable (state r) ->
  exports_durable (state (fst (dstep o r))).
Proof.
  intros Hext He. destruct (own_commit o) eqn:Hown.
  - destruct o as [io j| | | | | | | | | | | | | |]; try discriminate. simpl.
    pose proof (promote_to_journal_spec io j r) as Hp.
    destruct (promote_to_journal _ _ _ _) as [r' res]. simpl in *. unfold exports_durable in *.
    destruct Hp as [(_ & -> & -> & -> & _)|(_ & _ & -> & -> & _ & -> & _)]; [done|].
    split; [done|apply He].
  - destruct (dstep_committed o r Hown) as [a _ Hm Hs Hh Hj|j j' st e _ Hm Hs Hh|st [_ HP] Hst Hj].
    1, 2: unfold exports_durable; by rewrite Hm, Hs, Hh.
    rewrite Hst. by apply (HP Hext).
Qed.
End CommitShapes.

(** ** Claims *)

Section DurabilityClaims.
Context `{AutomergeLaws, HexCodec} {J : Type} `{RecoveryLogLaws J}.
Context (SCHEMA_VERSION : Z) (error_string : RecoveryJournalError -> string).
Abbreviation room := (RoomDurability J).
Abbreviation step := (dstep SCHEMA_VERSION error_string).
Abbreviation run := (drun SCHEMA_VERSION error_string).

Lemma reconcile_spec io s hs p fp g chs n (r : room) :
  let '(r', res) := archive_and_commit_reconciled_source SCHEMA_VERSION io s hs p fp g chs n r in
  match res with
  | Ok _ => exists j j' rep, journal r = Some j /\ journal r' = Some j' /\
      log_archive_and_replace io (ds_manifest (state r')) (durable_snapshot (state r')) j =
        (j', Ok rep) /\
      sequence (ds_manifest (state r')) = sequence (ds_manifest (state r)) + 1 /\
      status_tx r' = status_from_state (state r')
  | Err _ => state r' = state r /\ status_tx r' = status_tx r
  end.
Proof.
  unfold archive_and_commit_reconciled_source, ensure_accepting_commits.
  destruct (accepting_commits r); [|done]. cbv beta iota.
  destruct (load_snapshot s); [|done]. case_decide; [|done].
  destruct (journal r) as [j|]; [|done].
  destruct (checked_add_u64 _ _) as [k|] eqn:Hk; [|done].
  apply checked_add_u64_Some in Hk as [-> _].
  destruct (log_archive_and_replace _ _ _ _) as [j' [rep|e]] eqn:Ha; [|done].
  simpl. eauto 10.
Qed.

Lemma shape_status P (r : room) x :
  shape error_string P r x -> status_tx r = status_from_state (state r) ->
  status_tx (fst x) = status_from_state (state (fst x)).
Proof.
  intros [o _|io st _] Hr; [done|]. unfold commit_state. destruct (journal r); [|done].
  by destruct (log_append _ _ _ _) as [? [|]].
Qed.

Lemma dstep_status o (r : room) :
  status_tx r = status_from_state (state r) ->
  status_tx (fst (step o r)) = status_from_state (state (fst (step o r))).
Proof.
  intros Hr.
  assert (forall P (x : room * outcome), shape error_string P r x ->
    status_tx (fst (let '(r', res) := x in (r', ack_of res))) =
    status_from_state (state (fst (let '(r', res) := x in (r', ack_of res))))) as Hx.
  { intros P [r' res] Hs. by apply (shape_status P r (r', res)). }
  destruct o; simpl; try done.
  2: eapply Hx, commit_snapshot_shape. 2: eapply Hx, commit_staged_source_shape.
  2: eapply Hx, commit_source_ready_shape. 2: eapply Hx, prepare_file_checkpoint_shape.
  2: eapply Hx, abort_file_checkpoint_shape.
  2: eapply Hx, resolve_recovered_file_checkpoint_shape.
  2: eapply Hx, commit_file_checkpoint_shape.
  3: eapply Hx, commit_peer_changes_shape. 3: eapply Hx, commit_external_source_revision_shape.
  - unfold promote_to_journal, ensure_accepting_commits. destruct (accepting_commits r); [|done].
    destruct (journal r); [by case_decide|]. case_decide; [done|].
    match goal with |- context [match ?e with Ok promoted => _ | Err err => (r, Err err) end] =>
      destruct e; [|done] end.
    by destruct (log_append _ _ _ _) as [? [|]].
  - pose proof (reconcile_spec io snapshot heads p fp generation hashes save_sequence r) as Hs.
    destruct (archive_and_commit_reconciled_source _ _ _ _ _ _ _ _ _ _) as [r' [c|e]]; simpl.
    + by destruct Hs as (j & j' & rep & _ & _ & _ & _ & ->).
    + by destruct Hs as [-> ->].
Qed.

(** A successful pass through the commit point installs the state. *)
Lemma commit_state_Ok io st (r r' : room) x :
  commit_state error_string io st r = (r', x) -> is_ok x = true -> state r' = st.
Proof.
  unfold commit_state. destruct (journal r); [|by intros [= <- <-]].
  destruct (log_append _ _ _ _) as [? [|]]; intros [= <- <-]; done.
Qed.

Lemma prepared_state io p (r prepared : room) s :
  prepare_file_checkpoint error_string io p r = (prepared, Ok (Committed s)) ->
  accepting_commits prepared = true /\
  state prepared = mkDState (set_pending_file_checkpoint (Some p)
    (set_sequence (sequence (ds_manifest (state r)) + 1) (ds_manifest (state r))))
    (durable_snapshot (state r)) true (degraded (state r)) /\
  pending_file_checkpoint (ds_manifest (state r)) = None /\
  snapshot_contains_heads (durable_snapshot (state r)) (pfc_exported_heads p) = Ok true.
Proof.
  unfold prepare_file_checkpoint, ensure_accepting_commits.
  destruct (accepting_commits r) eqn:Hacc; [|done]. cbv beta iota.
  destruct (snapshot_contains_heads _ _) as [[]|]; [|done..]. cbn [negb].
  destruct (pending_file_checkpoint _); [by case_decide|].
  destruct (next_sequence _) as [m|] eqn:Hn; [|done].
  apply next_sequence_Ok in Hn as [-> _]. intros Hc.
  split; [|split_and!; [by eapply commit_state_Ok|done..]].
  revert Hc. unfold commit_state. destruct (journal r).
  - by destruct (log_append _ _ _ _) as [? [|]]; intros; simplify_eq.
  - by intros; simplify_eq.
Qed.

Lemma promote_set_sequence n m :
  promote_full_coverage_checkpoint_baseline (set_sequence n m) =
  set_sequence n (promote_full_coverage_checkpoint_baseline m).
Proof.
  unfold promote_full_coverage_checkpoint_baseline.
  change (file_checkpoint_covers_durable_heads (set_sequence n m))
    with (file_checkpoint_covers_durable_heads m). by simpl; case_decide.
Qed.

Lemma dedup_changes_hash seen cs c :
  c ∈ cs -> am_change_hash c ∉ seen ->
  exists c', c' ∈ dedup_changes seen cs /\ am_change_hash c' = am_change_hash c.
Proof.
  revert seen. induction cs as [|c0 cs IH]; intros seen Hc Hs; [by apply elem_of_nil in Hc|].
  simpl. apply elem_of_cons in Hc as [<-|Hc].
  - rewrite decide_False by done. exists c. split; [by left|done].
  - case_decide as Hin; [by apply IH|].
    destruct (decide (am_change_hash c = am_change_hash c0)) as [He|Hne].
    + exists c0. split; [by left|done].
    + destruct (IH (am_change_hash c0 :: seen) Hc) as (c' & Hc' & Hh); [set_solver|].
      exists c'. split; [by right|done].
Qed.

Lemma apply_retained_applies d cs d' hs c :
  apply_retained_change_batch d cs = Ok (d', hs) -> c ∈ cs ->
  (forall h, h ∈ am_deps c -> known d' h) -> known d' (am_change_hash c).
Proof.
  intros Ha Hc Hdeps. destruct (decide (known d (am_change_hash c))) as [Hk|Hk].
  { by eapply apply_retained_keeps. }
  destruct (dedup_changes_hash [] cs c Hc) as (c' & Hc' & Hh); [set_solver|].
  unfold apply_retained_change_batch in Ha. destruct (apply_all _ _) as [d0|] eqn:Hap; [|done].
  injection Ha as <- _. apply apply_all_Ok in Hap. rewrite <- Hh.
  apply (am_apply_ready _ _ _ c' Hap).
  - apply list_elem_of_filter. by rewrite Hh.
  - intros h. rewrite (am_hash_deps c' c Hh). auto.
Qed.

(** What an acknowledgement means: a committed operation leaves a journal
    whose latest record is exactly the new manifest and snapshot, and advances the
    journal sequence by one (attaching a journal to a room with a source keeps
    it); a refused operation, or one with nothing to do, leaves the manifest, the
    durable snapshot and the record flag as they were. *)
Theorem commit_acknowledgement o (r : room) :
  (forall j, journal r = Some j -> log_ok j) ->
  match o with DPromote _ j => log_ok j | _ => True end ->
  let '(r', a) := dstep SCHEMA_VERSION error_string o r in
  match a with
  | AckCommitted =>
      (forall j', journal r' = Some j' -> log_ok j' /\
         log_latest j' = Some (committed_record (ds_manifest (state r'))
           (durable_snapshot (state r')))) /\
      (match o with DPromote _ _ => True | _ =>
         sequence (ds_manifest (state r')) = sequence (ds_manifest (state r)) + 1 end)
  | _ =>
      ds_manifest (state r') = ds_manifest (state r) /\
      durable_snapshot (state r') = durable_snapshot (state r) /\
      has_durable_record (state r') = has_durable_record (state r)
  end.
Proof.
  intros Hj Hop. destruct (own_commit o) eqn:Hown.
  - destruct o as [io j| | | | | | | |io s hs p fp g chs n| | | | | |]; try discriminate.
    + pose proof (promote_to_journal_spec error_string io j r) as Hp. simpl.
      destruct (promote_to_journal _ _ _ _) as [r' res]. simpl in *.
      destruct Hp as [(Hne & ? & ? & ? & _)|(-> & _ & _ & _ & _ & _ & j' & Hj' & Ha)].
      * by destruct (ack_of res).
      * split; [|done]. intros j0 Hj0. simplify_eq.
        by destruct (log_append_law _ _ _ _ _ _ Hop Ha) as (? & _ & ?).
    + pose proof (reconcile_spec io s hs p fp g chs n r) as Hp. simpl.
      destruct (archive_and_commit_reconciled_source _ _ _ _ _ _ _ _ _ _) as [r' [c|e]].
      * destruct Hp as (j & j' & rep & Hjr & Hjr' & Ha & Hseq & _). split; [|done].
        intros j0 Hj0. simplify_eq.
        by destruct (log_replace_law _ _ _ _ _ _ (Hj _ Hjr) Ha) as (? & _ & ?).
      * by destruct Hp as [-> _].
  - pose proof (dstep_committed SCHEMA_VERSION error_string o r Hown) as Hs.
    destruct (step o r) as [r' a]. simpl in Hs.
    destruct Hs as [a Ha ? ? ? _|j j' st e _ ? ? ? _ _ _ _|st [Hadv _] Hst Hjr].
    + by destruct a.
    + done.
    + split; [|by destruct o; [done|..]; rewrite Hst; apply Hadv].
      intros j0 Hj0. destruct (journal r) as [j|] eqn:Ej; [|congruence].
      destruct Hjr as (j' & io & Hj' & Ha). rewrite Hj' in Hj0. simplify_eq.
      by destruct (log_append_law _ _ _ _ _ _ (Hj _ eq_refl) Ha) as (? & _ & ?).
Qed.

(** C1. Acknowledged changes survive a restart: take any history of commits,
    checkpoints, degradations and journal failures (explicit reconciliation
    apart), and any moment at which the room held a durable record.  From then on,
    the record a restart would recover contains every change of the durable
    snapshot of that moment. *)
Theorem acknowledged_changes_survive_restart (r0 : room) ops1 ops2 j :
  journal_covers r0 -> Forall good_op (ops1 ++ ops2) ->
  let r1 := run ops1 r0 in
  let r2 := run ops2 r1 in
  has_durable_record (state r1) = true -> journal r2 = Some j ->
  exists rc, log_latest j = Some rc /\
    covers (durable_snapshot (state r1)) (automerge_snapshot rc).
Proof.
  intros Hc Hops r1 r2 Hr Hj. apply Forall_app in Hops as [Ho1 Ho2].
  destruct (drun_journal_covers SCHEMA_VERSION error_string ops1 r0 Ho1 Hc) as [Hc1 _].
  destruct (drun_journal_covers SCHEMA_VERSION error_string ops2 r1 Ho2 Hc1) as [Hc2 Hk].
  destruct (Hk Hr) as [Hr2 Hcov]. destruct (Hc2 j Hj) as [_ Hl].
  destruct (Hl Hr2) as (rc & Hlat & Hcov2). exists rc. split; [done|].
  by transitivity (durable_snapshot (state r2)).
Qed.

(** The file never claims more than the journal holds: in any history of a
    new room without reconciliation, every change hash the manifest records as
    exported to the notebook file, or as about to be, belongs to the durable
    snapshot. *)
Theorem exports_stay_durable (j : J) id p fp g genesis ops d :
  Forall (fun o => extends_history o = true) ops ->
  let r := run ops (journaled SCHEMA_VERSION j id p fp g genesis) in
  am_load (durable_snapshot (state r)) = Ok d ->
  Forall (known d) (checkpoint_heads (ds_manifest (state r))).
Proof.
  intros Hops r. cut (exports_durable (state r)); [by intros [_ He]; apply He|]. subst r.
  assert (exports_durable (state (journaled SCHEMA_VERSION j id p fp g genesis))) as Hr
    by (split; [done|]; intros d' _; by constructor).
  revert Hr. generalize (journaled SCHEMA_VERSION j id p fp g genesis).
  induction Hops as [|o ops Ho Hops IH]; intros r Hr; [done|].
  apply IH. by apply dstep_exports.
Qed.

(** Appending the record of [st] decides the call: with the append it succeeds and [st]
    is the state; without it the error is that of the journal, the room is degraded and
    keeps its manifest and snapshot. *)
Definition decided_by_append (io : log_io) (st : DurabilityState) (r : room)
    (out : room * result RoomDurabilityError DurableCommitOutcome) : Prop :=
  match (fun j => log_append io (ds_manifest st) (durable_snapshot st) j) <$> journal r with
  | Some (j, Ok _) => state out.1 = st /\ journal out.1 = Some j /\ out.2 = Ok (Committed (status_from_state st))
  | Some (j, Err e) =>
      out.2 = Err (JournalFailed e) /\ journal out.1 = Some j /\ is_Some (degraded (state out.1)) /\
      ds_manifest (state out.1) = ds_manifest (state r) /\ durable_snapshot (state out.1) = durable_snapshot (state r)
  | None => state out.1 = st /\ out.2 = Ok (Committed (status_from_state st))
  end.

Lemma commit_state_decided io st (r : room) : decided_by_append io st r (commit_state error_string io st r).
Proof.
  unfold decided_by_append, commit_state. destruct (journal r) as [j|]; [|done]. cbn.
  by destruct (log_append io _ _ j) as [j' [[]|e]].
Qed.

(** What the intent commits to, field by field. *)
Definition checkpoint_committed (p : PendingFileCheckpoint) (m0 m : RecoveryManifest) : Prop :=
  manifest_source_fingerprint m = pfc_file_fingerprint p /\ pending_file_checkpoint m = None /\
  canonical_path m = Some (pfc_canonical_path p) /\ exported_heads m = pfc_exported_heads p /\
  file_save_sequence m = Some (pfc_save_sequence p) /\ sequence m = sequence m0 + 2 /\
  source_generation m = default (source_generation m0) (pfc_source_generation p) /\
  durable_heads m = durable_heads m0 /\ notebook_id m = notebook_id m0.

Lemma next_sequence_fits m : sequence m + 1 <= u64_max -> next_sequence m = Ok (set_sequence (sequence m + 1) m).
Proof. intros ?. unfold next_sequence, checked_add_u64. by rewrite decide_True. Qed.

(** C5. Crash matrix of a file checkpoint: when a checkpoint intent was committed and the
    process restarts from that record, resolving it against the file on disk does exactly
    one of three things, by the file alone.
    - The file has the intended bytes: the resolution appends exactly the manifest that
      committing the checkpoint without a crash appends, which names the new file, its
      heads and its save sequence and has no intent left.
    - The file still has the previous bytes: it appends the manifest with which the room
      would have restarted had the checkpoint been aborted before the crash.
    - Any other file: a source conflict and an unchanged room.
    In the first two cases it succeeds whenever the journal takes the record, and otherwise
    reports the journal's error and degrades the room with its state kept. *)
Theorem checkpoint_crash_matrix io io1 io2 (r prepared : room) p s corrupt j tail current :
  degraded (state r) = None -> sequence (ds_manifest (state r)) + 2 <= u64_max ->
  prepare_file_checkpoint error_string io p r = (prepared, Ok (Committed s)) ->
  match tail with Some t => is_repairable_torn_suffix t = true | None => True end ->
  let restart m t := recovered corrupt j (mkRecovered (committed_record m (durable_snapshot (state prepared))) t) in
  let restarted := restart (ds_manifest (state prepared)) tail in
  let record m := mkDState m (durable_snapshot (state r)) true None in
  let old := manifest_source_fingerprint (ds_manifest (state r)) in
  let resolution := resolve_recovered_file_checkpoint error_string io1 current restarted in
  exists committed aborted,
    checkpoint_committed p (ds_manifest (state r)) committed /\
    decided_by_append io2 (record committed) prepared
      (commit_file_checkpoint_with_generation error_string io2 p prepared) /\
    manifest_source_fingerprint aborted = old /\ pending_file_checkpoint aborted = None /\
    decided_by_append io2 (record aborted) prepared
      (abort_file_checkpoint error_string io2 (pfc_save_sequence p) prepared) /\
    (current = pfc_file_fingerprint p -> decided_by_append io1 (record committed) restarted resolution) /\
    (current <> pfc_file_fingerprint p -> current = old ->
       decided_by_append io1 (record (ds_manifest (state (restart aborted None)))) restarted resolution) /\
    (current <> pfc_file_fingerprint p -> current <> old ->
       resolution = (restarted, Err (DivergedSource old current))).
Proof.
  intros Hd Hseq Hprep Htail restart restarted record old resolution.
  destruct (prepared_state io p r prepared s Hprep) as (Hacc & Hst & Hnone & Hcont).
  rewrite Hd in Hst. set (m0 := ds_manifest (state r)) in *.
  set (m := set_pending_file_checkpoint (Some p) (set_sequence (sequence m0 + 1) m0)) in *.
  assert (state restarted = mkDState m (durable_snapshot (state r)) true None /\ accepting_commits restarted = true)
    as [Hrs Hra].
  { subst restarted restart. unfold recovered. rewrite Hst. simpl.
    destruct tail as [t|]; simpl; [rewrite Htail|]; unfold promote_unless_degraded,
      promote_full_coverage_checkpoint_baseline; by rewrite decide_False by naive_solver. }
  set (full := apply_mutation_to_manifest (FileCheckpoint p) m).
  set (none := set_pending_file_checkpoint None m).
  assert (forall m', sequence m' = sequence m -> next_sequence (promote_full_coverage_checkpoint_baseline m') =
    Ok (set_sequence (sequence m0 + 2) (promote_full_coverage_checkpoint_baseline m'))) as Hnext.
  { intros m' Hm'. destruct (promote_same m') as (Hs' & _). rewrite next_sequence_fits.
    - rewrite Hs', Hm'. cbn. do 2 f_equal. lia.
    - rewrite Hs', Hm'. cbn. lia. }
  exists (set_sequence (sequence m0 + 2) (promote_full_coverage_checkpoint_baseline full)),
    (set_sequence (sequence m0 + 2) none).
  assert (sequence full = sequence m) as Hsf by (subst full; cbn; by destruct (pfc_source_generation p)).
  split_and!; [| |done|done| |intros Hc|intros Hc Ho|intros Hc Ho].
  - subst full. unfold promote_full_coverage_checkpoint_baseline, checkpoint_committed.
    case_decide; cbn; destruct (pfc_source_generation p); by split_and!.
  - unfold commit_file_checkpoint_with_generation, ensure_accepting_commits.
    rewrite Hacc, Hst. cbv beta iota. cbn [ds_manifest durable_snapshot degraded has_durable_record].
    rewrite Hcont. cbn [negb]. change (pending_file_checkpoint m) with (Some p).
    rewrite decide_False by naive_solver.
    assert (mutation_is_already_reflected m (FileCheckpoint p) = false) as ->
      by (apply bool_decide_eq_false; by intros (_ & _ & _ & _ & _ & ?)).
    cbn [andb promote_unless_degraded]. fold full. rewrite Hnext by done. apply commit_state_decided.
  - unfold abort_file_checkpoint, ensure_accepting_commits. rewrite Hacc, Hst. cbv beta iota.
    cbn [ds_manifest]. change (pending_file_checkpoint m) with (Some p). cbv beta iota. rewrite decide_True by done.
    rewrite next_sequence_fits by (cbn; lia). cbv beta iota.
    replace (with_manifest _ _) with (record (set_sequence (sequence m0 + 2) none)); [apply commit_state_decided|].
    unfold record, with_manifest. cbn. f_equal. replace (sequence m0 + 1 + 1) with (sequence m0 + 2) by lia. done.
  - subst resolution. unfold resolve_recovered_file_checkpoint, ensure_accepting_commits. rewrite Hra, Hrs.
    cbv beta iota. cbn [ds_manifest durable_snapshot degraded]. change (pending_file_checkpoint m) with (Some p).
    cbv beta iota. rewrite decide_True by done. cbv beta iota. cbn [promote_unless_degraded]. fold full.
    rewrite Hnext by done. apply commit_state_decided.
  - subst resolution. unfold resolve_recovered_file_checkpoint, ensure_accepting_commits. rewrite Hra, Hrs.
    cbv beta iota. cbn [ds_manifest durable_snapshot degraded]. change (pending_file_checkpoint m) with (Some p).
    cbv beta iota. rewrite decide_False, decide_True by done. cbv beta iota. cbn [promote_unless_degraded]. fold none.
    rewrite Hnext by done. cbv beta iota.
    replace (ds_manifest (state (restart _ None)))
      with (set_sequence (sequence m0 + 2) (promote_full_coverage_checkpoint_baseline none)); [apply commit_state_decided|].
    subst restart. unfold recovered. cbn [recovered_ignored_tail promote_unless_degraded]. cbn. by rewrite promote_set_sequence.
  - subst resolution. unfold resolve_recovered_file_checkpoint, ensure_accepting_commits. rewrite Hra, Hrs.
    cbv beta iota. cbn [ds_manifest durable_snapshot degraded]. change (pending_file_checkpoint m) with (Some p).
    cbv beta iota. by rewrite !decide_False.
Qed.

(** A frozen room commits nothing: after [freeze_commits] every commit is
    refused with [ShutdownInProgress] and leaves the coordinator and its journal
    untouched, until the room is thawed. *)
Theorem frozen_room_refuses o (r : room) :
  accepting_commits r = false ->
  match o with
  | DMark _ _ | DClear | DFreeze | DThaw => True
  | _ => step o r = (r, AckRefused ShutdownInProgress)
  end.
Proof.
  intros Hf. destruct o; try done; unfold dstep, promote_to_journal, commit_snapshot,
    commit_staged_source, commit_source_ready, prepare_file_checkpoint, abort_file_checkpoint,
    resolve_recovered_file_checkpoint, commit_file_checkpoint_with_generation,
    archive_and_commit_reconciled_source, commit_peer_changes,
    commit_external_source_revision, ensure_accepting_commits; by rewrite Hf.
Qed.

(** Observers see the current state: after any operation on a room whose
    published status is current, the published status is the one of the room's
    manifest, record flag and degradation. *)
Theorem published_status_current (j : J) id p fp g genesis ops :
  let r := run ops (journaled SCHEMA_VERSION j id p fp g genesis) in
  status_tx r = status_from_state (state r).
Proof.
  intros r. subst r.
  assert (status_tx (journaled SCHEMA_VERSION j id p fp g genesis) =
    status_from_state (state (journaled SCHEMA_VERSION j id p fp g genesis))) as Hr by done.
  revert Hr. generalize (journaled SCHEMA_VERSION j id p fp g genesis).
  induction ops as [|o ops IH]; intros r Hr; [done|]. apply IH. by apply dstep_status.
Qed.

(** Admitted peer changes are durable when acknowledged: after
    [commit_peer_changes] is acknowledged, each change of the batch whose
    dependencies are in the durable snapshot is in the durable snapshot itself. *)
Theorem peer_changes_durable io cs (r : room) s d c :
  let r' := fst (commit_peer_changes error_string io cs r) in
  snd (commit_peer_changes error_string io cs r) = Ok (Committed s) ->
  am_load (durable_snapshot (state r')) = Ok d -> c ∈ cs ->
  (forall h, h ∈ am_deps c -> known d h) -> known d (am_change_hash c).
Proof.
  unfold commit_peer_changes, ensure_accepting_commits.
  destruct (accepting_commits r); [|done]. cbv beta iota.
  destruct cs as [|c0 cs0]; [done|]. set (cs := c0 :: cs0). clearbody cs. clear c0 cs0.
  destruct (load_snapshot _) as [dur|] eqn:Hd; [|done].
  destruct (apply_retained_change_batch dur cs) as [[dur' hs]|] eqn:Ha; [|done].
  case_decide; [done|]. case_decide; [done|].
  destruct (next_sequence _) as [m|]; [|done]. intros Hok Hload Hc Hdeps.
  rewrite (commit_state_Ok _ _ _ _ _ (surjective_pairing _)) in Hload by (by rewrite Hok).
  cbn [durable_snapshot] in Hload. destruct (am_load_save dur') as (d2 & Hd2 & Hk & _).
  rewrite Hd2 in Hload. injection Hload as <-. apply Hk.
  eapply apply_retained_applies; [done..|]. intros h Hh. apply Hk. auto.
Qed.

(** A foreign edit of the file never overwrites unexported work: while the
    room holds durable changes that were not exported, an external revision with
    other bytes than the journal's source is refused as a conflict and nothing
    changes. *)
Theorem external_revision_guard io cs observed p n (r : room) :
  accepting_commits r = true -> has_durable_record (state r) = true ->
  durable_heads (ds_manifest (state r)) <> exported_heads (ds_manifest (state r)) ->
  manifest_source_fingerprint (ds_manifest (state r)) <> observed ->
  commit_external_source_revision error_string io cs observed p n r =
    (r, Err (DivergedSource (manifest_source_fingerprint (ds_manifest (state r))) observed)).
Proof.
  intros Ha Hr Hh Hf. unfold commit_external_source_revision, ensure_accepting_commits.
  rewrite Ha. by rewrite decide_True.
Qed.

(** A durability barrier is truthful: [await_durable] succeeds only with a
    status and snapshot that were really observed, in which the room had a durable
    record, the durability boundary had not failed, and the snapshot contained
    every required change. *)
Theorem await_durable_truthful parse_head required observed st :
  await_durable parse_head required observed = Ok st ->
  exists heads snapshot, parse_heads parse_head required = Ok heads /\
    (st, snapshot) ∈ observed /\ st_has_durable_record st = true /\
    requires_durability_repair st = false /\
    forall d, am_load snapshot = Ok d -> Forall (known d) heads.
Proof.
  unfold await_durable. destruct (parse_heads parse_head required) as [heads|]; [|done].
  intros Hw. exists heads. induction observed as [|[s snap] later IH]; [done|]. simpl in Hw.
  assert (await_observed heads later = Ok st ->
    exists snapshot, Ok heads = @Ok RoomDurabilityError _ heads /\ (st, snapshot) ∈ (s, snap) :: later /\
      st_has_durable_record st = true /\ requires_durability_repair st = false /\
      forall d, am_load snapshot = Ok d -> Forall (known d) heads) as Hlater.
  { intros Hl. destruct (IH Hl) as (sn & _ & Hin & Hrest). exists sn. split; [done|].
    split; [set_solver|done]. }
  assert (requires_durability_repair s = false ->
    (if st_has_durable_record s then
       let? contained := snapshot_contains_heads snap heads in
       if (contained : bool) then Ok s else await_observed heads later
     else await_observed heads later) = Ok st ->
    exists snapshot, Ok heads = @Ok RoomDurabilityError _ heads /\ (st, snapshot) ∈ (s, snap) :: later /\
      st_has_durable_record st = true /\ requires_durability_repair st = false /\
      forall d, am_load snapshot = Ok d -> Forall (known d) heads) as Hnow.
  { intros Hrep Hif. destruct (st_has_durable_record s) eqn:Hrec; [|by apply Hlater].
    destruct (snapshot_contains_heads snap heads) as [[]|] eqn:Hc; [|by apply Hlater|done].
    injection Hif as <-. exists snap. split_and!; try done; [set_solver|].
    by apply snapshot_contains_heads_true. }
  unfold requires_durability_repair in Hnow at 1.
  destruct (st_degraded s) as [[[] rsn]|]; [done|by apply Hnow..].
Qed.
End DurabilityClaims.

(** ** Witnesses *)

Module DurabilityExamples.
Import PlainHex PlainCodec PlainAutomerge JournalExamples.

Definition err_text (_ : RecoveryJournalError) : string := "journal".
Definition h1 : change_hash := [Byte.x01].
Definition h2 : change_hash := [Byte.x02].
Definition fpA : SourceFingerprint := mkFingerprint [Byte.x0a].
Definition fpB : SourceFingerprint := mkFingerprint [Byte.x0b].
Abbreviation droom := (RoomDurability RecoveryJournal).

Definition genesis : bytes := am_save ([] : doc).
Definition saved1 : bytes := am_save ([h1] : doc).
Definition room0 : droom := journaled 3 empty "nb" (Some "/a.ipynb") fpA 0 genesis.
Definition peer1 : @dop _ RecoveryJournal _ := DPeer io_ok [h1].
Definition peer2_torn : @dop _ RecoveryJournal _ := DPeer io_torn [h2].
Definition room1 : droom := fst (dstep 3 err_text peer1 room0).
Definition c1 : @am_change plain_automerge := h1.
Definition c2 : @am_change plain_automerge := h2.
Definition d1 : @am_doc plain_automerge := [h1].
Definition lio_ok : @log_io RecoveryJournal journal_log := io_ok.
Definition checkpoint1 : PendingFileCheckpoint := mkPending "/a.ipynb" fpB [h1] 1 None.
Definition prepare_op : @dop _ RecoveryJournal _ := DPrepare io_ok checkpoint1.
Definition prepare1 := prepare_file_checkpoint err_text io_ok checkpoint1 room1.

Lemma room0_covers : journal_covers room0.
Proof. intros j [= <-]. split; [apply empty_honest|]. discriminate. Qed.

Lemma commit_acknowledgement_witness :
  snd (dstep 3 err_text peer1 room0) = AckCommitted /\
  let '(r', a) := dstep 3 err_text peer1 room0 in
  match a with
  | AckCommitted =>
      (forall j', journal r' = Some j' -> log_ok j' /\
         log_latest j' = Some (committed_record (ds_manifest (state r'))
           (durable_snapshot (state r')))) /\
      sequence (ds_manifest (state r')) = sequence (ds_manifest (state room0)) + 1
  | _ =>
      ds_manifest (state r') = ds_manifest (state room0) /\
      durable_snapshot (state r') = durable_snapshot (state room0) /\
      has_durable_record (state r') = has_durable_record (state room0)
  end.
Proof.
  split; [vm_compute; reflexivity|].
  apply (commit_acknowledgement 3 err_text peer1 room0); [|exact I].
  intros j Hj. injection Hj as <-. apply empty_honest.
Defined.

Definition after_torn : RecoveryJournal :=
  default empty (journal (drun 3 err_text [peer2_torn] (drun 3 err_text [peer1] room0))).

Lemma acknowledged_changes_survive_restart_witness :
  exists rc, log_latest after_torn = Some rc /\
    covers (durable_snapshot (state (drun 3 err_text [peer1] room0))) (automerge_snapshot rc).
Proof.
  assert (Forall good_op ([peer1] ++ [peer2_torn])) as Hops by (repeat constructor).
  assert (has_durable_record (state (drun 3 err_text [peer1] room0)) = true) as Hr
    by (vm_compute; reflexivity).
  assert (journal (drun 3 err_text [peer2_torn] (drun 3 err_text [peer1] room0)) = Some after_torn)
    as Hj by (vm_compute; reflexivity).
  exact (acknowledged_changes_survive_restart 3 err_text room0 [peer1] [peer2_torn] after_torn
    room0_covers Hops Hr Hj).
Defined.

Lemma exports_stay_durable_witness :
  Forall (known [h1]) (checkpoint_heads (ds_manifest (state
    (drun 3 err_text [peer1; prepare_op] room0)))).
Proof.
  apply (exports_stay_durable 3 err_text empty "nb" (Some "/a.ipynb") fpA 0 genesis
    [peer1; prepare_op]).
  - repeat constructor.
  - vm_compute. reflexivity.
Defined.

(** The same intent on the three files: the new one, the old one and a foreign one. *)
Definition restarted1 (m : RecoveryManifest) : RoomDurability RecoveryJournal :=
  recovered (fun _ => "corrupt") one (mkRecovered
    (committed_record m (durable_snapshot (state (fst prepare1)))) None).
Definition after_restart (current : SourceFingerprint) :=
  resolve_recovered_file_checkpoint err_text lio_ok current (restarted1 (ds_manifest (state (fst prepare1)))).
Definition record1 (m : RecoveryManifest) : DurabilityState := mkDState m (durable_snapshot (state room1)) true None.

Lemma checkpoint_crash_matrix_witness :
  let before := restarted1 (ds_manifest (state (fst prepare1))) in
  (exists m, checkpoint_committed checkpoint1 (ds_manifest (state room1)) m /\
     decided_by_append lio_ok (record1 m) before (after_restart (pfc_file_fingerprint checkpoint1))) /\
  is_ok (snd (after_restart (pfc_file_fingerprint checkpoint1))) = true /\
  (exists m, pending_file_checkpoint m = None /\ manifest_source_fingerprint m = fpA /\
     decided_by_append lio_ok (record1 (ds_manifest (state (restarted1 m)))) before (after_restart fpA)) /\
  is_ok (snd (after_restart fpA)) = true /\
  after_restart (mkFingerprint []) = (before, Err (DivergedSource fpA (mkFingerprint []))).
Proof.
  pose proof (fun current => checkpoint_crash_matrix err_text lio_ok lio_ok lio_ok room1 (fst prepare1) checkpoint1
    (status_from_state (state (fst prepare1))) (fun _ => "corrupt") one None current eq_refl
    ltac:(apply Z.leb_le; vm_compute; reflexivity) ltac:(vm_compute; reflexivity) I) as H.
  split_and!; [|vm_compute; reflexivity| |vm_compute; reflexivity|].
  - destruct (H (pfc_file_fingerprint checkpoint1)) as (m & _ & Hm & _ & _ & _ & _ & H1 & _).
    exists m. split; [exact Hm|]. exact (H1 eq_refl).
  - destruct (H fpA) as (_ & m & _ & _ & Ho & Hn & _ & _ & H2 & _).
    exists m. split; [exact Hn|]. split; [exact Ho|]. apply H2; [discriminate|reflexivity].
  - destruct (H (mkFingerprint [])) as (_ & m & _ & _ & _ & _ & _ & _ & _ & H3).
    apply H3; discriminate.
Defined.

Lemma frozen_room_refuses_witness :
  dstep 3 err_text peer1 (freeze_commits room0) =
    (freeze_commits room0, AckRefused ShutdownInProgress).
Proof. exact (frozen_room_refuses 3 err_text peer1 (freeze_commits room0) eq_refl). Defined.

Lemma published_status_current_witness :
  status_tx (drun 3 err_text [peer1] room0) =
    status_from_state (state (drun 3 err_text [peer1] room0)).
Proof.
  exact (published_status_current 3 err_text empty "nb" (Some "/a.ipynb") fpA 0 genesis
    [peer1]).
Defined.

Lemma peer_changes_durable_witness : known d1 h1.
Proof.
  apply (peer_changes_durable err_text lio_ok [c1] room0 (status_from_state (state room1)) d1 c1).
  - vm_compute. reflexivity.
  - vm_compute. reflexivity.
  - by left.
  - intros h Hh. by apply elem_of_nil in Hh.
Defined.

Lemma external_revision_guard_witness :
  commit_external_source_revision err_text lio_ok [c2] fpB "/a.ipynb" 1 room1 =
    (room1, Err (DivergedSource fpA fpB)).
Proof.
  apply (external_revision_guard err_text lio_ok [c2] fpB "/a.ipynb" 1 room1);
    [vm_compute; reflexivity..|vm_compute; discriminate|vm_compute; discriminate].
Defined.

Lemma await_durable_truthful_witness :
  exists heads snapshot, parse_heads (fun _ => Ok h1) ["01"] = Ok heads /\
    (status_tx room1, snapshot) ∈ [(status_tx room0, genesis); (status_tx room1, saved1)] /\
    st_has_durable_record (status_tx room1) = true /\
    requires_durability_repair (status_tx room1) = false /\
    forall d, am_load snapshot = Ok d -> Forall (known d) heads.
Proof.
  apply (await_durable_truthful (fun _ => Ok h1) ["01"]
    [(status_tx room0, genesis); (status_tx room1, saved1)] (status_tx room1)).
  vm_compute. reflexivity.
Defined.
End DurabilityExamples.
