(* ===== verification/FileCheckpoint.v ===== *)
(** * Causal file checkpoints

    Model of [crates/runtimed/src/notebook_sync_server/file_checkpoint.rs].  A
    save reserves a sequence, writes and flushes a temporary file without the
    coordinator lock, and then, under the lock, checks its sequence again,
    journals an intent, replaces the file and publishes the checkpoint.  The two
    halves of [complete_with_callbacks] are separate functions here, because other
    saves, restores and external edits of the file run between them.

    The state is the coordinator's [CheckpointState] with the notebook files on
    disk and a log of the callbacks and replacements.  The three journal callbacks
    of a save act on a state of their own, whatever the caller makes them do.
    Temporary files are not part of the state: they have unique names and are
    never read. *)

From S2P Require Import Prelude Manifest JournalFormat Automerge Journal.

(** ** Data *)

Record FileCheckpointTarget := mkTarget {
  tg_path : string;
  tg_exported_heads : list change_hash;
  tg_file_fingerprint : SourceFingerprint;
  expected_existing_fingerprint : option SourceFingerprint;
}.

Record FileCheckpoint := mkCheckpoint {
  cp_path : string;
  cp_exported_heads : list change_hash;
  cp_file_fingerprint : SourceFingerprint;
  save_sequence : Z;
  saved_at : Z;
}.

#[export] Instance FileCheckpoint_eq_dec : EqDecision FileCheckpoint.
Proof. solve_decision. Defined.

Record FileCheckpointPreparation := mkPreparation {
  pr_path : string;
  pr_exported_heads : list change_hash;
  pr_file_fingerprint : SourceFingerprint;
  pr_save_sequence : Z;
}.

Inductive SaveIoStage := CreateTemp | WriteTemp | FlushTemp | Replace.

Inductive SaveBlockedReason :=
| SaveSequenceExhausted
| ContentFingerprintMismatch (declared actual : SourceFingerprint)
| ExistingContentChanged (expected : SourceFingerprint) (actual : option SourceFingerprint)
| Superseded (latest_sequence : Z)
| SaveIoFailed (stage : SaveIoStage) (message : string)
| CommitFailed (message : string).

Inductive SaveOutcome :=
| Saved (checkpoint : FileCheckpoint)
| AlreadyCurrent (checkpoint : FileCheckpoint) (claim_sequence : Z)
| Blocked (save_sequence : option Z) (reason : SaveBlockedReason).

Record SaveClaim := mkClaim {
  claim_sequence : Z;
  target : FileCheckpointTarget;
  already_current : option FileCheckpoint;
}.

Record CheckpointState := mkCheckpointState {
  latest_reserved_sequence : Z;
  latest_barrier_sequence : Z;
  checkpoint : option FileCheckpoint;
}.

(** The journal callbacks of a save, in the order they were called. *)
Inductive CheckpointEvent :=
| EvPrepare (p : FileCheckpointPreparation)
| EvAbort (p : FileCheckpointPreparation)
| EvCommit (c : FileCheckpoint)
| EvReplaced (sequence : Z).

Record Coordinator := mkCoordinator {
  cstate : CheckpointState;
  disk : gmap string bytes;
  events : list CheckpointEvent;
}.

Definition with_cstate (s : CheckpointState) (c : Coordinator) : Coordinator :=
  mkCoordinator s (disk c) (events c).
Definition log (e : CheckpointEvent) (c : Coordinator) : Coordinator :=
  mkCoordinator (cstate c) (disk c) (events c ++ [e]).

(** The results of the system calls of one save; [None] is success. *)
Record SaveIo := mkSaveIo {
  sv_read_target : option string;
  sv_create : option string;
  sv_write : option string;
  sv_flush : option string;
  sv_read_target_locked : option string;
  sv_replace : ReplaceOutcome;
  sv_now : Z;
}.

(** The journal callbacks of a save, on the caller's state. *)
Record Callbacks (S : Type) := mkCallbacks {
  cb_prepare : FileCheckpointPreparation -> S -> S * result string ();
  cb_abort : FileCheckpointPreparation -> S -> S * result string ();
  cb_commit : FileCheckpoint -> S -> S * result string ();
}.
Arguments mkCallbacks {S} _ _ _.
Arguments cb_prepare {S} _ _ _.
Arguments cb_abort {S} _ _ _.
Arguments cb_commit {S} _ _ _.

(** ** Operations *)

(** [FileCheckpointTarget::matches_checkpoint]. *)
Definition matches_checkpoint (t : FileCheckpointTarget) (c : FileCheckpoint) : bool :=
  bool_decide (tg_path t = cp_path c /\ tg_exported_heads t = cp_exported_heads c /\
               tg_file_fingerprint t = cp_file_fingerprint c).

(** [FileCheckpointCoordinator::new]. *)
Definition coordinator_new (initial : option FileCheckpoint) : CheckpointState :=
  let n := default 0 (save_sequence <$> initial) in
  mkCheckpointState n n initial.

(** [reserve]. *)
Definition reserve (s : CheckpointState) : CheckpointState * option Z :=
  match checked_add_u64 (latest_reserved_sequence s) 1 with
  | None => (s, None)
  | Some n =>
      (mkCheckpointState n (latest_barrier_sequence s) (checkpoint s), Some n)
  end.

(** [bind]. *)
Definition bind (sequence : Z) (t : FileCheckpointTarget) (s : CheckpointState) : SaveClaim :=
  mkClaim sequence t
    (c ← checkpoint s; if matches_checkpoint t c then Some c else None).

(** [restore]. *)
Definition restore (c : FileCheckpoint) (s : CheckpointState) : CheckpointState :=
  match checkpoint s with
  | Some current =>
      if decide (save_sequence current > save_sequence c) then s
      else mkCheckpointState (Z.max (latest_reserved_sequence s) (save_sequence c))
             (Z.max (latest_barrier_sequence s) (save_sequence c)) (Some c)
  | None =>
      mkCheckpointState (Z.max (latest_reserved_sequence s) (save_sequence c))
        (Z.max (latest_barrier_sequence s) (save_sequence c)) (Some c)
  end.

(** [commit_existing_with]; [commit] is the outcome of the journal callback. *)
Definition commit_existing_with (sequence : Z) (c : FileCheckpoint) (commit : option string)
    (s : CheckpointState) : CheckpointState * result SaveBlockedReason () :=
  if decide (latest_barrier_sequence s > sequence) then
    (s, Err (Superseded (latest_barrier_sequence s)))
  else match commit with
       | Some message => (s, Err (CommitFailed message))
       | None =>
           (mkCheckpointState (latest_reserved_sequence s) sequence (Some c), Ok ())
       end.

Section Saving.
Context `{Sha256}.

(** [CheckpointIo::target_fingerprint]. *)
Definition target_fingerprint (err : option string) (p : string) (d : gmap string bytes)
    : result string (option SourceFingerprint) :=
  match err with
  | Some e => Err e
  | None => Ok (source_fingerprint <$> d !! p)
  end.

Definition blocked_io (sequence : Z) (stage : SaveIoStage) (e : string) : SaveOutcome :=
  Blocked (Some sequence) (SaveIoFailed stage e).

(** [verify_expected_existing]. *)
Definition verify_expected_existing (err : option string) (c : SaveClaim)
    (d : gmap string bytes) : result SaveOutcome () :=
  match expected_existing_fingerprint (target c) with
  | None => Ok ()
  | Some expected =>
      match target_fingerprint err (tg_path (target c)) d with
      | Err e => Err (blocked_io (claim_sequence c) Replace e)
      | Ok actual =>
          if decide (actual = Some expected) then Ok ()
          else Err (Blocked (Some (claim_sequence c)) (ExistingContentChanged expected actual))
      end
  end.

(** [complete_with_callbacks] up to the flushed temporary file: [Ok] when the
    save goes on to its locked half. *)
Definition begin_save (io : SaveIo) (c : SaveClaim) (content : bytes) (k : Coordinator)
    : Coordinator * result SaveOutcome () :=
  let s := cstate k in
  let actual := source_fingerprint content in
  if decide (actual <> tg_file_fingerprint (target c)) then
    (k, Err (Blocked (Some (claim_sequence c))
          (ContentFingerprintMismatch (tg_file_fingerprint (target c)) actual)))
  else match verify_expected_existing (sv_read_target io) c (disk k) with
  | Err o => (k, Err o)
  | Ok _ =>
      let write_temp :=
        match sv_create io, sv_write io, sv_flush io with
        | Some e, _, _ => (k, Err (blocked_io (claim_sequence c) CreateTemp e))
        | _, Some e, _ => (k, Err (blocked_io (claim_sequence c) WriteTemp e))
        | _, _, Some e => (k, Err (blocked_io (claim_sequence c) FlushTemp e))
        | None, None, None => (k, Ok ())
        end in
      match already_current c with
      | Some current =>
          if decide (latest_barrier_sequence s > claim_sequence c) then
            (k, Err (Blocked (Some (claim_sequence c)) (Superseded (latest_barrier_sequence s))))
          else if decide (checkpoint s = Some current /\
                          matches_checkpoint (target c) current = true) then
            (with_cstate (mkCheckpointState (latest_reserved_sequence s) (claim_sequence c)
               (checkpoint s)) k, Err (AlreadyCurrent current (claim_sequence c)))
          else write_temp
      | None => write_temp
      end
  end.

(** The locked half: supersession check, the expected revision again, the intent,
    the atomic replacement, the commit marker. *)
Definition finish_save {S} (cb : Callbacks S) (io : SaveIo) (c : SaveClaim) (content : bytes)
    (k : Coordinator) (x : S) : Coordinator * S * SaveOutcome :=
  let s := cstate k in
  let t := target c in
  let n := claim_sequence c in
  let barrier := mkCheckpointState (latest_reserved_sequence s) n in
  if decide (latest_barrier_sequence s > n) then
    (k, x, Blocked (Some n) (Superseded (latest_barrier_sequence s)))
  else match verify_expected_existing (sv_read_target_locked io) c (disk k) with
  | Err o => (k, x, o)
  | Ok _ =>
      let p := mkPreparation (tg_path t) (tg_exported_heads t) (tg_file_fingerprint t) n in
      let k := log (EvPrepare p) k in
      match cb_prepare cb p x with
      | (x, Err message) => (k, x, Blocked (Some n) (CommitFailed message))
      | (x, Ok _) =>
          let replaced := mkCoordinator s (<[tg_path t := content]> (disk k))
            (events k ++ [EvReplaced n]) in
          let failed k e :=
            let k := log (EvAbort p) k in
            match cb_abort cb p x with
            | (x, Err _) => (k, x, Blocked (Some n)
                (CommitFailed "file replacement failed; checkpoint intent abort failed"))
            | (x, Ok _) => (k, x, blocked_io n Replace e)
            end in
          match sv_replace io with
          | FailedBefore e => failed k e
          | FailedAfter e => failed replaced e
          | Replaced =>
              let cp := mkCheckpoint (tg_path t) (tg_exported_heads t) (tg_file_fingerprint t)
                n (sv_now io) in
              let k := log (EvCommit cp) replaced in
              match cb_commit cb cp x with
              | (x, Err message) =>
                  (with_cstate (barrier (checkpoint s)) k, x,
                   Blocked (Some n) (CommitFailed message))
              | (x, Ok _) => (with_cstate (barrier (Some cp)) k, x, Saved cp)
              end
          end
      end
  end.

(** [complete_with_callbacks] without interference. *)
Definition complete_with_callbacks {S} (cb : Callbacks S) (io : SaveIo) (c : SaveClaim)
    (content : bytes) (k : Coordinator) (x : S) : Coordinator * S * SaveOutcome :=
  match begin_save io c content k with
  | (k, Err o) => (k, x, o)
  | (k, Ok _) => finish_save cb io c content k x
  end.

(** [complete_reserved_with_durable_intent]. *)
Definition complete_reserved_with_durable_intent {S} (cb : Callbacks S) (io : SaveIo)
    (sequence : Z) (t : FileCheckpointTarget) (content : bytes) (k : Coordinator) (x : S)
    : Coordinator * S * SaveOutcome :=
  complete_with_callbacks cb io (bind sequence t (cstate k)) content k x.
End Saving.

(** ** Interleaved saves

    Reservations, bound claims and saves whose temporary file is ready are held
    by their requests while other steps run.  [allow] restricts the I/O outcomes
    of a run. *)

Record Saves := mkSaves {
  coord : Coordinator;
  reserved : list Z;
  bound : list SaveClaim;
  ready : list (SaveClaim * bytes);
}.

Section Interleaving.
Context `{Sha256}.
Variable allow : SaveIo -> Prop.

Inductive save_step : Saves -> Saves -> Prop :=
| step_reserve k rs bs ws s n :
    reserve (cstate k) = (s, Some n) ->
    save_step (mkSaves k rs bs ws) (mkSaves (with_cstate s k) (n :: rs) bs ws)
| step_bind k rs1 n rs2 bs ws t :
    save_step (mkSaves k (rs1 ++ n :: rs2) bs ws)
      (mkSaves k (rs1 ++ rs2) (bind n t (cstate k) :: bs) ws)
| step_begin io k k' rs bs1 c bs2 ws content :
    begin_save io c content k = (k', Ok ()) ->
    save_step (mkSaves k rs (bs1 ++ c :: bs2) ws)
      (mkSaves k' rs (bs1 ++ bs2) ((c, content) :: ws))
| step_begin_done io k k' o rs bs1 c bs2 ws content :
    begin_save io c content k = (k', Err o) ->
    save_step (mkSaves k rs (bs1 ++ c :: bs2) ws) (mkSaves k' rs (bs1 ++ bs2) ws)
| step_finish S (cb : Callbacks S) x x' io k k' o rs bs ws1 c content ws2 :
    allow io -> finish_save cb io c content k x = (k', x', o) ->
    save_step (mkSaves k rs bs (ws1 ++ (c, content) :: ws2)) (mkSaves k' rs bs (ws1 ++ ws2))
| step_existing k rs1 n rs2 bs ws cp commit s res :
    save_sequence cp = n ->
    commit_existing_with n cp commit (cstate k) = (s, res) ->
    save_step (mkSaves k (rs1 ++ n :: rs2) bs ws) (mkSaves (with_cstate s k) (rs1 ++ rs2) bs ws)
| step_restore k rs bs ws cp :
    save_step (mkSaves k rs bs ws) (mkSaves (with_cstate (restore cp (cstate k)) k) rs bs ws)
| step_external k rs bs ws p content :
    save_step (mkSaves k rs bs ws)
      (mkSaves (mkCoordinator (cstate k) (<[p := content]> (disk k)) (events k)) rs bs ws).

(** Sequences still held by a request. *)
Definition live (s : Saves) : list Z :=
  reserved s ++ (claim_sequence <$> bound s) ++ ((fun w => claim_sequence w.1) <$> ready s).

(** Sequences whose replacement of the file happened, in order. *)
Definition replacements (es : list CheckpointEvent) : list Z :=
  omap (fun e => match e with EvReplaced n => Some n | _ => None end) es.

Definition sequences_ok (s : Saves) : Prop :=
  let st := cstate (coord s) in
  Forall (fun n => n <= latest_reserved_sequence st) (live s) /\
  latest_barrier_sequence st <= latest_reserved_sequence st /\
  match checkpoint st with Some c => save_sequence c <= latest_barrier_sequence st | None => True end.

Definition replacements_ok (s : Saves) : Prop :=
  StronglySorted Z.le (replacements (events (coord s))) /\
  Forall (fun n => n <= latest_barrier_sequence (cstate (coord s)))
    (replacements (events (coord s))).

Lemma replacements_app es es' : replacements (es ++ es') = replacements es ++ replacements es'.
Proof. apply omap_app. Qed.

Lemma StronglySorted_snoc (l : list Z) n :
  StronglySorted Z.le l -> Forall (fun m => m <= n) l -> StronglySorted Z.le (l ++ [n]).
Proof.
  intros Hs Hf. induction Hs as [|a l Hs IH Ha]; simpl; [repeat constructor|].
  inversion_clear Hf as [|?? Han Hl]. constructor; [by apply IH|].
  apply Forall_app. split; [done|by constructor].
Qed.

(** What the first half of a save may change. *)
Lemma begin_save_spec io c content k k' r :
  begin_save io c content k = (k', r) ->
  disk k' = disk k /\ events k' = events k /\
  checkpoint (cstate k') = checkpoint (cstate k) /\
  latest_reserved_sequence (cstate k') = latest_reserved_sequence (cstate k) /\
  (latest_barrier_sequence (cstate k') = latest_barrier_sequence (cstate k) \/
   (latest_barrier_sequence (cstate k) <= claim_sequence c /\
    latest_barrier_sequence (cstate k') = claim_sequence c)) /\
  (r = Ok () -> k' = k /\ source_fingerprint content = tg_file_fingerprint (target c)).
Proof.
  unfold begin_save. intros Hb.
  case_decide as Hfp; [simplify_eq/=; split_and!; auto; discriminate|].
  destruct (verify_expected_existing _ _ _); [|simplify_eq/=; split_and!; auto; discriminate].
  destruct (already_current c);
    [case_decide; [simplify_eq/=; split_and!; auto; discriminate|]; case_decide|].
  - simplify_eq/=. split_and!; auto; try discriminate.
  - destruct (sv_create io), (sv_write io), (sv_flush io); simplify_eq/=; split_and!; auto;
      discriminate.
  - destruct (sv_create io), (sv_write io), (sv_flush io); simplify_eq/=; split_and!; auto;
      discriminate.
Qed.

(** The directory flush after the rename did not fail. *)
Definition no_late_failure (io : SaveIo) : Prop :=
  match sv_replace io with FailedAfter _ => False | _ => True end.

(** What the locked half may change. *)
Lemma finish_save_spec {S} (cb : Callbacks S) io c content k x k' x' o :
  finish_save cb io c content k x = (k', x', o) ->
  latest_reserved_sequence (cstate k') = latest_reserved_sequence (cstate k) /\
  ((cstate k' = cstate k /\
    (no_late_failure io -> replacements (events k') = replacements (events k))) \/
   (latest_barrier_sequence (cstate k) <= claim_sequence c /\
    latest_barrier_sequence (cstate k') = claim_sequence c /\
    (checkpoint (cstate k') = checkpoint (cstate k) \/
     exists cp, checkpoint (cstate k') = Some cp /\ save_sequence cp = claim_sequence c) /\
    replacements (events k') = replacements (events k) ++ [claim_sequence c])).
Proof.
  unfold finish_save, no_late_failure. intros Hf.
  case_decide; [simplify_eq/=; auto|].
  destruct (verify_expected_existing _ _ _); [|simplify_eq/=; auto].
  destruct (cb_prepare cb _ x) as [x1 [[]|e]].
  2: { simplify_eq/=. split; [done|]. left. split; [done|]. by rewrite replacements_app, app_nil_r. }
  destruct (sv_replace io) as [|e|e].
  - destruct (cb_commit cb _ x1) as [? [[]|]]; simplify_eq/=;
      (split; [done|]; right; split_and!; [lia|done| |]).
    1, 3: eauto. all: by rewrite !replacements_app; simpl; rewrite !app_nil_r.
  - destruct (cb_abort cb _ x1) as [? [[]|]]; simplify_eq/=;
      (split; [done|]; left; split; [done|]);
      by rewrite !replacements_app; simpl; rewrite !app_nil_r.
  - destruct (cb_abort cb _ x1) as [? [[]|]]; simplify_eq/=;
      (split; [done|]; left; split; [done|]); done.
Qed.

Lemma live_subset (l l' : list Z) b :
  Forall (fun n => n <= b) l -> (forall n, n ∈ l' -> n ∈ l) -> Forall (fun n => n <= b) l'.
Proof. intros Hl Hs. apply Forall_forall. intros n Hn. eapply Forall_forall in Hl; eauto. Qed.

Lemma live_bound (l : list Z) b n : Forall (fun n => n <= b) l -> n ∈ l -> n <= b.
Proof. intros Hl. revert n. by apply Forall_forall. Qed.

Lemma save_step_sequences s s' : sequences_ok s -> save_step s s' -> sequences_ok s'.
Proof.
  intros (Hl & Hb & Hc) Hs. unfold sequences_ok, live in *.
  destruct Hs as [k rs bs ws st n Hr|k rs1 n rs2 bs ws t|io k k' rs bs1 c bs2 ws content Hbg
    |io k k' o rs bs1 c bs2 ws content Hbg|S cb x x' io k k' o rs bs ws1 c content ws2 Ha Hf
    |k rs1 n rs2 bs ws cp commit st res Hn He|k rs bs ws cp|k rs bs ws p content]; simpl in *.
  - unfold reserve in Hr. destruct (checked_add_u64 _ _) as [m|] eqn:Em; simplify_eq/=.
    apply checked_add_u64_Some in Em as [-> _]. split_and!; [|lia|done].
    constructor; [lia|]. eapply Forall_impl; [exact Hl|]. simpl. lia.
  - split_and!; [|done..]. eapply live_subset; [exact Hl|]. set_solver.
  - apply begin_save_spec in Hbg as (_ & _ & _ & _ & _ & Hok). destruct (Hok eq_refl) as [-> _].
    split_and!; [|done..]. eapply live_subset; [exact Hl|].
    rewrite !fmap_app, !fmap_cons. set_solver.
  - apply begin_save_spec in Hbg as (_ & _ & Hcp & Hre & Hba & _). rewrite Hcp, Hre.
    assert (claim_sequence c <= latest_reserved_sequence (cstate k)) as Hlc.
    { apply (live_bound _ _ _ Hl). rewrite !fmap_app, !fmap_cons. set_solver. }
    split_and!.
    + eapply live_subset; [exact Hl|]. rewrite !fmap_app, !fmap_cons. set_solver.
    + destruct Hba as [-> |[_ ->]]; done.
    + destruct (checkpoint (cstate k)); [|done]. destruct Hba as [-> |[? ->]]; lia.
  - apply finish_save_spec in Hf as (Hre & Hcase). rewrite Hre.
    assert (claim_sequence c <= latest_reserved_sequence (cstate k)) as Hlc.
    { apply (live_bound _ _ _ Hl). rewrite !fmap_app, !fmap_cons. set_solver. }
    split_and!.
    + eapply live_subset; [exact Hl|]. rewrite !fmap_app, !fmap_cons. set_solver.
    + destruct Hcase as [[-> _]|(_ & -> & _)]; done.
    + destruct Hcase as [[-> _]|(Hle & -> & [-> |(cp & -> & ->)] & _)]; [done| |lia].
      destruct (checkpoint (cstate k)); [lia|done].
  - assert (n <= latest_reserved_sequence (cstate k)) as Hln.
    { apply (live_bound _ _ _ Hl). set_solver. }
    assert (latest_reserved_sequence st = latest_reserved_sequence (cstate k) /\
      (st = cstate k \/ (latest_barrier_sequence st = n /\ checkpoint st = Some cp))) as [Hre Hst].
    { unfold commit_existing_with in He. case_decide; [|destruct commit]; simplify_eq/=; auto. }
    rewrite Hre. split_and!.
    + eapply live_subset; [exact Hl|]. set_solver.
    + destruct Hst as [-> |[-> _]]; done.
    + destruct Hst as [-> |[-> ->]]; [done|]. lia.
  - unfold restore. destruct (checkpoint (cstate k)) as [cur|] eqn:Ec; [case_decide|]; simpl.
    + rewrite Ec. done.
    + split_and!; [eapply Forall_impl; [exact Hl|simpl; lia]|lia|lia].
    + split_and!; [eapply Forall_impl; [exact Hl|simpl; lia]|lia|lia].
  - done.
Qed.

Lemma replacements_barrier_mono l b b' :
  b <= b' -> Forall (fun n => n <= b) l -> Forall (fun n => n <= b') l.
Proof. intros Hb Hf. eapply Forall_impl; [exact Hf|]. simpl. lia. Qed.

Lemma save_step_replacements s s' :
  (forall io, allow io -> no_late_failure io) ->
  replacements_ok s -> save_step s s' -> replacements_ok s'.
Proof.
  intros Hallow (Hs & Hb) Hstep. unfold replacements_ok in *.
  destruct Hstep as [k rs bs ws st n Hr|k rs1 n rs2 bs ws t|io k k' rs bs1 c bs2 ws content Hbg
    |io k k' o rs bs1 c bs2 ws content Hbg|S cb x x' io k k' o rs bs ws1 c content ws2 Ha Hf
    |k rs1 n rs2 bs ws cp commit st res Hn He|k rs bs ws cp|k rs bs ws p content]; simpl in *.
  - unfold reserve in Hr. by destruct (checked_add_u64 _ _); simplify_eq/=.
  - done.
  - apply begin_save_spec in Hbg as (_ & _ & _ & _ & _ & Hok). by destruct (Hok eq_refl) as [-> _].
  - apply begin_save_spec in Hbg as (_ & -> & _ & _ & Hba & _). split; [done|].
    eapply replacements_barrier_mono; [|exact Hb]. destruct Hba as [-> |[? ->]]; lia.
  - apply finish_save_spec in Hf as (_ & [[-> He]|(Hle & -> & _ & ->)]).
    + by rewrite He by auto.
    + assert (Forall (fun n => n <= claim_sequence c) (replacements (events k))) as Hc
        by (by eapply replacements_barrier_mono).
      split; [by apply StronglySorted_snoc|]. apply Forall_app. split; [done|].
      by constructor.
  - split; [done|]. eapply replacements_barrier_mono; [|exact Hb].
    unfold commit_existing_with in He. case_decide; [|destruct commit]; simplify_eq/=; lia.
  - split; [done|]. eapply replacements_barrier_mono; [|exact Hb].
    unfold restore. destruct (checkpoint (cstate k)); [case_decide|]; simpl; lia.
  - done.
Qed.
End Interleaving.

(** ** Claims *)

Section SaveClaims.
Context `{Sha256}.

(** A coordinator at room startup, with no save in flight. *)
Definition saves_new (initial : option FileCheckpoint) (d : gmap string bytes) : Saves :=
  mkSaves (mkCoordinator (coordinator_new initial) d []) [] [] [].

(** Sequence discipline: in every interleaving of reservations, bindings,
    saves, selections of an existing file, restores and external edits, the last
    checkpoint never has a sequence above the ordering barrier, the barrier never
    passes the last reserved sequence, and every sequence still held by a request
    was reserved. *)
Theorem save_sequences_ordered allow initial d s :
  rtc (save_step allow) (saves_new initial d) s -> sequences_ok s.
Proof.
  intros Hr. assert (sequences_ok (saves_new initial d)) as H0.
  { unfold sequences_ok. simpl. split_and!; [by constructor|lia|]. destruct initial; simpl; [lia|done]. }
  revert H0. induction Hr as [|s1 s2 s3 Hs _ IH]; [done|]. intros H1. apply IH.
  by eapply save_step_sequences.
Qed.

(** C25. An older save never replaces a newer file: provided no directory flush
    fails after its rename, the atomic replacements of the notebook file happen in
    increasing sequence order in every interleaving, whatever else fails. *)
Theorem no_older_replacement initial d s :
  rtc (save_step no_late_failure) (saves_new initial d) s ->
  StronglySorted Z.le (replacements (events (coord s))) /\
  Forall (fun n => n <= latest_barrier_sequence (cstate (coord s)))
    (replacements (events (coord s))).
Proof.
  intros Hr. assert (replacements_ok (saves_new initial d)) as H0 by (by split; constructor).
  revert H0. induction Hr as [|s1 s2 s3 Hs _ IH]; [done|]. intros H1. apply IH.
  by eapply save_step_replacements.
Qed.

(** [Saved] is honest: it is reported only when the file holds exactly the
    content, its fingerprint is the declared one, the intent was journaled before
    the replacement and the commit after it, and the checkpoint and barrier are
    those of this save. *)
Theorem saved_is_honest {S} (cb : Callbacks S) io c content k x k' x' cp :
  complete_with_callbacks cb io c content k x = (k', x', Saved cp) ->
  disk k' = <[tg_path (target c) := content]> (disk k) /\
  cp_file_fingerprint cp = source_fingerprint content /\
  cp_path cp = tg_path (target c) /\ save_sequence cp = claim_sequence c /\
  checkpoint (cstate k') = Some cp /\
  latest_barrier_sequence (cstate k') = claim_sequence c /\
  latest_barrier_sequence (cstate k) <= claim_sequence c /\
  exists p, events k' = events k ++ [EvPrepare p; EvReplaced (claim_sequence c); EvCommit cp] /\
    pr_save_sequence p = claim_sequence c.
Proof.
  unfold complete_with_callbacks. destruct (begin_save io c content k) as [k1 r] eqn:Hb.
  pose proof (begin_save_spec _ _ _ _ _ _ Hb) as (_ & _ & _ & _ & _ & Hok).
  destruct r as [[]|o].
  - destruct (Hok eq_refl) as [-> Hfp]. unfold finish_save. intros Hf.
    case_decide; [done|]. destruct (verify_expected_existing _ _ _) as [|o] eqn:Hv.
    2: { simplify_eq. unfold verify_expected_existing, blocked_io in Hv. by repeat case_match. }
    destruct (cb_prepare cb _ x) as [x1 [|]]; [|done]. destruct (sv_replace io);
      [|by destruct (cb_abort cb _ x1) as [? [|]]..].
    destruct (cb_commit cb _ x1) as [? [|]]; simplify_eq/=. split_and!; try done; try lia.
    eexists. by rewrite <- !app_assoc.
  - intros [= <- <- ->]. unfold begin_save, verify_expected_existing, blocked_io in Hb.
    repeat case_match; simplify_eq/=.
Qed.

(** A save that expects a revision never destroys another: when the file on
    disk is not the revision the caller consented to replace, neither half of the
    save writes anything or journals an intent. *)
Theorem unexpected_revision_kept {S} (cb : Callbacks S) io c content k x expected :
  expected_existing_fingerprint (target c) = Some expected ->
  source_fingerprint <$> disk k !! tg_path (target c) <> Some expected ->
  (exists o, begin_save io c content k = (k, Err o)) /\
  (exists o, finish_save cb io c content k x = (k, x, o)).
Proof.
  intros He Hd.
  assert (forall err, exists o, verify_expected_existing err c (disk k) = Err o) as Hv.
  { intros err. unfold verify_expected_existing, target_fingerprint. rewrite He.
    destruct err; [eauto|]. rewrite decide_False by done. eauto. }
  split.
  - unfold begin_save. case_decide; [eauto|]. destruct (Hv (sv_read_target io)) as [o ->]. eauto.
  - unfold finish_save. case_decide; [eauto|].
    destruct (Hv (sv_read_target_locked io)) as [o ->]. eauto.
Qed.
End SaveClaims.

Module SaveExamples.
Import PlainCodec.

Definition old_text : bytes := [Byte.x01].
Definition new_text : bytes := [Byte.x02].
Definition target_of (content : bytes) : FileCheckpointTarget :=
  mkTarget "/a.ipynb" [] (source_fingerprint content) None.
Definition io_ok : SaveIo :=
  mkSaveIo None None None None None Replaced 0.
Definition io_flush_failed : SaveIo :=
  mkSaveIo None None None None None (FailedAfter "EIO") 0.
Definition accept : Callbacks () :=
  mkCallbacks (fun _ x => (x, Ok ())) (fun _ x => (x, Ok ())) (fun _ x => (x, Ok ())).

(** Two saves: the older holds sequence 1, the newer sequence 2. *)
Definition k0 : Coordinator := mkCoordinator (mkCheckpointState 2 0 None) ∅ [].
Definition older : SaveClaim := bind 1 (target_of old_text) (cstate k0).
Definition newer : SaveClaim := bind 2 (target_of new_text) (cstate k0).

(** A directory flush that fails after the rename breaks the order: the
    newer save has replaced the file, yet its intent is aborted and no barrier is
    set, so the older save that was waiting then replaces the newer file and
    reports success. *)
Theorem late_flush_failure_regresses_file :
  let '(k1, _, o1) := finish_save accept io_flush_failed newer new_text k0 () in
  let '(k2, _, o2) := finish_save accept io_ok older old_text k1 () in
  disk k1 !! "/a.ipynb" = Some new_text /\
  o1 = Blocked (Some 2) (SaveIoFailed Replace "EIO") /\
  latest_barrier_sequence (cstate k1) = 0 /\
  replacements (events k2) = [2; 1] /\
  disk k2 !! "/a.ipynb" = Some old_text /\
  exists cp, o2 = Saved cp /\ save_sequence cp = 1.
Proof. vm_compute. split_and!; try reflexivity. by eexists. Qed.

(** Save 1, reserved, bound and completed. *)
Definition s0 : Saves := saves_new None ∅.
Definition claim1 : SaveClaim := mkClaim 1 (target_of old_text) None.
Definition k1 : Coordinator := mkCoordinator (mkCheckpointState 1 0 None) ∅ [].
Definition done1 := fst (finish_save accept io_ok claim1 old_text k1 ()).

Lemma run1 allow : allow io_ok ->
  rtc (save_step allow) s0 (mkSaves (fst done1) [] [] []).
Proof.
  intros Ha.
  apply rtc_l with (mkSaves k1 [1] [] []).
  { by apply (step_reserve allow (coord s0) [] [] [] (mkCheckpointState 1 0 None) 1). }
  apply rtc_l with (mkSaves k1 [] [claim1] []).
  { apply (step_bind allow k1 [] 1 [] [] [] (target_of old_text)). }
  apply rtc_l with (mkSaves k1 [] []
    [(claim1, old_text)]).
  { apply (step_begin allow io_ok k1 k1 [] [] claim1 [] [] old_text). vm_compute. reflexivity. }
  apply rtc_once.
  apply (step_finish allow () accept () () io_ok k1 (fst done1)
    (snd (finish_save accept io_ok claim1 old_text k1 ())) [] [] [] claim1 old_text []); [done|].
  vm_compute. reflexivity.
Qed.

Lemma save_sequences_ordered_witness : sequences_ok (mkSaves (fst done1) [] [] []).
Proof.
  apply (save_sequences_ordered (fun _ => True) None ∅). apply run1. exact I.
Defined.

Lemma no_older_replacement_witness :
  replacements (events (fst done1)) = [1] /\
  StronglySorted Z.le (replacements (events (fst done1))).
Proof.
  split; [vm_compute; reflexivity|].
  apply (no_older_replacement None ∅ (mkSaves (fst done1) [] [] [])). apply run1. exact I.
Defined.

Lemma saved_is_honest_witness :
  disk (fst (fst (complete_with_callbacks accept io_ok claim1 old_text k0 ()))) =
    <["/a.ipynb" := old_text]> (disk k0).
Proof.
  apply (saved_is_honest accept io_ok claim1 old_text k0 ()
    (fst (fst (complete_with_callbacks accept io_ok claim1 old_text k0 ()))) ()
    (mkCheckpoint "/a.ipynb" [] (source_fingerprint old_text) 1 0)).
  vm_compute. reflexivity.
Defined.

Definition guarded : SaveClaim :=
  mkClaim 1 (mkTarget "/a.ipynb" [] (source_fingerprint old_text)
    (Some (source_fingerprint old_text))) None.
Definition edited : Coordinator := mkCoordinator (mkCheckpointState 1 0 None)
  {["/a.ipynb" := new_text]} [].

Lemma unexpected_revision_kept_witness :
  exists o, finish_save accept io_ok guarded old_text edited () = (edited, (), o).
Proof.
  apply (unexpected_revision_kept accept io_ok guarded old_text edited () (source_fingerprint old_text));
    [reflexivity|vm_compute; discriminate].
Defined.
End SaveExamples.
