(* ===== verification/Room.v ===== *)
(** * Saving a room, end to end

    The save path of [crates/runtimed/src/notebook_sync_server/persist.rs] that
    ties the file checkpoint coordinator, the durability coordinator and the room
    lifecycle together (the three checkpoint callbacks and
    [degrade_file_checkpoint]), and [commit_daemon_notebook_mutation] of
    [durability.rs]. *)

From S2P Require Import Prelude Manifest Lifecycle JournalFormat Automerge Journal.
From S2P Require Import Durability FileCheckpoint.

(** [FileSaveIntent]. *)
Inductive FileSaveIntent :=
| Ordinary
| Reconcile (source_generation : Z) (expected_source_fingerprint : option SourceFingerprint).

Definition intent_generation (i : FileSaveIntent) : option Z :=
  match i with Ordinary => None | Reconcile g _ => Some g end.

(** What the callbacks act on: the durability coordinator, the lifecycle and the
    source issue shown in the runtime state document. *)
Record SaveState (J : Type) := mkSaveState {
  durability : RoomDurability J;
  lifecycle : RoomLifecycle;
  file_source_issue : option string;
}.
Arguments mkSaveState {J} _ _ _.
Arguments durability {J} _.
Arguments lifecycle {J} _.
Arguments file_source_issue {J} _.

Section Room.
Context `{Automerge, HexCodec} {J : Type} `{RecoveryLog J}.
Context (error_string : RecoveryJournalError -> string)
  (durability_error_string : RoomDurabilityError -> string).

(** [checkpoint_heads_hex]. *)
Definition checkpoint_heads_hex (heads : list change_hash) : list string :=
  hex_encode <$> heads.

(** [degrade_file_checkpoint]; [shown] says whether the runtime state document
    accepted the issue, whose failure is ignored. *)
Definition degrade_file_checkpoint (shown : bool) (heads : list change_hash) (rsn : string)
    (s : SaveState J) : SaveState J :=
  mkSaveState (Durability.mark_degraded DurabilityBoundary rsn (durability s))
    (Lifecycle.mark_degraded rsn (checkpoint_heads_hex heads) true (lifecycle s))
    (if shown then Some rsn else file_source_issue s).

(** Run a durability operation; on error degrade the room and return the text. *)
Definition or_degrade (shown : bool) (heads : list change_hash) (prefix : string)
    (s : SaveState J) (x : RoomDurability J * outcome) : SaveState J * result string () :=
  let '(d, res) := x in
  let s := mkSaveState d (lifecycle s) (file_source_issue s) in
  match res with
  | Ok _ => (s, Ok ())
  | Err e =>
      let rsn := prefix +:+ durability_error_string e in
      (degrade_file_checkpoint shown heads rsn s, Err rsn)
  end.

(** [commit_file_checkpoint_for_intent]. *)
Definition commit_file_checkpoint_for_intent (shown : bool) (io : log_io)
    (intent : FileSaveIntent) (c : FileCheckpoint) (s : SaveState J)
    : SaveState J * result string () :=
  or_degrade shown (cp_exported_heads c)
    "file replacement completed but recovery journal checkpoint failed: " s
    (match intent with
     | Ordinary => commit_file_checkpoint error_string io (cp_path c) (cp_file_fingerprint c)
         (cp_exported_heads c) (save_sequence c) (durability s)
     | Reconcile g _ => commit_reconciled_file_checkpoint error_string io (cp_path c)
         (cp_file_fingerprint c) (cp_exported_heads c) (save_sequence c) g (durability s)
     end).

(** [prepare_file_checkpoint_for_intent]. *)
Definition prepare_file_checkpoint_for_intent (shown : bool) (io : log_io)
    (intent : FileSaveIntent) (p : FileCheckpointPreparation) (s : SaveState J)
    : SaveState J * result string () :=
  or_degrade shown (pr_exported_heads p)
    "recovery journal checkpoint intent failed before replacement: " s
    (prepare_file_checkpoint error_string io
       (mkPending (pr_path p) (pr_file_fingerprint p) (pr_exported_heads p)
          (pr_save_sequence p) (intent_generation intent)) (durability s)).

(** [abort_file_checkpoint_intent]. *)
Definition abort_file_checkpoint_intent (shown : bool) (io : log_io)
    (p : FileCheckpointPreparation) (s : SaveState J) : SaveState J * result string () :=
  or_degrade shown (pr_exported_heads p) "recovery journal checkpoint intent abort failed: " s
    (abort_file_checkpoint error_string io (pr_save_sequence p) (durability s)).

(** The callbacks the save passes to the checkpoint coordinator. *)
Definition save_callbacks (shown : bool) (intent : FileSaveIntent)
    (io_prepare io_abort io_commit : log_io) : Callbacks (SaveState J) :=
  mkCallbacks (prepare_file_checkpoint_for_intent shown io_prepare intent)
    (abort_file_checkpoint_intent shown io_abort)
    (commit_file_checkpoint_for_intent shown io_commit intent).

(** ** Daemon-authored mutations *)

Record DaemonRoom := mkDaemonRoom {
  dr_save : SaveState J;
  dr_doc : am_doc;
}.

(** [commit_daemon_notebook_mutation]; [load_with_actor] is
    [NotebookDoc::load_with_actor]. *)
Definition commit_daemon_notebook_mutation
    (load_with_actor : bytes -> string -> result string am_doc)
    (shown : bool) (io : log_io) (baseline_heads : list change_hash)
    (rollback_snapshot : bytes) (rollback_actor operation : string) (r : DaemonRoom)
    : DaemonRoom * result string () :=
  let s := dr_save r in
  if decide (am_heads (dr_doc r) = baseline_heads) then (r, Ok ())
  else
    let '(d, res) := commit_snapshot error_string io (am_save (dr_doc r))
      (am_heads (dr_doc r)) Daemon (durability s) in
    match res with
    | Ok _ => (mkDaemonRoom (mkSaveState d (lifecycle s) (file_source_issue s)) (dr_doc r), Ok ())
    | Err e =>
        let '(doc, readable) :=
          match load_with_actor rollback_snapshot rollback_actor with
          | Ok restored => (restored, true)
          | Err _ => (dr_doc r, false)
          end in
        let rsn := operation +:+ " journal commit failed before acknowledgement: " +:+
          durability_error_string e in
        (mkDaemonRoom
           (mkSaveState (Durability.mark_degraded DurabilityBoundary rsn d)
              (Lifecycle.mark_degraded rsn (hex_encode <$> am_heads doc) readable (lifecycle s))
              (if shown then Some rsn else file_source_issue s)) doc,
         Err rsn)
    end.
End Room.

(** ** Crash consistency of saves *)

(** A journal record accounts for a file: its fingerprint is the manifest's or
    the one of the manifest's pending checkpoint. *)
Definition accounts_for (rc : RecoveryRecord) (fp : SourceFingerprint) : Prop :=
  manifest_source_fingerprint (rec_manifest rc) = fp \/
  exists p, pending_file_checkpoint (rec_manifest rc) = Some p /\ pfc_file_fingerprint p = fp.

Section SaveLemmas.
Context `{AutomergeLaws, HexCodec, Sha256} {J : Type} `{RecoveryLogLaws J}.
Context (error_string : RecoveryJournalError -> string)
  (durability_error_string : RoomDurabilityError -> string).

(** The room's journal accounts for the file [content] at every restart. *)
Definition consistent (d : RoomDurability J) (content : bytes) : Prop :=
  exists j rc, journal d = Some j /\ log_ok j /\ log_latest j = Some rc /\
    accounts_for rc (source_fingerprint content).

(** A pass through the commit point, seen from the journal. *)
Lemma commit_state_journal io st (d d' : RoomDurability J) o j :
  commit_state error_string io st d = (d', o) -> journal d = Some j -> log_ok j ->
  exists j', journal d' = Some j' /\ log_ok j' /\
    ((is_ok o = true /\ state d' = st /\
      log_latest j' = Some (committed_record (ds_manifest st) (durable_snapshot st))) \/
     (is_ok o = false /\ ds_manifest (state d') = ds_manifest (state d) /\
      (log_latest j' = log_latest j \/
       log_latest j' = Some (committed_record (ds_manifest st) (durable_snapshot st))))).
Proof.
  unfold commit_state. intros Hc Hj Hok. rewrite Hj in Hc.
  destruct (log_append io _ _ j) as [j' [u|e]] eqn:Ha;
    destruct (log_append_law _ _ _ _ _ _ Hok Ha) as (Hok' & _ & Hl); simplify_eq/=;
    exists j'; split_and!; auto.
Qed.

Lemma prepare_cases io p (d d' : RoomDurability J) o :
  pending_file_checkpoint (ds_manifest (state d)) = None ->
  prepare_file_checkpoint error_string io p d = (d', o) ->
  (d' = d /\ is_ok o = false) \/
  exists st, commit_state error_string io st d = (d', o) /\
    manifest_source_fingerprint (ds_manifest st) =
      manifest_source_fingerprint (ds_manifest (state d)) /\
    pending_file_checkpoint (ds_manifest st) = Some p.
Proof.
  intros Hp. unfold prepare_file_checkpoint, ensure_accepting_commits. rewrite Hp.
  destruct (accepting_commits d); [|intros; simplify_eq; auto]. cbv beta iota.
  destruct (snapshot_contains_heads _ _) as [[]|]; cbn [negb];
    [|intros; simplify_eq; auto..].
  destruct (next_sequence _) as [m|] eqn:Hn; [|intros; simplify_eq; auto].
  apply next_sequence_Ok in Hn as [-> _]. intros Hc. right. by eexists.
Qed.

Lemma abort_cases io p (d d' : RoomDurability J) o :
  pending_file_checkpoint (ds_manifest (state d)) = Some p ->
  abort_file_checkpoint error_string io (pfc_save_sequence p) d = (d', o) ->
  (d' = d /\ is_ok o = false) \/
  exists st, commit_state error_string io st d = (d', o) /\
    manifest_source_fingerprint (ds_manifest st) =
      manifest_source_fingerprint (ds_manifest (state d)).
Proof.
  intros Hp. unfold abort_file_checkpoint, ensure_accepting_commits. rewrite Hp.
  destruct (accepting_commits d); [|intros; simplify_eq; auto]. cbv beta iota.
  rewrite decide_True by done.
  destruct (next_sequence _) as [m|] eqn:Hn; [|intros; simplify_eq; auto].
  apply next_sequence_Ok in Hn as [-> _]. intros Hc. right. by eexists.
Qed.

Lemma commit_cases io p (d d' : RoomDurability J) o :
  pending_file_checkpoint (ds_manifest (state d)) = Some p ->
  commit_file_checkpoint_with_generation error_string io p d = (d', o) ->
  (d' = d /\ is_ok o = false) \/
  exists st, commit_state error_string io st d = (d', o) /\
    manifest_source_fingerprint (ds_manifest st) = pfc_file_fingerprint p.
Proof.
  intros Hp. unfold commit_file_checkpoint_with_generation, ensure_accepting_commits.
  destruct (accepting_commits d); [|intros; simplify_eq; auto]. cbv beta iota.
  destruct (snapshot_contains_heads _ _) as [[]|]; cbn [negb];
    [|intros; simplify_eq; auto..].
  case_decide; [intros; simplify_eq; auto|].
  assert (mutation_is_already_reflected (ds_manifest (state d)) (Durability.FileCheckpoint p) = false) as ->.
  { apply bool_decide_eq_false. rewrite Hp. naive_solver. }
  rewrite andb_false_r. cbn [andb].
  destruct (next_sequence _) as [m|] eqn:Hn; [|intros; simplify_eq; auto].
  apply next_sequence_Ok in Hn as [-> _]. intros Hc. right. eexists. split; [exact Hc|].
  cbn [ds_manifest manifest_source_fingerprint set_sequence].
  transitivity (manifest_source_fingerprint (apply_mutation_to_manifest (Durability.FileCheckpoint p)
    (ds_manifest (state d)))).
  - destruct (degraded (state d)); [done|]. simpl.
    unfold promote_full_coverage_checkpoint_baseline. by case_decide.
  - simpl. by destruct (pfc_source_generation p).
Qed.

(** The callbacks never touch the journal beyond the durability operation. *)
Lemma or_degrade_durability shown hs pre (s s' : SaveState J) x r :
  or_degrade durability_error_string shown hs pre s x = (s', r) ->
  journal (durability s') = journal (fst x) /\
  ds_manifest (state (durability s')) = ds_manifest (state (fst x)) /\
  is_ok r = is_ok (snd x).
Proof. unfold or_degrade. destruct x as [d [o|e]]; intros; by simplify_eq/=. Qed.

(** Consistency only looks at the journal. *)
Lemma consistent_journal (d d' : RoomDurability J) content :
  journal d' = journal d -> consistent d content -> consistent d' content.
Proof. unfold consistent. by intros ->. Qed.

(** A pass through the commit point keeps a file accounted for when the state it
    wants to commit accounts for it, whatever happens to the append. *)
Lemma commit_state_consistent io st (d d' : RoomDurability J) o content :
  commit_state error_string io st d = (d', o) -> consistent d content ->
  accounts_for (committed_record (ds_manifest st) (durable_snapshot st))
    (source_fingerprint content) ->
  consistent d' content.
Proof.
  intros Hc (j & rc & Hj & Hok & Hl & Ha) Hst.
  destruct (commit_state_journal _ _ _ _ _ _ Hc Hj Hok) as (j' & Hj' & Hok' & Hcase).
  destruct Hcase as [(_ & _ & Hl')|(_ & _ & [Hl'|Hl'])]; exists j'; rewrite Hj', Hl'; eauto.
Qed.

(** The intent: the old file stays accounted for, and the new one is as soon as
    the intent is accepted. *)
Lemma prepare_consistent io p (d d' : RoomDurability J) o old :
  pending_file_checkpoint (ds_manifest (state d)) = None ->
  manifest_source_fingerprint (ds_manifest (state d)) = source_fingerprint old ->
  consistent d old -> prepare_file_checkpoint error_string io p d = (d', o) ->
  consistent d' old /\
  (is_ok o = true ->
   pending_file_checkpoint (ds_manifest (state d')) = Some p /\
   manifest_source_fingerprint (ds_manifest (state d')) = source_fingerprint old /\
   forall content, source_fingerprint content = pfc_file_fingerprint p -> consistent d' content).
Proof.
  intros Hpend Hfp Hcons Hp.
  destruct (prepare_cases _ _ _ _ _ Hpend Hp) as [[-> ->]|(st & Hc & Hsf & Hsp)]; [done|].
  split; [eapply commit_state_consistent; [done..|]; left; simpl; congruence|]. intros Ho.
  destruct Hcons as (j & rc & Hj & Hok & Hl & Ha).
  destruct (commit_state_journal _ _ _ _ _ _ Hc Hj Hok) as (j' & Hj' & Hok' & Hcase).
  destruct Hcase as [(_ & Hst & Hl')|(Ho' & _)]; [|congruence].
  rewrite Hst, Hsp, Hsf. split_and!; [done..|]. intros content Hcontent.
  eexists j', _. split_and!; [done..|]. right. exists p. done.
Qed.

(** The commit marker keeps the new file accounted for. *)
Lemma commit_consistent io p (d d' : RoomDurability J) o content :
  pending_file_checkpoint (ds_manifest (state d)) = Some p ->
  source_fingerprint content = pfc_file_fingerprint p -> consistent d content ->
  commit_file_checkpoint_with_generation error_string io p d = (d', o) ->
  consistent d' content.
Proof.
  intros Hp Hfp Hcons Hc.
  destruct (commit_cases _ _ _ _ _ Hp Hc) as [[-> _]|(st & Hcs & Hsf)]; [done|].
  eapply commit_state_consistent; [done..|]. left. simpl. congruence.
Qed.

(** The abort keeps the old file accounted for. *)
Lemma abort_consistent io p (d d' : RoomDurability J) o old :
  pending_file_checkpoint (ds_manifest (state d)) = Some p ->
  manifest_source_fingerprint (ds_manifest (state d)) = source_fingerprint old ->
  consistent d old ->
  abort_file_checkpoint error_string io (pfc_save_sequence p) d = (d', o) ->
  consistent d' old.
Proof.
  intros Hp Hfp Hcons Hc.
  destruct (abort_cases _ _ _ _ _ Hp Hc) as [[-> _]|(st & Hcs & Hsf)]; [done|].
  eapply commit_state_consistent; [done..|]. left. simpl. congruence.
Qed.

(** The locked half of a save from a quiescent, consistent room. *)
Lemma finish_save_consistent shown intent io1 io2 io3 io c content k (s : SaveState J) k' s' o old :
  disk k !! tg_path (target c) = Some old ->
  manifest_source_fingerprint (ds_manifest (state (durability s))) = source_fingerprint old ->
  pending_file_checkpoint (ds_manifest (state (durability s))) = None ->
  consistent (durability s) old -> no_late_failure io ->
  source_fingerprint content = tg_file_fingerprint (target c) ->
  finish_save (save_callbacks error_string durability_error_string shown intent io1 io2 io3)
    io c content k s = (k', s', o) ->
  exists file, disk k' !! tg_path (target c) = Some file /\ consistent (durability s') file.
Proof.
  intros Hdisk Hfp Hpend Hcons Hio Hcontent. unfold finish_save. intros Hf.
  case_decide; [simplify_eq; eauto|].
  destruct (verify_expected_existing _ _ _); [|simplify_eq; eauto].
  cbn [cb_prepare cb_abort cb_commit save_callbacks] in Hf.
  set (pd := mkPending (tg_path (target c)) (tg_file_fingerprint (target c))
    (tg_exported_heads (target c)) (claim_sequence c) (intent_generation intent)).
  destruct (prepare_file_checkpoint_for_intent _ _ _ _ _ _ _) as [s1 r1] eqn:Hprep.
  unfold prepare_file_checkpoint_for_intent in Hprep. fold pd in Hprep.
  destruct (prepare_file_checkpoint error_string io1 _ _) as [d1 o1] eqn:Hp1.
  apply or_degrade_durability in Hprep as (Hj1 & Hm1 & Hr1). cbn [fst snd] in *.
  destruct (prepare_consistent _ _ _ _ _ _ Hpend Hfp Hcons Hp1) as [Hold Hnew].
  rewrite <- Hr1, <- Hm1 in Hnew. apply (consistent_journal _ _ _ Hj1) in Hold.
  destruct r1 as [[]|e]; [|injection Hf as <- <- _; eauto].
  destruct (Hnew eq_refl) as (Hpend1 & Hfp1 & Hcont).
  specialize (Hcont content Hcontent). apply (consistent_journal _ _ _ Hj1) in Hcont.
  destruct (sv_replace io) as [|e|e] eqn:Hre.
  - destruct (commit_file_checkpoint_for_intent _ _ _ _ _ _ _) as [s2 r2] eqn:Hcom.
    assert (exists d2 o2, commit_file_checkpoint_with_generation error_string io3 pd (durability s1)
      = (d2, o2) /\ journal (durability s2) = journal d2) as (d2 & o2 & Hc2 & Hj2).
    { unfold commit_file_checkpoint_for_intent in Hcom.
      destruct intent; apply or_degrade_durability in Hcom as (Hj2 & _); rewrite Hj2;
        (eexists _, _; split; [apply surjective_pairing|done]). }
    pose proof (consistent_journal _ _ _ Hj2 (commit_consistent _ _ _ _ _ _ Hpend1 Hcontent Hcont Hc2)).
    exists content. destruct r2; injection Hf as <- <- _; simpl; by rewrite lookup_insert_eq.
  - destruct (abort_file_checkpoint_intent _ _ _ _ _ _) as [s2 r2] eqn:Hab.
    unfold abort_file_checkpoint_intent in Hab.
    destruct (abort_file_checkpoint error_string io2 _ _) as [d2 o2] eqn:Hc2.
    apply or_degrade_durability in Hab as (Hj2 & _). cbn [fst] in Hj2.
    pose proof (consistent_journal _ _ _ Hj2
      (abort_consistent io2 pd _ _ _ _ Hpend1 Hfp1 Hold Hc2)).
    exists old. destruct r2; injection Hf as <- <- _; done.
  - unfold no_late_failure in Hio. by rewrite Hre in Hio.
Qed.

(** A daemon commit that is acknowledged: nothing new to write, or a record of
    the merged history went through the commit point. *)
Lemma commit_snapshot_daemon_Ok io doc (d d' : RoomDurability J) x :
  commit_snapshot error_string io (am_save doc) (am_heads doc) Daemon d = (d', Ok x) ->
  (d' = d /\ exists merged, (forall h, known doc h -> known merged h) /\
     am_heads merged = durable_heads (ds_manifest (state d))) \/
  (merges (state d) (state d') /\ covers (am_save doc) (durable_snapshot (state d')) /\
   exists st, commit_state error_string io st d = (d', Ok x)).
Proof.
  intros Hc. pose proof (commit_snapshot_shape error_string io (am_save doc) (am_heads doc) Daemon d)
    as Hs. rewrite Hc in Hs.
  unfold commit_snapshot, ensure_accepting_commits in Hc.
  destruct (accepting_commits d); [|done]. cbv beta iota in Hc.
  destruct (load_snapshot (am_save doc)) as [cand|] eqn:Hl; [|done].
  apply load_snapshot_Ok in Hl. destruct (am_load_save doc) as (doc' & Hl' & Hk & Hh).
  assert (doc' = cand) as -> by congruence.
  match type of Hc with (match ?e with _ => _ end) = _ =>
    destruct e as [[committed heads]|] eqn:Hm; [|done] end. cbv beta iota in Hc.
  assert (exists merged, (forall h, known doc h -> known merged h) /\ am_heads merged = heads /\
    covers (am_save doc) committed) as (merged & Hkn & Hhd & Hcov).
  { destruct (has_durable_record (state d)).
    - destruct (load_snapshot (durable_snapshot _)) as [dur|]; [|done]. simpl in Hm.
      destruct (apply_all _ _) as [merged|] eqn:Ha; [|done]. simplify_eq/=.
      apply apply_all_Ok in Ha. exists merged.
      assert (forall h, known cand h -> known merged h) as Hcm
        by (intros h; by eapply am_apply_keeps).
      split_and!; [intros h Hd; by apply Hcm, Hk|done|by eapply covers_grown].
    - simplify_eq. exists doc. by split_and!. }
  destruct (_ && _) eqn:Hb.
  - unfold already_durable in Hc. simplify_eq. left. split; [done|]. exists merged.
    split; [done|]. apply andb_true_iff in Hb as [[_ Hb]%andb_true_iff _].
    by apply bool_decide_eq_true in Hb as <-.
  - destruct (next_sequence _) as [m|] eqn:Hn; [|done].
    pose proof (commit_state_Ok _ _ _ _ _ _ Hc eq_refl) as Hst.
    assert (exists st, x = Committed st) as [st ->].
    { unfold commit_state in Hc. destruct (journal d); [|simplify_eq; eauto].
      destruct (log_append _ _ _ _) as [? [|]]; simplify_eq; eauto. }
    assert (merges (state d) (state d')) as Hmg.
    { inversion Hs as [o Hno|io' st' [_ Hmerge] Heq]; subst; [by edestruct Hno|].
      apply commit_state_Ok in Heq as ->; [|done]. by apply Hmerge. }
    right. split_and!; [done|by rewrite Hst|eauto].
Qed.

(** A refused commit leaves the acknowledged state alone. *)
Lemma shape_refused P (d d' : RoomDurability J) e :
  shape error_string P d (d', Err e) ->
  ds_manifest (state d') = ds_manifest (state d) /\
  durable_snapshot (state d') = durable_snapshot (state d).
Proof.
  inversion 1 as [o _|io st _ Heq]; subst; [done|].
  unfold commit_state in Heq. destruct (journal d); [|done].
  by destruct (log_append _ _ _ _) as [? [|]]; simplify_eq/=.
Qed.
End SaveLemmas.

(** ** Claims *)

Section RoomClaims.
Context `{AutomergeLaws, HexCodec, Sha256, ManifestJson}.
Context (error_string : RecoveryJournalError -> string)
  (durability_error_string : RoomDurabilityError -> string).

(** C6. A save never manufactures a source conflict: from a room with no pending
    checkpoint whose journal knows the notebook file, a save that may fail at any
    system call (the expected-revision reads, the temporary file, the three
    journal appends, the replacement itself), except a directory flush failing
    after the rename, leaves a file and a journal that agree: a restart at that
    moment reads the journal as a match for the file. *)
Theorem save_never_manufactures_conflict shown intent io1 io2 io3 io c content k
    (s : SaveState RecoveryJournal) k' s' o old j rc :
  disk k !! tg_path (target c) = Some old ->
  manifest_source_fingerprint (ds_manifest (state (durability s))) = source_fingerprint old ->
  pending_file_checkpoint (ds_manifest (state (durability s))) = None ->
  journal (durability s) = Some j -> cursor_honest j -> latest_of j = Some rc ->
  manifest_source_fingerprint (rec_manifest rc) = source_fingerprint old ->
  no_late_failure io ->
  complete_with_callbacks
    (save_callbacks error_string durability_error_string shown intent io1 io2 io3)
    io c content k s = (k', s', o) ->
  exists file j' r, disk k' !! tg_path (target c) = Some file /\
    journal (durability s') = Some j' /\
    load None (source_fingerprint file) (Some (contents j')) = Ok (Match r).
Proof.
  intros Hdisk Hfp Hpend Hj Hok Hl Hrc Hio Hsave.
  assert (consistent (durability s) old) as Hcons
    by (exists j, rc; split_and!; [done..|by left]).
  assert (exists file, disk k' !! tg_path (target c) = Some file /\ consistent (durability s') file)
    as (file & Hfile & j' & r & Hj' & _ & Hl' & Ha).
  { unfold complete_with_callbacks in Hsave.
    destruct (begin_save io c content k) as [k1 [[]|e]] eqn:Hb;
      pose proof (begin_save_spec _ _ _ _ _ _ Hb) as (Hd & _ & _ & _ & _ & Hready).
    - destruct (Hready eq_refl) as [-> Hcontent]. eapply finish_save_consistent; eauto.
    - simplify_eq. exists old. by rewrite Hd. }
  exists file, j'. simpl in Hl'. unfold load, latest_record. unfold latest_of in Hl'.
  rewrite Hl'. simpl. eexists. split_and!; [done..|]. rewrite decide_True; [done|].
  destruct Ha as [Ha|(p & Hp & Ha)]; [by left|right]. by rewrite Hp; simpl; rewrite Ha.
Qed.

(** A daemon-authored edit is acknowledged only when durable and undone
    otherwise: on success the document is kept and either its history was already
    the recorded one or the journal's record now covers it together with
    everything acknowledged before; on failure the rolled-back document is put
    back, the manifest does not advance, the room refuses edits and executions
    and shows that its durability needs repair. *)
Theorem daemon_commit_or_rollback load_with_actor shown io baseline rollback actor op
    (r r' : DaemonRoom (J := RecoveryJournal)) res :
  commit_daemon_notebook_mutation error_string durability_error_string load_with_actor shown io
    baseline rollback actor op r = (r', res) ->
  let before := durability (dr_save r) in
  let after := durability (dr_save r') in
  let caps := capabilities (avail_status (avail (lifecycle (dr_save r')))) in
  match res with
  | Ok _ =>
      dr_doc r' = dr_doc r /\ lifecycle (dr_save r') = lifecycle (dr_save r) /\
      (am_heads (dr_doc r) = baseline /\ after = before \/
       after = before /\ (exists merged, (forall h, known (dr_doc r) h -> known merged h) /\
         am_heads merged = durable_heads (ds_manifest (state before))) \/
       merges (state before) (state after) /\
       covers (am_save (dr_doc r)) (durable_snapshot (state after)) /\
       forall j, journal before = Some j -> cursor_honest j ->
         exists j', journal after = Some j' /\
           latest_of j' = Some (committed_record (ds_manifest (state after))
             (durable_snapshot (state after))))
  | Err _ =>
      ds_manifest (state after) = ds_manifest (state before) /\
      durable_snapshot (state after) = durable_snapshot (state before) /\
      requires_durability_repair (status_tx after) = true /\
      mutate caps = false /\
      execute caps = false /\
      match load_with_actor rollback actor with
      | Ok restored => dr_doc r' = restored
      | Err _ => dr_doc r' = dr_doc r /\
                 read_document caps = false
      end
  end.
Proof.
  intros Hc before after caps. unfold commit_daemon_notebook_mutation in Hc.
  destruct (decide _) as [Hd|_].
  { simplify_eq. split_and!; [done..|]. by left. }
  destruct (commit_snapshot _ _ _ _ _ _) as [d x] eqn:Hs. destruct x as [x|e].
  - simplify_eq/=. split_and!; [done..|]. right.
    destruct (commit_snapshot_daemon_Ok _ _ _ _ _ _ Hs) as [[-> Hm]|(Hm & Hcov & st & Hst)];
      [by left|right]. split_and!; [done..|]. intros j Hj Hok.
    destruct (commit_state_journal _ _ _ _ _ _ _ Hst Hj Hok) as (j' & Hj' & _ & Hcase).
    destruct Hcase as [(_ & Hst' & Hl)|(? & _)]; [|done]. exists j'. unfold after. simpl. by rewrite Hst'.
  - pose proof (commit_snapshot_shape error_string io (am_save (dr_doc r)) (am_heads (dr_doc r))
      Daemon (durability (dr_save r))) as Hsh. rewrite Hs in Hsh. apply shape_refused in Hsh as [Hm1 Hm2].
    destruct (load_with_actor rollback actor) as [restored|]; simplify_eq/=; by split_and!.
Qed.
End RoomClaims.

Module RoomExamples.
Import PlainHex PlainCodec PlainAutomerge JournalExamples DurabilityExamples SaveExamples.

Definition dtext (_ : RoomDurabilityError) : string := "refused".

(** A room whose file holds [old_text] and whose journal has one peer edit. *)
Definition opened : RoomDurability RecoveryJournal := fst (dstep 3 err_text peer1
  (journaled 3 empty "nb" (Some "/a.ipynb") (source_fingerprint old_text) 0 genesis)).
Definition opened_journal : RecoveryJournal := default empty (journal opened).
Definition sstate : SaveState RecoveryJournal := mkSaveState opened (lifecycle_new ["01"]) None.
Definition lio_torn : @log_io RecoveryJournal journal_log := io_torn.
Definition kfile : Coordinator :=
  mkCoordinator (mkCheckpointState 1 0 None) {["/a.ipynb" := old_text]} [].
Definition save1 : SaveClaim :=
  bind 1 (mkTarget "/a.ipynb" [h1] (source_fingerprint new_text) None) (cstate kfile).
Definition callbacks1 : Callbacks (SaveState RecoveryJournal) :=
  save_callbacks err_text dtext true Ordinary lio_ok lio_ok lio_torn.
Definition run_save (io : SaveIo) := complete_with_callbacks callbacks1 io save1 new_text kfile sstate.

Lemma opened_honest : cursor_honest opened_journal.
Proof.
  apply (append_latest JournalExamples.io_ok
    (ds_manifest (state opened)) (durable_snapshot (state opened)) empty opened_journal (Ok ())
    empty_honest).
  vm_compute. reflexivity.
Qed.

(** The file was replaced and the commit marker was torn. *)
Lemma save_never_manufactures_conflict_witness :
  disk (fst (fst (run_save io_ok))) !! "/a.ipynb" = Some new_text /\
  exists file j' r, disk (fst (fst (run_save io_ok))) !! "/a.ipynb" = Some file /\
    journal (durability (snd (fst (run_save io_ok)))) = Some j' /\
    load None (source_fingerprint file) (Some (contents j')) = Ok (Match r).
Proof.
  split; [vm_compute; reflexivity|].
  apply (save_never_manufactures_conflict err_text dtext true Ordinary lio_ok lio_ok lio_torn io_ok
    save1 new_text kfile sstate (fst (fst (run_save io_ok))) (snd (fst (run_save io_ok)))
    (snd (run_save io_ok)) old_text opened_journal
    (committed_record (ds_manifest (state opened)) (durable_snapshot (state opened)))).
  - vm_compute. reflexivity.
  - vm_compute. reflexivity.
  - vm_compute. reflexivity.
  - vm_compute. reflexivity.
  - exact opened_honest.
  - vm_compute. reflexivity.
  - vm_compute. reflexivity.
  - exact I.
  - vm_compute. reflexivity.
Defined.

Definition late := run_save io_flush_failed.
Definition late_journal : RecoveryJournal :=
  default empty (journal (durability (snd (fst late)))).
Definition late_load :=
  load None (source_fingerprint new_text) (Some (contents late_journal)).

(** The one system call excluded above does manufacture a conflict: when
    only the directory flush after the rename fails, the file holds the new
    content, the intent is aborted in the journal, and a restart reports the
    room's own save as somebody else's edit of the file. *)
Theorem late_flush_failure_manufactures_conflict :
  disk (fst (fst late)) !! "/a.ipynb" = Some new_text /\
  snd late = Blocked (Some 1) (SaveIoFailed Replace "EIO") /\
  requires_durability_repair (status_tx (durability (snd (fst late)))) = false /\
  journal (durability (snd (fst late))) = Some late_journal /\
  exists r, late_load = Ok (SourceConflict r (source_fingerprint new_text)).
Proof.
  split_and!; [vm_compute; reflexivity..|].
  exists (match late_load with
          | Ok (SourceConflict r _) => r
          | _ => mkRecovered (committed_record (ds_manifest (state opened)) []) None
          end).
  vm_compute. reflexivity.
Qed.

Definition restore_doc (bs : bytes) (_ : string) : result string (@am_doc plain_automerge) :=
  am_load bs.
Definition edited_room : DaemonRoom := mkDaemonRoom sstate ([h1; h2] : @am_doc plain_automerge).
Definition refused_edit := commit_daemon_notebook_mutation err_text dtext restore_doc true lio_torn
  [h1] saved1 "actor" "insert_cell" edited_room.

Lemma daemon_commit_or_rollback_witness :
  is_ok (snd refused_edit) = false /\
  ds_manifest (state (durability (dr_save (fst refused_edit)))) = ds_manifest (state opened) /\
  dr_doc (fst refused_edit) = ([h1] : @am_doc plain_automerge).
Proof.
  split; [vm_compute; reflexivity|].
  destruct (daemon_commit_or_rollback err_text dtext restore_doc true lio_torn [h1] saved1 "actor"
    "insert_cell" edited_room (fst refused_edit)
    (Err "insert_cell journal commit failed before acknowledgement: refused")) as (H1 & _ & _ & _ & _ & H2).
  - vm_compute. reflexivity.
  - split; [exact H1|]. exact H2.
Defined.
End RoomExamples.
