(* ===== verification/Framing.v ===== *)
(** * Wire framing

    Model of [crates/notebook-wire/src/lib.rs] (frame types, size limits, keyed
    document headers) and [crates/notebook-protocol/src/connection/framing.rs]
    (preamble, length-prefixed and typed frames, the cancel-safe reader).

    A connection is a byte stream.  The reading side holds the bytes that will
    arrive and what comes after them (end of file or a read error); the writing
    side collects the bytes and may fail after any number of them.  Error texts
    become constructors with the numbers the text shows; log lines are left out. *)

From Stdlib Require Import Strings.Ascii.
From S2P Require Import Prelude.

(** ** Frame types and limits *)

Definition KIB : Z := 1024.
Definition MIB : Z := 1024 * 1024.
Definition MAX_FRAME_SIZE : Z := 100 * MIB.
Definition MAX_CONTROL_FRAME_SIZE : Z := 64 * KIB.
Definition PROTOCOL_VERSION : byte := Byte.x04.
Definition MAGIC : bytes := [Byte.xc0; Byte.xde; Byte.x01; Byte.xac].
Definition PREAMBLE_LEN : Z := 5.

Inductive NotebookFrameType :=
| AutomergeSync | Request | Response | Broadcast | Presence | RuntimeStateSync
| PoolStateSync | SessionControl | PutBlob | CommsDocSync | CommentsDocSync | KeyedDocSync.

#[export] Instance NotebookFrameType_eq_dec : EqDecision NotebookFrameType.
Proof. solve_decision. Defined.

(** [frame_type as u8], the values of [frame_types]. *)
Definition frame_type_byte (t : NotebookFrameType) : byte :=
  match t with
  | AutomergeSync => Byte.x00 | Request => Byte.x01 | Response => Byte.x02
  | Broadcast => Byte.x03 | Presence => Byte.x04 | RuntimeStateSync => Byte.x05
  | PoolStateSync => Byte.x06 | SessionControl => Byte.x07 | PutBlob => Byte.x08
  | CommsDocSync => Byte.x09 | CommentsDocSync => Byte.x0a | KeyedDocSync => Byte.x0b
  end.

(** [NotebookFrameType::try_from]. *)
Definition frame_type_try_from (b : byte) : option NotebookFrameType :=
  match b with
  | Byte.x00 => Some AutomergeSync | Byte.x01 => Some Request | Byte.x02 => Some Response
  | Byte.x03 => Some Broadcast | Byte.x04 => Some Presence | Byte.x05 => Some RuntimeStateSync
  | Byte.x06 => Some PoolStateSync | Byte.x07 => Some SessionControl | Byte.x08 => Some PutBlob
  | Byte.x09 => Some CommsDocSync | Byte.x0a => Some CommentsDocSync
  | Byte.x0b => Some KeyedDocSync
  | _ => None
  end.

Record FrameSizeLimits := mkLimits { cap : Z; warn : Z }.

(** [typed_frame_size_limits]. *)
Definition typed_frame_size_limits (t : NotebookFrameType) : FrameSizeLimits :=
  match t with
  | AutomergeSync => mkLimits (64 * MIB) (16 * MIB)
  | Request => mkLimits (16 * MIB) (256 * KIB)
  | Response => mkLimits (64 * MIB) (16 * MIB)
  | Broadcast => mkLimits (16 * MIB) (4 * MIB)
  | Presence => mkLimits (4 * KIB) KIB
  | RuntimeStateSync => mkLimits (64 * MIB) (16 * MIB)
  | CommsDocSync => mkLimits (64 * MIB) (16 * MIB)
  | CommentsDocSync => mkLimits (64 * MIB) (16 * MIB)
  | KeyedDocSync => mkLimits (16 * MIB) MIB
  | PoolStateSync => mkLimits MIB (256 * KIB)
  | SessionControl => mkLimits MIB (256 * KIB)
  | PutBlob => mkLimits (32 * MIB) (8 * MIB)
  end.

(** [frame_size_limits]. *)
Definition frame_size_limits (type_byte : byte) : FrameSizeLimits :=
  match frame_type_try_from type_byte with
  | Some t => typed_frame_size_limits t
  | None => mkLimits MAX_FRAME_SIZE (MAX_FRAME_SIZE / 2)
  end.

(** [is_optional_frame], [is_daemon_originated_frame]. *)
Definition is_optional_frame (b : byte) : bool := bool_decide (b = frame_type_byte KeyedDocSync).

Definition is_daemon_originated_frame (b : byte) : bool :=
  bool_decide (b = frame_type_byte Response \/ b = frame_type_byte Broadcast \/
               b = frame_type_byte SessionControl).

Record TypedNotebookFrame := mkFrame { frame_type : NotebookFrameType; payload : bytes }.

#[export] Instance TypedNotebookFrame_eq_dec : EqDecision TypedNotebookFrame.
Proof. solve_decision. Defined.

(** ** Streams *)

Inductive FrameError :=
| UnexpectedEof
| StreamFailed (message : string)
| ClosedBeforePreamble
| InvalidMagic (got : bytes)
| VersionMismatch (got : byte)
| EmptyFrame
| FrameTooLarge (len max : Z)
| FrameTooLargeForType (type_byte : byte) (len max : Z)
| OutboundTooLargeForType (type_byte : byte) (len max : Z)
| TooLargeToSend (len max : Z).

(** What arrives on a connection: the bytes, then end of file or an error. *)
Record Reader := mkReader { incoming : bytes; ending : option string }.

Definition end_error (r : Reader) : FrameError :=
  match ending r with None => UnexpectedEof | Some e => StreamFailed e end.

(** [AsyncReadExt::read_exact]: all the bytes or an error, with the partial bytes
    consumed. *)
Definition read_exact (n : Z) (r : Reader) : Reader * result FrameError bytes :=
  if decide (n <= zlen (incoming r)) then
    (mkReader (drop (Z.to_nat n) (incoming r)) (ending r), Ok (take (Z.to_nat n) (incoming r)))
  else (mkReader [] (ending r), Err (end_error r)).

(** A writer: the bytes written and, for a failing one, how many more it takes. *)
Record Writer := mkWriter {
  written : bytes;
  room : option nat;
  flush_error : option string;
}.

(** [AsyncWriteExt::write_all] and [flush]. *)
Definition write_all (bs : bytes) (w : Writer) : Writer * result FrameError () :=
  match room w with
  | None => (mkWriter (written w ++ bs) None (flush_error w), Ok ())
  | Some k =>
      if decide (length bs <= k)%nat then
        (mkWriter (written w ++ bs) (Some (k - length bs)%nat) (flush_error w), Ok ())
      else (mkWriter (written w ++ take k bs) (Some 0%nat) (flush_error w),
            Err (StreamFailed "write"))
  end.

Definition flush (w : Writer) : Writer * result FrameError () :=
  match flush_error w with
  | None => (w, Ok ())
  | Some e => (w, Err (StreamFailed e))
  end.

(** ** Sending *)

(** [send_frame]; the length is written as [data.len() as u32]. *)
Definition send_frame (data : bytes) (w : Writer) : Writer * result FrameError () :=
  if decide (zlen data > MAX_FRAME_SIZE) then (w, Err (TooLargeToSend (zlen data) MAX_FRAME_SIZE))
  else
    match write_all (to_be_bytes 4 (zlen data mod 2 ^ 32)) w with
    | (w, Err e) => (w, Err e)
    | (w, Ok _) =>
        match write_all data w with
        | (w, Err e) => (w, Err e)
        | (w, Ok _) => flush w
        end
    end.

(** [send_raw_typed_frame]. *)
Definition send_raw_typed_frame (type_byte : byte) (body : bytes) (w : Writer)
    : Writer * result FrameError () :=
  let limits := frame_size_limits type_byte in
  if decide (zlen body > cap limits) then
    (w, Err (OutboundTooLargeForType type_byte (zlen body) (cap limits)))
  else send_frame (type_byte :: body) w.

(** [send_typed_frame]. *)
Definition send_typed_frame (t : NotebookFrameType) (body : bytes) (w : Writer)
    : Writer * result FrameError () := send_raw_typed_frame (frame_type_byte t) body w.

(** [send_preamble]. *)
Definition send_preamble (w : Writer) : Writer * result FrameError () :=
  match write_all (MAGIC ++ [PROTOCOL_VERSION]) w with
  | (w, Err e) => (w, Err e)
  | (w, Ok _) => flush w
  end.

(** ** Receiving *)

(** [recv_preamble]. *)
Definition recv_preamble (r : Reader) : Reader * result FrameError byte :=
  match read_exact PREAMBLE_LEN r with
  | (r, Err UnexpectedEof) => (r, Err ClosedBeforePreamble)
  | (r, Err e) => (r, Err e)
  | (r, Ok buf) =>
      if decide (take 4 buf <> MAGIC) then (r, Err (InvalidMagic (take 4 buf)))
      else
        let version := nth 4 buf Byte.x00 in
        if decide (version <> PROTOCOL_VERSION) then (r, Err (VersionMismatch version))
        else (r, Ok version)
  end.

(** [recv_frame_with_limit], [recv_frame], [recv_control_frame]. *)
Definition recv_frame_with_limit (max_size : Z) (r : Reader)
    : Reader * result FrameError (option bytes) :=
  match read_exact 4 r with
  | (r, Err UnexpectedEof) => (r, Ok None)
  | (r, Err e) => (r, Err e)
  | (r, Ok len_buf) =>
      let len := from_be_bytes len_buf in
      if decide (len > max_size) then (r, Err (FrameTooLarge len max_size))
      else match read_exact len r with
           | (r, Err e) => (r, Err e)
           | (r, Ok buf) => (r, Ok (Some buf))
           end
  end.

Definition recv_frame : Reader -> Reader * result FrameError (option bytes) :=
  recv_frame_with_limit MAX_FRAME_SIZE.
Definition recv_control_frame : Reader -> Reader * result FrameError (option bytes) :=
  recv_frame_with_limit MAX_CONTROL_FRAME_SIZE.

Definition DISCARD_CHUNK : Z := 8 * 1024.

(** The loop of [discard_exact]; [fuel] bounds the number of chunks. *)
Fixpoint discard_loop (fuel : nat) (remaining : Z) (r : Reader) : Reader * result FrameError () :=
  if decide (remaining > 0) then
    match fuel with
    | O => (r, Ok ())
    | S fuel' =>
        let n := Z.min remaining DISCARD_CHUNK in
        match read_exact n r with
        | (r, Err e) => (r, Err e)
        | (r, Ok _) => discard_loop fuel' (remaining - n) r
        end
    end
  else (r, Ok ()).

(** [discard_exact]: [len / 8192 + 1] chunks are enough. *)
Definition discard_exact (len : Z) (r : Reader) : Reader * result FrameError () :=
  discard_loop (Z.to_nat (len / DISCARD_CHUNK + 1)) len r.

(** One turn of the loop of [recv_typed_frame]: [inl] goes round again. *)
Definition recv_typed_turn (r : Reader)
    : Reader * (unit + result FrameError (option TypedNotebookFrame)) :=
  match read_exact 4 r with
  | (r, Err UnexpectedEof) => (r, inr (Ok None))
  | (r, Err e) => (r, inr (Err e))
  | (r, Ok len_buf) =>
      let len := from_be_bytes len_buf in
      if decide (len = 0) then (r, inr (Err EmptyFrame))
      else if decide (len > MAX_FRAME_SIZE) then (r, inr (Err (FrameTooLarge len MAX_FRAME_SIZE)))
      else match read_exact 1 r with
      | (r, Err e) => (r, inr (Err e))
      | (r, Ok type_buf) =>
          let type_byte := nth 0 type_buf Byte.x00 in
          let body_len := len - 1 in
          match frame_type_try_from type_byte with
          | None =>
              match discard_exact body_len r with
              | (r, Err e) => (r, inr (Err e))
              | (r, Ok _) => (r, inl ())
              end
          | Some t =>
              let limits := typed_frame_size_limits t in
              if decide (body_len > cap limits) then
                (r, inr (Err (FrameTooLargeForType type_byte body_len (cap limits))))
              else match read_exact body_len r with
                   | (r, Err e) => (r, inr (Err e))
                   | (r, Ok body) => (r, inr (Ok (Some (mkFrame t body))))
                   end
          end
      end
  end.

(** [recv_typed_frame]: [None] says the fuel ran out. *)
Fixpoint recv_typed_loop (fuel : nat) (r : Reader)
    : option (Reader * result FrameError (option TypedNotebookFrame)) :=
  match fuel with
  | O => None
  | S fuel' =>
      match recv_typed_turn r with
      | (r, inr res) => Some (r, res)
      | (r, inl _) => recv_typed_loop fuel' r
      end
  end.

(** Every turn consumes at least one byte. *)
Definition recv_typed_frame (r : Reader)
    : option (Reader * result FrameError (option TypedNotebookFrame)) :=
  recv_typed_loop (S (length (incoming r))) r.

(** ** Keyed document headers *)

Definition MAX_KEYED_DOC_FRAME_HEADER_LEN : Z := 4 * KIB.
Definition MAX_KEYED_DOC_KIND_LEN : Z := 64.
Definition MAX_KEYED_DOC_ID_LEN : Z := 512.

(** Strings hold UTF-8 bytes, so [String.length] is Rust's [len]. *)
Record KeyedDocFrameHeader := mkHeader { hd_kind : string; hd_id : string; hd_epoch : Z }.

Inductive KeyedDocFrameError :=
| KeyedTruncated
| HeaderTooLarge (len : Z)
| InvalidHeader (reason : string).

Definition strlen (s : string) : Z := Z.of_nat (String.length s).

Definition kind_char_ok (c : ascii) : bool :=
  let n := Z.of_N (N_of_ascii c) in
  bool_decide (97 <= n <= 122 \/ 48 <= n <= 57 \/ n = 95).

Fixpoint all_chars (f : ascii -> bool) (s : string) : bool :=
  match s with EmptyString => true | String c s' => f c && all_chars f s' end.

(** [KeyedDocFrameHeader::validate]. *)
Definition header_validate (h : KeyedDocFrameHeader) : result KeyedDocFrameError () :=
  if negb (bool_decide (hd_kind h <> EmptyString) &&
           bool_decide (strlen (hd_kind h) <= MAX_KEYED_DOC_KIND_LEN) &&
           all_chars kind_char_ok (hd_kind h))
  then Err (InvalidHeader "kind must match [a-z0-9_]{1,64}")
  else if bool_decide (hd_id h = EmptyString) || bool_decide (strlen (hd_id h) > MAX_KEYED_DOC_ID_LEN)
  then Err (InvalidHeader "id must be 1..=512 bytes")
  else Ok ().

(** [serde_json] on headers: [from_slice] to a JSON value, its [is_object], and
    [from_value].  The laws: a serialised header is an object that reads back as
    itself; a JSON string is at most six bytes per byte of text and two quotes,
    and the field names, punctuation and a [u64] take less than 64 bytes. *)
Class HeaderJson := {
  json_value : Type;
  header_to_vec : KeyedDocFrameHeader -> result string bytes;
  json_from_slice : bytes -> result string json_value;
  json_is_object : json_value -> bool;
  header_from_value : json_value -> result string KeyedDocFrameHeader;
}.

Class HeaderJsonLaws `{HeaderJson} : Prop := {
  header_json_round h : 0 <= hd_epoch h <= u64_max ->
    strlen (hd_kind h) <= u64_max -> strlen (hd_id h) <= u64_max ->
    exists bs v, header_to_vec h = Ok bs /\ json_from_slice bs = Ok v /\
      json_is_object v = true /\ header_from_value v = Ok h /\
      zlen bs <= 6 * (strlen (hd_kind h) + strlen (hd_id h)) + 64;
}.

Section Keyed.
Context `{HeaderJson}.

(** [KeyedDocFrameHeader::encode_frame]. *)
Definition encode_frame (h : KeyedDocFrameHeader) (sync_message : bytes) : bytes :=
  let header := match header_to_vec h with Ok bs => bs | Err _ => [] end in
  to_be_bytes 4 (zlen header mod 2 ^ 32) ++ header ++ sync_message.

(** [slice.get(a..b)]. *)
Definition get_range (a b : Z) (bs : bytes) : option bytes :=
  if decide (a <= b <= zlen bs) then Some (take (Z.to_nat (b - a)) (drop (Z.to_nat a) bs))
  else None.

(** [KeyedDocFrameHeader::try_parse]. *)
Definition try_parse (body : bytes)
    : result KeyedDocFrameError (KeyedDocFrameHeader * bytes) :=
  match get_range 0 4 body with
  | None => Err KeyedTruncated
  | Some len_bytes =>
      let header_len := from_be_bytes len_bytes in
      if decide (header_len > MAX_KEYED_DOC_FRAME_HEADER_LEN) then Err (HeaderTooLarge header_len)
      else match get_range 4 (4 + header_len) body with
      | None => Err KeyedTruncated
      | Some header_bytes =>
          match json_from_slice header_bytes with
          | Err e => Err (InvalidHeader e)
          | Ok v =>
              if negb (json_is_object v) then Err (InvalidHeader "header must be a JSON object")
              else match header_from_value v with
              | Err e => Err (InvalidHeader e)
              | Ok h =>
                  let? _ := header_validate h in
                  Ok (h, drop (Z.to_nat (4 + header_len)) body)
              end
          end
      end
  end.
End Keyed.

(** ** The cancel-safe reader

    [FramedReader] is a task that owns the stream and a bounded channel.  A step
    is one action of the task or one poll by the consumer; a [recv] whose future
    is dropped before it is ready is the poll that returns [Pending]. *)

Definition item : Type := result FrameError TypedNotebookFrame.

Inductive TaskState := Reading | Sending (i : item) | Finished.

Record FramedReader := mkFramed {
  fr_reader : Reader;
  fr_task : TaskState;
  fr_queue : list item;
  fr_capacity : nat;
  fr_open : bool;
}.

(** [FramedReader::spawn]. *)
Definition spawn (r : Reader) (capacity : nat) : FramedReader := mkFramed r Reading [] capacity true.

(** One action of the task: a whole [recv_typed_frame], or the completion of a
    [tx.send]. *)
Definition task_step (f : FramedReader) : FramedReader :=
  match fr_task f with
  | Finished => f
  | Reading =>
      match recv_typed_frame (fr_reader f) with
      | None => f
      | Some (r, Ok (Some frame)) => mkFramed r (Sending (Ok frame)) (fr_queue f) (fr_capacity f) (fr_open f)
      | Some (r, Ok None) => mkFramed r Finished (fr_queue f) (fr_capacity f) (fr_open f)
      | Some (r, Err e) => mkFramed r (Sending (Err e)) (fr_queue f) (fr_capacity f) (fr_open f)
      end
  | Sending i =>
      if fr_open f then
        if decide (length (fr_queue f) < fr_capacity f)%nat then
          mkFramed (fr_reader f) (match i with Ok _ => Reading | Err _ => Finished end)
            (fr_queue f ++ [i]) (fr_capacity f) true
        else f
      else mkFramed (fr_reader f) Finished (fr_queue f) (fr_capacity f) false
  end.

Inductive poll := Pending | Item (i : item) | Closed.

(** A poll of [recv]. *)
Definition recv (f : FramedReader) : FramedReader * poll :=
  match fr_queue f with
  | i :: q => (mkFramed (fr_reader f) (fr_task f) q (fr_capacity f) (fr_open f), Item i)
  | [] => (f, match fr_task f with Finished => Closed | _ => Pending end)
  end.

(** [try_recv]: empty and disconnected both give [None]. *)
Definition try_recv (f : FramedReader) : FramedReader * option item :=
  match recv f with
  | (f', Item i) => (f', Some i)
  | (f', _) => (f', None)
  end.

(** [Drop]: the receiver closes, its buffer goes and the task is aborted. *)
Definition drop_reader (f : FramedReader) : FramedReader :=
  mkFramed (fr_reader f) Finished [] (fr_capacity f) false.

(** Schedules and what the consumer got. *)
Inductive action := ActTask | ActRecv | ActTryRecv | ActDrop.

Definition fr_step (x : FramedReader * list item) (a : action) : FramedReader * list item :=
  let '(f, got) := x in
  match a with
  | ActTask => (task_step f, got)
  | ActRecv => match recv f with (f, Item i) => (f, got ++ [i]) | (f, _) => (f, got) end
  | ActTryRecv => match try_recv f with (f, Some i) => (f, got ++ [i]) | (f, None) => (f, got) end
  | ActDrop => (drop_reader f, got)
  end.

Definition fr_run (acts : list action) (f : FramedReader) : FramedReader * list item :=
  foldl fr_step (f, []) acts.

(** The items of a stream: its frames, then the error that ends it, if any. *)
Fixpoint items_from (fuel : nat) (r : Reader) : list item :=
  match fuel with
  | O => []
  | S fuel' =>
      match recv_typed_frame r with
      | Some (r', Ok (Some frame)) => Ok frame :: items_from fuel' r'
      | Some (_, Err e) => [Err e]
      | _ => []
      end
  end.

Definition stream_items (r : Reader) : list item := items_from (S (length (incoming r))) r.

(** ** Lemmas on streams *)

Lemma frame_type_round t : frame_type_try_from (frame_type_byte t) = Some t.
Proof. by destruct t. Qed.

Lemma frame_type_try_from_Some b t : frame_type_try_from b = Some t -> frame_type_byte t = b.
Proof. destruct b; simpl; intros; by simplify_eq. Qed.

Lemma typed_cap_le t : cap (typed_frame_size_limits t) <= 64 * MIB.
Proof. destruct t; vm_compute; discriminate. Qed.

Lemma read_exact_Ok n r r' bs :
  read_exact n r = (r', Ok bs) -> 0 <= n ->
  incoming r = bs ++ incoming r' /\ zlen bs = n /\ ending r' = ending r.
Proof.
  unfold read_exact. case_decide as Hn; [|done]. intros [= <- <-] H0. simpl.
  rewrite take_drop. split_and!; [done| |done].
  unfold zlen in *. rewrite length_take. lia.
Qed.

Lemma read_exact_app bs rest e n :
  n = zlen bs -> read_exact n (mkReader (bs ++ rest) e) = (mkReader rest e, Ok bs).
Proof.
  intros ->. unfold read_exact. simpl. rewrite decide_True by (rewrite zlen_app; pose proof (zlen_nonneg rest); lia).
  unfold zlen. rewrite Nat2Z.id, take_app_length, drop_app_length. done.
Qed.

Lemma read_exact_short n r :
  zlen (incoming r) < n -> read_exact n r = (mkReader [] (ending r), Err (end_error r)).
Proof. intros Hn. unfold read_exact. rewrite decide_False by lia. done. Qed.

Lemma read_exact_length n r r' res :
  read_exact n r = (r', res) -> (length (incoming r') <= length (incoming r))%nat.
Proof.
  unfold read_exact. case_decide; intros [= <- <-]; simpl; [|lia]. rewrite length_drop. lia.
Qed.

(** Reading [a + b] bytes is reading [a] and then [b]. *)
Lemma read_exact_split a b r :
  0 <= a -> 0 <= b ->
  fst (read_exact (a + b) r) =
    match read_exact a r with (r1, Ok _) => fst (read_exact b r1) | (r1, Err _) => r1 end /\
  is_ok (snd (read_exact (a + b) r)) =
    match read_exact a r with (r1, Ok _) => is_ok (snd (read_exact b r1)) | (_, Err _) => false end.
Proof.
  intros Ha Hb. unfold read_exact. destruct (decide (a <= _)) as [Hle|Hle]; simpl.
  - assert (zlen (drop (Z.to_nat a) (incoming r)) = zlen (incoming r) - a) as Hl.
    { unfold zlen in *. rewrite length_drop. lia. }
    rewrite Hl. destruct (decide (a + b <= _)); destruct (decide (b <= _)); try lia; simpl; [|done].
    rewrite drop_drop. split; [|done]. do 2 f_equal. lia.
  - rewrite decide_False by lia. done.
Qed.

Lemma discard_loop_spec fuel n r :
  0 <= n -> n < Z.of_nat fuel * DISCARD_CHUNK + 1 ->
  discard_loop fuel n r =
    (fst (read_exact n r), if is_ok (snd (read_exact n r)) then Ok () else Err (end_error r)).
Proof.
  revert n r. induction fuel as [|fuel IH]; intros n r H0 Hn; cbn [discard_loop].
  - assert (n = 0) as -> by lia. rewrite decide_False by lia. unfold read_exact.
    rewrite decide_True by apply zlen_nonneg. simpl. by destruct r.
  - destruct (decide (n > 0)) as [Hpos|Hpos].
    2: { assert (n = 0) as -> by lia. unfold read_exact.
         rewrite decide_True by apply zlen_nonneg. simpl. by destruct r. }
    set (c := Z.min n DISCARD_CHUNK).
    assert (0 < DISCARD_CHUNK) by (vm_compute; reflexivity).
    destruct (read_exact_split c (n - c) r) as [H1 H2]; [lia|lia|].
    replace (c + (n - c)) with n in H1, H2 by lia. rewrite H1, H2.
    destruct (read_exact c r) as [r1 [bs|e]] eqn:Hr.
    + apply read_exact_Ok in Hr as (_ & _ & He); [|lia].
      rewrite IH by lia. unfold end_error. by rewrite He.
    + unfold read_exact in Hr. case_decide; simplify_eq. done.
Qed.

(** Discarding in chunks is reading the bytes and forgetting them. *)
Lemma discard_exact_spec n r :
  0 <= n ->
  discard_exact n r =
    (fst (read_exact n r), if is_ok (snd (read_exact n r)) then Ok () else Err (end_error r)).
Proof.
  intros Hn. apply discard_loop_spec; [done|].
  assert (DISCARD_CHUNK = 8192) as Hc by reflexivity. rewrite Hc.
  pose proof (Z.div_mod n 8192 ltac:(lia)). pose proof (Z.mod_pos_bound n 8192 ltac:(lia)).
  pose proof (Z.div_pos n 8192 Hn ltac:(lia)). rewrite Z2Nat.id by lia. lia.
Qed.

(** ** Lemmas on the receive loop *)

Ltac read_step :=
  match goal with
  | H : context [read_exact ?n ?r] |- _ =>
      let r' := fresh "r" in let bs := fresh "bs" in let e := fresh "e" in
      let E := fresh "Hread" in
      destruct (read_exact n r) as [r' [bs|e]] eqn:E
  end.

(** A turn that goes on, or that yields a frame, has consumed bytes. *)
Lemma recv_typed_turn_consumes r r' x :
  recv_typed_turn r = (r', x) ->
  (length (incoming r') <= length (incoming r))%nat /\
  match x with
  | inl _ | inr (Ok (Some _)) => (length (incoming r') < length (incoming r))%nat
  | _ => True
  end.
Proof.
  unfold recv_typed_turn. intros Ht. read_step.
  2: { apply read_exact_length in Hread. destruct e; simplify_eq/=; auto. }
  apply read_exact_Ok in Hread as (Hin & Hl & _); [|lia].
  assert (length (incoming r) = 4 + length (incoming r0))%nat as Hlen.
  { rewrite Hin, length_app. unfold zlen in Hl. lia. }
  case_decide; [simplify_eq; split; [lia|done]|].
  case_decide; [simplify_eq; split; [lia|done]|]. read_step.
  2: { apply read_exact_length in Hread. simplify_eq. split; [lia|done]. }
  apply read_exact_length in Hread.
  destruct (frame_type_try_from _) as [t|].
  - case_decide; [simplify_eq; split; [lia|done]|]. read_step;
      apply read_exact_length in Hread0; simplify_eq; split; auto; lia.
  - pose proof (from_be_bytes_bounds bs). rewrite discard_exact_spec in Ht by lia.
    destruct (read_exact _ r1) as [r2 res] eqn:Hr2. apply read_exact_length in Hr2.
    simpl in Ht. destruct (is_ok res); simplify_eq; split; auto; lia.
Qed.

(** Enough fuel gives a result, and more fuel the same one. *)
Lemma recv_typed_loop_total fuel r :
  (length (incoming r) < fuel)%nat -> is_Some (recv_typed_loop fuel r).
Proof.
  revert r. induction fuel as [|fuel IH]; intros r Hf; [lia|]. cbn [recv_typed_loop].
  destruct (recv_typed_turn r) as [r' [[]|res]] eqn:Ht; [|done].
  apply recv_typed_turn_consumes in Ht as [_ ?]. apply IH. lia.
Qed.

Lemma recv_typed_loop_mono fuel fuel' r x :
  recv_typed_loop fuel r = Some x -> (fuel <= fuel')%nat -> recv_typed_loop fuel' r = Some x.
Proof.
  revert fuel' r. induction fuel as [|fuel IH]; intros [|fuel'] r Hx Hle; try done; [lia|].
  cbn [recv_typed_loop] in *. destruct (recv_typed_turn r) as [r' [[]|res]]; [|done].
  apply IH; [done|lia].
Qed.

Lemma recv_typed_frame_turn r :
  recv_typed_frame r =
    match recv_typed_turn r with
    | (r', inr res) => Some (r', res)
    | (r', inl _) => recv_typed_frame r'
    end.
Proof.
  unfold recv_typed_frame at 1. cbn [recv_typed_loop].
  destruct (recv_typed_turn r) as [r' [[]|res]] eqn:Ht; [|done].
  apply recv_typed_turn_consumes in Ht as [_ Hlt].
  destruct (recv_typed_loop_total (S (length (incoming r'))) r') as [x Hx]; [lia|].
  unfold recv_typed_frame. rewrite Hx. eapply recv_typed_loop_mono; [done|lia].
Qed.

(** A property of every turn holds of the loop. *)
Lemma recv_typed_frame_ind (P : Reader -> Reader -> result FrameError (option TypedNotebookFrame) -> Prop) :
  (forall r r' res, recv_typed_turn r = (r', inr res) -> P r r' res) ->
  (forall r r1 r' res, recv_typed_turn r = (r1, inl ()) -> P r1 r' res -> P r r' res) ->
  forall r, exists r' res, recv_typed_frame r = Some (r', res) /\ P r r' res.
Proof.
  intros Hdone Hmore r. remember (length (incoming r)) as n eqn:Hn. revert r Hn.
  induction (lt_wf n) as [n _ IH]; intros r ->. rewrite recv_typed_frame_turn.
  destruct (recv_typed_turn r) as [r' [[]|res]] eqn:Ht; [|eauto].
  pose proof (recv_typed_turn_consumes _ _ _ Ht) as [_ Hlt].
  destruct (IH _ Hlt r' eq_refl) as (r2 & res & Hr & HP). eauto.
Qed.

Lemma recv_typed_frame_total r : exists r' res, recv_typed_frame r = Some (r', res) /\
  match res with
  | Ok (Some f) => (length (incoming r') < length (incoming r))%nat
  | _ => True
  end.
Proof.
  apply (recv_typed_frame_ind (fun r r' res => match res with
    | Ok (Some f) => (length (incoming r') < length (incoming r))%nat | _ => True end)).
  - intros r0 r' res Ht. by apply recv_typed_turn_consumes in Ht as [_ ?].
  - intros r0 r1 r' res Ht. apply recv_typed_turn_consumes in Ht as [_ ?].
    destruct res as [[f|]|]; [lia|done..].
Qed.

Lemma items_from_enough fuel r :
  (length (incoming r) < fuel)%nat -> items_from fuel r = stream_items r.
Proof.
  unfold stream_items. remember (S (length (incoming r))) as k eqn:Hk.
  assert (length (incoming r) < k)%nat as Hlt by lia. clear Hk.
  revert k r Hlt. induction fuel as [|fuel IH]; intros [|k] r Hk Hf; [lia..|].
  cbn [items_from]. destruct (recv_typed_frame_total r) as (r' & res & -> & Hc).
  destruct res as [[f|]|]; [|done..]. f_equal. apply IH; lia.
Qed.

Lemma stream_items_eq r :
  stream_items r =
    match recv_typed_frame r with
    | Some (r', Ok (Some frame)) => Ok frame :: stream_items r'
    | Some (_, Err e) => [Err e]
    | _ => []
    end.
Proof.
  unfold stream_items at 1. cbn [items_from].
  destruct (recv_typed_frame_total r) as (r' & res & -> & Hc).
  destruct res as [[f|]|]; [|done..]. f_equal. apply items_from_enough. lia.
Qed.

Lemma stream_items_turn r :
  stream_items r =
    match recv_typed_turn r with
    | (r', inl _) => stream_items r'
    | (r', inr (Ok (Some frame))) => Ok frame :: stream_items r'
    | (_, inr (Err e)) => [Err e]
    | _ => []
    end.
Proof.
  rewrite stream_items_eq, recv_typed_frame_turn.
  destruct (recv_typed_turn r) as [r' [[]|res]]; [|done]. by rewrite <- stream_items_eq.
Qed.

(** ** Frames on the wire *)

Definition frame_bytes (b : byte) (body : bytes) : bytes :=
  to_be_bytes 4 (1 + zlen body) ++ b :: body.

(** What the receiver makes of a sent frame: unknown types are skipped. *)
Definition received (f : byte * bytes) : option TypedNotebookFrame :=
  (fun t => mkFrame t f.2) <$> frame_type_try_from f.1.

Definition sendable (f : byte * bytes) : Prop :=
  zlen f.2 <= cap (frame_size_limits f.1) /\ 1 + zlen f.2 <= MAX_FRAME_SIZE.

Lemma length_prefix_round n :
  0 <= n <= MAX_FRAME_SIZE -> from_be_bytes (to_be_bytes 4 n) = n.
Proof.
  intros Hn. apply from_to_be_bytes. assert (MAX_FRAME_SIZE < 256 ^ Z.of_nat 4) by
    (vm_compute; reflexivity). lia.
Qed.

Lemma write_all_Ok bs w w' :
  write_all bs w = (w', Ok ()) ->
  written w' = written w ++ bs.
Proof. unfold write_all. destruct (room w); [case_decide|]; intros; by simplify_eq/=. Qed.

Lemma send_frame_Ok data w w' :
  send_frame data w = (w', Ok ()) ->
  zlen data <= MAX_FRAME_SIZE /\ written w' = written w ++ to_be_bytes 4 (zlen data) ++ data.
Proof.
  unfold send_frame. case_decide as Hmax; [done|]. intros Hs.
  destruct (write_all _ w) as [w1 [[]|]] eqn:H1; [|done].
  destruct (write_all _ w1) as [w2 [[]|]] eqn:H2; [|done].
  apply write_all_Ok in H1, H2. unfold flush in Hs. destruct (flush_error w2); simplify_eq.
  split; [lia|]. rewrite H2, H1, <- app_assoc. do 2 f_equal.
  rewrite Z.mod_small; [done|]. pose proof (zlen_nonneg data).
  assert (MAX_FRAME_SIZE < 2 ^ 32) by (vm_compute; reflexivity). lia.
Qed.

Lemma send_raw_typed_frame_Ok b body w w' :
  send_raw_typed_frame b body w = (w', Ok ()) ->
  sendable (b, body) /\ written w' = written w ++ frame_bytes b body.
Proof.
  unfold send_raw_typed_frame. case_decide as Hc; [done|]. intros Hs.
  apply send_frame_Ok in Hs as [Hmax Hw].
  assert (zlen (b :: body) = 1 + zlen body) as Hz by (unfold zlen; simpl; lia).
  rewrite Hz in *. unfold sendable. simpl. split; [lia|done].
Qed.

(** The head of the receive loop on a well-formed length prefix. *)
Lemma recv_typed_turn_frame b body rest e :
  sendable (b, body) ->
  recv_typed_turn (mkReader (frame_bytes b body ++ rest) e) =
    (mkReader rest e,
     match received (b, body) with Some f => inr (Ok (Some f)) | None => inl () end).
Proof.
  intros [Hcap Hmax]. cbn [fst snd] in *. pose proof (zlen_nonneg body) as Hnn.
  unfold recv_typed_turn, frame_bytes. rewrite <- app_assoc.
  rewrite read_exact_app by (unfold zlen; by rewrite length_to_be_bytes).
  rewrite length_prefix_round by lia.
  rewrite decide_False by lia. rewrite decide_False by lia.
  change ((b :: body) ++ rest) with ([b] ++ body ++ rest).
  rewrite read_exact_app by done. cbn [nth].
  replace (1 + zlen body - 1) with (zlen body) by lia.
  unfold received, frame_size_limits in *. cbn [fst snd].
  destruct (frame_type_try_from b) as [t|]; simpl.
  - rewrite decide_False by lia. by rewrite read_exact_app.
  - rewrite discard_exact_spec by lia. by rewrite read_exact_app.
Qed.

Lemma stream_items_frame b body rest e :
  sendable (b, body) ->
  stream_items (mkReader (frame_bytes b body ++ rest) e) =
    option_list (Ok <$> received (b, body)) ++ stream_items (mkReader rest e).
Proof.
  intros Hs. rewrite stream_items_turn, recv_typed_turn_frame by done.
  by destruct (received (b, body)).
Qed.

(** A frame cut anywhere before its end. *)
Lemma stream_items_torn b body k :
  sendable (b, body) -> (k < length (frame_bytes b body))%nat ->
  stream_items (mkReader (take k (frame_bytes b body)) None) =
    if decide (k < 4)%nat then [] else [Err UnexpectedEof].
Proof.
  intros [Hcap Hmax] Hk. cbn [fst snd] in *. pose proof (zlen_nonneg body) as Hnn.
  unfold frame_bytes in *. rewrite length_app, length_to_be_bytes in Hk. simpl in Hk.
  rewrite stream_items_turn. unfold recv_typed_turn. case_decide as H4.
  { rewrite read_exact_short; [done|]. unfold zlen. simpl. rewrite length_take. lia. }
  rewrite take_app_ge by (rewrite length_to_be_bytes; lia). rewrite length_to_be_bytes.
  rewrite read_exact_app by (unfold zlen; by rewrite length_to_be_bytes).
  rewrite length_prefix_round by lia.
  rewrite decide_False by lia. rewrite decide_False by lia.
  destruct (k - 4)%nat as [|k'] eqn:Hk'; [by rewrite read_exact_short|]. cbn [take].
  change (b :: take k' body) with ([b] ++ take k' body).
  rewrite read_exact_app by done. cbn [nth].
  replace (1 + zlen body - 1) with (zlen body) by lia.
  assert (zlen (take k' body) < zlen body) as Hshort.
  { unfold zlen. rewrite length_take. lia. }
  unfold frame_size_limits in Hcap. destruct (frame_type_try_from b) as [t|].
  - rewrite decide_False by lia. by rewrite read_exact_short.
  - rewrite discard_exact_spec by lia. by rewrite read_exact_short.
Qed.

Definition wire (fs : list (byte * bytes)) : bytes :=
  mjoin ((fun f => frame_bytes f.1 f.2) <$> fs).

Lemma stream_items_wire fs rest e :
  Forall sendable fs ->
  stream_items (mkReader (wire fs ++ rest) e) =
    (Ok <$> omap received fs) ++ stream_items (mkReader rest e).
Proof.
  induction 1 as [|[b body] fs Hf Hfs IH]; [done|].
  change (wire ((b, body) :: fs)) with (frame_bytes b body ++ wire fs).
  rewrite <- app_assoc, stream_items_frame, IH by done.
  cbn [omap list_omap]. by destruct (received (b, body)).
Qed.

(** Sends in sequence, stopping at the first error. *)
Fixpoint send_batch (fs : list (byte * bytes)) (w : Writer) : Writer * result FrameError () :=
  match fs with
  | [] => (w, Ok ())
  | f :: fs' =>
      match send_raw_typed_frame f.1 f.2 w with
      | (w, Ok _) => send_batch fs' w
      | (w, Err e) => (w, Err e)
      end
  end.

Lemma send_batch_Ok fs w w' :
  send_batch fs w = (w', Ok ()) -> Forall sendable fs /\ written w' = written w ++ wire fs.
Proof.
  revert w. induction fs as [|[b body] fs IH]; intros w; cbn [send_batch].
  - intros [= <-]. split; [done|]. by rewrite app_nil_r.
  - simpl. destruct (send_raw_typed_frame b body w) as [w1 [[]|]] eqn:Hs; [|done]. intros Hb.
    apply send_raw_typed_frame_Ok in Hs as [Hok Hw]. apply IH in Hb as [Hfs Hw'].
    split; [by constructor|]. rewrite Hw', Hw, <- app_assoc. done.
Qed.

(** ** The reader task *)

Lemma stream_items_recv r r' res :
  recv_typed_frame r = Some (r', res) ->
  stream_items r =
    match res with Ok (Some f) => Ok f :: stream_items r' | Ok None => [] | Err e => [Err e] end.
Proof. intros Hr. rewrite stream_items_eq, Hr. by destruct res as [[f|]|]. Qed.

(** What the task still has to put into the channel. *)
Definition undelivered (f : FramedReader) : list item :=
  match fr_task f with
  | Reading => stream_items (fr_reader f)
  | Sending (Ok x) => Ok x :: stream_items (fr_reader f)
  | Sending (Err e) => [Err e]
  | Finished => []
  end.

Definition framed_ok (items : list item) (x : FramedReader * list item) : Prop :=
  let '(f, got) := x in
  (length (fr_queue f) <= fr_capacity f)%nat /\
  if fr_open f then got ++ fr_queue f ++ undelivered f = items
  else got `prefix_of` items /\ fr_queue f = [].

Lemma recv_framed_ok items f got :
  framed_ok items (f, got) ->
  framed_ok items (match recv f with (f', Item i) => (f', got ++ [i]) | (f', _) => (f', got) end).
Proof.
  unfold framed_ok, recv. destruct (fr_queue f) as [|i q] eqn:Hq.
  - intros Hok. destruct (fr_task f); by rewrite Hq.
  - simpl. intros [Hl Ho]. split; [lia|]. destruct (fr_open f); [|by destruct Ho].
    unfold undelivered in *. simpl. by rewrite <- app_assoc.
Qed.

Lemma fr_step_ok items x a : framed_ok items x -> framed_ok items (fr_step x a).
Proof.
  destruct x as [f got]. intros Hok. destruct a; cbn [fr_step].
  - unfold framed_ok in *. destruct Hok as [Hl Ho].
    unfold task_step, undelivered in *. destruct (fr_task f) as [|i|] eqn:Ht; cycle 2.
    + by rewrite Ht.
    + destruct (recv_typed_frame_total (fr_reader f)) as (r' & res & Hr & _).
      rewrite (stream_items_recv _ _ _ Hr) in Ho. rewrite Hr.
      destruct res as [[y|]|e]; simpl; done.
    + destruct (fr_open f) eqn:Hop; [|done]. case_decide as Hroom; [|by rewrite Hop, Ht].
      simpl. rewrite length_app. simpl. split; [lia|]. rewrite <- app_assoc.
      by destruct i.
  - by apply recv_framed_ok.
  - apply recv_framed_ok in Hok. unfold try_recv. by destruct (recv f) as [f' [|i|]].
  - unfold framed_ok in *. simpl. destruct Hok as [_ Ho]. split; [lia|]. split; [|done].
    destruct (fr_open f); [|by destruct Ho]. rewrite <- Ho. by apply prefix_app_r.
Qed.

Lemma fr_run_ok acts r capacity :
  framed_ok (stream_items r) (fr_run acts (spawn r capacity)).
Proof.
  assert (framed_ok (stream_items r) (spawn r capacity, [])) as H0 by (split; simpl; [lia|done]).
  unfold fr_run. revert H0. generalize (spawn r capacity, @nil item).
  induction acts as [|a acts IH]; intros x Hx; [done|]. by apply IH, fr_step_ok.
Qed.

Lemma fr_run_capacity acts f got :
  fr_capacity (foldl fr_step (f, got) acts).1 = fr_capacity f.
Proof.
  assert (forall x a, fr_capacity (fr_step x a).1 = fr_capacity x.1) as Hs.
  { intros [g got'] a. unfold fr_step, task_step, try_recv, recv.
    destruct a; repeat case_match; by simplify_eq/=. }
  change f with (f, got).1 at 2. generalize (f, got). induction acts as [|a acts IH]; [done|].
  intros x. simpl. by rewrite IH, Hs.
Qed.

(** One round of an attentive consumer. *)
Definition round : list action := [ActTask; ActTask; ActRecv].

Lemma round_delivers r capacity got i items :
  (0 < capacity)%nat -> stream_items r = i :: items ->
  exists r' t, foldl fr_step (mkFramed r Reading [] capacity true, got) round =
    (mkFramed r' t [] capacity true, got ++ [i]) /\
    (t = Reading /\ stream_items r' = items \/ t = Finished /\ items = []).
Proof.
  intros Hc Hi. destruct (recv_typed_frame_total r) as (r' & res & Hr & _).
  rewrite (stream_items_recv _ _ _ Hr) in Hi.
  unfold round. cbn [foldl fr_step]. unfold task_step at 2. cbn [fr_task fr_reader]. rewrite Hr.
  destruct res as [[y|]|e]; simplify_eq; unfold task_step; cbn [fr_task fr_open fr_queue fr_capacity length];
    rewrite decide_True by lia; cbn; eauto 6.
Qed.

Lemma rounds_deliver n r capacity got :
  (0 < capacity)%nat -> length (stream_items r) = n ->
  let x := foldl fr_step (mkFramed r Reading [] capacity true, got)
    (mjoin (replicate (S n) round)) in
  x.2 = got ++ stream_items r /\ (recv x.1).2 = Closed.
Proof.
  intros Hc. revert r got. induction n as [|n IH]; intros r got Hn.
  - destruct (stream_items r) eqn:Hi; [|done]. rewrite app_nil_r.
    destruct (recv_typed_frame_total r) as (r' & res & Hr & _).
    rewrite (stream_items_recv _ _ _ Hr) in Hi. destruct res as [[y|]|e]; simplify_eq.
    cbn -[recv_typed_frame]. unfold task_step at 2. cbn [fr_task fr_reader]. by rewrite Hr.
  - destruct (stream_items r) as [|i items] eqn:Hi; [done|]. injection Hn as Hn.
    change (mjoin (replicate (S (S n)) round)) with (round ++ mjoin (replicate (S n) round)).
    rewrite foldl_app.
    destruct (round_delivers r capacity got i items Hc Hi) as (r' & t & -> & [[-> Hit]|[-> ->]]).
    + destruct (IH r' (got ++ [i])) as [H1 H2]; [by rewrite Hit|].
      split; [|done]. by rewrite H1, Hit, <- app_assoc.
    + subst n. by cbn.
Qed.

(** ** Claims *)

(** C20. Typed frames round-trip: whatever frames a sender writes, of known and
    unknown types, when every send succeeds the receiver yields exactly the frames
    of known type, in order and with their payloads, and then the end of the
    stream; frames of unknown type are skipped without disturbing the others. *)
Theorem typed_frames_roundtrip fs limit fe w e :
  send_batch fs (mkWriter [] limit fe) = (w, Ok ()) ->
  stream_items (mkReader (written w) e) =
    (Ok <$> omap received fs) ++ option_list (Err ∘ StreamFailed <$> e).
Proof.
  intros Hs. apply send_batch_Ok in Hs as [Hfs ->]. cbn [written].
  rewrite app_nil_l, <- (app_nil_r (wire fs)), stream_items_wire by done. f_equal.
  by destruct e.
Qed.

(** A connection cut at any byte delivers whole frames only: the receiver
    yields the known frames among the first [n] sent, those that arrived whole,
    and then either the end of the stream, when fewer than four bytes of the next
    frame arrived, or one end-of-file error.  No frame is ever made up from part
    of another. *)
Theorem truncation_never_corrupts fs limit fe w k :
  send_batch fs (mkWriter [] limit fe) = (w, Ok ()) ->
  exists n,
    (length (wire (take n fs)) <= k)%nat /\
    ((n < length fs)%nat -> (k < length (wire (take (S n) fs)))%nat) /\
    stream_items (mkReader (take k (written w)) None) =
      (Ok <$> omap received (take n fs)) ++
      (if decide (n < length fs /\ length (wire (take n fs)) + 4 <= k)%nat
       then [Err UnexpectedEof] else []).
Proof.
  intros Hs. apply send_batch_Ok in Hs as [Hfs ->]. cbn [written]. rewrite app_nil_l.
  clear limit fe w. revert k. induction Hfs as [|[b body] fs Hf Hfs IH]; intros k.
  - exists 0%nat. cbn [take]. change (wire []) with (@nil byte). rewrite take_nil.
    split_and!; [cbn; lia|cbn; lia|]. rewrite decide_False by (cbn; lia). done.
  - change (wire ((b, body) :: fs)) with (frame_bytes b body ++ wire fs).
    destruct (decide (k < length (frame_bytes b body))%nat) as [Hk|Hk].
    + exists 0%nat. cbn [take]. split_and!; [cbn; lia| |].
      * intros _. unfold wire. cbn [fmap list_fmap mjoin list_join fst snd].
        by rewrite app_nil_r.
      * rewrite take_app_le, stream_items_torn by (done || lia).
        cbn [wire fmap list_fmap mjoin list_join length omap list_omap app].
        destruct (decide (k < 4)%nat), (decide _); done || lia.
    + destruct (IH (k - length (frame_bytes b body))%nat) as (n & Hn & Hn' & Hi).
      exists (S n). cbn [take].
      change (wire ((b, body) :: take n fs)) with (frame_bytes b body ++ wire (take n fs)).
      rewrite length_app. split_and!; [lia| |].
      * cbn [length]. intros Hlt. 
        change (wire ((b, body) :: take (S n) fs)) with (frame_bytes b body ++ wire (take (S n) fs)).
        rewrite length_app. specialize (Hn' ltac:(lia)). lia.
      * rewrite take_app_ge by lia. rewrite stream_items_frame, Hi by done.
        rewrite app_assoc. cbn [omap list_omap length]. f_equal; [by destruct (received _)|].
        destruct (decide _), (decide _); done || lia.
Qed.

(** The cancel-safe reader loses, reorders and invents nothing: under every
    schedule of the reader task, of [recv] polls (completed or cancelled), of
    [try_recv] and of dropping the reader, what the consumer got is a prefix of
    the items of the stream, the channel never exceeds its capacity, and the
    channel of a live reader reports its end only after everything was
    delivered.  With a positive capacity, a consumer that keeps polling gets every
    item and then the end. *)
Theorem framed_reader_lossless r capacity :
  (forall acts, let '(f, got) := fr_run acts (spawn r capacity) in
     got `prefix_of` stream_items r /\
     (length (fr_queue f) <= capacity)%nat /\
     (fr_open f = true -> (recv f).2 = Closed -> got = stream_items r)) /\
  ((0 < capacity)%nat ->
     let '(f, got) := fr_run (mjoin (replicate (S (length (stream_items r))) round))
       (spawn r capacity) in
     got = stream_items r /\ (recv f).2 = Closed).
Proof.
  split.
  - intros acts. pose proof (fr_run_ok acts r capacity) as Hok.
    pose proof (fr_run_capacity acts (spawn r capacity) []) as Hcap. fold fr_run in Hcap.
    destruct (fr_run acts (spawn r capacity)) as [f got] eqn:Hf.
    destruct Hok as [Hl Ho]. unfold fr_run in Hf. rewrite Hf in Hcap. simpl in Hcap.
    rewrite Hcap in Hl. split_and!; [|done|].
    + destruct (fr_open f); [|by destruct Ho]. rewrite <- Ho. by apply prefix_app_r.
    + intros Hop. rewrite Hop in Ho. unfold recv, undelivered in *.
      destruct (fr_queue f); [|done]. destruct (fr_task f); [done..|].
      by rewrite app_nil_r in Ho.
  - intros Hc. pose proof (rounds_deliver _ r capacity [] Hc eq_refl) as [H1 H2].
    unfold fr_run, spawn. by destruct (foldl _ _ _) as [f got].
Qed.

Section KeyedClaims.
Context `{HeaderJsonLaws}.

Lemma header_validate_Ok h :
  header_validate h = Ok () -> strlen (hd_kind h) <= 64 /\ strlen (hd_id h) <= 512.
Proof.
  unfold header_validate. destruct (negb _) eqn:Hk; [done|]. destruct (_ || _) eqn:Hi; [done|].
  intros _. apply negb_false_iff in Hk. apply andb_true_iff in Hk as [[_ Hk]%andb_true_iff _].
  apply orb_false_iff in Hi as [_ Hi].
  apply bool_decide_eq_true in Hk. apply bool_decide_eq_false in Hi.
  unfold MAX_KEYED_DOC_KIND_LEN, MAX_KEYED_DOC_ID_LEN in *. lia.
Qed.

(** Keyed document frames round-trip: every header a sender may use (a valid
    kind and id, any 64-bit epoch) is encoded within the receiver's header limit,
    whatever its id needs in JSON escapes, and parses back with the sync bytes
    that follow it; and the parser accepts only headers the validation accepts. *)
Theorem keyed_frame_roundtrip h sync :
  header_validate h = Ok () -> 0 <= hd_epoch h <= u64_max ->
  try_parse (encode_frame h sync) = Ok (h, sync) /\
  forall body h' sync', try_parse body = Ok (h', sync') -> header_validate h' = Ok ().
Proof.
  intros Hv He. split.
  - destruct (header_validate_Ok h Hv) as [Hk Hi].
    assert (512 <= u64_max) as Hu by (vm_compute; discriminate).
    destruct (header_json_round h He) as (bs & v & Hb & Hs & Ho & Hf & Hl); [lia..|].
    assert (zlen bs <= 4096) as Hmax by lia. pose proof (zlen_nonneg bs) as Hnn.
    pose proof (zlen_nonneg sync) as Hns.
    unfold encode_frame. rewrite Hb. rewrite Z.mod_small by lia.
    set (pre := to_be_bytes 4 (zlen bs)).
    assert (length pre = 4%nat) as Hpre by apply length_to_be_bytes.
    assert (zlen (pre ++ bs ++ sync) = 4 + zlen bs + zlen sync) as Hlen.
    { rewrite !zlen_app. unfold zlen at 1. rewrite Hpre. lia. }
    unfold try_parse, get_range. rewrite Hlen. rewrite decide_True by lia.
    replace (Z.to_nat (4 - 0)) with (length pre) by (rewrite Hpre; done).
    change (Z.to_nat 0) with 0%nat. rewrite drop_0, take_app_length.
    assert (from_be_bytes pre = zlen bs) as ->.
    { apply from_to_be_bytes. change (256 ^ Z.of_nat 4) with 4294967296. lia. }
    rewrite decide_False by (unfold MAX_KEYED_DOC_FRAME_HEADER_LEN, KIB; lia).
    rewrite decide_True by lia.
    replace (Z.to_nat (4 + zlen bs - 4)) with (length bs) by (unfold zlen; lia).
    replace (Z.to_nat 4) with (length pre) by (rewrite Hpre; done).
    rewrite drop_app_length, take_app_length, Hs, Ho, Hf, Hv. simpl negb. cbv iota.
    rewrite app_assoc, drop_app_exact; [done|]. rewrite length_app, Hpre. unfold zlen. lia.
  - intros body h' sync' Hp. unfold try_parse in Hp. repeat (case_match; simplify_eq).
    by destruct (header_validate h') as [[]|]; simplify_eq.
Qed.
End KeyedClaims.

(** A connection that dies inside a length prefix looks like a clean
    disconnect: with one to three bytes of a prefix received before the end of
    the stream, both receivers report the end and not an error. *)
Theorem torn_prefix_reported_clean (bs : bytes) :
  (0 < length bs < 4)%nat ->
  recv_typed_frame (mkReader bs None) = Some (mkReader [] None, Ok None) /\
  recv_frame (mkReader bs None) = (mkReader [] None, Ok None).
Proof.
  intros Hl. split.
  - rewrite recv_typed_frame_turn. unfold recv_typed_turn.
    rewrite read_exact_short; [done|]. unfold zlen. simpl. lia.
  - unfold recv_frame, recv_frame_with_limit. rewrite read_exact_short; [done|].
    unfold zlen. simpl. lia.
Qed.

(** Preambles: a receiver accepts exactly the five bytes a sender writes, and
    leaves the rest of the stream for the handshake. *)
Theorem preamble_accepted_iff r r' v :
  recv_preamble r = (r', Ok v) <->
  v = PROTOCOL_VERSION /\ ending r' = ending r /\
  exists w, send_preamble (mkWriter [] None None) = (w, Ok ()) /\
    incoming r = written w ++ incoming r'.
Proof.
  split.
  - unfold recv_preamble. intros Hr.
    destruct (read_exact PREAMBLE_LEN r) as [r1 [buf|e]] eqn:Hb; [|by destruct e].
    apply read_exact_Ok in Hb as (Hin & Hl & Hend); [|done].
    case_decide as Hm; [done|]. case_decide as Hv; [done|]. injection Hr as <- <-.
    assert (buf = MAGIC ++ [PROTOCOL_VERSION]) as ->.
    { unfold PREAMBLE_LEN, zlen in Hl.
      destruct buf as [|b0 [|b1 [|b2 [|b3 [|b4 [|? ?]]]]]]; try (simpl in Hl; lia).
      simpl in Hm, Hv. unfold MAGIC in *. by simplify_eq. }
    eauto 6.
  - intros (-> & He & w & [= <-] & Hin). unfold recv_preamble.
    destruct r as [inc e], r' as [inc' e']. simpl in He, Hin. subst.
    by rewrite (read_exact_app (MAGIC ++ [PROTOCOL_VERSION]) inc').
Qed.

(** ** A JSON codec for headers, and the witnesses *)

Module FramingExamples.

Definition str_bytes (s : string) : bytes :=
  (fun c => Z2b (Z.of_N (N_of_ascii c))) <$> String.list_ascii_of_string s.
Definition bytes_str (bs : bytes) : string :=
  String.string_of_list_ascii ((fun b => ascii_of_N (Byte.to_N b)) <$> bs).

Lemma bytes_str_bytes s : bytes_str (str_bytes s) = s.
Proof.
  unfold bytes_str, str_bytes. rewrite <- list_fmap_compose.
  rewrite <- (String.string_of_list_ascii_of_string s) at 2. f_equal.
  rewrite <- (list_fmap_id (String.list_ascii_of_string s)) at 2.
  apply list_fmap_ext. intros i c _. simpl. by destruct c as [[] [] [] [] [] [] [] []].
Qed.

(** Fields one after the other: the epoch in eight bytes, the kind with its
    length, the id. *)
#[export] Instance plain_header : HeaderJson := {|
  json_value := bytes;
  header_to_vec h := Ok (to_le_bytes 8 (hd_epoch h) ++ to_le_bytes 8 (strlen (hd_kind h)) ++
    str_bytes (hd_kind h) ++ str_bytes (hd_id h));
  json_from_slice bs := Ok bs;
  json_is_object bs := bool_decide (16 <= zlen bs);
  header_from_value bs :=
    let n := Z.to_nat (from_le_bytes (take 8 (drop 8 bs))) in
    Ok (mkHeader (bytes_str (take n (drop 16 bs))) (bytes_str (drop n (drop 16 bs)))
          (from_le_bytes (take 8 bs)));
|}.

Lemma length_str_bytes s : length (str_bytes s) = String.length s.
Proof.
  unfold str_bytes. rewrite length_fmap. induction s as [|c s IH]; [done|]. simpl. by rewrite IH.
Qed.

Lemma plain_header_round h :
  0 <= hd_epoch h <= u64_max -> strlen (hd_kind h) <= u64_max ->
  header_from_value (to_le_bytes 8 (hd_epoch h) ++ to_le_bytes 8 (strlen (hd_kind h)) ++
    str_bytes (hd_kind h) ++ str_bytes (hd_id h)) = Ok h.
Proof.
  intros He Hk.
  set (a := to_le_bytes 8 (hd_epoch h)). set (b := to_le_bytes 8 (strlen (hd_kind h))).
  assert (length a = 8%nat) as Ha by apply length_to_le_bytes.
  assert (length b = 8%nat) as Hb by apply length_to_le_bytes.
  unfold header_from_value, plain_header. cbv zeta.
  rewrite (take_app_exact a) by done. rewrite (drop_app_exact a) by done.
  rewrite (take_app_exact b) by done.
  rewrite (app_assoc a b), (drop_app_exact (a ++ b)) by (rewrite length_app; lia).
  assert (u64_max < 256 ^ Z.of_nat 8) as Hu by (vm_compute; reflexivity).
  unfold a, b. rewrite !from_to_le_bytes by (unfold strlen in *; lia).
  unfold strlen. rewrite Nat2Z.id.
  rewrite take_app_exact by (by rewrite length_str_bytes).
  rewrite drop_app_exact by (by rewrite length_str_bytes).
  rewrite !bytes_str_bytes. by destruct h.
Qed.

#[export] Instance plain_header_laws : HeaderJsonLaws.
Proof.
  split. intros h He Hk Hi. eexists _, _. split; [done|]. split; [done|].
  rewrite plain_header_round by done.
  assert (zlen (to_le_bytes 8 (hd_epoch h) ++ to_le_bytes 8 (strlen (hd_kind h)) ++
    str_bytes (hd_kind h) ++ str_bytes (hd_id h)) = 16 + strlen (hd_kind h) + strlen (hd_id h)) as Hz.
  { unfold zlen, strlen. rewrite !length_app, !length_to_le_bytes, !length_str_bytes. lia. }
  rewrite Hz. split_and!; [|done|unfold strlen; lia].
  apply bool_decide_eq_true. rewrite Hz. unfold strlen. lia.
Qed.

Definition hdr : KeyedDocFrameHeader := mkHeader "bokeh_session" "s1" 3.
Definition ping : list (byte * bytes) :=
  [(Byte.x01, [Byte.x7b; Byte.x7d]); (Byte.xff, [Byte.x00]); (Byte.x04, [])].
Definition sent_ping : Writer := fst (send_batch ping (mkWriter [] None None)).

Lemma typed_frames_roundtrip_witness :
  stream_items (mkReader (written sent_ping) None) =
    [Ok (mkFrame Request [Byte.x7b; Byte.x7d]); Ok (mkFrame Presence [])].
Proof.
  exact (typed_frames_roundtrip ping None None sent_ping None eq_refl).
Defined.

Lemma truncation_never_corrupts_witness :
  exists n, stream_items (mkReader (take 9 (written sent_ping)) None) =
      (Ok <$> omap received (take n ping)) ++
      (if decide (n < length ping /\ length (wire (take n ping)) + 4 <= 9)%nat
       then [Err UnexpectedEof] else []).
Proof.
  destruct (truncation_never_corrupts ping None None sent_ping 9 eq_refl) as (n & _ & _ & H).
  exists n. exact H.
Defined.

Lemma keyed_frame_roundtrip_witness :
  try_parse (encode_frame hdr [Byte.x2a]) = Ok (hdr, [Byte.x2a]).
Proof.
  destruct (keyed_frame_roundtrip hdr [Byte.x2a]) as [H _]; [reflexivity| |exact H].
  split; vm_compute; discriminate.
Defined.

Lemma torn_prefix_reported_clean_witness :
  recv_frame (mkReader [Byte.x00; Byte.x00] None) = (mkReader [] None, Ok None).
Proof. apply (torn_prefix_reported_clean [Byte.x00; Byte.x00]). simpl. lia. Defined.
End FramingExamples.
