(* ===== verification/BlobStore.v ===== *)
(** * The content-addressed blob store

    Model of [crates/runtimed/src/blob_store.rs]: the on-disk store (a blob and a
    metadata sidecar per SHA-256 hash), the in-memory layer with its
    insertion-order eviction, producer leases on ephemeral blobs, and the
    multipart publication.

    The disk holds one blob file and one sidecar per hash; [paths] is injective,
    so they are two maps, and a sidecar that does not parse is [None].  Temporary
    files have unique names and are never read.  Disk operations run under the
    shard's file lock, so each is one step; [StoreIo] gives the outcome of its
    system calls.  Times are integers. *)

From Stdlib Require Import Strings.Ascii.
From S2P Require Import Prelude Manifest.

(** ** Data *)

Definition MAX_BLOB_SIZE : Z := 100 * 1024 * 1024.
Definition EPHEMERAL_BLOB_CAP_BYTES : Z := 64 * 1024 * 1024.

Inductive BlobDurability := Durable | Ephemeral.

#[export] Instance BlobDurability_eq_dec : EqDecision BlobDurability.
Proof. solve_decision. Defined.

Record BlobMeta := mkMeta {
  bm_media_type : string;
  bm_size : Z;
  bm_created_at : Z;
  bm_durability : BlobDurability;
  ephemeral_leases : gmap string Z;
}.

Record EphemeralBlobLease := mkLease { lease_owner : string; lease_generation : Z }.

Record MemoryEntry := mkEntry {
  me_data : bytes;
  me_media_type : string;
  me_created_at : Z;
  me_durability : BlobDurability;
  me_seq : Z;
}.

Record MemoryLayer := mkMemory {
  entries : gmap string MemoryEntry;
  order : list (string * Z);
  total_bytes : Z;
  mem_cap : Z;
  next_seq : Z;
}.

Record BlobStore := mkStore {
  blobs : gmap string bytes;
  metas : gmap string (option BlobMeta);
  memory : MemoryLayer;
}.

(** Outcomes of the system calls of one operation; [None] is success.  The
    removals of a cleanup are best effort. *)
Record StoreIo := mkStoreIo {
  si_lock : option string;
  si_read_meta : option string;
  si_write_blob : option string;
  si_rename_blob : option string;
  si_write_meta : option string;
  si_remove_blob : option string;
  si_remove_meta : option string;
  si_cleanup : bool;
}.

Definition store_io_ok : StoreIo := mkStoreIo None None None None None None None true.

(** [merged_durability]. *)
Definition merged_durability (existing incoming : BlobDurability) : BlobDurability :=
  if decide (existing = Durable \/ incoming = Durable) then Durable else Ephemeral.

Definition is_hexdigit (c : ascii) : bool :=
  let n := Z.of_N (N_of_ascii c) in
  bool_decide (48 <= n <= 57 \/ 65 <= n <= 70 \/ 97 <= n <= 102).

Fixpoint all_hexdigits (s : string) : bool :=
  match s with EmptyString => true | String c s' => is_hexdigit c && all_hexdigits s' end.

(** [validate_hash]. *)
Definition validate_hash (h : string) : bool :=
  bool_decide (String.length h = 64%nat) && all_hexdigits h.

(** [hex::encode] writes two hexadecimal digits per byte. *)
Class HexLaws `{HexCodec} : Prop := {
  hex_encode_length bs : String.length (hex_encode bs) = (2 * length bs)%nat;
  hex_encode_digits bs : all_hexdigits (hex_encode bs) = true;
}.

(** ** The memory layer *)

Definition memory_new (cap : Z) : MemoryLayer := mkMemory ∅ [] 0 cap 0.

Definition saturating_sub (a b : Z) : Z := Z.max 0 (a - b).

(** The loop of [evict_to_cap]: pops the insertion order while over the cap. *)
Fixpoint evict_loop (cap : Z) (order : list (string * Z)) (es : gmap string MemoryEntry) (total : Z)
    : list (string * Z) * gmap string MemoryEntry * Z :=
  if decide (total > cap) then
    match order with
    | [] => ([], es, total)
    | (h, seq) :: order' =>
        match es !! h with
        | Some e =>
            if decide (me_seq e = seq) then
              evict_loop cap order' (delete h es) (saturating_sub total (zlen (me_data e)))
            else evict_loop cap order' es total
        | None => evict_loop cap order' es total
        end
    end
  else (order, es, total).

Definition evict_to_cap (m : MemoryLayer) : MemoryLayer :=
  let '(order, es, total) := evict_loop (mem_cap m) (order m) (entries m) (total_bytes m) in
  mkMemory es order total (mem_cap m) (next_seq m).

(** [MemoryLayer::insert]. *)
Definition memory_insert (h : string) (data : bytes) (media_type : string) (now : Z)
    (durability : BlobDurability) (m : MemoryLayer) : MemoryLayer :=
  if decide (zlen data > mem_cap m) then m
  else
    let '(total, durability) :=
      match entries m !! h with
      | Some existing =>
          (saturating_sub (total_bytes m) (zlen (me_data existing)),
           merged_durability (me_durability existing) durability)
      | None => (total_bytes m, durability)
      end in
    let seq := next_seq m in
    evict_to_cap (mkMemory
      (<[h := mkEntry data media_type now durability seq]> (entries m))
      (order m ++ [(h, seq)]) (total + zlen data) (mem_cap m) ((seq + 1) mod 2 ^ 64)).

(** [MemoryLayer::remove]. *)
Definition memory_remove (h : string) (m : MemoryLayer) : MemoryLayer * bool :=
  match entries m !! h with
  | Some e => (mkMemory (delete h (entries m)) (order m)
                 (saturating_sub (total_bytes m) (zlen (me_data e))) (mem_cap m) (next_seq m), true)
  | None => (m, false)
  end.

(** [MemoryEntry::meta]. *)
Definition entry_meta (e : MemoryEntry) : BlobMeta :=
  mkMeta (me_media_type e) (zlen (me_data e)) (me_created_at e) (me_durability e) ∅.

(** ** The store *)

Definition with_ephemeral_cap (cap : Z) : BlobStore := mkStore ∅ ∅ (memory_new cap).

Definition set_blobs (bs : gmap string bytes) (s : BlobStore) : BlobStore :=
  mkStore bs (metas s) (memory s).
Definition set_meta (h : string) (m : BlobMeta) (s : BlobStore) : BlobStore :=
  mkStore (blobs s) (<[h := Some m]> (metas s)) (memory s).
Definition set_memory (m : MemoryLayer) (s : BlobStore) : BlobStore :=
  mkStore (blobs s) (metas s) m.

Definition StoreResult (A : Type) : Type := BlobStore * result string A.

(** Early return of an I/O outcome. *)
Notation "'io!' e 'else' s 'in' k" :=
  (match e with Some err => (s, Err err) | None => k end)
  (at level 10, e at level 100, s at level 100, k at level 200,
   format "'[v' 'io!'  e  'else'  s  'in' '/' k ']'") : rust_scope.

(** The sidecar of a put on a hash that already has one. *)
Definition renewed_meta (media_type : string) (now : Z) (durability : BlobDurability)
    (lease : option EphemeralBlobLease) (m : BlobMeta) : BlobMeta :=
  let mixed_ownership :=
    bool_decide (bm_durability m = Ephemeral) && bool_decide (durability = Ephemeral) &&
    negb (Bool.eqb (bool_decide (is_Some lease)) (bool_decide (ephemeral_leases m <> ∅))) in
  let d := if mixed_ownership then Durable else merged_durability (bm_durability m) durability in
  let leases :=
    if decide (d = Durable) then ∅
    else match lease with
         | Some l => <[lease_owner l :=
             Z.max (default 0 (ephemeral_leases m !! lease_owner l)) (lease_generation l)]>
             (ephemeral_leases m)
         | None => ephemeral_leases m
         end in
  mkMeta media_type (bm_size m) now d leases.

(** The sidecar [put_part_files_with_hash] writes over an existing one. *)
Definition multipart_meta (media_type : string) (now : Z) (d : BlobDurability) (m : BlobMeta)
    : BlobMeta :=
  mkMeta media_type (bm_size m) now
    (if decide (ephemeral_leases m <> ∅) then Durable else merged_durability (bm_durability m) d) ∅.

(** [put_disk]. *)
Definition put_disk (io : StoreIo) (now : Z) (h : string) (data : bytes) (media_type : string)
    (durability : BlobDurability) (lease : option EphemeralBlobLease) (s : BlobStore)
    : StoreResult BlobDurability :=
  io! si_lock io else s in
  match metas s !! h with
  | Some parsed =>
      io! si_read_meta io else s in
      match parsed with
      | None => (s, Err "invalid metadata")
      | Some m =>
          let m := renewed_meta media_type now durability lease m in
          let finish s :=
            io! si_write_meta io else s in
            (set_meta h m s, Ok (bm_durability m)) in
          match blobs s !! h with
          | Some _ => finish s
          | None =>
              io! si_write_blob io else s in
              io! si_rename_blob io else s in
              finish (set_blobs (<[h := data]> (blobs s)) s)
          end
      end
  | None =>
      let written :=
        match si_write_blob io, si_rename_blob io with
        | None, None => Ok (set_blobs (<[h := data]> (blobs s)) s, true)
        | Some e, _ | None, Some e =>
            if decide (is_Some (blobs s !! h)) then Ok (s, false) else Err e
        end in
      match written with
      | Err e => (s, Err e)
      | Ok (s, we_wrote_blob) =>
          let m := mkMeta media_type (zlen data) now durability
            (match lease with
             | Some l => {[lease_owner l := lease_generation l]}
             | None => ∅
             end) in
          match si_write_meta io with
          | None => (set_meta h m s, Ok durability)
          | Some e =>
              if bool_decide (is_Some (metas s !! h)) && bool_decide (lease = None)
              then (s, Ok durability)
              else (if we_wrote_blob && si_cleanup io
                    then set_blobs (delete h (blobs s)) s else s, Err e)
          end
      end
  end.

Section Store.
Context `{HexCodec, Sha256}.

Definition blob_hash (data : bytes) : string := hex_encode (sha256 data).

(** [insert_memory]. *)
Definition insert_memory (h : string) (data : bytes) (media_type : string) (now : Z)
    (durability : BlobDurability) (s : BlobStore) : BlobStore :=
  set_memory (memory_insert h data media_type now durability (memory s)) s.

(** [put_with_lease]; [now] stamps the memory entry, [now_disk] the sidecar. *)
Definition put_with_lease (io : StoreIo) (now now_disk : Z) (data : bytes) (media_type : string)
    (durability : BlobDurability) (lease : option EphemeralBlobLease) (s : BlobStore)
    : StoreResult string :=
  if decide (zlen data > MAX_BLOB_SIZE) then (s, Err "blob too large")
  else
    let h := blob_hash data in
    match durability with
    | Durable =>
        match put_disk io now_disk h data media_type Durable None s with
        | (s, Err e) => (s, Err e)
        | (s, Ok effective) => (insert_memory h data media_type now effective s, Ok h)
        end
    | Ephemeral =>
        match put_disk io now_disk h data media_type Ephemeral lease s with
        | (s, Err e) => (s, Err e)
        | (s, Ok effective) =>
            (if decide (zlen data > mem_cap (memory s)) then s
             else insert_memory h data media_type now effective s, Ok h)
        end
    end.

(** [put_with_durability], [put_leased_ephemeral]. *)
Definition put_with_durability (io : StoreIo) (now now_disk : Z) (data : bytes)
    (media_type : string) (durability : BlobDurability) : BlobStore -> StoreResult string :=
  put_with_lease io now now_disk data media_type durability None.

Definition put_leased_ephemeral (io : StoreIo) (now now_disk : Z) (data : bytes)
    (media_type : string) (lease : EphemeralBlobLease) : BlobStore -> StoreResult string :=
  put_with_lease io now now_disk data media_type Ephemeral (Some lease).

(** The parts, read one after the other; [None] is a file that cannot be opened
    or read.  The sizes are summed with a checked addition. *)
Fixpoint read_parts (parts : list (option bytes)) (total : Z) (acc : bytes)
    : result string (Z * bytes) :=
  match parts with
  | [] => Ok (total, acc)
  | None :: _ => Err "part unreadable"
  | Some body :: parts' =>
      match checked_add_u64 total (zlen body) with
      | None => Err "multipart blob size overflow"
      | Some total => read_parts parts' total (acc ++ body)
      end
  end.

Inductive MultipartError :=
| InvalidExpectedHash
| PartsSizeMismatch (got expected : Z)
| PartsHashMismatch (got expected : string)
| PartIo (message : string).

(** The second half of [put_part_files_with_hash]: copy the parts to a temporary
    blob, verify size and hash, rename it into place and write the sidecar.
    [si_write_blob] stands for creating, writing and flushing the temporary. *)
Definition publish_parts (io : StoreIo) (now : Z) (parts : list (option bytes))
    (media_type : string) (expected_size : Z) (h : string) (durability : BlobDurability)
    (existing : option BlobMeta) (s : BlobStore) : BlobStore * result MultipartError string :=
  match read_parts parts 0 [], si_write_blob io with
  | Err e, _ | Ok _, Some e => (s, Err (PartIo e))
  | Ok (total, content), None =>
      if decide (total <> expected_size) then (s, Err (PartsSizeMismatch total expected_size))
      else if decide (blob_hash content <> h) then
        (s, Err (PartsHashMismatch (blob_hash content) h))
      else
        let renamed :=
          match si_rename_blob io with
          | None => Ok (set_blobs (<[h := content]> (blobs s)) s, true)
          | Some e => if decide (is_Some (blobs s !! h)) then Ok (s, false) else Err e
          end in
        match renamed with
        | Err e => (s, Err (PartIo e))
        | Ok (s, we_wrote_blob) =>
            let m := default (mkMeta media_type expected_size now durability ∅) existing in
            match si_write_meta io with
            | None => (set_meta h m s, Ok h)
            | Some e =>
                if decide (is_Some (metas s !! h)) then (s, Ok h)
                else (if we_wrote_blob && si_cleanup io
                      then set_blobs (delete h (blobs s)) s else s, Err (PartIo e))
            end
        end
  end.

(** [put_part_files_with_hash]. *)
Definition put_part_files_with_hash (io : StoreIo) (now : Z) (parts : list (option bytes))
    (media_type : string) (expected_size : Z) (expected_hash : string)
    (durability : BlobDurability) (s : BlobStore)
    : BlobStore * result MultipartError string :=
  let h := expected_hash in
  if negb (validate_hash h) then (s, Err InvalidExpectedHash)
  else match si_lock io with
  | Some e => (s, Err (PartIo e))
  | None =>
      let existing : result string (option BlobMeta) :=
        match metas s !! h with
        | None => Ok None
        | Some parsed =>
            match si_read_meta io, parsed with
            | Some e, _ => Err e
            | None, None => Err "invalid metadata"
            | None, Some m =>
                Ok (Some (multipart_meta media_type now durability m))
            end
        end in
      match existing with
      | Err e => (s, Err (PartIo e))
      | Ok existing =>
          match blobs s !! h, existing with
          | Some _, Some m =>
              match si_write_meta io with
              | Some e => (s, Err (PartIo e))
              | None => (set_meta h m s, Ok h)
              end
          | _, _ => publish_parts io now parts media_type expected_size h durability existing s
          end
      end
  end.

(** [get]; [io] is the outcome of the disk read. *)
Definition get (io : option string) (h : string) (s : BlobStore) : result string (option bytes) :=
  if negb (validate_hash h) then Ok None
  else match entries (memory s) !! h with
  | Some e => Ok (Some (me_data e))
  | None => match io with Some e => Err e | None => Ok (blobs s !! h) end
  end.

(** [get_meta]. *)
Definition get_meta (io : option string) (h : string) (s : BlobStore)
    : result string (option BlobMeta) :=
  if negb (validate_hash h) then Ok None
  else match entries (memory s) !! h with
  | Some e => Ok (Some (entry_meta e))
  | None =>
      match io, metas s !! h with
      | Some e, _ => Err e
      | None, None => Ok None
      | None, Some None => Err "invalid metadata"
      | None, Some (Some m) => Ok (Some m)
      end
  end.

(** [exists]. *)
Definition blob_exists (h : string) (s : BlobStore) : bool :=
  validate_hash h &&
  (bool_decide (is_Some (entries (memory s) !! h)) || bool_decide (is_Some (blobs s !! h))).

(** [delete]; both removals are best effort. *)
Definition delete_blob (io : StoreIo) (h : string) (s : BlobStore) : StoreResult bool :=
  if negb (validate_hash h) then (s, Ok false)
  else
    let '(m, in_memory) := memory_remove h (memory s) in
    let existed := bool_decide (is_Some (blobs s !! h)) in
    let bs := if existed && bool_decide (si_remove_blob io = None)
              then delete h (blobs s) else blobs s in
    let ms := if existed && bool_decide (si_remove_meta io = None)
              then delete h (metas s) else metas s in
    (mkStore bs ms m, Ok (existed || in_memory)).

(** Remove the blob, then the sidecar, then the memory entry; [strict] says that
    a missing blob is an error. *)
Definition remove_locked (io : StoreIo) (strict : bool) (h : string) (s : BlobStore)
    : StoreResult bool :=
  let missing := bool_decide (blobs s !! h = None) in
  io! (match si_remove_blob io with
       | Some e => if missing && negb strict then None else Some e
       | None => if missing && strict then Some "not found" else None
       end) else s in
  let s := set_blobs (delete h (blobs s)) s in
  io! si_remove_meta io else s in
  (mkStore (blobs s) (delete h (metas s)) (fst (memory_remove h (memory s))), Ok true).

(** [delete_if_older_than], [delete_if_ephemeral] and [release_ephemeral_lease]
    start the same way: the lock, the sidecar, its text. *)
Definition with_locked_meta (io : StoreIo) (h : string) (s : BlobStore)
    (k : BlobMeta -> StoreResult bool) : StoreResult bool :=
  if negb (validate_hash h) then (s, Ok false)
  else
    io! si_lock io else s in
    match metas s !! h with
    | None => (s, Ok false)
    | Some parsed =>
        io! si_read_meta io else s in
        match parsed with
        | None => (s, Err "invalid metadata")
        | Some m => k m
        end
    end.

(** [delete_if_older_than]. *)
Definition delete_if_older_than (io : StoreIo) (h : string) (cutoff : Z) (s : BlobStore)
    : StoreResult bool :=
  with_locked_meta io h s (fun m =>
    if decide (bm_created_at m >= cutoff) then (s, Ok false)
    else remove_locked io true h s).

(** [delete_if_ephemeral]. *)
Definition delete_if_ephemeral (io : StoreIo) (h : string) (s : BlobStore) : StoreResult bool :=
  with_locked_meta io h s (fun m =>
    if decide (bm_durability m <> Ephemeral \/ ephemeral_leases m <> ∅) then (s, Ok false)
    else remove_locked io false h s).

(** [release_ephemeral_lease]. *)
Definition release_ephemeral_lease (io : StoreIo) (h : string) (lease : EphemeralBlobLease)
    (s : BlobStore) : StoreResult bool :=
  with_locked_meta io h s (fun m =>
    if decide (bm_durability m <> Ephemeral \/
               ephemeral_leases m !! lease_owner lease <> Some (lease_generation lease))
    then (s, Ok false)
    else
      let leases := delete (lease_owner lease) (ephemeral_leases m) in
      let m := mkMeta (bm_media_type m) (bm_size m) (bm_created_at m) (bm_durability m) leases in
      if decide (leases <> ∅) then
        io! si_write_meta io else s in
        (set_meta h m s, Ok false)
      else remove_locked io false h s).
End Store.

(** ** Histories

    A put is two steps, because the memory layer is updated after the shard lock
    is released; the second may come at any time, or never. *)
Inductive bop :=
| BPutDisk (io : StoreIo) (now : Z) (data : bytes) (media_type : string)
    (durability : BlobDurability) (lease : option EphemeralBlobLease)
| BInsertMemory (data : bytes) (media_type : string) (now : Z) (durability : BlobDurability)
| BParts (io : StoreIo) (now : Z) (parts : list (option bytes)) (media_type : string)
    (size : Z) (h : string) (durability : BlobDurability)
| BDelete (io : StoreIo) (h : string)
| BCollect (io : StoreIo) (h : string) (cutoff : Z)
| BDeleteEphemeral (io : StoreIo) (h : string)
| BRelease (io : StoreIo) (h : string) (lease : EphemeralBlobLease).

Section Histories.
Context `{HexCodec, Sha256}.

Definition bstep (s : BlobStore) (o : bop) : BlobStore :=
  match o with
  | BPutDisk io now data mt d lease => fst (put_disk io now (blob_hash data) data mt d lease s)
  | BInsertMemory data mt now d => insert_memory (blob_hash data) data mt now d s
  | BParts io now parts mt size h d =>
      fst (put_part_files_with_hash io now parts mt size h d s)
  | BDelete io h => fst (delete_blob io h s)
  | BCollect io h cutoff => fst (delete_if_older_than io h cutoff s)
  | BDeleteEphemeral io h => fst (delete_if_ephemeral io h s)
  | BRelease io h lease => fst (release_ephemeral_lease io h lease s)
  end.

Definition brun (ops : list bop) (s : BlobStore) : BlobStore := foldl bstep s ops.

(** ** The memory layer is bounded *)

Definition sizes (es : gmap string MemoryEntry) : Z :=
  map_fold (fun _ e acc => zlen (me_data e) + acc) 0 es.

Lemma sizes_insert es h e :
  es !! h = None -> sizes (<[h := e]> es) = zlen (me_data e) + sizes es.
Proof. intros Hn. unfold sizes. rewrite map_fold_insert_L; [done|intros; lia|done]. Qed.

Lemma sizes_delete es h e :
  es !! h = Some e -> sizes es = zlen (me_data e) + sizes (delete h es).
Proof. intros He. unfold sizes. rewrite (map_fold_delete_L _ _ h e); [done|intros; lia|done]. Qed.

Lemma sizes_nonneg es : 0 <= sizes es.
Proof.
  induction es as [|h e es Hn IH] using map_ind; [done|].
  rewrite sizes_insert by done. pose proof (zlen_nonneg (me_data e)). lia.
Qed.

(** The bookkeeping is exact and every entry is in the eviction order. *)
Definition memory_counted (m : MemoryLayer) : Prop :=
  total_bytes m = sizes (entries m) /\
  forall h e, entries m !! h = Some e -> (h, me_seq e) ∈ order m.

Variable cap : Z.

Definition memory_ok (m : MemoryLayer) : Prop :=
  memory_counted m /\ total_bytes m <= mem_cap m /\ mem_cap m = cap.

Lemma evict_loop_spec c order es total order' es' total' :
  0 <= c -> total = sizes es -> (forall h e, es !! h = Some e -> (h, me_seq e) ∈ order) ->
  evict_loop c order es total = (order', es', total') ->
  total' = sizes es' /\ total' <= c /\ es' ⊆ es /\
  forall h e, es' !! h = Some e -> (h, me_seq e) ∈ order'.
Proof.
  intros Hcap. revert es total. induction order as [|[h seq] order IH]; intros es total Ht Ho;
    cbn [evict_loop].
  - case_decide as Hover; intros; simplify_eq; split_and!; try done; try lia.
    assert (es' = ∅) as ->; [|by change (sizes ∅) with 0]. apply map_empty. intros h.
    destruct (es' !! h) as [e|] eqn:He; [|done]. by apply Ho, elem_of_nil in He.
  - case_decide as Hover; [|intros; simplify_eq; split_and!; done || lia].
    destruct (es !! h) as [e|] eqn:He; [destruct (decide (me_seq e = seq)) as [Hs|Hs]|].
    + intros Hev. apply IH in Hev as (? & ? & Hsub & ?).
      * split_and!; [done..| |done]. etrans; [done|]. apply delete_subseteq.
      * pose proof (sizes_delete _ _ _ He). pose proof (sizes_nonneg (delete h es)).
        pose proof (zlen_nonneg (me_data e)). unfold saturating_sub. lia.
      * intros h' e' He'. apply lookup_delete_Some in He' as [Hne He'].
        apply Ho, elem_of_cons in He' as [[= -> ->]|?]; done.
    + apply IH; [done|]. intros h' e' He'.
      pose proof (Ho _ _ He') as [[= -> Hq]|?]%elem_of_cons; [|done]. congruence.
    + apply IH; [done|]. intros h' e' He'.
      pose proof (Ho _ _ He') as [[= -> Hq]|?]%elem_of_cons; [|done]. congruence.
Qed.

Lemma evict_to_cap_ok m :
  0 <= mem_cap m -> mem_cap m = cap -> memory_counted m ->
  memory_ok (evict_to_cap m) /\
  entries (evict_to_cap m) ⊆ entries m.
Proof.
  intros Hcap Hc [Ht Ho]. unfold evict_to_cap.
  destruct (evict_loop _ _ _ _) as [[o' es'] t'] eqn:Hev.
  by apply evict_loop_spec in Hev as (? & ? & ? & ?).
Qed.

(** An insertion over a layer without the key, before eviction. *)
Lemma counted_insert es o h e t :
  es !! h = None -> t = sizes es -> (forall h' e', es !! h' = Some e' -> (h', me_seq e') ∈ o) ->
  t + zlen (me_data e) = sizes (<[h := e]> es) /\
  forall h' e', <[h := e]> es !! h' = Some e' -> (h', me_seq e') ∈ o ++ [(h, me_seq e)].
Proof.
  intros Hn -> Ho. split; [rewrite sizes_insert by done; lia|].
  intros h' e' [[<- <-]|[_ He']]%lookup_insert_Some; apply elem_of_app; [right|left; auto].
  by apply list_elem_of_singleton.
Qed.

Lemma memory_insert_ok h data mt now d m :
  memory_ok m -> memory_ok (memory_insert h data mt now d m) /\
  forall h' e, entries (memory_insert h data mt now d m) !! h' = Some e ->
    (h' = h /\ me_data e = data) \/ entries m !! h' = Some e.
Proof.
  intros ([Ht Ho] & Hcap & Hc). unfold memory_insert. case_decide as Hbig.
  { split; [done|]. auto. }
  pose proof (sizes_nonneg (entries m)) as Hnn.
  assert (exists t u, match entries m !! h with
      | Some x => (saturating_sub (total_bytes m) (zlen (me_data x)), merged_durability (me_durability x) d)
      | None => (total_bytes m, d) end = (t, u) /\ t = sizes (delete h (entries m)))
    as (t & u & -> & Htu).
  { destruct (entries m !! h) as [x|] eqn:Hx; eexists _, _; (split; [done|]).
    - pose proof (sizes_delete _ _ _ Hx). pose proof (sizes_nonneg (delete h (entries m))).
      pose proof (zlen_nonneg (me_data x)). unfold saturating_sub. lia.
    - by rewrite delete_id. }
  set (e := mkEntry data mt now u (next_seq m)).
  destruct (counted_insert (delete h (entries m)) (order m) h e t) as [H1 H2];
    [apply lookup_delete_eq|done| |].
  { intros h' e' [_ He']%lookup_delete_Some. auto. }
  rewrite insert_delete_eq in H1, H2.
  match goal with |- context [evict_to_cap ?m'] => set (m1 := m') end.
  destruct (evict_to_cap_ok m1) as (Hok & Hsub); [simpl; lia|done|by split|].
  split; [done|]. intros h' e' He'.
  apply (lookup_weaken _ _ _ _ He') in Hsub. unfold m1 in Hsub. cbn [entries] in Hsub.
  apply lookup_insert_Some in Hsub as [[<- <-]|[_ ?]]; auto.
Qed.

Lemma memory_remove_ok h m :
  memory_ok m -> memory_ok (fst (memory_remove h m)) /\
  entries (fst (memory_remove h m)) ⊆ entries m.
Proof.
  intros ([Ht Ho] & Hcap & Hc). unfold memory_remove. destruct (entries m !! h) as [e|] eqn:He; [|done].
  simpl. pose proof (sizes_delete _ _ _ He). pose proof (sizes_nonneg (delete h (entries m))).
  pose proof (zlen_nonneg (me_data e)). unfold memory_ok, memory_counted, saturating_sub. simpl.
  split_and!; [lia| |lia|done|apply delete_subseteq].
  intros h' e' [_ He']%lookup_delete_Some. auto.
Qed.

(** ** Content addressing *)

Definition store_ok (s : BlobStore) : Prop :=
  (forall h d, blobs s !! h = Some d -> blob_hash d = h) /\
  (forall h e, entries (memory s) !! h = Some e -> blob_hash (me_data e) = h) /\
  memory_ok (memory s).

(** What the disk half of any operation may do to a blob. *)
Lemma addressed_insert s h d m ms :
  store_ok s -> blob_hash d = h -> memory s = m ->
  store_ok (mkStore (<[h := d]> (blobs s)) ms m).
Proof.
  intros (Hb & He & Hm) Hd <-. split_and!; [|done..]. simpl.
  intros h' d' [[<- <-]|[_ ?]]%lookup_insert_Some; auto.
Qed.

Lemma addressed_subset s bs ms :
  store_ok s -> bs ⊆ blobs s -> store_ok (mkStore bs ms (memory s)).
Proof.
  intros (Hb & He & Hm) Hsub. split_and!; [|done..]. simpl.
  intros h d Hd. apply Hb. by eapply lookup_weaken.
Qed.

Lemma addressed_remove s bs ms h :
  store_ok s -> bs ⊆ blobs s -> store_ok (mkStore bs ms (fst (memory_remove h (memory s)))).
Proof.
  intros (Hb & He & Hm) Hsub. destruct (memory_remove_ok h _ Hm) as (Hok & Hes).
  split_and!; [|simpl; intros h' e' ?; apply He; by eapply lookup_weaken|done]. simpl.
  intros h' d Hd. apply Hb. by eapply lookup_weaken.
Qed.

Lemma set_meta_ok s h m : store_ok s -> store_ok (set_meta h m s).
Proof. intros Hs. by apply (addressed_subset s (blobs s)). Qed.

Lemma set_blobs_insert_ok s h d : store_ok s -> blob_hash d = h -> store_ok (set_blobs (<[h := d]> (blobs s)) s).
Proof. intros Hs Hd. by apply addressed_insert. Qed.

Lemma set_blobs_delete_ok s h : store_ok s -> store_ok (set_blobs (delete h (blobs s)) s).
Proof. intros Hs. apply addressed_subset; [done|apply delete_subseteq]. Qed.

Hint Resolve set_meta_ok set_blobs_insert_ok set_blobs_delete_ok : core.

Lemma remove_locked_ok io strict h s : store_ok s -> store_ok (fst (remove_locked io strict h s)).
Proof.
  intros Hs. unfold remove_locked. destruct (match si_remove_blob io with Some e => _ | None => _ end); [done|].
  destruct (si_remove_meta io); [by apply set_blobs_delete_ok|].
  apply (addressed_remove s); [done|apply delete_subseteq].
Qed.

Lemma with_locked_meta_ok io h s k :
  store_ok s -> (forall m, store_ok (fst (k m))) -> store_ok (fst (with_locked_meta io h s k)).
Proof.
  intros Hs Hk. unfold with_locked_meta.
  destruct (negb _), (si_lock io), (metas s !! h) as [[m|]|], (si_read_meta io); simpl; auto.
Qed.

Lemma put_disk_ok io now data mt d lease s :
  store_ok s -> store_ok (fst (put_disk io now (blob_hash data) data mt d lease s)).
Proof.
  intros Hs. unfold put_disk. destruct (si_lock io); [done|].
  destruct (metas s !! blob_hash data) as [[m|]|] eqn:Hm;
    [| by destruct (si_read_meta io)|].
  - destruct (si_read_meta io); [done|].
    destruct (blobs s !! blob_hash data), (si_write_blob io), (si_rename_blob io), (si_write_meta io);
      simpl; auto.
  - destruct (si_write_blob io), (si_rename_blob io); repeat case_decide; try done;
      destruct (si_write_meta io); cbn [fst]; auto; destruct (bool_decide _ && _); cbn [fst andb]; auto;
      destruct (si_cleanup io); cbn [fst andb]; auto.
Qed.

Lemma publish_parts_ok io now parts mt size h d ex s :
  store_ok s -> store_ok (fst (publish_parts io now parts mt size h d ex s)).
Proof.
  intros Hs. unfold publish_parts.
  destruct (read_parts _ _ _) as [[total content]|]; [|done].
  destruct (si_write_blob io); [done|]. case_decide; [done|].
  destruct (decide (blob_hash content <> h)) as [|Hc%dec_stable]; [done|].
  destruct (si_rename_blob io); [case_decide|]; try done;
    destruct (si_write_meta io); cbn [fst]; auto; case_decide; cbn [fst andb]; auto;
    destruct (si_cleanup io); cbn [fst andb]; auto.
Qed.

Lemma put_part_files_ok io now parts mt size h d s :
  store_ok s -> store_ok (fst (put_part_files_with_hash io now parts mt size h d s)).
Proof.
  intros Hs. unfold put_part_files_with_hash. destruct (negb _); [done|].
  destruct (si_lock io); [done|].
  destruct (match metas s !! h with Some p => _ | None => _ end) as [ex|]; [|done].
  destruct (blobs s !! h), ex; try by apply publish_parts_ok.
  destruct (si_write_meta io); simpl; auto.
Qed.

Lemma bstep_ok s o : store_ok s -> store_ok (bstep s o).
Proof.
  intros Hs. destruct o as [io now data mt d l|data mt now d|io now parts mt size h d|io h|io h c
    |io h|io h l]; cbn [bstep].
  - by apply put_disk_ok.
  - destruct Hs as (Hb & He & Hm). destruct (memory_insert_ok (blob_hash data) data mt now d _ Hm)
      as (Hok & Hes). split_and!; [done| |done]. simpl. intros h e [[-> ->]|?]%Hes; auto.
  - by apply put_part_files_ok.
  - unfold delete_blob. destruct (negb _); [done|].
    destruct (memory_remove h (memory s)) as [m b] eqn:Hm.
    replace m with (fst (memory_remove h (memory s))) by (by rewrite Hm).
    apply addressed_remove; [done|]. destruct (_ && _); [apply delete_subseteq|done].
  - apply with_locked_meta_ok; [done|]. intros m. case_decide; [done|]. by apply remove_locked_ok.
  - apply with_locked_meta_ok; [done|]. intros m. case_decide; [done|]. by apply remove_locked_ok.
  - apply with_locked_meta_ok; [done|]. intros m. case_decide; [done|].
    cbv zeta. case_decide; [|by apply remove_locked_ok]. destruct (si_write_meta io); simpl; auto.
Qed.

Lemma brun_ok ops s : store_ok s -> store_ok (brun ops s).
Proof. revert s. induction ops as [|o ops IH]; intros s Hs; [done|]. by apply IH, bstep_ok. Qed.

Lemma with_ephemeral_cap_ok : 0 <= cap -> store_ok (with_ephemeral_cap cap).
Proof. intros Hc. split_and!; [done..|]. by split_and!. Qed.
End Histories.

(** ** Retention *)

Section Retention.
Context `{HexCodec, Sha256}.

Definition op_hash (o : bop) : option string :=
  match o with
  | BPutDisk _ _ data _ _ _ => Some (blob_hash data)
  | BInsertMemory _ _ _ _ => None
  | BParts _ _ _ _ _ h _ | BDelete _ h | BCollect _ h _ | BDeleteEphemeral _ h
  | BRelease _ h _ => Some h
  end.

(** The blob and sidecar of [h] are those of the other store. *)
Definition same_at (h : string) (s s' : BlobStore) : Prop :=
  blobs s' !! h = blobs s !! h /\ metas s' !! h = metas s !! h.

Lemma same_at_refl h s : same_at h s s.
Proof. done. Qed.

Lemma same_at_set_meta h h' m s : h' <> h -> same_at h s (set_meta h' m s).
Proof. intros Hn. split; [done|]. simpl. by rewrite lookup_insert_ne. Qed.

Lemma same_at_set_blobs h h' d s : h' <> h -> same_at h s (set_blobs (<[h' := d]> (blobs s)) s).
Proof. intros Hn. split; [|done]. simpl. by rewrite lookup_insert_ne. Qed.

Lemma same_at_delete h h' s : h' <> h -> same_at h s (set_blobs (delete h' (blobs s)) s).
Proof. intros Hn. split; [|done]. simpl. by rewrite lookup_delete_ne. Qed.

Lemma same_at_trans h s1 s2 s3 : same_at h s1 s2 -> same_at h s2 s3 -> same_at h s1 s3.
Proof. unfold same_at. intros [-> ->] [-> ->]. done. Qed.

Hint Resolve same_at_refl same_at_set_meta same_at_set_blobs same_at_delete : core.

Lemma remove_locked_frame io strict h h' s : h' <> h -> same_at h s (fst (remove_locked io strict h' s)).
Proof.
  intros Hn. unfold remove_locked. destruct (match si_remove_blob io with Some e => _ | None => _ end); [done|].
  destruct (si_remove_meta io); cbn [fst]; [by apply same_at_delete|].
  split; simpl; by rewrite lookup_delete_ne.
Qed.

Lemma with_locked_meta_frame io h h' s k :
  (forall m, same_at h s (fst (k m))) -> same_at h s (fst (with_locked_meta io h' s k)).
Proof.
  intros Hk. unfold with_locked_meta.
  destruct (negb _), (si_lock io), (metas s !! h') as [[m|]|], (si_read_meta io); simpl; auto.
Qed.

Lemma publish_parts_frame io now parts mt size h h' d ex s :
  h' <> h -> same_at h s (fst (publish_parts io now parts mt size h' d ex s)).
Proof.
  intros Hn. unfold publish_parts. destruct (read_parts _ _ _) as [[total content]|]; [|done].
  destruct (si_write_blob io); [done|]. case_decide; [done|]. case_decide; [done|].
  destruct (si_rename_blob io); [case_decide|]; try done;
    destruct (si_write_meta io); cbn [fst]; eauto using same_at_trans; case_decide;
    cbn [fst andb]; eauto; destruct (si_cleanup io); cbn [fst andb]; eauto using same_at_trans.
Qed.

(** An operation on another hash leaves this one alone. *)
Lemma bstep_frame s o h : op_hash o <> Some h -> same_at h s (bstep s o).
Proof.
  intros Hn. destruct o as [io now data mt d l|data mt now d|io now parts mt size h' d|io h'|io h' c
    |io h'|io h' l]; cbn [bstep op_hash] in *; try (assert (h' <> h) by congruence).
  - assert (blob_hash data <> h) by congruence. unfold put_disk. destruct (si_lock io); [done|].
    destruct (metas s !! blob_hash data) as [[m|]|]; destruct (si_read_meta io); try done;
      destruct (blobs s !! blob_hash data) eqn:?, (si_write_blob io), (si_rename_blob io); try done;
      repeat case_decide; try done; destruct (si_write_meta io); cbn [fst];
      eauto using same_at_trans; destruct (bool_decide _ && _); cbn [fst andb]; eauto;
      destruct (si_cleanup io); cbn [fst andb]; eauto using same_at_trans.
  - done.
  - unfold put_part_files_with_hash. destruct (negb _); [done|]. destruct (si_lock io); [done|].
    destruct (match metas s !! h' with Some p => _ | None => _ end) as [ex|]; [|done].
    destruct (blobs s !! h'), ex; try by apply publish_parts_frame.
    destruct (si_write_meta io); cbn [fst]; auto.
  - unfold delete_blob. destruct (negb _); [done|]. destruct (memory_remove h' (memory s)) as [m b].
    split; simpl; destruct (_ && _); by rewrite ?lookup_delete_ne.
  - apply with_locked_meta_frame. intros m. case_decide; [done|]. by apply remove_locked_frame.
  - apply with_locked_meta_frame. intros m. case_decide; [done|]. by apply remove_locked_frame.
  - apply with_locked_meta_frame. intros m. case_decide; [done|]. cbv zeta.
    case_decide; [|by apply remove_locked_frame]. destruct (si_write_meta io); cbn [fst]; auto.
Qed.

(** A blob is held for the reason [P] its sidecar gives. *)
Definition held (P : BlobMeta -> Prop) (h : string) (s : BlobStore) : Prop :=
  is_Some (blobs s !! h) /\ exists m, metas s !! h = Some (Some m) /\ P m.

Definition without_lease (owner : string) (m : BlobMeta) : BlobMeta :=
  mkMeta (bm_media_type m) (bm_size m) (bm_created_at m) (bm_durability m)
    (delete owner (ephemeral_leases m)).

(** What a reason must satisfy to protect a blob from everything but deletion,
    collection and the releases that are not [allowed]. *)
Class Reason (P : BlobMeta -> Prop) (allowed : EphemeralBlobLease -> Prop) : Prop := {
  reason_renewed mt now d l m : P m -> P (renewed_meta mt now d l m);
  reason_multipart mt now d m : P m -> P (multipart_meta mt now d m);
  reason_pinned m : P m -> bm_durability m <> Ephemeral \/ ephemeral_leases m <> ∅;
  reason_release m l : P m -> allowed l -> bm_durability m = Ephemeral ->
    ephemeral_leases m !! lease_owner l = Some (lease_generation l) ->
    delete (lease_owner l) (ephemeral_leases m) <> ∅ /\ P (without_lease (lease_owner l) m);
}.

(** Neither a deletion, nor a collection of [h], nor a release that is not
    allowed. *)
Definition spares (allowed : EphemeralBlobLease -> Prop) (h : string) (o : bop) : Prop :=
  match o with
  | BDelete _ h' | BCollect _ h' _ => h' <> h
  | BRelease _ h' l => h' = h -> allowed l
  | _ => True
  end.

Lemma held_set_meta P h s m : is_Some (blobs s !! h) -> P m -> held P h (set_meta h m s).
Proof. intros Hb Hm. split; [done|]. exists m. split; [|done]. simpl. by rewrite lookup_insert_eq. Qed.

Lemma bstep_held P allowed h s o :
  Reason P allowed -> spares allowed h o -> held P h s -> held P h (bstep s o).
Proof.
  intros HR Hsp Hh. destruct (decide (op_hash o = Some h)) as [Ho|Ho].
  2: { destruct (bstep_frame s o h Ho) as [Hb Hm]. unfold held in *. by rewrite Hb, Hm. }
  pose proof Hh as [Hb (m & Hm & HP)]. pose proof Hb as [b Hbb].
  destruct o as [io now data mt d l|data mt now d|io now parts mt size h' d|io h'|io h' c
    |io h'|io h' l]; cbn [bstep op_hash spares] in *; simplify_eq.
  - unfold put_disk. destruct (si_lock io); [done|]. rewrite Hm, Hbb.
    destruct (si_read_meta io), (si_write_meta io); try done.
    apply held_set_meta; [done|]. by apply reason_renewed.
  - unfold put_part_files_with_hash. destruct (negb _); [done|]. destruct (si_lock io); [done|].
    rewrite Hm, Hbb. destruct (si_read_meta io); [done|]. destruct (si_write_meta io); [done|].
    apply held_set_meta; [done|]. by apply (reason_multipart mt now d m).
  - unfold delete_if_ephemeral, with_locked_meta. destruct (negb _), (si_lock io); try done.
    rewrite Hm. destruct (si_read_meta io); [done|].
    rewrite decide_True; [done|]. by apply reason_pinned.
  - unfold release_ephemeral_lease, with_locked_meta. destruct (negb _), (si_lock io); try done.
    rewrite Hm. destruct (si_read_meta io); [done|]. case_decide as Hd; [done|].
    assert (bm_durability m = Ephemeral) as He by (apply dec_stable; tauto).
    assert (ephemeral_leases m !! lease_owner l = Some (lease_generation l)) as Hg
      by (apply dec_stable; tauto).
    destruct (reason_release m l HP (Hsp eq_refl) He Hg) as [Hne HP'].
    rewrite decide_True by done. destruct (si_write_meta io); [done|]. by apply held_set_meta.
Qed.

Lemma brun_held P allowed h ops s :
  Reason P allowed -> Forall (spares allowed h) ops -> held P h s -> held P h (brun ops s).
Proof.
  intros HR Hops. revert s. induction Hops as [|o ops Ho Hops IH]; intros s Hs; [done|].
  apply IH. by eapply bstep_held.
Qed.
End Retention.

(** ** Claims *)

Section BlobClaims.
Context `{HexLaws, Sha256}.

Lemma blob_hash_valid data : validate_hash (blob_hash data) = true.
Proof.
  unfold validate_hash, blob_hash. rewrite hex_encode_digits, hex_encode_length, sha256_length. done.
Qed.

#[export] Instance durable_reason : Reason (fun m => bm_durability m = Durable) (fun _ => True).
Proof.
  assert (forall d, merged_durability Durable d = Durable) as Hmerge
    by (intros d; unfold merged_durability; rewrite decide_True; auto).
  split.
  - intros mt now d l m Hm. unfold renewed_meta. rewrite Hm. simpl. by rewrite Hmerge.
  - intros mt now d m Hm. simpl. case_decide; [done|]. by rewrite Hm, Hmerge.
  - intros m ->. by left.
  - intros m l -> _. done.
Qed.

(** The blob is durable, or [owner] has a lease of generation at least [g]. *)
Definition leased (owner : string) (g : Z) (m : BlobMeta) : Prop :=
  bm_durability m = Durable \/
  (bm_durability m = Ephemeral /\ exists g', ephemeral_leases m !! owner = Some g' /\ g <= g').

Lemma leased_renewed owner g mt now d l m :
  (leased owner g m \/ (exists l', l = Some l' /\ lease_owner l' = owner /\ g <= lease_generation l')) ->
  leased owner g (renewed_meta mt now d l m).
Proof.
  unfold renewed_meta. set (mixed := _ && _ && _). intros Hl. unfold leased. cbn [bm_durability].
  destruct (if mixed then Durable else merged_durability (bm_durability m) d) eqn:Hd; [by left|right].
  split; [done|]. cbn [ephemeral_leases]. rewrite decide_False by done.
  destruct mixed eqn:Hmix; [done|]. unfold merged_durability in Hd. case_decide as Hdur; [done|].
  assert (bm_durability m = Ephemeral) as He by (destruct (bm_durability m); tauto).
  destruct Hl as [[?|[_ (g' & Hg' & Hle)]]|(l' & -> & <- & Hle)]; [congruence| |].
  - destruct l as [l|]; [|by exists g'].
    destruct (decide (lease_owner l = owner)) as [<-|Hne].
    + rewrite lookup_insert_eq, Hg'. eexists. split; [done|]. simpl. lia.
    + rewrite lookup_insert_ne by done. by exists g'.
  - rewrite lookup_insert_eq. eexists. split; [done|]. lia.
Qed.

#[export] Instance leased_reason owner g :
  Reason (leased owner g) (fun l => lease_owner l = owner -> lease_generation l < g).
Proof.
  split.
  - intros mt now d l m Hm. apply leased_renewed. by left.
  - intros mt now d m Hm. left. simpl. case_decide as Hl; [done|].
    destruct Hm as [Hm|[_ (g' & Hg & _)]]; [|by rewrite Hl in Hg].
    unfold merged_durability. rewrite decide_True; auto.
  - intros m [->|[_ (g' & Hg & _)]]; [by left|right]. intros Hl. by rewrite Hl in Hg.
  - intros m l [Hm|[He (g' & Hg & Hle)]] Hal Hd Hl; [congruence|].
    destruct (decide (lease_owner l = owner)) as [<-|Hne].
    { specialize (Hal eq_refl). simplify_eq. lia. }
    assert (delete (lease_owner l) (ephemeral_leases m) !! owner = Some g') as Hk
      by (by rewrite lookup_delete_ne).
    split; [intros Hz; by rewrite Hz in Hk|]. right. split; [done|]. by exists g'.
Qed.

(** What an acknowledged put establishes. *)
Lemma put_disk_held io now data mt d lease s s' d' (P : BlobMeta -> Prop) :
  put_disk io now (blob_hash data) data mt d lease s = (s', Ok d') ->
  (forall m, P (renewed_meta mt now d lease m)) ->
  P (mkMeta mt (zlen data) now d
       match lease with Some l => {[lease_owner l := lease_generation l]} | None => ∅ end) ->
  held P (blob_hash data) s'.
Proof.
  intros Hput Hren Hnew. unfold put_disk in Hput. destruct (si_lock io); [done|].
  destruct (metas s !! blob_hash data) as [[m|]|] eqn:Hm.
  - destruct (si_read_meta io); [done|].
    destruct (blobs s !! blob_hash data) eqn:Hb.
    + destruct (si_write_meta io); simplify_eq. apply held_set_meta; [by rewrite Hb|auto].
    + destruct (si_write_blob io), (si_rename_blob io), (si_write_meta io); simplify_eq.
      apply held_set_meta; [|auto]. simpl. by rewrite lookup_insert_eq.
  - by destruct (si_read_meta io).
  - match type of Hput with (match ?w with _ => _ end) = _ => destruct w as [[s1 b]|] eqn:Hw end;
      [|done].
    assert (is_Some (blobs s1 !! blob_hash data) /\ metas s1 = metas s) as [Hb Hms].
    { destruct (si_write_blob io), (si_rename_blob io); repeat case_decide; simplify_eq/=;
        rewrite ?lookup_insert_eq; eauto. }
    destruct (si_write_meta io); [|simplify_eq; by apply held_set_meta].
    rewrite Hms, Hm in Hput. by rewrite bool_decide_eq_false_2 in Hput by (by intros []).
Qed.

(** A held blob is read back, with bytes of the right hash. *)
Lemma held_get P data cap s :
  store_ok cap s -> held P (blob_hash data) s ->
  exists d, get None (blob_hash data) s = Ok (Some d) /\ blob_hash d = blob_hash data.
Proof.
  intros (Hb & He & _) [[d Hd] _]. unfold get. rewrite blob_hash_valid. simpl.
  destruct (entries (memory s) !! blob_hash data) as [e|] eqn:Hm; [|rewrite Hd]; eauto.
Qed.

(** Content addressing: after any history of puts, multipart publications,
    leases, releases, collections and failures, interleaved with late insertions
    into the memory layer, whatever [get] returns for a hash has that hash. *)
Theorem blob_content_addressed cap ops io h d :
  0 <= cap -> get io h (brun ops (with_ephemeral_cap cap)) = Ok (Some d) -> blob_hash d = h.
Proof.
  intros Hc. destruct (brun_ok cap ops _ (with_ephemeral_cap_ok cap Hc)) as (Hb & He & _).
  unfold get. destruct (negb _); [done|].
  destruct (entries _ !! h) as [e|] eqn:Hm; [intros [= <-]; auto|].
  destruct io; [done|]. intros [=]. auto.
Qed.

(** The memory layer respects its budget: after any history its byte count
    is exactly the size of its entries and never exceeds the cap. *)
Theorem memory_layer_bounded cap ops :
  0 <= cap ->
  let m := memory (brun ops (with_ephemeral_cap cap)) in
  total_bytes m = sizes (entries m) /\ total_bytes m <= cap.
Proof.
  intros Hc. destruct (brun_ok cap ops _ (with_ephemeral_cap_ok cap Hc)) as (_ & _ & [Ht _] & Hle & Hcap).
  simpl. split; [done|]. lia.
Qed.

(** Durable blobs are kept: once the locked disk step of a durable put has
    succeeded, which is before the put is acknowledged, the blob can be read back
    after any later operations and failures, deletion and age collection of that
    blob apart; in particular no lease release and no eager
    deletion of ephemeral content removes it. *)
Theorem durable_blob_survives cap before io now data mt s d' later :
  0 <= cap ->
  put_disk io now (blob_hash data) data mt Durable None (brun before (with_ephemeral_cap cap))
    = (s, Ok d') ->
  Forall (spares (fun _ => True) (blob_hash data)) later ->
  exists d, get None (blob_hash data) (brun later s) = Ok (Some d) /\ blob_hash d = blob_hash data.
Proof.
  intros Hc Hput Hops. pose proof (brun_ok cap before _ (with_ephemeral_cap_ok cap Hc)) as Hok.
  pose proof (put_disk_ok cap io now data mt Durable None _ Hok) as Hs. rewrite Hput in Hs.
  apply (held_get (fun m => bm_durability m = Durable) data cap); [by apply brun_ok|].
  apply (brun_held _ (fun _ => True)); [apply _|done|]. eapply put_disk_held; [done| |done].
  intros m. unfold renewed_meta. cbn [bm_durability].
  rewrite (bool_decide_eq_false_2 (Durable = Ephemeral)) by done. rewrite andb_false_r. simpl.
  unfold merged_durability. rewrite decide_True; auto.
Qed.

(** C24. A retired lease cannot delete reused content: once the
    locked disk step of a leased put has succeeded, releases of older generations
    of its owner and of other producers' leases, re-puts by anybody and multipart publications leave the
    blob readable. *)
Theorem leased_blob_survives cap before io now data mt lease s d' later :
  0 <= cap ->
  put_disk io now (blob_hash data) data mt Ephemeral (Some lease)
    (brun before (with_ephemeral_cap cap)) = (s, Ok d') ->
  Forall (spares (fun l => lease_owner l = lease_owner lease ->
                           lease_generation l < lease_generation lease) (blob_hash data)) later ->
  exists d, get None (blob_hash data) (brun later s) = Ok (Some d) /\ blob_hash d = blob_hash data.
Proof.
  intros Hc Hput Hops. pose proof (brun_ok cap before _ (with_ephemeral_cap_ok cap Hc)) as Hok.
  pose proof (put_disk_ok cap io now data mt Ephemeral (Some lease) _ Hok) as Hs. rewrite Hput in Hs.
  apply (held_get (leased (lease_owner lease) (lease_generation lease)) data cap);
    [by apply brun_ok|].
  eapply brun_held; [apply _|done|]. eapply put_disk_held; [done| |].
  - intros m. apply leased_renewed. right. by exists lease.
  - right. split; [done|]. simpl. rewrite lookup_singleton_eq. by exists (lease_generation lease).
Qed.

Lemma read_parts_Ok parts total acc total' acc' :
  read_parts parts total acc = Ok (total', acc') ->
  exists bodies, parts = Some <$> bodies /\ acc' = acc ++ mjoin bodies /\
    total' = total + zlen (mjoin bodies).
Proof.
  revert total acc. induction parts as [|[body|] parts IH]; intros total acc; cbn [read_parts]; [| |done].
  - intros [= <- <-]. exists []. simpl. rewrite app_nil_r. split_and!; [done..|]. unfold zlen. simpl. lia.
  - destruct (checked_add_u64 total (zlen body)) as [t|] eqn:Ht; [|done].
    apply checked_add_u64_Some in Ht as [-> _]. intros (bodies & -> & -> & ->)%IH.
    exists (body :: bodies). simpl. rewrite zlen_app, <- app_assoc. split_and!; [done..|]. lia.
Qed.

(** Publication under a hash that is not stored yet. *)
Lemma put_part_files_new io now parts mt size h d s s' r :
  blobs s !! h = None ->
  put_part_files_with_hash io now parts mt size h d s = (s', r) ->
  (forall c, blobs s' !! h = Some c -> blob_hash c = h) /\
  match r with
  | Ok h' => h' = h /\ exists bodies, parts = Some <$> bodies /\
      blob_hash (mjoin bodies) = h /\ zlen (mjoin bodies) = size /\
      blobs s' !! h = Some (mjoin bodies)
  | Err _ => forall h', h' <> h -> blobs s' !! h' = blobs s !! h'
  end.
Proof.
  intros Hb Hp. unfold put_part_files_with_hash in Hp.
  assert (forall c, blobs s !! h = Some c -> blob_hash c = h) as Hsame by (rewrite Hb; done).
  destruct (negb _); [by simplify_eq|]. destruct (si_lock io); [by simplify_eq|].
  destruct (match metas s !! h with Some p => _ | None => _ end) as [ex|]; [|by simplify_eq].
  rewrite Hb in Hp. unfold publish_parts in Hp.
  destruct (read_parts _ _ _) as [[total content]|] eqn:Hr; [|by simplify_eq].
  apply read_parts_Ok in Hr as (bodies & Hparts & -> & ->). cbn [app] in Hp.
  destruct (si_write_blob io); [by simplify_eq|].
  destruct (decide _) as [|Hsize]; [by simplify_eq|]. apply dec_stable in Hsize.
  destruct (decide (blob_hash _ <> h)) as [|Hhash]; [by simplify_eq|]. apply dec_stable in Hhash.
  destruct (si_rename_blob io).
  { rewrite decide_False in Hp by (rewrite Hb; by intros []). by simplify_eq. }
  assert (zlen (mjoin bodies) = size) as Hz by lia.
  assert (<[h := mjoin bodies]> (blobs s) !! h = Some (mjoin bodies)) as Hnew by apply lookup_insert_eq.
  destruct (si_write_meta io) as [e|]; [case_decide|]; simplify_eq/=; rewrite ?Hnew.
  - split; [by intros c [= <-]|]. eauto 8.
  - destruct (si_cleanup io); cbn; rewrite ?lookup_delete_eq, ?Hnew;
      (split; [intros c Hc; by simplify_eq|]); intros h' Hne;
      by rewrite ?lookup_delete_ne, lookup_insert_ne.
  - split; [by intros c [= <-]|]. eauto 8.
Qed.

(** Multipart publication verifies what it publishes: when the hash was not
    stored before, success means that every part was read, that their
    concatenation has the expected size and hash, and that this content is what
    the store now holds; a failure never leaves another content behind. *)
Theorem multipart_publishes_verified io now parts mt size h d s s' r :
  blobs s !! h = None ->
  put_part_files_with_hash io now parts mt size h d s = (s', r) ->
  (forall c, blobs s' !! h = Some c -> blob_hash c = h) /\
  match r with
  | Ok h' => h' = h /\ exists bodies, parts = Some <$> bodies /\
      blob_hash (mjoin bodies) = h /\ zlen (mjoin bodies) = size /\
      blobs s' !! h = Some (mjoin bodies)
  | Err _ => forall h', h' <> h -> blobs s' !! h' = blobs s !! h'
  end.
Proof. apply put_part_files_new. Qed.
End BlobClaims.

(** ** Behaviours worth knowing *)

Section BlobFindings.
Context `{HexCodec, Sha256}.

(** A multipart publication under a hash that is already stored succeeds
    whatever the parts are: they are not read, so a declared hash that is not the
    hash of the uploaded bytes goes unnoticed. *)
Theorem multipart_dedup_ignores_parts now parts mt size h d s c m :
  validate_hash h = true -> blobs s !! h = Some c -> metas s !! h = Some (Some m) ->
  exists s', put_part_files_with_hash store_io_ok now parts mt size h d s = (s', Ok h) /\
    blobs s' = blobs s.
Proof.
  intros Hv Hb Hm. unfold put_part_files_with_hash. rewrite Hv. simpl. rewrite Hm, Hb. eauto.
Qed.

(** The memory layer after [n] insertions of the same bytes. *)
Fixpoint reput (n : nat) (h : string) (data : bytes) (m : MemoryLayer) : MemoryLayer :=
  match n with O => m | S n' => memory_insert h data "" 0 Durable (reput n' h data m) end.

Lemma evict_to_cap_fits m : total_bytes m <= mem_cap m -> evict_to_cap m = m.
Proof.
  intros Hle. unfold evict_to_cap. destruct m as [es o t c n]. simpl in *.
  destruct o as [|[]]; cbn [evict_loop]; by rewrite decide_False by lia.
Qed.

(** Re-puts grow the eviction order without bound: storing the same small
    blob [n] times leaves one entry and [n] positions in the order, since stale
    positions are dropped only while the layer is over its cap. *)
Theorem reput_grows_order cap n h data :
  zlen data <= cap ->
  let m := reput (S n) h data (memory_new cap) in
  length (order m) = S n /\ dom (entries m) = {[h]} /\ total_bytes m = zlen data.
Proof.
  intros Hc. pose proof (zlen_nonneg data) as Hnn.
  assert (forall k, let m := reput (S k) h data (memory_new cap) in
    length (order m) = S k /\ total_bytes m = zlen data /\ mem_cap m = cap /\
    exists e, entries m = {[h := e]} /\ me_data e = data) as Hm.
  { induction k as [|k IH].
    - cbn [reput]. unfold memory_insert. rewrite decide_False by (cbn [mem_cap memory_new]; lia).
      cbn [memory_new entries]. rewrite lookup_empty, evict_to_cap_fits by (simpl; lia).
      cbn. split_and!; [done..|]. eexists. by rewrite insert_empty.
    - change (reput (S (S k)) h data (memory_new cap)) with
        (memory_insert h data "" 0 Durable (reput (S k) h data (memory_new cap))).
      cbv zeta in IH. set (m := reput (S k) h data (memory_new cap)) in *. clearbody m.
      destruct IH as (Ho & Ht & Hcap & e & He & Hd). unfold memory_insert.
      rewrite decide_False by lia. rewrite He, lookup_singleton_eq, Hd, Ht.
      unfold saturating_sub. rewrite Z.sub_diag, evict_to_cap_fits by (simpl; lia).
      cbn. split_and!; [rewrite length_app, Ho; simpl; lia|lia|done|].
      eexists. by rewrite insert_singleton_eq. }
  destruct (Hm n) as (Ho & Ht & _ & e & He & _). split_and!; [done| |done].
  by rewrite He, dom_singleton_L.
Qed.
End BlobFindings.

Module BlobExamples.
Import PlainHex PlainCodec.

Lemma hex_digit_ok n : 0 <= n < 16 -> is_hexdigit (hex_digit n) = true.
Proof.
  intros Hn. unfold is_hexdigit, hex_digit. apply bool_decide_eq_true.
  rewrite N_ascii_embedding by (destruct (Z.ltb_spec n 10); lia).
  destruct (Z.ltb_spec n 10); lia.
Qed.

#[export] Instance plain_hex_laws : HexLaws.
Proof.
  split.
  - intros bs. change (hex_encode bs) with (PlainHex.encode bs).
    induction bs as [|b bs IH]; [done|]. simpl. rewrite IH. lia.
  - intros bs. change (hex_encode bs) with (PlainHex.encode bs).
    induction bs as [|b bs IH]; [done|]. simpl. rewrite IH.
    pose proof (b2Z_bounds b). rewrite !hex_digit_ok; [done| |].
    + apply Z.mod_pos_bound. lia.
    + split; [apply Z.div_pos; lia|apply Z.div_lt_upper_bound; lia].
Qed.

Definition blobA : bytes := [Byte.x41].
Definition blobB : bytes := [Byte.x42; Byte.x43].
Definition hA : string := blob_hash blobA.
Definition cap0 : Z := 16.
Definition lease1 : EphemeralBlobLease := mkLease "agent" 1.
Definition lease2 : EphemeralBlobLease := mkLease "agent" 2.
Definition history : list bop :=
  [BPutDisk store_io_ok 1 blobA "text/plain" Ephemeral (Some lease1);
   BInsertMemory blobA "text/plain" 1 Ephemeral].
Definition durable_put :=
  put_disk store_io_ok 2 hA blobA "text/plain" Durable None (brun history (with_ephemeral_cap cap0)).
Definition leased_put :=
  put_disk store_io_ok 2 hA blobA "text/plain" Ephemeral (Some lease2)
    (brun history (with_ephemeral_cap cap0)).
Definition releases : list bop := [BRelease store_io_ok hA lease1; BDeleteEphemeral store_io_ok hA].

Lemma blob_content_addressed_witness :
  get None hA (brun history (with_ephemeral_cap cap0)) = Ok (Some blobA) /\ blob_hash blobA = hA.
Proof.
  assert (get None hA (brun history (with_ephemeral_cap cap0)) = Ok (Some blobA)) as Hg
    by (vm_compute; reflexivity).
  split; [exact Hg|]. apply (blob_content_addressed cap0 history None hA blobA); [|exact Hg].
  vm_compute. discriminate.
Defined.

Lemma memory_layer_bounded_witness :
  total_bytes (memory (brun history (with_ephemeral_cap cap0))) <= cap0.
Proof. apply (memory_layer_bounded cap0 history). vm_compute. discriminate. Defined.

Lemma durable_blob_survives_witness :
  exists d, get None hA (brun releases (fst durable_put)) = Ok (Some d) /\ blob_hash d = hA.
Proof.
  apply (durable_blob_survives cap0 history store_io_ok 2 blobA "text/plain" (fst durable_put)
    Durable releases).
  - vm_compute. discriminate.
  - vm_compute. reflexivity.
  - repeat constructor.
Defined.

Lemma leased_blob_survives_witness :
  exists d, get None hA (brun releases (fst leased_put)) = Ok (Some d) /\ blob_hash d = hA.
Proof.
  apply (leased_blob_survives cap0 history store_io_ok 2 blobA "text/plain" lease2 (fst leased_put)
    Ephemeral releases).
  - vm_compute. discriminate.
  - vm_compute. reflexivity.
  - repeat constructor.
Defined.

Definition joined : bytes := blobA ++ blobB.
Definition multi := put_part_files_with_hash store_io_ok 3 [Some blobA; Some blobB] "text/plain" 3
  (blob_hash joined) Durable (with_ephemeral_cap cap0).

Lemma multipart_publishes_verified_witness :
  exists bodies, [Some blobA; Some blobB] = Some <$> bodies /\
    blobs (fst multi) !! blob_hash joined = Some (mjoin bodies).
Proof.
  destruct (multipart_publishes_verified store_io_ok 3 [Some blobA; Some blobB] "text/plain" 3
    (blob_hash joined) Durable (with_ephemeral_cap cap0) (fst multi) (Ok (blob_hash joined)))
    as (_ & _ & bodies & H1 & _ & _ & H2).
  - vm_compute. reflexivity.
  - vm_compute. reflexivity.
  - exists bodies. exact (conj H1 H2).
Defined.

Lemma multipart_dedup_ignores_parts_witness :
  exists s', put_part_files_with_hash store_io_ok 3 [Some blobB] "text/plain" 2 hA Durable
    (fst durable_put) = (s', Ok hA) /\ blobs s' = blobs (fst durable_put).
Proof.
  apply (multipart_dedup_ignores_parts 3 [Some blobB] "text/plain" 2 hA Durable (fst durable_put)
    blobA (mkMeta "text/plain" 1 2 Durable ∅)).
  - vm_compute. reflexivity.
  - vm_compute. reflexivity.
  - vm_compute. reflexivity.
Defined.

Lemma reput_grows_order_witness : length (order (reput 3 hA blobA (memory_new cap0))) = 3%nat.
Proof. apply (reput_grows_order cap0 2 hA blobA). vm_compute. discriminate. Defined.
End BlobExamples.
