(* ===== verification/BlobUpload.v ===== *)
(** * Multipart blob uploads

    Model of [crates/runtimed/src/notebook_sync_server/blob_upload.rs]: the
    registry of a peer's upload sessions and the handlers that create a session,
    stage its parts, complete, abort and expire it.

    A handler runs in pieces: what it does under the registry lock is one step,
    and so is each of its file operations.  Other handlers, the periodic sweep and
    the removal of abandoned directories run in between.  [Uploads] is the
    registry with the staging directory, the blob store and the handlers in
    flight. *)

From stdpp Require Import pretty.
From S2P Require Import Prelude Manifest BlobStore.

#[local] Open Scope Z_scope.

(** ** Data *)

Definition DEFAULT_MULTIPART_PART_SIZE : Z := 8 * 1024 * 1024.
Definition MAX_MULTIPART_PART_SIZE : Z := 32 * 1024 * 1024.
Definition MAX_PEER_STAGED_BYTES : Z := 256 * 1024 * 1024.

Inductive BlobUploadErrorKind :=
| SizeMismatch | HashMismatch | OverCap | TooManyInFlight | InvalidHeader | UnknownUpload
| PartSizeMismatch | PartHashMismatch | DuplicatePartConflict | ManifestMismatch
| FinalHashMismatch | OverPeerBudget | SessionExpired | Forbidden | IoError (message : string).

(** A staged file: its directory and its name in it. *)
Definition StagedPath : Type := string * string.

Record StagedPart := mkPart { sp_sha256 : string; sp_size : Z; sp_path : StagedPath }.

Record UploadSession := mkSession {
  upload_id : string;
  us_media_type : string;
  expected_size : Z;
  expected_sha256 : option string;
  part_size : Z;
  expires_at : Z;
  dir : string;
  parts : gmap N StagedPart;
  active_part : bool;
  completing : bool;
}.

Record Registry := mkRegistry {
  uploads_root : string;
  uploads : gmap string UploadSession;
  staged_bytes : Z;
  budget_bytes : Z;
  ttl : Z;
}.

Record BlobUploadPart := mkManifestPart { mp_number : N; mp_sha256 : string; mp_size : Z }.

Record CompletionPlan := mkPlan {
  plan_upload_id : string;
  plan_media_type : string;
  plan_expected_size : Z;
  plan_expected_sha256 : option string;
  part_paths : list StagedPath;
  cleanup_dir : string;
}.

(** The responses of the handlers. *)
Inductive UploadResponse :=
| BlobUploadCreated (id : string) (part_size expires_at : Z)
| BlobPartStored (id : string) (number : N) (sha256 : string)
| BlobStored (hash : string) (size : Z) (media_type : string)
| BlobUploadAborted (id : string)
| BlobUploadError (reason : BlobUploadErrorKind).

Definition with_uploads (us : gmap string UploadSession) (r : Registry) : Registry :=
  mkRegistry (uploads_root r) us (staged_bytes r) (budget_bytes r) (ttl r).
Definition with_staged (n : Z) (r : Registry) : Registry :=
  mkRegistry (uploads_root r) (uploads r) n (budget_bytes r) (ttl r).
Definition set_active (b : bool) (u : UploadSession) : UploadSession :=
  mkSession (upload_id u) (us_media_type u) (expected_size u) (expected_sha256 u) (part_size u)
    (expires_at u) (dir u) (parts u) b (completing u).
Definition set_completing (b : bool) (u : UploadSession) : UploadSession :=
  mkSession (upload_id u) (us_media_type u) (expected_size u) (expected_sha256 u) (part_size u)
    (expires_at u) (dir u) (parts u) (active_part u) b.
Definition set_parts (ps : gmap N StagedPart) (u : UploadSession) : UploadSession :=
  mkSession (upload_id u) (us_media_type u) (expected_size u) (expected_sha256 u) (part_size u)
    (expires_at u) (dir u) ps (active_part u) (completing u).

(** ** Operations on the registry *)

(** [MultipartUploadState::with_options]. *)
Definition with_options (root : string) (budget ttl : Z) : Registry := mkRegistry root ∅ 0 budget ttl.

Definition part_bytes (ps : gmap N StagedPart) : Z := map_fold (fun _ p acc => sp_size p + acc) 0 ps.

(** [MultipartUploadRegistry::remove_upload]. *)
Definition remove_upload (id : string) (r : Registry) : Registry * option UploadSession :=
  match uploads r !! id with
  | None => (r, None)
  | Some u =>
      (mkRegistry (uploads_root r) (delete id (uploads r))
         (saturating_sub (staged_bytes r) (part_bytes (parts u))) (budget_bytes r) (ttl r), Some u)
  end.

(** Remove several uploads and collect their directories. *)
Fixpoint remove_uploads (ids : list string) (r : Registry) : Registry * list string :=
  match ids with
  | [] => (r, [])
  | id :: ids' =>
      let '(r, u) := remove_upload id r in
      let '(r, ds) := remove_uploads ids' r in
      (r, option_list (dir <$> u) ++ ds)
  end.

(** [sweep_expired]. *)
Definition sweep_expired (now : Z) (r : Registry) : Registry * list string :=
  remove_uploads ((map_to_list (filter (fun x => expires_at x.2 <= now) (uploads r))).*1) r.

(** [is_sha256_hex]. *)
Definition is_sha256_hex (h : string) : bool :=
  bool_decide (String.length h = 64%nat) && all_hexdigits h.

(** The checks and the registration of [handle_create_blob_upload]; [id] is the
    new UUID. *)
Definition create_register (now : Z) (id media_type : string) (size : Z) (sha : option string)
    (requested : option Z) (r : Registry) : Registry * result BlobUploadErrorKind (string * Z * Z) :=
  let part_size := default DEFAULT_MULTIPART_PART_SIZE requested in
  if decide (part_size = 0 \/ part_size > MAX_MULTIPART_PART_SIZE) then (r, Err OverCap)
  else if decide (size > MAX_PEER_STAGED_BYTES) then (r, Err OverPeerBudget)
  else if match sha with Some h => negb (is_sha256_hex h) | None => false end
  then (r, Err FinalHashMismatch)
  else if decide (uploads r <> ∅ \/ saturating_add_u64 (staged_bytes r) size > budget_bytes r)
  then (r, Err OverPeerBudget)
  else
    let dir := uploads_root r +:+ "/" +:+ id in
    (with_uploads (<[id := mkSession id media_type size sha part_size (now + ttl r) dir ∅ false false]>
       (uploads r)) r, Ok (dir, part_size, now + ttl r)).

Inductive PartBegin :=
| PartReady (path : StagedPath)
| PartAlreadyStored
| PartBeginError (reason : BlobUploadErrorKind) (cleanup : option string).

Definition part_file (number : N) : string := pretty number +:+ ".part".

(** [begin_part_upload]. *)
Definition begin_part_upload (now : Z) (id : string) (number : N) (size : Z) (sha : string)
    (r : Registry) : Registry * PartBegin :=
  let projected := saturating_add_u64 (staged_bytes r) size in
  match uploads r !! id with
  | None => (r, PartBeginError UnknownUpload None)
  | Some u =>
      if decide (expires_at u <= now) then
        let '(r, u) := remove_upload id r in (r, PartBeginError SessionExpired (dir <$> u))
      else if active_part u || completing u then (r, PartBeginError OverPeerBudget None)
      else if decide (size > part_size u) then (r, PartBeginError PartSizeMismatch None)
      else match parts u !! number with
      | Some existing =>
          if decide (sp_sha256 existing = sha /\ sp_size existing = size) then (r, PartAlreadyStored)
          else (r, PartBeginError DuplicatePartConflict None)
      | None =>
          if decide (projected > budget_bytes r) then (r, PartBeginError OverPeerBudget None)
          else (with_uploads (<[id := set_active true u]> (uploads r)) r,
                PartReady (dir u, part_file number))
      end
  end.

Inductive PartFinish :=
| PartStored
| PartFinishError (reason : BlobUploadErrorKind) (cleanup : option StagedPath).

(** [finish_part_upload]. *)
Definition finish_part_upload (id : string) (number : N) (size : Z) (sha : string)
    (path : StagedPath) (write_succeeded : bool) (r : Registry) : Registry * PartFinish :=
  match uploads r !! id with
  | None => (r, PartFinishError UnknownUpload (Some path))
  | Some u =>
      let u := set_active false u in
      let r1 := with_uploads (<[id := u]> (uploads r)) r in
      if negb write_succeeded then (r1, PartStored)
      else match parts u !! number with
      | Some existing =>
          if decide (sp_sha256 existing = sha /\ sp_size existing = size) then (r1, PartStored)
          else (r1, PartFinishError DuplicatePartConflict (Some path))
      | None =>
          (with_staged (saturating_add_u64 (staged_bytes r) size)
             (with_uploads (<[id := set_parts (<[number := mkPart sha size path]> (parts u)) u]>
                (uploads r)) r), PartStored)
      end
  end.

(** The manifest loop of [prepare_completion]. *)
Fixpoint check_manifest (ps : gmap N StagedPart) (manifest : list BlobUploadPart)
    (seen : gset N) (total : Z) : option (Z * list StagedPath) :=
  match manifest with
  | [] => Some (total, [])
  | m :: manifest' =>
      if decide (mp_number m ∈ seen) then None
      else match ps !! mp_number m with
      | None => None
      | Some staged =>
          if decide (sp_sha256 staged <> mp_sha256 m \/ sp_size staged <> mp_size m) then None
          else match checked_add_u64 total (sp_size staged) with
          | None => None
          | Some total =>
              '(total, paths) ← check_manifest ps manifest' ({[mp_number m]} ∪ seen) total;
              Some (total, sp_path staged :: paths)
          end
      end
  end.

(** [prepare_completion]; an expired session also yields its directory. *)
Definition prepare_completion (now : Z) (id : string) (manifest : list BlobUploadPart)
    (r : Registry) : Registry * result (BlobUploadErrorKind * option string) CompletionPlan :=
  match uploads r !! id with
  | None => (r, Err (UnknownUpload, None))
  | Some u =>
      if decide (expires_at u <= now) then
        let '(r, u) := remove_upload id r in (r, Err (SessionExpired, dir <$> u))
      else if active_part u || completing u then (r, Err (OverPeerBudget, None))
      else match check_manifest (parts u) manifest ∅ 0 with
      | None => (r, Err (ManifestMismatch, None))
      | Some (total, paths) =>
          if decide (total <> expected_size u) then (r, Err (ManifestMismatch, None))
          else if decide (base.size (parts u) <> length manifest) then (r, Err (ManifestMismatch, None))
          else
            (with_uploads (<[id := set_completing true u]> (uploads r)) r,
             Ok (mkPlan (upload_id u) (us_media_type u) (expected_size u) (expected_sha256 u)
                   paths (dir u)))
      end
  end.

(** [finish_completion], [clear_completing]. *)
Definition finish_completion (id : string) (r : Registry) : Registry := fst (remove_upload id r).

Definition clear_completing (id : string) (r : Registry) : Registry :=
  match uploads r !! id with
  | Some u => with_uploads (<[id := set_completing false u]> (uploads r)) r
  | None => r
  end.

(** ** Handlers in flight *)

(** A part between [begin_part_upload] and [finish_part_upload]. *)
Record PartTask := mkPartTask {
  pt_upload : string;
  pt_number : N;
  pt_body : bytes;
  pt_sha : string;
  pt_path : StagedPath;
  pt_written : option bool;
}.

(** A completion after [prepare_completion], with the manifest of its request and
    the final hash once it is known. *)
Record CompleteTask := mkCompleteTask {
  ct_plan : CompletionPlan;
  ct_manifest : list BlobUploadPart;
  ct_hash : option string;
}.

Record Uploads := mkUploads {
  reg : Registry;
  staging : gmap StagedPath bytes;
  dirs : gset string;
  store : BlobStore;
  part_tasks : list PartTask;
  complete_tasks : list CompleteTask;
  trash : list string;
  used : gset string;
  responses : list UploadResponse;
}.

Definition uploads_new (root : string) (budget ttl cap : Z) : Uploads :=
  mkUploads (with_options root budget ttl) ∅ ∅ (with_ephemeral_cap cap) [] [] [] ∅ [].

Definition with_reg (r : Registry) (w : Uploads) : Uploads :=
  mkUploads r (staging w) (dirs w) (store w) (part_tasks w) (complete_tasks w) (trash w) (used w)
    (responses w).
Definition respond (a : UploadResponse) (w : Uploads) : Uploads :=
  mkUploads (reg w) (staging w) (dirs w) (store w) (part_tasks w) (complete_tasks w) (trash w)
    (used w) (responses w ++ [a]).
Definition discard (ds : list string) (w : Uploads) : Uploads :=
  mkUploads (reg w) (staging w) (dirs w) (store w) (part_tasks w) (complete_tasks w)
    (trash w ++ ds) (used w) (responses w).
Definition with_staging (f : gmap StagedPath bytes) (w : Uploads) : Uploads :=
  mkUploads (reg w) f (dirs w) (store w) (part_tasks w) (complete_tasks w) (trash w) (used w)
    (responses w).
Definition with_dirs (d : gset string) (w : Uploads) : Uploads :=
  mkUploads (reg w) (staging w) d (store w) (part_tasks w) (complete_tasks w) (trash w) (used w)
    (responses w).
Definition with_store (s : BlobStore) (w : Uploads) : Uploads :=
  mkUploads (reg w) (staging w) (dirs w) s (part_tasks w) (complete_tasks w) (trash w) (used w)
    (responses w).
Definition with_part_tasks (ts : list PartTask) (w : Uploads) : Uploads :=
  mkUploads (reg w) (staging w) (dirs w) (store w) ts (complete_tasks w) (trash w) (used w)
    (responses w).
Definition with_complete_tasks (ts : list CompleteTask) (w : Uploads) : Uploads :=
  mkUploads (reg w) (staging w) (dirs w) (store w) (part_tasks w) ts (trash w) (used w)
    (responses w).
Definition with_used (u : gset string) (w : Uploads) : Uploads :=
  mkUploads (reg w) (staging w) (dirs w) (store w) (part_tasks w) (complete_tasks w) (trash w) u
    (responses w).

Definition fail (reason : BlobUploadErrorKind) (w : Uploads) : Uploads :=
  respond (BlobUploadError reason) w.

Section Steps.
Context `{HexCodec, Sha256}.

(** The sweep, periodic or at the start of a request. *)
Definition do_sweep (now : Z) (w : Uploads) : Uploads :=
  let '(r, ds) := sweep_expired now (reg w) in discard ds (with_reg r w).

(** [cleanup_upload_dir] of one abandoned directory. *)
Definition do_cleanup (i : nat) (removed : bool) (w : Uploads) : Uploads :=
  match trash w !! i with
  | None => w
  | Some d =>
      let w := mkUploads (reg w) (staging w) (dirs w) (store w) (part_tasks w) (complete_tasks w)
        (delete i (trash w)) (used w) (responses w) in
      if removed then
        with_dirs (dirs w ∖ {[d]}) (with_staging (filter (fun x => x.1.1 <> d) (staging w)) w)
      else w
  end.

(** [handle_create_blob_upload] after its sweep; [mkdir] is the outcome of
    [create_dir_all]. *)
Definition do_create (now : Z) (id media_type : string) (size : Z) (sha : option string)
    (requested : option Z) (mkdir : option string) (w : Uploads) : Uploads :=
  match create_register now id media_type size sha requested (reg w) with
  | (r, Err e) => fail e (with_reg r w)
  | (r, Ok (d, psize, expires)) =>
      let w := with_used ({[id]} ∪ used w) (with_reg r w) in
      match mkdir with
      | Some e => fail (IoError e) (with_reg (fst (remove_upload id r)) w)
      | None => respond (BlobUploadCreated id psize expires) (with_dirs ({[d]} ∪ dirs w) w)
      end
  end.

(** The [Part] branch of [handle_put_blob_frame] up to the write. *)
Definition do_part (now : Z) (id : string) (number : N) (size : Z) (sha : string) (body : bytes)
    (w : Uploads) : Uploads :=
  if decide (zlen body <> size) then fail PartSizeMismatch w
  else if decide (blob_hash body <> sha) then fail PartHashMismatch w
  else match begin_part_upload now id number size sha (reg w) with
  | (r, PartReady path) =>
      with_part_tasks (mkPartTask id number body sha path None :: part_tasks w) (with_reg r w)
  | (r, PartAlreadyStored) => respond (BlobPartStored id number sha) (with_reg r w)
  | (r, PartBeginError e d) => discard (option_list d) (fail e (with_reg r w))
  end.

Inductive WriteOutcome := WriteOk | WriteFailed (dir_created : bool).

(** [write_staged_part]: the directory is created again when it is gone. *)
Definition do_write (i : nat) (o : WriteOutcome) (w : Uploads) : Uploads :=
  match part_tasks w !! i with
  | Some (mkPartTask id number body sha path None) =>
      let written b := <[i := mkPartTask id number body sha path (Some b)]> (part_tasks w) in
      match o with
      | WriteOk =>
          with_part_tasks (written true)
            (with_dirs ({[path.1]} ∪ dirs w) (with_staging (<[path := body]> (staging w)) w))
      | WriteFailed dir_created =>
          with_part_tasks (written false)
            (if dir_created then with_dirs ({[path.1]} ∪ dirs w) w else w)
      end
  | _ => w
  end.

(** The end of the [Part] branch; a failed write answers with its own error. *)
Definition do_finish_part (i : nat) (cleaned : bool) (w : Uploads) : Uploads :=
  match part_tasks w !! i with
  | Some (mkPartTask id number body sha path (Some ok)) =>
      let w := with_part_tasks (delete i (part_tasks w)) w in
      let '(r, res) := finish_part_upload id number (zlen body) sha path ok (reg w) in
      let w := with_reg r w in
      let remove p w := if cleaned then with_staging (delete p (staging w)) w else w in
      match res with
      | PartStored =>
          if ok then respond (BlobPartStored id number sha) w else fail (IoError "write") w
      | PartFinishError e p =>
          let w := match p with Some p => remove p w | None => w end in
          fail (if ok then e else IoError "write") w
      end
  | _ => w
  end.

(** [handle_complete_blob_upload] after its sweep, up to the plan. *)
Definition do_complete (now : Z) (id : string) (manifest : list BlobUploadPart) (w : Uploads)
    : Uploads :=
  match prepare_completion now id manifest (reg w) with
  | (r, Err (e, d)) => discard (option_list d) (fail e (with_reg r w))
  | (r, Ok plan) =>
      with_complete_tasks (mkCompleteTask plan manifest (plan_expected_sha256 plan) :: complete_tasks w)
        (with_reg r w)
  end.

Definition part_contents (w : Uploads) (plan : CompletionPlan) : list (option bytes) :=
  (fun p => staging w !! p) <$> part_paths plan.

(** Give up a completion. *)
Definition abandon (i : nat) (plan : CompletionPlan) (e : BlobUploadErrorKind) (w : Uploads)
    : Uploads :=
  fail e (with_complete_tasks (delete i (complete_tasks w))
            (with_reg (clear_completing (plan_upload_id plan) (reg w)) w)).

(** The hash of the staged parts, for a session without a declared one. *)
Definition do_hash (i : nat) (w : Uploads) : Uploads :=
  match complete_tasks w !! i with
  | Some (mkCompleteTask plan manifest None) =>
      match read_parts (part_contents w plan) 0 [] with
      | Ok (total, content) =>
          if decide (total = plan_expected_size plan) then
            with_complete_tasks
              (<[i := mkCompleteTask plan manifest (Some (blob_hash content))]> (complete_tasks w)) w
          else abandon i plan ManifestMismatch w
      | Err e => abandon i plan (IoError e) w
      end
  | _ => w
  end.

(** The publication and the end of [handle_complete_blob_upload]. *)
Definition do_store (i : nat) (io : StoreIo) (now : Z) (w : Uploads) : Uploads :=
  match complete_tasks w !! i with
  | Some (mkCompleteTask plan manifest (Some h)) =>
      match put_part_files_with_hash io now (part_contents w plan) (plan_media_type plan)
              (plan_expected_size plan) h Durable (store w) with
      | (s, Ok hash) =>
          respond (BlobStored hash (plan_expected_size plan) (plan_media_type plan))
            (discard [cleanup_dir plan]
               (with_complete_tasks (delete i (complete_tasks w))
                  (with_reg (finish_completion (plan_upload_id plan) (reg w)) (with_store s w))))
      | (s, Err e) =>
          abandon i plan
            (match e with
             | PartsHashMismatch _ _ => FinalHashMismatch
             | PartsSizeMismatch _ _ => ManifestMismatch
             | InvalidExpectedHash => IoError "invalid hash"
             | PartIo m => IoError m
             end) (with_store s w)
      end
  | _ => w
  end.

(** [handle_abort_blob_upload] after its sweep. *)
Definition do_abort (id : string) (w : Uploads) : Uploads :=
  match remove_upload id (reg w) with
  | (r, Some u) => respond (BlobUploadAborted id) (discard [dir u] (with_reg r w))
  | (r, None) => fail UnknownUpload (with_reg r w)
  end.

(** The [Put] branch of [handle_put_blob_frame]. *)
Definition do_put (io : StoreIo) (now now_disk : Z) (media_type : string) (size : Z) (sha : string)
    (durability : option BlobDurability) (body : bytes) (w : Uploads) : Uploads :=
  if decide (zlen body <> size) then fail SizeMismatch w
  else if decide (blob_hash body <> sha) then fail HashMismatch w
  else match put_with_durability io now now_disk body media_type (default Durable durability)
               (store w) with
  | (s, Ok h) => respond (BlobStored h size media_type) (with_store s w)
  | (s, Err e) => fail (IoError e) (with_store s w)
  end.

Inductive uop :=
| USweep (now : Z)
| UCleanup (i : nat) (removed : bool)
| UCreate (now : Z) (id media_type : string) (size : Z) (sha : option string)
    (requested : option Z) (mkdir : option string)
| UPart (now : Z) (id : string) (number : N) (size : Z) (sha : string) (body : bytes)
| UWrite (i : nat) (o : WriteOutcome)
| UFinishPart (i : nat) (cleaned : bool)
| UComplete (now : Z) (id : string) (manifest : list BlobUploadPart)
| UHash (i : nat)
| UStore (i : nat) (io : StoreIo) (now : Z)
| UAbort (id : string)
| UPut (io : StoreIo) (now now_disk : Z) (media_type : string) (size : Z) (sha : string)
    (durability : option BlobDurability) (body : bytes).

Definition ustep (w : Uploads) (o : uop) : Uploads :=
  match o with
  | USweep now => do_sweep now w
  | UCleanup i removed => do_cleanup i removed w
  | UCreate now id mt size sha requested mkdir => do_create now id mt size sha requested mkdir w
  | UPart now id number size sha body => do_part now id number size sha body w
  | UWrite i o => do_write i o w
  | UFinishPart i cleaned => do_finish_part i cleaned w
  | UComplete now id manifest => do_complete now id manifest w
  | UHash i => do_hash i w
  | UStore i io now => do_store i io now w
  | UAbort id => do_abort id w
  | UPut io now now_disk mt size sha d body => do_put io now now_disk mt size sha d body w
  end.

(** New identifiers are new. *)
Definition admissible (w : Uploads) (o : uop) : Prop :=
  match o with UCreate _ id _ _ _ _ _ => id ∉ used w | _ => True end.

(** The states a connection can reach. *)
Inductive ureach (root : string) (budget ttl cap : Z) : Uploads -> Prop :=
| ureach_new : ureach root budget ttl cap (uploads_new root budget ttl cap)
| ureach_step w o :
    ureach root budget ttl cap w -> admissible w o -> ureach root budget ttl cap (ustep w o).
End Steps.

(** ** The invariant *)

Section Invariant.
Context `{HexCodec, Sha256}.
Variables (root : string) (budget : Z).

Definition udir (id : string) : string := root +:+ "/" +:+ id.

Lemma udir_inj id id' : udir id = udir id' -> id = id'.
Proof. unfold udir. intros E. by apply (inj (String.append root)), (inj (String.append "/")) in E. Qed.

Lemma length_append (s t : string) : String.length (s +:+ t) = (String.length s + String.length t)%nat.
Proof. induction s as [|c s IH]; [done|]. simpl. by f_equal. Qed.

Lemma append_inj_l (s s' t : string) : s +:+ t = s' +:+ t -> s = s'.
Proof.
  revert s'. induction s as [|c s IH]; intros [|c' s'] E; [done| | |].
  1, 2: apply (f_equal String.length) in E; rewrite !length_append in E; simpl in E; lia.
  injection E as -> E. f_equal. by apply IH.
Qed.

Lemma part_file_inj n n' : part_file n = part_file n' -> n = n'.
Proof. unfold part_file. intros E%append_inj_l. by apply (inj pretty) in E. Qed.

(** The path of a part holds the bytes that were acknowledged for it. *)
Definition staged_ok (f : gmap StagedPath bytes) (d : string) (n : N) (p : StagedPart) : Prop :=
  sp_path p = (d, part_file n) /\
  exists body, f !! sp_path p = Some body /\ zlen body = sp_size p /\ blob_hash body = sp_sha256 p.

Definition session_ok (w : Uploads) (id : string) (u : UploadSession) : Prop :=
  id ∈ used w /\ upload_id u = id /\ dir u = udir id /\
  staged_bytes (reg w) = part_bytes (parts u) /\
  map_Forall (staged_ok (staging w) (udir id)) (parts u).

Definition task_ok (w : Uploads) (t : PartTask) : Prop :=
  pt_upload t ∈ used w /\ pt_path t = (udir (pt_upload t), part_file (pt_number t)) /\
  pt_sha t = blob_hash (pt_body t) /\
  forall u, uploads (reg w) !! pt_upload t = Some u ->
    active_part u = true /\ completing u = false /\ parts u !! pt_number t = None /\
    staged_bytes (reg w) + zlen (pt_body t) <= budget /\
    (pt_written t = Some true -> staging w !! pt_path t = Some (pt_body t)).

(** The parts of a plan are the ones its manifest names, as far as they are still
    there. *)
Definition plan_ok (f : gmap StagedPath bytes) (plan : CompletionPlan)
    (manifest : list BlobUploadPart) : Prop :=
  exists bodies,
    Forall2 (fun (p : StagedPath) b => p.1 = udir (plan_upload_id plan) /\ forall b', f !! p = Some b' -> b' = b)
      (part_paths plan) bodies /\
    Forall2 (fun m b => blob_hash b = mp_sha256 m /\ zlen b = mp_size m) manifest bodies /\
    zlen (mjoin bodies) = plan_expected_size plan.

Definition complete_ok (w : Uploads) (c : CompleteTask) : Prop :=
  let id := plan_upload_id (ct_plan c) in
  id ∈ used w /\ cleanup_dir (ct_plan c) = udir id /\
  (forall u, uploads (reg w) !! id = Some u -> completing u = true /\ active_part u = false) /\
  (forall t, t ∈ part_tasks w -> pt_upload t <> id) /\
  plan_ok (staging w) (ct_plan c) (ct_manifest c).

Record Inv (w : Uploads) : Prop := {
  inv_root : uploads_root (reg w) = root;
  inv_budget : budget_bytes (reg w) = budget;
  inv_sessions : map_Forall (session_ok w) (uploads (reg w));
  inv_one id id' : is_Some (uploads (reg w) !! id) -> is_Some (uploads (reg w) !! id') -> id = id';
  inv_bytes : 0 <= staged_bytes (reg w) <= budget;
  inv_empty : uploads (reg w) = ∅ -> staged_bytes (reg w) = 0;
  inv_trash d : d ∈ trash w -> exists id, id ∈ used w /\ d = udir id /\ uploads (reg w) !! id = None;
  inv_tasks t : t ∈ part_tasks w -> task_ok w t;
  inv_tasks_one : NoDup (pt_upload <$> part_tasks w);
  inv_completes c : c ∈ complete_tasks w -> complete_ok w c;
  inv_completes_one : NoDup ((fun c => plan_upload_id (ct_plan c)) <$> complete_tasks w);
}.

(** The invariant does not look at these. *)
Lemma inv_respond a w : Inv w -> Inv (respond a w).
Proof. by intros []. Qed.
Lemma inv_with_dirs d w : Inv w -> Inv (with_dirs d w).
Proof. by intros []. Qed.
Lemma inv_with_store s w : Inv w -> Inv (with_store s w).
Proof. by intros []. Qed.

Lemma part_bytes_delete ps n p :
  ps !! n = Some p -> part_bytes ps = sp_size p + part_bytes (delete n ps).
Proof. intros Hp. unfold part_bytes. rewrite (map_fold_delete_L _ _ n p); [done|intros; lia|done]. Qed.

Lemma part_bytes_insert ps n p :
  ps !! n = None -> part_bytes (<[n := p]> ps) = sp_size p + part_bytes ps.
Proof. intros Hp. unfold part_bytes. rewrite map_fold_insert_L; [done|intros; lia|done]. Qed.

(** ** Lists of tasks *)

Lemma task_split {A} (l : list A) i x :
  l !! i = Some x -> exists a b, l = a ++ x :: b /\ delete i l = a ++ b /\
    forall y, <[i := y]> l = a ++ y :: b.
Proof.
  intros Hl. exists (take i l), (drop (S i) l). split_and!.
  - symmetry. by apply take_drop_middle.
  - apply delete_take_drop.
  - intros y. rewrite insert_take_drop; [done|]. by eapply lookup_lt_Some.
Qed.

Lemma task_delete {A B} (f : A -> B) l i x :
  l !! i = Some x -> NoDup (f <$> l) ->
  NoDup (f <$> delete i l) /\ x ∈ l /\ forall y, y ∈ delete i l -> y ∈ l /\ f y <> f x.
Proof.
  intros (a & b & Hl & Hd & _)%task_split Hn. rewrite Hd. rewrite Hl in Hn |- *. clear Hl Hd l.
  rewrite fmap_app, fmap_cons in Hn. apply NoDup_app in Hn as (Ha & Hab & Hb).
  apply NoDup_cons in Hb as [Hx Hb]. split_and!.
  - rewrite fmap_app. apply NoDup_app. split_and!; [done| |done]. intros y Hy Hy'.
    apply (Hab y Hy). apply elem_of_cons. by right.
  - set_solver.
  - intros y Hy. split; [set_solver|]. intros E.
    apply elem_of_app in Hy as [Hy|Hy]; apply (list_elem_of_fmap_2 f) in Hy; rewrite E in Hy; [|done].
    apply (Hab _ Hy). apply elem_of_cons. by left.
Qed.

Lemma task_insert {A B} (f : A -> B) l i x y :
  l !! i = Some x -> f y = f x -> NoDup (f <$> l) ->
  NoDup (f <$> <[i := y]> l) /\ x ∈ l /\ forall z, z ∈ <[i := y]> l -> z = y \/ (z ∈ l /\ f z <> f x).
Proof.
  intros Hl Hy Hn. destruct (task_delete f l i x Hl Hn) as (_ & Hx & Hd). split_and!; [|done|].
  - rewrite list_fmap_insert, Hy, list_insert_id; [done|]. by rewrite list_lookup_fmap, Hl.
  - intros z Hz. apply task_split in Hl as (a & b & _ & E & Ei). rewrite Ei in Hz. rewrite E in Hd.
    apply elem_of_app in Hz as [Hz|[->|Hz]%elem_of_cons]; [right|by left|right]; apply Hd; set_solver.
Qed.
End Invariant.

Section Preservation.
Context `{HexCodec, Sha256}.
Variables (root : string) (budget : Z).
Hypothesis budget_u64 : 0 <= budget < u64_max.

Abbreviation Inv := (Inv root budget).
Abbreviation udir := (udir root).

Lemma with_reg_id w : with_reg (reg w) w = w.
Proof. by destruct w. Qed.

Lemma live_single w id u :
  Inv w -> uploads (reg w) !! id = Some u -> uploads (reg w) = {[id := u]}.
Proof.
  intros Hi Hu. apply map_eq. intros id'. destruct (decide (id' = id)) as [->|Hne].
  { by rewrite lookup_singleton_eq. }
  rewrite lookup_singleton_ne by done. destruct (uploads (reg w) !! id') as [u'|] eqn:E; [|done].
  destruct Hne. eapply (inv_one _ _ _ Hi); by rewrite ?E, ?Hu.
Qed.

(** ** Removal, and directories left behind *)

Lemma inv_cleared r w :
  Inv w -> uploads r = ∅ -> staged_bytes r = 0 -> uploads_root r = root ->
  budget_bytes r = budget -> Inv (with_reg r w).
Proof.
  intros Hi Hu Hs Hr Hb. destruct Hi as [_ _ _ _ Hbytes _ Htr Ht Htn Hc Hcn].
  assert (forall id, uploads r !! id = None) as Hnone by (intros id; by rewrite Hu).
  split; simpl; try done.
  - by rewrite Hu.
  - intros id id'. by rewrite Hnone; intros [].
  - lia.
  - intros d (id & ? & ? & _)%Htr. eauto.
  - intros t (H1 & H2 & H3 & _)%Ht. split_and!; try done. intros u. simpl. by rewrite Hnone.
  - intros c (H1 & H2 & _ & H4 & H5)%Hc. split_and!; try done. intros u. simpl. by rewrite Hnone.
Qed.

Lemma inv_remove id w :
  Inv w -> Inv (with_reg (fst (remove_upload id (reg w))) w) /\
  uploads (fst (remove_upload id (reg w))) !! id = None.
Proof.
  intros Hi. unfold remove_upload. destruct (uploads (reg w) !! id) as [u|] eqn:Hu.
  - pose proof (live_single _ _ _ Hi Hu) as Hs. split; [|simpl; apply lookup_delete_eq].
    destruct (inv_sessions _ _ _ Hi _ _ Hu) as (_ & _ & _ & Hb & _).
    apply inv_cleared; [done|..]; simpl.
    + rewrite Hs. apply delete_singleton_eq.
    + rewrite Hb. unfold saturating_sub. lia.
    + apply Hi.
    + apply Hi.
  - cbn [fst]. by rewrite with_reg_id.
Qed.

Lemma inv_discard ds w :
  Inv w -> (forall d, d ∈ ds -> exists id, id ∈ used w /\ d = udir id /\ uploads (reg w) !! id = None) ->
  Inv (discard ds w).
Proof.
  intros Hi Hds. destruct Hi. split; try done. simpl. intros d [Hd|Hd]%elem_of_app; auto.
Qed.

Lemma inv_remove_uploads ids w :
  Inv w -> let '(r, ds) := remove_uploads ids (reg w) in
  Inv (with_reg r w) /\
  forall d, d ∈ ds -> exists id, id ∈ used w /\ d = udir id /\ uploads r !! id = None.
Proof.
  revert w. induction ids as [|id ids IH]; intros w Hi; cbn [remove_uploads].
  { rewrite with_reg_id. split; [done|]. by intros d ?%elem_of_nil. }
  destruct (inv_remove id w Hi) as [Hi1 Hn1].
  destruct (remove_upload id (reg w)) as [r1 u] eqn:Hr. simpl in Hi1, Hn1.
  specialize (IH _ Hi1). simpl in IH. destruct (remove_uploads ids r1) as [r2 ds] eqn:Hr2.
  destruct IH as [Hi2 Hds]. split; [done|]. intros d [Hd|Hd]%elem_of_app; [|auto].
  destruct u as [u|]; simpl in Hd; [|by apply elem_of_nil in Hd].
  apply list_elem_of_singleton in Hd as ->. unfold remove_upload in Hr.
  destruct (uploads (reg w) !! id) as [u'|] eqn:Hu; simplify_eq.
  destruct (inv_sessions _ _ _ Hi _ _ Hu) as (H1 & _ & H3 & _).
  exists id. split_and!; [done..|].
  assert (uploads (mkRegistry (uploads_root (reg w)) (delete id (uploads (reg w)))
    (saturating_sub (staged_bytes (reg w)) (part_bytes (parts u))) (budget_bytes (reg w)) (ttl (reg w)))
    = ∅) as Hempty.
  { simpl. rewrite (live_single _ _ _ Hi Hu). apply delete_singleton_eq. }
  clear -Hr2 Hempty. revert r2 ds Hr2. generalize dependent (mkRegistry (uploads_root (reg w))
    (delete id (uploads (reg w))) (saturating_sub (staged_bytes (reg w)) (part_bytes (parts u)))
    (budget_bytes (reg w)) (ttl (reg w))). intros r Hr. induction ids as [|i ids IH];
    intros r2 ds; cbn [remove_uploads]; [intros [= <- <-]; by rewrite Hr|].
  unfold remove_upload. rewrite Hr, lookup_empty.
  destruct (remove_uploads ids r) as [r3 ds3]. intros [= <- <-]. by eapply IH.
Qed.

Lemma inv_sweep now w : Inv w -> Inv (do_sweep now w).
Proof.
  intros Hi. unfold do_sweep, sweep_expired.
  pose proof (inv_remove_uploads (map_to_list (filter (fun x => expires_at x.2 <= now)
    (uploads (reg w)))).*1 w Hi) as Hr.
  destruct (remove_uploads _ _) as [r ds]. destruct Hr as [Hi' Hds]. by apply inv_discard.
Qed.

(** Removing one upload and leaving its directory to be cleaned. *)
Lemma inv_expire id a w :
  Inv w -> let '(r, u) := remove_upload id (reg w) in
  Inv (discard (option_list (dir <$> u)) (respond a (with_reg r w))).
Proof.
  intros Hi. destruct (inv_remove id w Hi) as [Hi' Hn].
  destruct (remove_upload id (reg w)) as [r u] eqn:Hr. simpl in Hi', Hn.
  apply inv_discard; [by apply inv_respond|]. intros d Hd.
  unfold remove_upload in Hr. destruct (uploads (reg w) !! id) as [u'|] eqn:Hu; simplify_eq/=;
    [|by apply elem_of_nil in Hd].
  apply list_elem_of_singleton in Hd as ->.
  destruct (inv_sessions _ _ _ Hi _ _ Hu) as (? & _ & ? & _). by exists id.
Qed.

Lemma inv_abort id w : Inv w -> Inv (do_abort id w).
Proof.
  intros Hi. unfold do_abort. pose proof (inv_expire id (BlobUploadAborted id) w Hi) as He.
  destruct (inv_remove id w Hi) as [Hi' _].
  destruct (remove_upload id (reg w)) as [r [u|]]; [done|]. by apply inv_respond.
Qed.

(** Only files of abandoned directories are removed. *)
Lemma inv_cleanup i removed w : Inv w -> Inv (do_cleanup i removed w).
Proof.
  intros Hi. unfold do_cleanup. destruct (trash w !! i) as [d|] eqn:Hd; [|done].
  assert (Inv (mkUploads (reg w) (staging w) (dirs w) (store w) (part_tasks w) (complete_tasks w)
    (delete i (trash w)) (used w) (responses w))) as Hi1.
  { destruct Hi. split; try done. simpl. intros x Hx. apply inv_trash0.
    apply task_split in Hd as (a & b & E & Hdel & _). rewrite Hdel in Hx. rewrite E. set_solver. }
  destruct removed; [|done]. apply inv_with_dirs.
  destruct (inv_trash _ _ _ Hi d) as (id0 & Hu0 & -> & Hn0); [by eapply list_elem_of_lookup_2|].
  destruct Hi1 as [H1 H2 Hs H4 H5 H6 H7 Ht H9 Hc H11]. simpl in *.
  assert (forall id p, is_Some (uploads (reg w) !! id) -> p.1 = udir id ->
    filter (fun x => x.1.1 <> udir id0) (staging w) !! p = staging w !! p) as Hkeep.
  { intros id p [u Hu] Hp. destruct (staging w !! p) as [b|] eqn:Hb.
    - apply map_lookup_filter_Some_2; [done|]. simpl. rewrite Hp. intros E%udir_inj. congruence.
    - by apply map_lookup_filter_None_2; left. }
  split; simpl; try done.
  - intros id u Hu. destruct (Hs id u Hu) as (? & ? & ? & ? & Hp). split_and!; try done.
    intros n p Hnp. destruct (Hp n p Hnp) as (Hpath & body & Hb & ?). split; [done|].
    exists body. split; [|done]. simpl. rewrite (Hkeep id); [done|by rewrite Hu|by rewrite Hpath].
  - intros t Hin. destruct (Ht t Hin) as (? & Hpath & ? & Hlive). split_and!; try done.
    intros u Hu. simpl in Hu. destruct (Hlive u Hu) as (? & ? & ? & ? & Hw).
    split_and!; try done. intros E.
    simpl. rewrite (Hkeep (pt_upload t)); [auto|by rewrite Hu|by rewrite Hpath].
  - intros c Hin. destruct (Hc c Hin) as (? & ? & ? & ? & bodies & Hb & ?). split_and!; try done.
    exists bodies. split; [|done]. eapply Forall2_impl; [exact Hb|]. simpl.
    intros p b [Hp1 Hp2]. split; [done|]. intros b' Hb'. apply Hp2.
    by apply map_lookup_filter_Some in Hb' as [? _].
Qed.

(** ** Sessions and parts *)

Lemma inv_new_session id s w :
  Inv w -> uploads (reg w) = ∅ -> id ∉ used w -> upload_id s = id -> dir s = udir id ->
  parts s = ∅ ->
  Inv (with_used ({[id]} ∪ used w) (with_reg (with_uploads (<[id := s]> (uploads (reg w))) (reg w)) w)).
Proof.
  intros Hi He Hid Hs1 Hs2 Hs3. pose proof (inv_empty _ _ _ Hi He) as Hz.
  destruct Hi as [H1 H2 _ _ H5 _ H7 Ht H9 Hc H11]. rewrite He, insert_empty. split; simpl; try done.
  - intros id' u [<- <-]%lookup_singleton_Some. split_and!; simpl; try done; [set_solver| |].
    + by rewrite Hz, Hs3.
    + by rewrite Hs3.
  - intros i i' [? [<- _]%lookup_singleton_Some] [? [<- _]%lookup_singleton_Some]. done.
  - intros d (i & Hi & -> & _)%H7. exists i. split_and!; [set_solver|done|].
    apply lookup_singleton_ne. intros ->. done.
  - intros t (Hu & Hp & Hsha & _)%Ht. split_and!; [set_solver|done|done|]. simpl.
    intros u [Hx _]%lookup_singleton_Some. by rewrite <- Hx in Hu.
  - intros c (Hu & Hd & _ & Hts & Hpl)%Hc. split_and!; [set_solver|done| |done|done]. simpl.
    intros u [Hx _]%lookup_singleton_Some. by rewrite <- Hx in Hu.
Qed.

Lemma inv_create now id mt size sha requested mkdir w :
  Inv w -> id ∉ used w -> Inv (do_create now id mt size sha requested mkdir w).
Proof.
  intros Hi Hid. unfold do_create, create_register.
  assert (forall e, Inv (fail e (with_reg (reg w) w))) as Hfail
    by (intros e; rewrite with_reg_id; by apply inv_respond).
  case_decide; [apply Hfail|]. case_decide; [apply Hfail|].
  destruct (match sha with Some h => _ | None => _ end); [apply Hfail|].
  case_decide as Hb; [apply Hfail|].
  assert (uploads (reg w) = ∅) as He by (apply dec_stable; tauto).
  pose proof (inv_new_session id (mkSession id mt size sha (default DEFAULT_MULTIPART_PART_SIZE requested)
    (now + ttl (reg w)) (uploads_root (reg w) +:+ "/" +:+ id) ∅ false false) w Hi He Hid eq_refl) as Hn.
  rewrite (inv_root _ _ _ Hi) in Hn |- *. specialize (Hn eq_refl eq_refl).
  destruct mkdir; apply inv_respond; [|by apply inv_with_dirs].
  apply (inv_remove id _ Hn).
Qed.

(** A change of the one live session, seen from every part of the invariant. *)
Lemma inv_live_update id u u' n ts w :
  Inv w -> uploads (reg w) !! id = Some u ->
  upload_id u' = id -> dir u' = udir id -> n = part_bytes (parts u') -> 0 <= n <= budget ->
  map_Forall (staged_ok (staging w) (udir id)) (parts u') ->
  NoDup (pt_upload <$> ts) ->
  (forall t, t ∈ ts -> (t ∈ part_tasks w /\ pt_upload t <> id) \/
     task_ok root budget (with_reg (with_staged n (with_uploads (<[id := u']> (uploads (reg w))) (reg w))) w) t) ->
  (forall c, c ∈ complete_tasks w -> plan_upload_id (ct_plan c) = id ->
     completing u' = true /\ active_part u' = false) ->
  (forall t c, t ∈ ts -> c ∈ complete_tasks w -> pt_upload t <> plan_upload_id (ct_plan c)) ->
  Inv (with_part_tasks ts
    (with_reg (with_staged n (with_uploads (<[id := u']> (uploads (reg w))) (reg w))) w)).
Proof.
  intros Hi Hu Hid Hdir Hn Hb Hparts Hnd Hts Hcs Htc.
  pose proof (live_single _ _ _ Hi Hu) as Hs.
  destruct (inv_sessions _ _ _ Hi _ _ Hu) as (Hused & _).
  assert (forall i, i <> id -> (<[id := u']> (uploads (reg w))) !! i = None) as Hnone.
  { intros i Hne. rewrite lookup_insert_ne, Hs by done. by apply lookup_singleton_ne. }
  destruct Hi as [H1 H2 _ _ _ _ H7 Ht _ Hc H11]. split; simpl; try done.
  - intros i x. simpl. rewrite Hs, insert_singleton_eq. intros [<- <-]%lookup_singleton_Some.
    by split_and!.
  - intros i i'. rewrite Hs, insert_singleton_eq.
    intros [? [<- _]%lookup_singleton_Some] [? [<- _]%lookup_singleton_Some]. done.
  - intros Hx. by apply (f_equal (lookup id)) in Hx; rewrite lookup_insert_eq in Hx.
  - intros d Hd. destruct (H7 d Hd) as (i & ? & -> & Hi). exists i. split_and!; [done..|].
    apply Hnone. intros ->. congruence.
  - intros t Hin. destruct (Hts t Hin) as [[Hin' Hne]|Hok]; [|done].
    destruct (Ht t Hin') as (? & ? & ? & _). split_and!; try done. simpl. intros x. by rewrite Hnone.
  - intros c Hin. destruct (Hc c Hin) as (? & ? & _ & _ & ?). split_and!; try done; simpl.
    + intros x Hx. destruct (decide (plan_upload_id (ct_plan c) = id)) as [E|Hne].
      * rewrite E, lookup_insert_eq in Hx. simplify_eq. by eapply Hcs.
      * by rewrite Hnone in Hx.
    + intros t Hin'. by apply Htc.
Qed.

Lemma inv_part now id number size sha body w : Inv w -> Inv (do_part now id number size sha body w).
Proof.
  intros Hi. unfold do_part. case_decide as Hsize; [by apply inv_respond|].
  case_decide as Hsha; [by apply inv_respond|].
  assert (forall e, Inv (discard (option_list None) (fail e (with_reg (reg w) w)))) as Hfail.
  { intros e. rewrite with_reg_id. apply inv_discard; [by apply inv_respond|].
    by intros d ?%elem_of_nil. }
  unfold begin_part_upload. destruct (uploads (reg w) !! id) as [u|] eqn:Hu; [|apply Hfail].
  case_decide as Hexp.
  { pose proof (inv_expire id (BlobUploadError SessionExpired) w Hi) as He.
    by destruct (remove_upload id (reg w)). }
  destruct (active_part u || completing u) eqn:Hac; [apply Hfail|].
  apply orb_false_iff in Hac as [Hact Hcom].
  case_decide; [apply Hfail|]. destruct (parts u !! number) as [p|] eqn:Hp.
  { case_decide; [|apply Hfail]. apply inv_respond. by rewrite with_reg_id. }
  case_decide as Hbud; [apply Hfail|]. rewrite (inv_budget _ _ _ Hi) in Hbud.
  destruct (inv_sessions _ _ _ Hi _ _ Hu) as (Hused & Huid & Hdir & Hbytes & Hparts).
  assert (forall t, t ∈ part_tasks w -> pt_upload t <> id) as Hother.
  { intros t Ht E. destruct (inv_tasks _ _ _ Hi t Ht) as (_ & _ & _ & Hl). rewrite E in Hl.
    destruct (Hl u Hu). congruence. }
  assert (forall c, c ∈ complete_tasks w -> plan_upload_id (ct_plan c) <> id) as Hnoc.
  { intros c Hc E. destruct (inv_completes _ _ _ Hi c Hc) as (_ & _ & Hl & _). rewrite E in Hl.
    destruct (Hl u Hu). congruence. }
  apply (inv_live_update id u (set_active true u) (staged_bytes (reg w))
    (mkPartTask id number body sha (dir u, part_file number) None :: part_tasks w) w); simpl; try done.
  - apply Hi.
  - constructor; [|apply Hi]. intros (t & E & Ht)%list_elem_of_fmap. by destruct (Hother t Ht).
  - intros t [->|Ht]%elem_of_cons; [right|left; auto]. split_and!; simpl; try done.
    + by rewrite Hdir.
    + intros u'. rewrite lookup_insert_eq. intros [= <-]. split_and!; try done. simpl.
      unfold saturating_add_u64 in Hbud. lia.
  - intros c Hc E. by destruct (Hnoc c Hc).
  - intros t c [->|Ht]%elem_of_cons Hc; simpl; [by apply not_eq_sym, Hnoc|].
    by apply (inv_completes _ _ _ Hi c Hc).
Qed.

(** Writing a part touches no other part, staged or planned. *)
Lemma inv_write i o w : Inv w -> Inv (do_write i o w).
Proof.
  intros Hi. unfold do_write.
  destruct (part_tasks w !! i) as [[id number body sha path [b|]]|] eqn:Ht; try done.
  assert (mkPartTask id number body sha path None ∈ part_tasks w) as Hin by (by eapply list_elem_of_lookup_2).
  destruct (inv_tasks _ _ _ Hi _ Hin) as (Hused & Hpath & Hsha & Hlive). simpl in *.
  assert (forall b, NoDup (pt_upload <$> <[i := mkPartTask id number body sha path (Some b)]> (part_tasks w)) /\
    forall t, t ∈ <[i := mkPartTask id number body sha path (Some b)]> (part_tasks w) ->
      t = mkPartTask id number body sha path (Some b) \/ (t ∈ part_tasks w /\ pt_upload t <> id)) as Hts.
  { intros b. destruct (task_insert pt_upload (part_tasks w) i (mkPartTask id number body sha path None)
      (mkPartTask id number body sha path (Some b)) Ht eq_refl (inv_tasks_one _ _ _ Hi)) as (? & _ & ?). done. }
  destruct Hi as [H1 H2 Hs H4 H5 H6 H7 Htk H9 Hc H11].
  destruct o as [|created].
  - destruct (Hts true) as [Hnd Hmem]. split; simpl; try done.
    + intros id' u Hu. simpl in Hu. destruct (Hs id' u Hu) as (? & ? & ? & ? & Hp). split_and!; try done.
      intros n p Hnp. destruct (Hp n p Hnp) as (Hpp & bd & Hbd & ?). split; [done|].
      exists bd. split; [|done]. simpl. rewrite lookup_insert_ne; [done|].
      rewrite Hpp, Hpath. intros [= E1 E2]. apply udir_inj in E1. apply part_file_inj in E2. subst.
      destruct (Hlive u Hu) as (_ & _ & Hnone & _). congruence.
    + intros t Hin'. destruct (Hmem t Hin') as [-> |[Hin2 Hne]].
      * split_and!; simpl; try done. intros u Hu. destruct (Hlive u Hu) as (? & ? & ? & ? & _).
        split_and!; try done. intros _. apply lookup_insert_eq.
      * destruct (Htk t Hin2) as (? & Hpt & ? & Hl). split_and!; try done. simpl. intros u Hu.
        destruct (Hl u Hu) as (? & ? & ? & ? & Hw). split_and!; try done. intros E.
        rewrite lookup_insert_ne; [auto|]. rewrite Hpt, Hpath. intros [= E1 _].
        apply udir_inj in E1. done.
    + intros c Hin'. destruct (Hc c Hin') as (? & ? & ? & Hno & bodies & Hb & ?).
      split_and!; try done; simpl.
      * intros t Ht'. destruct (Hmem t Ht') as [-> |[? _]]; [simpl; by apply (Hno _ Hin)|auto].
      * exists bodies. split; [|done]. eapply Forall2_impl; [exact Hb|]. simpl.
        intros p b [Hp1 Hp2]. split; [done|]. intros b'. rewrite lookup_insert_ne; [auto|].
        intros <-. rewrite Hpath in Hp1. simpl in Hp1. apply udir_inj in Hp1. by apply (Hno _ Hin).
  - destruct (Hts false) as [Hnd Hmem].
    assert (Inv (with_part_tasks (<[i := mkPartTask id number body sha path (Some false)]> (part_tasks w)) w)) as Hi'.
    { split; simpl; try done.
      - intros t Hin'. destruct (Hmem t Hin') as [-> |[Hin2 _]]; [|by apply Htk].
        split_and!; simpl; try done. intros u Hu. destruct (Hlive u Hu) as (? & ? & ? & ? & _).
        split_and!; done.
      - intros c Hin'. destruct (Hc c Hin') as (? & ? & ? & Hno & ?). split_and!; try done; simpl.
        intros t Ht'. destruct (Hmem t Ht') as [-> |[? _]]; [simpl; by apply (Hno _ Hin)|auto]. }
    destruct created; [|done]. by apply (inv_with_dirs _ _ ({[path.1]} ∪ dirs w) _ Hi').
Qed.

(** A finished task leaves the list. *)
Lemma inv_drop_task i t w :
  Inv w -> part_tasks w !! i = Some t -> Inv (with_part_tasks (delete i (part_tasks w)) w).
Proof.
  intros Hi Ht. destruct (task_delete pt_upload _ _ _ Ht (inv_tasks_one _ _ _ Hi)) as (Hnd & _ & Hd).
  destruct Hi as [H1 H2 Hs H4 H5 H6 H7 Htk H9 Hc H11]. split; simpl; try done.
  - intros x Hx. by apply Htk, Hd.
  - intros c Hin. destruct (Hc c Hin) as (? & ? & ? & Hno & ?). split_and!; try done. simpl.
    intros x Hx. by apply Hno, Hd.
Qed.

(** Removing a file that belongs to no live session. *)
Lemma inv_delete_file p id w :
  Inv w -> p.1 = udir id -> uploads (reg w) !! id = None -> Inv (with_staging (delete p (staging w)) w).
Proof.
  intros Hi Hp Hn. destruct Hi as [H1 H2 Hs H4 H5 H6 H7 Htk H9 Hc H11].
  assert (forall id' q, is_Some (uploads (reg w) !! id') -> q.1 = udir id' -> p <> q) as Hpq.
  { intros id' q [u Hu] Hq ->. rewrite Hq in Hp. apply udir_inj in Hp. congruence. }
  split; simpl; try done.
  - intros id' u Hu. simpl in Hu. destruct (Hs id' u Hu) as (? & ? & ? & ? & Hps). split_and!; try done.
    intros n q Hnq. destruct (Hps n q Hnq) as (Hqq & bd & Hbd & ?). split; [done|]. exists bd.
    split; [|done]. simpl. rewrite lookup_delete_ne; [done|]. by apply (Hpq id'); rewrite ?Hu, ?Hqq.
  - intros t Hin. destruct (Htk t Hin) as (? & Hpt & ? & Hl). split_and!; try done. simpl. intros u Hu.
    destruct (Hl u Hu) as (? & ? & ? & ? & Hw). split_and!; try done. intros E.
    rewrite lookup_delete_ne; [auto|]. apply (Hpq (pt_upload t)); [by rewrite Hu|by rewrite Hpt].
  - intros c Hin. destruct (Hc c Hin) as (? & ? & ? & ? & bodies & Hb & ?). split_and!; try done.
    exists bodies. split; [|done]. eapply Forall2_impl; [exact Hb|]. simpl.
    intros q b [Hq1 Hq2]. split; [done|]. intros b' [_ Hb']%lookup_delete_Some. auto.
Qed.

Lemma inv_finish_part i cleaned w : Inv w -> Inv (do_finish_part i cleaned w).
Proof.
  intros Hi. unfold do_finish_part.
  destruct (part_tasks w !! i) as [[id number body sha path [ok|]]|] eqn:Ht; try done.
  pose proof (inv_drop_task i _ w Hi Ht) as Hi1.
  destruct (task_delete pt_upload _ _ _ Ht (inv_tasks_one _ _ _ Hi)) as (Hnd & Hin & Hd).
  destruct (inv_tasks _ _ _ Hi _ Hin) as (Hused & Hpath & Hsha & Hlive). simpl in *.
  unfold finish_part_upload. cbn [reg with_part_tasks].
  destruct (uploads (reg w) !! id) as [u|] eqn:Hu.
  2: { replace (with_reg (reg w) (with_part_tasks (delete i (part_tasks w)) w))
         with (with_part_tasks (delete i (part_tasks w)) w) by (by destruct w).
       apply inv_respond. destruct cleaned; [|done].
       apply (inv_delete_file path id _ Hi1); [by rewrite Hpath|done]. }
  destruct (Hlive u eq_refl) as (Hact & Hcom & Hnone & Hbud & Hw).
  destruct (inv_sessions _ _ _ Hi _ _ Hu) as (_ & Huid & Hdir & Hbytes & Hparts).
  assert (forall c, c ∈ complete_tasks w -> plan_upload_id (ct_plan c) <> id) as Hnoc.
  { intros c Hc E. destruct (inv_completes _ _ _ Hi c Hc) as (_ & _ & Hl & _). rewrite E in Hl.
    destruct (Hl u Hu). congruence. }
  assert (forall u' n, upload_id u' = id -> dir u' = udir id -> n = part_bytes (parts u') ->
    0 <= n <= budget -> map_Forall (staged_ok (staging w) (udir id)) (parts u') ->
    Inv (with_part_tasks (delete i (part_tasks w)) (with_reg (with_staged n
      (with_uploads (<[id := u']> (uploads (reg w))) (reg w))) w))) as Hupd.
  { intros u' n ? ? ? ? ?. apply (inv_live_update id u u' n (delete i (part_tasks w)) w); try done.
    - intros t Hin'. left. by apply Hd.
    - intros c Hc E. by destruct (Hnoc c Hc).
    - intros t c Hin' Hc. apply (inv_completes _ _ _ Hi c Hc). by apply Hd. }
  pose proof (inv_bytes _ _ _ Hi) as Hb0.
  destruct ok; simpl.
  - rewrite Hnone. apply inv_respond.
    assert (saturating_add_u64 (staged_bytes (reg w)) (zlen body) = staged_bytes (reg w) + zlen body)
      as -> by (unfold saturating_add_u64; lia).
    apply (Hupd (set_parts _ (set_active false u))); simpl; try done.
    + rewrite part_bytes_insert by done. simpl. lia.
    + pose proof (zlen_nonneg body). lia.
    + apply map_Forall_insert_2; [|done]. split; [done|]. exists body. split; [by apply Hw|done].
  - apply inv_respond. by apply (Hupd (set_active false u) (staged_bytes (reg w))).
Qed.

(** ** Completion *)

Lemma check_manifest_spec f id ps manifest seen total total' paths :
  map_Forall (staged_ok f (udir id)) ps ->
  check_manifest ps manifest seen total = Some (total', paths) ->
  exists bodies,
    Forall2 (fun (p : StagedPath) b => p.1 = udir id /\ forall b', f !! p = Some b' -> b' = b) paths bodies /\
    Forall2 (fun m b => blob_hash b = mp_sha256 m /\ zlen b = mp_size m) manifest bodies /\
    total' = total + zlen (mjoin bodies).
Proof.
  intros Hps. revert seen total total' paths.
  induction manifest as [|m manifest IH]; intros seen total total' paths; cbn [check_manifest].
  - intros [= <- <-]. exists []. split_and!; [constructor..|]. unfold zlen. simpl. lia.
  - case_decide; [done|]. destruct (ps !! mp_number m) as [p|] eqn:Hp; [|done].
    case_decide as Hm; [done|]. destruct (checked_add_u64 total (sp_size p)) as [t|] eqn:Ht; [|done].
    apply checked_add_u64_Some in Ht as [-> _]. simpl.
    destruct (check_manifest ps manifest _ _) as [[t2 ps2]|] eqn:Hc; [|done].
    intros [= <- <-]. destruct (IH _ _ _ _ Hc) as (bodies & Hf1 & Hf2 & ->).
    destruct (Hps _ _ Hp) as (Hpath & body & Hb & Hz & Hh).
    assert (sp_sha256 p = mp_sha256 m) as E1 by (apply dec_stable; tauto).
    assert (sp_size p = mp_size m) as E2 by (apply dec_stable; tauto).
    exists (body :: bodies). split_and!.
    + constructor; [|done]. split; [by rewrite Hpath|]. intros b' Hb'. congruence.
    + constructor; [|done]. split; congruence.
    + simpl. rewrite zlen_app. lia.
Qed.

Lemma inv_add_complete c w :
  Inv w -> complete_ok root w c ->
  (forall c', c' ∈ complete_tasks w -> plan_upload_id (ct_plan c') <> plan_upload_id (ct_plan c)) ->
  Inv (with_complete_tasks (c :: complete_tasks w) w).
Proof.
  intros Hi Hc Hne. destruct Hi as [H1 H2 Hs H4 H5 H6 H7 Htk H9 Hcs H11]. split; simpl; try done.
  - intros c' [->|Hin]%elem_of_cons; [done|]. by apply Hcs.
  - constructor; [|done]. intros (c' & E & Hin)%list_elem_of_fmap. by apply (Hne c' Hin).
Qed.

Lemma inv_drop_complete i c w :
  Inv w -> complete_tasks w !! i = Some c ->
  Inv (with_complete_tasks (delete i (complete_tasks w)) w) /\ complete_ok root w c /\
  forall c', c' ∈ delete i (complete_tasks w) -> plan_upload_id (ct_plan c') <> plan_upload_id (ct_plan c).
Proof.
  intros Hi Hc.
  destruct (task_delete (fun c => plan_upload_id (ct_plan c)) _ _ _ Hc (inv_completes_one _ _ _ Hi))
    as (Hnd & Hin & Hd).
  split_and!; [|by apply (inv_completes _ _ _ Hi)|by apply Hd].
  destruct Hi as [H1 H2 Hs H4 H5 H6 H7 Htk H9 Hcs H11]. split; simpl; try done.
  intros c' Hin'. by apply Hcs, Hd.
Qed.

Lemma inv_complete now id manifest w : Inv w -> Inv (do_complete now id manifest w).
Proof.
  intros Hi. unfold do_complete, prepare_completion.
  assert (forall e, Inv (discard (option_list None) (fail e (with_reg (reg w) w)))) as Hfail.
  { intros e. rewrite with_reg_id. apply inv_discard; [by apply inv_respond|].
    by intros d ?%elem_of_nil. }
  destruct (uploads (reg w) !! id) as [u|] eqn:Hu; [|apply Hfail]. case_decide.
  { pose proof (inv_expire id (BlobUploadError SessionExpired) w Hi) as He.
    by destruct (remove_upload id (reg w)). }
  destruct (active_part u || completing u) eqn:Hac; [apply Hfail|].
  apply orb_false_iff in Hac as [Hact Hcom].
  destruct (check_manifest _ _ _ _) as [[total paths]|] eqn:Hm; [|apply Hfail].
  case_decide as Htot; [apply Hfail|]. case_decide; [apply Hfail|].
  destruct (inv_sessions _ _ _ Hi _ _ Hu) as (Hused & Huid & Hdir & Hbytes & Hparts).
  assert (forall t, t ∈ part_tasks w -> pt_upload t <> id) as Hother.
  { intros t Ht E. destruct (inv_tasks _ _ _ Hi t Ht) as (_ & _ & _ & Hl). rewrite E in Hl.
    destruct (Hl u Hu). congruence. }
  assert (forall c, c ∈ complete_tasks w -> plan_upload_id (ct_plan c) <> id) as Hnoc.
  { intros c Hc E. destruct (inv_completes _ _ _ Hi c Hc) as (_ & _ & Hl & _). rewrite E in Hl.
    destruct (Hl u Hu). congruence. }
  pose proof (inv_live_update id u (set_completing true u) (staged_bytes (reg w)) (part_tasks w) w Hi Hu
    Huid Hdir Hbytes (inv_bytes _ _ _ Hi) Hparts (inv_tasks_one _ _ _ Hi)) as Hi1.
  apply (inv_add_complete (mkCompleteTask (mkPlan (upload_id u) (us_media_type u) (expected_size u)
    (expected_sha256 u) paths (dir u)) manifest (expected_sha256 u))
    (with_reg (with_uploads (<[id := set_completing true u]> (uploads (reg w))) (reg w)) w)); simpl.
  - apply Hi1; auto. intros t c Ht Hc. by apply (inv_completes _ _ _ Hi c Hc).
  - rewrite Huid. split_and!; simpl; rewrite ?Huid; try done.
    + intros x. rewrite lookup_insert_eq. by intros [= <-].
    + destruct (check_manifest_spec (staging w) id _ _ _ _ _ _ Hparts Hm) as (bodies & ? & ? & Ht).
      exists bodies. simpl. rewrite ?Huid. split_and!; [done..|]. lia.
  - intros c' Hc'. rewrite Huid. by apply Hnoc.
Qed.

Lemma inv_abandon i plan manifest h e w :
  Inv w -> complete_tasks w !! i = Some (mkCompleteTask plan manifest h) -> Inv (abandon i plan e w).
Proof.
  intros Hi Hc. destruct (inv_drop_complete i _ w Hi Hc) as (Hi1 & (_ & _ & _ & Hts & _) & Hne).
  apply inv_respond. unfold clear_completing. simpl in *.
  set (id := plan_upload_id plan) in *. destruct (uploads (reg w) !! id) as [u|] eqn:Hu.
  2: { replace (with_complete_tasks (delete i (complete_tasks w)) (with_reg (reg w) w))
         with (with_complete_tasks (delete i (complete_tasks w)) w) by (by destruct w). done. }
  destruct (inv_sessions _ _ _ Hi _ _ Hu) as (Hused & Huid & Hdir & Hbytes & Hparts).
  apply (inv_live_update id u (set_completing false u) (staged_bytes (reg w)) (part_tasks w)
    _ Hi1 Hu Huid Hdir Hbytes (inv_bytes _ _ _ Hi) Hparts (inv_tasks_one _ _ _ Hi)); simpl.
  - intros t Ht. left. auto.
  - intros c Hin E. by destruct (Hne c Hin).
  - intros t c Ht Hin. by apply (inv_completes _ _ _ Hi1 c Hin).
Qed.

Lemma inv_hash i w : Inv w -> Inv (do_hash i w).
Proof.
  intros Hi. unfold do_hash.
  destruct (complete_tasks w !! i) as [[plan manifest [h|]]|] eqn:Hc; try done.
  destruct (read_parts _ _ _) as [[total content]|e]; [|by eapply inv_abandon].
  case_decide as Htot; [|by eapply inv_abandon].
  destruct (task_insert (fun c => plan_upload_id (ct_plan c)) _ _ _
    (mkCompleteTask plan manifest (Some (blob_hash content))) Hc eq_refl (inv_completes_one _ _ _ Hi))
    as (Hnd & Hin & Hd).
  destruct Hi as [H1 H2 Hs H4 H5 H6 H7 Htk H9 Hcs H11]. split; simpl; try done.
  intros c' Hin'. destruct (Hd c' Hin') as [-> |[? _]]; [|by apply Hcs]. apply (Hcs _ Hin).
Qed.

Lemma inv_store i io now w : Inv w -> Inv (do_store i io now w).
Proof.
  intros Hi. unfold do_store.
  destruct (complete_tasks w !! i) as [[plan manifest [h|]]|] eqn:Hc; try done.
  destruct (put_part_files_with_hash _ _ _ _ _ _ _ _) as [s [hash|e]].
  - apply inv_respond. destruct (inv_drop_complete i _ w Hi Hc) as (Hi1 & (Hu & Hcl & _) & _).
    apply (inv_with_store _ _ s) in Hi1. destruct (inv_remove (plan_upload_id plan) _ Hi1) as [Hi2 Hn].
    apply inv_discard; [by destruct w|]. intros d ->%list_elem_of_singleton.
    exists (plan_upload_id plan). done.
  - apply (inv_with_store _ _ s) in Hi. by eapply inv_abandon.
Qed.

Lemma inv_put io now now' mt size sha d body w : Inv w -> Inv (do_put io now now' mt size sha d body w).
Proof.
  intros Hi. unfold do_put. case_decide; [by apply inv_respond|]. case_decide; [by apply inv_respond|].
  destruct (put_with_durability _ _ _ _ _ _ _) as [s [h|e]]; apply inv_respond; by apply inv_with_store.
Qed.

Lemma inv_initial ttl cap : Inv (uploads_new root budget ttl cap).
Proof.
  split; simpl; try done; try lia; try (by intros ? ?%elem_of_nil); try constructor.
  intros id id'. rewrite lookup_empty. by intros [].
Qed.

Lemma inv_reach ttl cap w : ureach root budget ttl cap w -> Inv w.
Proof.
  induction 1 as [|w o _ Hi Hfresh]; [apply inv_initial|]. destruct o; cbn [ustep].
  - by apply inv_sweep.
  - by apply inv_cleanup.
  - by apply inv_create.
  - by apply inv_part.
  - by apply inv_write.
  - by apply inv_finish_part.
  - by apply inv_complete.
  - by apply inv_hash.
  - by apply inv_store.
  - by apply inv_abort.
  - by apply inv_put.
Qed.
End Preservation.

(** ** Claims *)

Section UploadClaims.
Context `{HexCodec, Sha256}.
Variables (root : string) (budget ttl cap : Z).
Hypothesis budget_u64 : 0 <= budget < u64_max.

(** The staging budget holds: in every reachable state, whatever creates,
    parts, completions, aborts, expirations and failures interleave, the peer has
    at most one session, the byte count is exactly the size of its staged parts,
    and it never exceeds the budget. *)
Theorem upload_budget_respected w :
  ureach root budget ttl cap w ->
  0 <= staged_bytes (reg w) <= budget /\
  (uploads (reg w) = ∅ /\ staged_bytes (reg w) = 0 \/
   exists id u, uploads (reg w) = {[id := u]} /\ staged_bytes (reg w) = part_bytes (parts u)).
Proof.
  intros Hi%inv_reach; [|done]. split; [apply Hi|].
  destruct (decide (uploads (reg w) = ∅)) as [He|He]; [left; split; [done|by apply Hi]|right].
  apply map_choose in He as (id & u & Hu). exists id, u. split; [by eapply live_single|].
  by destruct (inv_sessions _ _ _ Hi _ _ Hu) as (_ & _ & _ & ? & _).
Qed.

(** Acknowledged parts stay intact: in every reachable state, each part of a
    live session is on disk with exactly the bytes whose size and hash were
    checked when it arrived, and its directory is not one of those left to be
    removed; writes of other parts, late writes of aborted sessions and the
    removal of abandoned directories never touch it. *)
Theorem staged_parts_intact w id u n p :
  ureach root budget ttl cap w ->
  uploads (reg w) !! id = Some u -> parts u !! n = Some p ->
  (dir u ∉ trash w) /\
  exists body, staging w !! sp_path p = Some body /\ zlen body = sp_size p /\
    blob_hash body = sp_sha256 p.
Proof.
  intros Hi%inv_reach Hu Hp; [|done].
  destruct (inv_sessions _ _ _ Hi _ _ Hu) as (_ & _ & Hdir & _ & Hps). split.
  - intros Ht. destruct (inv_trash _ _ _ Hi _ Ht) as (id' & _ & E & Hn).
    rewrite Hdir in E. apply udir_inj in E as <-. congruence.
  - by destruct (Hps _ _ Hp).
Qed.

Lemma read_back (f : gmap StagedPath bytes) d paths bodies bodies' :
  Forall2 (fun (p : StagedPath) b => p.1 = d /\ forall b', f !! p = Some b' -> b' = b) paths bodies ->
  (fun p => f !! p) <$> paths = Some <$> bodies' -> bodies' = bodies.
Proof.
  intros Hf. revert bodies'. induction Hf as [|p b paths bodies [_ Hp] Hf IH]; intros [|b' bodies'] E;
    simplify_eq/=; [done|]. f_equal; [by apply Hp|by apply IH].
Qed.

(** C21. A completed upload is what the client sent: when a completion publishes
    a hash the store did not have, the stored blob is the concatenation, in
    manifest order, of parts with the sizes and hashes the manifest names, its
    size is the declared one and its hash the reported one; this in every
    interleaving with aborts, sweeps and other uploads. *)
Theorem completion_is_honest w i plan manifest h io now hash size mt :
  ureach root budget ttl cap w ->
  complete_tasks w !! i = Some (mkCompleteTask plan manifest (Some h)) ->
  blobs (store w) !! h = None ->
  responses (do_store i io now w) = responses w ++ [BlobStored hash size mt] ->
  exists bodies,
    Forall2 (fun m b => blob_hash b = mp_sha256 m /\ zlen b = mp_size m) manifest bodies /\
    blobs (store (do_store i io now w)) !! hash = Some (mjoin bodies) /\
    zlen (mjoin bodies) = size /\ blob_hash (mjoin bodies) = hash.
Proof.
  intros Hi%inv_reach Hc Hn Hr; [|done].
  destruct (inv_completes _ _ _ Hi _ (list_elem_of_lookup_2 _ _ _ Hc))
    as (_ & _ & _ & _ & bodies & Hpaths & Hman & Hsize). simpl in *.
  unfold do_store in *. rewrite Hc in *.
  destruct (put_part_files_with_hash _ _ _ _ _ _ _ _) as [s res] eqn:Hput.
  pose proof (put_part_files_new _ _ _ _ _ _ _ _ _ _ Hn Hput) as [_ Hres].
  destruct res as [h'|e]; simpl in Hr; apply app_inj_2 in Hr as [_ Hr]; [|done| |done]; simplify_eq.
  destruct Hres as (-> & bodies' & Hparts & Hh & Hz & Hb).
  rewrite (read_back _ _ _ _ _ Hpaths Hparts) in *. exists bodies. by split_and!.
Qed.
End UploadClaims.

Module UploadExamples.
Import PlainHex PlainCodec BlobExamples.

Definition w0 : Uploads := uploads_new "/u" 100 60 16.
Definition id1 : string := "11".
Definition bodyB : bytes := blobB.
Definition hB : string := blob_hash bodyB.
Definition man : list BlobUploadPart := [mkManifestPart 1 hB 2].

(** A session with one part, up to the plan of its completion. *)
Definition ops1 (sha : option string) : list uop :=
  [UCreate 0 id1 "text/plain" 2 sha None None; UPart 1 id1 1 2 hB bodyB; UWrite 0 WriteOk;
   UFinishPart 0 true; UComplete 2 id1 man].
Definition after (ops : list uop) (w : Uploads) : Uploads := foldl ustep w ops.

Fixpoint all_admissible (ops : list uop) (w : Uploads) : Prop :=
  match ops with [] => True | o :: ops' => admissible w o /\ all_admissible ops' (ustep w o) end.

Lemma run_reach ops w :
  ureach "/u" 100 60 16 w -> all_admissible ops w -> ureach "/u" 100 60 16 (after ops w).
Proof.
  revert w. induction ops as [|o ops IH]; intros w Hw Ha; [done|]. destruct Ha as [Ho Ha].
  apply IH; [by constructor|done].
Qed.

Lemma ops1_reach sha n : ureach "/u" 100 60 16 (after (take n (ops1 sha)) w0).
Proof.
  apply run_reach; [constructor|]. do 5 (destruct n as [|n]; [done|]; split; [done || set_solver|]).
  by destruct n.
Qed.

Lemma budget_ok : 0 <= 100 < u64_max.
Proof. by vm_compute. Qed.

Definition staged1 : Uploads := after (take 4 (ops1 None)) w0.
Definition session1 : UploadSession := mkSession id1 "text/plain" 2 None (8 * 1024 * 1024) 60 "/u/11"
  {[1%N := mkPart hB 2 ("/u/11", "1.part")]} false false.

Lemma upload_budget_respected_witness :
  staged_bytes (reg staged1) = 2 /\ 0 <= staged_bytes (reg staged1) <= 100.
Proof.
  split; [vm_compute; reflexivity|].
  exact (proj1 (upload_budget_respected "/u" 100 60 16 budget_ok staged1 (ops1_reach None 4))).
Defined.

Lemma staged_parts_intact_witness :
  exists body, staging staged1 !! ("/u/11", "1.part") = Some body /\ zlen body = 2 /\
    blob_hash body = hB.
Proof.
  apply (staged_parts_intact "/u" 100 60 16 budget_ok staged1 id1 session1 1
    (mkPart hB 2 ("/u/11", "1.part")) (ops1_reach None 4)).
  - vm_compute. reflexivity.
  - vm_compute. reflexivity.
Defined.

(** The completion of a session that declared its hash. *)
Definition planned : Uploads := after (take 5 (ops1 (Some hB))) w0.
Definition plan1 : CompletionPlan :=
  mkPlan id1 "text/plain" 2 (Some hB) [("/u/11", "1.part")] "/u/11".

Lemma completion_is_honest_witness :
  exists bodies, blobs (store (do_store 0 store_io_ok 3 planned)) !! hB = Some (mjoin bodies) /\
    zlen (mjoin bodies) = 2 /\ blob_hash (mjoin bodies) = hB.
Proof.
  destruct (completion_is_honest "/u" 100 60 16 budget_ok planned 0 plan1 man hB store_io_ok 3 hB 2
    "text/plain" (ops1_reach (Some hB) 5)) as (bodies & _ & H2 & H3 & H4).
  - vm_compute. reflexivity.
  - vm_compute. reflexivity.
  - vm_compute. reflexivity.
  - exists bodies. exact (conj H2 (conj H3 H4)).
Defined.

(** A store that already has [blobA], and a session that declares the hash of
    [blobA] but stages the two bytes of [blobB]. *)
Definition preloaded : Uploads := with_store (fst durable_put) w0.
Definition wrong_hash : list uop := ops1 (Some hA) ++ [UStore 0 store_io_ok 3].

(** A wrong declared hash is acknowledged when the store already knows it:
    the client declared the hash of another blob, uploaded two bytes with a
    different hash, and is told that a blob of two bytes is stored under the
    declared hash; the store holds the other blob, of one byte, and the staged
    bytes are dropped. *)
Theorem wrong_declared_hash_acknowledged :
  last (responses (after wrong_hash preloaded)) = Some (BlobStored hA 2 "text/plain") /\
  blobs (store (after wrong_hash preloaded)) !! hA = Some blobA /\
  zlen blobA = 1 /\ blob_hash bodyB <> hA /\
  blobs (store (after wrong_hash preloaded)) !! hB = None /\
  uploads (reg (after wrong_hash preloaded)) = ∅.
Proof. split_and!; try (vm_compute; reflexivity). vm_compute. discriminate. Qed.

(** An abort while a part is being written. *)
Definition racing : list uop :=
  [UCreate 0 id1 "text/plain" 2 None None None; UPart 1 id1 1 2 hB bodyB; UAbort id1;
   UCleanup 0 true; UWrite 0 WriteOk; UFinishPart 0 true].

(** An abort that overtakes the write of a part leaves a staging directory
    behind: the write creates the directory again after it was removed, and the
    end of the part removes only the file.  Nothing is left that would remove the
    directory. *)
Theorem aborted_upload_leaks_directory :
  let w := after racing w0 in
  uploads (reg w) = ∅ /\ part_tasks w = [] /\ complete_tasks w = [] /\ trash w = [] /\
  staging w = ∅ /\ "/u/11" ∈ dirs w.
Proof. split_and!; try (vm_compute; reflexivity). Qed.
End UploadExamples.
