(* ===== verification/Automunge.v ===== *)
(** * JSON in Automerge documents

    Model of [crates/automunge/src/lib.rs]: reading, writing and updating
    [serde_json::Value] trees inside an Automerge document.  A document is seen as
    the tree its local reader sees: a local [put], [insert] or [delete] acts on the
    winner of a register and supersedes its conflicts, so that an object is a map
    or a list of nodes.  [put_object] followed by writes into the new object is the
    node those writes build.  Table objects, which no code creates, are left out. *)

From S2P Require Import Prelude.

#[export] Set Warnings "-register-all".

(** ** Values *)

(** A 64-bit float by its bits. *)
Record f64 := mkF64 { f64_bits : Z }.

Definition is_finite (f : f64) : bool :=
  negb (Z.land (Z.shiftr (f64_bits f) 52) 2047 =? 2047).
#[global] Arguments is_finite : simpl never.

(** [automerge::ScalarValue]; [SOther] is one of bytes, counter, timestamp and
    unknown. *)
Inductive ScalarValue :=
| SNull
| SBoolean (b : bool)
| SInt (n : Z)
| SUint (n : Z)
| SF64 (f : f64)
| SStr (s : string)
| SOther (kind : string).

(** The tree under one key of a document. *)
Inductive node :=
| NScalar (s : ScalarValue)
| NMap (m : gmap string node)
| NList (l : list node)
| NText (s : string).

(** [serde_json::Number]. *)
Inductive Number := PosInt (n : Z) | NegInt (n : Z) | Float (f : f64).

(** [serde_json::Value]. *)
Inductive json :=
| JNull
| JBool (b : bool)
| JNumber (n : Number)
| JString (s : string)
| JArray (l : list json)
| JObject (m : gmap string json).

#[export] Instance f64_eq_dec : EqDecision f64.
Proof. solve_decision. Defined.
#[export] Instance ScalarValue_eq_dec : EqDecision ScalarValue.
Proof. solve_decision. Defined.
#[export] Instance Number_eq_dec : EqDecision Number.
Proof. solve_decision. Defined.
#[export] Instance json_eq_dec : EqDecision json.
Proof.
  refine (fix go x y :=
    let _ : EqDecision json := @go in
    match x, y with
    | JNull, JNull => left _
    | JBool b, JBool b' => cast_if (decide (b = b'))
    | JNumber n, JNumber n' => cast_if (decide (n = n'))
    | JString s, JString s' => cast_if (decide (s = s'))
    | JArray l, JArray l' => cast_if (decide (l = l'))
    | JObject m, JObject m' => cast_if (decide (m = m'))
    | _, _ => right _
    end); clear dependent go; abstract congruence.
Defined.

(** Induction over values, with the hypothesis for every element: by the number
    of nodes. *)
Fixpoint json_size (v : json) : nat :=
  match v with
  | JArray l => S (sum_list_with json_size l)
  | JObject m => S (map_fold (fun _ v n => json_size v + n)%nat 0%nat m)
  | _ => 1%nat
  end.

Lemma json_size_elem (m : gmap string json) k v :
  m !! k = Some v -> (json_size v <= map_fold (fun _ v n => json_size v + n)%nat 0%nat m)%nat.
Proof.
  revert k v. apply (map_fold_weak_ind
    (fun n (m : gmap string json) => forall k v, m !! k = Some v -> (json_size v <= n)%nat)).
  - intros k v. by rewrite lookup_empty.
  - intros k v m' n _ IH k' v' [[-> ->]|[_ Hv]]%lookup_insert_Some; [lia|].
    specialize (IH _ _ Hv). lia.
Qed.

Lemma json_ind' (P : json -> Prop) :
  P JNull -> (forall b, P (JBool b)) -> (forall n, P (JNumber n)) -> (forall s, P (JString s)) ->
  (forall l, Forall P l -> P (JArray l)) ->
  (forall m, map_Forall (fun _ => P) m -> P (JObject m)) -> forall v, P v.
Proof.
  intros H1 H2 H3 H4 H5 H6 v. remember (json_size v) as n eqn:Hn. revert v Hn.
  induction (lt_wf n) as [n _ IH]; intros [| | | |l|m] ->; auto.
  - apply H5, Forall_forall. intros v Hv. eapply IH; [|done]. cbn [json_size].
    apply (sum_list_with_in _ json_size) in Hv. lia.
  - apply H6. intros k v Hv. eapply IH; [|done]. cbn [json_size].
    apply json_size_elem in Hv. lia.
Qed.

(** ** Reading *)

Definition i64_max : Z := 2 ^ 63 - 1.

(** [Number::from] of the two integer types. *)
Definition number_of_i64 (i : Z) : Number := if i <? 0 then NegInt i else PosInt i.

(** [read_str_if_present]. *)
Definition read_str_if_present (m : gmap string node) (key : string) : option string :=
  match m !! key with
  | Some (NScalar (SStr s)) => Some s
  | _ => None
  end.

(** [scalar_to_json]. *)
Definition scalar_to_json (s : ScalarValue) : option json :=
  match s with
  | SNull => Some JNull
  | SBoolean b => Some (JBool b)
  | SInt i => Some (JNumber (number_of_i64 i))
  | SUint u => Some (JNumber (PosInt u))
  | SF64 f => Some (if is_finite f then JNumber (Float f) else JNull)
  | SStr s => Some (JString s)
  | SOther _ => None
  end.

(** [read_json_value] of the node found at a property. *)
Fixpoint read_node (n : node) : option json :=
  match n with
  | NScalar s => scalar_to_json s
  | NMap m => Some (JObject (omap read_node m))
  | NList l => Some (JArray ((fun n => default JNull (read_node n)) <$> l))
  | NText s => Some (JString s)
  end.

Definition read_json_value (m : gmap string node) (key : string) : option json :=
  m !! key ≫= read_node.

(** ** Writing *)

(** The scalar a number is stored as: [as_i64], else [as_u64], else [as_f64]. *)
Definition number_scalar (n : Number) : ScalarValue :=
  match n with
  | PosInt u => if u <=? i64_max then SInt u else SUint u
  | NegInt i => SInt i
  | Float f => SF64 f
  end.

(** The node [put_json_at_key] and [insert_json_at_index] build: they call each
    other on the elements of a list and of a map. *)
Fixpoint fresh_node (v : json) : node :=
  match v with
  | JNull => NScalar SNull
  | JBool b => NScalar (SBoolean b)
  | JNumber n => NScalar (number_scalar n)
  | JString s => NScalar (SStr s)
  | JArray l => NList (fresh_node <$> l)
  | JObject m => NMap (fresh_node <$> m)
  end.

Definition put_json_at_key (m : gmap string node) (key : string) (v : json) : gmap string node :=
  <[key := fresh_node v]> m.

Definition insert_json_at_index (l : list node) (i : nat) (v : json) : result string (list node) :=
  if decide (i <= length l)%nat then Ok (take i l ++ fresh_node v :: drop i l)
  else Err "invalid index".

(** [json_to_hydrate]; [batch_create_object] creates the hydrated tree. *)
Fixpoint json_to_hydrate (v : json) : node :=
  match v with
  | JNull => NScalar SNull
  | JBool b => NScalar (SBoolean b)
  | JNumber (PosInt u) => NScalar (if u <=? i64_max then SInt u else SUint u)
  | JNumber (NegInt i) => NScalar (SInt i)
  | JNumber (Float f) => NScalar (SF64 f)
  | JString s => NScalar (SStr s)
  | JArray l => NList (json_to_hydrate <$> l)
  | JObject m => NMap (json_to_hydrate <$> m)
  end.

Definition put_json_at_key_batched (m : gmap string node) (key : string) (v : json)
    : gmap string node :=
  match v with
  | JArray _ | JObject _ => <[key := json_to_hydrate v]> m
  | JNull => <[key := NScalar SNull]> m
  | JBool b => <[key := NScalar (SBoolean b)]> m
  | JNumber n => <[key := NScalar (number_scalar n)]> m
  | JString s => <[key := NScalar (SStr s)]> m
  end.

(** ** Updating in place

    [update_json_at_key] and [update_json_at_index] reuse the map or list that is
    there: keys that are gone are deleted and the others updated, list elements
    within the old length are updated and the rest inserted, elements past the new
    length are deleted. *)
Fixpoint update_node (old : option node) (v : json) : node :=
  match v with
  | JNull => NScalar SNull
  | JBool b => NScalar (SBoolean b)
  | JNumber n => NScalar (number_scalar n)
  | JString s => NScalar (SStr s)
  | JObject m =>
      let kept := match old with Some (NMap o) => o | _ => ∅ end in
      NMap (map_imap (fun k v => Some (update_node (kept !! k) v)) m)
  | JArray l =>
      let existing := match old with Some (NList o) => o | _ => [] end in
      NList ((fix go existing l :=
        match l with
        | [] => []
        | v :: l' =>
            match existing with
            | e :: existing' => update_node (Some e) v :: go existing' l'
            | [] => fresh_node v :: go [] l'
            end
        end) existing l)
  end.

Definition update_json_at_key (m : gmap string node) (key : string) (v : json)
    : gmap string node :=
  <[key := update_node (m !! key) v]> m.

Definition update_json_at_index (l : list node) (i : nat) (v : json) : result string (list node) :=
  if decide (i < length l)%nat then Ok (<[i := update_node (l !! i) v]> l)
  else Err "invalid index".

(** ** Lemmas *)

(** A value [serde_json] can hold: integers in their ranges, finite floats. *)
Definition number_ok (n : Number) : bool :=
  match n with
  | PosInt u => bool_decide (0 <= u <= u64_max)
  | NegInt i => bool_decide (- 2 ^ 63 <= i < 0)
  | Float f => is_finite f
  end.

Fixpoint json_ok (v : json) : bool :=
  match v with
  | JNumber n => number_ok n
  | JArray l => forallb json_ok l
  | JObject m => map_fold (fun _ v b => json_ok v && b) true m
  | _ => true
  end.

Lemma json_ok_object m : json_ok (JObject m) = true -> map_Forall (fun _ v => json_ok v = true) m.
Proof.
  cbn [json_ok]. apply (map_fold_weak_ind (fun b (m : gmap string json) =>
    b = true -> map_Forall (fun _ v => json_ok v = true) m)).
  - intros _. apply map_Forall_empty.
  - intros k v m' b Hk IH [Hv Hb]%andb_true_iff. by apply map_Forall_insert; auto.
Qed.

Lemma number_scalar_json n : number_ok n = true -> scalar_to_json (number_scalar n) = Some (JNumber n).
Proof.
  destruct n as [u|i|f]; cbn [number_ok number_scalar].
  - intros Hu%bool_decide_eq_true. destruct (u <=? i64_max); [|done]. cbn [scalar_to_json]. unfold number_of_i64.
    by rewrite (proj2 (Z.ltb_ge _ _)) by lia.
  - intros Hi%bool_decide_eq_true. cbn [scalar_to_json]. unfold number_of_i64. by rewrite (proj2 (Z.ltb_lt _ _)) by lia.
  - intros Hf. cbn [scalar_to_json]. by rewrite Hf.
Qed.

Lemma fresh_node_hydrate v : json_to_hydrate v = fresh_node v.
Proof.
  induction v as [| |[]| |l IH|m IH] using json_ind'; try done; simpl; f_equal.
  - apply list_fmap_ext. intros i v Hv. by apply (Forall_lookup_1 _ _ _ _ IH Hv).
  - apply map_fmap_ext. intros k v Hv. by apply (IH k v Hv).
Qed.

(** The tree after an update does not depend on the tree before. *)
Lemma update_node_fresh old v : update_node old v = fresh_node v.
Proof.
  revert old. induction v as [| |[]| |l IH|m IH] using json_ind'; intros old; try done; simpl; f_equal.
  - generalize (match old with Some (NList o) => o | _ => [] end). clear old.
    induction IH as [|v l Hv _ IHl]; intros [|e es]; simpl; f_equal; auto.
  - apply map_eq. intros k. rewrite map_lookup_imap, lookup_fmap.
    destruct (m !! k) as [v|] eqn:Hv; [|done]. simpl. f_equal. by apply (IH k v Hv).
Qed.

Lemma read_fresh_node v : json_ok v = true -> read_node (fresh_node v) = Some v.
Proof.
  induction v as [| |n| |l IH|m IH] using json_ind'; intros Hok; try done.
  - by apply number_scalar_json.
  - simpl. do 2 f_equal. rewrite <- list_fmap_compose. rewrite <- (list_fmap_id l) at 2.
    apply list_fmap_ext. intros i v Hv. simpl.
    rewrite (Forall_lookup_1 _ _ _ _ IH Hv); [done|].
    cbn [json_ok] in Hok. rewrite forallb_forall in Hok.
    by apply Hok, list_elem_of_In, list_elem_of_lookup_2 with i.
  - simpl. do 2 f_equal. apply map_eq. intros k. rewrite lookup_omap, lookup_fmap.
    destruct (m !! k) as [v|] eqn:Hv; [|done]. simpl.
    apply (IH k v Hv). by apply (json_ok_object m Hok k v).
Qed.

(** ** Claims *)

(** Whatever is stored under a key, writing a JSON value in place and reading
    it back gives the value, and no other key of the object is affected.  In
    particular keys and list elements that the new value no longer has are gone. *)
Theorem update_json_roundtrip m key v :
  json_ok v = true ->
  read_json_value (update_json_at_key m key v) key = Some v /\
  forall k, k <> key -> update_json_at_key m key v !! k = m !! k.
Proof.
  intros Hok. unfold read_json_value, update_json_at_key. split.
  - rewrite lookup_insert_eq. simpl. rewrite update_node_fresh. by apply read_fresh_node.
  - intros k Hk. by rewrite lookup_insert_ne.
Qed.

(** The three ways to write a value at a key, fresh objects, one batch, and
    updating the objects that are there, leave the same document; the same holds
    for an existing list element and its replacement. *)
Theorem json_writers_agree m key l i v :
  put_json_at_key_batched m key v = put_json_at_key m key v /\
  update_json_at_key m key v = put_json_at_key m key v /\
  ((i < length l)%nat -> update_json_at_index l i v = Ok (take i l ++ fresh_node v :: drop (S i) l)).
Proof.
  split_and!.
  - destruct v; unfold put_json_at_key_batched, put_json_at_key; by rewrite ?fresh_node_hydrate.
  - unfold update_json_at_key. by rewrite update_node_fresh.
  - intros Hi. unfold update_json_at_index. rewrite decide_True by done.
    by rewrite update_node_fresh, insert_take_drop by done.
Qed.

Module AutomungeExamples.
Definition manifest : json :=
  JObject {["a" := JArray [JNumber (PosInt 3); JNumber (NegInt (-1)); JNull]; "b" := JString "x"]}.
Definition before : gmap string node :=
  {["v" := NMap {["a" := NText "old"; "gone" := NScalar SNull]}; "w" := NScalar (SBoolean true)]}.

Lemma update_json_roundtrip_witness :
  read_json_value (update_json_at_key before "v" manifest) "v" = Some manifest.
Proof. apply (update_json_roundtrip before "v" manifest). vm_compute. reflexivity. Defined.
End AutomungeExamples.
