(* ===== verification/RuntimeDoc.v ===== *)
(** * The runtime state document

    Model of [crates/runtime-doc/src/doc.rs] and of the lifecycle types of
    [types.rs]: kernel state, queue, executions and file checkpoint, as reads and
    writes on the tree of [Automunge].  A writer returns the document it left
    behind with its outcome.  Writes fail where Automerge refuses them, on a node
    that is not an object; conflicts of concurrent writers are not modelled, so a
    register has the one value its reader sees.  The instance of [StateDoc] at the
    end discharges, with the real document, what the kernel queue was verified
    against. *)

From S2P Require Import Prelude Kernel Automunge.

(** ** Data *)

(** [RuntimeStateError]; [AutomergeErr] stands for a refused document operation. *)
Inductive RuntimeStateError :=
| MissingScaffold (key : string)
| MissingOutputId
| InvalidRecoveredExecution
| InvalidProgressShape
| AutomergeErr.

(** [OutputOrderCacheEntry]. *)
Record OutputOrderCacheEntry := mkOrder { next_seq : Z; latest_seq : option Z }.

(** [RuntimeStateDoc]: the root map and the cache of output positions. *)
Record RuntimeStateDoc := mkRuntimeDoc {
  root : gmap string node;
  output_order_cache : gmap string OutputOrderCacheEntry;
}.

(** [ExecutionState]. *)
Record ExecutionState := mkExecution {
  es_status : string;
  es_execution_count : option Z;
  es_success : option bool;
  es_outputs : list json;
  es_source : option string;
  es_cell_id : option string;
  es_seq : option Z;
  es_submitted_by : option string;
}.

(** Writers of the document. *)
Definition DocM (A : Type) : Type :=
  RuntimeStateDoc -> RuntimeStateDoc * result RuntimeStateError A.

Notation "'do!' x ':=' e 'else' d 'in' k" :=
  (match e with Ok x => k | Err err => (d, Err err) end)
  (at level 10, x pattern, e at level 100, d at level 100, k at level 200,
   format "'[v' 'do!'  x  ':='  e  'else'  d  'in' '/' k ']'") : rust_scope.

Definition from_doc (m : gmap string node) : RuntimeStateDoc := mkRuntimeDoc m ∅.

(** [doc_mut]: a caller that may write behind the document's back loses the
    cache. *)
Definition doc_mut (f : gmap string node -> gmap string node) (d : RuntimeStateDoc)
    : RuntimeStateDoc := mkRuntimeDoc (f (root d)) ∅.

Definition set_root (key : string) (n : node) (d : RuntimeStateDoc) : RuntimeStateDoc :=
  mkRuntimeDoc (<[key := n]> (root d)) (output_order_cache d).

Definition with_cache (c : gmap string OutputOrderCacheEntry) (d : RuntimeStateDoc)
    : RuntimeStateDoc := mkRuntimeDoc (root d) c.

(** ** Objects *)

(** [doc.get(obj, key)] and [doc.put(obj, key, value)]: any node but a map refuses
    a key. *)
Definition obj_get (n : node) (key : string) : option node :=
  match n with NMap m => m !! key | _ => None end.

Definition obj_put (n : node) (key : string) (v : node) : result RuntimeStateError node :=
  match n with NMap m => Ok (NMap (<[key := v]> m)) | _ => Err AutomergeErr end.

Definition null_node : node := NScalar SNull.
Definition str_node (s : string) : node := NScalar (SStr s).
Definition opt_str_node (s : option string) : node :=
  match s with Some s => str_node s | None => null_node end.
Definition opt_uint_node (n : option Z) : node :=
  match n with Some n => NScalar (SUint n) | None => null_node end.

(** [doc.keys(map)]: in order. *)
Definition keys {A} (m : gmap string A) : list string :=
  merge_sort String.le (map_to_list m).*1.

(** ** Helpers *)

Definition get_map (key : string) (d : RuntimeStateDoc) : option (gmap string node) :=
  match root d !! key with Some (NMap m) => Some m | _ => None end.

Definition scaffold_map (key : string) (d : RuntimeStateDoc)
    : result RuntimeStateError (gmap string node) :=
  match get_map key d with Some m => Ok m | None => Err (MissingScaffold key) end.

Definition get_or_create_root_map (key : string) (d : RuntimeStateDoc)
    : RuntimeStateDoc * gmap string node :=
  match get_map key d with
  | Some m => (d, m)
  | None => (set_root key (NMap ∅) d, ∅)
  end.

Definition scaffold_list (n : node) (key : string) : result RuntimeStateError (list node) :=
  match obj_get n key with Some (NList l) => Ok l | _ => Err (MissingScaffold key) end.

Definition read_str (n : node) (key : string) : string :=
  match obj_get n key with Some (NScalar (SStr s)) => s | _ => "" end.

Definition read_opt_str (n : node) (key : string) : option string :=
  match obj_get n key with Some (NScalar (SStr s)) => Some s | _ => None end.

Definition read_opt_u64 (n : node) (key : string) : option Z :=
  match obj_get n key with
  | Some (NScalar (SUint u)) => Some u
  | Some (NScalar (SInt i)) => if 0 <=? i then Some i else None
  | _ => None
  end.

Definition read_bool (n : node) (key : string) : bool :=
  match obj_get n key with Some (NScalar (SBoolean b)) => b | _ => false end.

Definition u64_of_i64 (i : Z) : Z := i mod 2 ^ 64.
Definition i64_of_u64 (u : Z) : Z := if u <=? i64_max then u else u - 2 ^ 64.

Definition read_i64 (n : node) (key : string) : Z :=
  match obj_get n key with
  | Some (NScalar (SInt i)) => i
  | Some (NScalar (SUint u)) => i64_of_u64 u
  | _ => 0
  end.

Definition node_str (n : node) : option string :=
  match n with NScalar (SStr s) => Some s | _ => None end.

Definition read_str_list (n : node) (key : string) : list string :=
  match obj_get n key with Some (NList l) => omap node_str l | _ => [] end.

(** Every element is deleted, then the new ones are inserted. *)
Definition str_list (ss : list string) : node := NList (str_node <$> ss).

Definition replace_str_list (n : node) (key : string) (ss : list string)
    : result RuntimeStateError node :=
  let? _ := scaffold_list n key in obj_put n key (str_list ss).

(** ** Runtime lifecycle *)

Inductive KernelActivity := ActUnknown | ActIdle | ActBusy.

Definition activity_str (a : KernelActivity) : string :=
  match a with ActUnknown => "Unknown" | ActIdle => "Idle" | ActBusy => "Busy" end.

Definition activity_parse (s : string) : option KernelActivity :=
  if decide (s = "Unknown") then Some ActUnknown
  else if decide (s = "Idle") then Some ActIdle
  else if decide (s = "Busy") then Some ActBusy else None.

Inductive RuntimeLifecycle :=
| NotStarted | AwaitingTrust | AwaitingProjectTrust | AwaitingEnvBuild | Resolving
| PreparingEnv | Launching | Connecting | Running (a : KernelActivity) | LcError | Shutdown.

#[export] Instance KernelActivity_eq_dec : EqDecision KernelActivity.
Proof. solve_decision. Defined.
#[export] Instance RuntimeLifecycle_eq_dec : EqDecision RuntimeLifecycle.
Proof. solve_decision. Defined.

Definition variant_str (l : RuntimeLifecycle) : string :=
  match l with
  | NotStarted => "NotStarted" | AwaitingTrust => "AwaitingTrust"
  | AwaitingProjectTrust => "AwaitingProjectTrust" | AwaitingEnvBuild => "AwaitingEnvBuild"
  | Resolving => "Resolving" | PreparingEnv => "PreparingEnv" | Launching => "Launching"
  | Connecting => "Connecting" | Running _ => "Running" | LcError => "Error"
  | Shutdown => "Shutdown"
  end.

(** [RuntimeLifecycle::parse]. *)
Definition lifecycle_parse (lifecycle activity : string) : option RuntimeLifecycle :=
  if decide (lifecycle = "NotStarted") then Some NotStarted
  else if decide (lifecycle = "AwaitingTrust") then Some AwaitingTrust
  else if decide (lifecycle = "AwaitingProjectTrust") then Some AwaitingProjectTrust
  else if decide (lifecycle = "AwaitingEnvBuild") then Some AwaitingEnvBuild
  else if decide (lifecycle = "Resolving") then Some Resolving
  else if decide (lifecycle = "PreparingEnv") then Some PreparingEnv
  else if decide (lifecycle = "Launching") then Some Launching
  else if decide (lifecycle = "Connecting") then Some Connecting
  else if decide (lifecycle = "Running") then
    Some (Running (if decide (activity = "") then ActUnknown
                   else default ActUnknown (activity_parse activity)))
  else if decide (lifecycle = "Error") then Some LcError
  else if decide (lifecycle = "Shutdown") then Some Shutdown
  else None.

Definition from_legacy (status starting_phase : string) : RuntimeLifecycle :=
  if decide (status = "idle") then Running ActIdle
  else if decide (status = "busy") then Running ActBusy
  else if decide (status = "starting") then
    if decide (starting_phase = "resolving") then Resolving
    else if decide (starting_phase = "preparing_env") then PreparingEnv
    else if decide (starting_phase = "launching") then Launching
    else if decide (starting_phase = "connecting") then Connecting
    else Resolving
  else if decide (status = "error") then LcError
  else if decide (status = "shutdown") then Shutdown
  else if decide (status = "awaiting_trust") then AwaitingTrust
  else if decide (status = "awaiting_project_trust") then AwaitingProjectTrust
  else if decide (status = "awaiting_env_build") then AwaitingEnvBuild
  else NotStarted.

Definition to_legacy (l : RuntimeLifecycle) : string * string :=
  match l with
  | NotStarted => ("not_started", "") | AwaitingTrust => ("awaiting_trust", "")
  | AwaitingProjectTrust => ("awaiting_project_trust", "")
  | AwaitingEnvBuild => ("awaiting_env_build", "")
  | Resolving => ("starting", "resolving") | PreparingEnv => ("starting", "preparing_env")
  | Launching => ("starting", "launching") | Connecting => ("starting", "connecting")
  | Running ActBusy => ("busy", "") | Running _ => ("idle", "")
  | LcError => ("error", "") | Shutdown => ("shutdown", "")
  end.

Definition resolve_lifecycle (lifecycle_key activity_key status starting_phase : string)
    : RuntimeLifecycle :=
  let legacy := if decide (status = "") then NotStarted else from_legacy status starting_phase in
  if decide (lifecycle_key = "") then legacy
  else match lifecycle_parse lifecycle_key activity_key with
  | None => legacy
  | Some typed =>
      if decide (status = "") then typed
      else if decide (to_legacy typed = (status, starting_phase)) then typed
      else from_legacy status starting_phase
  end.

(** [resolve_kernel_lifecycle] on a register without conflicts: its only value is
    also its list of conflicts. *)
Definition resolve_kernel_lifecycle (kernel : node) : RuntimeLifecycle :=
  let lifecycle_key := read_str kernel "lifecycle" in
  let activity_key := read_str kernel "activity" in
  let lifecycle := resolve_lifecycle lifecycle_key activity_key
    (read_str kernel "status") (read_str kernel "starting_phase") in
  let lifecycle_conflicts := option_list (read_opt_str kernel "lifecycle") in
  if bool_decide ("Error" ∈ lifecycle_conflicts) then LcError
  else match lifecycle with
  | NotStarted | Shutdown =>
      if bool_decide ("Running" ∈ lifecycle_conflicts) then
        let activity_conflicts := option_list (read_opt_str kernel "activity") in
        Running (match activity_parse activity_key with
                 | Some a => a
                 | None => if bool_decide ("Idle" ∈ activity_conflicts) then ActIdle
                           else if bool_decide ("Busy" ∈ activity_conflicts) then ActBusy
                           else ActUnknown
                 end)
      else lifecycle
  | _ => lifecycle
  end.

(** ** Kernel state *)

(** The kernel map with its new contents. *)
Definition set_kernel (k : gmap string node) (d : RuntimeStateDoc) : RuntimeStateDoc :=
  set_root "kernel" (NMap k) d.

(** [clear_legacy_kernel_status]. *)
Definition clear_legacy_kernel_status (k : gmap string node) : gmap string node :=
  delete "starting_phase" (delete "status" k).

Definition set_lifecycle (l : RuntimeLifecycle) : DocM () := fun d =>
  do! k := scaffold_map "kernel" d else d in
  let k := <["lifecycle" := str_node (variant_str l)]> k in
  let k := <["activity" := str_node (match l with Running a => activity_str a | _ => "" end)]> k in
  (set_kernel (clear_legacy_kernel_status k) d, Ok ()).

(** [set_lifecycle_with_error_details]; the reason is the text of a
    [KernelErrorReason]. *)
Definition set_lifecycle_with_error_details (l : RuntimeLifecycle) (reason details : option string)
    : DocM () := fun d =>
  match set_lifecycle l d with
  | (d, Err e) => (d, Err e)
  | (d, Ok _) =>
      do! k := scaffold_map "kernel" d else d in
      let k := <["error_reason" := str_node (default "" reason)]> k in
      (set_kernel (<["error_details" := str_node (default "" details)]> k) d, Ok ())
  end.

Definition set_activity (a : KernelActivity) : DocM () := fun d =>
  do! k := scaffold_map "kernel" d else d in
  let current_lifecycle := read_str (NMap k) "lifecycle" in
  let current_activity := read_str (NMap k) "activity" in
  let has_stale_legacy :=
    bool_decide (is_Some (k !! "status")) || bool_decide (is_Some (k !! "starting_phase")) in
  let republish := bool_decide (current_lifecycle <> "Running") in
  let same := bool_decide (current_activity = activity_str a) in
  if same && negb republish && negb has_stale_legacy then (d, Ok ())
  else
    let k := if republish || negb same then
        <["activity" := str_node (activity_str a)]> (<["lifecycle" := str_node "Running"]> k)
      else k in
    let k := if has_stale_legacy then clear_legacy_kernel_status k else k in
    (set_kernel k d, Ok ()).

Definition set_kernel_info (name language env_source : string) : DocM () := fun d =>
  do! k := scaffold_map "kernel" d else d in
  if decide (read_str (NMap k) "name" = name /\ read_str (NMap k) "language" = language /\
             read_str (NMap k) "env_source" = env_source) then (d, Ok ())
  else
    (set_kernel (<["env_source" := str_node env_source]>
       (<["language" := str_node language]> (<["name" := str_node name]> k))) d, Ok ()).

Definition set_runtime_agent_id (id : string) : DocM () := fun d =>
  do! k := scaffold_map "kernel" d else d in
  if decide (read_str (NMap k) "runtime_agent_id" = id) then (d, Ok ())
  else (set_kernel (<["runtime_agent_id" := str_node id]> k) d, Ok ()).

Definition set_last_seen (timestamp : option string) : DocM () := fun d =>
  do! k := scaffold_map "kernel" d else d in
  if decide (read_str_if_present k "last_seen" = timestamp) then (d, Ok ())
  else (set_kernel (<["last_seen" := opt_str_node timestamp]> k) d, Ok ()).

(** ** Queue *)

Definition set_queue (exec : option DocQueueEntry) (queued : list DocQueueEntry) : DocM () := fun d =>
  do! q := scaffold_map "queue" d else d in
  let cur_exec := read_opt_str (NMap q) "executing_execution_id" in
  let cur_queued := read_str_list (NMap q) "queued_execution_ids" in
  let ids := dqe_execution_id <$> queued in
  if decide (cur_exec = dqe_execution_id <$> exec /\ cur_queued = ids) then (d, Ok ())
  else
    let q := <["executing_execution_id" := opt_str_node (dqe_execution_id <$> exec)]> q in
    let d := set_root "queue" (NMap q) d in
    do! _ := scaffold_list (NMap q) "queued_execution_ids" else d in
    (set_root "queue" (NMap (<["queued_execution_ids" := str_list ids]> q)) d, Ok ()).

Definition read_explicit_queue (d : RuntimeStateDoc) : QueueState :=
  match get_map "queue" d with
  | Some q => mkQueueState (mkDocQueueEntry <$> read_opt_str (NMap q) "executing_execution_id")
      (mkDocQueueEntry <$> read_str_list (NMap q) "queued_execution_ids")
  | None => mkQueueState None []
  end.

(** ** Executions *)

Definition set_execution (exs : gmap string node) (eid : string) (n : node) (d : RuntimeStateDoc)
    : RuntimeStateDoc := set_root "executions" (NMap (<[eid := n]> exs)) d.

(** The entry every creator starts from. *)
Definition new_entry : gmap string node :=
  <["outputs" := NMap ∅]> (<["success" := null_node]>
    (<["execution_count" := null_node]> {["status" := str_node "queued"]})).

Definition create_execution (eid : string) : DocM () := fun d =>
  do! exs := scaffold_map "executions" d else d in
  match exs !! eid with
  | Some _ => (d, Ok ())
  | None => (set_execution exs eid (NMap new_entry) d, Ok ())
  end.

Definition put_some (key : string) (v : option node) (m : gmap string node) : gmap string node :=
  match v with Some v => <[key := v]> m | None => m end.

Definition create_execution_with_source_provenance (eid source : string) (seq : Z)
    (submitted_by cell_id : option string) : DocM bool := fun d =>
  do! exs := scaffold_map "executions" d else d in
  match exs !! eid with
  | Some _ => (d, Ok false)
  | None =>
      let e := <["source" := str_node source]> new_entry in
      let e := put_some "cell_id" (str_node <$> cell_id) e in
      let e := <["seq" := NScalar (SUint seq)]> e in
      let e := put_some "submitted_by_actor_label" (str_node <$> submitted_by) e in
      (set_execution exs eid (NMap e) d, Ok true)
  end.

(** The writers of one entry: nothing happens when the entry is missing. *)
Definition update_execution (eid : string) (f : node -> result RuntimeStateError node) : DocM () :=
  fun d =>
  do! exs := scaffold_map "executions" d else d in
  match exs !! eid with
  | None => (d, Ok ())
  | Some entry =>
      do! entry := f entry else d in
      (set_execution exs eid entry d, Ok ())
  end.

Definition set_execution_running (eid : string) : DocM () :=
  update_execution eid (fun entry =>
    if decide (read_str entry "status" = "running") then Ok entry
    else obj_put entry "status" (str_node "running")).

Definition set_execution_count (eid : string) (n : Z) : DocM () :=
  update_execution eid (fun entry => obj_put entry "execution_count" (NScalar (SInt n))).

Definition set_execution_done (eid : string) (success : bool) : DocM () :=
  update_execution eid (fun entry =>
    let? entry := obj_put entry "status" (str_node (if success then "done" else "error")) in
    obj_put entry "success" (NScalar (SBoolean success))).

Definition set_execution_cancelled (eid : string) : DocM () :=
  update_execution eid (fun entry => obj_put entry "status" (str_node "cancelled")).

(** [abort_inflight_executions]. *)
Definition abort_entry (entry : node) : node :=
  match entry with
  | NMap e =>
      if decide (read_opt_str entry "status" = Some "running") then
        NMap (<["success" := NScalar (SBoolean false)]> (<["status" := str_node "error"]> e))
      else if decide (read_opt_str entry "status" = Some "queued") then
        NMap (<["status" := str_node "cancelled"]> e)
      else entry
  | _ => entry
  end.

Definition inflight (entry : node) : bool :=
  match entry with
  | NMap _ => bool_decide (read_opt_str entry "status" = Some "running" \/
                           read_opt_str entry "status" = Some "queued")
  | _ => false
  end.

Definition abort_inflight_executions : DocM nat := fun d =>
  match get_map "executions" d with
  | None => (d, Ok 0%nat)
  | Some exs =>
      (set_root "executions" (NMap (abort_entry <$> exs)) d,
       Ok (base.size (filter (fun x : string * node => inflight x.2 = true) exs)))
  end.

(** ** Reading executions *)

Definition read_execution_count (entry : node) : option Z :=
  match obj_get entry "execution_count" with
  | Some (NScalar (SInt i)) => Some i
  | Some (NScalar (SUint u)) => Some (i64_of_u64 u)
  | _ => None
  end.

Definition read_execution_success (entry : node) : option bool :=
  match obj_get entry "success" with Some (NScalar (SBoolean b)) => Some b | _ => None end.

Definition read_execution_seq (entry : node) : option Z :=
  match obj_get entry "seq" with
  | Some (NScalar (SUint u)) => Some u
  | Some (NScalar (SInt i)) => Some (u64_of_i64 i)
  | _ => None
  end.

Definition get_execution_entry (eid : string) (d : RuntimeStateDoc) : option node :=
  exs ← get_map "executions" d; exs !! eid.

Definition get_output_map (eid : string) (d : RuntimeStateDoc) : option (gmap string node) :=
  entry ← get_execution_entry eid d;
  match obj_get entry "outputs" with Some (NMap m) => Some m | _ => None end.

Definition read_output_seq (entry : node) : option Z := read_opt_u64 entry "seq".

Definition read_output_manifest (entry : node) : option json :=
  obj_get entry "manifest" ≫= read_node.

(** One output as it is listed: its id, position and manifest. *)
Definition output_row (id : string) (entry : node) : option (string * Z * json) :=
  match entry with
  | NMap _ => seq ← read_output_seq entry; m ← read_output_manifest entry; Some (id, seq, m)
  | _ => None
  end.

(** Positions first, then ids. *)
Definition row_le (x y : string * Z * json) : Prop :=
  x.1.2 < y.1.2 \/ (x.1.2 = y.1.2 /\ String.le x.1.1 y.1.1).

#[export] Instance row_le_dec : RelDecision row_le.
Proof. intros x y. unfold row_le. apply _. Defined.

Definition output_entries_sorted (outputs : gmap string node) : list (string * Z * json) :=
  merge_sort row_le (omap (fun x => output_row x.1 x.2) (map_to_list outputs)).

Definition get_outputs (eid : string) (d : RuntimeStateDoc) : list json :=
  match get_output_map eid d with
  | Some outputs => (fun r => r.2) <$> output_entries_sorted outputs
  | None => []
  end.

Definition read_execution (outputs : list json) (entry : node) : ExecutionState :=
  mkExecution (read_str entry "status") (read_execution_count entry)
    (read_execution_success entry) outputs (read_opt_str entry "source")
    (read_opt_str entry "cell_id") (read_execution_seq entry)
    (read_opt_str entry "submitted_by_actor_label").

Definition get_execution (eid : string) (d : RuntimeStateDoc) : option ExecutionState :=
  entry ← get_execution_entry eid d; Some (read_execution (get_outputs eid d) entry).

(** Executions by position, those without one last, then by id. *)
Definition exec_le (x y : string * ExecutionState) : Prop :=
  let k := fun e => default u64_max (es_seq e) in
  k x.2 < k y.2 \/ (k x.2 = k y.2 /\ String.le x.1 y.1).

#[export] Instance exec_le_dec : RelDecision exec_le.
Proof. intros x y. unfold exec_le. apply _. Defined.

(** [get_queued_executions]: the stable sort by position of the entries in key
    order. *)
Definition get_queued_executions (d : RuntimeStateDoc) : list (string * ExecutionState) :=
  match get_map "executions" d with
  | None => []
  | Some exs =>
      merge_sort exec_le (omap (fun x : string * node =>
        if decide (read_str x.2 "status" = "queued") then Some (x.1, read_execution [] x.2)
        else None) (map_to_list exs))
  end.

Definition read_executions (d : RuntimeStateDoc) : gmap string ExecutionState :=
  match get_map "executions" d with
  | None => ∅
  | Some exs => map_imap (fun eid _ => get_execution eid d) exs
  end.

(** The order of [synthesize_queued_entries_from_executions]: a position before
    none. *)
Definition synth_le (x y : string * ExecutionState) : Prop :=
  match es_seq x.2, es_seq y.2 with
  | Some a, Some b => a < b \/ (a = b /\ String.le x.1 y.1)
  | Some _, None => True
  | None, Some _ => False
  | None, None => String.le x.1 y.1
  end.

#[export] Instance synth_le_dec : RelDecision synth_le.
Proof. intros x y. unfold synth_le. destruct (es_seq x.2), (es_seq y.2); apply _. Defined.

Definition synthesize_queued_entries_from_executions (q : QueueState)
    (exs : gmap string ExecutionState) : list DocQueueEntry :=
  let known := option_list (dqe_execution_id <$> qs_executing q) ++ (dqe_execution_id <$> qs_queued q) in
  (fun x => mkDocQueueEntry x.1) <$>
    merge_sort synth_le (filter (fun x : string * ExecutionState =>
      es_status x.2 = "queued" /\ (x.1 ∉ known)) (map_to_list exs)).

(** The queue of [read_state]. *)
Definition read_queue (d : RuntimeStateDoc) : QueueState :=
  let q := read_explicit_queue d in
  mkQueueState (qs_executing q)
    (qs_queued q ++ synthesize_queued_entries_from_executions q (read_executions d)).

(** ** File checkpoint *)

Inductive FileSourceIssue := Conflict (reason : string) | SourceDegraded (reason : string).

#[export] Instance FileSourceIssue_eq_dec : EqDecision FileSourceIssue.
Proof. solve_decision. Defined.

Definition kind_str (i : FileSourceIssue) : string :=
  match i with Conflict _ => "conflict" | SourceDegraded _ => "degraded" end.
Definition issue_reason (i : FileSourceIssue) : string :=
  match i with Conflict r | SourceDegraded r => r end.

Record FileCheckpointState := mkFileCheckpoint {
  fc_exported_heads : list string;
  fc_save_sequence : option Z;
  fc_source_issue : option FileSourceIssue;
}.

Definition file_checkpoint (d : RuntimeStateDoc) : FileCheckpointState :=
  match get_map "file_checkpoint" d with
  | None => mkFileCheckpoint [] None None
  | Some c =>
      let c := NMap c in
      let kind := read_str c "source_issue_kind" in
      let reason := read_str c "source_issue_reason" in
      mkFileCheckpoint (read_str_list c "exported_heads") (read_opt_u64 c "save_sequence")
        (if decide (kind = "conflict") then Some (Conflict reason)
         else if decide (kind = "degraded") then Some (SourceDegraded reason)
         else None)
  end.

Definition set_file_checkpoint (heads : list string) (seq : Z) : DocM bool := fun d =>
  if match fc_save_sequence (file_checkpoint d) with Some c => seq <=? c | None => false end then
    (d, Ok false)
  else
    let '(d, c) := get_or_create_root_map "file_checkpoint" d in
    let c := <["exported_heads" := str_list heads]> c in
    (set_root "file_checkpoint" (NMap (<["save_sequence" := NScalar (SUint seq)]> c)) d, Ok true).

Definition clear_file_checkpoint : DocM () := fun d =>
  let current := file_checkpoint d in
  if decide (fc_exported_heads current = [] /\ fc_save_sequence current = None) then (d, Ok ())
  else
    let '(d, c) := get_or_create_root_map "file_checkpoint" d in
    let c := match c !! "exported_heads" with
      | Some (NList _) => <["exported_heads" := NList []]> c
      | _ => c
      end in
    (set_root "file_checkpoint" (NMap (<["save_sequence" := null_node]> c)) d, Ok ()).

Definition set_file_source_issue (issue : option FileSourceIssue) : DocM () := fun d =>
  if decide (fc_source_issue (file_checkpoint d) = issue) then (d, Ok ())
  else
    let '(d, c) := get_or_create_root_map "file_checkpoint" d in
    let kind := match issue with Some i => kind_str i | None => "" end in
    let reason := match issue with Some i => issue_reason i | None => "" end in
    (set_root "file_checkpoint"
       (NMap (<["source_issue_reason" := str_node reason]>
                (<["source_issue_kind" := str_node kind]> c))) d, Ok ()).

(** ** Environment *)

Record EnvSync := mkEnvSync {
  in_sync : bool; added : list string; removed : list string;
  channels_changed : bool; deno_changed : bool;
}.

#[export] Instance EnvSync_eq_dec : EqDecision EnvSync.
Proof. solve_decision. Defined.

Definition read_env_sync (env : node) : EnvSync :=
  mkEnvSync (read_bool env "in_sync") (read_str_list env "added") (read_str_list env "removed")
    (read_bool env "channels_changed") (read_bool env "deno_changed").

(** [set_env_sync]: a missing list leaves the flags written. *)
Definition set_env_sync (s : EnvSync) : DocM () := fun d =>
  do! env := scaffold_map "env" d else d in
  if decide (read_env_sync (NMap env) = s) then (d, Ok ())
  else
    let env := <["in_sync" := NScalar (SBoolean (in_sync s))]> env in
    let env := <["channels_changed" := NScalar (SBoolean (channels_changed s))]> env in
    let env := <["deno_changed" := NScalar (SBoolean (deno_changed s))]> env in
    let d := set_root "env" (NMap env) d in
    do! env := replace_str_list (NMap env) "added" (added s) else d in
    let d := set_root "env" env d in
    do! env := replace_str_list env "removed" (removed s) else d in
    (set_root "env" env d, Ok ()).

Definition set_prewarmed_packages (packages : list string) : DocM () := fun d =>
  do! env := scaffold_map "env" d else d in
  if decide (read_str_list (NMap env) "prewarmed_packages" = packages) then (d, Ok ())
  else
    do! env := replace_str_list (NMap env) "prewarmed_packages" packages else d in
    (set_root "env" env d, Ok ()).

Definition set_env_progress (env_type : string) (phase : json) : DocM () := fun d =>
  do! env := scaffold_map "env" d else d in
  match phase with
  | JObject m =>
      let progress := JObject (<["env_type" := JString env_type]> m) in
      if decide (read_json_value env "progress" = Some progress) then (d, Ok ())
      else (set_root "env" (NMap (update_json_at_key env "progress" progress)) d, Ok ())
  | _ => (d, Err InvalidProgressShape)
  end.

Definition clear_env_progress : DocM () := fun d =>
  do! env := scaffold_map "env" d else d in
  if decide (read_json_value env "progress" = Some JNull) then (d, Ok ())
  else (set_root "env" (NMap (update_json_at_key env "progress" JNull)) d, Ok ()).

(** [set_optional_str]: last saved time, path and document id. *)
Definition set_optional_str (key : string) (v : option string) : DocM () := fun d =>
  if decide (read_opt_str (NMap (root d)) key = v) then (d, Ok ())
  else (set_root key (opt_str_node v) d, Ok ()).

(** ** The schema a document starts from *)

(** [scaffold_project_context]. *)
Definition project_context_schema : node :=
  NMap {["state" := str_node "pending"; "observed_at" := str_node ""; "kind" := str_node "";
    "absolute_path" := str_node ""; "relative_to_notebook" := str_node "";
    "unreadable_path" := str_node ""; "unreadable_reason" := str_node "";
    "parsed" := NMap {["dependencies" := NList []; "dev_dependencies" := NList [];
      "requires_python" := null_node; "prerelease" := null_node; "extras" := str_node ""]}]}.

(** [scaffold_runtime_state_schema], which the frozen genesis document is checked
    against. *)
Definition schema : gmap string node :=
  {["schema_version" := NScalar (SUint 2);
    "kernel" := NMap {["name" := str_node ""; "language" := str_node ""; "env_source" := str_node "";
      "runtime_agent_id" := str_node ""; "lifecycle" := str_node "NotStarted";
      "activity" := str_node ""; "error_reason" := str_node ""; "error_details" := str_node ""]};
    "queue" := NMap {["executing_execution_id" := null_node; "queued_execution_ids" := NList []]};
    "executions" := NMap ∅;
    "env" := NMap {["in_sync" := NScalar (SBoolean true); "added" := NList [];
      "removed" := NList []; "channels_changed" := NScalar (SBoolean false);
      "deno_changed" := NScalar (SBoolean false); "prewarmed_packages" := NList [];
      "progress" := null_node]};
    "trust" := NMap {["status" := str_node "no_dependencies";
      "needs_approval" := NScalar (SBoolean false); "approved_uv_dependencies" := NList [];
      "approved_conda_dependencies" := NList []; "approved_conda_channels" := NList [];
      "approved_pixi_dependencies" := NList []; "approved_pixi_pypi_dependencies" := NList [];
      "approved_pixi_channels" := NList []]};
    "project_context" := project_context_schema;
    "comms" := NMap ∅; "display_index" := NMap ∅;
    "last_saved" := null_node; "path" := null_node]}.

Definition new_runtime_doc : RuntimeStateDoc := from_doc schema.

(** ** Lemmas *)

Lemma get_map_set_root k k' n d :
  get_map k' (set_root k n d) =
  if decide (k' = k) then match n with NMap m => Some m | _ => None end else get_map k' d.
Proof.
  unfold get_map, set_root. simpl.
  case_decide; [subst; by rewrite lookup_insert_eq|by rewrite lookup_insert_ne].
Qed.

Lemma omap_node_str (ss : list string) : omap node_str (str_node <$> ss) = ss.
Proof. induction ss as [|s ss IH]; [done|]. cbn. f_equal. exact IH. Qed.

Lemma obj_get_put n k k' v n' :
  obj_put n k v = Ok n' -> obj_get n' k' = if decide (k' = k) then Some v else obj_get n k'.
Proof.
  destruct n as [|m| |]; simpl; try done. intros [= <-]. simpl.
  case_decide; [subst; by rewrite lookup_insert_eq|by rewrite lookup_insert_ne].
Qed.

Definition is_map (n : node) : Prop := match n with NMap _ => True | _ => False end.

(** The parts of the schema the queue and the executions need. *)
Record doc_ok (d : RuntimeStateDoc) : Prop := {
  ok_executions : exists exs, get_map "executions" d = Some exs /\ map_Forall (fun _ => is_map) exs;
  ok_queue : exists q l, get_map "queue" d = Some q /\ q !! "queued_execution_ids" = Some (NList l);
}.

Lemma doc_ok_new : doc_ok new_runtime_doc.
Proof. split; [by exists ∅|by eexists _, []]. Qed.

Lemma doc_ok_executions d exs :
  doc_ok d -> map_Forall (fun _ => is_map) exs -> doc_ok (set_root "executions" (NMap exs) d).
Proof.
  intros [_ (q & l & Hq & Hl)] He. split.
  - exists exs. by rewrite get_map_set_root.
  - exists q, l. by rewrite get_map_set_root, decide_False.
Qed.

Lemma set_queue_spec e q d :
  doc_ok d ->
  exists d', set_queue e q d = (d', Ok ()) /\ doc_ok d' /\
    read_explicit_queue d' = mkQueueState e q /\
    get_map "executions" d' = get_map "executions" d /\
    output_order_cache d' = output_order_cache d.
Proof.
  intros Hok. pose proof Hok as [(exs & He & Hm) (m & l & Hq & Hl)].
  assert (forall (es : list DocQueueEntry), mkDocQueueEntry <$> (dqe_execution_id <$> es) = es) as Hid.
  { induction es as [|[] es IH]; [done|]. cbn. f_equal. exact IH. }
  assert (forall o : option DocQueueEntry, mkDocQueueEntry <$> (dqe_execution_id <$> o) = o) as Hod
    by (by intros [[]|]).
  unfold set_queue, scaffold_map. rewrite Hq. case_decide as Hc.
  - exists d. split_and!; try done. destruct Hc as [H1 H2]. unfold read_explicit_queue.
    by rewrite Hq, H1, H2, Hid, Hod.
  - unfold scaffold_list. cbn [obj_get]. rewrite lookup_insert_ne, Hl by done.
    eexists. split; [done|]. split_and!.
    + split; [exists exs|].
      * by rewrite !get_map_set_root, !decide_False.
      * eexists _, _. rewrite get_map_set_root, decide_True by done.
        split; [done|]. by rewrite lookup_insert_eq.
    + unfold read_explicit_queue. rewrite get_map_set_root, decide_True by done.
      unfold read_opt_str, read_str_list. cbn [obj_get].
      rewrite lookup_insert_eq, lookup_insert_ne, lookup_insert_eq by done. cbn [str_list].
      rewrite omap_node_str, Hid. f_equal. by destruct e as [[]|].
    + by rewrite !get_map_set_root, !decide_False.
    + done.
Qed.

(** A writer of one entry, seen through the entry. *)
Lemma update_execution_spec eid f d :
  doc_ok d -> (forall e, is_map e -> exists e', f e = Ok e' /\ is_map e') ->
  exists d', update_execution eid f d = (d', Ok ()) /\ doc_ok d' /\
    forall x, get_execution_entry x d' =
      if decide (x = eid) then
        match get_execution_entry x d with
        | Some e => match f e with Ok e' => Some e' | Err _ => None end
        | None => None
        end
      else get_execution_entry x d.
Proof.
  intros Hok Hf. pose proof Hok as [(exs & He & Hm) _].
  unfold update_execution, scaffold_map. rewrite He. unfold get_execution_entry.
  destruct (exs !! eid) as [e|] eqn:Heid.
  - destruct (Hf e (Hm _ _ Heid)) as (e' & He' & Hmap). rewrite He'. eexists. split; [done|].
    split; [by apply doc_ok_executions, map_Forall_insert_2|].
    intros x. unfold set_execution. rewrite get_map_set_root, decide_True, He by done. simpl.
    case_decide; [subst; by rewrite lookup_insert_eq, Heid, He'|by rewrite lookup_insert_ne].
  - exists d. split_and!; [done..|]. intros x. rewrite He. simpl.
    case_decide; [by subst; rewrite Heid|done].
Qed.

Lemma obj_put_map n k v : is_map n -> exists n', obj_put n k v = Ok n' /\ is_map n'.
Proof. destruct n; try done. intros _. by eexists. Qed.

Definition doc_status (d : RuntimeStateDoc) (eid : string) : option string :=
  es_status <$> get_execution eid d.

Lemma doc_status_entry d eid : doc_status d eid = (fun e => read_str e "status") <$> get_execution_entry eid d.
Proof. unfold doc_status, get_execution. by destruct (get_execution_entry eid d). Qed.

(** The status after a writer that sets it. *)
Lemma update_status_spec eid st f d :
  doc_ok d ->
  (forall e, is_map e -> exists e', f e = Ok e' /\ is_map e' /\ read_str e' "status" = st) ->
  exists d', update_execution eid f d = (d', Ok ()) /\ doc_ok d' /\
    forall x, doc_status d' x =
      if decide (x = eid) then (fun _ => st) <$> doc_status d eid else doc_status d x.
Proof.
  intros Hok Hf. pose proof Hok as [(exs & He & Hm) _].
  destruct (update_execution_spec eid f d Hok) as (d' & Hu & Hok' & Hd).
  { intros e Hme. destruct (Hf e Hme) as (e' & ? & ? & _). by exists e'. }
  exists d'. split_and!; [done..|]. intros x. rewrite !doc_status_entry, Hd.
  case_decide as Hx; [subst x|done].
  destruct (get_execution_entry eid d) as [e|] eqn:Heid; [|done]. simpl.
  assert (is_map e) as Hme.
  { unfold get_execution_entry in Heid. rewrite He in Heid. by apply (Hm eid). }
  destruct (Hf e Hme) as (e' & -> & _ & Hst). by rewrite <- Hst.
Qed.

Lemma read_str_put n k s n' : obj_put n k (str_node s) = Ok n' -> read_str n' k = s.
Proof. intros Hp. unfold read_str. by rewrite (obj_get_put _ _ _ _ _ Hp), decide_True. Qed.

Lemma set_execution_running_spec eid d :
  doc_ok d ->
  exists d', set_execution_running eid d = (d', Ok ()) /\ doc_ok d' /\
    forall x, doc_status d' x =
      if decide (x = eid) then (fun _ => "running") <$> doc_status d eid else doc_status d x.
Proof.
  intros Hok. apply update_status_spec; [done|]. intros e He.
  case_decide; [by exists e|]. destruct (obj_put_map e "status" (str_node "running") He) as (e' & Hp & Hm).
  exists e'. split_and!; [done..|]. by eapply read_str_put.
Qed.

Lemma set_execution_done_spec eid b d :
  doc_ok d ->
  exists d', set_execution_done eid b d = (d', Ok ()) /\ doc_ok d' /\
    forall x, doc_status d' x =
      if decide (x = eid) then (fun _ => if b then "done" else "error" : string) <$> doc_status d eid
      else doc_status d x.
Proof.
  intros Hok. apply update_status_spec; [done|]. intros e He.
  destruct (obj_put_map e "status" (str_node (if b then "done" else "error")) He) as (e1 & Hp & Hm).
  rewrite Hp. destruct (obj_put_map e1 "success" (NScalar (SBoolean b)) Hm) as (e2 & Hp2 & Hm2).
  exists e2. split_and!; [done..|]. unfold read_str.
  rewrite (obj_get_put _ _ _ _ _ Hp2), decide_False by done. by apply read_str_put in Hp.
Qed.

Lemma create_execution_spec eid d :
  doc_ok d ->
  exists d', create_execution eid d = (d', Ok ()) /\ doc_ok d' /\
    forall x, doc_status d' x =
      if decide (x = eid) then Some (default "queued" (doc_status d eid)) else doc_status d x.
Proof.
  intros Hok. pose proof Hok as [(exs & He & Hm) _].
  unfold create_execution, scaffold_map. rewrite He.
  destruct (exs !! eid) as [e|] eqn:Heid.
  - exists d. split_and!; [done..|]. intros x. rewrite !doc_status_entry.
    case_decide; [subst|done]. unfold get_execution_entry. rewrite He. simpl. by rewrite Heid.
  - eexists. split; [done|]. split; [by apply doc_ok_executions, map_Forall_insert_2|].
    intros x. rewrite !doc_status_entry. unfold set_execution, get_execution_entry.
    rewrite get_map_set_root, decide_True, He by done. simpl.
    case_decide; [subst; by rewrite lookup_insert_eq, Heid|by rewrite lookup_insert_ne].
Qed.

(** ** What the kernel queue asks of the document *)

#[export] Instance runtime_state_doc : StateDoc := {
  sdoc := RuntimeStateDoc;
  sdoc_error := RuntimeStateError;
  Kernel.create_execution := create_execution;
  Kernel.set_execution_running := set_execution_running;
  Kernel.set_execution_done := set_execution_done;
  Kernel.set_execution_cancelled := set_execution_cancelled;
  Kernel.abort_inflight_executions := abort_inflight_executions;
  Kernel.set_queue := set_queue;
  Kernel.read_explicit_queue := read_explicit_queue;
  Kernel.execution_status := doc_status;
}.

Lemma doc_status_queue e q d eid : doc_ok d -> doc_status (set_queue e q d).1 eid = doc_status d eid.
Proof.
  intros Hok. destruct (set_queue_spec e q d Hok) as (d' & -> & _ & _ & He & _). cbn [fst].
  rewrite !doc_status_entry. unfold get_execution_entry. by rewrite He.
Qed.

(** The document keeps what the queue was verified against. *)
#[export] Instance runtime_state_doc_laws : StateDocLaws.
Proof.
  refine {| doc_ready := doc_ok |}; intros.
  - destruct (set_queue_spec e q d) as (d' & ? & ? & _); [done|]. by exists d'.
  - destruct (create_execution_spec eid d) as (d' & ? & ? & _); [done|]. by exists d'.
  - destruct (set_execution_running_spec eid d) as (d' & ? & ? & _); [done|]. by exists d'.
  - destruct (set_execution_done_spec eid b d) as (d' & ? & ? & _); [done|]. by exists d'.
  - destruct (set_queue_spec e q d) as (d2 & Hq & _ & Hr & _); [done|]. cbn in *. congruence.
  - by apply doc_status_queue.
  - destruct (create_execution_spec eid d) as (d' & Hc & _ & Hs); [done|]. cbn. by rewrite Hc.
  - destruct (set_execution_running_spec eid d) as (d' & Hc & _ & Hs); [done|]. cbn. by rewrite Hc.
  - destruct (set_execution_done_spec eid b d) as (d' & Hc & _ & Hs); [done|]. cbn. by rewrite Hc.
Defined.

#[export] Instance exec_le_total : Total exec_le.
Proof.
  intros [i x] [j y]. unfold exec_le. simpl. pose proof (total String.le i j) as Ht.
  destruct (Z.lt_trichotomy (default u64_max (es_seq x)) (default u64_max (es_seq y)))
    as [?|[?|?]]; [by left; left| |by right; left].
  destruct Ht; [left|right]; right; split; by auto.
Qed.

#[export] Instance exec_le_trans : Transitive exec_le.
Proof.
  intros [i x] [j y] [k z]. unfold exec_le. simpl. intros [?|[? H1]] [?|[? H2]]; try (left; lia).
  right. split; [lia|]. by transitivity j.
Qed.

#[export] Instance synth_le_total : Total synth_le.
Proof.
  intros [i x] [j y]. unfold synth_le. simpl. pose proof (total String.le i j).
  destruct (es_seq x) as [a|], (es_seq y) as [b|]; [|tauto..].
  destruct (Z.lt_trichotomy a b) as [?|[?|?]]; [by left; left|subst; tauto|by right; left].
Qed.

#[export] Instance synth_le_trans : Transitive synth_le.
Proof.
  intros [i x] [j y] [k z]. unfold synth_le. simpl.
  assert (String.le i j -> String.le j k -> String.le i k) by (intros; by transitivity j).
  destruct (es_seq x), (es_seq y), (es_seq z); try tauto.
  intros [?|[? ?]] [?|[? ?]]; [left; lia..|right; split; [lia|auto]].
Qed.

Lemma elem_of_queued_executions d eid e :
  (eid, e) ∈ get_queued_executions d <->
  exists entry, get_execution_entry eid d = Some entry /\ read_str entry "status" = "queued" /\
    e = read_execution [] entry.
Proof.
  unfold get_queued_executions, get_execution_entry.
  destruct (get_map "executions" d) as [exs|]; simpl; [|set_solver].
  rewrite merge_sort_Permutation, list_elem_of_omap. split.
  - intros ([k n] & Hin%elem_of_map_to_list & Hs). simpl in Hs. case_decide; simplify_eq. eauto.
  - intros (entry & Hl & Hst & ->). exists (eid, entry). simpl. rewrite decide_True by done.
    split; [|done]. by apply elem_of_map_to_list.
Qed.

Lemma abort_entry_status e :
  read_opt_str (abort_entry e) "status" =
    (fun s => if decide (s = "running") then "error"
              else if decide (s = "queued") then "cancelled" else s : string)
      <$> read_opt_str e "status".
Proof.
  destruct e as [|m| |]; try done. unfold abort_entry.
  destruct (read_opt_str (NMap m) "status") as [s|] eqn:Hs.
  - simpl. repeat case_decide; simplify_eq; try done; unfold read_opt_str; cbn [obj_get];
      by rewrite ?lookup_insert_ne, ?lookup_insert_eq by done.
  - rewrite !decide_False by done. by rewrite Hs.
Qed.

Lemma read_str_opt n k : read_str n k = default "" (read_opt_str n k).
Proof. unfold read_str, read_opt_str. destruct (obj_get n k) as [[[]| | |]|]; done. Qed.

(** ** Claims *)

(** Aborting in-flight work resolves all of it and nothing else: running
    executions end in error and unsuccessful, queued ones are cancelled, every
    other one keeps its status, and no queued work is left for the agent to
    find. *)
Theorem abort_resolves_inflight d :
  doc_ok d ->
  let d' := (abort_inflight_executions d).1 in
  doc_ok d' /\ get_queued_executions d' = [] /\
  (forall eid, doc_status d' eid =
     (fun s => if decide (s = "running") then "error"
               else if decide (s = "queued") then "cancelled" else s : string) <$> doc_status d eid) /\
  (forall eid, doc_status d eid = Some "running" ->
     es_success <$> get_execution eid d' = Some (Some false)) /\
  (forall eid, doc_status d eid <> Some "running" ->
     es_success <$> get_execution eid d' = es_success <$> get_execution eid d).
Proof.
  intros Hok. pose proof Hok as [(exs & He & Hm) _].
  unfold abort_inflight_executions. rewrite He. cbn [fst].
  set (d' := set_root "executions" _ d).
  assert (forall eid, get_execution_entry eid d' = abort_entry <$> get_execution_entry eid d) as Hent.
  { intros eid. unfold get_execution_entry, d'. rewrite get_map_set_root, decide_True, He by done.
    simpl. by rewrite lookup_fmap. }
  assert (forall eid, doc_status d' eid =
     (fun s => if decide (s = "running") then "error"
               else if decide (s = "queued") then "cancelled" else s : string) <$> doc_status d eid) as Hst.
  { intros eid. rewrite !doc_status_entry, Hent.
    destruct (get_execution_entry eid d) as [e|]; [|done]. simpl. f_equal.
    rewrite !read_str_opt, abort_entry_status. by destruct (read_opt_str e "status"). }
  split_and!; [| |done| |].
  - apply doc_ok_executions; [done|]. intros k n. rewrite lookup_fmap_Some.
    intros (e & <- & Hk). specialize (Hm _ _ Hk). destruct e as [|m| |]; try done.
    unfold abort_entry. by repeat case_decide.
  - apply elem_of_nil_inv. intros [eid e] (entry & Hl & Hq & ->)%elem_of_queued_executions.
    specialize (Hst eid). rewrite !doc_status_entry, Hl in Hst. simpl in Hst. rewrite Hq in Hst.
    destruct (get_execution_entry eid d) as [e0|]; [|done]. simpl in Hst.
    repeat case_decide; simplify_eq; congruence.
  - intros eid. rewrite doc_status_entry. unfold get_execution. rewrite Hent.
    destruct (get_execution_entry eid d) as [e|] eqn:Hl; [|done]. simpl. intros [= Hr]. do 2 f_equal.
    unfold get_execution_entry in Hl. rewrite He in Hl. specialize (Hm _ _ Hl).
    destruct e as [|m| |]; try done. unfold abort_entry.
    rewrite decide_True. { unfold read_execution_success. cbn [obj_get]. by rewrite lookup_insert_eq. }
    rewrite read_str_opt in Hr. by destruct (read_opt_str (NMap m) "status"); simplify_eq/=.
  - intros eid. rewrite doc_status_entry. unfold get_execution. rewrite Hent.
    destruct (get_execution_entry eid d) as [e|]; [|done]. simpl. intros Hr. f_equal.
    destruct e as [|m| |]; try done. unfold abort_entry. case_decide as H1.
    { destruct Hr. by rewrite read_str_opt, H1. }
    case_decide; [|done]. cbn [es_success read_execution]. unfold read_execution_success.
    cbn [obj_get]. by rewrite lookup_insert_ne.
Qed.

(** The agent finds queued work in submission order, each execution once: the
    list is sorted by sequence number, has no duplicates, and holds exactly the
    executions whose status is queued. *)
Theorem queued_executions_in_order d :
  StronglySorted exec_le (get_queued_executions d) /\
  NoDup (get_queued_executions d).*1 /\
  forall eid, eid ∈ (get_queued_executions d).*1 <-> doc_status d eid = Some "queued".
Proof.
  split_and!.
  - unfold get_queued_executions. destruct (get_map "executions" d); [|constructor].
    apply (StronglySorted_merge_sort exec_le).
  - unfold get_queued_executions. destruct (get_map "executions" d) as [exs|]; [|constructor].
    rewrite merge_sort_Permutation. pose proof (NoDup_fst_map_to_list exs) as Hnd.
    induction (map_to_list exs) as [|[k n] l IH]; simpl; [constructor|].
    apply NoDup_cons in Hnd as [Hk Hnd]. case_decide; [|by apply IH]. simpl.
    apply NoDup_cons. split; [|by apply IH]. intros ([k' e] & -> & Hin)%list_elem_of_fmap.
    apply list_elem_of_omap in Hin as ([k2 n2] & Hin & Hs). simpl in Hs. case_decide; simplify_eq.
    apply Hk. simpl. apply list_elem_of_fmap. by exists (k', n2).
  - intros eid. rewrite doc_status_entry, list_elem_of_fmap. split.
    + intros ([k e] & -> & (entry & Hl & Hq & _)%elem_of_queued_executions). simpl. by rewrite Hl; simpl; rewrite Hq.
    + destruct (get_execution_entry eid d) as [entry|] eqn:Hl; [|done]. intros [= Hq].
      exists (eid, read_execution [] entry). split; [done|]. apply elem_of_queued_executions. eauto.
Qed.

(** ** The kernel and the environment as [read_state] reports them *)

(** [KernelState] of [doc.rs]. *)
Record KernelDocState := mkKernelDocState {
  kd_status : string; kd_starting_phase : string; kd_name : string; kd_language : string;
  kd_env_source : string; kd_environment_id : string; kd_environment_name : string;
  kd_python_version : string; kd_runtime_agent_id : string; kd_lifecycle : RuntimeLifecycle;
  kd_error_reason : option string; kd_error_details : option string; kd_last_seen : option string;
}.

(** The reason a document from before the typed lifecycle kept in its phase. *)
Definition legacy_error_reason (l : RuntimeLifecycle) (stored_status stored_phase : string)
    : option string :=
  if decide (l = LcError /\ stored_status = "error" /\ stored_phase <> "") then Some stored_phase
  else None.

Definition read_kernel_state (d : RuntimeStateDoc) : KernelDocState :=
  match get_map "kernel" d with
  | None => mkKernelDocState "not_started" "" "" "" "" "" "" "" "" NotStarted None None None
  | Some m =>
      let k := NMap m in
      let l := resolve_kernel_lifecycle k in
      mkKernelDocState (to_legacy l).1 (to_legacy l).2 (read_str k "name") (read_str k "language")
        (read_str k "env_source") (read_str k "environment_id") (read_str k "environment_name")
        (read_str k "python_version") (read_str k "runtime_agent_id") l
        (match read_str_if_present m "error_reason" with
         | Some r => Some r
         | None => legacy_error_reason l (read_str k "status") (read_str k "starting_phase")
         end)
        (read_str_if_present m "error_details") (read_str_if_present m "last_seen")
  end.

(** One field of [set_local_environment_identity]: written when it differs. *)
Definition put_if_changed (key v : string) (k : gmap string node) : gmap string node :=
  if decide (read_str (NMap k) key = v) then k else <[key := str_node v]> k.

Definition set_local_environment_identity (id name : string) (python : option string)
    : DocM () := fun d =>
  do! k := scaffold_map "kernel" d else d in
  (set_kernel (put_if_changed "python_version" (default "" python)
     (put_if_changed "environment_name" name (put_if_changed "environment_id" id k))) d, Ok ()).

(** [EnvState] as [read_state] reports it. *)
Record EnvState := mkEnvState {
  env_sync : EnvSync; prewarmed_packages : list string; env_progress : option json;
}.

Definition read_env_state (d : RuntimeStateDoc) : EnvState :=
  match get_map "env" d with
  | None => mkEnvState (mkEnvSync true [] [] false false) [] None
  | Some env =>
      mkEnvState (read_env_sync (NMap env)) (read_str_list (NMap env) "prewarmed_packages")
        (match read_json_value env "progress" with Some JNull | None => None | other => other end)
  end.

(** ** File checkpoints as the document publishes them *)

Inductive fcop := FSave (heads : list string) (seq : Z) | FClear | FIssue (i : option FileSourceIssue).

Definition fcstep (d : RuntimeStateDoc) (op : fcop) : RuntimeStateDoc :=
  match op with
  | FSave heads seq => (set_file_checkpoint heads seq d).1
  | FClear => (clear_file_checkpoint d).1
  | FIssue i => (set_file_source_issue i d).1
  end.

(** What the document promises: the newest save wins whatever the order in which
    completions arrive, and the source issue is independent of it. *)
Definition fcspec (s : FileCheckpointState) (op : fcop) : FileCheckpointState :=
  match op with
  | FSave heads seq =>
      if match fc_save_sequence s with Some c => seq <=? c | None => false end then s
      else mkFileCheckpoint heads (Some seq) (fc_source_issue s)
  | FClear => mkFileCheckpoint [] None (fc_source_issue s)
  | FIssue i => mkFileCheckpoint (fc_exported_heads s) (fc_save_sequence s) i
  end.

Definition checkpoint_of (c : gmap string node) : FileCheckpointState :=
  file_checkpoint (from_doc {["file_checkpoint" := NMap c]}).

Lemma file_checkpoint_of d : file_checkpoint d = checkpoint_of (default ∅ (get_map "file_checkpoint" d)).
Proof. unfold file_checkpoint. by destruct (get_map "file_checkpoint" d). Qed.

Lemma file_checkpoint_set c d : file_checkpoint (set_root "file_checkpoint" (NMap c) d) = checkpoint_of c.
Proof. by rewrite file_checkpoint_of, get_map_set_root, decide_True. Qed.

Lemma get_or_create_spec key d :
  exists d', get_or_create_root_map key d = (d', default ∅ (get_map key d)) /\ forall n, set_root key n d' = set_root key n d.
Proof.
  unfold get_or_create_root_map. destruct (get_map key d); [by exists d|].
  eexists. split; [done|]. intros n. unfold set_root. simpl. by rewrite insert_insert_eq.
Qed.

(** The published record depends only on four keys of the map. *)
Lemma checkpoint_of_keys c :
  checkpoint_of c =
    mkFileCheckpoint (read_str_list (NMap c) "exported_heads") (read_opt_u64 (NMap c) "save_sequence")
      (if decide (read_str (NMap c) "source_issue_kind" = "conflict")
       then Some (Conflict (read_str (NMap c) "source_issue_reason"))
       else if decide (read_str (NMap c) "source_issue_kind" = "degraded")
       then Some (SourceDegraded (read_str (NMap c) "source_issue_reason")) else None).
Proof. done. Qed.

Ltac read_keys :=
  rewrite !checkpoint_of_keys; unfold read_str, read_str_list, read_opt_u64; cbn [obj_get];
  repeat first [rewrite lookup_insert_eq | rewrite lookup_insert_ne by done];
  cbn [fc_source_issue fc_exported_heads fc_save_sequence].

Lemma fcstep_save d heads seq :
  file_checkpoint (fcstep d (FSave heads seq)) = fcspec (file_checkpoint d) (FSave heads seq).
Proof.
  cbn [fcstep fcspec]. unfold set_file_checkpoint.
  destruct (match fc_save_sequence (file_checkpoint d) with Some c => seq <=? c | None => false end);
    [done|].
  destruct (get_or_create_spec "file_checkpoint" d) as (d' & -> & Hset). cbn [fst].
  rewrite Hset, file_checkpoint_set, file_checkpoint_of. read_keys. cbn [str_list].
  by rewrite omap_node_str.
Qed.

Lemma fcstep_clear d : file_checkpoint (fcstep d FClear) = fcspec (file_checkpoint d) FClear.
Proof.
  cbn [fcstep fcspec]. unfold clear_file_checkpoint. case_decide as Hc.
  { cbn [fst]. destruct (file_checkpoint d) as [h s i]. simpl in *. by destruct Hc as [-> ->]. }
  destruct (get_or_create_spec "file_checkpoint" d) as (d' & -> & Hset). cbn [fst].
  rewrite Hset, file_checkpoint_set, file_checkpoint_of.
  set (c := default ∅ _). destruct (c !! "exported_heads") as [[]|] eqn:Hl;
    read_keys; rewrite ?Hl; done.
Qed.

Lemma fcstep_issue d i : file_checkpoint (fcstep d (FIssue i)) = fcspec (file_checkpoint d) (FIssue i).
Proof.
  cbn [fcstep fcspec]. unfold set_file_source_issue. case_decide as Hc.
  { cbn [fst]. destruct (file_checkpoint d) as [h s i']. simpl in *. by subst. }
  destruct (get_or_create_spec "file_checkpoint" d) as (d' & -> & Hset). cbn [fst].
  rewrite Hset, file_checkpoint_set, file_checkpoint_of. read_keys. by destruct i as [[]|].
Qed.

(** The published file checkpoint follows its specification for every order of
    save completions, clears and source reports, from any document: a completion
    that arrives after a newer one changes nothing, the heads published are those
    of the newest save, and source health is independent of both. *)
Theorem file_checkpoint_refines d ops :
  file_checkpoint (foldl fcstep d ops) = foldl fcspec (file_checkpoint d) ops.
Proof.
  revert d. induction ops as [|op ops IH]; intros d; [done|]. simpl. rewrite IH. f_equal.
  destruct op; [apply fcstep_save|apply fcstep_clear|apply fcstep_issue].
Qed.

(** ** The lifecycle writers against its reader *)

Lemma set_kernel_get k d : get_map "kernel" (set_kernel k d) = Some k.
Proof. unfold set_kernel. by rewrite get_map_set_root, decide_True. Qed.

Lemma get_map_scaffold key d m : get_map key d = Some m -> scaffold_map key d = Ok m.
Proof. unfold scaffold_map. by intros ->. Qed.

(** A kernel map with typed keys and no legacy ones reads as what the keys say. *)
Lemma resolve_typed k l :
  read_opt_str (NMap k) "lifecycle" = Some (variant_str l) ->
  read_opt_str (NMap k) "activity" = Some (match l with Running a => activity_str a | _ => "" end) ->
  k !! "status" = None -> k !! "starting_phase" = None ->
  resolve_kernel_lifecycle (NMap k) = l.
Proof.
  intros Hl Ha Hs Hp. unfold resolve_kernel_lifecycle. rewrite !read_str_opt, Hl, Ha.
  unfold read_opt_str. cbn [obj_get]. rewrite Hs, Hp. by destruct l as [| | | | | | | |[]| |].
Qed.

Ltac kernel_keys :=
  unfold read_opt_str; cbn [obj_get];
  repeat first [rewrite lookup_insert_eq | rewrite lookup_delete_eq
    | rewrite lookup_insert_ne by done | rewrite lookup_delete_ne by done].

Lemma set_lifecycle_read l d k :
  get_map "kernel" d = Some k ->
  exists d', set_lifecycle l d = (d', Ok ()) /\ kd_lifecycle (read_kernel_state d') = l.
Proof.
  intros Hk. unfold set_lifecycle. rewrite (get_map_scaffold _ _ _ Hk). eexists. split; [done|].
  unfold read_kernel_state. rewrite set_kernel_get. cbn [kd_lifecycle].
  unfold clear_legacy_kernel_status. apply resolve_typed; by kernel_keys.
Qed.

Lemma set_activity_read a d k :
  get_map "kernel" d = Some k ->
  exists d', set_activity a d = (d', Ok ()) /\ kd_lifecycle (read_kernel_state d') = Running a.
Proof.
  intros Hk. unfold set_activity. rewrite (get_map_scaffold _ _ _ Hk).
  assert (forall k', k' !! "status" = None -> k' !! "starting_phase" = None ->
    read_str (NMap k') "lifecycle" = "Running" -> read_str (NMap k') "activity" = activity_str a ->
    resolve_kernel_lifecycle (NMap k') = Running a) as Hread.
  { intros k' Hs Hp Hl Ha. rewrite !read_str_opt in *. apply resolve_typed; try done.
    - by destruct (read_opt_str (NMap k') "lifecycle"); simplify_eq/=.
    - by destruct (read_opt_str (NMap k') "activity"), a; simplify_eq/=. }
  set (stale := _ || _). set (rep := bool_decide (_ <> "Running")).
  set (same := bool_decide (_ = activity_str a)).
  set (k1 := if rep || negb same then _ else k).
  set (k2 := if stale then clear_legacy_kernel_status k1 else k1).
  assert (resolve_kernel_lifecycle (NMap k2) = Running a) as H2.
  { unfold k2, k1. destruct stale eqn:Hst.
    - apply Hread; unfold clear_legacy_kernel_status; [by kernel_keys..| |];
        destruct (rep || negb same) eqn:Hr; unfold read_str; kernel_keys; try done.
      + apply orb_false_iff in Hr as [Hr _]. unfold rep in Hr. apply bool_decide_eq_false in Hr.
        by apply dec_stable in Hr.
      + apply orb_false_iff in Hr as [_ Hr%negb_false_iff]. by apply bool_decide_eq_true in Hr.
    - unfold stale in Hst. rewrite orb_false_iff, !bool_decide_eq_false in Hst.
      destruct Hst as [Hs%eq_None_not_Some Hp%eq_None_not_Some].
      apply Hread; destruct (rep || negb same) eqn:Hr; unfold read_str; kernel_keys; try done.
      + apply orb_false_iff in Hr as [Hr _]. unfold rep in Hr. apply bool_decide_eq_false in Hr.
        by apply dec_stable in Hr.
      + apply orb_false_iff in Hr as [_ Hr%negb_false_iff]. by apply bool_decide_eq_true in Hr. }
  destruct (same && negb rep && negb stale) eqn:Hc.
  - exists d. split; [done|]. unfold read_kernel_state. rewrite Hk. cbn [kd_lifecycle].
    rewrite !andb_true_iff, !negb_true_iff in Hc. destruct Hc as [[Hsame Hrep] Hstale].
    unfold k2, k1 in H2. by rewrite Hstale, Hsame, Hrep in H2.
  - eexists. split; [done|]. unfold read_kernel_state. rewrite set_kernel_get. exact H2.
Qed.

(** The lifecycle read back is the one written: after [set_lifecycle] the
    document reports exactly that lifecycle, after an activity report it reports a
    running kernel with that activity, and the legacy strings derived from it
    decode to it again (an unknown activity reads as idle there).  Stale legacy
    keys of an older document never shadow the write. *)
Theorem lifecycle_roundtrip d l a :
  is_Some (get_map "kernel" d) ->
  (exists d', set_lifecycle l d = (d', Ok ()) /\ kd_lifecycle (read_kernel_state d') = l /\
     let '(status, phase) := (kd_status (read_kernel_state d'), kd_starting_phase (read_kernel_state d')) in
     from_legacy status phase = match l with Running ActUnknown => Running ActIdle | _ => l end) /\
  (exists d', set_activity a d = (d', Ok ()) /\ kd_lifecycle (read_kernel_state d') = Running a).
Proof.
  intros [k Hk]. split; [|by eapply set_activity_read].
  destruct (set_lifecycle_read l d k Hk) as (d' & Hs & Hr). exists d'. split_and!; [done..|].
  revert Hr. unfold read_kernel_state. destruct (get_map "kernel" d'); cbn [kd_lifecycle kd_status kd_starting_phase];
    intros <-; by destruct (resolve_kernel_lifecycle _) as [| | | | | | | |[]| |] || done.
Qed.

Module RuntimeDocExamples.

(** A document with one running and one queued execution. *)
Definition busy : RuntimeStateDoc :=
  (set_execution_running "e1" (create_execution "e2" (create_execution "e1" new_runtime_doc).1).1).1.

Lemma busy_ok : doc_ok busy.
Proof.
  unfold busy. destruct (create_execution_spec "e1" _ doc_ok_new) as (d1 & -> & H1 & _).
  cbn [fst]. destruct (create_execution_spec "e2" d1 H1) as (d2 & -> & H2 & _).
  cbn [fst]. by destruct (set_execution_running_spec "e1" d2 H2) as (d3 & -> & H3 & _).
Qed.

Lemma abort_resolves_inflight_witness :
  doc_ok busy /\ get_queued_executions (abort_inflight_executions busy).1 = [].
Proof. split; [exact busy_ok|]. by apply (abort_resolves_inflight busy busy_ok). Defined.

Lemma lifecycle_roundtrip_witness :
  exists d', set_activity ActBusy new_runtime_doc = (d', Ok ()) /\
    kd_lifecycle (read_kernel_state d') = Running ActBusy.
Proof. apply (lifecycle_roundtrip new_runtime_doc LcError ActBusy). by eexists. Defined.

End RuntimeDocExamples.
