(* ===== verification/RuntimeOutputs.v ===== *)
(** * Outputs of executions

    Model of the output half of [crates/runtime-doc/src/doc.rs]: the output maps
    with their positions and the cache of the last one, the index from display
    ids to outputs, stream updates in place, retention of old executions, and
    the two diffs of outputs by id.  Everything is a read or a write on the
    document of [RuntimeDoc].  The theorems: appending refines an ordered list
    of outputs, one batch is the sequence of its single appends, the cache and the
    display index never go stale, trimming removes the oldest unprotected
    executions and no others, and the two diffs agree. *)

From S2P Require Import Prelude Kernel Automunge RuntimeDoc.

(** ** Reading manifests *)

(** [serde_json::Value::get] with a key. *)
Definition json_get (v : json) (key : string) : option json :=
  match v with JObject m => m !! key | _ => None end.

Definition json_str (v : json) : option string :=
  match v with JString s => Some s | _ => None end.

Definition extract_output_id (output : json) : option string :=
  s ← json_get output "output_id" ≫= json_str; if decide (s = "") then None else Some s.

Definition display_id_for_manifest (manifest : json) : option string :=
  t ← json_get manifest "transient"; id ← json_get t "display_id"; json_str id.

(** [collect::<Result<Vec<_>, _>>()] over the ids. *)
Fixpoint extract_output_ids (ms : list json) : result RuntimeStateError (list string) :=
  match ms with
  | [] => Ok []
  | m :: ms =>
      match extract_output_id m with
      | None => Err MissingOutputId
      | Some oid => let? ids := extract_output_ids ms in Ok (oid :: ids)
      end
  end.

(** ** Output maps *)

(** The output map of an execution, with its new contents. *)
Definition put_outputs (eid : string) (outputs : gmap string node) (d : RuntimeStateDoc)
    : RuntimeStateDoc :=
  match get_map "executions" d with
  | Some exs =>
      match exs !! eid with
      | Some (NMap e) => set_execution exs eid (NMap (<["outputs" := NMap outputs]> e)) d
      | _ => d
      end
  | None => d
  end.

(** [ensure_output_map]: the document with the map in place. *)
Definition ensure_output_map (eid : string) (d : RuntimeStateDoc) : option RuntimeStateDoc :=
  match get_execution_entry eid d with
  | Some (NMap e) =>
      match e !! "outputs" with
      | Some (NMap _) => Some d
      | _ => Some (put_outputs eid ∅ d)
      end
  | _ => None
  end.

Definition exec_outputs (eid : string) (d : RuntimeStateDoc) : gmap string node :=
  default ∅ (get_output_map eid d).

Definition get_output_entry (eid oid : string) (d : RuntimeStateDoc) : option (gmap string node) :=
  match exec_outputs eid d !! oid with Some (NMap e) => Some e | _ => None end.

Definition put_output (eid oid : string) (e : gmap string node) (d : RuntimeStateDoc)
    : RuntimeStateDoc := put_outputs eid (<[oid := NMap e]> (exec_outputs eid d)) d.

Definition get_output (eid oid : string) (d : RuntimeStateDoc) : option json :=
  e ← get_output_entry eid oid d; read_output_manifest (NMap e).

Definition get_all_outputs (d : RuntimeStateDoc) : list (string * string * json) :=
  match get_map "executions" d with
  | None => []
  | Some exs =>
      eid ← keys exs;
      (fun r : string * Z * json => (eid, r.1.1, r.2)) <$> output_entries_sorted (exec_outputs eid d)
  end.

(** ** Positions *)

Definition scan_output_order (outputs : gmap string node) : OutputOrderCacheEntry :=
  match last (output_entries_sorted outputs) with
  | Some (_, seq, _) => mkOrder (saturating_add_u64 seq 1) (Some seq)
  | None => mkOrder 0 None
  end.

Definition output_order (eid : string) (d : RuntimeStateDoc)
    : RuntimeStateDoc * OutputOrderCacheEntry :=
  match output_order_cache d !! eid with
  | Some c => (d, c)
  | None =>
      let c := scan_output_order (exec_outputs eid d) in
      (with_cache (<[eid := c]> (output_order_cache d)) d, c)
  end.

Definition next_output_seq (eid : string) (d : RuntimeStateDoc) : RuntimeStateDoc * Z :=
  let '(d, c) := output_order eid d in (d, next_seq c).

Definition write_output_order_cache (eid : string) (next : Z) (latest : option Z)
    (d : RuntimeStateDoc) : RuntimeStateDoc :=
  with_cache (<[eid := mkOrder next latest]> (output_order_cache d)) d.

Definition output_is_latest (eid : string) (e : gmap string node) (d : RuntimeStateDoc)
    : RuntimeStateDoc * bool :=
  match read_output_seq (NMap e) with
  | None => (d, false)
  | Some seq => let '(d, c) := output_order eid d in (d, bool_decide (latest_seq c = Some seq))
  end.

(** ** Display index *)

Definition nul : Ascii.ascii := Ascii.ascii_of_nat 0.

(** [format!("{}\0{}", execution_id, output_id)]. *)
Definition index_key (eid oid : string) : string := (eid +:+ String nul oid)%string.

Definition add_display_index_entry (did eid oid : string) (d : RuntimeStateDoc) : RuntimeStateDoc :=
  match get_map "display_index" d with
  | None => d
  | Some idx =>
      let entries := match idx !! did with Some (NMap m) => m | _ => ∅ end in
      let entries := <[index_key eid oid := NScalar (SBoolean true)]> entries in
      set_root "display_index" (NMap (<[did := NMap entries]> idx)) d
  end.

(** A display id without entries is dropped from the index. *)
Definition remove_display_index_entry (did eid oid : string) (d : RuntimeStateDoc)
    : RuntimeStateDoc :=
  match get_map "display_index" d with
  | None => d
  | Some idx =>
      match idx !! did with
      | Some (NMap entries) =>
          let entries := delete (index_key eid oid) entries in
          set_root "display_index"
            (NMap (if decide (entries = ∅) then delete did idx else <[did := NMap entries]> idx)) d
      | _ => d
      end
  end.

Definition starts_with (p s : string) : bool := String.prefix p s.

Definition keep_other_executions (eid : string) (n : node) : option node :=
  match n with
  | NMap entries =>
      let entries := filter (fun x => starts_with (index_key eid "") x.1 = false) entries in
      if decide (entries = ∅) then None else Some (NMap entries)
  | _ => Some n
  end.

Definition remove_display_index_entries_for_execution (eid : string) (d : RuntimeStateDoc)
    : RuntimeStateDoc :=
  match get_map "display_index" d with
  | None => d
  | Some idx => set_root "display_index" (NMap (omap (keep_other_executions eid) idx)) d
  end.

(** [str::split_once]. *)
Fixpoint split_once (c : Ascii.ascii) (s : string) : option (string * string) :=
  match s with
  | EmptyString => None
  | String a s =>
      if decide (a = c) then Some ("", s)
      else '(l, r) ← split_once c s; Some (String a l, r)
  end%string.

Definition get_display_index_entries (did : string) (d : RuntimeStateDoc) : list (string * string) :=
  match get_map "display_index" d ≫= (fun idx => idx !! did) with
  | Some (NMap entries) => omap (split_once nul) (keys entries)
  | _ => []
  end.

(** ** Writing outputs *)

(** The tail every writer of a manifest shares: the old display entry goes, the
    manifest is updated in place, the new display entry is added. *)
Definition write_manifest (eid oid : string) (e : gmap string node) (manifest : json)
    (d : RuntimeStateDoc) : RuntimeStateDoc :=
  let d := match read_output_manifest (NMap e) ≫= display_id_for_manifest with
    | Some did => remove_display_index_entry did eid oid d
    | None => d
    end in
  let d := put_output eid oid (update_json_at_key e "manifest" manifest) d in
  match display_id_for_manifest manifest with
  | Some did => add_display_index_entry did eid oid d
  | None => d
  end.

(** The entry of an output that has just been created at a position. *)
Definition seq_entry (seq : Z) : gmap string node := {["seq" := NScalar (SUint seq)]}.

Definition append_output (eid : string) (manifest : json) : DocM string := fun d =>
  match extract_output_id manifest with
  | None => (d, Err MissingOutputId)
  | Some oid =>
      match ensure_output_map eid d with
      | None => (d, Ok oid)
      | Some d =>
          let '(d, e) := match get_output_entry eid oid d with
            | Some e => (d, e)
            | None =>
                let d := put_output eid oid ∅ d in
                let '(d, seq) := next_output_seq eid d in
                let d := put_output eid oid (seq_entry seq) d in
                (write_output_order_cache eid (saturating_add_u64 seq 1) (Some seq) d, seq_entry seq)
            end in
          (write_manifest eid oid e manifest d, Ok oid)
      end
  end.

(** One iteration of [append_outputs]: the document, the next position and the
    last one handed out. *)
Definition append_step (eid : string) (st : RuntimeStateDoc * Z * option Z) (x : json * string)
    : RuntimeStateDoc * Z * option Z :=
  let '(d, next, latest) := st in
  let '(manifest, oid) := x in
  match get_output_entry eid oid d with
  | Some e => (write_manifest eid oid e manifest d, next, latest)
  | None =>
      let d := put_output eid oid (seq_entry next) (put_output eid oid ∅ d) in
      (write_manifest eid oid (seq_entry next) manifest d, saturating_add_u64 next 1, Some next)
  end.

Definition append_outputs (eid : string) (manifests : list json) : DocM (list string) := fun d =>
  do! ids := extract_output_ids manifests else d in
  match ensure_output_map eid d with
  | None => (d, Ok ids)
  | Some d =>
      let '(d, next) := next_output_seq eid d in
      let '(d, next, latest) := foldl (append_step eid) (d, next, None) (zip manifests ids) in
      (match latest with Some _ => write_output_order_cache eid next latest d | None => d end, Ok ids)
  end.

(** The loop of [set_outputs] from position [i]. *)
Fixpoint set_outputs_from (eid : string) (i : Z) (manifests : list json) (latest : option Z)
    (d : RuntimeStateDoc) : RuntimeStateDoc * result RuntimeStateError (option Z) :=
  match manifests with
  | [] => (d, Ok latest)
  | m :: ms =>
      match extract_output_id m with
      | None => (d, Err MissingOutputId)
      | Some oid =>
          let d := put_output eid oid (update_json_at_key (seq_entry i) "manifest" m) d in
          let d := match display_id_for_manifest m with
            | Some did => add_display_index_entry did eid oid d
            | None => d
            end in
          set_outputs_from eid (i + 1) ms (Some i) d
      end
  end.

(** [set_outputs]; an entry that is no map refuses the new output map. *)
Definition set_outputs (eid : string) (manifests : list json) : DocM bool := fun d =>
  match get_execution_entry eid d with
  | None => (d, Ok false)
  | Some entry =>
      let d := remove_display_index_entries_for_execution eid d in
      match entry with
      | NMap _ =>
          match set_outputs_from eid 0 manifests None (put_outputs eid ∅ d) with
          | (d, Err err) => (d, Err err)
          | (d, Ok latest) => (write_output_order_cache eid (zlen manifests) latest d, Ok true)
          end
      | _ => (d, Err AutomergeErr)
      end
  end.

Definition replace_output (eid oid : string) (manifest : json) : DocM bool := fun d =>
  match get_output_entry eid oid d with
  | None => (d, Ok false)
  | Some e => (write_manifest eid oid e manifest d, Ok true)
  end.

(** [StreamOutputState]. *)
Record StreamOutputState := mkStreamState { so_output_id : string; so_blob_hash : string }.

(** The blob hash or the inline text of a stream output. *)
Definition content_id (existing : json) : option string :=
  t ← json_get existing "text";
  match json_get t "blob" ≫= json_str with
  | Some h => Some h
  | None => json_get t "inline" ≫= json_str
  end.

(** The manifest with the identity of the output it replaces. *)
Definition patched (existing manifest : json) : json :=
  match json_get existing "output_id", manifest with
  | Some (JString old_id), JObject m =>
      if decide (old_id = "") then manifest else JObject (<["output_id" := JString old_id]> m)
  | _, _ => manifest
  end.

(** The cached stream output when it may be updated in place: it is still the last
    output and holds what the cache expects. *)
Inductive stream_match := SAppend | SNoManifest | SReplace (existing : json).

Definition match_stream (eid : string) (known : option StreamOutputState) (d : RuntimeStateDoc)
    : RuntimeStateDoc * stream_match :=
  match known with
  | None => (d, SAppend)
  | Some st =>
      match get_output_entry eid (so_output_id st) d with
      | None => (d, SAppend)
      | Some e =>
          let '(d, latest) := output_is_latest eid e d in
          if latest then
            match read_output_manifest (NMap e) with
            | None => (d, SNoManifest)
            | Some existing =>
                if decide (content_id existing = Some (so_blob_hash st)) then (d, SReplace existing)
                else (d, SAppend)
            end
          else (d, SAppend)
      end
  end.

Definition upsert_stream_output (eid : string) (manifest : json) (known : option StreamOutputState)
    : DocM (bool * string) := fun d =>
  match extract_output_id manifest with
  | None => (d, Err MissingOutputId)
  | Some manifest_oid =>
      match ensure_output_map eid d with
      | None => (d, Ok (false, manifest_oid))
      | Some d =>
          match match_stream eid known d, known with
          | (d, SReplace existing), Some st =>
              match replace_output eid (so_output_id st) (patched existing manifest) d with
              | (d, Err err) => (d, Err err)
              | (d, Ok _) => (d, Ok (true, so_output_id st))
              end
          | (d, _), _ =>
              match append_output eid manifest d with
              | (d, Err err) => (d, Err err)
              | (d, Ok oid) => (d, Ok (false, oid))
              end
          end
      end
  end.

(** ** Removing executions *)

(** One removed execution: its entry, its display entries and its cached position. *)
Definition remove_execution (eid : string) (d : RuntimeStateDoc) : RuntimeStateDoc :=
  match get_map "executions" d with
  | None => d
  | Some exs =>
      let d := set_root "executions" (NMap (delete eid exs)) d in
      let d := remove_display_index_entries_for_execution eid d in
      with_cache (delete eid (output_order_cache d)) d
  end.

Definition remove_executions (eids : list string) : DocM nat := fun d =>
  match eids, get_map "executions" d with
  | [], _ | _, None => (d, Ok 0%nat)
  | _, _ =>
      let '(d, removed) := foldl (fun (st : RuntimeStateDoc * nat) eid =>
        let '(d, removed) := st in
        match get_execution_entry eid d with
        | Some _ => (remove_execution eid d, S removed)
        | None => (d, removed)
        end) (d, 0%nat) eids in
      (d, Ok removed)
  end.

(** The ids [trim_executions_preserving] keeps besides the caller's. *)
Definition queue_protected (d : RuntimeStateDoc) : list string :=
  match get_map "queue" d with
  | Some q => option_list (read_opt_str (NMap q) "executing_execution_id") ++
      read_str_list (NMap q) "queued_execution_ids"
  | None => []
  end.

Definition active (entry : node) : bool :=
  bool_decide (read_str entry "status" = "queued" \/ read_str entry "status" = "running").

Definition is_protected (keep : list string) (d : RuntimeStateDoc) (exs : gmap string node)
    (eid : string) : bool :=
  bool_decide (eid ∈ keep) || bool_decide (eid ∈ queue_protected d) ||
  match exs !! eid with Some entry => active entry | None => false end.

Definition age_le (x y : string * Z) : Prop :=
  x.2 < y.2 \/ (x.2 = y.2 /\ String.le x.1 y.1).

#[export] Instance age_le_dec : RelDecision age_le.
Proof. intros x y. unfold age_le. apply _. Defined.

(** Executions by age: position first (none is last), then id. *)
Definition by_age (exs : gmap string node) : list (string * Z) :=
  merge_sort age_le
    ((fun x : string * node => (x.1, default u64_max (read_opt_u64 x.2 "seq"))) <$> map_to_list exs).

Fixpoint trim_loop (protected : string -> bool) (to_remove removed : nat) (l : list (string * Z))
    (d : RuntimeStateDoc) : RuntimeStateDoc * nat :=
  match l with
  | [] => (d, removed)
  | (eid, _) :: l =>
      if (to_remove <=? removed)%nat then (d, removed)
      else if protected eid then trim_loop protected to_remove removed l d
      else trim_loop protected to_remove (S removed) l (remove_execution eid d)
  end.

Definition trim_executions_preserving (max : nat) (keep : list string) : DocM nat := fun d =>
  match get_map "executions" d with
  | None => (d, Ok 0%nat)
  | Some exs =>
      let total := base.size exs in
      if (total <=? max)%nat then (d, Ok 0%nat)
      else
        let '(d', removed) :=
          trim_loop (is_protected keep d exs) (total - max)%nat 0 (by_age exs) d in
        (d', Ok removed)
  end.

Definition trim_executions (max : nat) : DocM nat := trim_executions_preserving max [].

(** ** Restoring *)

Definition restore_terminal_execution (eid : string) (x : ExecutionState) : DocM bool := fun d =>
  if bool_decide (es_status x <> "done" /\ es_status x <> "error") then
    (d, Err InvalidRecoveredExecution)
  else
    do! _ := extract_output_ids (es_outputs x) else d in
    do! exs := scaffold_map "executions" d else d in
    match exs !! eid with
    | Some _ => (d, Ok false)
    | None =>
        let e := {["status" := str_node (es_status x)]} in
        let e := <["execution_count" :=
          match es_execution_count x with Some n => NScalar (SInt n) | None => null_node end]> e in
        let e := <["success" :=
          match es_success x with Some b => NScalar (SBoolean b) | None => null_node end]> e in
        let e := put_some "source" (str_node <$> es_source x) e in
        let e := put_some "cell_id" (str_node <$> es_cell_id x) e in
        let e := put_some "seq" ((fun n => NScalar (SUint n)) <$> es_seq x) e in
        let e := put_some "submitted_by_actor_label" (str_node <$> es_submitted_by x) e in
        match set_outputs eid (es_outputs x) (set_execution exs eid (NMap e) d) with
        | (d, Err err) => (d, Err err)
        | (d, Ok _) => (d, Ok true)
        end
    end.

(** ** Diffs by output id *)

(** [OutputIdDiff]. *)
Record OutputIdDiff := mkDiff {
  changed : list (string * json);
  removed_output_ids : list string;
}.

(** The outputs of all executions with their ids, in the order the executions are
    iterated in. *)
Definition output_pairs (execs : list ExecutionState) : list (string * json) :=
  x ← execs; omap (fun o => (fun oid => (oid, o)) <$> extract_output_id o) (es_outputs x).

Definition is_changed (prev : gmap string json) (x : string * json) : bool :=
  match prev !! x.1 with Some o => negb (bool_decide (o = x.2)) | None => true end.

Definition diff_output_ids (prev : gmap string json) (execs : list ExecutionState)
    : OutputIdDiff * gmap string json :=
  let '(changed, snapshot) := foldl (fun (st : list (string * json) * gmap string json) x =>
    let '(changed, snapshot) := st in
    (if is_changed prev x then changed ++ [x] else changed, <[x.1 := x.2]> snapshot))
    ([], ∅) (output_pairs execs) in
  (mkDiff changed (filter (fun k => snapshot !! k = None) (keys prev)), snapshot).

(** The snapshot of the caller is updated; what was not seen is dropped. *)
Definition diff_output_ids_in_place (prev : gmap string json) (execs : list ExecutionState)
    : OutputIdDiff * gmap string json :=
  let '(changed, seen, prev) :=
    foldl (fun (st : list (string * json) * list string * gmap string json) x =>
      let '(changed, seen, prev) := st in
      if is_changed prev x then (changed ++ [x], x.1 :: seen, <[x.1 := x.2]> prev)
      else (changed, x.1 :: seen, prev))
    ([], [], prev) (output_pairs execs) in
  (mkDiff changed (filter (fun k => k ∉ seen) (keys prev)),
   filter (fun x : string * json => x.1 ∈ seen) prev).

Definition output_ids_for_execution (x : ExecutionState) : list string :=
  omap extract_output_id (es_outputs x).

(** [diff_execution_outputs]. *)
Definition diff_execution_outputs (prev : gmap string (list json))
    (execs : gmap string ExecutionState) : list string * gmap string (list json) :=
  (omap (fun x : string * ExecutionState =>
     let outputs_changed := match prev !! x.1 with
       | None => negb (bool_decide (es_outputs x.2 = []))
       | Some p => negb (bool_decide (p = es_outputs x.2))
       end in
     if outputs_changed then Some x.1 else None) (map_to_list execs),
   es_outputs <$> execs).

(** ** Lemmas: where outputs live *)

Definition has_execution (eid : string) (d : RuntimeStateDoc) : Prop :=
  exists e, get_execution_entry eid d = Some (NMap e).

(** A change of another part of the document. *)
Definition same_executions (d d' : RuntimeStateDoc) : Prop :=
  get_map "executions" d' = get_map "executions" d.

Lemma get_output_map_entry eid d :
  get_output_map eid d = match get_execution_entry eid d with
    | Some e => match obj_get e "outputs" with Some (NMap m) => Some m | _ => None end
    | None => None
    end.
Proof. unfold get_output_map. by destruct (get_execution_entry eid d). Qed.

Lemma get_map_put_outputs key eid o d :
  key <> "executions" -> get_map key (put_outputs eid o d) = get_map key d.
Proof.
  intros Hk. unfold put_outputs. destruct (get_map "executions" d) as [exs|]; [|done].
  destruct (exs !! eid) as [[]|]; try done. unfold set_execution.
  by rewrite get_map_set_root, decide_False.
Qed.

Lemma get_execution_entry_put_outputs eid o d x :
  get_execution_entry x (put_outputs eid o d) =
    if decide (x = eid) then
      match get_execution_entry eid d with
      | Some (NMap e) => Some (NMap (<["outputs" := NMap o]> e))
      | other => other
      end
    else get_execution_entry x d.
Proof.
  unfold put_outputs, get_execution_entry. destruct (get_map "executions" d) as [exs|] eqn:He.
  - simpl. destruct (exs !! eid) as [[|e| |]|] eqn:Heid; rewrite ?He; simpl;
      try (case_decide; [subst; by rewrite Heid|done]).
    unfold set_execution. rewrite get_map_set_root, decide_True by done. simpl.
    case_decide; [subst; by rewrite lookup_insert_eq|by rewrite lookup_insert_ne].
  - rewrite He. by case_decide.
Qed.

Lemma get_output_map_put_outputs eid o d x :
  has_execution eid d ->
  get_output_map x (put_outputs eid o d) = if decide (x = eid) then Some o else get_output_map x d.
Proof.
  intros [e He]. rewrite !get_output_map_entry, get_execution_entry_put_outputs.
  case_decide; [|done]. rewrite He. simpl. by rewrite lookup_insert_eq.
Qed.

Lemma exec_outputs_put eid o d x :
  has_execution eid d ->
  exec_outputs x (put_outputs eid o d) = if decide (x = eid) then o else exec_outputs x d.
Proof.
  intros H. unfold exec_outputs. rewrite get_output_map_put_outputs by done. by case_decide.
Qed.

Lemma has_execution_put_outputs eid o d x :
  has_execution x (put_outputs eid o d) <-> has_execution x d.
Proof.
  unfold has_execution. rewrite get_execution_entry_put_outputs. case_decide as Hx; [subst|done].
  destruct (get_execution_entry eid d) as [[]|]; naive_solver.
Qed.

Lemma cache_put_outputs eid o d : output_order_cache (put_outputs eid o d) = output_order_cache d.
Proof. unfold put_outputs. by destruct (get_map "executions" d); [case_match; try done; case_match|]. Qed.

(** Writing the map twice leaves the last one. *)
Lemma put_outputs_twice eid o o' d : put_outputs eid o (put_outputs eid o' d) = put_outputs eid o d.
Proof.
  unfold put_outputs. destruct (get_map "executions" d) as [exs|] eqn:He; [|by rewrite He].
  destruct (exs !! eid) as [[|e| |]|] eqn:Heid; rewrite ?He, ?Heid; try done.
  unfold set_execution. rewrite get_map_set_root, decide_True by done. rewrite lookup_insert_eq.
  unfold set_root. simpl. by rewrite !insert_insert_eq.
Qed.

(** Cache writes do not touch the tree. *)
Lemma get_map_with_cache key c d : get_map key (with_cache c d) = get_map key d.
Proof. done. Qed.

Lemma put_outputs_with_cache eid o c d :
  put_outputs eid o (with_cache c d) = with_cache c (put_outputs eid o d).
Proof.
  unfold put_outputs. rewrite get_map_with_cache. destruct (get_map "executions" d) as [exs|]; [|done].
  by destruct (exs !! eid) as [[]|].
Qed.

(** ** Lemmas: the display index touches nothing else *)

(** [d'] is [d] with another display index. *)
Definition index_only (d d' : RuntimeStateDoc) : Prop :=
  d' = d \/ exists idx, d' = set_root "display_index" (NMap idx) d.

Lemma index_only_facts d d' :
  index_only d d' ->
  (forall key, key <> "display_index" -> get_map key d' = get_map key d) /\
  (forall eid, get_execution_entry eid d' = get_execution_entry eid d) /\
  (forall eid, exec_outputs eid d' = exec_outputs eid d) /\
  output_order_cache d' = output_order_cache d.
Proof.
  intros [->|(idx & ->)]; [done|].
  assert (forall key, key <> "display_index" ->
    get_map key (set_root "display_index" (NMap idx) d) = get_map key d) as Hg.
  { intros key Hk. by rewrite get_map_set_root, decide_False. }
  assert (forall eid, get_execution_entry eid (set_root "display_index" (NMap idx) d) =
    get_execution_entry eid d) as He.
  { intros eid. unfold get_execution_entry. by rewrite Hg. }
  split_and!; [done..| |done].
  intros eid. unfold exec_outputs. by rewrite !get_output_map_entry, He.
Qed.

Lemma add_index_only did eid oid d : index_only d (add_display_index_entry did eid oid d).
Proof. unfold add_display_index_entry. case_match; [right; by eexists|by left]. Qed.

Lemma remove_index_only did eid oid d : index_only d (remove_display_index_entry did eid oid d).
Proof.
  unfold remove_display_index_entry. case_match; [|by left].
  case_match; [|by left]. case_match; try (by left). right. by eexists.
Qed.

Lemma remove_all_index_only eid d : index_only d (remove_display_index_entries_for_execution eid d).
Proof. unfold remove_display_index_entries_for_execution. case_match; [right; by eexists|by left]. Qed.

(** ** Lemmas: listing outputs *)

#[export] Instance row_le_total : Total row_le.
Proof.
  intros [[i a] x] [[j b] y]. unfold row_le. simpl. pose proof (total String.le i j).
  destruct (Z.lt_trichotomy a b) as [?|[?|?]]; [by left; left|subst; tauto|by right; left].
Qed.

#[export] Instance row_le_trans : Transitive row_le.
Proof.
  intros [[i a] x] [[j b] y] [[k c] z]. unfold row_le. simpl. intros [?|[? ?]] [?|[? ?]]; try (left; lia).
  right. split; [lia|]. by transitivity j.
Qed.

Definition rows (o : gmap string node) : list (string * Z * json) :=
  omap (fun x => output_row x.1 x.2) (map_to_list o).

Lemma output_row_id oid n r : output_row oid n = Some r -> r.1.1 = oid.
Proof.
  unfold output_row. destruct n as [|e| |]; try done.
  by intros (seq & _ & (m & _ & [= <-])%bind_Some)%bind_Some.
Qed.

Lemma elem_of_rows o r :
  r ∈ output_entries_sorted o <-> exists n, o !! r.1.1 = Some n /\ output_row r.1.1 n = Some r.
Proof.
  unfold output_entries_sorted. rewrite merge_sort_Permutation, list_elem_of_omap. split.
  - intros ([oid n] & Hin%elem_of_map_to_list & Hr). simpl in *.
    pose proof (output_row_id _ _ _ Hr) as ->. eauto.
  - intros (n & Hn & Hr). exists (r.1.1, n). by rewrite elem_of_map_to_list.
Qed.

Lemma rows_insert o oid n :
  rows (<[oid := n]> o) ≡ₚ option_list (output_row oid n) ++ rows (delete oid o).
Proof.
  unfold rows. rewrite <- (insert_delete_eq o oid n).
  rewrite (map_to_list_insert (delete oid o) oid n) by apply lookup_delete_eq.
  cbn [omap list_omap fst snd]. by destruct (output_row oid n).
Qed.

Lemma rows_delete o oid n :
  o !! oid = Some n -> rows o ≡ₚ option_list (output_row oid n) ++ rows (delete oid o).
Proof. intros Hn. rewrite <- (insert_id o oid n Hn) at 1. apply rows_insert. Qed.

Lemma rows_ids_NoDup o : NoDup (rows o).*1.*1.
Proof.
  unfold rows. pose proof (NoDup_fst_map_to_list o) as Hnd.
  induction (map_to_list o) as [|[k n] l IH]; simpl; [constructor|].
  apply NoDup_cons in Hnd as [Hk Hnd]. destruct (output_row k n) as [r|] eqn:Hr; [|by apply IH].
  simpl. apply NoDup_cons. split; [|by apply IH]. rewrite (output_row_id _ _ _ Hr).
  intros (x & Hx & (r' & -> & Hin)%list_elem_of_fmap)%list_elem_of_fmap.
  apply list_elem_of_omap in Hin as ([k2 n2] & Hin & Hr2). simpl in *.
  rewrite (output_row_id _ _ _ Hr2) in Hx. subst. apply Hk. apply list_elem_of_fmap. by exists (k2, n2).
Qed.

(** Rows are listed in the only order their positions and ids allow. *)
Lemma sorted_rows_unique o l :
  l ≡ₚ rows o -> StronglySorted row_le l -> output_entries_sorted o = l.
Proof.
  intros Hp Hs. unfold output_entries_sorted. fold (rows o).
  assert (merge_sort row_le (rows o) ≡ₚ l) as Hp' by (by rewrite merge_sort_Permutation).
  apply (StronglySorted_unique_strong row_le); [|apply (StronglySorted_merge_sort row_le)|done|done].
  intros x y Hx Hy H1 H2.
  assert (x.1.1 = y.1.1) as Hid.
  { unfold row_le in *. destruct H1 as [?|[? H1]], H2 as [?|[? H2]]; try lia.
    by apply (anti_symm String.le). }
  rewrite merge_sort_Permutation in Hx. rewrite Hp in Hy.
  apply list_elem_of_lookup in Hx as [i Hx]. apply list_elem_of_lookup in Hy as [j Hy].
  assert (i = j) as ->; [|congruence].
  apply (NoDup_lookup (rows o).*1.*1 i j x.1.1); [apply rows_ids_NoDup| |];
    rewrite !list_lookup_fmap, ?Hx, ?Hy; simpl; congruence.
Qed.

(** ** Lemmas: the last position *)

Definition is_latest (o : gmap string node) (ls : option Z) : Prop :=
  match ls with
  | None => forall oid n, o !! oid = Some n -> output_row oid n = None
  | Some s =>
      (exists oid n r, o !! oid = Some n /\ output_row oid n = Some r /\ r.1.2 = s) /\
      forall oid n r, o !! oid = Some n -> output_row oid n = Some r -> r.1.2 <= s
  end.

Definition order_of (ls : option Z) : OutputOrderCacheEntry :=
  match ls with Some s => mkOrder (saturating_add_u64 s 1) (Some s) | None => mkOrder 0 None end.

Lemma last_sorted_max (l : list (string * Z * json)) r :
  StronglySorted row_le l -> last l = Some r -> r ∈ l /\ forall x, x ∈ l -> x.1.2 <= r.1.2.
Proof.
  intros Hs Hl. apply last_Some in Hl as [l' ->]. split; [set_solver|].
  intros x [Hx| ->%list_elem_of_singleton]%elem_of_app; [|done].
  apply StronglySorted_app in Hs as (Hall & _ & _).
  destruct (Hall x r Hx) as [?|[? _]]; [set_solver|lia..].
Qed.

Lemma scan_is_latest o : scan_output_order o = order_of (latest_seq (scan_output_order o)) /\
  is_latest o (latest_seq (scan_output_order o)).
Proof.
  unfold scan_output_order. destruct (last (output_entries_sorted o)) as [[[id s] m]|] eqn:Hl; simpl.
  - split; [done|]. apply last_sorted_max in Hl as [Hin Hmax]; [|apply (StronglySorted_merge_sort row_le)].
    split.
    + apply elem_of_rows in Hin as (n & Hn & Hr). simpl in *. by exists id, n, (id, s, m).
    + intros oid n r Hn Hr. apply (Hmax r). apply elem_of_rows. exists n.
      by rewrite (output_row_id _ _ _ Hr).
  - split; [done|]. intros oid n Hn. destruct (output_row oid n) as [r|] eqn:Hr; [|done]. exfalso.
    apply last_None in Hl. assert (r ∈ output_entries_sorted o) as Hin; [|rewrite Hl in Hin; set_solver].
    apply elem_of_rows. exists n. by rewrite (output_row_id _ _ _ Hr).
Qed.

Lemma is_latest_unique o a b : is_latest o a -> is_latest o b -> a = b.
Proof.
  destruct a as [a|], b as [b|]; simpl; [|naive_solver..].
  - intros [(? & ? & ? & ? & ? & <-) Ha] [(? & ? & ? & ? & ? & <-) Hb]. f_equal.
    apply Z.le_antisymm; eauto.
Qed.

Lemma scan_from_latest o ls : is_latest o ls -> scan_output_order o = order_of ls.
Proof.
  intros H. destruct (scan_is_latest o) as [He Hl]. by rewrite He, (is_latest_unique _ _ _ Hl H).
Qed.

(** ** Lemmas: output maps after a write *)

(** An output as every writer leaves it. *)
Definition output_ok (n : node) : Prop :=
  exists e s m, n = NMap e /\ read_output_seq (NMap e) = Some s /\ is_u64 s /\
    read_output_manifest (NMap e) = Some m.

Lemma output_ok_row oid n : output_ok n -> exists s m, output_row oid n = Some (oid, s, m) /\ is_u64 s.
Proof. intros (e & s & m & -> & Hs & Hb & Hm). exists s, m. unfold output_row. by rewrite Hs; simpl; rewrite Hm. Qed.

Lemma read_seq_update e v : read_output_seq (NMap (update_json_at_key e "manifest" v)) = read_output_seq (NMap e).
Proof.
  unfold read_output_seq, read_opt_u64, update_json_at_key. cbn [obj_get]. by rewrite lookup_insert_ne.
Qed.

Lemma read_manifest_update e v :
  json_ok v = true -> read_output_manifest (NMap (update_json_at_key e "manifest" v)) = Some v.
Proof.
  intros Hv. unfold read_output_manifest, update_json_at_key. cbn [obj_get]. rewrite lookup_insert_eq.
  simpl. rewrite update_node_fresh. by apply read_fresh_node.
Qed.

Lemma row_update oid e v s :
  json_ok v = true -> read_output_seq (NMap e) = Some s ->
  output_row oid (NMap (update_json_at_key e "manifest" v)) = Some (oid, s, v).
Proof. intros Hv Hs. unfold output_row. by rewrite read_seq_update, read_manifest_update, Hs. Qed.

Lemma output_ok_update e v s :
  json_ok v = true -> read_output_seq (NMap e) = Some s -> is_u64 s ->
  output_ok (NMap (update_json_at_key e "manifest" v)).
Proof.
  intros Hv Hs Hb. exists (update_json_at_key e "manifest" v), s, v.
  by rewrite read_seq_update, read_manifest_update, Hs.
Qed.

(** A map of outputs after one output was appended or replaced. *)
Definition place_output (o : gmap string node) (oid : string) (manifest : json) : gmap string node :=
  let e := match o !! oid with
    | Some (NMap e) => e
    | _ => seq_entry (next_seq (scan_output_order o))
    end in
  <[oid := NMap (update_json_at_key e "manifest" manifest)]> o.

Lemma latest_replace o oid n n' ls :
  o !! oid = Some n -> (snd ∘ fst <$> output_row oid n') = (snd ∘ fst <$> output_row oid n) ->
  is_latest o ls -> is_latest (<[oid := n']> o) ls.
Proof.
  intros Hn Hrow. destruct ls as [s|]; simpl.
  - intros [(oid2 & n2 & r & H2 & Hr & Hs) Hmax]. split.
    + destruct (decide (oid2 = oid)) as [->|Hne].
      * assert (n2 = n) as -> by congruence. rewrite Hr in Hrow. simpl in Hrow.
        apply fmap_Some in Hrow as (r' & Hr' & Heq). exists oid, n', r'.
        rewrite lookup_insert_eq. simpl in Heq. by rewrite <- Heq.
      * exists oid2, n2, r. by rewrite lookup_insert_ne.
    + intros oid3 n3 r3 [[-> <-]|[? H3]]%lookup_insert_Some Hr3; [|eauto].
      rewrite Hr3 in Hrow. simpl in Hrow. symmetry in Hrow.
      apply fmap_Some in Hrow as (r' & Hr' & Heq). simpl in Heq. rewrite Heq. eauto.
  - intros Hnone oid3 n3 [[-> <-]|[? H3]]%lookup_insert_Some; [|eauto].
    rewrite (Hnone _ _ Hn) in Hrow. simpl in Hrow. by destruct (output_row oid3 n').
Qed.

Lemma latest_new o oid n r :
  output_row oid n = Some r ->
  (forall oid' n' r', o !! oid' = Some n' -> output_row oid' n' = Some r' -> r'.1.2 <= r.1.2) ->
  is_latest (<[oid := n]> o) (Some r.1.2).
Proof.
  intros Hr Hmax. split.
  - exists oid, n, r. by rewrite lookup_insert_eq.
  - intros oid3 n3 r3 [[-> <-]|[? H3]]%lookup_insert_Some Hr3; [|eauto]. by simplify_eq.
Qed.

(** The position a new output gets is at least every position in use. *)
Lemma next_seq_bound o :
  map_Forall (fun _ => output_ok) o ->
  is_u64 (next_seq (scan_output_order o)) /\
  forall oid n r, o !! oid = Some n -> output_row oid n = Some r ->
    r.1.2 <= next_seq (scan_output_order o) /\
    (next_seq (scan_output_order o) < u64_max -> r.1.2 < next_seq (scan_output_order o)).
Proof.
  intros Hok. destruct (scan_is_latest o) as [He Hl]. rewrite He. unfold is_u64, u64_max.
  destruct (latest_seq (scan_output_order o)) as [s|]; simpl in *.
  - destruct Hl as [(oid & n & r & Hn & Hr & <-) Hmax].
    destruct (output_ok_row oid n (Hok _ _ Hn)) as (s & m & Hr' & Hs). simplify_eq. simpl in *.
    unfold is_u64, saturating_add_u64, u64_max in *. split; [lia|].
    intros oid2 n2 r2 H2 Hr2. specialize (Hmax _ _ _ H2 Hr2). lia.
  - split; [lia|]. intros oid n r Hn Hr. by rewrite (Hl _ _ Hn) in Hr.
Qed.

Lemma seq_entry_seq s : read_output_seq (NMap (seq_entry s)) = Some s.
Proof. done. Qed.

Lemma place_output_ok o oid v :
  json_ok v = true -> map_Forall (fun _ => output_ok) o ->
  map_Forall (fun _ => output_ok) (place_output o oid v).
Proof.
  intros Hv Hok. destruct (next_seq_bound o Hok) as [Hb _]. apply map_Forall_insert_2; [|done].
  destruct (o !! oid) as [n|] eqn:Hn; [|by eapply output_ok_update; [|apply seq_entry_seq|]].
  destruct (Hok _ _ Hn) as (e & s & m & -> & Hs & Hbs & _). by eapply output_ok_update.
Qed.

(** The cache entry the writers leave is what a scan would find. *)
Lemma scan_place_output o oid v :
  json_ok v = true -> map_Forall (fun _ => output_ok) o ->
  scan_output_order (place_output o oid v) =
    match o !! oid with
    | Some _ => scan_output_order o
    | None => order_of (Some (next_seq (scan_output_order o)))
    end.
Proof.
  intros Hv Hok. unfold place_output. destruct (o !! oid) as [n|] eqn:Hn.
  - destruct (Hok _ _ Hn) as (e & s & m & -> & Hs & Hbs & Hm).
    destruct (scan_is_latest o) as [He Hl]. rewrite He at 1. apply scan_from_latest.
    eapply latest_replace; [done| |done]. rewrite (row_update _ _ _ s) by done.
    unfold output_row. by rewrite Hs; simpl; rewrite Hm.
  - apply scan_from_latest.
    assert (output_row oid (NMap (update_json_at_key (seq_entry (next_seq (scan_output_order o))) "manifest" v))
      = Some (oid, next_seq (scan_output_order o), v)) as Hr by (by apply row_update).
    apply (latest_new _ _ _ _ Hr). simpl. intros. by eapply next_seq_bound.
Qed.

(** ** Lemmas: outputs as an ordered list *)

(** The abstract operation: replace an output in place, or add it at the end. *)
Definition upsert_output (l : list (string * json)) (oid : string) (manifest : json)
    : list (string * json) :=
  if decide (oid ∈ l.*1) then (fun x => if decide (x.1 = oid) then (oid, manifest) else x) <$> l
  else l ++ [(oid, manifest)].

Definition output_list (o : gmap string node) : list (string * json) :=
  (fun r => (r.1.1, r.2)) <$> output_entries_sorted o.

Lemma output_list_ids o oid :
  map_Forall (fun _ => output_ok) o -> oid ∈ (output_list o).*1 <-> is_Some (o !! oid).
Proof.
  intros Hok. unfold output_list. rewrite <- list_fmap_compose, list_elem_of_fmap. split.
  - intros (r & -> & (n & Hn & _)%elem_of_rows). simpl. by exists n.
  - intros [n Hn]. destruct (output_ok_row oid n (Hok _ _ Hn)) as (s & m & Hr & _).
    exists (oid, s, m). split; [done|]. apply elem_of_rows. by exists n.
Qed.

Lemma sorted_snoc (l : list (string * Z * json)) r :
  StronglySorted row_le l -> (forall x, x ∈ l -> row_le x r) -> StronglySorted row_le (l ++ [r]).
Proof.
  intros Hs Hr. apply StronglySorted_app_2; [|done|by repeat constructor].
  intros x y Hx ->%list_elem_of_singleton. auto.
Qed.

Lemma sorted_map f (l : list (string * Z * json)) :
  (forall x, (f x).1 = x.1) -> StronglySorted row_le l -> StronglySorted row_le (f <$> l).
Proof.
  intros Hf. induction 1 as [|x l Hs IH Hall]; simpl; constructor; [done|].
  rewrite Forall_fmap. eapply Forall_impl; [exact Hall|]. intros y. unfold row_le. simpl.
  by rewrite !Hf.
Qed.

Definition set_manifest (oid : string) (v : json) (x : string * Z * json) : string * Z * json :=
  if decide (x.1.1 = oid) then (x.1, v) else x.

Lemma rows_id o x : x ∈ rows o -> is_Some (o !! x.1.1).
Proof.
  unfold rows. intros ([k n] & Hin%elem_of_map_to_list & Hr)%list_elem_of_omap. simpl in *.
  rewrite (output_row_id _ _ _ Hr). by exists n.
Qed.

Lemma set_manifest_other oid v (l : list (string * Z * json)) :
  (forall x, x ∈ l -> x.1.1 <> oid) -> set_manifest oid v <$> l = l.
Proof.
  induction l as [|x l IH]; [done|]. intros Hx. cbn.
  change (set_manifest oid v x :: (set_manifest oid v <$> l) = x :: l).
  rewrite IH by (intros; apply Hx; by right).
  unfold set_manifest. rewrite decide_False; [done|]. apply Hx. by left.
Qed.

Lemma place_output_rows_old o oid v n :
  json_ok v = true -> o !! oid = Some n -> output_ok n ->
  output_entries_sorted (place_output o oid v) = set_manifest oid v <$> output_entries_sorted o.
Proof.
  intros Hv Hn (e & s & m & -> & Hs & Hbs & Hm). apply sorted_rows_unique.
  - unfold place_output. rewrite Hn, rows_insert, (row_update _ _ _ s) by done.
    unfold output_entries_sorted. rewrite merge_sort_Permutation. fold (rows o).
    rewrite (rows_delete o oid (NMap e) Hn).
    assert (output_row oid (NMap e) = Some (oid, s, m)) as ->.
    { unfold output_row. by rewrite Hs; simpl; rewrite Hm. }
    rewrite fmap_app, (set_manifest_other oid v (rows (delete oid o))).
    + cbn. unfold set_manifest. by rewrite decide_True.
    + intros x [n Hx]%rows_id Heq. by rewrite Heq, lookup_delete_eq in Hx.
  - apply sorted_map; [|apply (StronglySorted_merge_sort row_le)].
    intros x. unfold set_manifest. by case_decide.
Qed.

Lemma place_output_rows_new o oid v :
  json_ok v = true -> map_Forall (fun _ => output_ok) o -> o !! oid = None ->
  next_seq (scan_output_order o) < u64_max ->
  output_entries_sorted (place_output o oid v) =
    output_entries_sorted o ++ [(oid, next_seq (scan_output_order o), v)].
Proof.
  intros Hv Hok Hn Hroom. destruct (next_seq_bound o Hok) as [_ Hb].
  set (s := next_seq (scan_output_order o)) in *. apply sorted_rows_unique.
  - unfold place_output. fold s. rewrite Hn, rows_insert, (row_update _ _ _ s) by done.
    rewrite delete_id by done. unfold output_entries_sorted.
    rewrite merge_sort_Permutation. fold (rows o). by rewrite (comm (++)).
  - apply sorted_snoc; [apply (StronglySorted_merge_sort row_le)|].
    intros x (n & Hx & Hr)%elem_of_rows. left. simpl. by eapply Hb; [| |auto].
Qed.

Lemma place_output_list o oid v :
  json_ok v = true -> map_Forall (fun _ => output_ok) o ->
  (o !! oid = None -> next_seq (scan_output_order o) < u64_max) ->
  output_list (place_output o oid v) = upsert_output (output_list o) oid v.
Proof.
  intros Hv Hok Hroom. unfold upsert_output. destruct (o !! oid) as [n|] eqn:Hn.
  - rewrite decide_True by (by apply output_list_ids; [|exists n]).
    unfold output_list. rewrite (place_output_rows_old _ _ _ n); [|done..|by apply (Hok oid)].
    rewrite <- !list_fmap_compose. apply list_fmap_ext. intros _ x _. unfold set_manifest. simpl.
    case_decide; [by subst|done].
  - rewrite decide_False by (rewrite output_list_ids by done; rewrite Hn; by intros [??]).
    unfold output_list. rewrite place_output_rows_new by auto. by rewrite fmap_app.
Qed.

(** ** Lemmas: the cache is never part of the tree *)

(** Writers that do not consult the cache commute with replacing it. *)
Lemma add_index_with_cache did eid oid c d :
  add_display_index_entry did eid oid (with_cache c d) =
  with_cache c (add_display_index_entry did eid oid d).
Proof. unfold add_display_index_entry. rewrite get_map_with_cache. by case_match. Qed.

Lemma remove_index_with_cache did eid oid c d :
  remove_display_index_entry did eid oid (with_cache c d) =
  with_cache c (remove_display_index_entry did eid oid d).
Proof.
  unfold remove_display_index_entry. rewrite get_map_with_cache. case_match; [|done].
  case_match; [|done]. by case_match.
Qed.

Lemma put_output_with_cache eid oid e c d :
  put_output eid oid e (with_cache c d) = with_cache c (put_output eid oid e d).
Proof. unfold put_output. by rewrite put_outputs_with_cache. Qed.

Lemma write_manifest_with_cache eid oid e v c d :
  write_manifest eid oid e v (with_cache c d) = with_cache c (write_manifest eid oid e v d).
Proof.
  unfold write_manifest.
  destruct (read_output_manifest (NMap e) ≫= display_id_for_manifest), (display_id_for_manifest v);
    by rewrite ?remove_index_with_cache, ?put_output_with_cache, ?add_index_with_cache.
Qed.

Lemma write_manifest_index eid oid e v d :
  exists d1 d2, index_only d d1 /\ index_only d2 (write_manifest eid oid e v d) /\
    d2 = put_output eid oid (update_json_at_key e "manifest" v) d1.
Proof.
  unfold write_manifest.
  exists (match read_output_manifest (NMap e) ≫= display_id_for_manifest with
    | Some did => remove_display_index_entry did eid oid d | None => d end).
  eexists. split_and!; [| |reflexivity].
  - destruct (read_output_manifest (NMap e) ≫= _); [apply remove_index_only|by left].
  - destruct (display_id_for_manifest v); [apply add_index_only|by left].
Qed.

Lemma index_only_has d d' eid : index_only d d' -> has_execution eid d' <-> has_execution eid d.
Proof. intros H. unfold has_execution. apply index_only_facts in H as (_ & H & _). by rewrite H. Qed.

Lemma put_output_outputs eid oid e d x :
  has_execution eid d ->
  exec_outputs x (put_output eid oid e d) =
    if decide (x = eid) then <[oid := NMap e]> (exec_outputs eid d) else exec_outputs x d.
Proof. intros H. unfold put_output. by rewrite exec_outputs_put. Qed.

(** What writing a manifest does to outputs, cache and executions. *)
Lemma write_manifest_view eid oid e v d :
  has_execution eid d ->
  (forall x, exec_outputs x (write_manifest eid oid e v d) =
     if decide (x = eid) then <[oid := NMap (update_json_at_key e "manifest" v)]> (exec_outputs eid d)
     else exec_outputs x d) /\
  output_order_cache (write_manifest eid oid e v d) = output_order_cache d /\
  (forall x, has_execution x (write_manifest eid oid e v d) <-> has_execution x d).
Proof.
  intros Hh. destruct (write_manifest_index eid oid e v d) as (d1 & d2 & H1 & H2 & ->).
  pose proof (index_only_has _ _ eid H1) as Hh1.
  destruct (index_only_facts _ _ H1) as (_ & _ & Ho1 & Hc1).
  destruct (index_only_facts _ _ H2) as (_ & _ & Ho2 & Hc2).
  split_and!.
  - intros x. rewrite Ho2, put_output_outputs by tauto. by rewrite !Ho1.
  - rewrite Hc2. unfold put_output. by rewrite cache_put_outputs, Hc1.
  - intros x. rewrite (index_only_has _ _ x H2). unfold put_output.
    by rewrite has_execution_put_outputs, (index_only_has _ _ x H1).
Qed.

(** ** The invariant of outputs and positions *)

(** Every output has a position and a readable manifest, and every cached position
    is the one a scan would find. *)
Record outputs_wf (d : RuntimeStateDoc) : Prop := {
  wf_outputs : forall eid, map_Forall (fun _ => output_ok) (exec_outputs eid d);
  wf_cache : forall eid c, output_order_cache d !! eid = Some c ->
    c = scan_output_order (exec_outputs eid d);
}.

Lemma outputs_wf_new : outputs_wf new_runtime_doc.
Proof.
  split; [|done]. intros eid. assert (exec_outputs eid new_runtime_doc = ∅) as ->; [|done].
  unfold exec_outputs, get_output_map, get_execution_entry.
  assert (get_map "executions" new_runtime_doc = Some ∅) as -> by done. simpl.
  by rewrite lookup_empty.
Qed.

(** The invariant after the outputs of one execution changed. *)
Lemma outputs_wf_update d d' eid :
  outputs_wf d ->
  (forall x, x <> eid -> exec_outputs x d' = exec_outputs x d) ->
  map_Forall (fun _ => output_ok) (exec_outputs eid d') ->
  (forall x, x <> eid -> output_order_cache d' !! x = output_order_cache d !! x) ->
  (forall c, output_order_cache d' !! eid = Some c -> c = scan_output_order (exec_outputs eid d')) ->
  outputs_wf d'.
Proof.
  intros [Ho Hc] Hx He Hcx Hce. split; intros x.
  - destruct (decide (x = eid)) as [->|Hne]; [done|]. by rewrite Hx.
  - destruct (decide (x = eid)) as [->|Hne]; [apply Hce|]. rewrite Hx, Hcx by done. apply Hc.
Qed.

Lemma outputs_wf_same d d' :
  outputs_wf d -> (forall x, exec_outputs x d' = exec_outputs x d) ->
  output_order_cache d' = output_order_cache d -> outputs_wf d'.
Proof. intros [Ho Hc] Hx He. split; intros x; rewrite Hx; [done|]. rewrite He. apply Hc. Qed.

Lemma outputs_wf_index d d' : outputs_wf d -> index_only d d' -> outputs_wf d'.
Proof. intros Hwf (_ & _ & H & Hc)%index_only_facts. by eapply outputs_wf_same. Qed.

Lemma output_order_spec eid d :
  outputs_wf d ->
  exists c', output_order eid d = (with_cache c' d, scan_output_order (exec_outputs eid d)) /\
    outputs_wf (with_cache c' d).
Proof.
  intros [Ho Hc]. unfold output_order. destruct (output_order_cache d !! eid) as [c|] eqn:Hcc.
  - exists (output_order_cache d). destruct d. simpl in *. by rewrite <- (Hc eid c Hcc).
  - eexists. split; [done|]. split; [done|]. simpl. intros x c.
    destruct (decide (x = eid)) as [->|Hne]; rewrite ?lookup_insert_eq, ?lookup_insert_ne by done;
      [by intros [= <-]|apply Hc].
Qed.

Lemma ensure_output_map_spec eid d :
  outputs_wf d -> has_execution eid d ->
  exists d1, ensure_output_map eid d = Some d1 /\ outputs_wf d1 /\ has_execution eid d1 /\
    (forall x, exec_outputs x d1 = exec_outputs x d) /\
    (forall key, key <> "executions" -> get_map key d1 = get_map key d) /\
    (forall x, has_execution x d1 <-> has_execution x d) /\
    (d1 = d \/ d1 = put_outputs eid ∅ d).
Proof.
  intros Hwf Hh. pose proof Hh as [e He]. unfold ensure_output_map. rewrite He.
  assert (exists d1, d1 = put_outputs eid ∅ d) as [d1 Hd1] by eauto.
  destruct (e !! "outputs") as [[|o| |]|] eqn:Ho; [|exists d; by split_and!; auto|..];
    (assert (exec_outputs eid d = ∅) as Hemp by
       (unfold exec_outputs; rewrite get_output_map_entry, He; simpl; by rewrite Ho));
    (assert (forall x, exec_outputs x d1 = exec_outputs x d) as Hx by
       (intros x; subst d1; rewrite exec_outputs_put by done; case_decide; by subst));
    (exists d1; subst d1; split_and!; [done| |by rewrite has_execution_put_outputs|done|
       intros; by rewrite get_map_put_outputs|intros; apply has_execution_put_outputs|by right]);
    (eapply outputs_wf_same; [done|done|apply cache_put_outputs]).
Qed.

Lemma next_output_seq_spec eid d :
  outputs_wf d ->
  exists c', next_output_seq eid d = (with_cache c' d, next_seq (scan_output_order (exec_outputs eid d))) /\
    outputs_wf (with_cache c' d).
Proof.
  intros Hwf. unfold next_output_seq. destruct (output_order_spec eid d Hwf) as (c & -> & H). eauto.
Qed.

Lemma get_output_entry_ok eid oid d :
  outputs_wf d ->
  match exec_outputs eid d !! oid with
  | Some n => exists e, get_output_entry eid oid d = Some e /\ n = NMap e
  | None => get_output_entry eid oid d = None
  end.
Proof.
  intros [Ho _]. unfold get_output_entry. destruct (exec_outputs eid d !! oid) as [n|] eqn:Hn; [|done].
  destruct (Ho eid _ _ Hn) as (e & _ & _ & -> & _). by exists e.
Qed.

(** ** Appending *)

(** The tree an append leaves, whatever the cache holds. *)
Definition place (eid oid : string) (v : json) (d : RuntimeStateDoc) : RuntimeStateDoc :=
  match get_output_entry eid oid d with
  | Some e => write_manifest eid oid e v d
  | None =>
      let e := seq_entry (next_seq (scan_output_order (exec_outputs eid d))) in
      write_manifest eid oid e v (put_output eid oid e d)
  end.

Lemma place_with_cache eid oid v c d : place eid oid v (with_cache c d) = with_cache c (place eid oid v d).
Proof.
  unfold place. change (get_output_entry eid oid (with_cache c d)) with (get_output_entry eid oid d).
  change (exec_outputs eid (with_cache c d)) with (exec_outputs eid d).
  destruct (get_output_entry eid oid d);
    by rewrite ?put_output_with_cache, write_manifest_with_cache.
Qed.

(** A document whose outputs are in order, whatever the cache. *)
Definition outputs_ok (d : RuntimeStateDoc) : Prop :=
  forall eid, map_Forall (fun _ => output_ok) (exec_outputs eid d).

Lemma get_output_entry_lookup eid oid d :
  outputs_ok d ->
  (exec_outputs eid d !! oid = None /\ get_output_entry eid oid d = None) \/
  (exists e, exec_outputs eid d !! oid = Some (NMap e) /\ get_output_entry eid oid d = Some e).
Proof.
  intros Ho. unfold get_output_entry. destruct (exec_outputs eid d !! oid) as [n|] eqn:Hn; [right|by left].
  destruct (Ho eid _ _ Hn) as (e & _ & _ & -> & _). by exists e.
Qed.

Lemma place_view eid oid v d :
  outputs_ok d -> has_execution eid d ->
  (forall x, exec_outputs x (place eid oid v d) =
     if decide (x = eid) then place_output (exec_outputs eid d) oid v else exec_outputs x d) /\
  output_order_cache (place eid oid v d) = output_order_cache d /\
  (forall x, has_execution x (place eid oid v d) <-> has_execution x d).
Proof.
  intros Ho Hh. unfold place, place_output.
  destruct (get_output_entry_lookup eid oid d Ho) as [[Hn ->]|(e & Hn & ->)]; rewrite Hn.
  - set (e := seq_entry _).
    assert (has_execution eid (put_output eid oid e d)) as Hh'
      by (unfold put_output; by apply has_execution_put_outputs).
    destruct (write_manifest_view eid oid e v _ Hh') as (H1 & H2 & H3). split_and!.
    + intros x. rewrite H1, !put_output_outputs by done.
      destruct (decide (x = eid)) as [->|]; [|done]. rewrite decide_True by done. apply insert_insert_eq.
    + rewrite H2. apply cache_put_outputs.
    + intros x. rewrite H3. apply has_execution_put_outputs.
  - by apply write_manifest_view.
Qed.

Lemma place_ok eid oid v d :
  json_ok v = true -> outputs_ok d -> has_execution eid d -> outputs_ok (place eid oid v d).
Proof.
  intros Hv Ho Hh x. destruct (place_view eid oid v d Ho Hh) as (-> & _ & _).
  case_decide; [by apply place_output_ok|done].
Qed.

Lemma scan_unpositioned o oid :
  o !! oid = None -> scan_output_order (<[oid := NMap ∅]> o) = scan_output_order o.
Proof.
  intros Hn. destruct (scan_is_latest o) as [He Hl]. rewrite He. apply scan_from_latest.
  destruct (latest_seq (scan_output_order o)) as [s|]; simpl in *.
  - destruct Hl as [(oid2 & n2 & r & H2 & Hr & Hs) Hmax]. split.
    + exists oid2, n2, r. rewrite lookup_insert_ne by congruence. done.
    + intros oid3 n3 r3 [[-> <-]|[? H3]]%lookup_insert_Some Hr3; [done|eauto].
  - intros oid3 n3 [[-> <-]|[? H3]]%lookup_insert_Some; [done|eauto].
Qed.

Lemma append_output_place eid v oid d d1 :
  outputs_wf d1 -> has_execution eid d1 -> json_ok v = true ->
  extract_output_id v = Some oid -> ensure_output_map eid d = Some d1 ->
  exists c', append_output eid v d = (with_cache c' (place eid oid v d1), Ok oid) /\
    outputs_wf (with_cache c' (place eid oid v d1)).
Proof.
  intros Hwf Hh Hv Hid Hens. unfold append_output. rewrite Hid, Hens.
  pose proof Hwf as [Ho Hc]. destruct (place_view eid oid v d1 Ho Hh) as (Hview & Hcache & _).
  assert (forall c', (forall x, x <> eid -> c' !! x = output_order_cache d1 !! x) ->
    (forall c, c' !! eid = Some c -> c = scan_output_order (place_output (exec_outputs eid d1) oid v)) ->
    outputs_wf (with_cache c' (place eid oid v d1))) as Hdone.
  { intros c' Hother Heid. eapply (outputs_wf_update d1 _ eid); [done| |by apply place_ok|exact Hother|].
    - intros x Hx. change (exec_outputs x (place eid oid v d1) = exec_outputs x d1).
      by rewrite Hview, decide_False.
    - intros c Hcc. change (c = scan_output_order (exec_outputs eid (place eid oid v d1))).
      rewrite Hview, decide_True by done. by apply Heid. }
  unfold place in *. destruct (get_output_entry_lookup eid oid d1 Ho) as [[Hn Hg]|(e & Hn & Hg)];
    rewrite Hg in *.
  - assert (exec_outputs eid (put_output eid oid ∅ d1) = <[oid := NMap ∅]> (exec_outputs eid d1)) as Hemp
      by (by rewrite put_output_outputs, decide_True).
    set (s := next_seq (scan_output_order (exec_outputs eid d1))) in *.
    assert (exists c', next_output_seq eid (put_output eid oid ∅ d1) =
      (with_cache c' (put_output eid oid ∅ d1), s) /\
      forall x, x <> eid -> c' !! x = output_order_cache d1 !! x) as (c' & -> & Hc').
    { unfold next_output_seq, output_order, put_output at 1. rewrite cache_put_outputs.
      destruct (output_order_cache d1 !! eid) as [c|] eqn:Hcc.
      - exists (output_order_cache (put_output eid oid ∅ d1)). split; [|unfold put_output; by rewrite cache_put_outputs].
        unfold s. rewrite <- (Hc _ _ Hcc). by destruct (put_output eid oid ∅ d1).
      - eexists. split; [by rewrite Hemp, scan_unpositioned|].
        intros x Hx. unfold put_output. rewrite lookup_insert_ne, cache_put_outputs by done. done. }
    exists (<[eid := mkOrder (saturating_add_u64 s 1) (Some s)]> c'). split.
    + unfold write_output_order_cache. rewrite put_output_with_cache.
      assert (put_output eid oid (seq_entry s) (put_output eid oid ∅ d1) = put_output eid oid (seq_entry s) d1)
        as ->. { unfold put_output at 1. rewrite Hemp, insert_insert_eq. apply put_outputs_twice. }
      rewrite !write_manifest_with_cache. done.
    + apply Hdone.
      * intros x Hx. rewrite lookup_insert_ne by done. by apply Hc'.
      * intros c. rewrite lookup_insert_eq, scan_place_output, Hn by done. by intros [= <-].
  - exists (output_order_cache d1). destruct (write_manifest eid oid e v d1) as [r c] eqn:Hw.
    simpl in Hcache. subst c. split; [done|]. apply Hdone; [done|].
    intros c Hcc. rewrite scan_place_output, Hn by done. by apply Hc.
Qed.

(** ** Batches *)

Definition place_all (eid : string) (d : RuntimeStateDoc) (l : list (json * string)) : RuntimeStateDoc :=
  foldl (fun d x => place eid x.2 x.1 d) d l.

(** Appending the manifests one at a time, with the answer of every call. *)
Fixpoint append_each (eid : string) (manifests : list json) (d : RuntimeStateDoc)
    : RuntimeStateDoc * list (result RuntimeStateError string) :=
  match manifests with
  | [] => (d, [])
  | v :: manifests =>
      let '(d, r) := append_output eid v d in
      let '(d, rs) := append_each eid manifests d in
      (d, r :: rs)
  end.

Lemma append_step_place eid v oid d latest :
  outputs_ok d -> has_execution eid d -> json_ok v = true ->
  append_step eid (d, next_seq (scan_output_order (exec_outputs eid d)), latest) (v, oid) =
    (place eid oid v d, next_seq (scan_output_order (exec_outputs eid (place eid oid v d))),
     match exec_outputs eid d !! oid with
     | Some _ => latest
     | None => Some (next_seq (scan_output_order (exec_outputs eid d)))
     end).
Proof.
  intros Ho Hh Hv. destruct (place_view eid oid v d Ho Hh) as (Hview & _ & _).
  rewrite Hview, decide_True, scan_place_output by done. unfold append_step, place.
  destruct (get_output_entry_lookup eid oid d Ho) as [[Hn ->]|(e & Hn & ->)]; rewrite Hn; [|done].
  simpl. do 3 f_equal. unfold put_output at 1.
  rewrite put_output_outputs, decide_True, insert_insert_eq by done. apply put_outputs_twice.
Qed.

(** What [append_outputs] has handed out so far agrees with a scan. *)
Definition handed_out (o0 o : gmap string node) (latest : option Z) : Prop :=
  scan_output_order o = match latest with Some _ => order_of latest | None => scan_output_order o0 end.

Lemma append_loop eid o0 l d latest :
  outputs_ok d -> has_execution eid d -> Forall (fun x => json_ok x.1 = true) l ->
  handed_out o0 (exec_outputs eid d) latest ->
  let d' := place_all eid d l in
  exists latest',
    foldl (append_step eid) (d, next_seq (scan_output_order (exec_outputs eid d)), latest) l =
      (d', next_seq (scan_output_order (exec_outputs eid d')), latest') /\
    handed_out o0 (exec_outputs eid d') latest' /\
    outputs_ok d' /\ has_execution eid d' /\ output_order_cache d' = output_order_cache d /\
    (forall x, x <> eid -> exec_outputs x d' = exec_outputs x d).
Proof.
  revert d latest. induction l as [|[v oid] l IH]; intros d latest Ho Hh Hall Hlat; [by exists latest|].
  apply Forall_cons in Hall as [Hv Hall]. simpl in Hv.
  destruct (place_view eid oid v d Ho Hh) as (Hview & Hcache & Hhas).
  cbn [foldl place_all snd fst]. rewrite append_step_place by done.
  destruct (IH (place eid oid v d) (match exec_outputs eid d !! oid with
    | Some _ => latest | None => Some (next_seq (scan_output_order (exec_outputs eid d))) end))
    as (latest' & Hfold & H1 & H2 & H3 & H4 & H5).
  - by apply place_ok.
  - by apply Hhas.
  - done.
  - unfold handed_out in *. rewrite Hview, decide_True, scan_place_output by done.
    by destruct (exec_outputs eid d !! oid).
  - exists latest'. split_and!; try done; [by rewrite Hcache in H4|].
    intros x Hx. rewrite H5, Hview, decide_False by done. done.
Qed.

Lemma ensure_present eid d : is_Some (get_output_map eid d) -> ensure_output_map eid d = Some d.
Proof.
  rewrite get_output_map_entry. unfold ensure_output_map.
  destruct (get_execution_entry eid d) as [[|e| |]|]; simpl; intros [o Ho]; try done.
  by destruct (e !! "outputs") as [[]|].
Qed.

Lemma output_map_has eid d : is_Some (get_output_map eid d) -> has_execution eid d.
Proof.
  rewrite get_output_map_entry. intros [o Ho]. unfold has_execution.
  destruct (get_execution_entry eid d) as [[|e| |]|]; try done. by exists e.
Qed.

Lemma get_output_map_index d d' eid : index_only d d' -> get_output_map eid d' = get_output_map eid d.
Proof. intros (_ & H & _)%index_only_facts. by rewrite !get_output_map_entry, H. Qed.

Lemma get_output_map_write eid oid e v d :
  has_execution eid d -> is_Some (get_output_map eid (write_manifest eid oid e v d)).
Proof.
  intros Hh. destruct (write_manifest_index eid oid e v d) as (d1 & d2 & H1 & H2 & ->).
  rewrite (get_output_map_index _ _ _ H2). unfold put_output.
  rewrite get_output_map_put_outputs, decide_True; [by eexists|done|by apply (index_only_has _ _ _ H1)].
Qed.

Lemma get_output_map_place eid oid v d :
  has_execution eid d -> is_Some (get_output_map eid (place eid oid v d)).
Proof.
  intros Hh. unfold place. case_match; apply get_output_map_write; [done|].
  unfold put_output. by apply has_execution_put_outputs.
Qed.

Lemma extract_output_ids_spec ms ids :
  extract_output_ids ms = Ok ids -> Forall2 (fun m oid => extract_output_id m = Some oid) ms ids.
Proof.
  revert ids. induction ms as [|m ms IH]; intros ids; simpl; [by intros [= <-]|].
  destruct (extract_output_id m) as [oid|] eqn:Hid; [|done].
  destruct (extract_output_ids ms) as [ids'|]; [|done]. intros [= <-]. constructor; auto.
Qed.

Lemma place_all_with_cache eid l c d : place_all eid (with_cache c d) l = with_cache c (place_all eid d l).
Proof.
  unfold place_all. revert d. induction l as [|x l IHl]; intros d; [done|]. cbn [foldl].
  rewrite place_with_cache. apply IHl.
Qed.

Lemma Forall_zip_json (ms : list json) (ids : list string) :
  Forall (fun v => json_ok v = true) ms -> Forall (fun x => json_ok x.1 = true) (zip ms ids).
Proof.
  intros Hall. apply Forall_lookup. intros i [v oid] Hi. rewrite Forall_lookup in Hall.
  apply lookup_zip_Some in Hi as [Hi _]. by eapply Hall.
Qed.

Lemma append_each_place eid ms ids d :
  outputs_wf d -> is_Some (get_output_map eid d) -> Forall (fun v => json_ok v = true) ms ->
  Forall2 (fun m oid => extract_output_id m = Some oid) ms ids ->
  exists c', append_each eid ms d = (with_cache c' (place_all eid d (zip ms ids)), Ok <$> ids) /\
    outputs_wf (append_each eid ms d).1.
Proof.
  intros Hwf Hm Hall Hids. revert d Hwf Hm.
  induction Hids as [|v oid ms ids Hid _ IH]; intros d Hwf Hm.
  { exists (output_order_cache d). by destruct d. }
  apply Forall_cons in Hall as [Hv Hall]. pose proof (output_map_has _ _ Hm) as Hh.
  destruct (append_output_place eid v oid d d Hwf Hh Hv Hid (ensure_present _ _ Hm)) as (c & Hap & Hwf').
  cbn [append_each]. rewrite Hap.
  destruct (IH Hall _ Hwf') as (c' & Hc' & Hwf2); [by apply get_output_map_place|].
  rewrite Hc' in Hwf2 |- *. exists c'. cbn [fst] in *.
  rewrite place_all_with_cache in Hwf2 |- *. done.
Qed.

Lemma append_outputs_place eid ms ids d :
  outputs_wf d -> is_Some (get_output_map eid d) -> Forall (fun v => json_ok v = true) ms ->
  extract_output_ids ms = Ok ids ->
  exists c', append_outputs eid ms d = (with_cache c' (place_all eid d (zip ms ids)), Ok ids) /\
    outputs_wf (with_cache c' (place_all eid d (zip ms ids))).
Proof.
  intros Hwf Hm Hall Hids. unfold append_outputs. rewrite Hids, ensure_present by done.
  destruct (next_output_seq_spec eid d Hwf) as (c & -> & Hwfc).
  change (exec_outputs eid d) with (exec_outputs eid (with_cache c d)).
  destruct (append_loop eid (exec_outputs eid d) (zip ms ids) (with_cache c d) None)
    as (latest & -> & Hlat & Hok & Hh & Hcache & Hother);
    [exact (wf_outputs _ Hwfc)|by apply output_map_has|..|done|].
  { by apply Forall_zip_json. }
  rewrite place_all_with_cache in *. set (d' := place_all eid d (zip ms ids)) in *.
  change (exec_outputs eid (with_cache c d')) with (exec_outputs eid d') in *.
  unfold handed_out in Hlat. pose proof Hwfc as [_ Hc].
  assert (forall c', (forall x, x <> eid -> c' !! x = c !! x) ->
    (forall k, c' !! eid = Some k -> k = scan_output_order (exec_outputs eid d')) ->
    outputs_wf (with_cache c' d')) as Hdone.
  { intros c' Hx He. apply (outputs_wf_update (with_cache c d) _ eid);
      [done|exact Hother|exact (Hok eid)|exact Hx|exact He]. }
  destruct latest as [s|].
  - unfold write_output_order_cache. eexists. split; [done|]. simpl. apply Hdone.
    + intros x Hx. by rewrite lookup_insert_ne.
    + intros k. rewrite lookup_insert_eq, Hlat. by intros [= <-].
  - exists c. split; [done|]. apply Hdone; [done|]. intros k Hk. rewrite Hlat. by apply Hc.
Qed.

(** ** Claims on appending *)

(** C29. Appending a burst of outputs in one batch leaves the same document as
    appending them one at a time: same tree, same ids reported call by call, and the
    position cache of both is the one a scan of the outputs would produce.  A batch with
    an output that has no id is refused as a whole. *)
Theorem batch_is_single_appends eid ms d :
  outputs_wf d -> is_Some (get_output_map eid d) -> Forall (fun v => json_ok v = true) ms ->
  let '(d1, answers) := append_each eid ms d in
  match extract_output_ids ms with
  | Ok ids =>
      exists d', append_outputs eid ms d = (d', Ok ids) /\ answers = Ok <$> ids /\
        root d' = root d1 /\ outputs_wf d' /\ outputs_wf d1
  | Err err => append_outputs eid ms d = (d, Err err)
  end.
Proof.
  intros Hwf Hm Hall. destruct (append_each eid ms d) as [d1 answers] eqn:Heach.
  destruct (extract_output_ids ms) as [ids|err] eqn:Hids.
  - destruct (append_outputs_place eid ms ids d) as (c & -> & Hwf1); [done..|].
    destruct (append_each_place eid ms ids d) as (c' & Heq & Hwf2);
      [done..|by apply extract_output_ids_spec|].
    eexists. split; [done|]. rewrite Heach in Heq, Hwf2. injection Heq as -> ->. done.
  - unfold append_outputs. by rewrite Hids.
Qed.

Lemma next_seq_place o oid v :
  json_ok v = true -> map_Forall (fun _ => output_ok) o ->
  next_seq (scan_output_order (place_output o oid v)) <= next_seq (scan_output_order o) + 1.
Proof.
  intros Hv Ho. rewrite scan_place_output by done. destruct (o !! oid); simpl; [lia|].
  unfold saturating_add_u64. lia.
Qed.

Lemma place_all_list eid l d :
  outputs_ok d -> has_execution eid d -> Forall (fun x => json_ok x.1 = true) l ->
  next_seq (scan_output_order (exec_outputs eid d)) + zlen l <= u64_max ->
  output_list (exec_outputs eid (place_all eid d l)) =
    foldl (fun acc x => upsert_output acc x.2 x.1) (output_list (exec_outputs eid d)) l.
Proof.
  revert d. induction l as [|[v oid] l IH]; intros d Ho Hh Hall Hb; [done|].
  apply Forall_cons in Hall as [Hv Hall]. simpl in Hv.
  destruct (place_view eid oid v d Ho Hh) as (Hview & _ & Hhas).
  unfold zlen in *. cbn [length] in Hb. rewrite Nat2Z.inj_succ in Hb.
  pose proof (next_seq_place (exec_outputs eid d) oid v Hv (Ho eid)) as Hnext.
  unfold place_all. cbn [foldl fst snd]. fold (place_all eid (place eid oid v d) l).
  rewrite IH; [|by apply place_ok|by apply Hhas|done|].
  - rewrite Hview, decide_True by done. rewrite place_output_list; [done..|]. intros _. lia.
  - rewrite Hview, decide_True by done. lia.
Qed.

Lemma get_outputs_list eid d : get_outputs eid d = (output_list (exec_outputs eid d)).*2.
Proof.
  unfold get_outputs, output_list, exec_outputs. destruct (get_output_map eid d) as [o|]; [|done].
  simpl. by rewrite <- list_fmap_compose.
Qed.

(** C9. Outputs refine an ordered list: appending a batch replaces, in place, the
    outputs whose id is already listed and adds the others at the end, in the
    order they were produced; what [get_outputs] reports is that list, and the
    outputs of every other execution are untouched. *)
Theorem outputs_refine_list eid ms ids d :
  outputs_wf d -> is_Some (get_output_map eid d) -> Forall (fun v => json_ok v = true) ms ->
  extract_output_ids ms = Ok ids ->
  next_seq (scan_output_order (exec_outputs eid d)) + zlen ms <= u64_max ->
  let d' := (append_outputs eid ms d).1 in
  output_list (exec_outputs eid d') =
    foldl (fun acc x => upsert_output acc x.2 x.1) (output_list (exec_outputs eid d)) (zip ms ids) /\
  get_outputs eid d' = (output_list (exec_outputs eid d')).*2 /\
  forall x, x <> eid -> exec_outputs x d' = exec_outputs x d.
Proof.
  intros Hwf Hm Hall Hids Hb.
  destruct (append_outputs_place eid ms ids d) as (c & -> & Hwf1); [done..|]. cbn [fst].
  assert (Forall (fun x : json * string => json_ok x.1 = true) (zip ms ids)) as Hall' by (by apply Forall_zip_json).
  pose proof (output_map_has _ _ Hm) as Hh. destruct Hwf as [Ho Hc].
  split_and!.
  - change (exec_outputs eid (with_cache c (place_all eid d (zip ms ids))))
      with (exec_outputs eid (place_all eid d (zip ms ids))).
    apply place_all_list; try done. unfold zlen in *. rewrite length_zip. lia.
  - apply get_outputs_list.
  - intros x Hx.
    destruct (append_loop eid (exec_outputs eid d) (zip ms ids) d None) as (_ & _ & _ & _ & _ & _ & Hother);
      [done..|]. by apply Hother.
Qed.

(** ** The display index *)

(** Execution ids are generated identifiers, never with a zero byte. *)
Definition no_nul (s : string) : bool := bool_decide (split_once nul s = None).

Lemma split_once_key eid oid : no_nul eid = true -> split_once nul (index_key eid oid) = Some (eid, oid).
Proof.
  unfold no_nul. rewrite bool_decide_eq_true. unfold index_key.
  induction eid as [|a eid IH]; [done|].
  change (String a eid +:+ String nul oid)%string with (String a (eid +:+ String nul oid)).
  cbn [split_once]. case_decide; [done|].
  destruct (split_once nul eid) as [[]|]; [done|]. intros _. by rewrite (IH eq_refl).
Qed.

Lemma split_once_Some s eid oid :
  split_once nul s = Some (eid, oid) -> s = index_key eid oid /\ no_nul eid = true.
Proof.
  unfold no_nul. rewrite bool_decide_eq_true. unfold index_key. revert eid.
  induction s as [|a s IH]; intros eid; cbn; [done|]. case_decide as Ha; [by intros [= <- <-]; subst|].
  destruct (split_once nul s) as [[l r]|]; [|done]. intros [= <- <-].
  destruct (IH l eq_refl) as [-> Hl]. cbn. by rewrite decide_False, Hl.
Qed.

Lemma index_key_inj eid oid eid' oid' :
  no_nul eid = true -> no_nul eid' = true ->
  index_key eid oid = index_key eid' oid' -> eid = eid' /\ oid = oid'.
Proof.
  intros H H' Heq. pose proof (split_once_key eid oid H) as Hk.
  rewrite Heq, split_once_key in Hk by done. by simplify_eq.
Qed.

Lemma prefix_nil s : String.prefix "" s = true.
Proof. by destruct s. Qed.

Lemma prefix_cons a s b t :
  String.prefix (String a s) (String b t) = bool_decide (a = b) && String.prefix s t.
Proof. simpl. by destruct (Ascii.ascii_dec a b), (bool_decide_reflect (a = b)). Qed.

Lemma string_app_cons a s t : (String a s +:+ t)%string = String a (s +:+ t).
Proof. done. Qed.

Lemma split_once_cons c a s :
  split_once c (String a s) = None <-> a <> c /\ split_once c s = None.
Proof.
  cbn [split_once]. case_decide; [naive_solver|]. destruct (split_once c s) as [[]|]; naive_solver.
Qed.

Lemma starts_with_key eid eid' oid :
  no_nul eid = true -> no_nul eid' = true ->
  starts_with (index_key eid "") (index_key eid' oid) = bool_decide (eid = eid').
Proof.
  unfold no_nul, starts_with, index_key. rewrite !bool_decide_eq_true. generalize nul as c. intros c.
  revert eid'. induction eid as [|a eid IH]; intros [|b eid'];
    rewrite ?split_once_cons, ?string_app_cons.
  - intros _ _. change ("" +:+ ?x)%string with x. rewrite prefix_cons, prefix_nil.
    by rewrite !bool_decide_eq_true_2.
  - intros _ [Hb _]. change ("" +:+ ?x)%string with x. rewrite prefix_cons.
    by rewrite !bool_decide_eq_false_2 by naive_solver.
  - intros [Ha _] _. change ("" +:+ ?x)%string with x. rewrite prefix_cons.
    by rewrite !bool_decide_eq_false_2 by naive_solver.
  - intros [_ He] [_ He']. rewrite prefix_cons, IH by done.
    destruct (decide (a = b)) as [->|Hab].
    + rewrite (bool_decide_eq_true_2 (b = b)) by done. apply bool_decide_ext. naive_solver.
    + rewrite (bool_decide_eq_false_2 (a = b)) by done. symmetry. apply bool_decide_eq_false_2. naive_solver.
Qed.

Definition index_entries (did : string) (d : RuntimeStateDoc) : gmap string node :=
  match get_map "display_index" d ≫= (fun idx => idx !! did) with
  | Some (NMap entries) => entries
  | _ => ∅
  end.

Definition has_index (d : RuntimeStateDoc) : Prop := is_Some (get_map "display_index" d).

Lemma index_entries_add did eid oid d x :
  has_index d ->
  has_index (add_display_index_entry did eid oid d) /\
  index_entries x (add_display_index_entry did eid oid d) =
    if decide (x = did) then <[index_key eid oid := NScalar (SBoolean true)]> (index_entries did d)
    else index_entries x d.
Proof.
  intros [idx Hi]. unfold has_index, index_entries, add_display_index_entry. rewrite Hi.
  rewrite get_map_set_root, decide_True by done. split; [by eexists|]. simpl.
  case_decide; [subst; rewrite lookup_insert_eq; by destruct (idx !! did) as [[]|]|].
  by rewrite lookup_insert_ne.
Qed.

Lemma index_entries_remove did eid oid d x :
  has_index d ->
  has_index (remove_display_index_entry did eid oid d) /\
  index_entries x (remove_display_index_entry did eid oid d) =
    if decide (x = did) then delete (index_key eid oid) (index_entries did d)
    else index_entries x d.
Proof.
  intros [idx Hi]. unfold has_index, index_entries, remove_display_index_entry. rewrite Hi. simpl.
  destruct (idx !! did) as [[|es| |]|] eqn:Hd;
    try (rewrite Hi; simpl; split; [by eexists|]; case_decide; [subst; by rewrite Hd, delete_empty|done]).
  rewrite get_map_set_root, decide_True by done. split; [by eexists|]. simpl.
  destruct (decide (delete (index_key eid oid) es = ∅)) as [Hemp|Hne]; case_decide.
  - subst. by rewrite lookup_delete_eq, Hemp.
  - by rewrite lookup_delete_ne.
  - subst. by rewrite lookup_insert_eq.
  - by rewrite lookup_insert_ne.
Qed.

Lemma index_entries_remove_all eid d x :
  has_index d ->
  has_index (remove_display_index_entries_for_execution eid d) /\
  index_entries x (remove_display_index_entries_for_execution eid d) =
    filter (fun y => starts_with (index_key eid "") y.1 = false) (index_entries x d).
Proof.
  intros [idx Hi]. unfold has_index, index_entries, remove_display_index_entries_for_execution.
  rewrite Hi, get_map_set_root, decide_True by done. split; [by eexists|]. simpl.
  rewrite lookup_omap. destruct (idx !! x) as [[|es| |]|]; simpl; rewrite ?map_filter_empty; try done.
  by case_decide.
Qed.

(** ** The index is exact *)

(** Exactly the outputs whose manifest carries a display id are indexed under it. *)
Record index_ok (d : RuntimeStateDoc) : Prop := {
  ix_present : has_index d;
  ix_exact : forall did eid oid, no_nul eid = true ->
    is_Some (index_entries did d !! index_key eid oid) <->
    (get_output eid oid d ≫= display_id_for_manifest) = Some did;
}.

Lemma index_ok_same d d' :
  index_ok d -> get_map "display_index" d' = get_map "display_index" d ->
  (forall eid oid, get_output eid oid d' = get_output eid oid d) -> index_ok d'.
Proof.
  intros [Hp Hx] Hi Ho. split; [unfold has_index; by rewrite Hi|].
  intros did eid oid Hn. unfold index_entries. rewrite Hi, Ho. by apply Hx.
Qed.

Lemma get_output_outputs d d' eid oid :
  exec_outputs eid d' = exec_outputs eid d -> get_output eid oid d' = get_output eid oid d.
Proof. intros H. unfold get_output, get_output_entry. by rewrite H. Qed.

Lemma get_output_write eid oid e v d x y :
  has_execution eid d -> json_ok v = true ->
  get_output x y (write_manifest eid oid e v d) =
    if decide (x = eid /\ y = oid) then Some v else get_output x y d.
Proof.
  intros Hh Hv. destruct (write_manifest_view eid oid e v d Hh) as (Hview & _ & _).
  unfold get_output, get_output_entry. rewrite Hview.
  destruct (decide (x = eid)) as [->|Hx]; [|rewrite decide_False by tauto; done].
  destruct (decide (y = oid)) as [->|Hy].
  - rewrite lookup_insert_eq, decide_True by done. simpl. by apply read_manifest_update.
  - rewrite lookup_insert_ne by done. by rewrite decide_False by tauto.
Qed.

Lemma index_ok_write eid oid e v d :
  index_ok d -> has_execution eid d -> json_ok v = true -> no_nul eid = true ->
  get_output eid oid d = read_output_manifest (NMap e) ->
  index_ok (write_manifest eid oid e v d).
Proof.
  intros [Hp Hx] Hh Hv Hnul Hold.
  assert (exists d1, has_index d1 /\ (forall did, index_entries did d1 =
      if decide ((read_output_manifest (NMap e) ≫= display_id_for_manifest) = Some did)
      then delete (index_key eid oid) (index_entries did d) else index_entries did d) /\
    write_manifest eid oid e v d =
      match display_id_for_manifest v with
      | Some did => add_display_index_entry did eid oid
          (put_output eid oid (update_json_at_key e "manifest" v) d1)
      | None => put_output eid oid (update_json_at_key e "manifest" v) d1 end)
    as (d1 & Hp1 & H1 & Hw).
  { unfold write_manifest. destruct (read_output_manifest (NMap e) ≫= _) as [did0|].
    - eexists. split; [by apply (index_entries_remove did0 eid oid d "")|]. split; [|done].
      intros did. destruct (index_entries_remove did0 eid oid d did Hp) as [_ ->].
      destruct (decide (did = did0)) as [->|]; [by rewrite decide_True|by rewrite decide_False by congruence].
    - exists d. split_and!; [done| |done]. intros did. by rewrite decide_False. }
  set (d2 := put_output eid oid (update_json_at_key e "manifest" v) d1) in *.
  assert (has_index d2 /\ forall did, index_entries did d2 = index_entries did d1) as [Hp2 H2].
  { unfold has_index, index_entries, d2, put_output. by rewrite !get_map_put_outputs. }
  assert (has_index (write_manifest eid oid e v d) /\ forall did,
    index_entries did (write_manifest eid oid e v d) =
      if decide (display_id_for_manifest v = Some did)
      then <[index_key eid oid := NScalar (SBoolean true)]> (index_entries did d1)
      else index_entries did d1) as [Hp3 H3].
  { rewrite Hw. destruct (display_id_for_manifest v) as [did0|].
    - split; [by apply (index_entries_add did0 eid oid d2 "")|]. intros did.
      destruct (index_entries_add did0 eid oid d2 did Hp2) as [_ ->]. rewrite !H2.
      destruct (decide (did = did0)) as [->|]; [by rewrite decide_True|by rewrite decide_False by congruence].
    - split; [done|]. intros did. by rewrite decide_False, H2. }
  split; [done|]. intros did eid' oid' Hnul'. rewrite H3, H1, get_output_write by done.
  destruct (decide (eid' = eid /\ oid' = oid)) as [[-> ->]|Hne]; simpl.
  - case_decide as Hd; [rewrite lookup_insert_eq; split; [done|by eexists]|].
    split; [|done]. intros Hs. exfalso. revert Hs. case_decide as Hd'.
    + rewrite lookup_delete_eq. by intros [? ?].
    + rewrite Hx by done. by rewrite Hold.
  - assert (index_key eid oid <> index_key eid' oid') as Hk.
    { intros [-> ->]%index_key_inj; tauto. }
    rewrite <- Hx by done.
    repeat case_decide; by rewrite ?lookup_insert_ne, ?lookup_delete_ne by done.
Qed.

(** ** Every operation keeps the invariants *)

Lemma index_ok_place eid oid v d :
  outputs_ok d -> index_ok d -> has_execution eid d -> json_ok v = true -> no_nul eid = true ->
  index_ok (place eid oid v d).
Proof.
  intros Ho Hx Hh Hv Hn. unfold place.
  destruct (get_output_entry_lookup eid oid d Ho) as [[Hl Hg]|(e & Hl & Hg)]; rewrite Hg.
  - set (e := seq_entry _).
    assert (forall x y, get_output x y (put_output eid oid e d) = get_output x y d) as Hsame.
    { intros x y. unfold get_output, get_output_entry. rewrite put_output_outputs by done.
      destruct (decide (x = eid)) as [->|]; [|done]. destruct (decide (y = oid)) as [->|].
      - by rewrite lookup_insert_eq, Hl.
      - by rewrite lookup_insert_ne. }
    apply index_ok_write; [|unfold put_output; by apply has_execution_put_outputs|done..|].
    + eapply index_ok_same; [done| |done]. unfold put_output. by rewrite get_map_put_outputs.
    + rewrite Hsame. unfold get_output. by rewrite Hg.
  - apply index_ok_write; [done..|]. unfold get_output. by rewrite Hg.
Qed.

Lemma wf_outputs_ok d : outputs_wf d -> outputs_ok d.
Proof. by intros [Ho _]. Qed.

Record runtime_wf (d : RuntimeStateDoc) : Prop := {
  rw_outputs : outputs_wf d;
  rw_index : index_ok d;
}.

Lemma index_ok_cache c d : index_ok d -> index_ok (with_cache c d).
Proof. intros [Hp Hx]. split; [exact Hp|exact Hx]. Qed.

Lemma has_or_not eid d : has_execution eid d \/ ensure_output_map eid d = None.
Proof.
  unfold has_execution, ensure_output_map.
  destruct (get_execution_entry eid d) as [[|e| |]|]; [by right|left; by eexists|by right..].
Qed.

Lemma index_ok_ensure d d1 :
  index_ok d -> (forall x, exec_outputs x d1 = exec_outputs x d) ->
  (forall key, key <> "executions" -> get_map key d1 = get_map key d) -> index_ok d1.
Proof.
  intros Hx Ho Hg. eapply index_ok_same; [done|by apply Hg|].
  intros x y. by apply get_output_outputs.
Qed.

Lemma append_output_wf eid v d :
  runtime_wf d -> json_ok v = true -> no_nul eid = true -> runtime_wf (append_output eid v d).1.
Proof.
  intros [Hwf Hx] Hv Hn. destruct (extract_output_id v) as [oid|] eqn:Hid;
    [|by unfold append_output; rewrite Hid].
  destruct (has_or_not eid d) as [Hh|Hno]; [|by unfold append_output; rewrite Hid, Hno].
  destruct (ensure_output_map_spec eid d Hwf Hh) as (d1 & Hens & Hwf1 & Hh1 & Ho1 & Hg1 & _).
  destruct (append_output_place eid v oid d d1) as (c & -> & Hwf2); [done..|]. split; [done|].
  apply index_ok_cache, index_ok_place; try done; [by apply wf_outputs_ok|]. by apply (index_ok_ensure d).
Qed.

Lemma place_all_wf eid l d :
  outputs_ok d -> index_ok d -> has_execution eid d -> Forall (fun x => json_ok x.1 = true) l ->
  no_nul eid = true -> index_ok (place_all eid d l).
Proof.
  intros Ho Hx Hh Hall Hn. revert d Ho Hx Hh. induction Hall as [|[v oid] l Hv _ IH]; intros d Ho Hx Hh; [done|].
  unfold place_all. cbn [foldl fst snd]. apply IH; [by apply place_ok|by apply index_ok_place|].
  by apply (place_view eid oid v d Ho Hh).
Qed.

Lemma append_outputs_wf eid ms d :
  runtime_wf d -> Forall (fun v => json_ok v = true) ms -> no_nul eid = true ->
  runtime_wf (append_outputs eid ms d).1.
Proof.
  intros [Hwf Hx] Hall Hn. destruct (extract_output_ids ms) as [ids|] eqn:Hids;
    [|by unfold append_outputs; rewrite Hids].
  destruct (has_or_not eid d) as [Hh|Hno]; [|by unfold append_outputs; rewrite Hids, Hno].
  destruct (ensure_output_map_spec eid d Hwf Hh) as (d1 & Hens & Hwf1 & Hh1 & Ho1 & Hg1 & _ & Hor).
  assert (is_Some (get_output_map eid d1)) as Hm1.
  { revert Hens. destruct Hh as [e He]. unfold ensure_output_map. rewrite He.
    destruct (e !! "outputs") as [[|o| |]|] eqn:Hoo; intros [= <-];
      try (rewrite get_output_map_put_outputs by (by exists e); rewrite decide_True by done; by eexists).
    rewrite get_output_map_entry, He. simpl. rewrite Hoo. by eexists. }
  assert (append_outputs eid ms d = append_outputs eid ms d1) as ->.
  { unfold append_outputs. by rewrite Hids, Hens, (ensure_present _ _ Hm1). }
  destruct (append_outputs_place eid ms ids d1) as (c & -> & Hwf2); [done..|]. split; [done|].
  apply index_ok_cache, place_all_wf; try done; [by apply wf_outputs_ok|by apply (index_ok_ensure d)|].
  by apply Forall_zip_json.
Qed.

Lemma replace_output_wf eid oid v d :
  runtime_wf d -> json_ok v = true -> no_nul eid = true -> runtime_wf (replace_output eid oid v d).1.
Proof.
  intros Hrw Hv Hn. pose proof Hrw as [[Ho Hc] Hx]. unfold replace_output.
  destruct (get_output_entry_lookup eid oid d Ho) as [[Hl Hg]|(e & Hl & Hg)]; rewrite Hg; [done|].
  cbn [fst]. assert (has_execution eid d) as Hh.
  { apply output_map_has. revert Hl. unfold exec_outputs. by destruct (get_output_map eid d). }
  assert (write_manifest eid oid e v d = place eid oid v d) as -> by (unfold place; by rewrite Hg).
  destruct (place_view eid oid v d Ho Hh) as (Hview & Hcache & _).
  split; [|by apply index_ok_place].
  apply (outputs_wf_update d _ eid); [done| |by apply place_ok|by rewrite Hcache|].
  - intros x Hne. by rewrite Hview, decide_False.
  - rewrite Hcache, Hview, decide_True, scan_place_output, Hl by done. apply Hc.
Qed.

Lemma json_ok_object_2 (m : gmap string json) :
  map_Forall (fun _ v => json_ok v = true) m -> json_ok (JObject m) = true.
Proof.
  cbn [json_ok]. apply (map_fold_weak_ind (fun b (m : gmap string json) =>
    map_Forall (fun _ v => json_ok v = true) m -> b = true)); [done|].
  intros k v m' b Hk IH [Hv Hm]%map_Forall_insert; [|done]. by rewrite Hv, IH.
Qed.

Lemma patched_ok existing v : json_ok v = true -> json_ok (patched existing v) = true.
Proof.
  intros Hv. unfold patched. destruct (json_get existing "output_id") as [[]|]; try done.
  destruct v; try done. case_decide; [done|]. apply json_ok_object_2, map_Forall_insert_2; [done|].
  by apply json_ok_object.
Qed.

Lemma match_stream_cache eid known d :
  outputs_wf d -> exists c m, match_stream eid known d = (with_cache c d, m) /\ outputs_wf (with_cache c d).
Proof.
  intros Hwf. assert (with_cache (output_order_cache d) d = d) as Hid by (by destruct d).
  assert (forall m : stream_match, exists c m', (d, m) = (with_cache c d, m') /\ outputs_wf (with_cache c d)) as Hd.
  { intros m. exists (output_order_cache d), m. by rewrite Hid. }
  unfold match_stream. destruct known as [st|]; [|apply Hd].
  destruct (get_output_entry eid (so_output_id st) d) as [e|]; [|apply Hd].
  unfold output_is_latest. destruct (read_output_seq (NMap e)); [|apply Hd].
  destruct (output_order_spec eid d Hwf) as (c & -> & Hwf').
  destruct (bool_decide _); [|by eauto]. destruct (read_output_manifest (NMap e)); [|by eauto].
  case_decide; by eauto.
Qed.

Lemma upsert_stream_output_wf eid v known d :
  runtime_wf d -> json_ok v = true -> no_nul eid = true ->
  runtime_wf (upsert_stream_output eid v known d).1.
Proof.
  intros Hrw Hv Hn. pose proof Hrw as [Hwf Hx]. unfold upsert_stream_output.
  destruct (extract_output_id v) as [oid|]; [|done].
  destruct (has_or_not eid d) as [Hh| ->]; [|done].
  destruct (ensure_output_map_spec eid d Hwf Hh) as (d1 & -> & Hwf1 & Hh1 & Ho1 & Hg1 & _).
  destruct (match_stream_cache eid known d1 Hwf1) as (c & m & -> & Hwf2).
  assert (runtime_wf (with_cache c d1)) as Hrw2 by (split; [done|]; by apply (index_ok_ensure d)).
  pose proof (append_output_wf eid v _ Hrw2 Hv Hn) as Happ.
  destruct m, known as [st|]; try (by destruct (append_output eid v (with_cache c d1)) as [? []]).
  pose proof (replace_output_wf eid (so_output_id st) (patched existing v) _ Hrw2
    (patched_ok _ _ Hv) Hn) as Hrep.
  by destruct (replace_output eid (so_output_id st) (patched existing v) (with_cache c d1)) as [? []].
Qed.

Lemma set_step_place eid oid v i d :
  outputs_ok d -> has_execution eid d -> exec_outputs eid d !! oid = None ->
  next_seq (scan_output_order (exec_outputs eid d)) = i ->
  match display_id_for_manifest v with
  | Some did => add_display_index_entry did eid oid
      (put_output eid oid (update_json_at_key (seq_entry i) "manifest" v) d)
  | None => put_output eid oid (update_json_at_key (seq_entry i) "manifest" v) d
  end = place eid oid v d.
Proof.
  intros Ho Hh Hl Hi. unfold place.
  destruct (get_output_entry_lookup eid oid d Ho) as [[_ ->]|(e & Hl' & _)]; [|congruence].
  rewrite Hi. unfold write_manifest. change (read_output_manifest (NMap (seq_entry i))) with (@None json).
  cbn [mbind option_bind].
  assert (forall e e', put_output eid oid e (put_output eid oid e' d) = put_output eid oid e d) as Htw.
  { intros e e'. unfold put_output at 1. rewrite put_output_outputs, decide_True, insert_insert_eq by done.
    apply put_outputs_twice. }
  by rewrite Htw.
Qed.

Lemma set_outputs_from_place eid ms ids i latest d :
  outputs_ok d -> has_execution eid d ->
  Forall2 (fun m oid => extract_output_id m = Some oid) ms ids ->
  Forall (fun v => json_ok v = true) ms -> NoDup ids ->
  (forall oid, oid ∈ ids -> exec_outputs eid d !! oid = None) ->
  0 <= i -> i + zlen ms <= u64_max ->
  scan_output_order (exec_outputs eid d) = mkOrder i latest ->
  let d' := place_all eid d (zip ms ids) in
  exists latest',
    set_outputs_from eid i ms latest d = (d', Ok latest') /\
    scan_output_order (exec_outputs eid d') = mkOrder (i + zlen ms) latest'.
Proof.
  intros Ho Hh Hids. revert i latest d Ho Hh. induction Hids as [|v oid ms ids Hid _ IH];
    intros i latest d Ho Hh Hall Hnd Hfresh Hi Hb Hscan.
  { exists latest. split; [done|]. simpl. unfold zlen in *. simpl in *. by rewrite Z.add_0_r. }
  apply Forall_cons in Hall as [Hv Hall]. apply NoDup_cons in Hnd as [Hnin Hnd].
  assert (exec_outputs eid d !! oid = None) as Hl by (apply Hfresh; by left).
  unfold zlen in Hb. cbn [length] in Hb. rewrite Nat2Z.inj_succ in Hb.
  destruct (place_view eid oid v d Ho Hh) as (Hview & _ & Hhas).
  assert (scan_output_order (exec_outputs eid (place eid oid v d)) = mkOrder (i + 1) (Some i)) as Hscan'.
  { rewrite Hview, decide_True, scan_place_output, Hl, Hscan by done. simpl. f_equal.
    unfold saturating_add_u64. lia. }
  destruct (IH (i + 1) (Some i) (place eid oid v d)) as (latest' & Hset & Hs); try done.
  - by apply place_ok.
  - by apply Hhas.
  - intros x Hx. rewrite Hview, decide_True by done. unfold place_output.
    rewrite lookup_insert_ne by (intros ->; done). apply Hfresh. by right.
  - lia.
  - unfold zlen. lia.
  - exists latest'. split.
    + cbn [set_outputs_from zip]. rewrite Hid, set_step_place; [exact Hset|done..|by rewrite Hscan].
    + unfold place_all in *. cbn [zip zip_with foldl fst snd]. rewrite Hs. f_equal. unfold zlen.
      cbn [length]. lia.
Qed.

(** Dropping one execution's outputs together with its display entries. *)
Lemma index_ok_drop eid d d' :
  index_ok d -> no_nul eid = true ->
  get_map "display_index" d' =
    get_map "display_index" (remove_display_index_entries_for_execution eid d) ->
  (forall x, x <> eid -> exec_outputs x d' = exec_outputs x d) -> exec_outputs eid d' = ∅ ->
  index_ok d'.
Proof.
  intros [Hp Hx] Hn Hi Hother Heid. split.
  - unfold has_index. rewrite Hi. by apply (index_entries_remove_all eid d "").
  - intros did x y Hnx.
    assert (index_entries did d' = filter (fun z => starts_with (index_key eid "") z.1 = false)
      (index_entries did d)) as ->.
    { destruct (index_entries_remove_all eid d did Hp) as [_ <-]. unfold index_entries. by rewrite Hi. }
    destruct (decide (x = eid)) as [->|Hne].
    + unfold get_output, get_output_entry. rewrite Heid, lookup_empty. simpl. split; [|done].
      intros [n [_ Hf]%map_lookup_filter_Some]. simpl in Hf.
      by rewrite starts_with_key, bool_decide_eq_true_2 in Hf.
    + rewrite (get_output_outputs _ _ _ _ (Hother x Hne)), <- Hx by done.
      split; intros [n Hl].
      * apply map_lookup_filter_Some in Hl as [Hl _]. by exists n.
      * exists n. apply map_lookup_filter_Some. split; [done|]. simpl.
        rewrite starts_with_key by done. by apply bool_decide_eq_false_2.
Qed.

(** Fresh ids are listed in order. *)
Lemma upsert_fresh_all ms ids (acc : list (string * json)) :
  Forall2 (fun m oid => extract_output_id m = Some oid) ms ids -> NoDup ids ->
  (forall oid, oid ∈ ids -> oid ∉ acc.*1) ->
  foldl (fun acc x => upsert_output acc x.2 x.1) acc (zip ms ids) = acc ++ zip ids ms.
Proof.
  intros Hf. revert acc. induction Hf as [|v oid ms ids _ _ IH]; intros acc Hnd Hacc; [by rewrite app_nil_r|].
  apply NoDup_cons in Hnd as [Hnin Hnd]. cbn [zip zip_with foldl fst snd].
  unfold upsert_output at 2. rewrite decide_False by (apply Hacc; by left).
  rewrite IH; [by rewrite <- (assoc_L (++))|done|]. intros x Hx. rewrite fmap_app. simpl.
  pose proof (Hacc x). set_solver.
Qed.

Lemma set_outputs_spec eid ms ids d :
  runtime_wf d -> has_execution eid d -> extract_output_ids ms = Ok ids -> NoDup ids ->
  Forall (fun v => json_ok v = true) ms -> no_nul eid = true -> zlen ms <= u64_max ->
  exists d', set_outputs eid ms d = (d', Ok true) /\ runtime_wf d' /\
    output_list (exec_outputs eid d') = zip ids ms /\
    (forall x, x <> eid -> exec_outputs x d' = exec_outputs x d).
Proof.
  intros [[Ho Hc] Hx] Hh Hids Hnd Hall Hn Hb. pose proof Hh as [e He].
  unfold set_outputs. rewrite He. set (d0 := remove_display_index_entries_for_execution eid d).
  pose proof (remove_all_index_only eid d) as H0. fold d0 in H0.
  assert (has_execution eid d0) as Hh0 by (by apply (index_only_has _ _ _ H0)).
  destruct (index_only_facts _ _ H0) as (_ & _ & Ho0 & Hc0).
  set (d1 := put_outputs eid ∅ d0).
  assert (forall x, exec_outputs x d1 = if decide (x = eid) then ∅ else exec_outputs x d) as Hd1.
  { intros x. unfold d1. rewrite exec_outputs_put, Ho0 by done. done. }
  assert (index_ok d1) as Hx1.
  { eapply (index_ok_drop eid d); [done..| | |].
    - unfold d1. by rewrite get_map_put_outputs.
    - intros x Hne. by rewrite Hd1, decide_False.
    - by rewrite Hd1, decide_True. }
  assert (outputs_ok d1) as Ho1.
  { intros x. rewrite Hd1. case_decide; [apply map_Forall_empty|apply Ho]. }
  assert (has_execution eid d1) as Hh1 by (unfold d1; by apply has_execution_put_outputs).
  pose proof (extract_output_ids_spec _ _ Hids) as Hf2.
  assert (exec_outputs eid d1 = ∅) as Hemp by (by rewrite Hd1, decide_True).
  assert (scan_output_order ∅ = mkOrder 0 None) as Hs0 by done.
  destruct (set_outputs_from_place eid ms ids 0 None d1) as (latest & -> & Hscan); try done.
  { intros oid _. by rewrite Hemp. }
  { by rewrite Hemp. }
  pose proof (Forall_zip_json ms ids Hall) as Hall'.
  destruct (append_loop eid ∅ (zip ms ids) d1 None) as (_ & _ & _ & Ho2 & Hh2 & Hc2 & Hother);
    [done..|by rewrite Hemp|].
  set (d2 := place_all eid d1 (zip ms ids)) in *.
  assert (forall x, x <> eid -> exec_outputs x d2 = exec_outputs x d) as Hsame.
  { intros x Hne. by rewrite Hother, Hd1, decide_False. }
  eexists. split; [done|]. unfold write_output_order_cache. split_and!.
  - split; [|by apply index_ok_cache, place_all_wf].
    apply (outputs_wf_update d _ eid); [by split|exact Hsame|exact (Ho2 eid)| |].
    + intros x Hne. cbn [output_order_cache with_cache]. rewrite lookup_insert_ne, Hc2 by done.
      unfold d1. by rewrite cache_put_outputs, Hc0.
    + intros c. cbn [output_order_cache with_cache]. rewrite lookup_insert_eq. intros [= <-].
      change (exec_outputs eid (with_cache _ d2)) with (exec_outputs eid d2). by rewrite Hscan.
  - change (exec_outputs eid (with_cache _ d2)) with (exec_outputs eid d2). unfold d2.
    rewrite place_all_list; [|done..|rewrite Hemp, Hs0; simpl; unfold zlen in *; rewrite length_zip; lia].
    rewrite Hemp. change (output_list ∅) with (@nil (string * json)).
    by rewrite (upsert_fresh_all _ _ [] Hf2 Hnd) by set_solver.
  - exact Hsame.
Qed.

(** ** Removing and creating executions *)

Lemma remove_execution_entry eid d x :
  get_execution_entry x (remove_execution eid d) =
    if decide (x = eid) then None else get_execution_entry x d.
Proof.
  unfold remove_execution. destruct (get_map "executions" d) as [exs|] eqn:He.
  - set (d1 := set_root _ _ d).
    destruct (index_only_facts _ _ (remove_all_index_only eid d1)) as (_ & Hent & _).
    change (get_execution_entry x (with_cache _ ?d')) with (get_execution_entry x d').
    rewrite Hent. unfold d1, get_execution_entry. rewrite get_map_set_root, decide_True, He by done. simpl.
    case_decide; [subst; by rewrite lookup_delete_eq|by rewrite lookup_delete_ne].
  - unfold get_execution_entry. rewrite He. by case_decide.
Qed.

Lemma exec_outputs_entry d d' x :
  get_execution_entry x d' = get_execution_entry x d -> exec_outputs x d' = exec_outputs x d.
Proof. intros H. unfold exec_outputs. by rewrite !get_output_map_entry, H. Qed.

Lemma exec_outputs_absent x d : get_execution_entry x d = None -> exec_outputs x d = ∅.
Proof. intros H. unfold exec_outputs. by rewrite get_output_map_entry, H. Qed.

Lemma remove_execution_wf eid d :
  runtime_wf d -> no_nul eid = true -> is_Some (get_map "executions" d) ->
  runtime_wf (remove_execution eid d).
Proof.
  intros [[Ho Hc] Hx] Hn [exs He].
  assert (forall x, x <> eid -> exec_outputs x (remove_execution eid d) = exec_outputs x d) as Hother.
  { intros x Hne. apply exec_outputs_entry. by rewrite remove_execution_entry, decide_False. }
  assert (exec_outputs eid (remove_execution eid d) = ∅) as Heid.
  { apply exec_outputs_absent. by rewrite remove_execution_entry, decide_True. }
  assert (output_order_cache (remove_execution eid d) = delete eid (output_order_cache d)) as Hcache.
  { unfold remove_execution. rewrite He. simpl.
    destruct (index_only_facts _ _ (remove_all_index_only eid (set_root "executions" (NMap (delete eid exs)) d)))
      as (_ & _ & _ & ->). done. }
  split.
  - apply (outputs_wf_update d _ eid); [done|done|rewrite Heid; apply map_Forall_empty| |].
    + intros x Hne. by rewrite Hcache, lookup_delete_ne.
    + intros c. by rewrite Hcache, lookup_delete_eq.
  - eapply (index_ok_drop eid d); [done..| |done|done].
    unfold remove_execution. rewrite He.
    change (get_map "display_index" (with_cache _ ?d')) with (get_map "display_index" d').
    unfold remove_display_index_entries_for_execution.
    rewrite get_map_set_root, decide_False by done.
    destruct (get_map "display_index" d) eqn:Hi; rewrite !get_map_set_root, ?Hi; done.
Qed.

Lemma remove_execution_map eid d exs :
  get_map "executions" d = Some exs -> get_map "executions" (remove_execution eid d) = Some (delete eid exs).
Proof.
  intros He. unfold remove_execution. rewrite He.
  set (d1 := set_root _ _ d).
  destruct (index_only_facts _ _ (remove_all_index_only eid d1)) as (Hg & _).
  change (get_map "executions" (with_cache _ ?d')) with (get_map "executions" d').
  rewrite Hg by done. unfold d1. by rewrite get_map_set_root, decide_True.
Qed.

(** A sequence of removals. *)
Definition remove_all_of (eids : list string) (d : RuntimeStateDoc) : RuntimeStateDoc :=
  foldl (fun d eid => remove_execution eid d) d eids.

Lemma remove_all_of_spec eids d exs :
  get_map "executions" d = Some exs ->
  get_map "executions" (remove_all_of eids d) = Some (filter (fun x => x.1 ∉ eids) exs).
Proof.
  revert d exs. induction eids as [|eid eids IH]; intros d exs He.
  - simpl. rewrite He. f_equal. symmetry. apply map_filter_id. set_solver.
  - unfold remove_all_of. cbn [foldl]. fold (remove_all_of eids (remove_execution eid d)).
    rewrite (IH _ _ (remove_execution_map _ _ _ He)). f_equal. apply map_eq. intros k.
    apply option_eq. intros n. rewrite !map_lookup_filter_Some, lookup_delete_Some. simpl.
    rewrite not_elem_of_cons. naive_solver.
Qed.

Lemma remove_all_of_wf eids d :
  runtime_wf d -> is_Some (get_map "executions" d) -> Forall (fun e => no_nul e = true) eids ->
  runtime_wf (remove_all_of eids d).
Proof.
  intros Hwf Hs Hn. revert d Hwf Hs. induction Hn as [|eid eids Hn _ IH]; intros d Hwf [exs He]; [done|].
  unfold remove_all_of. cbn [foldl]. apply IH; [by apply remove_execution_wf; [..|eexists]|].
  rewrite (remove_execution_map _ _ _ He). by eexists.
Qed.

(** [remove_executions] is the removal of the listed ids that are present. *)
Lemma remove_executions_loop eids d n :
  exists l, (foldl (fun (st : RuntimeStateDoc * nat) eid =>
        let '(d, removed) := st in
        match get_execution_entry eid d with
        | Some _ => (remove_execution eid d, S removed)
        | None => (d, removed)
        end) (d, n) eids) = (remove_all_of l d, n + length l)%nat /\ (forall e, e ∈ l -> e ∈ eids).
Proof.
  revert d n. induction eids as [|eid eids IH]; intros d n; cbn [foldl].
  { exists []. split; [by rewrite Nat.add_0_r|set_solver]. }
  destruct (get_execution_entry eid d).
  - destruct (IH (remove_execution eid d) (S n)) as (l & -> & Hl). exists (eid :: l). split; [|set_solver].
    f_equal. simpl. lia.
  - destruct (IH d n) as (l & -> & Hl). exists l. split; [done|]. set_solver.
Qed.

Lemma remove_executions_wf eids d :
  runtime_wf d -> Forall (fun e => no_nul e = true) eids -> runtime_wf (remove_executions eids d).1.
Proof.
  intros Hwf Hn. unfold remove_executions. destruct eids as [|e eids]; [done|].
  destruct (get_map "executions" d) as [exs|] eqn:He; [|done].
  destruct (remove_executions_loop (e :: eids) d 0) as (l & -> & Hl). cbn [fst].
  apply remove_all_of_wf; [done|by eexists|]. rewrite Forall_forall in Hn |- *. auto.
Qed.

(** ** Trimming *)

#[export] Instance age_le_total : Total age_le.
Proof.
  intros [i a] [j b]. unfold age_le. simpl. pose proof (total String.le i j).
  destruct (Z.lt_trichotomy a b) as [?|[?|?]]; [by left; left|subst; tauto|by right; left].
Qed.

#[export] Instance age_le_trans : Transitive age_le.
Proof.
  intros [i a] [j b] [k c]. unfold age_le. simpl. intros [?|[? ?]] [?|[? ?]]; try (left; lia).
  right. split; [lia|]. by transitivity j.
Qed.

(** The loop stops after [to_remove] removals of unprotected executions. *)
Lemma trim_loop_spec protected to_remove removed l d :
  (removed <= to_remove)%nat ->
  let victims := take (to_remove - removed) (filter (fun x => protected x = false) l.*1) in
  trim_loop protected to_remove removed l d =
    (remove_all_of victims d, removed + length victims)%nat.
Proof.
  revert removed d. induction l as [|[eid seq] l IH]; intros removed d Hle; simpl.
  { rewrite filter_nil, take_nil. simpl. by rewrite Nat.add_0_r. }
  destruct (Nat.leb_spec to_remove removed) as [Hge|Hlt].
  { assert (to_remove - removed = 0)%nat as -> by lia. rewrite firstn_O. simpl.
    by rewrite Nat.add_0_r. }
  rewrite filter_cons. destruct (protected eid) eqn:Hp.
  - rewrite decide_False by done. by rewrite IH by lia.
  - rewrite decide_True by done. rewrite IH by lia.
    replace (to_remove - removed)%nat with (S (to_remove - S removed)) by lia. cbn [take length].
    by rewrite Nat.add_succ_r.
Qed.

(** Trimming keeps what must be kept and drops the oldest first: with more than
    [max] executions, the ones removed are exactly the first of the age order that
    are neither named by the caller nor in the queue nor active, as many as
    exceed [max] (fewer when not enough are removable); every other execution,
    each with its entry unchanged, stays. *)
Theorem trim_removes_oldest max keep d exs :
  get_map "executions" d = Some exs ->
  let victims := take (base.size exs - max)
    (filter (fun x => is_protected keep d exs x = false) (by_age exs).*1) in
  let '(d', r) := trim_executions_preserving max keep d in
  r = Ok (length victims) /\
  get_map "executions" d' = Some (filter (fun x => x.1 ∉ victims) exs) /\
  StronglySorted age_le (by_age exs) /\
  (forall eid, eid ∈ (by_age exs).*1 <-> is_Some (exs !! eid)) /\
  forall eid, is_protected keep d exs eid = true -> get_execution_entry eid d' = get_execution_entry eid d.
Proof.
  intros He victims. unfold trim_executions_preserving. rewrite He.
  assert (StronglySorted age_le (by_age exs)) as Hs by apply (StronglySorted_merge_sort age_le).
  assert (forall eid, eid ∈ (by_age exs).*1 <-> is_Some (exs !! eid)) as Hin.
  { intros eid. unfold by_age. rewrite merge_sort_Permutation, <- list_fmap_compose, list_elem_of_fmap. split.
    - intros ([k n] & -> & Hk%elem_of_map_to_list). by exists n.
    - intros [n Hk]. exists (eid, n). by rewrite elem_of_map_to_list. }
  destruct (Nat.leb_spec (base.size exs) max) as [Hle|Hgt].
  - assert (victims = []) as ->. { unfold victims. by replace (base.size exs - max)%nat with 0%nat by lia. }
    split_and!; try done. rewrite He. f_equal. symmetry. apply map_filter_id. set_solver.
  - rewrite trim_loop_spec by lia. rewrite Nat.sub_0_r. fold victims.
    rewrite (remove_all_of_spec _ _ _ He). split_and!; try done.
    intros eid Hp. unfold get_execution_entry. rewrite He, (remove_all_of_spec _ _ _ He). simpl.
    apply option_eq. intros n. rewrite map_lookup_filter_Some. split; [by intros [? _]|].
    intros Hn. split; [done|]. simpl. unfold victims. intros Hv. apply elem_of_take in Hv as (i & Hi & _).
    apply list_elem_of_lookup_2, list_elem_of_filter in Hi as [Hf _]. congruence.
Qed.

(** ** Runs *)

Lemma create_execution_entry eid d exs x :
  get_map "executions" d = Some exs ->
  get_execution_entry x (create_execution eid d).1 =
    if decide (x = eid) then Some (default (NMap new_entry) (exs !! eid)) else exs !! x.
Proof.
  intros He. unfold create_execution, scaffold_map. rewrite He.
  destruct (exs !! eid) as [n|] eqn:Heid; cbn [fst]; unfold get_execution_entry.
  - rewrite He. simpl. case_decide; [by subst|done].
  - unfold set_execution. rewrite get_map_set_root, decide_True by done. simpl.
    case_decide; [subst; by rewrite lookup_insert_eq|by rewrite lookup_insert_ne].
Qed.

Lemma create_execution_wf eid d : runtime_wf d -> runtime_wf (create_execution eid d).1.
Proof.
  intros Hwf. destruct (get_map "executions" d) as [exs|] eqn:He;
    [|unfold create_execution, scaffold_map; by rewrite He].
  pose proof Hwf as [Ho Hx].
  assert (forall x, exec_outputs x (create_execution eid d).1 = exec_outputs x d) as Hsame.
  { intros x. unfold exec_outputs. rewrite !get_output_map_entry, (create_execution_entry _ _ _ _ He).
    unfold get_execution_entry. rewrite He. simpl. destruct (decide (x = eid)) as [->|]; [|done].
    by destruct (exs !! eid). }
  assert (output_order_cache (create_execution eid d).1 = output_order_cache d /\
    get_map "display_index" (create_execution eid d).1 = get_map "display_index" d) as [Hc Hi].
  { unfold create_execution, scaffold_map. rewrite He. destruct (exs !! eid); [done|]. cbn [fst].
    split; [done|]. unfold set_execution. by rewrite get_map_set_root, decide_False. }
  split; [by eapply outputs_wf_same|]. eapply index_ok_same; [done..|].
  intros. by apply get_output_outputs.
Qed.

(** Calls of the daemon on outputs. *)
Inductive output_op :=
| OCreate (eid : string)
| OAppend (eid : string) (v : json)
| OBatch (eid : string) (vs : list json)
| OSet (eid : string) (vs : list json)
| OReplace (eid oid : string) (v : json)
| OStream (eid : string) (v : json) (known : option StreamOutputState)
| ORemove (eids : list string)
| OTrim (max : nat) (keep : list string).

Definition output_step (d : RuntimeStateDoc) (op : output_op) : RuntimeStateDoc :=
  match op with
  | OCreate eid => (create_execution eid d).1
  | OAppend eid v => (append_output eid v d).1
  | OBatch eid vs => (append_outputs eid vs d).1
  | OSet eid vs => (set_outputs eid vs d).1
  | OReplace eid oid v => (replace_output eid oid v d).1
  | OStream eid v known => (upsert_stream_output eid v known d).1
  | ORemove eids => (remove_executions eids d).1
  | OTrim max keep => (trim_executions_preserving max keep d).1
  end.

(** What callers respect: execution ids have no zero byte, manifests are JSON values,
    and a list that replaces all outputs names each of them once. *)
Definition distinct_ids (vs : list json) : bool :=
  match extract_output_ids vs with
  | Ok ids => bool_decide (NoDup ids)
  | Err _ => false
  end && bool_decide (zlen vs <= u64_max).

Definition op_ok (op : output_op) : bool :=
  match op with
  | OCreate eid => no_nul eid
  | OAppend eid v | OReplace eid _ v | OStream eid v _ => no_nul eid && json_ok v
  | OBatch eid vs => no_nul eid && forallb json_ok vs
  | OSet eid vs => no_nul eid && forallb json_ok vs && distinct_ids vs
  | ORemove eids => forallb no_nul eids
  | OTrim _ _ => true
  end.

(** Every execution id of the document is without a zero byte and names a map. *)
Definition ids_ok (d : RuntimeStateDoc) : Prop :=
  is_Some (get_map "executions" d) /\
  forall eid n, get_execution_entry eid d = Some n -> no_nul eid = true /\ is_map n.

(** [d'] has no execution that [d] does not have. *)
Definition no_new_ids (d d' : RuntimeStateDoc) : Prop :=
  (is_Some (get_map "executions" d) -> is_Some (get_map "executions" d')) /\
  forall eid n, get_execution_entry eid d' = Some n ->
    exists n', get_execution_entry eid d = Some n' /\ (is_map n' -> is_map n).

#[export] Instance no_new_ids_refl : Reflexive no_new_ids.
Proof. intros d. split; [done|]. eauto. Qed.

#[export] Instance no_new_ids_trans : Transitive no_new_ids.
Proof.
  intros d1 d2 d3 [Ha Hb] [Hc Hd]. split; [auto|]. intros eid n Hn.
  destruct (Hd _ _ Hn) as (n2 & Hn2 & ?). destruct (Hb _ _ Hn2) as (n1 & ? & ?). eauto.
Qed.

Lemma ids_ok_no_new d d' : ids_ok d -> no_new_ids d d' -> ids_ok d'.
Proof.
  intros [Hs Hi] [Ha Hb]. split; [auto|]. intros eid n Hn. destruct (Hb _ _ Hn) as (n' & Hn' & Hm).
  destruct (Hi _ _ Hn'). auto.
Qed.

Lemma no_new_index d d' : index_only d d' -> no_new_ids d d'.
Proof. intros (Hg & He & _)%index_only_facts. split; [by rewrite Hg|]. intros eid n. rewrite He. eauto. Qed.

Lemma no_new_cache c d : no_new_ids d (with_cache c d).
Proof. split; [done|]. intros eid n Hn. by exists n. Qed.

Lemma no_new_put_outputs eid o d : no_new_ids d (put_outputs eid o d).
Proof.
  split.
  - intros [exs He]. unfold put_outputs. rewrite He. destruct (exs !! eid) as [[]|]; try by eexists.
    unfold set_execution. rewrite get_map_set_root, decide_True by done. by eexists.
  - intros x n. rewrite get_execution_entry_put_outputs. case_decide; [subst|by eauto].
    destruct (get_execution_entry eid d) as [[]|]; naive_solver.
Qed.

Lemma no_new_write eid oid e v d : no_new_ids d (write_manifest eid oid e v d).
Proof.
  destruct (write_manifest_index eid oid e v d) as (d1 & d2 & H1%no_new_index & H2%no_new_index & ->).
  etransitivity; [exact H1|]. etransitivity; [eapply no_new_put_outputs|exact H2].
Qed.

Lemma no_new_order eid d : no_new_ids d (output_order eid d).1.
Proof. unfold output_order. destruct (output_order_cache d !! eid); [done|]. apply no_new_cache. Qed.

Lemma no_new_next eid d : no_new_ids d (next_output_seq eid d).1.
Proof.
  unfold next_output_seq. pose proof (no_new_order eid d). by destruct (output_order eid d).
Qed.

Lemma no_new_ensure eid d d1 : ensure_output_map eid d = Some d1 -> no_new_ids d d1.
Proof.
  unfold ensure_output_map. destruct (get_execution_entry eid d) as [[|e| |]|]; try done.
  destruct (e !! "outputs") as [[]|]; intros [= <-]; try done; apply no_new_put_outputs.
Qed.

Lemma no_new_append eid v d : no_new_ids d (append_output eid v d).1.
Proof.
  unfold append_output. destruct (extract_output_id v) as [oid|]; [|done].
  destruct (ensure_output_map eid d) as [d1|] eqn:He; [|done].
  etransitivity; [by eapply no_new_ensure|]. destruct (get_output_entry eid oid d1) as [e|].
  - cbn [fst]. apply no_new_write.
  - pose proof (no_new_next eid (put_output eid oid ∅ d1)) as Hn.
    destruct (next_output_seq eid (put_output eid oid ∅ d1)) as [d2 s]. cbn [fst] in *.
    etransitivity; [eapply no_new_put_outputs|]. etransitivity; [exact Hn|].
    etransitivity; [|apply no_new_write]. etransitivity; [eapply no_new_put_outputs|apply no_new_cache].
Qed.

Lemma no_new_batch eid vs d : no_new_ids d (append_outputs eid vs d).1.
Proof.
  unfold append_outputs. destruct (extract_output_ids vs) as [ids|]; [|done].
  destruct (ensure_output_map eid d) as [d1|] eqn:He; [|done].
  etransitivity; [by eapply no_new_ensure|]. pose proof (no_new_next eid d1) as Hn.
  destruct (next_output_seq eid d1) as [d2 s]. etransitivity; [exact Hn|]. cbn [fst].
  assert (forall l d s o, no_new_ids d (foldl (append_step eid) (d, s, o) l).1.1) as Hloop.
  { clear. induction l as [|[v oid] l IH]; intros d s o; [done|]. cbn [foldl append_step].
    destruct (get_output_entry eid oid d).
    - etransitivity; [eapply no_new_write|]. apply IH.
    - etransitivity; [eapply no_new_put_outputs|]. etransitivity; [eapply no_new_put_outputs|].
      etransitivity; [eapply no_new_write|]. apply IH. }
  specialize (Hloop (zip vs ids) d2 s None).
  destruct (foldl (append_step eid) (d2, s, None) (zip vs ids)) as [[d3 s3] o3]. cbn [fst] in *.
  etransitivity; [exact Hloop|]. destruct o3; [apply no_new_cache|done].
Qed.

Lemma no_new_set_from eid i vs latest d : no_new_ids d (set_outputs_from eid i vs latest d).1.
Proof.
  revert i latest d. induction vs as [|v vs IH]; intros i latest d; [done|]. cbn [set_outputs_from].
  destruct (extract_output_id v) as [oid|]; [|done]. etransitivity; [|apply IH].
  destruct (display_id_for_manifest v); [|apply no_new_put_outputs].
  etransitivity; [|apply no_new_index, add_index_only]. apply no_new_put_outputs.
Qed.

Lemma no_new_set eid vs d : no_new_ids d (set_outputs eid vs d).1.
Proof.
  unfold set_outputs. destruct (get_execution_entry eid d) as [entry|]; [|done].
  etransitivity; [eapply no_new_index, (remove_all_index_only eid)|]. destruct entry; try done.
  set (d1 := put_outputs eid ∅ _). transitivity d1; [apply no_new_put_outputs|].
  pose proof (no_new_set_from eid 0 vs None d1) as Hs.
  destruct (set_outputs_from eid 0 vs None d1) as [d2 [o|]]; [|exact Hs].
  transitivity d2; [exact Hs|apply no_new_cache].
Qed.

Lemma no_new_replace eid oid v d : no_new_ids d (replace_output eid oid v d).1.
Proof. unfold replace_output. destruct (get_output_entry eid oid d); [apply no_new_write|done]. Qed.

Lemma no_new_match eid known d : no_new_ids d (match_stream eid known d).1.
Proof.
  unfold match_stream. destruct known as [st|]; [|done].
  destruct (get_output_entry eid (so_output_id st) d) as [e|]; [|done]. unfold output_is_latest.
  destruct (read_output_seq (NMap e)); [|done]. pose proof (no_new_order eid d) as Ho.
  destruct (output_order eid d) as [d1 c]. by repeat case_match.
Qed.

Lemma no_new_stream eid v known d : no_new_ids d (upsert_stream_output eid v known d).1.
Proof.
  unfold upsert_stream_output. destruct (extract_output_id v); [|done].
  destruct (ensure_output_map eid d) as [d1|] eqn:He; [|done].
  etransitivity; [by eapply no_new_ensure|]. pose proof (no_new_match eid known d1) as Hm.
  destruct (match_stream eid known d1) as [d2 m]. etransitivity; [exact Hm|]. cbn [fst].
  pose proof (no_new_append eid v d2) as Ha.
  destruct m, known as [st|]; try (by destruct (append_output eid v d2) as [? []]).
  pose proof (no_new_replace eid (so_output_id st) (patched existing v) d2) as Hr.
  by destruct (replace_output eid (so_output_id st) (patched existing v) d2) as [? []].
Qed.

Lemma no_new_remove_all eids d : no_new_ids d (remove_all_of eids d).
Proof.
  unfold remove_all_of. revert d. induction eids as [|eid eids IH]; intros d; [done|]. cbn [foldl].
  etransitivity; [|apply IH]. split.
  - intros [exs He]. rewrite (remove_execution_map _ _ _ He). by eexists.
  - intros x n. rewrite remove_execution_entry. case_decide; [done|]. eauto.
Qed.

Lemma forallb_json vs : forallb json_ok vs = true -> Forall (fun v => json_ok v = true) vs.
Proof. rewrite forallb_forall, Forall_forall. intros H x Hx. by apply H, list_elem_of_In. Qed.

Lemma trim_wf max keep d :
  runtime_wf d -> ids_ok d -> runtime_wf (trim_executions_preserving max keep d).1 /\
    no_new_ids d (trim_executions_preserving max keep d).1.
Proof.
  intros Hwf [[exs He] Hi]. unfold trim_executions_preserving. rewrite He.
  destruct (Nat.leb (base.size exs) max); [done|].
  rewrite trim_loop_spec by lia. cbn [fst]. split; [|apply no_new_remove_all].
  apply remove_all_of_wf; [done|by eexists|]. apply Forall_forall. intros eid Hin.
  apply elem_of_take in Hin as (i & Hl%list_elem_of_lookup_2 & _).
  apply list_elem_of_filter in Hl as [_ Hl]. unfold by_age in Hl.
  rewrite merge_sort_Permutation, <- list_fmap_compose, list_elem_of_fmap in Hl.
  destruct Hl as ([k n] & -> & Hk%elem_of_map_to_list). apply (Hi k n).
  unfold get_execution_entry. by rewrite He.
Qed.

Lemma output_step_wf d op :
  runtime_wf d -> ids_ok d -> op_ok op = true ->
  runtime_wf (output_step d op) /\ ids_ok (output_step d op).
Proof.
  intros Hwf Hids Hop. destruct op as [eid|eid v|eid vs|eid vs|eid oid v|eid v known|eids|max keep];
    cbn [output_step op_ok] in *; rewrite ?andb_true_iff in Hop.
  - split; [by apply create_execution_wf|]. destruct Hids as [[exs He] Hi]. split.
    + unfold create_execution, scaffold_map. rewrite He. destruct (exs !! eid); [by eexists|].
      cbn [fst]. unfold set_execution. rewrite get_map_set_root, decide_True by done. by eexists.
    + intros x n. rewrite (create_execution_entry _ _ _ _ He). case_decide; [subst|].
      * intros [= <-]. split; [done|]. destruct (exs !! eid) as [n|] eqn:Hn; [|done]. simpl.
        apply (Hi eid n). unfold get_execution_entry. by rewrite He.
      * intros Hn. apply Hi. unfold get_execution_entry. by rewrite He.
  - destruct Hop. split; [by apply append_output_wf|]. eapply ids_ok_no_new; [done|apply no_new_append].
  - destruct Hop. split; [apply append_outputs_wf; by try apply forallb_json|].
    eapply ids_ok_no_new; [done|apply no_new_batch].
  - destruct Hop as [[Hn Hv%forallb_json] Hd]. split; [|eapply ids_ok_no_new; [done|apply no_new_set]].
    unfold distinct_ids in Hd. apply andb_true_iff in Hd as [Hd Hl%bool_decide_eq_true].
    destruct (extract_output_ids vs) as [ids|] eqn:Hx; [|done]. apply bool_decide_eq_true in Hd.
    destruct (get_execution_entry eid d) as [n|] eqn:He;
      [|unfold set_outputs; by rewrite He].
    destruct Hids as [_ Hi]. destruct (Hi _ _ He) as [_ Hm]. destruct n as [|m| |]; try done.
    destruct (set_outputs_spec eid vs ids d) as (d' & -> & ? & _); try done. by exists m.
  - destruct Hop. split; [by apply replace_output_wf|]. eapply ids_ok_no_new; [done|apply no_new_replace].
  - destruct Hop. split; [by apply upsert_stream_output_wf|].
    eapply ids_ok_no_new; [done|apply no_new_stream].
  - assert (Forall (fun e => no_nul e = true) eids) as Hn.
    { rewrite forallb_forall in Hop. apply Forall_forall. intros x Hx. by apply Hop, list_elem_of_In. }
    split; [by apply remove_executions_wf|]. eapply ids_ok_no_new; [done|].
    unfold remove_executions. destruct eids as [|e eids]; [done|].
    destruct (get_map "executions" d); [|done].
    destruct (remove_executions_loop (e :: eids) d 0) as (l & -> & _). apply no_new_remove_all.
  - destruct (trim_wf max keep d Hwf Hids) as [? ?]. split; [done|]. by eapply ids_ok_no_new.
Qed.

Lemma runtime_wf_new : runtime_wf new_runtime_doc /\ ids_ok new_runtime_doc.
Proof.
  assert (get_map "executions" new_runtime_doc = Some ∅) as He by done.
  assert (forall eid, get_execution_entry eid new_runtime_doc = None) as Hn.
  { intros eid. unfold get_execution_entry. rewrite He. simpl. apply lookup_empty. }
  split; [split; [apply outputs_wf_new|]|].
  - split; [by eexists|]. intros did eid oid _. unfold get_output, get_output_entry, index_entries.
    rewrite (exec_outputs_absent eid) by apply Hn. rewrite lookup_empty.
    assert (get_map "display_index" new_runtime_doc = Some ∅) as -> by done. simpl.
    rewrite !lookup_empty. split; [by intros [? ?]|done].
  - split; [by eexists|]. intros eid n. by rewrite Hn.
Qed.

Lemma output_run_wf ops :
  forallb op_ok ops = true ->
  runtime_wf (foldl output_step new_runtime_doc ops) /\ ids_ok (foldl output_step new_runtime_doc ops).
Proof.
  pose proof runtime_wf_new as [Hw Hi]. revert Hw Hi. generalize new_runtime_doc.
  induction ops as [|op ops IH]; intros d Hw Hi; [done|]. cbn [forallb foldl].
  intros [Hop Hops]%andb_true_iff. destruct (output_step_wf d op Hw Hi Hop). by apply IH.
Qed.

Lemma elem_of_keys {A} (m : gmap string A) k : k ∈ keys m <-> is_Some (m !! k).
Proof.
  unfold keys. rewrite merge_sort_Permutation, list_elem_of_fmap. split.
  - intros ([k' x] & -> & Hx%elem_of_map_to_list). by exists x.
  - intros [x Hx]. exists (k, x). by rewrite elem_of_map_to_list.
Qed.

Lemma elem_of_display_entries did eid oid d :
  (eid, oid) ∈ get_display_index_entries did d <->
  no_nul eid = true /\ is_Some (index_entries did d !! index_key eid oid).
Proof.
  unfold get_display_index_entries, index_entries.
  destruct (get_map "display_index" d ≫= (fun idx => idx !! did)) as [[|es| |]|];
    rewrite ?lookup_empty; try (split; [set_solver|by intros [_ [? ?]]]).
  rewrite list_elem_of_omap. split.
  - intros (k & Hk%elem_of_keys & [-> Hn]%split_once_Some). done.
  - intros [Hn Hk%elem_of_keys]. eexists. split; [exact Hk|]. by apply split_once_key.
Qed.

(** ** Claims on runs *)

(** In every document the daemon reaches from the schema, whatever mix of
    appends, batches, replacements, stream updates, loads, removals and trims led
    there, a cached output position is the one a scan of the outputs finds, and
    every output has a position and a readable manifest. *)
Theorem output_positions_fresh ops :
  forallb op_ok ops = true ->
  let d := foldl output_step new_runtime_doc ops in
  (forall eid c, output_order_cache d !! eid = Some c ->
     c = scan_output_order (exec_outputs eid d) /\ is_latest (exec_outputs eid d) (latest_seq c)) /\
  (forall eid oid, is_Some (exec_outputs eid d !! oid) <-> is_Some (get_output eid oid d)).
Proof.
  intros Hops d. destruct (output_run_wf ops Hops) as [[[Ho Hc] _] _]. fold d in Ho, Hc. split.
  - intros eid c Hcc. rewrite (Hc _ _ Hcc). split; [done|]. by apply scan_is_latest.
  - intros eid oid. unfold get_output, get_output_entry.
    destruct (exec_outputs eid d !! oid) as [n|] eqn:Hn; [|by split; intros [? ?]].
    destruct (Ho _ _ _ Hn) as (e & s & m & -> & _ & _ & Hm). simpl. rewrite Hm. split; by eexists.
Qed.

(** C4. In every such document the display index is exact: looking up a display
    id gives precisely the outputs whose current manifest carries it, so an
    update-display message reaches all of them and no output that has since
    been replaced, cleared or trimmed. *)
Theorem display_index_exact ops did eid oid :
  forallb op_ok ops = true ->
  let d := foldl output_step new_runtime_doc ops in
  (eid, oid) ∈ get_display_index_entries did d <->
  (get_output eid oid d ≫= display_id_for_manifest) = Some did.
Proof.
  intros Hops d. destruct (output_run_wf ops Hops) as [[_ [_ Hx]] [_ Hi]]. fold d in Hx, Hi.
  rewrite elem_of_display_entries. split; [by intros [Hn Hk%Hx]|].
  intros Hg. assert (no_nul eid = true) as Hn; [|split; [done|by apply Hx]].
  revert Hg. unfold get_output, get_output_entry, exec_outputs. rewrite get_output_map_entry.
  destruct (get_execution_entry eid d) as [n|] eqn:He; [|done]. intros _. by apply (Hi eid n).
Qed.

(** ** Diffs *)

(** The two loops keep the same changes, and the snapshot in place is the fresh one
    on what was seen and the old one elsewhere. *)
Lemma diff_loops l ch seen p0 p snap :
  NoDup l.*1 -> (forall k, k ∈ l.*1 -> k ∉ seen) ->
  (forall k, k ∉ seen -> p !! k = p0 !! k /\ snap !! k = None) ->
  (forall k, k ∈ seen -> p !! k = snap !! k /\ is_Some (snap !! k)) ->
  let '(ch1, snap1) := foldl (fun (st : list (string * json) * gmap string json) x =>
    let '(changed, snapshot) := st in
    (if is_changed p0 x then changed ++ [x] else changed, <[x.1 := x.2]> snapshot)) (ch, snap) l in
  let '(ch2, seen2, p2) :=
    foldl (fun (st : list (string * json) * list string * gmap string json) x =>
      let '(changed, seen, prev) := st in
      if is_changed prev x then (changed ++ [x], x.1 :: seen, <[x.1 := x.2]> prev)
      else (changed, x.1 :: seen, prev)) (ch, seen, p) l in
  ch1 = ch2 /\ (forall k, k ∉ seen2 -> p2 !! k = p0 !! k /\ snap1 !! k = None) /\
  (forall k, k ∈ seen2 -> p2 !! k = snap1 !! k /\ is_Some (snap1 !! k)).
Proof.
  revert ch seen p snap. induction l as [|[oid v] l IH]; intros ch seen p snap Hnd Hnew Hout Hin; [done|].
  cbn [foldl fmap list_fmap fst snd] in *. apply NoDup_cons in Hnd as [Hnin Hnd].
  assert (oid ∉ seen) as Hos by (apply Hnew; by left).
  destruct (Hout oid Hos) as [Hp Hs].
  assert (is_changed p (oid, v) = is_changed p0 (oid, v)) as -> by (unfold is_changed; simpl; by rewrite Hp).
  assert (forall k, k ∈ l.*1 -> k ∉ oid :: seen) as Hnew'.
  { intros k Hk. rewrite not_elem_of_cons. split; [by intros ->|]. apply Hnew. by right. }
  destruct (is_changed p0 (oid, v)) eqn:Hch; apply IH; try done.
  - intros k Hk. rewrite not_elem_of_cons in Hk. destruct Hk. rewrite !lookup_insert_ne by done. by apply Hout.
  - intros k Hk. destruct (decide (k = oid)) as [->|Hne]; [rewrite !lookup_insert_eq; split; [done|by eexists]|].
    rewrite !lookup_insert_ne by done. apply Hin. apply elem_of_cons in Hk. by destruct Hk.
  - intros k Hk. rewrite not_elem_of_cons in Hk. destruct Hk. rewrite !lookup_insert_ne by done. by apply Hout.
  - intros k Hk. destruct (decide (k = oid)) as [->|Hne].
    + rewrite lookup_insert_eq, Hp. split; [|by eexists]. unfold is_changed in Hch. simpl in Hch.
      destruct (p0 !! oid) as [o|]; [|done]. apply negb_false_iff, bool_decide_eq_true in Hch. by subst.
    + rewrite lookup_insert_ne by done. apply Hin. apply elem_of_cons in Hk. by destruct Hk.
Qed.

Lemma NoDup_keys {A} (m : gmap string A) : NoDup (keys m).
Proof. unfold keys. rewrite merge_sort_Permutation. apply NoDup_fst_map_to_list. Qed.

(** The in-place diff used on every sync frame agrees with the reference diff
    that rebuilds its snapshot: same changed outputs in the same order, the same
    removed ids, and the same snapshot for the next frame, whenever output ids
    are unique. *)
Theorem diff_in_place_agrees prev execs :
  NoDup (output_pairs execs).*1 ->
  let '(diff, snapshot) := diff_output_ids prev execs in
  let '(diff', prev') := diff_output_ids_in_place prev execs in
  changed diff' = changed diff /\ removed_output_ids diff' ≡ₚ removed_output_ids diff /\
  prev' = snapshot.
Proof.
  intros Hnd. unfold diff_output_ids, diff_output_ids_in_place.
  pose proof (diff_loops (output_pairs execs) [] [] prev prev ∅ Hnd) as H.
  destruct (foldl _ ([], ∅) _) as [ch1 snap1]. destruct (foldl _ ([], [], prev) _) as [[ch2 seen2] p2].
  destruct H as (-> & Hout & Hin); [set_solver|intros k _; by rewrite lookup_empty|set_solver|].
  cbn [changed removed_output_ids]. split_and!; [done| |].
  - apply NoDup_Permutation; [apply NoDup_filter, NoDup_keys..|].
    intros k. rewrite !list_elem_of_filter, !elem_of_keys. split.
    + intros [Hk Hp]. destruct (Hout k Hk) as [Heq Hs]. by rewrite <- Heq.
    + intros [Hs Hp]. assert (k ∉ seen2) as Hk.
      { intros Hk. destruct (Hin k Hk) as [_ [? ?]]. congruence. }
      destruct (Hout k Hk) as [Heq _]. by rewrite Heq.
  - apply map_eq. intros k. apply option_eq. intros v. rewrite map_lookup_filter_Some. simpl. split.
    + intros [Hp Hk]. by destruct (Hin k Hk) as [<- _].
    + intros Hs. destruct (decide (k ∈ seen2)) as [Hk|Hk]; [|by destruct (Hout k Hk); congruence].
      by destruct (Hin k Hk) as [-> _].
Qed.

(** ** Restoring a finished execution *)

(** The fields of an execution besides its outputs. *)
Definition field (eid k : string) (d : RuntimeStateDoc) : option node :=
  n ← get_execution_entry eid d; obj_get n k.

Lemma field_index eid k d d' : index_only d d' -> field eid k d' = field eid k d.
Proof. intros (_ & He & _)%index_only_facts. unfold field. by rewrite He. Qed.

Lemma field_put_outputs eid k x o d : k <> "outputs" -> field eid k (put_outputs x o d) = field eid k d.
Proof.
  intros Hk. unfold field. rewrite get_execution_entry_put_outputs. case_decide; [subst|done].
  destruct (get_execution_entry x d) as [[]|]; try done. simpl. by rewrite lookup_insert_ne.
Qed.

Lemma field_set_from eid k x i vs latest d :
  k <> "outputs" -> field eid k (set_outputs_from x i vs latest d).1 = field eid k d.
Proof.
  intros Hk. revert i latest d. induction vs as [|v vs IH]; intros i latest d; [done|].
  cbn [set_outputs_from]. destruct (extract_output_id v) as [oid|]; [|done]. rewrite IH.
  destruct (display_id_for_manifest v); unfold put_output;
    rewrite ?(field_index _ _ _ _ (add_index_only _ _ _ _)); by apply field_put_outputs.
Qed.

Lemma field_set_outputs eid k x vs d : k <> "outputs" -> field eid k (set_outputs x vs d).1 = field eid k d.
Proof.
  intros Hk. unfold set_outputs. destruct (get_execution_entry x d) as [n|]; [|done].
  pose proof (field_index eid k _ _ (remove_all_index_only x d)) as Hi.
  set (d0 := remove_display_index_entries_for_execution x d) in *. destruct n; try done.
  pose proof (field_set_from eid k x 0 vs None (put_outputs x ∅ d0) Hk) as Hs.
  rewrite field_put_outputs, Hi in Hs by done.
  by destruct (set_outputs_from x 0 vs None (put_outputs x ∅ d0)) as [d2 [o|]].
Qed.

Lemma read_execution_fields eid d n :
  get_execution_entry eid d = Some n -> forall k, obj_get n k = field eid k d.
Proof. intros He k. unfold field. by rewrite He. Qed.

(** The entry [restore_terminal_execution] writes before the outputs. *)
Definition restored_entry (x : ExecutionState) : gmap string node :=
  put_some "submitted_by_actor_label" (str_node <$> es_submitted_by x)
    (put_some "seq" ((fun n => NScalar (SUint n)) <$> es_seq x)
      (put_some "cell_id" (str_node <$> es_cell_id x)
        (put_some "source" (str_node <$> es_source x)
          (<["success" := match es_success x with Some b => NScalar (SBoolean b) | None => null_node end]>
            (<["execution_count" :=
               match es_execution_count x with Some n => NScalar (SInt n) | None => null_node end]>
              {["status" := str_node (es_status x)]}))))).

Lemma lookup_put_some k k' v m :
  put_some k v m !! k' = if decide (k' = k) then match v with Some n => Some n | None => m !! k' end
    else m !! k'.
Proof.
  unfold put_some. destruct v; case_decide; subst; by rewrite ?lookup_insert_eq, ?lookup_insert_ne by done.
Qed.

Ltac entry_field :=
  unfold restored_entry;
  repeat first [rewrite lookup_put_some, decide_True by done | rewrite lookup_put_some, decide_False by done
    | rewrite lookup_insert_eq | rewrite lookup_insert_ne by done | rewrite lookup_singleton_eq
    | rewrite lookup_singleton_ne by done].

(** A new entry without outputs changes no outputs. *)
Lemma restored_wf eid x d exs :
  runtime_wf d -> get_map "executions" d = Some exs -> exs !! eid = None ->
  runtime_wf (set_execution exs eid (NMap (restored_entry x)) d) /\
  has_execution eid (set_execution exs eid (NMap (restored_entry x)) d).
Proof.
  intros [Ho Hx] He Hl. set (d0 := set_execution exs eid (NMap (restored_entry x)) d).
  assert (forall y, get_execution_entry y d0 =
    if decide (y = eid) then Some (NMap (restored_entry x)) else exs !! y) as Hent.
  { intros y. unfold get_execution_entry, d0, set_execution. rewrite get_map_set_root, decide_True by done.
    simpl. case_decide; [subst; by rewrite lookup_insert_eq|by rewrite lookup_insert_ne]. }
  assert (forall y, exec_outputs y d0 = exec_outputs y d) as Hsame.
  { intros y. unfold exec_outputs. rewrite !get_output_map_entry, Hent. unfold get_execution_entry.
    rewrite He. simpl. destruct (decide (y = eid)) as [->|]; [|done]. rewrite Hl. simpl. by entry_field. }
  split; [split; [by eapply outputs_wf_same|]|].
  - eapply index_ok_same; [done| |intros; by apply get_output_outputs].
    unfold d0, set_execution. by rewrite get_map_set_root, decide_False.
  - exists (restored_entry x). by rewrite Hent, decide_True.
Qed.

(** A finished execution restored from a recovered notebook reads back exactly
    as it was recorded: status, count, success, source, cell, position, submitter
    and every output in order.  Work that was not finished is refused, and an
    execution that is already there is left alone. *)
Theorem restore_roundtrip eid x ids d exs :
  runtime_wf d -> get_map "executions" d = Some exs -> no_nul eid = true ->
  extract_output_ids (es_outputs x) = Ok ids -> NoDup ids ->
  Forall (fun v => json_ok v = true) (es_outputs x) -> zlen (es_outputs x) <= u64_max ->
  (es_status x = "done" \/ es_status x = "error" ->
   match exs !! eid with
   | Some _ => restore_terminal_execution eid x d = (d, Ok false)
   | None => exists d', restore_terminal_execution eid x d = (d', Ok true) /\ get_execution eid d' = Some x
   end) /\
  (es_status x <> "done" /\ es_status x <> "error" ->
   restore_terminal_execution eid x d = (d, Err InvalidRecoveredExecution)).
Proof.
  intros Hwf He Hn Hids Hnd Hall Hb. unfold restore_terminal_execution. split; intros Hst.
  2: { by rewrite bool_decide_eq_true_2. }
  rewrite bool_decide_eq_false_2 by naive_solver. rewrite Hids. unfold scaffold_map. rewrite He.
  destruct (exs !! eid) as [n|] eqn:Hl; [done|]. fold (restored_entry x).
  destruct (restored_wf eid x d exs Hwf He Hl) as [Hwf0 Hh0].
  assert (forall k, field eid k (set_execution exs eid (NMap (restored_entry x)) d) = restored_entry x !! k) as Hf0.
  { intros k. unfold field, get_execution_entry, set_execution.
    rewrite get_map_set_root, decide_True by done. simpl. by rewrite lookup_insert_eq. }
  set (d0 := set_execution exs eid (NMap (restored_entry x)) d) in *.
  pose proof (fun k => field_set_outputs eid k eid (es_outputs x) d0) as Hf.
  destruct (set_outputs_spec eid (es_outputs x) ids d0) as (d' & Hset & Hwf' & Hlist & _); [done..|].
  rewrite Hset in Hf |- *. cbn [fst] in Hf. exists d'. split; [done|].
  destruct (get_execution_entry eid d') as [n|] eqn:Hn'.
  2: { exfalso. assert (field eid "status" d' = None) as Hc by (unfold field; by rewrite Hn').
    rewrite Hf, Hf0 in Hc by done. revert Hc. by entry_field. }
  unfold get_execution. rewrite Hn'. simpl. f_equal. pose proof (read_execution_fields _ _ _ Hn') as Hr.
  assert (get_outputs eid d' = es_outputs x) as ->.
  { rewrite get_outputs_list, Hlist. apply extract_output_ids_spec, Forall2_length in Hids.
    apply snd_zip. lia. }
  unfold read_execution, read_str, read_execution_count, read_execution_success, read_opt_str, read_execution_seq.
  rewrite !Hr, !Hf, !Hf0 by done. destruct x as [st cnt su out src cell sq sub].
  cbn [es_status es_execution_count es_success es_source es_cell_id es_seq es_submitted_by].
  entry_field. cbn [es_status es_execution_count es_success es_source es_cell_id es_seq es_submitted_by es_outputs].
  f_equal; [by destruct cnt|by destruct su|by destruct src|by destruct cell|by destruct sq|by destruct sub].
Qed.

Module OutputExamples.

Definition text (oid s : string) : json :=
  JObject {["output_id" := JString oid; "text" := JObject {["inline" := JString s]}]}.
Definition shown (oid did : string) : json :=
  JObject {["output_id" := JString oid; "transient" := JObject {["display_id" := JString did]}]}.

Definition calls : list output_op :=
  [OCreate "e1"; OAppend "e1" (text "o1" "hello"); OBatch "e1" [shown "o2" "d"; text "o1" "again"; shown "o3" "d"];
   OStream "e1" (text "o4" "more") (Some (mkStreamState "o3" "x")); OReplace "e1" "o2" (shown "o2" "other");
   OCreate "e2"; OSet "e2" [shown "p1" "d"]; ORemove ["e2"]; OTrim 5 ["e1"]].

Definition one : RuntimeStateDoc := foldl output_step new_runtime_doc [OCreate "e1"].

Lemma one_wf : runtime_wf one.
Proof. by apply (output_run_wf [OCreate "e1"]). Qed.

Lemma batch_is_single_appends_witness :
  exists d', append_outputs "e1" [text "a" "x"; shown "b" "d"] one = (d', Ok ["a"; "b"]) /\
    (append_each "e1" [text "a" "x"; shown "b" "d"] one).2 = [Ok "a"; Ok "b"] /\
    root d' = root (append_each "e1" [text "a" "x"; shown "b" "d"] one).1 /\
    outputs_wf d' /\ outputs_wf (append_each "e1" [text "a" "x"; shown "b" "d"] one).1.
Proof.
  pose proof (batch_is_single_appends "e1" [text "a" "x"; shown "b" "d"] one) as H.
  destruct (append_each "e1" [text "a" "x"; shown "b" "d"] one) as [d1 answers].
  apply H; [apply one_wf|by eexists|repeat constructor].
Defined.

Lemma outputs_refine_list_witness :
  output_list (exec_outputs "e1" (append_outputs "e1" [text "a" "x"; text "b" "y"; text "a" "z"] one).1) =
    [("a", text "a" "z"); ("b", text "b" "y")].
Proof.
  destruct (outputs_refine_list "e1" [text "a" "x"; text "b" "y"; text "a" "z"] ["a"; "b"; "a"] one)
    as [H _].
  - apply one_wf.
  - by eexists.
  - repeat constructor.
  - reflexivity.
  - vm_compute. discriminate.
  - rewrite H. vm_compute. reflexivity.
Defined.

Lemma output_positions_fresh_witness :
  is_Some (exec_outputs "e1" (foldl output_step new_runtime_doc calls) !! "o3") <->
    is_Some (get_output "e1" "o3" (foldl output_step new_runtime_doc calls)).
Proof. apply (output_positions_fresh calls). vm_compute. reflexivity. Defined.

Lemma display_index_exact_witness :
  ("e1", "o3") ∈ get_display_index_entries "d" (foldl output_step new_runtime_doc calls).
Proof.
  apply (display_index_exact calls "d" "e1" "o3"); vm_compute; reflexivity.
Defined.

Definition three : RuntimeStateDoc :=
  foldl output_step new_runtime_doc [OCreate "e1"; OCreate "e2"; OCreate "e3"].
Definition three_done : RuntimeStateDoc :=
  (set_execution_done "e3" true (set_execution_done "e2" true (set_execution_done "e1" true three).1).1).1.

Lemma trim_removes_oldest_witness :
  exists exs, get_map "executions" three_done = Some exs /\
    let '(d', r) := trim_executions_preserving 1 ["e1"] three_done in
    r = Ok (length (take (base.size exs - 1)
      (filter (fun x => is_protected ["e1"] three_done exs x = false) (by_age exs).*1))).
Proof.
  eexists. split; [reflexivity|].
  match goal with |- context [base.size ?e] =>
    pose proof (trim_removes_oldest 1 ["e1"] three_done e eq_refl) as H end.
  destruct (trim_executions_preserving 1 ["e1"] three_done) as [d' r]. apply H.
Defined.

Example trim_counts : (trim_executions_preserving 1 ["e1"] three_done).2 = Ok 2%nat.
Proof. vm_compute. reflexivity. Qed.

Definition ran (o : list json) : ExecutionState := mkExecution "done" (Some 3) (Some true) o (Some "x") None (Some 7) None.

Lemma diff_in_place_agrees_witness :
  (diff_output_ids_in_place {["a" := text "a" "old"; "z" := JNull]} [ran [text "a" "new"; text "b" "y"]]).2 =
  (diff_output_ids {["a" := text "a" "old"; "z" := JNull]} [ran [text "a" "new"; text "b" "y"]]).2.
Proof.
  pose proof (diff_in_place_agrees {["a" := text "a" "old"; "z" := JNull]}
    [ran [text "a" "new"; text "b" "y"]]) as H.
  destruct (diff_output_ids _ _) as [d s]. destruct (diff_output_ids_in_place _ _) as [d' s'].
  simpl. apply H. vm_compute. apply (bool_decide_unpack _). vm_compute. exact I.
Defined.

Lemma restore_roundtrip_witness :
  exists d', restore_terminal_execution "e9" (ran [text "a" "x"]) one = (d', Ok true) /\
    get_execution "e9" d' = Some (ran [text "a" "x"]).
Proof.
  destruct (get_map "executions" one) as [exs|] eqn:He; [|discriminate He].
  destruct (restore_roundtrip "e9" (ran [text "a" "x"]) ["a"] one exs) as [H _].
  - apply one_wf.
  - exact He.
  - reflexivity.
  - reflexivity.
  - apply NoDup_singleton.
  - repeat constructor.
  - vm_compute. discriminate.
  - assert (exs !! "e9" = None) as Hn.
    { vm_compute in He. injection He as <-. reflexivity. }
    rewrite Hn in H. apply H. by left.
Defined.

(** A load that fails on an output without an id has replaced the outputs it got
    to, while the cached position is still that of the outputs before. *)
Example failed_load_leaves_stale_position :
  let d := foldl output_step new_runtime_doc [OCreate "e1"; OAppend "e1" (text "o" "x")] in
  let '(d', r) := set_outputs "e1" [text "a" "1"; text "b" "2"; text "c" "3"; JNull] d in
  r = Err MissingOutputId /\
  next_seq <$> (output_order_cache d' !! "e1") = Some 1 /\
  next_seq (scan_output_order (exec_outputs "e1" d')) = 3.
Proof. vm_compute. done. Qed.

(** Replacing all outputs with a list that names one id twice leaves the display
    entry of the manifest that was overwritten. *)
Example duplicate_load_leaves_display_entry :
  let d := (set_outputs "e1" [shown "a" "d1"; shown "a" "d2"] one).1 in
  get_display_index_entries "d1" d = [("e1", "a")] /\
  (get_output "e1" "a" d ≫= display_id_for_manifest) = Some "d2".
Proof. vm_compute. done. Qed.

End OutputExamples.
