(* ===== verification/RuntimeComms.v ===== *)
(** * Widgets, trust, workstations and project context in the runtime document

    The rest of [crates/runtime-doc/src/doc.rs]: comm entries of widgets, Bokeh
    sessions, the trust state, the workstation attachment and the project
    context, on the document of [RuntimeDoc].  The theorems are the round trips
    of each writer with its reader, echo suppression of widget updates, and the
    freezing of sessions whose kernel is gone.  The text form of project extras
    is serde's and is a parameter. *)

From S2P Require Import Prelude Kernel Automunge RuntimeDoc RuntimeOutputs.

(** ** Decoding JSON values

    What serde's derived decoders accept for the field types used below: a missing
    field with a default reads as the default, [null] as [None]. *)
Definition de_str (v : json) : option string := match v with JString s => Some s | _ => None end.
Definition de_u64 (v : json) : option Z := match v with JNumber (PosInt u) => Some u | _ => None end.
Definition de_opt {A} (de : json -> option A) (v : json) : option (option A) :=
  match v with JNull => Some None | _ => Some <$> de v end.
Definition de_list {A} (de : json -> option A) (v : json) : option (list A) :=
  match v with JArray l => mapM de l | _ => None end.
Definition required {A} (de : json -> option A) (m : gmap string json) (key : string) : option A :=
  m !! key ≫= de.
Definition defaulted {A} (dflt : A) (de : json -> option A) (m : gmap string json) (key : string)
    : option A := match m !! key with Some v => de v | None => Some dflt end.

Definition ju64 (n : Z) : json := JNumber (PosInt n).
Definition jopt {A} (f : A -> json) (o : option A) : json := match o with Some a => f a | None => JNull end.
Definition jstrs (l : list string) : json := JArray (JString <$> l).

(** ** Trust *)

Record TrustRuntimeState := mkTrust {
  tr_status : string; tr_needs_approval : bool; tr_pep723 : list string; tr_uv : list string;
  tr_conda : list string; tr_conda_channels : list string; tr_pixi : list string;
  tr_pixi_pypi : list string; tr_pixi_channels : list string;
}.

#[export] Instance TrustRuntimeState_eq_dec : EqDecision TrustRuntimeState.
Proof. solve_decision. Defined.

Definition read_trust (t : node) : TrustRuntimeState :=
  mkTrust (read_str t "status") (read_bool t "needs_approval")
    (read_str_list t "pep723_dependencies") (read_str_list t "approved_uv_dependencies")
    (read_str_list t "approved_conda_dependencies") (read_str_list t "approved_conda_channels")
    (read_str_list t "approved_pixi_dependencies")
    (read_str_list t "approved_pixi_pypi_dependencies") (read_str_list t "approved_pixi_channels").

(** The trust part of [read_state]. *)
Definition trust_state (d : RuntimeStateDoc) : TrustRuntimeState :=
  match get_map "trust" d with
  | Some t => read_trust (NMap t)
  | None => mkTrust "" false [] [] [] [] [] [] []
  end.

(** The lists in the order they are replaced. *)
Definition trust_lists (s : TrustRuntimeState) : list (string * list string) :=
  [("pep723_dependencies", tr_pep723 s); ("approved_uv_dependencies", tr_uv s);
   ("approved_conda_dependencies", tr_conda s); ("approved_conda_channels", tr_conda_channels s);
   ("approved_pixi_dependencies", tr_pixi s);
   ("approved_pixi_pypi_dependencies", tr_pixi_pypi s); ("approved_pixi_channels", tr_pixi_channels s)].

(** A missing list stops the writer with the lists before it replaced. *)
Fixpoint replace_lists (kvs : list (string * list string)) (t : node) (d : RuntimeStateDoc)
    : RuntimeStateDoc * result RuntimeStateError () :=
  match kvs with
  | [] => (d, Ok ())
  | (k, l) :: kvs =>
      do! t := replace_str_list t k l else d in
      replace_lists kvs t (set_root "trust" t d)
  end.

Definition set_trust_state (s : TrustRuntimeState) : DocM () := fun d =>
  do! t := scaffold_map "trust" d else d in
  let t := match t !! "pep723_dependencies" with
    | Some (NList _) => t
    | _ => <["pep723_dependencies" := NList []]> t
    end in
  let d := set_root "trust" (NMap t) d in
  if decide (read_trust (NMap t) = s) then (d, Ok ())
  else
    let t := <["needs_approval" := NScalar (SBoolean (tr_needs_approval s))]>
      (<["status" := str_node (tr_status s)]> t) in
    replace_lists (trust_lists s) (NMap t) (set_root "trust" (NMap t) d).

Definition set_trust (status : string) (needs_approval : bool) : DocM () :=
  set_trust_state (mkTrust status needs_approval [] [] [] [] [] [] []).

(** ** Workstation attachment *)

Record WorkstationAcceleratorState := mkAccelerator {
  ac_kind : string; ac_vendor : option string; ac_model : option string; ac_count : Z;
  ac_memory_bytes_per_device : option Z; ac_readiness : string; ac_diagnostic : option string;
}.

#[export] Instance WorkstationAcceleratorState_eq_dec : EqDecision WorkstationAcceleratorState.
Proof. solve_decision. Defined.

Record WorkstationAttachmentState := mkWorkstation {
  ws_workstation_id : string; ws_display_name : string; ws_provider : string;
  ws_default_environment_label : string; ws_environment_policy : string; ws_status : string;
  ws_status_message : option string; ws_cpu_count : option Z; ws_memory_bytes : option Z;
  ws_accelerators : option (list WorkstationAcceleratorState);
  ws_working_directory : option string; ws_updated_at : option string;
  ws_runtime_session_id : option string;
}.

#[export] Instance WorkstationAttachmentState_eq_dec : EqDecision WorkstationAttachmentState.
Proof. solve_decision. Defined.

(** The [json!] object of one accelerator. *)
Definition accelerator_json (a : WorkstationAcceleratorState) : json :=
  JObject {["kind" := JString (ac_kind a); "vendor" := jopt JString (ac_vendor a);
    "model" := jopt JString (ac_model a); "count" := ju64 (ac_count a);
    "memory_bytes_per_device" := jopt ju64 (ac_memory_bytes_per_device a);
    "readiness" := JString (ac_readiness a); "diagnostic" := jopt JString (ac_diagnostic a)]}.

Definition de_accelerator (v : json) : option WorkstationAcceleratorState :=
  match v with
  | JObject m =>
      kind ← required de_str m "kind";
      vendor ← defaulted None (de_opt de_str) m "vendor";
      model ← defaulted None (de_opt de_str) m "model";
      count ← required de_u64 m "count";
      mem ← defaulted None (de_opt de_u64) m "memory_bytes_per_device";
      readiness ← required de_str m "readiness";
      diagnostic ← defaulted None (de_opt de_str) m "diagnostic";
      Some (mkAccelerator kind vendor model count mem readiness diagnostic)
  | _ => None
  end.

Definition read_workstation_accelerators (m : gmap string node)
    : option (list WorkstationAcceleratorState) :=
  v ← read_json_value m "accelerators"; de_list de_accelerator v.

Definition workstation_attachment (d : RuntimeStateDoc) : option WorkstationAttachmentState :=
  m ← get_map "workstation" d;
  let w := NMap m in
  Some (mkWorkstation (read_str w "workstation_id") (read_str w "display_name")
    (read_str w "provider") (read_str w "default_environment_label")
    (read_str w "environment_policy") (read_str w "status") (read_opt_str w "status_message")
    (read_opt_u64 w "cpu_count") (read_opt_u64 w "memory_bytes") (read_workstation_accelerators m)
    (read_opt_str w "working_directory") (read_opt_str w "updated_at")
    (read_opt_str w "runtime_session_id")).

(** The fields in the order they are put. *)
Definition written_workstation (s : WorkstationAttachmentState) (w : gmap string node) : gmap string node :=
  let w := <["workstation_id" := str_node (ws_workstation_id s)]> w in
  let w := <["display_name" := str_node (ws_display_name s)]> w in
  let w := <["provider" := str_node (ws_provider s)]> w in
  let w := <["default_environment_label" := str_node (ws_default_environment_label s)]> w in
  let w := <["environment_policy" := str_node (ws_environment_policy s)]> w in
  let w := <["status" := str_node (ws_status s)]> w in
  let w := <["status_message" := opt_str_node (ws_status_message s)]> w in
  let w := <["cpu_count" := opt_uint_node (ws_cpu_count s)]> w in
  let w := <["memory_bytes" := opt_uint_node (ws_memory_bytes s)]> w in
  let accelerators := match ws_accelerators s with
    | Some l => JArray (accelerator_json <$> l)
    | None => JNull
    end in
  let w := update_json_at_key w "accelerators" accelerators in
  let w := <["working_directory" := opt_str_node (ws_working_directory s)]> w in
  let w := <["updated_at" := opt_str_node (ws_updated_at s)]> w in
  <["runtime_session_id" := opt_str_node (ws_runtime_session_id s)]> w.

Definition set_workstation_attachment (state : option WorkstationAttachmentState) : DocM () := fun d =>
  if decide (workstation_attachment d = state) then (d, Ok ())
  else match state with
  | None => (set_root "workstation" null_node d, Ok ())
  | Some s =>
      let '(d, w) := get_or_create_root_map "workstation" d in
      (set_root "workstation" (NMap (written_workstation s w)) d, Ok ())
  end.

(** ** Project context *)

Inductive ProjectFileKind := PyprojectToml | PixiToml | EnvironmentYmlFile.

Definition kind_as_str (k : ProjectFileKind) : string :=
  match k with
  | PyprojectToml => "pyproject_toml" | PixiToml => "pixi_toml" | EnvironmentYmlFile => "environment_yml"
  end.

Definition kind_parse (s : string) : option ProjectFileKind :=
  if decide (s = "pyproject_toml") then Some PyprojectToml
  else if decide (s = "pixi_toml") then Some PixiToml
  else if decide (s = "environment_yml") then Some EnvironmentYmlFile else None.

Record ProjectFile := mkProjectFile {
  pf_kind : ProjectFileKind; pf_absolute_path : string; pf_relative_to_notebook : string;
}.

Inductive ProjectFileExtras :=
| ExtrasNone
| ExtrasPixi (channels pypi_dependencies : list string)
| ExtrasEnvironmentYml (channels pip : list string) (name prefix : option string).

Record ProjectFileParsed := mkParsed {
  pp_dependencies : list string; pp_dev_dependencies : list string;
  pp_requires_python : option string; pp_prerelease : option string; pp_extras : ProjectFileExtras;
}.

Inductive ProjectContext :=
| Pending
| NotFound (observed_at : string)
| Detected (project_file : ProjectFile) (parsed : ProjectFileParsed) (observed_at : string)
| Unreadable (path reason observed_at : string).

Definition context_str (c : ProjectContext) : string :=
  match c with
  | Pending => "pending" | NotFound _ => "not_found" | Detected _ _ _ => "detected"
  | Unreadable _ _ _ => "unreadable"
  end.

Section ProjectContext.
(** [serde_json::to_string] and [from_str] on the extras. *)
Variable extras_to_string : ProjectFileExtras -> string.
Variable extras_from_str : string -> option ProjectFileExtras.

Definition read_project_file_parsed (pc : node) : ProjectFileParsed :=
  match obj_get pc "parsed" with
  | Some (NMap m) =>
      let p := NMap m in
      let extras_json := read_str p "extras" in
      mkParsed (read_str_list p "dependencies") (read_str_list p "dev_dependencies")
        (read_opt_str p "requires_python") (read_opt_str p "prerelease")
        (if decide (extras_json = "") then ExtrasNone
         else default ExtrasNone (extras_from_str extras_json))
  | _ => mkParsed [] [] None None ExtrasNone
  end.

Definition project_context (d : RuntimeStateDoc) : ProjectContext :=
  match get_map "project_context" d with
  | None => Pending
  | Some m =>
      let pc := NMap m in
      let state := read_str pc "state" in
      if decide (state = "not_found") then NotFound (read_str pc "observed_at")
      else if decide (state = "detected") then
        match kind_parse (read_str pc "kind") with
        | None => Pending
        | Some kind =>
            Detected (mkProjectFile kind (read_str pc "absolute_path")
                        (read_str pc "relative_to_notebook"))
              (read_project_file_parsed pc) (read_str pc "observed_at")
        end
      else if decide (state = "unreadable") then
        Unreadable (read_str pc "unreadable_path") (read_str pc "unreadable_reason")
          (read_str pc "observed_at")
      else Pending
  end.

(** [clear_project_file_parsed] and [write_project_file_parsed]: a fresh map. *)
Definition cleared_parsed : node :=
  NMap {["dependencies" := NList []; "dev_dependencies" := NList [];
         "requires_python" := null_node; "prerelease" := null_node; "extras" := str_node ""]}.

Definition written_parsed (p : ProjectFileParsed) : node :=
  NMap {["dependencies" := str_list (pp_dependencies p);
         "dev_dependencies" := str_list (pp_dev_dependencies p);
         "requires_python" := opt_str_node (pp_requires_python p);
         "prerelease" := opt_str_node (pp_prerelease p);
         "extras" := str_node (extras_to_string (pp_extras p))]}.

(** Every field is cleared, then those of the variant are filled in. *)
Definition cleared_context (ctx : ProjectContext) (pc : gmap string node) : gmap string node :=
  let pc := <["state" := str_node (context_str ctx)]> pc in
  let pc := <["observed_at" := str_node ""]> pc in
  let pc := <["kind" := str_node ""]> pc in
  let pc := <["absolute_path" := str_node ""]> pc in
  let pc := <["relative_to_notebook" := str_node ""]> pc in
  let pc := <["unreadable_path" := str_node ""]> pc in
  let pc := <["unreadable_reason" := str_node ""]> pc in
  <["parsed" := cleared_parsed]> pc.

Definition filled_context (ctx : ProjectContext) (pc : gmap string node) : gmap string node :=
  match ctx with
  | Pending => pc
  | NotFound at_ => <["observed_at" := str_node at_]> pc
  | Detected f p at_ =>
      let pc := <["observed_at" := str_node at_]> pc in
      let pc := <["kind" := str_node (kind_as_str (pf_kind f))]> pc in
      let pc := <["absolute_path" := str_node (pf_absolute_path f)]> pc in
      let pc := <["relative_to_notebook" := str_node (pf_relative_to_notebook f)]> pc in
      <["parsed" := written_parsed p]> pc
  | Unreadable path reason at_ =>
      <["unreadable_reason" := str_node reason]>
        (<["unreadable_path" := str_node path]> (<["observed_at" := str_node at_]> pc))
  end.

Definition set_project_context (ctx : ProjectContext) : DocM () := fun d =>
  do! pc := scaffold_map "project_context" d else d in
  (set_root "project_context" (NMap (filled_context ctx (cleared_context ctx pc))) d, Ok ()).
End ProjectContext.

(** ** Comms *)

Record CommDocEntry := mkComm {
  cm_target_name : string; cm_model_module : string; cm_model_name : string; cm_state : json;
  cm_outputs : list json; cm_seq : Z; cm_capture_msg_id : string;
}.

(** The [json!] record of [put_comm]; [seq as i64] wraps. *)
Definition comm_json (target module name : string) (state : json) (seq : Z) : json :=
  JObject {["target_name" := JString target; "model_module" := JString module;
    "model_name" := JString name; "state" := state;
    "seq" := JNumber (number_of_i64 (i64_of_u64 seq)); "outputs" := JArray [];
    "capture_msg_id" := JString ""]}.

Definition put_comm (comm_id target module name : string) (state : json) (seq : Z) : DocM () := fun d =>
  do! comms := scaffold_map "comms" d else d in
  (set_root "comms"
     (NMap (put_json_at_key_batched comms comm_id (comm_json target module name state seq))) d, Ok ()).

Definition comm_entry (comm_id : string) (d : RuntimeStateDoc) : option node :=
  comms ← get_map "comms" d; comms !! comm_id.

(** The comm entry with its new contents. *)
Definition put_comm_entry (comm_id : string) (n : node) (d : RuntimeStateDoc) : RuntimeStateDoc :=
  match get_map "comms" d with
  | Some comms => set_root "comms" (NMap (<[comm_id := n]> comms)) d
  | None => d
  end.

(** The state map of a comm, replaced by [f] of it; nothing happens without one. *)
Definition update_comm_state (comm_id : string) (f : gmap string node -> gmap string node) : DocM () :=
  fun d =>
  match comm_entry comm_id d with
  | Some (NMap e) =>
      match e !! "state" with
      | Some (NMap st) => (put_comm_entry comm_id (NMap (<["state" := NMap (f st)]> e)) d, Ok ())
      | _ => (d, Ok ())
      end
  | _ => (d, Ok ())
  end.

Definition set_comm_state_property (comm_id key : string) (v : json) : DocM () :=
  update_comm_state comm_id (fun st => update_json_at_key st key v).

(** A scalar that is already there is not written again. *)
Definition should_write (st : gmap string node) (key : string) (v : json) : bool :=
  match v with
  | JArray _ | JObject _ => true
  | _ => negb (bool_decide (read_json_value st key = Some v))
  end.

Definition merge_delta (st : gmap string node) (delta : gmap string json) : gmap string node :=
  foldl (fun st x => if should_write st x.1 x.2 then update_json_at_key st x.1 x.2 else st)
    st (map_to_list delta).

Definition merge_comm_state_delta (comm_id : string) (delta : json) : DocM () := fun d =>
  match delta with
  | JObject obj => update_comm_state comm_id (fun st => merge_delta st obj) d
  | _ => (d, Ok ())
  end.

Definition set_comm_capture_msg_id (comm_id msg_id : string) : DocM () := fun d =>
  match comm_entry comm_id d with
  | Some entry =>
      do! entry := obj_put entry "capture_msg_id" (str_node msg_id) else d in
      (put_comm_entry comm_id entry d, Ok ())
  | None => (d, Ok ())
  end.

(** The first comm, in the order of their ids, that captures the message. *)
Definition get_capture_widget (msg_id : string) (d : RuntimeStateDoc) : option string :=
  if decide (msg_id = "") then None
  else
    comms ← get_map "comms" d;
    head (filter (fun id =>
      (fun entry => read_str entry "capture_msg_id") <$> comms !! id = Some msg_id) (keys comms)).

Definition remove_comm (comm_id : string) : DocM () := fun d =>
  match get_map "comms" d with
  | Some comms => (set_root "comms" (NMap (delete comm_id comms)) d, Ok ())
  | None => (d, Ok ())
  end.

Definition clear_comms : DocM () := fun d =>
  match get_map "comms" d with
  | Some _ => (set_root "comms" (NMap ∅) d, Ok ())
  | None => (d, Ok ())
  end.

Definition read_json_list (n : node) (key : string) : list json :=
  match obj_get n key with Some (NList l) => omap read_node l | _ => [] end.

Definition get_comm (comm_id : string) (d : RuntimeStateDoc) : option CommDocEntry :=
  entry ← comm_entry comm_id d;
  Some (mkComm (read_str entry "target_name") (read_str entry "model_module")
    (read_str entry "model_name") (default (JObject ∅) (obj_get entry "state" ≫= read_node))
    (read_json_list entry "outputs") (u64_of_i64 (read_i64 entry "seq"))
    (read_str entry "capture_msg_id")).

Definition get_comms (d : RuntimeStateDoc) : gmap string CommDocEntry :=
  match get_map "comms" d with
  | None => ∅
  | Some comms => map_imap (fun id _ => get_comm id d) comms
  end.

Definition append_comm_output (comm_id : string) (manifest : json) : DocM () := fun d =>
  match comm_entry comm_id d with
  | Some (NMap e) =>
      match e !! "outputs" with
      | Some (NList l) =>
          (put_comm_entry comm_id (NMap (<["outputs" := NList (l ++ [fresh_node manifest])]> e)) d, Ok ())
      | _ => (d, Ok ())
      end
  | _ => (d, Ok ())
  end.

Definition clear_comm_outputs (comm_id : string) : DocM () := fun d =>
  match comm_entry comm_id d with
  | Some (NMap e) =>
      match e !! "outputs" with
      | Some (NList _) => (put_comm_entry comm_id (NMap (<["outputs" := NList []]> e)) d, Ok ())
      | _ => (d, Ok ())
      end
  | _ => (d, Ok ())
  end.

(** ** Bokeh sessions *)

Inductive BokehSessionStatus := Connected | Disconnected | Closed | SessionError.

#[export] Instance BokehSessionStatus_eq_dec : EqDecision BokehSessionStatus.
Proof. solve_decision. Defined.

Definition status_str (s : BokehSessionStatus) : string :=
  match s with
  | Connected => "connected" | Disconnected => "disconnected" | Closed => "closed"
  | SessionError => "error"
  end.

Definition de_status (v : json) : option BokehSessionStatus :=
  s ← de_str v;
  if decide (s = "connected") then Some Connected
  else if decide (s = "disconnected") then Some Disconnected
  else if decide (s = "closed") then Some Closed
  else if decide (s = "error") then Some SessionError else None.

Record BokehSessionState := mkSession {
  bs_output_id : string; bs_cell_id : string; bs_execution_id : string; bs_kernel_id : string;
  bs_status : BokehSessionStatus; bs_producer_name : string; bs_producer_version : string;
  bs_bokeh_version : string; bs_root_ids : list string; bs_epoch : Z; bs_doc_heads : list string;
  bs_previous_heads : list string;
}.

(** [serde_json::to_value]; empty previous heads are skipped. *)
Definition session_json (s : BokehSessionState) : json :=
  let m : gmap string json :=
    {["output_id" := JString (bs_output_id s); "cell_id" := JString (bs_cell_id s);
      "execution_id" := JString (bs_execution_id s); "kernel_id" := JString (bs_kernel_id s);
      "status" := JString (status_str (bs_status s));
      "producer_name" := JString (bs_producer_name s);
      "producer_version" := JString (bs_producer_version s);
      "bokeh_version" := JString (bs_bokeh_version s); "root_ids" := jstrs (bs_root_ids s);
      "epoch" := ju64 (bs_epoch s); "doc_heads" := jstrs (bs_doc_heads s)]} in
  JObject (match bs_previous_heads s with
    | [] => m
    | l => <["previous_heads" := jstrs l]> m
    end).

Definition de_session (v : json) : option BokehSessionState :=
  match v with
  | JObject m =>
      output_id ← required de_str m "output_id";
      cell_id ← required de_str m "cell_id";
      execution_id ← required de_str m "execution_id";
      kernel_id ← required de_str m "kernel_id";
      status ← required de_status m "status";
      producer_name ← required de_str m "producer_name";
      producer_version ← required de_str m "producer_version";
      bokeh_version ← required de_str m "bokeh_version";
      root_ids ← defaulted [] (de_list de_str) m "root_ids";
      epoch ← defaulted 0 de_u64 m "epoch";
      doc_heads ← defaulted [] (de_list de_str) m "doc_heads";
      previous_heads ← defaulted [] (de_list de_str) m "previous_heads";
      Some (mkSession output_id cell_id execution_id kernel_id status producer_name producer_version
              bokeh_version root_ids epoch doc_heads previous_heads)
  | _ => None
  end.

Definition put_bokeh_session (id : string) (s : BokehSessionState) : DocM () := fun d =>
  let '(d, sessions) := get_or_create_root_map "bokeh_sessions" d in
  (set_root "bokeh_sessions" (NMap (put_json_at_key_batched sessions id (session_json s))) d, Ok ()).

Definition get_bokeh_session (id : string) (d : RuntimeStateDoc) : option BokehSessionState :=
  sessions ← get_map "bokeh_sessions" d; v ← read_json_value sessions id; de_session v.

Definition get_bokeh_sessions (d : RuntimeStateDoc) : gmap string BokehSessionState :=
  match get_map "bokeh_sessions" d with
  | None => ∅
  | Some sessions => map_imap (fun id _ => get_bokeh_session id d) sessions
  end.

Definition with_status (st : BokehSessionStatus) (s : BokehSessionState) : BokehSessionState :=
  mkSession (bs_output_id s) (bs_cell_id s) (bs_execution_id s) (bs_kernel_id s) st
    (bs_producer_name s) (bs_producer_version s) (bs_bokeh_version s) (bs_root_ids s) (bs_epoch s)
    (bs_doc_heads s) (bs_previous_heads s).

Definition disconnect_bokeh_sessions_where (matches : string -> BokehSessionState -> bool)
    : DocM nat := fun d =>
  let sessions := filter (fun x : string * BokehSessionState =>
    bs_status x.2 = Connected /\ matches x.1 x.2 = true) (map_to_list (get_bokeh_sessions d)) in
  (foldl (fun d x => (put_bokeh_session x.1 (with_status Disconnected x.2) d).1) d sessions,
   Ok (length sessions)).

Definition disconnect_bokeh_sessions_for_kernel (kernel_id : string) : DocM nat :=
  disconnect_bokeh_sessions_where (fun _ s => bool_decide (bs_kernel_id s = kernel_id)).

Definition disconnect_all_bokeh_sessions : DocM nat :=
  disconnect_bokeh_sessions_where (fun _ _ => true).

Definition disconnect_bokeh_sessions (ids : list string) : DocM nat :=
  disconnect_bokeh_sessions_where (fun id _ => bool_decide (id ∈ ids)).

(** ** Lemmas *)

Lemma lookup_insert_str {A} (k k' : string) (v : A) (m : gmap string A) :
  <[k := v]> m !! k' = if String.eqb k k' then Some v else m !! k'.
Proof.
  destruct (String.eqb_spec k k'); [subst; by rewrite lookup_insert_eq|by rewrite lookup_insert_ne].
Qed.

Lemma lookup_singleton_str {A} (k k' : string) (v : A) :
  ({[k := v]} : gmap string A) !! k' = if String.eqb k k' then Some v else None.
Proof.
  destruct (String.eqb_spec k k'); [subst; by rewrite lookup_singleton_eq|by rewrite lookup_singleton_ne].
Qed.

(** Look a literal key up in a map built of literal keys. *)
Ltac map_keys :=
  rewrite ?lookup_insert_str, ?lookup_singleton_str; cbn [String.eqb Ascii.eqb Bool.eqb andb].

Lemma de_list_strs l : de_list de_str (jstrs l) = Some l.
Proof. cbn [de_list jstrs]. by apply mapM_fmap_Some. Qed.

Lemma de_opt_str o : de_opt de_str (jopt JString o) = Some o.
Proof. by destruct o. Qed.

Lemma de_opt_u64 o : de_opt de_u64 (jopt ju64 o) = Some o.
Proof. by destruct o. Qed.

Lemma de_accelerator_json a : de_accelerator (accelerator_json a) = Some a.
Proof.
  destruct a as [k v m c mem r di]. unfold accelerator_json, de_accelerator, required, defaulted.
  cbn [ac_kind ac_vendor ac_model ac_count ac_memory_bytes_per_device ac_readiness ac_diagnostic].
  map_keys. simpl. by destruct v, m, mem, di.
Qed.

Lemma de_accelerators l : de_list de_accelerator (JArray (accelerator_json <$> l)) = Some l.
Proof.
  cbn [de_list]. apply mapM_fmap_Some, de_accelerator_json.
Qed.

(** Encoded values are JSON values. *)
Definition opt_u64 (o : option Z) : Prop := match o with Some n => is_u64 n | None => True end.

Lemma json_ok_strs l : json_ok (jstrs l) = true.
Proof. cbn [json_ok jstrs]. induction l; [done|]. cbn. done. Qed.

Lemma json_ok_u64 n : is_u64 n -> json_ok (ju64 n) = true.
Proof. intros Hn. cbn. by apply bool_decide_eq_true_2. Qed.

Definition accelerator_ok (a : WorkstationAcceleratorState) : Prop :=
  is_u64 (ac_count a) /\ opt_u64 (ac_memory_bytes_per_device a).

Lemma json_ok_opt {A} (f : A -> json) o :
  (forall a, o = Some a -> json_ok (f a) = true) -> json_ok (jopt f o) = true.
Proof. destruct o as [a|]; [|done]. intros H. by apply H. Qed.

Ltac map_ok :=
  apply json_ok_object_2;
  repeat (lazymatch goal with
    | |- map_Forall _ (<[_ := _]> _) => apply map_Forall_insert_2
    | |- map_Forall _ {[_ := _]} => apply map_Forall_singleton
    end);
  try done; try (by apply json_ok_opt); try apply json_ok_strs.

Lemma accelerator_json_ok a : accelerator_ok a -> json_ok (accelerator_json a) = true.
Proof.
  intros [Hc Hm]. unfold accelerator_json. map_ok; [by apply json_ok_u64|].
  apply json_ok_opt. intros n Hn. rewrite Hn in Hm. by apply json_ok_u64.
Qed.

Lemma accelerators_json_ok l :
  Forall accelerator_ok l -> json_ok (JArray (accelerator_json <$> l)) = true.
Proof.
  intros H. cbn [json_ok]. apply forallb_forall. intros v (a & -> & Ha)%list_elem_of_In%list_elem_of_fmap.
  apply accelerator_json_ok. rewrite Forall_forall in H. auto.
Qed.

Lemma read_opt_str_node o : match opt_str_node o with NScalar (SStr s) => Some s | _ => None end = o.
Proof. by destruct o. Qed.

(** ** Trust *)

(** The lists a document needs for trust to be written. *)
Definition trust_ok (t : gmap string node) : Prop :=
  forall k, k ∈ ["approved_uv_dependencies"; "approved_conda_dependencies"; "approved_conda_channels";
    "approved_pixi_dependencies"; "approved_pixi_pypi_dependencies"; "approved_pixi_channels"] ->
  exists l, t !! k = Some (NList l).

Lemma replace_lists_ok kvs t d :
  (forall k l, (k, l) ∈ kvs -> exists l', t !! k = Some (NList l')) ->
  exists t', replace_lists kvs (NMap t) (set_root "trust" (NMap t) d) = (set_root "trust" (NMap t') d, Ok ()) /\
    forall k, t' !! k = foldl (fun o x => if String.eqb x.1 k then Some (str_list x.2) else o) (t !! k) kvs.
Proof.
  revert t. induction kvs as [|[k l] kvs IH]; intros t Ht; [by exists t|].
  destruct (Ht k l) as [l' Hl]; [by left|]. cbn [replace_lists]. unfold replace_str_list, scaffold_list.
  cbn [obj_get obj_put]. rewrite Hl.
  assert (forall n, set_root "trust" n (set_root "trust" (NMap t) d) = set_root "trust" n d) as ->.
  { intros n. unfold set_root. simpl. by rewrite insert_insert_eq. }
  destruct (IH (<[k := str_list l]> t)) as (t' & -> & Ht').
  { intros k2 l2 Hin. destruct (decide (k2 = k)) as [->|]; [by eexists; rewrite lookup_insert_eq|].
    rewrite lookup_insert_ne by done. apply (Ht k2 l2). by right. }
  exists t'. split; [done|]. intros k2. rewrite Ht'. cbn [foldl fst snd]. by rewrite lookup_insert_str.
Qed.

(** Trust written is trust read: on a document with the trust scaffold, with or
    without the list added after the frozen schema, the writer succeeds and the
    state reported afterwards is exactly the one written. *)
Theorem trust_roundtrip s d t :
  get_map "trust" d = Some t -> trust_ok t ->
  exists d', set_trust_state s d = (d', Ok ()) /\ trust_state d' = s.
Proof.
  intros Ht Hok. unfold set_trust_state. rewrite (get_map_scaffold _ _ _ Ht).
  set (t1 := match t !! "pep723_dependencies" with Some (NList _) => t | _ => _ end).
  assert (forall k, k ∈ ["pep723_dependencies"; "approved_uv_dependencies"; "approved_conda_dependencies";
    "approved_conda_channels"; "approved_pixi_dependencies"; "approved_pixi_pypi_dependencies";
    "approved_pixi_channels"] -> exists l, t1 !! k = Some (NList l)) as Hok1.
  { intros k [->|Hk]%elem_of_cons.
    - unfold t1. destruct (t !! "pep723_dependencies") as [[]|] eqn:Hp; rewrite ?lookup_insert_eq; eauto.
    - destruct (Hok k Hk) as [l Hl]. exists l. unfold t1.
      assert (k <> "pep723_dependencies") as Hne by set_solver.
      destruct (t !! "pep723_dependencies") as [[]|]; rewrite ?lookup_insert_ne by done; done. }
  case_decide as Hs.
  { eexists. split; [done|]. unfold trust_state. by rewrite get_map_set_root, decide_True. }
  assert (forall n, set_root "trust" n (set_root "trust" (NMap t1) d) = set_root "trust" n d) as ->.
  { intros n. unfold set_root. simpl. by rewrite insert_insert_eq. }
  match goal with |- context [replace_lists _ (NMap ?t2) _] => set (t2' := t2) end.
  destruct (replace_lists_ok (trust_lists s) t2' d) as (t' & -> & Ht').
  { intros k l Hin. assert (k ∈ (trust_lists s).*1) as Hk by (apply list_elem_of_fmap; by exists (k, l)).
    unfold t2'. rewrite !lookup_insert_ne by (intros <-; revert Hk; cbn; set_solver).
    apply Hok1. exact Hk. }
  eexists. split; [done|]. unfold trust_state. rewrite get_map_set_root, decide_True by done.
  unfold read_trust, read_str, read_bool, read_str_list. cbn [obj_get]. rewrite !Ht'.
  cbn [trust_lists foldl fst snd String.eqb Ascii.eqb Bool.eqb andb str_list].
  rewrite !omap_node_str. unfold t2'. destruct s. by rewrite lookup_insert_eq, lookup_insert_ne, lookup_insert_eq by done.
Qed.

(** ** Workstation *)

Definition workstation_ok (s : WorkstationAttachmentState) : Prop :=
  match ws_accelerators s with Some l => Forall accelerator_ok l | None => True end.

Ltac ws_key := unfold written_workstation, update_json_at_key; by map_keys.

(** The room's workstation attachment reads back as published, inventory
    included: no inventory, an empty one and a known one stay distinct; clearing
    it leaves none. *)
Theorem workstation_roundtrip state d :
  match state with Some s => workstation_ok s | None => True end ->
  exists d', set_workstation_attachment state d = (d', Ok ()) /\ workstation_attachment d' = state.
Proof.
  intros Hok. unfold set_workstation_attachment. case_decide as Hs; [by exists d|].
  destruct state as [s|].
  - destruct (get_or_create_spec "workstation" d) as (d' & -> & Hset). eexists. split; [done|].
    rewrite Hset. unfold workstation_attachment. rewrite get_map_set_root, decide_True by done.
    cbn [mbind option_bind]. set (w := default ∅ _).
    assert (read_workstation_accelerators (written_workstation s w) = ws_accelerators s) as ->.
    { unfold read_workstation_accelerators, read_json_value.
      assert (exists o, written_workstation s w !! "accelerators" = Some (update_node o
        (match ws_accelerators s with Some l => JArray (accelerator_json <$> l) | None => JNull end)))
        as [o ->] by (eexists; ws_key).
      cbn [mbind option_bind]. rewrite update_node_fresh. unfold workstation_ok in Hok.
      destruct (ws_accelerators s) as [l|]; [|done].
      rewrite read_fresh_node by (by apply accelerators_json_ok). apply de_accelerators. }
    assert (forall k v, written_workstation s w !! k = Some (str_node v) ->
      read_str (NMap (written_workstation s w)) k = v) as Hstr
      by (intros k v Hk; unfold read_str; cbn [obj_get]; by rewrite Hk).
    assert (forall k v, written_workstation s w !! k = Some (opt_str_node v) ->
      read_opt_str (NMap (written_workstation s w)) k = v) as Hopt
      by (intros k v Hk; unfold read_opt_str; cbn [obj_get]; rewrite Hk; by destruct v).
    assert (forall k v, written_workstation s w !! k = Some (opt_uint_node v) ->
      read_opt_u64 (NMap (written_workstation s w)) k = v) as Hnum
      by (intros k v Hk; unfold read_opt_u64; cbn [obj_get]; rewrite Hk; by destruct v).
    rewrite (Hstr "workstation_id" (ws_workstation_id s)) by ws_key.
    rewrite (Hstr "display_name" (ws_display_name s)) by ws_key.
    rewrite (Hstr "provider" (ws_provider s)) by ws_key.
    rewrite (Hstr "default_environment_label" (ws_default_environment_label s)) by ws_key.
    rewrite (Hstr "environment_policy" (ws_environment_policy s)) by ws_key.
    rewrite (Hstr "status" (ws_status s)) by ws_key.
    rewrite (Hopt "status_message" (ws_status_message s)) by ws_key.
    rewrite (Hnum "cpu_count" (ws_cpu_count s)) by ws_key.
    rewrite (Hnum "memory_bytes" (ws_memory_bytes s)) by ws_key.
    rewrite (Hopt "working_directory" (ws_working_directory s)) by ws_key.
    rewrite (Hopt "updated_at" (ws_updated_at s)) by ws_key.
    rewrite (Hopt "runtime_session_id" (ws_runtime_session_id s)) by ws_key.
    by destruct s.
  - eexists. split; [done|]. unfold workstation_attachment.
    by rewrite get_map_set_root, decide_True.
Qed.

(** ** Project context *)

Lemma kind_roundtrip k : kind_parse (kind_as_str k) = Some k.
Proof. by destruct k. Qed.

Lemma read_written_parsed to_s from_s p pc :
  to_s (pp_extras p) <> "" -> from_s (to_s (pp_extras p)) = Some (pp_extras p) ->
  obj_get pc "parsed" = Some (written_parsed to_s p) ->
  read_project_file_parsed from_s pc = p.
Proof.
  intros Hne Hfrom Hp. unfold read_project_file_parsed. rewrite Hp. unfold written_parsed.
  destruct p as [deps dev py pre ex].
  cbn [pp_dependencies pp_dev_dependencies pp_requires_python pp_prerelease pp_extras] in *.
  unfold read_str_list, read_opt_str, read_str. cbn [obj_get]. map_keys. cbn [str_list str_node].
  rewrite !omap_node_str, decide_False, Hfrom by done. by destruct py, pre.
Qed.

(** The project context reads back as written, whatever state the document was
    in before: nothing of an earlier detection survives in a later one.  (serde
    must round-trip the extras of a detected file.) *)
Theorem project_context_roundtrip to_s from_s ctx d :
  is_Some (get_map "project_context" d) ->
  match ctx with
  | Detected _ p _ => to_s (pp_extras p) <> "" /\ from_s (to_s (pp_extras p)) = Some (pp_extras p)
  | _ => True
  end ->
  exists d', set_project_context to_s ctx d = (d', Ok ()) /\ project_context from_s d' = ctx.
Proof.
  intros [pc Hpc] Hserde. unfold set_project_context. rewrite (get_map_scaffold _ _ _ Hpc).
  eexists. split; [done|]. unfold project_context. rewrite get_map_set_root, decide_True by done.
  set (pc' := filled_context _ _ _).
  assert (forall k v, pc' !! k = Some (str_node v) -> read_str (NMap pc') k = v) as Hstr
    by (intros k v Hk; unfold read_str; cbn [obj_get]; by rewrite Hk).
  rewrite (Hstr "state" (context_str ctx))
    by (unfold pc', cleared_context; destruct ctx; cbn [filled_context]; by map_keys).
  destruct ctx as [|at_|[k ap rel] p at_|path reason at_]; cbn [context_str].
  - done.
  - rewrite decide_True by done. f_equal. apply Hstr. unfold pc', cleared_context. cbn [filled_context]. by map_keys.
  - rewrite decide_False, decide_True by done. destruct Hserde as [Hne Hfrom].
    rewrite (Hstr "kind" (kind_as_str k)), kind_roundtrip
      by (unfold pc', cleared_context; cbn [filled_context]; by map_keys).
    rewrite (read_written_parsed to_s from_s p) by
      (try done; unfold pc', cleared_context; cbn [filled_context obj_get]; by map_keys).
    rewrite (Hstr "absolute_path" ap), (Hstr "relative_to_notebook" rel), (Hstr "observed_at" at_)
      by (unfold pc', cleared_context; cbn [filled_context]; by map_keys). done.
  - rewrite !decide_False, decide_True by done.
    rewrite (Hstr "unreadable_path" path), (Hstr "unreadable_reason" reason), (Hstr "observed_at" at_)
      by (unfold pc', cleared_context; cbn [filled_context]; by map_keys). done.
Qed.

(** ** Comms *)

Lemma get_map_set_comms comms d : get_map "comms" (set_root "comms" (NMap comms) d) = Some comms.
Proof. by rewrite get_map_set_root, decide_True. Qed.

Lemma i64_of_u64_bounds n : is_u64 n -> - 2 ^ 63 <= i64_of_u64 n < 2 ^ 63 /\ u64_of_i64 (i64_of_u64 n) = n.
Proof.
  unfold is_u64, u64_max, i64_of_u64, u64_of_i64, i64_max. intros Hn.
  destruct (Z.leb_spec n (2 ^ 63 - 1)).
  - split; [lia|]. apply Z.mod_small. lia.
  - split; [lia|]. symmetry. apply Z.mod_unique with (-1); lia.
Qed.

Lemma number_of_i64_node i :
  - 2 ^ 63 <= i < 2 ^ 63 -> fresh_node (JNumber (number_of_i64 i)) = NScalar (SInt i).
Proof.
  intros Hi. cbn [fresh_node]. unfold number_of_i64. destruct (Z.ltb_spec i 0); [done|].
  cbn [number_scalar]. unfold i64_max. by destruct (Z.leb_spec i (2 ^ 63 - 1)); [|lia].
Qed.

Lemma comm_entry_set comm_id n comms d :
  comm_entry comm_id (set_root "comms" (NMap (<[comm_id := n]> comms)) d) = Some n.
Proof. unfold comm_entry. rewrite get_map_set_comms. simpl. apply lookup_insert_eq. Qed.

Lemma put_comm_json comms comm_id m :
  put_json_at_key_batched comms comm_id (JObject m) = <[comm_id := NMap (fresh_node <$> m)]> comms.
Proof. unfold put_json_at_key_batched. by rewrite fresh_node_hydrate. Qed.

(** A widget opened is the widget read: target, model, state and order come
    back, with no outputs and no capture; reopening under the same id replaces
    it, and no other widget changes. *)
Theorem comm_roundtrip comm_id target module name state seq d comms :
  get_map "comms" d = Some comms -> json_ok state = true -> is_u64 seq ->
  exists d', put_comm comm_id target module name state seq d = (d', Ok ()) /\
    get_comm comm_id d' = Some (mkComm target module name state [] seq "") /\
    forall x, x <> comm_id -> get_comm x d' = get_comm x d.
Proof.
  intros Hc Hst Hseq. unfold put_comm. rewrite (get_map_scaffold _ _ _ Hc). unfold comm_json.
  rewrite put_comm_json. eexists. split; [done|]. split.
  - unfold get_comm. rewrite comm_entry_set. cbn [mbind option_bind].
    unfold read_str, read_json_list, read_i64. cbn [obj_get]. rewrite !lookup_fmap.
    map_keys. cbn [fmap option_fmap option_map mbind option_bind].
    destruct (i64_of_u64_bounds seq Hseq) as [Hb Hrt]. rewrite number_of_i64_node, Hrt by done.
    cbn [default]. by rewrite read_fresh_node.
  - intros x Hx. unfold get_comm, comm_entry. rewrite get_map_set_comms, Hc. simpl.
    by rewrite lookup_insert_ne.
Qed.

(** What a merge leaves under a key. *)
Lemma merge_step_read st k v x :
  json_ok v = true ->
  read_json_value (if should_write st k v then update_json_at_key st k v else st) x =
    if decide (x = k) then Some v else read_json_value st x.
Proof.
  intros Hv. destruct (should_write st k v) eqn:Hw.
  - unfold read_json_value, update_json_at_key. case_decide.
    + subst. rewrite lookup_insert_eq. simpl. rewrite update_node_fresh. by apply read_fresh_node.
    + by rewrite lookup_insert_ne.
  - case_decide; [subst|done].
    destruct v; cbn [should_write] in Hw; try done;
      by apply negb_false_iff, bool_decide_eq_true in Hw.
Qed.

Lemma merge_fold_read l st x :
  NoDup l.*1 -> Forall (fun y : string * json => json_ok y.2 = true) l ->
  read_json_value (foldl (fun st y => if should_write st y.1 y.2 then update_json_at_key st y.1 y.2 else st) st l) x =
    match list_to_map (M := gmap string json) l !! x with
    | Some v => Some v
    | None => read_json_value st x
    end.
Proof.
  revert st. induction l as [|[k v] l IH]; intros st Hnd Hall; [by simpl; rewrite lookup_empty|].
  apply NoDup_cons in Hnd as [Hk Hnd]. apply Forall_cons in Hall as [Hv Hall].
  cbn [foldl fst snd list_to_map]. rewrite IH by done.
  destruct (decide (x = k)) as [->|Hne].
  - rewrite (not_elem_of_list_to_map_1 (M := gmap string) l k) by done. simpl. rewrite lookup_insert_eq.
    by rewrite merge_step_read, decide_True.
  - simpl. rewrite lookup_insert_ne by done.
    destruct (list_to_map l !! x); [done|]. by rewrite merge_step_read, decide_False.
Qed.

(** A widget update sets exactly the keys it names to the values it carries and
    keeps the others; an echo of scalars that are already there writes nothing
    at all, so the loop between browser and kernel dies out. *)
Theorem comm_delta_merges st delta :
  map_Forall (fun _ v => json_ok v = true) delta ->
  (forall k, read_json_value (merge_delta st delta) k =
     match delta !! k with Some v => Some v | None => read_json_value st k end) /\
  (map_Forall (fun k v => should_write st k v = false) delta -> merge_delta st delta = st).
Proof.
  intros Hok. unfold merge_delta. split.
  - intros k. rewrite merge_fold_read; [by rewrite list_to_map_to_list|apply NoDup_fst_map_to_list|].
    apply Forall_forall. intros [k' v] Hin%elem_of_map_to_list. by apply (Hok k').
  - intros Hno. assert (Forall (fun x : string * json => should_write st x.1 x.2 = false) (map_to_list delta)) as Hall.
    { apply Forall_forall. intros [k v] Hin%elem_of_map_to_list. by apply (Hno k). }
    induction Hall as [|[k v] l Hw _ IH]; [done|]. cbn [foldl fst snd]. simpl in Hw. by rewrite Hw.
Qed.

(** ** Bokeh sessions *)

Lemma de_status_str s : de_status (JString (status_str s)) = Some s.
Proof. by destruct s. Qed.

(** The map of a session without its previous heads, and with them. *)
Definition session_map (s : BokehSessionState) : gmap string json :=
  match session_json s with JObject m => m | _ => ∅ end.

Lemma session_map_keys s :
  session_map s !! "output_id" = Some (JString (bs_output_id s)) /\
  session_map s !! "cell_id" = Some (JString (bs_cell_id s)) /\
  session_map s !! "execution_id" = Some (JString (bs_execution_id s)) /\
  session_map s !! "kernel_id" = Some (JString (bs_kernel_id s)) /\
  session_map s !! "status" = Some (JString (status_str (bs_status s))) /\
  session_map s !! "producer_name" = Some (JString (bs_producer_name s)) /\
  session_map s !! "producer_version" = Some (JString (bs_producer_version s)) /\
  session_map s !! "bokeh_version" = Some (JString (bs_bokeh_version s)) /\
  session_map s !! "root_ids" = Some (jstrs (bs_root_ids s)) /\
  session_map s !! "epoch" = Some (ju64 (bs_epoch s)) /\
  session_map s !! "doc_heads" = Some (jstrs (bs_doc_heads s)) /\
  session_map s !! "previous_heads" =
    match bs_previous_heads s with [] => None | l => Some (jstrs l) end.
Proof.
  split_and!; unfold session_map, session_json; destruct (bs_previous_heads s); by map_keys.
Qed.

Lemma de_session_json s : de_session (session_json s) = Some s.
Proof.
  change (session_json s) with (JObject (session_map s)). unfold de_session, required, defaulted.
  destruct (session_map_keys s) as (H1 & H2 & H3 & H4 & H5 & H6 & H7 & H8 & H9 & H10 & H11 & H12).
  rewrite H1, H2, H3, H4, H5, H6, H7, H8, H9, H10, H11, H12. cbn [mbind option_bind].
  rewrite de_status_str, !de_list_strs. cbn [mbind option_bind de_str de_u64 ju64].
  assert (match match bs_previous_heads s with [] => None | l => Some (jstrs l) end with
    | Some v => de_list de_str v | None => Some [] end = Some (bs_previous_heads s)) as ->.
  { destruct (bs_previous_heads s) as [|p ph]; [done|]. apply de_list_strs. }
  by destruct s.
Qed.

Lemma session_json_ok s : is_u64 (bs_epoch s) -> json_ok (session_json s) = true.
Proof.
  intros He. unfold session_json. destruct (bs_previous_heads s); map_ok; by apply json_ok_u64.
Qed.

Lemma put_session_get id s d x :
  is_u64 (bs_epoch s) ->
  get_bokeh_session x (put_bokeh_session id s d).1 =
    if decide (x = id) then Some s else get_bokeh_session x d.
Proof.
  intros He. unfold put_bokeh_session. destruct (get_or_create_spec "bokeh_sessions" d) as (d' & -> & Hset).
  cbn [fst]. rewrite Hset. unfold get_bokeh_session. rewrite get_map_set_root, decide_True by done.
  cbn [mbind option_bind]. assert (exists m, session_json s = JObject m) as [m Hm] by (by eexists).
  rewrite Hm, put_comm_json. unfold read_json_value at 1.
  destruct (decide (x = id)) as [->|Hne].
  - rewrite lookup_insert_eq. cbn [mbind option_bind].
    change (NMap (fresh_node <$> m)) with (fresh_node (JObject m)).
    rewrite <- Hm, read_fresh_node by (by apply session_json_ok). apply de_session_json.
  - rewrite lookup_insert_ne by done. unfold read_json_value.
    destruct (get_map "bokeh_sessions" d) as [ss|]; [done|]. simpl. by rewrite lookup_empty.
Qed.

Lemma lookup_sessions d id : get_bokeh_sessions d !! id = get_bokeh_session id d.
Proof.
  unfold get_bokeh_sessions. destruct (get_map "bokeh_sessions" d) as [ss|] eqn:Hs.
  - rewrite map_lookup_imap. destruct (ss !! id) eqn:Hi; [done|]. simpl.
    unfold get_bokeh_session. rewrite Hs. simpl. unfold read_json_value. by rewrite Hi.
  - unfold get_bokeh_session. by rewrite Hs.
Qed.

Lemma put_sessions_fold (l : list (string * BokehSessionState)) d x :
  NoDup l.*1 -> Forall (fun y => is_u64 (bs_epoch y.2)) l ->
  get_bokeh_session x (foldl (fun d y => (put_bokeh_session y.1 (with_status Disconnected y.2) d).1) d l) =
    match list_to_map (M := gmap string BokehSessionState) l !! x with
    | Some s => Some (with_status Disconnected s)
    | None => get_bokeh_session x d
    end.
Proof.
  revert d. induction l as [|[id s] l IH]; intros d Hnd Hall; [by simpl; rewrite lookup_empty|].
  apply NoDup_cons in Hnd as [Hk Hnd]. apply Forall_cons in Hall as [Hv Hall].
  cbn [foldl fst snd]. rewrite IH by done. simpl. destruct (decide (x = id)) as [->|Hne].
  - rewrite (not_elem_of_list_to_map_1 (M := gmap string) l id) by done. rewrite lookup_insert_eq.
    by rewrite put_session_get, decide_True.
  - rewrite lookup_insert_ne by done. destruct (list_to_map l !! x); [done|].
    by rewrite put_session_get, decide_False.
Qed.

(** Losing a kernel freezes exactly its connected sessions: each of them reads
    as disconnected with every other field kept, so mounted clients go on
    rendering them; sessions of other kernels, and those already closed, are
    untouched; the count reported is the number frozen. *)
Theorem disconnect_freezes_matching matches d :
  (forall id s, get_bokeh_session id d = Some s -> is_u64 (bs_epoch s)) ->
  let '(d', r) := disconnect_bokeh_sessions_where matches d in
  (forall id, get_bokeh_session id d' =
     (fun s => if bool_decide (bs_status s = Connected) && matches id s then with_status Disconnected s else s)
       <$> get_bokeh_session id d) /\
  r = Ok (base.size (filter (fun x : string * BokehSessionState =>
    bs_status x.2 = Connected /\ matches x.1 x.2 = true) (get_bokeh_sessions d))).
Proof.
  intros Hep. unfold disconnect_bokeh_sessions_where.
  set (P := fun x : string * BokehSessionState => bs_status x.2 = Connected /\ matches x.1 x.2 = true).
  set (L := filter P (map_to_list (get_bokeh_sessions d))).
  assert (NoDup L.*1) as Hnd.
  { apply (sublist_NoDup _ _ (NoDup_fst_map_to_list (get_bokeh_sessions d))).
    apply fmap_sublist, sublist_filter. }
  assert (forall id s, (id, s) ∈ L <-> P (id, s) /\ get_bokeh_session id d = Some s) as Hin.
  { intros id s. unfold L. by rewrite list_elem_of_filter, elem_of_map_to_list, lookup_sessions. }
  split.
  - intros id. rewrite put_sessions_fold; [|done|].
    + destruct (list_to_map L !! id) as [s|] eqn:Hl.
      * apply (elem_of_list_to_map_2 (M := gmap string)), Hin in Hl as [[Hc Hm] Hs]. rewrite Hs. simpl in *.
        by rewrite bool_decide_eq_true_2, Hm.
      * apply (not_elem_of_list_to_map_2 (M := gmap string)) in Hl.
        destruct (get_bokeh_session id d) as [s|] eqn:Hs; [|done]. simpl.
        destruct (bool_decide (bs_status s = Connected) && matches id s) eqn:Hb; [|done].
        apply andb_true_iff in Hb as [Hb%bool_decide_eq_true Hm]. destruct Hl.
        apply list_elem_of_fmap. exists (id, s). split; [done|]. by apply Hin.
    + apply Forall_forall. intros [id2 s] [_ Hs]%Hin. by eapply Hep.
  - rewrite map_filter_alt. fold L. by rewrite map_size_list_to_map.
Qed.

Module CommExamples.

Definition gpu : WorkstationAcceleratorState :=
  mkAccelerator "gpu" (Some "nvidia") None 2 (Some 1000) "ready" None.
Definition station : WorkstationAttachmentState :=
  mkWorkstation "w1" "Lab" "ssh" "py" "current" "ready" None (Some 8) None (Some [gpu]) None None (Some "job").

Definition new_trust : gmap string node := default ∅ (get_map "trust" new_runtime_doc).

Lemma trust_roundtrip_witness :
  exists d', set_trust_state (mkTrust "trusted" false ["pandas"] [] [] [] [] [] ["conda-forge"]) new_runtime_doc =
    (d', Ok ()) /\ trust_state d' = mkTrust "trusted" false ["pandas"] [] [] [] [] [] ["conda-forge"].
Proof.
  apply (trust_roundtrip _ new_runtime_doc new_trust); [reflexivity|]. intros k Hk.
  repeat (apply elem_of_cons in Hk as [->|Hk]; [exists []; vm_compute; reflexivity|]).
  by apply not_elem_of_nil in Hk.
Defined.

Lemma workstation_roundtrip_witness :
  exists d', set_workstation_attachment (Some station) new_runtime_doc = (d', Ok ()) /\
    workstation_attachment d' = Some station.
Proof.
  apply (workstation_roundtrip (Some station) new_runtime_doc).
  repeat constructor; vm_compute; discriminate.
Defined.

(** An encoder that tells the two extras used here apart. *)
Definition to_s (x : ProjectFileExtras) : string := match x with ExtrasNone => "none" | _ => "other" end.
Definition from_s (s : string) : option ProjectFileExtras :=
  if decide (s = "none") then Some ExtrasNone else None.
Definition found : ProjectContext :=
  Detected (mkProjectFile PyprojectToml "/p/pyproject.toml" "../pyproject.toml")
    (mkParsed ["numpy"] [] (Some ">=3.11") None ExtrasNone) "now".

Lemma project_context_roundtrip_witness :
  exists d', set_project_context to_s found new_runtime_doc = (d', Ok ()) /\ project_context from_s d' = found.
Proof.
  apply (project_context_roundtrip to_s from_s found new_runtime_doc); [by eexists|]. by split.
Defined.

Definition slider : json := JObject {["value" := JNumber (PosInt 3)]}.

Lemma comm_roundtrip_witness :
  exists d', put_comm "c" "jupyter.widget" "m" "Slider" slider 18446744073709551615 new_runtime_doc = (d', Ok ()) /\
    get_comm "c" d' = Some (mkComm "jupyter.widget" "m" "Slider" slider [] 18446744073709551615 "").
Proof.
  destruct (comm_roundtrip "c" "jupyter.widget" "m" "Slider" slider 18446744073709551615 new_runtime_doc ∅)
    as (d' & H & H2 & _); [reflexivity|reflexivity|vm_compute; split; discriminate|].
  exists d'. by split.
Defined.

Definition kept : gmap string node := {["value" := NScalar (SInt 3); "min" := NScalar (SInt 0)]}.

Lemma comm_delta_merges_witness :
  merge_delta kept {["value" := JNumber (PosInt 3)]} = kept.
Proof.
  apply (comm_delta_merges kept {["value" := JNumber (PosInt 3)]}).
  - by apply map_Forall_singleton.
  - by apply map_Forall_singleton.
Defined.

Definition session (st : BokehSessionStatus) : BokehSessionState :=
  mkSession "o" "c" "e" "k1" st "panel" "1" "3" ["r"] 4 ["aa"] [].
Definition two_sessions : RuntimeStateDoc :=
  (put_bokeh_session "s2" (session Closed) (put_bokeh_session "s1" (session Connected) new_runtime_doc).1).1.

Lemma disconnect_freezes_matching_witness :
  let '(d', _) := disconnect_bokeh_sessions_for_kernel "k1" two_sessions in
  get_bokeh_session "s1" d' =
    (fun s => if bool_decide (bs_status s = Connected) && bool_decide (bs_kernel_id s = "k1")
              then with_status Disconnected s else s) <$> get_bokeh_session "s1" two_sessions.
Proof.
  pose proof (disconnect_freezes_matching (fun _ s => bool_decide (bs_kernel_id s = "k1")) two_sessions) as H.
  unfold disconnect_bokeh_sessions_for_kernel.
  destruct (disconnect_bokeh_sessions_where _ two_sessions) as [d' r]. apply H.
  intros id s. unfold two_sessions.
  rewrite !put_session_get by (vm_compute; split; discriminate).
  case_decide; [intros [= <-]; vm_compute; split; discriminate|].
  case_decide; [intros [= <-]; vm_compute; split; discriminate|]. discriminate.
Defined.

(** Two widgets capture the same message: the lookup answers with the first id, not
    with the widget that was set last. *)
Example capture_is_first_id :
  let d := (put_comm "b" "t" "m" "n" slider 1 (put_comm "a" "t" "m" "n" slider 0 new_runtime_doc).1).1 in
  let d := (set_comm_capture_msg_id "b" "msg" (set_comm_capture_msg_id "a" "msg" d).1).1 in
  get_capture_widget "msg" d = Some "a".
Proof. vm_compute. reflexivity. Qed.

End CommExamples.
