(* ===== verification/Identity.v ===== *)
(** * Identity of connections

    Model of [crates/nteract-identity/src/lib.rs] and [local.rs]: principals,
    operators and actor labels with their validation, connection scopes, and the
    labels an authenticated connection may write under.  The theorems: labels
    round-trip through their text, no operator and no presented label can carry
    another principal into a connection's label, and the scope predicates form
    the ladder the hosts rely on.  The OIDC and JupyterHub providers are behind
    features and rest on token libraries; they are not modelled. *)

From S2P Require Import Prelude.

(** ** Strings *)

(** [str::contains], [str::split_once] and [str::find] with one character. *)
Fixpoint contains (c : Ascii.ascii) (s : string) : bool :=
  match s with
  | EmptyString => false
  | String a s => bool_decide (a = c) || contains c s
  end.

Fixpoint split_at (c : Ascii.ascii) (s : string) : option (string * string) :=
  match s with
  | EmptyString => None
  | String a s =>
      if decide (a = c) then Some ("", s)
      else match split_at c s with Some (l, r) => Some (String a l, r) | None => None end
  end%string.

Definition slash : Ascii.ascii := Ascii.ascii_of_nat 47.
Definition colon : Ascii.ascii := Ascii.ascii_of_nat 58.

(** ** Errors *)

(** The part of [AuthError] this code raises. *)
Inductive AuthError :=
| EmptyPrincipal | PrincipalContainsSlash | PrincipalMissingScheme | PrincipalEmptyScheme
| PrincipalEmptyId | EmptyOperator | EmptyOperatorKind | OperatorContainsSlash
| ActorLabelMissingDelimiter | EmptyLocalUsername | LocalUsernameContainsSlash
| InvalidCredential | UnknownConnectionScope (value : string) | OperatorKindNotAllowed (kind : string).

#[export] Instance AuthError_eq_dec : EqDecision AuthError.
Proof. solve_decision. Defined.

(** ** Principals and operators *)

(** [Principal] and [Operator] wrap validated strings. *)
Record Principal := mkPrincipal { principal_str : string }.
Record Operator := mkOperator { operator_str : string }.

#[export] Instance Principal_eq_dec : EqDecision Principal.
Proof. solve_decision. Defined.
#[export] Instance Operator_eq_dec : EqDecision Operator.
Proof. solve_decision. Defined.

Definition SYSTEM : string := "system".

Definition principal_new (value : string) : result AuthError Principal :=
  if decide (value = "") then Err EmptyPrincipal
  else if contains slash value then Err PrincipalContainsSlash
  else if decide (value = SYSTEM) then Ok (mkPrincipal value)
  else match split_at colon value with
  | None => Err PrincipalMissingScheme
  | Some (scheme, id) =>
      if decide (scheme = "") then Err PrincipalEmptyScheme
      else if decide (id = "") then Err PrincipalEmptyId
      else Ok (mkPrincipal value)
  end.

Definition operator_new (value : string) : result AuthError Operator :=
  if decide (value = "") then Err EmptyOperator
  else if contains slash value then Err OperatorContainsSlash
  else match value with
  | String a _ => if decide (a = colon) then Err EmptyOperatorKind else Ok (mkOperator value)
  | EmptyString => Err EmptyOperator
  end.

Definition operator_kind (o : Operator) : string :=
  match split_at colon (operator_str o) with Some (kind, _) => kind | None => operator_str o end.

(** ** Actor labels *)

(** [ActorLabel]: the text and the index of its delimiter. *)
Record ActorLabel := mkLabel { label_str : string; delimiter_index : nat }.

#[export] Instance ActorLabel_eq_dec : EqDecision ActorLabel.
Proof. solve_decision. Defined.

Definition label_new (p : Principal) (o : Operator) : ActorLabel :=
  mkLabel (principal_str p +:+ String slash (operator_str o)) (String.length (principal_str p)).

Definition label_principal (l : ActorLabel) : string := String.substring 0 (delimiter_index l) (label_str l).
Definition label_operator (l : ActorLabel) : string :=
  String.substring (S (delimiter_index l)) (String.length (label_str l) - S (delimiter_index l))%nat (label_str l).

(** [find('/')] is the length of what stands before the first slash. *)
Definition label_parse (value : string) : result AuthError ActorLabel :=
  match split_at slash value with
  | None => Err ActorLabelMissingDelimiter
  | Some (before, after) =>
      let? _ := principal_new before in
      let? _ := operator_new after in
      Ok (mkLabel value (String.length before))
  end.

Definition principal_value (l : ActorLabel) : result AuthError Principal := principal_new (label_principal l).
Definition operator_value (l : ActorLabel) : result AuthError Operator := operator_new (label_operator l).

Definition with_principal (l : ActorLabel) (p : Principal) : result AuthError ActorLabel :=
  let? o := operator_value l in Ok (label_new p o).

Definition from_actor_label_or_operator (value : string) : result AuthError Operator :=
  match label_parse value with
  | Ok l => operator_value l
  | Err ActorLabelMissingDelimiter => operator_new value
  | Err e => Err e
  end.

(** ** Scopes *)

Inductive ConnectionScope := Viewer | Editor | RuntimePeer | Owner.

#[export] Instance ConnectionScope_eq_dec : EqDecision ConnectionScope.
Proof. solve_decision. Defined.

Definition ALL : list ConnectionScope := [Viewer; Editor; RuntimePeer; Owner].

Definition scope_str (s : ConnectionScope) : string :=
  match s with Viewer => "viewer" | Editor => "editor" | RuntimePeer => "runtime_peer" | Owner => "owner" end.

Definition scope_from_str (value : string) : result AuthError ConnectionScope :=
  if decide (value = "viewer") then Ok Viewer
  else if decide (value = "editor") then Ok Editor
  else if decide (value = "runtime_peer") then Ok RuntimePeer
  else if decide (value = "owner") then Ok Owner
  else Err (UnknownConnectionScope value).

Definition allows_notebook_write (s : ConnectionScope) : bool :=
  match s with Editor | Owner => true | _ => false end.
Definition allows_runtime_state_write (s : ConnectionScope) : bool :=
  match s with RuntimePeer => true | _ => false end.
Definition allows_blob_upload (s : ConnectionScope) : bool :=
  match s with RuntimePeer | Owner => true | _ => false end.
Definition allows_local_blob_upload (s : ConnectionScope) : bool :=
  match s with Viewer => false | _ => true end.
Definition allows_execution_request (s : ConnectionScope) : bool :=
  match s with Owner => true | _ => false end.
Definition allows_publish (s : ConnectionScope) : bool := match s with Owner => true | _ => false end.
Definition allows_acl_mutation (s : ConnectionScope) : bool := match s with Owner => true | _ => false end.

(** ** Users and connections *)

Record AuthenticatedUser := mkUser {
  user_principal : Principal; user_scope : ConnectionScope; user_allowed_operator_kinds : list string;
}.

Record AuthenticatedConnection := mkConnection {
  conn_principal : Principal; conn_scope : ConnectionScope; conn_allowed_operator_kinds : list string;
}.

Definition from_user (u : AuthenticatedUser) : AuthenticatedConnection :=
  mkConnection (user_principal u) (user_scope u) (user_allowed_operator_kinds u).

Definition permits_operator (c : AuthenticatedConnection) (o : Operator) : bool :=
  bool_decide (conn_allowed_operator_kinds c = []) ||
  bool_decide (operator_kind o ∈ conn_allowed_operator_kinds c).

Definition actor_label_for (c : AuthenticatedConnection) (o : Operator) : result AuthError ActorLabel :=
  if permits_operator c o then Ok (label_new (conn_principal c) o)
  else Err (OperatorKindNotAllowed (operator_kind o)).

Definition rewrite_presence_actor_label (c : AuthenticatedConnection) (presented : option string)
    (fallback : Operator) : ActorLabel :=
  let o := match presented with
    | Some label => match from_actor_label_or_operator label with Ok o => o | Err _ => fallback end
    | None => fallback
    end in
  label_new (conn_principal c) o.

(** ** The local provider *)

Record LocalPeerCredential := mkLocalPeer { username : string }.

Definition local_peer_new (u : string) : result AuthError LocalPeerCredential :=
  if decide (u = "") then Err EmptyLocalUsername
  else if contains slash u then Err LocalUsernameContainsSlash
  else Ok (mkLocalPeer u).

Definition local_principal (p : LocalPeerCredential) : result AuthError Principal :=
  principal_new ("local:" +:+ username p).

Inductive Credential :=
| BearerToken (t : string) | Cookie (t : string) | OneTimeTicket (t : string)
| LocalPeer (p : LocalPeerCredential).

Record LocalProvider := mkLocalProvider {
  default_scope : ConnectionScope; allowed_operator_kinds : list string;
}.

Definition local_authenticate (lp : LocalProvider) (presented : Credential)
    : result AuthError AuthenticatedUser :=
  match presented with
  | LocalPeer peer =>
      let? p := local_principal peer in
      Ok (mkUser p (default_scope lp) (allowed_operator_kinds lp))
  | _ => Err InvalidCredential
  end.

(** ** Lemmas *)

Lemma app_cons a s t : (String a s +:+ t)%string = String a (s +:+ t).
Proof. done. Qed.

Lemma app_str_assoc s t u : (s +:+ (t +:+ u))%string = ((s +:+ t) +:+ u)%string.
Proof. induction s as [|a s IH]; [done|]. rewrite !app_cons. by rewrite IH. Qed.

Lemma contains_split c s : contains c s = false -> split_at c s = None.
Proof.
  induction s as [|a s IH]; [done|]. cbn [contains split_at]. intros [Ha Hs]%orb_false_iff.
  apply bool_decide_eq_false in Ha. rewrite decide_False by done. by rewrite IH.
Qed.

Lemma split_at_app c s t : contains c s = false -> split_at c (s +:+ String c t) = Some (s, t).
Proof.
  induction s as [|a s IH].
  - intros _. change ("" +:+ String c t)%string with (String c t). cbn [split_at]. by rewrite decide_True.
  - rewrite app_cons. cbn [contains split_at]. intros [Ha Hs]%orb_false_iff.
    apply bool_decide_eq_false in Ha. rewrite decide_False by done. by rewrite IH.
Qed.

Lemma split_at_Some c s l r : split_at c s = Some (l, r) -> s = (l +:+ String c r)%string /\ contains c l = false.
Proof.
  revert l. induction s as [|a s IH]; intros l; cbn [split_at]; [done|].
  case_decide as Ha; [intros [= <- <-]; by subst|].
  destruct (split_at c s) as [[l' r']|]; [|done]. intros [= <- <-].
  destruct (IH l' eq_refl) as [-> Hl]. split; [done|]. cbn [contains].
  by rewrite bool_decide_eq_false_2, Hl.
Qed.

Lemma length_app_str s t : String.length (s +:+ t) = (String.length s + String.length t)%nat.
Proof. induction s as [|a s IH]; [done|]. rewrite app_cons. cbn [String.length]. by rewrite IH. Qed.

Lemma substring_all s : String.substring 0 (String.length s) s = s.
Proof. induction s as [|a s IH]; [done|]. cbn. by rewrite IH. Qed.

Lemma substring_prefix s t : String.substring 0 (String.length s) (s +:+ t) = s.
Proof.
  induction s as [|a s IH]; [by destruct t|]. rewrite app_cons. cbn [String.length String.substring].
  by rewrite IH.
Qed.

Lemma substring_suffix s t n : String.substring (String.length s) n (s +:+ t) = String.substring 0 n t.
Proof. induction s as [|a s IH]; [done|]. rewrite app_cons. cbn [String.length String.substring]. apply IH. Qed.

(** What validation establishes. *)
Lemma principal_new_ok v p :
  principal_new v = Ok p -> principal_str p = v /\ contains slash v = false /\ v <> "" /\
    (v = SYSTEM \/ exists scheme id, v = (scheme +:+ String colon id)%string /\ scheme <> "" /\ id <> "").
Proof.
  unfold principal_new. case_decide; [done|]. destruct (contains slash v) eqn:Hs; [done|].
  case_decide as Hsys; [intros [= <-]; naive_solver|].
  destruct (split_at colon v) as [[scheme id]|] eqn:Hsp; [|done].
  repeat (case_decide; [done|]). intros [= <-]. apply split_at_Some in Hsp as [-> _]. naive_solver.
Qed.

Lemma operator_new_ok v o :
  operator_new v = Ok o -> operator_str o = v /\ contains slash v = false /\ v <> "".
Proof.
  unfold operator_new. case_decide; [done|]. destruct (contains slash v) eqn:Hs; [done|].
  destruct v; [done|]. case_decide; [done|]. intros [= <-]. done.
Qed.

(** A principal or operator that went through its constructor. *)
Definition principal_valid (p : Principal) : Prop := principal_new (principal_str p) = Ok p.
Definition operator_valid (o : Operator) : Prop := operator_new (operator_str o) = Ok o.

Lemma principal_new_valid v p : principal_new v = Ok p -> principal_valid p.
Proof. intros H. destruct (principal_new_ok _ _ H) as [Hv _]. unfold principal_valid. by rewrite Hv. Qed.

Lemma operator_new_valid v o : operator_new v = Ok o -> operator_valid o.
Proof. intros H. destruct (operator_new_ok _ _ H) as [Hv _]. unfold operator_valid. by rewrite Hv. Qed.

Lemma label_new_parts p o :
  label_principal (label_new p o) = principal_str p /\ label_operator (label_new p o) = operator_str o.
Proof.
  unfold label_principal, label_operator, label_new. cbn [label_str delimiter_index]. split.
  - apply substring_prefix.
  - rewrite length_app_str. cbn [String.length].
    replace (String.length (principal_str p) + S (String.length (operator_str o)) - S (String.length (principal_str p)))%nat
      with (String.length (operator_str o)) by lia.
    assert (S (String.length (principal_str p)) = String.length (principal_str p +:+ String slash "")) as ->
      by (rewrite length_app_str; simpl; lia).
    assert ((principal_str p +:+ String slash (operator_str o))%string =
      ((principal_str p +:+ String slash "") +:+ operator_str o)%string) as ->
      by (by rewrite <- app_str_assoc).
    rewrite substring_suffix. apply substring_all.
Qed.

Lemma label_parse_new p o : principal_valid p -> operator_valid o -> label_parse (label_str (label_new p o)) = Ok (label_new p o).
Proof.
  intros Hp Ho. unfold label_parse, label_new. cbn [label_str].
  destruct (principal_new_ok _ _ Hp) as (_ & Hs & _). rewrite split_at_app by done.
  by rewrite Hp, Ho.
Qed.

(** A parsed label is the label of its parts. *)
Lemma label_parse_Ok v l :
  label_parse v = Ok l ->
  exists p o, principal_valid p /\ operator_valid o /\ l = label_new p o /\ label_str l = v.
Proof.
  unfold label_parse. destruct (split_at slash v) as [[b a]|] eqn:Hsp; [|done].
  destruct (principal_new b) as [p|] eqn:Hp; [|done]. destruct (operator_new a) as [o|] eqn:Ho; [|done].
  intros [= <-]. exists p, o. apply split_at_Some in Hsp as [-> _].
  destruct (principal_new_ok _ _ Hp) as (<- & _). destruct (operator_new_ok _ _ Ho) as (<- & _).
  split_and!; [by eapply principal_new_valid|by eapply operator_new_valid|done|done].
Qed.

(** An operator taken from a presented label is a valid one. *)
Lemma from_label_valid v o : from_actor_label_or_operator v = Ok o -> operator_valid o.
Proof.
  unfold from_actor_label_or_operator. destruct (label_parse v) as [l|[]] eqn:Hl; try done;
    [|apply operator_new_valid]. apply operator_new_valid.
Qed.

Lemma label_text_principal p o :
  principal_valid p -> split_at slash (label_str (label_new p o)) = Some (principal_str p, operator_str o).
Proof. intros Hp. destruct (principal_new_ok _ _ Hp) as (_ & Hs & _). by apply split_at_app. Qed.

(** ** Claims *)

(** Actor labels round-trip: the label of a valid principal and operator parses
    back to itself and to the two parts, and every text that parses is the label
    of exactly one valid pair and is kept verbatim; replacing the principal
    keeps the operator. *)
Theorem actor_label_roundtrip p o v l :
  principal_valid p -> operator_valid o -> label_parse v = Ok l ->
  (label_parse (label_str (label_new p o)) = Ok (label_new p o) /\
   principal_value (label_new p o) = Ok p /\ operator_value (label_new p o) = Ok o) /\
  (exists q r, principal_value l = Ok q /\ operator_value l = Ok r /\ label_new q r = l /\ label_str l = v /\
     with_principal l p = Ok (label_new p r)).
Proof.
  intros Hp Ho Hl. destruct (label_new_parts p o) as [H1 H2]. split.
  - unfold principal_value, operator_value. rewrite H1, H2. split_and!; [by apply label_parse_new|done..].
  - destruct (label_parse_Ok _ _ Hl) as (q & r & Hq & Hr & -> & <-). exists q, r.
    destruct (label_new_parts q r) as [H3 H4]. unfold with_principal, principal_value, operator_value.
    rewrite H3, H4, Hr. done.
Qed.

(** A label made of the connection's principal parses back to it. *)
Lemma new_label_principal c o : principal_valid (conn_principal c) -> operator_valid o ->
  label_parse (label_str (label_new (conn_principal c) o)) = Ok (label_new (conn_principal c) o) /\
  principal_value (label_new (conn_principal c) o) = Ok (conn_principal c).
Proof.
  intros Hp Ho. split; [by apply label_parse_new|]. unfold principal_value. by rewrite (proj1 (label_new_parts _ _)).
Qed.

Lemma rewritten_label_principal c presented fallback :
  principal_valid (conn_principal c) -> operator_valid fallback ->
  let l := rewrite_presence_actor_label c presented fallback in
  label_parse (label_str l) = Ok l /\ principal_value l = Ok (conn_principal c).
Proof.
  intros Hp Hf. apply new_label_principal; [done|]. destruct presented as [v|]; [|done].
  destruct (from_actor_label_or_operator v) as [o'|] eqn:Hv; [|done]. by eapply from_label_valid.
Qed.

(** C26. Attribution cannot be forged: whatever label or operator a client presents,
    the label the connection writes under parses, and its principal is the
    authenticated one.  A handshake label is further limited to the operator
    kinds granted to the connection. *)
Theorem labels_carry_authenticated_principal c presented fallback o :
  principal_valid (conn_principal c) -> operator_valid fallback -> operator_valid o ->
  (let l := rewrite_presence_actor_label c presented fallback in
   label_parse (label_str l) = Ok l /\ principal_value l = Ok (conn_principal c)) /\
  match actor_label_for c o with
  | Ok l => label_parse (label_str l) = Ok l /\ principal_value l = Ok (conn_principal c) /\
      (conn_allowed_operator_kinds c = [] \/ operator_kind o ∈ conn_allowed_operator_kinds c)
  | Err e => e = OperatorKindNotAllowed (operator_kind o) /\ conn_allowed_operator_kinds c <> [] /\
      operator_kind o ∉ conn_allowed_operator_kinds c
  end.
Proof.
  intros Hp Hf Ho. split; [by apply rewritten_label_principal|].
  unfold actor_label_for, permits_operator. destruct (new_label_principal c o Hp Ho).
  destruct (bool_decide_reflect (conn_allowed_operator_kinds c = [])); simpl; [auto|].
  case_bool_decide; auto.
Qed.

(** A local peer is always [local:<user>], never the reserved seed principal. *)
Theorem local_user_is_local lp u cred user :
  local_peer_new u = Ok cred -> local_authenticate lp (LocalPeer cred) = Ok user ->
  principal_str (user_principal user) = ("local:" +:+ u)%string /\ user_scope user = default_scope lp /\
  principal_valid (user_principal user).
Proof.
  unfold local_peer_new. case_decide; [done|]. destruct (contains slash u); [done|]. intros [= <-].
  unfold local_authenticate, local_principal. cbn [username].
  destruct (principal_new ("local:" +:+ u)) as [p|] eqn:Hp; [|done]. intros [= <-].
  destruct (principal_new_ok _ _ Hp) as (Hv & _). split_and!; [exact Hv|done|]. by eapply principal_new_valid.
Qed.

Module IdentityExamples.
Definition alice : Principal := mkPrincipal "local:alice".
Definition tab : Operator := mkOperator "desktop:tab1".
Definition conn : AuthenticatedConnection := mkConnection alice Editor ["desktop"].

Lemma actor_label_roundtrip_witness :
  principal_value (label_new alice tab) = Ok alice /\
  exists q r, label_new q r = mkLabel "oidc:bob/agent:x" 8 /\
    with_principal (mkLabel "oidc:bob/agent:x" 8) alice = Ok (label_new alice r).
Proof.
  destruct (actor_label_roundtrip alice tab "oidc:bob/agent:x" (mkLabel "oidc:bob/agent:x" 8))
    as [(_ & H & _) (q & r & _ & _ & H2 & _ & H3)]; [reflexivity..|].
  split; [exact H|]. exists q, r. by split.
Defined.

Lemma labels_carry_authenticated_principal_witness :
  principal_value (rewrite_presence_actor_label conn (Some "oidc:mallory/agent:x") tab) = Ok alice.
Proof.
  apply (labels_carry_authenticated_principal conn (Some "oidc:mallory/agent:x") tab tab); reflexivity.
Defined.
End IdentityExamples.
