(* ===== verification/RuntimePolicy.v ===== *)
(** * Who may change the runtime state document

    Model of [crates/runtime-doc/src/policy.rs] and [bokeh_session_policy.rs], with
    the full [read_state] of [doc.rs] they compare: a change of the document that
    arrives from a peer is accepted or refused by comparing the state before and
    after.  The theorems: only runtime peers write; what they write leaves the
    host's state, the set of executions and their provenance alone; and over any
    number of accepted changes an execution only moves forward and a finished
    one keeps its result.  Reasons in error messages are abbreviated to the field
    they name.  serde's decoding of project trust is a parameter; Automerge object
    ids, which a rewrite of an equal value changes, are not modelled. *)

From S2P Require Import BlobStore.
From S2P Require Import Prelude Kernel Automunge RuntimeDoc RuntimeOutputs RuntimeComms.

#[export] Instance ExecutionState_eq_dec : EqDecision ExecutionState.
Proof. solve_decision. Defined.
#[export] Instance FileCheckpointState_eq_dec : EqDecision FileCheckpointState.
Proof. solve_decision. Defined.
#[export] Instance EnvState_eq_dec : EqDecision EnvState.
Proof. solve_decision. Defined.
#[export] Instance KernelDocState_eq_dec : EqDecision KernelDocState.
Proof. solve_decision. Defined.
#[export] Instance CommDocEntry_eq_dec : EqDecision CommDocEntry.
Proof. solve_decision. Defined.
#[export] Instance BokehSessionState_eq_dec : EqDecision BokehSessionState.
Proof. solve_decision. Defined.
#[export] Instance ProjectFileKind_eq_dec : EqDecision ProjectFileKind.
Proof. solve_decision. Defined.
#[export] Instance ProjectFile_eq_dec : EqDecision ProjectFile.
Proof. solve_decision. Defined.
#[export] Instance ProjectFileExtras_eq_dec : EqDecision ProjectFileExtras.
Proof. solve_decision. Defined.
#[export] Instance ProjectFileParsed_eq_dec : EqDecision ProjectFileParsed.
Proof. solve_decision. Defined.
#[export] Instance ProjectContext_eq_dec : EqDecision ProjectContext.
Proof. solve_decision. Defined.

(** ** Snapshots *)

(** What the policy sees of a value of the display index: a scalar, or the kind of
    an object. *)
Inductive repr := RScalar (s : ScalarValue) | RMap | RList | RText.

#[export] Instance repr_eq_dec : EqDecision repr.
Proof. solve_decision. Defined.

Definition value_repr (n : node) : repr :=
  match n with NScalar s => RScalar s | NMap _ => RMap | NList _ => RList | NText _ => RText end.

Section Snapshot.
Context {PT : Type} `{!EqDecision PT}.
Variable decode_project_trust : option json -> PT.
Variable extras_from_str : string -> option ProjectFileExtras.

(** [RuntimeState]. *)
Record RuntimeState := mkRuntimeState {
  rs_runtime_state_doc_id : option string; rs_kernel : KernelDocState; rs_queue : QueueState;
  rs_env : EnvState; rs_trust : TrustRuntimeState; rs_last_saved : option string;
  rs_file_checkpoint : FileCheckpointState; rs_project_trust : PT; rs_path : option string;
  rs_executions : gmap string ExecutionState; rs_comms : gmap string CommDocEntry;
  rs_bokeh_sessions : gmap string BokehSessionState; rs_project_context : ProjectContext;
  rs_workstation : option WorkstationAttachmentState;
}.

#[export] Instance RuntimeState_eq_dec : EqDecision RuntimeState.
Proof. solve_decision. Defined.

Definition read_state (d : RuntimeStateDoc) : RuntimeState :=
  let r := NMap (root d) in
  mkRuntimeState (read_opt_str r "runtime_state_doc_id") (read_kernel_state d) (read_queue d)
    (read_env_state d) (trust_state d) (read_opt_str r "last_saved") (file_checkpoint d)
    (decode_project_trust (read_json_value (root d) "project_trust")) (read_opt_str r "path")
    (read_executions d) (get_comms d) (get_bokeh_sessions d) (project_context extras_from_str d)
    (workstation_attachment d).

(** [RuntimeStatePolicySnapshot]. *)
Record PolicySnapshot := mkSnapshot {
  state : RuntimeState;
  root_keys : list string;
  display_index : option (gmap string (gmap string repr));
  local_environment_identity : option (repr * list (option repr));
}.

#[export] Instance PolicySnapshot_eq_dec : EqDecision PolicySnapshot.
Proof. solve_decision. Defined.

(** A display id that holds no map is recorded under a reserved key. *)
Definition display_entries (n : node) : gmap string repr :=
  match n with
  | NMap entries => value_repr <$> entries
  | n => {["<invalid-display-index-node>" := value_repr n]}
  end.

Definition display_index_policy_snapshot (d : RuntimeStateDoc) : option (gmap string (gmap string repr)) :=
  match get_map "display_index" d with
  | Some idx => Some (display_entries <$> idx)
  | None => None
  end.

Definition local_environment_identity_snapshot (d : RuntimeStateDoc) : option (repr * list (option repr)) :=
  k ← root d !! "kernel";
  Some (value_repr k,
    (fun field => value_repr <$> obj_get k field) <$> ["environment_id"; "environment_name"; "python_version"]).

Definition runtime_state_policy_snapshot (d : RuntimeStateDoc) : PolicySnapshot :=
  mkSnapshot (read_state d) (keys (root d)) (display_index_policy_snapshot d)
    (local_environment_identity_snapshot d).

(** ** Errors and scopes *)

Inductive RuntimeStateWriteScope := PViewer | PEditor | PRuntimePeer | POwner.

Definition write_scope_str (s : RuntimeStateWriteScope) : string :=
  match s with PViewer => "viewer" | PEditor => "editor" | PRuntimePeer => "runtime_peer" | POwner => "owner" end.

(** [runtime_state_policy_error]: the scope and the field it could not write. *)
Record policy_error := mkPolicyError { pe_scope : string; pe_field : string }.

Definition policy_result := result policy_error ().

Definition refuse (scope : RuntimeStateWriteScope) (field : string) : policy_result :=
  Err (mkPolicyError (write_scope_str scope) field).

(** [if cond { return Err(..) }]. *)
Definition guard_ok (ok : bool) (scope : RuntimeStateWriteScope) (field : string) : policy_result :=
  if ok then Ok () else refuse scope field.

(** [try_for_each] and a loop of checks that stops at the first error. *)
Fixpoint all_ok {A} (check : A -> policy_result) (l : list A) : policy_result :=
  match l with
  | [] => Ok ()
  | x :: l => let? _ := check x in all_ok check l
  end.

(** ** Checks of a runtime peer's change *)

Definition RUNTIME_PEER_RECORD_ROOTS : list string := ["bokeh_sessions"].

Definition validate_runtime_peer_root_keys (b a : PolicySnapshot) (scope : RuntimeStateWriteScope)
    : policy_result :=
  let? _ := guard_ok (forallb (fun k => bool_decide (k ∈ root_keys a)) (root_keys b)) scope "schema" in
  guard_ok (forallb (fun k => bool_decide (k ∈ root_keys b) || bool_decide (k ∈ RUNTIME_PEER_RECORD_ROOTS))
    (root_keys a)) scope "schema".

Definition validate_runtime_peer_room_host_owned_delta (b a : PolicySnapshot)
    (scope : RuntimeStateWriteScope) : policy_result :=
  let x := state b in let y := state a in
  let? _ := guard_ok (bool_decide (local_environment_identity b = local_environment_identity a)) scope "local environment identity" in
  let? _ := guard_ok (bool_decide (rs_env x = rs_env y)) scope "env" in
  let? _ := guard_ok (bool_decide (rs_trust x = rs_trust y)) scope "trust" in
  let? _ := guard_ok (bool_decide (rs_runtime_state_doc_id x = rs_runtime_state_doc_id y)) scope "runtime_state_doc_id" in
  let? _ := guard_ok (bool_decide (rs_last_saved x = rs_last_saved y)) scope "last_saved" in
  let? _ := guard_ok (bool_decide (rs_file_checkpoint x = rs_file_checkpoint y)) scope "file_checkpoint" in
  let? _ := guard_ok (bool_decide (rs_project_trust x = rs_project_trust y)) scope "project_trust" in
  let? _ := guard_ok (bool_decide (rs_path x = rs_path y)) scope "path" in
  let? _ := guard_ok (bool_decide (rs_project_context x = rs_project_context y)) scope "project_context" in
  guard_ok (bool_decide (rs_workstation x = rs_workstation y)) scope "workstation".

Definition runtime_peer_status_transition_allowed (b a : string) : bool :=
  bool_decide (b = a) ||
  bool_decide ((b, a) ∈ [("queued", "running"); ("queued", "done"); ("queued", "error");
    ("queued", "cancelled"); ("running", "done"); ("running", "error")]).

Definition json_str_at (v : json) (key : string) : option string := json_get v key ≫= json_str.

Definition is_object (v : option json) : bool := match v with Some (JObject _) => true | _ => false end.

Definition displayable (v : json) : bool :=
  match json_str_at v "output_type" with
  | Some t => bool_decide (t = "display_data" \/ t = "execute_result")
  | None => false
  end.

(** A live display handle: only its payload and metadata may change. *)
Definition runtime_peer_display_update_allowed (b a : json) : bool :=
  displayable b &&
  match display_id_for_manifest b with Some id => negb (bool_decide (id = "")) | None => false end &&
  is_object (json_get a "data") && is_object (json_get a "metadata") &&
  match b, a with
  | JObject mb, JObject ma =>
      bool_decide (delete "metadata" (delete "data" mb) = delete "metadata" (delete "data" ma))
  | _, _ => false
  end.

Definition output_preserved (b a : json) : bool :=
  bool_decide (b = a) || runtime_peer_display_update_allowed b a.

Definition runtime_peer_outputs_preserved_prefix (b a : list json) : bool :=
  (length b <=? length a)%nat && forallb (fun x => output_preserved x.1 x.2) (zip b a).

Definition terminal_result (status : string) : bool := bool_decide (status = "done" \/ status = "error").

Definition validate_runtime_peer_execution_update (scope : RuntimeStateWriteScope) (b a : ExecutionState)
    : policy_result :=
  let? _ := guard_ok (bool_decide (es_source b = es_source a /\ es_cell_id b = es_cell_id a /\
    es_seq b = es_seq a /\ es_submitted_by b = es_submitted_by a)) scope "executions" in
  let? _ := guard_ok (runtime_peer_status_transition_allowed (es_status b) (es_status a)) scope "executions" in
  let settled := terminal_result (es_status b) && bool_decide (es_status b = es_status a) in
  let? _ := guard_ok (negb (settled && negb (bool_decide (es_success b = es_success a /\
    es_execution_count b = es_execution_count a)))) scope "executions" in
  guard_ok (negb (settled && negb (runtime_peer_outputs_preserved_prefix (es_outputs b) (es_outputs a))))
    scope "executions".

Definition validate_runtime_peer_execution_delta (b a : PolicySnapshot) (scope : RuntimeStateWriteScope)
    : policy_result :=
  let x := rs_executions (state b) in let y := rs_executions (state a) in
  let? _ := all_ok (fun k => guard_ok (bool_decide (is_Some (x !! k))) scope "executions") (keys y) in
  let? _ := all_ok (fun k => guard_ok (bool_decide (is_Some (y !! k))) scope "executions") (keys x) in
  all_ok (fun e : string * ExecutionState => match y !! e.1 with
    | Some after => validate_runtime_peer_execution_update scope e.2 after
    | None => Ok ()
    end) (map_to_list x).

(** The loop over the entries with the ids seen so far. *)
Fixpoint queue_entries_ok (scope : RuntimeStateWriteScope) (x y : gmap string ExecutionState)
    (seen : list string) (entries : list string) : policy_result :=
  match entries with
  | [] => Ok ()
  | eid :: entries =>
      let? _ := guard_ok (bool_decide (eid ∉ seen)) scope "queue" in
      let? _ := guard_ok (bool_decide (is_Some (x !! eid))) scope "queue" in
      match y !! eid with
      | None => refuse scope "queue"
      | Some e =>
          let? _ := guard_ok (bool_decide (es_status e ∉ ["done"; "error"; "cancelled"])) scope "queue" in
          queue_entries_ok scope x y (eid :: seen) entries
      end
  end.

Definition queue_ids (q : QueueState) : list string :=
  option_list (dqe_execution_id <$> qs_executing q) ++ (dqe_execution_id <$> qs_queued q).

Definition validate_runtime_peer_queue_delta (b a : PolicySnapshot) (scope : RuntimeStateWriteScope)
    : policy_result :=
  if decide (rs_queue (state b) = rs_queue (state a)) then Ok ()
  else queue_entries_ok scope (rs_executions (state b)) (rs_executions (state a)) []
    (queue_ids (rs_queue (state a))).

Definition validate_runtime_peer_comm_state_delta (b a : PolicySnapshot) (scope : RuntimeStateWriteScope)
    : policy_result :=
  all_ok (fun c : string * CommDocEntry =>
    match rs_comms (state b) !! c.1 with
    | Some before => guard_ok (bool_decide (cm_state before = cm_state c.2)) scope "comms"
    | None => guard_ok (bool_decide (cm_state c.2 = JObject ∅)) scope "comms"
    end) (map_to_list (rs_comms (state a))).

(** ** Bokeh session records *)

Definition BOKEH_SESSION_MIME : string := "application/vnd.nteract.bokeh-session.v1+json".

Definition valid_heads (heads : list string) : bool :=
  forallb (fun head => bool_decide (String.length head = 64%nat) && all_hexdigits head) heads.

Definition validate_bokeh_session_record (scope : RuntimeStateWriteScope) (s : BokehSessionState)
    : policy_result :=
  let? _ := guard_ok (negb (bool_decide ("" ∈ [bs_output_id s; bs_cell_id s; bs_execution_id s;
      bs_kernel_id s; bs_producer_name s; bs_bokeh_version s]) || bool_decide (bs_root_ids s = [])))
    scope "bokeh_sessions" in
  guard_ok (negb (bool_decide (bs_doc_heads s = []) || negb (valid_heads (bs_doc_heads s)) ||
      negb (valid_heads (bs_previous_heads s)) ||
      negb (eqb (bool_decide (bs_epoch s = 0)) (bool_decide (bs_previous_heads s = [])))))
    scope "bokeh_sessions".

Definition execution_has_bokeh_output (e : ExecutionState) (output_id : string) : bool :=
  existsb (fun output =>
    bool_decide (json_str_at output "output_id" = Some output_id) && displayable output &&
    match json_get output "data" with
    | Some (JObject data) => bool_decide (is_Some (data !! BOKEH_SESSION_MIME))
    | _ => false
    end) (es_outputs e).

Definition bokeh_session_status_transition_allowed (b a : BokehSessionStatus) : bool :=
  bool_decide (b = a) ||
  match b, a with
  | Connected, Disconnected | Connected, Closed | Connected, SessionError
  | Disconnected, Closed | SessionError, Closed => true
  | _, _ => false
  end.

(** The checks of a record that was not there before. *)
Definition validate_new_session (scope : RuntimeStateWriteScope) (y : gmap string ExecutionState)
    (s : BokehSessionState) : policy_result :=
  match y !! bs_execution_id s with
  | None => refuse scope "bokeh_sessions"
  | Some e =>
      let? _ := guard_ok (bool_decide (es_cell_id e = Some (bs_cell_id s))) scope "bokeh_sessions" in
      let? _ := guard_ok (execution_has_bokeh_output e (bs_output_id s)) scope "bokeh_sessions" in
      guard_ok (bool_decide (bs_status s = Connected)) scope "bokeh_sessions"
  end.

Definition session_provenance (s : BokehSessionState) :=
  (bs_output_id s, bs_cell_id s, bs_execution_id s, bs_kernel_id s,
   (bs_producer_name s, bs_producer_version s, bs_bokeh_version s, bs_root_ids s)).

(** The checks of a record that was there before. *)
Definition validate_session_update (scope : RuntimeStateWriteScope) (b a : BokehSessionState)
    : policy_result :=
  let? _ := guard_ok (bool_decide (session_provenance b = session_provenance a)) scope "bokeh_sessions" in
  let? _ := guard_ok (bokeh_session_status_transition_allowed (bs_status b) (bs_status a)) scope "bokeh_sessions" in
  let? _ := guard_ok (negb (bool_decide (bs_status b = Closed) && negb (bool_decide (b = a)))) scope "bokeh_sessions" in
  let? _ := guard_ok (negb (bs_epoch a <? bs_epoch b)) scope "bokeh_sessions" in
  guard_ok (negb (bool_decide (bs_epoch a = bs_epoch b) &&
    negb (bool_decide (bs_doc_heads a = bs_doc_heads b /\ bs_previous_heads a = bs_previous_heads b))))
    scope "bokeh_sessions".

(** [validate_runtime_peer_delta], the policy of the [bokeh_sessions] root. *)
Definition validate_bokeh_sessions_delta (b a : PolicySnapshot) (scope : RuntimeStateWriteScope)
    : policy_result :=
  let x := rs_bokeh_sessions (state b) in let y := rs_bokeh_sessions (state a) in
  let? _ := all_ok (fun k => guard_ok (bool_decide (is_Some (y !! k))) scope "bokeh_sessions") (keys x) in
  all_ok (fun e : string * BokehSessionState =>
    let? _ := validate_bokeh_session_record scope e.2 in
    match x !! e.1 with
    | None => validate_new_session scope (rs_executions (state a)) e.2
    | Some before => validate_session_update scope before e.2
    end) (map_to_list y).

(** ** The policy *)

Definition validate_runtime_peer_runtime_delta (b a : PolicySnapshot) (scope : RuntimeStateWriteScope)
    : policy_result :=
  let? _ := validate_runtime_peer_root_keys b a scope in
  let? _ := validate_runtime_peer_execution_delta b a scope in
  let? _ := validate_runtime_peer_queue_delta b a scope in
  let? _ := validate_runtime_peer_room_host_owned_delta b a scope in
  let? _ := validate_runtime_peer_comm_state_delta b a scope in
  validate_bokeh_sessions_delta b a scope.

Definition validate_runtime_state_sync_scope (b a : PolicySnapshot) (scope : RuntimeStateWriteScope)
    : policy_result :=
  match scope with
  | PRuntimePeer => validate_runtime_peer_runtime_delta b a scope
  | PViewer | PEditor | POwner => guard_ok (bool_decide (b = a)) scope "runtime state"
  end.

End Snapshot.

(** ** What accepted changes guarantee *)

Section Accepted.
Context {PT : Type} `{!EqDecision PT}.

Lemma seq_ok (r k : policy_result) : (let? _ := r in k) = Ok () <-> r = Ok () /\ k = Ok ().
Proof. destruct r as [[]|]; naive_solver. Qed.

Lemma guard_ok_Ok ok scope field : guard_ok ok scope field = Ok () <-> ok = true.
Proof. unfold guard_ok, refuse. destruct ok; naive_solver. Qed.

Lemma all_ok_Ok {A} (check : A -> policy_result) l :
  all_ok check l = Ok () <-> Forall (fun x => check x = Ok ()) l.
Proof.
  induction l as [|x l IH]; simpl; [by split|].
  by rewrite seq_ok, IH, Forall_cons.
Qed.

(** The state a runtime peer must leave alone. *)
Definition host_owned (p : PolicySnapshot (PT := PT)) :=
  let s := state p in
  (local_environment_identity p, rs_env s, rs_trust s, rs_runtime_state_doc_id s, rs_last_saved s,
   (rs_file_checkpoint s, rs_project_trust s, rs_path s, rs_project_context s, rs_workstation s)).

(** A display with a handle: shown data with a display id, which a kernel updates. *)
Definition live_display (x : json) : Prop :=
  (json_get x "output_type" = Some (JString "display_data") \/
   json_get x "output_type" = Some (JString "execute_result")) /\
  exists t id, json_get x "transient" = Some t /\ json_get t "display_id" = Some (JString id) /\ id <> "".

(** The same output: equal, or a live display of which only the payload and the metadata
    differ. *)
Definition same_output (x y : json) : Prop :=
  x = y \/
  live_display x /\ (forall k, k <> "data" -> k <> "metadata" -> json_get x k = json_get y k) /\
  (exists data, json_get y "data" = Some (JObject data)) /\
  (exists metadata, json_get y "metadata" = Some (JObject metadata)).

(** The old outputs are kept, in place and in order; new ones follow. *)
Definition outputs_extend (x y : list json) : Prop :=
  exists kept tail, y = kept ++ tail /\ Forall2 same_output x kept.

Definition execution_provenance (e : ExecutionState) :=
  (es_source e, es_cell_id e, es_seq e, es_submitted_by e).

(** A status that stays or moves forward: queued work starts or ends, running work ends. *)
Definition status_forward (b a : string) : Prop :=
  b = a \/
  b = "queued" /\ (a = "running" \/ a = "done" \/ a = "error" \/ a = "cancelled") \/
  b = "running" /\ (a = "done" \/ a = "error").

(** An execution that only moved forward. *)
Record execution_progress (b a : ExecutionState) : Prop := {
  progress_provenance : execution_provenance b = execution_provenance a;
  progress_status : status_forward (es_status b) (es_status a);
  progress_settled : es_status b = "done" \/ es_status b = "error" ->
    es_status a = es_status b /\ es_success a = es_success b /\
    es_execution_count a = es_execution_count b /\ outputs_extend (es_outputs b) (es_outputs a);
}.

Lemma host_owned_ok (b a : PolicySnapshot (PT := PT)) scope :
  validate_runtime_peer_room_host_owned_delta b a scope = Ok () <-> host_owned b = host_owned a.
Proof.
  unfold validate_runtime_peer_room_host_owned_delta, host_owned.
  rewrite !seq_ok, !guard_ok_Ok, !bool_decide_eq_true. naive_solver congruence.
Qed.

Lemma transition_forward b a :
  runtime_peer_status_transition_allowed b a = true -> status_forward b a.
Proof.
  unfold runtime_peer_status_transition_allowed, status_forward.
  rewrite orb_true_iff, !bool_decide_eq_true. intros [->|H]; [by left|]. set_unfold. naive_solver.
Qed.

Lemma status_forward_trans x y z : status_forward x y -> status_forward y z -> status_forward x z.
Proof. unfold status_forward. naive_solver. Qed.

Lemma forward_from_settled x y : x = "done" \/ x = "error" -> status_forward x y -> y = x.
Proof. unfold status_forward. naive_solver. Qed.

#[export] Instance same_output_preorder : PreOrder same_output.
Proof.
  split; [intros x; by left|].
  intros x y z [->|(Hl & H1 & Hd1 & Hm1)] [->|(Hl2 & H2 & Hd2 & Hm2)].
  - by left.
  - by right.
  - by right.
  - right. split_and!; [done| |done..]. intros k ? ?. by rewrite H1, H2.
Qed.

Lemma outputs_extend_refl x : outputs_extend x x.
Proof. exists x, []. by rewrite app_nil_r. Qed.

Lemma outputs_extend_trans x y z : outputs_extend x y -> outputs_extend y z -> outputs_extend x z.
Proof.
  intros (k1 & t1 & -> & H1) (k2 & t2 & -> & H2).
  apply Forall2_app_inv_l in H2 as (k & t & Hk & Ht & ->).
  exists k, (t ++ t2). split; [by rewrite (assoc_L (++))|].
  by etransitivity.
Qed.

Lemma displayable_live x id :
  displayable x = true -> display_id_for_manifest x = Some id -> id <> "" -> live_display x.
Proof.
  unfold displayable, json_str_at, display_id_for_manifest. intros Hd Hi Hne. split.
  - destruct (json_get x "output_type") as [v|]; [|done]. cbn in Hd. destruct v as [| | |t| |]; try done.
    cbn in Hd. apply bool_decide_eq_true in Hd as [->| ->]; auto.
  - destruct (json_get x "transient") as [t|]; [|done]. cbn in Hi.
    destruct (json_get t "display_id") as [v|] eqn:Hv; [|done]. cbn in Hi. destruct v as [| | |s| |]; try done.
    injection Hi as ->. eauto.
Qed.

Lemma is_object_spec v : is_object v = true -> exists m, v = Some (JObject m).
Proof. destruct v as [[]|]; try done. eauto. Qed.

Lemma output_preserved_same b a : output_preserved b a = true -> same_output b a.
Proof.
  unfold output_preserved, runtime_peer_display_update_allowed.
  rewrite orb_true_iff, bool_decide_eq_true, !andb_true_iff.
  intros [->|((((Hd & Hi) & Hda) & Hm) & H)]; [by left|right].
  destruct (display_id_for_manifest b) as [id|] eqn:Hid; [|done]. apply negb_true_iff, bool_decide_eq_false in Hi.
  apply is_object_spec in Hda, Hm. split_and!; [by eapply displayable_live| |done|done].
  destruct b as [| | | | |mb], a as [| | | | |ma]; try done.
  apply bool_decide_eq_true in H. intros k Hk1 Hk2. cbn.
  apply (f_equal (.!! k)) in H. by rewrite !lookup_delete_ne in H.
Qed.

Lemma preserved_prefix_extends b a :
  runtime_peer_outputs_preserved_prefix b a = true -> outputs_extend b a.
Proof.
  unfold runtime_peer_outputs_preserved_prefix. rewrite andb_true_iff. intros [Hl Hz].
  apply Nat.leb_le in Hl. exists (take (length b) a), (drop (length b) a).
  split; [by rewrite take_drop|]. revert a Hl Hz.
  induction b as [|x b IH]; intros [|y a] Hl Hz; simpl in *; [constructor|constructor|lia|].
  apply andb_true_iff in Hz as [Hx Hz]. constructor; [by apply output_preserved_same|].
  apply IH; [lia|done].
Qed.

Lemma execution_update_progress scope b a :
  validate_runtime_peer_execution_update scope b a = Ok () -> execution_progress b a.
Proof.
  unfold validate_runtime_peer_execution_update.
  rewrite !seq_ok, !guard_ok_Ok, bool_decide_eq_true. intros (Hp & Ht%transition_forward & Hr & Ho).
  split; [unfold execution_provenance; naive_solver congruence|done|].
  intros Hterm. pose proof (forward_from_settled _ _ Hterm Ht) as Hs.
  assert (terminal_result (es_status b) = true) as Htr by (by apply bool_decide_eq_true).
  rewrite Htr, bool_decide_true in Hr, Ho by done.
  cbn in Hr, Ho. rewrite negb_involutive in Hr, Ho. apply bool_decide_eq_true in Hr as [Hr1 Hr2].
  by apply preserved_prefix_extends in Ho.
Qed.

Lemma execution_progress_refl e : execution_progress e e.
Proof.
  split; [done|by left|]. intros _. split_and!; [done..|apply outputs_extend_refl].
Qed.

Lemma execution_progress_trans x y z :
  execution_progress x y -> execution_progress y z -> execution_progress x z.
Proof.
  intros [P1 S1 T1] [P2 S2 T2]. split; [congruence|by eapply status_forward_trans|].
  intros Hx. destruct (T1 Hx) as (E1 & E2 & E3 & E4).
  rewrite <-E1 in Hx. destruct (T2 Hx) as (F1 & F2 & F3 & F4).
  split_and!; [congruence..|by eapply outputs_extend_trans].
Qed.

(** Records of one map carried over to another, each by the relation. *)
Definition carried {A} (R : A -> A -> Prop) (x y : gmap string A) : Prop :=
  forall k v, x !! k = Some v -> exists w, y !! k = Some w /\ R v w.

Lemma carried_refl {A} (R : A -> A -> Prop) x : (forall v, R v v) -> carried R x x.
Proof. intros HR k v Hk. eauto. Qed.

Lemma carried_trans {A} (R : A -> A -> Prop) x y z :
  (forall u v w, R u v -> R v w -> R u w) -> carried R x y -> carried R y z -> carried R x z.
Proof. intros HR H1 H2 k v Hk. destruct (H1 k v Hk) as (w & Hw & ?), (H2 k w Hw) as (u & ? & ?). eauto. Qed.

Lemma execution_delta_progress (b a : PolicySnapshot (PT := PT)) scope :
  validate_runtime_peer_execution_delta b a scope = Ok () ->
  dom (rs_executions (state a)) = dom (rs_executions (state b)) /\
  carried execution_progress (rs_executions (state b)) (rs_executions (state a)).
Proof.
  unfold validate_runtime_peer_execution_delta. rewrite !seq_ok, !all_ok_Ok, !Forall_forall.
  intros (Hnew & Hold & Hupd).
  assert (Hi : forall k, is_Some (rs_executions (state b) !! k) -> is_Some (rs_executions (state a) !! k)).
  { intros k Hk%elem_of_keys. apply Hold in Hk. by rewrite guard_ok_Ok, bool_decide_eq_true in Hk. }
  split.
  - apply set_eq. intros k. rewrite !elem_of_dom. split; [|apply Hi].
    intros Hk%elem_of_keys. apply Hnew in Hk. by rewrite guard_ok_Ok, bool_decide_eq_true in Hk.
  - intros k v Hv. destruct (Hi k ltac:(eauto)) as [w Hw]. exists w. split; [done|].
    specialize (Hupd (k, v)). cbn in Hupd. rewrite elem_of_map_to_list, Hw in Hupd.
    by eapply execution_update_progress, Hupd.
Qed.

(** A session that only moved forward: a closed one is frozen, and its document
    changes only with its epoch. *)
Record session_progress (b a : BokehSessionState) : Prop := {
  session_progress_provenance : session_provenance b = session_provenance a;
  session_progress_status : bs_status b = bs_status a \/ bs_status b = Connected \/ bs_status a = Closed;
  session_progress_closed : bs_status b = Closed -> a = b;
  session_progress_epoch : bs_epoch b <= bs_epoch a;
  session_progress_heads : bs_epoch a = bs_epoch b ->
    bs_doc_heads a = bs_doc_heads b /\ bs_previous_heads a = bs_previous_heads b;
}.

Lemma session_update_progress scope b a :
  validate_session_update scope b a = Ok () -> session_progress b a.
Proof.
  unfold validate_session_update. rewrite !seq_ok, !guard_ok_Ok, bool_decide_eq_true.
  rewrite !negb_true_iff, !andb_false_iff, !negb_false_iff, !bool_decide_eq_true, !bool_decide_eq_false, Z.ltb_ge.
  intros (Hp & Hs & Hc & He & Hh). split; [done| |naive_solver|done|tauto].
  clear -Hs. destruct (bs_status b), (bs_status a); naive_solver.
Qed.

Lemma session_progress_refl s : session_progress s s.
Proof. split; [done|by left|done|done|done]. Qed.

Lemma session_progress_trans x y z :
  session_progress x y -> session_progress y z -> session_progress x z.
Proof.
  intros [P1 S1 C1 E1 H1] [P2 S2 C2 E2 H2]. split.
  - congruence.
  - destruct S1 as [?|[?|H']]; [|by right; left|].
    + destruct S2 as [?|[?|?]]; [left; congruence|right; left; congruence|by right; right].
    + specialize (C2 H'). subst. by right; right.
  - intros Hx. specialize (C1 Hx). subst. by apply C2.
  - lia.
  - intros Heq. destruct H1 as [A1 A2]; [lia|]. destruct H2 as [B1 B2]; [lia|].
    split; congruence.
Qed.

(** A head: 64 hexadecimal digits. *)
Definition hex_characters : list Ascii.ascii := String.list_ascii_of_string "0123456789abcdefABCDEF".
Definition head_ok (h : string) : Prop :=
  length (String.list_ascii_of_string h) = 64%nat /\ Forall (fun c => c ∈ hex_characters) (String.list_ascii_of_string h).

(** A record that says what it belongs to and what document it holds: nothing empty, the
    heads well formed, and previous heads exactly after the first epoch. *)
Definition session_complete (s : BokehSessionState) : Prop :=
  bs_output_id s <> "" /\ bs_cell_id s <> "" /\ bs_execution_id s <> "" /\ bs_kernel_id s <> "" /\
  bs_producer_name s <> "" /\ bs_bokeh_version s <> "" /\ bs_root_ids s <> [] /\ bs_doc_heads s <> [] /\
  Forall head_ok (bs_doc_heads s) /\ Forall head_ok (bs_previous_heads s) /\
  (bs_epoch s = 0 <-> bs_previous_heads s = []).

(** Anchored in an execution of its cell. *)
Definition session_anchored (y : gmap string ExecutionState) (s : BokehSessionState) : Prop :=
  session_complete s /\
  exists e, y !! bs_execution_id s = Some e /\ es_cell_id e = Some (bs_cell_id s).

Lemma hexdigits_chars h : all_hexdigits h = true -> Forall (fun c => c ∈ hex_characters) (String.list_ascii_of_string h).
Proof.
  assert (forall c, is_hexdigit c = true -> c ∈ hex_characters) as Hc.
  { intros c Hc. apply (bool_decide_eq_true_1 (c ∈ hex_characters)). revert Hc.
    destruct c as [[] [] [] [] [] [] [] []]; vm_compute; done. }
  induction h as [|c h IH]; [constructor|]. cbn. rewrite andb_true_iff. intros []. constructor; auto.
Qed.

Lemma string_length_list h : length (String.list_ascii_of_string h) = String.length h.
Proof. induction h as [|c h IH]; [done|]. cbn. by f_equal. Qed.

Lemma valid_heads_ok hs : valid_heads hs = true -> Forall head_ok hs.
Proof.
  unfold valid_heads. rewrite forallb_forall, Forall_forall. intros H h Hh. specialize (H h (proj1 (list_elem_of_In _ _) Hh)).
  revert H. rewrite andb_true_iff, bool_decide_eq_true. intros [Hl Hx]. split; [by rewrite string_length_list|by apply hexdigits_chars].
Qed.

Lemma validated_complete scope s : validate_bokeh_session_record scope s = Ok () -> session_complete s.
Proof.
  unfold validate_bokeh_session_record, session_complete. rewrite seq_ok, !guard_ok_Ok.
  rewrite !negb_true_iff, !orb_false_iff, !negb_false_iff, !bool_decide_eq_false.
  intros ((Hne & Hr) & ((Hd & Hh%valid_heads_ok) & Hp%valid_heads_ok) & He%eqb_prop).
  repeat setoid_rewrite not_elem_of_cons in Hne. destruct Hne as (? & ? & ? & ? & ? & ? & _).
  split_and!; [by apply not_eq_sym..|done|done|done|done|].
  rewrite <- (bool_decide_eq_true (bs_epoch s = 0)), He, bool_decide_eq_true. done.
Qed.

Definition sessions_anchored (p : PolicySnapshot (PT := PT)) : Prop :=
  map_Forall (fun _ => session_anchored (rs_executions (state p))) (rs_bokeh_sessions (state p)).

Lemma new_session_anchored scope y s :
  validate_new_session scope y s = Ok () ->
  bs_status s = Connected /\
  exists e, y !! bs_execution_id s = Some e /\ es_cell_id e = Some (bs_cell_id s) /\
    execution_has_bokeh_output e (bs_output_id s) = true.
Proof.
  unfold validate_new_session. destruct (y !! _) as [e|] eqn:He; [|done].
  rewrite !seq_ok, !guard_ok_Ok, !bool_decide_eq_true. intros (Hc & Ho & Hs). eauto.
Qed.

(** One record of the session loop. *)
Definition session_checked (scope : RuntimeStateWriteScope) (x : gmap string BokehSessionState)
    (y : gmap string ExecutionState) (k : string) (s : BokehSessionState) : Prop :=
  validate_bokeh_session_record scope s = Ok () /\
  match x !! k with
  | None => validate_new_session scope y s = Ok ()
  | Some before => session_progress before s
  end.

Lemma sessions_delta_checked (b a : PolicySnapshot (PT := PT)) scope :
  validate_bokeh_sessions_delta b a scope = Ok () ->
  (forall k, is_Some (rs_bokeh_sessions (state b) !! k) -> is_Some (rs_bokeh_sessions (state a) !! k)) /\
  map_Forall (session_checked scope (rs_bokeh_sessions (state b)) (rs_executions (state a)))
    (rs_bokeh_sessions (state a)).
Proof.
  unfold validate_bokeh_sessions_delta. rewrite seq_ok, !all_ok_Ok, !Forall_forall.
  intros [Hold Hrec]. split.
  - intros k Hk%elem_of_keys. apply Hold in Hk. by rewrite guard_ok_Ok, bool_decide_eq_true in Hk.
  - intros k s Hs. specialize (Hrec (k, s)). cbn [fst snd] in Hrec.
    rewrite elem_of_map_to_list, seq_ok in Hrec. destruct (Hrec Hs) as [Hv Hm].
    split; [done|]. destruct (rs_bokeh_sessions (state b) !! k); [|done].
    by eapply session_update_progress.
Qed.

Lemma sessions_delta_progress (b a : PolicySnapshot (PT := PT)) scope :
  validate_bokeh_sessions_delta b a scope = Ok () ->
  carried session_progress (rs_bokeh_sessions (state b)) (rs_bokeh_sessions (state a)).
Proof.
  intros [Hold Hrec]%sessions_delta_checked k v Hv. destruct (Hold k ltac:(eauto)) as [w Hw].
  exists w. split; [done|]. destruct (Hrec k w Hw) as [_ H]. by rewrite Hv in H.
Qed.

(** ** Changes in sequence *)

(** A change that some connection was allowed to make. *)
Definition accepted (b a : PolicySnapshot (PT := PT)) : Prop :=
  exists scope, validate_runtime_state_sync_scope b a scope = Ok ().

(** What one accepted change, and so any number of them, preserves. *)
Record policy_progress (b a : PolicySnapshot (PT := PT)) : Prop := {
  progress_host : host_owned b = host_owned a;
  progress_ids : dom (rs_executions (state a)) = dom (rs_executions (state b));
  progress_executions : carried execution_progress (rs_executions (state b)) (rs_executions (state a));
  progress_sessions : carried session_progress (rs_bokeh_sessions (state b)) (rs_bokeh_sessions (state a));
}.

Lemma peer_delta_ok (b a : PolicySnapshot (PT := PT)) scope :
  validate_runtime_peer_runtime_delta b a scope = Ok () <->
  validate_runtime_peer_root_keys b a scope = Ok () /\
  validate_runtime_peer_execution_delta b a scope = Ok () /\
  validate_runtime_peer_queue_delta b a scope = Ok () /\
  validate_runtime_peer_room_host_owned_delta b a scope = Ok () /\
  validate_runtime_peer_comm_state_delta b a scope = Ok () /\
  validate_bokeh_sessions_delta b a scope = Ok ().
Proof. unfold validate_runtime_peer_runtime_delta. by rewrite !seq_ok. Qed.

(** An accepted change is a checked change of a runtime peer or no change at all. *)
Lemma accepted_cases (b a : PolicySnapshot (PT := PT)) :
  accepted b a -> a = b \/ validate_runtime_peer_runtime_delta b a PRuntimePeer = Ok ().
Proof.
  intros [[] H]; cbn [validate_runtime_state_sync_scope] in H;
    try (rewrite guard_ok_Ok, bool_decide_eq_true in H); auto.
Qed.

#[export] Instance policy_progress_preorder : PreOrder policy_progress.
Proof.
  split.
  - intros p. split; [done|done|apply carried_refl, execution_progress_refl
      |apply carried_refl, session_progress_refl].
  - intros x y z [H1 I1 E1 S1] [H2 I2 E2 S2]. split; [congruence|congruence| |].
    + eapply carried_trans; [apply execution_progress_trans|done..].
    + eapply carried_trans; [apply session_progress_trans|done..].
Qed.

Lemma accepted_progress b a : accepted b a -> policy_progress b a.
Proof.
  intros [->|(_ & He & _ & Hh & _ & Hs)%peer_delta_ok]%accepted_cases; [done|].
  apply execution_delta_progress in He as [Hd He]. apply host_owned_ok in Hh.
  apply sessions_delta_progress in Hs. by split.
Qed.

(** C3. over any number of changes that the policy accepts, from connections of any
    scope, the state owned by the host (environment, trust, identity, save state,
    path, project, workstation) is untouched; no execution is added or removed; every
    execution keeps its source, cell, position and submitter, its status only moves
    forward, and once it is done or failed (a cancelled one is not protected) its status,
    success flag and count never change and its outputs stay in place, with new ones only
    after them: each is unchanged, or it is a live display, shown data with a display id,
    of which only the payload and the metadata were replaced; and every Bokeh session keeps
    its provenance, its epoch never goes back, its document changes only with the epoch,
    and a closed one is frozen. *)
Theorem accepted_changes_progress b a : rtc accepted b a -> policy_progress b a.
Proof.
  induction 1 as [p|x y z Hxy _ IH]; [done|]. etransitivity; [|exact IH].
  by apply accepted_progress.
Qed.

(** C33. every Bokeh session record of a state reached by accepted changes is complete
    (output, cell, execution, kernel, producer, version, roots) and has a valid document
    identity (64 hexadecimal digits a head, previous heads exactly after the first epoch),
    and names an execution of the document that belongs to the session's cell, provided
    the records were so at the start. *)
Theorem sessions_stay_anchored b a :
  sessions_anchored b -> rtc accepted b a -> sessions_anchored a.
Proof.
  intros Hb. induction 1 as [p|x y z Hxy _ IH]; [done|]. apply IH. clear IH.
  pose proof (progress_executions _ _ (accepted_progress _ _ Hxy)) as He.
  destruct (accepted_cases _ _ Hxy) as [->|(_ & _ & _ & _ & _ & Hs)%peer_delta_ok]; [done|].
  apply sessions_delta_checked in Hs as [_ Hs]. intros k s Hk.
  destruct (Hs k s Hk) as [Hv Hm]. split; [by eapply validated_complete|].
  destruct (rs_bokeh_sessions (state x) !! k) as [s0|] eqn:E0.
  - destruct (Hb k s0 E0) as [_ (e & He0 & Hc)]. destruct (He _ _ He0) as (e' & He' & [Hp _ _]).
    apply session_progress_provenance in Hm. unfold session_provenance in Hm.
    injection Hm as H1 H2 H3. exists e'. rewrite <-H3, <-H2, <-Hc. split; [done|].
    unfold execution_provenance in Hp. naive_solver.
  - apply new_session_anchored in Hm as (_ & e & ? & ? & _). eauto.
Qed.

Lemma queue_entries_ok_spec scope x y seen entries :
  queue_entries_ok scope x y seen entries = Ok () ->
  NoDup entries /\ (forall eid, eid ∈ entries -> eid ∉ seen) /\
  (forall eid, eid ∈ entries -> is_Some (x !! eid) /\
    exists e, y !! eid = Some e /\ es_status e ∉ ["done"; "error"; "cancelled"]).
Proof.
  revert seen. induction entries as [|eid entries IH]; intros seen; simpl.
  { intros _. split_and!; [constructor|set_solver..]. }
  rewrite !seq_ok, !guard_ok_Ok, !bool_decide_eq_true. intros (Hs & Hx & H).
  destruct (y !! eid) as [e|] eqn:Hy; [|done].
  rewrite seq_ok, guard_ok_Ok, bool_decide_eq_true in H. destruct H as [He H].
  apply IH in H as (Hnd & Hdis & Hall). split_and!.
  - constructor; [|done]. intros Hin. by apply (Hdis eid Hin), list_elem_of_here.
  - intros k [->|Hk]%elem_of_cons; [done|]. pose proof (Hdis k Hk). set_solver.
  - intros k [->|Hk]%elem_of_cons; [eauto|auto].
Qed.

(** When a change that rewrites the queue is accepted, it comes from a runtime
    peer, and the queue it leaves lists every execution at most once, the running one
    included, each one was known before the change, and none of them is finished,
    failed or cancelled after it. *)
Theorem accepted_queue_is_live (b a : PolicySnapshot (PT := PT)) scope :
  validate_runtime_state_sync_scope b a scope = Ok () ->
  rs_queue (state a) <> rs_queue (state b) ->
  scope = PRuntimePeer /\ NoDup (queue_ids (rs_queue (state a))) /\
  forall eid, eid ∈ queue_ids (rs_queue (state a)) ->
    is_Some (rs_executions (state b) !! eid) /\
    exists e, rs_executions (state a) !! eid = Some e /\
      es_status e ∉ ["done"; "error"; "cancelled"].
Proof.
  intros H Hq.
  assert (scope = PRuntimePeer) as ->.
  { destruct scope; [..|done|]; cbn in H; rewrite guard_ok_Ok, bool_decide_eq_true in H; by subst. }
  split; [done|]. apply peer_delta_ok in H as (_ & _ & H & _).
  unfold validate_runtime_peer_queue_delta in H. rewrite decide_False in H by congruence.
  apply queue_entries_ok_spec in H as (? & _ & ?). done.
Qed.

End Accepted.

(** ** Examples: documents written by the modelled operations *)

Module PolicyExamples.

Definition snap (d : RuntimeStateDoc) : PolicySnapshot (PT := unit) :=
  runtime_state_policy_snapshot (fun _ => ()) (fun _ => None) d.

(** Two accepted executions of cells; then the runtime runs the first, with the second
    behind it, finishes it and opens a Bokeh session on its output. *)
Definition submitted : RuntimeStateDoc :=
  let d := (create_execution_with_source_provenance "e1" "x" 0 None (Some "c1") new_runtime_doc).1 in
  (create_execution_with_source_provenance "e2" "y" 1 None (Some "c2") d).1.

Definition started : RuntimeStateDoc :=
  (set_queue (Some (mkDocQueueEntry "e1")) [mkDocQueueEntry "e2"] (set_execution_running "e1" submitted).1).1.

Definition plot : json :=
  JObject {["output_id" := JString "o1"; "output_type" := JString "display_data";
    "data" := JObject {[BOKEH_SESSION_MIME := JString "{}"]}; "metadata" := JObject ∅]}.

Definition finished : RuntimeStateDoc :=
  (set_queue None [mkDocQueueEntry "e2"]
    (set_execution_done "e1" true (append_output "e1" plot started).1).1).1.

Definition head : string := "0123456789abcdef0123456789abcdef0123456789abcdef0123456789abcdef".

Definition session : BokehSessionState :=
  mkSession "o1" "c1" "e1" "k1" Connected "panel" "1.0" "3.4" ["r1"] 0 [head] [].

Definition serving : RuntimeStateDoc := (put_bokeh_session "s1" session finished).1.

Lemma run_accepted : rtc accepted (snap submitted) (snap serving).
Proof.
  apply (rtc_l _ _ (snap started)). { exists PRuntimePeer. vm_compute. reflexivity. }
  apply (rtc_l _ _ (snap finished)). { exists PRuntimePeer. vm_compute. reflexivity. }
  apply rtc_once. exists PRuntimePeer. vm_compute. reflexivity.
Qed.

Lemma accepted_changes_progress_witness :
  rs_bokeh_sessions (state (snap serving)) !! "s1" = Some session /\
  policy_progress (snap submitted) (snap serving).
Proof. split; [vm_compute; reflexivity|]. exact (accepted_changes_progress _ _ run_accepted). Defined.

Lemma sessions_stay_anchored_witness : sessions_anchored (snap serving).
Proof.
  apply (sessions_stay_anchored (snap submitted)); [|exact run_accepted].
  apply map_Forall_empty.
Defined.

Lemma accepted_queue_is_live_witness :
  queue_ids (rs_queue (state (snap started))) = ["e1"; "e2"] /\
  NoDup (queue_ids (rs_queue (state (snap started)))).
Proof.
  split; [vm_compute; reflexivity|].
  apply (accepted_queue_is_live (snap submitted) (snap started) PRuntimePeer).
  - vm_compute. reflexivity.
  - vm_compute. discriminate.
Defined.

(** An editor's or owner's write, a new execution, a step back and a rewritten result
    are refused. *)
Example refusals :
  validate_runtime_state_sync_scope (snap submitted) (snap started) POwner
    = Err (mkPolicyError "owner" "runtime state") /\
  validate_runtime_state_sync_scope (snap new_runtime_doc) (snap submitted) PRuntimePeer
    = Err (mkPolicyError "runtime_peer" "executions") /\
  validate_runtime_state_sync_scope (snap started) (snap submitted) PRuntimePeer
    = Err (mkPolicyError "runtime_peer" "executions") /\
  validate_runtime_state_sync_scope (snap finished) (snap (set_execution_done "e1" false finished).1)
    PRuntimePeer = Err (mkPolicyError "runtime_peer" "executions") /\
  validate_runtime_state_sync_scope (snap finished)
    (snap (set_queue (Some (mkDocQueueEntry "e1")) [] finished).1) PRuntimePeer
    = Err (mkPolicyError "runtime_peer" "queue").
Proof. vm_compute. done. Qed.

(** The result of a cancelled execution is not protected: a runtime peer may set its
    success flag and rewrite its outputs. *)
Example cancelled_result_is_mutable :
  let d := (set_execution_cancelled "e1" submitted).1 in
  validate_runtime_state_sync_scope (snap (append_output "e1" plot d).1)
    (snap (set_outputs "e1" [] (append_output "e1" plot d).1).1) PRuntimePeer = Ok ().
Proof. vm_compute. done. Qed.

(** A change that finishes an execution and leaves the queue alone is accepted, so a
    finished execution can stay in the queue. *)
Example finished_may_stay_queued :
  validate_runtime_state_sync_scope (snap started) (snap (set_execution_done "e1" true started).1)
    PRuntimePeer = Ok () /\
  queue_ids (rs_queue (state (snap (set_execution_done "e1" true started).1))) = ["e1"; "e2"].
Proof. vm_compute. done. Qed.

End PolicyExamples.
