(* ===== verification/NotebookDoc.v ===== *)
(** * The notebook document

    Model of the cells and metadata of [crates/notebook-doc/src/lib.rs] on the tree of
    [Automunge]: the tree is what a reader of the document sees, a write acts on it, and
    a method that refuses returns its error or [false].  Fractional indices are
    [loro_fractional_index] and text is Automerge's; both are interfaces with the laws
    the code relies on, and serde's parser of the legacy metadata string is a parameter.
    The theorems: the cell operations refine a list of ids, what is written is what is
    read, and the order-free scans agree with the sorted list. *)

From S2P Require Import Prelude Kernel Automunge RuntimeDoc RuntimeOutputs.

(** ** Interfaces of the libraries *)

(** [FractionalIndex]: positions are stored as hexadecimal strings. *)
Class FractionalIndex := {
  findex : Type;
  fi_default : findex;
  new_before : findex -> findex;
  new_after : findex -> findex;
  new_between : findex -> findex -> option findex;
  fi_to_string : findex -> string;
  from_hex_string : string -> findex;
}.

Definition str_lt (s t : string) : Prop := String.le s t /\ s <> t.

#[export] Instance str_lt_dec s t : Decision (str_lt s t).
Proof. apply and_dec; apply _. Defined.

(** The strings are read back, sort as the indices do, and leave room everywhere. *)
Class FractionalIndexLaws `{FractionalIndex} := {
  from_to_string i : from_hex_string (fi_to_string i) = i;
  new_before_lt i : str_lt (fi_to_string (new_before i)) (fi_to_string i);
  new_after_lt i : str_lt (fi_to_string i) (fi_to_string (new_after i));
  new_between_lt i j : str_lt (fi_to_string i) (fi_to_string j) ->
    exists k, new_between i j = Some k /\
      str_lt (fi_to_string i) (fi_to_string k) /\ str_lt (fi_to_string k) (fi_to_string j);
}.

(** Automerge text: its length and its splice, in the units of the document's encoding. *)
Class TextOps := {
  text_length : string -> Z;
  splice_text : string -> Z -> Z -> string -> option string;
}.

(** A place between characters of the UTF-8 text: the rest does not start inside one. *)
Definition is_boundary (s : string) : bool :=
  match s with
  | EmptyString => true
  | String c _ => negb (Z.land (Z.of_N (Ascii.N_of_ascii c)) 192 =? 128)
  end.

Class TextLaws `{TextOps} := {
  text_length_app s t : text_length (s +:+ t) = text_length s + text_length t;
  text_length_nonneg s : 0 <= text_length s;
  splice_text_ok a b c s : is_boundary b = true -> is_boundary c = true ->
    splice_text (a +:+ b +:+ c) (text_length a) (text_length b) s = Some (a +:+ s +:+ c);
}.

(** ** Data *)

Inductive AutomergeError :=
| InvalidObjId (what : string)
| InvalidIndex (n : Z)
| TextError.

Inductive AttachmentEncoding := Base64 | TextEnc | JsonEnc | UnknownEnc (value : string).

Definition encoding_str (e : AttachmentEncoding) : string :=
  match e with Base64 => "base64" | TextEnc => "text" | JsonEnc => "json" | UnknownEnc v => v end.

Definition from_schema_str (v : string) : AttachmentEncoding :=
  if decide (v = "base64") then Base64 else if decide (v = "text") then TextEnc
  else if decide (v = "json") then JsonEnc else UnknownEnc v.

Record AttachmentRef := mkAttachment { blob_hash : string; encoding : AttachmentEncoding }.

#[export] Instance AttachmentEncoding_eq_dec : EqDecision AttachmentEncoding.
Proof. solve_decision. Defined.
#[export] Instance AttachmentRef_eq_dec : EqDecision AttachmentRef.
Proof. solve_decision. Defined.

Abbreviation CellAttachments := (gmap string (gmap string AttachmentRef)).

Record CellSnapshot := mkCell {
  cell_id : string; cell_type : string; position : string; source : string;
  execution_count : string; cell_metadata : json; resolved_assets : gmap string string;
  attachments : CellAttachments;
}.

(** [NotebookDoc]: the root map of the document. *)
Abbreviation NotebookDoc := (gmap string node).

Definition NotebookM (A : Type) : Type := NotebookDoc -> NotebookDoc * result AutomergeError A.

Definition SCHEMA_VERSION : Z := 5.

(** ** Helpers *)

(** [read_str]. *)
Definition read_string (m : gmap string node) (key : string) : option string :=
  m !! key ≫= node_str.

(** [map_id], [text_id]. *)
Definition map_at (m : gmap string node) (key : string) : option (gmap string node) :=
  match m !! key with Some (NMap o) => Some o | _ => None end.

Definition text_at (m : gmap string node) (key : string) : option string :=
  match m !! key with Some (NText s) => Some s | _ => None end.

Definition cells_map (d : NotebookDoc) : option (gmap string node) := map_at d "cells".
Definition metadata_map (d : NotebookDoc) : option (gmap string node) := map_at d "metadata".

Definition cell_obj_for (id : string) (d : NotebookDoc) : option (gmap string node) :=
  cells ← cells_map d; map_at cells id.

Definition set_cells (cells : gmap string node) (d : NotebookDoc) : NotebookDoc :=
  <["cells" := NMap cells]> d.

(** A write into the object of a cell; [false] when there is no such cell. *)
Definition update_cell (id : string) (f : gmap string node -> gmap string node) : NotebookM bool := fun d =>
  match cells_map d with
  | None => (d, Ok false)
  | Some cells =>
      match map_at cells id with
      | None => (d, Ok false)
      | Some cell => (set_cells (<[id := NMap (f cell)]> cells) d, Ok true)
      end
  end.

(** ** Order *)

(** Comparison of [(position, id)] pairs. *)
Definition pair_le (x y : string * string) : Prop :=
  str_lt x.1 y.1 \/ (x.1 = y.1 /\ String.le x.2 y.2).

#[export] Instance pair_le_dec : RelDecision pair_le.
Proof. intros x y. apply or_dec; apply _. Defined.

(** The position of a cell, with the default of a cell that has none. *)
Definition cell_position (cell : gmap string node) : string := default "80" (read_string cell "position").

(** The pair of a key, if it holds a cell. *)
Definition position_pair (cells : gmap string node) (key : string) : option (string * string) :=
  cell ← map_at cells key; Some (cell_position cell, key).

Definition get_cell_positions (d : NotebookDoc) : list (string * string) :=
  match cells_map d with
  | None => []
  | Some cells => merge_sort pair_le (omap (position_pair cells) (keys cells))
  end.

Definition get_cell_ids (d : NotebookDoc) : list string := (get_cell_positions d).*2.

(** The single pass that keeps the best pair so far. *)
Definition scan_best (better : string * string -> string * string -> bool) (d : NotebookDoc) : option string :=
  cells ← cells_map d;
  snd <$> foldl (fun best key =>
    match position_pair cells key with
    | None => best
    | Some p => match best with
        | None => Some p
        | Some b => if better p b then Some p else best
        end
    end) None (keys cells).

Definition last_cell_id (d : NotebookDoc) : option string :=
  scan_best (fun p b => negb (bool_decide (pair_le p b))) d.
Definition first_cell_id (d : NotebookDoc) : option string :=
  scan_best (fun p b => negb (bool_decide (pair_le b p))) d.

Section Notebook.
Context `{FI : FractionalIndex, TX : TextOps}.
Variable json_from_str : string -> option json.

Definition compute_position (after_cell_id : option string) (d : NotebookDoc) : findex :=
  let pairs := get_cell_positions d in
  match after_cell_id with
  | None =>
      match head pairs with
      | Some p => new_before (from_hex_string p.1)
      | None => fi_default
      end
  | Some after_id =>
      match list_find (fun p => p.2 = after_id) pairs with
      | Some (i, p) =>
          match pairs !! S i with
          | Some next =>
              default (new_after (from_hex_string p.1))
                (new_between (from_hex_string p.1) (from_hex_string next.1))
          | None => new_after (from_hex_string p.1)
          end
      | None =>
          match last pairs with
          | Some p => new_after (from_hex_string p.1)
          | None => fi_default
          end
      end
  end.

(** ** Reading cells *)

Definition read_cell_metadata (cell : gmap string node) : json :=
  match cell !! "metadata" with
  | Some (NMap m) => JObject (omap read_node m)
  | Some (NScalar (SStr s)) => default (JObject ∅) (json_from_str s)
  | _ => JObject ∅
  end.

(** One media type and one attachment of [read_attachment_refs]. *)
Definition read_attachment (n : node) : option AttachmentRef :=
  match n with
  | NMap r =>
      hash ← read_string r "blob_hash";
      Some (mkAttachment hash (match read_string r "encoding" with
        | Some v => from_schema_str v
        | None => Base64
        end))
  | _ => None
  end.

Definition read_bundle (n : node) : option (gmap string AttachmentRef) :=
  match n with
  | NMap b => let bundle := omap read_attachment b in if decide (bundle = ∅) then None else Some bundle
  | _ => None
  end.

Definition read_attachment_refs (m : gmap string node) : CellAttachments := omap read_bundle m.

Definition read_assets (m : gmap string node) : gmap string string := omap node_str m.

Definition read_cell (cell : gmap string node) : option CellSnapshot :=
  id ← read_string cell "id";
  Some (mkCell id (default "" (read_string cell "cell_type")) (cell_position cell)
    (default "" (text_at cell "source")) (default "null" (read_string cell "execution_count"))
    (read_cell_metadata cell)
    (match map_at cell "resolved_assets" with Some m => read_assets m | None => ∅ end)
    (match map_at cell "attachments" with Some m => read_attachment_refs m | None => ∅ end)).

(** [read_cell_at]: the fields a guard compares, in the tree at the given heads. *)
Definition read_cell_at (cell : gmap string node) : option CellSnapshot :=
  id ← read_string cell "id";
  Some (mkCell id (default "" (read_string cell "cell_type")) (cell_position cell)
    (default "" (text_at cell "source")) (default "null" (read_string cell "execution_count"))
    (JObject ∅) ∅ ∅).

Definition cell_le (a b : CellSnapshot) : Prop := pair_le (position a, cell_id a) (position b, cell_id b).

#[export] Instance cell_le_dec a b : Decision (cell_le a b).
Proof. apply pair_le_dec. Defined.

(** [get_cells] and [get_cells_from_doc]. *)
Definition get_cells (d : NotebookDoc) : list CellSnapshot :=
  match cells_map d with
  | None => []
  | Some cells => merge_sort cell_le (omap (fun key => map_at cells key ≫= read_cell) (keys cells))
  end.

(** [get_cells_at_heads], on the tree at those heads. *)
Definition get_cells_at (d : NotebookDoc) : list CellSnapshot :=
  match cells_map d with
  | None => []
  | Some cells => merge_sort cell_le (omap (fun key => map_at cells key ≫= read_cell_at) (keys cells))
  end.

Definition cell_count (d : NotebookDoc) : nat :=
  match cells_map d with Some cells => base.size cells | None => 0%nat end.
Definition has_cells_map (d : NotebookDoc) : bool := bool_decide (is_Some (cells_map d)).

Definition get_cell (id : string) (d : NotebookDoc) : option CellSnapshot := cell_obj_for id d ≫= read_cell.
Definition get_cell_source (id : string) (d : NotebookDoc) : option string :=
  cell ← cell_obj_for id d; text_at cell "source".
Definition get_cell_type (id : string) (d : NotebookDoc) : option string :=
  cell ← cell_obj_for id d; read_string cell "cell_type".
Definition get_cell_execution_count (id : string) (d : NotebookDoc) : option string :=
  cell ← cell_obj_for id d; read_string cell "execution_count".
Definition get_cell_position (id : string) (d : NotebookDoc) : option string :=
  cell ← cell_obj_for id d; read_string cell "position".
Definition get_execution_id (id : string) (d : NotebookDoc) : option string :=
  cell ← cell_obj_for id d; read_string cell "execution_id".
Definition get_cell_metadata (id : string) (d : NotebookDoc) : option json :=
  cell ← cell_obj_for id d; Some (read_cell_metadata cell).
Definition get_cell_resolved_assets (id : string) (d : NotebookDoc) : option (gmap string string) :=
  cell ← cell_obj_for id d; m ← map_at cell "resolved_assets"; Some (read_assets m).
Definition get_cell_attachments (id : string) (d : NotebookDoc) : option CellAttachments :=
  cell ← cell_obj_for id d; m ← map_at cell "attachments"; Some (read_attachment_refs m).

(** ** Writing cells *)

(** A new cell object: [put_object] and the puts that follow it. *)
Definition new_cell (id cell_type position source execution_count : string) (metadata : gmap string node)
    : gmap string node :=
  {["id" := str_node id; "cell_type" := str_node cell_type; "position" := str_node position;
    "source" := NText source; "execution_count" := str_node execution_count;
    "metadata" := NMap metadata; "resolved_assets" := NMap ∅; "attachments" := NMap ∅]}.

Definition add_cell_after (id cell_type : string) (after_cell_id : option string) : NotebookM string := fun d =>
  match cells_map d with
  | None => (d, Err (InvalidObjId "cells map not found"))
  | Some cells =>
      let position := fi_to_string (compute_position after_cell_id d) in
      (set_cells (<[id := NMap (new_cell id cell_type position "" "null" ∅)]> cells) d, Ok position)
  end.

Definition add_cell (index : nat) (id cell_type : string) : NotebookM () := fun d =>
  let ids := get_cell_ids d in
  let clamped := (index `min` length ids)%nat in
  let after := if decide (clamped = 0%nat) then None else ids !! (clamped - 1)%nat in
  match add_cell_after id cell_type after d with
  | (d, Ok _) => (d, Ok ())
  | (d, Err e) => (d, Err e)
  end.

(** The entries of a JSON object written into a new map. *)
Definition metadata_node (metadata : json) : gmap string node :=
  match metadata with JObject m => fresh_node <$> m | _ => ∅ end.

Definition add_cell_full (id cell_type position source execution_count : string) (metadata : json)
    : NotebookM () := fun d =>
  match cells_map d with
  | None => (d, Err (InvalidObjId "cells map not found"))
  | Some cells =>
      (set_cells (<[id := NMap (new_cell id cell_type position source execution_count
        (metadata_node metadata))]> cells) d, Ok ())
  end.

Definition delete_cell (id : string) : NotebookM bool := fun d =>
  match cells_map d with
  | None => (d, Ok false)
  | Some cells =>
      match map_at cells id with
      | None => (d, Ok false)
      | Some _ => (set_cells (delete id cells) d, Ok true)
      end
  end.

Definition move_cell (id : string) (after_cell_id : option string) : NotebookM string := fun d =>
  match cells_map d with
  | None => (d, Err (InvalidObjId "cells map not found"))
  | Some cells =>
      match map_at cells id with
      | None => (d, Err (InvalidObjId "cell not found"))
      | Some cell =>
          let position := fi_to_string (compute_position after_cell_id d) in
          (set_cells (<[id := NMap (<["position" := str_node position]> cell)]> cells) d, Ok position)
      end
  end.

Definition clear_all_cells : NotebookM () := fun d =>
  match cells_map d with
  | None => (d, Ok ())
  | Some cells => (set_cells (foldl (fun m id => delete id m) cells (keys cells)) d, Ok ())
  end.

(** A write into the source text of a cell; [None] is a splice that Automerge refuses.
    [update_text] leaves the text it is given. *)
Definition edit_source (id : string) (f : string -> option string) : NotebookM bool := fun d =>
  match cells_map d with
  | None => (d, Ok false)
  | Some cells =>
      match map_at cells id with
      | None => (d, Ok false)
      | Some cell =>
          match text_at cell "source" with
          | None => (d, Ok false)
          | Some text =>
              match f text with
              | None => (d, Err TextError)
              | Some text => (set_cells (<[id := NMap (<["source" := NText text]> cell)]> cells) d, Ok true)
              end
          end
      end
  end.

Definition update_source (id new_source : string) : NotebookM bool :=
  edit_source id (fun _ => Some new_source).

(** The count is converted to [isize] once the text is found. *)
Definition splice_source (id : string) (index delete_count : Z) (text : string) : NotebookM bool := fun d =>
  match cell_obj_for id d ≫= fun cell => text_at cell "source" with
  | Some _ =>
      if decide (delete_count <= i64_max) then
        edit_source id (fun t => splice_text t index delete_count text) d
      else (d, Err (InvalidIndex delete_count))
  | None => (d, Ok false)
  end.

Definition append_source (id text : string) : NotebookM bool :=
  edit_source id (fun t => splice_text t (text_length t) 0 text).

Definition set_execution_id (id : string) (execution_id : option string) : NotebookM bool :=
  update_cell id (fun cell => <["execution_id" := opt_str_node execution_id]> cell).

Definition clear_outputs (id : string) : NotebookM bool :=
  update_cell id (fun cell => <["execution_count" := str_node "null"]> (<["execution_id" := null_node]> cell)).

Definition set_cell_type (id ty : string) : NotebookM bool :=
  update_cell id (fun cell => <["cell_type" := str_node ty]> cell).

(** ** Cell metadata *)

Definition set_cell_metadata (id : string) (metadata : json) : NotebookM bool :=
  update_cell id (fun cell => <["metadata" := NMap (metadata_node metadata)]> cell).

(** Coercion to an object at each hop, missing entries created. *)
Definition as_object (v : json) : gmap string json := match v with JObject m => m | _ => ∅ end.

Fixpoint json_set_at (path : list string) (value v : json) : json :=
  match path with
  | [] => value
  | key :: rest =>
      JObject (<[key := json_set_at rest value (default (JObject ∅) (as_object v !! key))]> (as_object v))
  end.

Definition update_cell_metadata_at (id : string) (path : list string) (value : json) : NotebookM bool := fun d =>
  match path with
  | [] => set_cell_metadata id value d
  | _ => set_cell_metadata id (json_set_at path value (default (JObject ∅) (get_cell_metadata id d))) d
  end.

Definition set_cell_source_hidden (id : string) (hidden : bool) : NotebookM bool :=
  update_cell_metadata_at id ["jupyter"; "source_hidden"] (JBool hidden).
Definition set_cell_outputs_hidden (id : string) (hidden : bool) : NotebookM bool :=
  update_cell_metadata_at id ["jupyter"; "outputs_hidden"] (JBool hidden).
Definition set_cell_tags (id : string) (tags : list string) : NotebookM bool :=
  update_cell_metadata_at id ["tags"] (JArray (JString <$> tags)).

(** What [CellSnapshot] reads of it. *)
Definition jupyter_flag (key : string) (c : CellSnapshot) : bool :=
  match json_get (cell_metadata c) "jupyter" ≫= fun j => json_get j key with
  | Some (JBool b) => b
  | _ => false
  end.
Definition is_source_hidden (c : CellSnapshot) : bool := jupyter_flag "source_hidden" c.
Definition is_outputs_hidden (c : CellSnapshot) : bool := jupyter_flag "outputs_hidden" c.
Definition is_collapsed (c : CellSnapshot) : bool :=
  match json_get (cell_metadata c) "collapsed" with Some (JBool b) => b | _ => false end.
Definition tags (c : CellSnapshot) : list string :=
  match json_get (cell_metadata c) "tags" with Some (JArray l) => omap json_str l | _ => [] end.

(** ** Assets and attachments *)

(** The deletions of a replacement: entries that were read and are gone. *)
Definition drop_stale {A} (existing wanted : gmap string A) (m : gmap string node) : gmap string node :=
  filter (fun x => ~ (is_Some (existing !! x.1) /\ wanted !! x.1 = None)) m.

(** The puts of a replacement: entries that differ from what was read. *)
Definition put_changed {A} `{EqDecision A} (to_node : A -> node) (existing wanted : gmap string A)
    (m : gmap string node) : gmap string node :=
  map_imap (fun k v => if decide (existing !! k = Some v) then None else Some (to_node v)) wanted ∪ m.

Definition set_cell_resolved_assets (id : string) (wanted : gmap string string) : NotebookM bool := fun d =>
  match cell_obj_for id d with
  | None => (d, Ok false)
  | Some cell =>
      let existing := default ∅ (get_cell_resolved_assets id d) in
      if decide (existing = wanted) then (d, Ok false)
      else
        let old := default ∅ (map_at cell "resolved_assets") in
        update_cell id (fun cell => <["resolved_assets" :=
          NMap (put_changed str_node existing wanted (drop_stale existing wanted old))]> cell) d
  end.

Definition attachment_node (r : AttachmentRef) : node :=
  NMap {["blob_hash" := str_node (blob_hash r); "encoding" := str_node (encoding_str (encoding r))]}.

(** The loop body of one attachment name. *)
Definition write_bundle (old : gmap string node) (existing wanted : gmap string AttachmentRef) : node :=
  NMap (put_changed attachment_node existing wanted (drop_stale existing wanted old)).

Definition write_attachments (old : gmap string node) (existing wanted : CellAttachments) : gmap string node :=
  let kept := drop_stale existing wanted old in
  map_imap (fun name bundle =>
    Some (write_bundle (default ∅ (map_at kept name)) (default ∅ (existing !! name)) bundle)) wanted ∪ kept.

Definition set_cell_attachments (id : string) (wanted : CellAttachments) : NotebookM bool := fun d =>
  match cell_obj_for id d with
  | None => (d, Ok false)
  | Some cell =>
      let existing := default ∅ (get_cell_attachments id d) in
      if decide (existing = wanted) then (d, Ok false)
      else
        let old := default ∅ (map_at cell "attachments") in
        update_cell id (fun cell => <["attachments" := NMap (write_attachments old existing wanted)]> cell) d
  end.

(** ** Notebook metadata *)

(** The metadata map, created when missing. *)
Definition metadata_or_new (d : NotebookDoc) : gmap string node := default ∅ (metadata_map d).

Definition set_meta_map (m : gmap string node) (d : NotebookDoc) : NotebookDoc := <["metadata" := NMap m]> d.

Definition get_metadata (key : string) (d : NotebookDoc) : option string :=
  m ← metadata_map d; read_string m key.
Definition set_metadata (key value : string) : NotebookM () := fun d =>
  (set_meta_map (<[key := str_node value]> (metadata_or_new d)) d, Ok ()).
Definition delete_metadata (key : string) : NotebookM bool := fun d =>
  match metadata_map d with
  | None => (d, Ok false)
  | Some m =>
      match m !! key with
      | Some _ => (set_meta_map (delete key m) d, Ok true)
      | None => (d, Ok false)
      end
  end.
Definition set_metadata_value (key : string) (v : json) : NotebookM () := fun d =>
  (set_meta_map (update_json_at_key (metadata_or_new d) key v) d, Ok ()).
Definition get_metadata_value (key : string) (d : NotebookDoc) : option json :=
  m ← metadata_map d; read_json_value m key.

Definition get_pyodide_manifest (d : NotebookDoc) : option json :=
  m ← metadata_map d; runt ← map_at m "runt"; read_json_value runt "pyodide".

(** The metadata map is created before the [runt] entry is looked at. *)
Definition set_pyodide_manifest (v : json) : NotebookM () := fun d =>
  let m := metadata_or_new d in
  match m !! "runt" with
  | Some (NMap runt) => (set_meta_map (<["runt" := NMap (update_json_at_key runt "pyodide" v)]> m) d, Ok ())
  | None => (set_meta_map (<["runt" := NMap (update_json_at_key {["schema_version" := str_node "1"]} "pyodide" v)]> m) d, Ok ())
  | Some _ => (set_meta_map m d, Err (InvalidObjId "runt metadata must be a map"))
  end.

Definition is_snapshot_reserved_metadata_key (key : string) : bool :=
  bool_decide (key ∈ ["kernelspec"; "language_info"; "runt"; "runtime"; "ephemeral"]).

Definition scan_metadata_extras (m : gmap string node) : gmap string json :=
  omap read_node (filter (fun x => is_snapshot_reserved_metadata_key x.1 = false) m).

(** ** Identity and construction *)

Definition default_runtime_state_doc_id (notebook_id : string) : string := "runtime:" +:+ notebook_id.
Definition default_comms_doc_id (notebook_id : string) : string := "comms:" +:+ notebook_id.

Definition schema_seed_doc : NotebookDoc :=
  {["schema_version" := NScalar (SUint SCHEMA_VERSION); "cells" := NMap ∅; "metadata" := NMap ∅]}.

Definition new_notebook (notebook_id : string) : NotebookDoc :=
  <["comms_doc_id" := str_node (default_comms_doc_id notebook_id)]>
  (<["runtime_state_doc_id" := str_node (default_runtime_state_doc_id notebook_id)]>
  (<["notebook_id" := str_node notebook_id]> schema_seed_doc)).

Definition schema_version (d : NotebookDoc) : option Z :=
  match d !! "schema_version" with
  | Some (NScalar (SUint v)) => Some v
  | Some (NScalar (SInt v)) => if 0 <=? v then Some v else None
  | _ => None
  end.

Definition notebook_id (d : NotebookDoc) : option string := read_string d "notebook_id".
Definition runtime_state_doc_id (d : NotebookDoc) : option string := read_string d "runtime_state_doc_id".
Definition comms_doc_id (d : NotebookDoc) : option string := read_string d "comms_doc_id".

Definition set_runtime_state_doc_id (id : string) : NotebookM () := fun d =>
  (<["runtime_state_doc_id" := str_node id]> d, Ok ()).
Definition set_comms_doc_id (id : string) : NotebookM () := fun d => (<["comms_doc_id" := str_node id]> d, Ok ()).

Definition ensure_runtime_state_doc_id (nid : string) : NotebookM string := fun d =>
  match runtime_state_doc_id d with
  | Some id => (d, Ok id)
  | None => let id := default_runtime_state_doc_id nid in ((set_runtime_state_doc_id id d).1, Ok id)
  end.
Definition ensure_comms_doc_id (nid : string) : NotebookM string := fun d =>
  match comms_doc_id d with
  | Some id => (d, Ok id)
  | None => let id := default_comms_doc_id nid in ((set_comms_doc_id id d).1, Ok id)
  end.

End Notebook.

(** ** The order of cells *)

Section Order.
Context `{FI : FractionalIndex, TX : TextOps}.

#[export] Instance str_lt_trans : Transitive str_lt.
Proof.
  intros x y z [H1 H2] [H3 H4]. split; [by etransitivity|]. intros ->. by apply H2, (anti_symm String.le).
Qed.

#[export] Instance pair_le_order : PartialOrder pair_le.
Proof.
  split; [split|].
  - intros [p k]. right. by split.
  - intros [p k] [q l] [r m] [H1|[H1 H1']] [H2|[H2 H2']]; simpl in *; subst; [left..|right]; try done.
    + by etransitivity.
    + split; [done|by etransitivity].
  - intros [p k] [q l] [[H1 N1]|[E1 H1]] [[H2 N2]|[E H2]]; simpl in *; subst; try done.
    + by destruct N1; apply (anti_symm String.le).
    + f_equal. by apply (anti_symm String.le).
Qed.

#[export] Instance pair_le_total : Total pair_le.
Proof.
  intros [p k] [q l]. destruct (decide (p = q)) as [->|Hne].
  - destruct (total String.le k l); [left|right]; right; by split.
  - destruct (total String.le p q); [left|right]; left; split; simpl; congruence.
Qed.

Lemma str_lt_pair x y k l : str_lt x y -> pair_le (x, k) (y, l).
Proof. by left. Qed.

(** What a document says of its cells. *)
Definition cell_at (d : NotebookDoc) (p k : string) : Prop :=
  exists cell, cell_obj_for k d = Some cell /\ cell_position cell = p.

Lemma cell_at_pair d cells p k :
  cells_map d = Some cells -> cell_at d p k <-> position_pair cells k = Some (p, k).
Proof.
  intros Hc. unfold cell_at, cell_obj_for, position_pair. rewrite Hc. simpl.
  destruct (map_at cells k) as [c|]; simpl; naive_solver.
Qed.

Lemma elem_of_positions d p k : (p, k) ∈ get_cell_positions d <-> cell_at d p k.
Proof.
  unfold get_cell_positions. destruct (cells_map d) as [cells|] eqn:Hc.
  - rewrite merge_sort_Permutation, list_elem_of_omap, (cell_at_pair d cells) by done. split.
    + intros (k' & _ & H). unfold position_pair in H.
      destruct (map_at cells k') eqn:E; simplify_eq/=. unfold position_pair. by rewrite E.
    + intros H. exists k. split; [|done]. apply elem_of_keys. unfold position_pair, map_at in H.
      destruct (cells !! k); [by eexists|done].
  - unfold cell_at, cell_obj_for. rewrite Hc. split; [by intros ?%elem_of_nil|naive_solver].
Qed.

Lemma positions_sorted d : StronglySorted pair_le (get_cell_positions d).
Proof.
  unfold get_cell_positions. destruct (cells_map d); [|constructor].
  apply Sorted_StronglySorted; [apply _|]. by apply Sorted_merge_sort; apply _.
Qed.

Lemma NoDup_ids d : NoDup (get_cell_ids d).
Proof.
  unfold get_cell_ids, get_cell_positions. destruct (cells_map d) as [cells|]; [|constructor].
  rewrite merge_sort_Permutation. pose proof (NoDup_keys cells) as Hnd.
  induction Hnd as [|k l Hk _ IH]; simpl; [constructor|].
  destruct (position_pair cells k) as [[p k']|] eqn:E; [|done]. simpl. constructor; [|done].
  assert (k' = k) as -> by (unfold position_pair in E; destruct (map_at cells k); naive_solver).
  rewrite list_elem_of_fmap. intros ([q k'] & -> & (k0 & Hin & E')%list_elem_of_omap).
  assert (k' = k0) as -> by (unfold position_pair in E'; destruct (map_at cells k0); naive_solver).
  done.
Qed.

(** The list of positions is the only sorted list of the cells. *)
Lemma positions_unique d l :
  StronglySorted pair_le l -> NoDup l.*2 -> (forall p k, (p, k) ∈ l <-> cell_at d p k) ->
  get_cell_positions d = l.
Proof.
  intros Hs Hnd Hl. apply (StronglySorted_unique pair_le); [apply positions_sorted|done|].
  apply NoDup_Permutation.
  - eapply NoDup_fmap_1, NoDup_ids.
  - by eapply NoDup_fmap_1.
  - intros [p k]. by rewrite elem_of_positions, Hl.
Qed.

Lemma elem_of_ids d k : k ∈ get_cell_ids d <-> is_Some (cell_obj_for k d).
Proof.
  unfold get_cell_ids. rewrite list_elem_of_fmap. split.
  - intros ([p k'] & E & (c & Hc & _)%elem_of_positions). simpl in E. subst. by exists c.
  - intros [c Hc]. exists (cell_position c, k). split; [done|]. apply elem_of_positions. by eexists.
Qed.

(** *** Replacing, removing and adding a cell *)

Definition others {A} (id : string) (l : list (A * string)) : list (A * string) := filter (fun p => p.2 <> id) l.

Lemma map_at_insert m k n j : map_at (<[k := n]> m) j =
  if decide (k = j) then match n with NMap o => Some o | _ => None end else map_at m j.
Proof. unfold map_at. case_decide; [subst; by rewrite lookup_insert_eq|by rewrite lookup_insert_ne]. Qed.

Lemma cells_map_set cells d : cells_map (set_cells cells d) = Some cells.
Proof. unfold cells_map, set_cells, map_at. by rewrite lookup_insert_eq. Qed.

Lemma cell_obj_put d cells id cell k :
  cells_map d = Some cells ->
  cell_obj_for k (set_cells (<[id := NMap cell]> cells) d) =
  if decide (id = k) then Some cell else cell_obj_for k d.
Proof.
  intros Hc. unfold cell_obj_for. rewrite cells_map_set, Hc. simpl. by rewrite map_at_insert.
Qed.

Lemma cell_obj_del d cells id k :
  cells_map d = Some cells ->
  cell_obj_for k (set_cells (delete id cells) d) = if decide (id = k) then None else cell_obj_for k d.
Proof.
  intros Hc. unfold cell_obj_for. rewrite cells_map_set, Hc. simpl. unfold map_at.
  case_decide; [subst; by rewrite lookup_delete_eq|by rewrite lookup_delete_ne].
Qed.

Lemma StronglySorted_filter' {A} (R : A -> A -> Prop) (P : A -> Prop) `{forall x, Decision (P x)} l :
  StronglySorted R l -> StronglySorted R (filter P l).
Proof.
  induction 1 as [|x l _ IH Hx]; [constructor|]. rewrite filter_cons. case_decide; [|done].
  constructor; [done|]. rewrite Forall_forall in Hx |- *. intros y [_ Hy]%list_elem_of_filter. auto.
Qed.

Lemma NoDup_others {A} id (l : list (A * string)) : NoDup l.*2 -> NoDup (others id l).*2.
Proof.
  intros Hnd. induction l as [|[a k] l IH]; [done|]. rewrite fmap_cons in Hnd.
  apply NoDup_cons in Hnd as [Hk Hnd].
  unfold others. rewrite filter_cons. case_decide; [|by apply IH]. rewrite fmap_cons. constructor; [|by apply IH].
  rewrite list_elem_of_fmap in Hk |- *. intros (y & E & [_ Hy]%list_elem_of_filter). eauto.
Qed.

(** Putting a cell at a position between two halves of the order. *)
Lemma positions_put d cells id cell l1 l2 :
  cells_map d = Some cells -> get_cell_positions d = l1 ++ l2 ->
  Forall (fun p => str_lt p.1 (cell_position cell)) l1 ->
  Forall (fun p => str_lt (cell_position cell) p.1) l2 ->
  get_cell_positions (set_cells (<[id := NMap cell]> cells) d) =
  others id l1 ++ (cell_position cell, id) :: others id l2.
Proof.
  intros Hc Hl H1 H2. pose proof (positions_sorted d) as Hs. pose proof (NoDup_ids d) as Hnd.
  unfold get_cell_ids in Hnd. rewrite Hl in Hs, Hnd.
  apply positions_unique.
  - apply StronglySorted_app in Hs as (Hx & Hs1 & Hs2). apply StronglySorted_app. split_and!.
    + intros [p k] [q j] [_ Hp]%list_elem_of_filter [->|[_ Hq]%list_elem_of_filter]%elem_of_cons; [|by apply Hx].
      left. rewrite Forall_forall in H1. by apply (H1 _ Hp).
    + by apply StronglySorted_filter'.
    + constructor; [by apply StronglySorted_filter'|]. rewrite Forall_forall in H2 |- *.
      intros [q j] [_ Hq]%list_elem_of_filter. left. by apply (H2 _ Hq).
  - rewrite fmap_app, fmap_cons. simpl. rewrite <-(Permutation_middle _ _ id). constructor.
    + rewrite elem_of_app, !list_elem_of_fmap. unfold others.
      intros [([? ?] & ? & [? _]%list_elem_of_filter)|([? ?] & ? & [? _]%list_elem_of_filter)]; naive_solver.
    + rewrite <-fmap_app. unfold others. rewrite <-filter_app. by apply NoDup_others.
  - intros p k. rewrite elem_of_app, elem_of_cons. unfold others. rewrite !list_elem_of_filter.
    unfold cell_at. rewrite (cell_obj_put _ _ _ _ _ Hc). case_decide as Hk; [subst|].
    + naive_solver.
    + pose proof (elem_of_positions d p k) as He. rewrite Hl, elem_of_app in He. unfold cell_at in He.
      rewrite <-He. naive_solver.
Qed.

Lemma positions_del d cells id :
  cells_map d = Some cells ->
  get_cell_positions (set_cells (delete id cells) d) = others id (get_cell_positions d).
Proof.
  intros Hc. apply positions_unique.
  - apply StronglySorted_filter', positions_sorted.
  - apply NoDup_others, NoDup_ids.
  - intros p k. unfold others. rewrite list_elem_of_filter, elem_of_positions. unfold cell_at.
    rewrite (cell_obj_del _ _ _ _ Hc). simpl. case_decide; naive_solver.
Qed.

(** A write that keeps the position of a cell keeps the order. *)
Lemma positions_keep d cells id cell cell' :
  cells_map d = Some cells -> map_at cells id = Some cell -> cell_position cell' = cell_position cell ->
  get_cell_positions (set_cells (<[id := NMap cell']> cells) d) = get_cell_positions d.
Proof.
  intros Hc Hi Hp. apply positions_unique; [apply positions_sorted|apply NoDup_ids|].
  intros p k. rewrite elem_of_positions. unfold cell_at. rewrite (cell_obj_put _ _ _ _ _ Hc).
  case_decide; [subst|done]. unfold cell_obj_for. rewrite Hc. simpl. rewrite Hi. naive_solver.
Qed.

(** *** Where a new cell goes *)

(** The number of cells before the place that follows the anchor. *)
Definition cut (after : option string) (ids : list string) : nat :=
  match after with
  | None => 0%nat
  | Some a => match list_find (fun k => k = a) ids with Some (i, _) => S i | None => length ids end
  end.

(** The specification of an insertion or a move. *)
Definition place_at (n : nat) (id : string) (ids : list string) : list string :=
  filter (fun k => k <> id) (take n ids) ++ id :: filter (fun k => k <> id) (drop n ids).

Definition place (after : option string) (id : string) (ids : list string) : list string :=
  place_at (cut after ids) id ids.

(** Positions the index library wrote, all different. *)
Definition positions_ok (d : NotebookDoc) : Prop :=
  Forall (fun p => exists i, p.1 = fi_to_string i) (get_cell_positions d) /\
  NoDup (get_cell_positions d).*1.

Lemma pairs_lt (l1 l2 : list (string * string)) p :
  StronglySorted pair_le (l1 ++ p :: l2) -> NoDup (l1 ++ p :: l2).*1 ->
  Forall (fun q => str_lt q.1 p.1) l1 /\ Forall (fun q => str_lt p.1 q.1) l2.
Proof.
  intros Hs Hnd. apply StronglySorted_app in Hs as (Hx & _ & Hs2).
  apply StronglySorted_inv in Hs2 as [_ Hp]. rewrite fmap_app, fmap_cons in Hnd.
  apply NoDup_app in Hnd as (_ & Hd & Hnd2). apply NoDup_cons in Hnd2 as [Hp2 _].
  rewrite Forall_forall in Hp. split; apply Forall_forall; intros q Hq.
  - destruct (Hx q p Hq ltac:(set_solver)) as [|[E _]]; [done|].
    exfalso. apply (Hd q.1); [by apply list_elem_of_fmap_2|]. rewrite E. set_solver.
  - destruct (Hp q Hq) as [|[E _]]; [done|]. exfalso. apply Hp2. rewrite E. by apply list_elem_of_fmap_2.
Qed.

(** It is enough to compare with the two neighbours. *)
Lemma split_between (L : list (string * string)) n x :
  StronglySorted pair_le L -> NoDup L.*1 ->
  (forall p, last (take n L) = Some p -> str_lt p.1 x) ->
  (forall q, L !! n = Some q -> str_lt x q.1) ->
  Forall (fun p => str_lt p.1 x) (take n L) /\ Forall (fun p => str_lt x p.1) (drop n L).
Proof.
  intros Hs Hnd Hl Hh. split.
  - destruct (last (take n L)) as [p|] eqn:Hp; [|apply last_None in Hp as ->; constructor].
    apply last_Some in Hp as [l0 E]. rewrite E. specialize (Hl p eq_refl).
    destruct (pairs_lt l0 (drop n L) p) as [H _];
      [by rewrite cons_middle, (assoc_L (++)), <-E, take_drop..|].
    apply Forall_app. split; [|by constructor].
    eapply Forall_impl; [exact H|]. intros q Hq. exact (transitivity Hq Hl).
  - destruct (L !! n) as [q|] eqn:Hq.
    + specialize (Hh q eq_refl). rewrite (drop_S _ _ _ Hq).
      destruct (pairs_lt (take n L) (drop (S n) L) q) as [_ H]; [by rewrite take_drop_middle..|].
      constructor; [done|]. eapply Forall_impl; [exact H|]. intros r Hr. exact (transitivity Hh Hr).
    + rewrite drop_ge; [constructor|]. by apply lookup_ge_None_1.
Qed.

Lemma neighbours_lt (L : list (string * string)) i p q :
  StronglySorted pair_le L -> NoDup L.*1 -> L !! i = Some p -> L !! S i = Some q -> str_lt p.1 q.1.
Proof.
  intros Hs Hnd Hp Hq. destruct (pairs_lt (take i L) (drop (S i) L) p) as [_ H];
    [by rewrite take_drop_middle..|].
  rewrite (drop_S _ _ _ Hq) in H. by inversion H.
Qed.

Lemma last_take_S {A} (L : list A) i x : L !! i = Some x -> last (take (S i) L) = Some x.
Proof. intros Hi. by rewrite (take_S_r _ _ _ Hi), last_snoc. Qed.

Lemma cut_pairs (pairs : list (string * string)) a :
  cut (Some a) pairs.*2 =
  match list_find (fun p => p.2 = a) pairs with Some (i, _) => S i | None => length pairs end.
Proof.
  unfold cut. induction pairs as [|[p k] pairs IH]; [done|]. rewrite fmap_cons. simpl.
  destruct (decide (k = a)); simpl; [done|].
  destruct (list_find _ pairs.*2) as [[]|], (list_find _ pairs) as [[]|]; simpl in *; congruence.
Qed.

Context `{FIL : !FractionalIndexLaws}.

(** The index computed lies strictly between the two sides of the cut. *)
Lemma compute_position_between after d :
  positions_ok d ->
  let x := fi_to_string (compute_position after d) in
  let n := cut after (get_cell_ids d) in
  Forall (fun p => str_lt p.1 x) (take n (get_cell_positions d)) /\
  Forall (fun p => str_lt x p.1) (drop n (get_cell_positions d)).
Proof.
  intros [Hix Hnd]. pose proof (positions_sorted d) as Hs. unfold compute_position, get_cell_ids.
  set (L := get_cell_positions d) in *.
  assert (Hfrom : forall n p, L !! n = Some p -> fi_to_string (from_hex_string p.1) = p.1).
  { intros n p Hp. apply (Forall_lookup_1 _ _ _ _ Hix) in Hp as [i ->]. by rewrite from_to_string. }
  destruct after as [a|].
  - rewrite cut_pairs. destruct (list_find _ L) as [[i p]|] eqn:Hf.
    + apply list_find_Some in Hf as (Hi & _ & _).
      pose proof (Hfrom _ _ Hi) as Ei. apply split_between; [done..| |].
      * intros p' Hp'. rewrite (last_take_S _ _ _ Hi) in Hp'. injection Hp' as <-.
        rewrite <-Ei at 1. destruct (L !! S i) as [q|] eqn:Hq; [|by apply new_after_lt].
        destruct (new_between_lt (from_hex_string p.1) (from_hex_string q.1)) as (m & -> & ? & _); [|done].
        rewrite Ei, (Hfrom _ _ Hq). by eapply neighbours_lt.
      * intros q Hq. rewrite Hq.
        destruct (new_between_lt (from_hex_string p.1) (from_hex_string q.1)) as (m & -> & _ & ?);
          [|by rewrite (Hfrom _ _ Hq) in *].
        rewrite Ei, (Hfrom _ _ Hq). by eapply neighbours_lt.
    + apply split_between; [done..| |].
      * rewrite firstn_all. intros p Hp. rewrite Hp. pose proof Hp as Hp'. rewrite last_lookup in Hp'.
        rewrite <-(Hfrom _ _ Hp') at 1. apply new_after_lt.
      * intros q Hq. apply lookup_lt_Some in Hq. lia.
  - cbn [cut]. apply split_between; [done..|by intros p|].
    intros q Hq. rewrite head_lookup, Hq. rewrite <-(Hfrom _ _ Hq) at 2. apply new_before_lt.
Qed.

(** *** The operations on the order *)

Lemma others_ids id (l : list (string * string)) :
  (others id l).*2 = filter (fun k => k <> id) l.*2.
Proof.
  induction l as [|[p k] l IH]; [done|]. unfold others in *. rewrite fmap_cons, !filter_cons. cbn [snd].
  destruct (decide (k <> id)); [|exact IH]. rewrite fmap_cons. f_equal. exact IH.
Qed.

Lemma NoDup_fst_others id (l : list (string * string)) : NoDup l.*1 -> NoDup (others id l).*1.
Proof.
  intros Hnd. induction l as [|[p k] l IH]; [done|]. rewrite fmap_cons in Hnd.
  apply NoDup_cons in Hnd as [Hk Hnd]. unfold others. rewrite filter_cons.
  case_decide; [|by apply IH]. rewrite fmap_cons. constructor; [|by apply IH].
  rewrite list_elem_of_fmap in Hk |- *. intros (y & E & [_ Hy]%list_elem_of_filter). eauto.
Qed.

Lemma positions_ok_others d id (l : list (string * string)) :
  positions_ok d -> l = get_cell_positions d ->
  Forall (fun p => exists i, p.1 = fi_to_string i) (others id l) /\ NoDup (others id l).*1.
Proof.
  intros [Hix Hnd] ->. split; [|by apply NoDup_fst_others].
  rewrite Forall_forall in Hix |- *. intros p [_ Hp]%list_elem_of_filter. auto.
Qed.

(** A cell put at the computed position, new or moved. *)
Lemma put_at_computed after d cells id cell :
  positions_ok d -> cells_map d = Some cells ->
  cell_position cell = fi_to_string (compute_position after d) ->
  let d' := set_cells (<[id := NMap cell]> cells) d in
  positions_ok d' /\ get_cell_ids d' = place after id (get_cell_ids d).
Proof.
  intros Hok Hc Hp d'. destruct (compute_position_between after d Hok) as [H1 H2].
  rewrite <-Hp in H1, H2. set (n := cut after (get_cell_ids d)) in *.
  pose proof (positions_put d cells id cell _ _ Hc (eq_sym (take_drop n _)) H1 H2) as E.
  fold d' in E. split.
  - destruct (positions_ok_others d id _ Hok eq_refl) as [Hix Hnd].
    unfold positions_ok. rewrite E, fmap_app, fmap_cons. cbn [fst].
    rewrite <-(take_drop n (get_cell_positions d)) in Hix, Hnd. unfold others in Hix, Hnd.
    rewrite filter_app in Hix, Hnd. rewrite fmap_app in Hnd. split.
    + apply Forall_app in Hix as [Hi1 Hi2]. apply Forall_app. split; [done|]. constructor; [|done].
      exists (compute_position after d). done.
    + rewrite <-Permutation_middle. constructor; [|done].
      rewrite elem_of_app, !list_elem_of_fmap. rewrite Forall_forall in H1, H2.
      intros [(q & Eq & [_ Hq]%list_elem_of_filter)|(q & Eq & [_ Hq]%list_elem_of_filter)].
      * by destruct (H1 q Hq) as [_ []].
      * by destruct (H2 q Hq) as [_ []].
  - unfold get_cell_ids at 1. rewrite E, fmap_app, fmap_cons. cbn [snd].
    rewrite !others_ids. unfold place, place_at, get_cell_ids. by rewrite fmap_take, fmap_drop.
Qed.

(** ** Well-formed documents *)

(** A cell under its own id, with a source text. *)
Definition cell_ok (id : string) (cell : gmap string node) : Prop :=
  read_string cell "id" = Some id /\ is_Some (text_at cell "source").

Record notebook_wf (d : NotebookDoc) : Prop := {
  wf_cells : exists cells, cells_map d = Some cells /\
    forall id n, cells !! id = Some n -> exists cell, n = NMap cell /\ cell_ok id cell;
  wf_positions : positions_ok d;
}.

Lemma wf_cell_ok d id cell : notebook_wf d -> cell_obj_for id d = Some cell -> cell_ok id cell.
Proof.
  intros [(cells & Hc & Hall) _]. unfold cell_obj_for, map_at. rewrite Hc. simpl.
  destruct (cells !! id) as [[| | |]|] eqn:E; intros ?; simplify_eq.
  destruct (Hall _ _ E) as (c & ? & ?). by simplify_eq.
Qed.

Lemma wf_put d cells id cell :
  notebook_wf d -> cells_map d = Some cells -> cell_ok id cell ->
  positions_ok (set_cells (<[id := NMap cell]> cells) d) ->
  notebook_wf (set_cells (<[id := NMap cell]> cells) d).
Proof.
  intros [(cells' & Hc' & Hall) _] Hc Hok Hp. simplify_eq. split; [|done].
  eexists. split; [apply cells_map_set|].
  intros k n [[-> <-]|[_ Hn]]%lookup_insert_Some; eauto.
Qed.

(** A change of the root that leaves the cells alone. *)
Lemma positions_root d d' : cells_map d' = cells_map d -> get_cell_positions d' = get_cell_positions d.
Proof. intros E. unfold get_cell_positions. by rewrite E. Qed.

Lemma wf_root d d' : cells_map d' = cells_map d -> notebook_wf d -> notebook_wf d'.
Proof.
  intros E [Hc Hp]. split; [by rewrite E|]. unfold positions_ok in *. by rewrite (positions_root _ _ E).
Qed.

(** Same well-formedness, same order. *)
Definition same_order (d d' : NotebookDoc) : Prop :=
  (notebook_wf d -> notebook_wf d') /\ get_cell_positions d' = get_cell_positions d.

Lemma same_order_refl d : same_order d d.
Proof. by split. Qed.

Lemma same_order_root d d' : cells_map d' = cells_map d -> same_order d d'.
Proof. intros E. split; [by apply wf_root|by apply positions_root]. Qed.

Lemma same_order_put d cells id cell cell' :
  cells_map d = Some cells -> map_at cells id = Some cell ->
  cell_position cell' = cell_position cell -> (cell_ok id cell -> cell_ok id cell') ->
  same_order d (set_cells (<[id := NMap cell']> cells) d).
Proof.
  intros Hc Hi Hp Hok. pose proof (positions_keep d cells id cell cell' Hc Hi Hp) as E. split.
  - intros Hwf. apply wf_put; [done|done| |].
    + apply Hok, (wf_cell_ok d); [done|]. unfold cell_obj_for. by rewrite Hc.
    + destruct Hwf as [_ Hpos]. unfold positions_ok in *. by rewrite E.
  - exact E.
Qed.

(** A write to a field that neither names, places nor holds the source. *)
Lemma cell_field_frame id k n cell :
  k ∉ ["id"; "position"; "source"] ->
  cell_position (<[k := n]> cell) = cell_position cell /\ (cell_ok id cell -> cell_ok id (<[k := n]> cell)).
Proof.
  intros Hk. assert (k <> "id" /\ k <> "position" /\ k <> "source") as (H1 & H2 & H3) by set_solver.
  unfold cell_position, cell_ok, read_string, text_at. by rewrite !lookup_insert_ne by done.
Qed.

Lemma same_order_update id f d :
  (forall cell, cell_position (f cell) = cell_position cell /\ (cell_ok id cell -> cell_ok id (f cell))) ->
  same_order d (update_cell id f d).1.
Proof.
  intros Hf. unfold update_cell. destruct (cells_map d) as [cells|] eqn:Hc; [|apply same_order_refl].
  destruct (map_at cells id) as [cell|] eqn:Hi; [|apply same_order_refl].
  destruct (Hf cell). by eapply same_order_put.
Qed.

Lemma same_order_field id k n d :
  k ∉ ["id"; "position"; "source"] ->
  same_order d (update_cell id (fun cell => <[k := n]> cell) d).1.
Proof. intros Hk. apply same_order_update. intros cell. by apply cell_field_frame. Qed.

Lemma same_order_edit id f d : same_order d (edit_source id f d).1.
Proof.
  unfold edit_source. destruct (cells_map d) as [cells|] eqn:Hc; [|apply same_order_refl].
  destruct (map_at cells id) as [cell|] eqn:Hi; [|apply same_order_refl].
  destruct (text_at cell "source"); [|apply same_order_refl].
  destruct (f _); [|apply same_order_refl]. eapply same_order_put; [done..| |].
  - unfold cell_position, read_string. by rewrite lookup_insert_ne.
  - unfold cell_ok, read_string, text_at. rewrite lookup_insert_ne, lookup_insert_eq by done. naive_solver.
Qed.

Lemma same_order_assets id wanted d : same_order d (set_cell_resolved_assets id wanted d).1.
Proof.
  unfold set_cell_resolved_assets. destruct (cell_obj_for id d); [|apply same_order_refl].
  case_decide; [apply same_order_refl|]. apply same_order_field. set_solver.
Qed.

Lemma same_order_attachments id wanted d : same_order d (set_cell_attachments id wanted d).1.
Proof.
  unfold set_cell_attachments. destruct (cell_obj_for id d); [|apply same_order_refl].
  case_decide; [apply same_order_refl|]. apply same_order_field. set_solver.
Qed.

Lemma cells_map_meta m d : cells_map (set_meta_map m d) = cells_map d.
Proof. unfold cells_map, set_meta_map, map_at. by rewrite lookup_insert_ne. Qed.

(** ** Scans *)

(** The single pass finds the least pair. *)
Lemma scan_least (R : string * string -> string * string -> Prop) `{!RelDecision R}
    `{!Total R, !Transitive R} cells ks best :
  let r := foldl (fun best key => match position_pair cells key with
    | None => best
    | Some p => match best with None => Some p | Some b => if negb (bool_decide (R b p)) then Some p else best end
    end) best ks in
  let L := option_list best ++ omap (position_pair cells) ks in
  match r with None => L = [] | Some b => b ∈ L /\ Forall (R b) L end.
Proof.
  assert (Hrefl : forall b, R b b) by (intros b; by destruct (total R b b)).
  revert best. induction ks as [|k ks IH]; intros best; simpl.
  - rewrite app_nil_r. destruct best; simpl; [|done]. split; [set_solver|by repeat constructor].
  - specialize (IH (match position_pair cells k with
      | None => best
      | Some p => match best with None => Some p | Some b => if negb (bool_decide (R b p)) then Some p else best end
      end)).
    destruct (foldl _ _ ks) as [r|].
    + destruct IH as [Hin Hall]. destruct (position_pair cells k) as [p|]; [|done].
      destruct best as [b|]; [|done]. simpl in *. destruct (bool_decide (R b p)) eqn:Hb; simpl in *.
      * apply bool_decide_eq_true in Hb. inversion Hall; subst.
        split; [set_solver|]. repeat constructor; [done|by etransitivity|done].
      * apply bool_decide_eq_false in Hb. inversion Hall; subst.
        split; [set_solver|]. repeat constructor; [|done..].
        destruct (total R p b); [by etransitivity|done].
    + destruct (position_pair cells k); [|done]. destruct best; simpl in *; [|done].
      by destruct (negb _).
Qed.

Lemma head_fmap {A B} (f : A -> B) (l : list A) : head (f <$> l) = f <$> head l.
Proof. by destruct l. Qed.

Lemma sorted_head (R : string * string -> string * string -> Prop) `{!AntiSymm (=) R} b L :
  StronglySorted R L -> b ∈ L -> Forall (R b) L -> head L = Some b.
Proof.
  intros Hs Hb Hall. destruct L as [|x L]; [set_solver|]. simpl. f_equal.
  apply StronglySorted_inv in Hs as [_ Hx]. apply Forall_cons in Hall as [Hbx _].
  apply elem_of_cons in Hb as [->|Hb]; [done|]. rewrite Forall_forall in Hx.
  apply (anti_symm R); [by apply Hx|done].
Qed.

Lemma sorted_last (b : string * string) L :
  StronglySorted pair_le L -> b ∈ L -> Forall (fun x => pair_le x b) L -> last L = Some b.
Proof.
  intros Hs Hb Hall. destruct (last L) as [x|] eqn:Hx; [|apply last_None in Hx as ->; set_solver].
  apply last_Some in Hx as [l ->]. apply Forall_app in Hall as [_ Hx]. apply Forall_cons in Hx as [Hx _]. f_equal.
  apply elem_of_app in Hb as [Hb|Hb]; [|set_solver].
  apply StronglySorted_app in Hs as (Hlx & _). apply (anti_symm pair_le); [exact Hx|]. apply Hlx; set_solver.
Qed.

Lemma first_last_spec d :
  first_cell_id d = head (get_cell_ids d) /\ last_cell_id d = last (get_cell_ids d).
Proof.
  unfold first_cell_id, last_cell_id, scan_best, get_cell_ids. pose proof (positions_sorted d) as Hs.
  revert Hs. unfold get_cell_positions. destruct (cells_map d) as [cells|]; [|done]. simpl.
  set (L := omap _ _). intros Hs. split.
  - pose proof (scan_least pair_le cells (keys cells) None) as H. simpl in H. fold L in H.
    destruct (foldl _ _ _) as [b|]; simpl.
    + destruct H as [Hin Hall]. rewrite head_fmap.
      rewrite (sorted_head pair_le b); [done..| |]; by rewrite merge_sort_Permutation.
    + by rewrite H.
  - assert (HT : Total (flip pair_le)) by (intros x y; unfold flip; destruct (total pair_le x y); auto).
    pose proof (scan_least (flip pair_le) cells (keys cells) None) as H. simpl in H. fold L in H.
    unfold flip in H. destruct (foldl _ _ _) as [b|]; simpl.
    + destruct H as [Hin Hall]. rewrite fmap_last.
      rewrite (sorted_last b); [done..| |]; by rewrite merge_sort_Permutation.
    + by rewrite H.
Qed.

(** ** Histories of edits *)

Inductive notebook_op :=
| NAddAfter (id ty : string) (after : option string)
| NAdd (index : nat) (id ty : string)
| NMove (id : string) (after : option string)
| NDelete (id : string)
| NClear
| NUpdateSource (id text : string)
| NSpliceSource (id : string) (index count : Z) (text : string)
| NAppendSource (id text : string)
| NSetType (id ty : string)
| NSetExecution (id : string) (execution_id : option string)
| NClearOutputs (id : string)
| NSetCellMetadata (id : string) (v : json)
| NUpdateCellMetadata (id : string) (path : list string) (v : json)
| NSetAssets (id : string) (wanted : gmap string string)
| NSetAttachments (id : string) (wanted : CellAttachments)
| NSetMetadata (key value : string)
| NDeleteMetadata (key : string)
| NSetMetadataValue (key : string) (v : json)
| NSetPyodide (v : json).

(** The specification: a list of ids. *)
Definition list_step (ids : list string) (op : notebook_op) : list string :=
  match op with
  | NAddAfter id _ after => place after id ids
  | NAdd index id _ => place_at (index `min` length ids) id ids
  | NMove id after => if decide (id ∈ ids) then place after id ids else ids
  | NDelete id => filter (fun k => k <> id) ids
  | NClear => []
  | _ => ids
  end.

Lemma new_cell_ok id ty p s n m : cell_ok id (new_cell id ty p s n m) /\ cell_position (new_cell id ty p s n m) = p.
Proof. by split; [split; [|eexists]|]. Qed.

Lemma add_cell_after_spec id ty after d :
  notebook_wf d ->
  let d' := (add_cell_after id ty after d).1 in
  notebook_wf d' /\ get_cell_ids d' = place after id (get_cell_ids d).
Proof.
  intros Hwf. destruct (wf_cells d Hwf) as (cells & Hc & _). unfold add_cell_after. rewrite Hc. cbn zeta.
  set (p := fi_to_string _). destruct (new_cell_ok id ty p "" "null" ∅) as [Hok Hp].
  destruct (put_at_computed after d cells id (new_cell id ty p "" "null" ∅)) as [Hpos Hids];
    [apply Hwf|done|done|]. split; [by apply wf_put|exact Hids].
Qed.

(** The anchor of an insertion by index is the id before it. *)
Lemma cut_index (ids : list string) n :
  NoDup ids -> (n <= length ids)%nat ->
  cut (if decide (n = 0%nat) then None else ids !! (n - 1)%nat) ids = n.
Proof.
  intros Hnd Hn. case_decide as H0; [by subst|].
  destruct (lookup_lt_is_Some_2 ids (n - 1)) as [k Hk]; [lia|]. rewrite Hk. cbn [cut].
  assert (list_find (fun k' => k' = k) ids = Some ((n - 1)%nat, k)) as ->; [|lia].
  apply list_find_Some. split_and!; [done..|]. intros j y Hj Hlt ->.
  pose proof (NoDup_lookup _ _ _ _ Hnd Hk Hj). lia.
Qed.

Lemma add_cell_spec index id ty d :
  notebook_wf d ->
  let d' := (add_cell index id ty d).1 in
  notebook_wf d' /\ get_cell_ids d' = place_at (index `min` length (get_cell_ids d)) id (get_cell_ids d).
Proof.
  intros Hwf. unfold add_cell. set (n := (_ `min` _)%nat).
  set (after := if decide (n = 0%nat) then _ else _).
  destruct (add_cell_after_spec id ty after d Hwf) as [H1 H2].
  destruct (add_cell_after id ty after d) as [d' [?|?]]; cbn [fst] in *; (split; [done|]);
    rewrite H2; unfold place, after; by rewrite cut_index by (apply NoDup_ids || lia).
Qed.

Lemma move_cell_spec id after d :
  notebook_wf d ->
  let d' := (move_cell id after d).1 in
  notebook_wf d' /\
  get_cell_ids d' = if decide (id ∈ get_cell_ids d) then place after id (get_cell_ids d) else get_cell_ids d.
Proof.
  intros Hwf. destruct (wf_cells d Hwf) as (cells & Hc & _). pose proof (elem_of_ids d id) as Hin.
  unfold cell_obj_for in Hin. rewrite Hc in Hin. simpl in Hin. unfold move_cell. rewrite Hc. cbn zeta.
  destruct (map_at cells id) as [cell|] eqn:Hi; cbn [fst].
  - rewrite decide_True by (apply Hin; by eexists). set (p := fi_to_string _).
    set (cell' := <["position" := str_node p]> cell).
    assert (Hp : cell_position cell' = p) by (unfold cell_position, read_string, cell'; by rewrite lookup_insert_eq).
    destruct (put_at_computed after d cells id cell') as [Hpos Hids]; [apply Hwf|done|done|].
    split; [|exact Hids]. apply wf_put; [done..| |done].
    assert (cell_ok id cell) as [H1 H2] by (apply (wf_cell_ok d); [done|]; unfold cell_obj_for; by rewrite Hc).
    unfold cell_ok, cell', read_string, text_at. by rewrite !lookup_insert_ne by done.
  - rewrite decide_False by (rewrite Hin; by intros [? ?]). done.
Qed.

Lemma filter_all {A} (P : A -> Prop) `{forall x, Decision (P x)} (l : list A) : Forall P l -> filter P l = l.
Proof. induction 1 as [|x l Hx _ IH]; [done|]. by rewrite filter_cons_True, IH. Qed.

Lemma delete_cell_spec id d :
  notebook_wf d ->
  let d' := (delete_cell id d).1 in
  notebook_wf d' /\ get_cell_ids d' = filter (fun k => k <> id) (get_cell_ids d).
Proof.
  intros Hwf. destruct (wf_cells d Hwf) as (cells & Hc & Hall). unfold delete_cell. rewrite Hc. cbn zeta.
  destruct (map_at cells id) as [cell|] eqn:Hi; cbn [fst].
  - pose proof (positions_del d cells id Hc) as E. split.
    + split.
      * eexists. split; [apply cells_map_set|]. intros k n [_ Hn]%lookup_delete_Some. eauto.
      * unfold positions_ok. rewrite E. by apply (positions_ok_others d); [apply Hwf|].
    + unfold get_cell_ids. by rewrite E, others_ids.
  - split; [done|]. symmetry. apply filter_all, Forall_forall. intros k Hk ->. apply elem_of_ids in Hk as [c Hk].
    unfold cell_obj_for in Hk. rewrite Hc in Hk. simpl in Hk. congruence.
Qed.

Lemma delete_all (m : gmap string node) (l : list string) :
  (forall k, is_Some (m !! k) -> k ∈ l) -> foldl (fun m id => delete id m) m l = ∅.
Proof.
  revert m. induction l as [|x l IH]; intros m Hm; simpl.
  - apply map_empty. intros k. apply eq_None_not_Some. intros Hk%Hm. set_solver.
  - apply IH. intros k [n [Hne Hn]%lookup_delete_Some]. specialize (Hm k (ex_intro _ _ Hn)). set_solver.
Qed.

Lemma clear_all_cells_spec d :
  notebook_wf d ->
  let d' := (clear_all_cells d).1 in notebook_wf d' /\ get_cell_ids d' = [].
Proof.
  intros Hwf. destruct (wf_cells d Hwf) as (cells & Hc & _). unfold clear_all_cells. rewrite Hc. cbn [fst].
  rewrite delete_all by (intros k; apply elem_of_keys).
  assert (E : get_cell_positions (set_cells ∅ d) = []) by (unfold get_cell_positions; by rewrite cells_map_set).
  cbn zeta. split; [split|].
  - exists ∅. split; [apply cells_map_set|]. intros id n. by rewrite lookup_empty.
  - unfold positions_ok. rewrite E. split; constructor.
  - unfold get_cell_ids. by rewrite E.
Qed.

End Order.

Section History.
Context `{FI : FractionalIndex, TX : TextOps}.
Context `{FIL : !FractionalIndexLaws}.
Variable json_from_str : string -> option json.
Abbreviation read_cell := (read_cell json_from_str).
Abbreviation get_cell := (get_cell json_from_str).
Abbreviation get_cells := (get_cells json_from_str).
Abbreviation get_cell_metadata := (get_cell_metadata json_from_str).
Abbreviation update_cell_metadata_at := (update_cell_metadata_at json_from_str).

Definition notebook_step (d : NotebookDoc) (op : notebook_op) : NotebookDoc :=
  match op with
  | NAddAfter id ty after => (add_cell_after id ty after d).1
  | NAdd index id ty => (add_cell index id ty d).1
  | NMove id after => (move_cell id after d).1
  | NDelete id => (delete_cell id d).1
  | NClear => (clear_all_cells d).1
  | NUpdateSource id text => (update_source id text d).1
  | NSpliceSource id index count text => (splice_source id index count text d).1
  | NAppendSource id text => (append_source id text d).1
  | NSetType id ty => (set_cell_type id ty d).1
  | NSetExecution id execution_id => (set_execution_id id execution_id d).1
  | NClearOutputs id => (clear_outputs id d).1
  | NSetCellMetadata id v => (set_cell_metadata id v d).1
  | NUpdateCellMetadata id path v => (update_cell_metadata_at id path v d).1
  | NSetAssets id wanted => (set_cell_resolved_assets id wanted d).1
  | NSetAttachments id wanted => (set_cell_attachments id wanted d).1
  | NSetMetadata key value => (set_metadata key value d).1
  | NDeleteMetadata key => (delete_metadata key d).1
  | NSetMetadataValue key v => (set_metadata_value key v d).1
  | NSetPyodide v => (set_pyodide_manifest v d).1
  end.

Lemma notebook_step_spec d op :
  notebook_wf d -> notebook_wf (notebook_step d op) /\ get_cell_ids (notebook_step d op) = list_step (get_cell_ids d) op.
Proof.
  intros Hwf.
  assert (Hsame : forall d', same_order d d' -> notebook_wf d' /\ get_cell_ids d' = get_cell_ids d)
    by (intros d' [? E]; unfold get_cell_ids; rewrite E; auto).
  destruct op; cbn [notebook_step list_step].
  - by apply add_cell_after_spec.
  - by apply add_cell_spec.
  - by apply move_cell_spec.
  - by apply delete_cell_spec.
  - by apply clear_all_cells_spec.
  - apply Hsame, same_order_edit.
  - unfold splice_source. apply Hsame. destruct (_ ≫= _); [|apply same_order_refl].
    case_decide; [apply same_order_edit|apply same_order_refl].
  - apply Hsame, same_order_edit.
  - apply Hsame, same_order_field. set_solver.
  - apply Hsame, same_order_field. set_solver.
  - apply Hsame, same_order_update. intros cell.
    destruct (cell_field_frame id "execution_id" null_node cell) as [E1 O1]; [set_solver|].
    destruct (cell_field_frame id "execution_count" (str_node "null") (<["execution_id" := null_node]> cell))
      as [E2 O2]; [set_solver|]. split; [by rewrite E2|auto].
  - apply Hsame, same_order_field. set_solver.
  - apply Hsame. unfold update_cell_metadata_at. destruct path; apply same_order_field; set_solver.
  - apply Hsame, same_order_assets.
  - apply Hsame, same_order_attachments.
  - apply Hsame, same_order_root, cells_map_meta.
  - apply Hsame. unfold delete_metadata. destruct (metadata_map d); [|apply same_order_refl].
    destruct (_ !! key); [apply same_order_root, cells_map_meta|apply same_order_refl].
  - apply Hsame, same_order_root, cells_map_meta.
  - apply Hsame. unfold set_pyodide_manifest. cbn zeta.
    destruct (metadata_or_new d !! "runt") as [[]|]; apply same_order_root, cells_map_meta.
Qed.

Lemma new_notebook_wf nid : notebook_wf (new_notebook nid) /\ get_cell_ids (new_notebook nid) = [].
Proof.
  split; [split|done].
  - exists ∅. split; [done|]. intros id n. by rewrite lookup_empty.
  - split; constructor.
Qed.

Lemma history_spec d ops :
  notebook_wf d ->
  notebook_wf (foldl notebook_step d ops) /\
  get_cell_ids (foldl notebook_step d ops) = foldl list_step (get_cell_ids d) ops.
Proof.
  revert d. induction ops as [|op ops IH]; intros d Hwf; [done|]. simpl.
  destruct (notebook_step_spec d op Hwf) as [H1 H2]. rewrite <-H2. by apply IH.
Qed.

(** ** Claims *)

(** C12. the cells of a notebook are an ordered list of ids.  After any history of
    insertions (after a cell or by index), moves, deletions, clears, source edits,
    type, execution, cell metadata, asset, attachment and notebook metadata changes,
    from a new notebook, the ids in document order are those of the history played on
    a plain list: an insertion or move takes the id out and puts it right after its
    anchor (at the start without one, at the end when the anchor is unknown), an index
    past the end appends, moving an unknown cell does nothing, and no other edit
    changes the order.  Every cell stays stored under its own id with its source, and
    no two cells share a position. *)
Theorem notebook_refines_list nid ops :
  let d := foldl notebook_step (new_notebook nid) ops in
  get_cell_ids d = foldl list_step [] ops /\ notebook_wf d.
Proof.
  destruct (new_notebook_wf nid) as [Hwf He]. destruct (history_spec _ ops Hwf) as [H1 H2].
  rewrite He in H2. done.
Qed.

Definition snapshot_pair (c : CellSnapshot) : string * string := (position c, cell_id c).

Lemma read_cell_pair id cell c :
  cell_ok id cell -> read_cell cell = Some c -> snapshot_pair c = (cell_position cell, id).
Proof. intros [Hid _]. unfold read_cell. rewrite Hid. intros ?. by simplify_eq/=. Qed.

Lemma read_cell_is_Some id cell : cell_ok id cell -> is_Some (read_cell cell).
Proof. intros [Hid _]. unfold read_cell. rewrite Hid. by eexists. Qed.

Lemma elem_of_get_cells d c :
  notebook_wf d -> c ∈ get_cells d <-> get_cell (cell_id c) d = Some c.
Proof.
  intros Hwf. destruct (wf_cells d Hwf) as (cells & Hc & _). unfold get_cells, get_cell. rewrite Hc.
  rewrite merge_sort_Permutation, list_elem_of_omap. unfold cell_obj_for. rewrite Hc. simpl. split.
  - intros (k & _ & Hk). destruct (map_at cells k) as [cell|] eqn:E; [|done]. simpl in Hk.
    assert (cell_ok k cell) as Hok by (apply (wf_cell_ok d); [done|]; unfold cell_obj_for; by rewrite Hc).
    pose proof (read_cell_pair _ _ _ Hok Hk) as Hp. unfold snapshot_pair in Hp. simplify_eq. by rewrite E.
  - intros H. exists (cell_id c). split; [|done]. apply elem_of_keys. unfold map_at in H.
    destruct (cells !! cell_id c); [by eexists|done].
Qed.

#[export] Instance cell_le_total : Total cell_le.
Proof. intros x y. apply (total pair_le). Qed.
#[export] Instance cell_le_trans : Transitive cell_le.
Proof. intros x y z. apply (transitivity (R := pair_le)). Qed.

Lemma sorted_snapshots l : StronglySorted cell_le l -> StronglySorted pair_le (snapshot_pair <$> l).
Proof.
  induction 1 as [|c l _ IH Hc]; [constructor|]. rewrite fmap_cons. constructor; [done|].
  by apply Forall_fmap.
Qed.

Lemma get_cells_sorted d : StronglySorted cell_le (get_cells d).
Proof.
  unfold get_cells. destruct (cells_map d); [|constructor].
  apply Sorted_StronglySorted; [apply _|]. by apply Sorted_merge_sort; apply _.
Qed.

Lemma get_cells_positions d : notebook_wf d -> snapshot_pair <$> get_cells d = get_cell_positions d.
Proof.
  intros Hwf. destruct (wf_cells d Hwf) as (cells & Hc & Hall).
  apply (StronglySorted_unique pair_le); [apply sorted_snapshots, get_cells_sorted|apply positions_sorted|].
  unfold get_cells, get_cell_positions. rewrite Hc, !merge_sort_Permutation.
  apply (reflexive_eq (R := Permutation)). induction (keys cells) as [|k ks IH]; [done|]. simpl.
  unfold position_pair at 1. destruct (map_at cells k) as [cell|] eqn:E; simpl; [|done].
  assert (cell_ok k cell) as Hok by (apply (wf_cell_ok d); [done|]; unfold cell_obj_for; by rewrite Hc).
  destruct (read_cell_is_Some k cell Hok) as [c Hr]. rewrite Hr. simpl.
  f_equal; [by apply read_cell_pair|done].
Qed.

(** The readers agree on the order.  In every well-formed notebook the snapshots
    come in document order, one for each cell and equal to what a lookup by id gives;
    and in any document the two single-pass scans find the first and last id of the
    sorted list. *)
Theorem cell_readers_agree d :
  (first_cell_id d = head (get_cell_ids d) /\ last_cell_id d = last (get_cell_ids d)) /\
  (notebook_wf d ->
    cell_id <$> get_cells d = get_cell_ids d /\
    forall c, c ∈ get_cells d <-> get_cell (cell_id c) d = Some c).
Proof.
  split; [apply first_last_spec|]. intros Hwf. split.
  - unfold get_cell_ids. rewrite <-(get_cells_positions d Hwf), <-list_fmap_compose. done.
  - intros c. by apply elem_of_get_cells.
Qed.

(** ** What is written is what is read *)

(** The frame of a cell write: the other cells are untouched. *)
Definition only_cell (id : string) (d d' : NotebookDoc) : Prop :=
  forall k, k <> id -> cell_obj_for k d' = cell_obj_for k d.

Lemma update_cell_spec id f d cell :
  cell_obj_for id d = Some cell ->
  exists d', update_cell id f d = (d', Ok true) /\ cell_obj_for id d' = Some (f cell) /\ only_cell id d d'.
Proof.
  unfold update_cell. intros H. pose proof H as H'. unfold cell_obj_for in H'.
  destruct (cells_map d) as [cells|] eqn:Hc; [|done]. simpl in H'. rewrite H'.
  eexists. split; [done|]. split.
  - by rewrite (cell_obj_put _ _ _ _ _ Hc), decide_True.
  - intros k Hk. by rewrite (cell_obj_put _ _ _ _ _ Hc), decide_False.
Qed.

Lemma edit_source_spec id f d cell text text' :
  cell_obj_for id d = Some cell -> text_at cell "source" = Some text -> f text = Some text' ->
  exists d', edit_source id f d = (d', Ok true) /\
    cell_obj_for id d' = Some (<["source" := NText text']> cell) /\ only_cell id d d'.
Proof.
  intros H Ht Hf. unfold edit_source. pose proof H as H'. unfold cell_obj_for in H'.
  destruct (cells_map d) as [cells|] eqn:Hc; [|done]. simpl in H'. rewrite H', Ht, Hf.
  eexists. split; [done|]. split.
  - by rewrite (cell_obj_put _ _ _ _ _ Hc), decide_True.
  - intros k Hk. by rewrite (cell_obj_put _ _ _ _ _ Hc), decide_False.
Qed.

Lemma append_empty_r s : s +:+ "" = s.
Proof. induction s as [|c s IH]; [done|]. change (String c (s +:+ "") = String c s). by rewrite IH. Qed.

Context `{TXL : !TextLaws}.

Lemma text_length_empty : text_length "" = 0.
Proof. pose proof (text_length_app "" "") as H. change ("" +:+ "") with "" in H. lia. Qed.

Lemma splice_at_end t s : splice_text t (text_length t) 0 s = Some (t +:+ s).
Proof.
  rewrite <-text_length_empty. rewrite <-(append_empty_r t) at 1.
  change "" with ("" +:+ "") at 1. rewrite (splice_text_ok t "" "" s) by done. by rewrite append_empty_r.
Qed.

(** A cell that reads as before but for its source. *)
Definition with_source (s : string) (c : CellSnapshot) : CellSnapshot :=
  mkCell (cell_id c) (cell_type c) (position c) s (execution_count c) (cell_metadata c) (resolved_assets c)
    (attachments c).

Lemma read_cell_source cell s :
  read_cell (<["source" := NText s]> cell) = with_source s <$> read_cell cell.
Proof.
  unfold read_cell, cell_position, read_string, text_at, read_cell_metadata, map_at, with_source.
  rewrite lookup_insert_eq, !lookup_insert_ne by done. by destruct (cell !! "id" ≫= node_str).
Qed.

(** Source edits are exact.  On a cell with a source, replacing it gives the new
    text, appending adds at the end whatever the text encoding, and a splice at a
    character boundary replaces exactly the stretch named, by its position and length
    in the units of the encoding; the rest of the cell and every other cell are
    untouched. *)
Theorem source_edits_exact d id c a b e s cell :
  cell_obj_for id d = Some cell -> read_cell cell = Some c ->
  text_at cell "source" = Some (a +:+ b +:+ e) ->
  is_boundary b = true -> is_boundary e = true -> text_length b <= i64_max ->
  (exists d', update_source id s d = (d', Ok true) /\
    get_cell id d' = Some (with_source s c) /\ only_cell id d d') /\
  (exists d', append_source id s d = (d', Ok true) /\
    get_cell id d' = Some (with_source ((a +:+ b +:+ e) +:+ s) c) /\ only_cell id d d') /\
  (exists d', splice_source id (text_length a) (text_length b) s d = (d', Ok true) /\
    get_cell id d' = Some (with_source (a +:+ s +:+ e) c) /\ only_cell id d d').
Proof.
  intros H Hr Ht Hb He Hlen.
  assert (Hedit : forall f t, f (a +:+ b +:+ e) = Some t ->
    exists d', edit_source id f d = (d', Ok true) /\ get_cell id d' = Some (with_source t c) /\ only_cell id d d').
  { intros f t Hf. destruct (edit_source_spec id f d cell _ t H Ht Hf) as (d' & ? & Hd & ?).
    exists d'. split_and!; [done| |done]. unfold get_cell. rewrite Hd. simpl. by rewrite read_cell_source, Hr. }
  split_and!.
  - by apply Hedit.
  - apply Hedit, splice_at_end.
  - unfold splice_source. rewrite H. simpl. rewrite Ht, decide_True by done. by apply Hedit, splice_text_ok.
Qed.

(** ** Metadata of a cell *)

Fixpoint json_at (path : list string) (v : json) : option json :=
  match path with [] => Some v | key :: rest => json_get v key ≫= json_at rest end.

(** Paths that part at some key. *)
Fixpoint diverge (p q : list string) : Prop :=
  match p, q with x :: p, y :: q => x <> y \/ (x = y /\ diverge p q) | _, _ => False end.

Lemma json_set_at_same path value v : json_at path (json_set_at path value v) = Some value.
Proof.
  revert v. induction path as [|k path IH]; intros v; [done|]. simpl.
  rewrite lookup_insert_eq. simpl. apply IH.
Qed.

Lemma json_set_at_other path q value v :
  diverge path q -> json_at q (json_set_at path value v) = json_at q v.
Proof.
  revert q v. induction path as [|k path IH]; intros [|j q] v; simpl; try done.
  assert (Hg : forall x, json_get v x = as_object v !! x) by (intros x; by destruct v).
  intros [Hne|[<- Hd]].
  - rewrite lookup_insert_ne by done. by rewrite Hg.
  - rewrite lookup_insert_eq, Hg. simpl. rewrite (IH _ _ Hd).
    destruct (as_object v !! k); simpl; [done|].
    destruct q as [|j q]; [by destruct path|]. simpl. by rewrite lookup_empty.
Qed.

Lemma omap_fresh (m : gmap string json) :
  json_ok (JObject m) = true -> omap read_node (fresh_node <$> m) = m.
Proof.
  intros Hok%json_ok_object. apply map_eq. intros k. rewrite lookup_omap, lookup_fmap.
  destruct (m !! k) as [v|] eqn:E; [|done]. simpl. apply read_fresh_node, (Hok k v E).
Qed.

Lemma set_cell_metadata_spec id m d cell :
  cell_obj_for id d = Some cell -> json_ok (JObject m) = true ->
  exists d', set_cell_metadata id (JObject m) d = (d', Ok true) /\
    get_cell_metadata id d' = Some (JObject m) /\ only_cell id d d'.
Proof.
  intros H Hok. unfold set_cell_metadata.
  destruct (update_cell_spec id (fun cell => <["metadata" := NMap (metadata_node (JObject m))]> cell) d cell H)
    as (d' & Hu & Hd & Ho).
  exists d'. split_and!; [done| |done]. unfold get_cell_metadata. rewrite Hd. simpl.
  unfold read_cell_metadata. rewrite lookup_insert_eq. simpl. by rewrite omap_fresh.
Qed.

(** A metadata update reaches exactly its path.  Setting a value at a path of a
    cell's metadata, which creates the objects on the way, makes the value readable
    there; every path that parts from it reads as before, and no other cell changes. *)
Theorem metadata_update_exact d id path value old :
  get_cell_metadata id d = Some old -> path <> [] -> json_ok (json_set_at path value old) = true ->
  exists d' new, update_cell_metadata_at id path value d = (d', Ok true) /\
    get_cell_metadata id d' = Some new /\ json_at path new = Some value /\
    (forall q, diverge path q -> json_at q new = json_at q old) /\ only_cell id d d'.
Proof.
  intros Hold Hp Hok. destruct path as [|k path]; [done|].
  unfold update_cell_metadata_at. rewrite Hold. cbn [default].
  set (new := json_set_at (k :: path) value old) in *.
  destruct (cell_obj_for id d) as [cell|] eqn:Hc; [|unfold get_cell_metadata in Hold; by rewrite Hc in Hold].
  destruct (set_cell_metadata_spec id (as_object new) d cell Hc) as (d' & Hu & Hg & Ho); [done|].
  exists d', new. split_and!; [exact Hu|exact Hg|apply json_set_at_same| |done].
  intros q Hd. by apply json_set_at_other.
Qed.

End History.

(** ** Assets and attachments, read back *)

Section Blobs.

Lemma lookup_drop_stale {A} (existing wanted : gmap string A) m k :
  drop_stale existing wanted m !! k =
  if decide (is_Some (existing !! k) /\ wanted !! k = None) then None else m !! k.
Proof.
  unfold drop_stale. case_decide as H.
  - apply map_lookup_filter_None. right. intros n _. naive_solver.
  - destruct (m !! k) as [n|] eqn:E; [by apply map_lookup_filter_Some|by apply map_lookup_filter_None; left].
Qed.

(** A replacement that deletes what is gone and puts what differs reads as wanted. *)
Lemma replacement_reads {A} `{EqDecision A} (rd : node -> option A) (to_node : A -> node)
    (wanted : gmap string A) (old : gmap string node) :
  map_Forall (fun _ v => rd (to_node v) = Some v) wanted ->
  let existing := omap rd old in
  omap rd (put_changed to_node existing wanted (drop_stale existing wanted old)) = wanted.
Proof.
  intros Hrd existing. apply map_eq. intros k. unfold put_changed.
  assert (Hex : existing !! k = old !! k ≫= rd) by apply lookup_omap.
  rewrite lookup_omap, lookup_union, map_lookup_imap, lookup_drop_stale.
  destruct (wanted !! k) as [v|] eqn:Hw; simpl.
  - rewrite (decide_False (P := _ /\ Some v = None)) by naive_solver.
    case_decide as He; simpl.
    + rewrite (left_id_L None (∪)), <-Hex. done.
    + rewrite union_Some_l. simpl. by apply Hrd with k.
  - rewrite (left_id_L None (∪)). case_decide as He; [done|].
    rewrite <-Hex. apply eq_None_not_Some. naive_solver.
Qed.

Lemma encoding_roundtrip e :
  match e with UnknownEnc v => v ∉ ["base64"; "text"; "json"] | _ => True end ->
  from_schema_str (encoding_str e) = e.
Proof.
  destruct e; try done. simpl. intros Hv. unfold from_schema_str.
  repeat (case_decide; [subst; set_solver|]). done.
Qed.

(** Attachments that can be stored: no empty bundle, no unknown encoding with a known
    name. *)
Definition attachments_ok (wanted : CellAttachments) : Prop :=
  map_Forall (fun _ bundle => bundle <> ∅ /\ map_Forall (fun _ r =>
    match encoding r with UnknownEnc v => v ∉ ["base64"; "text"; "json"] | _ => True end) bundle) wanted.

Lemma read_attachment_node r :
  match encoding r with UnknownEnc v => v ∉ ["base64"; "text"; "json"] | _ => True end ->
  read_attachment (attachment_node r) = Some r.
Proof.
  intros Hr. unfold read_attachment, attachment_node.
  assert (read_string {["blob_hash" := str_node (blob_hash r); "encoding" := str_node (encoding_str (encoding r))]}
    "blob_hash" = Some (blob_hash r)) as -> by done.
  assert (read_string {["blob_hash" := str_node (blob_hash r); "encoding" := str_node (encoding_str (encoding r))]}
    "encoding" = Some (encoding_str (encoding r))) as -> by done.
  simpl. rewrite encoding_roundtrip by done. by destruct r.
Qed.

Lemma read_write_bundle old wanted existing :
  wanted <> ∅ -> existing = omap read_attachment old ->
  map_Forall (fun _ r => match encoding r with UnknownEnc v => v ∉ ["base64"; "text"; "json"] | _ => True end) wanted ->
  read_bundle (write_bundle old existing wanted) = Some wanted.
Proof.
  intros Hne -> Hok. unfold read_bundle, write_bundle. cbn zeta.
  rewrite (replacement_reads read_attachment attachment_node).
  - by rewrite decide_False.
  - intros k r Hr. apply read_attachment_node, (Hok k r Hr).
Qed.

(** The bundle that was read of an attachment, empty when it was not readable. *)
Lemma existing_bundle (old : gmap string node) name :
  default ∅ (read_attachment_refs old !! name) = omap read_attachment (default ∅ (map_at old name)).
Proof.
  unfold read_attachment_refs, map_at. rewrite lookup_omap.
  destruct (old !! name) as [[| | |]|]; simpl; rewrite ?omap_empty; try done.
  case_decide as H; simpl; [by rewrite H|done].
Qed.

Lemma read_write_attachments old wanted :
  attachments_ok wanted ->
  read_attachment_refs (write_attachments old (read_attachment_refs old) wanted) = wanted.
Proof.
  intros Hok. apply map_eq. intros k. unfold read_attachment_refs at 1. unfold write_attachments. cbn zeta.
  set (existing := read_attachment_refs old). rewrite lookup_omap, lookup_union, map_lookup_imap.
  destruct (wanted !! k) as [bundle|] eqn:Hw; simpl.
  - rewrite union_Some_l. simpl. destruct (Hok k bundle Hw) as [Hne Hb].
    apply read_write_bundle; [done| |done]. unfold existing. rewrite existing_bundle. do 2 f_equal.
    unfold map_at. rewrite lookup_drop_stale, decide_False by (rewrite Hw; naive_solver). done.
  - rewrite (left_id_L None (∪)), lookup_drop_stale. case_decide as He; [done|].
    assert (existing !! k = None) as Hn by (apply eq_None_not_Some; naive_solver).
    unfold existing, read_attachment_refs in Hn. by rewrite lookup_omap in Hn.
Qed.

(** What a snapshot reads of the two maps. *)
Definition cell_assets (cell : gmap string node) : gmap string string :=
  match map_at cell "resolved_assets" with Some m => read_assets m | None => ∅ end.
Definition cell_files (cell : gmap string node) : CellAttachments :=
  match map_at cell "attachments" with Some m => read_attachment_refs m | None => ∅ end.

Lemma get_cell_assets id d cell :
  cell_obj_for id d = Some cell -> default ∅ (get_cell_resolved_assets id d) = cell_assets cell.
Proof. intros H. unfold get_cell_resolved_assets, cell_assets. rewrite H. simpl. by destruct (map_at cell _). Qed.

Lemma get_cell_files id d cell :
  cell_obj_for id d = Some cell -> default ∅ (get_cell_attachments id d) = cell_files cell.
Proof. intros H. unfold get_cell_attachments, cell_files. rewrite H. simpl. by destruct (map_at cell _). Qed.

(** A write of one field of a cell. *)
Definition only_field (key : string) (cell cell' : gmap string node) : Prop :=
  forall k, k <> key -> cell' !! k = cell !! k.

Lemma set_assets_spec id wanted d cell :
  cell_obj_for id d = Some cell ->
  exists d' cell', set_cell_resolved_assets id wanted d = (d', Ok (bool_decide (cell_assets cell <> wanted))) /\
    cell_obj_for id d' = Some cell' /\ cell_assets cell' = wanted /\
    only_field "resolved_assets" cell cell' /\ only_cell id d d'.
Proof.
  intros Hc. unfold set_cell_resolved_assets. rewrite Hc, (get_cell_assets id d cell) by done. cbn zeta.
  case_decide as He.
  - rewrite bool_decide_false by naive_solver. exists d, cell. done.
  - rewrite bool_decide_true by done.
    match goal with |- context [update_cell id ?g d] => set (f := g) end.
    destruct (update_cell_spec id f d cell Hc) as (d' & -> & Hd & Ho).
    exists d', (f cell). split_and!; [done..| | |done].
    + unfold f, cell_assets at 1, map_at at 1. rewrite lookup_insert_eq.
      replace (cell_assets cell) with (omap node_str (default ∅ (map_at cell "resolved_assets")) : gmap string string).
      * apply (replacement_reads node_str str_node). by intros k v _.
      * unfold cell_assets. destruct (map_at cell "resolved_assets"); [done|]. apply omap_empty.
    + intros k Hk. unfold f. by rewrite lookup_insert_ne.
Qed.

Lemma set_attachments_spec id wanted d cell :
  cell_obj_for id d = Some cell -> attachments_ok wanted ->
  exists d' cell', set_cell_attachments id wanted d = (d', Ok (bool_decide (cell_files cell <> wanted))) /\
    cell_obj_for id d' = Some cell' /\ cell_files cell' = wanted /\
    only_field "attachments" cell cell' /\ only_cell id d d'.
Proof.
  intros Hc Hok. unfold set_cell_attachments. rewrite Hc, (get_cell_files id d cell) by done. cbn zeta.
  case_decide as He.
  - rewrite bool_decide_false by naive_solver. exists d, cell. done.
  - rewrite bool_decide_true by done.
    match goal with |- context [update_cell id ?g d] => set (f := g) end.
    destruct (update_cell_spec id f d cell Hc) as (d' & -> & Hd & Ho).
    exists d', (f cell). split_and!; [done..| | |done].
    + unfold f, cell_files at 1, map_at at 1. rewrite lookup_insert_eq.
      replace (cell_files cell) with (read_attachment_refs (default ∅ (map_at cell "attachments"))).
      * by apply read_write_attachments.
      * unfold cell_files. destruct (map_at cell "attachments"); [done|]. apply omap_empty.
    + intros k Hk. unfold f. by rewrite lookup_insert_ne.
Qed.

(** Assets and attachments read back as set.  Replacing the resolved assets or the
    attachments of a cell, over whatever was stored there, makes the reader return
    exactly the new map; the call reports a change exactly when the readable map was
    different, and no other cell changes. *)
Theorem cell_blobs_roundtrip d id cell assets files :
  cell_obj_for id d = Some cell -> attachments_ok files ->
  (let '(d', r) := set_cell_resolved_assets id assets d in
   default ∅ (get_cell_resolved_assets id d') = assets /\
   r = Ok (bool_decide (default ∅ (get_cell_resolved_assets id d) <> assets)) /\ only_cell id d d') /\
  (let '(d', r) := set_cell_attachments id files d in
   default ∅ (get_cell_attachments id d') = files /\
   r = Ok (bool_decide (default ∅ (get_cell_attachments id d) <> files)) /\ only_cell id d d').
Proof.
  intros Hc Hf. split.
  - destruct (set_assets_spec id assets d cell Hc) as (d' & cell' & -> & Hc' & Ha & _ & Ho).
    by rewrite (get_cell_assets id d cell), (get_cell_assets id d' cell').
  - destruct (set_attachments_spec id files d cell Hc Hf) as (d' & cell' & -> & Hc' & Ha & _ & Ho).
    by rewrite (get_cell_files id d cell), (get_cell_files id d' cell').
Qed.

End Blobs.

(** ** Instances and examples *)

(** Indices as bit strings that end in one: a dense order. *)
Module BitIndex.

Definition bit (b : bool) : Ascii.ascii := Ascii.ascii_of_nat (if b then 49 else 48).

Fixpoint show (l : list bool) : string :=
  match l with [] => "1" | b :: l => String (bit b) (show l) end.

Fixpoint read (s : string) : list bool :=
  match s with
  | EmptyString | String _ EmptyString => []
  | String c s => bool_decide (c = bit true) :: read s
  end.

Fixpoint between (a b : list bool) : option (list bool) :=
  match a, b with
  | [], true :: b => Some (true :: b ++ [false])
  | false :: a, [] => Some (false :: a ++ [true])
  | x :: a, y :: b =>
      if decide (x = y) then cons x <$> between a b
      else if x then None else Some (false :: a ++ [true])
  | _, _ => None
  end.

#[export] Instance index : FractionalIndex := {|
  findex := list bool; fi_default := []; new_before l := l ++ [false]; new_after l := l ++ [true];
  new_between := between; fi_to_string := show; from_hex_string := read
|}.

Lemma lt_cons c s t : str_lt (String c s) (String c t) <-> str_lt s t.
Proof.
  unfold str_lt, String.le, String.leb. simpl. unfold Ascii.compare. rewrite N.compare_refl.
  split; intros [? ?]; split; congruence || done.
Qed.

Lemma lt_bit s t : str_lt (String (bit false) s) (String (bit true) t).
Proof. by split. Qed.

Lemma show_nonempty l : exists c s, show l = String c s.
Proof. destruct l; simpl; eauto. Qed.

Lemma read_show l : read (show l) = l.
Proof.
  induction l as [|b l IH]; [done|]. destruct (show_nonempty l) as (c & s & E).
  change (show (b :: l)) with (String (bit b) (show l)). rewrite E. rewrite E in IH.
  change (bool_decide (bit b = bit true) :: read (String c s) = b :: l). rewrite IH.
  by destruct b.
Qed.

Lemma show_before l : str_lt (show (l ++ [false])) (show l).
Proof. induction l as [|b l IH]; [by split|]. by apply lt_cons. Qed.

Lemma show_after l : str_lt (show l) (show (l ++ [true])).
Proof. induction l as [|b l IH]; [by split|]. by apply lt_cons. Qed.

Lemma lt_one l : str_lt "1" (show l) -> exists l', l = true :: l'.
Proof.
  destruct l as [|[] l]; [intros [_ []]; done|eauto|]. intros [H Hn]. exfalso.
  destruct (lt_bit (show l) "") as [H1 H2]. by apply H2, (anti_symm String.le).
Qed.

Lemma lt_above l : str_lt (show l) "1" -> exists l', l = false :: l'.
Proof.
  destruct l as [|[] l]; [intros [_ []]; done| |eauto]. intros H. exfalso.
  destruct (show_nonempty l) as (c & s & E). change (str_lt (String (bit true) (show l)) (String (bit true) "")) in H.
  rewrite lt_cons, E in H. by destruct H.
Qed.

Lemma between_lt a b :
  str_lt (show a) (show b) ->
  exists m, between a b = Some m /\ str_lt (show a) (show m) /\ str_lt (show m) (show b).
Proof.
  revert b. induction a as [|x a IH]; intros b H.
  - destruct (lt_one b H) as [b' ->]. eexists. split; [done|]. split.
    + destruct (show_nonempty (b' ++ [false])) as (c & s & E).
      change (str_lt (String (bit true) "") (String (bit true) (show (b' ++ [false])))). rewrite E. by apply lt_cons.
    + apply lt_cons, show_before.
  - destruct b as [|y b].
    + destruct (lt_above _ H) as [a' E]. injection E as -> ->. eexists. split; [done|]. split.
      * apply lt_cons, show_after.
      * by split.
    + cbn [between]. destruct (decide (x = y)) as [->|Hne].
      * apply lt_cons in H as (m & -> & H1 & H2)%IH. exists (y :: m). split; [by destruct y|].
        split; by apply lt_cons.
      * destruct x, y; try done.
        { exfalso. destruct H as [H1 _]. destruct (lt_bit (show b) (show a)) as [H2 H3].
          by apply H3, (anti_symm String.le). }
        eexists. split; [done|]. split; [apply lt_cons, show_after|apply lt_bit].
Qed.

#[export] Instance index_laws : FractionalIndexLaws.
Proof. split; [apply read_show|apply show_before|apply show_after|apply between_lt]. Qed.

End BitIndex.

(** Text counted in code points. *)
Module CodePoints.

Definition continuation (c : Ascii.ascii) : bool := Z.land (Z.of_N (Ascii.N_of_ascii c)) 192 =? 128.

Fixpoint count (s : string) : nat :=
  match s with
  | EmptyString => 0%nat
  | String c s => if continuation c then count s else S (count s)
  end.

Fixpoint split_units (n : nat) (s : string) : option (string * string) :=
  match s with
  | EmptyString => match n with O => Some ("", "") | _ => None end
  | String c s' =>
      if continuation c then prod_map (String c) id <$> split_units n s'
      else match n with O => Some ("", s) | S n => prod_map (String c) id <$> split_units n s' end
  end.

#[export] Instance text : TextOps := {|
  text_length s := Z.of_nat (count s);
  splice_text t i n s :=
    '(a, rest) ← split_units (Z.to_nat i) t; '(_, c) ← split_units (Z.to_nat n) rest; Some (a +:+ s +:+ c)
|}.

Lemma count_app s t : count (s +:+ t) = (count s + count t)%nat.
Proof.
  induction s as [|c s IH]; [done|]. change (String c s +:+ t) with (String c (s +:+ t)). simpl.
  destruct (continuation c); lia.
Qed.

Lemma split_units_app a b : is_boundary b = true -> split_units (count a) (a +:+ b) = Some (a, b).
Proof.
  intros Hb. induction a as [|c a IH].
  - change ("" +:+ b) with b. destruct b as [|c b]; [done|]. simpl in *. fold (continuation c) in Hb.
    by destruct (continuation c).
  - change (String c a +:+ b) with (String c (a +:+ b)). simpl.
    destruct (continuation c); by rewrite IH.
Qed.

Lemma boundary_app b c : is_boundary b = true -> is_boundary c = true -> is_boundary (b +:+ c) = true.
Proof. by destruct b. Qed.

#[export] Instance text_laws : TextLaws.
Proof.
  split.
  - intros s t. simpl. rewrite count_app. lia.
  - intros s. simpl. lia.
  - intros a b c s Hb Hc. simpl. rewrite !Nat2Z.id.
    rewrite split_units_app by (by apply boundary_app). simpl. by rewrite split_units_app.
Qed.

End CodePoints.

Module NotebookExamples.
Import BitIndex CodePoints.

Definition edits : list notebook_op :=
  [NAdd 0 "a" "code"; NAdd 7 "b" "code"; NAddAfter "c" "markdown" (Some "a"); NAddAfter "d" "raw" None;
   NUpdateSource "a" "print(1)"; NMove "b" (Some "d"); NDelete "c"; NAddAfter "e" "code" (Some "nowhere")].

Definition edited : NotebookDoc := foldl (notebook_step (fun _ => None)) (new_notebook "n1") edits.

Example edited_order : get_cell_ids edited = ["d"; "b"; "a"; "e"].
Proof. vm_compute. reflexivity. Qed.

Lemma notebook_refines_list_witness : get_cell_ids edited = foldl list_step [] edits.
Proof. apply (notebook_refines_list (fun _ => None) "n1" edits). Defined.

Lemma cell_readers_agree_witness : cell_id <$> get_cells (fun _ => None) edited = get_cell_ids edited.
Proof.
  apply (cell_readers_agree (fun _ => None) edited). apply (history_spec (fun _ => None)), new_notebook_wf.
Defined.

(** A notebook with one cell. *)
Definition cell_a : gmap string node := new_cell "a" "code" "1" "print(1)" "null" ∅.
Definition small : NotebookDoc :=
  (add_cell_full "a" "code" "1" "print(1)" "null" (JObject ∅) (new_notebook "n")).1.

Definition snapshot_a : CellSnapshot := mkCell "a" "code" "1" "print(1)" "null" (JObject ∅) ∅ ∅.

Lemma source_edits_exact_witness :
  exists d', splice_source "a" 6 1 "42" small = (d', Ok true) /\
    get_cell (fun _ => None) "a" d' = Some (with_source "print(42)" snapshot_a) /\ only_cell "a" small d'.
Proof.
  destruct (source_edits_exact (fun _ => None) small "a" snapshot_a "print(" "1" ")" "42" cell_a)
    as (_ & _ & d' & H); [reflexivity..|vm_compute; discriminate|].
  exists d'. exact H.
Defined.

Definition tagged : json := JObject {["tags" := JArray [JString "x"]; "jupyter" := JString "odd"]}.
Definition with_tags : NotebookDoc := (set_cell_metadata "a" tagged small).1.

Lemma metadata_update_exact_witness :
  exists d' new, set_cell_source_hidden (fun _ => None) "a" true with_tags = (d', Ok true) /\
    get_cell_metadata (fun _ => None) "a" d' = Some new /\
    json_at ["jupyter"; "source_hidden"] new = Some (JBool true) /\
    json_at ["tags"] new = Some (JArray [JString "x"]).
Proof.
  destruct (metadata_update_exact (fun _ => None) with_tags "a" ["jupyter"; "source_hidden"] (JBool true) tagged)
    as (d' & new & H1 & H2 & H3 & H4 & _); [vm_compute; reflexivity|done|vm_compute; reflexivity|].
  exists d', new. split; [exact H1|]. split; [exact H2|]. split; [exact H3|].
  rewrite (H4 ["tags"]); [reflexivity|]. by left.
Defined.

Definition image : CellAttachments := {["i.png" := {["image/png" := mkAttachment "h" Base64]}]}.

Lemma cell_blobs_roundtrip_witness :
  let '(d', r) := set_cell_attachments "a" image small in
  default ∅ (get_cell_attachments "a" d') = image /\ r = Ok true.
Proof.
  destruct (cell_blobs_roundtrip small "a" cell_a ∅ image) as [_ H]; [reflexivity| |].
  - unfold image. intros name bundle [<- <-]%lookup_singleton_Some. split; [done|].
    by intros ty r [<- <-]%lookup_singleton_Some.
  - destruct (set_cell_attachments "a" image small) as [d' r]. destruct H as (H1 & -> & _). by split.
Defined.

(** Two cells that got the same position in concurrent edits: a cell inserted after the
    first of them lands after both. *)
Example equal_positions_misplace :
  let d := (add_cell_full "b" "code" "1" "" "null" (JObject ∅)
    (add_cell_full "a" "code" "1" "" "null" (JObject ∅) (new_notebook "n")).1).1 in
  get_cell_ids (add_cell_after "c" "code" (Some "a") d).1 = ["a"; "b"; "c"].
Proof. vm_compute. reflexivity. Qed.

End NotebookExamples.
