(* ===== verification/NotebookImport.v ===== *)
(** * Importing a notebook file

    Model of the parser and the staging of [notebook_sync_server/load.rs]: the tree that
    jiter parsed becomes streaming cells with fresh positions, and the cells, with
    their resolved assets, attachments and executions, are written into the document
    of a new room or over the document of a recovered one.  jiter's parser, the
    version-5 UUID of a cell without id and the blobs that assets resolve to are
    parameters.  The theorem: the document then reads as the file, cell by cell and in
    its order. *)

From stdpp Require Import pretty.
From S2P Require Import Prelude Kernel Automunge RuntimeDoc RuntimeOutputs NotebookDoc.

(** ** jiter's values *)

(** [jiter::JsonValue]; an object is the sequence of its members. *)
Inductive JsonValue :=
| JvNull
| JvBool (b : bool)
| JvInt (i : Z)
| JvBigInt (digits : string)
| JvFloat (f : f64)
| JvStr (s : string)
| JvArray (l : list JsonValue)
| JvObject (members : list (string * JsonValue)).

(** Collecting members into a [serde_json::Map]: the last of a repeated key stays. *)
Definition collect_members (l : list (string * json)) : gmap string json :=
  foldl (fun m x => <[x.1 := x.2]> m) ∅ l.

Fixpoint jiter_to_serde (v : JsonValue) : json :=
  match v with
  | JvNull => JNull
  | JvBool b => JBool b
  | JvInt i => JNumber (number_of_i64 i)
  | JvBigInt digits => JString digits
  | JvFloat f => if is_finite f then JNumber (Float f) else JNull
  | JvStr s => JString s
  | JvArray l => JArray (jiter_to_serde <$> l)
  | JvObject members => JObject (collect_members ((fun x => (x.1, jiter_to_serde x.2)) <$> members))
  end.

(** The first member of the key. *)
Definition jobj_get (members : list (string * JsonValue)) (key : string) : option JsonValue :=
  snd <$> head (filter (fun x => x.1 = key) members).

Definition jobj_str (members : list (string * JsonValue)) (key : string) : option string :=
  match jobj_get members key with Some (JvStr s) => Some s | _ => None end.

(** ** Streaming cells *)

Record StreamingCell := mkStreaming {
  sc_id : string; sc_type : string; sc_position : string; sc_source : string; sc_execution_count : string;
  sc_outputs : list json; sc_metadata : json;
}.

(** [ParsedStreamingNotebook], less the typed reading of [metadata_value]. *)
Record ParsedNotebook := mkParsed {
  parsed_cells : list StreamingCell;
  metadata_value : option json;
  parsed_attachments : gmap string json;
}.

Definition jv_string (v : JsonValue) : option string := match v with JvStr s => Some s | _ => None end.

Definition cell_source (members : list (string * JsonValue)) : string :=
  match jobj_get members "source" with
  | Some (JvStr s) => s
  | Some (JvArray l) => String.concat "" (omap jv_string l)
  | _ => ""
  end.

Definition cell_execution_count (members : list (string * JsonValue)) : string :=
  match jobj_get members "execution_count" with Some (JvInt n) => pretty n | _ => "null" end.

Definition cell_outputs (members : list (string * JsonValue)) : list json :=
  match jobj_get members "outputs" with Some (JvArray l) => jiter_to_serde <$> l | _ => [] end.

Definition cell_meta (members : list (string * JsonValue)) : json :=
  match jiter_to_serde <$> jobj_get members "metadata" with Some (JObject m) => JObject m | _ => JObject ∅ end.

(** ** Prepared cells *)

(** [PreparedInitialCell], with the execution as its id. *)
Record PreparedCell := mkPrepared {
  pc_cell : StreamingCell; pc_assets : gmap string string; pc_attachments : CellAttachments;
  pc_execution_id : option string;
}.

(** [streaming_cells_into_snapshots]. *)
Definition streaming_snapshot (c : StreamingCell) : CellSnapshot :=
  mkCell (sc_id c) (sc_type c) (sc_position c) (sc_source c) (sc_execution_count c) (sc_metadata c) ∅ ∅.

Definition streaming_cells_into_snapshots (cells : list StreamingCell)
    : list CellSnapshot * gmap string (list json) :=
  (streaming_snapshot <$> cells,
   foldl (fun m c => match sc_outputs c with [] => m | outputs => <[sc_id c := outputs]> m end) ∅ cells).

Section ImportModel.
Context `{FI : FractionalIndex, TX : TextOps}.
Variable json_from_str : string -> option json.
Variable legacy_cell_id : nat -> string.

(** One turn of the parser's loop, for a cell object at its index in the array. *)
Definition parse_cell (index : nat) (prev : option findex) (members : list (string * JsonValue))
    : StreamingCell * findex :=
  let position := match prev with None => fi_default | Some prev => new_after prev end in
  (mkStreaming (default (legacy_cell_id index) (jobj_str members "id"))
    (default "code" (jobj_str members "cell_type")) (fi_to_string position) (cell_source members)
    (cell_execution_count members) (cell_outputs members) (cell_meta members), position).

(** The loop; entries that are no objects are dropped and keep their index. *)
Fixpoint parse_cells (index : nat) (prev : option findex) (l : list JsonValue)
    : list StreamingCell * gmap string json :=
  match l with
  | [] => ([], ∅)
  | JvObject members :: l =>
      let '(cell, position) := parse_cell index prev members in
      let '(cells, atts) := parse_cells (S index) (Some position) l in
      (cell :: cells,
       match jobj_get members "attachments" with
       | Some (JvObject a) =>
           match atts !! sc_id cell with
           | Some _ => atts
           | None => <[sc_id cell := jiter_to_serde (JvObject a)]> atts
           end
       | _ => atts
       end)
  | _ :: l => parse_cells (S index) prev l
  end.

Definition parse_notebook (parsed : option JsonValue) : result string ParsedNotebook :=
  match parsed with
  | None => Err "Invalid notebook JSON"
  | Some (JvObject members) =>
      match jobj_get members "cells" with
      | Some (JvArray l) =>
          let '(cells, atts) := parse_cells 0 None l in
          Ok (mkParsed cells (jiter_to_serde <$> jobj_get members "metadata") atts)
      | Some _ => Err "'cells' is not an array"
      | None => Err "notebook has no 'cells' key"
      end
  | Some _ => Err "Notebook is not a JSON object"
  end.

(** ** Staging *)

(** The body of the staging loop: each call may return early with its error. *)
Definition stage_cell (p : PreparedCell) : NotebookM () := fun d =>
  let c := pc_cell p in
  let '(d, r) := add_cell_full (sc_id c) (sc_type c) (sc_position c) (sc_source c) (sc_execution_count c)
    (sc_metadata c) d in
  do! _ := r else d in
  let '(d, r) := match pc_execution_id p with
    | Some eid => set_execution_id (sc_id c) (Some eid) d
    | None => (d, Ok true)
    end in
  do! _ := r else d in
  let '(d, r) := set_cell_resolved_assets (sc_id c) (pc_assets p) d in
  do! _ := r else d in
  let '(d, r) := set_cell_attachments (sc_id c) (pc_attachments p) d in
  do! _ := r else d in
  (d, Ok ()).

Fixpoint stage_cells (l : list PreparedCell) : NotebookM () := fun d =>
  match l with
  | [] => (d, Ok ())
  | p :: l => let '(d, r) := stage_cell p d in do! _ := r else d in stage_cells l d
  end.

(** The cells part of [apply_prepared_source_reconciliation]. *)
Definition apply_source_cells (l : list PreparedCell) : NotebookM () := fun d =>
  let '(d, r) := clear_all_cells d in do! _ := r else d in stage_cells l d.

(** ** The document reads as the file *)

Context `{FIL : !FractionalIndexLaws}.

(** The snapshot a prepared cell becomes. *)
Definition prepared_snapshot (p : PreparedCell) : CellSnapshot :=
  let c := pc_cell p in
  mkCell (sc_id c) (sc_type c) (sc_position c) (sc_source c) (sc_execution_count c) (sc_metadata c)
    (pc_assets p) (pc_attachments p).

(** What a snapshot reads depends on eight fields. *)
Lemma read_cell_fields cell cell' :
  (forall k, k ∈ ["id"; "cell_type"; "position"; "source"; "execution_count"; "metadata"] -> cell' !! k = cell !! k) ->
  forall c, read_cell json_from_str cell = Some c ->
  read_cell json_from_str cell' =
    Some (mkCell (cell_id c) (cell_type c) (position c) (source c) (execution_count c) (cell_metadata c)
      (cell_assets cell') (cell_files cell')).
Proof.
  intros Hk c Hc. unfold read_cell, cell_position, read_string, text_at, read_cell_metadata in *.
  rewrite !Hk by set_solver. destruct (cell !! "id" ≫= node_str); [|done]. simpl in *. by simplify_eq.
Qed.

Lemma read_new_cell id ty p s n m :
  json_ok (JObject m) = true ->
  read_cell json_from_str (new_cell id ty p s n (metadata_node (JObject m))) = Some (mkCell id ty p s n (JObject m) ∅ ∅).
Proof.
  intros Hok. transitivity (Some (mkCell id ty p s n (JObject (omap read_node (fresh_node <$> m))) ∅ ∅)).
  - reflexivity.
  - by rewrite omap_fresh.
Qed.

(** A cell that goes to the end. *)
Record cell_fits (d : NotebookDoc) (p : PreparedCell) (i : findex) : Prop := {
  fits_new : sc_id (pc_cell p) ∉ get_cell_ids d;
  fits_position : sc_position (pc_cell p) = fi_to_string i;
  fits_last : Forall (fun q => str_lt q.1 (fi_to_string i)) (get_cell_positions d);
  fits_metadata : exists m, sc_metadata (pc_cell p) = JObject m /\ json_ok (JObject m) = true;
  fits_attachments : attachments_ok (pc_attachments p);
}.

Lemma add_at_end d cells id cell i :
  notebook_wf d -> cells_map d = Some cells -> id ∉ get_cell_ids d -> cell_ok id cell ->
  cell_position cell = fi_to_string i ->
  Forall (fun q => str_lt q.1 (fi_to_string i)) (get_cell_positions d) ->
  let d' := set_cells (<[id := NMap cell]> cells) d in
  notebook_wf d' /\ get_cell_positions d' = get_cell_positions d ++ [(fi_to_string i, id)].
Proof.
  intros Hwf Hc Hid Hok Hp Hlast d'.
  assert (E : get_cell_positions d' = get_cell_positions d ++ [(fi_to_string i, id)]).
  { unfold d'. rewrite (positions_put d cells id cell (get_cell_positions d) []); [|done|by rewrite app_nil_r| |].
    - rewrite Hp. f_equal. unfold others. apply filter_all, Forall_forall. intros q Hq <-.
      apply Hid. unfold get_cell_ids. by apply list_elem_of_fmap_2.
    - by rewrite Hp.
    - constructor. }
  split; [|exact E]. apply wf_put; [done..|]. destruct Hwf as [_ [Hix Hnd]].
  unfold positions_ok. fold d'. rewrite E, fmap_app. split.
  - apply Forall_app. split; [done|]. constructor; [by eexists|constructor].
  - cbn [fmap list_fmap fst]. apply NoDup_snoc; [done|]. rewrite list_elem_of_fmap. intros (q & Eq & Hq).
    rewrite Forall_forall in Hlast. destruct (Hlast q Hq) as [_ Hne]. by apply Hne.
Qed.

(** A field that none of the three writes touches. *)
Ltac fields_eq :=
  repeat match goal with H : only_field _ _ _ |- _ => rewrite H by set_solver; clear H end; done.

Lemma stage_cell_spec d p i :
  notebook_wf d -> cell_fits d p i ->
  exists d', stage_cell p d = (d', Ok ()) /\ notebook_wf d' /\
    get_cell_positions d' = get_cell_positions d ++ [(fi_to_string i, sc_id (pc_cell p))] /\
    get_cell json_from_str (sc_id (pc_cell p)) d' = Some (prepared_snapshot p) /\
    only_cell (sc_id (pc_cell p)) d d'.
Proof.
  intros Hwf [Hnew Hpos Hlast (m & Hm & Hmok) Hatt]. destruct (wf_cells d Hwf) as (cells & Hc & _).
  unfold stage_cell. set (c := pc_cell p) in *. set (id := sc_id c) in *.
  unfold add_cell_full. rewrite Hc. cbn zeta. rewrite Hm.
  set (cell := new_cell id _ _ _ _ _). set (d1 := set_cells _ d).
  destruct (new_cell_ok id (sc_type c) (sc_position c) (sc_source c) (sc_execution_count c)
    (metadata_node (JObject m))) as [Hok Hcp].
  destruct (add_at_end d cells id cell i) as [Hwf1 E1]; [done..|by rewrite <-Hpos|done|]. fold d1 in Hwf1, E1.
  assert (H1 : cell_obj_for id d1 = Some cell) by (unfold d1; by rewrite (cell_obj_put _ _ _ _ _ Hc), decide_True).
  assert (O1 : only_cell id d d1) by (intros k Hk; unfold d1; by rewrite (cell_obj_put _ _ _ _ _ Hc), decide_False).
  set (step2 := match pc_execution_id p with Some _ => _ | None => _ end).
  assert (exists d2 cell2 b, step2 = (d2, Ok b) /\ cell_obj_for id d2 = Some cell2 /\
    only_field "execution_id" cell cell2 /\ only_cell id d1 d2 /\ same_order d1 d2)
    as (d2 & cell2 & b2 & -> & H2 & F2 & O2 & S2).
  { unfold step2. destruct (pc_execution_id p) as [eid|].
    - unfold set_execution_id.
      pose proof (same_order_field id "execution_id" (opt_str_node (Some eid)) d1) as Hs.
      destruct (update_cell_spec id (fun cell => <["execution_id" := opt_str_node (Some eid)]> cell) d1 cell H1)
        as (d2 & E2 & Hd2 & Ho2). rewrite E2 in Hs |- *. do 3 eexists. split; [done|]. split; [exact Hd2|].
      split_and!; [|done|apply Hs; set_solver]. intros k Hk. by rewrite lookup_insert_ne.
    - exists d1, cell, true. split_and!; try done; apply same_order_refl. }
  pose proof (same_order_assets id (pc_assets p) d2) as S3.
  destruct (set_assets_spec id (pc_assets p) d2 cell2 H2) as (d3 & cell3 & E3 & H3 & A3 & F3 & O3).
  rewrite E3 in S3 |- *. cbn [fst] in S3.
  pose proof (same_order_attachments id (pc_attachments p) d3) as S4.
  destruct (set_attachments_spec id (pc_attachments p) d3 cell3 H3 Hatt) as (d4 & cell4 & E4 & H4 & A4 & F4 & O4).
  rewrite E4 in S4 |- *. cbn [fst] in S4. exists d4.
  destruct S2 as [W2 P2], S3 as [W3 P3], S4 as [W4 P4]. split_and!; [done|auto| | |].
  - by rewrite P4, P3, P2.
  - unfold get_cell. rewrite H4. cbn [mbind option_bind].
    pose proof (read_new_cell id (sc_type c) (sc_position c) (sc_source c) (sc_execution_count c) m Hmok) as Hr.
    fold cell in Hr. erewrite read_cell_fields; [|intros k Hk; by fields_eq|exact Hr].
    unfold prepared_snapshot. fold c id. rewrite A4, Hm. cbn. do 2 f_equal.
    rewrite <-A3. unfold cell_assets, map_at. by rewrite F4.
  - intros k Hk. rewrite O4, O3, O2, O1 by done. done.
Qed.

(** *** The loop *)

(** Positions as the parser hands them out. *)
Fixpoint chain (prev : option findex) (cells : list StreamingCell) : Prop :=
  match cells with
  | [] => True
  | c :: cells =>
      let i := match prev with None => fi_default | Some prev => new_after prev end in
      sc_position c = fi_to_string i /\ chain (Some i) cells
  end.

(** The last position given so far bounds the document's. *)
Definition bounded (prev : option findex) (d : NotebookDoc) : Prop :=
  match prev with
  | None => get_cell_positions d = []
  | Some i => Forall (fun q => q.1 = fi_to_string i \/ str_lt q.1 (fi_to_string i)) (get_cell_positions d)
  end.

Definition prepared_ok (p : PreparedCell) : Prop :=
  (exists m, sc_metadata (pc_cell p) = JObject m /\ json_ok (JObject m) = true) /\ attachments_ok (pc_attachments p).

Definition prepared_id (p : PreparedCell) : string := sc_id (pc_cell p).

Lemma bounded_next prev d :
  bounded prev d ->
  Forall (fun q => str_lt q.1 (fi_to_string (match prev with None => fi_default | Some prev => new_after prev end)))
    (get_cell_positions d).
Proof.
  destruct prev as [i|]; simpl; [|by intros ->; constructor].
  intros H. eapply Forall_impl; [exact H|]. intros q [->|Hq]; [apply new_after_lt|]. exact (transitivity Hq (new_after_lt i)).
Qed.

Lemma get_cell_other id d d' k :
  only_cell id d d' -> k <> id -> get_cell json_from_str k d' = get_cell json_from_str k d.
Proof. intros Ho Hk. unfold get_cell. by rewrite Ho. Qed.

Lemma stage_cells_spec l prev d :
  notebook_wf d -> bounded prev d -> chain prev (pc_cell <$> l) -> Forall prepared_ok l ->
  NoDup (get_cell_ids d ++ (prepared_id <$> l)) ->
  exists d', stage_cells l d = (d', Ok ()) /\ notebook_wf d' /\
    get_cell_ids d' = get_cell_ids d ++ (prepared_id <$> l) /\
    Forall (fun p => get_cell json_from_str (prepared_id p) d' = Some (prepared_snapshot p)) l /\
    (forall k, k ∉ prepared_id <$> l -> get_cell json_from_str k d' = get_cell json_from_str k d).
Proof.
  revert prev d. induction l as [|p l IH]; intros prev d Hwf Hb Hch Hok Hnd.
  { exists d. rewrite app_nil_r. by split_and!. }
  rewrite fmap_cons in Hch. destruct Hch as [Hp Hch]. apply Forall_cons in Hok as [[Hm Ha] Hok].
  set (i := match prev with None => _ | Some _ => _ end) in *.
  rewrite fmap_cons in Hnd. pose proof Hnd as Hnd0.
  apply NoDup_app in Hnd as (Hnd1 & Hdis & Hnd2%NoDup_cons).
  destruct (stage_cell_spec d p i) as (d1 & E1 & W1 & P1 & G1 & O1);
    [done|split; [|done|by apply bounded_next|done|done]|].
  { intros Hin. apply (Hdis _ Hin). set_solver. }
  assert (I1 : get_cell_ids d1 = get_cell_ids d ++ [prepared_id p])
    by (unfold get_cell_ids; by rewrite P1, fmap_app).
  destruct (IH (Some i) d1) as (d2 & E2 & W2 & I2 & G2 & O2); [done| |done|done| |].
  { simpl. rewrite P1. apply Forall_app. split.
    - eapply Forall_impl; [by apply bounded_next|]. by right.
    - constructor; [by left|constructor]. }
  { by rewrite I1, <-(assoc_L (++)). }
  exists d2. cbn [stage_cells]. rewrite E1. split_and!; [done|done| | |].
  - by rewrite I2, I1, <-(assoc_L (++)).
  - constructor; [|done]. rewrite O2 by apply Hnd2. done.
  - intros k Hk. rewrite O2 by set_solver. apply get_cell_other with (sc_id (pc_cell p)); [done|]. set_solver.
Qed.

(** *** The whole import *)

Lemma get_cells_by_id d :
  notebook_wf d -> get_cells json_from_str d = omap (fun id => get_cell json_from_str id d) (get_cell_ids d).
Proof.
  intros Hwf. unfold get_cell_ids. rewrite <-(get_cells_positions json_from_str d Hwf), <-list_fmap_compose.
  assert (H : forall c, c ∈ get_cells json_from_str d -> get_cell json_from_str (cell_id c) d = Some c)
    by (intros c; by apply elem_of_get_cells).
  induction (get_cells json_from_str d) as [|c l IH]; [done|]. rewrite fmap_cons. cbn [omap list_omap].
  unfold compose, snapshot_pair at 1. cbn [snd]. rewrite H by set_solver. f_equal. apply IH. set_solver.
Qed.

Lemma staged_reads l d :
  notebook_wf d -> get_cell_ids d = prepared_id <$> l ->
  Forall (fun p => get_cell json_from_str (prepared_id p) d = Some (prepared_snapshot p)) l ->
  get_cells json_from_str d = prepared_snapshot <$> l.
Proof.
  intros Hwf Hi HG. rewrite (get_cells_by_id d Hwf), Hi. clear Hi Hwf.
  induction HG as [|p l Hp _ IH]; [done|]. rewrite !fmap_cons. cbn [omap list_omap]. by rewrite Hp, IH.
Qed.

Lemma parse_cells_chain index prev l : chain prev (parse_cells index prev l).1.
Proof.
  revert index prev. induction l as [|v l IH]; intros index prev; [done|]. simpl.
  destruct v; try apply IH. unfold parse_cell.
  pose proof (IH (S index) (Some (match prev with None => fi_default | Some prev => new_after prev end))) as H.
  destruct (parse_cells _ _ l) as [cells atts]. by split.
Qed.

End ImportModel.

(** ** Values that jiter can hold *)

Fixpoint jv_ok (v : JsonValue) : bool :=
  match v with
  | JvInt i => bool_decide (- 2 ^ 63 <= i < 2 ^ 63)
  | JvArray l => forallb jv_ok l
  | JvObject members => forallb (fun x => jv_ok x.2) members
  | _ => true
  end.

Lemma json_ok_object_intro m : map_Forall (fun _ v => json_ok v = true) m -> json_ok (JObject m) = true.
Proof.
  cbn [json_ok]. apply (map_fold_weak_ind (fun b (m : gmap string json) =>
    map_Forall (fun _ v => json_ok v = true) m -> b = true)); [done|].
  intros k v m' b Hk IH Hall. apply map_Forall_insert in Hall as [-> Hall]; [|done]. by rewrite IH.
Qed.

Lemma collect_members_ok (l : list (string * json)) :
  Forall (fun x => json_ok x.2 = true) l -> map_Forall (fun _ v => json_ok v = true) (collect_members l).
Proof.
  unfold collect_members. generalize (map_Forall_empty (K := string) (M := gmap string) (fun _ v => json_ok v = true)).
  generalize (∅ : gmap string json). intros m Hm Hl. revert m Hm.
  induction Hl as [|[k v] l Hv _ IH]; intros m Hm; [done|]. apply IH. by apply map_Forall_insert_2.
Qed.

Lemma jiter_json_ok : forall v, jv_ok v = true -> json_ok (jiter_to_serde v) = true.
Proof.
  fix IH 1. intros [|b|i|ds|f|s|l|ms]; cbn [jv_ok jiter_to_serde]; try done.
  - intros Hi%bool_decide_eq_true. cbn [json_ok number_ok]. unfold number_of_i64.
    destruct (i <? 0) eqn:E; apply bool_decide_eq_true; unfold u64_max; lia.
  - intros _. destruct (is_finite f) eqn:E; [|done]. exact E.
  - intros Hl. cbn [json_ok]. induction l as [|v l IHl]; [done|]. cbn in Hl |- *.
    apply andb_true_iff in Hl as [Hv Hl]. apply andb_true_iff. split; [by apply IH|by apply IHl].
  - intros Hl. apply json_ok_object_intro, collect_members_ok. induction ms as [|[k v] ms IHl]; [constructor|].
    cbn in Hl. apply andb_true_iff in Hl as [Hv Hl]. constructor; [by apply IH|by apply IHl].
Qed.

Lemma jobj_get_ok members key v :
  forallb (fun x => jv_ok x.2) members = true -> jobj_get members key = Some v -> jv_ok v = true.
Proof.
  unfold jobj_get. rewrite forallb_forall. intros Hall Hv.
  destruct (filter _ members) as [|x l] eqn:E; [done|]. injection Hv as <-.
  apply Hall, list_elem_of_In. assert (Hx : x ∈ filter (fun x => x.1 = key) members) by (rewrite E; set_solver).
  by apply list_elem_of_filter in Hx as [_ Hx].
Qed.

Section Claims.
Context `{FI : FractionalIndex, TX : TextOps}.
Context `{FIL : !FractionalIndexLaws}.
Variable json_from_str : string -> option json.
Variable legacy_cell_id : nat -> string.

Lemma parse_cells_metadata index prev l :
  forallb jv_ok l = true ->
  Forall (fun c => exists m, sc_metadata c = JObject m /\ json_ok (JObject m) = true)
    (parse_cells legacy_cell_id index prev l).1.
Proof.
  revert index prev. induction l as [|v l IH]; intros index prev Hl; [constructor|].
  cbn in Hl. apply andb_true_iff in Hl as [Hv Hl]. simpl. destruct v; try by apply IH. unfold parse_cell.
  pose proof (IH (S index) (Some (match prev with None => fi_default | Some prev => new_after prev end)) Hl) as H.
  destruct (parse_cells _ _ _ l) as [cells atts]. constructor; [|exact H]. cbn [sc_metadata]. unfold cell_meta.
  destruct (jobj_get members "metadata") as [v|] eqn:E; cbn [fmap option_fmap option_map]; [|by exists ∅].
  pose proof (jiter_json_ok v (jobj_get_ok _ _ _ Hv E)) as Hok.
  destruct (jiter_to_serde v); [by exists ∅..|]. by eexists.
Qed.

(** A parsed notebook whose cells were prepared: ids distinct, attachments storable. *)
Record import_of (tree : JsonValue) (nb : ParsedNotebook) (l : list PreparedCell) : Prop := {
  import_tree : jv_ok tree = true;
  import_parsed : parse_notebook legacy_cell_id (Some tree) = Ok nb;
  import_cells : pc_cell <$> l = parsed_cells nb;
  import_ids : NoDup (prepared_id <$> l);
  import_files : Forall (fun p => attachments_ok (pc_attachments p)) l;
}.

Lemma import_prepared tree nb l :
  import_of tree nb l -> chain None (pc_cell <$> l) /\ Forall prepared_ok l.
Proof.
  intros [Ht Hp Hc _ Hf]. unfold parse_notebook in Hp. destruct tree as [| | | | | | |members]; try done.
  destruct (jobj_get members "cells") as [[| | | | | |cells|]|] eqn:E; try done.
  pose proof (parse_cells_chain legacy_cell_id 0 None cells) as Hch.
  pose proof (parse_cells_metadata 0 None cells (jobj_get_ok _ _ _ Ht E)) as Hmd.
  destruct (parse_cells _ _ _ cells) as [cs atts]. injection Hp as <-. cbn [parsed_cells fst] in *.
  rewrite <-Hc in Hch, Hmd. split; [done|]. rewrite Forall_fmap in Hmd. apply Forall_forall.
  intros p Hp. rewrite Forall_forall in Hf. split; [|by apply Hf].
  by apply (proj1 (Forall_forall _ _) Hmd p Hp).
Qed.

(** C19. the imported document is the file.  Staging the cells of a parsed notebook with
    distinct ids, on a new document or over the cells of any well-formed one, succeeds,
    and the document then reads, in the file's order, exactly those cells: id, type,
    source, execution count and metadata from the file, assets and attachments as
    prepared; it is well-formed, so that later edits keep their order. *)
Theorem import_reads_back tree nb l nid d :
  import_of tree nb l -> notebook_wf d ->
  (exists d', stage_cells l (new_notebook nid) = (d', Ok ()) /\ notebook_wf d' /\
    get_cells json_from_str d' = prepared_snapshot <$> l) /\
  (exists d', apply_source_cells l d = (d', Ok ()) /\ notebook_wf d' /\
    get_cells json_from_str d' = prepared_snapshot <$> l).
Proof.
  intros Himp Hwf. destruct (import_prepared tree nb l Himp) as [Hch Hok].
  assert (Hstage : forall d0, notebook_wf d0 -> get_cell_positions d0 = [] ->
    exists d', stage_cells l d0 = (d', Ok ()) /\ notebook_wf d' /\
      get_cells json_from_str d' = prepared_snapshot <$> l).
  { intros d0 H0 E0. assert (I0 : get_cell_ids d0 = []) by (unfold get_cell_ids; by rewrite E0).
    destruct (stage_cells_spec json_from_str l None d0) as (d' & E & W & I & G & _); try done.
    - rewrite I0. apply Himp.
    - exists d'. split_and!; [done..|]. apply (staged_reads json_from_str l d'); [done| |done]. by rewrite I, I0. }
  split.
  - apply Hstage; [apply new_notebook_wf|done].
  - unfold apply_source_cells. destruct (clear_all_cells_spec d Hwf) as [W0 I0].
    destruct (clear_all_cells d) as [d0 r] eqn:E0. cbn [fst] in W0, I0.
    assert (r = Ok ()) as -> by (unfold clear_all_cells in E0; destruct (cells_map d); congruence).
    apply Hstage; [done|]. unfold get_cell_ids in I0. by apply fmap_nil_inv in I0.
Qed.

End Claims.

Module ImportExamples.
Import BitIndex CodePoints.

(** A file with an id, without one, an entry that is no cell, and sources in both
    forms. *)
Definition file : JsonValue :=
  JvObject [("cells", JvArray [
    JvObject [("id", JvStr "a"); ("cell_type", JvStr "code"); ("source", JvArray [JvStr "x"; JvStr "=1"]);
      ("execution_count", JvInt 3); ("metadata", JvObject [("tags", JvArray [JvStr "t"])])];
    JvNull;
    JvObject [("source", JvStr "y"); ("cell_type", JvStr "markdown")]])].

Definition legacy (index : nat) : string := "legacy-" +:+ pretty index.

Definition prepared : list PreparedCell :=
  match parse_notebook legacy (Some file) with
  | Ok nb => (fun c => mkPrepared c ∅ ∅ (Some "e")) <$> parsed_cells nb
  | Err _ => []
  end.

Example parsed_file :
  (fun p => (sc_id (pc_cell p), sc_source (pc_cell p), sc_execution_count (pc_cell p))) <$> prepared =
  [("a", "x=1", "3"); ("legacy-2", "y", "null")].
Proof. vm_compute. reflexivity. Qed.

Definition parsed : ParsedNotebook :=
  match parse_notebook legacy (Some file) with Ok nb => nb | Err _ => mkParsed [] None ∅ end.

Lemma import_ok : import_of legacy file parsed prepared.
Proof.
  split; [reflexivity|reflexivity|reflexivity| |].
  - apply (bool_decide_unpack _). vm_compute. exact I.
  - assert (Hall : Forall (fun p => pc_attachments p = ∅) prepared)
      by (apply (bool_decide_unpack _); vm_compute; exact I).
    eapply Forall_impl; [exact Hall|]. intros p ->. apply map_Forall_empty.
Qed.

Lemma import_reads_back_witness :
  exists d', stage_cells prepared (new_notebook "n") = (d', Ok ()) /\ notebook_wf d' /\
    get_cells (fun _ => None) d' = prepared_snapshot <$> prepared.
Proof.
  apply (import_reads_back (fun _ => None) legacy file parsed prepared "n" (new_notebook "m")).
  - exact import_ok.
  - apply new_notebook_wf.
Defined.

(** A repeated key: the parser's own lookups take the first, metadata keeps the last. *)
Example repeated_key :
  jobj_get [("k", JvInt 1); ("k", JvInt 2)] "k" = Some (JvInt 1) /\
  jiter_to_serde (JvObject [("k", JvInt 1); ("k", JvInt 2)]) = JObject {["k" := JNumber (PosInt 2)]}.
Proof. vm_compute. done. Qed.

End ImportExamples.
