(* ===== verification/Text.v ===== *)
(** * Text as characters

    Rust's [char], UTF-8, [str::chars], [str::trim], [char::is_control] and
    [char::is_whitespace], and the lemmas about them that the components share. *)

From S2P Require Import Prelude.

Definition byte_value (c : Ascii.ascii) : Z := Z.of_N (Ascii.N_of_ascii c).
Definition byte_char (n : Z) : Ascii.ascii := Ascii.ascii_of_N (Z.to_N n).

Definition utf8_char (c : Z) : list Z :=
  if c <? 128 then [c]
  else if c <? 2048 then [192 + c / 64; 128 + c mod 64]
  else if c <? 65536 then [224 + c / 4096; 128 + (c / 64) mod 64; 128 + c mod 64]
  else [240 + c / 262144; 128 + (c / 4096) mod 64; 128 + (c / 64) mod 64; 128 + c mod 64].

(** The UTF-8 text of a sequence of characters. *)
Fixpoint utf8_string (cs : list Z) : string :=
  match cs with
  | [] => EmptyString
  | c :: cs => foldr (fun n s => String (byte_char n) s) (utf8_string cs) (utf8_char c)
  end.

(** [str::chars]. *)
Fixpoint chars (s : string) : list Z :=
  match s with
  | EmptyString => []
  | String c0 s0 =>
      let a := byte_value c0 in
      if a <? 128 then a :: chars s0
      else match s0 with
      | EmptyString => []
      | String c1 s1 =>
          let b := byte_value c1 - 128 in
          if a <? 224 then ((a - 192) * 64 + b) :: chars s1
          else match s1 with
          | EmptyString => []
          | String c2 s2 =>
              let c := byte_value c2 - 128 in
              if a <? 240 then ((a - 224) * 4096 + b * 64 + c) :: chars s2
              else match s2 with
              | EmptyString => []
              | String c3 s3 => ((a - 240) * 262144 + b * 4096 + c * 64 + (byte_value c3 - 128)) :: chars s3
              end
          end
      end
  end.

Definition is_scalar (c : Z) : bool := (0 <=? c) && (c <? 55296) || (57344 <=? c) && (c <=? 1114111).

(** [char::is_control] and [char::is_whitespace]. *)
Definition is_control (c : Z) : bool := (0 <=? c) && (c <=? 31) || (127 <=? c) && (c <=? 159).
Definition is_whitespace (c : Z) : bool :=
  (9 <=? c) && (c <=? 13) || (8192 <=? c) && (c <=? 8202) ||
  bool_decide (c ∈ [32; 133; 160; 5760; 8232; 8233; 8239; 8287; 12288]).

Fixpoint trim_start (cs : list Z) : list Z :=
  match cs with c :: r => if is_whitespace c then trim_start r else cs | [] => [] end.
Definition trim (cs : list Z) : list Z := reverse (trim_start (reverse (trim_start cs))).

(** [str::contains]. *)
Definition str_contains (s q : string) : bool := match String.index 0 q s with Some _ => true | None => false end.

(** ** Text lemmas *)

Lemma byte_value_char n : 0 <= n < 256 -> byte_value (byte_char n) = n.
Proof.
  intros Hn. unfold byte_value, byte_char. rewrite Ascii.N_ascii_embedding by lia. lia.
Qed.

Lemma is_scalar_bounds c : is_scalar c = true -> 0 <= c <= 1114111.
Proof. unfold is_scalar. lia. Qed.

(** Characters survive being written as UTF-8. *)
Lemma chars_utf8_string cs : Forall (fun c => is_scalar c = true) cs -> chars (utf8_string cs) = cs.
Proof.
  induction 1 as [|c cs Hc%is_scalar_bounds _ IH]; [done|]. cbn [utf8_string]. unfold utf8_char.
  assert (Hm : forall n, 0 <= n mod 64 < 64) by (intros; apply Z.mod_pos_bound; lia).
  destruct (Z.ltb_spec c 128); [|destruct (Z.ltb_spec c 2048); [|destruct (Z.ltb_spec c 65536)]]; cbn [foldr chars].
  - rewrite !byte_value_char by lia. destruct (Z.ltb_spec c 128); [|lia]. by rewrite IH.
  - assert (0 <= c / 64 < 32) by (split; [apply Z.div_pos|apply Z.div_lt_upper_bound]; lia).
    pose proof (Hm c). rewrite !byte_value_char by lia.
    destruct (Z.ltb_spec (192 + c / 64) 128), (Z.ltb_spec (192 + c / 64) 224); try lia. rewrite IH.
    f_equal. pose proof (Z.div_mod c 64). lia.
  - assert (0 <= c / 4096 < 16) by (split; [apply Z.div_pos|apply Z.div_lt_upper_bound]; lia).
    pose proof (Hm c). pose proof (Hm (c / 64)). rewrite !byte_value_char by lia.
    destruct (Z.ltb_spec (224 + c / 4096) 128), (Z.ltb_spec (224 + c / 4096) 224),
      (Z.ltb_spec (224 + c / 4096) 240); try lia. rewrite IH. f_equal.
    pose proof (Z.div_mod c 64). pose proof (Z.div_mod (c / 64) 64) as Hd. rewrite Z.div_div in Hd by lia.
    change (64 * 64) with 4096 in Hd. lia.
  - assert (0 <= c / 262144 < 5) by (split; [apply Z.div_pos|apply Z.div_lt_upper_bound]; lia).
    pose proof (Hm c). pose proof (Hm (c / 64)). pose proof (Hm (c / 4096)). rewrite !byte_value_char by lia.
    destruct (Z.ltb_spec (240 + c / 262144) 128), (Z.ltb_spec (240 + c / 262144) 224),
      (Z.ltb_spec (240 + c / 262144) 240); try lia. rewrite IH. f_equal.
    pose proof (Z.div_mod c 64). pose proof (Z.div_mod (c / 64) 64) as Hd. rewrite Z.div_div in Hd by lia.
    pose proof (Z.div_mod (c / 4096) 64) as He. rewrite Z.div_div in He by lia.
    change (64 * 64) with 4096 in Hd. change (4096 * 64) with 262144 in He. lia.
Qed.

(** *** Trimming *)

Definition starts_clean (cs : list Z) : Prop := match cs with c :: _ => is_whitespace c = false | [] => True end.

Lemma trim_start_clean cs : starts_clean (trim_start cs).
Proof. induction cs as [|c cs IH]; [done|]. cbn. by destruct (is_whitespace c) eqn:E. Qed.
Lemma trim_start_id cs : starts_clean cs -> trim_start cs = cs.
Proof. destruct cs as [|c cs]; [done|]. cbn. by intros ->. Qed.
Lemma trim_start_suffix cs : trim_start cs `suffix_of` cs.
Proof. induction cs as [|c cs IH]; [done|]. cbn. destruct (is_whitespace c); [by apply suffix_cons_r|done]. Qed.

(** What is left at the end is left of the front too. *)
Lemma trim_clean cs : starts_clean (trim cs) /\ starts_clean (reverse (trim cs)).
Proof.
  unfold trim. rewrite reverse_involutive. split; [|apply trim_start_clean].
  pose proof (trim_start_clean cs) as Hc. set (l := trim_start cs) in *.
  destruct (trim_start_suffix (reverse l)) as [k Hk]. set (t := trim_start (reverse l)) in *.
  apply (f_equal reverse) in Hk. rewrite reverse_involutive, reverse_app in Hk.
  destruct (reverse t) as [|c r]; [done|]. by rewrite Hk in Hc.
Qed.
Lemma trim_id cs : starts_clean cs -> starts_clean (reverse cs) -> trim cs = cs.
Proof. intros H1 H2. unfold trim. rewrite (trim_start_id cs), trim_start_id, reverse_involutive by done. done. Qed.
Lemma trim_infix cs : exists a b, cs = a ++ trim cs ++ b.
Proof.
  destruct (trim_start_suffix cs) as [a Ha]. destruct (trim_start_suffix (reverse (trim_start cs))) as [b Hb].
  exists a, (reverse b). rewrite Ha at 1. f_equal. unfold trim.
  rewrite <-reverse_app, <-Hb. by rewrite reverse_involutive.
Qed.

Lemma trim_sublist_of (a b l : list Z) : l `sublist_of` a ++ l ++ b.
Proof. by apply sublist_inserts_l, sublist_inserts_r. Qed.
Lemma Forall_sublist {A} (P : A -> Prop) (l k : list A) : l `sublist_of` k -> Forall P k -> Forall P l.
Proof. induction 1; rewrite ?Forall_cons; naive_solver. Qed.
