(* ===== verification/PeerWriter.v ===== *)
(** * The outbound queues and the request worker of a peer

    Model of [notebook_sync_server/peer_writer.rs]: frames for a peer wait in two bounded
    lanes, a writer task takes them with the reliable lane first and writes them with
    the framing of [Framing], and a worker answers the requests of the peer in order.
    The task is a program counter over the polls of its loop, so that sends, drops and
    an abort interleave with it anywhere.  The theorems: nothing accepted is lost,
    duplicated or reordered within its lane before the connection ends, a waiting
    reliable frame is overtaken at most once, and every request is answered once with
    its own id.  Payloads of requests other than the id and the heads, and the
    handlers, are parameters. *)

From S2P Require Import Prelude Framing Identity.

(** ** Lanes and channels *)

Definition PEER_OUTBOUND_QUEUE_CAPACITY : nat := 1024.
Definition PEER_REQUEST_QUEUE_CAPACITY : nat := 64.

Inductive PeerEgressLane := Reliable | Ephemeral.

#[export] Instance PeerEgressLane_eq_dec : EqDecision PeerEgressLane.
Proof. solve_decision. Defined.

Definition classify (t : NotebookFrameType) : PeerEgressLane :=
  match t with
  | Broadcast | Presence => Ephemeral
  | AutomergeSync | Request | Response | RuntimeStateSync | CommsDocSync | CommentsDocSync
  | KeyedDocSync | PoolStateSync | SessionControl | PutBlob => Reliable
  end.

Record OutboundFrame := mkOut { of_lane : PeerEgressLane; of_type : NotebookFrameType; of_payload : bytes }.

Inductive SendError := QueueFull (t : NotebookFrameType) (l : PeerEgressLane)
                     | WriterStopped (t : NotebookFrameType) (l : PeerEgressLane).

(** The two channels: their frames, whether the task still holds the receivers, and
    whether a [PeerWriter] is left. *)
Record Channels := mkChannels {
  reliable_q : list OutboundFrame;
  ephemeral_q : list OutboundFrame;
  receivers : bool;
  senders : bool;
}.

Definition lane_q (l : PeerEgressLane) (c : Channels) : list OutboundFrame :=
  match l with Reliable => reliable_q c | Ephemeral => ephemeral_q c end.

Definition set_lane (l : PeerEgressLane) (q : list OutboundFrame) (c : Channels) : Channels :=
  match l with
  | Reliable => mkChannels q (ephemeral_q c) (receivers c) (senders c)
  | Ephemeral => mkChannels (reliable_q c) q (receivers c) (senders c)
  end.

(** [PeerWriter::send_frame]: [try_send] on the lane of the type. *)
Definition send_frame (t : NotebookFrameType) (payload : bytes) (c : Channels)
    : Channels * result SendError () :=
  let lane := classify t in
  if negb (receivers c) then (c, Err (WriterStopped t lane))
  else if decide (PEER_OUTBOUND_QUEUE_CAPACITY <= length (lane_q lane c))%nat then (c, Err (QueueFull t lane))
  else (set_lane lane (lane_q lane c ++ [mkOut lane t payload]) c, Ok ()).

Definition reliable_capacity (c : Channels) : nat := (PEER_OUTBOUND_QUEUE_CAPACITY - length (reliable_q c))%nat.

(** ** The writer task *)

(** Where the task is: at the first [try_recv], at a branch of the biased [select!],
    writing a frame, or over. *)
Inductive task_pc := TTry | TSelReliable | TSelEphemeral | TWrite (f : OutboundFrame) | TDone | TFailed.

Record WriterTask := mkTask {
  pc : task_pc; reliable_open : bool; ephemeral_open : bool; sink : Writer;
}.

Definition goto (p : task_pc) (t : WriterTask) : WriterTask :=
  mkTask p (reliable_open t) (ephemeral_open t) (sink t).

(** The task returns: its receivers are dropped with what they hold. *)
Definition drop_receivers (c : Channels) : Channels := mkChannels [] [] false (senders c).

(** After [try_recv] found nothing: [None] when both lanes are closed. *)
Definition after_try (c : Channels) (t : WriterTask) : Channels * WriterTask :=
  if negb (reliable_open t) && negb (ephemeral_open t) then (drop_receivers c, goto TDone t)
  else (c, goto TSelReliable t).

Definition task_step (c : Channels) (t : WriterTask) : Channels * WriterTask :=
  match pc t with
  | TTry =>
      if reliable_open t then
        match reliable_q c with
        | f :: q => (set_lane Reliable q c, goto (TWrite f) t)
        | [] => if senders c then after_try c t
                else after_try c (mkTask (pc t) false (ephemeral_open t) (sink t))
        end
      else after_try c t
  | TSelReliable =>
      if reliable_open t then
        match reliable_q c with
        | f :: q => (set_lane Reliable q c, goto (TWrite f) t)
        | [] => if senders c then (c, goto TSelEphemeral t)
                else (c, mkTask TTry false (ephemeral_open t) (sink t))
        end
      else (c, goto TSelEphemeral t)
  | TSelEphemeral =>
      if ephemeral_open t then
        match ephemeral_q c with
        | f :: q => (set_lane Ephemeral q c, goto (TWrite f) t)
        | [] => if senders c then (c, goto TSelReliable t)
                else (c, mkTask TTry (reliable_open t) false (sink t))
        end
      else (c, goto TSelReliable t)
  | TWrite f =>
      match send_typed_frame (of_type f) (of_payload f) (sink t) with
      | (w, Ok _) => (c, mkTask TTry (reliable_open t) (ephemeral_open t) w)
      | (w, Err _) => (drop_receivers c, mkTask TFailed (reliable_open t) (ephemeral_open t) w)
      end
  | TDone | TFailed => (c, t)
  end.

(** [spawn_peer_writer]. *)
Definition spawn_channels : Channels := mkChannels [] [] true true.
Definition spawn_task (w : Writer) : WriterTask := mkTask TTry true true w.

(** ** Schedules *)

(** The system with the frames accepted and the frames written, for the theorems. *)
Record Sys := mkSys {
  channels : Channels; task : WriterTask; accepted : list OutboundFrame; sent : list OutboundFrame;
}.

(** [AAbort k]: the task handle is dropped; a frame being written is cut at [k] bytes. *)
Inductive action := ASend (t : NotebookFrameType) (payload : bytes) | ATask | ADropSenders | AAbort (k : nat).

Definition finished (p : task_pc) : bool := match p with TDone | TFailed => true | _ => false end.

Definition step (s : Sys) (a : action) : Sys :=
  match a with
  | ASend t payload =>
      if senders (channels s) then
        match send_frame t payload (channels s) with
        | (c, Ok _) => mkSys c (task s) (accepted s ++ [mkOut (classify t) t payload]) (sent s)
        | (c, Err _) => mkSys c (task s) (accepted s) (sent s)
        end
      else s
  | ATask =>
      let '(c, t) := task_step (channels s) (task s) in
      mkSys c t (accepted s)
        (match pc (task s), pc t with TWrite f, TTry => sent s ++ [f] | _, _ => sent s end)
  | ADropSenders =>
      let c := channels s in
      mkSys (mkChannels (reliable_q c) (ephemeral_q c) (receivers c) false) (task s) (accepted s) (sent s)
  | AAbort k =>
      if finished (pc (task s)) then s
      else
        let w := sink (task s) in
        let cutting := match pc (task s) with
          | TWrite f => take k (frame_bytes (frame_type_byte (of_type f)) (of_payload f))
          | _ => []
          end in
        mkSys (drop_receivers (channels s))
          (mkTask TFailed (reliable_open (task s)) (ephemeral_open (task s))
            (mkWriter (written w ++ cutting) (Framing.room w) (flush_error w)))
          (accepted s) (sent s)
  end.

Definition spawned (w : Writer) : Sys := mkSys spawn_channels (spawn_task w) [] [].
Definition run (w : Writer) (acts : list action) : Sys := foldl step (spawned w) acts.

(** ** The invariant *)

Definition lane_of (l : PeerEgressLane) (fs : list OutboundFrame) : list OutboundFrame :=
  filter (fun f => of_lane f = l) fs.

(** The frame being written. *)
Definition in_flight (t : WriterTask) : list OutboundFrame := match pc t with TWrite f => [f] | _ => [] end.

Definition out (f : OutboundFrame) : byte * bytes := (frame_type_byte (of_type f), of_payload f).

(** What a lane has accepted and not yet written. *)
Definition backlog (l : PeerEgressLane) (s : Sys) : list OutboundFrame :=
  lane_of l (in_flight (task s)) ++ lane_q l (channels s).

Record writer_inv (w0 : Writer) (s : Sys) : Prop := {
  inv_lane l : Forall (fun f => of_lane f = l) (lane_q l (channels s));
  inv_bound l : (length (lane_q l (channels s)) <= PEER_OUTBOUND_QUEUE_CAPACITY)%nat;
  inv_receivers : receivers (channels s) = negb (finished (pc (task s)));
  inv_reliable : reliable_open (task s) = false -> senders (channels s) = false /\ reliable_q (channels s) = [];
  inv_ephemeral : ephemeral_open (task s) = false -> senders (channels s) = false /\ ephemeral_q (channels s) = [];
  inv_order l : exists rest, lane_of l (accepted s) = lane_of l (sent s) ++ rest /\
    (pc (task s) <> TFailed -> rest = backlog l s);
  inv_wire : exists torn, written (sink (task s)) = written w0 ++ wire (out <$> sent s) ++ torn /\
    (pc (task s) <> TFailed -> torn = []);
  inv_sendable : Forall (fun f => sendable (out f)) (sent s);
  inv_done : pc (task s) = TDone -> reliable_open (task s) = false /\ ephemeral_open (task s) = false;
}.

Lemma lane_of_all l q : Forall (fun f => of_lane f = l) q -> lane_of l q = q.
Proof. unfold lane_of. induction 1 as [|f q Hf _ IH]; [done|]. by rewrite filter_cons_True, IH. Qed.

Lemma lane_of_app l p q : lane_of l (p ++ q) = lane_of l p ++ lane_of l q.
Proof. apply filter_app. Qed.

(** A write adds bytes to the socket, also when it fails. *)
Lemma write_all_extends bs w : exists extra, written (write_all bs w).1 = written w ++ extra.
Proof.
  unfold write_all. destruct (Framing.room w); [case_decide|]; simpl; eauto.
Qed.

Lemma send_typed_extends t body w : exists extra, written (send_typed_frame t body w).1 = written w ++ extra.
Proof.
  unfold send_typed_frame, send_raw_typed_frame, Framing.send_frame.
  assert (Hnil : exists extra, written w = written w ++ extra) by (exists []; by rewrite app_nil_r).
  repeat case_decide; try exact Hnil. set (n := to_be_bytes 4 _).
  destruct (write_all_extends n w) as [e1 H1]. destruct (write_all n w) as [w1 [?|?]]; simpl in H1; [|by eexists].
  destruct (write_all_extends (frame_type_byte t :: body) w1) as [e2 H2].
  destruct (write_all _ w1) as [w2 [?|?]]; simpl in H2; exists (e1 ++ e2);
    rewrite (assoc_L (++)), <-H1, <-H2; [|done].
  unfold flush. by destruct (flush_error w2).
Qed.

Lemma wire_app fs gs : wire (fs ++ gs) = wire fs ++ wire gs.
Proof. unfold wire. by rewrite fmap_app, join_app. Qed.

Lemma inv_spawned w : writer_inv w (spawned w).
Proof.
  split; try done.
  - by intros [].
  - intros []; simpl; lia.
  - intros l. exists []. split; [done|]. by destruct l.
  - exists []. split; [|done]. simpl. by rewrite !app_nil_r.
Qed.

(** Program counters between frames. *)
Definition idle (p : task_pc) : bool := match p with TTry | TSelReliable | TSelEphemeral => true | _ => false end.

Lemma idle_props p : idle p = true -> finished p = false /\ p <> TFailed /\ p <> TDone /\
  forall r e w, in_flight (mkTask p r e w) = [].
Proof. by destruct p. Qed.

(** A move between polls, closing lanes that are drained and have no sender. *)
Lemma inv_move w0 s p r e :
  writer_inv w0 s -> idle (pc (task s)) = true -> idle p = true ->
  (r = false -> senders (channels s) = false /\ reliable_q (channels s) = []) ->
  (e = false -> senders (channels s) = false /\ ephemeral_q (channels s) = []) ->
  writer_inv w0 (mkSys (channels s) (mkTask p r e (sink (task s))) (accepted s) (sent s)).
Proof.
  intros Hinv Hp Hp' Hr He. destruct Hinv as [I1 I2 I3 I4 I5 I6 I7 I8 I9].
  destruct (idle_props _ Hp) as (F & NF & ND & Hfl), (idle_props _ Hp') as (F' & NF' & ND' & Hfl').
  split; cbn [channels task accepted sent pc reliable_open ephemeral_open sink]; try done.
  - by rewrite I3, F, F'.
  - intros l. destruct (I6 l) as (rest & E & H). exists rest. split; [done|]. intros _. rewrite (H NF).
    unfold backlog. cbn [task channels]. rewrite Hfl'. f_equal. f_equal. unfold in_flight.
    by destruct (pc (task s)).
  - destruct I7 as (torn & E & H). exists torn. split; [done|]. intros _. by apply H.
Qed.

(** Taking the head of a lane. *)
Lemma inv_pop w0 s l f q :
  writer_inv w0 s -> idle (pc (task s)) = true -> lane_q l (channels s) = f :: q ->
  writer_inv w0 (mkSys (set_lane l q (channels s)) (goto (TWrite f) (task s)) (accepted s) (sent s)).
Proof.
  intros Hinv Hp Hq. destruct Hinv as [I1 I2 I3 I4 I5 I6 I7 I8 I9].
  destruct (idle_props _ Hp) as (F & NF & ND & _).
  pose proof (I1 l) as Hl. rewrite Hq in Hl. apply Forall_cons in Hl as [Hf Hl].
  pose proof (I2 l) as Hb. rewrite Hq in Hb. simpl in Hb.
  assert (Hset : forall l', lane_q l' (set_lane l q (channels s)) = if decide (l' = l) then q else lane_q l' (channels s)).
  { intros l'. destruct l, l'; by case_decide. }
  split; cbn [channels task accepted sent pc goto reliable_open ephemeral_open sink]; try done.
  - intros l'. rewrite Hset. by case_decide; subst.
  - intros l'. rewrite Hset. case_decide; [lia|done].
  - transitivity (receivers (channels s)); [by destruct l|]. by rewrite I3, F.
  - intros Hr. destruct (I4 Hr) as [? ?]. destruct l; [simpl in Hq; congruence|done].
  - intros He. destruct (I5 He) as [? ?]. destruct l; [done|simpl in Hq; congruence].
  - intros l'. destruct (I6 l') as (rest & E & H). exists rest. split; [done|]. intros _. rewrite (H NF).
    unfold backlog. cbn [task channels]. rewrite Hset.
    assert (in_flight (task s) = []) as -> by (unfold in_flight; by destruct (pc (task s))).
    unfold in_flight, goto. cbn [pc]. unfold lane_of. case_decide as Hd.
    + subst l'. rewrite Hq, filter_singleton_True by done. done.
    + rewrite filter_singleton_False by congruence. done.
  - destruct I7 as (torn & E & H). exists torn. split; [done|]. intros _. by apply H.
Qed.

(** The task stops: what it had is dropped, and the socket keeps a prefix. *)
Lemma inv_stop w0 s w extra :
  writer_inv w0 s -> written w = written (sink (task s)) ++ extra ->
  writer_inv w0 (mkSys (drop_receivers (channels s))
    (mkTask TFailed (reliable_open (task s)) (ephemeral_open (task s)) w) (accepted s) (sent s)).
Proof.
  intros Hinv Hw. destruct Hinv as [I1 I2 I3 I4 I5 I6 I7 I8 I9].
  split; cbn [channels task accepted sent pc reliable_open ephemeral_open sink]; try done.
  - by intros [].
  - intros []; simpl; lia.
  - intros Hr. by destruct (I4 Hr).
  - intros He. by destruct (I5 He).
  - intros l. destruct (I6 l) as (rest & E & _). by exists rest.
  - destruct I7 as (torn & E & _). exists (torn ++ extra). split; [|done]. by rewrite Hw, E, <-!(assoc_L (++)).
Qed.

(** Both lanes closed: the task ends with everything written. *)
Lemma inv_end w0 s r e :
  writer_inv w0 s -> idle (pc (task s)) = true -> r = false -> e = false ->
  (r = false -> senders (channels s) = false /\ reliable_q (channels s) = []) ->
  (e = false -> senders (channels s) = false /\ ephemeral_q (channels s) = []) ->
  writer_inv w0 (mkSys (drop_receivers (channels s)) (mkTask TDone r e (sink (task s))) (accepted s) (sent s)).
Proof.
  intros Hinv Hp -> -> Hr He. destruct Hinv as [I1 I2 I3 I4 I5 I6 I7 I8 I9].
  destruct (Hr eq_refl) as [Hs Hrq], (He eq_refl) as [_ Heq]. destruct (idle_props _ Hp) as (F & NF & ND & _).
  split; cbn [channels task accepted sent pc reliable_open ephemeral_open sink]; try done.
  - by intros [].
  - intros []; simpl; lia.
  - intros l. destruct (I6 l) as (rest & E & H). exists rest. split; [done|]. intros _. rewrite (H NF).
    unfold backlog. assert (in_flight (task s) = []) as -> by (unfold in_flight; by destruct (pc (task s))).
    cbn. destruct l; simpl; [by rewrite Hrq|by rewrite Heq].
  - destruct I7 as (torn & E & H). exists torn. split; [done|]. intros _. by apply H.
Qed.

(** A frame written. *)
Lemma inv_written w0 s f w :
  writer_inv w0 s -> pc (task s) = TWrite f ->
  send_typed_frame (of_type f) (of_payload f) (sink (task s)) = (w, Ok ()) ->
  writer_inv w0 (mkSys (channels s) (mkTask TTry (reliable_open (task s)) (ephemeral_open (task s)) w)
    (accepted s) (sent s ++ [f])).
Proof.
  intros Hinv Hp Hw. destruct Hinv as [I1 I2 I3 I4 I5 I6 I7 I8 I9].
  apply send_raw_typed_frame_Ok in Hw as [Hok Hw]. assert (pc (task s) <> TFailed) as NF by congruence.
  split; cbn [channels task accepted sent pc reliable_open ephemeral_open sink]; try done.
  - by rewrite I3, Hp.
  - intros l. destruct (I6 l) as (rest & E & H). exists (lane_q l (channels s)). split.
    + rewrite E, (H NF). unfold backlog, in_flight. rewrite Hp, lane_of_app. by rewrite (assoc_L (++)).
    + intros _. done.
  - destruct I7 as (torn & E & H). exists []. split; [|done]. rewrite Hw, E, (H NF), fmap_app, wire_app.
    cbn [fmap list_fmap]. unfold wire at 3. cbn. by rewrite !app_nil_r, <-(assoc_L (++)).
  - apply Forall_app. split; [done|]. constructor; [exact Hok|constructor].
Qed.

Lemma inv_after_try w0 s r e :
  writer_inv w0 s -> idle (pc (task s)) = true ->
  (r = false -> senders (channels s) = false /\ reliable_q (channels s) = []) ->
  (e = false -> senders (channels s) = false /\ ephemeral_q (channels s) = []) ->
  let '(c, t) := after_try (channels s) (mkTask (pc (task s)) r e (sink (task s))) in
  writer_inv w0 (mkSys c t (accepted s) (sent s)).
Proof.
  intros Hinv Hp Hr He. unfold after_try. cbn [reliable_open ephemeral_open].
  destruct (negb r && negb e) eqn:E.
  - apply andb_true_iff in E as [Er%negb_true_iff Ee%negb_true_iff]. by apply inv_end.
  - by apply inv_move.
Qed.

Lemma inv_task w0 s : writer_inv w0 s -> writer_inv w0 (step s ATask).
Proof.
  intros Hinv. pose proof (inv_reliable _ _ Hinv) as I4. pose proof (inv_ephemeral _ _ Hinv) as I5.
  cbn [step]. unfold task_step. destruct (task s) as [p r e w] eqn:Ht. cbn [pc reliable_open ephemeral_open sink goto] in *.
  assert (Es : s = mkSys (channels s) (mkTask p r e w) (accepted s) (sent s)) by (rewrite <-Ht; by destruct s).
  assert (Hmove : forall p' r' e', idle p = true -> idle p' = true ->
    (r' = false -> senders (channels s) = false /\ reliable_q (channels s) = []) ->
    (e' = false -> senders (channels s) = false /\ ephemeral_q (channels s) = []) ->
    writer_inv w0 (mkSys (channels s) (mkTask p' r' e' w) (accepted s) (sent s))).
  { intros p' r' e' H1 H2 H3 H4. pose proof (inv_move w0 s p' r' e' Hinv) as H. rewrite Ht in H. by apply H. }
  assert (Hpop : forall l f q, idle p = true -> lane_q l (channels s) = f :: q ->
    writer_inv w0 (mkSys (set_lane l q (channels s)) (mkTask (TWrite f) r e w) (accepted s) (sent s))).
  { intros l f q H1 H2. pose proof (inv_pop w0 s l f q Hinv) as H. rewrite Ht in H. by apply H. }
  assert (Htry : forall r', idle p = true ->
    (r' = false -> senders (channels s) = false /\ reliable_q (channels s) = []) ->
    let '(c, t) := after_try (channels s) (mkTask p r' e w) in writer_inv w0 (mkSys c t (accepted s) (sent s))).
  { intros r' H1 H2. pose proof (inv_after_try w0 s r' e Hinv) as H. rewrite Ht in H. by apply H. }
  destruct p as [| | |f| |].
  - destruct r.
    + destruct (reliable_q (channels s)) as [|f q] eqn:Hq; [|by apply Hpop].
      destruct (senders (channels s)) eqn:Hs.
      * specialize (Htry true eq_refl). destruct (after_try _ _) as [c t]. by apply Htry.
      * specialize (Htry false eq_refl). destruct (after_try _ _) as [c t]. by apply Htry.
    + specialize (Htry false eq_refl). destruct (after_try _ _) as [c t]. by apply Htry.
  - destruct r; [|by apply Hmove].
    destruct (reliable_q (channels s)) as [|f q] eqn:Hq; [|by apply Hpop].
    destruct (senders (channels s)) eqn:Hs; by apply Hmove.
  - destruct e; [|by apply Hmove].
    destruct (ephemeral_q (channels s)) as [|f q] eqn:Hq; [|by apply Hpop].
    destruct (senders (channels s)) eqn:Hs; by apply Hmove.
  - destruct (send_typed_frame (of_type f) (of_payload f) w) as [w' [[]|err]] eqn:Hw.
    + pose proof (inv_written w0 s f w' Hinv) as H. rewrite Ht in H. by apply H.
    + destruct (send_typed_extends (of_type f) (of_payload f) w) as [extra Hex]. rewrite Hw in Hex.
      pose proof (inv_stop w0 s w' extra Hinv) as H. rewrite Ht in H. by apply H.
  - by rewrite Es in Hinv.
  - by rewrite Es in Hinv.
Qed.

Lemma inv_send w0 s t payload : writer_inv w0 s -> writer_inv w0 (step s (ASend t payload)).
Proof.
  intros Hinv. cbn [step]. destruct (senders (channels s)) eqn:Hs; [|done]. unfold send_frame.
  assert (Es : mkSys (channels s) (task s) (accepted s) (sent s) = s) by by destruct s.
  destruct (receivers (channels s)) eqn:Hr; cbn [negb]; [|by rewrite Es].
  case_decide as Hfull; [by rewrite Es|]. destruct Hinv as [I1 I2 I3 I4 I5 I6 I7 I8 I9].
  set (lane := classify t) in *. set (f := mkOut lane t payload).
  assert (Hset : forall l, lane_q l (set_lane lane (lane_q lane (channels s) ++ [f]) (channels s)) =
    lane_q l (channels s) ++ lane_of l [f]).
  { intros l. unfold lane_of, f. destruct lane, l; simpl; rewrite ?app_nil_r; done. }
  split; cbn [channels task accepted sent]; try done.
  - intros l. rewrite Hset. apply Forall_app. split; [done|]. apply Forall_forall.
    by intros x [Hx _]%list_elem_of_filter.
  - intros l. rewrite Hset, length_app. pose proof (I2 l). unfold lane_of.
    rewrite (filter_singleton _ _ []). case_decide as Hl; simpl; [|lia]. unfold f in Hl. simpl in Hl. subst l. lia.
  - by destruct lane.
  - intros H. destruct (I4 H). congruence.
  - intros H. destruct (I5 H). congruence.
  - intros l. destruct (I6 l) as (rest & E & H). exists (rest ++ lane_of l [f]). split.
    + rewrite lane_of_app, E. by rewrite (assoc_L (++)).
    + intros NF. rewrite (H NF). unfold backlog. cbn [task channels]. by rewrite Hset, (assoc_L (++)).
Qed.

Lemma inv_step w0 s a : writer_inv w0 s -> writer_inv w0 (step s a).
Proof.
  intros Hinv. destruct a as [t payload| | |k].
  - by apply inv_send.
  - by apply inv_task.
  - destruct Hinv as [I1 I2 I3 I4 I5 I6 I7 I8 I9]. split; cbn [step channels task accepted sent]; try done.
    + intros H. by destruct (I4 H).
    + intros H. by destruct (I5 H).
  - cbn [step]. destruct (finished (pc (task s))); [done|]. eapply inv_stop; [done|]. done.
Qed.

Lemma inv_run w acts : writer_inv w (run w acts).
Proof.
  unfold run. pose proof (inv_spawned w) as H. revert H. generalize (spawned w).
  induction acts as [|a acts IH]; intros s H; [done|]. apply IH. by apply inv_step.
Qed.

(** ** Claims *)

(** C18. the writer loses nothing.  Under every interleaving of sends on both lanes, polls
    of the task, failing or cut writes and the end of the senders, what each lane has
    accepted is what the peer was sent of it, in the same order, followed by the frame
    in flight and the queue; after a failed or aborted write it is at least a prefix,
    and when the task ends because the senders are gone nothing is left.  The peer
    reads exactly the frames sent, in order, before anything else; and no lane ever
    holds more than its capacity. *)
Theorem peer_writer_lossless limit fe acts e :
  let s := run (mkWriter [] limit fe) acts in
  (forall l, exists rest, lane_of l (accepted s) = lane_of l (sent s) ++ rest /\
    (pc (task s) <> TFailed -> rest = backlog l s) /\ (pc (task s) = TDone -> rest = [])) /\
  (exists more, stream_items (mkReader (written (sink (task s))) e) =
    ((fun f => Ok (mkFrame (of_type f) (of_payload f))) <$> sent s) ++ more) /\
  (forall l, (length (lane_q l (channels s)) <= PEER_OUTBOUND_QUEUE_CAPACITY)%nat).
Proof.
  intros s. destruct (inv_run (mkWriter [] limit fe) acts) as [I1 I2 I3 I4 I5 I6 I7 I8 I9]. fold s in I1, I2, I3, I4, I5, I6, I7, I8, I9.
  split_and!; [| |done].
  - intros l. destruct (I6 l) as (rest & E & H). exists rest. split_and!; [done..|].
    intros Hd. rewrite H by congruence. destruct (I9 Hd) as [Hr He]. unfold backlog, in_flight. rewrite Hd.
    destruct l; simpl; [by apply I4|by apply I5].
  - destruct I7 as (torn & E & _). rewrite E. cbn [written app].
    rewrite stream_items_wire by (by apply Forall_fmap). eexists. f_equal.
    clear -I8. induction I8 as [|f fs Hf _ IH]; [done|]. rewrite !fmap_cons. cbn [omap list_omap].
    unfold received at 1. unfold out at 1 2. cbn [fst snd]. rewrite frame_type_round. simpl. by f_equal.
Qed.

(** Ephemeral frames taken from their queue so far. *)
Definition ephemeral_taken (s : Sys) : nat := length (lane_of Ephemeral (sent s ++ in_flight (task s))).

(** One more may be taken when the task has already seen the reliable lane empty. *)
Definition may_overtake (s : Sys) : nat := match pc (task s) with TSelEphemeral => 1%nat | _ => 0%nat end.

Lemma overtake_step w0 s a :
  writer_inv w0 s -> reliable_q (channels s) <> [] ->
  (ephemeral_taken (step s a) + may_overtake (step s a) <= ephemeral_taken s + may_overtake s)%nat.
Proof.
  intros Hinv Hq. pose proof (inv_reliable _ _ Hinv) as I4. pose proof (inv_lane _ _ Hinv Reliable) as I1.
  assert (Ho : reliable_open (task s) = true) by (destruct (reliable_open (task s)); [done|]; by destruct I4).
  destruct (reliable_q (channels s)) as [|f q] eqn:Eq; [done|]. simpl in I1. rewrite Eq in I1.
  apply Forall_cons in I1 as [Hf _]. unfold ephemeral_taken, may_overtake.
  destruct a as [t payload| | |k]; cbn [step].
  - destruct (senders (channels s)); [|done]. by destruct (send_frame t payload (channels s)) as [c [?|?]].
  - unfold task_step. destruct (task s) as [p r e w] eqn:Et.
    cbn [pc reliable_open ephemeral_open sink goto] in *. subst r. rewrite Eq.
    assert (Hpop : length (lane_of Ephemeral (sent s ++ [f])) = length (lane_of Ephemeral (sent s))).
    { rewrite lane_of_app. unfold lane_of at 2. rewrite filter_singleton_False by congruence. by rewrite app_nil_r. }
    unfold in_flight. destruct p as [| | |g| |]; cbn [pc task sent goto]; rewrite ?app_nil_r.
    + rewrite Hpop. lia.
    + rewrite Hpop. lia.
    + destruct e; [|cbn [pc task sent goto]; rewrite app_nil_r; lia].
      destruct (ephemeral_q (channels s)) as [|g q'].
      { destruct (senders (channels s)); cbn [pc task sent goto]; rewrite app_nil_r; lia. }
      assert (length (lane_of Ephemeral [g]) <= 1)%nat by apply (length_filter _ [g]).
      cbn [pc task sent goto]. rewrite lane_of_app, length_app. lia.
    + destruct (send_typed_frame (of_type g) (of_payload g) w) as [w' [?|?]]; cbn [pc task sent goto];
        rewrite app_nil_r; [lia|]. rewrite lane_of_app, length_app. lia.
    + lia.
    + lia.
  - done.
  - destruct (finished (pc (task s))); [done|]. cbn [pc task sent in_flight].
    rewrite app_nil_r, lane_of_app, length_app. lia.
Qed.

(** Reliable frames come first.  From any reachable state, as long as a reliable frame
    is waiting the task takes at most one more ephemeral frame, the one it was already
    about to take, however sends and polls interleave. *)
Theorem reliable_overtaken_once w before acts :
  let s := run w before in
  (forall n, (n < length acts)%nat -> reliable_q (channels (foldl step s (take n acts))) <> []) ->
  (ephemeral_taken (foldl step s acts) <= ephemeral_taken s + 1)%nat.
Proof.
  intros s Hq.
  assert (H : (ephemeral_taken (foldl step s acts) + may_overtake (foldl step s acts) <=
    ephemeral_taken s + may_overtake s)%nat).
  { assert (Hinv : writer_inv w s) by apply inv_run. clearbody s. revert s Hq Hinv.
    induction acts as [|a acts IH]; intros s Hq Hinv; [done|]. simpl.
    pose proof (overtake_step w s a Hinv (Hq 0%nat ltac:(simpl; lia))) as H1.
    assert (H2 : forall n, (n < length acts)%nat ->
      reliable_q (channels (foldl step (step s a) (take n acts))) <> []).
    { intros n Hn. apply (Hq (S n)). simpl. lia. }
    specialize (IH (step s a) H2 (inv_step _ _ _ Hinv)). lia. }
  unfold may_overtake in H. destruct (pc (task s)); lia.
Qed.

(** ** Requests *)

(** [NotebookRequest], by its variant. *)
Inductive NotebookRequest :=
| ListCondaEnvironments | ListInstalledCondaPackages | GetEnvironmentSelection | SetEnvironmentSelection
| ApplyEnvironmentSelection | LaunchKernel | ExecuteCell | ExecuteCellGuarded | InterruptExecution
| ShutdownKernel | RunAllCells | RunAllCellsGuarded | SendComm | ApplyBokehSessionPatch
| GetBokehSessionData | GetHistory | Complete | SaveNotebook | ReconcileNotebookSource
| CloneAsEphemeral | SyncEnvironment | ApproveTrust | ApproveProjectEnvironment | ApproveProjectTrust
| DeclineProjectTrust | GetDocBytes | AcknowledgeNotebookSync | CreateBlobUpload | CompleteBlobUpload
| AbortBlobUpload.

#[export] Instance NotebookRequest_eq_dec : EqDecision NotebookRequest.
Proof. solve_decision. Defined.

Inductive RequestRequiredScope := NeedNotebookWrite | NeedBlobUpload | NeedOwner.

Definition request_required_scope (r : NotebookRequest) : RequestRequiredScope :=
  match r with
  | LaunchKernel | ListCondaEnvironments | ListInstalledCondaPackages | GetEnvironmentSelection
  | SetEnvironmentSelection | ApplyEnvironmentSelection | ExecuteCell | ExecuteCellGuarded | GetHistory
  | Complete | InterruptExecution | ShutdownKernel | RunAllCells | RunAllCellsGuarded | SaveNotebook
  | ReconcileNotebookSource | SyncEnvironment | ApproveTrust | ApproveProjectEnvironment
  | ApproveProjectTrust | DeclineProjectTrust => NeedOwner
  | SendComm | ApplyBokehSessionPatch | GetBokehSessionData | CloneAsEphemeral | AcknowledgeNotebookSync
  | GetDocBytes => NeedNotebookWrite
  | CreateBlobUpload | CompleteBlobUpload | AbortBlobUpload => NeedBlobUpload
  end.

Definition request_allowed_for_scope (r : NotebookRequest) (scope : ConnectionScope) : bool :=
  bool_decide (r ∈ [GetDocBytes; AcknowledgeNotebookSync; GetBokehSessionData]) ||
  match request_required_scope r with
  | NeedNotebookWrite => allows_notebook_write scope
  | NeedBlobUpload => allows_local_blob_upload scope
  | NeedOwner => match scope with Owner => true | _ => false end
  end.

(** [NotebookRequestEnvelope]. *)
Record Envelope := mkEnvelope { env_id : option string; env_request : NotebookRequest; required_heads : list string }.

(** [NotebookResponse]: the two that the worker makes itself, and those of the handlers. *)
Inductive NotebookResponse :=
| RespError (error : string)
| NotebookSyncAcknowledged (heads : list string)
| HandlerResponse (what : string).

(** *** Waiting for heads *)

Section Heads.
Context {head : Type}.
Variable parse_head : string -> option head.

Fixpoint parse_required_heads (l : list string) : option (list head) :=
  match l with
  | [] => Some []
  | h :: l => x ← parse_head h; xs ← parse_required_heads l; Some (x :: xs)
  end.

(** How the wait ends when the heads never show up. *)
Inductive wait_end := WaitTimedOut | WaitClosed.

(** The document as each turn of the loop finds it, by the changes it holds. *)
Definition wait_for_required_heads (required : list string) (turns : list (head -> bool)) (e : wait_end)
    : result string () :=
  match required with
  | [] => Ok ()
  | _ =>
      match parse_required_heads required with
      | None => Err "Request contained an invalid required notebook head"
      | Some heads =>
          if existsb (fun doc => forallb doc heads) turns then Ok ()
          else Err (match e with
            | WaitTimedOut => "Timed out waiting for required notebook heads"
            | WaitClosed => "Required notebook heads could not be observed"
            end)
      end
  end.

(** The response of the worker to one request. *)
Definition respond (e : Envelope) (turns : list (head -> bool)) (ending : wait_end)
    (hosted requires_repair : bool) (handled : string) : NotebookResponse :=
  match wait_for_required_heads (required_heads e) turns ending with
  | Err error => RespError error
  | Ok _ =>
      if decide (env_request e = AcknowledgeNotebookSync) then
        if hosted then RespError "Notebook sync receipts are not supported for hosted bridge rooms"
        else if requires_repair then RespError "Notebook recovery storage requires repair; cannot acknowledge sync"
        else NotebookSyncAcknowledged (required_heads e)
      else HandlerResponse handled
  end.

Lemma parse_required_heads_Some l heads :
  parse_required_heads l = Some heads -> Forall2 (fun s h => parse_head s = Some h) l heads.
Proof.
  revert heads. induction l as [|s l IH]; simpl; intros heads Hp; [by simplify_eq|].
  destruct (parse_head s) as [h|] eqn:Eh; [|done]. simpl in Hp.
  destruct (parse_required_heads l) as [hs|]; [|done]. simplify_eq/=. constructor; [done|by apply IH].
Qed.

(** A sync receipt is true.  The worker acknowledges heads only for a request that
    asks for it, in a room of this daemon whose storage is sound, the heads are those
    of the request, and some turn of the wait found every one of them in the document;
    with no heads there is nothing to find. *)
Theorem receipt_is_honest e turns ending hosted requires_repair handled heads :
  respond e turns ending hosted requires_repair handled = NotebookSyncAcknowledged heads ->
  env_request e = AcknowledgeNotebookSync /\ hosted = false /\ requires_repair = false /\
  heads = required_heads e /\
  (heads <> [] -> exists doc hs, doc ∈ turns /\
    Forall2 (fun s h => parse_head s = Some h /\ doc h = true) heads hs).
Proof.
  unfold respond, wait_for_required_heads. destruct (required_heads e) as [|s l] eqn:Er.
  { case_decide; [|done]. destruct hosted, requires_repair; intros; by simplify_eq. }
  destruct (parse_required_heads (s :: l)) as [hs|] eqn:Ep; [|done].
  destruct (existsb _ turns) eqn:Ex; [|done]. case_decide; [|done].
  destruct hosted, requires_repair; intros; simplify_eq. split_and!; try done. intros _.
  apply existsb_exists in Ex as (doc & Hin%list_elem_of_In & Hall). exists doc, hs. split; [done|].
  apply parse_required_heads_Some in Ep. rewrite forallb_forall in Hall.
  assert (Hdoc : Forall (fun h => doc h = true) hs)
    by (apply Forall_forall; intros h Hh; by apply Hall, list_elem_of_In).
  clear -Ep Hdoc. induction Ep; [constructor|]. apply Forall_cons in Hdoc as [? ?]. constructor; auto.
Qed.
End Heads.

(** *** The worker *)

(** The request queue, the request the worker holds, whether it runs; and for the
    theorem the ids received, the requests queued and handled, the answers queued for
    the peer, and the ids whose answer could not be queued. *)
Record RequestSys := mkReq {
  rq : list Envelope; busy : option Envelope; alive : bool;
  received : list (option string); enqueued : list Envelope; handled : list Envelope;
  answered : list (option string * NotebookResponse); lost : list (option string);
}.

(** An answer to be queued: [queued] says whether the outbound lane took it. *)
Definition answer (id : option string) (r : NotebookResponse) (queued : bool) (s : RequestSys) : RequestSys :=
  if queued then mkReq (rq s) (busy s) (alive s) (received s) (enqueued s) (handled s) (answered s ++ [(id, r)]) (lost s)
  else mkReq (rq s) (busy s) (alive s) (received s) (enqueued s) (handled s) (answered s) (lost s ++ [id]).

(** [enqueue_notebook_request], of a payload that parsed. *)
Definition enqueue_notebook_request (e : Envelope) (scope : ConnectionScope) (queued : bool) (s : RequestSys)
    : RequestSys :=
  let s := mkReq (rq s) (busy s) (alive s) (received s ++ [env_id e]) (enqueued s) (handled s) (answered s) (lost s) in
  if negb (request_allowed_for_scope (env_request e) scope) then
    answer (env_id e) (RespError "not allowed for this connection") queued s
  else if negb (alive s) then answer (env_id e) (RespError "Peer request worker stopped") queued s
  else if decide (PEER_REQUEST_QUEUE_CAPACITY <= length (rq s))%nat then
    answer (env_id e) (RespError "Peer request queue full") queued s
  else mkReq (rq s ++ [e]) (busy s) (alive s) (received s) (enqueued s ++ [e]) (handled s) (answered s) (lost s).

(** [rx.recv()]. *)
Definition worker_take (s : RequestSys) : RequestSys :=
  match alive s, busy s, rq s with
  | true, None, e :: q => mkReq q (Some e) true (received s) (enqueued s) (handled s) (answered s) (lost s)
  | _, _, _ => s
  end.

(** The reply; when it cannot be queued the worker returns and drops what waits. *)
Definition worker_reply (r : NotebookResponse) (queued : bool) (s : RequestSys) : RequestSys :=
  match busy s with
  | None => s
  | Some e =>
      if queued then mkReq (rq s) None (alive s) (received s) (enqueued s) (handled s ++ [e])
        (answered s ++ [(env_id e, r)]) (lost s)
      else mkReq [] None false (received s) (enqueued s) (handled s) (answered s)
        (lost s ++ env_id e :: (env_id <$> rq s))
  end.

Inductive request_action :=
| RReceive (e : Envelope) (scope : ConnectionScope) (queued : bool)
| RTake
| RReply (r : NotebookResponse) (queued : bool).

Definition request_step (s : RequestSys) (a : request_action) : RequestSys :=
  match a with
  | RReceive e scope queued => enqueue_notebook_request e scope queued s
  | RTake => worker_take s
  | RReply r queued => worker_reply r queued s
  end.

Definition no_requests : RequestSys := mkReq [] None true [] [] [] [] [].

Record request_inv (s : RequestSys) : Prop := {
  rinv_ids : received s ≡ₚ (answered s).*1 ++ lost s ++ option_list (env_id <$> busy s) ++ (env_id <$> rq s);
  rinv_order : exists rest, enqueued s = handled s ++ rest /\
    (alive s = true -> rest = option_list (busy s) ++ rq s);
  rinv_bound : (length (rq s) <= PEER_REQUEST_QUEUE_CAPACITY)%nat;
  rinv_stopped : alive s = false -> rq s = [] /\ busy s = None;
}.

Lemma request_inv_answer id r queued s :
  request_inv s ->
  request_inv (answer id r queued (mkReq (rq s) (busy s) (alive s) (received s ++ [id]) (enqueued s) (handled s) (answered s) (lost s))).
Proof.
  intros [I1 I2 I3 I4]. unfold answer. cbn.
  destruct queued; split; cbn; try done; rewrite I1, ?fmap_app; cbn; solve_Permutation.
Qed.

Lemma request_inv_step s a : request_inv s -> request_inv (request_step s a).
Proof.
  intros Hinv. pose proof Hinv as [I1 I2 I3 I4]. destruct a as [e scope queued| |r queued]; cbn [request_step].
  - unfold enqueue_notebook_request. cbn zeta. cbn [rq busy alive received enqueued handled answered lost].
    destruct (request_allowed_for_scope _ _); cbn [negb]; [|by apply request_inv_answer].
    destruct (alive s) eqn:Ha; cbn [negb].
    + case_decide as Hfull; [rewrite <-Ha; by apply request_inv_answer|]. split; cbn.
      * rewrite I1, fmap_app. cbn. solve_Permutation.
      * destruct I2 as (rest & E & H). exists (rest ++ [e]). split; [by rewrite E, (assoc_L (++))|].
        intros _. by rewrite H, (assoc_L (++)).
      * rewrite length_app. simpl. lia.
      * done.
    + rewrite <-Ha. by apply request_inv_answer.
  - unfold worker_take. destruct (alive s) eqn:Ha; [|done]. destruct (busy s) eqn:Hb; [done|].
    destruct (rq s) as [|e q] eqn:Hq; [done|]. split; cbn in *.
    + done.
    + destruct I2 as (rest & E & H). exists rest. split; [done|]. intros _. by rewrite H.
    + lia.
    + done.
  - unfold worker_reply. destruct (busy s) as [e|] eqn:Hb; [|done]. destruct queued; split; cbn.
    + rewrite I1, fmap_app. cbn. solve_Permutation.
    + destruct I2 as (rest & E & H). destruct (alive s) eqn:Ha; [|by destruct (I4 eq_refl)].
      exists (rq s). split; [|done]. rewrite E, H by done. cbn. by rewrite <-(assoc_L (++)).
    + done.
    + intros Ha. by destruct (I4 Ha).
    + rewrite I1. cbn. rewrite app_nil_r. solve_Permutation.
    + destruct I2 as (rest & E & _). by exists rest.
    + lia.
    + done.
Qed.

(** C28. every request is answered once, in order.  Whatever requests arrive, with whatever
    scope, and however the worker is scheduled and its answers refused by the outbound
    lane, the ids received are, counted with repetition, those answered, those whose
    answer could not be queued (which ends the worker or the connection), the one being
    handled and those waiting; the worker handles the requests it queued in their
    order, and at most 64 wait.  (The end of the connection, which aborts the worker and
    drops what waits, is not a step.) *)
Theorem requests_answered_once acts :
  let s := foldl request_step no_requests acts in
  received s ≡ₚ (answered s).*1 ++ lost s ++ option_list (env_id <$> busy s) ++ (env_id <$> rq s) /\
  (exists rest, enqueued s = handled s ++ rest /\ (alive s = true -> rest = option_list (busy s) ++ rq s)) /\
  (length (rq s) <= PEER_REQUEST_QUEUE_CAPACITY)%nat.
Proof.
  assert (H : request_inv (foldl request_step no_requests acts)).
  { assert (H0 : request_inv no_requests) by (split; cbn; [done|by exists []|lia|done]). revert H0.
    generalize no_requests. induction acts as [|a acts IH]; intros s Hs; [done|]. apply IH.
    by apply request_inv_step. }
  by destruct H.
Qed.

Module PeerExamples.

(** A presence frame is about to be taken when a response arrives; it goes first, once. *)
Definition busy_writer : list action :=
  [ASend Presence [Byte.x01]; ASend Broadcast [Byte.x02]; ATask; ATask; ASend Response [Byte.x03]].

Definition frames_of (s : Sys) : list NotebookFrameType := of_type <$> sent s ++ in_flight (task s).

Example reliable_next :
  frames_of (foldl step (run (mkWriter [] None None) busy_writer) [ATask; ATask; ATask]) =
  [Presence; Response].
Proof. vm_compute. reflexivity. Qed.

Lemma reliable_overtaken_once_witness :
  (ephemeral_taken (foldl step (run (mkWriter [] None None) busy_writer) [ATask; ATask]) <=
   ephemeral_taken (run (mkWriter [] None None) busy_writer) + 1)%nat.
Proof.
  apply (reliable_overtaken_once (mkWriter [] None None) busy_writer [ATask; ATask]).
  intros n Hn. assert (n = 0 \/ n = 1)%nat as [-> | ->] by (simpl in Hn; lia); vm_compute; discriminate.
Defined.

(** A full lane refuses; the sender sees it. *)
Example full_lane_refuses :
  (send_frame Response [] (mkChannels (replicate 1024 (mkOut Reliable Response [])) [] true true)).2 =
  Err (QueueFull Response Reliable).
Proof. vm_compute. reflexivity. Qed.

Definition ack : Envelope := mkEnvelope (Some "r1") AcknowledgeNotebookSync ["aa"].

Lemma receipt_is_honest_witness :
  exists doc hs, doc ∈ [fun h => bool_decide (h = "bb"); fun h => bool_decide (h = "aa")] /\
    Forall2 (fun s h => Some s = Some h /\ doc h = true) ["aa"] hs.
Proof.
  apply (receipt_is_honest Some ack [fun h => bool_decide (h = "bb"); fun h => bool_decide (h = "aa")]
    WaitTimedOut false false "" ["aa"]); [vm_compute; reflexivity|discriminate].
Defined.

(** A viewer may ask for the document but not run a cell. *)
Example viewer_scope :
  request_allowed_for_scope GetDocBytes Viewer = true /\ request_allowed_for_scope ExecuteCell Viewer = false /\
  request_allowed_for_scope ExecuteCell Editor = false /\ request_allowed_for_scope CreateBlobUpload RuntimePeer = true.
Proof. vm_compute. done. Qed.

End PeerExamples.
