(* ===== verification/Presence.v ===== *)
(** * Presence of peers

    Model of [crates/notebook-doc/src/presence.rs]: what each peer of a notebook shows of
    itself (cursor, selection, focus, interaction, kernel state), its refresh, expiry and
    the snapshot for a late joiner.  ciborium's CBOR coding is an interface.  The
    theorems: the tables stay keyed by what they hold, a snapshot reproduces the state,
    and pruning removes exactly the peers not seen within the time to live. *)

From S2P Require Import Prelude.

(** ** Data *)

Inductive Channel := ChCursor | ChSelection | ChFocus | ChInteraction | ChKernelState | ChCustom.

#[export] Instance Channel_eq_dec : EqDecision Channel.
Proof. solve_decision. Defined.
Definition channel_num (c : Channel) : Z :=
  match c with
  | ChCursor => 0 | ChSelection => 1 | ChFocus => 2 | ChInteraction => 3 | ChKernelState => 4 | ChCustom => 5
  end.
Definition channel_of_num (n : Z) : option Channel :=
  if decide (n = 0) then Some ChCursor else if decide (n = 1) then Some ChSelection
  else if decide (n = 2) then Some ChFocus else if decide (n = 3) then Some ChInteraction
  else if decide (n = 4) then Some ChKernelState else if decide (n = 5) then Some ChCustom else None.
#[export] Instance Channel_countable : Countable Channel.
Proof. by refine (inj_countable channel_num channel_of_num _); intros []. Defined.

Record CursorPosition := mkCursor { cu_cell_id : string; line : Z; column : Z }.
Record SelectionRange := mkSelection {
  se_cell_id : string; anchor_line : Z; anchor_col : Z; head_line : Z; head_col : Z;
}.

Inductive InteractionTarget :=
| OnCell (cell_id : string)
| OnEditor (cell_id : string)
| OnMarkdownAnchor (cell_id anchor_id : string)
| OnOutput (cell_id : string) (output_id : option string).

Definition target_cell_id (t : InteractionTarget) : string :=
  match t with OnCell c | OnEditor c | OnMarkdownAnchor c _ | OnOutput c _ => c end.

Inductive KernelStatus := KsNotStarted | KsStarting | KsIdle | KsBusy | KsErrored | KsShutdown.

Definition from_status_str (s : string) : KernelStatus :=
  if decide (s = "starting") then KsStarting else if decide (s = "idle") then KsIdle
  else if decide (s = "busy") then KsBusy else if decide (s = "error") then KsErrored
  else if decide (s = "shutdown") then KsShutdown else KsNotStarted.

Definition kernel_status_str (s : KernelStatus) : string :=
  match s with
  | KsNotStarted => "not_started" | KsStarting => "starting" | KsIdle => "idle" | KsBusy => "busy"
  | KsErrored => "error" | KsShutdown => "shutdown"
  end.

Record KernelStateData := mkKernelData { kernel_status : KernelStatus; env_source : string }.

Inductive ChannelData :=
| DCursor (p : CursorPosition)
| DSelection (r : SelectionRange)
| DFocus (cell_id : string)
| DInteraction (t : InteractionTarget)
| DKernelState (k : KernelStateData)
| DCustom (data : bytes).

Definition channel (d : ChannelData) : Channel :=
  match d with
  | DCursor _ => ChCursor | DSelection _ => ChSelection | DFocus _ => ChFocus | DInteraction _ => ChInteraction
  | DKernelState _ => ChKernelState | DCustom _ => ChCustom
  end.

Record PeerSnapshot := mkPeerSnapshot {
  ps_peer_id : string; ps_peer_label : string; ps_actor_label : option string; ps_channels : list ChannelData;
}.

Inductive PresenceMessage :=
| MUpdate (peer_id : string) (peer_label actor_label : option string) (data : ChannelData)
| MSnapshot (peer_id : string) (peers : list PeerSnapshot)
| MLeft (peer_id : string)
| MHeartbeat (peer_id : string)
| MClearChannel (peer_id : string) (c : Channel).

Inductive PresenceError := EncodeError | DecodeError | FrameTooLarge (size max : Z).

Definition DEFAULT_HEARTBEAT_MS : Z := 15000.
Definition DEFAULT_PEER_TTL_MS : Z := 3 * DEFAULT_HEARTBEAT_MS.
Definition MAX_PRESENCE_FRAME_SIZE : Z := 4 * 1024.

Definition validate_frame_size (data : bytes) : result PresenceError () :=
  if decide (zlen data > MAX_PRESENCE_FRAME_SIZE) then Err (FrameTooLarge (zlen data) MAX_PRESENCE_FRAME_SIZE)
  else Ok ().

(** ** State *)

Record PeerPresence := mkPresence {
  pp_peer_id : string; pp_peer_label : string; pp_actor_label : option string;
  pp_channels : gmap Channel ChannelData; last_seen_ms : Z; last_active_ms : Z;
}.

Record PresenceState := mkPresenceState { peers : gmap string PeerPresence; last_heartbeat_ms : Z }.

Definition presence_new : PresenceState := mkPresenceState ∅ 0.

Definition set_peers (m : gmap string PeerPresence) (s : PresenceState) : PresenceState :=
  mkPresenceState m (last_heartbeat_ms s).

Definition update_peer (peer_id label : string) (actor : option string) (data : ChannelData) (now : Z)
    (s : PresenceState) : PresenceState * bool :=
  let is_new := bool_decide (peers s !! peer_id = None) in
  let entry := default (mkPresence peer_id label actor ∅ now now) (peers s !! peer_id) in
  let entry := mkPresence (pp_peer_id entry) label
    (match actor with Some a => Some a | None => pp_actor_label entry end)
    (<[channel data := data]> (pp_channels entry)) now now in
  (set_peers (<[peer_id := entry]> (peers s)) s, is_new).

Definition mark_seen (peer_id : string) (now : Z) (s : PresenceState) : PresenceState :=
  match peers s !! peer_id with
  | Some p => set_peers (<[peer_id := mkPresence (pp_peer_id p) (pp_peer_label p) (pp_actor_label p)
      (pp_channels p) now (last_active_ms p)]> (peers s)) s
  | None => s
  end.

Definition clear_channel (peer_id : string) (c : Channel) (s : PresenceState) : PresenceState * bool :=
  match peers s !! peer_id with
  | Some p =>
      (set_peers (<[peer_id := mkPresence (pp_peer_id p) (pp_peer_label p) (pp_actor_label p)
         (delete c (pp_channels p)) (last_seen_ms p) (last_active_ms p)]> (peers s)) s,
       bool_decide (is_Some (pp_channels p !! c)))
  | None => (s, false)
  end.

Definition remove_peer (peer_id : string) (s : PresenceState) : PresenceState * option PeerPresence :=
  (set_peers (delete peer_id (peers s)) s, peers s !! peer_id).

(** A [HashMap] is visited in no particular order: the order is a parameter, of which only
    that it visits every entry once is used. *)
Class HashOrder := {
  visit_peers : gmap string PeerPresence -> list (string * PeerPresence);
  visit_channels : gmap Channel ChannelData -> list ChannelData;
}.
Class HashOrderLaws `{HashOrder} := {
  visit_peers_all m : visit_peers m ≡ₚ map_to_list m;
  visit_channels_all m : visit_channels m ≡ₚ (map_to_list m).*2;
}.

Definition is_stale (now ttl : Z) (p : PeerPresence) : bool := ttl <? saturating_sub_u64 now (last_seen_ms p).

Definition prune_stale `{HashOrder} (now ttl : Z) (s : PresenceState) : PresenceState * list string :=
  foldl (fun (acc : PresenceState * list string) x =>
      if is_stale now ttl x.2 then (set_peers (delete x.1 (peers acc.1)) acc.1, acc.2 ++ [x.1]) else acc)
    (s, []) (visit_peers (peers s)).

Definition should_heartbeat (now interval : Z) (s : PresenceState) : bool :=
  interval <=? saturating_sub_u64 now (last_heartbeat_ms s).

Definition record_heartbeat (now : Z) (s : PresenceState) : PresenceState := mkPresenceState (peers s) now.

Definition peer_count (s : PresenceState) : nat := base.size (peers s).

Definition get_peer (peer_id : string) (s : PresenceState) : option PeerPresence := peers s !! peer_id.

(** The peers of a snapshot message. *)
Definition snapshot_peers `{HashOrder} (s : PresenceState) : list PeerSnapshot :=
  (fun x : string * PeerPresence => mkPeerSnapshot (pp_peer_id x.2) (pp_peer_label x.2) (pp_actor_label x.2)
    (visit_channels (pp_channels x.2))) <$> visit_peers (peers s).

Definition collect_channels (l : list ChannelData) : gmap Channel ChannelData :=
  foldl (fun m d => <[channel d := d]> m) ∅ l.

Definition apply_snapshot (l : list PeerSnapshot) (now : Z) (s : PresenceState) : PresenceState :=
  set_peers (foldl (fun m p => <[ps_peer_id p := mkPresence (ps_peer_id p) (ps_peer_label p) (ps_actor_label p)
    (collect_channels (ps_channels p)) now now]> m) (peers s) l) s.

Definition kernel_of (p : PeerPresence) : option KernelStateData :=
  match pp_channels p !! ChKernelState with Some (DKernelState k) => Some k | _ => None end.

(** The kernel state of the first peer visited that has one. *)
Definition kernel_state `{HashOrder} (s : PresenceState) : option KernelStateData :=
  head (omap (kernel_of ∘ snd) (visit_peers (peers s))).

Definition cursor_of (p : PeerPresence) : option CursorPosition :=
  match pp_channels p !! ChCursor with Some (DCursor c) => Some c | _ => None end.
Definition selection_of (p : PeerPresence) : option SelectionRange :=
  match pp_channels p !! ChSelection with Some (DSelection r) => Some r | _ => None end.

(** The peers but the excluded one, with what [f] finds of them. *)
Definition others {A} (exclude : string) (f : PeerPresence -> option A) (p : PeerPresence) : option (string * A) :=
  if decide (pp_peer_id p = exclude) then None else a ← f p; Some (pp_peer_id p, a).

Definition remote_cursors `{HashOrder} (exclude : string) (s : PresenceState) : list (string * CursorPosition) :=
  omap (others exclude cursor_of ∘ snd) (visit_peers (peers s)).
Definition remote_selections `{HashOrder} (exclude : string) (s : PresenceState) : list (string * SelectionRange) :=
  omap (others exclude selection_of ∘ snd) (visit_peers (peers s)).

(** ** Coding *)

Class Cbor := { to_cbor : PresenceMessage -> option bytes; from_cbor : bytes -> option PresenceMessage }.

(** What is encoded decodes to itself. *)
Class CborLaws `{Cbor} := { from_to_cbor m bs : to_cbor m = Some bs -> from_cbor bs = Some m }.

Definition encode_message `{Cbor} (m : PresenceMessage) : result PresenceError bytes :=
  match to_cbor m with Some bs => Ok bs | None => Err EncodeError end.

Definition decode_message `{Cbor} (bs : bytes) : result PresenceError PresenceMessage :=
  match from_cbor bs with Some m => Ok m | None => Err DecodeError end.

Definition encode_snapshot `{Cbor, HashOrder} (sender : string) (s : PresenceState) : result PresenceError bytes :=
  encode_message (MSnapshot sender (snapshot_peers s)).

(** The labelled update encoders; the unlabelled ones pass [None] for both labels. *)
Definition encode_cursor_update_labeled `{Cbor} (peer_id : string) (label actor : option string)
    (pos : CursorPosition) : result PresenceError bytes := encode_message (MUpdate peer_id label actor (DCursor pos)).
Definition encode_selection_update_labeled `{Cbor} (peer_id : string) (label actor : option string)
    (sel : SelectionRange) : result PresenceError bytes := encode_message (MUpdate peer_id label actor (DSelection sel)).
Definition encode_focus_update_labeled `{Cbor} (peer_id : string) (label actor : option string)
    (cell_id : string) : result PresenceError bytes := encode_message (MUpdate peer_id label actor (DFocus cell_id)).
Definition encode_interaction_update_labeled `{Cbor} (peer_id : string) (label actor : option string)
    (t : InteractionTarget) : result PresenceError bytes :=
  encode_message (MUpdate peer_id label actor (DInteraction t)).
Definition encode_kernel_state_update `{Cbor} (peer_id : string) (k : KernelStateData)
    : result PresenceError bytes := encode_message (MUpdate peer_id None None (DKernelState k)).
Definition encode_custom_update_labeled `{Cbor} (peer_id : string) (label actor : option string)
    (data : bytes) : result PresenceError bytes := encode_message (MUpdate peer_id label actor (DCustom data)).
Definition encode_clear_channel `{Cbor} (peer_id : string) (c : Channel) : result PresenceError bytes :=
  encode_message (MClearChannel peer_id c).
Definition encode_heartbeat `{Cbor} (peer_id : string) : result PresenceError bytes :=
  encode_message (MHeartbeat peer_id).
Definition encode_left `{Cbor} (peer_id : string) : result PresenceError bytes := encode_message (MLeft peer_id).


(** ** Histories *)

Inductive presence_op :=
| PUpdate (peer_id label : string) (actor : option string) (data : ChannelData) (now : Z)
| PSeen (peer_id : string) (now : Z)
| PClear (peer_id : string) (c : Channel)
| PRemove (peer_id : string)
| PPrune (now ttl : Z)
| PSnapshot (l : list PeerSnapshot) (now : Z)
| PBeat (now : Z).

Definition presence_step `{HashOrder} (s : PresenceState) (op : presence_op) : PresenceState :=
  match op with
  | PUpdate id label actor data now => (update_peer id label actor data now s).1
  | PSeen id now => mark_seen id now s
  | PClear id c => (clear_channel id c s).1
  | PRemove id => (remove_peer id s).1
  | PPrune now ttl => (prune_stale now ttl s).1
  | PSnapshot l now => apply_snapshot l now s
  | PBeat now => record_heartbeat now s
  end.

(** Channels under their own kind, peers under their own id. *)
Definition channels_ok (m : gmap Channel ChannelData) : Prop := map_Forall (fun c d => channel d = c) m.
Definition peer_ok (id : string) (p : PeerPresence) : Prop := pp_peer_id p = id /\ channels_ok (pp_channels p).
Definition presence_ok (s : PresenceState) : Prop := map_Forall peer_ok (peers s).

Lemma channels_ok_insert d m : channels_ok m -> channels_ok (<[channel d := d]> m).
Proof. intros H. by apply map_Forall_insert_2. Qed.

Lemma collect_channels_ok l : channels_ok (collect_channels l).
Proof.
  unfold collect_channels. generalize (map_Forall_empty (K := Channel) (fun c d => channel d = c)).
  generalize (∅ : gmap Channel ChannelData). induction l as [|d l IH]; intros m Hm; [done|].
  apply IH. by apply channels_ok_insert.
Qed.

(** *** Pruning *)

Definition stale_ids (now ttl : Z) (l : list (string * PeerPresence)) : list string :=
  (filter (fun x => is_stale now ttl x.2 = true) l).*1.

Lemma prune_fold now ttl l s acc :
  foldl (fun (acc : PresenceState * list string) x =>
      if is_stale now ttl x.2 then (set_peers (delete x.1 (peers acc.1)) acc.1, acc.2 ++ [x.1]) else acc)
    (s, acc) l =
  (set_peers (foldl (fun m id => delete id m) (peers s) (stale_ids now ttl l)) s, acc ++ stale_ids now ttl l).
Proof.
  revert s acc. induction l as [|[id p] l IH]; intros s acc; cbn [foldl].
  - cbn. rewrite app_nil_r. by destruct s.
  - unfold stale_ids. rewrite filter_cons. cbn [snd fst]. destruct (is_stale now ttl p) eqn:E.
    + rewrite decide_True by done. rewrite IH. cbn. by rewrite <-(assoc_L (++)).
    + rewrite decide_False by done. by rewrite IH.
Qed.

Lemma foldl_delete_lookup {A} (ids : list string) (m : gmap string A) id :
  foldl (fun m id => delete id m) m ids !! id = if decide (id ∈ ids) then None else m !! id.
Proof.
  revert m. induction ids as [|i ids IH]; intros m; [done|]. cbn [foldl]. rewrite IH.
  destruct (decide (id = i)) as [->|Hne].
  - rewrite lookup_delete_eq. rewrite (decide_True _ _ (list_elem_of_here i ids)). by case_decide.
  - rewrite lookup_delete_ne by done. repeat case_decide; set_solver.
Qed.

Lemma elem_of_stale_ids `{HashOrderLaws} now ttl m id :
  id ∈ stale_ids now ttl (visit_peers m) <-> exists p, m !! id = Some p /\ is_stale now ttl p = true.
Proof.
  unfold stale_ids. rewrite list_elem_of_fmap. setoid_rewrite list_elem_of_filter.
  setoid_rewrite (visit_peers_all m). split.
  - intros ([id' p] & -> & Hs & Hin%elem_of_map_to_list). eauto.
  - intros (p & Hm & Hs). exists (id, p). by rewrite elem_of_map_to_list.
Qed.

Lemma prune_stale_lookup `{HashOrderLaws} now ttl s id :
  peers (prune_stale now ttl s).1 !! id =
  match peers s !! id with Some p => if is_stale now ttl p then None else Some p | None => None end.
Proof.
  unfold prune_stale. rewrite prune_fold. cbn. rewrite foldl_delete_lookup. case_decide as Hin.
  - apply elem_of_stale_ids in Hin as (p & -> & ->). done.
  - destruct (peers s !! id) as [p|] eqn:E; [|done]. destruct (is_stale now ttl p) eqn:Es; [|done].
    destruct Hin. apply elem_of_stale_ids. eauto.
Qed.

Lemma presence_ok_step `{HashOrderLaws} s op : presence_ok s -> presence_ok (presence_step s op).
Proof.
  intros Hok. destruct op as [id label actor data now|id now|id c|id|now ttl|l now|now]; cbn.
  - apply map_Forall_insert_2; [|done]. destruct (peers s !! id) as [p|] eqn:E; cbn.
    + destruct (Hok id p E) as [H1 H2]. split; [done|by apply channels_ok_insert].
    + split; [done|]. apply channels_ok_insert, map_Forall_empty.
  - unfold mark_seen. destruct (peers s !! id) as [p|] eqn:E; [|done].
    apply map_Forall_insert_2; [|done]. by destruct (Hok id p E).
  - unfold clear_channel. destruct (peers s !! id) as [p|] eqn:E; [|done].
    apply map_Forall_insert_2; [|done]. destruct (Hok id p E) as [H1 H2]. split; [done|].
    by apply map_Forall_delete.
  - by apply map_Forall_delete.
  - intros id p Hp. apply Hok. revert Hp. rewrite prune_stale_lookup.
    destruct (peers s !! id) as [q|]; [|done]. by destruct (is_stale now ttl q).
  - unfold apply_snapshot, presence_ok. cbn. revert Hok. unfold presence_ok. generalize (peers s).
    induction l as [|p l IH]; intros m Hm; [done|]. apply IH, map_Forall_insert_2; [|done].
    split; [done|apply collect_channels_ok].
  - done.
Qed.

Lemma presence_ok_run `{HashOrderLaws} ops : presence_ok (foldl presence_step presence_new ops).
Proof.
  assert (Hok : presence_ok presence_new) by apply map_Forall_empty. revert Hok.
  generalize presence_new. induction ops as [|op ops IH]; intros s Hok; [done|]. apply IH. by apply presence_ok_step.
Qed.

(** ** Snapshots *)

(** A peer as a late joiner sees it: with its own clock. *)
Definition rejoined (now : Z) (p : PeerPresence) : PeerPresence :=
  mkPresence (pp_peer_id p) (pp_peer_label p) (pp_actor_label p) (pp_channels p) now now.


(** Inserting a list of entries one by one. *)
Lemma foldl_insert_map `{Countable K} {A} (l : list (K * A)) (acc : gmap K A) : NoDup l.*1 ->
  foldl (fun m x => <[x.1 := x.2]> m) acc l = list_to_map l ∪ acc.
Proof.
  revert acc. induction l as [|[k v] l IH]; intros acc Hnd.
  - cbn. by rewrite (left_id_L ∅ (∪)).
  - rewrite fmap_cons in Hnd. apply NoDup_cons in Hnd as [Hk Hnd]. cbn. rewrite IH by done.
    rewrite <-insert_union_l, <-insert_union_r; [done|]. by apply not_elem_of_list_to_map_1.
Qed.

Lemma foldl_fmap {A B C} (f : C -> B -> C) (g : A -> B) l acc :
  foldl f acc (g <$> l) = foldl (fun c x => f c (g x)) acc l.
Proof. revert acc. induction l as [|x l IH]; intros acc; [done|]. apply IH. Qed.

Lemma collect_channels_values m l : channels_ok m -> l ≡ₚ (map_to_list m).*2 -> collect_channels l = m.
Proof.
  intros Hok Hl. set (kv := (fun d => (channel d, d)) <$> l).
  assert (Hkv : kv ≡ₚ map_to_list m).
  { unfold kv. rewrite Hl, <-list_fmap_compose. rewrite <-(list_fmap_id (map_to_list m)) at 2.
    apply Permutation_refl'. apply list_fmap_ext. intros i [c d] Hi. simpl.
    apply list_elem_of_lookup_2, elem_of_map_to_list in Hi. by rewrite (Hok c d Hi). }
  assert (Hnd : NoDup kv.*1) by (rewrite Hkv; apply NoDup_fst_map_to_list).
  transitivity (list_to_map kv : gmap Channel ChannelData);
    [|by rewrite (list_to_map_proper _ _ Hnd Hkv), list_to_map_to_list].
  transitivity (foldl (fun (m : gmap Channel ChannelData) x => <[x.1 := x.2]> m) ∅ kv);
    [by unfold kv; rewrite foldl_fmap|].
  rewrite foldl_insert_map by done. by rewrite (right_id_L ∅ (∪)).
Qed.

(** Applying the listing of some peers writes exactly those, with the clock of the receiver. *)
Lemma apply_snapshot_peers `{HashOrderLaws} (m : gmap string PeerPresence) l now s :
  map_Forall peer_ok m -> l ≡ₚ map_to_list m ->
  peers (apply_snapshot ((fun x : string * PeerPresence => mkPeerSnapshot (pp_peer_id x.2) (pp_peer_label x.2)
    (pp_actor_label x.2) (visit_channels (pp_channels x.2))) <$> l) now s) = (rejoined now <$> m) ∪ peers s.
Proof.
  intros Hok Hl. unfold apply_snapshot. cbn. rewrite foldl_fmap.
  assert (Hin : Forall (fun x => peer_ok x.1 x.2) l).
  { rewrite Hl. apply Forall_forall. intros [id p] Hp%elem_of_map_to_list. by apply Hok. }
  assert (Hnd : NoDup (prod_map id (rejoined now) <$> l).*1).
  { rewrite <-list_fmap_compose. rewrite Hl. apply NoDup_fst_map_to_list. }
  transitivity (list_to_map (prod_map id (rejoined now) <$> l) ∪ peers s).
  - rewrite <-foldl_insert_map by done. rewrite foldl_fmap. clear Hl Hnd. generalize (peers s).
    induction Hin as [|[id p] l [Hid Hch] _ IH]; intros acc; [done|]. cbn in *. rewrite IH. f_equal.
    unfold rejoined. rewrite <-Hid. by rewrite (collect_channels_values (pp_channels p)) by (done || apply visit_channels_all).
  - f_equal. rewrite <-(list_to_map_to_list (rejoined now <$> m)). apply list_to_map_proper; [done|].
    by rewrite map_to_list_fmap, Hl.
Qed.

(** ** Properties *)

Definition run_presence `{HashOrder} (ops : list presence_op) : PresenceState := foldl presence_step presence_new ops.

(** A late joiner that decodes the snapshot of a room gets the peers of the room, each
    with its labels and channels and the joiner's own clock, and keeps the peers it had
    that the snapshot does not name. *)
Theorem snapshot_rejoins `{CborLaws, HashOrderLaws} sender ops bs now s' :
  encode_snapshot sender (run_presence ops) = Ok bs ->
  exists l, decode_message bs = Ok (MSnapshot sender l) /\
    apply_snapshot l now s' = mkPresenceState ((rejoined now <$> peers (run_presence ops)) ∪ peers s')
      (last_heartbeat_ms s').
Proof.
  unfold encode_snapshot, encode_message, decode_message. destruct (to_cbor _) as [bs'|] eqn:E; [|done].
  intros [= ->]. eexists. erewrite from_to_cbor by done. split; [done|].
  rewrite <-(apply_snapshot_peers _ (visit_peers (peers (run_presence ops))));
    [done|apply presence_ok_run|apply visit_peers_all].
Qed.

Lemma elem_of_readers `{HashOrderLaws} {A} (s : PresenceState) (f : PeerPresence -> option A) a :
  a ∈ omap (f ∘ snd) (visit_peers (peers s)) <-> exists id p, peers s !! id = Some p /\ f p = Some a.
Proof.
  rewrite list_elem_of_omap. setoid_rewrite (visit_peers_all (peers s)). split.
  - intros ([id p] & Hin%elem_of_map_to_list & Hf). eauto.
  - intros (id & p & Hp & Hf). exists (id, p). by rewrite elem_of_map_to_list.
Qed.

Lemma elem_of_others `{HashOrderLaws} {A} exclude (f : PeerPresence -> option A) s id a : presence_ok s ->
  (id, a) ∈ omap (others exclude f ∘ snd) (visit_peers (peers s)) <->
  id <> exclude /\ exists p, peers s !! id = Some p /\ f p = Some a.
Proof.
  intros Hok. rewrite elem_of_readers. unfold others. split.
  - intros (i & p & Hp & Hf). destruct (Hok i p Hp) as [<- _]. case_decide; [done|].
    apply bind_Some in Hf as (a' & Hf & [= <- <-]). eauto.
  - intros (Hne & p & Hp & Hf). destruct (Hok id p Hp) as [Hid _]. exists id, p. split; [done|].
    rewrite decide_False by congruence. by rewrite Hf, Hid.
Qed.

(** A channel read back under its own kind is of that kind. *)
Lemma kernel_of_None p : channels_ok (pp_channels p) ->
  kernel_of p = None <-> pp_channels p !! ChKernelState = None.
Proof.
  intros Hok. unfold kernel_of. destruct (pp_channels p !! ChKernelState) as [d|] eqn:E; [|done].
  pose proof (Hok _ _ E). by destruct d.
Qed.

(** After any history, what the readers report is what the table holds: the cursor and
    the selection of every peer but the excluded one, and some peer's kernel state exactly
    when a peer published one; every channel is stored under its own kind. *)
Theorem presence_readers_exact `{HashOrderLaws} ops exclude id :
  let s := run_presence ops in
  (forall c, (id, c) ∈ remote_cursors exclude s <->
     id <> exclude /\ exists p, get_peer id s = Some p /\ cursor_of p = Some c) /\
  (forall r, (id, r) ∈ remote_selections exclude s <->
     id <> exclude /\ exists p, get_peer id s = Some p /\ selection_of p = Some r) /\
  (kernel_state s = None <-> forall i p, get_peer i s = Some p -> pp_channels p !! ChKernelState = None) /\
  (forall p c d, get_peer id s = Some p -> pp_channels p !! c = Some d -> pp_peer_id p = id /\ channel d = c).
Proof.
  intros s. assert (Hok : presence_ok s) by apply presence_ok_run. unfold get_peer. split_and!.
  - intros c. by apply elem_of_others.
  - intros r. by apply elem_of_others.
  - unfold kernel_state. pose proof (elem_of_readers s kernel_of) as Hin. split.
    + intros Hnil i p Hp. apply kernel_of_None; [by apply (Hok i p)|].
      destruct (kernel_of p) as [k|] eqn:E; [|done].
      assert (k ∈ omap (kernel_of ∘ snd) (visit_peers (peers s))) as Hk by (apply Hin; eauto).
      destruct (omap _ _); [by apply not_elem_of_nil in Hk|done].
    + intros Hnone. destruct (omap _ _) as [|k l] eqn:E; [done|].
      destruct (proj1 (Hin k) (list_elem_of_here k l)) as (i & p & Hp & Hf).
      pose proof (proj2 (kernel_of_None p (proj2 (Hok i p Hp))) (Hnone i p Hp)). congruence.
  - intros p c d Hp Hc. destruct (Hok id p Hp) as [? Hch]. split; [done|]. by apply Hch.
Qed.

Lemma stale_ids_NoDup `{HashOrderLaws} now ttl m : NoDup (stale_ids now ttl (visit_peers m)).
Proof.
  apply (sublist_NoDup _ (visit_peers m).*1).
  - rewrite visit_peers_all. apply NoDup_fst_map_to_list.
  - unfold stale_ids. apply fmap_sublist, sublist_filter.
Qed.

(** Pruning removes exactly the peers whose last message is older than the time to
    live, reports each of them once, and changes nothing else; a clock that went back
    removes nobody. *)
Theorem prune_exact `{HashOrderLaws} now ttl s id s' gone :
  0 <= ttl -> prune_stale now ttl s = (s', gone) ->
  (forall p, get_peer id s' = Some p <-> get_peer id s = Some p /\ now - last_seen_ms p <= ttl) /\
  NoDup gone /\ (id ∈ gone <-> exists p, get_peer id s = Some p /\ now - last_seen_ms p > ttl) /\
  last_heartbeat_ms s' = last_heartbeat_ms s.
Proof.
  intros Httl E. pose proof (prune_stale_lookup now ttl s id) as Hl. rewrite E in Hl. cbn in Hl.
  assert (Hst : forall p, is_stale now ttl p = true <-> now - last_seen_ms p > ttl).
  { intros p. unfold is_stale, saturating_sub_u64. lia. }
  unfold prune_stale in E. rewrite prune_fold in E. injection E as <- <-. unfold get_peer. split_and!.
  - intros p. rewrite Hl. destruct (peers s !! id) as [q|]; [|naive_solver].
    specialize (Hst q). destruct (is_stale now ttl q); split; [done|intros [[= ->] ?]; lia|
      intros [= ->]; split; [done|]; lia|by intros [? _]].
  - apply stale_ids_NoDup.
  - rewrite elem_of_stale_ids. by setoid_rewrite Hst.
  - done.
Qed.

(** ** A concrete codec and order *)

#[export] Instance CursorPosition_eq_dec : EqDecision CursorPosition.
Proof. solve_decision. Defined.
#[export] Instance SelectionRange_eq_dec : EqDecision SelectionRange.
Proof. solve_decision. Defined.
#[export] Instance InteractionTarget_eq_dec : EqDecision InteractionTarget.
Proof. solve_decision. Defined.
#[export] Instance KernelStatus_eq_dec : EqDecision KernelStatus.
Proof. solve_decision. Defined.
#[export] Instance KernelStateData_eq_dec : EqDecision KernelStateData.
Proof. solve_decision. Defined.
#[export] Instance ChannelData_eq_dec : EqDecision ChannelData.
Proof. solve_decision. Defined.
#[export] Instance PeerSnapshot_eq_dec : EqDecision PeerSnapshot.
Proof. solve_decision. Defined.
#[export] Instance PresenceMessage_eq_dec : EqDecision PresenceMessage.
Proof. solve_decision. Defined.

(** The bytes a message cannot do without: its strings and its custom data. *)
Definition option_len (s : option string) : nat := from_option String.length 0%nat s.
Definition data_len (d : ChannelData) : nat :=
  match d with
  | DCursor c => String.length (cu_cell_id c)
  | DSelection r => String.length (se_cell_id r)
  | DFocus c => String.length c
  | DInteraction t => String.length (target_cell_id t)
  | DKernelState k => String.length (env_source k)
  | DCustom bs => length bs
  end.
Definition message_len (m : PresenceMessage) : nat :=
  match m with
  | MUpdate id l a d => (String.length id + option_len l + option_len a + data_len d)%nat
  | MSnapshot id ps => (String.length id + sum_list_with (fun p => String.length (ps_peer_id p) +
      String.length (ps_peer_label p) + option_len (ps_actor_label p) + sum_list_with data_len (ps_channels p)) ps)%nat
  | MLeft id | MHeartbeat id | MClearChannel id _ => String.length id
  end.

(** A codec for the messages of a table: the place in the table, then as many bytes as
    the message's text and data take. *)
Module TableCodec.
Definition table_encode (table : list PresenceMessage) (m : PresenceMessage) : option bytes :=
  '(i, _) ← list_find (m =.) table; b ← Byte.of_N (N.of_nat i); Some (b :: replicate (message_len m) Byte.x00).
Definition table_decode (table : list PresenceMessage) (bs : bytes) : option PresenceMessage :=
  match bs with b :: _ => table !! N.to_nat (Byte.to_N b) | [] => None end.

Lemma table_roundtrip table m bs : table_encode table m = Some bs -> table_decode table bs = Some m.
Proof.
  unfold table_encode. intros ([i m'] & Hi & (b & Hb & [= <-])%bind_Some)%bind_Some.
  apply list_find_Some in Hi as (Hm & Heq & _). cbn. apply Byte.to_of_N in Hb. rewrite Hb, Nat2N.id. by subst m'.
Qed.

Definition table_cbor (table : list PresenceMessage) : Cbor :=
  {| to_cbor := table_encode table; from_cbor := table_decode table |}.
Definition table_cbor_laws (table : list PresenceMessage) : @CborLaws (table_cbor table) :=
  {| from_to_cbor := table_roundtrip table : forall m bs, @to_cbor (table_cbor table) m = Some bs ->
       @from_cbor (table_cbor table) bs = Some m |}.

#[export] Instance key_order : HashOrder := {| visit_peers := map_to_list; visit_channels m := (map_to_list m).*2 |}.
#[export] Instance key_order_laws : HashOrderLaws.
Proof. by split. Qed.
End TableCodec.

Module PresenceExamples.
Import TableCodec.
Definition cursor (n : Z) : ChannelData := DCursor (mkCursor "c1" n 0).
Definition history : list presence_op :=
  [PUpdate "p1" "Ann" (Some "local:ann/tab") (cursor 3) 10; PUpdate "p2" "Bo" None (DFocus "c2") 20; PSeen "p1" 30].

Definition room_message : PresenceMessage := MSnapshot "daemon" (snapshot_peers (run_presence history)).

Lemma snapshot_rejoins_witness :
  exists l, @decode_message (table_cbor [room_message]) (Byte.x00 :: replicate 32 Byte.x00) = Ok (MSnapshot "daemon" l) /\
    apply_snapshot l 99 presence_new = mkPresenceState ((rejoined 99 <$> peers (run_presence history)) ∪ ∅) 0.
Proof.
  apply (@snapshot_rejoins (table_cbor [room_message]) (table_cbor_laws _) _ _ "daemon" history). vm_compute. reflexivity.
Defined.

Lemma prune_exact_witness :
  get_peer "p2" (prune_stale 46 20 (run_presence history)).1 = None /\ "p2" ∈ (prune_stale 46 20 (run_presence history)).2.
Proof.
  destruct (prune_exact 46 20 (run_presence history) "p2" (prune_stale 46 20 (run_presence history)).1
    (prune_stale 46 20 (run_presence history)).2 ltac:(lia) (surjective_pairing _)) as (H1 & _ & H2 & _).
  split; [reflexivity|]. apply H2. eexists. split; [reflexivity|]. vm_compute. reflexivity.
Defined.

Lemma kept_and_pruned :
  (prune_stale 46 20 (run_presence history)).2 = ["p2"] /\
  remote_cursors "me" (prune_stale 46 20 (run_presence history)).1 = [("p1", mkCursor "c1" 3 0)] /\
  kernel_state (run_presence history) = None /\
  (prune_stale 5 20 (run_presence history)).2 = [].
Proof. split_and!; vm_compute; reflexivity. Qed.
End PresenceExamples.
