(* ===== verification/PresenceRelay.v ===== *)
(** * Presence between the daemon and its clients

    Model of [notebook_sync_server/peer_presence.rs] (what the daemon accepts from a
    peer, records, relays, snapshots and prunes), of [update_kernel_presence_locked] in
    [notebook_sync_server/metadata.rs] and of the presence branch of
    [notebook-sync/src/sync_task.rs] (what a client does with a frame).  The tables are
    those of [Presence], the labels those of [Identity], the outbound lanes those of
    [PeerWriter].  The theorems: a client cannot speak for another peer or for the
    kernel, displayed labels are clean and short, and a client that has received what
    was sent to it shows what the daemon holds.  A change of the table and the broadcast
    that announces it are separate steps, as the code sends after it released the lock;
    convergence asks that messages about one peer are sent in the order of its changes. *)

From S2P Require Import Prelude Text Framing Identity PeerWriter Presence.


(** ** Labels *)

Definition MAX_LABEL_CHARS : nat := 64.

Definition is_allowed (c : Z) : bool :=
  negb (is_control c) &&
  negb (bool_decide (c ∈ [8203; 8204; 8205; 8206; 8207; 8288; 65279; 173; 847; 1564; 4447; 4448; 6068; 6069; 6158])) &&
  negb ((8294 <=? c) && (c <=? 8297)) && negb ((8234 <=? c) && (c <=? 8238)) &&
  negb ((65024 <=? c) && (c <=? 65039)) && negb ((917760 <=? c) && (c <=? 917999)).

Definition sanitize_peer_label (raw : option string) (fallback : string) : string :=
  match raw with
  | Some s =>
      let cleaned := take MAX_LABEL_CHARS (filter (fun c => is_allowed c = true) (trim (chars s))) in
      match trim cleaned with [] => fallback | t => utf8_string t end
  | None => fallback
  end.

(** ** The daemon *)

(** [RoomConnectionIdentity], as far as presence uses it. *)
Record RoomConnectionIdentity := mkRoomIdentity { auth : AuthenticatedConnection; fallback_operator : Operator }.

Definition presence_label (i : RoomConnectionIdentity) (presented : option string) : string :=
  label_str (rewrite_presence_actor_label (auth i) presented (fallback_operator i)).

(** A message a task has still to send: the change it announces is made and the lock on the
    table is released.  The update of a new peer is sent only after that peer's snapshot. *)
Record outgoing := mkOutgoing { og_sender : string; og_message : PresenceMessage; og_after_snapshot : bool }.

(** The presence part of a room: the table, what was sent on [presence_tx], what the tasks
    have still to send, oldest change first, and the messages whose encoding failed, which
    the code only warns about. *)
Record RoomPresence := mkRoomP {
  presence : PresenceState; presence_tx : list (string * bytes); pending : list outgoing; unsent : list PresenceMessage;
}.

Section Relay.
Context `{Cbor, HashOrder}.

Definition on_presence (f : PresenceState -> PresenceState) (r : RoomPresence) : RoomPresence :=
  mkRoomP (f (presence r)) (presence_tx r) (pending r) (unsent r).
Definition with_pending (l : list outgoing) (r : RoomPresence) : RoomPresence :=
  mkRoomP (presence r) (presence_tx r) l (unsent r).
Definition warn_unsent (m : PresenceMessage) (r : RoomPresence) : RoomPresence :=
  mkRoomP (presence r) (presence_tx r) (pending r) (unsent r ++ [m]).

(** Encode a message and send it on the broadcast channel as from [sender]. *)
Definition publish (sender : string) (m : PresenceMessage) (r : RoomPresence) : RoomPresence :=
  match encode_message m with
  | Ok bs => mkRoomP (presence r) (presence_tx r ++ [(sender, bs)]) (pending r) (unsent r)
  | Err _ => warn_unsent m r
  end.

(** The lock is released; the message is yet to be sent. *)
Definition announce (after_snapshot : bool) (sender : string) (m : PresenceMessage) (r : RoomPresence) : RoomPresence :=
  with_pending (pending r ++ [mkOutgoing sender m after_snapshot]) r.

(** A task comes to send one of its messages. *)
Definition send_pending (n : nat) (r : RoomPresence) : RoomPresence :=
  match pending r !! n with
  | Some o => if og_after_snapshot o then r
              else publish (og_sender o) (og_message o) (with_pending (delete n (pending r)) r)
  | None => r
  end.

(** A task that failed has nothing more to send but that its peer left. *)
Definition cleanup_presence_on_disconnect (peer_id : string) (r : RoomPresence) : RoomPresence :=
  announce false peer_id (MLeft peer_id) (on_presence (fun s => (remove_peer peer_id s).1)
    (with_pending (filter (fun o => og_sender o <> peer_id \/ og_after_snapshot o = false) (pending r)) r)).

(** The snapshot of every peer but one. *)
Definition other_peers (peer_id : string) (s : PresenceState) : list PeerSnapshot :=
  (fun x : string * PeerPresence => mkPeerSnapshot (pp_peer_id x.2) (pp_peer_label x.2) (pp_actor_label x.2)
     (visit_channels (pp_channels x.2))) <$> filter (fun x => pp_peer_id x.2 <> peer_id) (visit_peers (peers s)).

Definition others_snapshot (peer_id : string) (r : RoomPresence) : option PresenceMessage :=
  match other_peers peer_id (presence r) with [] => None | l => Some (MSnapshot "daemon" l) end.

(** [send_initial_presence_snapshot], on the connection's own writer. *)
Definition send_initial_presence_snapshot (peer_id : string) (r : RoomPresence) (w : Writer)
    : RoomPresence * Writer * result FrameError () :=
  if decide (peer_count (presence r) = 0%nat) then (r, w, Ok ())
  else match others_snapshot peer_id r with
  | None => (r, w, Ok ())
  | Some m =>
      match encode_message m with
      | Ok bs => let '(w, res) := send_typed_frame Framing.Presence bs w in (r, w, res)
      | Err _ => (warn_unsent m r, w, Ok ())
      end
  end.

(** [send_new_peer_snapshot], on the connection's outbound lanes. *)
Definition send_new_peer_snapshot (peer_id : string) (r : RoomPresence) (ch : Channels)
    : RoomPresence * Channels * result SendError () :=
  match others_snapshot peer_id r with
  | None => (r, ch, Ok ())
  | Some m =>
      match encode_message m with
      | Ok bs => let '(ch, res) := PeerWriter.send_frame Framing.Presence bs ch in (r, ch, res)
      | Err _ => (warn_unsent m r, ch, Ok ())
      end
  end.

Definition is_kernel_state (d : ChannelData) : bool := match d with DKernelState _ => true | _ => false end.

(** The handler up to the point where it releases the table, with what it has to send. *)
Definition handle_presence_frame (peer_id : string) (i : RoomConnectionIdentity) (payload : bytes) (now : Z)
    (r : RoomPresence) : RoomPresence :=
  if decide (zlen payload > MAX_PRESENCE_FRAME_SIZE) then r
  else match decode_message payload with
  | Ok (MUpdate _ peer_label actor_label data) =>
      if is_kernel_state data then r
      else
        let actor := presence_label i actor_label in
        let label := sanitize_peer_label peer_label peer_id in
        let '(s, is_new) := update_peer peer_id label (Some actor) data now (presence r) in
        announce is_new peer_id (MUpdate peer_id (Some label) (Some actor) data) (on_presence (fun _ => s) r)
  | Ok (MHeartbeat _) => on_presence (mark_seen peer_id now) r
  | Ok (MClearChannel _ c) =>
      announce false peer_id (MClearChannel peer_id c) (on_presence (fun s => (clear_channel peer_id c s).1) r)
  | Ok (MSnapshot _ _) | Ok (MLeft _) | Err _ => r
  end.

(** The rest of the handler for a new peer: its snapshot, which reads the table again.
    When the snapshot fails the update is never sent. *)
Definition new_peer_turn (peer_id : string) (r : RoomPresence) (ch : Channels)
    : RoomPresence * Channels * result SendError () :=
  match list_find (fun o => og_sender o = peer_id /\ og_after_snapshot o = true) (pending r) with
  | None => (r, ch, Ok ())
  | Some (n, o) =>
      let '(r, ch, res) := send_new_peer_snapshot peer_id r ch in
      match res with
      | Err e => (r, ch, Err e)
      | Ok _ => (with_pending (<[n := mkOutgoing (og_sender o) (og_message o) false]> (pending r)) r, ch, Ok ())
      end
  end.

(** What a broadcast receiver yields. *)
Inductive received := Got (sender : string) (bs : bytes) | Lagged (n : nat) | RecvClosed.

Definition forward_presence_broadcast (peer_id : string) (x : received) (r : RoomPresence) (ch : Channels)
    : RoomPresence * Channels * result SendError bool :=
  match x with
  | Got sender bs =>
      if decide (sender = peer_id) then (r, ch, Ok true)
      else let '(ch, res) := PeerWriter.send_frame Framing.Presence bs ch in
           (r, ch, match res with Ok _ => Ok true | Err e => Err e end)
  | Lagged _ =>
      match encode_snapshot peer_id (presence r) with
      | Ok bs => let '(ch, res) := PeerWriter.send_frame Framing.Presence bs ch in
                 (r, ch, match res with Ok _ => Ok true | Err e => Err e end)
      | Err _ => (warn_unsent (MSnapshot peer_id (snapshot_peers (presence r))) r, ch, Ok true)
      end
  | RecvClosed => (r, ch, Ok false)
  end.

Definition prune_stale_presence (peer_id : string) (now : Z) (r : RoomPresence) : RoomPresence :=
  let '(s, pruned) := prune_stale now DEFAULT_PEER_TTL_MS (mark_seen peer_id now (presence r)) in
  foldl (fun r id => announce false id (MLeft id) r) (on_presence (fun _ => s) r) pruned.

Definition update_kernel_presence_locked (status : KernelStatus) (env : string) (now : Z) (r : RoomPresence)
    : RoomPresence :=
  let data := mkKernelData status env in
  publish "daemon" (MUpdate "daemon" None None (DKernelState data))
    (on_presence (fun s => (update_peer "daemon" "daemon" None (DKernelState data) now s).1) r).

(** ** The client *)

(** The presence branch of the client's frame handler. *)
Definition client_presence_frame (now : Z) (payload : bytes) (s : PresenceState) : PresenceState :=
  match validate_frame_size payload with
  | Err _ => s
  | Ok _ =>
      match decode_message payload with
      | Ok (MUpdate id label actor data) => (update_peer id (default id label) actor data now s).1
      | Ok (MSnapshot _ l) => apply_snapshot l now s
      | Ok (MLeft id) => (remove_peer id s).1
      | Ok (MHeartbeat id) => mark_seen id now s
      | Ok (MClearChannel id c) => (clear_channel id c s).1
      | Err _ => s
      end
  end.
End Relay.


(** A clean label: short, of allowed characters, without white space around. *)
Definition clean (cs : list Z) : Prop :=
  (length cs <= MAX_LABEL_CHARS)%nat /\ Forall (fun c => is_allowed c = true) cs /\
  starts_clean cs /\ starts_clean (reverse cs) /\ cs <> [].

Lemma filter_allowed cs : Forall (fun c => is_allowed c = true) (filter (fun c => is_allowed c = true) cs).
Proof. apply Forall_forall. by intros c [? _]%list_elem_of_filter. Qed.

Lemma filter_allowed_id cs : Forall (fun c => is_allowed c = true) cs ->
  filter (fun c => is_allowed c = true) cs = cs.
Proof. induction 1 as [|c cs Hc _ IH]; [done|]. by rewrite filter_cons_True, IH. Qed.

Lemma sanitize_clean cs fallback : Forall (fun c => is_scalar c = true) cs -> clean cs ->
  sanitize_peer_label (Some (utf8_string cs)) fallback = utf8_string cs.
Proof.
  intros Hs (Hl & Ha & H1 & H2 & Hne). unfold sanitize_peer_label. rewrite chars_utf8_string by done.
  rewrite (trim_id cs), filter_allowed_id, take_ge, trim_id by done. by destruct cs.
Qed.

(** Whatever a client sends as its label, the label stored and relayed is the peer id or
    at most 64 characters, none of them a control, zero-width or directional character and
    no white space at the ends, all taken from the presented text in order; cleaning it
    again changes nothing. *)
Theorem peer_label_sanitized cs fallback :
  Forall (fun c => is_scalar c = true) cs ->
  let l := sanitize_peer_label (Some (utf8_string cs)) fallback in
  l = fallback \/
  clean (chars l) /\ chars l `sublist_of` cs /\ forall fallback', sanitize_peer_label (Some l) fallback' = l.
Proof.
  intros Hcs l. set (cl := take MAX_LABEL_CHARS (filter (fun c => is_allowed c = true) (trim cs))).
  assert (Hl : l = match trim cl with [] => fallback | t => utf8_string t end)
    by (unfold l, sanitize_peer_label; by rewrite chars_utf8_string).
  clearbody l. destruct (trim_infix cl) as (a & b & Hab). destruct (trim_clean cl) as [Hc1 Hc2].
  destruct (decide (trim cl = [])) as [Hnil|Hne]; [left; by rewrite Hl, Hnil|right].
  assert (E : forall t, t <> [] -> match t with [] => fallback | c :: r => utf8_string (c :: r) end = utf8_string t)
    by (by intros []).
  rewrite E in Hl by done. clear E. subst l.
  assert (Hsub : trim cl `sublist_of` cs).
  { transitivity cl; [rewrite Hab at 2; apply trim_sublist_of|].
    transitivity (trim cs); [|destruct (trim_infix cs) as (a' & b' & Hab'); rewrite Hab' at 2; apply trim_sublist_of].
    unfold cl. transitivity (filter (fun c => is_allowed c = true) (trim cs)); [apply sublist_take|apply sublist_filter]. }
  assert (Hsc : Forall (fun c => is_scalar c = true) (trim cl)) by (by eapply Forall_sublist).
  assert (Hcl : clean (trim cl)).
  { split_and!; [| |done..].
    - transitivity (length cl); [|unfold cl; rewrite length_take; lia]. rewrite Hab at 2. rewrite !length_app. lia.
    - assert (Forall (fun c => is_allowed c = true) cl) as Hall by (apply Forall_take, filter_allowed).
      rewrite Hab, !Forall_app in Hall. by destruct Hall as (_ & ? & _). }
  rewrite chars_utf8_string by done. split_and!; [done..|]. intros fb. by apply sanitize_clean.
Qed.

(** ** What is shown of a peer *)

(** A peer without the clocks. *)
Record View := mkView {
  vw_id : string; vw_label : string; vw_actor : option string; vw_channels : gmap Channel ChannelData;
}.
Definition view (p : PeerPresence) : View :=
  mkView (pp_peer_id p) (pp_peer_label p) (pp_actor_label p) (pp_channels p).
Definition shown (s : PresenceState) (id : string) : option View := view <$> peers s !! id.

Definition clear_view (c : Channel) (v : View) : View :=
  mkView (vw_id v) (vw_label v) (vw_actor v) (delete c (vw_channels v)).
Definition update_view (id label : string) (actor : option string) (d : ChannelData) (x : option View) : View :=
  let v := default (mkView id label actor ∅) x in
  mkView (vw_id v) label (match actor with Some a => Some a | None => vw_actor v end)
    (<[channel d := d]> (vw_channels v)).
Definition snapshot_view (p : PeerSnapshot) : View :=
  mkView (ps_peer_id p) (ps_peer_label p) (ps_actor_label p) (collect_channels (ps_channels p)).

(** What a message does to what is shown of the peer [p]. *)
Definition act (p : string) (x : option View) (m : PresenceMessage) : option View :=
  match m with
  | MUpdate id label actor d => if decide (id = p) then Some (update_view id (default id label) actor d x) else x
  | MSnapshot _ l => foldl (fun x s => if decide (ps_peer_id s = p) then Some (snapshot_view s) else x) x l
  | MLeft id => if decide (id = p) then None else x
  | MHeartbeat _ => x
  | MClearChannel id c => if decide (id = p) then clear_view c <$> x else x
  end.

Lemma shown_update s id label actor d now p :
  shown (update_peer id label actor d now s).1 p =
  if decide (id = p) then Some (update_view id label actor d (shown s p)) else shown s p.
Proof.
  unfold shown. cbn. case_decide; [subst p; rewrite lookup_insert_eq|by rewrite lookup_insert_ne].
  by destruct (peers s !! id) as [q|]; [|destruct actor].
Qed.
Lemma shown_seen s id now p : shown (mark_seen id now s) p = shown s p.
Proof.
  unfold shown, mark_seen. destruct (peers s !! id) as [q|] eqn:E; [|done]. cbn.
  destruct (decide (id = p)); [subst p; by rewrite lookup_insert_eq, E|by rewrite lookup_insert_ne].
Qed.
Lemma shown_clear s id c p :
  shown (clear_channel id c s).1 p = if decide (id = p) then clear_view c <$> shown s p else shown s p.
Proof.
  unfold shown, clear_channel. destruct (peers s !! id) as [q|] eqn:E; cbn; case_decide; subst.
  - by rewrite lookup_insert_eq, E.
  - by rewrite lookup_insert_ne.
  - by rewrite E.
  - done.
Qed.
Lemma shown_remove s id p : shown (remove_peer id s).1 p = if decide (id = p) then None else shown s p.
Proof.
  unfold shown. cbn. case_decide; [subst p; by rewrite lookup_delete_eq|by rewrite lookup_delete_ne].
Qed.
Lemma shown_snapshot s l now p : shown (apply_snapshot l now s) p =
  foldl (fun x q => if decide (ps_peer_id q = p) then Some (snapshot_view q) else x) (shown s p) l.
Proof.
  unfold apply_snapshot, shown. cbn. generalize (peers s). induction l as [|q l IH]; intros m; [done|].
  cbn [foldl]. rewrite IH. f_equal. case_decide; [subst p; by rewrite lookup_insert_eq|by rewrite lookup_insert_ne].
Qed.

(** A client that takes a frame does to each peer what the message says. *)
Lemma client_frame_acts `{Cbor} now bs m s p :
  zlen bs <= MAX_PRESENCE_FRAME_SIZE -> from_cbor bs = Some m ->
  shown (client_presence_frame now bs s) p = act p (shown s p) m.
Proof.
  intros Hsz Hm. unfold client_presence_frame, validate_frame_size, decode_message.
  rewrite decide_False by lia. rewrite Hm.
  destruct m as [id label actor d|sender l|id|id|id c]; cbn [act];
    eauto using shown_update, shown_snapshot, shown_remove, shown_seen, shown_clear.
Qed.

(** *** Relays can be repeated *)

(** The messages the daemon relays speak for one peer and are not snapshots. *)
Definition about (m : PresenceMessage) : option string :=
  match m with
  | MUpdate id _ _ _ | MLeft id | MHeartbeat id | MClearChannel id _ => Some id
  | MSnapshot _ _ => None
  end.
Definition is_relay (m : PresenceMessage) : bool := bool_decide (is_Some (about m)).

Lemma act_idem p m x : is_relay m = true -> act p (act p x m) m = act p x m.
Proof.
  intros Hr. destruct m as [id label actor d|sender l|id|id|id c]; cbn; try case_decide; try done.
  - f_equal. unfold update_view. cbn. f_equal; [by destruct actor|]. by rewrite insert_insert_eq.
  - destruct x as [v|]; [|done]. cbn. unfold clear_view. cbn. by rewrite delete_delete_eq.
Qed.

(** Overwriting one channel hides any difference there, also across other changes. *)
Lemma channels_absorb {c e : Channel} {u w : option ChannelData} {X Y : gmap Channel ChannelData} :
  partial_alter (fun _ => u) c X = partial_alter (fun _ => u) c Y ->
  partial_alter (fun _ => u) c (partial_alter (fun _ => w) e X) =
  partial_alter (fun _ => u) c (partial_alter (fun _ => w) e Y).
Proof.
  intros E. apply map_eq. intros k. apply (f_equal (lookup k)) in E. revert E.
  rewrite !lookup_partial_alter. repeat case_decide; done.
Qed.

Lemma update_view_eq id l a d x :
  update_view id l a d x = mkView (from_option vw_id id x) l (match a with Some a => Some a | None => x ≫= vw_actor end)
    (<[channel d := d]> (from_option vw_channels ∅ x)).
Proof. by destruct x as [v|], a. Qed.

(** Two states that a message makes equal stay so when another message comes before it. *)
Lemma act_absorbs p m n x y : is_relay m = true -> is_relay n = true ->
  act p x m = act p y m -> act p (act p x n) m = act p (act p y n) m.
Proof.
  intros Hm Hn. destruct m as [i1 l1 a1 d1|?|i1|i1|i1 c1], n as [i2 l2 a2 d2|?|i2|i2|i2 c2]; cbn; try done;
    repeat case_decide; try done; subst; try congruence; rewrite ?update_view_eq.
  - intros [= E1 E2 E3]. f_equal. cbn. f_equal; [done| |by apply channels_absorb].
    destruct a1, a2; done.
  - intros [= E1 E2 E3]. f_equal. f_equal; [by destruct x, y|by destruct x, y|].
    destruct x as [x|], y as [y|]; cbn in *; try (done || by apply channels_absorb).
    + rewrite <-(delete_empty c2). by apply channels_absorb.
    + rewrite <-(delete_empty c2). by apply channels_absorb.
  - destruct x as [x|], y as [y|]; cbn; try done. unfold clear_view; cbn. intros [= E1 E2 E3 E4]. f_equal.
    rewrite E1, E3. f_equal. by apply channels_absorb.
  - destruct x as [x|], y as [y|]; cbn; try done. unfold clear_view; cbn. intros [= E1 E2 E3 E4]. f_equal.
    rewrite E1, E2, E3. f_equal. by apply channels_absorb.
Qed.

Definition acts (p : string) (x : option View) (ms : list PresenceMessage) : option View := foldl (act p) x ms.

Lemma acts_absorbs p ms m x y : Forall (fun m => is_relay m = true) ms -> is_relay m = true ->
  act p x m = act p y m -> act p (acts p x ms) m = act p (acts p y ms) m.
Proof.
  intros Hms Hm. revert x y. induction Hms as [|n ms Hn _ IH]; intros x y E; [done|]. apply IH. by apply act_absorbs.
Qed.

(** Relays that are applied twice in a row have the effect of once. *)
Lemma acts_idem p ms x : Forall (fun m => is_relay m = true) ms -> acts p (acts p x ms) ms = acts p x ms.
Proof.
  induction ms as [|m ms IH] using rev_ind; [done|]. rewrite Forall_app, Forall_singleton. intros [Hms Hm].
  unfold acts in *. rewrite !foldl_app. cbn. rewrite <-(IH Hms) at 2.
  apply (acts_absorbs p ms m); [done..|]. by apply act_idem.
Qed.

(** ** A session *)

(** A room with one of its connections: the peer's broadcast receiver (what it has not yet
    taken and how many messages it missed), its outbound lanes and its client. *)
Record Session := mkSession {
  sroom : RoomPresence; rx : list (string * bytes); missed : nat; lanes : Channels; client : PresenceState;
  joined : bool; alive : bool; lagged : bool;
}.

Definition PRESENCE_BROADCAST_CAPACITY : nat := 64.

(** A bounded broadcast channel overwrites the oldest message of a slow receiver. *)
Definition rx_push (s : Session) (x : string * bytes) : Session :=
  let l := rx s ++ [x] in
  if decide (PRESENCE_BROADCAST_CAPACITY < length l)%nat
  then mkSession (sroom s) (tail l) (S (missed s)) (lanes s) (client s) (joined s) (alive s) true
  else mkSession (sroom s) l (missed s) (lanes s) (client s) (joined s) (alive s) (lagged s).

(** The room changes: the receiver hears what was sent. *)
Definition set_room (r : RoomPresence) (s : Session) : Session :=
  mkSession r (rx s) (missed s) (lanes s) (client s) (joined s) (alive s) (lagged s).
Definition hear (r : RoomPresence) (s : Session) : Session :=
  foldl rx_push (set_room r s) (drop (length (presence_tx (sroom s))) (presence_tx r)).

Definition set_lanes (ch : Channels) (ok : bool) (s : Session) : Session :=
  mkSession (sroom s) (rx s) (missed s) ch (client s) (joined s) ok (lagged s).

Inductive presence_event :=
| EFrame (p : string) (i : RoomConnectionIdentity) (payload : bytes) (now : Z)
| ESnapshot (p : string) (ch : Channels)
| ESend (n : nat)
| EDisconnect (p : string)
| EPrune (p : string) (now : Z)
| EKernel (status : KernelStatus) (env : string) (now : Z)
| EJoin (now : Z)
| EForward
| EDeliver (now : Z).

Section System.
Context `{Cbor, HashOrder}.
Variable q : string.

Definition session_step (s : Session) (e : presence_event) : Session :=
  match e with
  | EFrame p i payload now =>
      if bool_decide (p = q) && negb (joined s && alive s) then s
      else hear (handle_presence_frame p i payload now (sroom s)) s
  | ESnapshot p ch =>
      if decide (p = q) then
        if joined s && alive s then
          let '(r, ch, res) := new_peer_turn q (sroom s) (lanes s) in hear r (set_lanes ch (is_ok res) s)
        else s
      else hear (new_peer_turn p (sroom s) ch).1.1 s
  | ESend n => hear (send_pending n (sroom s)) s
  | EDisconnect p => if decide (p = q) then s else hear (cleanup_presence_on_disconnect p (sroom s)) s
  | EPrune p now => hear (prune_stale_presence p now (sroom s)) s
  | EKernel status env now => hear (update_kernel_presence_locked status env now (sroom s)) s
  | EJoin now =>
      if negb (joined s) && alive s then
        let s := mkSession (sroom s) (rx s) (missed s) (lanes s) (client s) true (alive s) (lagged s) in
        match others_snapshot q (sroom s) with
        | None => s
        | Some m =>
            match encode_message m with
            | Err _ => set_room (warn_unsent m (sroom s)) s
            | Ok bs =>
                if decide (zlen bs > cap (typed_frame_size_limits Framing.Presence)) then set_lanes (lanes s) false s
                else mkSession (sroom s) (rx s) (missed s) (lanes s) (client_presence_frame now bs (client s)) true
                  (alive s) (lagged s)
            end
        end
      else s
  | EForward =>
      if joined s && alive s then
        let take_ x l n :=
          let '(r, ch, res) := forward_presence_broadcast q x (sroom s) (lanes s) in
          mkSession r l n ch (client s) (joined s) (is_ok res) (lagged s) in
        match missed s, rx s with
        | S n, l => take_ (Lagged (S n)) l 0%nat
        | O, (sender, bs) :: l => take_ (Got sender bs) l 0%nat
        | O, [] => s
        end
      else s
  | EDeliver now =>
      if joined s && alive s then
        match ephemeral_q (lanes s) with
        | [] => s
        | f :: l =>
            let ch := set_lane Ephemeral l (lanes s) in
            if decide (zlen (of_payload f) > cap (typed_frame_size_limits (of_type f))) then set_lanes ch false s
            else mkSession (sroom s) (rx s) (missed s) ch (client_presence_frame now (of_payload f) (client s))
              (joined s) (alive s) (lagged s)
        end
      else s
  end.

Definition session_start (r : RoomPresence) : Session :=
  mkSession r [] 0 spawn_channels presence_new false true false.
Definition run_session (r : RoomPresence) (es : list presence_event) : Session := foldl session_step (session_start r) es.

(** The messages about one peer are sent in the order of the changes they announce: no
    message about the same peer is waiting from an earlier change. *)
Definition nothing_before (sender : string) (l : list outgoing) : bool :=
  forallb (fun o => negb (bool_decide (og_sender o = sender))) l.

Definition sent_in_turn (s : Session) (e : presence_event) : bool :=
  match e with
  | ESend n =>
      match pending (sroom s) !! n with
      | Some o => nothing_before (og_sender o) (take n (pending (sroom s)))
      | None => true
      end
  | EKernel _ _ _ => nothing_before "daemon" (pending (sroom s))
  | _ => true
  end.

Fixpoint sends_in_order (s : Session) (es : list presence_event) : bool :=
  match es with
  | [] => true
  | e :: es => sent_in_turn s e && sends_in_order (session_step s e) es
  end.
End System.

(** ** What the room says *)

Section Speaking.
Context `{CborLaws, HashOrderLaws}.

(** A broadcast entry that carries a message about its sender, and one still to be sent. *)
Definition carries (x : string * bytes) (m : PresenceMessage) : Prop :=
  from_cbor x.2 = Some m /\ about m = Some x.1.
Definition speaks (o : outgoing) : Prop := about (og_message o) = Some (og_sender o).
#[local] Arguments acts : simpl never.

Lemma acts_app p x l k : acts p x (l ++ k) = acts p (acts p x l) k.
Proof. apply foldl_app. Qed.
Lemma act_other p m i x : about m = Some i -> i <> p -> act p x m = x.
Proof. destruct m; cbn; intros [= <-] Hne; unfold act; by rewrite ?decide_False by done. Qed.

Lemma acts_cons p x m l : acts p x (m :: l) = acts p (act p x m) l.
Proof. done. Qed.

(** A message passes those about other peers. *)
Lemma acts_swap p m i l x : about m = Some i -> Forall speaks l -> Forall (fun o => og_sender o <> i) l ->
  acts p (act p x m) (og_message <$> l) = act p (acts p x (og_message <$> l)) m.
Proof.
  intros Hm Hl. revert x. induction Hl as [|o l Ho _ IH]; intros x Hne; [done|].
  apply Forall_cons in Hne as [Hno Hne]. unfold acts in *. cbn. rewrite <- (IH _ Hne). f_equal.
  destruct (decide (i = p)) as [->|]; [|by rewrite !(act_other p m i)].
  by rewrite !(act_other p (og_message o) (og_sender o)).
Qed.

Lemma nothing_before_spec sender l : nothing_before sender l = true -> Forall (fun o => og_sender o <> sender) l.
Proof.
  induction l as [|o l IH]; [done|]. cbn. intros [Ho Hl]%andb_true_iff. constructor; [|by apply IH].
  by apply negb_true_iff, bool_decide_eq_false in Ho.
Qed.

(** Before a departure, what is said of the peer does not matter. *)
Lemma acts_before_left p id (P : outgoing -> Prop) `{!forall o, Decision (P o)} l x :
  Forall speaks l -> (forall o, ~ P o -> og_sender o = id) ->
  act p (acts p x (og_message <$> filter P l)) (MLeft id) = act p (acts p x (og_message <$> l)) (MLeft id).
Proof.
  intros Hl HP. cbn. case_decide as Hd; [done|]. revert x. induction Hl as [|o l Ho _ IH]; intros x; [done|].
  unfold acts in *. rewrite filter_cons. case_decide as Hp; cbn; [apply IH|].
  rewrite (act_other p (og_message o) (og_sender o)); [apply IH|done|]. by rewrite (HP o Hp).
Qed.

(** From [r] to [r'] the table changed by [news], [ms] was sent, and what was waiting and
    what changed is what was sent and what is waiting now. *)
Definition says (r r' : RoomPresence) : Prop :=
  exists l ms news, presence_tx r' = presence_tx r ++ l /\ Forall2 carries l ms /\ Forall speaks (pending r') /\
    (forall p, shown (presence r') p = acts p (shown (presence r) p) news) /\
    (forall p x, acts p x (ms ++ (og_message <$> pending r')) = acts p x ((og_message <$> pending r) ++ news)).

(** Each of the daemon's operations. *)
Definition good (r r' : RoomPresence) : Prop :=
  unsent r' = [] -> unsent r = [] /\
  (presence_ok (presence r) -> Forall speaks (pending r) -> says r r' /\ presence_ok (presence r')).

(** A change of the table that is to be announced. *)
Lemma says_later r s' os tx : (forall p, shown s' p = acts p (shown (presence r) p) (og_message <$> os)) ->
  Forall speaks (pending r) -> Forall speaks os -> tx = presence_tx r ->
  says r (mkRoomP s' tx (pending r ++ os) (unsent r)).
Proof.
  intros E Hr Ho ->. exists [], [], (og_message <$> os). cbn. rewrite app_nil_r. split_and!; [done..|by apply Forall_app|done|].
  intros p x. by rewrite fmap_app.
Qed.

Lemma good_refl r : good r r.
Proof.
  intros Hun. split; [done|]. intros Hok Hsp. split; [|done]. destruct r as [s tx l un]. cbn in *.
  pose proof (says_later (mkRoomP s tx l un) s [] tx) as Hs. cbn in Hs. rewrite app_nil_r in Hs. by apply Hs.
Qed.

Lemma good_seen p now r : good r (on_presence (mark_seen p now) r).
Proof.
  intros Hun. split; [done|]. intros Hok Hsp. split; [|by apply (presence_ok_step _ (PSeen p now))].
  pose proof (says_later r (mark_seen p now (presence r)) [] (presence_tx r)) as Hs. rewrite app_nil_r in Hs. apply Hs; [|done..].
  intros p'. apply shown_seen.
Qed.

Lemma good_announce sender m r b op : about m = Some sender ->
  (forall p, shown (presence_step (presence r) op) p = act p (shown (presence r) p) m) ->
  good r (announce b sender m (on_presence (fun s => presence_step s op) r)).
Proof.
  intros Ha Hs Hun. split; [done|]. intros Hok Hsp. split; [|by apply presence_ok_step].
  apply (says_later r (presence_step (presence r) op) [mkOutgoing sender m b] (presence_tx r)); [exact Hs|done| |done].
  by apply Forall_singleton.
Qed.

Lemma cleanup_good p r : good r (cleanup_presence_on_disconnect p r).
Proof.
  intros Hun. split; [done|]. intros Hok Hsp. split; [|by apply (presence_ok_step _ (PRemove p))].
  exists [], [], [MLeft p]. cbn. rewrite app_nil_r. split_and!; [done..| | |].
  - apply Forall_app. split; [|by apply Forall_singleton].
    apply Forall_forall. intros o [_ Ho]%list_elem_of_filter. by eapply Forall_forall in Hsp.
  - intros p'. apply shown_remove.
  - intros p' x. rewrite fmap_app, !acts_app.
    apply (acts_before_left p' p (fun o => og_sender o <> p \/ og_after_snapshot o = false)); [done|]. intros o Ho. destruct (decide (og_sender o = p)); [done|]. exfalso. apply Ho. by left.
Qed.

(** The kernel's state is sent under the lock: nothing about it may be waiting. *)
Lemma kernel_good st env now r : nothing_before "daemon" (pending r) = true ->
  good r (update_kernel_presence_locked st env now r).
Proof.
  intros Hb. unfold update_kernel_presence_locked. set (m := MUpdate _ _ _ _). unfold publish, encode_message.
  destruct (to_cbor m) as [bs|] eqn:E; intros Hun; [|cbn in Hun; by destruct (unsent r)].
  split; [done|]. intros Hok Hsp. split; [|by apply (presence_ok_step _ (PUpdate "daemon" "daemon" None (DKernelState (mkKernelData st env)) now))].
  exists [("daemon", bs)], [m], [m]. cbn. split_and!; [done| |done| |].
  - constructor; [|done]. split; [by apply from_to_cbor|done].
  - intros p. apply shown_update.
  - intros p x. rewrite acts_app. etransitivity; [|apply (acts_swap p m "daemon")]; [done..|by apply nothing_before_spec].
Qed.

Lemma send_good n r :
  match pending r !! n with Some o => nothing_before (og_sender o) (take n (pending r)) | None => true end = true ->
  good r (send_pending n r).
Proof.
  unfold send_pending. destruct (pending r !! n) as [o|] eqn:En; [|intros _; apply good_refl]. intros Hb.
  destruct (og_after_snapshot o); [apply good_refl|]. unfold publish, encode_message.
  destruct (to_cbor (og_message o)) as [bs|] eqn:E; intros Hun; [|cbn in Hun; by destruct (unsent r)].
  split; [done|]. intros Hok Hsp. split; [|done].
  pose proof (take_drop_middle _ _ _ En) as Hmid.
  assert (Forall speaks (take n (pending r))) as Ht by by apply Forall_take.
  assert (Forall speaks (drop (S n) (pending r))) as Hd by by apply Forall_drop.
  assert (speaks o) as Ho by exact (Forall_lookup_1 _ _ _ _ Hsp En).
  exists [(og_sender o, bs)], [og_message o], []. cbn. rewrite delete_take_drop. split_and!; [done| | |done|].
  - constructor; [|done]. split; [by apply from_to_cbor|done].
  - by apply Forall_app.
  - intros p x. rewrite app_nil_r. rewrite <- Hmid at 3. rewrite !fmap_app, fmap_cons, (acts_app p x (_ <$> _)), acts_cons, acts_app.
    change (acts p (acts p (act p x (og_message o)) (og_message <$> take n (pending r))) (og_message <$> drop (S n) (pending r)) =
      acts p (act p (acts p x (og_message <$> take n (pending r))) (og_message o)) (og_message <$> drop (S n) (pending r))).
    f_equal. apply (acts_swap p (og_message o) (og_sender o)); [done..|by apply nothing_before_spec].
Qed.

Lemma announce_left_all ids r : foldl (fun r id => announce false id (MLeft id) r) r ids =
  with_pending (pending r ++ ((fun id => mkOutgoing id (MLeft id) false) <$> ids)) r.
Proof.
  revert r. induction ids as [|id ids IH]; intros r; [cbn; rewrite app_nil_r; by destruct r|].
  cbn [foldl]. rewrite IH. unfold announce, with_pending. cbn. by rewrite <- (assoc_L (++)).
Qed.

Lemma acts_left p ids x : acts p x (MLeft <$> ids) = if decide (p ∈ ids) then None else x.
Proof.
  revert x. induction ids as [|id ids IH]; intros x; [done|]. unfold acts in *. cbn [fmap list_fmap foldl act].
  rewrite IH. repeat case_decide; set_solver.
Qed.

Lemma shown_prune now ttl s p : shown (prune_stale now ttl s).1 p =
  if decide (p ∈ (prune_stale now ttl s).2) then None else shown s p.
Proof.
  unfold prune_stale. rewrite prune_fold. unfold shown. cbn. rewrite foldl_delete_lookup. by case_decide.
Qed.

Lemma prune_good p now r : good r (prune_stale_presence p now r).
Proof.
  unfold prune_stale_presence. set (s := mark_seen p now (presence r)).
  pose proof (shown_prune now DEFAULT_PEER_TTL_MS s) as Hs.
  assert (Hok' : presence_ok (presence r) -> presence_ok (prune_stale now DEFAULT_PEER_TTL_MS s).1).
  { intros Hok. apply (presence_ok_step s (PPrune now DEFAULT_PEER_TTL_MS)). by apply (presence_ok_step _ (PSeen p now)). }
  destruct (prune_stale now DEFAULT_PEER_TTL_MS s) as [s' gone]. cbn in *.
  rewrite announce_left_all. intros Hun. split; [done|]. intros Hok Hsp. split; [|by apply Hok'].
  apply (says_later r s' _ (presence_tx r)); [|done| |done].
  - intros p'. rewrite <- list_fmap_compose. etransitivity; [|symmetry; apply acts_left]. rewrite Hs.
    unfold s. by rewrite shown_seen.
  - apply Forall_fmap, Forall_true. done.
Qed.

Lemma frame_good p i payload now r : good r (handle_presence_frame p i payload now r).
Proof.
  unfold handle_presence_frame. case_decide; [apply good_refl|].
  destruct (decode_message payload) as [[id label actor d|sender l|id|id|id c]|e]; try apply good_refl.
  - destruct (is_kernel_state d); [apply good_refl|]. set (lb := sanitize_peer_label _ _).
    set (al := presence_label _ _). destruct (update_peer p lb (Some al) d now (presence r)) as [s' is_new] eqn:Eu.
    assert (Es : s' = (update_peer p lb (Some al) d now (presence r)).1) by by rewrite Eu.
    rewrite Es. apply (good_announce p _ r is_new (PUpdate p lb (Some al) d now)); [done|].
    intros p'. cbn [presence_step act default]. apply shown_update.
  - apply good_seen.
  - apply (good_announce p _ r false (PClear p c)); [done|]. intros p'. cbn [presence_step act]. apply shown_clear.
Qed.

(** A snapshot reads the table and lets the update of the peer go. *)
Lemma new_peer_snapshot_room p r ch : let '(r', _, _) := send_new_peer_snapshot p r ch in
  presence r' = presence r /\ presence_tx r' = presence_tx r /\ pending r' = pending r /\ (unsent r' = [] -> r' = r).
Proof.
  unfold send_new_peer_snapshot. destruct (others_snapshot p r) as [m|]; [|done].
  destruct (encode_message m); [destruct (PeerWriter.send_frame _ _ _); done|].
  split_and!; [done..|]. cbn. by destruct (unsent r).
Qed.

Lemma new_peer_turn_room p r ch : let '(r', _, _) := new_peer_turn p r ch in
  presence r' = presence r /\ presence_tx r' = presence_tx r /\ og_message <$> pending r' = og_message <$> pending r /\
  og_sender <$> pending r' = og_sender <$> pending r /\ (unsent r' = [] -> unsent r = []).
Proof.
  unfold new_peer_turn. destruct (list_find _ _) as [[n o]|] eqn:Ef; [|done].
  apply list_find_Some in Ef as (Hn & _ & _). pose proof (new_peer_snapshot_room p r ch) as Hs.
  destruct (send_new_peer_snapshot p r ch) as [[r1 ch1] [u|e]]; destruct Hs as (Hp & Htx & Hpd & Hu0); cbn.
  - rewrite Hp, Htx, Hpd, !list_fmap_insert. cbn. split_and!; [done..| | |].
    + apply list_insert_id. by rewrite list_lookup_fmap, Hn.
    + apply list_insert_id. by rewrite list_lookup_fmap, Hn.
    + intros Hu. by rewrite <- (Hu0 Hu).
  - rewrite Hp, Htx, Hpd. split_and!; [done..|]. intros Hu. by rewrite <- (Hu0 Hu).
Qed.

Lemma speaks_fields l k : og_message <$> l = og_message <$> k -> og_sender <$> l = og_sender <$> k ->
  Forall speaks k -> Forall speaks l.
Proof.
  revert k. induction l as [|x l IH]; intros [|y k]; try done. cbn. intros [= E1 E2] [= E3 E4] [Hy Hk]%Forall_cons.
  constructor; [unfold speaks in *; congruence|by apply (IH k)].
Qed.

Lemma new_peer_good p r ch : good r (new_peer_turn p r ch).1.1.
Proof.
  pose proof (new_peer_turn_room p r ch) as Hs. destruct (new_peer_turn p r ch) as [[r1 ch1] res]. cbn.
  destruct Hs as (Hp & Htx & Hm & Hsd & Hu). intros Hun. split; [by apply Hu|]. intros Hok Hsp. rewrite Hp. split; [|done].
  exists [], [], []. cbn. rewrite Hp, Htx, Hm, !app_nil_r. split_and!; try done. by apply (speaks_fields _ (pending r)).
Qed.
End Speaking.

(** ** Snapshots as messages *)

Section Snapshots.
Context `{CborLaws, HashOrderLaws}.

Lemma snapshot_fold p v l x : (forall y, y ∈ l -> ps_peer_id y = p -> snapshot_view y = v) ->
  foldl (fun x s => if decide (ps_peer_id s = p) then Some (snapshot_view s) else x) x l =
  if decide (p ∈ ps_peer_id <$> l) then Some v else x.
Proof.
  revert x. induction l as [|y l IH]; intros x Hl; [done|]. cbn [foldl]. rewrite IH by set_solver.
  rewrite fmap_cons. destruct (decide (ps_peer_id y = p)) as [Hy|Hy].
  - rewrite (Hl y) by set_solver. repeat case_decide; set_solver.
  - repeat case_decide; set_solver.
Qed.

Definition peer_snapshot (x : string * PeerPresence) : PeerSnapshot :=
  mkPeerSnapshot (pp_peer_id x.2) (pp_peer_label x.2) (pp_actor_label x.2) (visit_channels (pp_channels x.2)).

(** A snapshot of some of the peers shows just those. *)
Lemma act_snapshot sender s (P : string * PeerPresence -> Prop) `{!forall x, Decision (P x)} p x : presence_ok s ->
  act p x (MSnapshot sender (peer_snapshot <$> filter P (visit_peers (peers s)))) =
  match peers s !! p with Some pp => if decide (P (p, pp)) then Some (view pp) else x | None => x end.
Proof.
  intros Hok. cbn [act]. pose proof (visit_peers_all (peers s)) as Hall.
  assert (Hin : forall y, y ∈ peer_snapshot <$> filter P (visit_peers (peers s)) -> ps_peer_id y = p ->
    exists pp, peers s !! p = Some pp /\ P (p, pp) /\ snapshot_view y = view pp).
  { intros y ([id pp] & -> & [HP Hp]%list_elem_of_filter)%list_elem_of_fmap Hid. rewrite Hall in Hp.
    apply elem_of_map_to_list in Hp. destruct (Hok _ _ Hp) as [Hpid Hch]. cbn in Hid, Hpid. assert (id = p) as -> by congruence.
    exists pp. split_and!; [done..|]. unfold snapshot_view, view. cbn.
    by rewrite (collect_channels_values (pp_channels pp)) by (done || apply visit_channels_all). }
  destruct (peers s !! p) as [pp|] eqn:Ep.
  - rewrite (snapshot_fold p (view pp)).
    + destruct (decide (p ∈ _)) as [Hp|Hp].
      * apply list_elem_of_fmap in Hp as (y & Hy & Hyl). destruct (Hin y Hyl (eq_sym Hy)) as (pp' & [= <-] & HP & _).
        by rewrite decide_True.
      * rewrite decide_False; [done|]. intros HP. apply Hp. rewrite list_elem_of_fmap.
        exists (peer_snapshot (p, pp)). split; [cbn; by destruct (Hok p pp Ep)|].
        apply list_elem_of_fmap_2, list_elem_of_filter. split; [done|]. rewrite Hall. by apply elem_of_map_to_list.
    + intros y Hy Hid. destruct (Hin y Hy Hid) as (pp' & [= <-] & _ & Hv). done.
  - rewrite (snapshot_fold p (mkView "" "" None ∅)).
    + rewrite decide_False; [done|]. intros (y & Hy & Hyl)%list_elem_of_fmap.
      destruct (Hin y Hyl (eq_sym Hy)) as (pp & [=] & _).
    + intros y Hy Hid. destruct (Hin y Hy Hid) as (pp & [=] & _).
Qed.

Lemma others_snapshot_acts q r p x : presence_ok (presence r) ->
  match others_snapshot q r with Some m => act p x m | None => x end =
  if decide (p = q) then x else match shown (presence r) p with Some v => Some v | None => x end.
Proof.
  intros Hok. pose proof (act_snapshot "daemon" (presence r) (fun x => pp_peer_id x.2 <> q) p x Hok) as Ha.
  transitivity (act p x (MSnapshot "daemon" (other_peers q (presence r)))).
  { unfold others_snapshot. by destruct (other_peers q (presence r)). }
  unfold other_peers. unfold peer_snapshot in Ha. rewrite Ha. unfold shown.
  destruct (peers (presence r) !! p) as [pp|] eqn:Ep; [|by case_decide]. destruct (Hok p pp Ep) as [Hid _]. cbn. rewrite Hid.
  repeat case_decide; done.
Qed.

Lemma full_snapshot_acts sender s p x : presence_ok s ->
  act p x (MSnapshot sender (snapshot_peers s)) = match shown s p with Some v => Some v | None => x end.
Proof.
  intros Hok. pose proof (act_snapshot sender s (fun _ => True) p x Hok) as Ha.
  assert (Hf : filter (fun _ : string * PeerPresence => True) (visit_peers (peers s)) = visit_peers (peers s)).
  { generalize (visit_peers (peers s)). intros l. induction l as [|y l IH]; [done|]. by rewrite filter_cons_True, IH. }
  rewrite Hf in Ha. unfold snapshot_peers. unfold peer_snapshot in Ha. rewrite Ha. unfold shown.
  destruct (peers s !! p); [|done]. by case_decide.
Qed.
End Snapshots.

(** ** Convergence *)

Section Convergence.
Context `{CborLaws, HashOrderLaws}.
Variable q : string.

(** The messages still in the receiver, and those on the lanes. *)
Definition heard (l : list (string * bytes)) : list PresenceMessage := omap (fun x => from_cbor x.2) l.
Definition in_lane (ch : Channels) : list PresenceMessage := omap (fun f => from_cbor (of_payload f)) (ephemeral_q ch).

#[local] Arguments acts : simpl never.
#[local] Arguments heard : simpl never.
#[local] Arguments in_lane : simpl never.
#[local] Arguments shown : simpl never.
#[local] Arguments act : simpl never.

(** A frame for this client: a presence frame that decodes and, unless the receiver has
    lagged, says nothing about the client itself. *)
Definition frame_ok (lag : bool) (f : OutboundFrame) : Prop :=
  of_type f = Framing.Presence /\ exists m, from_cbor (of_payload f) = Some m /\
    (lag = false -> forall x, act q x m = x).

(** What the receiver has yet to take and what the tasks have yet to send. *)
Definition ahead (s : Session) : list PresenceMessage := heard (rx s) ++ (og_message <$> pending (sroom s)).
#[local] Arguments ahead : simpl never.

(** What the client will show of [p] when everything on its way has arrived. *)
Definition drained (s : Session) (p : string) : option View :=
  acts p (shown (client s) p) (in_lane (lanes s) ++ ahead s).

Record room_inv (s : Session) : Prop := {
  ri_ok : presence_ok (presence (sroom s));
  ri_rx : Forall (fun x => exists m, carries x m) (rx s);
  ri_pending : Forall speaks (pending (sroom s));
  ri_past p : exists x, shown (presence (sroom s)) p = acts p x (ahead s);
  ri_missed : lagged s = false -> missed s = 0%nat;
}.

Record peer_inv (s : Session) : Prop := {
  pi_lane : Forall (frame_ok (lagged s)) (ephemeral_q (lanes s));
  pi_own : lagged s = false -> shown (client s) q = None;
  pi_exact p : p <> q -> lagged s = false -> drained s p = shown (presence (sroom s)) p;
}.

(** Before joining nothing has been sent; after that the client is on its way to the
    table of the room. *)
Definition session_inv (s : Session) : Prop :=
  unsent (sroom s) = [] -> alive s = true ->
  room_inv s /\
  if joined s then peer_inv s else client s = presence_new /\ ephemeral_q (lanes s) = [].

Lemma heard_relays l : Forall (fun x => exists m, carries x m) l -> Forall (fun m => is_relay m = true) (heard l).
Proof.
  induction 1 as [|x l (m & Hm & Ha) _ IH]; [done|]. unfold heard. cbn. rewrite Hm. constructor; [|done].
  unfold is_relay. rewrite Ha. done.
Qed.

Lemma heard_app l k : heard (l ++ k) = heard l ++ heard k.
Proof. apply omap_app. Qed.
Lemma heard_cons x m l : from_cbor x.2 = Some m -> heard (x :: l) = m :: heard l.
Proof. intros Hm. unfold heard. cbn. by rewrite Hm. Qed.

(** What the room holds is not changed by hearing again what led to it. *)
Lemma room_absorbs s p : room_inv s ->
  acts p (shown (presence (sroom s)) p) (ahead s) = shown (presence (sroom s)) p.
Proof.
  intros [_ Hrx Hpend Hpast _]. destruct (Hpast p) as [x ->]. apply acts_idem. apply Forall_app. split; [by apply heard_relays|].
  apply Forall_fmap. eapply Forall_impl; [done|]. intros o Ho. unfold is_relay. cbn. by rewrite Ho.
Qed.

(** *** Hearing the room *)

Lemma rx_push_all l s : exists k, foldl rx_push s l =
  mkSession (sroom s) (drop k (rx s ++ l)) (k + missed s) (lanes s) (client s) (joined s) (alive s)
    (lagged s || negb (Nat.eqb k 0)).
Proof.
  revert s. induction l as [|x l IH]; intros s.
  - exists 0%nat. cbn. rewrite app_nil_r, orb_false_r. by destruct s.
  - cbn [foldl]. destruct (IH (rx_push s x)) as [k ->]. unfold rx_push. case_decide as Hlen; cbn.
    + exists (S k). destruct (rx s ++ [x]) as [|y r] eqn:E; [by destruct (rx s)|]. cbn.
      assert (rx s ++ x :: l = y :: r ++ l) as -> by (rewrite (cons_middle x), (assoc_L (++)), E; done).
      cbn. f_equal; [lia|]. by rewrite orb_true_r.
    + exists k. by rewrite <-(assoc_L (++)).
Qed.

Lemma heard_carries l ms : Forall2 carries l ms -> heard l = ms.
Proof. induction 1 as [|x m l ms [Hm _] _ IH]; [done|]. by rewrite (heard_cons _ m), IH. Qed.

Lemma hear_inv r s : session_inv s -> good (sroom s) r -> session_inv (hear r s).
Proof.
  intros Hinv Hgood. unfold hear.
  destruct (rx_push_all (drop (length (presence_tx (sroom s))) (presence_tx r)) (set_room r s)) as [k Ek].
  rewrite Ek. clear Ek. intros Hun Hal. cbn in *.
  destruct (Hgood Hun) as [Hun0 Hr]. destruct (Hinv Hun0 Hal) as [[Rok Rrx Rpend Rpast Rmiss] Hp].
  destruct (Hr Rok Rpend) as ((l & ms & news & Etx & Hl & Hpend & Hs & Hmove) & Hok'). clear Hr Hgood Hinv.
  rewrite Etx, drop_app_length. pose proof (heard_carries _ _ Hl) as Hh.
  assert (Hall : Forall (fun x => exists m, carries x m) (rx s ++ l)).
  { apply Forall_app. split; [done|]. clear -Hl. induction Hl; eauto. }
  assert (Hahead : forall p x, acts p x (heard (rx s ++ l) ++ (og_message <$> pending r)) = acts p x (ahead s ++ news)).
  { intros p x. unfold ahead. rewrite heard_app, Hh, <-!(assoc_L (++)), !(acts_app p x (heard (rx s))). apply Hmove. }
  split.
  - split; cbn.
    + done.
    + by apply Forall_drop.
    + done.
    + intros p. destruct (Rpast p) as [x Hx]. exists (acts p x (heard (take k (rx s ++ l)))). unfold ahead. cbn.
      by rewrite <-acts_app, (assoc_L (++)), <-heard_app, (take_drop k), Hahead, acts_app, <-Hx.
    + intros [Hl0 Hk]%orb_false_iff. rewrite Rmiss by done. destruct k; done.
  - destruct (joined s); [|done]. destruct Hp as [P1 P2 P3]. split; cbn.
    + eapply Forall_impl; [done|]. intros f (Hf & m & Hm & Hq). split; [done|]. exists m. split; [done|].
      intros [Hl0 _]%orb_false_iff. by apply Hq.
    + intros [Hl0 _]%orb_false_iff. by apply P2.
    + intros p Hpq [Hl0 Hk]%orb_false_iff. assert (k = 0%nat) as -> by (by destruct k).
      unfold drained in *. cbn in *. unfold ahead at 1. cbn. rewrite drop_0, acts_app, Hahead, acts_app, <-(acts_app p _ (in_lane (lanes s))).
      by rewrite (P3 p Hpq Hl0), Hs.
Qed.

(** *** Frames put on the lanes *)

Lemma send_presence_Ok bs ch ch' u : PeerWriter.send_frame Framing.Presence bs ch = (ch', Ok u) ->
  ephemeral_q ch' = ephemeral_q ch ++ [mkOut Ephemeral Framing.Presence bs].
Proof. unfold PeerWriter.send_frame. destruct (receivers ch); cbn; [|done]. by case_decide; intros [= <- _]. Qed.

Lemma in_lane_push ch ch' bs m : ephemeral_q ch' = ephemeral_q ch ++ [mkOut Ephemeral Framing.Presence bs] ->
  from_cbor bs = Some m -> in_lane ch' = in_lane ch ++ [m].
Proof. intros E Hm. unfold in_lane. rewrite E, omap_app. cbn. by rewrite Hm. Qed.

(** A snapshot of the room's table on the lane, before what is still to be heard. *)
Lemma snapshot_pushed s ch' bs m :
  session_inv s -> joined s = true -> alive s = true ->
  PeerWriter.send_frame Framing.Presence bs (lanes s) = (ch', Ok ()) -> from_cbor bs = Some m ->
  (forall x, act q x m = x) ->
  (forall p x, p <> q -> act p x m = match shown (presence (sroom s)) p with Some v => Some v | None => x end) ->
  session_inv (set_lanes ch' true s).
Proof.
  intros Hinv Hj Hal Hsend Hm Hq Hact Hun _. cbn in Hun.
  destruct (Hinv Hun Hal) as [Hr Hp]. rewrite Hj in Hp. destruct Hp as [P1 P2 P3].
  apply send_presence_Ok in Hsend. pose proof (in_lane_push _ _ _ _ Hsend Hm) as Hlane.
  split; [by destruct Hr; split|]. cbn. rewrite Hj. split; cbn.
  - rewrite Hsend. apply Forall_app. split; [done|]. apply Forall_singleton. split; [done|]. exists m. auto.
  - done.
  - intros p Hpq Hl. specialize (P3 p Hpq Hl). unfold drained in *. cbn. rewrite Hlane.
    change (ahead (set_lanes ch' true s)) with (ahead s).
    rewrite !acts_app in *. unfold acts at 2. cbn. rewrite (Hact p _ Hpq).
    destruct (shown (presence (sroom s)) p) as [v|] eqn:E; [|done]. rewrite <-E at 1. rewrite room_absorbs by done. done.
Qed.

(** The lanes after the client's turn as a new peer: unchanged, or with a snapshot of the
    others. *)
Lemma own_turn_lanes s :
  presence_ok (presence (sroom s)) ->
  let '(_, ch', res) := new_peer_turn q (sroom s) (lanes s) in
  is_ok res = true -> ch' = lanes s \/
  exists bs m, PeerWriter.send_frame Framing.Presence bs (lanes s) = (ch', Ok ()) /\ from_cbor bs = Some m /\
    forall p x, act p x m =
      if decide (p = q) then x else match shown (presence (sroom s)) p with Some v => Some v | None => x end.
Proof.
  intros Hok. unfold new_peer_turn. destruct (list_find _ _) as [[n o]|]; [|by left].
  unfold send_new_peer_snapshot. pose proof (others_snapshot_acts q (sroom s)) as Ha.
  destruct (others_snapshot q (sroom s)) as [m|]; [|by left]. unfold encode_message.
  destruct (to_cbor m) as [bs|] eqn:Em; [|by left].
  destruct (PeerWriter.send_frame Framing.Presence bs (lanes s)) as [ch1 [u|e]] eqn:Ef; [|done].
  intros _. right. exists bs, m. destruct u. split_and!; [done|by apply from_to_cbor|]. intros p x. by apply Ha.
Qed.

Lemma own_turn_inv ch s : session_inv s -> joined s = true -> alive s = true ->
  session_inv (session_step q s (ESnapshot q ch)).
Proof.
  intros Hinv Hj Hal. cbn. rewrite decide_True, Hj, Hal by done. cbn.
  pose proof (own_turn_lanes s) as Hlanes. pose proof (new_peer_good q (sroom s) (lanes s)) as Hg.
  destruct (new_peer_turn q (sroom s) (lanes s)) as [[r ch1] res]. cbn in Hg. apply hear_inv; [|exact Hg].
  destruct (is_ok res); [|intros _ [=]]. intros Hun _. cbn in Hun. destruct (Hinv Hun Hal) as [Hr Hp].
  destruct (Hlanes (ri_ok _ Hr) eq_refl) as [->|(bs & m & Hs & Hm & Ha)].
  - assert (set_lanes (lanes s) true s = s) as -> by (destruct s; cbn in *; by subst). done.
  - apply (snapshot_pushed s ch1 bs m); try done.
    + intros x. rewrite Ha. by rewrite decide_True.
    + intros p x Hpq. rewrite Ha. by rewrite decide_False.
Qed.

Lemma joined_inv now s : session_inv s -> joined s = false -> alive s = true -> session_inv (session_step q s (EJoin now)).
Proof.
  intros Hinv Hj Hal. cbn. rewrite Hj, Hal. cbn. intros Hun Hal'.
  assert (Hun0 : unsent (sroom s) = []).
  { revert Hun. destruct (others_snapshot q (sroom s)) as [m|]; [|done]. destruct (encode_message m) as [bs|]; [|cbn; by destruct (unsent (sroom s))].
    by case_decide. }
  destruct (Hinv Hun0 Hal) as [Hr Hp]. rewrite Hj in Hp. destruct Hp as [Hc Hl].
  assert (Hgo : forall c, (forall p, shown c p = if decide (p = q) then None else shown (presence (sroom s)) p) ->
    room_inv (mkSession (sroom s) (rx s) (missed s) (lanes s) c true true (lagged s)) /\
    peer_inv (mkSession (sroom s) (rx s) (missed s) (lanes s) c true true (lagged s))).
  { intros c Hsh. split; [by destruct Hr; split|]. split; cbn.
    - by rewrite Hl.
    - intros _. rewrite Hsh. by rewrite decide_True.
    - intros p Hpq _. unfold drained. cbn. unfold in_lane. rewrite Hl. cbn. rewrite Hsh, decide_False by done.
      exact (room_absorbs s p Hr). }
  pose proof (fun p => others_snapshot_acts q (sroom s) p None (ri_ok _ Hr)) as Ha.
  revert Hun Hal'. destruct (others_snapshot q (sroom s)) as [m|].
  - unfold encode_message. destruct (to_cbor m) as [bs|] eqn:Em; [|cbn; by destruct (unsent (sroom s))].
    case_decide as Hsz; [done|]. intros _ _. apply Hgo. intros p. rewrite Hc.
    rewrite (client_frame_acts now bs m) by (cbn in Hsz; unfold MAX_PRESENCE_FRAME_SIZE, KIB in *; lia || by apply from_to_cbor).
    change (shown presence_new p) with (@None View). rewrite Ha. case_decide; [done|]. by destruct (shown _ p).
  - intros _ _. apply Hgo. intros p. rewrite Hc. change (shown presence_new p) with (@None View). rewrite (Ha p).
    case_decide; [done|]. by destruct (shown _ p).
Qed.

Lemma forward_inv s : session_inv s -> joined s = true -> alive s = true -> session_inv (session_step q s EForward).
Proof.
  intros Hinv Hj Hal. cbn. rewrite Hj, Hal. cbn. destruct (missed s) as [|n] eqn:Emiss.
  - destruct (rx s) as [|[sender bs] l] eqn:Erx; [done|]. unfold forward_presence_broadcast.
    assert (Hgo : unsent (sroom s) = [] -> forall ch m, from_cbor bs = Some m -> about m = Some sender ->
      (sender = q /\ ch = lanes s \/ sender <> q /\ ephemeral_q ch = ephemeral_q (lanes s) ++ [mkOut Ephemeral Framing.Presence bs]) ->
      room_inv (mkSession (sroom s) l 0 ch (client s) true true (lagged s)) /\
      peer_inv (mkSession (sroom s) l 0 ch (client s) true true (lagged s))).
    { intros Hun ch m Hm Hab Hch. destruct (Hinv Hun Hal) as [[R1 R2 Rp R3 R4] Hp]. rewrite Hj in Hp. destruct Hp as [P1 P2 P3].
      assert (Hah : ahead s = m :: heard l ++ (og_message <$> pending (sroom s))) by (unfold ahead; by rewrite Erx, (heard_cons _ m)).
      rewrite Erx in *. split.
      - split; cbn; [done|by apply Forall_cons in R2 as [_ ?]|done| |done]. intros p. destruct (R3 p) as [x Hx].
        exists (act p x m). by rewrite Hx, Hah.
      - split; cbn; [|done|].
        + destruct Hch as [[-> ->]|[Hne ->]]; [done|]. apply Forall_app. split; [done|]. apply Forall_singleton.
          split; [done|]. exists m. split; [done|]. intros _ x. by eapply act_other.
        + intros p Hpq Hlag. rewrite <-(P3 p Hpq Hlag). unfold drained. cbn. rewrite Hah, !(acts_app p (shown (client s) p)), acts_cons.
          destruct Hch as [[-> ->]|[Hne Hch]].
          * by rewrite (act_other p m q).
          * by rewrite (in_lane_push _ _ _ _ Hch Hm), acts_app. }
    intros Hun Hal'.
    assert (Hc : exists m, from_cbor bs = Some m /\ about m = Some sender).
    { assert (Hun0 : unsent (sroom s) = []).
      { revert Hun. case_decide; [done|]. by destruct (PeerWriter.send_frame _ _ _) as [? []]. }
      destruct (Hinv Hun0 Hal) as [[_ R2 _ _ _] _]. rewrite Erx in R2. apply Forall_cons in R2 as [(m & ?) _]. by exists m. }
    destruct Hc as (m & Hm & Hab). revert Hun Hal'. case_decide as Hd.
    + intros Hun _. cbn in *. apply (Hgo Hun _ m Hm Hab). by left.
    + destruct (PeerWriter.send_frame Framing.Presence bs (lanes s)) as [ch [u|e]] eqn:Es; [|done].
      intros Hun _. cbn in *. apply (Hgo Hun _ m Hm Hab). right. split; [done|]. by eapply send_presence_Ok.
  - unfold forward_presence_broadcast, encode_snapshot, encode_message. intros Hun Hal'.
    destruct (to_cbor _) as [bs|] eqn:Em in Hun, Hal' |- *; [|cbn in Hun; by destruct (unsent (sroom s))].
    destruct (PeerWriter.send_frame Framing.Presence bs (lanes s)) as [ch [u|e]] eqn:Es; [|done]. cbn in *.
    destruct (Hinv Hun Hal) as [[R1 R2 Rp R3 R4] Hp]. rewrite Hj in Hp. destruct Hp as [P1 P2 P3].
    assert (Hlag : lagged s = true) by (destruct (lagged s); [done|]; specialize (R4 eq_refl); lia).
    rewrite Hlag in *. split; [by split|]. split; cbn; [|done..]. rewrite (send_presence_Ok _ _ _ _ Es).
    apply Forall_app. split; [done|]. apply Forall_singleton. split; [done|]. eexists. split; [by apply from_to_cbor|done].
Qed.

Lemma deliver_inv now s : session_inv s -> joined s = true -> alive s = true -> session_inv (session_step q s (EDeliver now)).
Proof.
  intros Hinv Hj Hal. cbn. rewrite Hj, Hal. cbn. destruct (ephemeral_q (lanes s)) as [|f l] eqn:El; [done|].
  intros Hun Hal'. assert (Hun0 : unsent (sroom s) = []) by (revert Hun; by case_decide).
  destruct (Hinv Hun0 Hal) as [Hr Hp]. rewrite Hj in Hp. destruct Hp as [P1 P2 P3]. rewrite El in P1.
  apply Forall_cons in P1 as [(Ht & m & Hm & Hq) P1]. rewrite Ht in *.
  revert Hun Hal'. case_decide as Hsz; [done|]. intros _ _.
  assert (Hsh : forall p, shown (client_presence_frame now (of_payload f) (client s)) p = act p (shown (client s) p) m).
  { intros p. apply client_frame_acts; [|done]. cbn in Hsz. unfold MAX_PRESENCE_FRAME_SIZE, KIB in *. lia. }
  split; [by destruct Hr; split|]. cbn. split; cbn.
  - done.
  - intros Hlag. rewrite Hsh, P2 by done. by apply Hq.
  - intros p Hpq Hlag. rewrite <-(P3 p Hpq Hlag). unfold drained. cbn. rewrite Hsh. unfold in_lane at 2. rewrite El. cbn.
    rewrite Hm. done.
Qed.

Lemma session_inv_step s e : sent_in_turn s e = true -> session_inv s -> session_inv (session_step q s e).
Proof.
  intros Hturn Hinv. assert (Hcase : (joined s = true /\ alive s = true) \/ joined s && alive s = false)
    by (destruct (joined s), (alive s); auto).
  destruct e as [p i payload now|p ch|n|p|p now|st env now|now| |now].
  - cbn. destruct (bool_decide (p = q) && _); [done|]. apply hear_inv; [done|apply frame_good].
  - destruct (decide (p = q)) as [->|Hne].
    + destruct Hcase as [[Hj Hal]|Hf]; [by apply own_turn_inv|]. cbn. by rewrite decide_True, Hf.
    + cbn. rewrite decide_False by done. apply hear_inv; [done|apply new_peer_good].
  - cbn. apply hear_inv; [done|by apply send_good].
  - cbn. case_decide; [done|]. apply hear_inv; [done|apply cleanup_good].
  - cbn. apply hear_inv; [done|apply prune_good].
  - cbn. apply hear_inv; [done|by apply kernel_good].
  - destruct (joined s) eqn:Hj; [cbn; by rewrite Hj|]. destruct (alive s) eqn:Hal; [by apply joined_inv|].
    cbn. by rewrite Hj, Hal.
  - destruct Hcase as [[Hj Hal]|Hf]; [by apply forward_inv|]. cbn. by rewrite Hf.
  - destruct Hcase as [[Hj Hal]|Hf]; [by apply deliver_inv|]. cbn. by rewrite Hf.
Qed.

Lemma session_inv_start r : presence_ok (presence r) -> pending r = [] -> session_inv (session_start r).
Proof.
  intros Hok Hp _ _. split; [|done]. split; cbn; try done; [by rewrite Hp|]. intros p. unfold ahead. cbn. rewrite Hp. by eexists.
Qed.

Lemma session_inv_run r es : presence_ok (presence r) -> pending r = [] -> sends_in_order q (session_start r) es = true ->
  session_inv (run_session q r es).
Proof.
  intros Hok Hp. unfold run_session. generalize (session_inv_start r Hok Hp). generalize (session_start r).
  induction es as [|e es IH]; intros s Hs Ho; [done|]. cbn in *. apply andb_true_iff in Ho as [He Ho].
  apply IH; [|done]. by apply session_inv_step.
Qed.
End Convergence.

(** ** Properties *)

(** C13. A client that joined, has not lagged behind the broadcast channel and has received
    everything sent to it shows the daemon's table: every other peer with the same label,
    actor and channels, nobody who left, and not itself.  Frames of any peer, snapshots,
    departures, pruning and kernel updates interleave in any order, and every message is
    sent some time after the change it announces, outside the lock on the table.  The
    condition is that the messages about one peer are sent in the order of its changes, and
    that none is left to be sent ([late_left_hides_peer] shows that it is needed: the code
    does not order the departure a prune announces before the peer's next update). *)
Theorem presence_converges `{CborLaws, HashOrderLaws} q r es p :
  let s := run_session q r es in
  presence_ok (presence r) -> pending r = [] -> sends_in_order q (session_start r) es = true ->
  unsent (sroom s) = [] -> pending (sroom s) = [] ->
  alive s = true -> joined s = true -> lagged s = false ->
  ephemeral_q (lanes s) = [] -> rx s = [] ->
  shown (client s) p = if decide (p = q) then None else shown (presence (sroom s)) p.
Proof.
  intros s Hok Hpr Hord Hun Hpend Hal Hj Hlag Hl Hrx. destruct (session_inv_run q r es Hok Hpr Hord Hun Hal) as [_ Hp].
  fold s in Hp. rewrite Hj in Hp. destruct Hp as [_ P2 P3]. case_decide as Hd; [subst p; by apply P2|].
  rewrite <-(P3 p Hd Hlag). unfold drained, in_lane, ahead. by rewrite Hl, Hrx, Hpend.
Qed.

(** A message of a client: about itself, and not the kernel. *)
Definition own_relay (p : string) (o : outgoing) : Prop :=
  og_sender o = p /\ about (og_message o) = Some p /\
    match og_message o with MUpdate _ _ _ d => is_kernel_state d = false | _ => True end.

Definition kernel_channel (p : string) (s : PresenceState) : option ChannelData :=
  get_peer p s ≫= fun pp => pp_channels pp !! ChKernelState.

(** What a client may do to the room. *)
Definition own_change (p : string) (i : RoomConnectionIdentity) (r r' : RoomPresence) : Prop :=
  (forall id, id <> p -> get_peer id (presence r') = get_peer id (presence r)) /\
  (forall d, kernel_channel p (presence r') = Some d -> kernel_channel p (presence r) = Some d) /\
  (forall pp, get_peer p (presence r') = Some pp ->
     (exists presented, pp_actor_label pp = Some (presence_label i presented)) \/
     (exists pp0, get_peer p (presence r) = Some pp0 /\ pp_actor_label pp0 = pp_actor_label pp)) /\
  presence_tx r' = presence_tx r /\
  (exists l, pending r' = pending r ++ l /\ Forall (own_relay p) l).

Lemma own_change_refl p i r : own_change p i r r.
Proof. split_and!; [done..|eauto|done|]. exists []. by rewrite app_nil_r. Qed.

Lemma own_change_announce p i r f b m :
  about m = Some p -> match m with MUpdate _ _ _ d => is_kernel_state d = false | _ => True end ->
  own_change p i r (on_presence f r) -> own_change p i r (announce b p m (on_presence f r)).
Proof.
  intros Ha Hk (H1 & H2 & H3 & H4 & _). split_and!; [done..|]. eexists. split; [done|]. by apply Forall_singleton.
Qed.

Lemma own_change_update p i r label presented d now : is_kernel_state d = false ->
  own_change p i r (on_presence (fun s => (update_peer p label (Some (presence_label i presented)) d now s).1) r).
Proof.
  intros Hk. split_and!; cbn; unfold get_peer; cbn.
  - intros id Hne. by rewrite lookup_insert_ne.
  - intros d'. unfold kernel_channel, get_peer. cbn. rewrite lookup_insert_eq. cbn.
    rewrite lookup_insert_ne by (by destruct d). by destruct (peers (presence r) !! p).
  - intros pp. rewrite lookup_insert_eq. intros [= <-]. left. by exists presented.
  - done.
  - exists []. by rewrite app_nil_r.
Qed.

Lemma own_change_clear p i r c :
  own_change p i r (on_presence (fun s => (clear_channel p c s).1) r).
Proof.
  unfold on_presence, clear_channel. destruct (peers (presence r) !! p) as [q|] eqn:E; [|destruct r; apply own_change_refl].
  split_and!; cbn; unfold get_peer, kernel_channel, get_peer; cbn.
  - intros id Hne. by rewrite lookup_insert_ne.
  - intros d. rewrite lookup_insert_eq, E. cbn. rewrite lookup_delete. by case_decide.
  - intros pp. rewrite lookup_insert_eq. intros [= <-]. right. by exists q.
  - done.
  - exists []. by rewrite app_nil_r.
Qed.

Lemma own_change_seen p i r now : own_change p i r (on_presence (mark_seen p now) r).
Proof.
  unfold on_presence, mark_seen. destruct (peers (presence r) !! p) as [q|] eqn:E; [|destruct r; apply own_change_refl].
  split_and!; cbn; unfold get_peer, kernel_channel, get_peer; cbn.
  - intros id Hne. by rewrite lookup_insert_ne.
  - intros d. by rewrite lookup_insert_eq, E.
  - intros pp. rewrite lookup_insert_eq. intros [= <-]. right. by exists q.
  - done.
  - exists []. by rewrite app_nil_r.
Qed.

(** Presence cannot be spoofed: whatever bytes a peer sends, only its own entry changes,
    it never gains a kernel state, the actor shown for it carries the principal of its
    connection, and everything relayed is about itself. *)
Theorem presence_not_spoofed `{Cbor} p i payload now r presented :
  principal_valid (conn_principal (auth i)) -> operator_valid (fallback_operator i) ->
  own_change p i r (handle_presence_frame p i payload now r) /\
  exists l, label_parse (presence_label i presented) = Ok l /\ principal_value l = Ok (conn_principal (auth i)).
Proof.
  intros Hp Ho. split.
  - unfold handle_presence_frame. case_decide; [apply own_change_refl|].
    destruct (decode_message payload) as [[id label actor d|sender l|id|id|id c]|e]; try apply own_change_refl.
    + destruct (is_kernel_state d) eqn:Hk; [apply own_change_refl|].
      pose proof (own_change_update p i r (sanitize_peer_label label p) actor d now Hk) as Hu. unfold on_presence in *.
      destruct (update_peer p _ _ d now (presence r)) as [s' is_new]. by apply (own_change_announce p i r (fun _ => s')).
    + apply own_change_seen.
    + apply own_change_announce; [done..|apply own_change_clear].
  - eexists. by apply rewritten_label_principal.
Qed.

(** A snapshot over the frame limit fails the join, whatever the socket. *)
Lemma oversized_snapshot_refused `{Cbor, HashOrder} q r w m bs :
  peer_count (presence r) <> 0%nat -> others_snapshot q r = Some m -> to_cbor m = Some bs ->
  zlen bs > MAX_PRESENCE_FRAME_SIZE ->
  send_initial_presence_snapshot q r w = (r, w, Err (OutboundTooLargeForType Byte.x04 (zlen bs) 4096)).
Proof.
  intros Hn Hm Hbs Hsz. unfold send_initial_presence_snapshot, encode_message. rewrite decide_False, Hm, Hbs by done.
  unfold send_typed_frame, send_raw_typed_frame. cbn. unfold MAX_PRESENCE_FRAME_SIZE, KIB in *.
  by rewrite decide_True by lia.
Qed.

Module RelayExamples.
Import TableCodec.

Definition ann : RoomConnectionIdentity :=
  mkRoomIdentity (mkConnection (mkPrincipal "local:ann") Owner []) (mkOperator "desktop:a").
Definition at_line (n : Z) : ChannelData := DCursor (mkCursor "c1" n 0).
Definition empty_room : RoomPresence := mkRoomP presence_new [] [] [].
Definition label : string := "local:ann/desktop:a".

(** What ann's client sends, and what the daemon makes of it. *)
Definition sent (n : Z) : PresenceMessage := MUpdate "" (Some " Ann ") None (at_line n).
Definition relayed (n : Z) : PresenceMessage := MUpdate "p1" (Some "Ann") (Some label) (at_line n).
Definition snap : PresenceMessage := MSnapshot "daemon" [mkPeerSnapshot "p1" "Ann" (Some label) [at_line 1]].
Definition table : list PresenceMessage := [sent 1; relayed 1; snap; sent 2; relayed 2; MLeft "p1"; MHeartbeat "p1"].
Definition cb : Cbor := table_cbor table.
#[local] Existing Instance cb.
Definition bytes_of (m : PresenceMessage) : bytes := default [] (to_cbor m).

Definition quiet : Channels := spawn_channels.

(** A client joins between two updates and receives both ways. *)
Definition history : list presence_event :=
  [EFrame "p1" ann (bytes_of (sent 1)) 10; EJoin 11; ESnapshot "p1" quiet; EFrame "p1" ann (bytes_of (sent 2)) 12;
   ESend 0; ESend 0; EForward; EForward; EDeliver 13; EDeliver 14].

Lemma presence_converges_witness :
  shown (client (run_session "q" empty_room history)) "p1" =
    Some (mkView "p1" "Ann" (Some label) {[ChCursor := at_line 2]}).
Proof.
  rewrite (@presence_converges cb (table_cbor_laws table) _ _ "q" empty_room history "p1");
    [vm_compute; reflexivity|apply map_Forall_empty|vm_compute; reflexivity..].
Defined.

Lemma presence_not_spoofed_witness :
  own_change "p1" ann empty_room (handle_presence_frame "p1" ann (bytes_of (sent 1)) 10 empty_room) /\
  exists l, label_parse (presence_label ann (Some "local:mallory/agent:x")) = Ok l /\
    principal_value l = Ok (mkPrincipal "local:ann").
Proof.
  apply (@presence_not_spoofed cb "p1" ann); vm_compute; reflexivity.
Defined.

(** "A" U+200B " b " U+0007 "c" keeps its visible characters. *)
Lemma peer_label_sanitized_witness :
  sanitize_peer_label (Some (utf8_string [32; 65; 8203; 32; 98; 32; 7; 233])) "p1" = utf8_string [65; 32; 98; 32; 233].
Proof.
  destruct (peer_label_sanitized [32; 65; 8203; 32; 98; 32; 7; 233] "p1") as [H|(_ & _ & H)];
    [repeat constructor|vm_compute; reflexivity..].
Defined.

(** A client that lags keeps showing a peer that has left, and comes to show itself: the
    catch-up snapshot only adds, and names every peer of the table. *)
Definition lag_table : list PresenceMessage :=
  [sent 1; relayed 1; sent 2; MUpdate "p2" (Some "Ann") (Some label) (at_line 2); MLeft "p1";
   MUpdate "q" (Some "Ann") (Some label) (at_line 1);
   MSnapshot "daemon" [mkPeerSnapshot "q" "Ann" (Some label) [at_line 1]];
   MSnapshot "q" [mkPeerSnapshot "p2" "Ann" (Some label) [at_line 2]; mkPeerSnapshot "q" "Ann" (Some label) [at_line 1]];
   MSnapshot "q" [mkPeerSnapshot "q" "Ann" (Some label) [at_line 1]; mkPeerSnapshot "p2" "Ann" (Some label) [at_line 2]]].
Definition lag_frame (p : string) (m : PresenceMessage) (now : Z) : list presence_event :=
  [EFrame p ann (default [] (table_encode lag_table m)) now; ESnapshot p quiet; ESend 0].
Definition lag_history : list presence_event :=
  [EJoin 0] ++ lag_frame "q" (sent 1) 1 ++ lag_frame "p1" (sent 1) 2 ++
  replicate 2 EForward ++ [EDeliver 3; EDisconnect "p1"; ESend 0] ++ mjoin (replicate 65 (lag_frame "p2" (sent 2) 20)) ++
  replicate 66 EForward ++ replicate 66 (EDeliver 30).

Lemma lag_keeps_departed :
  let s := @run_session (table_cbor lag_table) _ "q" empty_room lag_history in
  unsent (sroom s) = [] /\ alive s = true /\ rx s = [] /\ missed s = 0%nat /\ ephemeral_q (lanes s) = [] /\
  get_peer "p1" (presence (sroom s)) = None /\ is_Some (get_peer "p1" (client s)) /\ is_Some (get_peer "q" (client s)).
Proof. cbv zeta. split_and!; try (vm_compute; reflexivity); vm_compute; eexists; reflexivity. Qed.

(** A presence frame within the limit can make a relay over it, which ends the connection
    of every peer it is sent to. *)
Definition big : ChannelData := DCustom (replicate 4090 Byte.x00).
Definition big_table : list PresenceMessage :=
  [MUpdate "" None None big; MUpdate "p1" (Some "p1") (Some label) big].

Lemma large_update_disconnects :
  let payload := default [] (table_encode big_table (MUpdate "" None None big)) in
  let s := @run_session (table_cbor big_table) _ "q" empty_room
    [EJoin 0; EFrame "p1" ann payload 1; ESnapshot "p1" quiet; ESend 0; EForward; EDeliver 2] in
  bool_decide (zlen payload <= MAX_PRESENCE_FRAME_SIZE) = true /\ unsent (sroom s) = [] /\ alive s = false.
Proof. cbv zeta. split_and!; vm_compute; reflexivity. Qed.

(** Two peers with data within the limit make a snapshot over it: nobody can join. *)
Definition half (p : string) : PresenceMessage := MUpdate p (Some p) None (DCustom (replicate 2100 Byte.x00)).
Definition full_room : RoomPresence :=
  mkRoomP (run_presence [PUpdate "p1" "p1" None (DCustom (replicate 2100 Byte.x00)) 0;
                         PUpdate "p2" "p2" None (DCustom (replicate 2100 Byte.x00)) 0]) [] [] [].
Definition full_table : list PresenceMessage := [MSnapshot "daemon" (snapshot_peers (presence full_room))].

Lemma large_snapshot_refuses_join :
  bool_decide (Z.of_nat (message_len (half "p1")) <= MAX_PRESENCE_FRAME_SIZE) = true /\
  (@send_initial_presence_snapshot (table_cbor full_table) _ "q" full_room (mkWriter [] None None)).2 =
    Err (OutboundTooLargeForType Byte.x04 4215 4096).
Proof. split; vm_compute; reflexivity. Qed.

(** A prune removes a peer and releases the table; the peer updates and its update is sent
    first; then the departure is sent.  Everything is delivered, and the client does not
    show a peer that is in the table. *)
Definition late_left : list presence_event :=
  [EJoin 0; EFrame "p1" ann (bytes_of (sent 1)) 10; ESnapshot "p1" quiet; ESend 0; EPrune "q" 60000;
   EFrame "p1" ann (bytes_of (sent 2)) 60001; ESnapshot "p1" quiet; ESend 1; ESend 0;
   EForward; EForward; EForward; EDeliver 60002; EDeliver 60003; EDeliver 60004].

Lemma late_left_hides_peer :
  let s := run_session "q" empty_room late_left in
  unsent (sroom s) = [] /\ pending (sroom s) = [] /\ alive s = true /\ joined s = true /\ lagged s = false /\
  ephemeral_q (lanes s) = [] /\ rx s = [] /\ shown (client s) "p1" = None /\ is_Some (shown (presence (sroom s)) "p1").
Proof. cbv zeta. split_and!; try (vm_compute; reflexivity); vm_compute; eexists; reflexivity. Qed.

(** The kernel's state has no connection that keeps it alive: pruning by any peer removes
    it 45 seconds after the last status change. *)
Definition kernel_table : list PresenceMessage :=
  [MUpdate "daemon" None None (DKernelState (mkKernelData KsIdle "uv:inline")); MLeft "daemon"].

Lemma idle_kernel_state_pruned :
  let r := @update_kernel_presence_locked (table_cbor kernel_table) KsIdle "uv:inline" 0 empty_room in
  let r' := prune_stale_presence "q" 45001 r in
  kernel_state (presence r) = Some (mkKernelData KsIdle "uv:inline") /\ kernel_state (presence r') = None /\
  unsent r' = [] /\ og_message <$> pending r' = [MLeft "daemon"].
Proof. cbv zeta. split_and!; vm_compute; reflexivity. Qed.
End RelayExamples.
