(* ===== verification/Comments.v ===== *)
(** * The comments document

    Model of [crates/comments-doc/src/doc.rs], [types.rs] and [identity.rs]: threads
    anchored to a notebook, its cells, ranges of source or outputs, each with ordered
    messages, on the tree of [Automunge].  Beside the tree a document carries who wrote
    what is shown: the actor of the operation that created an object or wrote a field,
    which is where Automerge object ids take author labels from.  Concurrent values
    matter for the document's identity only and are kept there.  The sync protocol is
    Automerge's: a received message gives a new document, which is a parameter.  The
    theorems: threads and messages refine ordered lists with their authors and errors,
    a received document keeps its identity, and source ranges are located exactly. *)

From S2P Require Import Prelude Automunge RuntimeDoc RuntimeOutputs NotebookDoc Text.

(** ** Anchors *)

Inductive NotebookCommentRef :=
| HostedRoom (room_locator : string)
| LocalPath (canonical_path : string)
| LocalRoom (room_id : string).

Inductive CommentAnchor :=
| ANotebook
| ACell (cell_id : string) (observed_cell_position : option string)
| ACellRange (start_cell_id end_cell_id : string) (start_position end_position : option string)
| ASourceRange (cell_id : string) (start_line start_column end_line end_column : Z)
    (prefix_quote exact_quote suffix_quote : option string)
| AOutput (cell_id : string) (execution_id output_id : option string).

#[export] Instance NotebookCommentRef_eq_dec : EqDecision NotebookCommentRef.
Proof. solve_decision. Defined.
#[export] Instance CommentAnchor_eq_dec : EqDecision CommentAnchor.
Proof. solve_decision. Defined.

Definition thread_order_scope (a : CommentAnchor) : string :=
  match a with
  | ANotebook => "notebook"
  | ACell c _ | ASourceRange c _ _ _ _ _ _ _ => "cell:" +:+ c
  | AOutput c e o => "output:" +:+ c +:+ ":" +:+ default "" e +:+ ":" +:+ default "" o
  | ACellRange s e _ _ => "cell_range:" +:+ s +:+ ":" +:+ e
  end.

Definition sorted_unique (a b : string) : list string :=
  if decide (a = b) then [a] else if decide (String.le a b) then [a; b] else [b; a].

Definition badge_cell_ids (a : CommentAnchor) (order : option (list string)) : list string :=
  match a with
  | ANotebook => []
  | ACell c _ | ASourceRange c _ _ _ _ _ _ _ | AOutput c _ _ => [c]
  | ACellRange s e _ _ =>
      match order with
      | None => sorted_unique s e
      | Some order =>
          match list_find (fun k => k = s) order, list_find (fun k => k = e) order with
          | Some (a, _), Some (b, _) =>
              let lo := Nat.min a b in take (S (Nat.max a b) - lo) (drop lo order)
          | _, _ => sorted_unique s e
          end
      end
  end.

(** *** Serde

    The tagged encoding of the two enums.  An absent or null optional field is [None] and
    unknown fields are ignored; values that are not objects, which no writer stores, are
    not read. *)
Definition opt_json (o : option string) : json := match o with Some s => JString s | None => JNull end.
Definition u64_json (n : Z) : json := JNumber (PosInt n).

Definition anchor_to_json (a : CommentAnchor) : json :=
  JObject match a with
  | ANotebook => {["kind" := JString "notebook"]}
  | ACell c p => {["kind" := JString "cell"; "cell_id" := JString c; "observed_cell_position" := opt_json p]}
  | ACellRange s e p q => {["kind" := JString "cell_range"; "start_cell_id" := JString s; "end_cell_id" := JString e;
      "start_position" := opt_json p; "end_position" := opt_json q]}
  | ASourceRange c sl sc el ec p q r => {["kind" := JString "source_range"; "cell_id" := JString c;
      "start_line" := u64_json sl; "start_column" := u64_json sc; "end_line" := u64_json el;
      "end_column" := u64_json ec; "prefix_quote" := opt_json p; "exact_quote" := opt_json q;
      "suffix_quote" := opt_json r]}
  | AOutput c e o => {["kind" := JString "output"; "cell_id" := JString c; "execution_id" := opt_json e;
      "output_id" := opt_json o]}
  end.

Definition field_str (m : gmap string json) (k : string) : option string :=
  match m !! k with Some (JString s) => Some s | _ => None end.
Definition field_opt (m : gmap string json) (k : string) : option (option string) :=
  match m !! k with Some (JString s) => Some (Some s) | None | Some JNull => Some None | _ => None end.
Definition field_u64 (m : gmap string json) (k : string) : option Z :=
  match m !! k with Some (JNumber (PosInt n)) => Some n | _ => None end.

Definition anchor_from_json (v : json) : option CommentAnchor :=
  match v with
  | JObject m =>
      kind ← field_str m "kind";
      if decide (kind = "notebook") then Some ANotebook
      else if decide (kind = "cell") then
        c ← field_str m "cell_id"; p ← field_opt m "observed_cell_position"; Some (ACell c p)
      else if decide (kind = "cell_range") then
        s ← field_str m "start_cell_id"; e ← field_str m "end_cell_id";
        p ← field_opt m "start_position"; q ← field_opt m "end_position"; Some (ACellRange s e p q)
      else if decide (kind = "source_range") then
        c ← field_str m "cell_id"; sl ← field_u64 m "start_line"; sc ← field_u64 m "start_column";
        el ← field_u64 m "end_line"; ec ← field_u64 m "end_column"; p ← field_opt m "prefix_quote";
        q ← field_opt m "exact_quote"; r ← field_opt m "suffix_quote"; Some (ASourceRange c sl sc el ec p q r)
      else if decide (kind = "output") then
        c ← field_str m "cell_id"; e ← field_opt m "execution_id"; o ← field_opt m "output_id"; Some (AOutput c e o)
      else None
  | _ => None
  end.

Definition ref_to_json (r : NotebookCommentRef) : json :=
  JObject match r with
  | HostedRoom l => {["kind" := JString "hosted_room"; "room_locator" := JString l]}
  | LocalPath p => {["kind" := JString "local_path"; "canonical_path" := JString p]}
  | LocalRoom i => {["kind" := JString "local_room"; "room_id" := JString i]}
  end.

Definition ref_from_json (v : json) : option NotebookCommentRef :=
  match v with
  | JObject m =>
      kind ← field_str m "kind";
      if decide (kind = "hosted_room") then HostedRoom <$> field_str m "room_locator"
      else if decide (kind = "local_path") then LocalPath <$> field_str m "canonical_path"
      else if decide (kind = "local_room") then LocalRoom <$> field_str m "room_id"
      else None
  | _ => None
  end.

(** *** Source ranges *)

Inductive AnchorError :=
| RangeOrder | QuoteTooLong (field : string) | QuoteGone | RangeOutside
| LineOutside | ColumnInside | ColumnOutside.

Definition MAX_SOURCE_COMMENT_QUOTE_BYTES : Z := 4096.

Definition validate_source_range_order (sl sc el ec : Z) : result AnchorError () :=
  if (el <? sl) || (sl =? el) && (ec <? sc) then Err RangeOrder else Ok ().

Definition validate_source_quote_bound (field : string) (quote : option string) : result AnchorError () :=
  match quote with
  | Some q => if decide (Z.of_nat (String.length q) > MAX_SOURCE_COMMENT_QUOTE_BYTES) then Err (QuoteTooLong field)
              else Ok ()
  | None => Ok ()
  end.

Definition validate_comment_anchor (a : CommentAnchor) : result AnchorError () :=
  match a with
  | ASourceRange _ sl sc el ec p q r =>
      let? _ := validate_source_range_order sl sc el ec in
      let? _ := validate_source_quote_bound "prefix_quote" p in
      let? _ := validate_source_quote_bound "exact_quote" q in
      validate_source_quote_bound "suffix_quote" r
  | _ => Ok ()
  end.

Definition len_utf8 (c : Z) : Z := zlen (utf8_char c).
Definition len_utf16 (c : Z) : Z := if c <? 65536 then 1 else 2.
Definition newline : Z := 10.

(** The loop over lines: the offset after [line] newlines, and the rest. *)
Fixpoint skip_lines (line offset : Z) (cs : list Z) : option (Z * list Z) :=
  if line =? 0 then Some (offset, cs)
  else match cs with
  | [] => None
  | c :: r => skip_lines (if c =? newline then line - 1 else line) (offset + len_utf8 c) r
  end.

(** The loop over the characters of the line. *)
Fixpoint find_column (column units offset : Z) (cs : list Z) : result AnchorError Z :=
  if units =? column then Ok offset
  else match cs with
  | [] => Err ColumnOutside
  | c :: r =>
      if c =? newline then Err ColumnOutside
      else
        let units := units + len_utf16 c in
        if column <? units then Err ColumnInside else find_column column units (offset + len_utf8 c) r
  end.

Definition source_byte_offset_from_utf16_point (source : string) (line column : Z) : result AnchorError Z :=
  match skip_lines line 0 (chars source) with
  | None => Err LineOutside
  | Some (offset, rest) => find_column column 0 offset rest
  end.

(** [source[a..b]]. *)
Definition byte_slice (s : string) (a b : Z) : string := String.substring (Z.to_nat a) (Z.to_nat (b - a)) s.

Definition validate_source_range_anchor_against_source (a : CommentAnchor) (source : string) : result AnchorError () :=
  let? _ := validate_comment_anchor a in
  match a with
  | ASourceRange _ sl sc el ec _ quote _ =>
      let located := match source_byte_offset_from_utf16_point source sl sc,
                           source_byte_offset_from_utf16_point source el ec with
        | Ok start, Ok end_ =>
            (start <=? end_) && match quote with
              | None => true
              | Some q => bool_decide (byte_slice source start end_ = q)
              end
        | _, _ => false
        end in
      if located then Ok ()
      else match quote with
      | Some q => if negb (bool_decide (q = "")) && str_contains source q then Ok () else Err QuoteGone
      | None => Err RangeOutside
      end
  | _ => Ok ()
  end.

(** ** The document *)

Inductive CommentsDocError :=
| MissingCommentsDocId
| InvalidCommentsDocId (id : string)
| CommentsDocIdMismatch (expected actual : string)
| CommentsDocIdConflict
| MissingScaffold (key : string)
| ThreadNotFound (id : string)
| MessageNotFound (thread_id message_id : string)
| ThreadAlreadyExists (id : string)
| MessageAlreadyExists (thread_id message_id : string)
| AfterThreadNotFound (id : string)
| AfterMessageNotFound (id : string)
| InvalidPosition (p : string)
| InvalidAnchor (e : AnchorError)
| AutomergeFailed (what : string).

(** The tree, the values of the identity that compete with the one in the tree, who wrote
    the object or field at a path, the identity as cached, and the actor of local writes. *)
Record CommentsDoc := mkComments {
  root : gmap string node; id_rivals : list node; writers : gmap (list string) string;
  comments_doc_id : string; doc_actor : string;
}.

Definition CommentsM (A : Type) : Type := CommentsDoc -> CommentsDoc * result CommentsDocError A.

Definition COMMENTS_DOC_DEFAULT_ACTOR : string := "runtimed:comments".
Definition DEFAULT_POSITION : string := "80".
Definition COMMENTS_DOC_SCHEMA_VERSION : Z := 1.

Definition set_root (m : gmap string node) (d : CommentsDoc) : CommentsDoc :=
  mkComments m (id_rivals d) (writers d) (comments_doc_id d) (doc_actor d).
Definition set_cached (id : string) (d : CommentsDoc) : CommentsDoc :=
  mkComments (root d) (id_rivals d) (writers d) id (doc_actor d).
(** The local actor writes at these paths. *)
Definition sign (paths : list (list string)) (d : CommentsDoc) : CommentsDoc :=
  mkComments (root d) (id_rivals d) (foldr (fun p m => <[p := doc_actor d]> m) (writers d) paths)
    (comments_doc_id d) (doc_actor d).

(** *** Identity *)

Definition slash_code : Z := 47.
Definition backslash_code : Z := 92.

Definition validate_comments_doc_id (id : string) : result CommentsDocError () :=
  if decide (id = "") then Err MissingCommentsDocId
  else if negb (String.prefix "comments:" id) || bool_decide (id = "comments:") ||
          negb (bool_decide (trim (chars id) = chars id)) ||
          existsb (fun c => is_control c || (c =? slash_code) || (c =? backslash_code)) (chars id)
  then Err (InvalidCommentsDocId id)
  else Ok ().

(** The schema every document starts from. *)
Definition schema_seed : gmap string node :=
  {["schema_version" := NScalar (SUint COMMENTS_DOC_SCHEMA_VERSION); "comments_doc_id" := str_node "";
    "notebook_ref" := NMap ∅; "threads" := NMap ∅]}.

Definition seed_doc (actor : string) : CommentsDoc := mkComments schema_seed [] ∅ "" actor.

Definition set_comments_doc_id (id : string) : CommentsM () := fun d =>
  match validate_comments_doc_id id with
  | Err e => (d, Err e)
  | Ok _ => (mkComments (<["comments_doc_id" := str_node id]> (root d)) [] (writers d) id (doc_actor d), Ok ())
  end.

Definition set_notebook_ref (r : NotebookCommentRef) (d : CommentsDoc) : CommentsDoc :=
  set_root (update_json_at_key (root d) "notebook_ref" (ref_to_json r)) d.

Definition notebook_ref (d : CommentsDoc) : option NotebookCommentRef :=
  read_json_value (root d) "notebook_ref" ≫= ref_from_json.

Definition raw_comments_doc_id (d : CommentsDoc) : option string := read_string (root d) "comments_doc_id".

Definition try_new_with_actor (id : string) (r : NotebookCommentRef) (actor : string)
    : result CommentsDocError CommentsDoc :=
  let? _ := validate_comments_doc_id id in
  match set_comments_doc_id id (seed_doc actor) with
  | (_, Err e) => Err e
  | (d, Ok _) => Ok (set_notebook_ref r d)
  end.

Definition new_empty_for_sync (actor : string) : CommentsDoc := seed_doc actor.

(** The values of the identity that are visible, as strings. *)
Fixpoint all_strings (l : list node) : option (list string) :=
  match l with
  | [] => Some []
  | n :: l => s ← node_str n; r ← all_strings l; Some (s :: r)
  end.

Definition unambiguous_raw_comments_doc_id (d : CommentsDoc) : result CommentsDocError (option string) :=
  match all_strings (option_list (root d !! "comments_doc_id") ++ id_rivals d) with
  | None => Err CommentsDocIdConflict
  | Some l => match remove_dups l with
      | [] => Ok None
      | [s] => Ok (Some s)
      | _ => Err CommentsDocIdConflict
      end
  end.

Definition ensure_raw_comments_doc_id_matches_value (expected : string) (d : CommentsDoc)
    : result CommentsDocError () :=
  let? _ := validate_comments_doc_id expected in
  let? actual := unambiguous_raw_comments_doc_id d in
  match actual with
  | None => Err MissingCommentsDocId
  | Some actual =>
      let? _ := validate_comments_doc_id actual in
      if decide (actual = expected) then Ok () else Err (CommentsDocIdMismatch expected actual)
  end.

Definition ensure_raw_comments_doc_id_matches (d : CommentsDoc) : result CommentsDocError () :=
  ensure_raw_comments_doc_id_matches_value (comments_doc_id d) d.

Definition adopt_synced_identity : CommentsM bool := fun d =>
  if decide (comments_doc_id d <> "") then (d, Ok false)
  else match unambiguous_raw_comments_doc_id d with
  | Err e => (d, Err e)
  | Ok None => (d, Ok false)
  | Ok (Some raw) =>
      if decide (raw = "") then (d, Ok false)
      else match validate_comments_doc_id raw with
      | Err e => (d, Err e)
      | Ok _ => (set_cached raw d, Ok true)
      end
  end.

Definition repair_identity_fields (expected : string) (r : NotebookCommentRef) (allow_mismatch : bool)
    : CommentsM bool := fun d =>
  match validate_comments_doc_id expected with
  | Err e => (d, Err e)
  | Ok _ =>
      let set_id d := match set_comments_doc_id expected d with
        | (d, Err e) => (d, Err e)
        | (d, Ok _) => (d, Ok true)
        end in
      let '(d, res) := match ensure_raw_comments_doc_id_matches_value expected d with
        | Ok _ => (set_cached expected d, Ok false)
        | Err CommentsDocIdConflict => set_id d
        | Err (CommentsDocIdMismatch a b) => if allow_mismatch then set_id d else (d, Err (CommentsDocIdMismatch a b))
        | Err e => (d, Err e)
        end in
      match res with
      | Err e => (d, Err e)
      | Ok repaired =>
          let '(d, repaired) :=
            if decide (notebook_ref d <> Some r) then (set_notebook_ref r d, true) else (d, repaired) in
          match ensure_raw_comments_doc_id_matches_value expected d with
          | Err e => (d, Err e)
          | Ok _ => (d, Ok repaired)
          end
      end
  end.

(** [load_with_actor] and [load_with_actor_repairing_identity], of bytes that Automerge
    loads as a tree with rivals and writers, or refuses. *)
Definition loaded (expected actor : string) (x : gmap string node * list node * gmap (list string) string)
    : CommentsDoc := mkComments x.1.1 x.1.2 x.2 expected actor.

Definition load_with_actor (bytes : option (gmap string node * list node * gmap (list string) string))
    (expected actor : string) : result CommentsDocError CommentsDoc :=
  let? _ := validate_comments_doc_id expected in
  match bytes with
  | None => Err (AutomergeFailed "load")
  | Some x =>
      let d := loaded expected actor x in
      let? _ := ensure_raw_comments_doc_id_matches d in Ok d
  end.

Definition load_with_actor_repairing_identity
    (bytes : option (gmap string node * list node * gmap (list string) string))
    (expected : string) (r : NotebookCommentRef) (actor : string) : result CommentsDocError (CommentsDoc * bool) :=
  let? _ := validate_comments_doc_id expected in
  match bytes with
  | None => Err (AutomergeFailed "load")
  | Some x =>
      match repair_identity_fields expected r false (loaded expected actor x) with
      | (_, Err e) => Err e
      | (d, Ok repaired) => let? _ := ensure_raw_comments_doc_id_matches d in Ok (d, repaired)
      end
  end.

(** *** Receiving

    [receive_sync_message] applies a message to the document and the state of the peer:
    the outcome is a new tree with its rivals and writers and a new peer state, or an
    error that leaves what it had reached. *)
Record received_doc (S : Type) := mkReceived {
  rcv_root : gmap string node; rcv_rivals : list node; rcv_writers : gmap (list string) string;
  rcv_peer : S; rcv_actors : list string; rcv_error : option string;
}.
Arguments mkReceived {S}. Arguments rcv_root {S}. Arguments rcv_rivals {S}. Arguments rcv_writers {S}.
Arguments rcv_peer {S}. Arguments rcv_actors {S}. Arguments rcv_error {S}.

Definition take_received {S} (x : received_doc S) (d : CommentsDoc) : CommentsDoc :=
  mkComments (rcv_root x) (rcv_rivals x) (rcv_writers x) (comments_doc_id d) (doc_actor d).

(** [receive_sync_message_with_changes]: the documents before and after differ in heads
    exactly when the message brought changes. *)
Definition receive_sync_message_with_changes {S} (fresh : S) (x : received_doc S) (d : CommentsDoc)
    : CommentsDoc * S * result CommentsDocError bool :=
  match rcv_error x with
  | Some e => (take_received x d, rcv_peer x, Err (AutomergeFailed e))
  | None =>
      match ensure_raw_comments_doc_id_matches (take_received x d) with
      | Err e => (d, fresh, Err e)
      | Ok _ => (take_received x d, rcv_peer x, Ok (negb (bool_decide (rcv_actors x = []))))
      end
  end.

Record CommentsDocReceiveRepairResult := mkRepair {
  changed : bool; repaired_identity : bool; incoming_actor_labels : list string;
}.

Definition receive_sync_message_with_changes_repairing_identity {S} (fresh peer : S) (x : received_doc S)
    (expected : string) (r : NotebookCommentRef) (d : CommentsDoc)
    : CommentsDoc * S * result CommentsDocError CommentsDocReceiveRepairResult :=
  match validate_comments_doc_id expected with
  | Err e => (d, peer, Err e)
  | Ok _ =>
      match rcv_error x with
      | Some e => (take_received x d, rcv_peer x, Err (AutomergeFailed e))
      | None =>
          match repair_identity_fields expected r true (take_received x d) with
          | (_, Err e) => (d, fresh, Err e)
          | (d', Ok repaired) =>
              (d', rcv_peer x, Ok (mkRepair (repaired || negb (bool_decide (rcv_actors x = []))) repaired
                (merge_sort String.le (remove_dups (rcv_actors x)))))
          end
      end
  end.

(** *** Threads and messages *)

(** Whether Automerge records a [put] of the value a field already has as a new operation:
    if it does not, the field keeps its writer. *)
Class PutRecorded := records_equal_put : bool.

Section Threads.
Context `{FI : FractionalIndex, PR : PutRecorded}.

Definition hex_digit (c : Ascii.ascii) : bool :=
  let n := byte_value c in (48 <=? n) && (n <=? 57) || (65 <=? n) && (n <=? 70) || (97 <=? n) && (n <=? 102).
Fixpoint all_hex (s : string) : bool :=
  match s with EmptyString => true | String c s => hex_digit c && all_hex s end.

Definition parse_fractional_position (p : string) : result CommentsDocError findex :=
  if bool_decide (p = "") || negb (Nat.even (String.length p)) || negb (all_hex p) then Err (InvalidPosition p)
  else Ok (from_hex_string p).

Definition compute_position_after (pairs : list (string * string)) (after : option string)
    : result CommentsDocError string :=
  let sorted := merge_sort pair_le pairs in
  let index := a ← after; fst <$> list_find (fun p => p.2 = a) sorted in
  match index with
  | None =>
      match sorted with
      | [] => Ok (fi_to_string fi_default)
      | first :: _ => let? f := parse_fractional_position first.1 in Ok (fi_to_string (new_before f))
      end
  | Some i =>
      match sorted !! i, sorted !! S i with
      | Some l, Some r =>
          let? lo := parse_fractional_position l.1 in
          let? hi := parse_fractional_position r.1 in
          Ok (fi_to_string (default (new_after lo) (new_between lo hi)))
      | Some l, None => let? lo := parse_fractional_position l.1 in Ok (fi_to_string (new_after lo))
      | None, _ => Ok (fi_to_string fi_default)
      end
  end.

(** The maps of a container with their positions, in key order. *)
Definition entry_position (obj : gmap string node) : string := default DEFAULT_POSITION (read_string obj "position").
Definition entries (keep : gmap string node -> bool) (m : gmap string node) : list (string * string) :=
  omap (fun k => obj ← map_at m k; if keep obj then Some (entry_position obj, k) else None) (keys m).

(** The loop that drops invalid positions, except of the anchor. *)
Fixpoint valid_entries (after : option string) (es : list (string * string))
    : result CommentsDocError (list (string * string)) :=
  match es with
  | [] => Ok []
  | (p, k) :: es =>
      match parse_fractional_position p with
      | Ok _ => let? r := valid_entries after es in Ok ((p, k) :: r)
      | Err e => if decide (after = Some k) then Err e else valid_entries after es
      end
  end.

Definition position_among (es : list (string * string)) (after : option string)
    (missing : string -> CommentsDocError) : result CommentsDocError string :=
  let? pairs := valid_entries after es in
  match after with
  | Some a => if decide (a ∈ es.*2) then compute_position_after pairs after else Err (missing a)
  | None => compute_position_after pairs None
  end.

Definition get_map (key : string) (d : CommentsDoc) : option (gmap string node) := map_at (root d) key.

Definition scaffold_map (key : string) (d : CommentsDoc) : CommentsDoc :=
  match get_map key d with Some _ => d | None => set_root (<[key := NMap ∅]> (root d)) d end.

Definition in_scope (scope : string) (obj : gmap string node) : bool :=
  bool_decide (read_string obj "thread_order_scope" = Some scope).

Definition compute_thread_position (a : CommentAnchor) (after : option string) (d : CommentsDoc)
    : result CommentsDocError string :=
  match get_map "threads" d with
  | None => Ok (fi_to_string fi_default)
  | Some threads => position_among (entries (in_scope (thread_order_scope a)) threads) after AfterThreadNotFound
  end.

Definition compute_message_position (messages : gmap string node) (after : option string)
    : result CommentsDocError string := position_among (entries (fun _ => true) messages) after AfterMessageNotFound.

Definition thread_obj (tid : string) (d : CommentsDoc) : option (gmap string node) :=
  threads ← get_map "threads" d; map_at threads tid.
Definition thread_or_error (tid : string) (d : CommentsDoc) : result CommentsDocError (gmap string node) :=
  match thread_obj tid d with Some t => Ok t | None => Err (ThreadNotFound tid) end.
Definition messages_obj (thread : gmap string node) : option (gmap string node) := map_at thread "messages".
Definition message_or_error (tid mid : string) (d : CommentsDoc) : result CommentsDocError (gmap string node) :=
  let? thread := thread_or_error tid d in
  match messages_obj thread with
  | None => Err (MissingScaffold "messages")
  | Some messages => match map_at messages mid with Some m => Ok m | None => Err (MessageNotFound tid mid) end
  end.

(** A write into the object of a thread that is there. *)
Definition put_thread (tid : string) (t : gmap string node) (d : CommentsDoc) : CommentsDoc :=
  match get_map "threads" d with
  | Some threads => set_root (<["threads" := NMap (<[tid := NMap t]> threads)]> (root d)) d
  | None => d
  end.

Definition thread_path (tid : string) : list string := ["threads"; tid].
Definition status_path (tid : string) : list string := ["threads"; tid; "status"].
Definition message_path (tid mid : string) : list string := ["threads"; tid; "messages"; mid].

(** [create_message_in_map]. *)
Definition message_node (mid position body created_at : string) : gmap string node :=
  {["id" := str_node mid; "position" := str_node position; "created_at" := str_node created_at; "body" := NText body]}.

Definition create_message_in_map (messages : gmap string node) (mid body : string) (after : option string)
    (created_at : string) : result CommentsDocError (gmap string node) :=
  let? position := compute_message_position messages after in
  Ok (<[mid := NMap (message_node mid position body created_at)]> messages).

Definition create_thread (tid mid : string) (a : CommentAnchor) (body : string) (after : option string)
    (created_at : string) : CommentsM (string * string) := fun d =>
  match validate_comment_anchor a with
  | Err e => (d, Err (InvalidAnchor e))
  | Ok _ =>
      match thread_obj tid d with
      | Some _ => (d, Err (ThreadAlreadyExists tid))
      | None =>
          let d := scaffold_map "threads" d in
          match compute_thread_position a after d with
          | Err e => (d, Err e)
          | Ok position =>
              let t := {["id" := str_node tid; "position" := str_node position;
                "thread_order_scope" := str_node (thread_order_scope a); "status" := str_node "open";
                "created_at" := str_node created_at]} in
              let t := put_json_at_key_batched t "anchor" (anchor_to_json a) in
              let d := sign [thread_path tid; status_path tid] (put_thread tid (<["messages" := NMap ∅]> t) d) in
              match create_message_in_map ∅ mid body None created_at with
              | Err e => (d, Err e)
              | Ok messages =>
                  (sign [message_path tid mid] (put_thread tid (<["messages" := NMap messages]> t) d), Ok (tid, mid))
              end
          end
      end
  end.

Definition reply (tid mid body : string) (after : option string) (created_at : string)
    : CommentsM (string * string) := fun d =>
  match thread_obj tid d with
  | None => (d, Err (ThreadNotFound tid))
  | Some thread =>
      match messages_obj thread with
      | None => (d, Err (MissingScaffold "messages"))
      | Some messages =>
          match messages !! mid with
          | Some _ => (d, Err (MessageAlreadyExists tid mid))
          | None =>
              match create_message_in_map messages mid body after created_at with
              | Err e => (d, Err e)
              | Ok messages =>
                  (sign [message_path tid mid] (put_thread tid (<["messages" := NMap messages]> thread) d), Ok (tid, mid))
              end
          end
      end
  end.

Definition on_thread (tid : string) (f : gmap string node -> gmap string node)
    (paths : gmap string node -> list (list string)) : CommentsM () := fun d =>
  match thread_or_error tid d with
  | Err e => (d, Err e)
  | Ok thread => (sign (paths thread) (put_thread tid (f thread) d), Ok ())
  end.

(** The writer of the status changes when the write is an operation. *)
Definition status_write (tid value : string) (t : gmap string node) : list (list string) :=
  if records_equal_put || negb (bool_decide (read_string t "status" = Some value)) then [status_path tid] else [].

Definition resolve_thread (tid resolved_at : string) : CommentsM () :=
  on_thread tid (fun t => <["resolved_at" := str_node resolved_at]> (<["status" := str_node "resolved"]> t))
    (status_write tid "resolved").

Definition reopen_thread (tid : string) : CommentsM () :=
  on_thread tid (fun t => <["status" := str_node "open"]> t) (status_write tid "open").

Definition demote_thread_anchor_to_notebook (tid : string) : CommentsM () :=
  on_thread tid (fun t => <["thread_order_scope" := str_node (thread_order_scope ANotebook)]>
    (put_json_at_key_batched t "anchor" (anchor_to_json ANotebook))) (fun _ => []).

Definition edit_message_body (tid mid body : string) : CommentsM () := fun d =>
  match message_or_error tid mid d with
  | Err e => (d, Err e)
  | Ok message =>
      match text_at message "body" with
      | None => (d, Err (MessageNotFound tid mid))
      | Some _ =>
          (match thread_obj tid d with
           | Some t => match messages_obj t with
               | Some ms => put_thread tid (<["messages" := NMap (<[mid := NMap (<["body" := NText body]> message)]> ms)]> t) d
               | None => d
               end
           | None => d
           end, Ok ())
      end
  end.

(** ** Reading *)

Inductive ProjectedThreadStatus := Open | Resolved.

Record CommentMessageSnapshot := mkMessage {
  ms_id : string; ms_position : string; ms_body : string; ms_created_at : string; ms_actor : option string;
}.

Record CommentThreadSnapshot := mkThread {
  th_id : string; th_anchor : CommentAnchor; th_position : string; th_status : ProjectedThreadStatus;
  th_messages : list CommentMessageSnapshot; th_badges : list string; th_created_at : string;
  th_actor : option string; th_resolved_at : option string; th_resolved_by : option string;
}.

Definition message_le (a b : CommentMessageSnapshot) : Prop :=
  pair_le (ms_position a, ms_id a) (ms_position b, ms_id b).
#[export] Instance message_le_dec : RelDecision message_le.
Proof. intros a b. apply pair_le_dec. Defined.

Definition read_message (d : CommentsDoc) (tid mid : string) (m : gmap string node) : CommentMessageSnapshot :=
  mkMessage mid (entry_position m) (default "" (text_at m "body")) (default "" (read_string m "created_at"))
    (writers d !! message_path tid mid).

Definition read_messages (d : CommentsDoc) (tid : string) (thread : gmap string node) : list CommentMessageSnapshot :=
  match messages_obj thread with
  | None => []
  | Some messages =>
      merge_sort message_le (omap (fun mid => read_message d tid mid <$> map_at messages mid) (keys messages))
  end.

Definition read_anchor (thread : gmap string node) : option CommentAnchor :=
  read_json_value thread "anchor" ≫= anchor_from_json.

Definition read_thread (d : CommentsDoc) (order : option (list string)) (tid : string) (t : gmap string node)
    : option CommentThreadSnapshot :=
  a ← read_anchor t;
  let resolved := bool_decide (read_string t "status" = Some "resolved") in
  Some (mkThread tid a (entry_position t) (if resolved then Resolved else Open) (read_messages d tid t)
    (badge_cell_ids a order) (default "" (read_string t "created_at")) (writers d !! thread_path tid)
    (if resolved then read_string t "resolved_at" else None)
    (if resolved then writers d !! status_path tid else None)).

(** The order of the projection: by scope, position and id. *)
Definition thread_scope (t : CommentThreadSnapshot) : string := thread_order_scope (th_anchor t).
Definition thread_le (a b : CommentThreadSnapshot) : Prop :=
  str_lt (thread_scope a) (thread_scope b) \/
  (thread_scope a = thread_scope b /\ pair_le (th_position a, th_id a) (th_position b, th_id b)).
#[export] Instance thread_le_dec : RelDecision thread_le.
Proof. intros a b. apply or_dec; [apply _|]. apply and_dec; [apply _|apply pair_le_dec]. Defined.

Definition project_threads (order : option (list string)) (d : CommentsDoc) : list CommentThreadSnapshot :=
  match get_map "threads" d with
  | None => []
  | Some threads =>
      merge_sort thread_le (omap (fun tid => t ← map_at threads tid; read_thread d order tid t) (keys threads))
  end.

Definition read_projection (order : option (list string)) (d : CommentsDoc)
    : result CommentsDocError (string * list CommentThreadSnapshot) :=
  let? _ := ensure_raw_comments_doc_id_matches d in Ok (comments_doc_id d, project_threads order d).

Definition get_comments_for_cell (cell : string) (order : option (list string)) (d : CommentsDoc)
    : result CommentsDocError (list CommentThreadSnapshot) :=
  let? p := read_projection order d in Ok (filter (fun t => cell ∈ th_badges t) p.2).
End Threads.

(** ** Local identities *)

Section LocalIdentity.
Variable sha256_hex : string -> string.

Definition local_path_comments_doc_id (path : string) : string := "comments:local-path:" +:+ sha256_hex path.
Definition local_room_comments_doc_id (room_id : string) : string := "comments:local-room:" +:+ room_id.
Definition local_path_comments_identity (path : string) : string * NotebookCommentRef :=
  (local_path_comments_doc_id path, LocalPath path).
Definition local_room_comments_identity (room_id : string) : string * NotebookCommentRef :=
  (local_room_comments_doc_id room_id, LocalRoom room_id).
End LocalIdentity.

(** ** Positions *)

(** Positions are written as an even number of hexadecimal digits. *)
Class HexIndexLaws `{FI : FractionalIndex} := {
  index_hex i : bool_decide (fi_to_string i = "") || negb (Nat.even (String.length (fi_to_string i))) ||
    negb (all_hex (fi_to_string i)) = false;
}.

Section Positions.
Context `{FI : FractionalIndex, FIL : !FractionalIndexLaws, HIL : !HexIndexLaws}.

Lemma parse_index i : parse_fractional_position (fi_to_string i) = Ok i.
Proof. unfold parse_fractional_position. by rewrite index_hex, from_to_string. Qed.

(** Positions the index library wrote, all different, of different entries. *)
Definition good_pairs (es : list (string * string)) : Prop :=
  Forall (fun p => exists i, p.1 = fi_to_string i) es /\ NoDup es.*1 /\ NoDup es.*2.

Lemma good_pairs_perm es es' : es ≡ₚ es' -> good_pairs es -> good_pairs es'.
Proof. intros E (H1 & H2 & H3). split_and!; by rewrite <-E. Qed.

Lemma valid_entries_good after es : Forall (fun p => exists i, p.1 = fi_to_string i) es -> valid_entries after es = Ok es.
Proof.
  induction 1 as [|[p k] es [i Hi] _ IH]; [done|]. cbn in *. subst p. rewrite parse_index. by rewrite IH.
Qed.

Lemma pairs_sorted es : StronglySorted pair_le (merge_sort pair_le es).
Proof. apply Sorted_StronglySorted; [apply _|]. by apply Sorted_merge_sort; apply _. Qed.

(** A list in the order of its pairs is determined by them. *)
Lemma sorted_by_pairs {A} (f : A -> string * string) (g : string * string -> A) (l : list A) es :
  StronglySorted (fun a b => pair_le (f a) (f b)) l -> Forall (fun a => g (f a) = a) l -> f <$> l ≡ₚ es ->
  l = g <$> merge_sort pair_le es.
Proof.
  intros Hs Hg Hp. transitivity (g <$> (f <$> l)).
  - rewrite <-list_fmap_compose. clear Hs Hp. induction Hg as [|a l Ha _ IH]; [done|].
    rewrite fmap_cons. cbn. by rewrite Ha, <-IH.
  - f_equal. apply (StronglySorted_unique pair_le).
    + clear Hg Hp. induction Hs as [|a l _ IH Ha]; [constructor|]. rewrite fmap_cons. constructor; [done|].
      by apply Forall_fmap.
    + apply pairs_sorted.
    + by rewrite Hp, merge_sort_Permutation.
Qed.

(** Where an entry goes: first, or right after its anchor. *)
Definition insert_after (after : option string) (id : string) (ids : list string) : list string :=
  take (cut after ids) ids ++ id :: drop (cut after ids) ids.

Lemma position_between es after :
  good_pairs es -> (forall a, after = Some a -> a ∈ es.*2) ->
  exists i, compute_position_after es after = Ok (fi_to_string i) /\
    let L := merge_sort pair_le es in let n := cut after L.*2 in
    Forall (fun p => str_lt p.1 (fi_to_string i)) (take n L) /\ Forall (fun p => str_lt (fi_to_string i) p.1) (drop n L).
Proof.
  intros Hg Hafter. apply (good_pairs_perm _ (merge_sort pair_le es)) in Hg as (Hix & Hnd & _);
    [|by rewrite merge_sort_Permutation].
  pose proof (pairs_sorted es) as Hs. unfold compute_position_after.
  assert (Hfind : forall a, after = Some a -> exists i p, list_find (fun p => p.2 = a) (merge_sort pair_le es) = Some (i, p)).
  { intros a Ha. specialize (Hafter a Ha). rewrite <-(merge_sort_Permutation pair_le es) in Hafter.
    apply list_elem_of_fmap in Hafter as (p & -> & Hp). pose proof (list_find_elem_of (fun p' => p'.2 = p.2) _ p Hp eq_refl) as [[i q] Hq]. eauto. }
  set (L := merge_sort pair_le es) in *. clearbody L.
  assert (Hfrom : forall n p, L !! n = Some p -> exists i, p.1 = fi_to_string i).
  { intros n p Hp. by apply (Forall_lookup_1 _ _ _ _ Hix) in Hp. }
  destruct after as [a|].
  - destruct (Hfind a eq_refl) as (n & p & Hf). rewrite cut_pairs. cbn. rewrite Hf. cbn.
    apply list_find_Some in Hf as (Hn & _ & _). rewrite Hn. destruct (Hfrom _ _ Hn) as [lo Hlo]. rewrite Hlo, parse_index.
    destruct (L !! S n) as [r|] eqn:Hr.
    + destruct (Hfrom _ _ Hr) as [hi Hhi]. rewrite Hhi, parse_index.
      assert (str_lt (fi_to_string lo) (fi_to_string hi)) as Hlt by (rewrite <-Hlo, <-Hhi; by eapply neighbours_lt).
      destruct (new_between_lt lo hi Hlt) as (m & -> & H1 & H2). exists m. split; [done|]. apply split_between; [done..| |].
      * intros p' Hp'. rewrite (last_take_S _ _ _ Hn) in Hp'. injection Hp' as <-. by rewrite Hlo.
      * intros q Hq. rewrite Hr in Hq. injection Hq as <-. by rewrite Hhi.
    + exists (new_after lo). split; [done|]. apply split_between; [done..| |].
      * intros p' Hp'. rewrite (last_take_S _ _ _ Hn) in Hp'. injection Hp' as <-. rewrite Hlo. apply new_after_lt.
      * intros q Hq. congruence.
  - cbn [cut mbind option_bind]. destruct L as [|first L].
    + exists fi_default. split; [done|]. split; constructor.
    + destruct (Hfrom 0%nat first eq_refl) as [f Hf]. rewrite Hf, parse_index. exists (new_before f). split; [done|].
      apply split_between; [done..|]. intros q [= <-]. rewrite Hf. apply new_before_lt.
Qed.

(** The order after an entry is put at the position computed for it. *)
Lemma insert_at_position es es' after id x :
  good_pairs es -> id ∉ es.*2 ->
  Forall (fun p => str_lt p.1 x) (take (cut after (merge_sort pair_le es).*2) (merge_sort pair_le es)) ->
  Forall (fun p => str_lt x p.1) (drop (cut after (merge_sort pair_le es).*2) (merge_sort pair_le es)) ->
  (exists i, x = fi_to_string i) -> es' ≡ₚ (x, id) :: es ->
  good_pairs es' /\ (merge_sort pair_le es').*2 = insert_after after id (merge_sort pair_le es).*2.
Proof.
  intros (G1 & G2 & G3) Hid H1 H2 Hx Hes'. pose proof (pairs_sorted es) as Hs.
  set (L := merge_sort pair_le es) in *. set (n := cut after L.*2) in *.
  assert (HL : L ≡ₚ es) by apply merge_sort_Permutation. clearbody L.
  split.
  - apply (good_pairs_perm ((x, id) :: es)); [done|]. split_and!.
    + by constructor.
    + rewrite fmap_cons. cbn. constructor; [|done]. rewrite <-HL, <-(take_drop n L), fmap_app, elem_of_app, !list_elem_of_fmap.
      rewrite Forall_forall in H1. rewrite Forall_forall in H2.
      intros [(q & Eq & Hq)|(q & Eq & Hq)]; [by destruct (H1 q Hq) as [_ []]|by destruct (H2 q Hq) as [_ []]].
    + rewrite fmap_cons. by constructor.
  - assert (E : merge_sort pair_le es' = take n L ++ (x, id) :: drop n L).
    { apply (StronglySorted_unique pair_le).
      - apply pairs_sorted.
      - rewrite <-(take_drop n L) in Hs. apply StronglySorted_app in Hs as (Hc & Hs1 & Hs2).
        apply StronglySorted_app. split_and!; [|done|].
        + intros p q Hp [->|Hq]%elem_of_cons; [|by apply Hc]. left. rewrite Forall_forall in H1. by apply H1.
        + constructor; [done|]. eapply Forall_impl; [exact H2|]. intros q Hq. by left.
      - rewrite merge_sort_Permutation, Hes', <-Permutation_middle, take_drop. by rewrite HL. }
    rewrite E, fmap_app, fmap_cons. unfold insert_after. fold n. by rewrite fmap_take, fmap_drop.
Qed.

Lemma position_among_good es after missing :
  good_pairs es ->
  position_among es after missing =
  match after with
  | Some a => if decide (a ∈ es.*2) then compute_position_after es after else Err (missing a)
  | None => compute_position_after es None
  end.
Proof. intros (G & _). unfold position_among. rewrite valid_entries_good by done. done. Qed.
End Positions.

(** ** Containers *)

Lemma elem_of_entries keep m p k :
  (p, k) ∈ entries keep m <-> exists obj, map_at m k = Some obj /\ keep obj = true /\ entry_position obj = p.
Proof.
  unfold entries. rewrite list_elem_of_omap. split.
  - intros (k' & _ & (obj & Ho & Hk)%bind_Some). destruct (keep obj) eqn:E; [|done]. injection Hk as <- <-. eauto.
  - intros (obj & Ho & Hk & <-). exists k. rewrite Ho. cbn. rewrite Hk. split; [|done]. apply elem_of_keys.
    unfold map_at in Ho. by destruct (m !! k).
Qed.

Lemma NoDup_entries keep m : NoDup (entries keep m).*2.
Proof.
  unfold entries. pose proof (NoDup_keys m) as Hnd. induction Hnd as [|k l Hk _ IH]; [constructor|]. cbn -[map_at].
  destruct (map_at m k) as [obj|]; cbn -[map_at]; [|done]. destruct (keep obj); [|done]. cbn -[map_at]. constructor; [|done].
  rewrite list_elem_of_fmap. intros ([q k'] & -> & (k0 & Hin & (o & _ & E)%bind_Some)%list_elem_of_omap).
  destruct (keep o); [|done]. by injection E as <- <-.
Qed.

Lemma NoDup_entries' keep m : NoDup (entries keep m).
Proof. eapply NoDup_fmap_1, NoDup_entries. Qed.

Lemma elem_of_entries_ids keep m k :
  k ∈ (entries keep m).*2 <-> exists obj, map_at m k = Some obj /\ keep obj = true.
Proof.
  rewrite list_elem_of_fmap. split.
  - intros ([p k'] & -> & (obj & ? & ? & _)%elem_of_entries). eauto.
  - intros (obj & Ho & Hk). exists (entry_position obj, k). split; [done|]. apply elem_of_entries. eauto.
Qed.

(** A new entry; one that is not kept; a change that keeps membership and position. *)
Lemma entries_new keep m k obj : map_at m k = None -> keep obj = true ->
  entries keep (<[k := NMap obj]> m) ≡ₚ (entry_position obj, k) :: entries keep m.
Proof.
  intros Hn Hk. apply NoDup_Permutation; [apply NoDup_entries'| |].
  - constructor; [|apply NoDup_entries']. rewrite elem_of_entries. naive_solver.
  - intros [p j]. rewrite elem_of_cons, !elem_of_entries, map_at_insert. case_decide as Hd; [subst j|].
    + split; [intros (o & [= <-] & _ & <-); by left|]. intros [[= ->]|(o & Ho & _)]; [eauto|congruence].
    + split; [by right|]. intros [[= _ ->]|?]; [done|done].
Qed.

Lemma entries_skip keep m k obj : map_at m k = None -> keep obj = false ->
  entries keep (<[k := NMap obj]> m) ≡ₚ entries keep m.
Proof.
  intros Hn Hk. apply NoDup_Permutation; [apply NoDup_entries'..|].
  intros [p j]. rewrite !elem_of_entries, map_at_insert. case_decide as Hd; [subst j|done].
  split; [intros (o & [= <-] & E & _); congruence|intros (o & E & _); congruence].
Qed.

Lemma entries_keep keep m k obj obj' : map_at m k = Some obj -> keep obj' = keep obj ->
  entry_position obj' = entry_position obj -> entries keep (<[k := NMap obj']> m) ≡ₚ entries keep m.
Proof.
  intros Hn Hk Hp. apply NoDup_Permutation; [apply NoDup_entries'..|].
  intros [p j]. rewrite !elem_of_entries, map_at_insert. case_decide as Hd; [subst j|done]. rewrite Hn. split.
  - intros (o & [= <-] & E1 & E2). exists obj. split_and!; congruence.
  - intros (o & [= <-] & E1 & E2). exists obj'. split_and!; congruence.
Qed.

(** The ids in order. *)
Definition order_of (es : list (string * string)) : list string := (merge_sort pair_le es).*2.

Lemma order_of_perm es es' : es ≡ₚ es' -> order_of es = order_of es'.
Proof.
  intros E. unfold order_of. f_equal. apply (StronglySorted_unique pair_le); [apply pairs_sorted..|].
  by rewrite !merge_sort_Permutation.
Qed.

Lemma elem_of_order es k : k ∈ order_of es <-> k ∈ es.*2.
Proof. unfold order_of. by rewrite (merge_sort_Permutation pair_le es). Qed.

(** ** Views *)

(** A message and a thread without positions and badges. *)
Record MView := mkMView { mv_id : string; mv_body : string; mv_created : string; mv_actor : option string }.
Record TView := mkTView {
  tv_id : string; tv_anchor : CommentAnchor; tv_messages : list MView; tv_created : string;
  tv_actor : option string; tv_resolved : option (option string * option string);
}.

Definition strip_message (m : CommentMessageSnapshot) : MView := mkMView (ms_id m) (ms_body m) (ms_created_at m) (ms_actor m).
Definition strip_thread (t : CommentThreadSnapshot) : TView :=
  mkTView (th_id t) (th_anchor t) (strip_message <$> th_messages t) (th_created_at t) (th_actor t)
    (match th_status t with Resolved => Some (th_resolved_at t, th_resolved_by t) | Open => None end).

Definition all_entries : gmap string node -> list (string * string) := entries (fun _ => true).

Definition message_view (d : CommentsDoc) (tid : string) (ms : gmap string node) (mid : string) : MView :=
  let m := default ∅ (map_at ms mid) in
  mkMView mid (default "" (text_at m "body")) (default "" (read_string m "created_at")) (writers d !! message_path tid mid).

Definition thread_view (d : CommentsDoc) (tid : string) (t : gmap string node) : option TView :=
  a ← read_anchor t; ms ← messages_obj t;
  Some (mkTView tid a (message_view d tid ms <$> order_of (all_entries ms)) (default "" (read_string t "created_at"))
    (writers d !! thread_path tid)
    (if decide (read_string t "status" = Some "resolved") then Some (read_string t "resolved_at", writers d !! status_path tid)
     else None)).

Lemma read_messages_view d tid t ms : messages_obj t = Some ms ->
  strip_message <$> read_messages d tid t = message_view d tid ms <$> order_of (all_entries ms).
Proof.
  intros Hms. unfold read_messages. rewrite Hms.
  set (g := fun p : string * string => read_message d tid p.2 (default ∅ (map_at ms p.2))).
  set (l := omap _ (keys ms)).
  assert (Hl : forall x, x ∈ l -> exists k m, map_at ms k = Some m /\ x = read_message d tid k m).
  { intros x (k & _ & (m & Hm & ->)%fmap_Some)%list_elem_of_omap. eauto. }
  assert (Hf : (fun x => (ms_position x, ms_id x)) <$> l = all_entries ms).
  { unfold l, all_entries, entries. generalize (keys ms). intros ks. induction ks as [|k ks IH]; [done|].
    cbn -[map_at entry_position]. destruct (map_at ms k) as [m|]; cbn -[map_at entry_position]; [|exact IH].
    f_equal. exact IH. }
  rewrite (sorted_by_pairs (fun x => (ms_position x, ms_id x)) g (merge_sort message_le l) (all_entries ms)).
  - unfold order_of. by rewrite <-!list_fmap_compose.
  - apply Sorted_StronglySorted; [intros x y z; apply transitivity|].
    apply Sorted_merge_sort. intros x y. apply (total pair_le).
  - apply Forall_forall. intros x Hx. rewrite merge_sort_Permutation in Hx. destruct (Hl x Hx) as (k & m & Hm & ->).
    unfold g. cbn. by rewrite Hm.
  - by rewrite (merge_sort_Permutation message_le l), Hf.
Qed.

Lemma strip_read_thread d order tid t s ms : messages_obj t = Some ms -> read_thread d order tid t = Some s ->
  thread_view d tid t = Some (strip_thread s).
Proof.
  intros Hms. unfold read_thread, thread_view. destruct (read_anchor t) as [a|]; [|done]. cbn. rewrite Hms. cbn.
  intros [= <-]. unfold strip_thread. cbn. rewrite (read_messages_view d tid t ms Hms).
  case_bool_decide; case_decide; done.
Qed.

(** ** Well-formed documents *)

Section Wf.
Context `{FI : FractionalIndex}.

Definition messages_ok (ms : gmap string node) : Prop :=
  good_pairs (all_entries ms) /\ map_Forall (fun _ n => exists m, n = NMap m /\ is_Some (text_at m "body")) ms.

Definition thread_ok (t : gmap string node) : Prop :=
  exists a ms, read_anchor t = Some a /\ read_string t "thread_order_scope" = Some (thread_order_scope a) /\
    messages_obj t = Some ms /\ messages_ok ms.

Record threads_ok (T : gmap string node) : Prop := {
  tk_threads : map_Forall (fun _ n => exists t, n = NMap t /\ thread_ok t) T;
  tk_scopes scope : good_pairs (entries (in_scope scope) T);
}.

Lemma thread_ok_at T k t : threads_ok T -> map_at T k = Some t -> thread_ok t.
Proof.
  intros [H _] Ht. unfold map_at in Ht. destruct (T !! k) as [n|] eqn:E; [|done].
  destruct (H k n E) as (t' & -> & Hok). by injection Ht as <-.
Qed.

(** *** Threads of a scope *)

Definition scope_ids (scope : string) (T : gmap string node) : list string := order_of (entries (in_scope scope) T).

Lemma NoDup_thread_ids d order T :
  NoDup (th_id <$> omap (fun tid => t ← map_at T tid; read_thread d order tid t) (keys T)).
Proof.
  pose proof (NoDup_keys T) as Hnd. induction Hnd as [|k l Hk _ IH]; [constructor|]. cbn -[map_at read_thread].
  destruct (map_at T k ≫= read_thread d order k) as [s|] eqn:E; [|done]. cbn -[map_at read_thread].
  assert (Hid : forall k s, map_at T k ≫= read_thread d order k = Some s -> th_id s = k).
  { intros k' s' (t & _ & (a & _ & [= <-])%bind_Some)%bind_Some. done. }
  rewrite (Hid k s E). constructor; [|done]. rewrite list_elem_of_fmap.
  intros (s' & -> & (k' & Hin & E')%list_elem_of_omap). by rewrite (Hid k' s' E') in Hk.
Qed.

Lemma omap_fmap {A B C} (F : A -> option B) (G : A -> C) (H : C -> B) (l : list A) :
  (forall x, x ∈ l -> F x = Some (H (G x))) -> H <$> (G <$> l) = omap F l.
Proof.
  induction l as [|x l IH]; intros Hl; [done|]. rewrite !fmap_cons. cbn. rewrite (Hl x) by set_solver.
  f_equal. apply IH. set_solver.
Qed.

Lemma thread_le_total : Total thread_le.
Proof.
  intros x y. unfold thread_le. destruct (decide (thread_scope x = thread_scope y)) as [E|Hne].
  - destruct (total pair_le (th_position x, th_id x) (th_position y, th_id y)); [left|right]; right; auto.
  - destruct (total String.le (thread_scope x) (thread_scope y)); [left|right]; left; split; congruence.
Qed.

Lemma thread_le_trans : Transitive thread_le.
Proof.
  intros x y z [H1|[E1 H1]] [H2|[E2 H2]]; unfold thread_le.
  - left. exact (transitivity H1 H2).
  - left. by rewrite <-E2.
  - left. by rewrite E1.
  - right. split; [congruence|]. exact (transitivity H1 H2).
Qed.

Lemma projection_sorted d order : StronglySorted thread_le (project_threads order d).
Proof.
  unfold project_threads. destruct (get_map "threads" d); [|constructor].
  apply Sorted_StronglySorted; [apply thread_le_trans|]. apply Sorted_merge_sort, thread_le_total.
Qed.

Lemma scope_view d order T scope : get_map "threads" d = Some T -> threads_ok T ->
  strip_thread <$> filter (fun t => thread_scope t = scope) (project_threads order d) =
  omap (fun tid => t ← map_at T tid; thread_view d tid t) (scope_ids scope T).
Proof.
  intros HT Hok. pose proof (projection_sorted d order) as Hsort. unfold project_threads in *. rewrite HT in *.
  set (l := omap _ (keys T)) in *.
  assert (Hl : forall s, s ∈ l <-> exists t, map_at T (th_id s) = Some t /\ read_thread d order (th_id s) t = Some s).
  { intros s. unfold l. rewrite list_elem_of_omap. split.
    - intros (k & _ & (t & Ht & Hr)%bind_Some). assert (th_id s = k) as -> by (by apply bind_Some in Hr as (a & _ & [= <-])).
      eauto.
    - intros (t & Ht & Hr). exists (th_id s). rewrite Ht. split; [|done]. apply elem_of_keys. unfold map_at in Ht.
      by destruct (T !! th_id s). }
  set (f := fun x : CommentThreadSnapshot => (th_position x, th_id x)).
  set (dummy := mkThread "" ANotebook "" Open [] [] "" None None None).
  set (g := fun p : string * string => default dummy (t ← map_at T p.2; read_thread d order p.2 t)).
  rewrite (sorted_by_pairs f g _ (entries (in_scope scope) T)).
  - unfold scope_ids, order_of. rewrite <-(omap_fmap (fun tid => t ← map_at T tid; thread_view d tid t)
      (fun tid => default dummy (t ← map_at T tid; read_thread d order tid t)) strip_thread).
    + by rewrite <-!list_fmap_compose.
    + intros k Hk. rewrite merge_sort_Permutation in Hk. apply elem_of_entries_ids in Hk as (t & Ht & _). rewrite Ht. cbn.
      destruct (thread_ok_at T k t Hok Ht) as (a & ms & Ha & _ & Hms & _).
      assert (Hs : exists s, read_thread d order k t = Some s) by (unfold read_thread; rewrite Ha; cbn; eauto).
      destruct Hs as [s Hs]. rewrite Hs. by apply (strip_read_thread d order k t s ms).
  - assert (Hin : Forall (fun x => thread_scope x = scope) (filter (fun t => thread_scope t = scope) (merge_sort thread_le l)))
      by (apply Forall_forall; by intros x [? _]%list_elem_of_filter).
    apply (StronglySorted_filter' _ (fun t => thread_scope t = scope)) in Hsort. revert Hsort Hin.
    generalize (filter (fun t => thread_scope t = scope) (merge_sort thread_le l)). intros k Hsort Hin.
    induction Hsort as [|x k _ IH Hx]; [constructor|]. apply Forall_cons in Hin as [Hs Hin]. constructor; [auto|].
    apply Forall_forall. intros y Hy. rewrite Forall_forall in Hx. rewrite Forall_forall in Hin.
    destruct (Hx y Hy) as [[_ Hne]|[_ Hle]]; [|done]. destruct Hne. by rewrite Hs, (Hin y Hy).
  - apply Forall_forall. intros s [_ Hs]%list_elem_of_filter. rewrite merge_sort_Permutation in Hs.
    apply Hl in Hs as (t & Ht & Hr). unfold g, f. cbn [snd]. rewrite Ht. cbn. by rewrite Hr.
  - apply NoDup_Permutation.
    + eapply (NoDup_fmap_1 snd). rewrite <-list_fmap_compose. change (snd ∘ f) with th_id.
      apply (sublist_NoDup _ (th_id <$> merge_sort thread_le l)); [|apply fmap_sublist, sublist_filter].
      rewrite merge_sort_Permutation. apply NoDup_thread_ids.
    + apply NoDup_entries'.
    + intros [p k]. rewrite elem_of_entries, list_elem_of_fmap. split.
      * intros (s & [= -> ->] & [Hs Hin]%list_elem_of_filter). rewrite merge_sort_Permutation in Hin.
        apply Hl in Hin as (t & Ht & Hr). exists t. split_and!; [done| |].
        -- destruct (thread_ok_at T _ t Hok Ht) as (a & ms & Ha & Hsc & _). unfold in_scope. apply bool_decide_eq_true.
           rewrite Hsc. unfold read_thread in Hr. rewrite Ha in Hr. cbn in Hr. injection Hr as Hr.
           rewrite <-Hs, <-Hr. done.
        -- unfold read_thread in Hr. apply bind_Some in Hr as (a & _ & [= Hr]). by rewrite <-Hr.
      * intros (t & Ht & Hsc & <-). destruct (thread_ok_at T _ t Hok Ht) as (a & ms & Ha & Hsc' & _).
        assert (Hs : exists s, read_thread d order k t = Some s /\ th_id s = k /\ th_position s = entry_position t /\ th_anchor s = a)
          by (unfold read_thread; rewrite Ha; cbn; eauto).
        destruct Hs as (s & Hr & Hid & Hpos & Han). exists s. split; [unfold f; congruence|]. apply list_elem_of_filter. split.
        -- unfold thread_scope. rewrite Han. apply bool_decide_eq_true in Hsc. congruence.
        -- rewrite merge_sort_Permutation. apply Hl. exists t. by rewrite Hid.
Qed.
End Wf.

(** ** The specification

    A board: threads by id, and for every scope the order of its threads. *)

Record Board := mkBoard { b_threads : gmap string TView; b_order : gmap string (list string) }.

Definition board_order (scope : string) (b : Board) : list string := default [] (b_order b !! scope).
Definition board_put (v : TView) (b : Board) : Board := mkBoard (<[tv_id v := v]> (b_threads b)) (b_order b).

Inductive comment_op :=
| OCreate (tid mid : string) (a : CommentAnchor) (body : string) (after : option string) (created_at : string)
| OReply (tid mid body : string) (after : option string) (created_at : string)
| OResolve (tid resolved_at : string)
| OReopen (tid : string)
| OEdit (tid mid body : string).

Definition insert_message (after : option string) (m : MView) (l : list MView) : list MView :=
  let n := cut after (mv_id <$> l) in take n l ++ m :: drop n l.
Definition edit_view (mid body : string) (m : MView) : MView :=
  if decide (mv_id m = mid) then mkMView mid body (mv_created m) (mv_actor m) else m.
Definition with_messages (ms : list MView) (v : TView) : TView :=
  mkTView (tv_id v) (tv_anchor v) ms (tv_created v) (tv_actor v) (tv_resolved v).
Definition with_resolved (r : option (option string * option string)) (v : TView) : TView :=
  mkTView (tv_id v) (tv_anchor v) (tv_messages v) (tv_created v) (tv_actor v) r.

(** The anchor of an insertion is among the ids it is ordered with. *)
Definition anchored (after : option string) (ids : list string) : option string :=
  match after with Some a => if decide (a ∈ ids) then None else Some a | None => None end.

(** Who counts as resolving a thread that is resolved already. *)
Definition resolver `{PutRecorded} (actor : string) (v : TView) : option string :=
  match tv_resolved v with
  | Some (_, by_) => if records_equal_put then Some actor else by_
  | None => Some actor
  end.

Definition board_step `{PutRecorded} (actor : string) (op : comment_op) (b : Board)
    : Board * result CommentsDocError (option (string * string)) :=
  match op with
  | OCreate tid mid a body after at_ =>
      match validate_comment_anchor a, b_threads b !! tid with
      | Err e, _ => (b, Err (InvalidAnchor e))
      | _, Some _ => (b, Err (ThreadAlreadyExists tid))
      | _, None =>
          let scope := thread_order_scope a in
          match anchored after (board_order scope b) with
          | Some x => (b, Err (AfterThreadNotFound x))
          | None =>
              (mkBoard (<[tid := mkTView tid a [mkMView mid body at_ (Some actor)] at_ (Some actor) None]> (b_threads b))
                 (<[scope := insert_after after tid (board_order scope b)]> (b_order b)), Ok (Some (tid, mid)))
          end
      end
  | OReply tid mid body after at_ =>
      match b_threads b !! tid with
      | None => (b, Err (ThreadNotFound tid))
      | Some v =>
          if decide (mid ∈ mv_id <$> tv_messages v) then (b, Err (MessageAlreadyExists tid mid))
          else match anchored after (mv_id <$> tv_messages v) with
          | Some x => (b, Err (AfterMessageNotFound x))
          | None =>
              (board_put (with_messages (insert_message after (mkMView mid body at_ (Some actor)) (tv_messages v)) v) b,
               Ok (Some (tid, mid)))
          end
      end
  | OResolve tid at_ =>
      match b_threads b !! tid with
      | None => (b, Err (ThreadNotFound tid))
      | Some v => (board_put (with_resolved (Some (Some at_, resolver actor v)) v) b, Ok None)
      end
  | OReopen tid =>
      match b_threads b !! tid with
      | None => (b, Err (ThreadNotFound tid))
      | Some v => (board_put (with_resolved None v) b, Ok None)
      end
  | OEdit tid mid body =>
      match b_threads b !! tid with
      | None => (b, Err (ThreadNotFound tid))
      | Some v =>
          if decide (mid ∈ mv_id <$> tv_messages v)
          then (board_put (with_messages (edit_view mid body <$> tv_messages v) v) b, Ok None)
          else (b, Err (MessageNotFound tid mid))
      end
  end.

Section Steps.
Context `{FI : FractionalIndex, PR : PutRecorded}.

Definition with_actor (actor : string) (d : CommentsDoc) : CommentsDoc :=
  mkComments (root d) (id_rivals d) (writers d) (comments_doc_id d) actor.

Definition some_ids (x : CommentsDoc * result CommentsDocError (string * string))
    : CommentsDoc * result CommentsDocError (option (string * string)) :=
  (x.1, match x.2 with Ok p => Ok (Some p) | Err e => Err e end).
Definition no_ids (x : CommentsDoc * result CommentsDocError ())
    : CommentsDoc * result CommentsDocError (option (string * string)) :=
  (x.1, match x.2 with Ok _ => Ok None | Err e => Err e end).

(** An operation of an actor on the document. *)
Definition doc_step (actor : string) (op : comment_op) (d : CommentsDoc)
    : CommentsDoc * result CommentsDocError (option (string * string)) :=
  let d := with_actor actor d in
  match op with
  | OCreate tid mid a body after at_ => some_ids (create_thread tid mid a body after at_ d)
  | OReply tid mid body after at_ => some_ids (reply tid mid body after at_ d)
  | OResolve tid at_ => no_ids (resolve_thread tid at_ d)
  | OReopen tid => no_ids (reopen_thread tid d)
  | OEdit tid mid body => no_ids (edit_message_body tid mid body d)
  end.

(** *** Writers *)

Lemma writers_sign ps d p : writers (sign ps d) !! p = if decide (p ∈ ps) then Some (doc_actor d) else writers d !! p.
Proof.
  unfold sign. cbn [writers]. induction ps as [|q ps IH]; [done|]. cbn [foldr]. rewrite lookup_insert.
  destruct (decide (q = p)) as [->|Hq].
  - by rewrite (decide_True _ _ (list_elem_of_here p ps)).
  - rewrite IH. apply decide_ext. rewrite elem_of_cons. naive_solver.
Qed.

Definition under (tid : string) (p : list string) : Prop := exists rest, p = "threads" :: tid :: rest.

Lemma thread_view_ext d d' tid t : (forall p, under tid p -> writers d' !! p = writers d !! p) ->
  thread_view d' tid t = thread_view d tid t.
Proof.
  intros Hw. unfold thread_view. destruct (read_anchor t) as [a|]; [|done]. cbn. destruct (messages_obj t) as [ms|]; [|done]. cbn.
  rewrite (Hw (thread_path tid)), (Hw (status_path tid)) by (unfold under, thread_path, status_path; eauto).
  do 2 f_equal. apply list_fmap_ext. intros i k _. unfold message_view. by rewrite (Hw (message_path tid k)) by (unfold under, message_path; eauto).
Qed.

(** *** The representation *)

Record represents (d : CommentsDoc) (T : gmap string node) (b : Board) : Prop := {
  rp_map : get_map "threads" d = Some T;
  rp_ok : threads_ok T;
  rp_threads tid : b_threads b !! tid = map_at T tid ≫= thread_view d tid;
  rp_order scope : board_order scope b = scope_ids scope T;
}.

Lemma get_map_put tid t d T : get_map "threads" d = Some T ->
  get_map "threads" (put_thread tid t d) = Some (<[tid := NMap t]> T) /\ writers (put_thread tid t d) = writers d /\
  doc_actor (put_thread tid t d) = doc_actor d.
Proof. intros HT. unfold put_thread. rewrite HT. unfold get_map, map_at. cbn. by rewrite lookup_insert_eq. Qed.

Lemma view_of_ok d tid t : thread_ok t -> exists v, thread_view d tid t = Some v /\ tv_id v = tid.
Proof. intros (a & ms & Ha & _ & Hms & _). unfold thread_view. rewrite Ha, Hms. cbn. eauto. Qed.

(** What changes when the object of one thread is written and signed. *)
Lemma put_represents d T b tid t' ps b' :
  represents d T b -> thread_ok t' -> Forall (under tid) ps ->
  let d' := sign ps (put_thread tid t' d) in let T' := <[tid := NMap t']> T in
  (forall scope, good_pairs (entries (in_scope scope) T')) ->
  (exists v, thread_view d' tid t' = Some v /\ b_threads b' = <[tid := v]> (b_threads b)) ->
  (forall scope, board_order scope b' = scope_ids scope T') ->
  represents d' T' b'.
Proof.
  intros [R1 R2 R3 R4] Hok Hps d' T' Hgood (v & Hv & Hb) Hord.
  destruct (get_map_put tid t' d T R1) as (G1 & G2 & G3). split.
  - exact G1.
  - split; [|done]. unfold T'. apply map_Forall_insert_2; [eauto|]. by destruct R2.
  - intros k. rewrite Hb. unfold T'. rewrite lookup_insert, map_at_insert. case_decide as Hk; [by subst|].
    rewrite R3. destruct (map_at T k) as [t|]; [|done]. cbn. symmetry. apply thread_view_ext.
    intros p [rest ->]. unfold d'. rewrite writers_sign, G2. rewrite decide_False; [done|]. intros Hin.
    rewrite Forall_forall in Hps. destruct (Hps _ Hin) as [r E]. congruence.
  - done.
Qed.

(** A write that keeps the anchor, the scope and the position of a thread. *)
Lemma update_represents d T b tid t t' ps v :
  represents d T b -> map_at T tid = Some t -> thread_ok t' -> Forall (under tid) ps ->
  read_string t' "thread_order_scope" = read_string t "thread_order_scope" -> entry_position t' = entry_position t ->
  let d' := sign ps (put_thread tid t' d) in thread_view d' tid t' = Some v ->
  represents d' (<[tid := NMap t']> T) (board_put v b).
Proof.
  intros HR Ht Hok Hps Hsc Hpos d' Hv.
  assert (Hes : forall scope, entries (in_scope scope) (<[tid := NMap t']> T) ≡ₚ entries (in_scope scope) T).
  { intros scope. apply (entries_keep _ _ _ t); [done| |done]. unfold in_scope. by rewrite Hsc. }
  assert (tv_id v = tid) as Hid by (destruct (view_of_ok d' tid t' Hok) as (v' & Hv' & ?); congruence).
  apply (put_represents d T b tid t' ps); try done.
  - intros scope. eapply good_pairs_perm; [symmetry; apply Hes|]. by destruct (rp_ok _ _ _ HR).
  - exists v. split; [done|]. unfold board_put. cbn. by rewrite Hid.
  - intros scope. unfold board_put, board_order. cbn. etransitivity; [apply (rp_order _ _ _ HR)|].
    unfold scope_ids. apply order_of_perm. by rewrite Hes.
Qed.

(** *** Views of a changed thread *)

Lemma thread_view_inv d tid t v : thread_view d tid t = Some v ->
  exists a ms, read_anchor t = Some a /\ messages_obj t = Some ms /\
    v = mkTView tid a (message_view d tid ms <$> order_of (all_entries ms)) (default "" (read_string t "created_at"))
      (writers d !! thread_path tid) (tv_resolved v).
Proof.
  unfold thread_view. intros (a & Ha & (ms & Hms & [= <-])%bind_Some)%bind_Some. eauto.
Qed.

Definition resolution (d : CommentsDoc) (tid : string) (t : gmap string node) : option (option string * option string) :=
  if decide (read_string t "status" = Some "resolved") then Some (read_string t "resolved_at", writers d !! status_path tid)
  else None.

Lemma thread_view_status d d' tid t t' v :
  thread_view d tid t = Some v -> read_anchor t' = read_anchor t -> messages_obj t' = messages_obj t ->
  read_string t' "created_at" = read_string t "created_at" -> writers d' !! thread_path tid = writers d !! thread_path tid ->
  (forall mid, writers d' !! message_path tid mid = writers d !! message_path tid mid) ->
  thread_view d' tid t' = Some (with_resolved (resolution d' tid t') v).
Proof.
  intros Hv Ha Hms Hc Hw Hm. destruct (thread_view_inv _ _ _ _ Hv) as (a & ms & Ha0 & Hms0 & ->).
  unfold thread_view. rewrite Ha, Hms, Ha0, Hms0. cbn. unfold with_resolved. cbn. rewrite Hc, Hw. do 2 f_equal.
  apply list_fmap_ext. intros i k _. unfold message_view. by rewrite Hm.
Qed.

Lemma thread_view_messages d d' tid t t' ms' v :
  thread_view d tid t = Some v -> read_anchor t' = read_anchor t -> messages_obj t' = Some ms' ->
  (forall k, k ∈ ["created_at"; "status"; "resolved_at"] -> read_string t' k = read_string t k) ->
  writers d' !! thread_path tid = writers d !! thread_path tid -> writers d' !! status_path tid = writers d !! status_path tid ->
  thread_view d' tid t' = Some (with_messages (message_view d' tid ms' <$> order_of (all_entries ms')) v).
Proof.
  intros Hv Ha Hms Hk Hw Hst. destruct (thread_view_inv _ _ _ _ Hv) as (a & ms & Ha0 & Hms0 & E).
  unfold thread_view in *. rewrite Ha0, Hms0 in Hv. cbn in Hv. rewrite Ha, Hms, Ha0. cbn.
  rewrite !Hk, Hw, Hst by set_solver. injection Hv as <-. done.
Qed.

Lemma view_ids d tid ms : mv_id <$> (message_view d tid ms <$> order_of (all_entries ms)) = order_of (all_entries ms).
Proof. rewrite <-list_fmap_compose. apply list_fmap_id. Qed.

Lemma read_insert k k' n (t : gmap string node) : k <> k' -> read_string (<[k := n]> t) k' = read_string t k'.
Proof. intros Hne. unfold read_string. by rewrite lookup_insert_ne. Qed.
Lemma read_insert_eq k s (t : gmap string node) : read_string (<[k := str_node s]> t) k = Some s.
Proof. unfold read_string. by rewrite lookup_insert_eq. Qed.
Lemma anchor_insert k n (t : gmap string node) : k <> "anchor" -> read_anchor (<[k := n]> t) = read_anchor t.
Proof. intros Hne. unfold read_anchor, read_json_value. by rewrite lookup_insert_ne. Qed.
Lemma messages_insert k n (t : gmap string node) : k <> "messages" -> messages_obj (<[k := n]> t) = messages_obj t.
Proof. intros Hne. unfold messages_obj, map_at. by rewrite lookup_insert_ne. Qed.
Lemma position_insert k n (t : gmap string node) : k <> "position" -> entry_position (<[k := n]> t) = entry_position t.
Proof. intros Hne. unfold entry_position. by rewrite read_insert. Qed.

Lemma thread_ok_insert k n t : k ∉ ["anchor"; "thread_order_scope"; "messages"] -> thread_ok t -> thread_ok (<[k := n]> t).
Proof.
  intros Hk (a & ms & Ha & Hsc & Hms & Hok). exists a, ms.
  rewrite anchor_insert, read_insert, messages_insert by set_solver. done.
Qed.

(** *** Resolving and reopening *)

Lemma represents_actor d T b actor : represents d T b -> represents (with_actor actor d) T b.
Proof. intros [R1 R2 R3 R4]. by split. Qed.

Lemma find_thread d T b tid : represents d T b ->
  (b_threads b !! tid = None /\ thread_obj tid d = None) \/
  exists t v, thread_obj tid d = Some t /\ map_at T tid = Some t /\ thread_ok t /\ b_threads b !! tid = Some v /\
    thread_view d tid t = Some v /\ tv_id v = tid.
Proof.
  intros [R1 R2 R3 R4]. unfold thread_obj. rewrite R1. cbn. rewrite R3. destruct (map_at T tid) as [t|] eqn:Et; [|by left].
  right. pose proof (thread_ok_at _ _ _ R2 Et) as Hok. destruct (view_of_ok d tid t Hok) as (v & Hv & Hid).
  exists t, v. done.
Qed.

Definition simulated (d : CommentsDoc) (T : gmap string node) (b : Board) (actor : string) (op : comment_op) : Prop :=
  (doc_step actor op d).2 = (board_step actor op b).2 /\
  exists T', represents (doc_step actor op d).1 T' (board_step actor op b).1.

Lemma status_simulated d T b actor tid t t' v op ps :
  represents d T b -> thread_obj tid d = Some t -> map_at T tid = Some t -> thread_ok t -> thread_view d tid t = Some v ->
  doc_step actor op d = (sign ps (put_thread tid t' (with_actor actor d)), Ok None) -> Forall (eq (status_path tid)) ps ->
  (exists k n s, t' = <["status" := str_node s]> t \/ t' = <[k := n]> (<["status" := str_node s]> t) /\ k = "resolved_at") ->
  board_step actor op b = (board_put (with_resolved (resolution (doc_step actor op d).1 tid t') v) b, Ok None) ->
  simulated d T b actor op.
Proof.
  intros HR Hobj Ht Hok Hv Hd Hps Hshape Hb. unfold simulated. rewrite Hd, Hb. cbn [fst snd]. split; [done|].
  exists (<[tid := NMap t']> T). apply (represents_actor _ _ _ actor) in HR.
  assert (Hshape' : read_anchor t' = read_anchor t /\ messages_obj t' = messages_obj t /\ thread_ok t' /\
    read_string t' "created_at" = read_string t "created_at" /\
    read_string t' "thread_order_scope" = read_string t "thread_order_scope" /\ entry_position t' = entry_position t).
  { destruct Hshape as (k & n & s & [->|[-> ->]]);
      rewrite ?anchor_insert, ?messages_insert, ?read_insert, ?position_insert by done;
      split_and!; try done; repeat apply thread_ok_insert; done || set_solver. }
  destruct Hshape' as (H1 & H2 & H3 & H4 & H5 & H6). rewrite Forall_forall in Hps.
  apply (update_represents (with_actor actor d) T b tid t); try done.
  { apply Forall_forall. intros p <-%Hps. by exists ["status"]. }
  rewrite Hd. cbn [fst].
  destruct (get_map_put tid t' (with_actor actor d) T (rp_map _ _ _ HR)) as (_ & G2 & _).
  apply (thread_view_status d _ tid t); [done..| |].
  - rewrite writers_sign, G2. by rewrite decide_False by (intros E%Hps; done).
  - intros mid. rewrite writers_sign, G2. by rewrite decide_False by (intros E%Hps; done).
Qed.

Lemma status_writes tid value t : Forall (eq (status_path tid)) (status_write tid value t).
Proof. unfold status_write. case_match; repeat constructor. Qed.

(** The resolver the board names is the writer of the status. *)
Lemma resolver_writer d T actor tid t t' v :
  get_map "threads" d = Some T -> thread_view d tid t = Some v ->
  writers (sign (status_write tid "resolved" t) (put_thread tid t' (with_actor actor d))) !! status_path tid = resolver actor v.
Proof.
  intros HT Hv. destruct (get_map_put tid t' (with_actor actor d) T HT) as (_ & G2 & G3).
  rewrite writers_sign, G2, G3. cbn [writers doc_actor with_actor]. unfold status_write, resolver.
  unfold thread_view in Hv. destruct (read_anchor t); [|done]. cbn in Hv. destruct (messages_obj t); [|done]. cbn in Hv.
  injection Hv as <-. cbn [tv_resolved]. destruct (decide (read_string t "status" = Some "resolved")) as [E|E].
  - rewrite bool_decide_eq_true_2 by done. destruct records_equal_put; cbn [orb negb];
      [by rewrite decide_True by set_solver|by rewrite decide_False by set_solver].
  - rewrite bool_decide_eq_false_2, orb_true_r by done. by rewrite decide_True by set_solver.
Qed.

Lemma resolve_simulated d T b actor tid at_ : represents d T b -> simulated d T b actor (OResolve tid at_).
Proof.
  intros HR. destruct (find_thread d T b tid HR) as [[Hn Hobj]|(t & v & Hobj & Ht & Hok & Hb & Hv & Hid)].
  - unfold simulated. cbn. unfold resolve_thread, on_thread, thread_or_error.
    change (thread_obj tid (with_actor actor d)) with (thread_obj tid d). rewrite Hobj, Hn. split; [done|].
    exists T. by apply represents_actor.
  - eapply (status_simulated d T b actor tid t _ _ _ (status_write tid "resolved" t)); try done.
    + cbn. unfold resolve_thread, on_thread, thread_or_error. change (thread_obj tid (with_actor actor d)) with (thread_obj tid d).
      rewrite Hobj. reflexivity.
    + apply status_writes.
    + exists "resolved_at", (str_node at_), "resolved". by right.
    + cbn [board_step]. rewrite Hb. do 3 f_equal. unfold resolution. rewrite read_insert, read_insert_eq, decide_True, read_insert_eq by done.
      f_equal. f_equal. cbn. unfold resolve_thread, on_thread, thread_or_error.
      change (thread_obj tid (with_actor actor d)) with (thread_obj tid d). rewrite Hobj. cbn [fst].
      symmetry. by apply (resolver_writer d T), Hv; apply HR.
Qed.

Lemma reopen_simulated d T b actor tid : represents d T b -> simulated d T b actor (OReopen tid).
Proof.
  intros HR. destruct (find_thread d T b tid HR) as [[Hn Hobj]|(t & v & Hobj & Ht & Hok & Hb & Hv & Hid)].
  - unfold simulated. cbn. unfold reopen_thread, on_thread, thread_or_error.
    change (thread_obj tid (with_actor actor d)) with (thread_obj tid d). rewrite Hobj, Hn. split; [done|].
    exists T. by apply represents_actor.
  - eapply (status_simulated d T b actor tid t _ _ _ (status_write tid "open" t)); try done.
    + cbn. unfold reopen_thread, on_thread, thread_or_error. change (thread_obj tid (with_actor actor d)) with (thread_obj tid d).
      rewrite Hobj. reflexivity.
    + apply status_writes.
    + exists "", (str_node ""), "open". by left.
    + cbn [board_step]. rewrite Hb. do 3 f_equal. unfold resolution. rewrite read_insert_eq. by rewrite decide_False by done.
Qed.

(** *** Replying and editing *)

Lemma message_entries mid position body at_ :
  entry_position (message_node mid position body at_) = position /\ text_at (message_node mid position body at_) "body" = Some body /\
  read_string (message_node mid position body at_) "created_at" = Some at_.
Proof. done. Qed.

(** Rewriting the messages of a thread. *)
Lemma messages_represents d T b tid t v ms' ps actor ms :
  represents d T b -> map_at T tid = Some t -> thread_ok t -> thread_view d tid t = Some v -> messages_obj t = Some ms ->
  messages_ok ms' -> Forall (fun p => exists mid, p = message_path tid mid) ps ->
  let t' := <["messages" := NMap ms']> t in let d' := sign ps (put_thread tid t' (with_actor actor d)) in
  represents d' (<[tid := NMap t']> T)
    (board_put (with_messages (message_view d' tid ms' <$> order_of (all_entries ms')) v) b).
Proof.
  intros HR Ht Hok Hv Hms Hok' Hps t' d'.
  assert (HR' : represents (with_actor actor d) T b) by by apply represents_actor.
  destruct (get_map_put tid t' (with_actor actor d) T (rp_map _ _ _ HR')) as (_ & G2 & _).
  assert (Hm : messages_obj t' = Some ms') by (unfold messages_obj, map_at, t'; by rewrite lookup_insert_eq).
  assert (Hw : forall p, (forall mid, p <> message_path tid mid) -> writers d' !! p = writers d !! p).
  { intros p Hp. unfold d'. rewrite writers_sign, G2. rewrite decide_False; [done|]. intros Hin.
    rewrite Forall_forall in Hps. destruct (Hps p Hin) as [mid E]. by apply (Hp mid). }
  apply (update_represents (with_actor actor d) T b tid t); try done.
  - destruct Hok as (a & ms0 & Ha & Hsc & _ & _). exists a, ms'. unfold t'.
    rewrite anchor_insert, read_insert by done. done.
  - eapply Forall_impl; [exact Hps|]. intros p [mid ->]. by exists ["messages"; mid].
  - unfold t'. by rewrite read_insert.
  - unfold t'. by rewrite position_insert.
  - apply (thread_view_messages d _ tid t); [done| | | | |].
    + unfold t'. by rewrite anchor_insert.
    + done.
    + intros k Hk. unfold t'. rewrite read_insert; [done|]. set_solver.
    + apply Hw. intros mid. unfold thread_path, message_path. congruence.
    + apply Hw. intros mid. unfold status_path, message_path. congruence.
Qed.

Lemma not_message (mid : string) ms : messages_ok ms -> mid ∈ order_of (all_entries ms) <-> is_Some (ms !! mid).
Proof.
  intros [_ Hall]. rewrite elem_of_order. unfold all_entries. rewrite elem_of_entries_ids. unfold map_at. split.
  - intros (m & Hm & _). by destruct (ms !! mid) as [n|]; eauto.
  - intros [n Hn]. destruct (Hall mid n Hn) as (m & -> & _). rewrite Hn. eauto.
Qed.

Context `{FIL : !FractionalIndexLaws, HIL : !HexIndexLaws}.

(** A message put at its computed position. *)
Lemma message_inserted d tid ms mid body after at_ actor :
  messages_ok ms -> ms !! mid = None -> anchored after (order_of (all_entries ms)) = None ->
  exists ms', create_message_in_map ms mid body after at_ = Ok ms' /\ messages_ok ms' /\
    forall d', (forall k, k <> mid -> writers d' !! message_path tid k = writers d !! message_path tid k) ->
      writers d' !! message_path tid mid = Some actor ->
      message_view d' tid ms' <$> order_of (all_entries ms') =
      insert_message after (mkMView mid body at_ (Some actor)) (message_view d tid ms <$> order_of (all_entries ms)).
Proof.
  intros Hok Hn Hanch. pose proof Hok as [Hgood Hall].
  assert (Hin : forall a, after = Some a -> a ∈ (all_entries ms).*2).
  { intros a ->. unfold anchored in Hanch. case_decide as Ha; [|done]. by apply elem_of_order. }
  unfold create_message_in_map, compute_message_position. fold (all_entries ms). rewrite position_among_good by done.
  destruct (position_between (all_entries ms) after Hgood Hin) as (i & Hc & H1 & H2).
  assert (Hpos : match after with Some a => if decide (a ∈ (all_entries ms).*2) then compute_position_after (all_entries ms) after
      else Err (AfterMessageNotFound a) | None => compute_position_after (all_entries ms) None end = Ok (fi_to_string i)).
  { destruct after as [a|]; [|done]. rewrite decide_True by auto. done. }
  rewrite Hpos. set (m := message_node mid (fi_to_string i) body at_). set (ms' := <[mid := NMap m]> ms). exists ms'.
  assert (Hmid : mid ∉ (all_entries ms).*2).
  { rewrite <-elem_of_order, not_message by done. rewrite Hn. by intros [? ?]. }
  assert (Hnew : all_entries ms' ≡ₚ (fi_to_string i, mid) :: all_entries ms).
  { apply (entries_new (fun _ => true) ms mid m); [|done]. unfold map_at. by rewrite Hn. }
  destruct (insert_at_position (all_entries ms) (all_entries ms') after mid (fi_to_string i)) as [Hgood' Hord]; try done; [by exists i|].
  split_and!; [done|split; [done|]|].
  - unfold ms'. apply map_Forall_insert_2; [|done]. exists m. split; [done|]. by exists body.
  - intros d' Hw Hwm. unfold order_of at 1. rewrite Hord. fold (order_of (all_entries ms)).
    unfold insert_after, insert_message. rewrite view_ids. set (n := cut after _). rewrite fmap_app, fmap_cons, fmap_take, fmap_drop.
    assert (Hsame : message_view d' tid ms' <$> order_of (all_entries ms) = message_view d tid ms <$> order_of (all_entries ms)).
    { apply list_fmap_ext. intros j k Hk%list_elem_of_lookup_2. rewrite elem_of_order in Hk.
      assert (k <> mid) as Hne by (intros ->; done). unfold message_view. rewrite Hw by done. unfold ms'. rewrite map_at_insert.
      by rewrite decide_False by done. }
    rewrite Hsame. f_equal. f_equal. unfold message_view, ms'. rewrite map_at_insert, decide_True by done. cbn. by rewrite Hwm.
Qed.

Lemma reply_simulated d T b actor tid mid body after at_ :
  represents d T b -> simulated d T b actor (OReply tid mid body after at_).
Proof.
  intros HR. unfold simulated. cbn [doc_step board_step]. unfold reply.
  change (thread_obj tid (with_actor actor d)) with (thread_obj tid d).
  destruct (find_thread d T b tid HR) as [[Hn Hobj]|(t & v & Hobj & Ht & Hok & Hb & Hv & Hid)].
  { rewrite Hobj, Hn. split; [done|]. exists T. by apply represents_actor. }
  rewrite Hobj, Hb. pose proof Hok as (a & ms & Ha & Hsc & Hms & Hmok). rewrite Hms.
  destruct (thread_view_inv _ _ _ _ Hv) as (a' & ms0 & _ & Hms0 & Ev). rewrite Hms in Hms0. injection Hms0 as <-.
  assert (Hmv : tv_messages v = message_view d tid ms <$> order_of (all_entries ms)) by (rewrite Ev; done).
  rewrite Hmv, view_ids. destruct (ms !! mid) as [n|] eqn:Emid.
  { rewrite decide_True by (apply not_message; eauto). split; [done|]. exists T. by apply represents_actor. }
  rewrite decide_False by (rewrite not_message by done; rewrite Emid; by intros [? ?]).
  destruct (anchored after (order_of (all_entries ms))) as [x|] eqn:Ean.
  { assert (create_message_in_map ms mid body after at_ = Err (AfterMessageNotFound x)) as ->.
    { unfold create_message_in_map, compute_message_position. fold (all_entries ms). rewrite position_among_good by (by destruct Hmok).
      destruct after as [y|]; [|done]. unfold anchored in Ean. case_decide as Hy; [done|]. injection Ean as <-.
      rewrite elem_of_order in Hy. by rewrite decide_False. }
    split; [done|]. exists T. by apply represents_actor. }
  destruct (message_inserted d tid ms mid body after at_ actor Hmok Emid Ean) as (ms' & -> & Hok' & Hview). cbn [some_ids fst snd].
  split; [done|]. exists (<[tid := NMap (<["messages" := NMap ms']> t)]> T).
  assert (HR' : represents (with_actor actor d) T b) by by apply represents_actor.
  destruct (get_map_put tid (<["messages" := NMap ms']> t) (with_actor actor d) T (rp_map _ _ _ HR')) as (_ & G2 & G3).
  rewrite <-(Hview (sign [message_path tid mid] (put_thread tid (<["messages" := NMap ms']> t) (with_actor actor d)))).
  - apply (messages_represents d T b tid t v ms' _ actor ms); try done. constructor; [by exists mid|done].
  - intros k Hk. rewrite writers_sign, G2. rewrite decide_False; [done|]. unfold message_path. set_solver.
  - rewrite writers_sign, G3. by rewrite decide_True by set_solver.
Qed.

Lemma edit_simulated d T b actor tid mid body : represents d T b -> simulated d T b actor (OEdit tid mid body).
Proof.
  intros HR. unfold simulated. cbn [doc_step board_step]. unfold edit_message_body, message_or_error, thread_or_error.
  change (thread_obj tid (with_actor actor d)) with (thread_obj tid d).
  destruct (find_thread d T b tid HR) as [[Hn Hobj]|(t & v & Hobj & Ht & Hok & Hb & Hv & Hid)].
  { rewrite Hobj, Hn. split; [done|]. exists T. by apply represents_actor. }
  rewrite Hobj, Hb. cbn. pose proof Hok as (a & ms & Ha & Hsc & Hms & Hmok). rewrite Hms.
  destruct (thread_view_inv _ _ _ _ Hv) as (a' & ms0 & _ & Hms0 & Ev). rewrite Hms in Hms0. injection Hms0 as <-.
  assert (Hmv : tv_messages v = message_view d tid ms <$> order_of (all_entries ms)) by (rewrite Ev; done).
  rewrite Hmv, view_ids. destruct (ms !! mid) as [n|] eqn:Emid.
  2: { rewrite decide_False by (rewrite not_message by done; rewrite Emid; by intros [? ?]).
       assert (map_at ms mid = None) as -> by (unfold map_at; by rewrite Emid). split; [done|]. exists T. by apply represents_actor. }
  rewrite decide_True by (apply not_message; eauto). pose proof Hmok as [Hgood Hall].
  destruct (Hall mid n Emid) as (m & -> & [old Hbody]).
  assert (Hm : map_at ms mid = Some m) by (unfold map_at; by rewrite Emid). rewrite Hm, Hbody. cbn [no_ids fst snd]. split; [done|].
  set (m' := <["body" := NText body]> m). set (ms' := <[mid := NMap m']> ms).
  exists (<[tid := NMap (<["messages" := NMap ms']> t)]> T).
  assert (Hes : all_entries ms' ≡ₚ all_entries ms).
  { apply (entries_keep _ ms mid m m'); [done..|]. unfold m'. by apply position_insert. }
  assert (Hok' : messages_ok ms').
  { split; [eapply good_pairs_perm; [symmetry; apply Hes|done]|]. apply map_Forall_insert_2; [|done]. exists m'.
    split; [done|]. unfold text_at, m'. rewrite lookup_insert_eq. eauto. }
  pose proof (messages_represents d T b tid t v ms' [] actor ms HR Ht Hok Hv Hms Hok' ltac:(constructor)) as HR'.
  assert (Hedit : message_view (put_thread tid (<["messages" := NMap ms']> t) (with_actor actor d)) tid ms' <$> order_of (all_entries ms') =
    edit_view mid body <$> (message_view d tid ms <$> order_of (all_entries ms))).
  { rewrite (order_of_perm _ _ Hes), <-list_fmap_compose. apply list_fmap_ext. intros j k Hk. cbn.
    destruct (get_map_put tid (<["messages" := NMap ms']> t) (with_actor actor d) T (rp_map _ _ _ HR)) as (_ & G2 & _).
    unfold message_view, edit_view. cbn. rewrite G2. unfold ms'. rewrite map_at_insert.
    destruct (decide (mid = k)) as [->|Hne]; [rewrite decide_True by done|by rewrite decide_False by done].
    unfold m', text_at. cbn. rewrite lookup_insert_eq, read_insert, Hm by done. done. }
  assert (Hsign : forall x, sign [] x = x) by (by intros []). cbv zeta in HR'. rewrite !Hsign, Hedit in HR'. exact HR'.
Qed.

(** *** Creating a thread *)

Definition u64_ok (n : Z) : Prop := 0 <= n <= u64_max.
Definition anchor_range (a : CommentAnchor) : Prop :=
  match a with ASourceRange _ sl sc el ec _ _ _ => u64_ok sl /\ u64_ok sc /\ u64_ok el /\ u64_ok ec | _ => True end.

Lemma anchor_roundtrip a : anchor_from_json (anchor_to_json a) = Some a.
Proof.
  destruct a as [|c [p|]|s e [p|] [q|]|c sl sc el ec [p|] [q|] [r|]|c [e|] [o|]]; vm_compute; reflexivity.
Qed.

Lemma json_object_ok m : map_Forall (fun _ v => json_ok v = true) m -> json_ok (JObject m) = true.
Proof.
  cbn [json_ok]. apply (map_fold_weak_ind (fun b (m : gmap string json) =>
    map_Forall (fun _ v => json_ok v = true) m -> b = true)); [done|].
  intros k v m' b Hk IH Hall. apply map_Forall_insert in Hall as [Hv Hall]; [|done]. by rewrite Hv, IH.
Qed.

Lemma u64_json_ok n : u64_ok n -> json_ok (u64_json n) = true.
Proof. intros Hn. cbn. by apply bool_decide_eq_true. Qed.
Lemma opt_json_ok o : json_ok (opt_json o) = true.
Proof. by destruct o. Qed.

Lemma anchor_json_ok a : anchor_range a -> json_ok (anchor_to_json a) = true.
Proof.
  intros Ha. destruct a; cbn [anchor_range] in Ha; apply json_object_ok;
    repeat first [apply (map_Forall_singleton (fun _ v => json_ok v = true))
      | apply (map_Forall_insert_2 (fun _ v => json_ok v = true))];
    first [reflexivity | apply opt_json_ok | apply u64_json_ok; tauto].
Qed.

Lemma read_anchor_put t a : anchor_range a -> read_anchor (put_json_at_key_batched t "anchor" (anchor_to_json a)) = Some a.
Proof.
  intros Ha. unfold read_anchor, read_json_value.
  assert (put_json_at_key_batched t "anchor" (anchor_to_json a) = <["anchor" := fresh_node (anchor_to_json a)]> t) as ->
    by (rewrite <-fresh_node_hydrate; by destruct a).
  rewrite lookup_insert_eq. cbn [mbind option_bind]. rewrite read_fresh_node by by apply anchor_json_ok. apply anchor_roundtrip.
Qed.

Lemma put_anchor_other t a k : k <> "anchor" -> put_json_at_key_batched t "anchor" (anchor_to_json a) !! k = t !! k.
Proof. intros Hne. by destruct a; cbn; rewrite lookup_insert_ne. Qed.

Lemma put_put tid x y ps d T : get_map "threads" d = Some T ->
  put_thread tid x (sign ps (put_thread tid y d)) = sign ps (put_thread tid x d).
Proof.
  intros HT. unfold put_thread at 2 3. rewrite HT. unfold put_thread, get_map, map_at. cbn. rewrite lookup_insert_eq.
  unfold sign, set_root. cbn. f_equal. by rewrite insert_insert_eq, insert_insert_eq.
Qed.

Lemma sign_sign ps qs d : sign ps (sign qs d) = sign (ps ++ qs) d.
Proof. unfold sign. cbn. by rewrite foldr_app. Qed.

(** The object of a new thread with its first message. *)
Definition first_message (mid body at_ : string) : gmap string node :=
  {[mid := NMap (message_node mid (fi_to_string fi_default) body at_)]}.
Definition thread_fields (tid pos : string) (a : CommentAnchor) (at_ : string) : gmap string node :=
  {["id" := str_node tid; "position" := str_node pos; "thread_order_scope" := str_node (thread_order_scope a);
    "status" := str_node "open"; "created_at" := str_node at_]}.
Definition new_thread (tid pos : string) (a : CommentAnchor) (mid body at_ : string) : gmap string node :=
  <["messages" := NMap (first_message mid body at_)]>
    (put_json_at_key_batched (thread_fields tid pos a at_) "anchor" (anchor_to_json a)).

Lemma new_thread_field tid pos a mid body at_ k : k <> "messages" -> k <> "anchor" ->
  read_string (new_thread tid pos a mid body at_) k = read_string (thread_fields tid pos a at_) k.
Proof. intros H1 H2. unfold new_thread. rewrite read_insert by done. unfold read_string. by rewrite put_anchor_other. Qed.

Lemma new_thread_messages tid pos a mid body at_ :
  messages_obj (new_thread tid pos a mid body at_) = Some (first_message mid body at_).
Proof. unfold messages_obj, map_at, new_thread. by rewrite lookup_insert_eq. Qed.

Lemma new_thread_anchor tid pos a mid body at_ : anchor_range a -> read_anchor (new_thread tid pos a mid body at_) = Some a.
Proof. intros Ha. unfold new_thread. rewrite anchor_insert by done. by apply read_anchor_put. Qed.

Lemma first_entries mid body at_ : all_entries (first_message mid body at_) = [(fi_to_string fi_default, mid)].
Proof.
  apply Permutation_singleton_r.
  pose proof (entries_new (fun _ => true) ∅ mid (message_node mid (fi_to_string fi_default) body at_) eq_refl eq_refl) as H.
  rewrite (proj1 (message_entries _ _ _ _)), insert_empty in H. exact H.
Qed.

Lemma first_message_ok mid body at_ : messages_ok (first_message mid body at_).
Proof.
  split.
  - rewrite first_entries. split_and!; [|apply NoDup_singleton..]. constructor; [|done]. by exists fi_default.
  - apply (map_Forall_singleton (fun _ n => exists m, n = NMap m /\ is_Some (text_at m "body"))). eexists. split; [done|]. by exists body.
Qed.

Lemma new_thread_ok tid pos a mid body at_ : anchor_range a -> thread_ok (new_thread tid pos a mid body at_).
Proof.
  intros Ha. exists a, (first_message mid body at_). rewrite new_thread_anchor, new_thread_field, new_thread_messages by done.
  split_and!; try done; apply first_message_ok.
Qed.

Lemma new_thread_scope tid pos a mid body at_ scope :
  in_scope scope (new_thread tid pos a mid body at_) = bool_decide (thread_order_scope a = scope).
Proof.
  unfold in_scope. rewrite new_thread_field by done. apply bool_decide_ext.
  change (read_string _ _) with (Some (thread_order_scope a)). split; congruence.
Qed.

Lemma new_thread_position tid pos a mid body at_ : entry_position (new_thread tid pos a mid body at_) = pos.
Proof. unfold entry_position. by rewrite new_thread_field. Qed.

Lemma new_thread_view tid pos a mid body at_ d actor : anchor_range a ->
  writers d !! thread_path tid = Some actor -> writers d !! message_path tid mid = Some actor ->
  thread_view d tid (new_thread tid pos a mid body at_) = Some (mkTView tid a [mkMView mid body at_ (Some actor)] at_ (Some actor) None).
Proof.
  intros Ha H1 H2. unfold thread_view. rewrite new_thread_anchor, new_thread_messages by done. cbn [mbind option_bind].
  rewrite first_entries, !new_thread_field, H1 by done. rewrite decide_False by done. do 2 f_equal.
  change (order_of [(fi_to_string fi_default, mid)]) with [mid]. cbn [fmap list_fmap]. f_equal. unfold message_view.
  rewrite H2. unfold first_message, map_at. by rewrite lookup_singleton_eq.
Qed.

(** The order of every scope after a thread is put at the position computed for it. *)
Lemma new_thread_orders T after tid i a mid body at_ :
  threads_ok T -> map_at T tid = None ->
  let es := entries (in_scope (thread_order_scope a)) T in let L := merge_sort pair_le es in
  Forall (fun p => str_lt p.1 (fi_to_string i)) (take (cut after L.*2) L) ->
  Forall (fun p => str_lt (fi_to_string i) p.1) (drop (cut after L.*2) L) ->
  forall sc, let T' := <[tid := NMap (new_thread tid (fi_to_string i) a mid body at_)]> T in
    good_pairs (entries (in_scope sc) T') /\
    scope_ids sc T' = if decide (thread_order_scope a = sc) then insert_after after tid (order_of es) else scope_ids sc T.
Proof.
  intros Hok Hmap es L H1 H2 sc T'. destruct (decide (thread_order_scope a = sc)) as [<-|Hne].
  - apply (insert_at_position es (entries (in_scope (thread_order_scope a)) T') after tid (fi_to_string i));
      [apply (tk_scopes _ Hok)| |done..|by exists i|].
    + unfold es. rewrite elem_of_entries_ids. intros (o & Ho & _). congruence.
    + rewrite <-(new_thread_position tid (fi_to_string i) a mid body at_) at 1. apply entries_new; [done|].
      rewrite new_thread_scope. by apply bool_decide_eq_true.
  - assert (Hp : entries (in_scope sc) T' ≡ₚ entries (in_scope sc) T).
    { apply entries_skip; [done|]. rewrite new_thread_scope. by apply bool_decide_eq_false. }
    split; [|by apply order_of_perm]. eapply good_pairs_perm; [symmetry; apply Hp|]. apply (tk_scopes _ Hok).
Qed.

(** Creating a thread whose position is found. *)
Lemma create_at tid mid a body after at_ d T i :
  validate_comment_anchor a = Ok () -> get_map "threads" d = Some T -> map_at T tid = None ->
  compute_thread_position a after d = Ok (fi_to_string i) ->
  create_thread tid mid a body after at_ d =
  (sign ([message_path tid mid] ++ [thread_path tid; status_path tid])
     (put_thread tid (new_thread tid (fi_to_string i) a mid body at_) d), Ok (tid, mid)).
Proof.
  intros Hva HT Hn Hc. unfold create_thread, thread_obj, scaffold_map. rewrite Hva, HT. cbn [mbind option_bind]. rewrite Hn, Hc.
  change (create_message_in_map ∅ mid body None at_) with (Ok (E:=CommentsDocError) (first_message mid body at_)). cbv beta iota zeta.
  by rewrite (put_put tid _ _ _ _ T HT), sign_sign.
Qed.

Lemma create_simulated d T b actor tid mid a body after at_ : anchor_range a ->
  represents d T b -> simulated d T b actor (OCreate tid mid a body after at_).
Proof.
  intros Hrange HR. apply (represents_actor _ _ _ actor) in HR. pose proof (rp_map _ _ _ HR) as HT. pose proof (rp_ok _ _ _ HR) as Hok.
  unfold simulated. cbn [doc_step board_step].
  destruct (validate_comment_anchor a) as [[]|e] eqn:Hva;
    [|unfold create_thread; rewrite Hva; split; [done|]; by exists T].
  destruct (find_thread _ T b tid HR) as [[Hn Hobj]|(t & v & Hobj & Ht & _ & Hb & _)].
  2: { unfold create_thread. rewrite Hva, Hobj, Hb. split; [done|]. by exists T. }
  assert (Hmap : map_at T tid = None) by (unfold thread_obj in Hobj; rewrite HT in Hobj; exact Hobj).
  rewrite Hn. set (scope := thread_order_scope a). set (es := entries (in_scope scope) T).
  assert (Hgood : good_pairs es) by apply (tk_scopes _ Hok).
  assert (Hc : compute_thread_position a after (with_actor actor d) = match after with
    | Some y => if decide (y ∈ es.*2) then compute_position_after es after else Err (AfterThreadNotFound y)
    | None => compute_position_after es None end).
  { unfold compute_thread_position. rewrite HT. fold scope es. by rewrite position_among_good. }
  assert (Hids : board_order scope b = order_of es) by apply (rp_order _ _ _ HR). rewrite Hids.
  destruct (anchored after (order_of es)) as [x|] eqn:Ean.
  { destruct after as [y|]; [|done]. unfold anchored in Ean. case_decide as Hy; [done|]. injection Ean as <-.
    rewrite elem_of_order in Hy. rewrite decide_False in Hc by done.
    unfold create_thread, scaffold_map. rewrite Hva, Hobj, HT, Hc. split; [done|]. by exists T. }
  assert (Hin : forall y, after = Some y -> y ∈ es.*2).
  { intros y ->. unfold anchored in Ean. case_decide as Hy; [|done]. by apply elem_of_order. }
  destruct (position_between es after Hgood Hin) as (i & Hi & H1 & H2).
  assert (Hpos : compute_thread_position a after (with_actor actor d) = Ok (fi_to_string i)).
  { rewrite Hc. destruct after as [y|]; [|done]. rewrite decide_True by auto. done. }
  rewrite (create_at tid mid a body after at_ _ T i) by done. cbn [some_ids fst snd]. split; [done|].
  pose proof (new_thread_orders T after tid i a mid body at_ Hok Hmap H1 H2) as Hscope.
  destruct (get_map_put tid (new_thread tid (fi_to_string i) a mid body at_) (with_actor actor d) T HT) as (_ & _ & G3).
  eexists. apply (put_represents _ T b tid); [done|by apply new_thread_ok| | | |].
  - repeat constructor; unfold under, thread_path, status_path, message_path; eauto.
  - intros sc. apply Hscope.
  - eexists. split; [|reflexivity]. apply new_thread_view; [done|..]; rewrite writers_sign, G3;
      by rewrite decide_True by set_solver.
  - intros sc. destruct (Hscope sc) as [_ ->]. unfold board_order. cbn. rewrite lookup_insert. fold scope.
    case_decide; [done|]. apply (rp_order _ _ _ HR).
Qed.

(** *** Sessions *)

Fixpoint run_ops {S R} (step : string -> comment_op -> S -> S * R) (ops : list (string * comment_op)) (s : S) : S * list R :=
  match ops with
  | [] => (s, [])
  | (actor, op) :: ops => let '(s, r) := step actor op s in let '(s, rs) := run_ops step ops s in (s, r :: rs)
  end.

Definition op_range (op : comment_op) : Prop := match op with OCreate _ _ a _ _ _ => anchor_range a | _ => True end.

Lemma step_simulated d T b actor op : op_range op -> represents d T b -> simulated d T b actor op.
Proof.
  destruct op; intros Hr HR; [by apply create_simulated|by apply reply_simulated|by apply resolve_simulated|
    by apply reopen_simulated|by apply edit_simulated].
Qed.

Lemma run_simulated ops d T b : Forall (fun p => op_range p.2) ops -> represents d T b ->
  (run_ops doc_step ops d).2 = (run_ops board_step ops b).2 /\
  exists T', represents (run_ops doc_step ops d).1 T' (run_ops board_step ops b).1.
Proof.
  intros Hr. revert d T b. induction Hr as [|[actor op] ops Hop _ IH]; intros d T b HR; [split; [done|]; by exists T|].
  destruct (step_simulated d T b actor op Hop HR) as [Hres [T' HR']]. cbn [run_ops].
  destruct (doc_step actor op d) as [d' r]. destruct (board_step actor op b) as [b' r']. cbn [fst snd] in *. subst r'.
  specialize (IH d' T' b' HR'). destruct (run_ops doc_step ops d') as [d'' rs], (run_ops board_step ops b') as [b'' rs'].
  cbn [fst snd] in *. destruct IH as [-> IH]. done.
Qed.

(** What names the document, which no operation on threads touches. *)
Definition identity_of (d : CommentsDoc) : option node * list node * string :=
  (root d !! "comments_doc_id", id_rivals d, comments_doc_id d).

Lemma identity_put tid t d : identity_of (put_thread tid t d) = identity_of d.
Proof. unfold put_thread. destruct (get_map "threads" d); [|done]. unfold identity_of. cbn. by rewrite lookup_insert_ne. Qed.
Lemma identity_sign ps d : identity_of (sign ps d) = identity_of d.
Proof. done. Qed.
Lemma identity_scaffold d : identity_of (scaffold_map "threads" d) = identity_of d.
Proof. unfold scaffold_map. destruct (get_map "threads" d); [done|]. unfold identity_of. cbn. by rewrite lookup_insert_ne. Qed.

Lemma step_identity actor op d : identity_of (doc_step actor op d).1 = identity_of d.
Proof.
  transitivity (identity_of (with_actor actor d)); [|done]. destruct op; cbn [doc_step].
  - unfold create_thread. repeat (case_match; cbn [some_ids fst]; repeat first [rewrite identity_sign | rewrite identity_put]; rewrite ?identity_scaffold; try done).
  - unfold reply. repeat (case_match; cbn [some_ids fst]; rewrite ?identity_sign, ?identity_put; try done).
  - unfold resolve_thread, on_thread. case_match; cbn [no_ids fst]; rewrite ?identity_sign, ?identity_put; done.
  - unfold reopen_thread, on_thread. case_match; cbn [no_ids fst]; rewrite ?identity_sign, ?identity_put; done.
  - unfold edit_message_body. repeat (case_match; cbn [no_ids fst]; rewrite ?identity_sign, ?identity_put; try done).
Qed.

Lemma run_identity ops d : identity_of (run_ops doc_step ops d).1 = identity_of d.
Proof.
  revert d. induction ops as [|[actor op] ops IH]; intros d; [done|]. cbn [run_ops].
  rewrite <-(step_identity actor op d). destruct (doc_step actor op d) as [d' r]. cbn [fst].
  specialize (IH d'). by destruct (run_ops doc_step ops d').
Qed.

Lemma ensure_identity d d' : identity_of d = identity_of d' ->
  ensure_raw_comments_doc_id_matches d = ensure_raw_comments_doc_id_matches d'.
Proof.
  unfold identity_of. intros [= E1 E2 E3].
  unfold ensure_raw_comments_doc_id_matches, ensure_raw_comments_doc_id_matches_value, unambiguous_raw_comments_doc_id.
  by rewrite E1, E2, E3.
Qed.

(** A new document carries its identity and is empty. *)
Lemma new_document id r actor d : try_new_with_actor id r actor = Ok d ->
  ensure_raw_comments_doc_id_matches d = Ok () /\ comments_doc_id d = id /\ get_map "threads" d = Some ∅.
Proof.
  unfold try_new_with_actor, set_comments_doc_id. destruct (validate_comments_doc_id id) as [[]|e] eqn:Hid; [|done].
  cbv beta iota. intros [= Hd].
  assert (Hc : comments_doc_id d = id) by (by rewrite <-Hd).
  assert (Hr : id_rivals d = []) by (by rewrite <-Hd).
  assert (Hu : forall k, k <> "notebook_ref" -> root d !! k = <["comments_doc_id" := str_node id]> schema_seed !! k).
  { intros k Hk. rewrite <-Hd. unfold set_notebook_ref. cbn [root set_root]. unfold update_json_at_key. by rewrite lookup_insert_ne. }
  split_and!; [|done|].
  - unfold ensure_raw_comments_doc_id_matches, ensure_raw_comments_doc_id_matches_value, unambiguous_raw_comments_doc_id.
    rewrite Hc, Hid, Hu, Hr, lookup_insert_eq by done. change (all_strings _) with (Some [id]).
    cbv beta iota. change (remove_dups [id]) with [id]. cbv beta iota. by rewrite Hid, decide_True.
  - unfold get_map, map_at. rewrite Hu by done. reflexivity.
Qed.

Lemma empty_represents d : get_map "threads" d = Some ∅ -> represents d ∅ (mkBoard ∅ ∅).
Proof.
  intros HT. split; [done| | |].
  - split; [apply map_Forall_empty|]. intros scope. split_and!; constructor.
  - intros tid. done.
  - intros scope. done.
Qed.

(** C38. The threads and messages of a document created under an identity and written by any
    actors in any order are those of the board: every operation answers as the board's, the
    projection is the document's under its identity, sorted by scope, position and id, and
    what it shows of a scope are the board's threads of the scope in the board's order. *)
Theorem comments_refine_board id r actor0 d0 ops order :
  try_new_with_actor id r actor0 = Ok d0 -> Forall (fun p => op_range p.2) ops ->
  let '(d, results) := run_ops doc_step ops d0 in
  let '(b, results') := run_ops board_step ops (mkBoard ∅ ∅) in
  results = results' /\
  exists l, read_projection order d = Ok (id, l) /\ StronglySorted thread_le l /\
    forall scope, strip_thread <$> filter (fun t => thread_scope t = scope) l =
      omap (fun tid => b_threads b !! tid) (board_order scope b).
Proof.
  intros Hnew Hops. destruct (new_document id r actor0 d0 Hnew) as (Hid & Hc & HT).
  destruct (run_simulated ops d0 ∅ (mkBoard ∅ ∅) Hops (empty_represents d0 HT)) as [Hres [T HR]].
  pose proof (run_identity ops d0) as Hsame.
  destruct (run_ops doc_step ops d0) as [d rs], (run_ops board_step ops (mkBoard ∅ ∅)) as [b rs']. cbn [fst snd] in *.
  split; [done|]. exists (project_threads order d). split_and!.
  - unfold read_projection. rewrite (ensure_identity d d0 Hsame), Hid. injection Hsame as _ _ E. by rewrite E, Hc.
  - apply projection_sorted.
  - intros scope. rewrite (scope_view d order T scope (rp_map _ _ _ HR) (rp_ok _ _ _ HR)), (rp_order _ _ _ HR).
    apply list_omap_ext. apply Forall_Forall2_diag, Forall_forall. intros k _. symmetry. apply (rp_threads _ _ _ HR).
Qed.
End Steps.

(** ** Identity *)

Lemma ensure_value_Ok e d :
  ensure_raw_comments_doc_id_matches_value e d = Ok () <->
  validate_comments_doc_id e = Ok () /\ unambiguous_raw_comments_doc_id d = Ok (Some e).
Proof.
  unfold ensure_raw_comments_doc_id_matches_value. destruct (validate_comments_doc_id e) as [[]|err] eqn:He; [|naive_solver].
  destruct (unambiguous_raw_comments_doc_id d) as [[s|]|err]; [|naive_solver..].
  destruct (decide (s = e)) as [->|Hne].
  - rewrite He. naive_solver.
  - destruct (validate_comments_doc_id s) as [[]|err]; naive_solver.
Qed.

Lemma raw_id_after_set id d : unambiguous_raw_comments_doc_id
  (mkComments (<["comments_doc_id" := str_node id]> (root d)) [] (writers d) id (doc_actor d)) = Ok (Some id).
Proof.
  unfold unambiguous_raw_comments_doc_id. cbn [root id_rivals]. rewrite lookup_insert_eq.
  change (all_strings _) with (Some [id]). reflexivity.
Qed.

Lemma ref_roundtrip r : ref_from_json (ref_to_json r) = Some r /\ json_ok (ref_to_json r) = true.
Proof. destruct r; split; vm_compute; reflexivity. Qed.

Lemma set_ref_facts r d :
  notebook_ref (set_notebook_ref r d) = Some r /\ (forall k, k <> "notebook_ref" -> root (set_notebook_ref r d) !! k = root d !! k) /\
  unambiguous_raw_comments_doc_id (set_notebook_ref r d) = unambiguous_raw_comments_doc_id d.
Proof.
  assert (Hk : forall k, k <> "notebook_ref" -> root (set_notebook_ref r d) !! k = root d !! k).
  { intros k Hk. unfold set_notebook_ref, update_json_at_key. cbn [root set_root]. by rewrite lookup_insert_ne. }
  split_and!; [|done|].
  - destruct (ref_roundtrip r) as [H1 H2]. unfold notebook_ref, read_json_value, set_notebook_ref, update_json_at_key.
    cbn [root set_root]. rewrite lookup_insert_eq. cbn [mbind option_bind]. rewrite update_node_fresh, read_fresh_node by done. done.
  - unfold unambiguous_raw_comments_doc_id. rewrite Hk by done. done.
Qed.

(** The identity a document ends with, and what is left as it was. *)
Record identity_settled (expected : string) (r : NotebookCommentRef) (d d' : CommentsDoc) : Prop := {
  is_raw : unambiguous_raw_comments_doc_id d' = Ok (Some expected);
  is_ref : notebook_ref d' = Some r;
  is_cached : comments_doc_id d' = expected;
  is_rest k : k <> "comments_doc_id" -> k <> "notebook_ref" -> root d' !! k = root d !! k;
  is_writers : writers d' = writers d;
}.

(** The second half of the repair, after the identity is right. *)
Lemma repair_ref expected r d0 d (b : bool) :
  validate_comments_doc_id expected = Ok () -> unambiguous_raw_comments_doc_id d = Ok (Some expected) ->
  comments_doc_id d = expected -> writers d = writers d0 ->
  (forall k, k <> "comments_doc_id" -> root d !! k = root d0 !! k) -> (b = false -> root d = root d0) ->
  exists d' b', (let '(d, repaired) := if decide (notebook_ref d <> Some r) then (set_notebook_ref r d, true) else (d, b) in
      match ensure_raw_comments_doc_id_matches_value expected d with
      | Err e => (d, Err e) | Ok _ => (d, Ok repaired) end) = (d', Ok b') /\
    identity_settled expected r d0 d' /\ (b' = false -> root d' = root d0).
Proof.
  intros Hv Hraw Hc Hw Hk Hb. destruct (set_ref_facts r d) as (S1 & S2 & S3). destruct (decide (notebook_ref d <> Some r)) as [Hne|He].
  - assert (ensure_raw_comments_doc_id_matches_value expected (set_notebook_ref r d) = Ok ()) as ->
      by (apply ensure_value_Ok; by rewrite S3).
    eexists _, _. split; [done|]. split; [|done]. split; [by rewrite S3|done..| |done].
    intros k H1 H2. rewrite S2 by done. by apply Hk.
  - assert (ensure_raw_comments_doc_id_matches_value expected d = Ok ()) as -> by (by apply ensure_value_Ok).
    eexists _, _. split; [done|]. split; [|done]. split; [done|by apply dec_stable|done| |done]. intros k H1 _. by apply Hk.
Qed.

Lemma repair_settles expected r d : validate_comments_doc_id expected = Ok () ->
  match repair_identity_fields expected r true d with
  | (d', Ok repaired) => identity_settled expected r d d' /\ (repaired = false -> root d' = root d)
  | (_, Err e) => match unambiguous_raw_comments_doc_id d with
      | Ok (Some s) => validate_comments_doc_id s = Err e
      | Ok None => e = MissingCommentsDocId
      | Err _ => False
      end
  end.
Proof.
  intros Hv. unfold repair_identity_fields. rewrite Hv.
  assert (Hset : forall d1, d1 = mkComments (<["comments_doc_id" := str_node expected]> (root d)) [] (writers d) expected (doc_actor d) ->
    exists d' b', (let '(d, repaired) := if decide (notebook_ref d1 <> Some r) then (set_notebook_ref r d1, true) else (d1, true) in
      match ensure_raw_comments_doc_id_matches_value expected d with
      | Err e => (d, Err e) | Ok _ => (d, Ok repaired) end) = (d', Ok b') /\
    identity_settled expected r d d' /\ (b' = false -> root d' = root d)).
  { intros d1 ->. apply (repair_ref expected r d); try done; [apply raw_id_after_set|].
    intros k Hk. cbn [root]. by rewrite lookup_insert_ne. }
  unfold set_comments_doc_id. rewrite Hv.
  destruct (ensure_raw_comments_doc_id_matches_value expected d) as [[]|e] eqn:He.
  - apply ensure_value_Ok in He as [_ Hraw].
    destruct (repair_ref expected r d (set_cached expected d) false) as (d' & b' & E & H); try done. rewrite E. exact H.
  - unfold ensure_raw_comments_doc_id_matches_value in He. rewrite Hv in He.
    destruct (unambiguous_raw_comments_doc_id d) as [[s|]|e'] eqn:Eu.
    + destruct (validate_comments_doc_id s) as [[]|e''] eqn:Es.
      * case_decide as Hs; [done|]. injection He as <-. destruct (Hset _ eq_refl) as (d' & b' & E & H). rewrite E. exact H.
      * injection He as ->. assert (Hshape : e = MissingCommentsDocId \/ e = InvalidCommentsDocId s).
        { unfold validate_comments_doc_id in Es. repeat case_match; naive_solver. }
        by destruct Hshape as [->| ->].
    + by injection He as <-.
    + assert (e' = CommentsDocIdConflict) as -> by (unfold unambiguous_raw_comments_doc_id in Eu; repeat case_match; naive_solver).
      injection He as <-. destruct (Hset _ eq_refl) as (d' & b' & E & H). rewrite E. exact H.
Qed.

(** Receiving a message under an expected identity.  When Automerge applies it, either
    the document ends with the expected identity and notebook and only them, with the
    peer's state, everything else as received, and unchanged when nothing was repaired; or
    the received identity is missing or malformed, and document and peer start over: the
    document as it was and a fresh peer state. *)
Theorem received_identity_kept {S} (fresh peer : S) x expected r d :
  validate_comments_doc_id expected = Ok () -> rcv_error x = None ->
  match receive_sync_message_with_changes_repairing_identity fresh peer x expected r d with
  | (d', peer', Ok report) =>
      peer' = rcv_peer x /\ identity_settled expected r (take_received x d) d' /\
      (repaired_identity report = false -> root d' = rcv_root x) /\
      (forall a, a ∈ incoming_actor_labels report <-> a ∈ rcv_actors x)
  | (d', peer', Err e) =>
      d' = d /\ peer' = fresh /\
      match unambiguous_raw_comments_doc_id (take_received x d) with
      | Ok (Some s) => validate_comments_doc_id s = Err e
      | Ok None => e = MissingCommentsDocId
      | Err _ => False
      end
  end.
Proof.
  intros Hv Hx. pose proof (repair_settles expected r (take_received x d) Hv) as H.
  unfold receive_sync_message_with_changes_repairing_identity. rewrite Hv, Hx.
  destruct (repair_identity_fields expected r true (take_received x d)) as [d' [b|e]]; [|done].
  destruct H as [H1 H2]. split_and!; [done..|]. intros a. cbn. by rewrite merge_sort_Permutation, elem_of_remove_dups.
Qed.

(** ** Points of a source *)

(** Line and UTF-16 column after some characters. *)
Definition advance (p : Z * Z) (c : Z) : Z * Z := if c =? newline then (p.1 + 1, 0) else (p.1, p.2 + len_utf16 c).
Definition point_after (cs : list Z) : Z * Z := fold_left advance cs (0, 0).

Fixpoint width8 (cs : list Z) : Z := match cs with [] => 0 | c :: cs => len_utf8 c + width8 cs end.
Fixpoint width16 (cs : list Z) : Z := match cs with [] => 0 | c :: cs => len_utf16 c + width16 cs end.
Fixpoint newlines (cs : list Z) : Z :=
  match cs with [] => 0 | c :: cs => (if c =? newline then 1 else 0) + newlines cs end.
#[local] Arguments len_utf8 : simpl never.
#[local] Arguments len_utf16 : simpl never.
#[local] Arguments newline : simpl never.
#[local] Arguments Z.eqb : simpl never.
#[local] Arguments Z.add : simpl never.
Definition one_line (cs : list Z) : Prop := Forall (fun c => c <> newline) cs.
Definition whole_lines (cs : list Z) : Prop := cs = [] \/ exists l, cs = l ++ [newline].

Lemma width16_nonneg cs : 0 <= width16 cs.
Proof. induction cs as [|c cs IH]; cbn; [lia|]. unfold len_utf16. destruct (c <? 65536); lia. Qed.
Lemma newlines_nonneg cs : 0 <= newlines cs.
Proof. induction cs as [|c cs IH]; cbn; [lia|]. case_match; lia. Qed.
Lemma width8_app a b : width8 (a ++ b) = width8 a + width8 b.
Proof. induction a as [|c a IH]; cbn; [lia|]. rewrite IH. lia. Qed.
Lemma newlines_app a b : newlines (a ++ b) = newlines a + newlines b.
Proof. induction a as [|c a IH]; cbn; [lia|]. rewrite IH. lia. Qed.

Lemma length_push l s : String.length (foldr (fun n s => String (byte_char n) s) s l) = (length l + String.length s)%nat.
Proof. induction l as [|n l IH]; cbn; [done|]. by rewrite IH. Qed.
Lemma length_utf8_string cs : Z.of_nat (String.length (utf8_string cs)) = width8 cs.
Proof.
  induction cs as [|c cs IH]; [done|]. cbn [utf8_string width8]. rewrite length_push. unfold len_utf8, zlen.
  lia.
Qed.

Lemma find_column_iff column units offset cs off :
  units <= column ->
  find_column column units offset cs = Ok off <->
  exists seg rest, cs = seg ++ rest /\ one_line seg /\ units + width16 seg = column /\ off = offset + width8 seg.
Proof.
  revert units offset. induction cs as [|c cs IH]; intros units offset Hle; cbn [find_column].
  - destruct (Z.eqb_spec units column) as [->|Hne].
    + split; [intros [= ->]; exists [], []; split_and!; [done|constructor|cbn; lia..]|].
      intros ([|] & ? & E & _ & _ & ->); [cbn; f_equal; lia|done].
    + split; [done|]. intros ([|] & ? & E & _ & Hw & _); [cbn in Hw; lia|done].
  - assert (Hpos : 1 <= len_utf16 c) by (unfold len_utf16; destruct (c <? 65536); lia).
    destruct (Z.eqb_spec units column) as [->|Hne].
    + split; [intros [= ->]; exists [], (c :: cs); split_and!; [done|constructor|cbn; lia..]|].
      intros ([|c' seg] & ? & E & _ & Hw & ->); [cbn; f_equal; lia|]. injection E as <- _. cbn in Hw.
      pose proof (width16_nonneg seg). lia.
    + destruct (Z.eqb_spec c newline) as [->|Hc].
      { split; [done|]. intros ([|c' seg] & ? & E & Ho & Hw & _); [cbn in Hw; lia|]. injection E as <- _. by inversion Ho. }
      destruct (Z.ltb_spec column (units + len_utf16 c)) as [Hlt|Hge].
      { split; [done|]. intros ([|c' seg] & ? & E & Ho & Hw & _); [cbn in Hw; lia|]. injection E as <- _. cbn in Hw.
        pose proof (width16_nonneg seg). lia. }
      rewrite IH by done. split.
      * intros (seg & rest & -> & Ho & Hw & ->). exists (c :: seg), rest. split_and!; [done|by constructor|cbn..]; lia.
      * intros ([|c' seg] & rest & E & Ho & Hw & ->); [cbn in Hw; lia|]. injection E as <- ->. cbn in Hw |- *.
        exists seg, rest. split_and!; [done|by inversion Ho|lia..].
Qed.

Lemma whole_lines_cons c l : whole_lines l -> (l = [] -> c = newline) -> whole_lines (c :: l).
Proof. intros [->|[k ->]] H; right; [exists []; by rewrite H|by exists (c :: k)]. Qed.

Lemma skip_lines_iff line offset cs off rest :
  0 <= line ->
  skip_lines line offset cs = Some (off, rest) <->
  exists pre, cs = pre ++ rest /\ whole_lines pre /\ newlines pre = line /\ off = offset + width8 pre.
Proof.
  assert (Hend : forall pre, whole_lines pre -> newlines pre = 0 -> pre = []).
  { intros pre [->|[l ->]] Hn; [done|]. rewrite newlines_app in Hn. change (newlines [newline]) with 1 in Hn. pose proof (newlines_nonneg l). lia. }
  revert line offset. induction cs as [|c cs IH]; intros line offset Hle; cbn [skip_lines]; destruct (Z.eqb_spec line 0) as [->|Hne].
  1, 3: split; [intros [= -> ->]; exists []; split_and!; [done|by left|done|cbn; lia]|];
    intros (pre & E & Hw & Hn & ->); rewrite (Hend pre Hw Hn) in *; cbn in *; subst; do 2 f_equal; lia.
  - split; [done|]. intros ([|] & E & _ & Hn & _); [cbn in Hn; lia|done].
  - rewrite IH by (case_match; lia). split.
    + intros (pre & -> & Hw & Hn & ->). exists (c :: pre). split_and!; [done| |cbn; case_match; lia|cbn; lia].
      apply whole_lines_cons; [done|]. intros ->. cbn in Hn. destruct (Z.eqb_spec c newline); [done|lia].
    + intros ([|c' pre] & E & Hw & Hn & ->); [cbn in Hn; lia|]. injection E as <- ->. cbn in Hn |- *.
      exists pre. split_and!; [done| |case_match; lia|lia]. destruct Hw as [?|[[|c' k] [= -> ->]]]; [done|by left|right; by exists k].
Qed.

Lemma fold_advance_line seg p : one_line seg -> fold_left advance seg p = (p.1, p.2 + width16 seg).
Proof.
  intros H. revert p. induction H as [|c seg Hc _ IH]; intros [l k]; cbn; [f_equal; lia|]. unfold advance at 2.
  destruct (Z.eqb_spec c newline); [done|]. rewrite IH. cbn. f_equal. lia.
Qed.
Lemma fold_advance_fst cs p : (fold_left advance cs p).1 = p.1 + newlines cs.
Proof.
  revert p. induction cs as [|c cs IH]; intros p; cbn; [lia|]. rewrite IH. unfold advance. case_match; cbn; lia.
Qed.
Lemma point_lines pre : whole_lines pre -> point_after pre = (newlines pre, 0).
Proof.
  intros [->|[l ->]]; [done|]. unfold point_after. rewrite fold_left_app, newlines_app.
  change (newlines [newline]) with 1. cbn [fold_left]. unfold advance at 1. rewrite Z.eqb_refl. by rewrite fold_advance_fst.
Qed.
Lemma point_split pre seg : whole_lines pre -> one_line seg -> point_after (pre ++ seg) = (newlines pre, width16 seg).
Proof. intros H1 H2. unfold point_after. rewrite fold_left_app. fold (point_after pre). by rewrite point_lines, fold_advance_line. Qed.

Lemma last_line cs : exists pre seg, cs = pre ++ seg /\ whole_lines pre /\ one_line seg.
Proof.
  induction cs as [|c cs (pre & seg & -> & Hw & Ho)] using rev_ind.
  - exists [], []. split_and!; [done|by left|constructor].
  - destruct (decide (c = newline)) as [->|Hc].
    + exists ((pre ++ seg) ++ [newline]), []. split_and!; [by rewrite app_nil_r|right; eauto|constructor].
    + exists pre, (seg ++ [c]). split_and!; [by rewrite app_assoc|done|]. apply Forall_app. by repeat constructor.
Qed.

(** A line and a UTF-16 column of a source are located at a byte offset exactly when
    some prefix of its characters ends at that line and column, and the offset is the
    length of the prefix in UTF-8. *)
Theorem source_point_exact cs line column off :
  Forall (fun c => is_scalar c = true) cs -> 0 <= line -> 0 <= column ->
  source_byte_offset_from_utf16_point (utf8_string cs) line column = Ok off <->
  exists before after, cs = before ++ after /\ point_after before = (line, column) /\
    off = Z.of_nat (String.length (utf8_string before)).
Proof.
  intros Hcs Hl Hc. unfold source_byte_offset_from_utf16_point. rewrite chars_utf8_string by done. split.
  - destruct (skip_lines line 0 cs) as [[o rest]|] eqn:E; [|done]. apply skip_lines_iff in E as (pre & -> & Hw & <- & ->); [|done].
    intros (seg & rest' & -> & Ho & <- & ->)%find_column_iff; [|done]. exists (pre ++ seg), rest'.
    rewrite app_assoc, point_split, length_utf8_string, width8_app by done. split_and!; [done|f_equal; lia|lia].
  - intros (before & after & -> & Hp & ->). destruct (last_line before) as (pre & seg & -> & Hw & Ho).
    rewrite point_split in Hp by done. injection Hp as <- <-.
    assert (skip_lines (newlines pre) 0 ((pre ++ seg) ++ after) = Some (width8 pre, seg ++ after)) as ->.
    { apply skip_lines_iff; [done|]. exists pre. by rewrite app_assoc. }
    apply find_column_iff; [apply width16_nonneg|]. exists seg, after. rewrite length_utf8_string, width8_app. split_and!; [done..|lia].
Qed.

(** ** Concrete positions

    The bit positions of [NotebookDoc], a bit written as the two digits of a byte. *)
Module HexIndex.
Import BitIndex.

Fixpoint pad (s : string) : string :=
  match s with EmptyString => EmptyString | String c s => String (bit false) (String c (pad s)) end.
Fixpoint unpad (s : string) : string :=
  match s with String _ (String c s) => String c (unpad s) | _ => EmptyString end.

#[export] Instance hex_index : FractionalIndex := {|
  findex := list bool; fi_default := []; new_before l := l ++ [false]; new_after l := l ++ [true];
  new_between := between; fi_to_string l := pad (show l); from_hex_string s := read (unpad s)
|}.

Lemma unpad_pad s : unpad (pad s) = s.
Proof. induction s as [|c s IH]; cbn; [done|]. by rewrite IH. Qed.

Lemma lt_heads c d s t s' t' : c <> d -> str_lt (String c s) (String d t) -> str_lt (String c s') (String d t').
Proof.
  unfold str_lt, String.le, String.leb. cbn. intros Hne. destruct (Ascii.compare c d) eqn:E.
  - by apply Ascii.compare_eq_iff in E.
  - intros _. split; [done|congruence].
  - by intros [? _].
Qed.

Lemma pad_lt s t : str_lt s t -> str_lt (pad s) (pad t).
Proof.
  revert t. induction s as [|c s IH]; intros [|d t] H; cbn [pad].
  - by destruct H as [_ []].
  - by split.
  - by destruct H.
  - apply lt_cons. destruct (decide (c = d)) as [->|Hne]; [apply lt_cons, IH; by apply lt_cons in H|by eapply lt_heads].
Qed.

Lemma lt_total s t : str_lt s t \/ s = t \/ str_lt t s.
Proof.
  destruct (decide (s = t)) as [->|Hne]; [auto|]. unfold str_lt. destruct (total String.le s t); naive_solver.
Qed.
Lemma lt_asym s t : str_lt s t -> str_lt t s -> False.
Proof. intros [H1 Hne] [H2 _]. by apply Hne, (anti_symm String.le). Qed.

Lemma pad_lt_inv s t : str_lt (pad s) (pad t) -> str_lt s t.
Proof.
  intros H. destruct (lt_total s t) as [?|[->|Hgt]]; [done|by destruct H as [_ []]|].
  destruct (lt_asym _ _ H). by apply pad_lt.
Qed.

#[export] Instance hex_index_laws : FractionalIndexLaws.
Proof.
  split; cbn.
  - intros i. by rewrite unpad_pad, read_show.
  - intros i. apply pad_lt, show_before.
  - intros i. apply pad_lt, show_after.
  - intros i j H%pad_lt_inv. destruct (between_lt i j H) as (m & Hm & H1 & H2). exists m. auto using pad_lt.
Qed.

Lemma pad_hex s : all_hex s = true -> all_hex (pad s) = true /\ Nat.even (String.length (pad s)) = true.
Proof. induction s as [|c s IH]; cbn -[hex_digit Nat.even]; [done|]. intros [-> [-> H]%IH]%andb_prop. split; [done|exact H]. Qed.
Lemma show_hex l : all_hex (show l) = true.
Proof. induction l as [|b l IH]; [done|]. cbn -[hex_digit]. rewrite IH. by destruct b. Qed.

#[export] Instance hex_laws : HexIndexLaws.
Proof.
  split. intros i. destruct (pad_hex (show i) (show_hex i)) as [H1 H2]. cbn [fi_to_string hex_index].
  rewrite H1, H2. destruct (show_nonempty i) as (c & s & ->). done.
Qed.
End HexIndex.

Module CommentExamples.
Import HexIndex.
#[local] Instance equal_puts_dropped : PutRecorded := false.

Definition nb : NotebookCommentRef := LocalRoom "r1".
Definition doc0 : CommentsDoc := match try_new_with_actor "comments:local-room:r1" nb "runtimed:comments" with
  | Ok d => d | Err _ => seed_doc "" end.

Definition script : list (string * comment_op) :=
  [("alice", OCreate "t1" "m1" (ACell "c1" None) "hello" None "1");
   ("bob", OCreate "t2" "m1" (ASourceRange "c1" 0 0 1 2 None (Some "x") None) "second" (Some "t1") "2");
   ("carol", OCreate "t3" "m1" (ACell "c1" None) "first" None "3");
   ("bob", OReply "t1" "m2" "hi" (Some "m1") "4"); ("dan", OReply "t1" "m3" "between" (Some "m1") "5");
   ("bob", OResolve "t1" "6"); ("alice", OEdit "t1" "m1" "hello again"); ("eve", OReply "t9" "m1" "" None "7");
   ("bob", OCreate "t4" "m1" ANotebook "" (Some "t1") "8")].

Lemma script_range : Forall (fun p => op_range p.2) script.
Proof. repeat constructor; cbn; unfold u64_ok; try done; vm_compute; congruence. Qed.

Lemma comments_refine_board_witness :
  let '(d, results) := run_ops doc_step script doc0 in
  let '(b, results') := run_ops board_step script (mkBoard ∅ ∅) in
  results = results' /\
  exists l, read_projection None d = Ok ("comments:local-room:r1", l) /\ StronglySorted thread_le l /\
    forall scope, strip_thread <$> filter (fun t => thread_scope t = scope) l =
      omap (fun tid => b_threads b !! tid) (board_order scope b).
Proof.
  apply (comments_refine_board "comments:local-room:r1" nb "runtimed:comments" doc0 script None);
    [vm_compute; reflexivity|apply script_range].
Defined.

(** What the script shows of a cell: the threads in the order asked for, with the messages,
    authors and the two refused operations. *)
Example script_result :
  let '(d, results) := run_ops doc_step script doc0 in
  drop 7 results = [Err (ThreadNotFound "t9"); Err (AfterThreadNotFound "t1")] /\
  (fun t => (th_id t, th_actor t, th_resolved_by t, (fun m => (ms_id m, ms_body m, ms_actor m)) <$> th_messages t)) <$>
    project_threads None d =
  [("t3", Some "carol", None, [("m1", "first", Some "carol")]);
   ("t1", Some "alice", Some "bob", [("m1", "hello again", Some "alice"); ("m3", "between", Some "dan"); ("m2", "hi", Some "bob")]);
   ("t2", Some "bob", None, [("m1", "second", Some "bob")])].
Proof. vm_compute. split; reflexivity. Qed.

(** Two documents created for the same room that met, and one that was wiped. *)
Definition rival (m : gmap string node) (l : list node) : received_doc nat := mkReceived m l ∅ 7%nat ["zed"; "amy"; "zed"] None.
Definition met : received_doc nat := rival (root doc0) [str_node "comments:local-room:other"].

Lemma received_identity_kept_witness :
  match receive_sync_message_with_changes_repairing_identity 0%nat 1%nat met "comments:local-room:r1" nb doc0 with
  | (d', peer', Ok report) => peer' = 7%nat /\ identity_settled "comments:local-room:r1" nb (take_received met doc0) d' /\
      (repaired_identity report = false -> root d' = root doc0) /\
      (forall a, a ∈ incoming_actor_labels report <-> a ∈ rcv_actors met)
  | (d', peer', Err e) => d' = doc0 /\ peer' = 0%nat /\
      match unambiguous_raw_comments_doc_id (take_received met doc0) with
      | Ok (Some s) => validate_comments_doc_id s = Err e
      | Ok None => e = MissingCommentsDocId
      | Err _ => False
      end
  end.
Proof.
  apply (received_identity_kept 0%nat 1%nat met "comments:local-room:r1" nb doc0); vm_compute; reflexivity.
Defined.

Example received_repaired : exists d', receive_sync_message_with_changes_repairing_identity 0%nat 1%nat met "comments:local-room:r1" nb doc0 =
  (d', 7%nat, Ok (mkRepair true true ["amy"; "zed"])).
Proof. eexists. vm_compute. reflexivity. Qed.

(** [a], a character outside the basic plane, a newline and a letter of two bytes. *)
Definition sample : list Z := [97; 128512; 10; 233; 98].

Lemma source_point_exact_witness :
  source_byte_offset_from_utf16_point (utf8_string sample) 1 1 = Ok 8 <->
  exists before after, sample = before ++ after /\ point_after before = (1, 1) /\
    8 = Z.of_nat (String.length (utf8_string before)).
Proof. apply (source_point_exact sample 1 1 8); [repeat constructor|lia..]. Defined.

Example sample_points :
  source_byte_offset_from_utf16_point (utf8_string sample) 1 1 = Ok 8 /\
  source_byte_offset_from_utf16_point (utf8_string sample) 0 2 = Err ColumnInside /\
  source_byte_offset_from_utf16_point (utf8_string sample) 0 4 = Err ColumnOutside /\
  source_byte_offset_from_utf16_point (utf8_string sample) 2 0 = Err LineOutside.
Proof. vm_compute. split_and!; reflexivity. Qed.

(** Demoting threads to the notebook keeps the positions of their old scopes: two threads
    end at one position, and a thread created after the first of them comes after both. *)
Definition demoted : CommentsDoc :=
  let create tid a after d := (create_thread tid "m" a "" after "0" d).1 in
  let demote tid d := (demote_thread_anchor_to_notebook tid d).1 in
  create "t3" ANotebook (Some "t1") (demote "t2" (demote "t1" (create "t2" (ACell "b" None) None (create "t1" (ACell "a" None) None doc0)))).

Example demotion_breaks_order :
  th_id <$> project_threads None demoted = ["t1"; "t2"; "t3"] /\
  th_position <$> take 2 (project_threads None demoted) = [fi_to_string fi_default; fi_to_string fi_default].
Proof. vm_compute. split; reflexivity. Qed.
End CommentExamples.
