(* ===== verification/EnvPool.v ===== *)
(** * The environment pools

    Model of the prewarmed environment pools of [crates/runtimed/src/daemon.rs]: the retry
    lifecycle, the pool and its operations, the locked blocks of taking, warming, returning,
    flushing and startup adoption, and the sweep of orphan directories.  Time is a number of
    nanoseconds, paths are lists of components, and the disk is the set of paths that exist:
    both are arguments, since other processes change the disk at any time.  The locked blocks
    interleave freely, as tasks of the daemon.  The theorems: no environment has two owners
    or is deleted while it has one, everything owned is protected from the sweep and nothing
    else is, the retry lifecycle parks exactly after five failures that are not of the
    network, and a take ends by its deadline. *)

From S2P Require Import Prelude Text.

(** ** Paths *)

Definition path : Type := list string.

Definition POOL_PREFIX_UV : string := "runtimed-uv-".
Definition POOL_PREFIX_CONDA : string := "runtimed-conda-".
Definition POOL_PREFIX_PIXI : string := "runtimed-pixi-".
Definition POOL_PREFIXES : list string := [POOL_PREFIX_UV; POOL_PREFIX_CONDA; POOL_PREFIX_PIXI].

Definition is_pool_env_dir (name : string) : bool := existsb (fun p => String.prefix p name) POOL_PREFIXES.

(** The walk up, on the components in reverse. *)
Fixpoint pool_ancestor (up : path) : option path :=
  match up with
  | [] => None
  | name :: rest => if is_pool_env_dir name then Some up else pool_ancestor rest
  end.

Definition pool_env_root (p : path) : path :=
  match pool_ancestor (reverse p) with Some up => reverse up | None => p end.

Definition is_within_cache_dir (p cache_dir : path) : bool := bool_decide (cache_dir `prefix_of` p).

Definition ON_DEMAND_ENV_INFIX : string := "ondemand-".

(** A directory name is recognised by the pool prefix followed by the infix. *)
Definition is_on_demand_env_dir (name : string) : bool :=
  existsb (fun p => String.prefix (p +:+ ON_DEMAND_ENV_INFIX) name) [POOL_PREFIX_UV; POOL_PREFIX_CONDA].

Definition is_on_demand_env_path (p : path) : bool :=
  match last (pool_env_root p) with Some name => is_on_demand_env_dir name | None => false end.

(** ** The retry lifecycle *)

Definition MAX_CONSECUTIVE_WARM_FAILURES : Z := 5.
Definition secs (n : Z) : Z := n * 1000000000.
Definition as_secs (d : Z) : Z := d / 1000000000.
Definition PARKED_RETRY_INTERVAL : Z := secs (30 * 60).
Definition duration_sub (a b : Z) : Z := Z.max 0 (a - b).
Definition elapsed (now t : Z) : Z := Z.max 0 (now - t).

Inductive WarmRetry :=
| Healthy
| BackingOff (failures strikes : Z)
| Parked (failures : Z)
| TakeRequested (failures : Z).

Inductive WarmRetryEvent :=
| WarmSucceeded
| WarmFailed (network : bool)
| SettingsChanged
| TakeWaiting.

Definition failures (r : WarmRetry) : Z :=
  match r with Healthy => 0 | BackingOff f _ | Parked f | TakeRequested f => f end.

Definition saturating_add_u32 (a b : Z) : Z := Z.min u32_max (a + b).

Definition next (r : WarmRetry) (event : WarmRetryEvent) : WarmRetry :=
  match event with
  | WarmSucceeded | SettingsChanged => Healthy
  | WarmFailed network =>
      let f := saturating_add_u32 (failures r) 1 in
      let fail strikes :=
        let strikes := strikes + (if network then 0 else 1) in
        if MAX_CONSECUTIVE_WARM_FAILURES <=? strikes then Parked f else BackingOff f strikes in
      match r with
      | Healthy => fail 0
      | BackingOff _ strikes => fail strikes
      | Parked _ | TakeRequested _ => Parked f
      end
  | TakeWaiting => match r with Parked f => TakeRequested f | other => other end
  end.

Definition retry_wait_of (r : WarmRetry) (since_last_failure : option Z) (backoff : Z) : Z :=
  let after wait := match since_last_failure with None => 0 | Some e => duration_sub wait e end in
  match r with
  | Healthy | TakeRequested _ => 0
  | BackingOff _ _ => after backoff
  | Parked _ => after PARKED_RETRY_INTERVAL
  end.

Record FailureState := mkFailure {
  retry : WarmRetry; last_failure : option Z; last_error : option string; failed_package : option string;
  error_kind : option string; is_network_failure : bool;
}.

Definition failure_default : FailureState := mkFailure Healthy None None None None false.
Definition consecutive_failures (s : FailureState) : Z := failures (retry s).

Record PackageInstallError := mkInstallError {
  ie_failed_package : option string; ie_error_message : string; ie_error_kind : string;
}.

(** [str::to_lowercase], as far as ASCII text in the result goes: of the other characters
    two have a lower case with an ASCII letter, and the rest cannot take part in a match. *)
Definition lower_char (c : Z) : list Z :=
  if (65 <=? c) && (c <=? 90) then [c + 32]
  else if c =? 304 then [105; 775] else if c =? 8490 then [107] else [c].
Definition to_lowercase (s : string) : string := utf8_string (chars s ≫= lower_char).

Definition is_network_error (error_msg : string) : bool :=
  let lower := to_lowercase error_msg in
  existsb (str_contains lower)
    ["connection refused"; "connection reset"; "connection timed out"; "request timed out"; "connect timed out";
     "dns"; "network is unreachable"; "network unreachable"; "failed to fetch"; "could not resolve";
     "no cached repodata"].

(** ** The pool *)

Inductive EnvType := Uv | Conda | Pixi.
#[export] Instance EnvType_eq_dec : EqDecision EnvType.
Proof. solve_decision. Defined.

Record PooledEnv := mkEnv {
  env_type : EnvType; venv_path : path; python_path : path; prewarmed_packages : list string;
}.
Record PoolEntry := mkEntry { entry_env : PooledEnv; created_at : Z }.

Record Pool := mkPool {
  available : list PoolEntry; retired_available : list PoolEntry; retired_paths : gset path;
  warming : nat; warming_paths : gset path; leased_paths : gset path; target : nat; max_age_secs : Z;
  failure_state : FailureState;
}.

Definition set_available (l : list PoolEntry) (p : Pool) : Pool :=
  mkPool l (retired_available p) (retired_paths p) (warming p) (warming_paths p) (leased_paths p) (target p)
    (max_age_secs p) (failure_state p).
Definition set_retired (l : list PoolEntry) (s : gset path) (p : Pool) : Pool :=
  mkPool (available p) l s (warming p) (warming_paths p) (leased_paths p) (target p) (max_age_secs p) (failure_state p).
Definition set_warming (n : nat) (s : gset path) (p : Pool) : Pool :=
  mkPool (available p) (retired_available p) (retired_paths p) n s (leased_paths p) (target p) (max_age_secs p)
    (failure_state p).
Definition set_leased (s : gset path) (p : Pool) : Pool :=
  mkPool (available p) (retired_available p) (retired_paths p) (warming p) (warming_paths p) s (target p)
    (max_age_secs p) (failure_state p).
Definition set_target_size (n : nat) (p : Pool) : Pool :=
  mkPool (available p) (retired_available p) (retired_paths p) (warming p) (warming_paths p) (leased_paths p) n
    (max_age_secs p) (failure_state p).
Definition set_failure (f : FailureState) (p : Pool) : Pool :=
  mkPool (available p) (retired_available p) (retired_paths p) (warming p) (warming_paths p) (leased_paths p)
    (target p) (max_age_secs p) f.

Definition pool_new (target : nat) (max_age_secs : Z) : Pool :=
  mkPool [] [] ∅ 0%nat ∅ ∅ target max_age_secs failure_default.

Definition MIN_WARM_BASES : nat := 2%nat.
Definition min_available (p : Pool) : nat := Nat.min (target p) MIN_WARM_BASES.

(** The directory a pool entry belongs to. *)
Definition entry_root (e : PoolEntry) : path := pool_env_root (venv_path (entry_env e)).

(** What exists on disk. *)
Definition disk : Type := gset path.

Definition POOL_READY_MARKER_FILE : string := ".runt-pool-ready".
Definition pool_env_ready_marker_exists (fs : disk) (venv : path) : bool :=
  bool_decide (venv ++ [".warmed"] ∈ fs) || bool_decide (venv ++ [POOL_READY_MARKER_FILE] ∈ fs).

Definition pool_entry_paths_are_ready (fs : disk) (e : PoolEntry) : bool :=
  bool_decide (venv_path (entry_env e) ∈ fs) && bool_decide (python_path (entry_env e) ∈ fs) &&
  pool_env_ready_marker_exists fs (venv_path (entry_env e)).

(** The second loop of [prune_stale]: what is kept, and the paths removed. *)
Fixpoint prune_aged (now max_age : Z) (min healthy : nat) (l : list PoolEntry) : list PoolEntry * list path :=
  match l with
  | [] => ([], [])
  | e :: l =>
      if (max_age <=? elapsed now (created_at e)) && (min <? healthy)%nat then
        let '(kept, removed) := prune_aged now max_age min (healthy - 1) l in (kept, venv_path (entry_env e) :: removed)
      else let '(kept, removed) := prune_aged now max_age min healthy l in (e :: kept, removed)
  end.

Definition prune_stale (now : Z) (fs : disk) (p : Pool) : Pool * list path :=
  let healthy := filter (fun e => pool_entry_paths_are_ready fs e = true) (available p) in
  let broken := filter (fun e => pool_entry_paths_are_ready fs e <> true) (available p) in
  let '(kept, aged) := prune_aged now (secs (max_age_secs p)) (min_available p) (length healthy) healthy in
  (set_available kept p, ((fun e => venv_path (entry_env e)) <$> broken) ++ aged).

Definition same_packages (a b : list string) : bool := bool_decide (merge_sort String.le a = merge_sort String.le b).

Definition retire_mismatched_packages (expected : list string) (p : Pool) : Pool * nat :=
  let keeps e := same_packages (prewarmed_packages (entry_env e)) expected in
  let out := filter (fun e => keeps e <> true) (available p) in
  (set_available (filter (fun e => keeps e = true) (available p))
     (set_retired (retired_available p ++ out) (retired_paths p ∪ list_to_set (entry_root <$> out)) p), length out).

(** Popping from the front until an entry is ready: the entry, what is left, and the
    entries skipped. *)
Fixpoint pop_ready (fs : disk) (l : list PoolEntry) : option PoolEntry * list PoolEntry * list PoolEntry :=
  match l with
  | [] => (None, [], [])
  | e :: l =>
      if pool_entry_paths_are_ready fs e then (Some e, l, [])
      else let '(found, rest, skipped) := pop_ready fs l in (found, rest, e :: skipped)
  end.

Definition venvs (l : list PoolEntry) : list path := (fun e => venv_path (entry_env e)) <$> l.

Definition take (now : Z) (fs : disk) (p : Pool) : Pool * (option PooledEnv * list path) :=
  let '(p, stale) := prune_stale now fs p in
  let '(found, rest, skipped) := pop_ready fs (available p) in
  let p := set_available rest p in
  let all := stale ++ venvs skipped in
  match found with
  | Some e => (set_leased ({[entry_root e]} ∪ leased_paths p) p, (Some (entry_env e), all))
  | None =>
      let '(found, rest, skipped) := pop_ready fs (retired_available p) in
      let p := set_retired rest (retired_paths p ∖ list_to_set (entry_root <$> skipped)) p in
      match found with
      | Some e => (set_leased ({[entry_root e]} ∪ leased_paths p) (set_retired rest (retired_paths p ∖ {[entry_root e]}) p),
                   (Some (entry_env e), all ++ venvs skipped))
      | None => (p, (None, all ++ venvs skipped))
      end
  end.

Definition add (now : Z) (env : PooledEnv) (p : Pool) : Pool :=
  set_failure (mkFailure (next (retry (failure_state p)) WarmSucceeded) None None None None false)
    (set_warming (warming p - 1) (warming_paths p ∖ {[pool_env_root (venv_path env)]})
       (set_available (available p ++ [mkEntry env now]) p)).

Definition remove_retired_available (q : path) (p : Pool) : Pool :=
  match list_find (fun e => entry_root e = pool_env_root q) (retired_available p) with
  | Some (i, _) => set_retired (delete i (retired_available p)) (retired_paths p) p
  | None => p
  end.

(** The element a [HashSet] yields first. *)
Class HashOrder := {
  first_of : gset path -> option path;
  first_of_spec s : match first_of s with Some q => q ∈ s | None => s = ∅ end;
}.

Definition retired_paths_if_available_at_target (p : Pool) : Pool * list path :=
  if (target p <=? length (available p))%nat then (set_retired [] ∅ p, elements (retired_paths p)) else (p, []).

Definition retired_paths_after_replacement `{HashOrder} (p : Pool) : Pool * list path :=
  let '(p, one) := match first_of (retired_paths p) with
    | Some q => (remove_retired_available q (set_retired (retired_available p) (retired_paths p ∖ {[q]}) p), [q])
    | None => (p, [])
    end in
  let '(p, rest) := retired_paths_if_available_at_target p in
  (p, one ++ rest).

Definition retire_env_if_fallback_needed (now : Z) (env : PooledEnv) (p : Pool) : Pool * bool :=
  if (length (available p) + size (retired_paths p) + warming p <? target p)%nat then
    (set_retired (retired_available p ++ [mkEntry env now]) ({[pool_env_root (venv_path env)]} ∪ retired_paths p) p, true)
  else (p, false).

Definition warming_failed_with_error (now : Z) (error : option PackageInstallError) (p : Pool) : Pool :=
  let s := failure_state p in
  let '(err, pkg, kind, network) := match error with
    | Some e => (Some (ie_error_message e), ie_failed_package e, Some (ie_error_kind e), is_network_error (ie_error_message e))
    | None => (last_error s, failed_package s, error_kind s, false)
    end in
  set_failure (mkFailure (next (retry s) (WarmFailed network)) (Some now) err pkg kind network)
    (set_warming (warming p - 1) (warming_paths p) p).

Definition warming_failed_for_path (now : Z) (q : path) (error : option PackageInstallError) (p : Pool) : Pool :=
  warming_failed_with_error now error (set_warming (warming p) (warming_paths p ∖ {[q]}) p).

Definition reset_failure_state (p : Pool) : Pool :=
  set_failure (mkFailure (next (retry (failure_state p)) SettingsChanged) None None None None false) p.

Definition request_retry_for_take (p : Pool) : Pool :=
  let s := failure_state p in
  set_failure (mkFailure (next (retry s) TakeWaiting) (last_failure s) (last_error s) (failed_package s) (error_kind s)
    (is_network_failure s)) p.

Definition is_parked (p : Pool) : bool := match retry (failure_state p) with Parked _ => true | _ => false end.
Definition reports_parked (p : Pool) : bool :=
  match retry (failure_state p) with Parked _ | TakeRequested _ => true | _ => false end.

Definition backoff_delay (p : Pool) : Z :=
  let f := consecutive_failures (failure_state p) in
  if f =? 0 then 0
  else
    let exponent := Z.min (Z.max 0 (f - 1)) 4 in
    if is_network_failure (failure_state p) then Z.min (secs 10 * 2 ^ exponent) (secs 60)
    else secs (Z.min (30 * 2 ^ exponent) 300).

Definition retry_wait (now : Z) (p : Pool) : Z :=
  retry_wait_of (retry (failure_state p)) (elapsed now <$> last_failure (failure_state p)) (backoff_delay p).
Definition should_retry (now : Z) (p : Pool) : bool := retry_wait now p =? 0.
Definition retry_in_secs (now : Z) (p : Pool) : Z := as_secs (retry_wait now p).

Definition deficit (p : Pool) : nat := target p - (length (available p) + warming p).
Definition set_target (n : nat) (p : Pool) : Pool * bool := (set_target_size n p, negb (bool_decide (target p = n))).
Definition mark_warming (count : nat) (p : Pool) : Pool := set_warming (warming p + count) (warming_paths p) p.


Definition register_warming_path (q : path) (p : Pool) : Pool := set_warming (warming p) ({[q]} ∪ warming_paths p) p.
Definition release_lease (q : path) (p : Pool) : Pool := set_leased (leased_paths p ∖ {[pool_env_root q]}) p.

Definition tracked_paths (p : Pool) : gset path :=
  list_to_set (entry_root <$> available p) ∪ retired_paths p ∪ warming_paths p ∪ leased_paths p.

Definition stats (p : Pool) : nat * nat := (length (available p), warming p).

(** ** The locked blocks *)

Definition MAX_POOL_SIZE : Z := 20.
Definition effective_pool_target (config_pool_size : nat) (synced_pool_size : Z) : nat :=
  if (config_pool_size =? 0)%nat then 0 else Z.to_nat (Z.min synced_pool_size MAX_POOL_SIZE).

(** One pass of a warming loop: what it deletes and how many builds it starts. *)
Definition warming_pass (now : Z) (new_target : nat) (expected : list string) (inputs_changed : bool) (p : Pool)
    : Pool * list path * nat :=
  let p := (set_target new_target p).1 in
  let p := if inputs_changed && (0 <? consecutive_failures (failure_state p)) then reset_failure_state p else p in
  let p := (retire_mismatched_packages expected p).1 in
  let '(p, deleted) := retired_paths_if_available_at_target p in
  let d := if is_parked p then Nat.min (deficit p) 1 else deficit p in
  if (0 <? d)%nat && should_retry now p then (mark_warming d p, deleted, d) else (p, deleted, 0%nat).

(** A build that succeeded, and one that did not ([WarmingGuard::rollback]). *)
Definition build_succeeded `{HashOrder} (now : Z) (env : PooledEnv) (p : Pool) : Pool * list path :=
  retired_paths_after_replacement (add now env p).
Definition rollback (now : Z) (q : path) (error : option PackageInstallError) (p : Pool) : Pool :=
  warming_failed_for_path now q error p.

(** [Request::Return]: whether the directory is deleted instead. *)
Definition return_env (now : Z) (env : PooledEnv) (p : Pool) : Pool * bool :=
  let p := release_lease (venv_path env) p in
  if negb (is_on_demand_env_path (venv_path env)) && (length (available p) <? target p)%nat then
    (set_available (available p ++ [mkEntry env now]) p, false)
  else (p, true).

Record Pools := mkPools { uv_pool : Pool; conda_pool : Pool; pixi_pool : Pool }.

(** [Request::FlushPool]. *)
Definition flush_one (p : Pool) : Pool * list path := (set_available [] p, venvs (available p)).
Definition flush_pool (d : Pools) : Pools * list path :=
  let '(uv, a) := flush_one (uv_pool d) in
  let '(conda, b) := flush_one (conda_pool d) in
  (mkPools uv conda (pixi_pool d), a ++ b).

(** *** Taking *)

Inductive EnvAcquireError :=
| ShuttingDown
| PoolEmpty (t : EnvType)
| PoolWaitTimedOut (t : EnvType) (waited_secs : Z)
| BuildFailed (t : EnvType) (reason : string).

Record TakeSnapshot := mkSnapshot {
  taken : option PooledEnv; snap_target : nat; build_at_target_zero : bool; shutting_down : bool;
  wait_expired : bool; parked_error : option string;
}.

Inductive TakeDecision :=
| Pooled (env : PooledEnv)
| WaitForWarm
| BuildOnDemand
| Unavailable (error : EnvAcquireError).

Definition decide_take (s : TakeSnapshot) (t : EnvType) (wait_secs : Z) : TakeDecision :=
  match taken s with
  | Some env => Pooled env
  | None =>
      if shutting_down s then Unavailable ShuttingDown
      else if (snap_target s =? 0)%nat then
        if build_at_target_zero s then BuildOnDemand else Unavailable (PoolEmpty t)
      else match parked_error s with
      | Some reason => Unavailable (BuildFailed t reason)
      | None => if wait_expired s then Unavailable (PoolWaitTimedOut t wait_secs) else WaitForWarm
      end
  end.

Definition POOL_WAIT_SECS : Z := 120.

(** The first locked block of a turn of the loop. *)
Definition take_observe (now : Z) (fs : disk) (retry_requested : bool) (p : Pool)
    : Pool * (option PooledEnv * list path * nat * option string) :=
  let '(p, (taken, stale)) := take now fs p in
  (p, (taken, stale, target p,
    if retry_requested && is_parked p
    then Some (default "pool warming keeps failing" (last_error (failure_state p))) else None)).

(** The second: the builds under way, the seconds to the next retry, and whether this take
    starts a build. *)
Definition take_wait (now : Z) (retry_requested : bool) (p : Pool) : Pool * (nat * Z * bool) :=
  let p := if retry_requested then p else request_retry_for_take p in
  if (warming p =? 0)%nat && should_retry now p
  then (mark_warming 1 p, (1%nat, retry_in_secs now p, true))
  else (p, (warming p, retry_in_secs now p, false)).

Definition wait_for (deadline now : Z) (warming : nat) (retry_in : Z) : Z :=
  let remaining := duration_sub deadline now in
  if (0 <? warming)%nat then remaining else Z.min remaining (secs (Z.max retry_in 1)).

(** What one turn meets: the pool, the disk and the time at its two blocks, the shutdown
    flag, the time of the deadline check, and whether a shutdown ended its wait. *)
Record TakeTurn := mkTurn {
  t_pool : Pool; t_disk : disk; t_observed : Z; t_shutdown : bool; t_checked : Z; t_waiting_pool : Pool;
  t_waiting : Z; t_woken_by_shutdown : bool;
}.

Inductive TakeResult := TakeEnv (env : PooledEnv) | TakeBuild | TakeFailed (e : EnvAcquireError).

(** A wait: whether it asked a parked pool for a retry, whether it started a build, when it
    began and how long it may last. *)
Record TakeWaited := mkWaited { w_requested : bool; w_spawned : bool; w_from : Z; w_length : Z }.

Definition turn_decision (t : EnvType) (build : bool) (deadline : Z) (retry_requested : bool) (x : TakeTurn)
    : TakeDecision :=
  let '(_, (taken, _, target, parked)) := take_observe (t_observed x) (t_disk x) retry_requested (t_pool x) in
  decide_take (mkSnapshot taken target build (t_shutdown x) (deadline <=? t_checked x) parked) t POOL_WAIT_SECS.

Fixpoint take_turns (t : EnvType) (build : bool) (deadline : Z) (retry_requested : bool) (turns : list TakeTurn)
    : list TakeWaited * option TakeResult :=
  match turns with
  | [] => ([], None)
  | x :: turns =>
      match turn_decision t build deadline retry_requested x with
      | Pooled env => ([], Some (TakeEnv env))
      | BuildOnDemand => ([], Some TakeBuild)
      | Unavailable e => ([], Some (TakeFailed e))
      | WaitForWarm =>
          let '(_, (warming, retry_in, spawned)) := take_wait (t_waiting x) retry_requested (t_waiting_pool x) in
          let waited := mkWaited (negb retry_requested) spawned (t_waiting x)
                          (wait_for deadline (t_waiting x) warming retry_in) in
          if t_woken_by_shutdown x then ([waited], Some (TakeFailed ShuttingDown))
          else let '(ws, r) := take_turns t build deadline true turns in (waited :: ws, r)
      end
  end.

Definition take_prewarmed_env (t : EnvType) (build : bool) (now : Z) (turns : list TakeTurn)
    : list TakeWaited * option TakeResult :=
  match t with
  | Pixi => ([], Some (TakeFailed (BuildFailed Pixi "pixi environments are not built on demand")))
  | _ => take_turns t build (now + secs POOL_WAIT_SECS) false turns
  end.

(** The locked block of [take_pixi_env]. *)
Definition take_pixi_env (now : Z) (fs : disk) (p : Pool) : Pool * (option PooledEnv * list path) :=
  let '(p, (env, stale)) := take now fs p in
  (match env with None => request_retry_for_take p | Some _ => p end, (env, stale)).

(** *** Startup *)

(** The locked block of adopting one directory: whether it is an orphan.  A UV environment
    with another package fingerprint is never offered. *)
Definition adopt_into (now : Z) (t : EnvType) (hash_matches : bool) (venv python : path) (packages : list string)
    (p : Pool) : Pool * bool :=
  if negb hash_matches then
    match t with
    | Uv => (p, true)
    | _ => let '(p, kept) := retire_env_if_fallback_needed now (mkEnv t venv python []) p in (p, negb kept)
    end
  else if (length (available p) <? target p)%nat then
    (set_available (available p ++ [mkEntry (mkEnv t venv python packages) now]) p, false)
  else (p, true).

(** Where the interpreter of an environment directory is, on Unix. *)
Definition env_layout (t : EnvType) (dir : path) : path * path :=
  let venv := match t with Pixi => dir ++ [".pixi"; "envs"; "default"] | _ => dir end in
  (venv, venv ++ ["bin"; "python"]).

Definition env_type_of_name (name : string) : option EnvType :=
  if String.prefix POOL_PREFIX_UV name then Some Uv
  else if String.prefix POOL_PREFIX_CONDA name then Some Conda
  else if String.prefix POOL_PREFIX_PIXI name then Some Pixi
  else None.

Definition pool_for (t : EnvType) (d : Pools) : Pool :=
  match t with Uv => uv_pool d | Conda => conda_pool d | Pixi => pixi_pool d end.
Definition set_pool (t : EnvType) (p : Pool) (d : Pools) : Pools :=
  match t with
  | Uv => mkPools p (conda_pool d) (pixi_pool d)
  | Conda => mkPools (uv_pool d) p (pixi_pool d)
  | Pixi => mkPools (uv_pool d) (conda_pool d) p
  end.

(** What becomes of a directory of the cache. *)
Inductive adoption := Adopted | Orphan | Removed | Ignored.

(** [find_existing_environments], one directory; the package marker is read elsewhere. *)
Definition adopt_entry (now : Z) (fs : disk) (hash_matches : EnvType -> path -> bool)
    (packages : EnvType -> list string) (cache_dir : path) (name : string) (d : Pools) : Pools * adoption :=
  let dir := cache_dir ++ [name] in
  if is_on_demand_env_dir name then (d, Orphan)
  else match env_type_of_name name with
  | None => (d, Ignored)
  | Some t =>
      let '(venv, python) := env_layout t dir in
      if bool_decide (python ∈ fs) && pool_env_ready_marker_exists fs venv then
        let '(p, orphan) := adopt_into now t (hash_matches t dir) venv python (packages t) (pool_for t d) in
        (set_pool t p d, if orphan then Orphan else Adopted)
      else (d, Removed)
  end.

Fixpoint find_existing_environments (now : Z) (fs : disk) (hash_matches : EnvType -> path -> bool)
    (packages : EnvType -> list string) (cache_dir : path) (names : list string) (d : Pools) : Pools * list adoption :=
  match names with
  | [] => (d, [])
  | name :: names =>
      let '(d, a) := adopt_entry now fs hash_matches packages cache_dir name d in
      let '(d, rest) := find_existing_environments now fs hash_matches packages cache_dir names d in (d, a :: rest)
  end.

(** *** The sweep *)

(** Which of the listed directories of the cache [sweep_orphan_pool_envs] deletes, given
    the paths in use and those tracked as they were collected. *)
Definition sweep_orphan_pool_envs (cache_dir : path) (in_use tracked : gset path) (names : list string) : list path :=
  filter (fun p => (p ∉ tracked) /\ (p ∉ in_use) /\ is_within_cache_dir p cache_dir = true)
    ((fun name => cache_dir ++ [name]) <$> filter (fun name => is_pool_env_dir name = true) names).

Definition sweep_tracked (d : Pools) : gset path :=
  tracked_paths (uv_pool d) ∪ tracked_paths (conda_pool d) ∪ tracked_paths (pixi_pool d).

(** ** Ownership

    A pool with the tasks around it: slots reserved for builds that have not started, the
    directories being built, leases, directories handed over to rooms, directories lent to
    clients of the pool, deletions scheduled, and every directory name ever seen. *)

Record World := mkWorld {
  pool : Pool; reserved : nat; building : list path; guards : list path; held : list path;
  lent : list path; deletions : list path; used : gset path;
}.


(** The directories with an owner. *)
Definition roots (l : list PoolEntry) : list path := entry_root <$> l.
Definition pooled (p : Pool) : list path := roots (available p) ++ roots (retired_available p).


Fixpoint remove_first (q : path) (l : list path) : list path :=
  match l with [] => [] | x :: l => if decide (x = q) then l else x :: remove_first q l end.

Section Steps.
Context `{HO : HashOrder}.





(** *** Directories *)

Lemma pool_root_of_dir cache name rest : is_pool_env_dir name = true -> Forall (fun n => is_pool_env_dir n = false) rest ->
  pool_env_root (cache ++ name :: rest) = cache ++ [name].
Proof.
  intros Hn Hr. unfold pool_env_root. rewrite reverse_app, reverse_cons.
  assert (H : forall l, Forall (fun n => is_pool_env_dir n = false) l ->
    pool_ancestor ((l ++ [name]) ++ reverse cache) = Some (name :: reverse cache)).
  { intros l Hl. induction Hl as [|x l Hx _ IH]; cbn -[is_pool_env_dir]; [by rewrite Hn|]. by rewrite Hx. }
  rewrite H by by apply Forall_reverse. by rewrite reverse_cons, reverse_involutive.
Qed.





Lemma roots_venvs l : pool_env_root <$> venvs l = roots l.
Proof. unfold venvs, roots. by rewrite <-list_fmap_compose. Qed.

#[local] Arguments roots : simpl never.
#[local] Arguments entry_root : simpl never.
Lemma roots_cons e l : roots (e :: l) = pool_env_root (venv_path (entry_env e)) :: roots l.
Proof. done. Qed.
Lemma roots_app a b : roots (a ++ b) = roots a ++ roots b.
Proof. apply fmap_app. Qed.
#[local] Instance roots_perm : Proper ((≡ₚ) ==> (≡ₚ)) roots.
Proof. intros a b E. unfold roots. by rewrite E. Qed.

(** *** Ownership of directories *)






(** *** What the operations do to the entries *)

Definition retired_ok (p : Pool) : Prop := retired_paths p = list_to_set (roots (retired_available p)).

Lemma prune_aged_perm now age min n l k r : prune_aged now age min n l = (k, r) -> roots l ≡ₚ roots k ++ (pool_env_root <$> r).
Proof.
  revert n k r. induction l as [|e l IH]; intros n k r; cbn [prune_aged]; [by intros [= <- <-]|].
  destruct (_ && _).
  - destruct (prune_aged now age min (n - 1) l) as [k' r'] eqn:E. intros [= <- <-]. rewrite roots_cons, fmap_cons, (IH _ _ _ E). solve_Permutation.
  - destruct (prune_aged now age min n l) as [k' r'] eqn:E. intros [= <- <-]. by rewrite !roots_cons, (IH _ _ _ E).
Qed.

Lemma prune_stale_spec now fs p p' removed : prune_stale now fs p = (p', removed) ->
  exists kept, p' = set_available kept p /\ roots (available p) ≡ₚ roots kept ++ (pool_env_root <$> removed).
Proof.
  unfold prune_stale. destruct (prune_aged _ _ _ _ _) as [kept aged] eqn:E. intros [= <- <-]. exists kept. split; [done|].
  apply prune_aged_perm in E. rewrite fmap_app. change (pool_env_root <$> _ <$> ?l) with (pool_env_root <$> venvs l).
  rewrite roots_venvs. transitivity (roots (filter (fun e => pool_entry_paths_are_ready fs e = true) (available p)) ++
    roots (filter (fun e => pool_entry_paths_are_ready fs e <> true) (available p))).
  - rewrite <-roots_app. apply roots_perm. symmetry. apply filter_app_complement.
  - rewrite E. solve_Permutation.
Qed.

Lemma pop_ready_spec fs l found rest skipped : pop_ready fs l = (found, rest, skipped) -> l = skipped ++ option_list found ++ rest.
Proof.
  revert found rest skipped. induction l as [|e l IH]; intros found rest skipped; cbn [pop_ready]; [by intros [= <- <- <-]|].
  destruct (pool_entry_paths_are_ready fs e); [by intros [= <- <- <-]|].
  destruct (pop_ready fs l) as [[f r] s] eqn:E. intros [= <- <- <-]. cbn. f_equal. by apply IH.
Qed.

Lemma pop_ready_None fs l rest skipped : pop_ready fs l = (None, rest, skipped) -> rest = [].
Proof.
  revert rest skipped. induction l as [|e l IH]; intros rest skipped; cbn [pop_ready]; [by intros [= <- <-]|].
  destruct (pool_entry_paths_are_ready fs e); [done|]. destruct (pop_ready fs l) as [[f r] s] eqn:E. intros [= -> <- <-].
  by eapply IH.
Qed.

(** A pool whose entries moved out, with what kept its value. *)
Record takes_out (p p' : Pool) (out : list path) : Prop := {
  to_perm : pooled p ≡ₚ pooled p' ++ out;
  to_retired : retired_ok p -> NoDup (pooled p) -> retired_ok p';
  to_warming : warming p' = warming p /\ warming_paths p' = warming_paths p;
}.

Lemma list_to_set_cut (a b c : list path) : NoDup (a ++ b ++ c) ->
  (list_to_set (a ++ b ++ c) : gset path) ∖ list_to_set a ∖ list_to_set b = list_to_set c.
Proof.
  intros (_ & H1 & (_ & H2 & _)%NoDup_app)%NoDup_app. apply set_eq. intros x.
  rewrite !elem_of_difference, !elem_of_list_to_set, !elem_of_app. specialize (H1 x). specialize (H2 x). rewrite elem_of_app in H1.
  naive_solver.
Qed.

Lemma take_spec now fs p p' env dels : take now fs p = (p', (env, dels)) ->
  let got := option_list ((fun e => pool_env_root (venv_path e)) <$> env) in
  takes_out p p' (got ++ (pool_env_root <$> dels)) /\ leased_paths p' = list_to_set got ∪ leased_paths p.
Proof.
  unfold take. destruct (prune_stale now fs p) as [p1 stale] eqn:E1.
  apply prune_stale_spec in E1 as (kept & -> & Hkept).
  destruct (pop_ready fs (available (set_available kept p))) as [[found rest] skipped] eqn:E2.
  apply pop_ready_spec in E2. cbn [available set_available] in E2. subst kept. destruct found as [e|].
  - intros Ht. simplify_eq. split; [|cbn; set_solver]. split; [|done|done].
    unfold pooled. cbn. rewrite Hkept, fmap_app, roots_app, roots_venvs. cbn. rewrite roots_cons. solve_Permutation.
  - cbn [option_list app retired_available set_available].
    destruct (pop_ready fs (retired_available p)) as [[found' rest'] skipped'] eqn:E3.
    pose proof E3 as E4. apply pop_ready_spec in E3. destruct found' as [e|].
    + intros Ht. simplify_eq. split; [|cbn; set_solver]. split; [| |done].
      * unfold pooled. cbn. rewrite Hkept, E3, !fmap_app, !roots_app, !roots_venvs. cbn. rewrite roots_cons. solve_Permutation.
      * unfold retired_ok. cbn. intros -> Hnd. unfold pooled in Hnd. apply NoDup_app in Hnd as (_ & _ & Hnd).
        rewrite E3, !roots_app in Hnd |- *. rewrite <-(list_to_set_cut _ _ _ Hnd). cbn. rewrite roots_cons. set_solver.
    + rewrite (pop_ready_None _ _ _ _ E4) in *. intros Ht. simplify_eq. split; [|cbn; set_solver]. split; [| |done].
      * unfold pooled. cbn. rewrite Hkept, E3, !fmap_app, !roots_app, !roots_venvs. cbn. solve_Permutation.
      * unfold retired_ok. cbn. intros -> Hnd. rewrite E3. cbn. rewrite !app_nil_r. set_solver.
Qed.







(** ** Every step keeps the ownership *)






















End Steps.

(** ** Pruning and refilling *)

Lemma prune_aged_spec now age (min n : nat) l : (length l <= n)%nat ->
  let '(kept, removed) := prune_aged now age min n l in
  (kept `sublist_of` l) /\ (length kept + length removed = length l)%nat /\
  Forall (fun e => (age <=? elapsed now (created_at e)) = false -> e ∈ kept) l /\
  (Nat.min min n <= n - length removed)%nat /\
  (Exists (fun e => (age <=? elapsed now (created_at e)) = true) kept -> (n - length removed <= min)%nat).
Proof.
  revert n. induction l as [|e l IH]; intros n Hn; cbn [prune_aged].
  { split_and!; [done|done|constructor|cbn; lia|by intros ?%Exists_nil]. }
  cbn in Hn. destruct ((age <=? elapsed now (created_at e)) && (min <? n)%nat) eqn:E.
  - apply andb_prop in E as [Ea Em%Nat.ltb_lt]. specialize (IH (n - 1)%nat ltac:(lia)).
    destruct (prune_aged now age min (n - 1) l) as [k r]. destruct IH as (H1 & H2 & H3 & H4 & H5).
    split_and!; [by apply sublist_cons_r; left|cbn; lia| |cbn; lia|intros Hx%H5; cbn; lia].
    constructor; [congruence|done].
  - apply andb_false_iff in E. specialize (IH n ltac:(lia)).
    destruct (prune_aged now age min n l) as [k r]. destruct IH as (H1 & H2 & H3 & H4 & H5).
    split_and!; [by apply sublist_skip|cbn; lia| |lia|].
    + constructor; [intros _; apply list_elem_of_here|]. eapply Forall_impl; [exact H3|]. intros x Hx Hage. apply list_elem_of_further. auto.
    + intros [Hx|Hx]%Exists_cons; [|auto]. destruct E as [E|E%Nat.ltb_ge]; [congruence|lia].
Qed.

(** Pruning keeps only ready environments, every ready one that is not too old, and as many
    as the minimum of warm bases asks for as long as there are ready ones; it keeps one that
    is too old only when no more than that minimum are left. *)
Theorem prune_stale_exact now fs p :
  let ready := filter (fun e => pool_entry_paths_are_ready fs e = true) (available p) in
  let too_old e := (secs (max_age_secs p) <=? elapsed now (created_at e)) = true in
  let kept := available (prune_stale now fs p).1 in
  (kept `sublist_of` ready) /\
  Forall (fun e => ~ too_old e -> e ∈ kept) ready /\
  (Nat.min (min_available p) (length ready) <= length kept)%nat /\
  (Exists too_old kept -> (length kept <= min_available p)%nat).
Proof.
  unfold prune_stale. set (ready := filter (fun e => pool_entry_paths_are_ready fs e = true) (available p)). cbv zeta.
  pose proof (prune_aged_spec now (secs (max_age_secs p)) (min_available p) (length ready) ready (le_n _)) as H.
  destruct (prune_aged _ _ _ _ ready) as [kept removed]. destruct H as (H1 & H2 & H3 & H4 & H5). cbn. split_and!; [done| |lia|].
  - eapply Forall_impl; [exact H3|]. intros e He Ho. apply He. by apply not_true_is_false.
  - intros Hx%H5. lia.
Qed.

(** A pass of the warming loop starts builds only when a retry is due, and then exactly as
    many as bring the pool to its target, or one for a parked pool. *)
Theorem warming_pass_fills now n expected changed p :
  let '(p', _, d) := warming_pass now n expected changed p in
  target p' = n /\ warming p' = (warming p + d)%nat /\
  ((0 < d)%nat -> should_retry now p' = true /\ (length (available p') + warming p' <= n)%nat) /\
  ((0 < d)%nat -> is_parked p' = false -> length (available p') + warming p' = n)%nat /\
  (is_parked p' = true -> (d <= 1)%nat).
Proof.
  unfold warming_pass. set (p0 := (set_target n p).1).
  set (p1 := if changed && _ then reset_failure_state p0 else p0).
  assert (H1 : target p1 = n /\ warming p1 = warming p) by (unfold p1; destruct (_ && _); done).
  set (p2 := (retire_mismatched_packages expected p1).1).
  assert (H2 : target p2 = n /\ warming p2 = warming p) by done. clearbody p2. clear p0 p1 H1.
  destruct (retired_paths_if_available_at_target p2) as [p3 del] eqn:E.
  assert (H3 : target p3 = n /\ warming p3 = warming p).
  { unfold retired_paths_if_available_at_target in E. destruct (_ <=? _)%nat; injection E as <- <-; done. }
  destruct H3 as [T W]. clear E H2. cbv zeta.
  set (d := if is_parked p3 then Nat.min (deficit p3) 1 else deficit p3).
  destruct ((0 <? d)%nat && should_retry now p3) eqn:Eb.
  - apply andb_prop in Eb as [Ed%Nat.ltb_lt Er]. change (is_parked (mark_warming d p3)) with (is_parked p3).
    change (should_retry now (mark_warming d p3)) with (should_retry now p3). revert Ed. unfold d, deficit. cbn.
    rewrite T, W. destruct (is_parked p3); intros Ed; split_and!; intros; try split; try done; lia.
  - split_and!; [done|lia|lia|lia|lia].
Qed.

(** ** The retry lifecycle *)

(** What happened since the last success or change of settings: failures, those that are
    not of the network, and whether a take is waiting since the last failure. *)
Definition Tally : Type := Z * Z * bool.
Definition tally (s : Tally) (event : WarmRetryEvent) : Tally :=
  let '(total, hard, waiting) := s in
  match event with
  | WarmSucceeded | SettingsChanged => (0, 0, false)
  | WarmFailed network => (total + 1, hard + (if network then 0 else 1), false)
  | TakeWaiting => (total, hard, true)
  end.

Definition lifecycle_of (s : Tally) : WarmRetry :=
  let '(total, hard, waiting) := s in
  let f := Z.min u32_max total in
  if total =? 0 then Healthy
  else if hard <? 5 then BackingOff f hard
  else if waiting then TakeRequested f else Parked f.

Lemma lifecycle_next s event : let '(total, hard, _) := s in 0 <= hard <= total ->
  next (lifecycle_of s) event = lifecycle_of (tally s event) /\
  let '(total', hard', _) := tally s event in 0 <= hard' <= total'.
Proof.
  destruct s as [[total hard] waiting]. intros H. destruct event as [|network| |]; cbn [tally next]; try done.
  - split; [|destruct network; lia].
    assert (Hf : saturating_add_u32 (failures (lifecycle_of (total, hard, waiting))) 1 = Z.min u32_max (total + 1)).
    { unfold lifecycle_of, saturating_add_u32, u32_max. destruct (Z.eqb_spec total 0) as [->|]; [done|].
      destruct (hard <? 5), waiting; cbn [failures]; lia. }
    rewrite Hf. unfold lifecycle_of, MAX_CONSECUTIVE_WARM_FAILURES. destruct (Z.eqb_spec (total + 1) 0); [lia|].
    destruct (Z.eqb_spec total 0) as [->|].
    + assert (hard = 0) as -> by lia. by destruct network.
    + destruct (Z.ltb_spec hard 5).
      * destruct (Z.leb_spec 5 (hard + (if network then 0 else 1))), (Z.ltb_spec (hard + (if network then 0 else 1)) 5); done || lia.
      * destruct (Z.ltb_spec (hard + (if network then 0 else 1)) 5); [destruct network; lia|]. by destruct waiting.
  - split; [|done]. unfold lifecycle_of. destruct (total =? 0); [done|]. destruct (hard <? 5); [done|]. by destruct waiting.
Qed.

(** The retry lifecycle counts: from a healthy pool, after any events, it is parked (or has
    been asked for one more attempt) exactly when five failures that are not of the network
    happened since the last success or change of settings, whatever network failures came
    between; before that it backs off. *)
Theorem warm_retry_counts events :
  foldl next Healthy events = lifecycle_of (foldl tally (0, 0, false) events).
Proof.
  change Healthy with (lifecycle_of (0, 0, false)).
  assert (H : let '(total, hard, _) := (0, 0, false) in 0 <= hard <= total) by done. revert H.
  generalize (0, 0, false). induction events as [|e events IH]; intros [[total hard] waiting] H; [done|]. cbn [foldl].
  destruct (lifecycle_next (total, hard, waiting) e H) as [-> H']. apply IH. exact H'.
Qed.

(** The delay is the exponential one with its cap: the cap of the exponent does not show. *)
Theorem backoff_is_capped_exponential p f :
  consecutive_failures (failure_state p) = f -> 1 <= f ->
  backoff_delay p = if is_network_failure (failure_state p) then secs (Z.min (10 * 2 ^ (f - 1)) 60)
                    else secs (Z.min (30 * 2 ^ (f - 1)) 300).
Proof.
  intros Hf H1. unfold backoff_delay. rewrite Hf. destruct (Z.eqb_spec f 0); [lia|]. rewrite (Z.max_r 0) by lia.
  destruct (Z.le_gt_cases (f - 1) 4) as [Hle|Hgt].
  - rewrite (Z.min_l (f - 1) 4) by done. unfold secs. destruct (is_network_failure _); [|done]. generalize (2 ^ (f - 1)). lia.
  - rewrite (Z.min_r (f - 1) 4) by lia. assert (2 ^ 4 <= 2 ^ (f - 1)) by (apply Z.pow_le_mono_r; lia).
    change (2 ^ 4) with 16 in *. unfold secs. destruct (is_network_failure _); lia.
Qed.

(** ** Taking *)

Lemma turn_expired t build deadline asked x : deadline <= t_checked x -> turn_decision t build deadline asked x <> WaitForWarm.
Proof.
  intros H. unfold turn_decision. destruct (take_observe _ _ _ _) as [p [[[tk st] tg] pk]]. unfold decide_take. cbn.
  rewrite (proj2 (Z.leb_le _ _) H). destruct tk, (t_shutdown x), (tg =? 0)%nat, build, pk; done.
Qed.

Lemma turn_pooled t build deadline asked x env : turn_decision t build deadline asked x = Pooled env ->
  exists dels, (take (t_observed x) (t_disk x) (t_pool x)).2 = (Some env, dels).
Proof.
  unfold turn_decision, take_observe. destruct (take _ _ _) as [p [tk st]]. unfold decide_take. cbn.
  destruct tk; [intros [= ->]; eauto|]. destruct (t_shutdown x), (target p =? 0)%nat, build, (asked && is_parked p),
    (deadline <=? t_checked x); done.
Qed.

Lemma wait_for_bounded deadline now n retry_in : 0 <= wait_for deadline now n retry_in /\ now + wait_for deadline now n retry_in <= Z.max now deadline.
Proof. unfold wait_for, duration_sub, secs. destruct (0 <? n)%nat; lia. Qed.

Definition asks (w : TakeWaited) : Prop := w_requested w = true.
#[local] Instance asks_dec w : Decision (asks w) := decide (w_requested w = true).

Lemma take_turns_spec t build deadline asked turns :
  let '(ws, r) := take_turns t build deadline asked turns in
  (Exists (fun x => deadline <= t_checked x) turns -> is_Some r) /\
  Forall (fun w => 0 <= w_length w /\ w_from w + w_length w <= Z.max (w_from w) deadline) ws /\
  (length (filter asks ws) <= if asked then 0 else 1)%nat /\
  (forall env, r = Some (TakeEnv env) -> exists x dels, x ∈ turns /\ (take (t_observed x) (t_disk x) (t_pool x)).2 = (Some env, dels)).
Proof.
  revert asked. induction turns as [|x turns IH]; intros asked; cbn [take_turns].
  { split_and!; [by intros ?%Exists_nil|constructor|cbn; destruct asked; lia|done]. }
  destruct (turn_decision t build deadline asked x) as [env| | |e] eqn:Ed.
  1, 3, 4: split_and!; [eauto|constructor|cbn; destruct asked; lia|].
  - intros env' [= <-]. destruct (turn_pooled _ _ _ _ _ _ Ed) as [dels Hd]. exists x, dels. split; [apply list_elem_of_here|done].
  - done.
  - done.
  - destruct (take_wait _ _ _) as [p [[n ri] sp]].
    destruct (wait_for_bounded deadline (t_waiting x) n ri) as [B1 B2].
    assert (Hnot : ~ deadline <= t_checked x) by (intros H; by apply (turn_expired t build deadline asked x H)).
    destruct (t_woken_by_shutdown x).
    + split_and!; [eauto|by constructor| |done]. rewrite filter_cons. destruct asked; cbn; [done|]. case_decide; cbn; lia.
    + specialize (IH true). destruct (take_turns t build deadline true turns) as [ws r]. destruct IH as (H1 & H2 & H3 & H4). split_and!.
      * intros [?|?]%Exists_cons; [done|auto].
      * by constructor.
      * rewrite filter_cons. destruct asked; cbn [negb]; case_decide as Hc; cbn [length] in *; try lia. by unfold asks in Hc.
      * intros env Hr. destruct (H4 env Hr) as (y & dels & Hy & Hd). exists y, dels. split; [by apply list_elem_of_further|done].
Qed.

(** C39. A take ends: any turn of its loop at or after the deadline returns, no wait reaches past
    the deadline, it asks a parked pool for a retry at most once, and an environment it
    returns was taken from the pool at one of its turns, where it is leased. *)
Theorem take_ends t build now turns :
  let '(waits, r) := take_prewarmed_env t build now turns in
  (Exists (fun x => now + secs 120 <= t_checked x) turns -> is_Some r) /\
  Forall (fun w => 0 <= w_length w /\ w_from w + w_length w <= Z.max (w_from w) (now + secs 120)) waits /\
  (length (filter asks waits) <= 1)%nat /\
  (forall env, r = Some (TakeEnv env) -> exists x dels, x ∈ turns /\
     (take (t_observed x) (t_disk x) (t_pool x)).2 = (Some env, dels) /\
     pool_env_root (venv_path env) ∈ leased_paths (take (t_observed x) (t_disk x) (t_pool x)).1).
Proof.
  pose proof (take_turns_spec t build (now + secs POOL_WAIT_SECS) false turns) as H.
  unfold take_prewarmed_env. destruct t.
  3: { split_and!; [eauto|constructor|cbn; lia|done]. }
  all: destruct (take_turns _ _ _ _ _) as [ws r]; destruct H as (H1 & H2 & H3 & H4); split_and!; [done..|];
    intros env Hr; destruct (H4 env Hr) as (x & dels & Hx & Hd); exists x, dels; split_and!; [done..|];
    destruct (take (t_observed x) (t_disk x) (t_pool x)) as [p' [o l]] eqn:E; cbn in Hd; injection Hd as -> ->;
    destruct (take_spec _ _ _ _ _ _ E) as [_ HL]; cbn [fst]; rewrite HL; cbn; set_solver.
Qed.

(** ** Startup *)

Lemma adopt_into_spec now t h venv python packages p p' orphan : adopt_into now t h venv python packages p = (p', orphan) ->
  tracked_paths p' = tracked_paths p ∪ (if orphan then ∅ else {[pool_env_root venv]}) /\ target p' = target p /\
  (length (available p) <= target p -> length (available p') <= target p)%nat.
Proof.
  unfold adopt_into, retire_env_if_fallback_needed. intros Ha.
  assert (Hp : (p' = p /\ orphan = true) \/ (orphan = false /\ exists e, entry_root e = pool_env_root venv /\
    ((p' = set_available (available p ++ [e]) p /\ (length (available p) < target p)%nat) \/
     p' = set_retired (retired_available p ++ [e]) ({[pool_env_root venv]} ∪ retired_paths p) p))).
  { destruct h; cbn [negb] in Ha.
    - destruct (Nat.ltb_spec (length (available p)) (target p)); injection Ha as <- <-; [right|by left]. split; [done|].
      eexists. split; [|by left]. done.
    - destruct t; [injection Ha as <- <-; by left|..]; (destruct (_ <? _)%nat; injection Ha as <- <-; [right|by left]);
        (split; [done|]); eexists; (split; [|by right]); done. }
  destruct Hp as [[-> ->]|(-> & e & He & [[-> Hl]| ->])]; unfold tracked_paths; cbn.
  - split_and!; [set_solver|done|lia].
  - rewrite fmap_app, list_to_set_app_L, length_app. cbn. rewrite He. split_and!; [set_solver|done|lia].
  - split_and!; [set_solver|done|lia].
Qed.

Lemma sweep_tracked_set t p d :
  sweep_tracked (set_pool t p d) ∪ tracked_paths (pool_for t d) = sweep_tracked d ∪ tracked_paths p.
Proof. unfold sweep_tracked. destruct t; cbn; set_solver. Qed.

Lemma env_type_pool name t : env_type_of_name name = Some t -> is_pool_env_dir name = true.
Proof.
  unfold env_type_of_name, is_pool_env_dir, POOL_PREFIXES. cbn [existsb].
  destruct (String.prefix POOL_PREFIX_UV name), (String.prefix POOL_PREFIX_CONDA name), (String.prefix POOL_PREFIX_PIXI name); done.
Qed.

Lemma env_layout_root t cache name : is_pool_env_dir name = true -> pool_env_root (env_layout t (cache ++ [name])).1 = cache ++ [name].
Proof.
  intros H. destruct t; cbn -[is_pool_env_dir].
  1, 2: by apply (pool_root_of_dir cache name []).
  rewrite <-app_assoc. apply (pool_root_of_dir cache name [".pixi"; "envs"; "default"]); [done|]. repeat constructor.
Qed.

Definition within_targets (d : Pools) : Prop := forall t, (length (available (pool_for t d)) <= target (pool_for t d))%nat.

Definition adopted_dir (cache : path) (x : string * adoption) : option path :=
  match x.2 with Adopted => Some (cache ++ [x.1]) | _ => None end.

Lemma union_swap (S' P S X : gset path) : S' ∪ P = S ∪ (P ∪ X) -> P ⊆ S' -> P ⊆ S -> S' = S ∪ X.
Proof.
  intros E H1 H2. apply subseteq_union_L in H1, H2. rewrite (union_comm_L P) in H1, H2.
  by rewrite <-H1, E, union_assoc_L, H2.
Qed.

Lemma tracked_in_sweep t d : tracked_paths (pool_for t d) ⊆ sweep_tracked d.
Proof. unfold sweep_tracked. destruct t; cbn [pool_for]; intros q Hq; rewrite !elem_of_union; auto. Qed.

Lemma adopt_entry_spec now fs h pk cache name d d' a : adopt_entry now fs h pk cache name d = (d', a) ->
  sweep_tracked d' = sweep_tracked d ∪ list_to_set (option_list (adopted_dir cache (name, a))) /\ (within_targets d -> within_targets d').
Proof.
  unfold adopt_entry. destruct (is_on_demand_env_dir name); [intros [= <- <-]; cbn; split; [set_solver|done]|].
  destruct (env_type_of_name name) as [t|] eqn:Et; [|intros [= <- <-]; cbn; split; [set_solver|done]].
  apply env_type_pool in Et. pose proof (env_layout_root t cache name Et) as Hroot.
  destruct (env_layout t (cache ++ [name])) as [venv python]. cbn [fst] in Hroot.
  destruct (_ && _); [|intros [= <- <-]; cbn; split; [set_solver|done]].
  destruct (adopt_into _ _ _ _ _ _ _) as [p orphan] eqn:Ea. apply adopt_into_spec in Ea as (H1 & H2 & H3). intros [= <- <-].
  pose proof (sweep_tracked_set t p d) as Hs. rewrite H1, Hroot in Hs. split.
  - rewrite (union_swap _ _ _ _ Hs); [by destruct orphan; cbn; rewrite ?union_empty_r_L| |apply tracked_in_sweep].
    etransitivity; [|apply (tracked_in_sweep t)]. destruct t; cbn [pool_for set_pool uv_pool conda_pool pixi_pool]; rewrite H1; apply union_subseteq_l.
  - intros Hw t'. specialize (Hw t'). destruct t, t'; cbn in *; try done; rewrite H2; auto.
Qed.

(** At startup every directory of the cache is looked at once; exactly those adopted, into a
    pool or as a fallback, are protected, and no pool exceeds its target. *)
Theorem startup_protects_adopted now fs hash_matches packages cache names a b c age :
  let start := mkPools (pool_new a age) (pool_new b age) (pool_new c age) in
  let '(d, out) := find_existing_environments now fs hash_matches packages cache names start in
  length out = length names /\
  sweep_tracked d = list_to_set (omap (adopted_dir cache) (zip names out)) /\
  within_targets d.
Proof.
  cbv zeta. set (start := mkPools _ _ _).
  assert (H : forall d, let '(d', out) := find_existing_environments now fs hash_matches packages cache names d in
    length out = length names /\ sweep_tracked d' = sweep_tracked d ∪ list_to_set (omap (adopted_dir cache) (zip names out)) /\
    (within_targets d -> within_targets d')).
  { induction names as [|name names IH]; intros d; cbn [find_existing_environments]; [split_and!; [done|cbn; set_solver|done]|].
    destruct (adopt_entry _ _ _ _ _ _ _) as [d1 x] eqn:E. apply adopt_entry_spec in E as [E1 E2]. specialize (IH d1).
    destruct (find_existing_environments _ _ _ _ _ _ d1) as [d2 out]. destruct IH as (I1 & I2 & I3).
    split_and!; [cbn; lia| |auto].
    assert (omap (adopted_dir cache) (zip (name :: names) (x :: out)) =
      option_list (adopted_dir cache (name, x)) ++ omap (adopted_dir cache) (zip names out)) as ->
      by (cbn; by destruct (adopted_dir cache (name, x))).
    by rewrite I2, E1, list_to_set_app_L, union_assoc_L. }
  specialize (H start). destruct (find_existing_environments _ _ _ _ _ _ start) as [d out]. destruct H as (H1 & H2 & H3).
  split_and!; [done| |apply H3; intros []; cbn; lia]. rewrite H2. unfold sweep_tracked, tracked_paths. cbn. set_solver.
Qed.

(** ** Examples *)

Module PoolExamples.
#[local] Instance by_elements : HashOrder.
Proof.
  refine {| first_of s := head (elements s) |}. intros s. destruct (elements s) as [|x l] eqn:E; cbn.
  - by apply elements_empty_inv, leibniz_equiv in E.
  - apply elem_of_elements. rewrite E. apply list_elem_of_here.
Defined.

Definition dir (name : string) : path := ["cache"; name].
Definition env (name : string) : PooledEnv := mkEnv Uv (dir name) (dir name ++ ["bin"; "python"]) ["ipykernel"].
Definition on_disk (names : list string) : disk :=
  list_to_set (names ≫= (fun n => [dir n; dir n ++ ["bin"; "python"]; dir n ++ [".warmed"]])).
Definition a : string := "runtimed-uv-a".
Definition b : string := "runtimed-uv-b".

(** Two builds start, one ends, its environment is taken, lent, returned and taken again. *)
Definition w1 : World := let x := warming_pass 0 2 ["ipykernel"] false (pool_new 2 3600) in
  mkWorld x.1.1 (0 + x.2) [] [] [] [] ([] ++ x.1.2) ∅.
Definition w2 : World := mkWorld (register_warming_path (dir a) (pool w1)) 1 [dir a] [] [] [] [] ({[dir a]} ∪ ∅).
Definition w3 : World := let x := build_succeeded 5 (env a) (pool w2) in
  mkWorld x.1 1 [] [] [] [] ([] ++ x.2) ({[dir a]} ∪ ∅).
Definition w4 : World := let x := take 6 (on_disk [a]) (pool w3) in
  mkWorld x.1 1 [] (option_list ((fun e => pool_env_root (venv_path e)) <$> x.2.1) ++ []) [] [] ([] ++ x.2.2) ({[dir a]} ∪ ∅).
Definition w5 : World := mkWorld (release_lease (dir a) (pool w4)) 1 [] [] [] [dir a] [] ({[dir a]} ∪ ∅).
Definition w6 : World := mkWorld (return_env 7 (env a) (pool w5)).1 (reserved w5) (building w5) (guards w5) (held w5)
  (remove_first (pool_env_root (venv_path (env a))) (lent w5)) (deletions w5 ++ []) (used w5).
Definition w7 : World := let x := take 8 (on_disk [a]) (pool w6) in
  mkWorld x.1 (reserved w6) (building w6) (option_list ((fun e => pool_env_root (venv_path e)) <$> x.2.1) ++ guards w6) (held w6) (lent w6)
    (deletions w6 ++ x.2.2) (used w6).




Example taken_is_leased : guards w7 = [dir a] /\ pooled (pool w7) = [].
Proof. vm_compute. split; reflexivity. Qed.

Lemma backoff_is_capped_exponential_witness :
  let p := set_failure (mkFailure (BackingOff 9 0) (Some 0) None None None true) (pool_new 1 0) in
  backoff_delay p = secs 60.
Proof.
  intros p. rewrite (backoff_is_capped_exponential p 9); [reflexivity|reflexivity|lia].
Defined.

(** A flush leaves the Pixi pool as it was. *)
Definition warm (n : string) : Pool := set_available [mkEntry (env n) 0] (pool_new 1 3600).
Example flush_keeps_pixi :
  let '(d, deleted) := flush_pool (mkPools (warm a) (pool_new 1 3600) (warm "runtimed-pixi-c")) in
  available (uv_pool d) = [] /\ deleted = [dir a] /\ pixi_pool d = warm "runtimed-pixi-c".
Proof. vm_compute. split_and!; reflexivity. Qed.

(** A client that returns an environment twice gets it into the pool twice, and two launches
    are given the same directory. *)
Example returned_twice_is_shared :
  let fs := on_disk [a] in
  let p := (return_env 1 (env a) (return_env 1 (env a) (pool_new 2 3600)).1).1 in
  let '(p, (first, _)) := take 2 fs p in
  (first, (take 2 fs p).2.1) = (Some (env a), Some (env a)).
Proof. vm_compute. reflexivity. Qed.

(** A collection pass reads the paths in use, then the tracked paths.  An environment leased
    at the first moment and handed to a room before the second is in neither set and is
    deleted under the kernel that runs in it. *)
Example handed_over_during_sweep :
  let '(leased, _) := take 1 (on_disk [a]) (warm a) in
  let in_use := ∅ in
  let released := release_lease (dir a) leased in
  sweep_orphan_pool_envs ["cache"] in_use (tracked_paths released) [a] = [dir a].
Proof. vm_compute. reflexivity. Qed.

(** The directory of a build that starts after the tracked paths were read and before the
    cache is listed is deleted while it is being built. *)
Example build_started_during_sweep :
  let tracked := tracked_paths (pool_new 2 3600) in
  let p := register_warming_path (dir b) (pool_new 2 3600) in
  dir b ∈ tracked_paths p /\ sweep_orphan_pool_envs ["cache"] ∅ tracked [b] = [dir b].
Proof. split; [set_solver|vm_compute; reflexivity]. Qed.

(** A take that waits while the pool backs off gives up when the pool parks, without the
    retry that a take gives a parked pool: its request was spent on a pool that was not
    parked. *)
Definition backing_off : Pool :=
  set_warming 1 ∅ (set_failure (mkFailure (BackingOff 4 4) (Some 0) (Some "no such package") None None false) (pool_new 1 3600)).
Definition parked : Pool := rollback 1 (dir a) (Some (mkInstallError None "no such package" "setup_failed")) backing_off.
Example take_gives_up_without_retry :
  let turn p := mkTurn p ∅ 1 false 1 p 1 false in
  is_parked parked = true /\ retry (failure_state (take_wait 1 false backing_off).1) = BackingOff 4 4 /\
  (take_prewarmed_env Uv true 0 [turn backing_off; turn parked]).2 = Some (TakeFailed (BuildFailed Uv "no such package")).
Proof. vm_compute. split_and!; reflexivity. Qed.
End PoolExamples.
