(* ===== verification/AmSync.v ===== *)
(** * Synchronised documents and their error boundary

    Model of [crates/automerge-recovery/src/lib.rs] and of the sync methods of the four
    documents of a room ([notebook-doc/src/lib.rs], [runtime-doc/src/doc.rs] and
    [comms.rs], [comments-doc/src/doc.rs]): receiving and generating sync messages
    behind a boundary that returns panics as errors and, for one class of errors,
    rebuilds the document from its own bytes and tries once more.  Automerge itself is
    the interface [AmLib]/[AmDoc]: a document is a tree with a change history, and its
    operations return, fail or panic. *)

From S2P Require Import Prelude Automunge RuntimeDoc RuntimeOutputs NotebookDoc Comments.

(** ** Panics as values *)

(** A panic payload: a [String], a [&str], or anything else. *)
Inductive panic_payload := OwnedText (s : string) | StaticText (s : string) | OtherPayload.

(** What running a piece of code gives: a value, or a panic that unwinds. *)
Inductive outcome (A : Type) := Returned (a : A) | Panicked (p : panic_payload).
Arguments Returned {A}. Arguments Panicked {A}.

Record AutomergeRecoveryError := mkRecovery { re_label : string; re_panic_message : string }.

(** [automerge::AutomergeError]: the one the boundary recovers from, and the others. *)
Inductive AmError := PatchLogMismatch (what : string) | OtherAmError (what : string).

Inductive AutomergeRebuildError :=
| RebuildPanic (e : AutomergeRecoveryError)
| RebuildLoad (source : AmError)
| CellLoss (before after : nat).

Inductive AutomergeOperationError :=
| OpAutomerge (label : string) (source : AmError)
| OpPanic (e : AutomergeRecoveryError)
| RebuildFailed (label : string) (source : AutomergeRebuildError).

Definition panic_payload_to_string (p : panic_payload) : string :=
  match p with OwnedText s | StaticText s => s | OtherPayload => "unknown panic" end.

Definition catch_automerge_panic {A} (label : string) (o : outcome A) : result AutomergeRecoveryError A :=
  match o with
  | Returned a => Ok a
  | Panicked p => Err (mkRecovery label (panic_payload_to_string p))
  end.

Inductive AutomergeAttempt (A E : Type) :=
| Success (a : A)
| OperationError (e : E)
| AttemptPanic (e : AutomergeRecoveryError).
Arguments Success {A E}. Arguments OperationError {A E}. Arguments AttemptPanic {A E}.

Definition from_caught_result {A E} (caught : result AutomergeRecoveryError (result E A))
    : AutomergeAttempt A E :=
  match caught with
  | Ok (Ok a) => Success a
  | Ok (Err e) => OperationError e
  | Err e => AttemptPanic e
  end.

Definition into_operation_result {A} (label : string) (a : AutomergeAttempt A AmError)
    : result AutomergeOperationError A :=
  match a with
  | Success a => Ok a
  | OperationError source => Err (OpAutomerge label source)
  | AttemptPanic e => Err (OpPanic e)
  end.

Definition catch_automerge_result {A E} (label : string) (o : outcome (result E A)) : AutomergeAttempt A E :=
  from_caught_result (catch_automerge_panic label o).

Definition is_recoverable_sync_error (source : AmError) : bool :=
  match source with PatchLogMismatch _ => true | OtherAmError _ => false end.

(** [recoverable_automerge_operation]: the context is what the operation and the rebuild
    mutate, so it is as they left it whatever the outcome. *)
Definition recoverable_automerge_operation {C A} (label : string) (context : C)
    (operation : C -> C * outcome (result AmError A)) (should_rebuild : AmError -> bool)
    (rebuild : C -> C * result AutomergeRebuildError ()) : C * result AutomergeOperationError A :=
  let '(context, o) := operation context in
  match catch_automerge_result label o with
  | Success a => (context, Ok a)
  | AttemptPanic e => (context, Err (OpPanic e))
  | OperationError source =>
      if should_rebuild source then
        match rebuild context with
        | (context, Err source) => (context, Err (RebuildFailed label source))
        | (context, Ok _) =>
            let '(context, o) := operation context in
            (context, into_operation_result label (catch_automerge_result label o))
        end
      else (context, Err (OpAutomerge label source))
  end.

(** A property the operation and the rebuild keep is kept by the boundary. *)
Lemma recoverable_keeps {C A} (P : C -> Prop) label c
    (operation : C -> C * outcome (result AmError A)) should_rebuild rebuild :
  P c -> (forall c, P c -> P (operation c).1) -> (forall c, P c -> P (rebuild c).1) ->
  P (recoverable_automerge_operation label c operation should_rebuild rebuild).1.
Proof.
  intros Hc Ho Hr. unfold recoverable_automerge_operation.
  pose proof (Ho c Hc) as H1. destruct (operation c) as [c1 o1]. cbn [fst] in H1.
  destruct (catch_automerge_result label o1) as [a|source|e]; [done| |done].
  destruct (should_rebuild source); [|done].
  pose proof (Hr c1 H1) as H2. destruct (rebuild c1) as [c2 [[]|e]]; cbn [fst] in H2; [|done].
  pose proof (Ho c2 H2) as H3. by destruct (operation c2) as [c3 o3].
Qed.

(** Two boundaries whose steps agree up to [R] agree up to [R], and one succeeds when the
    other does: the label is in the errors only. *)
Lemma recoverable_sim {C D A} (R : C -> D -> Prop) l1 l2 c d
    (op1 : C -> C * outcome (result AmError A)) (op2 : D -> D * outcome (result AmError A)) should rb1 rb2 :
  R c d ->
  (forall c d, R c d -> R (op1 c).1 (op2 d).1 /\ (op1 c).2 = (op2 d).2) ->
  (forall c d, R c d -> R (rb1 c).1 (rb2 d).1 /\ (rb1 c).2 = (rb2 d).2) ->
  R (recoverable_automerge_operation l1 c op1 should rb1).1 (recoverable_automerge_operation l2 d op2 should rb2).1 /\
  forall a, (recoverable_automerge_operation l1 c op1 should rb1).2 = Ok a ->
    (recoverable_automerge_operation l2 d op2 should rb2).2 = Ok a.
Proof.
  intros Hcd Ho Hr. unfold recoverable_automerge_operation.
  pose proof (Ho c d Hcd) as [H1 E1]. destruct (op1 c) as [c1 o1], (op2 d) as [d1 o2]. cbn [fst snd] in *. subst o2.
  destruct o1 as [[a|source]|p]; cbn; [by split| |by split].
  destruct (should source); cbn; [|by split].
  pose proof (Hr c1 d1 H1) as [H2 E2]. destruct (rb1 c1) as [c2 r1], (rb2 d1) as [d2 r2]. cbn [fst snd] in *. subst r2.
  destruct r1 as [[]|e]; [|by split].
  pose proof (Ho c2 d2 H2) as [H3 E3]. destruct (op1 c2) as [c3 o3], (op2 d2) as [d3 o4]. cbn [fst snd] in *. subst o4.
  by destruct o3 as [[a|source']|p].
Qed.

(** ** Automerge *)

(** A change of a history, as authorization sees it: [ChangeActor]. *)
Record ChangeActor := mkChange { actor_label : string; change_hash : string }.

(** The library: histories, sync states and sync messages.  A hash is its text. *)
Class AmLib := {
  Hist : Type; SyncState : Type; Message : Type;
  state_new : SyncState; state_new_read_only : SyncState;
  decode : bytes -> result string Message; encode : Message -> bytes;
  has_changes : Message -> bool;
  heads : Hist -> list string;
  get_changes : Hist -> list string -> list ChangeActor;
  get_change_by_hash : Hist -> string -> bool;
  parse_change_hash : string -> option string;
}.

(** A document: what its readers see, and its history. *)
Record versioned `{AmLib} (B : Type) := mkV { body : B; history : Hist }.
Arguments mkV {_ B}. Arguments body {_ B}. Arguments history {_ B}.

(** A tree that Automerge keeps: receiving a message, answering a peer, loading the saved
    bytes, and the history after local writes. *)
Class AmDoc `{AmLib} (T : Type) := {
  am_receive : versioned T -> SyncState -> Message ->
    versioned T * SyncState * outcome (result AmError ());
  am_generate : versioned T -> SyncState -> SyncState * outcome (option Message);
  am_reload : versioned T -> outcome (result AmError (versioned T));
  am_commit : Hist -> T -> T -> Hist;
}.

(** What the room relies on: a message without changes and a reload change nothing that
    is read, and heads tell apart the states that local writes go through. *)
Class AmDocLaws `{AM : AmDoc T} := {
  receive_idle v st m : has_changes m = false ->
    body (am_receive v st m).1.1 = body v /\ heads (history (am_receive v st m).1.1) = heads (history v);
  reload_same v v' : am_reload v = Returned (Ok v') ->
    body v' = body v /\ heads (history v') = heads (history v);
  heads_identify v v' :
    rtc (fun v w => history w = am_commit (history v) (body v) (body w)) v v' ->
    heads (history v) = heads (history v') -> body v = body v';
}.

Section Sync.
Context `{AM : AmLib, AD : !AmDoc (gmap string node)}.

(** [extract_change_actors] and [extract_change_actor_hashes] of [diff.rs]. *)
Definition extract_change_actors (h : Hist) (before : list string) : list string :=
  merge_sort String.le (remove_dups (actor_label <$> get_changes h before)).
Definition extract_change_actor_hashes (h : Hist) (before : list string) : list ChangeActor :=
  get_changes h before.

(** [rebuild_from_save]: load the saved bytes unless a check of the owner objects. *)
Definition rebuild_with {T} `{!AmDoc T} (label : string) (check : T -> T -> option AutomergeRebuildError)
    (v : versioned T) : versioned T * result AutomergeRebuildError () :=
  match catch_automerge_panic label (am_reload v) with
  | Err e => (v, Err (RebuildPanic e))
  | Ok (Err source) => (v, Err (RebuildLoad source))
  | Ok (Ok v') =>
      match check (body v) (body v') with Some e => (v, Err e) | None => (v', Ok ()) end
  end.

(** The closures around one receive: the retry replays the message, and a rebuild first
    forgets the state of the peer. *)
Definition receive_boundary {B A} (label : string)
    (receive : versioned B -> SyncState -> versioned B * SyncState * outcome (result AmError A))
    (rebuild : versioned B -> versioned B * result AutomergeRebuildError ())
    (v : versioned B) (st : SyncState) : versioned B * SyncState * result AutomergeOperationError A :=
  let '(c, r) := recoverable_automerge_operation label (v, st)
    (fun c : versioned B * SyncState => let '(v, st, o) := receive c.1 c.2 in ((v, st), o))
    is_recoverable_sync_error
    (fun c : versioned B * SyncState => let '(v, r) := rebuild c.1 in ((v, state_new), r)) in
  (c, r).

(** Generating a message has no recoverable errors. *)
Definition generate_boundary {T} `{!AmDoc T} (label : string) (v : versioned T) (st : SyncState)
    : SyncState * result AutomergeOperationError (option Message) :=
  recoverable_automerge_operation label st
    (fun st => let '(st, o) := am_generate v st in
      (st, match o with Returned m => Returned (Ok m) | Panicked p => Panicked p end))
    (fun _ => false) (fun st => (state_new, Ok ())).

(** *** The notebook *)

Section NotebookSync.
Variable json_from_str : string -> option json.

Definition notebook_cell_loss (before after : NotebookDoc) : option AutomergeRebuildError :=
  let pre := cell_count before in
  let post := length (get_cells json_from_str after) in
  if (post <? pre)%nat then Some (CellLoss pre post) else None.

Definition notebook_rebuild_from_save : versioned NotebookDoc -> versioned NotebookDoc * result AutomergeRebuildError () :=
  rebuild_with "notebook-doc-rebuild-from-save" notebook_cell_loss.

Definition notebook_receive_sync_message_recovering (label : string) (m : Message)
    (v : versioned NotebookDoc) (st : SyncState) :=
  receive_boundary label (fun v st => am_receive v st m) notebook_rebuild_from_save v st.

End NotebookSync.

(** *** The runtime state and the widget state *)

(** The tree under the typed document; its cache is not Automerge's. *)
Definition runtime_tree (v : versioned RuntimeStateDoc) : versioned (gmap string node) :=
  mkV (RuntimeDoc.root (body v)) (history v).
Definition with_runtime_tree (t : versioned (gmap string node)) (v : versioned RuntimeStateDoc)
    : versioned RuntimeStateDoc := mkV (mkRuntimeDoc (body t) (output_order_cache (body v))) (history t).

Definition heads_moved (before after : Hist) : bool := negb (bool_decide (heads before = heads after)).

(** [RuntimeStateDoc::receive_sync_message_with_changes]. *)
Definition runtime_receive_sync_message_with_changes (m : Message) (v : versioned RuntimeStateDoc)
    (st : SyncState) : versioned RuntimeStateDoc * SyncState * outcome (result AmError bool) :=
  let '(t, st, o) := am_receive (runtime_tree v) st m in
  let v' := with_runtime_tree t v in
  match o with
  | Panicked p => (v', st, Panicked p)
  | Returned (Err e) => (v', st, Returned (Err e))
  | Returned (Ok _) =>
      let moved := heads_moved (history v) (history t) in
      (if moved then mkV (from_doc (body t)) (history t) else v', st, Returned (Ok moved))
  end.

Definition runtime_rebuild_from_save (v : versioned RuntimeStateDoc)
    : versioned RuntimeStateDoc * result AutomergeRebuildError () :=
  let '(t, r) := rebuild_with "runtime-state-doc-rebuild-from-save" (fun _ _ => None) (runtime_tree v) in
  (with_runtime_tree t v, r).

Definition runtime_receive_recovering (label : string) (m : Message) (v : versioned RuntimeStateDoc)
    (st : SyncState) := receive_boundary label (runtime_receive_sync_message_with_changes m) runtime_rebuild_from_save v st.

(** [CommsDoc]: the tree alone. *)
Definition comms_receive_sync_message_with_changes (m : Message) (v : versioned (gmap string node))
    (st : SyncState) : versioned (gmap string node) * SyncState * outcome (result AmError bool) :=
  let '(t, st, o) := am_receive v st m in
  (t, st, match o with
          | Panicked p => Panicked p
          | Returned (Err e) => Returned (Err e)
          | Returned (Ok _) => Returned (Ok (heads_moved (history v) (history t)))
          end).

Definition comms_rebuild_from_save : versioned (gmap string node) -> versioned (gmap string node) * result AutomergeRebuildError () :=
  rebuild_with "comms-doc-rebuild-from-save" (fun _ _ => None).

Definition comms_receive_recovering (label : string) (m : Message) (v : versioned (gmap string node))
    (st : SyncState) := receive_boundary label (comms_receive_sync_message_with_changes m) comms_rebuild_from_save v st.

(** *** Comments *)

Definition comments_tree : Type := gmap string node * list node * gmap (list string) string.

Definition ctree (d : CommentsDoc) : comments_tree := (Comments.root d, id_rivals d, writers d).

(** How an Automerge error reads inside a [CommentsDocError]. *)
Definition am_error_text (e : AmError) : string :=
  match e with PatchLogMismatch s => s | OtherAmError s => s end.

Context `{AC : !AmDoc comments_tree}.

(** What a receive left behind, in the form the identity repair takes it. *)
Definition as_received (v : versioned CommentsDoc) (t : versioned comments_tree) (st : SyncState)
    (e : option AmError) : received_doc SyncState :=
  let '(r, rivals, ws) := body t in
  mkReceived r rivals ws st (actor_label <$> get_changes (history t) (heads (history v))) (am_error_text <$> e).

(** [receive_sync_message_with_changes_repairing_identity]: the expected identity is
    checked before anything is received; a refused repair restores document and history. *)
Definition comments_receive_repairing (m : Message) (expected : string) (r : NotebookCommentRef)
    (v : versioned CommentsDoc) (st : SyncState)
    : versioned CommentsDoc * SyncState * outcome (result (CommentsDocError * bool) CommentsDocReceiveRepairResult) :=
  match validate_comments_doc_id expected with
  | Err e => (v, st, Returned (Err (e, false)))
  | Ok _ =>
      let '(t, st', o) := am_receive (mkV (ctree (body v)) (history v)) st m in
      let left_behind e := mkV (take_received (as_received v t st' e) (body v)) (history t) in
      match o with
      | Panicked p => (left_behind None, st', Panicked p)
      | Returned (Err e) =>
          (left_behind (Some e), st',
           Returned (Err (AutomergeFailed (am_error_text e), is_recoverable_sync_error e)))
      | Returned (Ok _) =>
          match receive_sync_message_with_changes_repairing_identity state_new st
                  (as_received v t st' None) expected r (body v) with
          | (d, st'', Ok report) =>
              (mkV d (am_commit (history t) (body t) (ctree d)), st'', Returned (Ok report))
          | (d, st'', Err e) => (mkV d (history v), st'', Returned (Err (e, false)))
          end
      end
  end.

Definition comments_rebuild_from_save (v : versioned CommentsDoc)
    : versioned CommentsDoc * result AutomergeRebuildError () :=
  let '(t, r) := rebuild_with "comments-doc-rebuild-from-save" (fun _ _ => None)
    (mkV (ctree (body v)) (history v)) in
  let '(root, rivals, ws) := body t in
  (mkV (mkComments root rivals ws (comments_doc_id (body v)) (doc_actor (body v))) (history t), r).

(** [CommentsDocError], with the errors of the boundary. *)
Inductive CommentsReceiveError :=
| CommentsErr (e : CommentsDocError)
| CommentsPanic (e : AutomergeRecoveryError)
| CommentsRebuildFailed (label : string) (source : AutomergeRebuildError).

(** [receive_sync_message_with_changes_repairing_identity_recovering]. *)
Definition comments_receive_repairing_recovering (label : string) (m : Message) (expected : string)
    (r : NotebookCommentRef) (v : versioned CommentsDoc) (st : SyncState)
    : versioned CommentsDoc * SyncState * result CommentsReceiveError CommentsDocReceiveRepairResult :=
  let '(v, st, o) := comments_receive_repairing m expected r v st in
  match catch_automerge_result label o with
  | Success report => (v, st, Ok report)
  | AttemptPanic e => (v, st, Err (CommentsPanic e))
  | OperationError (source, false) => (v, st, Err (CommentsErr source))
  | OperationError (_, true) =>
      match comments_rebuild_from_save v with
      | (v, Err source) => (v, state_new, Err (CommentsRebuildFailed label source))
      | (v, Ok _) =>
          let '(v, st, o) := comments_receive_repairing m expected r v state_new in
          (v, st, match catch_automerge_result label o with
                  | Success report => Ok report
                  | OperationError (source, _) => Err (CommentsErr source)
                  | AttemptPanic e => Err (CommentsPanic e)
                  end)
      end
  end.

End Sync.

(** ** A preview and the real thing *)

Section Preview.
Context `{AM : AmLib, AD : !AmDoc (gmap string node)}.

Lemma receive_boundary_sim {B C A} (R : versioned B -> versioned C -> Prop) l1 l2 rec1 rec2 rb1 rb2 v w st :
  R v w ->
  (forall v w st, R v w -> R (rec1 v st).1.1 (rec2 w st).1.1 /\ (rec1 v st).1.2 = (rec2 w st).1.2 /\
    (rec1 v st).2 = (rec2 w st).2) ->
  (forall v w, R v w -> R (rb1 v).1 (rb2 w).1 /\ (rb1 v).2 = (rb2 w).2) ->
  forall v' st' (a : A), receive_boundary l1 rec1 rb1 v st = (v', st', Ok a) ->
    exists w', receive_boundary l2 rec2 rb2 w st = (w', st', Ok a) /\ R v' w'.
Proof.
  intros Hvw Hrec Hrb v' st' a. unfold receive_boundary.
  set (o1 := fun c : versioned B * SyncState => _). set (b1 := fun c : versioned B * SyncState => _).
  set (o2 := fun c : versioned C * SyncState => _). set (b2 := fun c : versioned C * SyncState => _).
  pose proof (recoverable_sim (fun c d => R c.1 d.1 /\ c.2 = d.2) l1 l2 (v, st) (w, st) o1 o2
    is_recoverable_sync_error b1 b2) as H.
  destruct (recoverable_automerge_operation l1 _ _ _ _) as [[v1 st1] r1] eqn:E1.
  destruct (recoverable_automerge_operation l2 _ _ _ _) as [[w1 st2] r2] eqn:E2.
  cbn [fst snd] in H. intros [= -> -> ->]. destruct H as [[HR Hst] Ha]; [done|..].
  - intros [x s] [y t] [Hxy Est]. cbn [fst snd] in Hxy, Est. subst t. unfold o1, o2. cbn [fst snd].
    pose proof (Hrec x y s Hxy) as (? & ? & ?).
    destruct (rec1 x s) as [[x' s1] ?], (rec2 y s) as [[y' s2] ?]. by cbn in *.
  - intros [x s] [y t] [Hxy _]. cbn [fst snd] in Hxy. unfold b1, b2. cbn [fst snd].
    pose proof (Hrb x y Hxy) as [? ?]. destruct (rb1 x), (rb2 y). by cbn in *.
  - exists w1. by rewrite (Ha a eq_refl), Hst.
Qed.

(** The label of the boundary is in its errors only. *)
Lemma notebook_receive_label jfs l1 l2 m v st v' st' :
  notebook_receive_sync_message_recovering jfs l1 m v st = (v', st', Ok ()) ->
  notebook_receive_sync_message_recovering jfs l2 m v st = (v', st', Ok ()).
Proof.
  intros H. eapply (receive_boundary_sim eq) in H as (w' & Hw & <-); [exact Hw|done|..]; by intros ? ? -> || intros ? ? ? ->.
Qed.

Lemma comms_receive_label l1 l2 m v st v' st' b :
  comms_receive_recovering l1 m v st = (v', st', Ok b) -> comms_receive_recovering l2 m v st = (v', st', Ok b).
Proof.
  intros H. eapply (receive_boundary_sim eq) in H as (w' & Hw & <-); [exact Hw|done|..]; by intros ? ? -> || intros ? ? ? ->.
Qed.

(** The cache of the runtime state is no part of what is received. *)
Definition same_tree (v w : versioned RuntimeStateDoc) : Prop := runtime_tree v = runtime_tree w.

Lemma runtime_receive_label l1 l2 m v w st v' st' b :
  same_tree v w -> runtime_receive_recovering l1 m v st = (v', st', Ok b) ->
  exists w', runtime_receive_recovering l2 m w st = (w', st', Ok b) /\ same_tree v' w'.
Proof.
  intros Hvw H. eapply (receive_boundary_sim same_tree) in H; [exact H|done|..].
  - clear. intros v w st Hvw. unfold runtime_receive_sync_message_with_changes. rewrite <- Hvw.
    assert (history v = history w) as -> by (by injection Hvw).
    destruct (am_receive (runtime_tree v) st m) as [[t st'] [[[]|e]|p]]; [|done..].
    by destruct (heads_moved (history w) (history t)).
  - clear. intros v w Hvw. unfold runtime_rebuild_from_save. rewrite <- Hvw.
    by destruct (rebuild_with _ _ _) as [t r].
Qed.

End Preview.

(** ** Messages without changes *)

Section Idle.
Context `{AM : AmLib, AD : !AmDoc (gmap string node), AL : !AmDocLaws (T := gmap string node)}.

Lemma rebuild_same {T} `{DT : !AmDoc T, !AmDocLaws (T := T)} label check (v : versioned T) :
  body (rebuild_with label check v).1 = body v /\
  heads (history (rebuild_with label check v).1) = heads (history v).
Proof.
  unfold rebuild_with. destruct (am_reload v) as [[v'|e]|p] eqn:E; cbn [catch_automerge_panic]; [|done..].
  apply reload_same in E. by destruct (check (body v) (body v')).
Qed.

(** A boundary around steps that change nothing changes nothing. *)
Lemma receive_boundary_same {B A} label receive rebuild (v : versioned B) st :
  (forall v st, body (receive v st).1.1 = body v /\ heads (history (receive v st).1.1) = heads (history v)) ->
  (forall v, body (rebuild v).1 = body v /\ heads (history (rebuild v).1) = heads (history v)) ->
  body (receive_boundary (A := A) label receive rebuild v st).1.1 = body v /\
  heads (history (receive_boundary (A := A) label receive rebuild v st).1.1) = heads (history v).
Proof.
  intros Hrec Hreb. unfold receive_boundary.
  set (op := fun c : versioned B * SyncState => _). set (rb := fun c : versioned B * SyncState => _).
  pose proof (recoverable_keeps (fun c => body c.1 = body v /\ heads (history c.1) = heads (history v))
    label (v, st) op is_recoverable_sync_error rb) as H.
  destruct (recoverable_automerge_operation label (v, st) op is_recoverable_sync_error rb) as [c r].
  apply H; [done|..].
  - intros [w s] [Hb Hh]. unfold op. cbn [fst snd] in *. specialize (Hrec w s).
    destruct (receive w s) as [[w' s'] o]. cbn [fst] in *. by rewrite <- Hb, <- Hh.
  - intros [w s] [Hb Hh]. unfold rb. cbn [fst snd] in *. specialize (Hreb w).
    destruct (rebuild w) as [w' r']. cbn [fst] in *. by rewrite <- Hb, <- Hh.
Qed.

Lemma notebook_idle jfs label m v st :
  has_changes m = false ->
  body (notebook_receive_sync_message_recovering jfs label m v st).1.1 = body v /\
  heads (history (notebook_receive_sync_message_recovering jfs label m v st).1.1) = heads (history v).
Proof.
  intros Hm. apply receive_boundary_same; intros; [by apply receive_idle|apply rebuild_same].
Qed.

Lemma comms_idle label m v st :
  has_changes m = false ->
  body (comms_receive_recovering label m v st).1.1 = body v /\
  heads (history (comms_receive_recovering label m v st).1.1) = heads (history v).
Proof.
  intros Hm. apply receive_boundary_same; [intros w s|intros w; apply rebuild_same].
  unfold comms_receive_sync_message_with_changes. pose proof (receive_idle w s m Hm) as H.
  by destruct (am_receive w s m) as [[w' s'] o].
Qed.

Lemma with_runtime_tree_same (t : versioned (gmap string node)) (w : versioned RuntimeStateDoc) :
  body t = body (runtime_tree w) -> body (with_runtime_tree t w) = body w.
Proof. destruct w as [[r c] h]. cbn. by intros ->. Qed.

(** The cache survives too: it is dropped when heads move, and they do not. *)
Lemma runtime_idle label m v st :
  has_changes m = false ->
  body (runtime_receive_recovering label m v st).1.1 = body v /\
  heads (history (runtime_receive_recovering label m v st).1.1) = heads (history v).
Proof.
  intros Hm. apply receive_boundary_same.
  - intros w s. unfold runtime_receive_sync_message_with_changes.
    pose proof (receive_idle (runtime_tree w) s m Hm) as [Hb Hh].
    destruct (am_receive (runtime_tree w) s m) as [[t s'] o]. cbn [fst] in *.
    pose proof (with_runtime_tree_same t w Hb) as Hw.
    unfold heads_moved. cbn in Hh. rewrite Hh, bool_decide_true by done. cbn [negb].
    destruct o as [[[]|e]|p]; cbn [fst]; (split; [exact Hw|exact Hh]).
  - intros w. unfold runtime_rebuild_from_save.
    pose proof (rebuild_same "runtime-state-doc-rebuild-from-save" (fun _ _ => None) (runtime_tree w)) as [Hb Hh].
    destruct (rebuild_with _ _ _) as [t r]. cbn [fst] in *. by split; [apply with_runtime_tree_same|].
Qed.

End Idle.
