(* ===== verification/RoomHost.v ===== *)
(** * The room host

    Model of [crates/notebook-room-host/src/lib.rs]: the state machine of one hosted
    notebook room.  It keeps the four documents of the room with a sync state per peer,
    takes authenticated frames, turns execution requests into queued executions, and
    repairs the runtime state when the runtime goes away.  The documents are the ones of
    [NotebookDoc], [RuntimeDoc] and [Comments], synchronised as in [AmSync]; the
    authorization is that of [Identity] and [RuntimePolicy].  Automerge, [serde_json] and
    [uuid] are parameters.  An operation is a function on the engine that leaves it as
    the code does also when it fails. *)

From S2P Require Import Prelude Kernel Automunge RuntimeDoc RuntimeOutputs RuntimeComms Identity RuntimePolicy NotebookDoc Comments AmSync.

(** ** Data *)

(** [RoomHostError], by the place that builds it. *)
Inductive RoomHostError :=
| EmptyFrame
| UnknownScope (e : AuthError)
| DecodeSync (document why : string)
| CannotWrite (document : string)
| AuthPreviewFailed (document : string) (e : AutomergeOperationError)
| ReceiveFailed (document : string) (e : AutomergeOperationError)
| GenerateFailed (document : string) (e : AutomergeOperationError)
| PrincipalInvalid (e : AuthError)
| ActorNotAuthorized (actor expected : string)
| ActorLabelInvalid (label : string) (e : AuthError)
| EditorTouchedRoot (root : string)
| PolicyRefused (e : policy_error)
| MissingNotebookId
| CommentsRefused (e : CommentsReceiveError)
| CannotSubmit
| DecodeRequest (why : string)
| InvalidHeads
| TooManyHeads
| InvalidHead
| HeadsNotSynced
| MissingCellId
| CellNotFound (id : string)
| NotCode (id cell_type : string)
| InvalidUuid (id : string)
| DuplicateExecutionId (id : string)
| ExecutionExists (id : string)
| AlreadyActive (id : string)
| DecodeExecutionIds
| CreateExecution (e : RuntimeStateError)
| StampFailed (e : AutomergeError)
| PublishQueue (e : RuntimeStateError)
| StateWrite (what : string) (e : RuntimeStateError)
| QueueNotOwned
| OutsideActiveQueue
| SeveralRunning
| ReadStatus
| ReplacedSession
| PackagesChanged
| ManifestWrite (e : AutomergeError)
(** A loop that does not end; no error of the code. *)
| Diverges.

Record RoomHostOutboundFrame := mkOutbound { of_peer_id : string; of_frame_type : byte; of_payload : bytes }.

Record RoomQueuedCell := mkQueuedCell { rq_cell_id : string; rq_execution_id : string }.

Inductive RoomExecutionResponse :=
| CellQueued (q : RoomQueuedCell)
| AllCellsQueued (queued : list RoomQueuedCell).

Record RoomHostFrameResult := mkResult {
  execution_response : option RoomExecutionResponse;
  changed : bool; ignored_stale : bool; notebook_changed : bool; runtime_state_changed : bool;
  outbound : list RoomHostOutboundFrame;
}.

Definition empty_result : RoomHostFrameResult := mkResult None false false false false [].

Record RuntimeExecutionActivity := mkActivity { executing : bool; queue_depth : nat }.

(** A patch of [AutoCommit::diff]: the properties on its path and what it does. *)
Inductive Prop_ := PMap (key : string) | PSeq (index : Z).
Inductive PatchAction := PutMap (key : string) | DeleteMap (key : string) | OtherAction.
Record Patch := mkPatch { path : list Prop_; action : PatchAction }.

(** [RoomHostEngine]. *)
Record RoomHostEngine `{AmLib} := mkEngine {
  doc : versioned NotebookDoc;
  state_doc : versioned RuntimeStateDoc;
  comms_doc : versioned (gmap string node);
  comments_doc : versioned CommentsDoc;
  notebook_peer_states : gmap string SyncState;
  runtime_peer_states : gmap string SyncState;
  comms_peer_states : gmap string SyncState;
  comments_peer_states : gmap string SyncState;
}.

Arguments mkEngine {_}.

(** ** Operations that may fail *)

Definition HostM `{AmLib} (A : Type) : Type := RoomHostEngine -> RoomHostEngine * result RoomHostError A.

#[export] Instance HostM_ret `{AmLib} : MRet HostM := fun A a s => (s, Ok a).
#[export] Instance HostM_bind `{AmLib} : MBind HostM := fun A B f m s =>
  match m s with (s, Ok a) => f a s | (s, Err e) => (s, Err e) end.

Section Host.
Context `{AM : AmLib, AD : !AmDoc (gmap string node), AC : !AmDoc comments_tree}.
Context {PT : Type} `{!EqDecision PT}.
(** [serde_json]: a cell's metadata text and the body of a request; the values of the
    runtime state that the policy compares as serde reads them. *)
Variable json_from_str : string -> option json.
Variable json_from_slice : bytes -> result string json.
Variable decode_project_trust : option json -> PT.
Variable extras_from_str : string -> option ProjectFileExtras.
(** Automerge: the patches between two sets of heads, and the values of an execution's
    status with the operations that wrote them. *)
Variable am_diff : Hist -> list string -> list string -> list Patch.
Variable status_values : versioned RuntimeStateDoc -> string -> list (repr * string).
(** The hashes of the schema seed, and the [uuid] crate: its parser and the identifiers
    it draws. *)
Variable canonical_schema_seed_change_hashes : list string.
Variable uuid_parse : string -> bool.

Definition host {A} (f : RoomHostEngine -> RoomHostEngine * result RoomHostError A) : HostM A := f.
Definition throw {A} (e : RoomHostError) : HostM A := fun s => (s, Err e).
Definition get_engine : HostM RoomHostEngine := fun s => (s, Ok s).
Definition lift {A} (r : result RoomHostError A) : HostM A := fun s => (s, r).

Definition with_doc (d : versioned NotebookDoc) (s : RoomHostEngine) : RoomHostEngine :=
  mkEngine d (state_doc s) (comms_doc s) (comments_doc s) (notebook_peer_states s)
    (runtime_peer_states s) (comms_peer_states s) (comments_peer_states s).
Definition with_state (d : versioned RuntimeStateDoc) (s : RoomHostEngine) : RoomHostEngine :=
  mkEngine (doc s) d (comms_doc s) (comments_doc s) (notebook_peer_states s)
    (runtime_peer_states s) (comms_peer_states s) (comments_peer_states s).
Definition with_comms (d : versioned (gmap string node)) (s : RoomHostEngine) : RoomHostEngine :=
  mkEngine (doc s) (state_doc s) d (comments_doc s) (notebook_peer_states s)
    (runtime_peer_states s) (comms_peer_states s) (comments_peer_states s).
Definition with_comments (d : versioned CommentsDoc) (s : RoomHostEngine) : RoomHostEngine :=
  mkEngine (doc s) (state_doc s) (comms_doc s) d (notebook_peer_states s)
    (runtime_peer_states s) (comms_peer_states s) (comments_peer_states s).
Definition with_peers (n r c k : gmap string SyncState) (s : RoomHostEngine) : RoomHostEngine :=
  mkEngine (doc s) (state_doc s) (comms_doc s) (comments_doc s) n r c k.
Definition set_notebook_peers (m : gmap string SyncState) (s : RoomHostEngine) : RoomHostEngine :=
  with_peers m (runtime_peer_states s) (comms_peer_states s) (comments_peer_states s) s.
Definition set_runtime_peers (m : gmap string SyncState) (s : RoomHostEngine) : RoomHostEngine :=
  with_peers (notebook_peer_states s) m (comms_peer_states s) (comments_peer_states s) s.
Definition set_comms_peers (m : gmap string SyncState) (s : RoomHostEngine) : RoomHostEngine :=
  with_peers (notebook_peer_states s) (runtime_peer_states s) m (comments_peer_states s) s.
Definition set_comments_peers (m : gmap string SyncState) (s : RoomHostEngine) : RoomHostEngine :=
  with_peers (notebook_peer_states s) (runtime_peer_states s) (comms_peer_states s) m s.

(** A local write of the runtime state or the notebook: what it left is committed. *)
Definition write_state {A} (wrap : RuntimeStateError -> RoomHostError) (f : DocM A) : HostM A := fun s =>
  let '(d, r) := f (body (state_doc s)) in
  (with_state (mkV d (am_commit (history (state_doc s)) (RuntimeDoc.root (body (state_doc s)))
                        (RuntimeDoc.root d))) s,
   match r with Ok a => Ok a | Err e => Err (wrap e) end).

Definition write_notebook {A} (wrap : AutomergeError -> RoomHostError) (f : NotebookM A) : HostM A := fun s =>
  let '(d, r) := f (body (doc s)) in
  (with_doc (mkV d (am_commit (history (doc s)) (body (doc s)) d)) s,
   match r with Ok a => Ok a | Err e => Err (wrap e) end).

(** [let _ = ...]: the error is dropped. *)
Definition ignore {A} (m : HostM A) : HostM () := fun s => ((m s).1, Ok ()).

(** ** Scopes and actors *)

Definition parse_connection_scope (scope : string) : result RoomHostError ConnectionScope :=
  match scope_from_str scope with Ok s => Ok s | Err e => Err (UnknownScope e) end.

Definition runtime_state_write_scope (s : ConnectionScope) : RuntimeStateWriteScope :=
  match s with Viewer => PViewer | Editor => PEditor | RuntimePeer => PRuntimePeer | Owner => POwner end.

(** [RuntimeStateWriteScope::allows_runtime_state_write]. *)
Definition write_scope_allows (s : RuntimeStateWriteScope) : bool :=
  match s with PRuntimePeer => true | _ => false end.

Definition allows_runtime_state_doc_write (s : ConnectionScope) : bool :=
  match s with RuntimePeer => true | _ => false end.
Definition allows_execution_request_submit (s : ConnectionScope) : bool :=
  match s with Owner => true | _ => false end.
Definition allows_comms_doc_write (s : ConnectionScope) : bool :=
  match s with Editor | Owner | RuntimePeer => true | Viewer => false end.
Definition allows_comments_doc_write (s : ConnectionScope) : bool :=
  match s with Editor | Owner => true | _ => false end.

Definition room_peer_sync_state (can_write : bool) : SyncState :=
  if can_write then state_new else state_new_read_only.

Definition hosted_comments_doc_id (notebook_id : string) : string := "comments:" +:+ notebook_id.
Definition hosted_comments_identity (notebook_id : string) : string * NotebookCommentRef :=
  (hosted_comments_doc_id notebook_id, HostedRoom notebook_id).

Definition check_actor (expected : Principal) (label : string) : result RoomHostError () :=
  match label_parse label with
  | Ok actor =>
      if decide (label_principal actor = principal_str expected) then Ok ()
      else Err (ActorNotAuthorized (label_principal actor) (principal_str expected))
  | Err e => Err (ActorLabelInvalid label e)
  end.

(** A loop of checks that returns at the first error. *)
Fixpoint each_ok {A} (check : A -> result RoomHostError ()) (l : list A) : result RoomHostError () :=
  match l with [] => Ok () | x :: l => let? _ := check x in each_ok check l end.

Definition expect_principal (principal : string) : result RoomHostError Principal :=
  match principal_new principal with Ok p => Ok p | Err e => Err (PrincipalInvalid e) end.

Definition validate_room_actor_labels (principal : string) (labels : list string) : result RoomHostError () :=
  let? expected := expect_principal principal in each_ok (check_actor expected) labels.

Definition SCHEMA_SEED_ACTOR : string := "nteract:notebook-schema:v5".

Definition is_canonical_schema_seed_change (c : ChangeActor) : bool :=
  bool_decide (actor_label c = SCHEMA_SEED_ACTOR) &&
  bool_decide (change_hash c ∈ canonical_schema_seed_change_hashes).

Definition validate_room_notebook_change_actors (principal : string) (changes : list ChangeActor)
    : result RoomHostError () :=
  let? expected := expect_principal principal in
  each_ok (fun c => if is_canonical_schema_seed_change c then Ok () else check_actor expected (actor_label c)) changes.

Definition editor_change_root_label (p : Patch) : string :=
  match path p with
  | PMap key :: _ => key
  | PSeq _ :: _ => "<root sequence>"
  | [] => match action p with PutMap key | DeleteMap key => key | OtherAction => "<document root>" end
  end.

Definition within_cells (p : Patch) : bool :=
  match path p with PMap key :: _ => bool_decide (key = "cells") | _ => false end.

(** The schema seed among the new changes counts as known before. *)
Definition effective_heads_before (heads_before : list string) (changes : list ChangeActor) : list string :=
  foldl (fun hs c => if is_canonical_schema_seed_change c && negb (bool_decide (change_hash c ∈ hs))
                     then hs ++ [change_hash c] else hs) heads_before changes.

Definition validate_editor_notebook_changes (preview : versioned NotebookDoc) (heads_before : list string)
    (changes : list ChangeActor) : result RoomHostError () :=
  each_ok (fun p => if within_cells p then Ok () else Err (EditorTouchedRoot (editor_change_root_label p)))
    (am_diff (history preview) (effective_heads_before heads_before changes) (heads (history preview))).

(** ** Messages to peers *)

(** [entry(peer).or_insert_with(..)]. *)
Definition entry (m : gmap string SyncState) (peer : string) (can_write : bool) : SyncState :=
  default (room_peer_sync_state can_write) (m !! peer).

(** The body the four [queue_..._sync_for_peer] share: the document's message for a peer,
    if there is one, after the state the peer had. *)
Definition message_for {T} `{!AmDoc T} (document label : string) (frame : byte) (v : versioned T)
    (peer : string) (st : SyncState) : SyncState * result RoomHostError (list RoomHostOutboundFrame) :=
  match generate_boundary label v st with
  | (st, Err e) => (st, Err (GenerateFailed document e))
  | (st, Ok None) => (st, Ok [])
  | (st, Ok (Some m)) => (st, Ok [mkOutbound peer frame (encode m)])
  end.

Definition AUTOMERGE_SYNC : byte := Byte.x00.
Definition REQUEST : byte := Byte.x01.
Definition RUNTIME_STATE_SYNC : byte := Byte.x05.
Definition COMMS_DOC_SYNC : byte := Byte.x09.
Definition COMMENTS_DOC_SYNC : byte := Byte.x0a.

Definition queue_notebook_sync_for_peer (peer : string) (can_write : bool) : HostM (list RoomHostOutboundFrame) := fun s =>
  let '(st, r) := message_for "notebook" "cloud-room-doc-sync-outbound" AUTOMERGE_SYNC (doc s) peer
    (entry (notebook_peer_states s) peer can_write) in
  (set_notebook_peers (<[peer := st]> (notebook_peer_states s)) s, r).

Definition queue_runtime_state_sync_for_peer (peer : string) (can_write : bool) : HostM (list RoomHostOutboundFrame) := fun s =>
  let '(st, r) := message_for "runtime state" "cloud-room-state-sync-outbound" RUNTIME_STATE_SYNC
    (runtime_tree (state_doc s)) peer (entry (runtime_peer_states s) peer can_write) in
  (set_runtime_peers (<[peer := st]> (runtime_peer_states s)) s, r).

Definition queue_comms_doc_sync_for_peer (peer : string) (can_write : bool) : HostM (list RoomHostOutboundFrame) := fun s =>
  let '(st, r) := message_for "comms doc" "cloud-room-comms-sync-outbound" COMMS_DOC_SYNC (comms_doc s) peer
    (entry (comms_peer_states s) peer can_write) in
  (set_comms_peers (<[peer := st]> (comms_peer_states s)) s, r).

Definition queue_comments_doc_sync_for_peer (peer : string) (can_write : bool) : HostM (list RoomHostOutboundFrame) := fun s =>
  let '(st, r) := message_for "comments doc" "cloud-room-comments-sync-outbound" COMMENTS_DOC_SYNC
    (mkV (ctree (body (comments_doc s))) (history (comments_doc s))) peer (entry (comments_peer_states s) peer can_write) in
  (set_comments_peers (<[peer := st]> (comments_peer_states s)) s, r).

(** The loop of the four [queue_..._for_other_peers], over the keys of a map in no
    particular order. *)
Fixpoint for_peers (send : string -> HostM (list RoomHostOutboundFrame)) (skip : string) (peers : list string)
    : HostM (list RoomHostOutboundFrame) :=
  match peers with
  | [] => mret []
  | peer :: peers =>
      if decide (peer = skip) then for_peers send skip peers
      else out ← send peer; rest ← for_peers send skip peers; mret (out ++ rest)
  end.

Definition queue_notebook_sync_for_other_peers (skip : string) : HostM (list RoomHostOutboundFrame) :=
  s ← get_engine;
  for_peers (fun peer => queue_notebook_sync_for_peer peer true) skip (map_to_list (notebook_peer_states s)).*1.
Definition queue_runtime_state_sync_for_other_peers (skip : string) : HostM (list RoomHostOutboundFrame) :=
  s ← get_engine;
  for_peers (fun peer => queue_runtime_state_sync_for_peer peer true) skip (map_to_list (runtime_peer_states s)).*1.
Definition queue_comms_doc_sync_for_other_peers (skip : string) : HostM (list RoomHostOutboundFrame) :=
  s ← get_engine;
  for_peers (fun peer => queue_comms_doc_sync_for_peer peer true) skip (map_to_list (comms_peer_states s)).*1.
Definition queue_comments_doc_sync_for_other_peers (skip : string) : HostM (list RoomHostOutboundFrame) :=
  s ← get_engine;
  for_peers (fun peer => queue_comments_doc_sync_for_peer peer true) skip (map_to_list (comments_peer_states s)).*1.

(** ** Receiving documents *)

(** The state of a peer, entered into the map when it is new. *)
Definition enter_notebook (peer : string) (can_write : bool) : HostM SyncState := fun s =>
  let st := entry (notebook_peer_states s) peer can_write in
  (set_notebook_peers (<[peer := st]> (notebook_peer_states s)) s, Ok st).
Definition enter_runtime (peer : string) (can_write : bool) : HostM SyncState := fun s =>
  let st := entry (runtime_peer_states s) peer can_write in
  (set_runtime_peers (<[peer := st]> (runtime_peer_states s)) s, Ok st).
Definition enter_comms (peer : string) (can_write : bool) : HostM SyncState := fun s =>
  let st := entry (comms_peer_states s) peer can_write in
  (set_comms_peers (<[peer := st]> (comms_peer_states s)) s, Ok st).
Definition enter_comments (peer : string) (can_write : bool) : HostM SyncState := fun s =>
  let st := entry (comments_peer_states s) peer can_write in
  (set_comments_peers (<[peer := st]> (comments_peer_states s)) s, Ok st).

Definition decode_for (document : string) (can_write : bool) (kind : string) (payload : bytes)
    : result RoomHostError Message :=
  match decode payload with
  | Err why => Err (DecodeSync document why)
  | Ok m => if has_changes m && negb can_write then Err (CannotWrite kind) else Ok m
  end.

(** The changes are applied to a copy and checked there. *)
Definition authorize_notebook (peer principal : string) (can_write can_write_all : bool) (m : Message) : HostM () :=
  st ← enter_notebook peer can_write;
  s ← get_engine;
  match notebook_receive_sync_message_recovering json_from_str "cloud-room-doc-auth-preview" m (doc s) st with
  | (_, _, Err e) => throw (AuthPreviewFailed "notebook" e)
  | (preview, _, Ok _) =>
      let heads_before := heads (history (doc s)) in
      let actors := extract_change_actor_hashes (history preview) heads_before in
      _ ← lift (validate_room_notebook_change_actors principal actors);
      if can_write_all then mret ()
      else lift (validate_editor_notebook_changes preview heads_before actors)
  end.

Definition apply_notebook (peer : string) (can_write : bool) (m : Message) : HostM () :=
  st ← enter_notebook peer can_write;
  host (fun s =>
    let '(d, st, r) := notebook_receive_sync_message_recovering json_from_str "cloud-room-doc-receive-sync" m (doc s) st in
    (with_doc d (set_notebook_peers (<[peer := st]> (notebook_peer_states s)) s),
     match r with Ok _ => Ok () | Err e => Err (ReceiveFailed "notebook" e) end)).

Definition receive_notebook_sync (peer principal : string) (can_write can_write_all : bool) (payload : bytes)
    : HostM RoomHostFrameResult :=
  m ← lift (decode_for "notebook" can_write "NotebookDoc" payload);
  _ ← (if has_changes m then authorize_notebook peer principal can_write can_write_all m else mret ());
  before ← get_engine;
  _ ← apply_notebook peer can_write m;
  after ← get_engine;
  let changed := heads_moved (history (doc before)) (history (doc after)) in
  mine ← queue_notebook_sync_for_peer peer can_write;
  others ← (if changed then queue_notebook_sync_for_other_peers peer else mret []);
  mret (mkResult None changed false changed false (mine ++ others)).

(** [execution_status_values]. *)
Definition execution_status_values (v : versioned RuntimeStateDoc) (id : string)
    : result RoomHostError (list (repr * string)) :=
  match RuntimeDoc.root (body v) !! "executions" with
  | None => Ok []
  | Some (NMap exs) =>
      match exs !! id with
      | None => Ok []
      | Some (NMap _) => Ok (status_values v id)
      | Some _ => Err ReadStatus
      end
  | Some _ => Err ReadStatus
  end.

(** [seq] first, none before any, then the id. *)
Definition managed_le (x y : string * ExecutionState) : Prop :=
  match es_seq x.2, es_seq y.2 with
  | Some a, Some b => a < b \/ (a = b /\ String.le x.1 y.1)
  | None, Some _ => True
  | Some _, None => False
  | None, None => String.le x.1 y.1
  end.

#[export] Instance managed_le_dec : RelDecision managed_le.
Proof. intros x y. unfold managed_le. destruct (es_seq x.2), (es_seq y.2); apply _. Defined.

Definition pending_execution (after : RuntimeStateDoc) (id : string) : option (string * ExecutionState) :=
  e ← read_executions after !! id;
  if decide (es_status e = "queued" \/ es_status e = "running") then Some (id, e) else None.

Fixpoint collect_queue (q : QueueState) (pending : list (string * ExecutionState)) : result RoomHostError QueueState :=
  match pending with
  | [] => Ok q
  | (id, e) :: pending =>
      if decide (es_status e = "running") then
        match qs_executing q with
        | Some _ => Err SeveralRunning
        | None => collect_queue (mkQueueState (Some (mkDocQueueEntry id)) (qs_queued q)) pending
        end
      else collect_queue (mkQueueState (qs_executing q) (qs_queued q ++ [mkDocQueueEntry id])) pending
  end.

Definition managed_queue_after_progress (before after : versioned RuntimeStateDoc) : result RoomHostError QueueState :=
  let before_queue := read_explicit_queue (body before) in
  if decide (before_queue = read_explicit_queue (body after)) then
    let active := queue_ids before_queue in
    let? _ := each_ok (fun id =>
        if decide (id ∈ active) then Ok ()
        else
          let? x := execution_status_values before id in
          let? y := execution_status_values after id in
          if decide (x = y) then Ok () else Err OutsideActiveQueue)
      (map_to_list (read_executions (body before))).*1 in
    collect_queue (mkQueueState None [])
      (merge_sort managed_le (omap (pending_execution (body after)) (remove_dups active)))
  else Err QueueNotOwned.

(** The validated preview; with [room_owned_queue], also the projection of the queue. *)
Definition authorize_runtime (peer principal : string) (scope : RuntimeStateWriteScope) (m : Message)
    (room_owned_queue : bool) : HostM (option (versioned RuntimeStateDoc * SyncState)) :=
  st ← enter_runtime peer (write_scope_allows scope);
  s ← get_engine;
  match runtime_receive_recovering "cloud-room-state-auth-preview" m
          (mkV (from_doc (RuntimeDoc.root (body (state_doc s)))) (history (state_doc s))) st with
  | (_, _, Err e) => throw (AuthPreviewFailed "runtime state" e)
  | (preview, preview_st, Ok _) =>
      let actors := extract_change_actors (history preview) (heads (history (state_doc s))) in
      _ ← lift (validate_room_actor_labels principal actors);
      _ ← lift (match validate_runtime_state_sync_scope
                  (runtime_state_policy_snapshot decode_project_trust extras_from_str (body (state_doc s)))
                  (runtime_state_policy_snapshot decode_project_trust extras_from_str (body preview)) scope with
                | Ok _ => Ok () | Err e => Err (PolicyRefused e) end);
      if room_owned_queue then
        queue ← lift (managed_queue_after_progress (state_doc s) preview);
        match set_queue (qs_executing queue) (qs_queued queue) (body preview) with
        | (_, Err e) => throw (StateWrite "project managed queue" e)
        | (d, Ok _) =>
            mret (Some (mkV d (am_commit (history preview) (RuntimeDoc.root (body preview)) (RuntimeDoc.root d)), preview_st))
        end
      else mret None
  end.

Definition apply_runtime (peer : string) (can_write : bool) (m : Message)
    (managed : option (versioned RuntimeStateDoc * SyncState)) : HostM () :=
  match managed with
  | Some (preview, st) => host (fun s =>
      (with_state preview (set_runtime_peers (<[peer := st]> (runtime_peer_states s)) s), Ok ()))
  | None =>
      st ← enter_runtime peer can_write;
      host (fun s =>
        let '(d, st, r) := runtime_receive_recovering "cloud-room-state-receive-sync" m (state_doc s) st in
        (with_state d (set_runtime_peers (<[peer := st]> (runtime_peer_states s)) s),
         match r with Ok _ => Ok () | Err e => Err (ReceiveFailed "runtime state" e) end))
  end.

Definition receive_runtime_state_sync_inner (peer principal : string) (scope : RuntimeStateWriteScope)
    (payload : bytes) (room_owned_queue : bool) : HostM RoomHostFrameResult :=
  let can_write := write_scope_allows scope in
  m ← lift (decode_for "runtime state" can_write "RuntimeStateDoc" payload);
  before ← get_engine;
  managed ← (if has_changes m then authorize_runtime peer principal scope m room_owned_queue else mret None);
  _ ← apply_runtime peer can_write m managed;
  after ← get_engine;
  let changed := heads_moved (history (state_doc before)) (history (state_doc after)) in
  mine ← queue_runtime_state_sync_for_peer peer can_write;
  others ← (if changed then queue_runtime_state_sync_for_other_peers peer else mret []);
  mret (mkResult None changed false false changed (mine ++ others)).

Definition receive_runtime_state_sync (peer principal : string) (scope : RuntimeStateWriteScope) (payload : bytes)
    : HostM RoomHostFrameResult := receive_runtime_state_sync_inner peer principal scope payload false.

Definition MANAGED_WORKSTATION : string := "celld-preview-python".

(** The attachment is the managed one, for this session. *)
Definition managed_session (session : string) (a : WorkstationAttachmentState) : bool :=
  bool_decide (ws_workstation_id a = MANAGED_WORKSTATION) &&
  bool_decide (ws_runtime_session_id a = Some session).

Definition receive_managed_runtime_state_sync (peer principal session : string) (payload : bytes)
    : HostM RoomHostFrameResult :=
  s ← get_engine;
  let current := match workstation_attachment (body (state_doc s)) with
    | Some a => managed_session session a && bool_decide (ws_status a ∈ ["connecting"; "ready"; "disconnected"])
    | None => false
    end in
  if bool_decide (peer = "managed-python:" +:+ session) && current then
    receive_runtime_state_sync_inner peer principal PRuntimePeer payload true
  else throw ReplacedSession.

Definition authorize_comms (peer principal : string) (can_write : bool) (m : Message) : HostM () :=
  st ← enter_comms peer can_write;
  s ← get_engine;
  match comms_receive_recovering "cloud-room-comms-auth-preview" m (comms_doc s) st with
  | (_, _, Err e) => throw (AuthPreviewFailed "comms" e)
  | (preview, _, Ok _) =>
      lift (validate_room_actor_labels principal
        (extract_change_actors (history preview) (heads (history (comms_doc s)))))
  end.

Definition apply_comms (peer : string) (can_write : bool) (m : Message) : HostM () :=
  st ← enter_comms peer can_write;
  host (fun s =>
    let '(d, st, r) := comms_receive_recovering "cloud-room-comms-receive-sync" m (comms_doc s) st in
    (with_comms d (set_comms_peers (<[peer := st]> (comms_peer_states s)) s),
     match r with Ok _ => Ok () | Err e => Err (ReceiveFailed "comms doc" e) end)).

Definition receive_comms_doc_sync (peer principal : string) (can_write : bool) (payload : bytes)
    : HostM RoomHostFrameResult :=
  m ← lift (decode_for "comms doc" can_write "CommsDoc" payload);
  _ ← (if has_changes m then authorize_comms peer principal can_write m else mret ());
  before ← get_engine;
  _ ← apply_comms peer can_write m;
  after ← get_engine;
  let changed := heads_moved (history (comms_doc before)) (history (comms_doc after)) in
  mine ← queue_comms_doc_sync_for_peer peer can_write;
  others ← (if changed then queue_comms_doc_sync_for_other_peers peer else mret []);
  mret (mkResult None changed false false false (mine ++ others)).

Definition expected_comments_identity : HostM (string * NotebookCommentRef) := fun s =>
  (s, match notebook_id (body (doc s)) with
      | Some id => Ok (hosted_comments_identity id)
      | None => Err MissingNotebookId
      end).

(** The message is applied to a copy, which replaces document and peer state together. *)
Definition receive_comments_doc_sync (peer principal : string) (can_write : bool) (payload : bytes)
    : HostM RoomHostFrameResult :=
  m ← lift (decode_for "comments doc" can_write "CommentsDoc" payload);
  identity ← expected_comments_identity;
  st ← enter_comments peer can_write;
  s ← get_engine;
  match comments_receive_repairing_recovering "cloud-room-comments-receive-sync" m identity.1 identity.2
          (comments_doc s) st with
  | (_, _, Err e) => throw (CommentsRefused e)
  | (next, next_st, Ok report) =>
      _ ← lift (if has_changes m then validate_room_actor_labels principal (incoming_actor_labels report) else Ok ());
      _ ← host (fun s => (with_comments next (set_comments_peers (<[peer := next_st]> (comments_peer_states s)) s), Ok ()));
      let changed := Comments.changed report in
      mine ← queue_comments_doc_sync_for_peer peer can_write;
      others ← (if changed then queue_comments_doc_sync_for_other_peers peer else mret []);
      mret (mkResult None changed false false false (mine ++ others))
  end.

(** ** Execution requests *)

Definition contains_notebook_heads (hs : list string) : HostM bool := fun s =>
  if (1024 <? length hs)%nat then (s, Err TooManyHeads)
  else match mapM parse_change_hash hs with
  | None => (s, Err InvalidHead)
  | Some hashes => (s, Ok (forallb (get_change_by_hash (history (doc s))) hashes))
  end.

Definition require_request_heads (request : json) : HostM () :=
  hs ← lift (match json_get request "required_heads" with
             | None => Ok []
             | Some v => match de_list de_str v with Some hs => Ok hs | None => Err InvalidHeads end
             end);
  known ← contains_notebook_heads hs;
  if (known : bool) then mret () else throw HeadsNotSynced.

(** [max(seq) + 1], in 64 bits. *)
Definition next_seq (d : RuntimeStateDoc) : Z :=
  match omap es_seq (map_to_list (read_executions d)).*2 with
  | [] => 0
  | seqs => (foldr Z.max 0 seqs + 1) mod 2 ^ 64
  end.

Definition uses_room_owned_queue (d : RuntimeStateDoc) : bool :=
  match workstation_attachment d with
  | Some a => bool_decide (ws_workstation_id a = MANAGED_WORKSTATION)
  | None => false
  end.

(** The entries that are not listed yet, in order. *)
Fixpoint push_unseen (seen : list string) (queued entries : list DocQueueEntry) : list DocQueueEntry :=
  match entries with
  | [] => queued
  | e :: entries =>
      if decide (dqe_execution_id e ∈ seen) then push_unseen seen queued entries
      else push_unseen (dqe_execution_id e :: seen) (queued ++ [e]) entries
  end.

(** The queue new work is appended to. *)
Definition accepted_queue (d : RuntimeStateDoc) : QueueState :=
  if uses_room_owned_queue d then read_explicit_queue d else read_queue d.

Definition append_queued_entries (entries : list DocQueueEntry) : HostM () := fun s =>
  match entries with
  | [] => (s, Ok ())
  | _ =>
      let q := accepted_queue (body (state_doc s)) in
      write_state PublishQueue
        (set_queue (qs_executing q) (push_unseen (queue_ids q) (qs_queued q) entries)) s
  end.

Definition active_status (status : string) : bool := bool_decide (status = "queued" \/ status = "running").

(** The pointer of the cell, when its execution is still queued or running. *)
Definition active_execution (cell : string) (s : RoomHostEngine) : option string :=
  id ← get_execution_id cell (body (doc s));
  e ← get_execution id (body (state_doc s));
  if active_status (es_status e) then Some id else None.

(** The messages after an accepted request. *)
Definition broadcast_accepted (peer : string) (response : RoomExecutionResponse) : HostM RoomHostFrameResult :=
  a ← queue_runtime_state_sync_for_peer peer true;
  b ← queue_runtime_state_sync_for_other_peers peer;
  c ← queue_notebook_sync_for_peer peer true;
  d ← queue_notebook_sync_for_other_peers peer;
  mret (mkResult (Some response) true false true true (a ++ b ++ c ++ d)).

(** The writes of an accepted [ExecuteCell], each undone when a later one fails. *)
Definition submit_cell (submitter cell_id source execution_id : string) (seq : Z) : HostM bool :=
  created ← write_state CreateExecution
    (create_execution_with_source_provenance execution_id source seq (Some submitter) (Some cell_id));
  if negb created then mret false
  else
    s ← get_engine;
    let previous := get_execution_id cell_id (body (doc s)) in
    let undo_execution := ignore (write_state CreateExecution (remove_executions [execution_id])) in
    host (fun s =>
      match write_notebook StampFailed (set_execution_id cell_id (Some execution_id)) s with
      | (s, Err e) => (_ ← undo_execution; throw e) s
      | (s, Ok _) =>
          match append_queued_entries [mkDocQueueEntry execution_id] s with
          | (s, Err e) =>
              (_ ← undo_execution;
               _ ← ignore (write_notebook StampFailed (set_execution_id cell_id previous));
               throw e) s
          | (s, Ok _) => (s, Ok true)
          end
      end).

Definition handle_execute_cell (rng : nat -> string) (request : json) (peer submitter : string) : HostM RoomHostFrameResult :=
  match json_get request "cell_id" ≫= json_str with
  | None => throw MissingCellId
  | Some cell_id =>
      s ← get_engine;
      match get_cell json_from_str cell_id (body (doc s)) with
      | None => throw (CellNotFound cell_id)
      | Some cell =>
          if negb (bool_decide (cell_type cell = "code")) then throw (NotCode cell_id (cell_type cell))
          else
            let requested := json_get request "execution_id" ≫= json_str in
            _ ← lift (match requested with
                      | Some id => if uuid_parse id then Ok () else Err (InvalidUuid id)
                      | None => Ok ()
                      end);
            match active_execution cell_id s with
            | Some active_id =>
                if bool_decide (is_Some requested) then throw (AlreadyActive active_id)
                else mret (mkResult (Some (CellQueued (mkQueuedCell cell_id active_id))) false false false false [])
            | None =>
                let execution_id := default (rng 0%nat) requested in
                created ← submit_cell submitter cell_id (source cell) execution_id (next_seq (body (state_doc s)));
                if (created : bool) then broadcast_accepted peer (CellQueued (mkQueuedCell cell_id execution_id))
                else mret empty_result
            end
      end
  end.

(** [parse_requested_cell_execution_ids]. *)
Definition parse_requested_cell_execution_ids (request : json) : result RoomHostError (option (gmap string string)) :=
  match json_get request "cell_execution_ids" with
  | None | Some JNull => Ok None
  | Some (JObject m) =>
      if decide (map_Forall (fun _ v => is_Some (json_str v)) m) then Ok (Some (omap json_str m))
      else Err DecodeExecutionIds
  | Some _ => Err DecodeExecutionIds
  end.

Fixpoint check_execution_ids (existing supplied : gset string) (ids : list string) : result RoomHostError (gset string) :=
  match ids with
  | [] => Ok supplied
  | id :: ids =>
      if negb (uuid_parse id) then Err (InvalidUuid id)
      else if decide (id ∈ supplied) then Err (DuplicateExecutionId id)
      else if decide (id ∈ existing) then Err (ExecutionExists id)
      else check_execution_ids existing ({[id]} ∪ supplied) ids
  end.

(** The identifiers taken after the request's own are validated. *)
Definition validate_requested_execution_ids (requested : option (gmap string string)) (existing : gset string)
    : result RoomHostError (gset string) :=
  match requested with
  | None => Ok existing
  | Some ids => let? supplied := check_execution_ids existing ∅ (map_to_list ids).*2 in Ok (existing ∪ supplied)
  end.

(** The loop of [allocate_hosted_execution_id], from draw [n] on: one of [1 + |taken|]
    different draws is not taken. *)
Definition allocate_hosted_execution_id (rng : nat -> string) (n : nat) (taken : gset string) : option (string * nat) :=
  p ← list_find (fun i => rng i ∉ taken) (seq n (S (size taken)));
  Some (rng p.2, S p.2).

Record run_entry := mkRunEntry {
  re_execution_id : string; re_cell_id : string; re_source : string; re_seq : Z; re_previous : option string;
}.

Fixpoint run_entries (rng : nat -> string) (d : NotebookDoc) (requested : option (gmap string string))
    (taken : gset string) (n : nat) (seq : Z) (cells : list CellSnapshot) : option (list run_entry) :=
  match cells with
  | [] => Some []
  | cell :: cells =>
      let entry id := mkRunEntry id (cell_id cell) (source cell) (seq mod 2 ^ 64) (get_execution_id (cell_id cell) d) in
      match ids ← requested; ids !! cell_id cell with
      | Some id => rest ← run_entries rng d requested taken n (seq + 1) cells; Some (entry id :: rest)
      | None =>
          p ← allocate_hosted_execution_id rng n taken;
          rest ← run_entries rng d requested ({[p.1]} ∪ taken) p.2 (seq + 1) cells;
          Some (entry p.1 :: rest)
      end
  end.

Definition undo_executions (ids : list string) : HostM () := ignore (write_state CreateExecution (remove_executions ids)).

Fixpoint create_entries (submitter : string) (created : list string) (entries : list run_entry) : HostM (list string) :=
  match entries with
  | [] => mret created
  | e :: entries =>
      fresh ← write_state CreateExecution (create_execution_with_source_provenance (re_execution_id e)
        (re_source e) (re_seq e) (Some submitter) (Some (re_cell_id e)));
      if (fresh : bool) then create_entries submitter (created ++ [re_execution_id e]) entries
      else _ ← undo_executions created; throw (ExecutionExists (re_execution_id e))
  end.

(** [restore_cell_execution_pointers]: the last one stamped is restored first. *)
Definition restore_cell_execution_pointers (pointers : list (string * option string)) : HostM () := fun s =>
  (foldr (fun p s => (write_notebook StampFailed (set_execution_id p.1 p.2) s).1) s pointers, Ok ()).

Fixpoint stamp_entries (created : list string) (stamped : list (string * option string)) (entries : list run_entry)
    : HostM (list (string * option string)) :=
  match entries with
  | [] => mret stamped
  | e :: entries => host (fun s =>
      match write_notebook StampFailed (set_execution_id (re_cell_id e) (Some (re_execution_id e))) s with
      | (s, Err err) => (_ ← undo_executions created; _ ← restore_cell_execution_pointers stamped; throw err) s
      | (s, Ok _) => stamp_entries created (stamped ++ [(re_cell_id e, re_previous e)]) entries s
      end)
  end.

Definition submit_entries (submitter : string) (entries : list run_entry) : HostM () :=
  created ← create_entries submitter [] entries;
  stamped ← stamp_entries created [] entries;
  host (fun s =>
    match append_queued_entries ((fun e => mkDocQueueEntry (re_execution_id e)) <$> entries) s with
    | (s, Err e) => (_ ← undo_executions created; _ ← restore_cell_execution_pointers stamped; throw e) s
    | (s, Ok _) => (s, Ok ())
    end).

Definition existing_execution_ids (d : RuntimeStateDoc) : gset string := dom (read_executions d).

Definition handle_run_all_cells (rng : nat -> string) (request : json) (peer submitter : string) : HostM RoomHostFrameResult :=
  requested ← lift (parse_requested_cell_execution_ids request);
  s ← get_engine;
  let code_cells := filter (fun c => cell_type c = "code") (get_cells json_from_str (body (doc s))) in
  taken ← lift (validate_requested_execution_ids requested (existing_execution_ids (body (state_doc s))));
  match code_cells with
  | [] => mret (mkResult (Some (AllCellsQueued [])) false false false false [])
  | _ =>
      match run_entries rng (body (doc s)) requested taken 0 (next_seq (body (state_doc s))) code_cells with
      | None => throw Diverges
      | Some entries =>
          _ ← submit_entries submitter entries;
          broadcast_accepted peer
            (AllCellsQueued ((fun e => mkQueuedCell (re_cell_id e) (re_execution_id e)) <$> entries))
      end
  end.

Definition receive_request (rng : nat -> string) (peer submitter : string) (can_submit : bool) (payload : bytes)
    : HostM RoomHostFrameResult :=
  if negb can_submit then throw CannotSubmit
  else
    request ← lift (match json_from_slice payload with Ok v => Ok v | Err why => Err (DecodeRequest why) end);
    match json_get request "action" ≫= json_str with
    | Some action =>
        if decide (action = "execute_cell" \/ action = "execute_cell_guarded") then
          _ ← require_request_heads request; handle_execute_cell rng request peer submitter
        else if decide (action = "run_all_cells" \/ action = "run_all_cells_guarded") then
          _ ← require_request_heads request; handle_run_all_cells rng request peer submitter
        else mret empty_result
    | None => mret empty_result
    end.

(** ** Frames *)

Definition receive_peer_frame (rng : nat -> string) (peer principal submitter connection_scope : string)
    (can_write_all_notebook_changes : bool) (frame : bytes) : HostM RoomHostFrameResult :=
  match frame with
  | [] => throw EmptyFrame
  | frame_type :: payload =>
      scope ← lift (parse_connection_scope connection_scope);
      if decide (frame_type = AUTOMERGE_SYNC) then
        receive_notebook_sync peer principal (allows_notebook_write scope) can_write_all_notebook_changes payload
      else if decide (frame_type = RUNTIME_STATE_SYNC) then
        receive_runtime_state_sync peer principal (runtime_state_write_scope scope) payload
      else if decide (frame_type = COMMS_DOC_SYNC) then
        receive_comms_doc_sync peer principal (allows_comms_doc_write scope) payload
      else if decide (frame_type = COMMENTS_DOC_SYNC) then
        receive_comments_doc_sync peer principal (allows_comments_doc_write scope) payload
      else if decide (frame_type = REQUEST) then
        receive_request rng peer submitter (allows_execution_request_submit scope) payload
      else mret empty_result
  end.

Definition sync_peer (peer connection_scope : string) : HostM RoomHostFrameResult :=
  scope ← lift (parse_connection_scope connection_scope);
  a ← queue_notebook_sync_for_peer peer (allows_notebook_write scope);
  b ← queue_runtime_state_sync_for_peer peer (allows_runtime_state_doc_write scope);
  c ← queue_comms_doc_sync_for_peer peer (allows_comms_doc_write scope);
  d ← queue_comments_doc_sync_for_peer peer (allows_comments_doc_write scope);
  mret (mkResult None false false false false (a ++ b ++ c ++ d)).

Definition remove_peer (peer : string) (s : RoomHostEngine) : RoomHostEngine :=
  with_peers (delete peer (notebook_peer_states s)) (delete peer (runtime_peer_states s))
    (delete peer (comms_peer_states s)) (delete peer (comments_peer_states s)) s.

(** ** The runtime goes away *)

Definition lifecycle_is_live (l : RuntimeLifecycle) : bool :=
  match l with NotStarted | LcError | Shutdown => false | _ => true end.

Definition current_lifecycle (d : RuntimeStateDoc) : RuntimeLifecycle := kd_lifecycle (read_kernel_state d).

Definition with_ws_status (status : string) (message : option string) (a : WorkstationAttachmentState)
    : WorkstationAttachmentState :=
  mkWorkstation (ws_workstation_id a) (ws_display_name a) (ws_provider a) (ws_default_environment_label a)
    (ws_environment_policy a) status message (ws_cpu_count a) (ws_memory_bytes a) (ws_accelerators a)
    (ws_working_directory a) (ws_updated_at a) (ws_runtime_session_id a).

Definition runtime_peer_gone_workstation_attachment (current : option WorkstationAttachmentState) (reason : string)
    : WorkstationAttachmentState :=
  with_ws_status "disconnected" (Some ("compute disconnected: " +:+ reason))
    (default (mkWorkstation "runtime-peer" "Attached workstation" "runtime_peer" "Current Python" "runtime_peer"
      "ready" None None None None None None None) current).

Definition runtime_idle_timeout_workstation_attachment (current : option WorkstationAttachmentState) (reason : string)
    : option WorkstationAttachmentState := with_ws_status "idle" (Some reason) <$> current.

(** The end of the repairs: what changed goes to every peer. *)
Definition finish_repair (before : Hist) : HostM RoomHostFrameResult :=
  s ← get_engine;
  let changed := heads_moved before (history (state_doc s)) in
  out ← (if changed then queue_runtime_state_sync_for_other_peers "" else mret []);
  mret (mkResult None changed false false changed out).

Definition stale_result : RoomHostFrameResult := mkResult None false true false false [].

(** In-flight executions are resolved and the queue is emptied. *)
Definition abort_and_clear (what : string) : HostM () :=
  _ ← write_state (StateWrite what) abort_inflight_executions;
  write_state (StateWrite what) (set_queue None []).

Definition reconcile_runtime_peer_gone (reason : string) : HostM RoomHostFrameResult :=
  before ← get_engine;
  let heads_before := history (state_doc before) in
  _ ← abort_and_clear "reconcile";
  s ← get_engine;
  _ ← (if lifecycle_is_live (current_lifecycle (body (state_doc s))) then
         write_state (StateWrite "reconcile lifecycle")
           (set_lifecycle_with_error_details LcError None (Some ("runtime peer disconnected: " +:+ reason)))
       else mret ());
  s ← get_engine;
  let current := workstation_attachment (body (state_doc s)) in
  let settled := match current with Some a => bool_decide (ws_status a = "idle" \/ ws_status a = "error") | None => false end in
  _ ← (if negb settled && (bool_decide (is_Some current) || heads_moved heads_before (history (state_doc s))) then
         write_state (StateWrite "reconcile workstation attachment")
           (RuntimeComms.set_workstation_attachment (Some (runtime_peer_gone_workstation_attachment current reason)))
       else mret ());
  finish_repair heads_before.

Definition reconcile_runtime_stopped (session reason : string) : HostM RoomHostFrameResult :=
  before ← get_engine;
  match workstation_attachment (body (state_doc before)) with
  | None => mret stale_result
  | Some attachment =>
      if negb (bool_decide (ws_runtime_session_id attachment = Some session)) then mret stale_result
      else
        _ ← abort_and_clear "stop runtime";
        _ ← write_state (StateWrite "stop runtime lifecycle") (set_lifecycle_with_error_details Shutdown None None);
        _ ← write_state (StateWrite "stop runtime identity") (set_runtime_agent_id "");
        _ ← write_state (StateWrite "stop runtime attachment")
              (RuntimeComms.set_workstation_attachment (Some (with_ws_status "idle" (Some reason) attachment)));
        finish_repair (history (state_doc before))
  end.

Definition cancel_unstarted_executions : HostM RoomHostFrameResult :=
  before ← get_engine;
  _ ← abort_and_clear "cancel";
  finish_repair (history (state_doc before)).

Definition runtime_execution_activity (d : RuntimeStateDoc) : RuntimeExecutionActivity :=
  if uses_room_owned_queue d then
    let q := read_explicit_queue d in
    mkActivity (bool_decide (is_Some (qs_executing q))) (length (qs_queued q))
  else
    let q := read_queue d in
    mkActivity (bool_decide (is_Some (qs_executing q)) ||
        existsb (fun e => bool_decide (es_status e = "running")) (map_to_list (read_executions d)).*2)
      (length (qs_queued q)).

Definition runtime_queue_depth (d : RuntimeStateDoc) : nat := queue_depth (runtime_execution_activity d).

Definition reconcile_runtime_idle_timeout (reason : string) : HostM RoomHostFrameResult :=
  before ← get_engine;
  let activity := runtime_execution_activity (body (state_doc before)) in
  if executing activity || (0 <? queue_depth activity)%nat then mret empty_result
  else
    _ ← write_state (StateWrite "reconcile idle queue") (set_queue None []);
    s ← get_engine;
    _ ← (if lifecycle_is_live (current_lifecycle (body (state_doc s))) then
           write_state (StateWrite "reconcile idle lifecycle") (set_lifecycle Shutdown)
         else mret ());
    s ← get_engine;
    _ ← (match runtime_idle_timeout_workstation_attachment (workstation_attachment (body (state_doc s))) reason with
         | Some a => write_state (StateWrite "reconcile idle workstation attachment") (RuntimeComms.set_workstation_attachment (Some a))
         | None => mret ()
         end);
    finish_repair (history (state_doc before)).

Definition workstation_attachment_publish_is_stale (current incoming : option WorkstationAttachmentState) : bool :=
  match current, incoming with
  | Some c, Some i =>
      match ws_runtime_session_id c, ws_runtime_session_id i with
      | Some cs, Some is_ =>
          if decide (cs = is_) then false
          else match ws_updated_at c, ws_updated_at i with
          | Some cu, Some iu => bool_decide (str_lt iu cu)
          | _, _ => false
          end
      | _, _ => false
      end
  | _, _ => false
  end.

Definition runtime_peer_attachment_is_ready (a : WorkstationAttachmentState) : bool :=
  bool_decide (ws_provider a = "runtime_peer") && bool_decide (ws_status a = "ready").

Definition clear_stale_runtime_peer_gone_error : HostM () :=
  s ← get_engine;
  let kernel := read_kernel_state (body (state_doc s)) in
  let stale := bool_decide (kd_lifecycle kernel = LcError) &&
    match kd_error_details kernel with Some d => String.prefix "runtime peer disconnected:" d | None => false end in
  if negb stale then mret ()
  else
    _ ← write_state (StateWrite "clear runtime peer gone lifecycle") (set_lifecycle_with_error_details NotStarted None None);
    write_state (StateWrite "clear runtime peer gone agent id") (set_runtime_agent_id "").

Definition publish_workstation_attachment (attachment : option WorkstationAttachmentState) : HostM RoomHostFrameResult :=
  before ← get_engine;
  if workstation_attachment_publish_is_stale (workstation_attachment (body (state_doc before))) attachment
  then mret stale_result
  else
    _ ← (if match attachment with Some a => runtime_peer_attachment_is_ready a | None => false end
         then clear_stale_runtime_peer_gone_error else mret ());
    _ ← write_state (StateWrite "set workstation attachment") (RuntimeComms.set_workstation_attachment attachment);
    finish_repair (history (state_doc before)).

(** ** Packages of the managed runtime *)

Definition cloud_package_manifest (d : NotebookDoc) : json := default JNull (get_pyodide_manifest d).

Definition set_cloud_package_state (session : string) (value : json) : HostM RoomHostFrameResult :=
  s ← get_engine;
  if match workstation_attachment (body (state_doc s)) with Some a => managed_session session a | None => false end then
    _ ← write_state (StateWrite "package state") (set_env_progress "pyodide" value);
    out ← queue_runtime_state_sync_for_other_peers "";
    mret (mkResult None true false false true out)
  else throw ReplacedSession.

Definition compare_set_cloud_package_manifest (expected next : json) : HostM RoomHostFrameResult :=
  s ← get_engine;
  if decide (cloud_package_manifest (body (doc s)) = expected) then
    _ ← write_notebook ManifestWrite (set_pyodide_manifest next);
    out ← queue_notebook_sync_for_other_peers "";
    mret (mkResult None true false true false out)
  else throw PackagesChanged.

End Host.

(** Run the steps of an operation that do not depend on their outcome. *)
Ltac run_host :=
  cbv beta iota zeta delta [mbind HostM_bind mret HostM_ret get_engine lift throw host
    enter_notebook enter_runtime enter_comms enter_comments];
  cbn [doc state_doc comms_doc comments_doc notebook_peer_states runtime_peer_states comms_peer_states
    comments_peer_states set_notebook_peers set_runtime_peers set_comms_peers set_comments_peers with_peers
    with_doc with_state with_comms with_comments fst snd].

(** ** What a step leaves alone *)

Section Keeps.
Context `{AM : AmLib}.

(** A view of the engine that an operation does not change, whatever its outcome. *)
Definition keeps {X A} (view : RoomHostEngine -> X) (m : HostM A) : Prop := forall s, view (m s).1 = view s.

Lemma keeps_ret {X A} (view : RoomHostEngine -> X) (a : A) : keeps view (mret a).
Proof. done. Qed.

Lemma keeps_bind {X A B} (view : RoomHostEngine -> X) (m : HostM A) (f : A -> HostM B) :
  keeps view m -> (forall a, keeps view (f a)) -> keeps view (m ≫= f).
Proof.
  intros Hm Hf s. unfold mbind, HostM_bind. specialize (Hm s).
  destruct (m s) as [s1 [a|e]]; cbn [fst] in *; [by rewrite Hf|done].
Qed.

(** What a [?] chain returned, step by step. *)
Lemma bind_inv {A B} (m : HostM A) (f : A -> HostM B) s :
  (exists s1 e, m s = (s1, Err e) /\ (m ≫= f) s = (s1, Err e)) \/
  (exists s1 a, m s = (s1, Ok a) /\ (m ≫= f) s = f a s1).
Proof.
  unfold mbind, HostM_bind. destruct (m s) as [s1 [a|e]]; [right|left]; by eexists _, _.
Qed.

Lemma bind_ok {A B} (m : HostM A) (f : A -> HostM B) s s1 a : m s = (s1, Ok a) -> (m ≫= f) s = f a s1.
Proof. unfold mbind, HostM_bind. by intros ->. Qed.

Lemma bind_err {A B} (m : HostM A) (f : A -> HostM B) s s1 e : m s = (s1, Err e) -> (m ≫= f) s = (s1, Err e).
Proof. unfold mbind, HostM_bind. by intros ->. Qed.

Definition docs (s : RoomHostEngine) := (doc s, state_doc s, comms_doc s, comments_doc s).

End Keeps.

(** Sending changes no document and fails only when a message cannot be generated. *)
Definition generate_failed (e : RoomHostError) : Prop := exists document x, e = GenerateFailed document x.

Definition sends `{AM : AmLib} {A} (m : HostM A) : Prop :=
  forall s, docs (m s).1 = docs s /\ match (m s).2 with Ok _ => True | Err e => generate_failed e end.

Section Sends.
Context `{AM : AmLib, AD : !AmDoc (gmap string node), AC : !AmDoc comments_tree}.

Lemma sends_ret {A} (a : A) : sends (mret a).
Proof. done. Qed.

Lemma sends_get : sends get_engine.
Proof. done. Qed.

Lemma sends_bind {A B} (m : HostM A) (f : A -> HostM B) : sends m -> (forall a, sends (f a)) -> sends (m ≫= f).
Proof.
  intros Hm Hf s. unfold mbind, HostM_bind. specialize (Hm s) as [H1 H2].
  destruct (m s) as [s1 [a|e]]; cbn [fst snd] in *; [|done]. destruct (Hf a s1) as [H3 H4]. by rewrite H3.
Qed.

Lemma sends_if {A} (b : bool) (m n : HostM A) : sends m -> sends n -> sends (if b then m else n).
Proof. by destruct b. Qed.

Lemma for_peers_sends send skip peers : (forall p, sends (send p)) -> sends (for_peers send skip peers).
Proof.
  intros Hs. induction peers as [|p peers IH]; cbn [for_peers]; [apply sends_ret|].
  case_decide; [done|]. apply sends_bind; [apply Hs|]. intros out. apply sends_bind; [done|].
  intros rest. apply sends_ret.
Qed.

Lemma message_for_fails {T} `{!AmDoc T} document label frame (v : versioned T) peer st :
  match (message_for document label frame v peer st).2 with Ok _ => True | Err e => generate_failed e end.
Proof.
  unfold message_for. destruct (generate_boundary label v st) as [st' [[m|]|e]]; [done..|by eexists _, _].
Qed.

Ltac sends_message := match goal with |- context [message_for ?d ?l ?f ?v ?p ?st] =>
    pose proof (message_for_fails d l f v p st) as H; destruct (message_for d l f v p st) as [st' r]; by split end.

Lemma queue_notebook_sends p w : sends (queue_notebook_sync_for_peer p w).
Proof. intros s. unfold queue_notebook_sync_for_peer. sends_message. Qed.
Lemma queue_runtime_sends p w : sends (queue_runtime_state_sync_for_peer p w).
Proof. intros s. unfold queue_runtime_state_sync_for_peer. sends_message. Qed.
Lemma queue_comms_sends p w : sends (queue_comms_doc_sync_for_peer p w).
Proof. intros s. unfold queue_comms_doc_sync_for_peer. sends_message. Qed.
Lemma queue_comments_sends p w : sends (queue_comments_doc_sync_for_peer p w).
Proof. intros s. unfold queue_comments_doc_sync_for_peer. sends_message. Qed.

Lemma queue_notebook_others_sends p : sends (queue_notebook_sync_for_other_peers p).
Proof. intros s. apply for_peers_sends. intros q. apply queue_notebook_sends. Qed.
Lemma queue_runtime_others_sends p : sends (queue_runtime_state_sync_for_other_peers p).
Proof. intros s. apply for_peers_sends. intros q. apply queue_runtime_sends. Qed.
Lemma queue_comms_others_sends p : sends (queue_comms_doc_sync_for_other_peers p).
Proof. intros s. apply for_peers_sends. intros q. apply queue_comms_sends. Qed.
Lemma queue_comments_others_sends p : sends (queue_comments_doc_sync_for_other_peers p).
Proof. intros s. apply for_peers_sends. intros q. apply queue_comments_sends. Qed.

(** An operation followed by sending. *)
Lemma then_sends {A} (m : HostM ()) (k : HostM A) s :
  sends k -> docs ((m ≫= fun _ => k) s).1 = docs (m s).1 /\
    forall e, ((m ≫= fun _ => k) s).2 = Err e -> (m s).2 = Err e \/ generate_failed e.
Proof.
  intros Hk. unfold mbind, HostM_bind. destruct (m s) as [s1 [[]|e]]; cbn [fst snd]; [|naive_solver].
  destruct (Hk s1) as [H1 H2]. split; [done|]. intros e He. right. by rewrite He in H2.
Qed.

End Sends.

(** Name what sending left after the operation [m]. *)
Ltac after_sends m s2 r H1 H2 :=
  match goal with |- context [(m ≫= ?t) ?s] =>
    destruct (then_sends m (t tt) s) as [H1 H2]; [cbv beta; eauto 10 with nteract|];
    cbv beta in *; destruct ((m ≫= t) s) as [s2 r]; cbn [fst snd] in * end.

#[export] Hint Resolve sends_ret sends_get sends_bind sends_if queue_notebook_sends queue_runtime_sends queue_comms_sends
  queue_comments_sends queue_notebook_others_sends queue_runtime_others_sends queue_comms_others_sends
  queue_comments_others_sends : nteract.

(** ** Frames *)

Section Frames.
Context `{AM : AmLib, AD : !AmDoc (gmap string node), AC : !AmDoc comments_tree}.
Context `{AL : !AmDocLaws (T := gmap string node), ACL : !AmDocLaws (T := comments_tree)}.
Context {PT : Type} `{!EqDecision PT}.
Variable json_from_str : string -> option json.
Variable json_from_slice : bytes -> result string json.
Variable decode_project_trust : option json -> PT.
Variable extras_from_str : string -> option ProjectFileExtras.
Variable am_diff : Hist -> list string -> list string -> list Patch.
Variable status_values : versioned RuntimeStateDoc -> string -> list (repr * string).
Variable seed_hashes : list string.
Variable uuid_parse : string -> bool.

Lemma each_ok_Ok {A} (check : A -> result RoomHostError ()) l :
  each_ok check l = Ok () <-> Forall (fun x => check x = Ok ()) l.
Proof.
  induction l as [|x l IH]; cbn [each_ok]; [done|]. rewrite Forall_cons, <- IH.
  destruct (check x) as [[]|e]; naive_solver.
Qed.

(** The label names the authenticated principal. *)
Definition authored_by (principal label : string) : Prop :=
  exists l, label_parse label = Ok l /\ label_principal l = principal.

Lemma check_actor_Ok principal p label :
  principal_new principal = Ok p -> check_actor p label = Ok () -> authored_by principal label.
Proof.
  intros [<- _]%principal_new_ok. unfold check_actor. destruct (label_parse label) as [l|e] eqn:El; [|done].
  case_decide; [|done]. intros _. by exists l.
Qed.

Lemma actor_labels_Ok principal labels :
  validate_room_actor_labels principal labels = Ok () -> Forall (authored_by principal) labels.
Proof.
  unfold validate_room_actor_labels, expect_principal. destruct (principal_new principal) as [p|e] eqn:Ep; [|done].
  rewrite each_ok_Ok. intros H. eapply Forall_impl; [exact H|]. intros l. by apply check_actor_Ok.
Qed.

Lemma change_actors_Ok principal h before :
  validate_room_actor_labels principal (extract_change_actors h before) = Ok () ->
  Forall (fun c => authored_by principal (actor_label c)) (get_changes h before).
Proof.
  intros H%actor_labels_Ok. apply Forall_forall. intros c Hc. rewrite Forall_forall in H. apply H.
  unfold extract_change_actors. rewrite merge_sort_Permutation, elem_of_remove_dups. apply list_elem_of_fmap. eauto.
Qed.

(** What a peer may do to the notebook: changes of its own, apart from the schema seed,
    and under [cells] unless it may write everything. *)
Record notebook_authorized (principal : string) (can_write_all : bool) (v v' : versioned NotebookDoc) : Prop := {
  na_actors : Forall (fun c => is_canonical_schema_seed_change seed_hashes c = true \/
    authored_by principal (actor_label c)) (get_changes (history v') (heads (history v)));
  na_cells : can_write_all = true \/ Forall (fun p => within_cells p = true)
    (am_diff (history v') (effective_heads_before seed_hashes (heads (history v))
      (get_changes (history v') (heads (history v)))) (heads (history v')));
}.

Lemma notebook_checks_Ok principal all v preview :
  let changes := extract_change_actor_hashes (history preview) (heads (history v)) in
  validate_room_notebook_change_actors seed_hashes principal changes = Ok () ->
  all = true \/ validate_editor_notebook_changes am_diff seed_hashes preview (heads (history v)) changes = Ok () ->
  notebook_authorized principal all v preview.
Proof.
  intros changes H1 H2. split.
  - unfold validate_room_notebook_change_actors, expect_principal in H1.
    destruct (principal_new principal) as [p|e] eqn:Ep; [|done]. rewrite each_ok_Ok in H1.
    eapply Forall_impl; [exact H1|]. intros c. cbn beta. destruct (is_canonical_schema_seed_change seed_hashes c); [by left|].
    intros Hc. right. by eapply check_actor_Ok.
  - destruct H2 as [H2|H2]; [by left|right]. unfold validate_editor_notebook_changes in H2.
    rewrite each_ok_Ok in H2. eapply Forall_impl; [exact H2|]. intros q. cbn beta. by destruct (within_cells q).
Qed.

Lemma decode_for_Ok document w kind payload m :
  decode_for document w kind payload = Ok m -> decode payload = Ok m /\ (has_changes m = true -> w = true).
Proof. unfold decode_for. destruct (decode payload) as [x|]; [|done]. destruct (has_changes x) eqn:E, w; naive_solver. Qed.

Lemma entry_insert st m peer w : entry (<[peer := st]> m) peer w = st.
Proof. unfold entry. by rewrite lookup_insert_eq. Qed.

(** *** The notebook *)

Lemma authorize_notebook_spec peer principal w all m s :
  docs (authorize_notebook json_from_str am_diff seed_hashes peer principal w all m s).1 = docs s /\
  match (authorize_notebook json_from_str am_diff seed_hashes peer principal w all m s).2 with
  | Ok _ => exists preview st', notebook_authorized principal all (doc s) preview /\
      notebook_receive_sync_message_recovering json_from_str "cloud-room-doc-auth-preview" m (doc s)
        (entry (notebook_peer_states (authorize_notebook json_from_str am_diff seed_hashes peer principal w all m s).1) peer w)
        = (preview, st', Ok ())
  | Err _ => True
  end.
Proof.
  unfold authorize_notebook. run_host. set (st := entry (notebook_peer_states s) peer w).
  destruct (notebook_receive_sync_message_recovering json_from_str _ m (doc s) st) as [[preview st'] [[]|e]] eqn:Er; [|done].
  destruct (validate_room_notebook_change_actors _ _ _) as [[]|e] eqn:Ea; [|done].
  destruct all.
  - split; [done|]. exists preview, st'. cbn. rewrite entry_insert. split; [|done].
    apply notebook_checks_Ok; [done|by left].
  - destruct (validate_editor_notebook_changes _ _ _ _ _) as [[]|e] eqn:Ee; [|done].
    split; [done|]. exists preview, st'. cbn. rewrite entry_insert. split; [|done].
    apply notebook_checks_Ok; [done|by right].
Qed.

Lemma apply_notebook_spec peer w m s :
  let '(d, st, r) := notebook_receive_sync_message_recovering json_from_str "cloud-room-doc-receive-sync" m (doc s)
    (entry (notebook_peer_states s) peer w) in
  docs (apply_notebook json_from_str peer w m s).1 = (d, state_doc s, comms_doc s, comments_doc s) /\
  (r = Ok () -> (apply_notebook json_from_str peer w m s).2 = Ok ()).
Proof.
  unfold apply_notebook. run_host. set (st := entry (notebook_peer_states s) peer w).
  destruct (notebook_receive_sync_message_recovering json_from_str _ m (doc s) st) as [[d st'] r].
  split; [done|]. by intros ->.
Qed.

Lemma receive_notebook_spec peer principal w all payload s :
  let '(s', r) := receive_notebook_sync json_from_str am_diff seed_hashes peer principal w all payload s in
  (state_doc s', comms_doc s', comments_doc s') = (state_doc s, comms_doc s, comments_doc s) /\
  (body (doc s') <> body (doc s) -> w = true /\ notebook_authorized principal all (doc s) (doc s')) /\
  forall e, r = Err e -> generate_failed e \/ body (doc s') = body (doc s).
Proof.
  unfold receive_notebook_sync.
  destruct (decode_for "notebook" w "NotebookDoc" payload) as [m|e] eqn:Em; [|by run_host; naive_solver].
  apply decode_for_Ok in Em as [_ Hw]. erewrite bind_ok by done. cbv beta.
  match goal with |- context [(?a ≫= ?f) s] => set (auth := a); set (k := f) end.
  assert (docs (auth s).1 = docs s) as Hd.
  { unfold auth. destruct (has_changes m); [apply authorize_notebook_spec|done]. }
  destruct (bind_inv auth k s) as [(s1 & e & Ha & ->)|(s1 & [] & Ha & ->)]; rewrite Ha in Hd; cbn [fst] in Hd.
  { injection Hd as -> -> -> ->. naive_solver. }
  unfold k. erewrite bind_ok by done. cbv beta.
  after_sends (apply_notebook json_from_str peer w m) s2 r H1 H2.
  pose proof (apply_notebook_spec peer w m s1) as Hap. injection Hd as Hn Hs Hc Hk.
  destruct (notebook_receive_sync_message_recovering _ _ m (doc s1) _) as [[d st'] ar] eqn:Er.
  destruct Hap as [Hap1 Hap2]. rewrite Hap1, Hs, Hc, Hk in H1. injection H1 as E1 E2 E3 E4.
  rewrite E1, E2, E3, E4. split; [done|]. unfold auth in Ha. destruct (has_changes m) eqn:Hch.
  - pose proof (authorize_notebook_spec peer principal w all m s) as [_ Hpre]. rewrite Ha in Hpre. cbn [fst snd] in Hpre.
    destruct Hpre as (preview & st'' & Hok & Hpre). rewrite <- Hn in Hpre at 1.
    apply (notebook_receive_label json_from_str _ "cloud-room-doc-receive-sync") in Hpre.
    rewrite Hpre in Er. injection Er as <- <- <-. split; [auto|].
    intros e He. destruct (H2 e He) as [Habs|]; [|by left]. rewrite Hap2 in Habs by done. done.
  - pose proof (notebook_idle json_from_str "cloud-room-doc-receive-sync" m (doc s1)
      (entry (notebook_peer_states s1) peer w) Hch) as [Hb _]. rewrite Er in Hb. cbn [fst] in Hb.
    rewrite Hb, Hn. split; [done|]. by right.
Qed.

(** *** Widget state *)

Definition labels_authorized (principal : string) (h : Hist) (before : list string) : Prop :=
  Forall (fun c => authored_by principal (actor_label c)) (get_changes h before).

Lemma authorize_comms_spec peer principal w m s :
  docs (authorize_comms peer principal w m s).1 = docs s /\
  match (authorize_comms peer principal w m s).2 with
  | Ok _ => exists preview st' b, labels_authorized principal (history preview) (heads (history (comms_doc s))) /\
      comms_receive_recovering "cloud-room-comms-auth-preview" m (comms_doc s)
        (entry (comms_peer_states (authorize_comms peer principal w m s).1) peer w) = (preview, st', Ok b)
  | Err _ => True
  end.
Proof.
  unfold authorize_comms. run_host. set (st := entry (comms_peer_states s) peer w).
  destruct (comms_receive_recovering _ m (comms_doc s) st) as [[preview st'] [b|e]] eqn:Er; [|done].
  run_host. split; [done|]. destruct (validate_room_actor_labels _ _) as [[]|e] eqn:Ea; [|done].
  exists preview, st', b. rewrite entry_insert. split; [|done]. by apply change_actors_Ok.
Qed.

Lemma apply_comms_spec peer w m s :
  let '(d, st, r) := comms_receive_recovering "cloud-room-comms-receive-sync" m (comms_doc s)
    (entry (comms_peer_states s) peer w) in
  docs (apply_comms peer w m s).1 = (doc s, state_doc s, d, comments_doc s) /\
  forall b, r = Ok b -> (apply_comms peer w m s).2 = Ok ().
Proof.
  unfold apply_comms. run_host. set (st := entry (comms_peer_states s) peer w).
  destruct (comms_receive_recovering _ m (comms_doc s) st) as [[d st'] r].
  split; [done|]. by intros b ->.
Qed.

Lemma receive_comms_spec peer principal w payload s :
  let '(s', r) := receive_comms_doc_sync peer principal w payload s in
  (doc s', state_doc s', comments_doc s') = (doc s, state_doc s, comments_doc s) /\
  (body (comms_doc s') <> body (comms_doc s) ->
    w = true /\ labels_authorized principal (history (comms_doc s')) (heads (history (comms_doc s)))) /\
  forall e, r = Err e -> generate_failed e \/ body (comms_doc s') = body (comms_doc s).
Proof.
  unfold receive_comms_doc_sync.
  destruct (decode_for "comms doc" w "CommsDoc" payload) as [m|e] eqn:Em; [|by run_host; naive_solver].
  apply decode_for_Ok in Em as [_ Hw]. erewrite bind_ok by done. cbv beta.
  match goal with |- context [(?a ≫= ?f) s] => set (auth := a); set (k := f) end.
  assert (docs (auth s).1 = docs s) as Hd.
  { unfold auth. destruct (has_changes m); [apply authorize_comms_spec|done]. }
  destruct (bind_inv auth k s) as [(s1 & e & Ha & ->)|(s1 & [] & Ha & ->)]; rewrite Ha in Hd; cbn [fst] in Hd.
  { injection Hd as -> -> -> ->. naive_solver. }
  unfold k. erewrite bind_ok by done. cbv beta.
  after_sends (apply_comms peer w m) s2 r H1 H2.
  pose proof (apply_comms_spec peer w m s1) as Hap. injection Hd as Hn Hs Hc Hk.
  destruct (comms_receive_recovering _ m (comms_doc s1) _) as [[d st'] ar] eqn:Er.
  destruct Hap as [Hap1 Hap2]. rewrite Hap1, Hs, Hn, Hk in H1. injection H1 as E1 E2 E3 E4.
  rewrite E1, E2, E3, E4. split; [done|]. unfold auth in Ha. destruct (has_changes m) eqn:Hch.
  - pose proof (authorize_comms_spec peer principal w m s) as [_ Hpre]. rewrite Ha in Hpre. cbn [fst snd] in Hpre.
    destruct Hpre as (preview & st'' & b & Hok & Hpre). rewrite <- Hc in Hpre at 1.
    apply (comms_receive_label _ "cloud-room-comms-receive-sync") in Hpre.
    rewrite Hpre in Er. injection Er as <- <- <-. split; [auto|].
    intros e He. destruct (H2 e He) as [Habs|]; [|by left]. by rewrite (Hap2 b) in Habs.
  - pose proof (comms_idle "cloud-room-comms-receive-sync" m (comms_doc s1)
      (entry (comms_peer_states s1) peer w) Hch) as [Hb _]. rewrite Er in Hb. cbn [fst] in Hb.
    rewrite Hb, Hc. split; [done|]. by right.
Qed.

(** *** The runtime state *)

Definition policy_view (d : RuntimeStateDoc) := runtime_state_policy_snapshot decode_project_trust extras_from_str d.

(** The policy reads the tree, not the cache. *)
Lemma policy_view_root d d' : RuntimeDoc.root d = RuntimeDoc.root d' -> policy_view d = policy_view d'.
Proof. destruct d as [r c], d' as [r' c']. cbn. by intros ->. Qed.

Record runtime_authorized (principal : string) (v v' : versioned RuntimeStateDoc) : Prop := {
  ra_actors : labels_authorized principal (history v') (heads (history v));
  ra_policy : validate_runtime_state_sync_scope (policy_view (body v)) (policy_view (body v')) PRuntimePeer = Ok ();
}.

Definition without_cache (v : versioned RuntimeStateDoc) : versioned RuntimeStateDoc :=
  mkV (from_doc (RuntimeDoc.root (body v))) (history v).

Lemma authorize_runtime_spec peer principal m owned s :
  let '(s1, r) := authorize_runtime decode_project_trust extras_from_str status_values peer principal PRuntimePeer m owned s in
  docs s1 = docs s /\
  match r with
  | Ok managed => exists preview st' b, runtime_authorized principal (state_doc s) preview /\
      runtime_receive_recovering "cloud-room-state-auth-preview" m (without_cache (state_doc s))
        (entry (runtime_peer_states s1) peer true) = (preview, st', Ok b) /\
      match managed with
      | None => owned = false
      | Some (v, st) => owned = true /\ st = st' /\
          exists q d, managed_queue_after_progress status_values (state_doc s) preview = Ok q /\
            set_queue (qs_executing q) (qs_queued q) (body preview) = (d, Ok ()) /\ body v = d
      end
  | Err _ => True
  end.
Proof.
  unfold authorize_runtime. run_host. cbn [write_scope_allows].
  set (st := entry (runtime_peer_states s) peer true).
  destruct (runtime_receive_recovering _ m _ st) as [[preview st'] [b|e]] eqn:Er; [|done].
  destruct (validate_room_actor_labels _ _) as [[]|e] eqn:Ea; [|done].
  destruct (validate_runtime_state_sync_scope _ _ _) as [[]|e] eqn:Ep; [|done].
  assert (runtime_authorized principal (state_doc s) preview) as Hok
    by (split; [by apply change_actors_Ok|done]).
  destruct owned.
  - destruct (managed_queue_after_progress _ _ _) as [q|e] eqn:Eq; [|done].
    destruct (set_queue _ _ _) as [d [[]|e]] eqn:Es; [|done]. split; [done|].
    exists preview, st', b. run_host. rewrite entry_insert. split_and!; [done..|]. by exists q, d.
  - split; [done|]. exists preview, st', b. run_host. by rewrite entry_insert.
Qed.

Lemma apply_runtime_spec peer w m s :
  let '(d, st, r) := runtime_receive_recovering "cloud-room-state-receive-sync" m (state_doc s)
    (entry (runtime_peer_states s) peer w) in
  docs (apply_runtime peer w m None s).1 = (doc s, d, comms_doc s, comments_doc s) /\
  forall b, r = Ok b -> (apply_runtime peer w m None s).2 = Ok ().
Proof.
  unfold apply_runtime. run_host. set (st := entry (runtime_peer_states s) peer w).
  destruct (runtime_receive_recovering _ m (state_doc s) st) as [[d st'] r].
  split; [done|]. by intros b ->.
Qed.

Lemma same_tree_root v w : same_tree v w -> RuntimeDoc.root (body v) = RuntimeDoc.root (body w) /\ history v = history w.
Proof. intros H. by injection H. Qed.

Lemma receive_runtime_spec peer principal scope payload s :
  let '(s', r) := receive_runtime_state_sync decode_project_trust extras_from_str status_values peer principal scope payload s in
  (doc s', comms_doc s', comments_doc s') = (doc s, comms_doc s, comments_doc s) /\
  (body (state_doc s') <> body (state_doc s) ->
    scope = PRuntimePeer /\ runtime_authorized principal (state_doc s) (state_doc s')) /\
  forall e, r = Err e -> generate_failed e \/ body (state_doc s') = body (state_doc s).
Proof.
  unfold receive_runtime_state_sync, receive_runtime_state_sync_inner.
  destruct (decode_for "runtime state" _ "RuntimeStateDoc" payload) as [m|e] eqn:Em; [|by run_host; naive_solver].
  apply decode_for_Ok in Em as [_ Hw]. erewrite bind_ok by done. cbv beta. erewrite bind_ok by done. cbv beta.
  destruct (has_changes m) eqn:Hch.
  - assert (scope = PRuntimePeer) as -> by (specialize (Hw eq_refl); by destruct scope). clear Hw.
    pose proof (authorize_runtime_spec peer principal m false s) as Hpre.
    match goal with |- context [(?a ≫= ?f) s] => set (k := f) end.
    destruct (authorize_runtime _ _ _ _ _ _ _ _ s) as [s1 [managed|e]] eqn:Ha.
    2:{ erewrite bind_err by done. destruct Hpre as [Hd _]. injection Hd as -> -> -> ->. naive_solver. }
    erewrite bind_ok by done. unfold k. cbn [write_scope_allows].
    destruct Hpre as (Hd & preview & st'' & b & Hok & Hpre & Hman).
    destruct managed as [[v st]|]; [by destruct Hman|].
    after_sends (apply_runtime peer true m None) s2 r H1 H2.
    pose proof (apply_runtime_spec peer true m s1) as Hap. injection Hd as Hn Hs Hc Hk.
    assert (same_tree (without_cache (state_doc s)) (state_doc s1)) as Hst by (by rewrite Hs).
    destruct (runtime_receive_label "cloud-room-state-auth-preview" "cloud-room-state-receive-sync" m _ _ _ _ _ _ Hst Hpre)
      as (w' & Hw' & Htree).
    rewrite Hw' in Hap. destruct Hap as [Hap1 Hap2]. rewrite Hap1, Hn, Hc, Hk in H1. injection H1 as E1 E2 E3 E4.
    rewrite E1, E2, E3, E4. split; [done|]. apply same_tree_root in Htree as [Hr Hh]. split.
    + intros _. split; [done|]. destruct Hok as [H3 H4]. rewrite Hh in H3.
      split; [done|]. by rewrite <- (policy_view_root _ _ Hr).
    + intros e He. destruct (H2 e He) as [Habs|]; [|by left]. by rewrite (Hap2 b) in Habs.
  - erewrite bind_ok by done. cbv beta. set (w := write_scope_allows scope).
    after_sends (apply_runtime peer w m None) s2 r H1 H2.
    pose proof (apply_runtime_spec peer w m s) as Hap.
    pose proof (runtime_idle "cloud-room-state-receive-sync" m (state_doc s) (entry (runtime_peer_states s) peer w) Hch) as [Hb _].
    destruct (runtime_receive_recovering _ m (state_doc s) _) as [[d st'] ar]. cbn [fst] in Hb.
    destruct Hap as [Hap1 Hap2]. rewrite Hap1 in H1. injection H1 as E1 E2 E3 E4.
    rewrite E1, E2, E3, E4, Hb. split_and!; [done..|]. by right.
Qed.

(** *** Comments *)

(** The document an attempt starts from: the room's, or the one rebuilt after an attempt
    that failed recoverably. *)
Definition attempt_base (m : Message) (expected : string) (r : NotebookCommentRef) (v base : versioned CommentsDoc) : Prop :=
  base = v \/ exists st w st' source,
    comments_receive_repairing m expected r v st = (w, st', Returned (Err (source, true))) /\
    base = (comments_rebuild_from_save w).1.

(** What a successful attempt did. *)
Record attempt_done (m : Message) (expected : string) (r : NotebookCommentRef) (base v' : versioned CommentsDoc)
    (report : CommentsDocReceiveRepairResult) : Prop := {
  ad_labels : exists st t st1,
    am_receive (mkV (ctree (body base)) (history base)) st m = (t, st1, Returned (Ok ())) /\
    (forall l, l ∈ actor_label <$> get_changes (history t) (heads (history base)) -> l ∈ incoming_actor_labels report) /\
    forall k, k <> "comments_doc_id" -> k <> "notebook_ref" -> Comments.root (body v') !! k = (body t).1.1 !! k;
  ad_idle : has_changes m = false -> forall k, k <> "comments_doc_id" -> k <> "notebook_ref" ->
    Comments.root (body v') !! k = Comments.root (body base) !! k;
}.

Lemma comments_attempt m expected r v st v' st' report :
  comments_receive_repairing m expected r v st = (v', st', Returned (Ok report)) ->
  attempt_done m expected r v v' report.
Proof.
  unfold comments_receive_repairing. destruct (validate_comments_doc_id expected) as [[]|e] eqn:Ev; [|done].
  pose proof (receive_idle (mkV (ctree (body v)) (history v)) st m) as Hidle.
  destruct (am_receive _ st m) as [[t st1] [[[]|e]|p]] eqn:Er; [|done..].
  unfold receive_sync_message_with_changes_repairing_identity. rewrite Ev.
  assert (rcv_error (as_received v t st1 None) = None) as Herr by (unfold as_received; by destruct (body t) as [[? ?] ?]).
  rewrite Herr. pose proof (repair_settles expected r (take_received (as_received v t st1 None) (body v)) Ev) as Hs.
  destruct (repair_identity_fields _ _ _ _) as [d [b|e]]; [|done]. destruct Hs as [Hs _].
  intros [= <- _ <-]. split.
  - exists st, t, st1. split; [done|]. split.
    + intros l Hl. cbn [incoming_actor_labels].
      rewrite merge_sort_Permutation, elem_of_remove_dups. unfold as_received. by destruct (body t) as [[? ?] ?].
    + intros k H1 H2. cbn [body]. rewrite (is_rest _ _ _ _ Hs k H1 H2). unfold take_received, as_received.
      by destruct (body t) as [[? ?] ?].
  - intros Hm k H1 H2. destruct (Hidle Hm) as [Hb _]. cbn [fst body] in Hb.
    cbn [body]. rewrite (is_rest _ _ _ _ Hs k H1 H2). unfold take_received, as_received. by rewrite Hb.
Qed.

Lemma comments_rebuild_root v : Comments.root (body (comments_rebuild_from_save v).1) = Comments.root (body v).
Proof.
  unfold comments_rebuild_from_save.
  pose proof (rebuild_same "comments-doc-rebuild-from-save" (fun _ _ => None) (mkV (ctree (body v)) (history v))) as [Hb _].
  destruct (rebuild_with _ _ _) as [t r]. cbn [fst body] in Hb. by rewrite Hb.
Qed.

Lemma comments_failed_idle m expected r v st w st' e :
  has_changes m = false -> comments_receive_repairing m expected r v st = (w, st', Returned (Err (e, true))) ->
  Comments.root (body w) = Comments.root (body v).
Proof.
  intros Hm. unfold comments_receive_repairing. destruct (validate_comments_doc_id expected) as [[]|]; [|done].
  pose proof (receive_idle (mkV (ctree (body v)) (history v)) st m Hm) as [Hb _].
  destruct (am_receive _ st m) as [[t st1] [[[]|x]|p]]; cbn [fst body] in Hb; [|intros [= <- _ _ _]; cbn|done].
  - by destruct (receive_sync_message_with_changes_repairing_identity _ _ _ _ _ _) as [[d st''] [rep|err]].
  - unfold take_received, as_received. by rewrite Hb.
Qed.

Lemma comments_recovering_spec label m expected r v st v' st' report :
  comments_receive_repairing_recovering label m expected r v st = (v', st', Ok report) ->
  exists base, attempt_base m expected r v base /\ attempt_done m expected r base v' report.
Proof.
  unfold comments_receive_repairing_recovering.
  destruct (comments_receive_repairing m expected r v st) as [[w st1] [[rep|[e []]]|p]] eqn:E1; cbn.
  - intros [= -> -> ->]. exists v. split; [by left|]. by eapply comments_attempt.
  - destruct (comments_rebuild_from_save w) as [w2 [[]|src]] eqn:Eb; [|done].
    destruct (comments_receive_repairing m expected r w2 state_new) as [[w3 st3] o] eqn:E2.
    destruct o as [[rep|[e2 b2]]|p]; cbn; [|done..]. intros [= -> -> ->].
    exists w2. split; [|by eapply comments_attempt]. right. exists st, w, st1, e. by rewrite Eb.
  - done.
  - done.
Qed.

Lemma attempt_base_idle m expected r v base :
  has_changes m = false -> attempt_base m expected r v base -> Comments.root (body base) = Comments.root (body v).
Proof.
  intros Hm [->|(st & w & st' & e & H & ->)]; [done|].
  rewrite comments_rebuild_root. by eapply comments_failed_idle.
Qed.

(** What a peer may do to the comments: the document it leaves reads as one that received
    changes of its own, or as before, but for the repair of the document's identity. *)
Definition comments_authorized (principal : string) (can_write : bool) (v v' : versioned CommentsDoc) : Prop :=
  (can_write = true /\ exists m expected r base t st st1,
    attempt_base m expected r v base /\
    am_receive (mkV (ctree (body base)) (history base)) st m = (t, st1, Returned (Ok ())) /\
    labels_authorized principal (history t) (heads (history base)) /\
    forall k, k <> "comments_doc_id" -> k <> "notebook_ref" -> Comments.root (body v') !! k = (body t).1.1 !! k) \/
  forall k, k <> "comments_doc_id" -> k <> "notebook_ref" -> Comments.root (body v') !! k = Comments.root (body v) !! k.

Lemma receive_comments_spec peer principal w payload s :
  let '(s', r) := receive_comments_doc_sync peer principal w payload s in
  (doc s', state_doc s', comms_doc s') = (doc s, state_doc s, comms_doc s) /\
  comments_authorized principal w (comments_doc s) (comments_doc s') /\
  forall e, r = Err e -> generate_failed e \/ comments_doc s' = comments_doc s.
Proof.
  unfold receive_comments_doc_sync.
  assert (forall v, comments_authorized principal w v v) as Hrefl by (intros v; by right).
  destruct (decode_for "comments doc" w "CommentsDoc" payload) as [m|e] eqn:Em; [|by run_host; naive_solver].
  apply decode_for_Ok in Em as [_ Hw]. erewrite bind_ok by done. cbv beta.
  unfold expected_comments_identity at 1. destruct (notebook_id (body (doc s))) as [id|] eqn:Eid.
  2:{ erewrite bind_err by (rewrite Eid; done). naive_solver. }
  erewrite bind_ok by (rewrite Eid; done). cbv beta. do 2 (erewrite bind_ok by done; cbv beta).
  set (s0 := set_comments_peers _ s). change (comments_doc s0) with (comments_doc s).
  destruct (comments_receive_repairing_recovering _ m _ _ (comments_doc s) _) as [[next next_st] [report|e]] eqn:Er; [|naive_solver].
  apply comments_recovering_spec in Er as (base & Hbase & [(st & t & st1 & Hrec & Hlab & Hroot) Hidle]).
  match goal with |- context [lift ?x] => destruct x as [[]|e] eqn:El end; [|naive_solver].
  assert (comments_authorized principal w (comments_doc s) next) as Hauth.
  { destruct (has_changes m) eqn:Hch.
    - left. split; [auto|]. exists m. eexists _, _, base, t, st, st1. split_and!; [done..| |done].
      apply actor_labels_Ok in El. rewrite Forall_forall in El. apply Forall_forall. intros c Hc.
      apply El, Hlab, list_elem_of_fmap. eauto.
    - right. intros k H1 H2. rewrite (Hidle eq_refl k H1 H2). by rewrite (attempt_base_idle _ _ _ _ _ Hch Hbase). }
  do 2 (erewrite bind_ok by done; cbv beta).
  match goal with |- context [?k (with_comments next ?x)] => assert (sends k) as Hk by eauto 10 with nteract;
    destruct (Hk (with_comments next x)) as [H1 H2]; destruct (k (with_comments next x)) as [s2 r2]; cbn [fst snd] in * end.
  injection H1 as -> -> -> ->. split_and!; [done|done|]. intros e He. left. by rewrite He in H2.
Qed.

(** *** Requests *)

Definition side (s : RoomHostEngine) := (comms_doc s, comments_doc s).

Lemma keeps_sends {A} (m : HostM A) : sends m -> keeps side m.
Proof. intros Hm s. destruct (Hm s) as [H _]. injection H as _ _ Hc Hk. unfold side. by rewrite Hc, Hk. Qed.

Lemma keeps_write_state {A} wrap (f : DocM A) : keeps side (write_state wrap f).
Proof. intros s. unfold write_state. by destruct (f _). Qed.
Lemma keeps_write_notebook {A} wrap (f : NotebookM A) : keeps side (write_notebook wrap f).
Proof. intros s. unfold write_notebook. by destruct (f _). Qed.
Lemma keeps_lift {A} (r : result RoomHostError A) : keeps side (lift r).
Proof. done. Qed.
Lemma keeps_throw {A} e : keeps side (throw (A := A) e).
Proof. done. Qed.
Lemma keeps_get : keeps side get_engine.
Proof. done. Qed.
Lemma keeps_ignore {A} (m : HostM A) : keeps side m -> keeps side (ignore m).
Proof. intros H s. apply H. Qed.

(** An operation whose error is handled. *)
Lemma keeps_try {A B} (m : HostM A) (on_err : RoomHostError -> HostM B) (k : A -> HostM B) :
  keeps side m -> (forall e, keeps side (on_err e)) -> (forall a, keeps side (k a)) ->
  keeps side (host (fun s => match m s with (s, Err e) => on_err e s | (s, Ok a) => k a s end)).
Proof.
  intros Hm He Hk s. unfold host. specialize (Hm s). destruct (m s) as [s1 [a|e]]; cbn [fst] in Hm; [by rewrite Hk|by rewrite He].
Qed.

Create HintDb keeps.
#[local] Hint Resolve keeps_ret keeps_bind keeps_write_state keeps_write_notebook keeps_lift keeps_throw keeps_get
  keeps_ignore : keeps.
#[local] Hint Extern 5 (keeps side (broadcast_accepted _ _)) => apply keeps_sends; unfold broadcast_accepted; eauto 12 with nteract : keeps.

Lemma append_keeps entries : keeps side (append_queued_entries entries).
Proof. intros s. destruct entries; [done|]. apply keeps_write_state. Qed.
#[local] Hint Resolve append_keeps : keeps.

Lemma submit_cell_keeps submitter cell source id q : keeps side (submit_cell submitter cell source id q).
Proof.
  unfold submit_cell. apply keeps_bind; [auto with keeps|]. intros [|]; cbn [negb]; [|auto with keeps].
  apply keeps_bind; [auto with keeps|]. intros s0. cbv beta zeta.
  apply (keeps_try (write_notebook StampFailed (set_execution_id cell (Some id)))); [auto with keeps|eauto 6 with keeps|].
  intros b. apply (keeps_try (append_queued_entries [mkDocQueueEntry id])); eauto 8 with keeps.
Qed.

Lemma handle_execute_keeps rng request peer submitter :
  keeps side (handle_execute_cell json_from_str uuid_parse rng request peer submitter).
Proof.
  unfold handle_execute_cell. destruct (_ ≫= json_str) as [cell|]; [|auto with keeps].
  apply keeps_bind; [auto with keeps|]. intros s. destruct (get_cell _ _ _) as [c|]; [|auto with keeps].
  destruct (negb _); [auto with keeps|]. apply keeps_bind; [auto with keeps|]. intros [].
  destruct (active_execution cell s) as [a|].
  - destruct (bool_decide _); auto with keeps.
  - apply keeps_bind; [apply submit_cell_keeps|]. intros [|]; auto with keeps.
Qed.

Lemma create_entries_keeps submitter created entries : keeps side (create_entries submitter created entries).
Proof.
  revert created. induction entries as [|e entries IH]; intros created; cbn [create_entries]; [auto with keeps|].
  apply keeps_bind; [auto with keeps|]. intros [|]; [apply IH|]. unfold undo_executions. eauto 6 with keeps.
Qed.

Lemma restore_keeps pointers : keeps side (restore_cell_execution_pointers pointers).
Proof.
  intros s. unfold restore_cell_execution_pointers. cbn [fst].
  induction pointers as [|p pointers IH]; cbn [foldr]; [done|]. by rewrite keeps_write_notebook.
Qed.
#[local] Hint Resolve restore_keeps : keeps.

Lemma stamp_entries_keeps created stamped entries : keeps side (stamp_entries created stamped entries).
Proof.
  revert stamped. induction entries as [|e entries IH]; intros stamped; cbn [stamp_entries]; [auto with keeps|].
  apply (keeps_try (write_notebook StampFailed (set_execution_id (re_cell_id e) (Some (re_execution_id e)))));
    [auto with keeps|unfold undo_executions; eauto 8 with keeps|intros b; apply IH].
Qed.

Lemma handle_run_all_keeps rng request peer submitter :
  keeps side (handle_run_all_cells json_from_str uuid_parse rng request peer submitter).
Proof.
  unfold handle_run_all_cells. apply keeps_bind; [auto with keeps|]. intros requested.
  apply keeps_bind; [auto with keeps|]. intros s. apply keeps_bind; [auto with keeps|]. intros taken.
  destruct (filter _ _) as [|c cells]; [auto with keeps|]. destruct (run_entries _ _ _ _ _ _ _) as [entries|]; [|auto with keeps].
  apply keeps_bind; [|intros []; auto with keeps]. unfold submit_entries.
  apply keeps_bind; [apply create_entries_keeps|]. intros created.
  apply keeps_bind; [apply stamp_entries_keeps|]. intros stamped.
  apply (keeps_try (append_queued_entries _)); [auto with keeps|unfold undo_executions; eauto 8 with keeps|].
  intros []. auto with keeps.
Qed.

Lemma receive_request_spec rng peer submitter can payload s :
  let '(s', r) := receive_request json_from_str json_from_slice uuid_parse rng peer submitter can payload s in
  side s' = side s /\ (can = false -> s' = s).
Proof.
  destruct (receive_request _ _ _ _ _ _ _ _ s) as [s' r] eqn:E. unfold receive_request in E.
  destruct can; cbn [negb] in E; [|by injection E as <- _]. split; [|done].
  change s' with (s', r).1. rewrite <- E. clear E. match goal with |- side (?m s).1 = _ => assert (keeps side m) as H; [|exact (H s)] end.
  apply keeps_bind; [auto with keeps|]. intros request. destruct (_ ≫= json_str) as [a|]; [|auto with keeps].
  assert (keeps side (require_request_heads request)) as Hr.
  { unfold require_request_heads. apply keeps_bind; [auto with keeps|]. intros hs.
    apply keeps_bind; [|intros []; auto with keeps]. intros s0. unfold contains_notebook_heads.
    case_match; [done|]. by case_match. }
  case_decide; [apply keeps_bind; [done|intros []; apply handle_execute_keeps]|].
  case_decide; [apply keeps_bind; [done|intros []; apply handle_run_all_keeps]|auto with keeps].
Qed.

(** C15. What a frame may change, and on whose authority: the notebook and the runtime state
    change through their own sync frames or, for the owner, through a request; a sync frame
    of each document needs the scope for it, and its changes are the authenticated
    principal's own; an editor stays under [cells], a runtime peer within the policy; and
    the comments of a room keep their threads under a peer that cannot write them.  A sync
    frame that fails leaves the documents as they were, unless only an answer could not be
    generated. *)
Theorem frames_stay_in_scope rng peer principal submitter scope_text can_write_all frame s :
  let '(s', r) := receive_peer_frame json_from_str json_from_slice decode_project_trust extras_from_str am_diff
    status_values seed_hashes uuid_parse rng peer principal submitter scope_text can_write_all frame s in
  let by_frame (kind : byte) (P : ConnectionScope -> Prop) :=
    exists scope payload, scope_from_str scope_text = Ok scope /\ frame = kind :: payload /\ P scope in
  let requested := by_frame REQUEST (fun scope => scope = Owner) in
  (body (doc s') <> body (doc s) -> requested \/
    by_frame AUTOMERGE_SYNC (fun scope => scope ∈ [Editor; Owner] /\
      notebook_authorized principal can_write_all (doc s) (doc s'))) /\
  (body (state_doc s') <> body (state_doc s) -> requested \/
    by_frame RUNTIME_STATE_SYNC (fun scope => scope = RuntimePeer /\
      runtime_authorized principal (state_doc s) (state_doc s'))) /\
  (body (comms_doc s') <> body (comms_doc s) ->
    by_frame COMMS_DOC_SYNC (fun scope => scope <> Viewer /\
      labels_authorized principal (history (comms_doc s')) (heads (history (comms_doc s))))) /\
  (comments_doc s' <> comments_doc s ->
    by_frame COMMENTS_DOC_SYNC (fun scope =>
      comments_authorized principal (allows_comments_doc_write scope) (comments_doc s) (comments_doc s'))) /\
  forall e, r = Err e -> requested \/ generate_failed e \/
    (body (doc s'), body (state_doc s'), body (comms_doc s'), comments_doc s') =
    (body (doc s), body (state_doc s), body (comms_doc s), comments_doc s).
Proof.
  destruct (receive_peer_frame _ _ _ _ _ _ _ _ _ _ _ _ _ _ frame s) as [s' r] eqn:E.
  unfold receive_peer_frame in E. destruct frame as [|kind payload].
  { injection E as <- <-. naive_solver. }
  unfold parse_connection_scope in E. destruct (scope_from_str scope_text) as [scope|e] eqn:Es.
  2:{ erewrite bind_err in E by done. injection E as <- <-. naive_solver. }
  erewrite bind_ok in E by done. cbv beta in E. intros by_frame requested.
  assert (forall P : ConnectionScope -> Prop, P scope -> by_frame kind P) as Hby by (intros P HP; by exists scope, payload).
  case_decide as H0; [subst kind|case_decide as H5; [subst kind|case_decide as H9; [subst kind|
    case_decide as Ha; [subst kind|case_decide as H1; [subst kind|by injection E as <- <-; naive_solver]]]]].
  - pose proof (receive_notebook_spec peer principal (allows_notebook_write scope) can_write_all payload s) as H.
    rewrite E in H. destruct H as (Hd & Hn & He). injection Hd as -> -> ->. split_and!; try done.
    + intros Hne. destruct (Hn Hne) as [Hw Hok]. right. apply Hby. split; [|done]. destruct scope; set_solver.
    + intros e Hr. right. destruct (He e Hr) as [Hg| ->]; [by left|by right].
  - pose proof (receive_runtime_spec peer principal (runtime_state_write_scope scope) payload s) as H.
    rewrite E in H. destruct H as (Hd & Hn & He). injection Hd as -> -> ->. split_and!; try done.
    + intros Hne. destruct (Hn Hne) as [Hw Hok]. right. apply Hby. split; [|done]. by destruct scope.
    + intros e Hr. right. destruct (He e Hr) as [Hg| ->]; [by left|by right].
  - pose proof (receive_comms_spec peer principal (allows_comms_doc_write scope) payload s) as H.
    rewrite E in H. destruct H as (Hd & Hn & He). injection Hd as -> -> ->. split_and!; try done.
    + intros Hne. destruct (Hn Hne) as [Hw Hok]. apply Hby. split; [|done]. by destruct scope.
    + intros e Hr. right. destruct (He e Hr) as [Hg| ->]; [by left|by right].
  - pose proof (receive_comments_spec peer principal (allows_comments_doc_write scope) payload s) as H.
    rewrite E in H. destruct H as (Hd & Hn & He). injection Hd as -> -> ->. split_and!; try done.
    + intros _. by apply Hby.
    + intros e Hr. right. destruct (He e Hr) as [Hg| ->]; [by left|by right].
  - pose proof (receive_request_spec rng peer submitter (allows_execution_request_submit scope) payload s) as H.
    rewrite E in H. destruct H as [Hd Hn]. injection Hd as -> ->.
    assert (requested \/ s' = s) as [Hq| ->]; [|by split_and!; eauto|naive_solver].
    destruct scope; [right; by apply Hn..|left; by apply Hby].
Qed.

End Frames.
