(* ===== verification/RoomRepair.v ===== *)
(** * When the runtime of a room goes away

    Theorems about the repairs of [RoomHost]: what is left of the runtime state after the
    runtime peer disconnected, was stopped or never arrived, and what a managed runtime
    may do to the queue that its room owns. *)

From S2P Require Import Prelude Kernel Automunge RuntimeDoc RuntimeOutputs RuntimeComms Identity RuntimePolicy NotebookDoc AmSync RoomHost.

(** ** Which keys a writer touches *)

Section Keys.

Lemma get_map_root k d d' : root d' !! k = root d !! k -> get_map k d' = get_map k d.
Proof. unfold get_map. by intros ->. Qed.

Lemma set_root_other k j n d : k <> j -> root (set_root j n d) !! k = root d !! k.
Proof. intros Hk. cbn. by rewrite lookup_insert_ne. Qed.

Lemma set_queue_other e q d k : k <> "queue" -> root (set_queue e q d).1 !! k = root d !! k.
Proof.
  intros Hk. unfold set_queue. destruct (scaffold_map "queue" d); [|done]. case_decide; [done|].
  destruct (scaffold_list _ _); cbn [fst]; by rewrite ?set_root_other.
Qed.

Lemma abort_other d k : k <> "executions" -> root (abort_inflight_executions d).1 !! k = root d !! k.
Proof. intros Hk. unfold abort_inflight_executions. destruct (get_map "executions" d); [|done]. by apply set_root_other. Qed.

Lemma set_lifecycle_other l d k : k <> "kernel" -> root (set_lifecycle l d).1 !! k = root d !! k.
Proof. intros Hk. unfold set_lifecycle. destruct (scaffold_map "kernel" d); [|done]. by apply set_root_other. Qed.

Lemma set_details_other l r x d k :
  k <> "kernel" -> root (set_lifecycle_with_error_details l r x d).1 !! k = root d !! k.
Proof.
  intros Hk. unfold set_lifecycle_with_error_details. pose proof (set_lifecycle_other l d k Hk) as H.
  destruct (set_lifecycle l d) as [d1 [[]|e]]; cbn [fst] in H; [|done].
  destruct (scaffold_map "kernel" d1); [|done]. rewrite <- H. by apply set_root_other.
Qed.

Lemma set_agent_other id d k : k <> "kernel" -> root (set_runtime_agent_id id d).1 !! k = root d !! k.
Proof.
  intros Hk. unfold set_runtime_agent_id. destruct (scaffold_map "kernel" d); [|done].
  case_decide; [done|]. by apply set_root_other.
Qed.

Lemma set_workstation_other a d k :
  k <> "workstation" -> root (RuntimeComms.set_workstation_attachment a d).1 !! k = root d !! k.
Proof.
  intros Hk. unfold RuntimeComms.set_workstation_attachment. case_decide; [done|]. destruct a; [|by apply set_root_other].
  unfold get_or_create_root_map. destruct (get_map "workstation" d); cbn [fst]; by rewrite !set_root_other.
Qed.

(** *** What the writers leave *)

(** The status and the session of a published attachment read back, whatever its inventory. *)
Lemma set_workstation_status a d :
  exists d', RuntimeComms.set_workstation_attachment (Some a) d = (d', Ok ()) /\
    (fun x => (ws_status x, ws_runtime_session_id x)) <$> workstation_attachment d' =
      Some (ws_status a, ws_runtime_session_id a).
Proof.
  unfold RuntimeComms.set_workstation_attachment. case_decide as Hc; [exists d; by rewrite Hc|].
  destruct (get_or_create_spec "workstation" d) as (d' & -> & Hset). eexists. split; [done|].
  rewrite Hset. unfold workstation_attachment. rewrite get_map_set_root, decide_True by done.
  cbn [mbind option_bind option_fmap option_map fmap ws_status ws_runtime_session_id]. set (w := default ∅ _).
  unfold read_str, read_opt_str. cbn [obj_get].
  assert (written_workstation a w !! "status" = Some (str_node (ws_status a))) as -> by ws_key.
  assert (written_workstation a w !! "runtime_session_id" = Some (opt_str_node (ws_runtime_session_id a))) as -> by ws_key.
  by destruct (ws_runtime_session_id a).
Qed.

Lemma set_details_lifecycle l r x d k :
  get_map "kernel" d = Some k ->
  exists d' k', set_lifecycle_with_error_details l r x d = (d', Ok ()) /\ get_map "kernel" d' = Some k' /\
    current_lifecycle d' = l.
Proof.
  intros Hk. unfold set_lifecycle_with_error_details, set_lifecycle. rewrite (get_map_scaffold _ _ _ Hk).
  unfold scaffold_map. rewrite set_kernel_get. eexists _, _. split; [done|]. rewrite set_kernel_get. split; [done|].
  unfold current_lifecycle, read_kernel_state. rewrite set_kernel_get. cbn [kd_lifecycle].
  unfold clear_legacy_kernel_status. apply resolve_typed; by kernel_keys.
Qed.

(** The agent id is another key of the same map. *)
Lemma set_agent_lifecycle id d k :
  get_map "kernel" d = Some k ->
  exists d' k', set_runtime_agent_id id d = (d', Ok ()) /\ get_map "kernel" d' = Some k' /\
    current_lifecycle d' = current_lifecycle d /\ kd_runtime_agent_id (read_kernel_state d') = id.
Proof.
  intros Hk. unfold set_runtime_agent_id. rewrite (get_map_scaffold _ _ _ Hk). case_decide as Hc.
  - exists d, k. unfold read_kernel_state. by rewrite Hk.
  - eexists _, _. split; [done|]. rewrite set_kernel_get. split; [done|].
    unfold current_lifecycle, read_kernel_state. rewrite set_kernel_get, Hk. cbn [kd_lifecycle kd_runtime_agent_id].
    split; [|unfold read_str; cbn [obj_get]; by rewrite lookup_insert_eq].
    unfold resolve_kernel_lifecycle, read_str, read_opt_str. cbn [obj_get]. by rewrite !lookup_insert_ne.
Qed.

(** What aborting does to a status. *)
Definition aborted (status : string) : string :=
  if decide (status = "running") then "error" else if decide (status = "queued") then "cancelled" else status.

Lemma aborted_inactive status : active_status (aborted status) = false.
Proof. unfold aborted, active_status. apply bool_decide_eq_false. repeat case_decide; naive_solver. Qed.

Lemma doc_status_root d d' :
  root d' !! "executions" = root d !! "executions" -> forall id, doc_status d' id = doc_status d id.
Proof. intros H id. rewrite !doc_status_entry. unfold get_execution_entry. by rewrite (get_map_root _ _ _ H). Qed.

Lemma read_executions_lookup d id : read_executions d !! id = get_execution id d.
Proof.
  unfold read_executions, get_execution, get_execution_entry. destruct (get_map "executions" d) as [exs|] eqn:E; [|by rewrite lookup_empty].
  rewrite map_lookup_imap. cbn. by destruct (exs !! id).
Qed.

(** With nothing queued there is nothing to synthesize. *)
Lemma read_queue_empty d :
  read_explicit_queue d = mkQueueState None [] -> (forall id, doc_status d id <> Some "queued") ->
  read_queue d = mkQueueState None [].
Proof.
  intros Hq Hs. unfold read_queue. rewrite Hq. cbn. f_equal. unfold synthesize_queued_entries_from_executions.
  match goal with |- _ <$> merge_sort _ ?l = _ => assert (l = []) as ->; [|done] end.
  apply elem_of_nil_inv. intros [id e] Hin. apply list_elem_of_filter in Hin as [[Hst _] Hin%elem_of_map_to_list].
  rewrite read_executions_lookup in Hin. apply (Hs id). unfold doc_status. rewrite Hin. cbn in *. by rewrite Hst.
Qed.

End Keys.

(** ** Repairs *)

Section Repair.
Context `{AM : AmLib, AD : !AmDoc (gmap string node), AC : !AmDoc comments_tree}.
Context `{AL : !AmDocLaws (T := gmap string node)}.

Definition rest (s : RoomHostEngine) := (doc s, comms_doc s, comments_doc s).

(** Local writes of the runtime state, and nothing else. *)
Definition edited (s s' : RoomHostEngine) : Prop :=
  rtc (fun v w => history w = am_commit (history v) (body v) (body w))
    (runtime_tree (state_doc s)) (runtime_tree (state_doc s')) /\ rest s' = rest s.

Lemma edited_refl s : edited s s.
Proof. done. Qed.

Lemma edited_trans s1 s2 s3 : edited s1 s2 -> edited s2 s3 -> edited s1 s3.
Proof. intros [H1 E1] [H2 E2]. split; [by etrans|by rewrite E2]. Qed.

Lemma write_state_ok {A} wrap (f : DocM A) s d a :
  f (body (state_doc s)) = (d, Ok a) ->
  exists s', write_state wrap f s = (s', Ok a) /\ body (state_doc s') = d /\ edited s s'.
Proof.
  intros Hf. unfold write_state. rewrite Hf. eexists. split; [done|]. split; [done|].
  split; [|done]. apply rtc_once. done.
Qed.

(** The same for a writer of one root key. *)
Lemma write_key {A} wrap (f : DocM A) j s d a :
  (forall d k, k <> j -> root (f d).1 !! k = root d !! k) -> f (body (state_doc s)) = (d, Ok a) ->
  exists s', write_state wrap f s = (s', Ok a) /\ body (state_doc s') = d /\ edited s s' /\
    forall k, k <> j -> root d !! k = root (body (state_doc s)) !! k.
Proof.
  intros Ho Hf. destruct (write_state_ok wrap f s d a Hf) as (s' & Hw & Hb & He). exists s'. split_and!; [done..|].
  intros k Hk. by rewrite <- (Ho (body (state_doc s)) k Hk), Hf.
Qed.

(** What is said of the reported change: without one, the tree is as it was. *)
Lemma edited_unmoved s s' :
  edited s s' -> heads_moved (history (state_doc s)) (history (state_doc s')) = false ->
  root (body (state_doc s')) = root (body (state_doc s)).
Proof.
  intros [H _]. unfold heads_moved. rewrite negb_false_iff, bool_decide_eq_true. intros Hh.
  symmetry. exact (heads_identify _ _ H Hh).
Qed.

Lemma finish_repair_spec before s :
  docs (finish_repair before s).1 = docs s /\
  match (finish_repair before s).2 with
  | Ok res => changed res = heads_moved before (history (state_doc s)) /\ runtime_state_changed res = changed res /\
      notebook_changed res = false
  | Err e => generate_failed e
  end.
Proof.
  unfold finish_repair. run_host. destruct (heads_moved _ _) eqn:Eh; [|done].
  destruct (queue_runtime_others_sends "" s) as [H1 H2].
  destruct (queue_runtime_state_sync_for_other_peers "" s) as [s1 [out|e]]; [|done]. by split.
Qed.

Lemma abort_and_clear_spec what s :
  doc_ok (body (state_doc s)) ->
  exists s1, abort_and_clear what s = (s1, Ok ()) /\ edited s s1 /\ doc_ok (body (state_doc s1)) /\
    read_explicit_queue (body (state_doc s1)) = mkQueueState None [] /\
    (forall id, doc_status (body (state_doc s1)) id = aborted <$> doc_status (body (state_doc s)) id) /\
    forall k, k <> "executions" -> k <> "queue" -> root (body (state_doc s1)) !! k = root (body (state_doc s)) !! k.
Proof.
  intros Hok. pose proof (abort_resolves_inflight _ Hok) as (Hok1 & _ & Hst & _).
  destruct (abort_inflight_executions (body (state_doc s))) as [d1 [n|e]] eqn:Ea.
  2:{ unfold abort_inflight_executions in Ea. by destruct (get_map _ _). }
  cbn [fst] in *. destruct (write_state_ok (StateWrite what) abort_inflight_executions s d1 n Ea) as (s1 & Hw1 & Hb1 & He1).
  destruct (set_queue_spec None [] d1 Hok1) as (d2 & Hq & Hok2 & Hr & Hx & _). rewrite <- Hb1 in Hq.
  destruct (write_state_ok (StateWrite what) (set_queue None []) s1 d2 () Hq) as (s2 & Hw2 & Hb2 & He2).
  exists s2. unfold abort_and_clear. rewrite (bind_ok _ _ _ _ _ Hw1), Hw2, Hb2.
  split_and!; [done|by eapply edited_trans|done|done| |].
  - intros id. etrans; [|exact (Hst id)]. rewrite !doc_status_entry. unfold get_execution_entry. by rewrite Hx.
  - intros k H1 H2. rewrite <- (abort_other (body (state_doc s)) k H1), Ea. cbn [fst].
    rewrite <- (set_queue_other None [] d1 k H2), <- Hb1, Hq. done.
Qed.

(** Nothing is left running, queued or waiting. *)
Record quiet (d d' : RuntimeStateDoc) : Prop := {
  q_status id : doc_status d' id = aborted <$> doc_status d id;
  q_explicit : read_explicit_queue d' = mkQueueState None [];
  q_queue : read_queue d' = mkQueueState None [];
  q_activity : runtime_execution_activity d' = mkActivity false 0;
}.

Lemma quiet_intro d d' :
  (forall id, doc_status d' id = aborted <$> doc_status d id) ->
  read_explicit_queue d' = mkQueueState None [] -> quiet d d'.
Proof.
  intros Hs Hq.
  assert (forall id st, doc_status d' id = Some st -> active_status st = false) as Hin.
  { intros id st. rewrite Hs. destruct (doc_status d id) as [x|]; [|done]. intros [= <-]. apply aborted_inactive. }
  assert (read_queue d' = mkQueueState None []) as Hrq.
  { apply read_queue_empty; [done|]. intros id Habs%Hin. done. }
  split; [done..|]. unfold runtime_execution_activity. rewrite Hq, Hrq. destruct (uses_room_owned_queue d'); [done|].
  f_equal. apply orb_false_iff. split; [done|]. apply not_true_iff_false. intros (e & He & Hr)%existsb_exists.
  apply bool_decide_eq_true in Hr. apply list_elem_of_In, list_elem_of_fmap in He as ([id e'] & -> & Hin2%elem_of_map_to_list).
  rewrite read_executions_lookup in Hin2. specialize (Hin id "running"). unfold doc_status in Hin.
  rewrite Hin2 in Hin. cbn in *. rewrite Hr in Hin. by specialize (Hin eq_refl).
Qed.

Lemma quiet_root d d1 d' :
  quiet d d1 -> root d' !! "executions" = root d1 !! "executions" -> root d' !! "queue" = root d1 !! "queue" -> quiet d d'.
Proof.
  intros Hq He Hqk. apply quiet_intro.
  - intros id. rewrite (doc_status_root _ _ He). apply Hq.
  - rewrite <- (q_explicit _ _ Hq). unfold read_explicit_queue. by rewrite (get_map_root _ _ _ Hqk).
Qed.

(** The repairs that end accepted work. *)
Inductive repair :=
| PeerGone (reason : string)
| Stopped (session reason : string)
| CancelUnstarted.

Definition run_repair (op : repair) : HostM RoomHostFrameResult :=
  match op with
  | PeerGone reason => reconcile_runtime_peer_gone reason
  | Stopped session reason => reconcile_runtime_stopped session reason
  | CancelUnstarted => cancel_unstarted_executions
  end.

(** The kernel and the attachment afterwards. *)
Definition kernel_after (op : repair) (d d' : RuntimeStateDoc) : Prop :=
  match op with
  | PeerGone _ =>
      current_lifecycle d' = (if lifecycle_is_live (current_lifecycle d) then LcError else current_lifecycle d) /\
      forall a, workstation_attachment d' = Some a -> ws_status a ∈ ["idle"; "error"; "disconnected"]
  | Stopped session _ =>
      current_lifecycle d' = Shutdown /\ kd_runtime_agent_id (read_kernel_state d') = "" /\
      (fun a => (ws_status a, ws_runtime_session_id a)) <$> workstation_attachment d' = Some ("idle", Some session)
  | CancelUnstarted => read_kernel_state d' = read_kernel_state d /\ workstation_attachment d' = workstation_attachment d
  end.

(** The repair applies: a stop is for the session that is attached. *)
Definition applies (op : repair) (d : RuntimeStateDoc) : Prop :=
  match op with
  | Stopped session _ => ws_runtime_session_id <$> workstation_attachment d = Some (Some session)
  | _ => True
  end.

Lemma uses_kernel d d' : root d' !! "kernel" = root d !! "kernel" -> read_kernel_state d' = read_kernel_state d.
Proof. intros H. unfold read_kernel_state. by rewrite (get_map_root _ _ _ H). Qed.

Lemma uses_workstation d d' :
  root d' !! "workstation" = root d !! "workstation" -> workstation_attachment d' = workstation_attachment d.
Proof. intros H. unfold workstation_attachment. by rewrite (get_map_root _ _ _ H). Qed.

(** What a repair establishes on the way to [finish_repair]. *)
Record repaired (op : repair) (s s1 : RoomHostEngine) : Prop := {
  rp_edited : edited s s1;
  rp_quiet : quiet (body (state_doc s)) (body (state_doc s1));
  rp_kernel : kernel_after op (body (state_doc s)) (body (state_doc s1));
}.

Lemma cancel_repaired s :
  doc_ok (body (state_doc s)) ->
  exists s1, cancel_unstarted_executions s = finish_repair (history (state_doc s)) s1 /\ repaired CancelUnstarted s s1.
Proof.
  intros Hok. destruct (abort_and_clear_spec "cancel" s Hok) as (s1 & Ha & He & _ & Hq & Hs & Hk).
  exists s1. split.
  - unfold cancel_unstarted_executions. erewrite bind_ok by done. cbv beta. by erewrite bind_ok by exact Ha.
  - split; [done|by apply quiet_intro|]. by split; [apply uses_kernel|apply uses_workstation]; apply Hk.
Qed.

Lemma stopped_repaired session reason s :
  doc_ok (body (state_doc s)) -> is_Some (get_map "kernel" (body (state_doc s))) ->
  applies (Stopped session reason) (body (state_doc s)) ->
  exists s1, reconcile_runtime_stopped session reason s = finish_repair (history (state_doc s)) s1 /\
    repaired (Stopped session reason) s s1.
Proof.
  intros Hok [k Hk] Happ. destruct (abort_and_clear_spec "stop runtime" s Hok) as (s1 & Ha & He1 & _ & Hq & Hs & Ho).
  unfold applies in Happ. destruct (workstation_attachment (body (state_doc s))) as [a|] eqn:Ew; [|done]. injection Happ as Hsess.
  assert (get_map "kernel" (body (state_doc s1)) = Some k) as Hk1 by (rewrite <- Hk; by apply get_map_root, Ho).
  destruct (set_details_lifecycle Shutdown None None _ _ Hk1) as (d2 & k2 & H2 & Hk2 & Hl2).
  destruct (write_key (StateWrite "stop runtime lifecycle") _ "kernel" s1 _ _ (set_details_other _ _ _) H2) as (s2 & Hw2 & <- & He2 & Ho2).
  destruct (set_agent_lifecycle "" _ _ Hk2) as (d3 & k3 & H3 & Hk3 & Hl3 & Hag).
  destruct (write_key (StateWrite "stop runtime identity") _ "kernel" s2 _ _ (set_agent_other _) H3) as (s3 & Hw3 & <- & He3 & Ho3).
  destruct (set_workstation_status (with_ws_status "idle" (Some reason) a) (body (state_doc s3))) as (d4 & H4 & Hst).
  destruct (write_key (StateWrite "stop runtime attachment") _ "workstation" s3 _ _ (set_workstation_other _) H4) as (s4 & Hw4 & <- & He4 & Ho4).
  exists s4. split.
  - unfold reconcile_runtime_stopped. erewrite bind_ok by done. cbv beta. rewrite Ew, Hsess, bool_decide_true by done. cbn [negb].
    erewrite bind_ok by exact Ha. erewrite bind_ok by exact Hw2. erewrite bind_ok by exact Hw3. by erewrite bind_ok by exact Hw4.
  - split; [by do 3 (eapply edited_trans; [eassumption|])| |].
    + eapply quiet_root; [by apply quiet_intro|..]; by rewrite Ho4, Ho3, Ho2.
    + unfold kernel_after, current_lifecycle in *. rewrite (uses_kernel (body (state_doc s3))) by (by apply Ho4). split_and!; [congruence|done|].
      rewrite Hst. cbn. by rewrite Hsess.
Qed.

(** The kernel of a runtime that is gone: an error when it looked alive. *)
Lemma gone_kernel reason s k :
  get_map "kernel" (body (state_doc s)) = Some k ->
  exists s', (if lifecycle_is_live (current_lifecycle (body (state_doc s))) then
       write_state (StateWrite "reconcile lifecycle")
         (set_lifecycle_with_error_details LcError None (Some ("runtime peer disconnected: " +:+ reason)))
     else mret ()) s = (s', Ok ()) /\ edited s s' /\
    current_lifecycle (body (state_doc s')) =
      (if lifecycle_is_live (current_lifecycle (body (state_doc s))) then LcError else current_lifecycle (body (state_doc s))) /\
    forall j, j <> "kernel" -> root (body (state_doc s')) !! j = root (body (state_doc s)) !! j.
Proof.
  intros Hk. destruct (lifecycle_is_live _); [|by exists s; split_and!; try apply edited_refl].
  destruct (set_details_lifecycle LcError None (Some ("runtime peer disconnected: " +:+ reason)) _ _ Hk) as (d & k' & H & _ & Hl).
  destruct (write_key (StateWrite "reconcile lifecycle") _ "kernel" s _ _ (set_details_other _ _ _) H) as (s' & Hw & <- & He & Ho).
  exists s'. by split_and!.
Qed.

(** Its attachment: never one that looks connected. *)
Lemma gone_attachment reason (b : bool) s :
  let current := workstation_attachment (body (state_doc s)) in
  let settled := match current with Some a => bool_decide (ws_status a = "idle" \/ ws_status a = "error") | None => false end in
  exists s', (if negb settled && (bool_decide (is_Some current) || b) then
       write_state (StateWrite "reconcile workstation attachment")
         (RuntimeComms.set_workstation_attachment (Some (runtime_peer_gone_workstation_attachment current reason)))
     else mret ()) s = (s', Ok ()) /\ edited s s' /\
    (forall a, workstation_attachment (body (state_doc s')) = Some a -> ws_status a ∈ ["idle"; "error"; "disconnected"]) /\
    forall j, j <> "workstation" -> root (body (state_doc s')) !! j = root (body (state_doc s)) !! j.
Proof.
  intros current settled. destruct (negb settled && _) eqn:E.
  - destruct (set_workstation_status (runtime_peer_gone_workstation_attachment current reason) (body (state_doc s)))
      as (d & H & Hst).
    destruct (write_key (StateWrite "reconcile workstation attachment") _ "workstation" s _ _ (set_workstation_other _) H)
      as (s' & Hw & <- & He & Ho).
    exists s'. split_and!; [done..| |done]. intros a Ha. rewrite Ha in Hst. injection Hst as -> _. set_solver.
  - exists s. split_and!; [done|apply edited_refl| |done]. intros a Ha. unfold settled, current in E. rewrite Ha in E.
    rewrite (bool_decide_true (is_Some _)) in E by done. rewrite andb_true_r in E.
    apply negb_false_iff, bool_decide_eq_true in E. set_solver.
Qed.

Lemma gone_repaired reason s :
  doc_ok (body (state_doc s)) -> is_Some (get_map "kernel" (body (state_doc s))) ->
  exists s1, reconcile_runtime_peer_gone reason s = finish_repair (history (state_doc s)) s1 /\
    repaired (PeerGone reason) s s1.
Proof.
  intros Hok [k Hk]. destruct (abort_and_clear_spec "reconcile" s Hok) as (s1 & Ha & He1 & _ & Hq & Hs & Ho1).
  assert (root (body (state_doc s1)) !! "kernel" = root (body (state_doc s)) !! "kernel") as Hk1 by (by apply Ho1).
  destruct (gone_kernel reason s1 k) as (s2 & Hw2 & He2 & Hl & Ho2); [by rewrite (get_map_root _ _ _ Hk1)|].
  destruct (gone_attachment reason (heads_moved (history (state_doc s)) (history (state_doc s2))) s2) as (s3 & Hw3 & He3 & Hst & Ho3).
  exists s3. split.
  - unfold reconcile_runtime_peer_gone. erewrite bind_ok by done. cbv beta zeta. erewrite bind_ok by exact Ha.
    erewrite bind_ok by done. cbv beta. erewrite bind_ok by exact Hw2. erewrite bind_ok by done. cbv beta zeta.
    by erewrite bind_ok by exact Hw3.
  - split; [by do 2 (eapply edited_trans; [eassumption|])| |].
    + eapply quiet_root; [by apply quiet_intro|..]; by rewrite Ho3, Ho2.
    + split; [|done]. unfold current_lifecycle in *. rewrite (uses_kernel (body (state_doc s2))) by (by apply Ho3).
      by rewrite Hl, (uses_kernel (body (state_doc s))) by done.
Qed.

(** When the runtime of a room is gone, stopped or never came, the room settles: every
    running execution ends in error, every queued one is cancelled and all others keep
    their status; the queue, as written and as read, is empty, and the room reports no
    activity; so no cell is held back by work that cannot run.  A kernel that looked
    alive is in error and no attachment looks connected; an intended stop reads as a
    shutdown without agent; cancelling leaves kernel and attachment alone.  The other
    documents are untouched, the repair fails only if an answer cannot be generated, and a
    result that reports no change left the tree unchanged. *)
Theorem repairs_settle op s :
  doc_ok (body (state_doc s)) -> is_Some (get_map "kernel" (body (state_doc s))) ->
  applies op (body (state_doc s)) ->
  let '(s', r) := run_repair op s in
  quiet (body (state_doc s)) (body (state_doc s')) /\
  (forall cell, active_execution cell s' = None) /\
  kernel_after op (body (state_doc s)) (body (state_doc s')) /\
  rest s' = rest s /\
  match r with
  | Ok res => changed res = false -> root (body (state_doc s')) = root (body (state_doc s))
  | Err e => generate_failed e
  end.
Proof.
  intros Hok Hk Happ.
  assert (exists s1, run_repair op s = finish_repair (history (state_doc s)) s1 /\ repaired op s s1) as (s1 & -> & [He Hq Hka]).
  { destruct op; [by apply gone_repaired|by apply stopped_repaired|by apply cancel_repaired]. }
  pose proof (finish_repair_spec (history (state_doc s)) s1) as [Hd Hr].
  destruct (finish_repair (history (state_doc s)) s1) as [s' r]. cbn [fst snd] in *.
  injection Hd as Hn Hs Hc Hm. rewrite Hs. split_and!; [done| |done| |].
  - intros cell. unfold active_execution. rewrite Hs. destruct (get_execution_id cell _) as [id|]; [|done]. cbn.
    destruct (get_execution id (body (state_doc s1))) as [e|] eqn:Ee; [|done]. cbn.
    pose proof (q_status _ _ Hq id) as Hst. unfold doc_status in Hst at 1. rewrite Ee in Hst. cbn in Hst.
    destruct (doc_status (body (state_doc s)) id); [|done]. injection Hst as ->. by rewrite aborted_inactive.
  - destruct He as [_ He]. unfold rest in *. by rewrite Hn, Hc, Hm.
  - destruct r as [res|e]; [|done]. destruct Hr as (-> & _). by apply edited_unmoved.
Qed.

End Repair.

(** ** A queue that the room owns *)

Section Managed.
Context `{AM : AmLib, AD : !AmDoc (gmap string node), AC : !AmDoc comments_tree}.
Context `{AL : !AmDocLaws (T := gmap string node)}.
Context {PT : Type} `{!EqDecision PT}.
Variable decode_project_trust : option json -> PT.
Variable extras_from_str : string -> option ProjectFileExtras.
Variable status_values : versioned RuntimeStateDoc -> string -> list (repr * string).
(** [get] reads the last of the values [get_all] lists. *)
Hypothesis status_winner : forall v id e, get_execution_entry id (body v) = Some (NMap e) ->
  value_repr <$> e !! "status" = fst <$> last (status_values v id).

Definition is_running (x : string * ExecutionState) : Prop := es_status x.2 = "running".

#[local] Instance is_running_dec x : Decision (is_running x).
Proof. unfold is_running. apply _. Defined.

Lemma collect_queue_spec q pending q' :
  collect_queue q pending = Ok q' ->
  qs_queued q' = qs_queued q ++ ((fun x => mkDocQueueEntry x.1) <$> filter (fun x => ~ is_running x) pending) /\
  option_list (qs_executing q') = option_list (qs_executing q) ++ ((fun x => mkDocQueueEntry x.1) <$> filter is_running pending).
Proof.
  revert q. induction pending as [|[id e] pending IH]; intros q; cbn [collect_queue].
  - intros [= <-]. by rewrite !filter_nil, !app_nil_r.
  - case_decide as Hr.
    + destruct (qs_executing q) as [x|] eqn:Ex; [done|]. intros [H1 H2]%IH.
      rewrite filter_cons_False, filter_cons_True by (unfold is_running; naive_solver). by rewrite H1, H2.
    + intros [H1 H2]%IH. rewrite filter_cons_True, (filter_cons_False is_running) by (unfold is_running; naive_solver).
      rewrite H1, H2. cbn. by rewrite <- app_assoc.
Qed.

Lemma list_elem_of_pending after (ids : list string) x :
  x ∈ omap (pending_execution after) ids <->
  x.1 ∈ ids /\ get_execution x.1 after = Some x.2 /\ (es_status x.2 = "queued" \/ es_status x.2 = "running").
Proof.
  rewrite list_elem_of_omap. destruct x as [id e]. cbn. unfold pending_execution. split.
  - intros (i & Hi & H). rewrite read_executions_lookup in H. destruct (get_execution i after) as [e'|] eqn:E; [|done].
    cbn in H. case_decide; [|done]. by injection H as -> ->.
  - intros (Hi & He & Hs). exists id. rewrite read_executions_lookup, He. cbn. by rewrite decide_True.
Qed.

#[local] Instance managed_le_total : Total managed_le.
Proof.
  intros [i x] [j y]. unfold managed_le. cbn. pose proof (total String.le i j).
  destruct (es_seq x) as [a|], (es_seq y) as [b|]; try tauto. destruct (Z.lt_total a b) as [|[->|]]; tauto.
Qed.

#[local] Instance managed_le_trans : Transitive managed_le.
Proof.
  intros [i x] [j y] [k z]. unfold managed_le. cbn.
  destruct (es_seq x) as [a|], (es_seq y) as [b|], (es_seq z) as [c|]; try tauto; [|by intros; etrans].
  intros [?|[? ?]] [?|[? ?]]; [left; lia..|right; split; [lia|by etrans]].
Qed.

(** The queue after the progress of a managed runtime: what was in the queue and is still
    queued or running, the running execution apart from the waiting ones, which are in
    submission order; and nothing outside the queue moved. *)
Record queue_projected (before preview : RuntimeStateDoc) (q : QueueState) : Prop := {
  qp_members id : id ∈ queue_ids q <->
    id ∈ queue_ids (read_explicit_queue before) /\ exists st, doc_status preview id = Some st /\ active_status st = true;
  qp_once : NoDup (queue_ids q);
  qp_running id : qs_executing q = Some (mkDocQueueEntry id) <->
    id ∈ queue_ids (read_explicit_queue before) /\ doc_status preview id = Some "running";
  qp_order : exists l, StronglySorted managed_le l /\ qs_queued q = (fun x => mkDocQueueEntry x.1) <$> l /\
    Forall (fun x => get_execution x.1 preview = Some x.2 /\ es_status x.2 = "queued") l;
  qp_outside id e : id ∉ queue_ids (read_explicit_queue before) -> get_execution id before = Some e ->
    default "" (doc_status preview id) = es_status e;
}.

Lemma pending_NoDup after (ids : list string) : NoDup ids -> NoDup (omap (pending_execution after) ids).*1.
Proof.
  induction 1 as [|id ids Hid Hnd IH]; [constructor|]. cbn [omap list_omap].
  destruct (pending_execution after id) as [[j e]|] eqn:E; [|done]. cbn [fmap list_fmap fst].
  apply NoDup_cons. split; [|done]. intros ([k e'] & -> & Hin)%list_elem_of_fmap.
  apply list_elem_of_pending in Hin as [Hin _]. cbn in *. unfold pending_execution in E.
  destruct (read_executions after !! id); [|done]. cbn in E. case_decide; [|done]. by injection E as -> _.
Qed.

Lemma queue_ids_collect pending q :
  collect_queue (mkQueueState None []) pending = Ok q ->
  queue_ids q ≡ₚ pending.*1 /\ qs_queued q = (fun x => mkDocQueueEntry x.1) <$> filter (fun x => ~ is_running x) pending /\
  option_list (qs_executing q) = (fun x => mkDocQueueEntry x.1) <$> filter is_running pending.
Proof.
  intros [H1 H2]%collect_queue_spec. cbn in H1, H2. split; [|done]. unfold queue_ids.
  assert (option_list (dqe_execution_id <$> qs_executing q) = (filter is_running pending).*1) as ->.
  { destruct (qs_executing q) as [x|]; cbn in *.
    - by destruct (filter is_running pending) as [|y [|]]; simplify_eq/=.
    - by destruct (filter is_running pending). }
  rewrite H1, <- list_fmap_compose. clear. induction pending as [|x pending IH]; [done|].
  destruct (decide (is_running x)).
  - rewrite (filter_cons_True is_running), filter_cons_False by tauto. cbn. by rewrite IH.
  - rewrite (filter_cons_False is_running), filter_cons_True by tauto. cbn in *. by rewrite <- IH, Permutation_middle.
Qed.

Lemma status_outside before after id e :
  execution_status_values status_values before id = execution_status_values status_values after id ->
  is_ok (execution_status_values status_values before id) -> get_execution id (body before) = Some e ->
  default "" (doc_status (body after) id) = es_status e.
Proof.
  assert (forall v l, execution_status_values status_values v id = Ok l ->
    default "" (doc_status (body v) id) = match last l with Some (RScalar (SStr s), _) => s | _ => "" end) as H.
  { intros v l. rewrite doc_status_entry. unfold execution_status_values. pose proof (status_winner v id) as Hw.
    unfold get_execution_entry, get_map in *. destruct (root (body v) !! "executions") as [[|exs| |]|]; try done; [|by intros [= <-]].
    cbn in *. destruct (exs !! id) as [[|m| |]|]; try done; [|by intros [= <-]]. intros [= <-]. cbn.
    specialize (Hw m eq_refl). unfold read_str. cbn [obj_get].
    destruct (m !! "status") as [n|]; cbn in Hw.
    - destruct (last _) as [[r o]|]; [|done]. injection Hw as <-. by destruct n as [[]| | |].
    - by destruct (last _). }
  intros Heq Hok He. destruct (execution_status_values _ before id) as [l|] eqn:Eb; [|done].
  rewrite (H after l) by done. rewrite <- (H before l Eb). unfold doc_status. by rewrite He.
Qed.

Lemma managed_queue_projected before after q :
  managed_queue_after_progress status_values before after = Ok q -> queue_projected (body before) (body after) q.
Proof.
  unfold managed_queue_after_progress. case_decide as Hq; [|done].
  set (active := queue_ids (read_explicit_queue (body before))).
  destruct (each_ok _ _) as [[]|e] eqn:Ee; [|done]. rewrite each_ok_Ok in Ee.
  set (pending := merge_sort managed_le _). intros Hc. destruct (queue_ids_collect _ _ Hc) as (Hids & Hqd & Hex).
  assert (forall x, x ∈ pending <-> x.1 ∈ active /\ get_execution x.1 (body after) = Some x.2 /\
    (es_status x.2 = "queued" \/ es_status x.2 = "running")) as Hp.
  { intros x. unfold pending. rewrite merge_sort_Permutation, list_elem_of_pending. by rewrite elem_of_remove_dups. }
  assert (forall id st, active_status st = true -> doc_status (body after) id = Some st -> id ∈ active ->
    exists e, (id, e) ∈ pending /\ es_status e = st) as Hin.
  { intros id st Ha Hs Hi. unfold doc_status in Hs. destruct (get_execution id (body after)) as [e|] eqn:E; [|done].
    injection Hs as Hs. exists e. split; [|done]. apply Hp. split_and!; [done..|]. apply bool_decide_eq_true in Ha. naive_solver. }
  split.
  - intros id. rewrite Hids, list_elem_of_fmap. split.
    + intros ([i e] & -> & (Hi & He & Hs)%Hp). split; [done|]. exists (es_status e). cbn in *. unfold doc_status. rewrite He.
      split; [done|]. unfold active_status. by rewrite bool_decide_true.
    + intros (Hi & st & Hs & Ha). destruct (Hin id st Ha Hs Hi) as (e & He & _). by exists (id, e).
  - rewrite Hids. unfold pending. rewrite merge_sort_Permutation. apply pending_NoDup, NoDup_remove_dups.
  - intros id. split.
    + intros Hx. rewrite Hx in Hex. cbn in Hex. destruct (filter is_running pending) as [|[i e] [|]] eqn:Ef; try done.
      injection Hex as <-. assert ((id, e) ∈ filter is_running pending) as H by (rewrite Ef; by left).
      apply list_elem_of_filter in H as [Hr (Hi & He & _)%Hp]. split; [done|]. cbn in *. unfold doc_status. rewrite He. cbn. by f_equal.
    + intros [Hi Hs]. destruct (Hin id "running" eq_refl Hs Hi) as (e & He & Hst).
      assert ((id, e) ∈ filter is_running pending) as H by (by apply list_elem_of_filter).
      destruct (qs_executing q) as [x|]; cbn in Hex.
      * destruct (filter is_running pending) as [|y [|]]; try done. injection Hex as ->. apply list_elem_of_singleton in H as <-. done.
      * destruct (filter is_running pending); [|done]. by apply not_elem_of_nil in H.
  - exists (filter (fun x => ~ is_running x) pending). split_and!; [|done|].
    + apply StronglySorted_filter', (StronglySorted_merge_sort managed_le).
    + apply Forall_forall. intros x [Hr (_ & He & Hs)%Hp]%list_elem_of_filter. split; [done|]. unfold is_running in Hr. tauto.
  - intros id e Hi He. rewrite Forall_forall in Ee.
    assert (id ∈ (map_to_list (read_executions (body before))).*1) as Hd.
    { apply list_elem_of_fmap. exists (id, e). split; [done|]. apply elem_of_map_to_list. by rewrite read_executions_lookup. }
    specialize (Ee id Hd). cbn beta in Ee. rewrite decide_False in Ee by done.
    destruct (execution_status_values _ before id) as [x|] eqn:Eb; [|done].
    destruct (execution_status_values _ after id) as [y|] eqn:Ea; [|done]. case_decide; [subst y|done].
    apply (status_outside before after id e); [by rewrite Eb, Ea|by rewrite Eb|done].
Qed.

Lemma set_queue_reads e q d d' :
  set_queue e q d = (d', Ok ()) -> read_explicit_queue d' = mkQueueState e q.
Proof.
  assert (forall (es : list DocQueueEntry), mkDocQueueEntry <$> (dqe_execution_id <$> es) = es) as Hid
    by (induction es as [|[] es IH]; cbn in *; congruence).
  unfold set_queue, read_explicit_queue, scaffold_map. destruct (get_map "queue" d) as [m|] eqn:Em; [|done].
  case_decide as Hc.
  - intros [= <-]. destruct Hc as [H1 H2]. rewrite Em, H1, H2, Hid. by destruct e as [[]|].
  - destruct (scaffold_list _ _); [|done]. intros [= <-]. rewrite get_map_set_root, decide_True by done.
    unfold read_opt_str, read_str_list. cbn [obj_get]. rewrite lookup_insert_eq, lookup_insert_ne, lookup_insert_eq by done.
    cbn [str_list]. rewrite omap_node_str, Hid. by destruct e as [[]|].
Qed.

(** C17. The runtime of the room's own session may report progress, and only progress: a
    message changes the runtime state only if it comes from the peer of the attached
    managed session, every change in it is the authenticated principal's own and passes the
    policy, and it leaves the queue alone.  The room then keeps in the queue exactly what
    was in it and is still queued or running, each once, the running execution in front
    and the others in submission order; executions outside the queue keep their status, and
    everything else is as the peer wrote it. *)
Theorem managed_progress_projected peer principal session payload s :
  let '(s', r) := receive_managed_runtime_state_sync decode_project_trust extras_from_str status_values
    peer principal session payload s in
  rest s' = rest s /\
  (body (state_doc s') <> body (state_doc s) ->
    peer = "managed-python:" +:+ session /\
    (exists a, workstation_attachment (body (state_doc s)) = Some a /\ managed_session session a = true) /\
    exists preview, runtime_authorized decode_project_trust extras_from_str principal (state_doc s) preview /\
      queue_projected (body (state_doc s)) (body preview) (read_explicit_queue (body (state_doc s'))) /\
      forall k, k <> "queue" -> root (body (state_doc s')) !! k = root (body preview) !! k) /\
  (forall e, r = Err e -> generate_failed e \/ body (state_doc s') = body (state_doc s)).
Proof.
  unfold receive_managed_runtime_state_sync. erewrite bind_ok by done. cbv beta zeta.
  destruct (bool_decide _ && _) eqn:Eg; [|by split_and!; naive_solver].
  apply andb_true_iff in Eg as [->%bool_decide_eq_true Hs].
  destruct (workstation_attachment (body (state_doc s))) as [a|] eqn:Ea; [|done]. apply andb_true_iff in Hs as [Hses _].
  set (peer := "managed-python:" +:+ session).
  unfold receive_runtime_state_sync_inner. cbn [write_scope_allows].
  destruct (decode_for "runtime state" true "RuntimeStateDoc" payload) as [m|e] eqn:Em; [|by run_host; naive_solver].
  erewrite bind_ok by done. cbv beta. erewrite bind_ok by done. cbv beta.
  destruct (has_changes m) eqn:Hch.
  - pose proof (authorize_runtime_spec decode_project_trust extras_from_str status_values peer principal m true s) as Hpre.
    match goal with |- context [(_ ≫= ?f) s] => set (k := f) end.
    destruct (authorize_runtime _ _ _ _ _ _ _ _ s) as [s1 [managed|e]] eqn:Hau.
    2:{ erewrite bind_err by done. destruct Hpre as [Hd _]. injection Hd as Hn Hs1 Hc Hk. unfold rest. rewrite Hn, Hs1, Hc, Hk. naive_solver. }
    erewrite bind_ok by done. unfold k. destruct Hpre as (Hd & preview & st'' & b & Hok & _ & Hman).
    destruct managed as [[v st]|]; [|done]. destruct Hman as (_ & _ & q & d & Hmq & Hsq & Hv).
    injection Hd as Hn Hs1 Hc Hk.
    after_sends (apply_runtime peer true m (Some (v, st))) s2 r H1 H2.
    injection H1 as E1 E2 E3 E4. unfold rest. rewrite E1, E2, E3, E4, Hn, Hc, Hk, Hv. split_and!; [done| |].
    + intros _. split_and!; [done|by exists a|]. exists preview. split_and!; [done| |].
      * rewrite (set_queue_reads _ _ _ _ Hsq). apply managed_queue_projected. by destruct q.
      * intros j Hj. change d with (d, Ok () : result RuntimeStateError ()).1. by rewrite <- Hsq, set_queue_other.
    + intros e He. left. by destruct (H2 e He).
  - erewrite bind_ok by done. cbv beta.
    after_sends (apply_runtime peer true m None) s2 r H1 H2.
    pose proof (apply_runtime_spec peer true m s) as Hap.
    pose proof (runtime_idle "cloud-room-state-receive-sync" m (state_doc s) (entry (runtime_peer_states s) peer true) Hch) as [Hb _].
    destruct (runtime_receive_recovering _ m (state_doc s) _) as [[d st'] ar]. cbn [fst] in Hb.
    destruct Hap as [Hap1 _]. rewrite Hap1 in H1. injection H1 as E1 E2 E3 E4.
    unfold rest. rewrite E1, E2, E3, E4, Hb. split_and!; [done..|]. by right.
Qed.

End Managed.
