(* ===== verification/RoomRequests.v ===== *)
(** * Execution requests of a room

    Theorems about the requests of [RoomHost]: an accepted request queues the cells it
    names, in order and once, with the source they have, and points the cells at their
    executions; a request that is refused or cannot be published leaves nothing behind. *)

From S2P Require Import Prelude Kernel Automunge RuntimeDoc RuntimeOutputs RuntimeComms Identity RuntimePolicy NotebookDoc AmSync RoomHost RoomRepair.

(** ** Sorted executions *)

(** Sorted lists of executions with the same members are the same. *)
Lemma synth_sorted_same l1 l2 :
  StronglySorted synth_le l1 -> StronglySorted synth_le l2 -> NoDup l1.*1 -> NoDup l2.*1 ->
  (forall x, x ∈ l1 <-> x ∈ l2) -> l1 = l2.
Proof.
  intros H1 H2 N1 N2 Hm. apply (StronglySorted_unique_strong synth_le); [|done|done|].
  - intros [i x] [j y] Hx Hy%Hm Hxy Hyx.
    assert (i = j) as <-.
    { unfold synth_le in *. cbn in *. destruct (es_seq x), (es_seq y); try done.
      - destruct Hxy as [?|[? ?]], Hyx as [?|[? ?]]; [lia..|by apply (anti_symm String.le)].
      - by apply (anti_symm String.le). }
    apply list_elem_of_lookup in Hx as [a Ha], Hy as [b Hb]. assert (a = b) as <-; [|congruence].
    eapply (NoDup_lookup l1.*1); [done|by rewrite list_lookup_fmap, Ha|by rewrite list_lookup_fmap, Hb].
  - apply NoDup_Permutation; [by eapply NoDup_fmap_1|by eapply NoDup_fmap_1|done].
Qed.

Lemma NoDup_fst_filter {A B} (P : A * B -> Prop) `{forall x, Decision (P x)} (l : list (A * B)) :
  NoDup l.*1 -> NoDup (filter P l).*1.
Proof.
  induction l as [|x l IH]; [done|]. cbn [fmap list_fmap]. intros [Hx Hl]%NoDup_cons. rewrite filter_cons.
  case_decide; [|by apply IH]. cbn [fmap list_fmap]. apply NoDup_cons. split; [|by apply IH].
  intros (y & Hy & [_ Hin]%list_elem_of_filter)%list_elem_of_fmap. apply Hx. rewrite Hy. apply list_elem_of_fmap. eauto.
Qed.

(** What [synthesize_queued_entries_from_executions] sorts. *)
Definition synthesized (known : list string) (d : RuntimeStateDoc) : list (string * ExecutionState) :=
  merge_sort synth_le (filter (fun x : string * ExecutionState => es_status x.2 = "queued" /\ (x.1 ∉ known))
    (map_to_list (read_executions d))).

Lemma elem_of_synthesized known d x :
  x ∈ synthesized known d <-> es_status x.2 = "queued" /\ (x.1 ∉ known) /\ get_execution x.1 d = Some x.2.
Proof.
  unfold synthesized. rewrite merge_sort_Permutation, list_elem_of_filter. destruct x as [id e]. cbn.
  rewrite elem_of_map_to_list, read_executions_lookup. tauto.
Qed.

Lemma synthesized_NoDup known d : NoDup (synthesized known d).*1.
Proof.
  unfold synthesized. rewrite merge_sort_Permutation. apply NoDup_fst_filter, NoDup_fst_map_to_list.
Qed.

Lemma synthesized_sorted known d : StronglySorted synth_le (synthesized known d).
Proof. apply (StronglySorted_merge_sort synth_le). Qed.

Lemma filter_ext_in {A} (P Q : A -> Prop) `{forall x, Decision (P x), forall x, Decision (Q x)} (l : list A) :
  (forall x, x ∈ l -> (P x <-> Q x)) -> filter P l = filter Q l.
Proof.
  induction l as [|x l IH]; intros Hpq; [done|]. rewrite !filter_cons. rewrite IH by (intros; apply Hpq; by right).
  specialize (Hpq x (list_elem_of_here _ _)). by repeat case_decide; try tauto.
Qed.

(** ** Queued executions in the document *)

Section Entries.
Variable submitter : string.

(** The entry a request creates, and how it reads. *)
Definition entry_node (e : run_entry) : gmap string node :=
  <["submitted_by_actor_label" := str_node submitter]> (<["seq" := NScalar (SUint (re_seq e))]>
    (<["cell_id" := str_node (re_cell_id e)]> (<["source" := str_node (re_source e)]> new_entry))).

Definition queued_state (e : run_entry) : ExecutionState :=
  mkExecution "queued" None None [] (Some (re_source e)) (Some (re_cell_id e)) (Some (re_seq e)) (Some submitter).

Lemma create_fresh e d exs :
  get_map "executions" d = Some exs -> exs !! re_execution_id e = None ->
  create_execution_with_source_provenance (re_execution_id e) (re_source e) (re_seq e) (Some submitter) (Some (re_cell_id e)) d =
    (set_execution exs (re_execution_id e) (NMap (entry_node e)) d, Ok true).
Proof. intros He Hi. unfold create_execution_with_source_provenance, scaffold_map. by rewrite He, Hi. Qed.

(** What an execution reads as depends on its entry only. *)
Lemma get_execution_same id d d' :
  get_execution_entry id d' = get_execution_entry id d -> get_execution id d' = get_execution id d.
Proof. intros H. unfold get_execution, get_outputs, get_output_map. by rewrite H. Qed.

Lemma get_execution_new e d :
  get_execution_entry (re_execution_id e) d = Some (NMap (entry_node e)) ->
  get_execution (re_execution_id e) d = Some (queued_state e).
Proof. intros H. unfold get_execution, get_outputs, get_output_map. rewrite H. done. Qed.

(** A document with new entries: they are there, and nothing else moved but the queue. *)
Record with_entries (entries : list run_entry) (d d' : RuntimeStateDoc) : Prop := {
  we_ok : doc_ok d';
  we_new e : e ∈ entries -> get_execution_entry (re_execution_id e) d' = Some (NMap (entry_node e));
  we_old id : id ∉ re_execution_id <$> entries -> get_execution_entry id d' = get_execution_entry id d;
  we_rest k : k <> "executions" -> root d' !! k = root d !! k;
}.

Lemma with_entries_nil d : doc_ok d -> with_entries [] d d.
Proof. by split; [|set_solver|..]. Qed.

Lemma create_step e d entries d1 :
  NoDup (re_execution_id <$> e :: entries) -> doc_ok d ->
  get_execution_entry (re_execution_id e) d = None ->
  exists d2, create_execution_with_source_provenance (re_execution_id e) (re_source e) (re_seq e) (Some submitter)
      (Some (re_cell_id e)) d = (d2, Ok true) /\ with_entries [e] d d2 /\
    (with_entries entries d2 d1 -> with_entries (e :: entries) d d1).
Proof.
  intros Hnd Hok Hfresh. pose proof Hok as [(exs & He & Hm) _]. unfold get_execution_entry in Hfresh.
  rewrite He in Hfresh. cbn in Hfresh. eexists. split; [by apply create_fresh|].
  assert (with_entries [e] d (set_execution exs (re_execution_id e) (NMap (entry_node e)) d)) as Hw.
  { unfold set_execution. split.
    - apply doc_ok_executions; [done|]. by apply map_Forall_insert_2.
    - intros x ->%list_elem_of_singleton. unfold get_execution_entry. rewrite get_map_set_root, decide_True by done.
      cbn. by rewrite lookup_insert_eq.
    - intros id Hid. unfold get_execution_entry. rewrite get_map_set_root, decide_True, He by done. cbn.
      rewrite lookup_insert_ne by set_solver. done.
    - intros k Hk. by apply set_root_other. }
  split; [exact Hw|]. intros Hr. cbn in Hnd. apply NoDup_cons in Hnd as [Hnin Hnd]. split.
  - apply Hr.
  - intros x [->|Hx]%elem_of_cons; [|by apply Hr]. rewrite (we_old _ _ _ Hr) by done. apply Hw. by left.
  - intros id Hid. cbn in Hid. apply not_elem_of_cons in Hid as [H1 H2]. rewrite (we_old _ _ _ Hr) by done.
    apply Hw. set_solver.
  - intros k Hk. rewrite (we_rest _ _ _ Hr), (we_rest _ _ _ Hw) by done. done.
Qed.

(** *** The queue new work is appended to *)

Variable entries : list run_entry.
Variables d d1 : RuntimeStateDoc.
Hypothesis Hnd : NoDup (re_execution_id <$> entries).
Hypothesis Hfresh : forall e, e ∈ entries -> get_execution_entry (re_execution_id e) d = None.
Hypothesis Hwith : with_entries entries d d1.
(** The written queue names executions that exist. *)
Hypothesis Hlive : forall id, id ∈ queue_ids (read_explicit_queue d) -> is_Some (get_execution_entry id d).

Abbreviation ids := (re_execution_id <$> entries).

Lemma explicit_same : read_explicit_queue d1 = read_explicit_queue d.
Proof. unfold read_explicit_queue. by rewrite (get_map_root "queue" d d1) by (by apply Hwith). Qed.

Lemma room_owned_same : uses_room_owned_queue d1 = uses_room_owned_queue d.
Proof. unfold uses_room_owned_queue, workstation_attachment. by rewrite (get_map_root "workstation" d d1) by (by apply Hwith). Qed.

Lemma fresh_not_queued id : id ∈ queue_ids (read_explicit_queue d) -> id ∉ ids.
Proof. intros Hq (e & -> & He)%list_elem_of_fmap. apply Hlive in Hq as [n Hn]. by rewrite Hfresh in Hn. Qed.

Lemma executions_new id x :
  get_execution id d1 = Some x <->
  (exists e, e ∈ entries /\ id = re_execution_id e /\ x = queued_state e) \/ (id ∉ ids) /\ get_execution id d = Some x.
Proof.
  destruct (decide (id ∈ ids)) as [Hi|Hi].
  - pose proof Hi as (e & -> & He)%list_elem_of_fmap. rewrite (get_execution_new e) by (by apply Hwith). split.
    + intros [= <-]. left. by exists e.
    + intros [(e' & He' & Heq & ->)|[Hn _]]; [|done]. do 2 f_equal.
      apply list_elem_of_lookup in He as [i Hi1], He' as [j Hj]. assert (i = j) as ->; [|congruence].
      eapply (NoDup_lookup ids); [exact Hnd|by rewrite list_lookup_fmap, Hi1|rewrite list_lookup_fmap, Hj; cbn; by f_equal].
  - rewrite (get_execution_same id d d1) by (by apply Hwith). split; [by right|].
    intros [(e & He & -> & _)|[_ H]]; [|done]. destruct Hi. apply list_elem_of_fmap. eauto.
Qed.

(** *** The order of the queue *)

(** Later entries have larger numbers. *)
Hypothesis Hseq : StronglySorted (fun a b => re_seq a < re_seq b) entries.

Definition listed (e : run_entry) : string * ExecutionState := (re_execution_id e, queued_state e).

Lemma synthesized_old :
  filter (fun x => x.1 ∉ ids) (synthesized (queue_ids (read_explicit_queue d)) d1) =
  synthesized (queue_ids (read_explicit_queue d)) d.
Proof.
  apply synth_sorted_same.
  - apply StronglySorted_filter', synthesized_sorted.
  - apply synthesized_sorted.
  - apply NoDup_fst_filter, synthesized_NoDup.
  - apply synthesized_NoDup.
  - intros [id x]. rewrite list_elem_of_filter, !elem_of_synthesized, executions_new. cbn. split.
    + intros (Hi & Hs & Hk & [(e & He & -> & _)|[_ Hx]]); [|done]. destruct Hi. apply list_elem_of_fmap. eauto.
    + intros (Hs & Hk & Hx). assert (id ∉ ids) as Hi; [|tauto]. intros (e & -> & He)%list_elem_of_fmap.
      unfold get_execution in Hx. by rewrite Hfresh in Hx.
Qed.

Lemma synthesized_new :
  filter (fun x => x.1 ∈ ids) (synthesized (queue_ids (read_explicit_queue d)) d1) = listed <$> entries.
Proof.
  apply synth_sorted_same.
  - apply StronglySorted_filter', synthesized_sorted.
  - clear -Hseq. induction Hseq as [|e l Hs IH Hall]; [constructor|]. cbn [fmap list_fmap].
    constructor; [by apply IH|]. apply Forall_fmap. eapply Forall_impl; [exact Hall|]. intros x Hx. unfold synth_le. cbn. by left.
  - apply NoDup_fst_filter, synthesized_NoDup.
  - rewrite <- list_fmap_compose. exact Hnd.
  - intros [id x].
    assert ((id, x) ∈ listed <$> entries <-> exists e, (id, x) = listed e /\ e ∈ entries) as -> by apply list_elem_of_fmap.
    rewrite list_elem_of_filter, elem_of_synthesized, executions_new. cbn [fst snd]. split.
    + intros (Hi & Hs & Hk & [(e & He & -> & ->)|[Hn _]]); [by exists e|done].
    + intros (e & [= -> ->] & He). assert (re_execution_id e ∈ ids) as Hi by (apply list_elem_of_fmap; eauto).
      split_and!; [done|done| |left; eauto]. intros Hq. by apply (fresh_not_queued _ Hq).
Qed.

Lemma push_unseen_spec seen queued (new : list string) :
  NoDup new -> push_unseen seen queued (mkDocQueueEntry <$> new) = queued ++ (mkDocQueueEntry <$> filter (fun id => id ∉ seen) new).
Proof.
  intros Hn. revert seen queued. induction Hn as [|id new Hid Hn IH]; intros seen queued; cbn [fmap list_fmap push_unseen dqe_execution_id].
  - by rewrite filter_nil, app_nil_r.
  - case_decide as Hs.
    + rewrite IH, filter_cons_False by tauto. done.
    + rewrite IH, filter_cons_True by done. cbn [fmap list_fmap]. rewrite <- app_assoc. cbn [app]. do 3 f_equal.
      apply filter_ext_in. intros x Hx. rewrite not_elem_of_cons. split; [tauto|]. intros Hxs. split; [|done]. by intros ->.
Qed.

Lemma filter_fmap_comm {A B} (f : A -> B) (P : B -> Prop) `{forall x, Decision (P x)} (l : list A) :
  filter P (f <$> l) = f <$> filter (fun x => P (f x)) l.
Proof. induction l as [|x l IH]; [done|]. cbn [fmap list_fmap]. rewrite !filter_cons. case_decide; cbn [fmap list_fmap]; by rewrite IH. Qed.

Lemma filter_none {A} (P : A -> Prop) `{forall x, Decision (P x)} (l : list A) : (forall x, x ∈ l -> ~ P x) -> filter P l = [].
Proof. intros Hn. apply elem_of_nil_inv. intros x [Hp Hx]%list_elem_of_filter. by apply (Hn x). Qed.

Lemma filter_every {A} (P : A -> Prop) `{forall x, Decision (P x)} (l : list A) : (forall x, x ∈ l -> P x) -> filter P l = l.
Proof. intros Ha. apply filter_all, Forall_forall. done. Qed.

Lemma queue_ids_queued q x : x ∈ qs_queued q -> dqe_execution_id x ∈ queue_ids q.
Proof. intros Hx. unfold queue_ids. apply elem_of_app. right. apply list_elem_of_fmap. eauto. Qed.

Abbreviation entry_of := (fun x : string * ExecutionState => mkDocQueueEntry x.1).
Abbreviation new_q := (fun x : DocQueueEntry => dqe_execution_id x ∈ ids).
Abbreviation old_q := (fun x : DocQueueEntry => dqe_execution_id x ∉ ids).

Lemma read_queue_synthesized x :
  read_queue x = mkQueueState (qs_executing (read_explicit_queue x))
    (qs_queued (read_explicit_queue x) ++ (entry_of <$> synthesized (queue_ids (read_explicit_queue x)) x)).
Proof. done. Qed.

(** The queue that is published: what was in it, in the same order, and the new entries in
    theirs. *)
Lemma appended_queue :
  let q := accepted_queue d in
  let q1 := accepted_queue d1 in
  let published := push_unseen (queue_ids q1) (qs_queued q1) (mkDocQueueEntry <$> ids) in
  qs_executing q1 = qs_executing q /\ filter old_q published = qs_queued q /\
  filter new_q published = mkDocQueueEntry <$> ids.
Proof.
  intros q q1 published. unfold published. rewrite push_unseen_spec by done.
  assert (Hexp : forall x, x ∈ qs_queued (read_explicit_queue d) -> dqe_execution_id x ∉ ids)
    by (intros x Hx; by apply fresh_not_queued, queue_ids_queued).
  unfold q1, q, accepted_queue. rewrite room_owned_same. destruct (uses_room_owned_queue d).
  - rewrite explicit_same. split; [done|].
    rewrite (filter_every (fun id => id ∉ queue_ids (read_explicit_queue d))) by (intros id Hi Hq; by apply (fresh_not_queued id)).
    rewrite !filter_app, (filter_every old_q (qs_queued _)), (filter_none new_q (qs_queued _)) by auto.
    rewrite (filter_none old_q), (filter_every new_q), app_nil_r by (by intros x (id & -> & Hi)%list_elem_of_fmap; auto). done.
  - rewrite (read_queue_synthesized d1), (read_queue_synthesized d), explicit_same. cbn [qs_executing qs_queued]. split; [done|].
    set (known := queue_ids (read_explicit_queue d)).
    rewrite (filter_none (fun id => id ∉ _)), app_nil_r.
    2:{ intros id Hi Hn. apply Hn. assert (id ∈ (filter (fun x => x.1 ∈ ids) (synthesized known d1)).*1) as H.
        { unfold known. rewrite synthesized_new, <- list_fmap_compose. exact Hi. }
        apply list_elem_of_fmap in H as (x & -> & [_ Hx]%list_elem_of_filter). unfold queue_ids. apply elem_of_app. right.
        cbn [qs_queued]. rewrite fmap_app, elem_of_app. right. rewrite <- list_fmap_compose. apply list_elem_of_fmap. by exists x. }
    rewrite !filter_app, (filter_every old_q (qs_queued _)), (filter_none new_q (qs_queued _)) by auto.
    rewrite !filter_fmap_comm. split.
    + f_equal. f_equal. exact synthesized_old.
    + cbn [app]. etrans; [apply (f_equal (fmap entry_of)); exact synthesized_new|]. rewrite <- !list_fmap_compose. done.
Qed.

End Entries.

(** ** Pointers of cells *)

Section Pointers.
Variable json_from_str : string -> option json.

(** The notebook with the pointers of some cells written. *)
Record pointed (new : list (string * option string)) (d d' : NotebookDoc) : Prop := {
  pt_new cell id : (cell, id) ∈ new -> get_execution_id cell d' = id;
  pt_old cell : cell ∉ new.*1 -> get_execution_id cell d' = get_execution_id cell d;
  pt_cell cell : get_cell json_from_str cell d' = get_cell json_from_str cell d;
  pt_there cell : is_Some (cell_obj_for cell d') <-> is_Some (cell_obj_for cell d);
  pt_order : get_cell_ids d' = get_cell_ids d;
  pt_rest k : k <> "cells" -> d' !! k = d !! k;
}.

Lemma pointed_nil d : pointed [] d d.
Proof. by split; [intros ? ? ?%not_elem_of_nil|..]. Qed.

(** A cell reads the same, whatever its pointer. *)
Lemma read_cell_pointer cell n : read_cell json_from_str (<["execution_id" := n]> cell) = read_cell json_from_str cell.
Proof.
  unfold read_cell, read_cell_metadata, cell_position, read_string, text_at, map_at. by rewrite !lookup_insert_ne by done.
Qed.

Lemma set_pointer cell id d :
  is_Some (cell_obj_for cell d) ->
  exists d', set_execution_id cell id d = (d', Ok true) /\ pointed [(cell, id)] d d'.
Proof.
  intros [c Hc]. unfold set_execution_id.
  destruct (update_cell_spec cell (fun c => <["execution_id" := opt_str_node id]> c) d c Hc) as (d' & Hu & Hn & Ho).
  exists d'. split; [done|].
  pose proof (same_order_field (FI := BitIndex.index) (FIL := BitIndex.index_laws) cell "execution_id" (opt_str_node id) d ltac:(set_solver)) as [_ Hpos]. rewrite Hu in Hpos.
  split.
  - intros k i [= -> ->]%list_elem_of_singleton. unfold get_execution_id. rewrite Hn. cbn. unfold read_string.
    rewrite lookup_insert_eq. by destruct id.
  - intros k Hk. unfold get_execution_id. rewrite Ho by set_solver. done.
  - intros k. unfold get_cell. destruct (decide (k = cell)) as [->|Hk]; [|by rewrite Ho].
    rewrite Hn, Hc. cbn. by rewrite read_cell_pointer.
  - intros k. destruct (decide (k = cell)) as [->|Hk]; [rewrite Hn, Hc|by rewrite Ho]. split; by eexists.
  - unfold get_cell_ids. cbn [fst] in Hpos. by rewrite Hpos.
  - intros k Hk. unfold update_cell in Hu. unfold cell_obj_for in Hc. destruct (cells_map d) as [cells|]; [|done]. cbn in Hc.
    rewrite Hc in Hu. injection Hu as <-. unfold set_cells. by rewrite lookup_insert_ne.
Qed.

Lemma pointed_cons p new d d1 d' :
  NoDup (p :: new).*1 -> pointed [p] d d1 -> pointed new d1 d' -> pointed (p :: new) d d'.
Proof.
  cbn [fmap list_fmap]. intros [Hp Hnd]%NoDup_cons [N1 O1 C1 T1 R1 K1] [N2 O2 C2 T2 R2 K2]. split.
  - intros c i [<-|Hi]%elem_of_cons; [|by apply N2]. rewrite O2 by done. apply N1. by left.
  - intros c [H1 H2]%not_elem_of_cons. rewrite O2 by done. apply O1. set_solver.
  - intros c. by rewrite C2.
  - intros c. by rewrite T2.
  - by rewrite R2.
  - intros k Hk. rewrite K2 by done. by apply K1.
Qed.

End Pointers.

(** ** Accepted requests *)

Section Submit.
Context `{AM : AmLib, AD : !AmDoc (gmap string node), AC : !AmDoc comments_tree}.
Variable json_from_str : string -> option json.

(** The runtime state a request meets: its scaffold is there and its queue names
    executions that exist. *)
Record room_ok (d : RuntimeStateDoc) : Prop := {
  ro_ok : doc_ok d;
  ro_live id : id ∈ queue_ids (read_explicit_queue d) -> is_Some (get_execution_entry id d);
}.

(** The whole effect of an accepted request. *)
Record submitted (submitter : string) (entries : list run_entry) (s s' : RoomHostEngine) : Prop := {
  sb_new e : e ∈ entries -> get_execution (re_execution_id e) (body (state_doc s')) = Some (queued_state submitter e);
  sb_old id : id ∉ re_execution_id <$> entries ->
    get_execution id (body (state_doc s')) = get_execution id (body (state_doc s));
  sb_executing : qs_executing (read_explicit_queue (body (state_doc s'))) = qs_executing (accepted_queue (body (state_doc s)));
  sb_waiting : filter (fun x => dqe_execution_id x ∉ re_execution_id <$> entries)
      (qs_queued (read_explicit_queue (body (state_doc s')))) = qs_queued (accepted_queue (body (state_doc s)));
  sb_appended : filter (fun x => dqe_execution_id x ∈ re_execution_id <$> entries)
      (qs_queued (read_explicit_queue (body (state_doc s')))) = mkDocQueueEntry <$> (re_execution_id <$> entries);
  sb_state k : k <> "executions" -> k <> "queue" -> root (body (state_doc s')) !! k = root (body (state_doc s)) !! k;
  sb_notebook : pointed json_from_str ((fun e => (re_cell_id e, Some (re_execution_id e))) <$> entries) (body (doc s)) (body (doc s'));
  sb_side : side s' = side s;
}.

Lemma write_state_eq {A} wrap (f : DocM A) s d r :
  f (body (state_doc s)) = (d, r) ->
  exists s', write_state wrap f s = (s', match r with Ok a => Ok a | Err e => Err (wrap e) end) /\
    body (state_doc s') = d /\ doc s' = doc s /\ side s' = side s.
Proof. intros Hf. unfold write_state. rewrite Hf. by eexists. Qed.

Lemma write_notebook_eq {A} wrap (f : NotebookM A) s d r :
  f (body (doc s)) = (d, r) ->
  exists s', write_notebook wrap f s = (s', match r with Ok a => Ok a | Err e => Err (wrap e) end) /\
    body (doc s') = d /\ state_doc s' = state_doc s /\ side s' = side s.
Proof. intros Hf. unfold write_notebook. rewrite Hf. by eexists. Qed.

(** Publishing the queue. *)
Lemma append_entries_spec submitter entries d s :
  entries <> [] -> NoDup (re_execution_id <$> entries) -> StronglySorted (fun a b => re_seq a < re_seq b) entries ->
  (forall e, e ∈ entries -> get_execution_entry (re_execution_id e) d = None) -> room_ok d ->
  with_entries submitter entries d (body (state_doc s)) ->
  exists s', append_queued_entries (mkDocQueueEntry <$> (re_execution_id <$> entries)) s = (s', Ok ()) /\
    doc s' = doc s /\ side s' = side s /\
    (forall id, get_execution_entry id (body (state_doc s')) = get_execution_entry id (body (state_doc s))) /\
    (forall k, k <> "queue" -> root (body (state_doc s')) !! k = root (body (state_doc s)) !! k) /\
    let q' := read_explicit_queue (body (state_doc s')) in
    qs_executing q' = qs_executing (accepted_queue d) /\
    filter (fun x => dqe_execution_id x ∉ re_execution_id <$> entries) (qs_queued q') = qs_queued (accepted_queue d) /\
    filter (fun x => dqe_execution_id x ∈ re_execution_id <$> entries) (qs_queued q') = mkDocQueueEntry <$> (re_execution_id <$> entries).
Proof.
  intros Hne Hnd Hseq Hfresh [Hok Hlive] Hwith.
  destruct (appended_queue submitter entries d _ Hnd Hfresh Hwith Hlive Hseq) as (H1 & H2 & H3).
  set (q1 := accepted_queue (body (state_doc s))) in *. set (published := push_unseen _ _ _) in *.
  destruct (set_queue_spec (qs_executing q1) published _ (we_ok _ _ _ _ Hwith)) as (d' & Hq & _ & Hr & Hx & _).
  destruct (write_state_eq PublishQueue _ s _ _ Hq) as (s' & Hw & <- & Hd & Hside).
  exists s'. split_and!.
  - unfold append_queued_entries. destruct entries as [|e l]; [done|]. exact Hw.
  - done.
  - done.
  - intros id. unfold get_execution_entry. by rewrite Hx.
  - intros k Hk. change (body (state_doc s')) with (body (state_doc s'), Ok () : result RuntimeStateError ()).1.
    by rewrite <- Hq, set_queue_other.
  - by rewrite Hr.
Qed.

Lemma create_entries_spec submitter entries created s :
  NoDup (re_execution_id <$> entries) -> doc_ok (body (state_doc s)) ->
  (forall e, e ∈ entries -> get_execution_entry (re_execution_id e) (body (state_doc s)) = None) ->
  exists s', create_entries submitter created entries s = (s', Ok (created ++ (re_execution_id <$> entries))) /\
    with_entries submitter entries (body (state_doc s)) (body (state_doc s')) /\ doc s' = doc s /\ side s' = side s.
Proof.
  revert created s. induction entries as [|e entries IH]; intros created s Hnd Hok Hfresh; cbn [create_entries].
  - exists s. cbn. rewrite app_nil_r. split_and!; [done|by apply with_entries_nil|done..].
  - destruct (create_step submitter e (body (state_doc s)) entries (body (state_doc s)) Hnd Hok) as (d1 & Hc & Hw & _);
      [apply Hfresh; by left|].
    destruct (write_state_eq CreateExecution _ s _ _ Hc) as (s1 & Hw1 & <- & Hd1 & Hs1).
    erewrite bind_ok by exact Hw1. cbv beta iota.
    cbn [fmap list_fmap] in Hnd. pose proof Hnd as [Hn Hnd']%NoDup_cons.
    destruct (IH (created ++ [re_execution_id e]) s1) as (s' & Hr & Hw' & Hd' & Hs').
    + done.
    + apply Hw.
    + intros x Hx. rewrite (we_old _ _ _ _ Hw); [apply Hfresh; by right|].
      intros Heq%list_elem_of_singleton. apply Hn. rewrite <- Heq. apply list_elem_of_fmap. eauto.
    + exists s'. rewrite Hr, <- app_assoc. split_and!; [done| |congruence..].
      destruct (create_step submitter e (body (state_doc s)) entries (body (state_doc s')) Hnd Hok) as (d2 & Hc2 & _ & Hcons);
        [apply Hfresh; by left|]. rewrite Hc in Hc2. injection Hc2 as <-. by apply Hcons.
Qed.

Lemma stamp_entries_spec created stamped entries s :
  NoDup (re_cell_id <$> entries) ->
  (forall e, e ∈ entries -> is_Some (cell_obj_for (re_cell_id e) (body (doc s)))) ->
  exists s', stamp_entries created stamped entries s = (s', Ok (stamped ++ ((fun e => (re_cell_id e, re_previous e)) <$> entries))) /\
    pointed json_from_str ((fun e => (re_cell_id e, Some (re_execution_id e))) <$> entries) (body (doc s)) (body (doc s')) /\
    state_doc s' = state_doc s /\ side s' = side s.
Proof.
  revert stamped s. induction entries as [|e entries IH]; intros stamped s Hnd Hc; cbn [stamp_entries].
  - exists s. cbn. rewrite app_nil_r. split_and!; [done|apply pointed_nil|done..].
  - destruct (set_pointer json_from_str (re_cell_id e) (Some (re_execution_id e)) (body (doc s))) as (d1 & Hset & Hp); [apply Hc; by left|].
    destruct (write_notebook_eq StampFailed _ s _ _ Hset) as (s1 & Hw & <- & Hd1 & Hs1). unfold host. rewrite Hw.
    destruct (IH (stamped ++ [(re_cell_id e, re_previous e)]) s1) as (s' & Hr & Hp' & Hd' & Hs').
    + cbn in Hnd. by apply NoDup_cons in Hnd as [_ ?].
    + intros x Hx. apply (pt_there _ _ _ _ Hp), Hc. by right.
    + exists s'. rewrite Hr, <- app_assoc. split_and!; [done| |congruence..].
      cbn [fmap list_fmap]. eapply pointed_cons; [|exact Hp|exact Hp']. cbn. rewrite <- list_fmap_compose. exact Hnd.
Qed.

Lemma submit_entries_spec submitter entries s :
  entries <> [] -> NoDup (re_execution_id <$> entries) -> NoDup (re_cell_id <$> entries) ->
  StronglySorted (fun a b => re_seq a < re_seq b) entries -> room_ok (body (state_doc s)) ->
  (forall e, e ∈ entries -> get_execution_entry (re_execution_id e) (body (state_doc s)) = None) ->
  (forall e, e ∈ entries -> is_Some (cell_obj_for (re_cell_id e) (body (doc s)))) ->
  exists s', submit_entries submitter entries s = (s', Ok ()) /\ submitted submitter entries s s'.
Proof.
  intros Hne Hnd Hcells Hseq Hok Hfresh Hthere.
  destruct (create_entries_spec submitter entries [] s Hnd (ro_ok _ Hok) Hfresh) as (s1 & H1 & Hw & Hd1 & Hs1).
  destruct (stamp_entries_spec ([] ++ (re_execution_id <$> entries)) [] entries s1 Hcells) as (s2 & H2 & Hp & Hd2 & Hs2); [by rewrite Hd1|].
  rewrite <- Hd2 in Hw.
  destruct (append_entries_spec submitter entries _ s2 Hne Hnd Hseq Hfresh Hok Hw) as (s3 & H3 & Hd3 & Hs3 & He3 & Hk3 & Hq1 & Hq2 & Hq3).
  exists s3. split.
  - unfold submit_entries. erewrite bind_ok by exact H1. erewrite bind_ok by exact H2. unfold host.
    assert (((fun e => mkDocQueueEntry (re_execution_id e)) <$> entries) = mkDocQueueEntry <$> (re_execution_id <$> entries)) as ->
      by (by rewrite <- list_fmap_compose). by rewrite H3.
  - split; [..|done|done|done| | |congruence].
    + intros e He. apply get_execution_new. rewrite He3. by apply Hw.
    + intros id Hid. apply get_execution_same. rewrite He3. by apply Hw.
    + intros k Hk1 Hk2. rewrite Hk3 by done. by apply Hw.
    + by rewrite Hd3, <- Hd1.
Qed.

(** One cell: the same writes, by the path of [ExecuteCell]. *)
Lemma submit_cell_spec submitter cell source id seq previous s :
  room_ok (body (state_doc s)) -> is_Some (cell_obj_for cell (body (doc s))) ->
  match get_execution_entry id (body (state_doc s)) with
  | None => exists s', submit_cell submitter cell source id seq s = (s', Ok true) /\
      submitted submitter [mkRunEntry id cell source seq previous] s s'
  | Some _ => exists s', submit_cell submitter cell source id seq s = (s', Ok false) /\
      body (state_doc s') = body (state_doc s) /\ doc s' = doc s /\ side s' = side s
  end.
Proof.
  intros Hok Hcell. set (e := mkRunEntry id cell source seq previous).
  destruct (get_execution_entry id (body (state_doc s))) as [n|] eqn:Hid.
  - pose proof (ro_ok _ Hok) as [(exs & He & _) _]. unfold get_execution_entry in Hid. rewrite He in Hid. cbn in Hid.
    assert (create_execution_with_source_provenance id source seq (Some submitter) (Some cell) (body (state_doc s)) =
      (body (state_doc s), Ok false)) as Hc by (unfold create_execution_with_source_provenance, scaffold_map; by rewrite He, Hid).
    destruct (write_state_eq CreateExecution _ s _ _ Hc) as (s1 & Hw & Hb & Hd & Hs).
    exists s1. unfold submit_cell. by erewrite bind_ok by exact Hw.
  - destruct (create_step submitter e (body (state_doc s)) [] (body (state_doc s))) as (d1 & Hc & Hw & _);
      [apply NoDup_singleton|apply Hok|done|].
    destruct (write_state_eq CreateExecution _ s _ _ Hc) as (s1 & Hw1 & <- & Hd1 & Hs1).
    destruct (set_pointer json_from_str cell (Some id) (body (doc s1))) as (d2 & Hset & Hp); [by rewrite Hd1|].
    destruct (write_notebook_eq StampFailed _ s1 _ _ Hset) as (s2 & Hw2 & <- & Hd2 & Hs2). rewrite <- Hd2 in Hw.
    destruct (append_entries_spec submitter [e] (body (state_doc s)) s2) as (s3 & H3 & Hd3 & Hs3 & He3 & Hk3 & Hq1 & Hq2 & Hq3);
      [done|apply NoDup_singleton|by repeat constructor|by intros x ->%list_elem_of_singleton|done|done|].
    exists s3. split.
    + unfold submit_cell. erewrite bind_ok by exact Hw1. cbn [negb]. erewrite bind_ok by done. cbv beta zeta. unfold host.
      rewrite Hw2. change [mkDocQueueEntry id] with (mkDocQueueEntry <$> (re_execution_id <$> [e])). by rewrite H3.
    + split; [..|done|done|done| | |congruence].
      * intros x Hx. apply get_execution_new. rewrite He3. by apply Hw.
      * intros i Hi. apply get_execution_same. rewrite He3. by apply Hw.
      * intros k Hk1 Hk2. rewrite Hk3 by done. by apply Hw.
      * by rewrite Hd3, <- Hd1.
Qed.

End Submit.

(** ** The numbers and identifiers of new executions *)

Section Numbers.

(** Every number in use is below a bound. *)
Definition seqs_below (n : Z) (d : RuntimeStateDoc) : Prop :=
  forall id x q, get_execution id d = Some x -> es_seq x = Some q -> 0 <= q < n.

Lemma foldr_max_spec (l : list Z) : 0 <= foldr Z.max 0 l /\ forall q, q ∈ l -> q <= foldr Z.max 0 l.
Proof.
  induction l as [|x l [H1 H2]]; cbn [foldr]; [split; [done|by intros q ?%not_elem_of_nil]|].
  split; [lia|]. intros q [->|Hq]%elem_of_cons; [lia|]. specialize (H2 q Hq). lia.
Qed.

Lemma foldr_max_elem (l : list Z) n : (forall q, q ∈ l -> q < n) -> 0 < n -> foldr Z.max 0 l < n.
Proof.
  intros Hl Hn. induction l as [|x l IH]; cbn [foldr]; [done|].
  pose proof (Hl x (list_elem_of_here _ _)). specialize (IH (fun q Hq => Hl q (list_elem_of_further _ _ _ Hq))). lia.
Qed.

(** The next number is above all of them, and at most the bound. *)
Lemma next_seq_spec n d :
  seqs_below n d -> 0 <= n <= u64_max ->
  0 <= next_seq d <= n /\ forall id x q, get_execution id d = Some x -> es_seq x = Some q -> q < next_seq d.
Proof.
  intros Hb Hn. unfold next_seq. set (seqs := omap es_seq _).
  assert (forall q, q ∈ seqs <-> exists id x, get_execution id d = Some x /\ es_seq x = Some q) as Hs.
  { intros q. unfold seqs. rewrite list_elem_of_omap. split.
    - intros (x & ([id y] & -> & Hin%elem_of_map_to_list)%list_elem_of_fmap & Hq). exists id, y.
      by rewrite <- read_executions_lookup.
    - intros (id & x & Hx & Hq). exists x. split; [|done]. apply list_elem_of_fmap. exists (id, x).
      split; [done|]. apply elem_of_map_to_list. by rewrite read_executions_lookup. }
  destruct seqs as [|q0 seqs'] eqn:E; [split; [lia|]|].
  - intros id x q Hx Hq. assert (q ∈ @nil Z) as Habs by (apply Hs; eauto). by apply not_elem_of_nil in Habs.
  - pose proof (foldr_max_spec (q0 :: seqs')) as [H1 H2].
    assert (forall q, q ∈ q0 :: seqs' -> 0 <= q < n) as Hall by (intros q (id & x & Hx & Hq)%Hs; by eapply Hb).
    pose proof (Hall q0 (list_elem_of_here _ _)).
    pose proof (foldr_max_elem (q0 :: seqs') n (fun q Hq => proj2 (Hall q Hq)) ltac:(lia)).
    unfold u64_max in Hn. rewrite Z.mod_small by lia. split; [lia|].
    intros id x q Hx Hq. specialize (H2 q ltac:(apply Hs; eauto)). lia.
Qed.

End Numbers.

(** ** Requested identifiers *)

Section Requested.
Variable uuid_parse : string -> bool.

Lemma check_ids_spec existing supplied (l : list string) supplied' :
  check_execution_ids uuid_parse existing supplied l = Ok supplied' ->
  NoDup l /\ (forall id, id ∈ l -> (id ∉ supplied) /\ (id ∉ existing)) /\ supplied' = list_to_set l ∪ supplied.
Proof.
  revert supplied. induction l as [|id l IH]; intros supplied; cbn [check_execution_ids].
  - intros [= <-]. split_and!; [constructor|by intros ? ?%not_elem_of_nil|set_solver].
  - destruct (uuid_parse id); cbn [negb]; [|done]. case_decide as H1; [done|]. case_decide as H2; [done|].
    intros (Hnd & Hall & ->)%IH. split_and!.
    + apply NoDup_cons. split; [|done]. intros Hin. destruct (Hall id Hin) as [Hx _]. set_solver.
    + intros x [->|Hx]%elem_of_cons; [done|]. destruct (Hall x Hx). set_solver.
    + set_solver.
Qed.

(** What validation establishes of the requested identifiers. *)
Lemma validated requested existing taken :
  validate_requested_execution_ids uuid_parse requested existing = Ok taken ->
  existing ⊆ taken /\
  (forall ids a b x, requested = Some ids -> ids !! a = Some x -> ids !! b = Some x -> a = b) /\
  (forall ids a x, requested = Some ids -> ids !! a = Some x -> x ∈ taken /\ (x ∉ existing)).
Proof.
  unfold validate_requested_execution_ids. destruct requested as [ids|]; [|by intros [= <-]; naive_solver].
  destruct (check_execution_ids _ _ _ _) as [supplied|] eqn:E; [|done]. intros [= <-].
  apply check_ids_spec in E as (Hnd & Hall & ->). split_and!; [set_solver| |].
  - intros ? a b x [= <-] Ha Hb. apply elem_of_map_to_list, list_elem_of_lookup in Ha as [i Hi], Hb as [j Hj].
    assert (i = j) as <-; [|congruence].
    eapply (NoDup_lookup (map_to_list ids).*2); [done|by rewrite list_lookup_fmap, Hi|by rewrite list_lookup_fmap, Hj].
  - intros ? a x [= <-] Ha. assert (x ∈ (map_to_list ids).*2) as Hx.
    { apply list_elem_of_fmap. exists (a, x). split; [done|]. by apply elem_of_map_to_list. }
    destruct (Hall x Hx). set_solver.
Qed.

End Requested.

Section Drawn.
Variable rng : nat -> string.
Hypothesis rng_inj : Inj (=) (=) rng.

(** The loop that draws an identifier ends with one that is not taken. *)
Lemma allocate_spec n taken : exists id m, allocate_hosted_execution_id rng n taken = Some (id, m) /\ id ∉ taken.
Proof.
  unfold allocate_hosted_execution_id. destruct (list_find _ _) as [[i j]|] eqn:E.
  - apply list_find_Some in E as (_ & Hj & _). cbn. eauto.
  - exfalso. apply list_find_None in E. rewrite Forall_forall in E.
    assert (list_to_set (rng <$> seq n (S (size taken))) ⊆ taken) as Hsub.
    { intros x (i & -> & Hi)%elem_of_list_to_set%list_elem_of_fmap. apply dec_stable, E, Hi. }
    apply subseteq_size in Hsub. rewrite size_list_to_set, length_fmap, length_seq in Hsub; [lia|].
    apply NoDup_fmap; [done|]. apply NoDup_seq.
Qed.

Variable d : NotebookDoc.

(** The entries of a run: one for each cell, in order, numbered from [q] on. *)
Record entries_for (q : Z) (cells : list CellSnapshot) (entries : list run_entry) : Prop := {
  ef_cells : re_cell_id <$> entries = cell_id <$> cells;
  ef_sources : re_source <$> entries = source <$> cells;
  ef_seqs : re_seq <$> entries = (fun i => (q + Z.of_nat i) mod 2 ^ 64) <$> seq 0 (length cells);
  ef_previous : re_previous <$> entries = (fun c => get_execution_id (cell_id c) d) <$> cells;
}.

Lemma entries_for_cons q c cells e entries :
  entries_for (q + 1) cells entries -> re_cell_id e = cell_id c -> re_source e = source c -> re_seq e = q mod 2 ^ 64 ->
  re_previous e = get_execution_id (cell_id c) d -> entries_for q (c :: cells) (e :: entries).
Proof.
  intros [H1 H2 H3 H4] Hc Hs Hq Hp. split; cbn [fmap list_fmap]; [congruence..| |congruence].
  rewrite Hq, H3. cbn [length seq fmap list_fmap]. f_equal; [by rewrite Z.add_0_r|].
  rewrite <- fmap_S_seq, <- list_fmap_compose. apply list_fmap_ext. intros _ i _. cbn. f_equal. lia.
Qed.

Lemma run_entries_spec requested taken n q cells :
  (forall ids a b x, requested = Some ids -> ids !! a = Some x -> ids !! b = Some x -> a = b) ->
  (forall ids a x, requested = Some ids -> ids !! a = Some x -> x ∈ taken) ->
  NoDup (cell_id <$> cells) ->
  exists entries, run_entries rng d requested taken n q cells = Some entries /\ entries_for q cells entries /\
    NoDup (re_execution_id <$> entries) /\
    forall e, e ∈ entries -> match ids ← requested; ids !! re_cell_id e with
      | Some id => re_execution_id e = id
      | None => re_execution_id e ∉ taken
      end.
Proof.
  intros Hinj. revert taken n q. induction cells as [|c cells IH]; intros taken n q Htk Hnd; cbn [run_entries].
  { exists []. split_and!; [done|by split|constructor|by intros e ?%not_elem_of_nil]. }
  cbn [fmap list_fmap] in Hnd. apply NoDup_cons in Hnd as [Hc Hnd].
  destruct (ids ← requested; ids !! cell_id c) as [id|] eqn:Er.
  - destruct (IH taken n (q + 1) Htk Hnd) as (entries & -> & Hf & Hids & Hreq). cbn [mbind option_bind].
    eexists. split; [done|]. split_and!; [by apply entries_for_cons| |].
    + cbn [fmap list_fmap re_execution_id]. apply NoDup_cons. split; [|done]. intros (e & He & Hin)%list_elem_of_fmap.
      assert (re_cell_id e ∈ cell_id <$> cells) as Hce by (rewrite <- (ef_cells _ _ _ Hf); apply list_elem_of_fmap; eauto).
      specialize (Hreq e Hin). destruct requested as [ids|]; [|done]. cbn in Er, Hreq.
      destruct (ids !! re_cell_id e) as [x|] eqn:Ee.
      * apply Hc. rewrite (Hinj ids (cell_id c) (re_cell_id e) id) by (try done; congruence). done.
      * apply Hreq. rewrite <- He. by eapply Htk.
    + intros e [->|He]%elem_of_cons; [|by apply Hreq]. cbn [re_cell_id re_execution_id]. by rewrite Er.
  - destruct (allocate_spec n taken) as (id & m & -> & Hid). cbn [mbind option_bind fst snd].
    destruct (IH ({[id]} ∪ taken) m (q + 1)) as (entries & -> & Hf & Hids & Hreq); [set_solver|done|]. cbn [mbind option_bind].
    eexists. split; [done|]. split_and!; [by apply entries_for_cons| |].
    + cbn [fmap list_fmap re_execution_id]. apply NoDup_cons. split; [|done]. intros (e & He & Hin)%list_elem_of_fmap.
      specialize (Hreq e Hin). destruct (ids ← requested; ids !! re_cell_id e) as [x|] eqn:Ee; [|set_solver].
      destruct requested as [ids|]; [|done]. cbn in Ee. apply Hid. rewrite He, Hreq. by eapply Htk.
    + intros e [->|He]%elem_of_cons; cbn [re_cell_id re_execution_id]; [by rewrite Er|].
      specialize (Hreq e He). destruct (ids ← requested; ids !! re_cell_id e); [done|set_solver].
Qed.

End Drawn.

(** ** Requests *)

Section Requests.
Context `{AM : AmLib, AD : !AmDoc (gmap string node), AC : !AmDoc comments_tree}.
Context `{FI : FractionalIndex, FIL : !FractionalIndexLaws}.
Variable json_from_str : string -> option json.
Variable uuid_parse : string -> bool.
Variable rng : nat -> string.

Definition bodies (s : RoomHostEngine) := (body (doc s), body (state_doc s), comms_doc s, comments_doc s).

Lemma broadcast_sends peer response : sends (broadcast_accepted peer response).
Proof. unfold broadcast_accepted. eauto 12 with nteract. Qed.

Lemma broadcast_spec peer response s :
  let '(s', r) := broadcast_accepted peer response s in
  docs s' = docs s /\
  match r with Ok res => changed res = true /\ execution_response res = Some response | Err e => generate_failed e end.
Proof.
  destruct (broadcast_sends peer response s) as [H1 H2].
  destruct (broadcast_accepted peer response s) as [s' [res|e]] eqn:E; cbn [fst snd] in *; (split; [done|]); [|done].
  revert E. unfold broadcast_accepted, mbind, HostM_bind, mret, HostM_ret.
  repeat (case_match; try done). intros [= _ <-]. done.
Qed.

(** Messages to peers do not change what was submitted. *)
Lemma submitted_docs submitter entries s s1 s2 :
  docs s2 = docs s1 -> submitted json_from_str submitter entries s s1 -> submitted json_from_str submitter entries s s2.
Proof.
  intros [= Hn Hs Hc Hk] [H1 H2 H3 H4 H5 H6 H7 H8]. unfold side in H8. injection H8 as H8 H9.
  split; rewrite ?Hs, ?Hn; try done. unfold side. by rewrite Hc, Hk, H8, H9.
Qed.

(** The execution an [ExecuteCell] asks for. *)
Definition asked_entry (request : json) (cell_id : string) (cell : CellSnapshot) (s : RoomHostEngine) : run_entry :=
  mkRunEntry (default (rng 0%nat) (json_get request "execution_id" ≫= json_str)) cell_id (source cell)
    (next_seq (body (state_doc s))) (get_execution_id cell_id (body (doc s))).

(** [ExecuteCell] is all or nothing.  Either the documents are as they were: the request
    was refused, its cell is active already, whose execution is then reported, or its id is
    used; or the request named a code cell that was not active and an id that was not used,
    and that cell is queued: one execution with the source of the cell, its submitter and
    a number above all others; behind everything that waited, in an unchanged order, with
    the running execution unchanged; the cell points to it; and no other execution, cell or
    document changed.  An error after that can only be an answer that was not generated. *)
Theorem execute_cell_exact n request peer submitter s :
  room_ok (body (state_doc s)) -> seqs_below n (body (state_doc s)) -> 0 <= n <= u64_max ->
  let '(s', r) := handle_execute_cell json_from_str uuid_parse rng request peer submitter s in
  let named := json_get request "cell_id" ≫= json_str in
  let queued := exists cell_id cell, let e := asked_entry request cell_id cell s in
    named = Some cell_id /\ get_cell json_from_str cell_id (body (doc s)) = Some cell /\ cell_type cell = "code" /\
    active_execution cell_id s = None /\ get_execution (re_execution_id e) (body (state_doc s)) = None /\
    (forall id x q, get_execution id (body (state_doc s)) = Some x -> es_seq x = Some q -> q < re_seq e) /\
    submitted json_from_str submitter [e] s s' in
  match r with
  | Ok res =>
      (changed res = true /\ queued /\ exists q, execution_response res = Some (CellQueued q) /\ Some (rq_cell_id q) = named) \/
      (changed res = false /\ bodies s' = bodies s /\
       execution_response res = (cell_id ← named; id ← active_execution cell_id s; Some (CellQueued (mkQueuedCell cell_id id))))
  | Err e => (generate_failed e /\ queued) \/ s' = s
  end.
Proof.
  intros Hok Hbelow Hn. unfold handle_execute_cell.
  destruct (json_get request "cell_id" ≫= json_str) as [cell_id|]; [|by right].
  erewrite bind_ok by done. cbv beta.
  destruct (get_cell json_from_str cell_id (body (doc s))) as [cell|] eqn:Ecell; [|by right].
  destruct (bool_decide (cell_type cell = "code")) eqn:Ety; cbn [negb]; [|by right]. apply bool_decide_eq_true in Ety.
  match goal with |- context [lift ?x] => destruct x as [[]|err] eqn:Eu end; [|by right].
  erewrite bind_ok by done. cbv beta. destruct (active_execution cell_id s) as [active|] eqn:Ea.
  { destruct (bool_decide _); [by right|]. right. cbn. by rewrite Ea. }
  set (id := default (rng 0%nat) _). set (e := asked_entry request cell_id cell s).
  assert (is_Some (cell_obj_for cell_id (body (doc s)))) as Hc
    by (unfold get_cell in Ecell; destruct (cell_obj_for cell_id _); [by eexists|done]).
  pose proof (submit_cell_spec json_from_str submitter cell_id (source cell) id (next_seq (body (state_doc s)))
    (get_execution_id cell_id (body (doc s))) s Hok Hc) as Hsub.
  destruct (get_execution_entry id (body (state_doc s))) as [node|] eqn:Eid.
  - destruct Hsub as (s1 & Hr & Hb & Hd & Hs). erewrite bind_ok by exact Hr. cbv beta iota. right.
    unfold side in Hs. injection Hs as Hs1 Hs2. unfold bodies. rewrite Hb, Hd, Hs1, Hs2. cbn. by rewrite Ea.
  - destruct Hsub as (s1 & Hr & Hsub). erewrite bind_ok by exact Hr. cbv beta iota.
    pose proof (broadcast_spec peer (CellQueued (mkQueuedCell cell_id id)) s1) as Hb.
    destruct (broadcast_accepted _ _ s1) as [s2 r]. destruct Hb as [Hd Hres].
    assert (exists cid c, let e := asked_entry request cid c s in
      Some cell_id = Some cid /\ get_cell json_from_str cid (body (doc s)) = Some c /\ cell_type c = "code" /\
      active_execution cid s = None /\ get_execution (re_execution_id e) (body (state_doc s)) = None /\
      (forall id x q, get_execution id (body (state_doc s)) = Some x -> es_seq x = Some q -> q < re_seq e) /\
      submitted json_from_str submitter [e] s s2) as Hq.
    { exists cell_id, cell. split_and!; [done..| |by apply (next_seq_spec n)|by eapply submitted_docs].
      cbn [asked_entry re_execution_id]. fold id. unfold get_execution. by rewrite Eid. }
    destruct r as [res|err]; [left|by left]. destruct Hres as [Hch Hresp]. split_and!; [done..|]. by eexists.
Qed.

(** The entries of a whole run: every code cell in document order, numbered upwards, with
    the identifier asked for it or a new one, all of them unused. *)
Record run_of (requested : option (gmap string string)) (s : RoomHostEngine) (entries : list run_entry) : Prop := {
  run_entries_are : entries_for (body (doc s)) (next_seq (body (state_doc s)))
    (filter (fun c => cell_type c = "code") (get_cells json_from_str (body (doc s)))) entries;
  run_ids : NoDup (re_execution_id <$> entries);
  run_fresh e : e ∈ entries -> get_execution (re_execution_id e) (body (state_doc s)) = None;
  run_asked e id : e ∈ entries -> (ids ← requested; ids !! re_cell_id e) = Some id -> re_execution_id e = id;
  run_order : StronglySorted (fun a b => re_seq a < re_seq b) entries;
}.

Lemma get_execution_none id d : get_execution id d = None <-> get_execution_entry id d = None.
Proof. unfold get_execution. by destruct (get_execution_entry id d). Qed.

Lemma not_existing id d : id ∉ existing_execution_ids d -> get_execution id d = None.
Proof. unfold existing_execution_ids. rewrite not_elem_of_dom, read_executions_lookup. done. Qed.

(** Numbers that do not wrap are in order. *)
Lemma entries_sorted d q cells entries :
  entries_for d q cells entries -> 0 <= q -> q + zlen cells <= 2 ^ 64 ->
  StronglySorted (fun a b => re_seq a < re_seq b) entries.
Proof.
  revert q entries. induction cells as [|c cells IH]; intros q entries [H1 H2 H3 H4] Hq Hfit.
  - apply fmap_nil_inv in H1 as ->. constructor.
  - destruct entries as [|e entries]; [done|]. cbn [fmap list_fmap length seq] in *. injection H1 as Hc1 H1.
    injection H2 as _ H2. injection H3 as Hq3 H3. injection H4 as _ H4.
    assert (zlen (c :: cells) = zlen cells + 1) as Hl by (unfold zlen; cbn; lia). pose proof (zlen_nonneg cells).
    rewrite <- fmap_S_seq, <- list_fmap_compose in H3.
    assert (entries_for d (q + 1) cells entries) as He.
    { split; [done|done| |done]. rewrite H3. apply list_fmap_ext. intros _ i _. cbn. f_equal. lia. }
    constructor; [apply (IH (q + 1)); [done|lia..]|].
    apply Forall_forall. intros x Hx. rewrite Hq3, Z.add_0_r.
    assert (re_seq x ∈ re_seq <$> entries) as Hin by (apply list_elem_of_fmap; eauto).
    rewrite H3 in Hin. apply list_elem_of_fmap in Hin as (i & -> & Hi). apply elem_of_seq in Hi. unfold zlen in *. cbn.
    rewrite !Z.mod_small by lia. lia.
Qed.

Lemma run_entries_ok requested taken n s :
  validate_requested_execution_ids uuid_parse requested (existing_execution_ids (body (state_doc s))) = Ok taken ->
  notebook_wf (body (doc s)) -> Inj (=) (=) rng -> seqs_below n (body (state_doc s)) ->
  let cells := filter (fun c => cell_type c = "code") (get_cells json_from_str (body (doc s))) in
  0 <= n -> n + zlen cells <= u64_max ->
  exists entries, run_entries rng (body (doc s)) requested taken 0 (next_seq (body (state_doc s))) cells = Some entries /\
    run_of requested s entries /\ NoDup (re_cell_id <$> entries) /\
    forall e, e ∈ entries -> is_Some (cell_obj_for (re_cell_id e) (body (doc s))).
Proof.
  intros Hval Hwf Hrng Hbelow cells Hn Hfit. destruct (validated _ _ _ _ Hval) as (Hsub & Hinj & Htk).
  assert (cell_id <$> get_cells json_from_str (body (doc s)) = get_cell_ids (body (doc s))) as Hids.
  { unfold get_cell_ids. rewrite <- (get_cells_positions json_from_str _ Hwf).
    by rewrite <- list_fmap_compose. }
  assert (NoDup (cell_id <$> cells)) as Hnd.
  { assert (NoDup (cell_id <$> get_cells json_from_str (body (doc s)))) as H by (rewrite Hids; apply NoDup_ids).
    unfold cells. clear -H. induction (get_cells _ _) as [|c l IH]; [done|]. cbn [fmap list_fmap] in H. apply NoDup_cons in H as [Hc Hl].
    rewrite filter_cons. case_decide; [|by apply IH]. cbn [fmap list_fmap]. apply NoDup_cons. split; [|by apply IH].
    intros (x & Hx & [_ Hin]%list_elem_of_filter)%list_elem_of_fmap. apply Hc. rewrite Hx. apply list_elem_of_fmap. eauto. }
  destruct (run_entries_spec rng Hrng (body (doc s)) requested taken 0 (next_seq (body (state_doc s))) cells) as (entries & Hr & Hf & Hd & Hreq);
    [done|intros ids a x Hi Ha; by apply (Htk ids a x)|done|].
  pose proof (zlen_nonneg cells). destruct (next_seq_spec n (body (state_doc s)) Hbelow) as [Hq _]; [lia|].
  exists entries. split; [done|]. split; [split; [done|done|..]|split].
  - intros e He. apply not_existing. specialize (Hreq e He). destruct (ids ← requested; ids !! re_cell_id e) as [id|] eqn:Er; [|set_solver].
    destruct requested as [ids|]; [|done]. cbn in Er. rewrite Hreq. by apply (Htk ids (re_cell_id e) id).
  - intros e id He Hi. specialize (Hreq e He). by rewrite Hi in Hreq.
  - eapply (entries_sorted _ _ _ _ Hf); unfold u64_max in *; lia.
  - by rewrite (ef_cells _ _ _ _ Hf).
  - intros e He. apply elem_of_ids. assert (re_cell_id e ∈ cell_id <$> cells) as Hin
      by (rewrite <- (ef_cells _ _ _ _ Hf); apply list_elem_of_fmap; eauto).
    rewrite <- Hids. apply list_elem_of_fmap in Hin as (c & -> & [_ Hc]%list_elem_of_filter). apply list_elem_of_fmap. eauto.
Qed.

(** C16. [RunAllCells] is all or nothing too: it queues every code cell of the notebook once,
    in document order, with the source it has and the identifier asked for it or a new
    one, behind everything that waited; or it leaves the room as it was, refusing the
    request or finding no code cell.  Drawing identifiers always ends. *)
Theorem run_all_exact n request peer submitter s :
  room_ok (body (state_doc s)) -> notebook_wf (body (doc s)) -> Inj (=) (=) rng ->
  let cells := filter (fun c => cell_type c = "code") (get_cells json_from_str (body (doc s))) in
  seqs_below n (body (state_doc s)) -> 0 <= n -> n + zlen cells <= u64_max ->
  let '(s', r) := handle_run_all_cells json_from_str uuid_parse rng request peer submitter s in
  let queued entries := exists requested, parse_requested_cell_execution_ids request = Ok requested /\
    cells <> [] /\ run_of requested s entries /\ submitted json_from_str submitter entries s s' in
  match r with
  | Ok res =>
      (exists entries, queued entries /\ changed res = true /\ execution_response res =
        Some (AllCellsQueued ((fun e => mkQueuedCell (re_cell_id e) (re_execution_id e)) <$> entries))) \/
      (cells = [] /\ s' = s /\ changed res = false /\ execution_response res = Some (AllCellsQueued []))
  | Err e => (generate_failed e /\ exists entries, queued entries) \/ (s' = s /\ e <> Diverges)
  end.
Proof.
  intros Hok Hwf Hrng cells Hbelow Hn Hfit. unfold handle_run_all_cells.
  destruct (parse_requested_cell_execution_ids request) as [requested|err] eqn:Ep.
  2:{ right. split; [done|]. intros ->. revert Ep. unfold parse_requested_cell_execution_ids. repeat (case_match || case_decide); done. }
  erewrite bind_ok by done. cbv beta. erewrite bind_ok by done. cbv beta zeta. fold cells.
  destruct (validate_requested_execution_ids uuid_parse requested (existing_execution_ids (body (state_doc s)))) as [taken|err] eqn:Ev.
  2:{ right. split; [done|]. intros ->. revert Ev. unfold validate_requested_execution_ids.
      destruct requested as [ids|]; [|done]. destruct (check_execution_ids _ _ _ _) as [x|x] eqn:Ec; [done|]. intros [= ->].
      revert Ec. generalize (∅ : gset string). induction ((map_to_list ids).*2) as [|i l IH]; intros sup; cbn [check_execution_ids]; [done|].
      destruct (uuid_parse i); cbn [negb]; [|done]. repeat (case_decide; [done|]). apply IH. }
  erewrite bind_ok by done. cbv beta. destruct cells as [|c cs] eqn:Ec; [by right|].
  destruct (run_entries_ok requested taken n s Ev Hwf Hrng Hbelow Hn) as (entries & Hr & Hrun & Hnd & Hthere); [by fold cells; rewrite Ec|].
  fold cells in Hr. rewrite Ec in Hr. rewrite Hr.
  assert (entries <> []) as Hne.
  { intros ->. pose proof (ef_cells _ _ _ _ (run_entries_are _ _ _ Hrun)) as H. fold cells in H. by rewrite Ec in H. }
  destruct (submit_entries_spec json_from_str submitter entries s Hne (run_ids _ _ _ Hrun) Hnd (run_order _ _ _ Hrun) Hok) as (s1 & Hs1 & Hsub);
    [intros e He; by apply get_execution_none, (run_fresh _ _ _ Hrun)|done|].
  erewrite bind_ok by exact Hs1. cbv beta.
  match goal with |- context [broadcast_accepted peer ?x s1] => pose proof (broadcast_spec peer x s1) as Hb end.
  destruct (broadcast_accepted _ _ s1) as [s2 r]. destruct Hb as [Hd Hres].
  pose proof (submitted_docs _ _ _ _ _ Hd Hsub) as Hsub2.
  destruct r as [res|err]; left; [destruct Hres as [Hch Hresp]|]; eauto 10.
Qed.

End Requests.

(** ** Requests that fail *)

Section Undo.
Context `{AM : AmLib, AD : !AmDoc (gmap string node), AC : !AmDoc comments_tree}.
Variable json_from_str : string -> option json.

(** The runtime state reads as before, but for the new executions [ids]. *)
Record only_new (ids : list string) (d0 d : RuntimeStateDoc) : Prop := {
  on_new id : id ∈ ids -> get_execution_entry id d0 = None;
  on_old id : id ∉ ids -> get_execution_entry id d = get_execution_entry id d0;
  on_queued : qs_queued (read_explicit_queue d) = qs_queued (read_explicit_queue d0);
  on_rest k : k ∉ ["executions"; "queue"; "display_index"] -> root d !! k = root d0 !! k;
}.

Lemma only_new_refl d : only_new [] d d.
Proof. split; [by intros ? ?%not_elem_of_nil|done..]. Qed.

Lemma only_new_create e submitter ids d0 d :
  only_new ids d0 d ->
  let '(d', r) := create_execution_with_source_provenance (re_execution_id e) (re_source e) (re_seq e) (Some submitter)
    (Some (re_cell_id e)) d in
  match r with Ok true => only_new (ids ++ [re_execution_id e]) d0 d' | _ => d' = d end.
Proof.
  intros [Hn Ho Hq Hr]. unfold create_execution_with_source_provenance, scaffold_map.
  destruct (get_map "executions" d) as [exs|] eqn:He; [|done]. destruct (exs !! re_execution_id e) eqn:Hi; [done|].
  split.
  - intros id [Hid|Hid]%elem_of_app; [by apply Hn|]. apply list_elem_of_singleton in Hid as ->.
    destruct (decide (re_execution_id e ∈ ids)) as [Hin|Hin]; [by apply Hn|]. rewrite <- Ho by done.
    unfold get_execution_entry. by rewrite He.
  - intros id [H1 H2]%not_elem_of_app. rewrite <- Ho by done. unfold get_execution_entry, set_execution.
    rewrite get_map_set_root, decide_True, He by done. cbn. by rewrite lookup_insert_ne by set_solver.
  - rewrite <- Hq. unfold read_explicit_queue, set_execution. by rewrite get_map_set_root, decide_False by done.
  - intros k Hk. rewrite <- Hr by done. apply set_root_other. set_solver.
Qed.

(** A queue that cannot be written keeps what is queued. *)
Lemma only_new_queue_failed ids d0 d e q d' err :
  only_new ids d0 d -> set_queue e q d = (d', Err err) -> only_new ids d0 d'.
Proof.
  intros [Hn Ho Hq Hr] Hs. pose proof (set_queue_other e q d) as Hk. rewrite Hs in Hk. cbn [fst] in Hk. split; [done|..].
  - intros id Hid. rewrite <- Ho by done. unfold get_execution_entry. by rewrite (get_map_root _ _ _ (Hk "executions" ltac:(done))).
  - rewrite <- Hq. revert Hs. unfold set_queue, scaffold_map, read_explicit_queue. destruct (get_map "queue" d) as [m|] eqn:Em; [|by intros [= <- _]; rewrite Em].
    case_decide; [done|]. unfold scaffold_list. cbn [obj_get]. rewrite lookup_insert_ne by done.
    destruct (m !! "queued_execution_ids") as [[| | |]|] eqn:El; intros [= <- _]; rewrite get_map_set_root, decide_True by done;
      cbn; unfold read_str_list; cbn [obj_get]; by rewrite lookup_insert_ne, El by done.
  - intros k Hk'. rewrite <- Hr by done. apply Hk. set_solver.
Qed.

Lemma remove_all_root l d k : k ∉ ["executions"; "display_index"] -> root (remove_all_of l d) !! k = root d !! k.
Proof.
  intros Hk. revert d. induction l as [|id l IH]; intros d; [done|]. unfold remove_all_of. cbn [foldl].
  fold (remove_all_of l (remove_execution id d)). rewrite IH. unfold remove_execution. destruct (get_map "executions" d) as [exs|]; [|done].
  unfold remove_display_index_entries_for_execution. cbn [root with_cache].
  case_match; cbn; rewrite ?lookup_insert_ne; set_solver.
Qed.

Lemma remove_loop_entry x eids (st : RuntimeStateDoc * nat) :
  get_execution_entry x (foldl (fun (st : RuntimeStateDoc * nat) eid =>
        let '(d, removed) := st in
        match get_execution_entry eid d with
        | Some _ => (remove_execution eid d, S removed)
        | None => (d, removed)
        end) st eids).1 = if decide (x ∈ eids) then None else get_execution_entry x st.1.
Proof.
  revert st. induction eids as [|eid eids IH]; intros [d n]; cbn [foldl].
  { by rewrite decide_False by apply not_elem_of_nil. }
  rewrite IH. destruct (decide (x ∈ eids)) as [Hin|Hin]; [by rewrite decide_True by (by right)|].
  destruct (get_execution_entry eid d) eqn:He; cbn [fst].
  - rewrite remove_execution_entry. destruct (decide (x = eid)) as [->|Hne]; [by rewrite decide_True by left|].
    by rewrite decide_False by (apply not_elem_of_cons; done).
  - destruct (decide (x = eid)) as [->|Hne]; [by rewrite He; case_decide|].
    by rewrite decide_False by (apply not_elem_of_cons; done).
Qed.

(** Removing the new executions leaves the old ones. *)
Lemma only_new_undo ids d0 d : only_new ids d0 d -> only_new [] d0 (remove_executions ids d).1.
Proof.
  intros [Hn Ho Hq Hr]. unfold remove_executions. destruct ids as [|i ids]; [by split|].
  destruct (get_map "executions" d) as [exs|] eqn:He.
  2:{ split; [by intros ? ?%not_elem_of_nil| |done..]. intros id _. cbn [fst].
      destruct (decide (id ∈ i :: ids)) as [Hin|]; [|by apply Ho]. rewrite (Hn id Hin). unfold get_execution_entry. by rewrite He. }
  pose proof (fun x => remove_loop_entry x (i :: ids) (d, 0%nat)) as Hent.
  destruct (remove_executions_loop (i :: ids) d 0) as (l & Hl & _). rewrite Hl in Hent |- *. cbn [fst] in Hent |- *.
  split; [by intros ? ?%not_elem_of_nil|..].
  - intros id _. rewrite Hent. case_decide; [by rewrite Hn|by apply Ho].
  - rewrite <- Hq. unfold read_explicit_queue. by rewrite (get_map_root _ _ _ (remove_all_root l d "queue" ltac:(set_solver))).
  - intros k Hk. rewrite remove_all_root by set_solver. by apply Hr.
Qed.

(** The notebook reads as before, but for the pointers of [cells]. *)
Record repointed (cells : list string) (d0 d : NotebookDoc) : Prop := {
  rp_pointer cell : cell ∉ cells -> get_execution_id cell d = get_execution_id cell d0;
  rp_cell cell : get_cell json_from_str cell d = get_cell json_from_str cell d0;
  rp_there cell : is_Some (cell_obj_for cell d) <-> is_Some (cell_obj_for cell d0);
  rp_order : get_cell_ids d = get_cell_ids d0;
  rp_rest k : k <> "cells" -> d !! k = d0 !! k;
}.

(** A pointer that is written is the last one written, if the cell is there at all. *)
Lemma repointed_set cells cells' cell id d0 d :
  repointed cells d0 d ->
  (forall c, c ∉ cells' -> c <> cell -> c ∉ cells) -> (cell ∉ cells' -> id = get_execution_id cell d0) ->
  repointed cells' d0 (set_execution_id cell id d).1.
Proof.
  intros [Hp Hc Ht Ho Hk] Hsub Hid. destruct (cell_obj_for cell d) as [c|] eqn:Ec.
  - destruct (set_pointer json_from_str cell id d) as (d' & -> & [N O C T R K]); [by eexists|]. cbn [fst]. split.
    + intros x Hx. destruct (decide (x = cell)) as [->|Hne]; [rewrite <- Hid by done; apply N; by left|].
      rewrite O by set_solver. apply Hp. auto.
    + intros x. by rewrite C.
    + intros x. by rewrite T.
    + by rewrite R.
    + intros k Hne. by rewrite K, Hk.
  - assert ((set_execution_id cell id d).1 = d) as ->.
    { unfold set_execution_id, update_cell. unfold cell_obj_for in Ec. destruct (cells_map d); [|done]. cbn in Ec. by rewrite Ec. }
    split; [|done..]. intros x Hx. destruct (decide (x = cell)) as [->|Hne]; [|apply Hp; auto].
    unfold get_execution_id. rewrite Ec. destruct (cell_obj_for cell d0) eqn:E0; [|done].
    assert (is_Some (cell_obj_for cell d)) as [? Habs] by (apply Ht; by eexists). congruence.
Qed.

(** What is left of a request that failed. *)
Record unsubmitted (s s' : RoomHostEngine) : Prop := {
  us_state : only_new [] (body (state_doc s)) (body (state_doc s'));
  us_notebook : repointed [] (body (doc s)) (body (doc s'));
  us_side : side s' = side s;
}.

Lemma unsubmitted_refl s : unsubmitted s s.
Proof. split; [apply only_new_refl|by split|done]. Qed.

(** A failed step of a submission: what was created and stamped so far is undone. *)
Record half_done (created : list string) (stamped : list (string * option string)) (s s' : RoomHostEngine) : Prop := {
  hd_state : only_new created (body (state_doc s)) (body (state_doc s'));
  hd_notebook : repointed stamped.*1 (body (doc s)) (body (doc s'));
  hd_previous c id : (c, id) ∈ stamped -> id = get_execution_id c (body (doc s));
  hd_side : side s' = side s;
}.

Lemma undo_executions_half created stamped s s' :
  half_done created stamped s s' ->
  exists s2, undo_executions created s' = (s2, Ok ()) /\ half_done [] stamped s s2.
Proof.
  intros [H1 H2 H3 H4]. eexists. split; [done|]. cbn [fst]. unfold write_state.
  pose proof (only_new_undo _ _ _ H1) as Hu. destruct (remove_executions created (body (state_doc s'))) as [d r].
  cbn [fst] in Hu |- *. by split.
Qed.

(** The pointers are restored from the last to the first; each to what it was. *)
Lemma restore_repointed d0 l cells s :
  repointed cells d0 (body (doc s)) -> (forall c id, (c, id) ∈ l -> id = get_execution_id c d0) ->
  let s' := foldr (fun p s => (write_notebook StampFailed (set_execution_id p.1 p.2) s).1) s l in
  repointed (filter (fun c => c ∉ l.*1) cells) d0 (body (doc s')) /\ state_doc s' = state_doc s /\ side s' = side s.
Proof.
  intros Hr. induction l as [|[c id] l IH]; intros Hl; cbn [foldr fst snd].
  - split; [|done]. destruct Hr as [H1 H2 H3 H4 H5]. split; [|done..]. intros x Hx. apply H1. intros Hin. apply Hx.
    apply list_elem_of_filter. split; [by apply not_elem_of_nil|done].
  - destruct IH as (H1 & H2 & H3); [intros c' i Hi; apply Hl; by right|].
    set (s1 := foldr _ s l) in *. unfold write_notebook.
    pose proof (fun cells' => repointed_set _ cells' c id _ _ H1) as Hset.
    destruct (set_execution_id c id (body (doc s1))) as [d r]. cbn [fst] in Hset. split; [|by cbn].
    apply Hset; [|intros _; apply Hl; by left]. intros x Hx Hne [Hxl Hxc]%list_elem_of_filter. apply Hx.
    apply list_elem_of_filter. split; [|done]. cbn. apply not_elem_of_cons. done.
Qed.

Lemma undo_unsubmitted {A} created stamped e s s' :
  half_done created stamped s s' ->
  exists s2, (_ ← undo_executions created; _ ← restore_cell_execution_pointers stamped; throw (A := A) e) s' = (s2, Err e) /\
    unsubmitted s s2.
Proof.
  intros H. destruct (undo_executions_half _ _ _ _ H) as (s1 & Hu & [H1 H2 H3 H4]).
  erewrite bind_ok by exact Hu. destruct (restore_repointed _ stamped _ s1 H2 H3) as (Hr & Hs & Hside).
  eexists. erewrite bind_ok by done. split; [done|]. split.
  - by rewrite Hs.
  - destruct Hr as [R1 R2 R3 R4 R5]. split; [|done..]. intros c _. apply R1.
    intros [Hc Hin]%list_elem_of_filter. done.
  - by rewrite Hside.
Qed.

Lemma half_create e submitter created s s' :
  half_done created [] s s' ->
  let '(s2, r) := write_state CreateExecution (create_execution_with_source_provenance (re_execution_id e)
        (re_source e) (re_seq e) (Some submitter) (Some (re_cell_id e))) s' in
  match r with Ok true => half_done (created ++ [re_execution_id e]) [] s s2 | _ => half_done created [] s s2 end.
Proof.
  intros [H1 H2 H3 H4]. unfold write_state. pose proof (only_new_create e submitter _ _ _ H1) as Hc.
  destruct (create_execution_with_source_provenance _ _ _ _ _ _) as [d [[]|err]]; [|subst d..]; by split.
Qed.

(** Nothing created yet is nothing to undo. *)
Lemma half_unsubmitted s s' : half_done [] [] s s' -> unsubmitted s s'.
Proof. by intros [H1 H2 H3 H4]. Qed.

(** An execution that was created is in a map that is there. *)
Lemma create_map e submitter d :
  let '(d', r) := create_execution_with_source_provenance (re_execution_id e) (re_source e) (re_seq e) (Some submitter)
    (Some (re_cell_id e)) d in
  match r with Ok true => is_Some (get_map "executions" d') | Ok false => True | Err _ => get_map "executions" d = None end.
Proof.
  unfold create_execution_with_source_provenance, scaffold_map. destruct (get_map "executions" d) as [exs|]; [|done].
  destruct (exs !! re_execution_id e); [done|]. unfold set_execution. rewrite get_map_set_root, decide_True by done. by eexists.
Qed.

Lemma create_entries_half submitter entries created s s' :
  half_done created [] s s' -> (created <> [] -> is_Some (get_map "executions" (body (state_doc s')))) ->
  match create_entries submitter created entries s' with
  | (s2, Ok ids) => half_done ids [] s s2
  | (s2, Err _) => unsubmitted s s2
  end.
Proof.
  revert created s'. induction entries as [|e entries IH]; intros created s' Hh Hm; cbn [create_entries]; [done|].
  pose proof (half_create e submitter _ _ _ Hh) as Hc. pose proof (create_map e submitter (body (state_doc s'))) as Hmap.
  unfold write_state in Hc. destruct (create_execution_with_source_provenance _ _ _ _ _ _) as [d r] eqn:Ed.
  destruct r as [[]|err].
  - erewrite bind_ok by (unfold write_state; rewrite Ed; done). apply IH; [exact Hc|]. intros _. exact Hmap.
  - erewrite bind_ok by (unfold write_state; rewrite Ed; done).
    destruct (undo_executions_half _ _ _ _ Hc) as (s2 & Hu & H2).
    erewrite bind_ok by exact Hu. by apply half_unsubmitted.
  - erewrite bind_err by (unfold write_state; rewrite Ed; done). destruct created; [by apply half_unsubmitted|].
    destruct Hm as [? Hm]; [done|]. congruence.
Qed.

Lemma stamp_half e created stamped s s' :
  half_done created stamped s s' -> re_previous e = get_execution_id (re_cell_id e) (body (doc s)) ->
  half_done created (stamped ++ [(re_cell_id e, re_previous e)]) s
    (write_notebook StampFailed (set_execution_id (re_cell_id e) (Some (re_execution_id e))) s').1.
Proof.
  intros [H1 H2 H3 H4] Hp. unfold write_notebook.
  pose proof (repointed_set _ (stamped ++ [(re_cell_id e, re_previous e)]).*1 (re_cell_id e) (Some (re_execution_id e)) _ _ H2) as Hset.
  destruct (set_execution_id _ _ _) as [d r]. cbn [fst] in Hset |- *. split; [done| | |done].
  - rewrite fmap_app in Hset |- *. apply Hset; [set_solver|]. intros Hn. destruct Hn. set_solver.
  - intros c id [Hin|Hin]%elem_of_app; [by apply H3|]. apply list_elem_of_singleton in Hin as [= -> ->]. done.
Qed.

Lemma stamp_entries_half entries created stamped s s' :
  half_done created stamped s s' ->
  (forall e, e ∈ entries -> re_previous e = get_execution_id (re_cell_id e) (body (doc s))) ->
  match stamp_entries created stamped entries s' with
  | (s2, Ok st) => half_done created st s s2
  | (s2, Err _) => unsubmitted s s2
  end.
Proof.
  revert stamped s'. induction entries as [|e entries IH]; intros stamped s' Hh Hp; cbn [stamp_entries]; [done|].
  pose proof (stamp_half e _ _ _ _ Hh (Hp e ltac:(by left))) as Hs.
  assert (exists b, (set_execution_id (re_cell_id e) (Some (re_execution_id e)) (body (doc s'))).2 = Ok b) as [b Hb].
  { unfold set_execution_id, update_cell. repeat case_match; eauto. }
  unfold host, write_notebook in *. destruct (set_execution_id _ _ _) as [d r]. cbn [fst snd] in Hb, Hs |- *. subst r.
  apply IH; [exact Hs|]. intros x Hx. apply Hp. by right.
Qed.

Lemma append_half entries created stamped s s' s2 e :
  half_done created stamped s s' -> append_queued_entries entries s' = (s2, Err e) -> half_done created stamped s s2.
Proof.
  intros [H1 H2 H3 H4]. unfold append_queued_entries. destruct entries as [|x l]; [done|]. unfold write_state.
  destruct (set_queue _ _ _) as [d [a|err]] eqn:Eq; [done|]. intros [= <- _]. split; [|done..].
  by eapply only_new_queue_failed.
Qed.

Lemma submit_entries_undone submitter entries s s' e :
  (forall e, e ∈ entries -> re_previous e = get_execution_id (re_cell_id e) (body (doc s))) ->
  submit_entries submitter entries s = (s', Err e) -> unsubmitted s s'.
Proof.
  intros Hp. unfold submit_entries.
  assert (half_done [] [] s s) as H0 by (split; [apply only_new_refl|by split|by intros ? ? ?%not_elem_of_nil|done]).
  pose proof (create_entries_half submitter entries [] s s H0) as Hc.
  destruct (create_entries _ _ _ s) as [s1 [ids|err]] eqn:Ec.
  2:{ erewrite bind_err by exact Ec. intros [= <- _]. by apply Hc. }
  erewrite bind_ok by exact Ec. pose proof (stamp_entries_half entries ids [] s s1 (Hc ltac:(done)) Hp) as Hs.
  destruct (stamp_entries ids [] entries s1) as [s2 [st|err]] eqn:Es.
  2:{ erewrite bind_err by exact Es. by intros [= <- _]. }
  erewrite bind_ok by exact Es. unfold host. destruct (append_queued_entries _ s2) as [s3 [[]|err]] eqn:Ea; [done|].
  destruct (undo_unsubmitted (A := ()) ids st err s s3 (append_half _ _ _ _ _ _ _ Hs Ea)) as (s4 & -> & Hu). by intros [= <- _].
Qed.

Lemma submit_cell_undone submitter cell src id seq s s' e :
  submit_cell submitter cell src id seq s = (s', Err e) -> unsubmitted s s'.
Proof.
  set (x := mkRunEntry id cell src seq (get_execution_id cell (body (doc s)))).
  assert (half_done [] [] s s) as H0 by (split; [apply only_new_refl|by split|by intros ? ? ?%not_elem_of_nil|done]).
  unfold submit_cell. pose proof (half_create x submitter _ _ _ H0) as Hc. cbn [re_execution_id re_source re_seq re_cell_id x] in Hc.
  destruct (write_state _ _ s) as [s1 [[]|err]] eqn:E1.
  - erewrite bind_ok by exact E1. cbn [negb]. erewrite bind_ok by done. cbv beta zeta. unfold host.
    assert (doc s1 = doc s) as Hd by (unfold write_state in E1; destruct (create_execution_with_source_provenance _ _ _ _ _ _); by injection E1 as <- _).
    pose proof (stamp_half x _ _ _ _ Hc eq_refl) as Hs. cbn [re_execution_id re_cell_id re_previous x app] in Hs.
    assert (exists b, (set_execution_id cell (Some id) (body (doc s1))).2 = Ok b) as [b Hb]
      by (unfold set_execution_id, update_cell; repeat case_match; eauto).
    unfold write_notebook at 1 in Hs. unfold write_notebook at 1. destruct (set_execution_id cell (Some id) _) as [d r].
    cbn [fst snd] in Hb, Hs |- *. subst r.
    destruct (append_queued_entries _ _) as [s3 [[]|err]] eqn:Ea; [done|].
    destruct (undo_unsubmitted (A := bool) [id] [(cell, re_previous x)] err s s3 (append_half _ _ _ _ _ _ _ Hs Ea)) as (s4 & Hu & Hun).
    cbn [re_previous x] in Hu. rewrite Hd. intros Hrun. assert (s4 = s') as <-; [|done].
    revert Hu Hrun. unfold undo_executions, restore_cell_execution_pointers, ignore, mbind, HostM_bind, throw. cbn [foldr fst snd]. by intros [= <-] [= <-].
  - erewrite bind_ok by exact E1. done.
  - erewrite bind_err by exact E1. intros [= <- _]. by apply half_unsubmitted.
Qed.

Lemma run_entries_previous rng d requested taken n seq cells entries :
  run_entries rng d requested taken n seq cells = Some entries ->
  forall e, e ∈ entries -> re_previous e = get_execution_id (re_cell_id e) d.
Proof.
  revert taken n seq entries. induction cells as [|c cells IH]; intros taken n seq entries; cbn [run_entries].
  { intros [= <-] e He. by apply not_elem_of_nil in He. }
  destruct (ids ← requested; ids !! cell_id c) as [id|].
  - destruct (run_entries _ _ _ _ _ _ cells) as [rest|] eqn:Er; [|done]. intros [= <-] e [->|He]%elem_of_cons; [done|by eapply IH].
  - destruct (allocate_hosted_execution_id rng n taken) as [[id k]|]; [|done]. cbn.
    destruct (run_entries _ _ _ _ _ _ cells) as [rest|] eqn:Er; [|done]. intros [= <-] e [->|He]%elem_of_cons; [done|by eapply IH].
Qed.

Variable uuid_parse : string -> bool.
Variable rng : nat -> string.

(** C40. A request that fails leaves nothing behind, in whatever state the documents are:
    unless only an answer to a peer could not be generated, the executions and what is
    queued, the cells and their pointers read as before, and so does every other part of
    the documents but the index of displays, which may lose entries of the identifiers
    that were undone. *)
Theorem failed_requests_undone request peer submitter s s' e :
  handle_execute_cell json_from_str uuid_parse rng request peer submitter s = (s', Err e) \/
  handle_run_all_cells json_from_str uuid_parse rng request peer submitter s = (s', Err e) ->
  generate_failed e \/ unsubmitted s s'.
Proof.
  pose proof (unsubmitted_refl s) as Hrefl. intros [H|H].
  - revert H. unfold handle_execute_cell. destruct (json_get request "cell_id" ≫= json_str) as [cell_id|]; [|by intros [= <- _]; right].
    erewrite bind_ok by done. cbv beta. destruct (get_cell json_from_str cell_id (body (doc s))) as [cell|]; [|by intros [= <- _]; right].
    destruct (negb _); [by intros [= <- _]; right|]. match goal with |- context [lift ?x] => destruct x as [[]|err] end; [|by intros [= <- _]; right].
    erewrite bind_ok by done. cbv beta. destruct (active_execution cell_id s); [destruct (bool_decide _); [by intros [= <- _]; right|done]|].
    cbv zeta.
    match goal with |- context [submit_cell ?a ?b ?c ?i ?q] => destruct (submit_cell a b c i q s) as [s1 [[]|err]] eqn:Es end.
    + erewrite bind_ok by exact Es. cbv beta iota. intros Hb. left. match type of Hb with broadcast_accepted _ ?r _ = _ => destruct (broadcast_sends peer r s1) as [_ H2] end. by rewrite Hb in H2.
    + by erewrite bind_ok by exact Es.
    + erewrite bind_err by exact Es. intros [= <- _]. right. by eapply submit_cell_undone.
  - revert H. unfold handle_run_all_cells. destruct (parse_requested_cell_execution_ids request) as [requested|err]; [|by intros [= <- _]; right].
    do 2 (erewrite bind_ok by done; cbv beta zeta). destruct (validate_requested_execution_ids _ _ _) as [taken|err]; [|by intros [= <- _]; right].
    erewrite bind_ok by done. cbv beta. destruct (filter _ _) as [|c cs]; [done|].
    destruct (run_entries _ _ _ _ _ _ _) as [entries|] eqn:Er; [|by intros [= <- _]; right].
    destruct (submit_entries submitter entries s) as [s1 [[]|err]] eqn:Es.
    + erewrite bind_ok by exact Es. cbv beta iota. intros Hb. left. match type of Hb with broadcast_accepted _ ?r _ = _ => destruct (broadcast_sends peer r s1) as [_ H2] end. by rewrite Hb in H2.
    + erewrite bind_err by exact Es. intros [= <- _]. right. eapply submit_entries_undone; [|exact Es]. by eapply run_entries_previous.
Qed.

End Undo.
