(* ===== verification/RoomExamples.v ===== *)
(** * A room at work

    The theorems of the room host at concrete rooms: a history that counts its changes
    stands for Automerge and satisfies the laws the theorems ask for, and the room has a
    small notebook, a queue and a managed runtime.  With the corner cases of requests and
    of the error boundary that the model shows. *)

From stdpp Require Import pretty.
From S2P Require Import Prelude Comments Kernel Automunge RuntimeDoc RuntimeOutputs RuntimeComms Identity RuntimePolicy NotebookDoc AmSync RoomHost RoomRepair RoomRequests.

(** ** A history that counts *)

Module CountingHistory.

(** A message carries nothing, one labelled edit, or an edit that fails half way. *)
Inductive message := Idle | Change (label : string) (edit : gmap string node -> gmap string node) | Broken (e : AmError).

Section Library.
Variable decode_bytes : bytes -> result string message.

#[local] Instance lib : AmLib := {|
  Hist := list ChangeActor; SyncState := nat; Message := message;
  state_new := 0%nat; state_new_read_only := 0%nat;
  decode := decode_bytes; encode := fun _ => [];
  has_changes m := match m with Idle => false | _ => true end;
  heads h := [pretty (length h)];
  get_changes h before :=
    match list_find (fun n => pretty n ∈ before) (seq 0 (S (length h))) with
    | Some (k, _) => firstn (length h - k) h
    | None => h
    end;
  get_change_by_hash h hash := bool_decide (hash ∈ change_hash <$> h);
  parse_change_hash := Some;
|}.

Definition commit (h : list ChangeActor) : list ChangeActor := mkChange "room/host" (pretty (S (length h))) :: h.

(** Documents of any kind; [touch] is what an edit does to one, and a state that is behind
    is answered with a message. *)
Definition doc_of {T} (touch : (gmap string node -> gmap string node) -> T -> T) : AmDoc T := {|
  am_receive v st m :=
    match m with
    | Idle => (v, st, Returned (Ok ()))
    | Change label edit =>
        (mkV (touch edit (body v)) (mkChange label (pretty (S (length (history v)))) :: history v), st, Returned (Ok ()))
    | Broken e => (v, st, Returned (Err e))
    end;
  am_generate v st := if (st =? length (history v))%nat then (st, Returned None)
    else (length (history v), Returned (Some Idle));
  am_reload v := Returned (Ok v);
  am_commit h _ _ := commit h;
|}.

#[local] Instance trees : AmDoc (gmap string node) := doc_of (fun edit => edit).
#[local] Instance comments : AmDoc comments_tree := doc_of (fun _ t => t).

(** Local writes only add changes, so equal heads are the same state. *)
Lemma counting_laws {T} (touch : (gmap string node -> gmap string node) -> T -> T) : AmDocLaws (AM := doc_of touch).
Proof.
  split.
  - intros v st [| |]; done.
  - by intros v v' [= <-].
  - intros v v' Hr Hh. cbn in Hh. injection Hh as Hh%(inj pretty). revert Hh.
    assert (v = v' \/ (length (history v) < length (history v'))%nat) as [<-|]; [|done|lia].
    induction Hr as [|v w v' Hs _ IH]; [by left|]. right. rewrite Hs in IH. cbn in IH |- *.
    destruct IH as [<-|IH]; [rewrite Hs; cbn; lia|]. cbn in *. lia.
Qed.

End Library.
End CountingHistory.

Module RoomExamples.
Import CountingHistory BitIndex CodePoints.

(** ** The room *)

Definition no_json : string -> option json := fun _ => None.

(** A peer starts an execution, or adds a cell. *)
Definition start_x1 (t : gmap string node) : gmap string node :=
  RuntimeDoc.root (set_execution_running "x1" (from_doc t)).1.
Definition add_c (t : gmap string node) : gmap string node := (add_cell_after "c" "code" None t).1.

Definition decoded (payload : bytes) : result string message :=
  match payload with
  | [] => Ok Idle
  | [Byte.x00] => Ok (Change "local:alice/desktop:tab1" add_c)
  | [Byte.x01] => Ok (Change "local:alice/desktop:tab1" start_x1)
  | [Byte.x02] => Ok (Change "local:mallory/desktop:tab1" start_x1)
  | [Byte.x03] => Ok (Broken (PatchLogMismatch "patch log"))
  | _ => Err "unknown message"
  end.

#[local] Instance room_lib : AmLib := lib decoded.
#[local] Instance room_trees : AmDoc (gmap string node) := trees decoded.
#[local] Instance room_comments : AmDoc comments_tree := comments decoded.
#[local] Instance room_tree_laws : AmDocLaws (T := gmap string node) := counting_laws decoded (fun edit => edit).
#[local] Instance room_comments_laws : AmDocLaws (T := comments_tree) := counting_laws decoded (fun _ t => t).

Definition notebook : NotebookDoc :=
  foldl (notebook_step no_json) (new_notebook "n1")
    [NAdd 0 "a" "code"; NAdd 1 "t" "markdown"; NAdd 2 "b" "code"; NUpdateSource "a" "print(1)"].

Definition attachment : WorkstationAttachmentState :=
  mkWorkstation MANAGED_WORKSTATION "Managed" "cloud" "python" "managed" "ready" None None None None None None (Some "s1").

Definition runtime : RuntimeStateDoc := (RuntimeComms.set_workstation_attachment (Some attachment) new_runtime_doc).1.

Definition room : RoomHostEngine :=
  mkEngine (mkV notebook []) (mkV runtime []) (mkV ∅ []) (mkV (seed_doc "room/host") []) ∅ ∅ ∅ ∅.

(** Identifiers drawn in order. *)
Definition drawn (n : nat) : string := pretty n.

Definition ask (cell id : string) : json := JObject {["cell_id" := JString cell; "execution_id" := JString id]}.

Definition execute (cell id : string) : HostM RoomHostFrameResult :=
  handle_execute_cell no_json (fun _ => true) drawn (ask cell id) "tab" "local:alice/desktop:tab1".

Definition run_all : HostM RoomHostFrameResult :=
  handle_run_all_cells no_json (fun _ => true) drawn (JObject ∅) "tab" "local:alice/desktop:tab1".

Definition queued_room : RoomHostEngine := (execute "a" "x1" room).1.

Example requests_run :
  (read_explicit_queue (body (state_doc queued_room)),
   execution_response <$> (match (execute "a" "x1" room).2 with Ok r => Some r | Err _ => None end)) =
  (mkQueueState None [mkDocQueueEntry "x1"], Some (Some (CellQueued (mkQueuedCell "a" "x1")))).
Proof. vm_compute. reflexivity. Qed.

Example run_all_runs :
  read_explicit_queue (body (state_doc (run_all queued_room).1)) =
  mkQueueState None [mkDocQueueEntry "x1"; mkDocQueueEntry "0"; mkDocQueueEntry "1"].
Proof. vm_compute. reflexivity. Qed.

(** A check that implies [doc_ok]. *)
Definition doc_check (d : RuntimeStateDoc) : bool :=
  match get_map "executions" d, get_map "queue" d with
  | Some exs, Some q =>
      forallb (fun x : string * node => match x.2 with NMap _ => true | _ => false end) (map_to_list exs) &&
      match q !! "queued_execution_ids" with Some (NList _) => true | _ => false end
  | _, _ => false
  end.

Lemma doc_check_ok d : doc_check d = true -> doc_ok d.
Proof.
  unfold doc_check. intros H. destruct (get_map "executions" d) as [exs|] eqn:Ee; [|done].
  destruct (get_map "queue" d) as [q|] eqn:Eq; [|done]. apply andb_true_iff in H as [H1 H2]. split.
  - exists exs. split; [done|]. intros k n Hk%elem_of_map_to_list.
    rewrite forallb_forall in H1. specialize (H1 (k, n) (proj1 (list_elem_of_In _ _) Hk)). cbn in H1.
    by destruct n; try done; eexists.
  - exists q. destruct (q !! "queued_execution_ids") as [[| | |]|] eqn:El; try done. eauto.
Qed.

Lemma room_doc_ok : doc_ok (body (state_doc room)).
Proof. by apply doc_check_ok; vm_compute. Qed.

Lemma queued_room_ok : doc_ok (body (state_doc queued_room)).
Proof. by apply doc_check_ok; vm_compute. Qed.

Lemma notebook_is_wf : notebook_wf notebook.
Proof. by apply (history_spec no_json), new_notebook_wf. Qed.

(** The room's queue is empty, so the executions in it exist. *)
Lemma room_is_ok : room_ok (body (state_doc room)).
Proof.
  split; [exact room_doc_ok|]. assert (queue_ids (read_explicit_queue (body (state_doc room))) = []) as -> by (by vm_compute).
  by intros id ?%not_elem_of_nil.
Qed.

Lemma room_seqs : seqs_below 0 (body (state_doc room)).
Proof.
  intros id x q Hx. exfalso. revert Hx. unfold get_execution, get_execution_entry.
  assert (get_map "executions" (body (state_doc room)) = Some ∅) as -> by (by vm_compute). done.
Qed.

(** What a run of the room left and whether it reported a change. *)
Definition reported {A} (f : A -> bool) (r : result RoomHostError A) : option bool :=
  match r with Ok a => Some (f a) | Err _ => None end.

Lemma execute_cell_exact_witness :
  exists cell, submitted no_json "local:alice/desktop:tab1" [asked_entry drawn (ask "a" "x1") "a" cell room] room queued_room.
Proof.
  assert (reported changed (execute "a" "x1" room).2 = Some true) as Hr by (by vm_compute).
  unfold queued_room, execute in *.
  pose proof (execute_cell_exact no_json (fun _ => true) drawn 0 (ask "a" "x1") "tab" "local:alice/desktop:tab1" room
    room_is_ok room_seqs ltac:(unfold u64_max; lia)) as H.
  destruct (handle_execute_cell _ _ _ _ _ _ room) as [s' [res|e]]; [|done]. cbn in Hr.
  destruct H as [(_ & (id & cell & Hid & _ & _ & _ & _ & _ & H) & _)|(Hc & _)]; [|rewrite Hc in Hr; done].
  exists cell. injection Hid as <-. exact H.
Defined.

Lemma run_all_exact_witness :
  exists entries, submitted no_json "local:alice/desktop:tab1" entries room (run_all room).1 /\
    re_cell_id <$> entries = ["a"; "b"].
Proof.
  assert (reported changed (run_all room).2 = Some true) as Hr by (by vm_compute).
  unfold run_all in *.
  pose proof (run_all_exact no_json (fun _ => true) drawn 0 (JObject ∅) "tab" "local:alice/desktop:tab1" room
    room_is_ok notebook_is_wf (inj pretty)) as H. cbv zeta in H.
  specialize (H room_seqs ltac:(lia) ltac:(vm_compute; done)).
  destruct (handle_run_all_cells _ _ _ _ _ _ room) as [s' [res|e]]; [|done]. cbn in Hr.
  destruct H as [(entries & (ids & _ & _ & Hrun & H) & _)|(_ & _ & Hc & _)]; [|rewrite Hc in Hr; done].
  exists entries. split; [exact H|]. rewrite (ef_cells _ _ _ _ (run_entries_are _ _ _ _ Hrun)). vm_compute. reflexivity.
Defined.

(** A runtime state without queue: the cells cannot be queued, and nothing is left. *)
Definition queueless : RoomHostEngine :=
  with_state (mkV (mkRuntimeDoc (delete "queue" (RuntimeDoc.root runtime)) ∅) []) room.

Lemma failed_requests_undone_witness :
  reported changed (run_all queueless).2 = None /\ unsubmitted no_json queueless (run_all queueless).1.
Proof.
  assert (reported changed (run_all queueless).2 = None) as Hr by (by vm_compute).
  assert (match (run_all queueless).2 with Err (PublishQueue _) => true | _ => false end = true) as He by (by vm_compute).
  split; [exact Hr|]. unfold run_all in *.
  pose proof (failed_requests_undone no_json (fun _ => true) drawn (JObject ∅) "tab" "local:alice/desktop:tab1" queueless) as H.
  destruct (handle_run_all_cells _ _ _ _ _ _ queueless) as [s' [res|e]]; [discriminate Hr|]. cbn [fst snd] in He |- *.
  destruct (H s' e (or_intror eq_refl)) as [(document & x & Hx)|Hu]; [rewrite Hx in He; discriminate He|exact Hu].
Defined.

(** The patches of an edit: one in a cell. *)
Definition cell_patch (h : list ChangeActor) (before after : list string) : list Patch :=
  if decide (before = after) then [] else [mkPatch [PMap "cells"; PMap "c"] OtherAction].

Definition status_ops (v : versioned RuntimeStateDoc) (id : string) : list (repr * string) :=
  match get_execution_entry id (body v) with
  | Some (NMap e) => match e !! "status" with Some n => [(value_repr n, "op")] | None => [] end
  | _ => []
  end.

Definition frame (principal scope : string) (bs : bytes) : HostM RoomHostFrameResult :=
  receive_peer_frame no_json (fun _ => Err "no request") (fun _ => ()) (fun _ => None) cell_patch status_ops []
    (fun _ => true) drawn "tab" principal "local:alice/desktop:tab1" scope false bs.

Example frames_run :
  (get_cell_ids (body (doc (frame "local:alice" "editor" [AUTOMERGE_SYNC; Byte.x00] room).1)),
   reported notebook_changed (frame "local:alice" "editor" [AUTOMERGE_SYNC; Byte.x00] room).2) =
  (["c"; "a"; "t"; "b"], Some true) /\
  reported changed (frame "local:bob" "editor" [AUTOMERGE_SYNC; Byte.x00] room).2 = None /\
  reported changed (frame "local:alice" "viewer" [AUTOMERGE_SYNC; Byte.x00] room).2 = None /\
  reported changed (frame "local:alice" "editor" [RUNTIME_STATE_SYNC; Byte.x01] queued_room).2 = None.
Proof. vm_compute. done. Qed.

Lemma frames_stay_in_scope_witness :
  notebook_authorized cell_patch [] "local:alice" false (doc room)
    (doc (frame "local:alice" "editor" [AUTOMERGE_SYNC; Byte.x00] room).1).
Proof.
  pose proof (frames_stay_in_scope no_json (fun _ => Err "no request") (fun _ => ()) (fun _ => None) cell_patch status_ops []
    (fun _ => true) drawn "tab" "local:alice" "local:alice/desktop:tab1" "editor" false [AUTOMERGE_SYNC; Byte.x00] room) as H.
  assert (get_cell_ids (body (doc (frame "local:alice" "editor" [AUTOMERGE_SYNC; Byte.x00] room).1)) <> get_cell_ids (body (doc room)))
    as Hne by (vm_compute; discriminate).
  unfold frame in *. destruct (receive_peer_frame _ _ _ _ _ _ _ _ _ _ _ _ _ _ _ room) as [s' r]. cbn [fst] in Hne |- *.
  destruct H as [H _]. destruct H as [(scope & payload & _ & Hf & _)|(scope & payload & _ & _ & _ & H)]; [congruence|discriminate|exact H].
Defined.

(** The execution runs when the runtime goes away, and is in error after the repair. *)
Definition running_room : RoomHostEngine :=
  (write_state (StateWrite "start") (set_execution_running "x1") queued_room).1.

Lemma repairs_settle_witness :
  doc_status (body (state_doc (run_repair (PeerGone "lost") running_room).1)) "x1" = Some "error" /\
  quiet (body (state_doc running_room)) (body (state_doc (run_repair (PeerGone "lost") running_room).1)).
Proof.
  pose proof (repairs_settle (PeerGone "lost") running_room) as H.
  assert (doc_ok (body (state_doc running_room))) as Hok by (by apply doc_check_ok; vm_compute).
  assert (is_Some (get_map "kernel" (body (state_doc running_room)))) as Hk by (apply (bool_decide_unpack _); vm_compute; exact I).
  specialize (H Hok Hk I).
  assert (doc_status (body (state_doc running_room)) "x1" = Some "running") as Hr by (by vm_compute).
  destruct (run_repair (PeerGone "lost") running_room) as [s' r]. cbn [fst]. destruct H as [Hq _].
  split; [|exact Hq]. by rewrite (q_status _ _ Hq), Hr.
Defined.

Definition progress (principal : string) (bs : bytes) : HostM RoomHostFrameResult :=
  receive_managed_runtime_state_sync (fun _ => ()) (fun _ => None) status_ops "managed-python:s1" principal "s1" bs.

Lemma managed_progress_projected_witness :
  read_explicit_queue (body (state_doc (progress "local:alice" [Byte.x01] queued_room).1)) =
    mkQueueState (Some (mkDocQueueEntry "x1")) [] /\
  exists preview, queue_projected (body (state_doc queued_room)) (body preview)
    (mkQueueState (Some (mkDocQueueEntry "x1")) []).
Proof.
  assert (read_explicit_queue (body (state_doc (progress "local:alice" [Byte.x01] queued_room).1)) =
    mkQueueState (Some (mkDocQueueEntry "x1")) []) as Hq by (by vm_compute).
  assert (read_explicit_queue (body (state_doc queued_room)) = mkQueueState None [mkDocQueueEntry "x1"]) as H0 by (by vm_compute).
  split; [exact Hq|]. unfold progress in *.
  pose proof (managed_progress_projected (fun _ => ()) (fun _ => None) status_ops) as H.
  specialize (H ltac:(intros v id e He; unfold status_ops; rewrite He; by destruct (e !! "status"))
    "managed-python:s1" "local:alice" "s1" [Byte.x01] queued_room).
  destruct (receive_managed_runtime_state_sync _ _ _ _ _ _ _ queued_room) as [s' r]. cbn [fst] in Hq.
  destruct H as (_ & H & _). destruct H as (_ & _ & preview & _ & H & _).
  - intros Hb. discriminate (eq_trans (eq_sym Hq) (eq_trans (f_equal read_explicit_queue Hb) H0)).
  - exists preview. rewrite Hq in H. exact H.
Defined.

(** ** Corner cases *)

(** A change by somebody else is refused also from the managed runtime, and a message that
    fails with a recoverable error is tried again and its error reported. *)
Example refused_progress :
  reported changed (progress "local:alice" [Byte.x02] queued_room).2 = None /\
  reported changed (progress "local:alice" [Byte.x03] queued_room).2 = None.
Proof. vm_compute. done. Qed.

(** An entry of [cells] that cannot be read is counted before a rebuild and not after it:
    the rebuild is refused though the loaded document is the same. *)
Definition with_unreadable : versioned NotebookDoc :=
  mkV (<["cells" := NMap {["z" := str_node "odd"]}]> notebook) [].

Example rebuild_refused_without_loss :
  am_reload with_unreadable = Returned (Ok with_unreadable) /\
  (notebook_rebuild_from_save no_json with_unreadable).2 = Err (CellLoss 1 0).
Proof. split; [done|]. vm_compute. reflexivity. Qed.

(** Running all cells while one of them is queued queues it again: its first execution
    stays in the queue, and the cell points to the second. *)
Example run_all_requeues :
  let s := (run_all queued_room).1 in
  (get_execution_id "a" (body (doc s)), qs_queued (read_explicit_queue (body (state_doc s)))) =
  (Some "0", mkDocQueueEntry <$> ["x1"; "0"; "1"]) /\
  es_cell_id <$> get_execution "x1" (body (state_doc s)) = Some (Some "a").
Proof. vm_compute. done. Qed.

End RoomExamples.
