(* ===== verification/RoomRegistry.v ===== *)
(** * The registry of resident rooms

    Model of [notebook_sync_server/registry.rs], [path_index.rs], the connection
    accounting of [room.rs] and the reaper of idle rooms in [daemon.rs].  A room is a
    shared object: the registry, the sessions of peers and the reaper hold references to
    it, so rooms live in a heap and references are addresses.  Every registry operation
    runs under one lock and is one step; sessions and the reaper interleave between them. *)

From S2P Require Import Prelude.

(** ** Connection accounting *)

(** Atomic counters wrap. *)
Definition wrap64 (n : Z) : Z := n mod 2 ^ 64.

Record RoomConnections := mkConnections {
  active_peers : Z; had_peers : bool; last_kernel_torn_down : Z; connection_generation : Z;
  auto_launch_retry_generation : Z; kernel_teardown_destructive : bool; reservations : Z;
}.

Definition new_connections : RoomConnections := mkConnections 0 false 0 0 0 false 0.

Definition set_peers (n : Z) (c : RoomConnections) : RoomConnections :=
  mkConnections n (had_peers c) (last_kernel_torn_down c) (connection_generation c)
    (auto_launch_retry_generation c) (kernel_teardown_destructive c) (reservations c).
Definition set_stamp (ts : Z) (c : RoomConnections) : RoomConnections :=
  mkConnections (active_peers c) (had_peers c) ts (connection_generation c)
    (auto_launch_retry_generation c) (kernel_teardown_destructive c) (reservations c).
Definition set_retry (g : Z) (c : RoomConnections) : RoomConnections :=
  mkConnections (active_peers c) (had_peers c) (last_kernel_torn_down c) (connection_generation c)
    g (kernel_teardown_destructive c) (reservations c).
Definition set_destructive (b : bool) (c : RoomConnections) : RoomConnections :=
  mkConnections (active_peers c) (had_peers c) (last_kernel_torn_down c) (connection_generation c)
    (auto_launch_retry_generation c) b (reservations c).
Definition set_reservations (n : Z) (c : RoomConnections) : RoomConnections :=
  mkConnections (active_peers c) (had_peers c) (last_kernel_torn_down c) (connection_generation c)
    (auto_launch_retry_generation c) (kernel_teardown_destructive c) n.
Definition set_had_peers (c : RoomConnections) : RoomConnections :=
  mkConnections (active_peers c) true (last_kernel_torn_down c) (connection_generation c)
    (auto_launch_retry_generation c) (kernel_teardown_destructive c) (reservations c).

(** [compare_exchange(0, generation)]. *)
Definition try_claim_auto_launch_retry (generation : Z) (c : RoomConnections) : RoomConnections * bool :=
  if decide (generation <> 0 /\ auto_launch_retry_generation c = 0) then (set_retry generation c, true) else (c, false).

Definition release_auto_launch_retry (generation : Z) (c : RoomConnections) : RoomConnections :=
  if decide (auto_launch_retry_generation c = generation) then set_retry 0 c else c.

Definition last_kernel_torn_down_at (c : RoomConnections) : option Z :=
  if decide (last_kernel_torn_down c = 0) then None else Some (last_kernel_torn_down c).

(** The clock is the caller's, in seconds since the epoch. *)
Definition stamp_kernel_torn_down_now (now : Z) : RoomConnections -> RoomConnections := set_stamp now.
Definition clear_kernel_torn_down : RoomConnections -> RoomConnections := set_stamp 0.

Definition bump_connection_generation (c : RoomConnections) : RoomConnections :=
  mkConnections (active_peers c) (had_peers c) (last_kernel_torn_down c) (wrap64 (connection_generation c + 1))
    (auto_launch_retry_generation c) (kernel_teardown_destructive c) (reservations c).

(** [ReservationGuard::new] and its drop. *)
Definition reserve (c : RoomConnections) : RoomConnections := set_reservations (wrap64 (reservations c + 1)) c.
Definition unreserve (c : RoomConnections) : RoomConnections := set_reservations (wrap64 (reservations c - 1)) c.

(** The head of [handle_notebook_sync_connection], and the point where the peer counts. *)
Definition enter_room (c : RoomConnections) : RoomConnections := clear_kernel_torn_down (bump_connection_generation c).
Definition join_room (c : RoomConnections) : RoomConnections :=
  bump_connection_generation (clear_kernel_torn_down (set_had_peers (set_peers (wrap64 (active_peers c + 1)) c))).

(** The decrement of [handle_peer_disconnect]; what remains decides about a teardown. *)
Definition leave_room (c : RoomConnections) : RoomConnections * Z :=
  (set_peers (wrap64 (active_peers c - 1)) c, active_peers c - 1).

(** ** Paths *)

Definition PathIndex : Type := gmap string string.

Inductive PathIndexError := PathAlreadyOpen (uuid path : string) | RegistryFrozen.

Definition path_insert (path uuid : string) (p : PathIndex) : result PathIndexError PathIndex :=
  match p !! path with
  | Some existing => if decide (existing = uuid) then Ok p else Err (PathAlreadyOpen existing path)
  | None => Ok (<[path := uuid]> p)
  end.

Definition path_remove (path : string) (p : PathIndex) : PathIndex := delete path p.

Definition remove_by_uuid (uuid : string) (p : PathIndex) : PathIndex :=
  filter (fun x : string * string => x.2 <> uuid) p.

(** ** Rooms and the registry *)

(** What registry and reaper see of a [NotebookRoom]. *)
Record NotebookRoom := mkRoom {
  room_id : string; connections : RoomConnections;
  is_loading : bool; requires_durability_repair : bool; has_kernel : bool; is_evicted : bool;
}.

Definition with_connections (f : RoomConnections -> RoomConnections) (r : NotebookRoom) : NotebookRoom :=
  mkRoom (room_id r) (f (connections r)) (is_loading r) (requires_durability_repair r) (has_kernel r) (is_evicted r).
Definition with_flags (loading repair kernel : bool) (r : NotebookRoom) : NotebookRoom :=
  mkRoom (room_id r) (connections r) loading repair kernel (is_evicted r).
Definition mark_evicted (r : NotebookRoom) : NotebookRoom :=
  mkRoom (room_id r) (connections r) (is_loading r) (requires_durability_repair r) (has_kernel r) true.
Definition mark_room_durability_degraded (r : NotebookRoom) : NotebookRoom :=
  mkRoom (room_id r) (connections r) (is_loading r) true (has_kernel r) (is_evicted r).

Abbreviation arc := nat (only parsing).

Record RegistryInner := mkInner {
  rooms : gmap string arc; paths : PathIndex; accepting_publication : bool;
}.

Definition empty_registry : RegistryInner := mkInner ∅ ∅ true.

(** The registry and the rooms it or anybody else refers to. *)
Record Rooms := mkRooms { inner : RegistryInner; heap : gmap arc NotebookRoom }.

Definition set_inner (i : RegistryInner) (w : Rooms) : Rooms := mkRooms i (heap w).
Definition update_room (f : NotebookRoom -> NotebookRoom) (a : arc) (w : Rooms) : Rooms :=
  mkRooms (inner w) (alter f a (heap w)).
Definition on_connections (f : RoomConnections -> RoomConnections) : arc -> Rooms -> Rooms :=
  update_room (with_connections f).

(** A reference with a reservation. *)
Definition guarded (a : arc) (w : Rooms) : Rooms * option arc := (on_connections reserve a w, Some a).

Definition lookup_uuid (uuid : string) (w : Rooms) : Rooms * option arc :=
  if negb (accepting_publication (inner w)) then (w, None)
  else match rooms (inner w) !! uuid with Some a => guarded a w | None => (w, None) end.

Definition lookup_path (path : string) (w : Rooms) : Rooms * option arc :=
  if negb (accepting_publication (inner w)) then (w, None)
  else match paths (inner w) !! path ≫= (fun uuid => rooms (inner w) !! uuid) with
       | Some a => guarded a w
       | None => (w, None)
       end.

Inductive InsertOutcome := Inserted (a : arc) | Existing (a : arc).

Definition into_room (o : InsertOutcome) : arc := match o with Inserted a | Existing a => a end.

Definition insert_or_get (uuid : string) (room : arc) (path : option string) (w : Rooms)
    : Rooms * result PathIndexError InsertOutcome :=
  let i := inner w in
  if negb (accepting_publication i) then (w, Err RegistryFrozen)
  else match rooms i !! uuid with
  | Some existing => (on_connections reserve existing w, Ok (Existing existing))
  | None =>
      match (match path with None => Ok (paths i) | Some p => path_insert p uuid (paths i) end) with
      | Err (PathAlreadyOpen existing_uuid p) =>
          match rooms i !! existing_uuid with
          | Some existing => (on_connections reserve existing w, Ok (Existing existing))
          | None => (w, Err (PathAlreadyOpen existing_uuid p))
          end
      | Err e => (w, Err e)
      | Ok ps =>
          (on_connections reserve room (set_inner (mkInner (<[uuid := room]> (rooms i)) ps (accepting_publication i)) w),
           Ok (Inserted room))
      end
  end.

Definition bind_path (uuid path : string) (i : RegistryInner) : RegistryInner * result PathIndexError () :=
  if negb (accepting_publication i) then (i, Err RegistryFrozen)
  else match path_insert path uuid (paths i) with
  | Ok ps => (mkInner (rooms i) ps (accepting_publication i), Ok ())
  | Err e => (i, Err e)
  end.

Definition unbind_path (path : string) (i : RegistryInner) : RegistryInner :=
  mkInner (rooms i) (path_remove path (paths i)) (accepting_publication i).

Definition unbind_path_if_uuid (path uuid : string) (i : RegistryInner) : RegistryInner * bool :=
  if decide (paths i !! path = Some uuid) then (unbind_path path i, true) else (i, false).

(** The old key goes first and stays away when the new one is refused. *)
Definition replace_path (old new uuid : string) (i : RegistryInner) : RegistryInner * result PathIndexError () :=
  if negb (accepting_publication i) then (i, Err RegistryFrozen)
  else let i := unbind_path old i in
  match path_insert new uuid (paths i) with
  | Ok ps => (mkInner (rooms i) ps (accepting_publication i), Ok ())
  | Err e => (i, Err e)
  end.

Definition drain (i : RegistryInner) : RegistryInner := mkInner ∅ ∅ (accepting_publication i).
Definition freeze_publication (i : RegistryInner) : RegistryInner := mkInner (rooms i) (paths i) false.
Definition thaw_publication (i : RegistryInner) : RegistryInner := mkInner (rooms i) (paths i) true.

Definition remove (uuid : string) (i : RegistryInner) : RegistryInner * option arc :=
  match rooms i !! uuid with
  | None => (i, None)
  | Some a => (mkInner (delete uuid (rooms i)) (remove_by_uuid uuid (paths i)) (accepting_publication i), Some a)
  end.

Definition remove_if (uuid : string) (predicate : NotebookRoom -> bool) (w : Rooms) : Rooms * option arc :=
  match rooms (inner w) !! uuid ≫= (fun a => heap w !! a) with
  | Some r =>
      if predicate r then let '(i, a) := remove uuid (inner w) in (set_inner i w, a) else (w, None)
  | None => (w, None)
  end.

(** ** The reaper *)

Definition RESIDENT_ROOM_TTL_SECS : Z := 24 * 3600.
Definition MAX_RESIDENT_PEERLESS_ROOMS : nat := 32.

(** A peer-less room as the sweep samples it. *)
Record sampled := mkSampled { sm_uuid : string; sm_room : arc; sm_stamp : Z; sm_generation : Z }.
#[export] Instance sampled_eq_dec : EqDecision sampled.
Proof. solve_decision. Defined.

Definition sample_room (w : Rooms) (x : string * arc) : option sampled :=
  r ← heap w !! x.2;
  ts ← last_kernel_torn_down_at (connections r);
  if (0 <? active_peers (connections r)) || is_loading r || requires_durability_repair r then None
  else Some (mkSampled x.1 x.2 ts (connection_generation (connections r))).

Definition peerless (w : Rooms) : list sampled := omap (sample_room w) (map_to_list (rooms (inner w))).

Definition aged_out (now ttl : Z) (s : sampled) : bool := ttl <=? saturating_sub_u64 now (sm_stamp s).

Definition older (x y : sampled) : Prop := sm_stamp x <= sm_stamp y.
#[export] Instance older_dec : RelDecision older.
Proof. intros x y. unfold older. apply _. Defined.

(** The oldest rooms above the cap. *)
Definition overflow (cap : nat) (l : list sampled) : list string :=
  if (cap <? length l)%nat then sm_uuid <$> firstn (length l - cap) (merge_sort older l) else [].

Definition reap_candidates (now ttl : Z) (cap : nat) (l : list sampled) : list sampled :=
  filter (fun s => aged_out now ttl s = true \/ sm_uuid s ∈ overflow cap l) l.

(** The predicate under the registry lock. *)
Definition still_idle (generation : Z) (r : NotebookRoom) : bool :=
  let c := connections r in
  bool_decide (active_peers c = 0) && bool_decide (reservations c = 0) &&
  bool_decide (connection_generation c = generation) && bool_decide (is_Some (last_kernel_torn_down_at c)) &&
  negb (is_loading r) && negb (requires_durability_repair r).

(** ** Sessions and the reaper together *)

(** A peer's connection, from the lookup that reserved its room to the drop of the guard. *)
Inductive phase := Reserved | Entered | Joined | Left.
#[export] Instance phase_eq_dec : EqDecision phase.
Proof. solve_decision. Defined.

Record Session := mkSession { s_room : arc; s_phase : phase }.
#[export] Instance Session_eq_dec : EqDecision Session.
Proof. solve_decision. Defined.

(** What runs in a daemon: its rooms, the sessions, the candidates of the current sweep,
    the one whose checks passed, and the rooms removed from the registry by a request. *)
Record Daemon := mkDaemon {
  world : Rooms; sessions : list Session;
  candidates : list sampled; checked : option sampled; removed : list arc; gone : list arc;
}.

Definition with_world (w : Rooms) (d : Daemon) : Daemon :=
  mkDaemon w (sessions d) (candidates d) (checked d) (removed d) (gone d).
Definition set_sessions (l : list Session) (d : Daemon) : Daemon :=
  mkDaemon (world d) l (candidates d) (checked d) (removed d) (gone d).
Definition set_sweep (l : list sampled) (c : option sampled) (d : Daemon) : Daemon :=
  mkDaemon (world d) (sessions d) l c (removed d) (gone d).

Definition on_registry (f : RegistryInner -> RegistryInner) (d : Daemon) : Daemon :=
  with_world (set_inner (f (inner (world d))) (world d)) d.

(** The room of a session. *)
Definition session_room (i : nat) (d : Daemon) : option NotebookRoom := s ← sessions d !! i; heap (world d) !! s_room s.

Inductive event :=
(** A handshake finds its room, or builds one and publishes it; [stamped] when an initial
    load is claimed for it. *)
| FindUuid (uuid : string) | FindPath (path : string)
| Create (uuid : string) (path : option string) (stamped : option Z)
(** The steps of a session's connection. *)
| Enter (i : nat) | Join (i : nat) | Leave (i : nat) | DropGuard (i : nat)
(** Saves of a session's room move paths. *)
| Bind (i : nat) (path : string) | Unbind (path : string) | UnbindIf (path uuid : string)
| Replace (i : nat) (old new : string)
(** Requests that shut a notebook or the daemon down. *)
| RemoveRoom (uuid : string) | Drain | Freeze | Thaw
(** The rest of a room: loading, durability, kernel, and the end of a kernel teardown. *)
| Flags (a : arc) (loading repair kernel : bool) | Stamp (a : arc) (now : Z)
(** A sweep of the reaper: the sample, the checks of a candidate with the outcomes of its
    journal barrier, durability wait and flush, the commit, the end of its cleanup. *)
| Sweep (now ttl : Z) (cap : nat) | Check (barrier durable flush : bool) | Commit | Evict.

Definition found (x : Rooms * option arc) (d : Daemon) : Daemon :=
  match x with
  | (w, Some a) => set_sessions (sessions d ++ [mkSession a Reserved]) (with_world w d)
  | (w, None) => with_world w d
  end.

(** A step of the session with this index, when it is in the right phase. *)
Definition session_step (i : nat) (from to : phase) (f : RoomConnections -> RoomConnections) (d : Daemon) : Daemon :=
  match sessions d !! i with
  | Some s =>
      if decide (s_phase s = from) then
        set_sessions (<[i := mkSession (s_room s) to]> (sessions d)) (with_world (on_connections f (s_room s) (world d)) d)
      else d
  | None => d
  end.

(** A new room at a free address. *)
Definition new_room (uuid : string) (stamped : option Z) : NotebookRoom :=
  mkRoom uuid (match stamped with Some now => set_stamp now new_connections | None => new_connections end)
    (bool_decide (is_Some stamped)) false false false.

Definition create_room (uuid : string) (path : option string) (stamped : option Z) (d : Daemon) : Daemon :=
  let w := world d in
  let a := fresh (dom (heap w)) in
  match insert_or_get uuid a path (mkRooms (inner w) (<[a := new_room uuid stamped]> (heap w))) with
  | (w, Ok o) => set_sessions (sessions d ++ [mkSession (into_room o) Reserved]) (with_world w d)
  | (w, Err _) => with_world w d
  end.

(** The checks of the next candidate, outside the registry's lock. *)
Definition check_candidate (barrier durable flush : bool) (d : Daemon) : Daemon :=
  match candidates d with
  | [] => d
  | s :: l =>
      match heap (world d) !! sm_room s with
      | Some r =>
          if has_kernel r then set_sweep l None d
          else if negb barrier then set_sweep l None (with_world (update_room mark_room_durability_degraded (sm_room s) (world d)) d)
          else set_sweep l (if durable && flush then Some s else None) d
      | None => set_sweep l None d
      end
  end.

(** The commit under the lock. *)
Definition commit_candidate (d : Daemon) : Daemon :=
  match checked d with
  | Some s =>
      match remove_if (sm_uuid s) (still_idle (sm_generation s)) (world d) with
      | (w, Some a) => mkDaemon w (sessions d) (candidates d) None (a :: removed d) (gone d)
      | (w, None) => set_sweep (candidates d) None (with_world w d)
      end
  | None => d
  end.

Definition step (e : event) (d : Daemon) : Daemon :=
  let w := world d in
  match e with
  | FindUuid u => found (lookup_uuid u w) d
  | FindPath p => found (lookup_path p w) d
  | Create u p st => create_room u p st d
  | Enter i => session_step i Reserved Entered enter_room d
  | Join i => session_step i Entered Joined join_room d
  | Leave i => session_step i Joined Left (fun c => (leave_room c).1) d
  | DropGuard i =>
      match sessions d !! i with
      | Some s =>
          if decide (s_phase s = Joined) then d
          else set_sessions (delete i (sessions d)) (with_world (on_connections unreserve (s_room s) w) d)
      | None => d
      end
  | Bind i p => match session_room i d with Some r => on_registry (fun x => (bind_path (room_id r) p x).1) d | None => d end
  | Unbind p => on_registry (unbind_path p) d
  | UnbindIf p u => on_registry (fun x => (unbind_path_if_uuid p u x).1) d
  | Replace i old new =>
      match session_room i d with Some r => on_registry (fun x => (replace_path old new (room_id r) x).1) d | None => d end
  | RemoveRoom u =>
      match remove u (inner w) with
      | (x, Some a) => mkDaemon (set_inner x w) (sessions d) (candidates d) (checked d) (removed d) (a :: gone d)
      | (_, None) => d
      end
  | Drain =>
      mkDaemon (set_inner (drain (inner w)) w) (sessions d) (candidates d) (checked d) (removed d)
        ((map_to_list (rooms (inner w))).*2 ++ gone d)
  | Freeze => on_registry freeze_publication d
  | Thaw => on_registry thaw_publication d
  | Flags a l r k => with_world (update_room (with_flags l r k) a w) d
  | Stamp a now => with_world (on_connections (stamp_kernel_torn_down_now now) a w) d
  | Sweep now ttl cap => set_sweep (reap_candidates now ttl cap (peerless w)) None d
  | Check barrier durable flush => check_candidate barrier durable flush d
  | Commit => commit_candidate d
  | Evict =>
      match removed d with
      | a :: l => mkDaemon (update_room mark_evicted a w) (sessions d) (candidates d) (checked d) l (gone d)
      | [] => d
      end
  end.

Definition start : Daemon := mkDaemon (mkRooms empty_registry ∅) [] [] None [] [].
Definition run_from (d : Daemon) (es : list event) : Daemon := foldl (fun d e => step e d) d es.
Definition run : list event -> Daemon := run_from start.

(** ** Counting sessions *)

Section Count.
Context {A : Type} (P : A -> Prop) `{!forall x, Decision (P x)}.

Definition count (l : list A) : Z := Z.of_nat (length (filter P l)).

Lemma count_of_app l1 l2 : count (l1 ++ l2) = count l1 + count l2.
Proof. unfold count. rewrite filter_app, length_app. lia. Qed.

Lemma count_cons x l : count (x :: l) = (if decide (P x) then 1 else 0) + count l.
Proof. unfold count. rewrite filter_cons. case_decide; cbn; lia. Qed.

Lemma count_snoc x l : count (l ++ [x]) = count l + (if decide (P x) then 1 else 0).
Proof. rewrite count_of_app, count_cons. unfold count at 2. cbn. lia. Qed.

Lemma count_nonneg l : 0 <= count l.
Proof. unfold count. lia. Qed.

Lemma count_le l : count l <= Z.of_nat (length l).
Proof. unfold count. pose proof (length_filter P l). lia. Qed.

Lemma count_insert i x y l :
  l !! i = Some y -> count (<[i := x]> l) = count l + (if decide (P x) then 1 else 0) - (if decide (P y) then 1 else 0).
Proof.
  intros Hy. rewrite <- (take_drop_middle l i y Hy) at 2. rewrite insert_take_drop by (by eapply lookup_lt_Some).
  rewrite !count_of_app, !count_cons. lia.
Qed.

Lemma count_delete i y l : l !! i = Some y -> count (delete i l) = count l - (if decide (P y) then 1 else 0).
Proof.
  intros Hy. rewrite <- (take_drop_middle l i y Hy) at 2. rewrite delete_take_drop, !count_of_app, count_cons. lia.
Qed.

Lemma count_zero l : count l = 0 -> forall x, x ∈ l -> ~ P x.
Proof.
  unfold count. intros Hl x Hx HP. assert (x ∈ filter P l) as Hin by (by apply list_elem_of_filter).
  destruct (filter P l); [by apply not_elem_of_nil in Hin|]. cbn in Hl. lia.
Qed.

End Count.

Definition holds (a : arc) (s : Session) : Prop := s_room s = a.
Definition counts (a : arc) (s : Session) : Prop := s_room s = a /\ s_phase s = Joined.
#[export] Instance holds_dec a s : Decision (holds a s).
Proof. unfold holds. apply _. Defined.
#[export] Instance counts_dec a s : Decision (counts a s).
Proof. unfold counts. apply _. Defined.

(** The counters of the rooms count the sessions. *)
Definition counted (h : gmap arc NotebookRoom) (ss : list Session) : Prop := forall a r, h !! a = Some r ->
  reservations (connections r) = wrap64 (count (holds a) ss) /\ active_peers (connections r) = wrap64 (count (counts a) ss).

(** What registry and sessions rely on: identity and eviction of each room. *)
Definition core (h : gmap arc NotebookRoom) (a : arc) : option (string * bool) := (fun r => (room_id r, is_evicted r)) <$> h !! a.

Definition held (ss : list Session) (a : arc) : Prop := exists s, s ∈ ss /\ s_room s = a.

Record shaped (c : arc -> option (string * bool)) (i : RegistryInner) (h : arc -> Prop) (removed gone : list arc) : Prop := {
  sh_held a : h a -> is_Some (c a);
  sh_rooms u a : rooms i !! u = Some a -> c a = Some (u, false);
  sh_resident a u e : h a -> c a = Some (u, e) -> a ∈ gone \/ rooms i !! u = Some a;
  sh_paths p u : paths i !! p = Some u -> is_Some (rooms i !! u) \/ exists a e, a ∈ gone /\ c a = Some (u, e);
  sh_removed a : a ∈ removed -> is_Some (c a) /\ forall u, rooms i !! u <> Some a;
}.

Record invariant (d : Daemon) : Prop := {
  inv_counted : counted (heap (world d)) (sessions d);
  inv_shaped : shaped (core (heap (world d))) (inner (world d)) (held (sessions d)) (removed d) (gone d);
}.

(** *** Sessions *)

Lemma held_app ss s a : held (ss ++ [s]) a <-> held ss a \/ s_room s = a.
Proof.
  unfold held. setoid_rewrite elem_of_app. setoid_rewrite list_elem_of_singleton. naive_solver.
Qed.

Lemma held_delete i ss a : held (delete i ss) a -> held ss a.
Proof.
  intros (s & Hs & <-). exists s. split; [|done]. rewrite delete_take_drop in Hs. apply elem_of_app in Hs as [Hs|Hs].
  - apply elem_of_take in Hs as (j & Hj & _); by eapply list_elem_of_lookup_2.
  - apply list_elem_of_lookup in Hs as [j Hj]. rewrite lookup_drop in Hj. by eapply list_elem_of_lookup_2.
Qed.

Lemma held_insert i ss s p a : ss !! i = Some s -> held (<[i := mkSession (s_room s) p]> ss) a <-> held ss a.
Proof.
  intros Hi. unfold held. split.
  - intros (x & Hx & <-). apply list_elem_of_lookup in Hx as [j Hj]. destruct (decide (i = j)) as [->|Hne].
    + rewrite list_lookup_insert_eq in Hj by (by eapply lookup_lt_Some). injection Hj as <-. exists s. split; [by eapply list_elem_of_lookup_2|done].
    + rewrite list_lookup_insert_ne in Hj by done. exists x. split; [by eapply list_elem_of_lookup_2|done].
  - intros (x & Hx & <-). apply list_elem_of_lookup in Hx as [j Hj]. destruct (decide (i = j)) as [->|Hne].
    + rewrite Hi in Hj. injection Hj as ->. exists (mkSession (s_room x) p). split; [|done].
      eapply list_elem_of_lookup_2. rewrite list_lookup_insert_eq; [done|by eapply lookup_lt_Some].
    + exists x. split; [|done]. apply (list_elem_of_lookup_2 _ j). by rewrite list_lookup_insert_ne.
Qed.

(** *** Rooms *)

Lemma core_alter f a h b :
  (forall r, (room_id (f r), is_evicted (f r)) = (room_id r, is_evicted r)) -> core (alter f a h) b = core h b.
Proof.
  intros Hf. unfold core. destruct (decide (a = b)) as [->|Hne]; [|by rewrite lookup_alter_ne].
  rewrite lookup_alter_eq. destruct (h !! b) as [r|]; [|done]. cbn. by rewrite Hf.
Qed.

(** Only the sessions, identities and the registry matter. *)
Lemma shaped_ext c c' i h h' removed gone :
  (forall a, c' a = c a) -> (forall a, h' a -> h a) -> shaped c i h removed gone -> shaped c' i h' removed gone.
Proof.
  intros Hc Hh [S1 S2 S3 S4 S5]. split.
  - intros a Ha. rewrite Hc. by apply S1, Hh.
  - intros u a Ha. rewrite Hc. by apply S2.
  - intros a u e Ha. rewrite Hc. by apply S3, Hh.
  - intros p u Hp. destruct (S4 p u Hp) as [?|(a & e & ? & ?)]; [by left|]. right. exists a, e. by rewrite Hc.
  - intros a Ha. rewrite Hc. by apply S5.
Qed.

(** A change of one room's counters by the change of its sessions. *)
Lemma counted_alter f a h ss ss' :
  counted h ss ->
  (forall b, b <> a -> count (holds b) ss' = count (holds b) ss /\ count (counts b) ss' = count (counts b) ss) ->
  (forall r, h !! a = Some r ->
    reservations (connections (f r)) = wrap64 (count (holds a) ss') /\ active_peers (connections (f r)) = wrap64 (count (counts a) ss')) ->
  counted (alter f a h) ss'.
Proof.
  intros Hc Hother Ha b r Hb. destruct (decide (a = b)) as [<-|Hne].
  - rewrite lookup_alter_eq in Hb. destruct (h !! a) as [r0|] eqn:E; [|done]. injection Hb as <-. by apply Ha.
  - rewrite lookup_alter_ne in Hb by done. destruct (Hother b) as [-> ->]; [done|]. by apply Hc.
Qed.

Lemma wrap64_add x y : wrap64 (wrap64 x + y) = wrap64 (x + y).
Proof. apply Zplus_mod_idemp_l. Qed.
Lemma wrap64_sub x y : wrap64 (wrap64 x - y) = wrap64 (x - y).
Proof. apply Zminus_mod_idemp_l. Qed.

(** Writes to rooms that no counter, identity or latch sees. *)
Lemma inert_update f a d :
  (forall r, (room_id (f r), is_evicted (f r), reservations (connections (f r)), active_peers (connections (f r))) =
             (room_id r, is_evicted r, reservations (connections r), active_peers (connections r))) ->
  invariant d -> invariant (with_world (update_room f a (world d)) d).
Proof.
  intros Hf [Hc Hs]. split; cbn.
  - eapply counted_alter; [exact Hc|done|]. intros r Hr. specialize (Hf r). injection Hf as _ _ -> ->. by apply Hc.
  - eapply shaped_ext; [|done|exact Hs]. intros b. apply core_alter. intros r. specialize (Hf r). by injection Hf as -> -> _ _.
Qed.

(** A new session on a resident room. *)
Lemma reserved_session a w d :
  counted (heap w) (sessions d) -> shaped (core (heap w)) (inner w) (held (sessions d)) (removed d) (gone d) ->
  (exists u, rooms (inner w) !! u = Some a) ->
  invariant (set_sessions (sessions d ++ [mkSession a Reserved]) (with_world (on_connections reserve a w) d)).
Proof.
  intros Hc Hs [u Hu]. split; cbn.
  - eapply counted_alter; [exact Hc|..].
    + intros b Hb. rewrite !count_snoc, !decide_False by (unfold holds, counts; cbn; naive_solver). lia.
    + intros r Hr. destruct (Hc a r Hr) as [H1 H2]. cbn. rewrite H1, H2, wrap64_add, !count_snoc.
      rewrite (decide_True (P := holds _ _)) by done.
      rewrite decide_False by (unfold counts; cbn; naive_solver). by rewrite !Z.add_0_r.
  - assert (forall b, core (alter (with_connections reserve) a (heap w)) b = core (heap w) b) as He by (intros b; by apply core_alter).
    destruct Hs as [S1 S2 S3 S4 S5]. split.
    + intros b [Hb|<-]%held_app; rewrite He; [by apply S1|]. cbn. rewrite (S2 u a Hu). done.
    + intros v b Hb. rewrite He. by apply S2.
    + intros b v e [Hb|<-]%held_app; rewrite He; [by apply S3|]. cbn. rewrite (S2 u a Hu). intros [= <- <-]. by right.
    + intros p v Hp. destruct (S4 p v Hp) as [?|(b & e & ? & ?)]; [by left|]. right. exists b, e. by rewrite He.
    + intros b Hb. rewrite He. by apply S5.
Qed.

(** A session moves on. *)
Lemma moved_session i from to f d :
  (forall c, reservations (f c) = reservations c) ->
  (forall c, active_peers (f c) = wrap64 (active_peers c + (if decide (to = Joined) then 1 else 0) - (if decide (from = Joined) then 1 else 0))
     \/ (to <> Joined /\ from <> Joined /\ active_peers (f c) = active_peers c)) ->
  invariant d -> invariant (session_step i from to f d).
Proof.
  intros Hres Hpeers HI. pose proof HI as [Hc Hs]. unfold session_step. destruct (sessions d !! i) as [s|] eqn:Hi; [|exact HI].
  destruct (decide (s_phase s = from)) as [Hp|]; [|exact HI]. split; cbn.
  - eapply counted_alter; [exact Hc|..].
    + intros b Hb. rewrite !(count_insert _ i _ s) by done. 
      rewrite !decide_False by (unfold holds, counts; cbn; naive_solver). lia.
    + intros r Hr. destruct (Hc _ r Hr) as [H1 H2]. cbn. rewrite Hres, !(count_insert _ i _ s) by done.
      split; [rewrite H1, !(decide_True (P := holds _ _)) by done; f_equal; lia|].
      destruct (Hpeers (connections r)) as [->|(Ht & Hf & ->)]; rewrite H2.
      * rewrite <- Z.add_sub_assoc, wrap64_add, Z.add_sub_assoc. subst from.
        clear Hpeers. f_equal. cbn. repeat case_decide; first [lia | exfalso; unfold counts in *; tauto].
      * subst from; rewrite !decide_False by (unfold counts; cbn; tauto). f_equal. lia.
  - eapply shaped_ext; [|intros b Hb; by apply held_insert in Hb|exact Hs]. intros b. by apply core_alter.
Qed.

Lemma with_world_id d : with_world (world d) d = d.
Proof. by destruct d. Qed.

Lemma count_not_held ss a : ~ held ss a -> count (holds a) ss = 0 /\ count (counts a) ss = 0.
Proof.
  intros Hn. assert (forall P (HP : forall s, Decision (P s)), (forall s, P s -> s_room s = a) -> count P ss = 0) as H0.
  { intros P HP Hi. unfold count. destruct (filter P ss) as [|s l] eqn:E; [done|]. exfalso. apply Hn.
    assert (s ∈ filter P ss) as [Hs Hin]%list_elem_of_filter by (rewrite E; constructor). exists s. auto. }
  split; apply H0; [done|]. by intros s [? _].
Qed.

(** The guard goes with the session. *)
Lemma dropped_session i s d :
  sessions d !! i = Some s -> s_phase s <> Joined -> invariant d ->
  invariant (set_sessions (delete i (sessions d)) (with_world (on_connections unreserve (s_room s) (world d)) d)).
Proof.
  intros Hi Hp [Hc Hs]. split; cbn.
  - eapply counted_alter; [exact Hc|..].
    + intros b Hb. rewrite !(count_delete _ i s) by done. rewrite !decide_False by (unfold holds, counts; naive_solver). lia.
    + intros r Hr. destruct (Hc _ r Hr) as [H1 H2]. cbn. rewrite H1, H2, wrap64_sub, !(count_delete _ i s) by done.
      rewrite (decide_True (P := holds _ _)) by done. rewrite decide_False by (unfold counts; naive_solver).
      by rewrite Z.sub_0_r.
  - eapply shaped_ext; [|intros b Hb; by eapply held_delete|exact Hs]. intros b. by apply core_alter.
Qed.

(** A room at a fresh address changes nothing for the others. *)
Lemma allocated uuid st d (a := fresh (dom (heap (world d)))) :
  invariant d ->
  let w := mkRooms (inner (world d)) (<[a := new_room uuid st]> (heap (world d))) in
  counted (heap w) (sessions d) /\ shaped (core (heap w)) (inner w) (held (sessions d)) (removed d) (gone d) /\
  ~ held (sessions d) a /\ (forall u, rooms (inner w) !! u <> Some a) /\ core (heap w) a = Some (uuid, false) /\ a ∉ removed d.
Proof.
  intros [Hc [S1 S2 S3 S4 S5]] w.
  assert (heap (world d) !! a = None) as Ha by (apply not_elem_of_dom, is_fresh).
  assert (core (heap (world d)) a = None) as Hca by (unfold core; by rewrite Ha).
  assert (forall b, is_Some (core (heap (world d)) b) -> b <> a /\ core (heap w) b = core (heap (world d)) b) as Hk.
  { intros b [x Hb]. assert (b <> a) as Hne by congruence. split; [done|]. unfold core, w. cbn. by rewrite lookup_insert_ne. }
  assert (~ held (sessions d) a) as Hheld by (intros [x Hx]%S1; congruence).
  split_and!.
  - intros b r Hb. cbn in Hb. destruct (decide (a = b)) as [<-|Hne].
    + rewrite lookup_insert_eq in Hb. injection Hb as <-. destruct (count_not_held _ _ Hheld) as [-> ->]. by destruct st.
    + rewrite lookup_insert_ne in Hb by done. by apply Hc.
  - split.
    + intros b Hb. destruct (Hk b) as [_ ->]; by apply S1.
    + intros u b Hb. destruct (Hk b) as [_ ->]; [by rewrite (S2 u b Hb)|by apply S2].
    + intros b u e Hb. destruct (Hk b) as [_ ->]; [by apply S1|by apply S3].
    + intros p u Hp. destruct (S4 p u Hp) as [?|(b & e & Hb & He)]; [by left|]. right. exists b, e.
      destruct (Hk b) as [_ ->]; by rewrite He.
    + intros b Hb. destruct (S5 b Hb) as [H1 H2]. destruct (Hk b) as [_ ->]; auto.
  - exact Hheld.
  - intros u Hu. rewrite (S2 u a Hu) in Hca. done.
  - unfold core, w; cbn. by rewrite lookup_insert_eq.
  - intros Hin. destruct (S5 a Hin) as [[x Hx] _]. congruence.
Qed.

(** Path entries may only name resident rooms, or rooms a request removed. *)
Lemma shaped_paths c i ps h removed gone b :
  shaped c i h removed gone ->
  (forall p u, ps !! p = Some u -> paths i !! p = Some u \/ is_Some (rooms i !! u) \/ exists a e, a ∈ gone /\ c a = Some (u, e)) ->
  shaped c (mkInner (rooms i) ps b) h removed gone.
Proof. intros [S1 S2 S3 S4 S5] Hp. split; cbn; auto. intros p u Hpu. destruct (Hp p u Hpu) as [?|?]; eauto. Qed.

Lemma path_insert_lookup p u ps ps' q v :
  path_insert p u ps = Ok ps' -> ps' !! q = Some v -> ps !! q = Some v \/ v = u.
Proof.
  unfold path_insert. destruct (ps !! p) as [x|]; [case_decide; [|done]|]; intros [= <-]; [auto|].
  intros [[_ <-]|[_ ?]]%lookup_insert_Some; auto.
Qed.

(** A session may bind paths for its room. *)
Lemma session_owns i r d :
  invariant d -> session_room i d = Some r ->
  is_Some (rooms (inner (world d)) !! room_id r) \/ exists a e, a ∈ gone d /\ core (heap (world d)) a = Some (room_id r, e).
Proof.
  intros [_ [S1 S2 S3 _ _]] Hr. unfold session_room in Hr. destruct (sessions d !! i) as [s|] eqn:Hi; [|done]. cbn in Hr.
  assert (held (sessions d) (s_room s)) as Hh by (exists s; split; [by eapply list_elem_of_lookup_2|done]).
  assert (core (heap (world d)) (s_room s) = Some (room_id r, is_evicted r)) as Hc by (unfold core; by rewrite Hr).
  destruct (S3 _ _ _ Hh Hc) as [?|?]; eauto 6.
Qed.

(** *** The invariant *)

Lemma inv_found x d :
  invariant d ->
  (x.1 = world d /\ x.2 = None \/
   exists a u, x = guarded a (world d) /\ rooms (inner (world d)) !! u = Some a) ->
  invariant (found x d).
Proof.
  intros HI [[H1 H2]|(a & u & -> & Hu)].
  - destruct x as [w o]. cbn in *. subst. cbn. by rewrite with_world_id.
  - destruct HI as [Hc Hs]. apply reserved_session; eauto.
Qed.

Lemma registry_create u p st d : invariant d -> invariant (create_room u p st d).
Proof.
  intros HI. destruct (allocated u st d HI) as (Hc & Hs & Hh & Hn & Ha & Hr). revert Hc Hs Hh Hn Ha Hr.
  unfold create_room. generalize (fresh (dom (heap (world d)))) as a. intros a.
  set (w := mkRooms _ _). intros Hc Hs Hh Hn Ha Hr.
  assert (invariant (with_world w d)) as Hw by (by split).
  unfold insert_or_get. destruct (accepting_publication (inner w)); cbn [negb]; [|done].
  destruct (rooms (inner w) !! u) as [b|] eqn:Hu; [by apply reserved_session; eauto|].
  set (x := match p with None => _ | Some _ => _ end).
  assert (forall ps, x = Ok ps -> forall q v, ps !! q = Some v -> paths (inner w) !! q = Some v \/ v = u) as Hx.
  { intros ps. unfold x. destruct p; [intros; by eapply path_insert_lookup|intros [= <-]; auto]. }
  destruct x as [ps|[v q|]]; [|destruct (rooms (inner w) !! v) as [b|] eqn:Hv; [by apply reserved_session; eauto|done]|done].
  set (w' := set_inner _ w).
  assert (shaped (core (heap w')) (inner w') (held (sessions d)) (removed d) (gone d)) as Hs'.
  { destruct Hs as [S1 S2 S3 S4 S5]. split; cbn; auto.
    - intros v b [[<- <-]|[_ Hb]]%lookup_insert_Some; [done|by apply S2].
    - intros b v e Hb Hv. destruct (S3 b v e Hb Hv) as [?|Hv']; [by left|]. right.
      rewrite lookup_insert_ne; [done|]. intros ->. congruence.
    - intros q v Hq. destruct (Hx ps eq_refl q v Hq) as [Hq'| ->]; [|left; by rewrite lookup_insert_eq].
      destruct (S4 q v Hq') as [?|?]; [|by right]. left. destruct (decide (u = v)) as [->|]; [by rewrite lookup_insert_eq|by rewrite lookup_insert_ne].
    - intros b Hb. destruct (S5 b Hb) as [? H2]. split; [done|]. intros v [[<- <-]|[_ Hv]]%lookup_insert_Some; [done|by eapply H2]. }
  change (invariant (set_sessions (sessions d ++ [mkSession a Reserved]) (with_world (on_connections reserve a w') d))).
  apply reserved_session; [done|done|]. exists u. cbn. by rewrite lookup_insert_eq.
Qed.

Lemma registry_remove u i a d :
  invariant d -> remove u (inner (world d)) = (i, Some a) ->
  invariant (mkDaemon (set_inner i (world d)) (sessions d) (candidates d) (checked d) (removed d) (a :: gone d)).
Proof.
  intros [Hc [S1 S2 S3 S4 S5]] Hr. unfold remove in Hr. destruct (rooms _ !! u) as [b|] eqn:Hu; [|done].
  injection Hr as <- <-. split; cbn; [done|]. split; cbn; auto.
  - intros v c [_ Hv]%lookup_delete_Some. by apply S2.
  - intros c v e Hh Hcv. destruct (S3 c v e Hh Hcv) as [?|Hv]; [left; by constructor|].
    destruct (decide (u = v)) as [->|]; [left; rewrite Hu in Hv; injection Hv as ->; constructor|right; by rewrite lookup_delete_ne].
  - intros p v [Hv Hne]%map_lookup_filter_Some. cbn in Hne. destruct (S4 p v Hv) as [?|(c & e & ? & ?)]; [left; by rewrite lookup_delete_ne|].
    right. exists c, e. split; [by constructor|done].
  - intros c Hc'. destruct (S5 c Hc') as [? H2]. split; [done|]. intros v [_ Hv]%lookup_delete_Some. by eapply H2.
Qed.

Lemma inv_drain d :
  invariant d ->
  invariant (mkDaemon (set_inner (drain (inner (world d))) (world d)) (sessions d) (candidates d) (checked d) (removed d)
    ((map_to_list (rooms (inner (world d)))).*2 ++ gone d)).
Proof.
  intros [Hc [S1 S2 S3 S4 S5]]. split; cbn; [done|]. split; cbn; auto.
  - intros u a Ha. by rewrite lookup_empty in Ha.
  - intros a u e Ha Hu. left. apply elem_of_app. destruct (S3 a u e Ha Hu) as [?|Hr]; [by right|]. left.
    apply list_elem_of_fmap. exists (u, a). split; [done|]. by apply elem_of_map_to_list.
  - intros p u Hp. by apply lookup_empty_Some in Hp.
  - intros a Ha. split; [by apply S5|]. intros u. by rewrite lookup_empty.
Qed.

Lemma small_count {A} (P : A -> Prop) `{!forall x, Decision (P x)} (l : list A) :
  Z.of_nat (length l) < 2 ^ 64 -> wrap64 (count P l) = 0 -> count P l = 0.
Proof.
  intros Hl Hw. pose proof (count_le P l). pose proof (count_nonneg P l). unfold wrap64 in Hw. rewrite Z.mod_small in Hw; lia.
Qed.

(** The reaper takes rooms that nobody holds. *)
Lemma inv_commit s w a d :
  invariant d -> Z.of_nat (length (sessions d)) < 2 ^ 64 ->
  remove_if (sm_uuid s) (still_idle (sm_generation s)) (world d) = (w, Some a) ->
  invariant (mkDaemon w (sessions d) (candidates d) None (a :: removed d) (gone d)).
Proof.
  intros [Hc [S1 S2 S3 S4 S5]] Hlen Hr. unfold remove_if, remove in Hr.
  destruct (rooms _ !! sm_uuid s) as [b|] eqn:Hu; [|done]. cbn in Hr. destruct (heap (world d) !! b) as [r|] eqn:Hb; [|done].
  destruct (still_idle _ r) eqn:Hidle; [|done]. injection Hr as <- <-.
  assert (~ held (sessions d) b) as Hfree.
  { unfold still_idle in Hidle. repeat (apply andb_prop in Hidle as [Hidle ?]). destruct (Hc b r Hb) as [H4 _].
    assert (reservations (connections r) = 0) as H5 by (by eapply bool_decide_eq_true_1). rewrite H5 in H4.
    intros (x & Hx & Hxb). by apply (count_zero _ _ (small_count _ _ Hlen (eq_sym H4)) x). }
  split; cbn; [done|]. split; cbn; auto.
  - intros v c [_ Hv]%lookup_delete_Some. by apply S2.
  - intros c v e Hh Hcv. destruct (S3 c v e Hh Hcv) as [?|Hv]; [by left|]. right.
    rewrite lookup_delete_ne; [done|]. intros <-. rewrite Hu in Hv. injection Hv as ->. done.
  - intros p v [Hv Hne]%map_lookup_filter_Some. cbn in Hne. destruct (S4 p v Hv) as [?|?]; [left; by rewrite lookup_delete_ne|by right].
  - intros c [->|Hc']%elem_of_cons.
    + split; [by rewrite (S2 _ _ Hu)|]. intros v [Hne Hv]%lookup_delete_Some. apply S2 in Hv. rewrite (S2 _ _ Hu) in Hv. congruence.
    + destruct (S5 c Hc') as [? H2]. split; [done|]. intros v [_ Hv]%lookup_delete_Some. by eapply H2.
Qed.

Lemma inv_evict a l d :
  invariant d -> removed d = a :: l ->
  invariant (mkDaemon (update_room mark_evicted a (world d)) (sessions d) (candidates d) (checked d) l (gone d)).
Proof.
  intros [Hc [S1 S2 S3 S4 S5]] Hl. split; cbn.
  - eapply counted_alter; [exact Hc|done|]. intros r Hr. by apply (Hc a r).
  - rewrite Hl in S5. destruct (S5 a) as [Ha Hn]; [constructor|].
    assert (forall b, core (alter mark_evicted a (heap (world d))) b = if decide (a = b) then (fun x => (x.1, true)) <$> core (heap (world d)) b else core (heap (world d)) b) as He.
    { intros b. unfold core. case_decide as Hb; [subst b; rewrite lookup_alter_eq; by destruct (_ !! a)|by rewrite lookup_alter_ne]. }
    split.
    + intros b Hb. rewrite He. case_decide; [apply fmap_is_Some|]; by apply S1.
    + intros u b Hb. rewrite He. case_decide; [subst; by apply Hn in Hb|by apply S2].
    + intros b u e Hb. rewrite He. case_decide; [|by apply S3]. intros ([u' e'] & Hx & [= -> ->])%fmap_Some. by eapply S3.
    + intros p u Hp. destruct (S4 p u Hp) as [?|(b & e & Hg & Hb)]; [by left|]. right. exists b.
      rewrite He. case_decide; [exists true|by exists e]. by rewrite Hb.
    + intros b Hb. destruct (S5 b) as [H1 H2]; [by constructor|]. split; [|done]. rewrite He. case_decide; [by apply fmap_is_Some|done].
Qed.

Lemma path_removed p ps q v : path_remove p ps !! q = Some v -> ps !! q = Some v.
Proof. unfold path_remove. intros H. by apply lookup_delete_Some in H as [_ ?]. Qed.

(** Steps that move path entries. *)
Lemma inv_paths_step (f : RegistryInner -> RegistryInner) d :
  invariant d ->
  (forall i, i = inner (world d) -> rooms (f i) = rooms i /\ forall p u, paths (f i) !! p = Some u -> paths i !! p = Some u \/
     is_Some (rooms i !! u) \/ exists a e, a ∈ gone d /\ core (heap (world d)) a = Some (u, e)) ->
  invariant (on_registry f d).
Proof.
  intros [Hc Hs] Hf. destruct (Hf _ eq_refl) as [Hr Hp]. split; cbn; [done|].
  destruct (f (inner (world d))) as [rs ps b]. cbn in *. subst rs. by apply shaped_paths.
Qed.

Lemma inv_bind p u d :
  is_Some (rooms (inner (world d)) !! u) \/ (exists a e, a ∈ gone d /\ core (heap (world d)) a = Some (u, e)) ->
  invariant d -> invariant (on_registry (fun x => (bind_path u p x).1) d).
Proof.
  intros Hu HI. apply inv_paths_step; [done|]. intros i ->. unfold bind_path. destruct (accepting_publication _); cbn [negb]; [|by auto].
  destruct (path_insert p u _) as [ps|e] eqn:E; cbn; [|by auto]. split; [done|]. intros q v Hq.
  destruct (path_insert_lookup _ _ _ _ _ _ E Hq) as [?| ->]; auto.
Qed.

Lemma inv_replace old new u d :
  is_Some (rooms (inner (world d)) !! u) \/ (exists a e, a ∈ gone d /\ core (heap (world d)) a = Some (u, e)) ->
  invariant d -> invariant (on_registry (fun x => (replace_path old new u x).1) d).
Proof.
  intros Hu HI. apply inv_paths_step; [done|]. intros i ->. unfold replace_path.
  destruct (accepting_publication _); cbn [negb]; [|by auto].
  cbn. destruct (path_insert new u _) as [ps|e] eqn:E; cbn; (split; [done|]; intros q v Hq); [|left; by eapply path_removed].
  destruct (path_insert_lookup _ _ _ _ _ _ E Hq) as [?%path_removed| ->]; auto.
Qed.

Lemma inv_unbind p d : invariant d -> invariant (on_registry (unbind_path p) d).
Proof.
  intros HI. apply inv_paths_step; [done|]. intros i ->. split; [done|]. intros q v Hq%path_removed. by left.
Qed.

Lemma registry_sweep l c d : invariant d -> invariant (set_sweep l c d).
Proof. intros [? ?]. by split. Qed.

Lemma registry_step e d : Z.of_nat (length (sessions d)) < 2 ^ 64 -> invariant d -> invariant (step e d).
Proof.
  intros Hlen HI. destruct e as [u|p|u p st|i|i|i|i|i p|p|p u|i old new|u| | | |a l r k|a now|now ttl cap|b du fl| |]; cbn [step]; unfold check_candidate, commit_candidate.
  - apply inv_found; [done|]. unfold lookup_uuid. destruct (accepting_publication _); cbn [negb]; [|by left].
    destruct (rooms _ !! u) as [a|] eqn:Hu; [|by left]. right. eauto.
  - apply inv_found; [done|]. unfold lookup_path. destruct (accepting_publication _); cbn [negb]; [|by left].
    destruct (paths _ !! p) as [u|]; cbn; [|by left]. destruct (rooms _ !! u) as [a|] eqn:Hu; [|by left]. right. eauto.
  - by apply registry_create.
  - apply moved_session; auto.
  - apply moved_session; [done| |done]. intros c. left. cbn. by rewrite Z.sub_0_r.
  - apply moved_session; [done| |done]. intros c. left. cbn. by rewrite Z.add_0_r.
  - destruct (sessions d !! i) as [s|] eqn:Hi; [|done]. case_decide; [done|]. by apply dropped_session.
  - destruct (session_room i d) as [r|] eqn:Hr; [|done]. apply inv_bind; [by eapply session_owns|done].
  - by apply inv_unbind.
  - apply inv_paths_step; [done|]. intros j ->. unfold unbind_path_if_uuid, unbind_path. case_decide; cbn; [|by auto].
    split; [done|]. intros q v Hq%path_removed. by left.
  - destruct (session_room i d) as [r|] eqn:Hr; [|done]. apply inv_replace; [by eapply session_owns|done].
  - destruct (remove u (inner (world d))) as [x [a|]] eqn:Hr; [|done]. by eapply registry_remove.
  - by apply inv_drain.
  - apply inv_paths_step; [done|]. intros j ->. by auto.
  - apply inv_paths_step; [done|]. intros j ->. by auto.
  - by apply inert_update.
  - by apply inert_update.
  - by apply registry_sweep.
  - destruct (candidates d) as [|s l]; [done|]. destruct (heap _ !! sm_room s) as [r|]; [|by apply registry_sweep].
    destruct (has_kernel r); [by apply registry_sweep|]. destruct b; cbn [negb]; apply registry_sweep; [done|]. by apply inert_update.
  - destruct (checked d) as [s|]; [|done]. destruct (remove_if _ _ _) as [w [a|]] eqn:Hr; [by eapply inv_commit|].
    assert (w = world d) as ->.
    { unfold remove_if, remove in Hr. repeat case_match; simplify_eq/=; done. }
    rewrite with_world_id. by apply registry_sweep.
  - destruct (removed d) as [|a l] eqn:Hl; [done|]. by apply inv_evict.
Qed.

Lemma sessions_step e d : (length (sessions (step e d)) <= S (length (sessions d)))%nat.
Proof.
  assert (forall x, (length (sessions (found x d)) <= S (length (sessions d)))%nat) as Hf.
  { intros [w [a|]]; cbn; [rewrite length_app; cbn|]; lia. }
  assert (forall i from to f, (length (sessions (session_step i from to f d)) <= S (length (sessions d)))%nat) as Hm.
  { intros. unfold session_step. repeat case_match; cbn; rewrite ?length_insert; lia. }
  destruct e; cbn [step]; unfold check_candidate, commit_candidate; auto; try (repeat case_match; cbn; lia).
  - unfold create_room. destruct (insert_or_get _ _ _ _) as [w [o|e]]; cbn; [rewrite length_app; cbn|]; lia.
  - destruct (sessions d !! i); [|lia]. case_decide; [lia|]. cbn. pose proof (length_delete (sessions d) i). 
    rewrite delete_take_drop, length_app, length_take, length_drop. lia.
Qed.

Lemma sessions_run es : (length (sessions (run es)) <= length es)%nat.
Proof.
  induction es as [|e es IH] using rev_ind; [done|]. unfold run, run_from in *. rewrite foldl_app. cbn.
  pose proof (sessions_step e (foldl (fun d e => step e d) start es)). rewrite length_app. cbn. lia.
Qed.

Lemma inv_start : invariant start.
Proof.
  split; [by intros a r Ha|]. split; cbn.
  - intros a (s & Hs & _). by apply not_elem_of_nil in Hs.
  - intros u a Ha. done.
  - intros a u e (s & Hs & _). by apply not_elem_of_nil in Hs.
  - intros p u Hp. by apply lookup_empty_Some in Hp.
  - intros a Ha. by apply not_elem_of_nil in Ha.
Qed.

Lemma registry_run es : Z.of_nat (length es) <= u64_max -> invariant (run es).
Proof.
  induction es as [|e es IH] using rev_ind; intros Hl; [apply inv_start|]. rewrite length_app in Hl. cbn in Hl.
  unfold run, run_from in *. rewrite foldl_app. cbn. apply registry_step; [|apply IH; lia].
  pose proof (sessions_run es) as Hs. unfold run, run_from in Hs. unfold u64_max in Hl. lia.
Qed.

(** ** Visits *)



(** The event counts a connection of a room. *)
Definition visit (a : arc) (e : event) (d : Daemon) : Z :=
  match e with
  | Enter i => if decide (sessions d !! i = Some (mkSession a Reserved)) then 1 else 0
  | Join i => if decide (sessions d !! i = Some (mkSession a Entered)) then 1 else 0
  | _ => 0
  end.

Fixpoint visits (a : arc) (d : Daemon) (es : list event) : Z :=
  match es with [] => 0 | e :: es => visit a e d + visits a (step e d) es end.

Definition generation (d : Daemon) (a : arc) : option Z := (fun r => connection_generation (connections r)) <$> heap (world d) !! a.

Lemma generation_alter f a (h : gmap arc NotebookRoom) b g k :
  (fun r => connection_generation (connections r)) <$> h !! b = Some g ->
  (forall r, connection_generation (connections (f r)) = wrap64 (connection_generation (connections r) + k)) ->
  (fun r => connection_generation (connections r)) <$> alter f a h !! b =
    Some (if decide (a = b) then wrap64 (g + k) else g).
Proof.
  intros Hg Hf. case_decide as Hb.
  - subst b. rewrite lookup_alter_eq. destruct (h !! a) as [r|]; [|done]. injection Hg as <-. cbn. by rewrite Hf.
  - by rewrite lookup_alter_ne.
Qed.

Lemma generation_keeps f a (h : gmap arc NotebookRoom) b :
  (forall r, connection_generation (connections (f r)) = connection_generation (connections r)) ->
  (fun r => connection_generation (connections r)) <$> alter f a h !! b = (fun r => connection_generation (connections r)) <$> h !! b.
Proof.
  intros Hf. destruct (decide (a = b)) as [<-|Hne]; [|by rewrite lookup_alter_ne].
  rewrite lookup_alter_eq. destruct (h !! a) as [r|]; [|done]. cbn. by rewrite Hf.
Qed.

Lemma visit_session i from to f d a g k :
  (forall c, connection_generation (f c) = wrap64 (connection_generation c + k)) ->
  generation d a = Some g ->
  let n := if decide (sessions d !! i = Some (mkSession a from)) then k else 0 in
  exists g', generation (session_step i from to f d) a = Some g' /\ wrap64 g' = wrap64 (g + n).
Proof.
  intros Hf Hg. unfold session_step. destruct (sessions d !! i) as [[b p]|] eqn:Hi; cbn zeta;
    [|rewrite decide_False, Z.add_0_r by done; by exists g].
  cbn [s_phase s_room]. destruct (decide (p = from)) as [->|Hp]; [|rewrite decide_False, Z.add_0_r by congruence; by exists g].
  unfold generation. cbn. rewrite (generation_alter _ _ _ _ g k); [|exact Hg|intros r; apply Hf]. eexists. split; [done|].
  destruct (decide (b = a)) as [->|Hb].
  - rewrite decide_True by done. unfold wrap64. by rewrite Zmod_mod.
  - by rewrite decide_False, Z.add_0_r by congruence.
Qed.

Lemma visit_step e d a g :
  generation d a = Some g -> exists g', generation (step e d) a = Some g' /\ wrap64 g' = wrap64 (g + visit a e d).
Proof.
  intros Hg.
  assert (forall x, (x.1 = world d \/ exists b, x = guarded b (world d)) -> generation (found x d) a = Some g) as Hfound.
  { intros x [Hx|(b & ->)]; [destruct x as [w [b|]]; cbn in Hx; by subst|]. unfold generation. cbn. by rewrite generation_keeps. }
  assert (generation (step e d) a = Some g -> exists g', generation (step e d) a = Some g' /\ wrap64 g' = wrap64 (g + 0)) as H0.
  { intros H. exists g. by rewrite Z.add_0_r. }
  destruct e as [u|p|u p st|i|i|i|i|i p|p|p u|i old new|u| | | |b l r k|b now|now ttl cap|b du fl| |]; cbn [step visit] in *; unfold check_candidate, commit_candidate in *;
    try (by apply visit_session); apply H0; clear H0.
  - apply Hfound. unfold lookup_uuid. repeat case_match; eauto.
  - apply Hfound. unfold lookup_path. repeat case_match; eauto.
  - assert (forall h r, (fun r => connection_generation (connections r)) <$> <[fresh (dom (heap (world d))) := r]> (heap (world d)) !! a = h ->
       h = Some g) as Hn.
    { intros h r <-. unfold generation in Hg. rewrite lookup_insert_ne; [done|]. intros Ha. rewrite <- Ha in Hg.
      assert (heap (world d) !! fresh (dom (heap (world d))) = None) as Hx by (apply not_elem_of_dom, is_fresh). by rewrite Hx in Hg. }
    unfold create_room, insert_or_get. cbn -[fresh].
    repeat case_match; simplify_eq; unfold generation; cbn -[fresh]; rewrite ?generation_keeps by done; by eapply Hn.
  - unfold session_step. repeat case_match; try done. unfold generation. cbn. by rewrite generation_keeps.
  - repeat case_match; try done. unfold generation. cbn. by rewrite generation_keeps.
  - by case_match.
  - done.
  - done.
  - by case_match.
  - by repeat case_match.
  - done.
  - done.
  - done.
  - unfold generation. cbn. by rewrite generation_keeps.
  - unfold generation. cbn. by rewrite generation_keeps.
  - done.
  - repeat case_match; try done. unfold generation. cbn. by rewrite generation_keeps.
  - destruct (checked d) as [s|]; [|done]. unfold remove_if, remove. repeat case_match; simplify_eq/=; done.
  - case_match; [done|]. unfold generation. cbn. by rewrite generation_keeps.
Qed.

Lemma wrap64_u64 n : is_u64 (wrap64 n).
Proof. unfold wrap64, is_u64, u64_max. pose proof (Z.mod_pos_bound n (2 ^ 64)). lia. Qed.

Lemma wrap64_small n : is_u64 n -> wrap64 n = n.
Proof. unfold wrap64, is_u64, u64_max. intros H. apply Z.mod_small. lia. Qed.

Lemma visits_run es : forall d a g, generation d a = Some g ->
  exists g', generation (run_from d es) a = Some g' /\ wrap64 g' = wrap64 (g + visits a d es).
Proof.
  induction es as [|e es IH]; intros d a g Hg; cbn [run_from foldl visits].
  - exists g. by rewrite Z.add_0_r.
  - destruct (visit_step e d a g Hg) as (g1 & H1 & Hw1). destruct (IH _ _ _ H1) as (g2 & H2 & Hw2). exists g2. split; [exact H2|].
    by rewrite Hw2, <- wrap64_add, Hw1, wrap64_add, Z.add_assoc.
Qed.

Lemma visits_app a es es' : forall d, visits a d (es ++ es') = visits a d es + visits a (run_from d es) es'.
Proof. induction es as [|e es IH]; intros d; cbn [app visits run_from foldl]; [done|]. rewrite IH. unfold run_from. lia. Qed.

Lemma visit_bounds a e d : 0 <= visit a e d <= 1.
Proof. destruct e; cbn; try lia; case_decide; lia. Qed.

Lemma visits_bounds a es : forall d, 0 <= visits a d es <= Z.of_nat (length es).
Proof.
  induction es as [|e es IH]; intros d; [cbn; lia|]. cbn [visits length]. pose proof (visit_bounds a e d).
  specialize (IH (step e d)). lia.
Qed.

Lemma run_app es1 es2 : run (es1 ++ es2) = run_from (run es1) es2.
Proof. apply foldl_app. Qed.

Lemma exact_count {A} (P : A -> Prop) `{!forall x, Decision (P x)} (l : list A) :
  Z.of_nat (length l) <= u64_max -> wrap64 (count P l) = count P l.
Proof. intros Hl. apply wrap64_small. pose proof (count_le P l). pose proof (count_nonneg P l). unfold is_u64. lia. Qed.

(** ** The registry's guarantees *)

(** C35. A room with a session stays: whatever handshakes, saves, sweeps and requests do, the
    room of a session exists, its counters are the numbers of its sessions and of its peers,
    and unless a request removed it explicitly it is resident under its notebook's id, not
    evicted, and the room of every other session of that notebook. *)
Theorem attached_rooms_stay es i s :
  Z.of_nat (length es) <= u64_max -> let d := run es in
  sessions d !! i = Some s ->
  exists r, heap (world d) !! s_room s = Some r /\
    reservations (connections r) = count (holds (s_room s)) (sessions d) /\ 0 < reservations (connections r) /\
    active_peers (connections r) = count (counts (s_room s)) (sessions d) /\
    (s_room s ∈ gone d \/
     rooms (inner (world d)) !! room_id r = Some (s_room s) /\ is_evicted r = false /\
     forall j s' r', sessions d !! j = Some s' -> heap (world d) !! s_room s' = Some r' -> room_id r' = room_id r ->
       s_room s' ∈ gone d \/ s_room s' = s_room s).
Proof.
  intros Hl d Hi. destruct (registry_run es Hl) as [Hc [S1 S2 S3 S4 S5]]. fold d in Hc, S1, S2, S3, S4, S5.
  assert (Z.of_nat (length (sessions d)) <= u64_max) as Hs by (pose proof (sessions_run es); unfold d; lia).
  assert (forall j x, sessions d !! j = Some x -> held (sessions d) (s_room x)) as Hh.
  { intros j x Hx. exists x. split; [by eapply list_elem_of_lookup_2|done]. }
  assert (forall a r, heap (world d) !! a = Some r -> core (heap (world d)) a = Some (room_id r, is_evicted r)) as Hcore.
  { intros a r Hr. unfold core. by rewrite Hr. }
  destruct (S1 _ (Hh i s Hi)) as [x Hx]. unfold core in Hx. apply fmap_Some in Hx as (r & Hr & _). exists r.
  destruct (Hc _ _ Hr) as [H1 H2]. rewrite exact_count in H1, H2 by done. split_and!; [done|done| |done|].
  - rewrite H1. pose proof (count_nonneg (holds (s_room s)) (sessions d)).
    destruct (decide (count (holds (s_room s)) (sessions d) = 0)) as [H0|]; [|lia].
    exfalso. apply (count_zero _ _ H0 s); [by eapply list_elem_of_lookup_2|done].
  - destruct (S3 _ _ _ (Hh i s Hi) (Hcore _ _ Hr)) as [?|Hres]; [by left|]. right. split_and!; [done| |].
    + specialize (S2 _ _ Hres). rewrite (Hcore _ _ Hr) in S2. by injection S2.
    + intros j s' r' Hj Hr' Hid. destruct (S3 _ _ _ (Hh j s' Hj) (Hcore _ _ Hr')) as [?|Hres']; [by left|]. right.
      rewrite Hid, Hres in Hres'. by injection Hres'.
Qed.

Lemma unreserved_room es a r :
  Z.of_nat (length es) <= u64_max -> heap (world (run es)) !! a = Some r -> reservations (connections r) = 0 ->
  ~ held (sessions (run es)) a.
Proof.
  intros Hl Hr H0. destruct (registry_run es Hl) as [Hc _]. destruct (Hc a r Hr) as [H1 _]. rewrite H0 in H1.
  pose proof (sessions_run es). rewrite exact_count in H1 by lia. intros (x & Hx & Hxa). by apply (count_zero _ _ (eq_sym H1) x).
Qed.

Lemma sampled_generation w x s : sample_room w x = Some s ->
  exists r, heap w !! sm_room s = Some r /\ sm_generation s = connection_generation (connections r).
Proof.
  unfold sample_room. destruct x as [u a]. cbn. destruct (heap w !! a) as [r|] eqn:Hr; [|done]. cbn.
  destruct (last_kernel_torn_down_at _); [|done]. cbn. case_match; [done|]. intros [= <-]. by exists r.
Qed.

Lemma wrap64_same g n : is_u64 n -> wrap64 g = wrap64 (g + n) -> n = 0.
Proof.
  intros Hn H. unfold wrap64 in H. assert (n mod 2 ^ 64 = 0) as H0.
  { replace n with (g + n - g) by lia. rewrite Zminus_mod, <- H, Z.sub_diag. done. }
  rewrite Z.mod_small in H0; [done|]. unfold is_u64, u64_max in Hn. lia.
Qed.

Lemma remove_if_takes uuid f w w' a :
  remove_if uuid f w = (w', Some a) -> exists r, rooms (inner w) !! uuid = Some a /\ heap w !! a = Some r /\ f r = true.
Proof.
  unfold remove_if, remove. destruct (rooms (inner w) !! uuid) as [b|] eqn:Hb; [|done]. cbn.
  destruct (heap w !! b) as [r|] eqn:Hr; [|done]. destruct (f r) eqn:Hf; [|done]. intros [= _ <-]. by exists r.
Qed.

(** C36. The reaper's commit takes a room that nobody holds; and when it is the room that was
    sampled, nobody entered it at any moment since, although peers came and went. *)
Theorem reaped_room_had_no_visitor es1 es2 x s w a :
  Z.of_nat (length (es1 ++ es2)) <= u64_max ->
  sample_room (world (run es1)) x = Some s ->
  remove_if (sm_uuid s) (still_idle (sm_generation s)) (world (run (es1 ++ es2))) = (w, Some a) ->
  ~ held (sessions (run (es1 ++ es2))) a /\
  (a = sm_room s -> forall ea e eb, es2 = ea ++ e :: eb -> visit a e (run (es1 ++ ea)) = 0).
Proof.
  intros Hl Hs (r & _ & Hr & Hidle)%remove_if_takes. unfold still_idle in Hidle. repeat (apply andb_prop in Hidle as [Hidle ?]).
  split; [eapply unreserved_room; [exact Hl|exact Hr|by eapply bool_decide_eq_true_1]|].
  intros -> ea e eb ->. destruct (sampled_generation _ _ _ Hs) as (r0 & Hr0 & Hg0).
  assert (generation (run es1) (sm_room s) = Some (sm_generation s)) as Hg by (unfold generation; rewrite Hr0, Hg0; done).
  destruct (visits_run (ea ++ e :: eb) _ _ _ Hg) as (g & Hg' & Hw). rewrite <- run_app in Hg'. unfold generation in Hg'.
  rewrite Hr in Hg'. injection Hg' as <-. assert (connection_generation (connections r) = sm_generation s) as Hsame by (by eapply bool_decide_eq_true_1).
  rewrite Hsame in Hw. pose proof (visits_bounds (sm_room s) (ea ++ e :: eb) (run es1)). rewrite !length_app in *.
  apply wrap64_same in Hw; [|unfold is_u64; lia]. rewrite visits_app in Hw. cbn [visits] in Hw. rewrite run_app.
  pose proof (visits_bounds (sm_room s) ea (run es1)). pose proof (visits_bounds (sm_room s) eb (step e (run_from (run es1) ea))).
  pose proof (visit_bounds (sm_room s) e (run_from (run es1) ea)). lia.
Qed.

(** While the registry accepts rooms and no request has removed one, a handshake always
    gets a resident room that is not evicted: the notebook's own, or the one that has the
    path open. *)
Theorem creation_reaches_notebook es u p st :
  Z.of_nat (length es) <= u64_max -> let d := run es in
  accepting_publication (inner (world d)) = true -> gone d = [] -> let d' := step (Create u p st) d in
  exists a r, sessions d' = sessions d ++ [mkSession a Reserved] /\
    heap (world d') !! a = Some r /\ rooms (inner (world d')) !! room_id r = Some a /\ is_evicted r = false /\
    (room_id r = u \/ rooms (inner (world d)) !! u = None /\
       exists q, p = Some q /\ paths (inner (world d)) !! q = Some (room_id r)).
Proof.
  intros Hl d Hacc Hgone d'. assert (invariant d) as HI by (by apply registry_run).
  assert (invariant d') as [_ [_ S2 _ _ _]] by (by apply registry_create). destruct HI as [_ [_ _ _ S4 _]].
  enough (exists a v, sessions d' = sessions d ++ [mkSession a Reserved] /\ rooms (inner (world d')) !! v = Some a /\
    (v = u \/ rooms (inner (world d)) !! u = None /\ exists q, p = Some q /\ paths (inner (world d)) !! q = Some v)) as (a & v & H1 & H2 & H3).
  { pose proof (S2 _ _ H2) as Hc. unfold core in Hc. apply fmap_Some in Hc as (r & Hr & Hc). injection Hc as -> He. exists a, r. split_and!; auto. }
  unfold d'. cbn [step]. unfold create_room. generalize (fresh (dom (heap (world d)))) as a. intros a.
  unfold insert_or_get. cbn [inner]. rewrite Hacc. cbn [negb]. destruct (rooms (inner (world d)) !! u) as [b|] eqn:Hu; [by exists b, u; auto|].
  destruct p as [q|]; [|exists a, u; cbn; rewrite lookup_insert_eq; auto]. unfold path_insert.
  destruct (paths (inner (world d)) !! q) as [v|] eqn:Hq; [|exists a, u; cbn; rewrite lookup_insert_eq; auto].
  case_decide; [exists a, u; cbn; rewrite lookup_insert_eq; auto|].
  destruct (S4 q v Hq) as [[b Hb]|(b & e & Hb & _)]; [|rewrite Hgone in Hb; by apply not_elem_of_nil in Hb].
  rewrite Hb. exists b, v. cbn. eauto 8.
Qed.

(** *** The sweep *)

#[export] Instance older_total : Total older.
Proof. intros x y. unfold older. lia. Qed.
#[export] Instance older_trans : Transitive older.
Proof. intros x y z. unfold older. lia. Qed.

Lemma sample_room_spec w u a s : sample_room w (u, a) = Some s ->
  sm_uuid s = u /\ sm_room s = a /\ exists r, heap w !! a = Some r /\
    active_peers (connections r) <= 0 /\ is_loading r = false /\ requires_durability_repair r = false /\
    sm_stamp s = last_kernel_torn_down (connections r) /\ sm_stamp s <> 0.
Proof.
  unfold sample_room. cbn. destruct (heap w !! a) as [r|]; [|done]. cbn. unfold last_kernel_torn_down_at.
  destruct (decide (last_kernel_torn_down (connections r) = 0)) as [|Hne]; [done|]. cbn.
  destruct (0 <? active_peers (connections r)) eqn:Hp; [done|]. destruct (is_loading r) eqn:El; [done|].
  destruct (requires_durability_repair r) eqn:Er; [done|]. intros [= <-]. cbn. split_and!; [done..|]. exists r. apply Z.ltb_ge in Hp. auto 7.
Qed.

Lemma elem_of_peerless w s : s ∈ peerless w ->
  rooms (inner w) !! sm_uuid s = Some (sm_room s) /\ sample_room w (sm_uuid s, sm_room s) = Some s.
Proof.
  unfold peerless. intros ([u a] & Hx & Hs)%list_elem_of_omap. apply elem_of_map_to_list in Hx.
  destruct (sample_room_spec w u a s Hs) as (-> & -> & _). done.
Qed.

(** One sample per notebook. *)
Lemma peerless_same_uuid w s t : s ∈ peerless w -> t ∈ peerless w -> sm_uuid s = sm_uuid t -> s = t.
Proof.
  intros [Hs1 Hs2]%elem_of_peerless [Ht1 Ht2]%elem_of_peerless E. rewrite E in *. rewrite Hs1 in Ht1. injection Ht1 as Ht1.
  rewrite Ht1 in Hs2. congruence.
Qed.

(** What the cap leaves is a suffix of the samples in order of age. *)
Lemma kept_young now ttl cap l t : t ∈ l -> t ∉ reap_candidates now ttl cap l -> (cap < length l)%nat ->
  t ∈ skipn (length l - cap) (merge_sort older l).
Proof.
  intros Hl Ht Hcap. assert (t ∈ merge_sort older l) as Hm by (by rewrite merge_sort_Permutation).
  rewrite <- (take_drop (length l - cap) (merge_sort older l)) in Hm. apply elem_of_app in Hm as [Hm|Hm]; [|done].
  exfalso. apply Ht. apply list_elem_of_filter. split; [|done]. right. unfold overflow.
  rewrite (proj2 (Nat.ltb_lt _ _) Hcap). by apply list_elem_of_fmap_2.
Qed.

Lemma filter_within {A} (P : A -> Prop) `{!forall x, Decision (P x)} l1 l2 :
  (forall x, x ∈ l1 -> ~ P x) -> (length (filter P (l1 ++ l2)) <= length l2)%nat.
Proof.
  intros Hout. rewrite filter_app. replace (filter P l1) with (@nil A); [apply length_filter|].
  symmetry. destruct (filter P l1) as [|x l] eqn:E; [done|]. assert (x ∈ filter P l1) as [Hx Hin]%list_elem_of_filter by (rewrite E; constructor).
  by destruct (Hout x Hin).
Qed.

(** A sweep considers only resident rooms without peers, settled and healthy, takes every
    one past its time, leaves at most the cap, and what it takes for the cap is older than
    what it leaves. *)
Theorem reaper_takes_the_oldest now ttl cap w :
  let l := peerless w in let c := reap_candidates now ttl cap l in
  (forall s, s ∈ c -> s ∈ l) /\
  (forall s, s ∈ l -> exists r, rooms (inner w) !! sm_uuid s = Some (sm_room s) /\ heap w !! sm_room s = Some r /\
     active_peers (connections r) <= 0 /\ is_loading r = false /\ requires_durability_repair r = false /\
     sm_stamp s = last_kernel_torn_down (connections r) /\ sm_stamp s <> 0) /\
  (forall s, s ∈ l -> aged_out now ttl s = true -> s ∈ c) /\
  (length (filter (fun s => s ∉ c) l) <= cap)%nat /\
  (forall s t, s ∈ c -> aged_out now ttl s = false -> t ∈ l -> t ∉ c -> sm_stamp s <= sm_stamp t).
Proof.
  intros l c. split_and!.
  - by intros s [_ ?]%list_elem_of_filter.
  - intros s [H1 H2]%elem_of_peerless. apply sample_room_spec in H2 as (_ & _ & r & Hr). exists r. tauto.
  - intros s Hs Ha. apply list_elem_of_filter. auto.
  - destruct (decide (cap < length l)%nat) as [Hcap|]; [|pose proof (length_filter (fun s => s ∉ c) l); lia].
    assert (filter (fun s => s ∉ c) l ≡ₚ filter (fun s => s ∉ c) (merge_sort older l)) as -> by (by rewrite merge_sort_Permutation).
    rewrite <- (take_drop (length l - cap) (merge_sort older l)). etrans; [apply filter_within|].
    + intros s Hs Hn. apply Hn, list_elem_of_filter. split.
      * right. unfold overflow. rewrite (proj2 (Nat.ltb_lt _ _) Hcap). by apply list_elem_of_fmap_2.
      * rewrite <- (merge_sort_Permutation older l). apply elem_of_take in Hs as (j & Hj & _). by eapply list_elem_of_lookup_2.
    + rewrite length_drop, (Permutation_length (merge_sort_Permutation older l)). lia.
  - intros s t Hs Ha Ht Hn. apply list_elem_of_filter in Hs as [[Hs|Hs] Hsl]; [congruence|]. unfold overflow in Hs.
    destruct (cap <? length l)%nat eqn:Hcap; [|by apply not_elem_of_nil in Hs]. apply Nat.ltb_lt in Hcap.
    apply list_elem_of_fmap in Hs as (s' & Hu & Hs'). pose proof (kept_young now ttl cap l t Ht Hn Hcap) as Htd.
    assert (s' ∈ l) as Hsl'.
    { rewrite <- (merge_sort_Permutation older l), <- (take_drop (length l - cap)). apply elem_of_app. by left. }
    rewrite (peerless_same_uuid w s s') by done. 
    pose proof (StronglySorted_merge_sort older l) as Hsorted. rewrite <- (take_drop (length l - cap) (merge_sort older l)) in Hsorted.
    by apply (StronglySorted_app_1_elem_of older _ _ s' t Hsorted).
Qed.

(** ** On concrete runs *)

(** Two peers open the notebook, one by path; the first leaves. *)
Definition two_peers : list event :=
  [Create "n" (Some "/a.ipynb") None; Enter 0; Join 0; FindPath "/a.ipynb"; Enter 1; Join 1; Leave 0].

(** A visit and the stamp of the kernel teardown. *)
Definition idle_visit (a : arc) (now : Z) : list event :=
  [Create "n" None None; Enter 0; Join 0; Leave 0; DropGuard 0; Stamp a now].

(** The sweep has checked the room and is about to commit. *)
Definition caught_in_sweep : list event := idle_visit 0 100 ++ [Sweep 200 100 32; Check true true true].

Lemma attached_rooms_stay_witness : exists r, heap (world (run two_peers)) !! 0%nat = Some r /\ 0 < reservations (connections r).
Proof.
  destruct (attached_rooms_stay two_peers 1 (mkSession 0 Joined)) as (r & Hr & _ & Hres & _); [vm_compute; discriminate|by vm_compute|].
  by exists r.
Defined.

Lemma reaped_room_had_no_visitor_witness : exists w,
  remove_if "n" (still_idle 2) (world (run (idle_visit 0 100 ++ [Sweep 200 100 32]))) = (w, Some 0%nat) /\
  ~ held (sessions (run (idle_visit 0 100 ++ [Sweep 200 100 32]))) 0%nat.
Proof.
  eexists. split; [vm_compute; reflexivity|].
  eapply (reaped_room_had_no_visitor (idle_visit 0 100) [Sweep 200 100 32] ("n", 0%nat) (mkSampled "n" 0 100 2));
    [vm_compute; discriminate|vm_compute; reflexivity..].
Defined.

(** A peer that looked the notebook up holds its room. *)
Example lookup_stops_commit :
  rooms (inner (world (run (caught_in_sweep ++ [FindUuid "n"; Commit])))) !! "n" = Some 0%nat /\
  rooms (inner (world (run (caught_in_sweep ++ [Commit; FindUuid "n"])))) !! "n" = None.
Proof. vm_compute. auto. Qed.

Lemma creation_reaches_notebook_witness : exists a r,
  sessions (step (Create "m" (Some "/a.ipynb") None) (run two_peers)) = sessions (run two_peers) ++ [mkSession a Reserved] /\
  heap (world (step (Create "m" (Some "/a.ipynb") None) (run two_peers))) !! a = Some r.
Proof.
  destruct (creation_reaches_notebook two_peers "m" (Some "/a.ipynb") None) as (a & r & H1 & H2 & _);
    [vm_compute; discriminate|vm_compute; reflexivity|vm_compute; reflexivity|]. by exists a, r.
Defined.

(** The hypothesis on explicit removals is needed: a save that claims its path after its
    notebook was shut down leaves an entry without a room, and the path cannot be opened. *)
Example late_bind_blocks_path :
  let d := run [Create "n" None None; RemoveRoom "n"; Bind 0 "/a.ipynb"; DropGuard 0] in
  sessions d = [] /\ rooms (inner (world d)) !! "n" = None /\
  (insert_or_get "m" 1 (Some "/a.ipynb") (world d)).2 = Err (PathAlreadyOpen "n" "/a.ipynb").
Proof. vm_compute. auto. Qed.

(** The commit goes by notebook, not by room: a room that replaced the sampled one, after an
    equal number of visits, goes without a check of its own. *)
Example commit_takes_unsampled_room :
  let d := run (caught_in_sweep ++ [RemoveRoom "n"] ++ idle_visit 1 200) in
  sm_room <$> checked d = Some 0%nat /\ candidates d = [] /\ removed (step Commit d) = [1%nat].
Proof. vm_compute. auto. Qed.

(** A sweep over three idle rooms with a cap of one takes the two oldest. *)
Definition three_idle : list event :=
  [Create "a" None None; DropGuard 0; Create "b" None None; DropGuard 0; Create "c" None None; DropGuard 0;
   Stamp 0 130; Stamp 1 110; Stamp 2 120].

Lemma reaper_takes_the_oldest_witness :
  (length (filter (fun s => s ∉ reap_candidates 140 1000 1 (peerless (world (run three_idle)))) (peerless (world (run three_idle)))) <= 1)%nat /\
  sm_uuid <$> reap_candidates 140 1000 1 (peerless (world (run three_idle))) = ["c"; "b"].
Proof. split; [apply (reaper_takes_the_oldest 140 1000 1 (world (run three_idle)))|vm_compute; reflexivity]. Defined.
