(* ===== verification/LaunchGate.v ===== *)
(** * The single-flight gate of kernel launches

    Model of [KernelLaunchGate] and [KernelLaunchAttempt] of
    [notebook_sync_server/room.rs] with the operations of [NotebookRoom] around them.  The
    gate's state is guarded by one mutex; every section under it is one step, and the
    owner of an attempt, requests that shut a kernel down, agents that connect and go,
    and the tasks that clean up after a dropped attempt interleave between the steps.
    Time is in milliseconds of a monotone clock. *)

From S2P Require Import Prelude Kernel Automunge RuntimeDoc.

(** ** Data *)

Inductive KernelLaunchOutcome := OutcomeFailed | OutcomeSucceeded | OutcomeReleased.
Inductive KernelLaunchSource := Auto | Manual.
Inductive KernelLaunchCompletion := Failed | Succeeded | Released | Cancelled.
Inductive KernelLaunchCommitRejection := RejectCancelled | AgentUnavailable.
#[export] Instance KernelLaunchOutcome_eq_dec : EqDecision KernelLaunchOutcome.
Proof. solve_decision. Defined.
#[export] Instance KernelLaunchSource_eq_dec : EqDecision KernelLaunchSource.
Proof. solve_decision. Defined.
#[export] Instance KernelLaunchCompletion_eq_dec : EqDecision KernelLaunchCompletion.
Proof. solve_decision. Defined.

Definition AUTO_LAUNCH_FAILURE_COOLDOWN : Z := 5000.

Record ActiveKernelLaunch := mkActive { al_runtime_agent_id : string; al_kernel_type : string; al_env_source : string }.

(** The senders of a cancellation and of an abort are references: to a channel of the room
    and to a task. *)
Record KernelLaunchGateState := mkGate {
  in_flight_generation : option Z; in_flight_cancel_tx : option nat; in_flight_abort_handle : option nat;
  cooldown_until : option Z; admitted_count : Z;
  completed_outcomes : gmap Z KernelLaunchCompletion; cancelled_generations : gset Z;
  expected_runtime_agent_id : option string; connected_runtime_agent_id : option string;
}.

Definition default_gate : KernelLaunchGateState := mkGate None None None None 0 ∅ ∅ None None.

(** What a launch shows to clients: the runtime state document, the daemon's record of the
    kernel, the kernel's presence. *)
Record Projection := mkProjection { doc : RuntimeStateDoc; active_kernel_launch : option ActiveKernelLaunch; kernel_presence : string }.

Record LaunchRoom := mkLaunchRoom {
  gate : KernelLaunchGateState;
  channels : list bool;
  projection : Projection;
  current_runtime_agent_id : option string;
  runtime_agent_handle : option string; runtime_agent_request_tx : option string; pending_runtime_agent_connect_tx : bool;
  runtime_agent_env_path : option string; preparing_kernel_env_path : option string;
  active_peers : Z;
}.

Record KernelLaunchAttempt := mkAttempt {
  generation : Z; outcome : KernelLaunchOutcome; source : KernelLaunchSource; cancel_rx : nat;
  preserved_kernel : option KernelDocState; preserved_env_path : option string;
}.

(** *** Fields *)

Definition set_flight (g : option Z) (tx : option nat) (h : option nat) (s : KernelLaunchGateState) : KernelLaunchGateState :=
  mkGate g tx h (cooldown_until s) (admitted_count s) (completed_outcomes s) (cancelled_generations s)
    (expected_runtime_agent_id s) (connected_runtime_agent_id s).
Definition set_cooldown (u : option Z) (s : KernelLaunchGateState) : KernelLaunchGateState :=
  mkGate (in_flight_generation s) (in_flight_cancel_tx s) (in_flight_abort_handle s) u (admitted_count s)
    (completed_outcomes s) (cancelled_generations s) (expected_runtime_agent_id s) (connected_runtime_agent_id s).
Definition set_admitted (n : Z) (s : KernelLaunchGateState) : KernelLaunchGateState :=
  mkGate (in_flight_generation s) (in_flight_cancel_tx s) (in_flight_abort_handle s) (cooldown_until s) n
    (completed_outcomes s) (cancelled_generations s) (expected_runtime_agent_id s) (connected_runtime_agent_id s).
Definition set_completed (m : gmap Z KernelLaunchCompletion) (s : KernelLaunchGateState) : KernelLaunchGateState :=
  mkGate (in_flight_generation s) (in_flight_cancel_tx s) (in_flight_abort_handle s) (cooldown_until s) (admitted_count s)
    m (cancelled_generations s) (expected_runtime_agent_id s) (connected_runtime_agent_id s).
Definition set_cancelled (c : gset Z) (s : KernelLaunchGateState) : KernelLaunchGateState :=
  mkGate (in_flight_generation s) (in_flight_cancel_tx s) (in_flight_abort_handle s) (cooldown_until s) (admitted_count s)
    (completed_outcomes s) c (expected_runtime_agent_id s) (connected_runtime_agent_id s).
Definition set_agents (expected connected : option string) (s : KernelLaunchGateState) : KernelLaunchGateState :=
  mkGate (in_flight_generation s) (in_flight_cancel_tx s) (in_flight_abort_handle s) (cooldown_until s) (admitted_count s)
    (completed_outcomes s) (cancelled_generations s) expected connected.

Definition with_gate (f : KernelLaunchGateState -> KernelLaunchGateState) (r : LaunchRoom) : LaunchRoom :=
  mkLaunchRoom (f (gate r)) (channels r) (projection r) (current_runtime_agent_id r) (runtime_agent_handle r)
    (runtime_agent_request_tx r) (pending_runtime_agent_connect_tx r) (runtime_agent_env_path r) (preparing_kernel_env_path r) (active_peers r).
Definition with_channels (c : list bool) (r : LaunchRoom) : LaunchRoom :=
  mkLaunchRoom (gate r) c (projection r) (current_runtime_agent_id r) (runtime_agent_handle r)
    (runtime_agent_request_tx r) (pending_runtime_agent_connect_tx r) (runtime_agent_env_path r) (preparing_kernel_env_path r) (active_peers r).
Definition with_projection (f : Projection -> Projection) (r : LaunchRoom) : LaunchRoom :=
  mkLaunchRoom (gate r) (channels r) (f (projection r)) (current_runtime_agent_id r) (runtime_agent_handle r)
    (runtime_agent_request_tx r) (pending_runtime_agent_connect_tx r) (runtime_agent_env_path r) (preparing_kernel_env_path r) (active_peers r).
Definition set_current_agent (a : option string) (r : LaunchRoom) : LaunchRoom :=
  mkLaunchRoom (gate r) (channels r) (projection r) a (runtime_agent_handle r)
    (runtime_agent_request_tx r) (pending_runtime_agent_connect_tx r) (runtime_agent_env_path r) (preparing_kernel_env_path r) (active_peers r).
Definition set_handle (h : option string) (r : LaunchRoom) : LaunchRoom :=
  mkLaunchRoom (gate r) (channels r) (projection r) (current_runtime_agent_id r) h
    (runtime_agent_request_tx r) (pending_runtime_agent_connect_tx r) (runtime_agent_env_path r) (preparing_kernel_env_path r) (active_peers r).
Definition set_request_tx (t : option string) (r : LaunchRoom) : LaunchRoom :=
  mkLaunchRoom (gate r) (channels r) (projection r) (current_runtime_agent_id r) (runtime_agent_handle r)
    t (pending_runtime_agent_connect_tx r) (runtime_agent_env_path r) (preparing_kernel_env_path r) (active_peers r).
Definition set_connect_tx (b : bool) (r : LaunchRoom) : LaunchRoom :=
  mkLaunchRoom (gate r) (channels r) (projection r) (current_runtime_agent_id r) (runtime_agent_handle r)
    (runtime_agent_request_tx r) b (runtime_agent_env_path r) (preparing_kernel_env_path r) (active_peers r).
Definition set_env_path (p : option string) (r : LaunchRoom) : LaunchRoom :=
  mkLaunchRoom (gate r) (channels r) (projection r) (current_runtime_agent_id r) (runtime_agent_handle r)
    (runtime_agent_request_tx r) (pending_runtime_agent_connect_tx r) p (preparing_kernel_env_path r) (active_peers r).
Definition set_preparing (p : option string) (r : LaunchRoom) : LaunchRoom :=
  mkLaunchRoom (gate r) (channels r) (projection r) (current_runtime_agent_id r) (runtime_agent_handle r)
    (runtime_agent_request_tx r) (pending_runtime_agent_connect_tx r) (runtime_agent_env_path r) p (active_peers r).
Definition set_active_peers (n : Z) (r : LaunchRoom) : LaunchRoom :=
  mkLaunchRoom (gate r) (channels r) (projection r) (current_runtime_agent_id r) (runtime_agent_handle r)
    (runtime_agent_request_tx r) (pending_runtime_agent_connect_tx r) (runtime_agent_env_path r) (preparing_kernel_env_path r) n.

Definition set_doc (d : RuntimeStateDoc) (p : Projection) : Projection := mkProjection d (active_kernel_launch p) (kernel_presence p).
Definition set_active (a : option ActiveKernelLaunch) (p : Projection) : Projection := mkProjection (doc p) a (kernel_presence p).
Definition set_presence (s : string) (p : Projection) : Projection := mkProjection (doc p) (active_kernel_launch p) s.

(** Writers in sequence, up to the first error; [with_doc] keeps what was written before it. *)
Definition then_doc {A B} (m1 : DocM A) (m2 : DocM B) : DocM B := fun d =>
  match m1 d with (d, Ok _) => m2 d | (d, Err e) => (d, Err e) end.
Notation "m1 ;;; m2" := (then_doc m1 m2) (at level 100, right associativity) : rust_scope.

Definition with_doc {A} (m : DocM A) (p : Projection) : Projection := set_doc (m (doc p)).1 p.

(** ** The gate *)

Definition record_completion (g : Z) (c : KernelLaunchCompletion) (s : KernelLaunchGateState) : KernelLaunchGateState :=
  let m := <[g := c]> (completed_outcomes s) in
  set_completed (if 1024 <? g then delete (g - 1024) m else m) s.

Definition clear_flight_if (g : Z) (s : KernelLaunchGateState) : KernelLaunchGateState :=
  if decide (in_flight_generation s = Some g) then set_flight None None None s else s.

Definition flight_cancelled (s : KernelLaunchGateState) : bool :=
  match in_flight_generation s with Some g => bool_decide (g ∈ cancelled_generations s) | None => false end.

(** A new generation with its channel. *)
Definition admit_launch (src : KernelLaunchSource) (abort_handle : option nat) (r : LaunchRoom) : LaunchRoom * KernelLaunchAttempt :=
  let g := saturating_add_u64 (admitted_count (gate r)) 1 in
  let tx := length (channels r) in
  (with_channels (channels r ++ [false])
     (with_gate (fun s => set_flight (Some g) (Some tx) abort_handle (set_admitted g s)) r),
   mkAttempt g OutcomeFailed src tx None None).

Inductive AutoLaunchAdmission := AutoAdmitted (a : KernelLaunchAttempt) | AutoInFlight (generation : Z) | CoolingDown (remaining : Z).
Inductive ManualLaunchAdmission := ManualAdmitted (a : KernelLaunchAttempt) | ManualInFlight (generation : Z) (cancel_rx : nat).

Definition try_begin_auto_launch (now : Z) (r : LaunchRoom) : LaunchRoom * AutoLaunchAdmission :=
  match in_flight_generation (gate r), cooldown_until (gate r) with
  | Some g, _ => (r, AutoInFlight g)
  | None, Some until => if now <? until then (r, CoolingDown (until - now))
                        else let '(r, a) := admit_launch Auto None (with_gate (set_cooldown None) r) in (r, AutoAdmitted a)
  | None, None => let '(r, a) := admit_launch Auto None (with_gate (set_cooldown None) r) in (r, AutoAdmitted a)
  end.

(** A flight without a sender is taken over. *)
Definition try_begin_manual_launch (r : LaunchRoom) : LaunchRoom * ManualLaunchAdmission :=
  match in_flight_generation (gate r), in_flight_cancel_tx (gate r) with
  | Some g, Some tx => (r, ManualInFlight g tx)
  | _, _ => let '(r, a) := admit_launch Manual None r in (r, ManualAdmitted a)
  end.

Definition send_cancel (r : LaunchRoom) : LaunchRoom :=
  match in_flight_cancel_tx (gate r) with Some tx => with_channels (<[tx := true]> (channels r)) r | None => r end.

(** The generation in flight is cancelled. *)
Definition cancel_flight (r : LaunchRoom) : LaunchRoom :=
  match in_flight_generation (gate r) with
  | Some g => send_cancel (with_gate (fun s => set_cancelled ({[g]} ∪ cancelled_generations s) s) r)
  | None => r
  end.

Definition cancel_launch_and_commit_terminal (invalidate_runtime_agent : bool) (commit_presence : string)
    (commit_state : DocM ()) (r : LaunchRoom) : LaunchRoom * option Z :=
  let cancelled := in_flight_generation (gate r) in
  let r := cancel_flight r in
  let r := if invalidate_runtime_agent then with_gate (set_agents None None) r else r in
  (with_projection (fun p => with_doc (commit_state ;;; set_local_environment_identity "" "" None ;;; clear_env_progress ;;;
       abort_inflight_executions ;;; set_queue None []) (set_presence commit_presence (set_active None p))) r, cancelled).

Definition cancel_launch_and_mark_shutdown_with (commit_presence : string) : LaunchRoom -> LaunchRoom * option Z :=
  cancel_launch_and_commit_terminal false commit_presence (set_lifecycle Shutdown).
Definition cancel_launch_and_mark_teardown_with (commit_presence : string) : LaunchRoom -> LaunchRoom * option Z :=
  cancel_launch_and_commit_terminal true commit_presence (set_lifecycle Shutdown).

Definition mark_runtime_agent_connected (agent : string) (r : LaunchRoom) : LaunchRoom * bool :=
  if decide (expected_runtime_agent_id (gate r) = Some agent) then
    (with_gate (fun s => set_agents (expected_runtime_agent_id s) (Some agent) s) r, true)
  else (r, false).

Definition invalidate_runtime_agent_connection : LaunchRoom -> LaunchRoom := with_gate (set_agents None None).

Definition disconnect_runtime_agent_and_commit_terminal (agent : string) (commit_presence : string) (commit_state : DocM ())
    (r : LaunchRoom) : LaunchRoom * bool :=
  if decide (connected_runtime_agent_id (gate r) = Some agent) then
    let r := cancel_flight (with_gate (set_agents None None) r) in
    (with_projection (fun p => with_doc (commit_state ;;; clear_env_progress ;;; set_local_environment_identity "" "" None ;;;
         abort_inflight_executions ;;; set_queue None []) (set_presence commit_presence (set_active None p))) r, true)
  else (r, false).

Definition commit_unless_launch_cancelled (commit : Projection -> Projection) (r : LaunchRoom) : LaunchRoom :=
  if flight_cancelled (gate r) then r else with_projection commit r.

Definition finish_cancelled_launch (g : Z) : LaunchRoom -> LaunchRoom :=
  with_gate (fun s => clear_flight_if g (record_completion g Cancelled (set_cancelled (cancelled_generations s ∖ {[g]}) s))).

Definition launch_completion (g : Z) (r : LaunchRoom) : option KernelLaunchCompletion := completed_outcomes (gate r) !! g.
Definition launch_successor_generation (g : Z) (r : LaunchRoom) : option Z :=
  if g <? admitted_count (gate r) then Some (saturating_add_u64 g 1) else None.

Definition register_launch_abort_handle (g : Z) (task : nat) (r : LaunchRoom) : LaunchRoom * bool :=
  if decide (in_flight_generation (gate r) = Some g) then
    (with_gate (fun s => set_flight (in_flight_generation s) (in_flight_cancel_tx s) (Some task) s) r, true)
  else (r, false).
(** The task to abort. *)
Definition abort_launch_owner (g : Z) (r : LaunchRoom) : option nat :=
  if decide (in_flight_generation (gate r) = Some g) then in_flight_abort_handle (gate r) else None.
Definition current_launch_cancellation_receiver (r : LaunchRoom) : option nat := in_flight_cancel_tx (gate r).

Definition clear_active_kernel_launch : LaunchRoom -> LaunchRoom := with_projection (set_active None).
Definition clear_active_kernel_launch_if_agent (agent : string) : LaunchRoom -> LaunchRoom :=
  with_projection (fun p =>
    if decide (al_runtime_agent_id <$> active_kernel_launch p = Some agent) then set_active None p else p).

(** The generation is over without its owner: an abrupt failure before any outcome shows. *)
Definition launching (l : RuntimeLifecycle) : bool :=
  match l with Resolving | PreparingEnv | Launching | Connecting => true | _ => false end.

Definition abandoned_error : DocM () := fun d =>
  if launching (kd_lifecycle (read_kernel_state d)) then
    (set_lifecycle_with_error_details LcError None (Some "Kernel launch stopped before completion") ;;;
     set_local_environment_identity "" "" None) d
  else (d, Ok ()).

Definition finish_abandoned_launch (now : Z) (g : Z) (src : KernelLaunchSource) (r : LaunchRoom) : LaunchRoom :=
  if decide (in_flight_generation (gate r) = Some g) then
    let cancelled := bool_decide (g ∈ cancelled_generations (gate r)) in
    let r := with_gate (fun s => set_cancelled (cancelled_generations s ∖ {[g]}) s) r in
    let r := if cancelled then r else with_projection (with_doc abandoned_error) r in
    let c := if cancelled then Cancelled else Failed in
    with_gate (fun s =>
      let s := set_flight None None None (record_completion g c s) in
      if decide (c = Failed /\ src = Auto) then set_cooldown (Some (now + AUTO_LAUNCH_FAILURE_COOLDOWN)) s else s) r
  else r.

(** ** An attempt *)

Definition is_cancelled (a : KernelLaunchAttempt) (r : LaunchRoom) : bool := default false (channels r !! cancel_rx a).

(** The gate's check before anything irreversible. *)
Definition owns_flight (a : KernelLaunchAttempt) (s : KernelLaunchGateState) : bool :=
  bool_decide (in_flight_generation s = Some (generation a) /\ generation a ∉ cancelled_generations s).

Definition set_outcome (o : KernelLaunchOutcome) (a : KernelLaunchAttempt) : KernelLaunchAttempt :=
  mkAttempt (generation a) o (source a) (cancel_rx a) (preserved_kernel a) (preserved_env_path a).
Definition set_preserved (k : option KernelDocState) (p : option string) (a : KernelLaunchAttempt) : KernelLaunchAttempt :=
  mkAttempt (generation a) (outcome a) (source a) (cancel_rx a) k p.

(** [locked]: another task holds the request channel at the [try_lock]. *)
Definition preserve_kernel_during_preparation (locked : bool) (r : LaunchRoom) (a : KernelLaunchAttempt) : KernelLaunchAttempt :=
  if negb locked && bool_decide (runtime_agent_request_tx r = None) then a
  else set_preserved (Some (read_kernel_state (doc (projection r)))) (preserved_env_path a) a.

Definition preserve_environment_path (path : option string) (r : LaunchRoom) (a : KernelLaunchAttempt) : LaunchRoom * KernelLaunchAttempt :=
  (set_preparing path r, set_preserved (preserved_kernel a) path a).

(** What a failing [commit] wrote before its error stays. *)
Definition commit_kernel_replacement (commit : Projection -> Projection * bool) (r : LaunchRoom) (a : KernelLaunchAttempt)
    : LaunchRoom * KernelLaunchAttempt * bool :=
  if owns_flight a (gate r) then
    let '(p, ok) := commit (projection r) in
    (with_projection (fun _ => p) r, if ok then set_preserved None None a else a, ok)
  else (r, a, false).

Definition expect_runtime_agent (agent : string) (a : KernelLaunchAttempt) (r : LaunchRoom) : LaunchRoom * bool :=
  if owns_flight a (gate r) then (with_gate (set_agents (Some agent) None) r, true) else (r, false).

(** The provenance of an agent about to be spawned, under its own lock. *)
Definition install_agent (agent : string) (a : KernelLaunchAttempt) (r : LaunchRoom) : LaunchRoom * bool :=
  let '(r, ok) := expect_runtime_agent agent a r in (if ok then set_current_agent (Some agent) r else r, ok).

Definition succeed_with_agent (agent : string) (commit : Projection -> Projection) (a : KernelLaunchAttempt) (r : LaunchRoom)
    : LaunchRoom * result KernelLaunchCommitRejection () :=
  if bool_decide (generation a ∈ cancelled_generations (gate r)) then (r, Err RejectCancelled)
  else if bool_decide (connected_runtime_agent_id (gate r) = Some agent) then
    (with_gate (fun s => clear_flight_if (generation a) (record_completion (generation a) Succeeded s)) (with_projection commit r), Ok ())
  else (r, Err AgentUnavailable).

Definition release_and_readmit_auto_if_peer_waiting (a : KernelLaunchAttempt) (r : LaunchRoom) : LaunchRoom * option KernelLaunchAttempt :=
  let g := generation a in
  let owner_abort_handle := in_flight_abort_handle (gate r) in
  let cancelled := bool_decide (g ∈ cancelled_generations (gate r)) in
  let r := with_gate (fun s =>
    clear_flight_if g (record_completion g (if cancelled then Cancelled else Released)
      (set_cancelled (cancelled_generations s ∖ {[g]}) (set_flight (in_flight_generation s) (in_flight_cancel_tx s) None s)))) r in
  if cancelled || (active_peers r =? 0) then (r, None)
  else let '(r, next) := admit_launch Auto owner_abort_handle r in (r, Some next).

(** *** Cleaning up after an agent *)

(** The sections of [discard_cancelled_runtime_agent], one per lock. *)
Definition forget_current_agent (agent : string) (r : LaunchRoom) : LaunchRoom :=
  if decide (current_runtime_agent_id r = Some agent) then set_current_agent None r else r.
Definition forget_gate_agent (agent : string) : LaunchRoom -> LaunchRoom := with_gate (fun s =>
  let unless o := if decide (o = Some agent) then None else o in
  set_agents (unless (expected_runtime_agent_id s)) (unless (connected_runtime_agent_id s)) s).
Definition discard_sections (agent : string) : list (LaunchRoom -> LaunchRoom) :=
  [forget_current_agent agent; forget_gate_agent agent; clear_active_kernel_launch_if_agent agent;
   set_handle None; set_request_tx None; set_connect_tx false].

(** *** Dropping an attempt *)

Definition KernelErrorReason_parse (s : string) : option string :=
  if decide (s ∈ ["environment_prepare_failed"; "missing_ipykernel"; "dependency_cache_missing_ipykernel";
                  "ipykernel_site_packages_mismatch"; "conda_env_yml_missing"; "conda_env_build_failed"]) then Some s else None.

Definition restore_kernel (prior : KernelDocState) : DocM () :=
  set_lifecycle_with_error_details (kd_lifecycle prior) (kd_error_reason prior ≫= KernelErrorReason_parse) (kd_error_details prior) ;;;
  set_kernel_info (kd_name prior) (kd_language prior) (kd_env_source prior) ;;;
  set_runtime_agent_id (kd_runtime_agent_id prior) ;;; clear_env_progress ;;;
  set_local_environment_identity (kd_environment_id prior) (kd_environment_name prior) (Some (kd_python_version prior)).

(** A task: the owner of an attempt, the stages of its drop, the two tasks a drop may
    spawn. *)
Inductive task :=
| Owner (a : KernelLaunchAttempt)
| Dropping (a : KernelLaunchAttempt)
| RestoreKernel (prior : KernelDocState) (a : KernelLaunchAttempt)
| Decide (a : KernelLaunchAttempt)
| Finish (a : KernelLaunchAttempt)
| Clean (section : nat) (generation : Z) (source : KernelLaunchSource)
| Unprotect (generation : Z)
| RestorePath (path : string) (generation : Z).

(** The start of the drop: the environment path of a preserved kernel. *)
Definition drop_path (locked spawnable : bool) (a : KernelLaunchAttempt) (r : LaunchRoom) : LaunchRoom * list task :=
  match preserved_kernel a with
  | None => (r, [Decide a])
  | Some prior =>
      if is_cancelled a r then (r, [Decide a])
      else match preserved_env_path a with
      | None => (r, [RestoreKernel prior a])
      | Some path =>
          if negb locked then (set_preparing None (set_env_path (Some path) r), [RestoreKernel prior a])
          else (r, RestoreKernel prior a :: if spawnable then [RestorePath path (generation a)] else [])
      end
  end.

Definition drop_kernel (prior : KernelDocState) (a : KernelLaunchAttempt) (r : LaunchRoom) : LaunchRoom * list task :=
  (commit_unless_launch_cancelled (with_doc (restore_kernel prior)) r, [Decide (set_outcome OutcomeReleased a)]).

Definition drop_decide (spawnable : bool) (now : Z) (a : KernelLaunchAttempt) (r : LaunchRoom) : LaunchRoom * list task :=
  if is_cancelled a r || bool_decide (outcome a = OutcomeFailed) then
    if spawnable then (r, [Clean 0 (generation a) (source a)])
    else (finish_abandoned_launch now (generation a) (source a) r, [])
  else (r, [Finish a]).

Definition drop_finish (now : Z) (a : KernelLaunchAttempt) : LaunchRoom -> LaunchRoom :=
  let c := match outcome a with OutcomeFailed => Failed | OutcomeSucceeded => Succeeded | OutcomeReleased => Released end in
  with_gate (fun s =>
    let s := clear_flight_if (generation a) (record_completion (generation a) c s) in
    if decide (c = Failed /\ source a = Auto) then set_cooldown (Some (now + AUTO_LAUNCH_FAILURE_COOLDOWN)) s else s).

(** The sections of [cleanup_abandoned_launch]; the first one ends it when the generation
    is not in flight. *)
Definition cleanup_section (n : nat) (now : Z) (g : Z) (src : KernelLaunchSource) (r : LaunchRoom) : LaunchRoom * list task :=
  match n with
  | 0%nat => if decide (in_flight_generation (gate r) = Some g) then (with_gate (set_agents None None) r, [Clean 1 g src])
             else (r, [Unprotect g])
  | 1%nat => (set_current_agent None r, [Clean 2 g src])
  | 2%nat => (clear_active_kernel_launch r, [Clean 3 g src])
  | 3%nat => (set_handle None r, [Clean 4 g src])
  | 4%nat => (set_request_tx None r, [Clean 5 g src])
  | 5%nat => (set_connect_tx false r, [Clean 6 g src])
  | _ => (finish_abandoned_launch now g src r, [Unprotect g])
  end.

Definition unprotect (g : Z) (r : LaunchRoom) : LaunchRoom :=
  if decide (admitted_count (gate r) = g) then set_preparing None r else r.

Definition restore_path (path : string) (g : Z) (r : LaunchRoom) : LaunchRoom :=
  if decide (admitted_count (gate r) = g /\ g ∉ cancelled_generations (gate r)) then
    let r := set_env_path (Some path) r in
    if decide (preparing_kernel_env_path r = Some path) then set_preparing None r else r
  else r.

(** ** The room in motion *)

(** What the owner of an attempt does to its room between two awaits.  Readmission is part
    of the automatic launch ([auto_launch_kernel]); an explicit request never asks for it. *)
Inductive owner_step :=
| Preserve (locked : bool) | PreservePath (path : option string)
| Replace (commit : Projection -> Projection * bool) | Project (commit : Projection -> Projection)
| Install (agent : string) | SetHandle (agent : string) | SetConnectTx | SetEnvPath (path : option string)
| Discard (agent : string) (section : nat)
| Succeed (agent : string) (commit : Projection -> Projection)
| Release | Readmit | FinishCancelled | DropAttempt.

Definition owner_step_of (o : owner_step) (a : KernelLaunchAttempt) (r : LaunchRoom) : LaunchRoom * list task :=
  match o with
  | Preserve locked => (r, [Owner (preserve_kernel_during_preparation locked r a)])
  | PreservePath p => let '(r, a) := preserve_environment_path p r a in (r, [Owner a])
  | Replace commit => let '(r, a, _) := commit_kernel_replacement commit r a in (r, [Owner a])
  | Project commit => (commit_unless_launch_cancelled commit r, [Owner a])
  | Install agent => ((install_agent agent a r).1, [Owner a])
  | SetHandle agent => (set_handle (Some agent) r, [Owner a])
  | SetConnectTx => (set_connect_tx true r, [Owner a])
  | SetEnvPath p => (set_env_path p r, [Owner a])
  | Discard agent n => (default id (discard_sections agent !! n) r, [Owner a])
  | Succeed agent commit =>
      match succeed_with_agent agent commit a r with (r, Ok _) => (r, []) | (r, Err _) => (r, [Owner a]) end
  | Release => (r, [Dropping (set_outcome OutcomeReleased a)])
  | Readmit =>
      match source a with
      | Auto => let '(r, next) := release_and_readmit_auto_if_peer_waiting a r in (r, Owner <$> option_list next)
      | Manual => (r, [Owner a])
      end
  | FinishCancelled => (finish_cancelled_launch (generation a) r, [])
  | DropAttempt => (r, [Dropping a])
  end.

(** A turn of a task; owners choose, the others follow their code. *)
Definition task_turn (now : Z) (o : owner_step) (locked spawnable : bool) (t : task) (r : LaunchRoom) : LaunchRoom * list task :=
  match t with
  | Owner a => owner_step_of o a r
  | Dropping a => drop_path locked spawnable a r
  | RestoreKernel prior a => drop_kernel prior a r
  | Decide a => drop_decide spawnable now a r
  | Finish a => (drop_finish now a r, [])
  | Clean n g src => cleanup_section n now g src r
  | Unprotect g => (unprotect g r, [])
  | RestorePath path g => (restore_path path g r, [])
  end.

Record Launches := mkLaunches { lroom : LaunchRoom; tasks : list task }.

(** [AgentSync]: the changes of a [RuntimeStateSync] frame from the connection of a runtime
    agent, which are applied to the document without a look at the gate. *)
Inductive action :=
| BeginAuto | BeginManual
| Turn (i : nat) (o : owner_step) (locked spawnable : bool)
| Terminal (invalidate : bool) (presence : string) (commit : DocM ())
| AgentConnected (agent : string)
| AgentGone (agent : string) (presence : string) (commit : DocM ())
| Invalidate | RegisterAbort (g : Z) (task : nat) | Peers (n : Z)
| AgentSync (changes : RuntimeStateDoc -> RuntimeStateDoc).

Definition replace_task (i : nat) (l ts : list task) : list task := take i ts ++ l ++ drop (S i) ts.

Definition lstep (now : Z) (x : action) (d : Launches) : Launches :=
  let r := lroom d in
  match x with
  | BeginAuto =>
      match try_begin_auto_launch now r with
      | (r, AutoAdmitted a) => mkLaunches r (tasks d ++ [Owner a])
      | (r, _) => mkLaunches r (tasks d)
      end
  | BeginManual =>
      match try_begin_manual_launch r with
      | (r, ManualAdmitted a) => mkLaunches r (tasks d ++ [Owner a])
      | (r, _) => mkLaunches r (tasks d)
      end
  | Turn i o locked spawnable =>
      match tasks d !! i with
      | Some t => let '(r, l) := task_turn now o locked spawnable t r in mkLaunches r (replace_task i l (tasks d))
      | None => d
      end
  | Terminal inv p c => mkLaunches (cancel_launch_and_commit_terminal inv p c r).1 (tasks d)
  | AgentConnected agent =>
      match mark_runtime_agent_connected agent r with
      | (r, true) => mkLaunches (set_request_tx (Some agent) r) (tasks d)
      | (r, false) => mkLaunches r (tasks d)
      end
  | AgentGone agent p c =>
      match disconnect_runtime_agent_and_commit_terminal agent p c r with
      | (r, true) => mkLaunches (set_request_tx None r) (tasks d)
      | (r, false) => mkLaunches r (tasks d)
      end
  | Invalidate => mkLaunches (invalidate_runtime_agent_connection r) (tasks d)
  | RegisterAbort g t => mkLaunches (register_launch_abort_handle g t r).1 (tasks d)
  | Peers n => mkLaunches (set_active_peers n r) (tasks d)
  | AgentSync changes => mkLaunches (with_projection (fun p => set_doc (changes (doc p)) p) r) (tasks d)
  end.

Definition new_launch_room (d : RuntimeStateDoc) : LaunchRoom :=
  mkLaunchRoom default_gate [] (mkProjection d None "") None None None false None None 0.

(** A history: steps with their times. *)
Definition lrun_from (d : Launches) (es : list (Z * action)) : Launches := foldl (fun d e => lstep e.1 e.2 d) d es.
Definition lrun (d0 : RuntimeStateDoc) : list (Z * action) -> Launches := lrun_from (mkLaunches (new_launch_room d0) []).

(** ** Who holds the gate *)

(** The generation a task holds, with its receiver. *)
Definition token_of (t : task) : option (Z * option nat) :=
  match t with
  | Owner a | Dropping a | RestoreKernel _ a | Decide a | Finish a => Some (generation a, Some (cancel_rx a))
  | Clean _ g _ => Some (g, None)
  | Unprotect _ | RestorePath _ _ => None
  end.

Definition finished (s : KernelLaunchGateState) : Z :=
  admitted_count s - match in_flight_generation s with Some _ => 1 | None => 0 end.

(** The outcomes still on record. *)
Definition recorded (n : Z) (g : Z) : Prop := Z.max 1 (n - 1023) <= g <= n.

Record gate_inv (r : LaunchRoom) (hs : list (Z * option nat)) : Prop := {
  gi_held : hs.*1 = option_list (in_flight_generation (gate r));
  gi_rx g c : (g, Some c) ∈ hs -> in_flight_cancel_tx (gate r) = Some c;
  gi_tx g : in_flight_generation (gate r) = Some g -> (1 <= g /\ g = admitted_count (gate r)) /\
    exists c, in_flight_cancel_tx (gate r) = Some c /\ channels r !! c = Some (bool_decide (g ∈ cancelled_generations (gate r)));
  gi_cancelled g : g ∈ cancelled_generations (gate r) -> g <= admitted_count (gate r);
  gi_admitted : 0 <= admitted_count (gate r);
  gi_completed g : is_Some (completed_outcomes (gate r) !! g) <-> recorded (finished (gate r)) g;
}.

Definition gview (r : LaunchRoom) :=
  (in_flight_generation (gate r), in_flight_cancel_tx (gate r), admitted_count (gate r),
   completed_outcomes (gate r), cancelled_generations (gate r), channels r).

Lemma gate_inv_ext r r' hs : gview r' = gview r -> gate_inv r hs -> gate_inv r' hs.
Proof.
  unfold gview. intros [= E1 E2 E3 E4 E5 E6] [H1 H2 H3 H4 H5 H6].
  split; unfold finished in *; rewrite ?E1, ?E2, ?E3, ?E4, ?E5, ?E6; auto.
Qed.

(** A holder is alone. *)
Lemma holder_alone r A h B : gate_inv r (A ++ h :: B) ->
  A = [] /\ B = [] /\ in_flight_generation (gate r) = Some h.1.
Proof.
  intros [Hh _ _ _ _ _]. rewrite fmap_app, fmap_cons in Hh. destruct (in_flight_generation (gate r)) as [g|]; cbn in Hh.
  - destruct A as [|x A]; cbn in Hh; [|by destruct A]. destruct B as [|y B]; [|done]. by injection Hh as <-.
  - by destruct A.
Qed.

Lemma gate_inv_done r r' h c :
  gate_inv r [h] -> in_flight_generation (gate r') = None -> admitted_count (gate r') = admitted_count (gate r) ->
  completed_outcomes (gate r') = completed_outcomes (record_completion h.1 c (gate r)) ->
  (forall g, g ∈ cancelled_generations (gate r') -> g ∈ cancelled_generations (gate r)) -> gate_inv r' [].
Proof.
  intros HI Hf Ha Hc Hx. destruct (holder_alone r [] h [] HI) as (_ & _ & Hin). destruct HI as [H1 H2 H3 H4 H5 H6].
  destruct (H3 _ Hin) as [[H1g Hg] _]. split; rewrite ?Hf, ?Ha; auto.
  - intros g c' H. by apply not_elem_of_nil in H.
  - done.
  - intros g. specialize (H6 g). unfold finished in *. rewrite Hf, Ha, Hc. rewrite Hin in H6. unfold recorded in *. cbn.
    rewrite Hg in *. destruct (1024 <? admitted_count (gate r)) eqn:E.
    + apply Z.ltb_lt in E. destruct (decide (g = admitted_count (gate r) - 1024)) as [->|Hne].
      * rewrite lookup_delete_eq, is_Some_alt. split; [done|lia].
      * rewrite lookup_delete_ne by done. destruct (decide (g = admitted_count (gate r))) as [->|Hne'].
        -- rewrite lookup_insert_eq. split; [lia|by eexists].
        -- rewrite lookup_insert_ne, H6 by done. lia.
    + apply Z.ltb_ge in E. destruct (decide (g = admitted_count (gate r))) as [->|Hne'].
      * rewrite lookup_insert_eq. split; [lia|by eexists].
      * rewrite lookup_insert_ne, H6 by done. lia.
Qed.

Lemma gate_inv_admit src h r r' a :
  gate_inv r [] -> admitted_count (gate r) < u64_max -> admit_launch src h r = (r', a) ->
  gate_inv r' [(generation a, Some (cancel_rx a))] /\ admitted_count (gate r') = admitted_count (gate r) + 1 /\ source a = src.
Proof.
  intros [H1 H2 H3 H4 H5 H6] Hmax. unfold admit_launch. rewrite saturating_add_u64_succ by lia. intros [= <- <-]. cbn.
  assert (in_flight_generation (gate r) = None) as Hf by (cbn in H1; by destruct (in_flight_generation (gate r))).
  split; [|done]. split; cbn.
  - done.
  - intros g c Hx. apply list_elem_of_singleton in Hx. by injection Hx as -> ->.
  - intros g [= <-]. split; [lia|]. eexists. split; [done|]. rewrite lookup_app_r, Nat.sub_diag by done. cbn.
    f_equal. symmetry. apply bool_decide_eq_false_2. intros Hc%H4. lia.
  - intros g Hg%H4. lia.
  - lia.
  - intros g. rewrite H6. unfold finished. cbn. rewrite Hf. by replace (admitted_count (gate r) + 1 - 1) with (admitted_count (gate r) - 0) by lia.
Qed.

Lemma gate_inv_cancel r hs : gate_inv r hs -> gate_inv (cancel_flight r) hs.
Proof.
  intros HI. pose proof HI as [H1 H2 H3 H4 H5 H6]. unfold cancel_flight. destruct (in_flight_generation (gate r)) as [g|] eqn:Hf; [|done].
  destruct (H3 g eq_refl) as ([Hg1 Hg] & c & Hc & Hch). unfold send_cancel. cbn. rewrite Hc. split; cbn.
  - by rewrite Hf.
  - intros g' c' Hx. rewrite Hc. rewrite <- Hc. by eapply H2.
  - intros g' Hg'. rewrite Hf in Hg'. injection Hg' as <-. split; [done|]. exists c. split; [done|].
    rewrite list_lookup_insert_eq by (by eapply lookup_lt_Some). f_equal. symmetry. apply bool_decide_eq_true_2. set_solver.
  - intros g' Hx. apply elem_of_union in Hx as [Hx%elem_of_singleton|Hx]; [lia|by apply H4].
  - done.
  - intros g'. rewrite H6. unfold finished. cbn. by rewrite Hf.
Qed.

(** *** Turns *)

Lemma admit_cases src h r : exists r' a, admit_launch src h r = (r', a).
Proof. by eexists _, _. Qed.

Lemma clear_flight_same g s : in_flight_generation s = Some g -> clear_flight_if g s = set_flight None None None s.
Proof. intros H. unfold clear_flight_if. by rewrite decide_True. Qed.

Lemma gate_inv_clear r h c (f : KernelLaunchGateState -> KernelLaunchGateState) (k : Projection -> Projection) :
  gate_inv r [h] ->
  (forall s, in_flight_generation (f s) = in_flight_generation s /\ admitted_count (f s) = admitted_count s /\
             completed_outcomes (f s) = completed_outcomes s /\
             forall g, g ∈ cancelled_generations (f s) -> g ∈ cancelled_generations s) ->
  gate_inv (with_gate (fun s => clear_flight_if h.1 (record_completion h.1 c (f s))) (with_projection k r)) [].
Proof.
  intros HI Hf. destruct (holder_alone r [] h [] HI) as (_ & _ & Hin). destruct (Hf (gate r)) as (F1 & F2 & F3 & F4).
  eapply (gate_inv_done r _ h c HI); cbn; rewrite clear_flight_same by (cbn; congruence); cbn; [done|done|by rewrite F3|exact F4].
Qed.

Lemma gate_inv_abandoned now r h src : gate_inv r [h] -> gate_inv (finish_abandoned_launch now h.1 src r) [].
Proof.
  intros HI. destruct (holder_alone r [] h [] HI) as (_ & _ & Hin). unfold finish_abandoned_launch. rewrite decide_True by done.
  destruct (bool_decide _); cbv zeta; (destruct (decide _); (eapply (gate_inv_done r _ h _ HI); cbn; [done|done|reflexivity|set_solver])).
Qed.

Lemma gate_inv_owner o a r r' l :
  gate_inv r [(generation a, Some (cancel_rx a))] -> admitted_count (gate r) < u64_max ->
  owner_step_of o a r = (r', l) -> gate_inv r' (omap token_of l).
Proof.
  intros HI Hmax.
  assert (forall r1 a1, gview r1 = gview r -> (generation a1, cancel_rx a1) = (generation a, cancel_rx a) ->
    gate_inv r1 (omap token_of [Owner a1])) as Hinert.
  { intros r1 a1 Hv [= E1 E2]. cbn. rewrite E1, E2. by eapply gate_inv_ext. }
  destruct o as [locked|p|commit|commit|agent|agent| |p|agent n|agent commit| | | |]; cbn [owner_step_of].
  - intros [= <- <-]. apply Hinert; [done|]. unfold preserve_kernel_during_preparation. by case_match.
  - intros [= <- <-]. by apply Hinert.
  - unfold commit_kernel_replacement. destruct (owns_flight a (gate r)); [|intros [= <- <-]; by apply Hinert].
    destruct (commit (projection r)) as [p []]; intros [= <- <-]; by apply Hinert.
  - intros [= <- <-]. apply Hinert; [|done]. unfold commit_unless_launch_cancelled. by case_match.
  - intros [= <- <-]. apply Hinert; [|done]. unfold install_agent, expect_runtime_agent. by destruct (owns_flight a (gate r)).
  - intros [= <- <-]. by apply Hinert.
  - intros [= <- <-]. by apply Hinert.
  - intros [= <- <-]. by apply Hinert.
  - intros [= <- <-]. apply Hinert; [|done].
    do 6 (destruct n as [|n]; [cbn; unfold forget_current_agent; repeat case_match; done|]). done.
  - unfold succeed_with_agent. repeat case_match; intros [= <- <-]; simplify_eq; try (by apply Hinert).
    eapply (gate_inv_clear r _ Succeeded (fun s => s) commit HI). by intros s.
  - intros [= <- <-]. done.
  - destruct (source a); [|intros [= <- <-]; by apply Hinert].
    unfold release_and_readmit_auto_if_peer_waiting. set (c := if bool_decide _ then Cancelled else Released).
    set (r1 := with_gate _ r). assert (gate_inv r1 []) as H1.
    { eapply (gate_inv_clear r _ c (fun s => set_cancelled _ (set_flight _ _ None s)) id HI). intros s. cbn. split_and!; [done..|set_solver]. }
    destruct (_ || _); [intros [= <- <-]; exact H1|]. destruct (admit_launch Auto _ r1) as [r2 a2] eqn:Hadm. intros [= <- <-].
    assert (admitted_count (gate r1) = admitted_count (gate r)) as Hr1 by (cbn; unfold clear_flight_if; by case_decide).
    rewrite <- Hr1 in Hmax. by destruct (gate_inv_admit _ _ _ _ _ H1 Hmax Hadm) as (? & _).
  - intros [= <- <-]. eapply (gate_inv_clear r _ Cancelled (fun s => set_cancelled _ s) id HI). intros s. cbn. split_and!; [done..|set_solver].
  - intros [= <- <-]. done.
Qed.

Lemma gate_inv_holder now o locked spawnable t h r r' l :
  token_of t = Some h -> gate_inv r [h] -> admitted_count (gate r) < u64_max ->
  task_turn now o locked spawnable t r = (r', l) -> gate_inv r' (omap token_of l).
Proof.
  intros Ht HI Hmax. destruct t as [a|a|prior a|a|a|n g src|g|path g]; cbn in Ht; try done; injection Ht as <-; cbn [task_turn].
  - by apply gate_inv_owner.
  - unfold drop_path. repeat case_match; intros [= <- <-]; cbn; by try (eapply gate_inv_ext; [|exact HI]).
  - intros [= <- <-]. cbn. eapply gate_inv_ext; [|exact HI]. unfold commit_unless_launch_cancelled. by case_match.
  - unfold drop_decide. repeat case_match; intros [= <- <-]; [|by apply (gate_inv_abandoned now r _ (source a) HI)|exact HI].
    cbn. destruct HI as [H1 H2 H3 H4 H5 H6]. split; auto. intros g c Hx. apply list_elem_of_singleton in Hx. done.
  - intros [= <- <-]. set (c := match outcome a with OutcomeFailed => Failed | OutcomeSucceeded => Succeeded | OutcomeReleased => Released end).
    destruct (gate_inv_clear r _ c (fun s => s) id HI) as [H1 H2 H3 H4 H5 H6]; [by intros s|]. unfold drop_finish. fold c. cbn.
    case_decide; [|by split]. split; auto.
  - destruct n as [|[|[|[|[|[|n]]]]]]; cbn [cleanup_section]; try (intros [= <- <-]; eapply gate_inv_ext; [|exact HI]; done).
    + destruct (holder_alone r [] _ [] HI) as (_ & _ & Hin). rewrite decide_True by done. intros [= <- <-]. eapply gate_inv_ext; [|exact HI]; done.
    + intros [= <- <-]. by apply (gate_inv_abandoned now r (g, None) src).
Qed.

Lemma gate_inv_other now o locked spawnable t hs r r' l :
  token_of t = None -> gate_inv r hs -> task_turn now o locked spawnable t r = (r', l) -> l = [] /\ gate_inv r' hs.
Proof.
  intros Ht HI. destruct t; cbn in Ht; try done; cbn [task_turn]; intros [= <- <-]; (split; [done|]);
    (eapply gate_inv_ext; [|exact HI]); unfold unprotect, restore_path; repeat case_match; done.
Qed.

Definition inv (d : Launches) : Prop := gate_inv (lroom d) (omap token_of (tasks d)).

Lemma inv_lstep now x d : admitted_count (gate (lroom d)) < u64_max -> inv d -> inv (lstep now x d).
Proof.
  intros Hmax HI. unfold inv in *.
  assert (forall src h r a, in_flight_generation (gate (lroom d)) = None -> 
    forall r0, gview r0 = gview (lroom d) -> admit_launch src h r0 = (r, a) -> gate_inv r (omap token_of (tasks d ++ [Owner a]))) as Hadmit.
  { intros src h r a Hf r0 Hv Ha. assert (omap token_of (tasks d) = []) as Hn.
    { destruct HI as [H1 _ _ _ _ _]. rewrite Hf in H1. by destruct (omap token_of (tasks d)). }
    rewrite omap_app, Hn. rewrite Hn in HI. cbn. eapply gate_inv_admit; [by eapply gate_inv_ext| |exact Ha].
    unfold gview in Hv. injection Hv as _ _ -> _ _ _. done. }
  destruct x as [| |i o locked spawnable|inval p c|agent|agent p c| |g t|n|ch]; cbn [lstep].
  - unfold try_begin_auto_launch. destruct (in_flight_generation (gate (lroom d))) eqn:Hf; [done|].
    assert (forall r a, admit_launch Auto None (with_gate (set_cooldown None) (lroom d)) = (r, a) -> gate_inv r (omap token_of (tasks d ++ [Owner a]))) as H.
    { intros r a Ha. eapply Hadmit; [done| |exact Ha]; done. }
    destruct (cooldown_until _) as [u|]; [destruct (now <? u); [done|]|]; destruct (admit_launch _ _ _) as [r a]; by apply H.
  - unfold try_begin_manual_launch. destruct (in_flight_generation (gate (lroom d))) as [g|] eqn:Hf.
    + destruct HI as [H1 H2 H3 H4 H5 H6]. destruct (H3 g Hf) as (_ & c & Hc & _). rewrite Hc. by split.
    + destruct (admit_launch _ _ _) as [r a] eqn:Ha. eapply Hadmit; [done| |exact Ha]; done.
  - destruct (tasks d !! i) as [t|] eqn:Hi; [|done]. destruct (task_turn _ _ _ _ _ _) as [r' l] eqn:Ht. cbn.
    pose proof (take_drop_middle _ _ _ Hi) as Hs. unfold replace_task. rewrite !omap_app. rewrite <- Hs in HI. rewrite omap_app in HI. cbn in HI.
    destruct (token_of t) as [h|] eqn:Htok.
    + destruct (holder_alone _ _ _ _ HI) as (HA & HB & _). rewrite HA, HB in *. cbn. rewrite app_nil_r. by eapply gate_inv_holder.
    + destruct (gate_inv_other _ _ _ _ _ _ _ _ _ Htok HI Ht) as [-> H]. exact H.
  - unfold cancel_launch_and_commit_terminal. cbn. eapply gate_inv_ext; [|apply gate_inv_cancel, HI]. by destruct inval.
  - unfold mark_runtime_agent_connected. case_decide; cbn; (eapply gate_inv_ext; [|exact HI]); done.
  - unfold disconnect_runtime_agent_and_commit_terminal. case_decide; cbn; [|exact HI].
    eapply gate_inv_ext; [|apply gate_inv_cancel; eapply gate_inv_ext; [|exact HI]]; [|by instantiate (1 := with_gate (set_agents None None) (lroom d))]. done.
  - eapply gate_inv_ext; [|exact HI]; done.
  - unfold register_launch_abort_handle. case_decide; (eapply gate_inv_ext; [|exact HI]); done.
  - eapply gate_inv_ext; [|exact HI]; done.
  - eapply gate_inv_ext; [|exact HI]; done.
Qed.

(** *** What a turn changes *)

Definition source_of (t : task) : KernelLaunchSource :=
  match t with
  | Owner a | Dropping a | RestoreKernel _ a | Decide a | Finish a => source a
  | Clean _ _ s => s
  | Unprotect _ | RestorePath _ _ => Manual
  end.

(** Nothing the gate decides by. *)
Definition keeps (r r' : LaunchRoom) : Prop :=
  completed_outcomes (gate r') = completed_outcomes (gate r) /\ in_flight_generation (gate r') = in_flight_generation (gate r) /\
  admitted_count (gate r') = admitted_count (gate r) /\ cooldown_until (gate r') = cooldown_until (gate r).

(** The end of generation [g]; a failed automatic one arms the cooldown. *)
Definition ends (now g : Z) (src : KernelLaunchSource) (r r' : LaunchRoom) : Prop := exists c,
  completed_outcomes (gate r') = completed_outcomes (record_completion g c (gate r)) /\
  (in_flight_generation (gate r') = None /\ admitted_count (gate r') = admitted_count (gate r) \/
   admitted_count (gate r') = admitted_count (gate r) + 1 /\ c <> Failed) /\
  cooldown_until (gate r') =
    (if decide (c = Failed /\ src = Auto) then Some (now + AUTO_LAUNCH_FAILURE_COOLDOWN) else cooldown_until (gate r)).

(** The flight of the hypothesis is cleared. *)
Ltac flight_cleared :=
  cbn; unfold clear_flight_if; cbn; rewrite !(decide_True (P := in_flight_generation _ = Some _)) by done; cbn.

Lemma ends_abandoned now r g src : in_flight_generation (gate r) = Some g -> ends now g src r (finish_abandoned_launch now g src r).
Proof.
  intros Hf. unfold finish_abandoned_launch, ends. rewrite decide_True by done.
  destruct (bool_decide _); cbv zeta; [exists Cancelled|exists Failed]; (destruct (decide _); cbn; (split_and!; [done|by left|done])).
Qed.

Lemma owner_effect now o a r r' l :
  in_flight_generation (gate r) = Some (generation a) -> 0 <= admitted_count (gate r) < u64_max ->
  owner_step_of o a r = (r', l) -> keeps r r' \/ ends now (generation a) (source a) r r'.
Proof.
  intros Hf Hmax. destruct o as [locked|p|commit|commit|agent|agent| |p|agent n|agent commit| | | |]; cbn [owner_step_of].
  - intros [= <- <-]. by left.
  - intros [= <- <-]. by left.
  - unfold commit_kernel_replacement. destruct (owns_flight _ _), (commit (projection r)) as [? []]; intros [= <- <-]; by left.
  - intros [= <- <-]. left. unfold commit_unless_launch_cancelled. by case_match.
  - intros [= <- <-]. left. unfold install_agent, expect_runtime_agent. by destruct (owns_flight a (gate r)).
  - intros [= <- <-]. by left.
  - intros [= <- <-]. by left.
  - intros [= <- <-]. by left.
  - intros [= <- <-]. left. do 6 (destruct n as [|n]; [cbn; unfold forget_current_agent; repeat case_match; done|]). done.
  - unfold succeed_with_agent. destruct (bool_decide _); [intros [= <- <-]; by left|].
    destruct (bool_decide _); intros [= <- <-]; [|by left]. right. exists Succeeded. flight_cleared. split_and!; [done|by left|done].
  - intros [= <- <-]. by left.
  - destruct (source a) eqn:Hsrc; [|intros [= <- <-]; by left].
    unfold release_and_readmit_auto_if_peer_waiting. set (c := if bool_decide _ then Cancelled else Released).
    assert (c <> Failed) as Hc by (unfold c; by case_match).
    destruct (_ || _); [|destruct (admit_launch _ _ _) as [r2 a2] eqn:Ha]; intros [= <- <-]; right; exists c.
    + flight_cleared. split_and!; [done|by left|]. by rewrite decide_False by naive_solver.
    + unfold admit_launch in Ha. injection Ha as <- <-. flight_cleared. rewrite saturating_add_u64_succ by lia.
      split_and!; [done|by right|]. by rewrite decide_False by naive_solver.
  - intros [= <- <-]. right. exists Cancelled. flight_cleared. split_and!; [done|by left|done].
  - intros [= <- <-]. by left.
Qed.

Lemma turn_effect now o locked spawnable t h r r' l :
  token_of t = Some h -> gate_inv r [h] -> admitted_count (gate r) < u64_max ->
  task_turn now o locked spawnable t r = (r', l) -> keeps r r' \/ ends now h.1 (source_of t) r r'.
Proof.
  intros Ht HI Hmax. destruct (holder_alone r [] h [] HI) as (_ & _ & Hf). pose proof (gi_admitted _ _ HI) as H0.
  destruct t as [a|a|prior a|a|a|n g src|g|path g]; cbn in Ht; try done; injection Ht as <-; cbn [task_turn source_of fst] in *.
  - by apply owner_effect.
  - unfold drop_path. repeat case_match; intros [= <- <-]; by left.
  - intros [= <- <-]. left. unfold commit_unless_launch_cancelled. by case_match.
  - unfold drop_decide. repeat case_match; intros [= <- <-]; [by left|by right; apply ends_abandoned|by left].
  - intros [= <- <-]. right. unfold drop_finish, ends. set (c := match outcome a with OutcomeFailed => Failed | OutcomeSucceeded => Succeeded | OutcomeReleased => Released end).
    exists c. flight_cleared. destruct (decide _); cbn; (split_and!; [done|by left|done]).
  - destruct n as [|[|[|[|[|[|n]]]]]]; cbn [cleanup_section]; try (intros [= <- <-]; by left).
    + rewrite decide_True by done. intros [= <- <-]. by left.
    + intros [= <- <-]. right. by apply ends_abandoned.
Qed.

Lemma other_effect now o locked spawnable t r r' l :
  token_of t = None -> task_turn now o locked spawnable t r = (r', l) -> keeps r r'.
Proof.
  intros Ht. destruct t; cbn in Ht; try done; cbn [task_turn]; intros [= <- <-]; unfold unprotect, restore_path; repeat case_match; done.
Qed.

(** A step keeps, ends the generation in flight or admits the next one. *)
Definition admits (now : Z) (r r' : LaunchRoom) : Prop :=
  completed_outcomes (gate r') = completed_outcomes (gate r) /\ in_flight_generation (gate r) = None /\
  admitted_count (gate r') = admitted_count (gate r) + 1 /\
  (cooldown_until (gate r') = cooldown_until (gate r) \/
   cooldown_until (gate r') = None /\ forall u, cooldown_until (gate r) = Some u -> u <= now).

Lemma lstep_effect now x d :
  inv d -> admitted_count (gate (lroom d)) < u64_max ->
  keeps (lroom d) (lroom (lstep now x d)) \/ admits now (lroom d) (lroom (lstep now x d)) \/
  (exists i o locked spawnable t h, x = Turn i o locked spawnable /\ tasks d !! i = Some t /\ token_of t = Some h /\
     gate_inv (lroom d) [h] /\ ends now h.1 (source_of t) (lroom d) (lroom (lstep now x d))).
Proof.
  intros HI Hmax. pose proof (gi_admitted _ _ HI) as H0.
  destruct x as [| |i o locked spawnable|inval p c|agent|agent p c| |g t|n|ch]; cbn [lstep].
  - unfold try_begin_auto_launch. destruct (in_flight_generation (gate (lroom d))) eqn:Hf; [by left|].
    destruct (cooldown_until (gate (lroom d))) as [u|] eqn:Hu; [destruct (now <? u) eqn:Hn; [by left|]|]; right; left; unfold admit_launch, admits; cbn;
      rewrite saturating_add_u64_succ by lia; (split_and!; [done..|]); right; (split; [done|]).
    + intros u' Hu'. simplify_eq. by apply Z.ltb_ge.
    + intros u' Hu'. congruence.
  - unfold try_begin_manual_launch. destruct (in_flight_generation (gate (lroom d))) as [g|] eqn:Hf.
    + destruct (gi_tx _ _ HI g Hf) as (_ & c & Hc & _). rewrite Hc. by left.
    + right. left. unfold admit_launch, admits. cbn. rewrite saturating_add_u64_succ by lia. split_and!; [done..|by left].
  - destruct (tasks d !! i) as [t|] eqn:Hi; [|by left]. destruct (task_turn _ _ _ _ _ _) as [r' l] eqn:Ht. cbn.
    pose proof (take_drop_middle _ _ _ Hi) as Hs. unfold inv in HI. rewrite <- Hs in HI. rewrite omap_app in HI. cbn in HI.
    destruct (token_of t) as [h|] eqn:Htok; [|left; by eapply other_effect].
    destruct (holder_alone _ _ _ _ HI) as (HA & HB & _). rewrite HA, HB in HI. cbn in HI.
    destruct (turn_effect _ _ _ _ _ _ _ _ _ Htok HI Hmax Ht) as [?|?]; [by left|]. right. right. eauto 12.
  - left. unfold cancel_launch_and_commit_terminal, cancel_flight, send_cancel. destruct inval; repeat case_match; done.
  - left. unfold mark_runtime_agent_connected. by case_decide.
  - left. unfold disconnect_runtime_agent_and_commit_terminal, cancel_flight, send_cancel. case_decide; [|done]. repeat case_match; simplify_eq/=; done.
  - by left.
  - left. unfold register_launch_abort_handle. by case_decide.
  - by left.
  - by left.
Qed.

(** *** Histories *)

Lemma lrun_from_app d es1 es2 : lrun_from d (es1 ++ es2) = lrun_from (lrun_from d es1) es2.
Proof. apply foldl_app. Qed.

(** The room at the end of a short enough history. *)
Definition sound (n : Z) (d : Launches) : Prop := inv d /\ admitted_count (gate (lroom d)) <= n.

Lemma sound_lstep n now x d : n < u64_max -> sound n d -> sound (n + 1) (lstep now x d).
Proof.
  intros Hn [HI Ha]. split; [apply inv_lstep; [lia|done]|].
  destruct (lstep_effect now x d HI) as [(_ & _ & -> & _)|[(_ & _ & -> & _)|(i & o & lk & sp & t & h & _ & _ & _ & _ & c & _ & [[_ ->]|[-> _]] & _)]]; lia.
Qed.

Lemma sound_from es : forall n d, n + zlen es <= u64_max -> sound n d -> sound (n + zlen es) (lrun_from d es).
Proof.
  induction es as [|[now x] es IH]; intros n d Hn Hd; cbn [lrun_from foldl fst snd].
  - replace (n + zlen []) with n by (unfold zlen; cbn; lia). done.
  - replace (n + zlen ((now, x) :: es)) with ((n + 1) + zlen es) in * by (unfold zlen; cbn; lia).
    pose proof (zlen_nonneg es). apply IH; [lia|]. apply sound_lstep; [lia|done].
Qed.

Lemma sound_start d0 : sound 0 (mkLaunches (new_launch_room d0) []).
Proof.
  split; [|cbn; lia]. split; cbn; [done|set_solver|done|set_solver|lia|].
  intros g. rewrite lookup_empty. unfold recorded, finished. cbn. split; [by intros [? ?]|lia].
Qed.

Lemma sound_run d0 es : zlen es <= u64_max -> sound (zlen es) (lrun d0 es).
Proof. intros Hl. apply (sound_from es 0); [done|apply sound_start]. Qed.

Lemma finished_lstep now x d :
  inv d -> admitted_count (gate (lroom d)) < u64_max -> finished (gate (lroom d)) <= finished (gate (lroom (lstep now x d))).
Proof.
  intros HI Hmax. unfold finished.
  destruct (lstep_effect now x d HI Hmax) as [(_ & -> & -> & _)|[(_ & -> & -> & _)|(i & o & lk & sp & t & h & _ & _ & _ & _ & c & _ & [[-> ->]|[-> _]] & _)]];
    repeat case_match; lia.
Qed.

(** ** Outcomes *)

Lemma recorded_grows n n' g : n <= n' -> g <= n -> ~ recorded n g -> ~ recorded n' g.
Proof. unfold recorded. lia. Qed.

(** One step changes no outcome but the one it records. *)
Lemma outcome_lstep now x d g :
  inv d -> admitted_count (gate (lroom d)) < u64_max -> g <= finished (gate (lroom d)) ->
  launch_completion g (lroom (lstep now x d)) = launch_completion g (lroom d) \/ launch_completion g (lroom (lstep now x d)) = None.
Proof.
  intros HI Hmax Hg. unfold launch_completion.
  destruct (lstep_effect now x d HI Hmax) as [(-> & _)|[(-> & _)|(i & o & lk & sp & t & h & _ & _ & _ & Hh & c & -> & _)]]; [by left..|].
  destruct (holder_alone _ [] _ [] Hh) as (_ & _ & Hf). destruct (gi_tx _ _ Hh _ Hf) as ([_ E] & _).
  unfold finished in Hg. rewrite Hf in Hg. cbn. assert (g <> h.1) as Hne by lia.
  case_match; [|left; by rewrite lookup_insert_ne].
  destruct (decide (g = h.1 - 1024)) as [->|]; [right; by rewrite lookup_delete_eq|left; by rewrite lookup_delete_ne, lookup_insert_ne].
Qed.

Lemma unrecorded_outcome d g : inv d -> launch_completion g (lroom d) = None <-> ~ recorded (finished (gate (lroom d))) g.
Proof. intros HI. rewrite <- (gi_completed _ _ HI g), <- eq_None_not_Some. done. Qed.

(** The outcome of a generation is on record exactly from its end until 1024 later ones
    ended, and it never changes. *)
Theorem launch_outcomes_exact d0 es1 es2 g :
  zlen (es1 ++ es2) <= u64_max ->
  let d1 := lrun d0 es1 in let d2 := lrun d0 (es1 ++ es2) in
  (is_Some (launch_completion g (lroom d1)) <->
     1 <= g <= admitted_count (gate (lroom d1)) /\ in_flight_generation (gate (lroom d1)) <> Some g /\
     finished (gate (lroom d1)) < g + 1024) /\
  (forall c c', launch_completion g (lroom d1) = Some c -> launch_completion g (lroom d2) = Some c' -> c' = c).
Proof.
  intros Hl. rewrite zlen_app in Hl. pose proof (zlen_nonneg es1). pose proof (zlen_nonneg es2). cbv zeta.
  destruct (sound_run d0 es1) as [HI Ha]; [lia|]. split.
  - unfold launch_completion. rewrite (gi_completed _ _ HI). unfold recorded, finished in *.
    destruct (in_flight_generation (gate (lroom (lrun d0 es1)))) as [n|] eqn:Hf; [|split; [intros ?; split_and!; [lia|lia|done|lia]|lia]].
    destruct (gi_tx _ _ HI n Hf) as ([_ E] & _). split; [intros ?; split_and!; [lia|lia|intros [= ->]; lia|lia]|].
    intros ([? ?] & Hne & ?). assert (n <> g) by (by intros ->). lia.
  - intros c. unfold lrun. rewrite lrun_from_app. fold (lrun d0 es1). intros c' H1.
    assert (g <= finished (gate (lroom (lrun d0 es1)))) as Hg.
    { assert (recorded (finished (gate (lroom (lrun d0 es1)))) g) as Hr by (apply (gi_completed _ _ HI); by exists c). unfold recorded in Hr. lia. }
    assert (launch_completion g (lroom (lrun d0 es1)) = Some c \/ launch_completion g (lroom (lrun d0 es1)) = None) as Hc by (by left).
    clear H1. revert HI Ha Hg Hc. generalize (lrun d0 es1) as d. intros d HI Ha Hg Hc. assert (sound (zlen es1) d) as Hsd by done.
    clear HI Ha. revert Hl Hsd Hg Hc. generalize (zlen es1) as n. revert d.
    induction es2 as [|[now x] es IH]; intros d n Hl Hsd Hg Hc; cbn [lrun_from foldl fst snd].
    + destruct Hc as [-> | ->]; congruence.
    + assert (zlen ((now, x) :: es) = zlen es + 1) as Hz by (unfold zlen; cbn; lia). pose proof (zlen_nonneg es). rewrite Hz in *.
      destruct Hsd as [HI Ha]. apply (IH ltac:(lia) (lstep now x d) (n + 1)); [lia| | |].
      * apply sound_lstep; [lia|done].
      * etrans; [exact Hg|]. apply finished_lstep; [done|lia].
      * destruct (outcome_lstep now x d g HI ltac:(lia) Hg) as [-> | ->]; [exact Hc|by right].
Qed.

(** C30. Under every interleaving one task at most holds the gate: the owner of the generation
    in flight, a stage of its drop or its cleanup.  That generation is the newest, has no
    outcome, its channel says whether it is cancelled, and nobody is admitted beside it. *)
Theorem launches_single_flight d0 es :
  zlen es <= u64_max -> let d := lrun d0 es in
  (omap token_of (tasks d)).*1 = option_list (in_flight_generation (gate (lroom d))) /\
  (forall g, in_flight_generation (gate (lroom d)) = Some g ->
     g = admitted_count (gate (lroom d)) /\ launch_completion g (lroom d) = None /\
     exists c, current_launch_cancellation_receiver (lroom d) = Some c /\
       channels (lroom d) !! c = Some (bool_decide (g ∈ cancelled_generations (gate (lroom d))))) /\
  (forall i a, tasks d !! i = Some (Owner a) ->
     is_cancelled a (lroom d) = bool_decide (generation a ∈ cancelled_generations (gate (lroom d)))) /\
  (forall now, in_flight_generation (gate (lroom d)) <> None ->
     tasks (lstep now BeginAuto d) = tasks d /\ tasks (lstep now BeginManual d) = tasks d).
Proof.
  intros Hl d. destruct (sound_run d0 es Hl) as [HI _]. fold d in HI. pose proof HI as [H1 H2 H3 H4 H5 H6]. split_and!.
  - done.
  - intros g Hg. destruct (H3 g Hg) as ([_ E] & Hc). split_and!; [done| |done].
    apply unrecorded_outcome; [done|]. unfold recorded, finished. rewrite Hg. lia.
  - intros i a Hi. assert (omap token_of (tasks d) = [(generation a, Some (cancel_rx a))]) as Ho.
    { pose proof (take_drop_middle _ _ _ Hi) as Hs. unfold inv in HI. rewrite <- Hs in HI |- *. rewrite omap_app in HI |- *. cbn in *.
      destruct (holder_alone _ _ _ _ HI) as (-> & -> & _). done. }
    rewrite Ho in H1, H2. destruct (in_flight_generation (gate (lroom d))) as [g|] eqn:Hf; [|done]. injection H1 as ->.
    destruct (H3 _ eq_refl) as (_ & c & Hc & Hch). unfold is_cancelled.
    assert (Some (cancel_rx a) = Some c) as Hx by (rewrite <- Hc; symmetry; eapply H2, list_elem_of_singleton; done).
    injection Hx as ->. by rewrite Hch.
  - intros now Hf. cbn. unfold try_begin_auto_launch, try_begin_manual_launch.
    destruct (in_flight_generation (gate (lroom d))) as [g|]; [|done]. destruct (H3 g eq_refl) as (_ & c & -> & _). done.
Qed.

(** ** The cooldown *)

Definition cooled (t clock : Z) (s : KernelLaunchGateState) : Prop :=
  match cooldown_until s with Some u => t <= u | None => t <= clock end.

Lemma cooled_lstep t now0 now x d :
  inv d -> admitted_count (gate (lroom d)) < u64_max -> now0 <= now -> t <= now + AUTO_LAUNCH_FAILURE_COOLDOWN ->
  cooled t now0 (gate (lroom d)) -> cooled t now (gate (lroom (lstep now x d))).
Proof.
  intros HI Hmax Hn Ht. unfold cooled.
  destruct (lstep_effect now x d HI Hmax) as [(_ & _ & _ & ->)|[(_ & _ & _ & [->|[-> Hu]])|(i & o & lk & sp & k & h & _ & _ & _ & _ & c & _ & _ & ->)]].
  - destruct (cooldown_until (gate (lroom d))); lia.
  - destruct (cooldown_until (gate (lroom d))); lia.
  - destruct (cooldown_until (gate (lroom d))) as [u|]; [specialize (Hu u eq_refl)|]; lia.
  - case_decide; [lia|]. destruct (cooldown_until (gate (lroom d))); lia.
Qed.

Lemma cooled_run t es : forall n d now0 now, n + zlen es <= u64_max -> sound n d -> Forall (fun e => now0 <= e.1 <= now) es ->
  now0 <= now -> StronglySorted Z.le es.*1 -> t <= now0 + AUTO_LAUNCH_FAILURE_COOLDOWN ->
  cooled t now0 (gate (lroom d)) -> cooled t now (gate (lroom (lrun_from d es))).
Proof.
  induction es as [|[t1 x] es IH]; intros n d now0 now Hl Hsd Hf Hn Hs Ht Hc; cbn [lrun_from foldl fst snd].
  - unfold cooled in *. destruct (cooldown_until (gate (lroom d))); lia.
  - apply Forall_cons in Hf as [[Ht1 Ht2] Hf]. cbn in Ht1, Ht2, Hs. apply StronglySorted_cons in Hs as [Hall Hs].
    assert (zlen ((t1, x) :: es) = zlen es + 1) as Hz by (unfold zlen; cbn; lia). pose proof (zlen_nonneg es). rewrite Hz in Hl.
    destruct Hsd as [HI Ha]. apply (IH (n + 1) _ t1 now); [lia|apply sound_lstep; [lia|done]| |lia|done|lia|].
    + rewrite Forall_forall in *. intros e He. destruct (Hf e He). split; [|done]. rewrite Forall_fmap, Forall_forall in Hall. by apply (Hall e).
    + apply (cooled_lstep t now0); [done|lia|done|lia|done].
Qed.

(** The tasks of an automatic launch. *)
Definition automatic (t : task) : Prop := is_Some (token_of t) /\ source_of t = Auto.

Ltac each_task := repeat (apply Forall_cons; split); try apply Forall_nil; first [done|by left|by right].

Lemma turn_not_automatic now o locked spawnable t r r' l :
  task_turn now o locked spawnable t r = (r', l) -> ~ automatic t -> Forall (fun t' => ~ automatic t') l.
Proof.
  intros Ht Hn. assert (forall ts, is_Some (token_of t) ->
    Forall (fun t' => source_of t' = source_of t \/ token_of t' = None) ts -> Forall (fun t' => ~ automatic t') ts) as Hgo.
  { intros ts Hs H. eapply Forall_impl; [exact H|]. intros t' [E|E] [Htok Hsrc].
    - apply Hn. split; [done|congruence].
    - rewrite E in Htok. by destruct Htok. }
  destruct t as [a|a|prior a|a|a|n g src|g|path g]; cbn [task_turn] in Ht;
    try (injection Ht as <- <-; constructor; fail); apply Hgo; try (by eexists).
  - destruct o as [lk|q|commit|commit|agent|agent| |q|agent n|agent commit| | | |]; cbn [owner_step_of] in Ht.
    12: { destruct (source a) eqn:Es; [exfalso; apply Hn; split; [by eexists|done]|]. injection Ht as <- <-. each_task. }
    all: unfold commit_kernel_replacement, succeed_with_agent, preserve_environment_path in Ht; repeat case_match; simplify_eq.
    all: unfold preserve_kernel_during_preparation; repeat case_match; each_task.
  - unfold drop_path in Ht. repeat case_match; simplify_eq; each_task.
  - injection Ht as <- <-. each_task.
  - unfold drop_decide in Ht. repeat case_match; simplify_eq; each_task.
  - destruct n as [|[|[|[|[|[|n]]]]]]; cbn [cleanup_section] in Ht; repeat case_match; simplify_eq; each_task.
Qed.
(** A failed automatic launch leaves the gate open and the cooldown armed. *)
Lemma failure_cools t1 d1 i o locked spawnable t h :
  inv d1 -> admitted_count (gate (lroom d1)) < u64_max ->
  tasks d1 !! i = Some t -> token_of t = Some h -> source_of t = Auto ->
  let d2 := lstep t1 (Turn i o locked spawnable) d1 in
  launch_completion h.1 (lroom d2) = Some Failed ->
  cooldown_until (gate (lroom d2)) = Some (t1 + AUTO_LAUNCH_FAILURE_COOLDOWN) /\ in_flight_generation (gate (lroom d2)) = None.
Proof.
  intros HI Hmax Hi Htok Hsrc d2 Hfail.
  assert (in_flight_generation (gate (lroom d1)) = Some h.1) as Hin.
  { pose proof (take_drop_middle _ _ _ Hi) as Hsp. unfold inv in HI. rewrite <- Hsp in HI. rewrite omap_app in HI. cbn in *.
    rewrite Htok in *. by destruct (holder_alone _ _ _ _ HI) as (_ & _ & ?). }
  assert (launch_completion h.1 (lroom d1) = None) as Hnone.
  { apply unrecorded_outcome; [done|]. unfold recorded, finished. rewrite Hin. destruct (gi_tx _ _ HI _ Hin) as ([_ E] & _). lia. }
  destruct (lstep_effect t1 (Turn i o locked spawnable) d1 HI Hmax) as [(Hk & _)|[(Hk & _)|(i' & o' & lk & sp & t' & h' & [= <- <- <- <-] & Ht' & Htok' & _ & c & Hc & Hopen & Hcd)]].
  - unfold launch_completion in Hfail, Hnone. fold d2 in Hk. congruence.
  - unfold launch_completion in Hfail, Hnone. fold d2 in Hk. congruence.
  - fold d2 in Hc, Hcd, Hopen. rewrite Hi in Ht'. injection Ht' as <-. rewrite Htok in Htok'. injection Htok' as <-.
    unfold launch_completion in Hfail. rewrite Hc in Hfail. cbn in Hfail.
    assert (c = Failed) as ->.
    { destruct (1024 <? h.1); [rewrite lookup_delete_ne in Hfail by lia|]; rewrite lookup_insert_eq in Hfail; by injection Hfail. }
    split; [by rewrite Hcd, decide_True|]. by destruct Hopen as [[? _]|[_ ?]].
Qed.

Lemma automatic_lstep t now0 now x d :
  cooled t now0 (gate (lroom d)) -> now0 <= now < t ->
  Forall (fun k => ~ automatic k) (tasks d) -> Forall (fun k => ~ automatic k) (tasks (lstep now x d)).
Proof.
  intros Hc Hn Ha. destruct x as [| |i o locked spawnable|inval p c|agent|agent p c| |g k|n|ch]; cbn [lstep].
  - unfold try_begin_auto_launch, cooled in *. destruct (in_flight_generation _); [done|].
    destruct (cooldown_until _) as [u|]; [|lia]. by rewrite (proj2 (Z.ltb_lt now u)) by lia.
  - unfold try_begin_manual_launch, admit_launch. repeat case_match; simplify_eq; cbn; try done;
      (apply Forall_app; split; [done|]; apply Forall_singleton; by intros [_ ?]).
  - destruct (tasks d !! i) as [k|] eqn:Hi; [|done]. destruct (task_turn _ _ _ _ _ _) as [r' l] eqn:Ht. cbn. unfold replace_task.
    apply Forall_app. split; [by apply Forall_take|]. apply Forall_app. split; [|by apply Forall_drop].
    apply (turn_not_automatic _ _ _ _ _ _ _ _ Ht). exact (Forall_lookup_1 _ _ _ _ Ha Hi).
  - done.
  - by destruct (mark_runtime_agent_connected _ _) as [? []].
  - by destruct (disconnect_runtime_agent_and_commit_terminal _ _ _ _) as [? []].
  - done.
  - done.
  - done.
  - done.
Qed.

Lemma automatic_run t es : forall n d now0 now, n + zlen es <= u64_max -> sound n d -> Forall (fun e => now0 <= e.1 <= now) es ->
  StronglySorted Z.le es.*1 -> t <= now0 + AUTO_LAUNCH_FAILURE_COOLDOWN -> now < t -> cooled t now0 (gate (lroom d)) ->
  Forall (fun k => ~ automatic k) (tasks d) -> Forall (fun k => ~ automatic k) (tasks (lrun_from d es)).
Proof.
  induction es as [|[t1 x] es IH]; intros n d now0 now Hl Hsd Hf Hs Ht Hn Hc Ha; cbn [lrun_from foldl fst snd]; [done|].
  apply Forall_cons in Hf as [[Ht1 Ht2] Hf]. cbn in Ht1, Ht2, Hs. apply StronglySorted_cons in Hs as [Hall Hs].
  assert (zlen ((t1, x) :: es) = zlen es + 1) as Hz by (unfold zlen; cbn; lia). pose proof (zlen_nonneg es). rewrite Hz in Hl.
  pose proof Hsd as [HI Had]. apply (IH (n + 1) _ t1 now); [lia|apply sound_lstep; [lia|done]| |done|lia|done| |].
  - rewrite Forall_forall in *. intros e He. destruct (Hf e He). split; [|done]. rewrite Forall_fmap, Forall_forall in Hall. by apply (Hall e).
  - apply (cooled_lstep t now0); [done|lia|done|lia|done].
  - apply (automatic_lstep t now0); [done|lia|done].
Qed.

(** C32. After an automatic launch failed there is no automatic launch for five seconds,
    whatever explicit launches, shutdowns, reconnects and agents do in between: no task of
    one is under way at any moment before that, so none was admitted by a connecting peer
    or readmitted for a waiting one, and a peer that asks is refused. *)
Theorem auto_launch_throttled d0 es1 t1 i o locked spawnable t h es2 now :
  zlen es1 + zlen es2 + 1 <= u64_max ->
  let d1 := lrun d0 es1 in let d2 := lstep t1 (Turn i o locked spawnable) d1 in let d3 := lrun_from d2 es2 in
  tasks d1 !! i = Some t -> token_of t = Some h -> source_of t = Auto -> launch_completion h.1 (lroom d2) = Some Failed ->
  StronglySorted Z.le es2.*1 -> Forall (fun e => t1 <= e.1 <= now) es2 -> t1 <= now ->
  (forall k, k ∈ tasks d3 -> is_Some (token_of k) -> source_of k = Auto -> t1 + AUTO_LAUNCH_FAILURE_COOLDOWN <= now) /\
  (forall r a, try_begin_auto_launch now (lroom d3) = (r, AutoAdmitted a) -> t1 + AUTO_LAUNCH_FAILURE_COOLDOWN <= now).
Proof.
  intros Hl d1 d2 d3 Hi Htok Hsrc Hfail Hs Hf Hn. pose proof (zlen_nonneg es1). pose proof (zlen_nonneg es2).
  destruct (sound_run d0 es1) as [HI Ha]; [lia|]. fold d1 in HI, Ha.
  destruct (failure_cools t1 d1 i o locked spawnable t h HI ltac:(lia) Hi Htok Hsrc Hfail) as [Hcool Hnone]. fold d2 in Hcool, Hnone.
  assert (sound (zlen es1 + 1) d2) as Hs2 by (by apply sound_lstep; [lia|split]).
  assert (cooled (t1 + AUTO_LAUNCH_FAILURE_COOLDOWN) t1 (gate (lroom d2))) as Hc2 by (unfold cooled; by rewrite Hcool).
  split.
  - intros k Hk Hkt Hka. destruct (decide (t1 + AUTO_LAUNCH_FAILURE_COOLDOWN <= now)) as [|Hlt]; [done|]. exfalso.
    assert (Forall (fun k => ~ automatic k) (tasks d3)) as Hno.
    { apply (automatic_run (t1 + AUTO_LAUNCH_FAILURE_COOLDOWN) es2 (zlen es1 + 1) d2 t1 now); [lia|done..|lia|lia|done|].
      apply Forall_forall. intros k' Hk' [[h' Hh'] _]. destruct Hs2 as [HI2 _].
      assert (omap token_of (tasks d2) = []) as Ho.
      { pose proof (gi_held _ _ HI2) as Hg. rewrite Hnone in Hg. by destruct (omap token_of (tasks d2)). }
      assert (h' ∈ omap token_of (tasks d2)) as Hin by (apply list_elem_of_omap; eauto). rewrite Ho in Hin. by apply not_elem_of_nil in Hin. }
    rewrite Forall_forall in Hno. by apply (Hno k Hk).
  - intros r a Hadm.
    assert (cooled (t1 + AUTO_LAUNCH_FAILURE_COOLDOWN) now (gate (lroom d3))) as Hend.
    { apply (cooled_run _ es2 (zlen es1 + 1) d2 t1 now); [lia|done|done|done|done|lia|done]. }
    unfold try_begin_auto_launch in Hadm. destruct (in_flight_generation (gate (lroom d3))); [done|]. unfold cooled in Hend.
    destruct (cooldown_until (gate (lroom d3))) as [u|]; [|done]. destruct (now <? u) eqn:Hu; [done|]. apply Z.ltb_ge in Hu. lia.
Qed.

(** ** The end of a kernel is final *)

Section Terminal.
Context (inval : bool) (p : Projection) (Hactive : active_kernel_launch p = None).











End Terminal.










(** *** What the end leaves in the document *)

Lemma put_if_changed_other key v k j : j <> key -> put_if_changed key v k !! j = k !! j.
Proof. intros Hj. unfold put_if_changed. case_decide; [done|]. by rewrite lookup_insert_ne. Qed.

Lemma local_identity_lifecycle id name python d k :
  get_map "kernel" d = Some k ->
  exists d' k', set_local_environment_identity id name python d = (d', Ok ()) /\ get_map "kernel" d' = Some k' /\
    kd_lifecycle (read_kernel_state d') = kd_lifecycle (read_kernel_state d) /\
    (forall j, j <> "kernel" -> root d' !! j = root d !! j).
Proof.
  intros Hk. unfold set_local_environment_identity. rewrite (get_map_scaffold _ _ _ Hk). eexists _, _. split; [done|].
  rewrite set_kernel_get. split; [done|]. split.
  - unfold read_kernel_state. rewrite set_kernel_get, Hk. cbn [kd_lifecycle].
    unfold resolve_kernel_lifecycle, read_str, read_opt_str. cbn [obj_get]. by rewrite !put_if_changed_other.
  - intros j Hj. cbn. by rewrite lookup_insert_ne.
Qed.

Lemma env_progress_cleared d env :
  get_map "env" d = Some env ->
  exists d', clear_env_progress d = (d', Ok ()) /\ forall j, j <> "env" -> root d' !! j = root d !! j.
Proof.
  intros He. unfold clear_env_progress. rewrite (get_map_scaffold _ _ _ He). case_decide; eexists; (split; [done|]); [done|].
  intros j Hj. cbn. by rewrite lookup_insert_ne.
Qed.

Lemma get_map_same k d d' : root d' !! k = root d !! k -> get_map k d' = get_map k d.
Proof. unfold get_map. by intros ->. Qed.

Lemma doc_ok_same d d' :
  root d' !! "executions" = root d !! "executions" -> root d' !! "queue" = root d !! "queue" -> doc_ok d -> doc_ok d'.
Proof.
  intros He Hq [(exs & H1 & H2) (q & l & H3 & H4)]. split; [exists exs|exists q, l].
  - by rewrite (get_map_same "executions" d d' He).
  - by rewrite (get_map_same "queue" d d' Hq).
Qed.

(** What a shutdown leaves in a document with its schema: the lifecycle, an empty queue,
    no queued execution, and every execution as it was, in error if it ran, cancelled if it
    waited. *)
Theorem shutdown_settles_document inval presence r k env :
  let d := doc (projection r) in
  doc_ok d -> get_map "kernel" d = Some k -> get_map "env" d = Some env ->
  let d' := doc (projection (cancel_launch_and_commit_terminal inval presence (set_lifecycle Shutdown) r).1) in
  kd_lifecycle (read_kernel_state d') = Shutdown /\ read_explicit_queue d' = mkQueueState None [] /\ get_queued_executions d' = [] /\
  (forall eid, doc_status d' eid =
     (fun s => if decide (s = "running") then "error" else if decide (s = "queued") then "cancelled" else s : string) <$> doc_status d eid).
Proof.
  intros d Hok Hk He d'.
  assert (d' = ((set_lifecycle Shutdown ;;; set_local_environment_identity "" "" None ;;; clear_env_progress ;;;
      abort_inflight_executions ;;; set_queue None []) d).1) as ->.
  { unfold d', d, cancel_launch_and_commit_terminal, cancel_flight, send_cancel.
    destruct inval, (in_flight_generation (gate r)), (in_flight_cancel_tx (gate r)) eqn:Et; cbn; rewrite ?Et; done. }
  unfold then_doc. destruct (set_lifecycle_read Shutdown d k Hk) as (d1 & E1 & L1).
  assert (exists k1, get_map "kernel" d1 = Some k1) as [k1 Hk1].
  { unfold set_lifecycle in E1. rewrite (get_map_scaffold _ _ _ Hk) in E1. injection E1 as <-. rewrite set_kernel_get. eauto. }
  assert (forall j, j <> "kernel" -> root d1 !! j = root d !! j) as R1.
  { intros j Hj. unfold set_lifecycle in E1. rewrite (get_map_scaffold _ _ _ Hk) in E1. injection E1 as <-. cbn. by rewrite lookup_insert_ne. }
  rewrite E1. destruct (local_identity_lifecycle "" "" None d1 k1 Hk1) as (d2 & k2 & E2 & Hk2 & L2 & R2). rewrite E2.
  assert (get_map "env" d2 = Some env) as He2.
  { rewrite (get_map_same "env" d1 d2), (get_map_same "env" d d1); [done|by apply R1|by apply R2]. }
  destruct (env_progress_cleared d2 env He2) as (d3 & E3 & R3). rewrite E3.
  assert (doc_ok d3) as Hok3.
  { apply (doc_ok_same d2); [by apply R3..|]. apply (doc_ok_same d1); [by apply R2..|]. apply (doc_ok_same d); [by apply R1..|done]. }
  destruct (abort_resolves_inflight d3 Hok3) as (Hok4 & Hq4 & Hs4 & _).
  destruct (abort_inflight_executions d3) as [d4 o] eqn:E4. cbn [fst] in *.
  assert (exists n, o = Ok n) as [n ->] by (unfold abort_inflight_executions in E4; case_match; injection E4 as _ <-; by eexists).
  assert (forall j, j <> "executions" -> root d4 !! j = root d3 !! j) as R4.
  { intros j Hj. unfold abort_inflight_executions in E4. case_match; injection E4 as <- _; [|done]. cbn. by rewrite lookup_insert_ne. }
  destruct (set_queue_spec None [] d4 Hok4) as (d5 & E5 & Hok5 & Q5 & X5 & _). rewrite E5. cbn [fst].
  assert (forall eid, doc_status d5 eid = doc_status d4 eid) as Hs5.
  { intros eid. rewrite !doc_status_entry. unfold get_execution_entry. by rewrite X5. }
  split_and!.
  - assert (root d5 !! "kernel" = root d2 !! "kernel") as Hr.
    { etrans; [|apply R3; done]. etrans; [|apply R4; done]. unfold set_queue in E5. destruct (scaffold_map "queue" d4); [|done].
      case_decide; [by injection E5 as <-|]. destruct (scaffold_list _ _); injection E5 as <-; cbn; by rewrite !lookup_insert_ne. }
    unfold read_kernel_state in *. by rewrite (get_map_same "kernel" d2 d5 Hr), L2, L1.
  - exact Q5.
  - unfold get_queued_executions in *. by rewrite X5.
  - intros eid. rewrite Hs5, Hs4. f_equal. rewrite !doc_status_entry. unfold get_execution_entry.
    by rewrite (get_map_same "executions" d2 d3), (get_map_same "executions" d1 d2), (get_map_same "executions" d d1) by auto.
Qed.

(** ** A dropped attempt gives the gate back *)

(** Turns left before the generation of a task that is not its owner ends. *)
Definition turns_left (t : task) : nat :=
  match t with
  | Dropping _ => 10 | RestoreKernel _ _ => 9 | Decide _ => 8 | Finish _ => 1
  | Clean n _ _ => 7 - Nat.min n 6
  | Owner _ | Unprotect _ | RestorePath _ _ => 0
  end.

Definition dropped (t : task) : Prop := (0 < turns_left t)%nat.

Definition reopened (g : Z) (r : LaunchRoom) : Prop :=
  in_flight_generation (gate r) = None /\ is_Some (launch_completion g r).

Lemma recorded_self g c s : is_Some (completed_outcomes (record_completion g c s) !! g).
Proof.
  cbn. case_match; [rewrite lookup_delete_ne by lia|]; rewrite lookup_insert_eq; by eexists.
Qed.

Lemma reopened_abandoned now g src r : in_flight_generation (gate r) = Some g -> reopened g (finish_abandoned_launch now g src r).
Proof.
  intros Hf. destruct (ends_abandoned now r g src Hf) as (c & Hc & _ & _). split.
  - unfold finish_abandoned_launch. rewrite decide_True by done. cbn. destruct (decide _); done.
  - unfold launch_completion. rewrite Hc. apply recorded_self.
Qed.

Lemma dropped_turn now o locked spawnable t h r r' l :
  token_of t = Some h -> dropped t -> in_flight_generation (gate r) = Some h.1 ->
  task_turn now o locked spawnable t r = (r', l) ->
  reopened h.1 r' \/
  exists t' h' l', l = t' :: l' /\ token_of t' = Some h' /\ h'.1 = h.1 /\ dropped t' /\ (turns_left t' < turns_left t)%nat.
Proof.
  intros Ht Hd Hf. unfold dropped in *.
  destruct t as [a|a|prior a|a|a|n g src|g|path g]; cbn in Ht; try done; injection Ht as <-; cbn [task_turn fst turns_left] in *; try lia.
  - unfold drop_path. repeat case_match; intros [= <- <-]; right; do 3 eexists; (split_and!; [done..|cbn; lia|cbn; lia]).
  - intros [= <- <-]. right. do 3 eexists. split_and!; [done..|cbn; lia|cbn; lia].
  - unfold drop_decide. repeat case_match; intros [= <- <-];
      [right; do 3 eexists; (split_and!; [done..|cbn; lia|cbn; lia])|left; by apply reopened_abandoned|right; do 3 eexists; (split_and!; [done..|cbn; lia|cbn; lia])].
  - intros [= <- <-]. left. unfold drop_finish, reopened, launch_completion. flight_cleared.
    destruct (decide _); (split; [done|]); apply (recorded_self (generation a) _ (gate r)).
  - destruct n as [|[|[|[|[|[|n]]]]]]; cbn [cleanup_section].
    1: rewrite decide_True by done.
    1-6: intros [= <- <-]; right; do 3 eexists; (split_and!; [done..|cbn; lia|cbn; lia]).
    intros [= <- <-]. left. by apply reopened_abandoned.
Qed.

Lemma replaced_head i t t' l ts : ts !! i = Some t -> replace_task i (t' :: l) ts !! i = Some t'.
Proof.
  intros Hi. apply lookup_lt_Some in Hi. unfold replace_task. rewrite lookup_app_r by (rewrite length_take; lia).
  rewrite length_take_le, Nat.sub_diag by lia. done.
Qed.

Definition turn_of (i : nat) (x : action) : Prop := match x with Turn j _ _ _ => j = i | _ => False end.

Lemma reopened_turn now i x g d : inv d -> turn_of i x -> reopened g (lroom d) -> reopened g (lroom (lstep now x d)).
Proof.
  intros HI Hx [Hf Hc]. destruct x; try done. cbn in Hx. subst i0. cbn [lstep].
  destruct (tasks d !! i) as [t|] eqn:Hi; [|done]. destruct (task_turn _ _ _ _ _ _) as [r' l] eqn:Ht. cbn.
  assert (token_of t = None) as Htok.
  { pose proof (take_drop_middle _ _ _ Hi) as Hs. unfold inv in HI. rewrite <- Hs in HI. rewrite omap_app in HI. cbn in HI.
    destruct (token_of t) as [h|] eqn:Htok; [|done]. destruct (holder_alone _ _ _ _ HI) as (_ & _ & ?). congruence. }
  destruct (other_effect _ _ _ _ _ _ _ _ Htok Ht) as (E1 & E2 & _). unfold reopened, launch_completion. by rewrite E1, E2.
Qed.

Lemma dropped_from i es : forall n d t h,
  n + zlen es <= u64_max -> sound n d -> Forall (turn_of i) es.*2 ->
  (reopened h.1 (lroom d) \/ tasks d !! i = Some t /\ token_of t = Some h /\ dropped t /\ (turns_left t <= length es)%nat) ->
  reopened h.1 (lroom (lrun_from d es)).
Proof.
  induction es as [|[now x] es IH]; intros n d t h Hl Hsd Hq Ho; cbn [lrun_from foldl fst snd length] in *.
  - destruct Ho as [Ho|(_ & _ & Hd & Hle)]; [done|]. unfold dropped in Hd. lia.
  - assert (zlen ((now, x) :: es) = zlen es + 1) as Hz by (unfold zlen; cbn; lia). pose proof (zlen_nonneg es). rewrite Hz in Hl.
    pose proof Hsd as [HI Ha]. apply Forall_cons in Hq as [Hx Hq]. cbn in Hx.
    assert (sound (n + 1) (lstep now x d)) as Hsd' by (apply sound_lstep; [lia|done]).
    destruct Ho as [Ho|(Hi & Htok & Hd & Hle)].
    { apply (IH (n + 1) _ t h); [lia|done|done|left]. by eapply reopened_turn. }
    destruct x as [| |j o locked spawnable| | | | | | |]; try done. cbn in Hx. subst j. cbn [lstep] in *. rewrite Hi in *.
    assert (in_flight_generation (gate (lroom d)) = Some h.1) as Hf.
    { pose proof (take_drop_middle _ _ _ Hi) as Hs. unfold inv in HI. rewrite <- Hs in HI. rewrite omap_app in HI. cbn in HI.
      rewrite Htok in HI. by destruct (holder_alone _ _ _ _ HI) as (_ & _ & ?). }
    destruct (task_turn now o locked spawnable t (lroom d)) as [r' l] eqn:Ht.
    destruct (dropped_turn _ _ _ _ _ _ _ _ _ Htok Hd Hf Ht) as [Hr|(t' & h' & l' & -> & Htok' & Hh & Hd' & Hlt)].
    + apply (IH (n + 1) _ t h); [lia|done|done|by left].
    + rewrite <- Hh. apply (IH (n + 1) _ t' h'); [lia|done|done|right]. split_and!; [by eapply replaced_head|done|done|lia].
Qed.

(** C27. An attempt that is dropped, at whatever point and with whatever locks taken, ends its
    generation within ten turns of its own task; the gate is open then. *)
Theorem dropped_launch_reopens_gate d0 es1 i t h es2 :
  zlen es1 + zlen es2 <= u64_max -> let d := lrun d0 es1 in
  tasks d !! i = Some t -> token_of t = Some h -> (forall a, t <> Owner a) ->
  Forall (turn_of i) es2.*2 -> (10 <= length es2)%nat ->
  let r := lroom (lrun_from d es2) in
  in_flight_generation (gate r) = None /\ is_Some (launch_completion h.1 r) /\
  exists r' a, try_begin_manual_launch r = (r', ManualAdmitted a).
Proof.
  intros Hl d Hi Htok Hno Hq Hlen r. pose proof (zlen_nonneg es1). pose proof (zlen_nonneg es2).
  assert (reopened h.1 r) as [Hf Hc].
  { apply (dropped_from i es2 (zlen es1) d t h); [lia|apply sound_run; lia|done|right].
    assert (0 < turns_left t <= 10)%nat as Ht by (destruct t; cbn in *; try done; [by destruct (Hno a)|lia..]).
    unfold dropped. split_and!; [done|done|lia|lia]. }
  split_and!; [done|done|]. unfold try_begin_manual_launch. rewrite Hf. by eexists _, _.
Qed.

(** ** On concrete histories *)

Module LaunchExamples.

Definition launched (agent : string) (p : Projection) : Projection :=
  set_active (Some (mkActive agent "python" "uv:prewarmed")) (with_doc (set_lifecycle (Running ActIdle)) p).

(** A peer opens the notebook, its agent connects and the kernel runs. *)
Definition launch : list (Z * action) :=
  [(0, Peers 1); (1, BeginAuto); (2, Turn 0 (Project (with_doc (set_lifecycle Resolving))) false true);
   (3, Turn 0 (Install "agent-1") false true); (4, Turn 0 (SetHandle "agent-1") false true); (5, AgentConnected "agent-1");
   (6, Turn 0 (Succeed "agent-1" (launched "agent-1")) false true)].

(** A launch that ends with its owner, and the turns of its cleanup. *)
Definition cleanup (n : nat) (now : Z) : list (Z * action) := replicate n (now, Turn 0 DropAttempt false true).
Definition failing : list (Z * action) := [(0, Peers 1); (1, BeginAuto); (2, Turn 0 (Install "agent-1") false true); (3, Turn 0 DropAttempt false true)].

Example launch_succeeds :
  let r := lroom (lrun new_runtime_doc launch) in
  kd_lifecycle (read_kernel_state (doc (projection r))) = Running ActIdle /\ launch_completion 1 r = Some Succeeded /\
  in_flight_generation (gate r) = None /\ al_runtime_agent_id <$> active_kernel_launch (projection r) = Some "agent-1".
Proof. vm_compute. auto. Qed.

Lemma launch_outcomes_exact_witness : exists c, launch_completion 1 (lroom (lrun new_runtime_doc launch)) = Some c.
Proof.
  apply (proj1 (launch_outcomes_exact new_runtime_doc launch [] 1 ltac:(vm_compute; discriminate))).
  split_and!; [vm_compute; discriminate..|vm_compute; reflexivity].
Defined.

Lemma launches_single_flight_witness :
  (omap token_of (tasks (lrun new_runtime_doc failing))).*1 = option_list (in_flight_generation (gate (lroom (lrun new_runtime_doc failing)))) /\
  in_flight_generation (gate (lroom (lrun new_runtime_doc failing))) = Some 1.
Proof. split; [apply (launches_single_flight new_runtime_doc failing); vm_compute; discriminate|vm_compute; reflexivity]. Defined.

Lemma dropped_launch_reopens_gate_witness :
  in_flight_generation (gate (lroom (lrun_from (lrun new_runtime_doc failing) (cleanup 10 4)))) = None.
Proof.
  destruct (dropped_launch_reopens_gate new_runtime_doc failing 0 (Dropping (mkAttempt 1 OutcomeFailed Auto 0 None None)) (1, Some 0%nat) (cleanup 10 4))
    as (H & _); [vm_compute; discriminate|vm_compute; reflexivity|reflexivity|discriminate|repeat constructor|cbn; lia|exact H].
Defined.

(** After the failure reconnects wait; an explicit request does not. *)
Definition failed_at (now : Z) : list (Z * action) := failing ++ cleanup 9 now.

Example reconnect_waits_request_does_not :
  let r := lroom (lrun new_runtime_doc (failed_at 100)) in
  (try_begin_auto_launch 5099 r).2 = CoolingDown 1 /\
  (exists a, (try_begin_auto_launch 5100 r).2 = AutoAdmitted a) /\ exists a, (try_begin_manual_launch r).2 = ManualAdmitted a.
Proof. vm_compute. eauto. Qed.

Lemma auto_launch_throttled_witness :
  let d1 := lrun new_runtime_doc (failing ++ cleanup 8 50) in
  let d3 := lrun_from (lstep 100 (Turn 0 DropAttempt false true) d1) [(200, BeginManual); (300, Turn 0 Readmit false true)] in
  Forall (fun k => source_of k = Manual) (tasks d3) /\ forall r a, try_begin_auto_launch 300 (lroom d3) <> (r, AutoAdmitted a).
Proof.
  edestruct (auto_launch_throttled new_runtime_doc (failing ++ cleanup 8 50) 100 0 DropAttempt false true (Clean 6 1 Auto) (1, None)
    [(200, BeginManual); (300, Turn 0 Readmit false true)] 300) as [H1 H2];
    [vm_compute; discriminate|vm_compute; reflexivity|reflexivity|reflexivity|vm_compute; reflexivity|repeat constructor; cbn; lia
    |repeat constructor; cbn; lia|lia|]. cbv zeta. split.
  - assert (forall k, source_of k = Auto -> is_Some (token_of k)) as Htok by (intros [| | | | | | | ]; cbn; try done; by eexists).
    apply Forall_forall. intros k Hk. destruct (source_of k) eqn:E; [|done]. specialize (H1 k Hk (Htok k E) E).
    unfold AUTO_LAUNCH_FAILURE_COOLDOWN in H1. lia.
  - intros r a Hadm. specialize (H2 r a Hadm). unfold AUTO_LAUNCH_FAILURE_COOLDOWN in H2. lia.
Defined.

Definition relaunch : list (Z * action) := launch ++ [(7, BeginManual); (8, Turn 0 (Install "agent-2") false true)].

Definition torn_down : Launches := lstep 10 (Terminal true "shutdown" (set_lifecycle Shutdown)) (lrun new_runtime_doc relaunch).
Definition reports_idle (d : RuntimeStateDoc) : RuntimeStateDoc := (set_lifecycle (Running ActIdle) d).1.


(** After a plain shutdown the agent stays connected; when it is gone the room shows an
    error in place of the shutdown. *)
Example shutdown_then_agent_gone :
  let lifecycle es := kd_lifecycle (read_kernel_state (doc (projection (lroom (lrun new_runtime_doc (launch ++ es)))))) in
  let shutdown := (10, Terminal false "shutdown" (set_lifecycle Shutdown)) in
  lifecycle [shutdown] = Shutdown /\
  lifecycle [shutdown; (11, AgentGone "agent-1" "errored" (set_lifecycle LcError))] = LcError.
Proof. vm_compute. auto. Qed.

(** What an agent still connected to the socket syncs after a teardown is shown. *)
Example synced_after_teardown :
  kd_lifecycle (read_kernel_state (doc (projection (lroom (lstep 11 (AgentSync reports_idle) torn_down))))) = Running ActIdle.
Proof. vm_compute. auto. Qed.

Lemma shutdown_settles_document_witness :
  let d := doc (projection (cancel_launch_and_mark_shutdown_with "shutdown" (new_launch_room RuntimeDocExamples.busy)).1) in
  kd_lifecycle (read_kernel_state d) = Shutdown /\ get_queued_executions d = [].
Proof.
  edestruct (shutdown_settles_document false "shutdown" (new_launch_room RuntimeDocExamples.busy)) as (H1 & _ & H2 & _);
    [exact RuntimeDocExamples.busy_ok|reflexivity|reflexivity|]. split; [exact H1|exact H2].
Defined.

(** A cancellation between the last check of a drop and its lock is lost: the generation
    counts as released and stays in the set of cancelled ones. *)
Example late_cancellation_is_lost :
  let r := lroom (lrun new_runtime_doc
    [(0, BeginManual); (1, Turn 0 Release false true); (2, Turn 0 Release false true); (3, Turn 0 Release false true);
     (4, Terminal false "shutdown" (set_lifecycle Shutdown)); (5, Turn 0 Release false true)]) in
  launch_completion 1 r = Some Released /\ bool_decide (1 ∈ cancelled_generations (gate r)) = true /\ in_flight_generation (gate r) = None.
Proof. vm_compute. auto. Qed.

(** The owner of a kernel that is replaced puts it back when its preparation fails, unless
    it was shut down meanwhile. *)
Definition replacing : list (Z * action) :=
  launch ++ [(7, BeginManual); (8, Turn 0 (Preserve false) false true);
             (9, Turn 0 (Project (with_doc (set_lifecycle PreparingEnv))) false true)].
Example failed_preparation_restores_kernel :
  let lifecycle es := kd_lifecycle (read_kernel_state (doc (projection (lroom (lrun new_runtime_doc (replacing ++ es)))))) in
  lifecycle [] = PreparingEnv /\ lifecycle (cleanup 4 10) = Running ActIdle /\
  lifecycle ((10, Terminal false "shutdown" (set_lifecycle Shutdown)) :: cleanup 12 11) = Shutdown.
Proof. vm_compute. auto. Qed.

End LaunchExamples.
