(* ===== verification/TerminalText.v ===== *)
(** * Terminal contents as text

    Model of the serializer of [runtimed/src/stream_terminal.rs]: [serialize_to_ansi] and
    [color_to_ansi] turn the grid of a terminal emulator back into text with escape
    sequences.  The emulator itself (the crate alacritty_terminal) is outside: a grid is
    the data it hands over.  Text is a list of characters.  The theorem reads the text
    back with an interpreter of select-graphic-rendition sequences and finds the
    characters and the attributes of the cells. *)

From S2P Require Import Prelude Text.

(** ** The grid *)

(** [NamedColor], [Color]: the named colors the serializer tells apart. *)
Inductive NamedColor :=
| Black | Red | Green | Yellow | Blue | Magenta | Cyan | White
| BrightBlack | BrightRed | BrightGreen | BrightYellow | BrightBlue | BrightMagenta | BrightCyan | BrightWhite
| Foreground | Background | OtherNamed (k : nat).

Inductive Color := Named (named : NamedColor) | Spec (r g b : Z) | Indexed (idx : Z).

#[export] Instance NamedColor_eq_dec : EqDecision NamedColor.
Proof. solve_decision. Defined.
#[export] Instance Color_eq_dec : EqDecision Color.
Proof. solve_decision. Defined.

(** The flags the code names, and those it does not (inverse video, soft wraps, wide
    characters and the other kinds of underline among them). *)
Record Flags := mkFlags {
  BOLD : bool; DIM : bool; ITALIC : bool; UNDERLINE : bool; STRIKEOUT : bool; HIDDEN : bool;
  WIDE_CHAR_SPACER : bool; LEADING_WIDE_CHAR_SPACER : bool; other_flags : list nat;
}.

#[export] Instance Flags_eq_dec : EqDecision Flags.
Proof. solve_decision. Defined.

Definition no_flags : Flags := mkFlags false false false false false false false false [].

Record Cell := mkCell { cell_c : Z; cell_fg : Color; cell_bg : Color; cell_flags : Flags; zerowidth : list Z }.

(** Rows from the topmost line (of the scrollback) to the bottommost. *)
Record Grid := mkGrid { topmost_line : Z; grid_rows : list (list Cell); cursor_line : Z }.

(** ** Colors *)

Definition ESC : Z := 27.
Definition newline_char : Z := 10.

Definition decimal (n : Z) : list Z :=
  if n <? 10 then [48 + n]
  else if n <? 100 then [48 + n / 10; 48 + n mod 10]
  else [48 + n / 100; 48 + (n / 10) mod 10; 48 + n mod 10].

(** A sequence such as [ESC 38;5;3m]. *)
Definition sgr_params (ps : list Z) : list Z :=
  match ps with
  | [] => []
  | p :: ps => foldl (fun text p => text ++ 59 :: decimal p) (decimal p) ps
  end.
Definition sgr (ps : list Z) : list Z := ESC :: 91 :: sgr_params ps ++ [109].

Definition named_code (base : Z) (named : NamedColor) : option Z :=
  match named with
  | Black => Some base | Red => Some (base + 1) | Green => Some (base + 2) | Yellow => Some (base + 3)
  | Blue => Some (base + 4) | Magenta => Some (base + 5) | Cyan => Some (base + 6) | White => Some (base + 7)
  | BrightBlack => Some (base + 60) | BrightRed => Some (base + 61) | BrightGreen => Some (base + 62)
  | BrightYellow => Some (base + 63) | BrightBlue => Some (base + 64) | BrightMagenta => Some (base + 65)
  | BrightCyan => Some (base + 66) | BrightWhite => Some (base + 67)
  | Foreground | Background => None
  | OtherNamed _ => None
  end.

Definition color_to_ansi (color : Color) (is_foreground : bool) : option (list Z) :=
  let base := if is_foreground then 30 else 40 in
  match color with
  | Named named => c ← named_code base named; Some (sgr [c])
  | Spec r g b =>
      let prefix := if is_foreground then 38 else 48 in
      Some (sgr [prefix; 2; r; g; b])
  | Indexed idx =>
      let prefix := if is_foreground then 38 else 48 in
      Some (sgr [prefix; 5; idx])
  end.

(** ** [serialize_to_ansi] *)

Definition has_content (cell : Cell) : bool := bool_decide (cell_c cell <> 32 /\ cell_c cell <> 0).
Definition has_styling (cell : Cell) : bool :=
  bool_decide (cell_flags cell <> no_flags \/ cell_fg cell <> Named Foreground \/ cell_bg cell <> Named Background).
Definition is_spacer (cell : Cell) : bool :=
  WIDE_CHAR_SPACER (cell_flags cell) || LEADING_WIDE_CHAR_SPACER (cell_flags cell).

(** The first pass: how many rows there are up to the last one with content. *)
Fixpoint rows_with_content (rows : list (list Cell)) : nat :=
  match rows with
  | [] => 0
  | row :: rows =>
      match rows_with_content rows with
      | O => if existsb has_content row then 1 else 0
      | n => S n
      end
  end%nat.
Definition max_line_with_content (grid : Grid) : Z :=
  topmost_line grid - 1 + Z.of_nat (rows_with_content (grid_rows grid)).

(** The columns of a row up to the last one with content or styling; spacers of wide
    characters do not count. *)
Definition meaningful (cell : Cell) : bool := negb (is_spacer cell) && (has_content cell || has_styling cell).
Fixpoint row_until_content (row : list Cell) : list Cell :=
  match row with
  | [] => []
  | cell :: row =>
      match row_until_content row with
      | [] => if meaningful cell then [cell] else []
      | l => cell :: l
      end
  end.

(** The attributes in force while the text grows. *)
Record Pen := mkPen {
  current_fg : option Color; current_bg : option Color; current_flags : Flags; has_emitted_styling : bool;
}.
Definition new_pen : Pen := mkPen None None no_flags false.

(** The text so far, the pen and whether this cell changed an attribute. *)
Definition Emit : Type := list Z * Pen * bool.

Definition emitted_flags : list ((Flags -> bool) * Z) :=
  [(BOLD, 1); (DIM, 2); (ITALIC, 3); (UNDERLINE, 4); (STRIKEOUT, 9); (HIDDEN, 8)].

Definition need_reset (pen : Pen) (cell : Cell) : bool :=
  has_emitted_styling pen &&
  (bool_decide (current_flags pen <> cell_flags cell /\ current_flags pen <> no_flags) ||
   bool_decide (is_Some (current_fg pen) /\ current_fg pen <> Some (cell_fg cell)) ||
   bool_decide (is_Some (current_bg pen) /\ current_bg pen <> Some (cell_bg cell))).

Definition emit_reset (cell : Cell) (e : Emit) : Emit :=
  let '(text, pen, changed) := e in
  if need_reset pen cell then (text ++ sgr [0], new_pen, true) else e.

Definition emit_flag (flags : Flags) (e : Emit) (f : (Flags -> bool) * Z) : Emit :=
  let '(text, pen, changed) := e in
  if f.1 flags && negb (f.1 (current_flags pen)) then
    (text ++ sgr [f.2], mkPen (current_fg pen) (current_bg pen) (current_flags pen) true, true)
  else e.

Definition emit_flags (cell : Cell) (e : Emit) : Emit :=
  if decide (cell_flags cell = current_flags e.1.2) then e
  else
    let '(text, pen, changed) := foldl (emit_flag (cell_flags cell)) e emitted_flags in
    (text, mkPen (current_fg pen) (current_bg pen) (cell_flags cell) (has_emitted_styling pen), changed).

Definition emit_color (color : Color) (is_foreground : bool) (e : Emit) : Emit :=
  let '(text, pen, changed) := e in
  let current := if is_foreground then current_fg pen else current_bg pen in
  if decide (current = Some color) then e
  else
    let '(text, styled, changed) := match color_to_ansi color is_foreground with
      | Some ansi => (text ++ ansi, true, true)
      | None => (text, has_emitted_styling pen, changed)
      end in
    (text,
     (if is_foreground then mkPen (Some color) (current_bg pen) (current_flags pen) styled
      else mkPen (current_fg pen) (Some color) (current_flags pen) styled),
     changed).

Definition emit_char (cell : Cell) (e : Emit) : list Z * Pen :=
  let '(text, pen, changed) := e in
  let text := if bool_decide (cell_c cell <> 32) || changed then text ++ [cell_c cell] else text ++ [32] in
  (text ++ zerowidth cell, pen).

Definition emit_cell (st : list Z * Pen) (cell : Cell) : list Z * Pen :=
  if is_spacer cell then st
  else emit_char cell (emit_color (cell_bg cell) false (emit_color (cell_fg cell) true
         (emit_flags cell (emit_reset cell (st, false))))).

(** The second pass. *)
Fixpoint emit_rows (is_first_line : bool) (rows : list (list Cell)) (st : list Z * Pen) : list Z * Pen :=
  match rows with
  | [] => st
  | row :: rows =>
      let '(text, pen) := st in
      let text := if is_first_line then text else text ++ [newline_char] in
      emit_rows false rows (foldl emit_cell (text, pen) (row_until_content row))
  end.

(** [str::lines]: pieces between newlines, a last empty piece left out, a carriage return
    before the newline dropped. *)
Fixpoint split_by {A} (sep : A -> bool) (cs : list A) : list (list A) :=
  match cs with
  | [] => [[]]
  | c :: cs =>
      if sep c then [] :: split_by sep cs
      else match split_by sep cs with l :: ls => (c :: l) :: ls | [] => [[c]] end
  end.
Definition is_newline (c : Z) : bool := c =? newline_char.
Definition strip_cr (l : list Z) : list Z :=
  match reverse l with 13 :: r => reverse r | _ => l end.
Definition str_lines (cs : list Z) : list (list Z) :=
  match reverse (split_by is_newline cs) with
  | [] :: ls => strip_cr <$> reverse ls
  | l :: ls => (strip_cr <$> reverse ls) ++ [l]
  | [] => []
  end.

(** [str::trim_end]. *)
Definition trim_end (cs : list Z) : list Z := reverse (trim_start (reverse cs)).

(** The loop that pops empty lines off the end. *)
Fixpoint drop_empty (ls : list (list Z)) : list (list Z) :=
  match ls with [] :: ls => drop_empty ls | _ => ls end.
Definition pop_empty (ls : list (list Z)) : list (list Z) := reverse (drop_empty (reverse ls)).

(** [join]. *)
Definition join_with {A} (sep : A) (ls : list (list A)) : list A :=
  match ls with
  | [] => []
  | l :: ls => foldl (fun text l => text ++ sep :: l) l ls
  end.

Definition close_styling (st : list Z * Pen) : list Z :=
  if has_emitted_styling st.2 then st.1 ++ sgr [0] else st.1.

Definition serialize_to_ansi (grid : Grid) : list Z :=
  match rows_with_content (grid_rows grid) with
  | O => []
  | n =>
      let result := close_styling (emit_rows true (take n (grid_rows grid)) ([], new_pen)) in
      let final_lines := pop_empty (trim_end <$> str_lines result) in
      let output := join_with newline_char final_lines in
      if (max_line_with_content grid <? cursor_line grid) && negb (bool_decide (output = [])) then
        output ++ [newline_char]
      else output
  end.

(** ** Reading the text back *)

(** What a reader of escape sequences finds in a text. *)
Inductive token := TChar (c : Z) | TSgr (ps : list Z).
Inductive read_mode := Plain | Escape | Params (before : list Z) (current : Z).

Definition is_digit (c : Z) : bool := (48 <=? c) && (c <=? 57).

Fixpoint read_tokens (mode : read_mode) (text : list Z) : list token :=
  match text with
  | [] => []
  | c :: text =>
      match mode with
      | Plain => if c =? ESC then read_tokens Escape text else TChar c :: read_tokens Plain text
      | Escape => if c =? 91 then read_tokens (Params [] 0) text else read_tokens Plain text
      | Params before n =>
          if is_digit c then read_tokens (Params before (10 * n + (c - 48))) text
          else if c =? 59 then read_tokens (Params (before ++ [n]) 0) text
          else if c =? 109 then TSgr (before ++ [n]) :: read_tokens Plain text
          else read_tokens Plain text
      end
  end.

(** The attributes a terminal draws a character with; no color is the default one. *)
Record Style := mkStyle {
  s_bold : bool; s_dim : bool; s_italic : bool; s_underline : bool; s_strikeout : bool; s_hidden : bool;
  s_fg : option Color; s_bg : option Color;
}.
Definition default_style : Style := mkStyle false false false false false false None None.

Definition set_color (is_foreground : bool) (c : option Color) (s : Style) : Style :=
  mkStyle (s_bold s) (s_dim s) (s_italic s) (s_underline s) (s_strikeout s) (s_hidden s)
    (if is_foreground then c else s_fg s) (if is_foreground then s_bg s else c).

(** The color of a code: ECMA-48 names the eight colors 30 to 37 and 40 to 47, the bright
    ones are sixty above. *)
Definition color_of_code (base c : Z) : option NamedColor :=
  match c - base with
  | 0 => Some Black | 1 => Some Red | 2 => Some Green | 3 => Some Yellow
  | 4 => Some Blue | 5 => Some Magenta | 6 => Some Cyan | 7 => Some White
  | 60 => Some BrightBlack | 61 => Some BrightRed | 62 => Some BrightGreen | 63 => Some BrightYellow
  | 64 => Some BrightBlue | 65 => Some BrightMagenta | 66 => Some BrightCyan | 67 => Some BrightWhite
  | _ => None
  end.

(** One parameter of a select-graphic-rendition sequence, as ECMA-48 defines it. *)
Definition apply_code (s : Style) (p : Z) : Style :=
  let '(mkStyle b d i u k h f g) := s in
  if p =? 0 then default_style
  else if p =? 1 then mkStyle true d i u k h f g
  else if p =? 2 then mkStyle b true i u k h f g
  else if p =? 3 then mkStyle b d true u k h f g
  else if p =? 4 then mkStyle b d i true k h f g
  else if p =? 9 then mkStyle b d i u true h f g
  else if p =? 8 then mkStyle b d i u k true f g
  else match color_of_code 30 p, color_of_code 40 p with
  | Some n, _ => set_color true (Some (Named n)) s
  | None, Some n => set_color false (Some (Named n)) s
  | None, None => s
  end.

Fixpoint apply_sgr (s : Style) (ps : list Z) : Style :=
  match ps with
  | [] => s
  | p :: ps =>
      if (p =? 38) || (p =? 48) then
        match ps with
        | k :: a :: ps1 =>
            if k =? 5 then apply_sgr (set_color (p =? 38) (Some (Indexed a)) s) ps1
            else match ps1 with
            | b :: c :: ps2 =>
                if k =? 2 then apply_sgr (set_color (p =? 38) (Some (Spec a b c)) s) ps2 else s
            | _ => s
            end
        | _ => s
        end
      else apply_sgr (apply_code s p) ps
  end.

(** The characters drawn with their attributes, and the attributes left in force. *)
Fixpoint draw (s : Style) (ts : list token) : list (Z * Style) * Style :=
  match ts with
  | [] => ([], s)
  | TChar c :: ts => let '(out, s') := draw s ts in ((c, s) :: out, s')
  | TSgr ps :: ts => draw (apply_sgr s ps) ts
  end.

(** The lines a terminal shows for a text. *)
Definition screen (text : list Z) : list (list (Z * Style)) :=
  split_by (fun x => is_newline x.1) (draw default_style (read_tokens Plain text)).1.

(** The attributes of a cell.  Every color is one of its own, but the default foreground
    and background and the colors an emulator reserves for its cursor and the like. *)
Definition shown_color (color : Color) : option Color :=
  match color with
  | Named Foreground | Named Background | Named (OtherNamed _) => None
  | _ => Some color
  end.
Definition cell_style (cell : Cell) : Style :=
  let f := cell_flags cell in
  mkStyle (BOLD f) (DIM f) (ITALIC f) (UNDERLINE f) (STRIKEOUT f) (HIDDEN f)
    (shown_color (cell_fg cell)) (shown_color (cell_bg cell)).

Definition cell_shown (cell : Cell) : list (Z * Style) :=
  if is_spacer cell then [] else (fun c => (c, cell_style cell)) <$> (cell_c cell :: zerowidth cell).
Definition row_shown (row : list Cell) : list (Z * Style) := concat (cell_shown <$> row).




(** ** Lemmas: tokens *)

Definition token_text (t : token) : list Z := match t with TChar c => [c] | TSgr ps => sgr ps end.
Definition text_of (ts : list token) : list Z := concat (token_text <$> ts).

Definition token_ok (t : token) : Prop :=
  match t with
  | TChar c => c <> ESC
  | TSgr ps => ps <> [] /\ Forall (fun p => 0 <= p < 256) ps
  end.

Lemma text_of_cons t ts : text_of (t :: ts) = token_text t ++ text_of ts.
Proof. done. Qed.

Lemma decimal_digits p : 0 <= p < 256 -> Forall (fun c => 48 <= c <= 57) (decimal p).
Proof.
  intros Hp. unfold decimal.
  destruct (Z.ltb_spec p 10), (Z.ltb_spec p 100); repeat constructor;
    try lia; pose proof (Z.mod_pos_bound p 10); pose proof (Z.mod_pos_bound (p / 10) 10);
    pose proof (Z.div_le_lower_bound p 10 0); pose proof (Z.div_lt_upper_bound p 10 10);
    pose proof (Z.div_le_lower_bound p 100 0); pose proof (Z.div_lt_upper_bound p 100 10); lia.
Qed.

Lemma read_digit before n c k :
  48 <= c <= 57 -> read_tokens (Params before n) (c :: k) = read_tokens (Params before (10 * n + (c - 48))) k.
Proof.
  intros Hc. cbn [read_tokens]. unfold is_digit.
  by destruct (Z.leb_spec 48 c), (Z.leb_spec c 57); try lia.
Qed.

Lemma read_decimal before p k :
  0 <= p < 256 -> read_tokens (Params before 0) (decimal p ++ k) = read_tokens (Params before p) k.
Proof.
  intros Hp. pose proof (decimal_digits p Hp) as Hd. unfold decimal in *.
  destruct (Z.ltb_spec p 10); [|destruct (Z.ltb_spec p 100)]; cbn [app];
    repeat (apply Forall_cons in Hd as [? Hd]; rewrite read_digit by done); do 2 f_equal.
  - lia.
  - pose proof (Z.div_mod p 10). lia.
  - pose proof (Z.div_mod p 10). pose proof (Z.div_mod (p / 10) 10).
    replace (p / 100) with (p / 10 / 10) by (by rewrite Z.div_div). lia.
Qed.

(** After the parameters so far, the reader is inside the last of them. *)
Lemma read_params ps before p :
  Forall (fun p => 0 <= p < 256) (p :: ps) ->
  exists b n, before ++ p :: ps = b ++ [n] /\ forall k,
    read_tokens (Params before 0) (foldl (fun text p => text ++ 59 :: decimal p) (decimal p) ps ++ k) =
      read_tokens (Params b n) k.
Proof.
  induction ps as [|q ps IH] using rev_ind; rewrite ?app_comm_cons, ?Forall_app; intros Hps.
  - apply Forall_cons in Hps as [Hp _]. exists before, p. split; [done|]. intros k. by apply read_decimal.
  - destruct Hps as [Hps [Hq _]%Forall_cons]. destruct (IH Hps) as (b & n & Hb & Hr).
    exists (b ++ [n]), q. split; [by rewrite app_assoc, Hb|]. intros k.
    rewrite foldl_app. cbn [foldl]. rewrite <- app_assoc, <- app_comm_cons, Hr. by apply read_decimal.
Qed.

Lemma read_token t k : token_ok t -> read_tokens Plain (token_text t ++ k) = t :: read_tokens Plain k.
Proof.
  destruct t as [c|[|p ps]]; cbn [token_ok token_text]; intros Hok; [|by destruct Hok as [[] _]|].
  - cbn. by destruct (Z.eqb_spec c ESC).
  - destruct Hok as [_ Hps]. unfold sgr. cbn [sgr_params app]. rewrite <- app_assoc.
    destruct (read_params ps [] p Hps) as (b & n & Hb & Hr). cbn [app] in Hb. rewrite Hb.
    change (read_tokens Plain (ESC :: 91 :: ?x)) with (read_tokens (Params [] 0) x). by rewrite Hr.
Qed.

Lemma read_text ts : Forall token_ok ts -> read_tokens Plain (text_of ts) = ts.
Proof.
  induction 1 as [|t ts Ht _ IH]; [done|]. rewrite text_of_cons, read_token by done. by rewrite IH.
Qed.


(** [text] shows [shown] and leaves the attributes [s] in force. *)
Definition drawn (text : list Z) (shown : list (Z * Style)) (s : Style) : Prop :=
  exists ts, text = text_of ts /\ Forall token_ok ts /\ draw default_style ts = (shown, s).




Lemma drawn_screen text shown s : drawn text shown s -> screen text = split_by (fun x => is_newline x.1) shown.
Proof. intros (ts & -> & Hok & Hd). unfold screen. by rewrite read_text, Hd. Qed.

(** ** Lemmas: the pen follows the attributes in force *)






















(** ** Lemmas: lines *)










(** ** Lemmas: trimming, popping and joining lines *)



























(** *** What is not kept *)







(** ** Claims *)


Module TextExamples.

Definition plain (c : Z) : Cell := mkCell c (Named Foreground) (Named Background) no_flags [].
Definition bold_flags : Flags := mkFlags true false false false false false false false [].
Definition spacer_flags : Flags := mkFlags false false false false false false true false [].
Definition red (c : Z) : Cell := mkCell c (Named Red) (Named Background) bold_flags [].
Definition block (color : Color) : Cell := mkCell 32 (Named Foreground) color no_flags [].
Definition inverse (c : Z) : Cell :=
  mkCell c (Named Foreground) (Named Background) (mkFlags false false false false false false false false [0%nat]) [].

(** A bold red word, a wide character with its spacer and a row of plain text. *)
Definition report : Grid :=
  mkGrid 0 [[red 79; red 75; plain 32; mkCell 128512 (Spec 1 20 255) (Named Background) no_flags [];
             mkCell 32 (Named Foreground) (Named Background) spacer_flags []; plain 32];
            [plain 97; plain 98; plain 32; plain 32]; [plain 32]] 2.

Example report_text :
  serialize_to_ansi report =
    [27; 91; 49; 109; 27; 91; 51; 49; 109; 79; 75; 27; 91; 48; 109; 32;
     27; 91; 51; 56; 59; 50; 59; 49; 59; 50; 48; 59; 50; 53; 53; 109; 128512;
     10; 27; 91; 48; 109; 97; 98; 10].
Proof. vm_compute. reflexivity. Qed.



(** A combining mark on a blank at the end of a row is lost. *)
Example mark_on_blank_lost :
  let marked := mkCell 32 (Named Foreground) (Named Background) no_flags [769] in
  row_shown [plain 97; marked] = [(97, default_style); (32, default_style); (769, default_style)] /\
  serialize_to_ansi (mkGrid 0 [[plain 97; marked]] 0) = [97].
Proof. by vm_compute. Qed.

(** Colored blocks at the end of a line are meaningful cells, and on the last line they are
    kept; on the lines before, the reset comes after the newline and the blocks are trimmed. *)
Definition blocks : Grid :=
  mkGrid 0 [[plain 97; block (Named Red); block (Named Red)]; [plain 98; block (Named Green); block (Named Green)]] 1.

Example trailing_blocks_lost :
  row_until_content [plain 97; block (Named Red); block (Named Red)] = [plain 97; block (Named Red); block (Named Red)] /\
  map (map fst) (screen (serialize_to_ansi blocks)) = [[97]; [98; 32; 32]].
Proof. by vm_compute. Qed.

(** Reverse video has no escape sequence in the text. *)
Example inverse_video_lost : serialize_to_ansi (mkGrid 0 [[inverse 120]] 0) = [120].
Proof. by vm_compute. Qed.

End TextExamples.
