(* ===== verification/StreamSegments.v ===== *)
(** * Segments of stream output

    Model of the data a kernel's stdout and stderr pass through on their way to the
    runtime state document: [StreamTerminals] of [runtimed/src/stream_terminal.rs], one
    terminal emulator per segment of a stream; [StreamFlushBuffer] of [stream_flush.rs],
    which decides when a segment is written; the manifest of a stream output with its
    preview, of [output_store.rs].  The emulator (the crate alacritty_terminal) is the
    class [Emulator]; the redaction of secrets and the hash of the blob store are the
    class [OutputEnv]. *)

From S2P Require Import Prelude Kernel Automunge RuntimeDoc RuntimeOutputs Text TerminalText.

(** ** Terminals *)

(** A terminal and the parser that feeds it. *)
Class Emulator := {
  Term : Type; Processor : Type;
  new_term : Term; new_processor : Processor;
  advance : Processor -> Term -> bytes -> Processor * Term;
  grid_of : Term -> Grid;
}.

Abbreviation StreamKey := (string * string)%type.
Abbreviation SegmentKey := (string * string * Z)%type.

Record SealedStreamSegment := mkSealed { sealed_stream_name : string; sealed_segment : Z }.
Record StreamChunkPlacement := mkPlacement { segment : Z; sealed : option SealedStreamSegment }.

Section Terminals.
Context {EM : Emulator}.

Record StreamTerminals := mkTerminals {
  terminals : gmap SegmentKey Term;
  processors : gmap SegmentKey Processor;
  output_states : gmap SegmentKey StreamOutputState;
  current_segments : gmap StreamKey Z;
  last_stream : gmap string string;
  sealed_segments : gset SegmentKey;
}.

Definition new_terminals : StreamTerminals := mkTerminals ∅ ∅ ∅ ∅ ∅ ∅.

(** Feeding text: each newline becomes a carriage return and a newline. *)
Definition feed_byte (pt : Processor * Term) (b : byte) : Processor * Term :=
  if decide (b = Byte.x0a) then advance pt.1 pt.2 [Byte.x0d; Byte.x0a] else advance pt.1 pt.2 [b].
Definition feed_bytes (pt : Processor * Term) (text : bytes) : Processor * Term := foldl feed_byte pt text.

(** [*segment += 1] on a [u64]. *)
Definition next_segment (s : Z) : Z := (s + 1) mod 2 ^ 64.

(** A chunk on the other stream seals the segment the last one went to. *)
Definition seal_previous (execution_id stream_name : string) (t : StreamTerminals)
    : StreamTerminals * option SealedStreamSegment :=
  match last_stream t !! execution_id with
  | Some previous =>
      if decide (previous = stream_name) then (t, None)
      else
        let '(sealed_set, sealed) := match current_segments t !! (execution_id, previous) with
          | Some seg => (sealed_segments t ∪ {[(execution_id, previous, seg)]}, Some (mkSealed previous seg))
          | None => (sealed_segments t, None)
          end in
        (mkTerminals (terminals t) (processors t) (output_states t)
           (match current_segments t !! (execution_id, stream_name) with
            | Some seg => <[(execution_id, stream_name) := next_segment seg]> (current_segments t)
            | None => current_segments t
            end)
           (last_stream t) sealed_set, sealed)
  | None => (t, None)
  end.

Definition feed_chunk (execution_id stream_name : string) (text : bytes) (t : StreamTerminals)
    : StreamTerminals * StreamChunkPlacement :=
  let '(t, sealed) := seal_previous execution_id stream_name t in
  let last := <[execution_id := stream_name]> (last_stream t) in
  let seg := default 0 (current_segments t !! (execution_id, stream_name)) in
  let segments := <[(execution_id, stream_name) := seg]> (current_segments t) in
  let key := (execution_id, stream_name, seg) in
  let term := default new_term (terminals t !! key) in
  let processor := default new_processor (processors t !! key) in
  let '(processor, term) := feed_bytes (processor, term) text in
  (mkTerminals (<[key := term]> (terminals t)) (<[key := processor]> (processors t)) (output_states t)
     segments last (sealed_segments t),
   mkPlacement seg sealed).

Definition current_segment (execution_id stream_name : string) (t : StreamTerminals) : option Z :=
  current_segments t !! (execution_id, stream_name).

Definition render_term (term : Term) : string := utf8_string (serialize_to_ansi (grid_of term)).

Definition render_segment (key : SegmentKey) (t : StreamTerminals) : option string :=
  render_term <$> terminals t !! key.

Definition of_execution (execution_id : string) (key : SegmentKey) : bool := bool_decide (key.1.1 = execution_id).

(** [clear]. *)
Definition clear (execution_id : string) (t : StreamTerminals) : StreamTerminals :=
  mkTerminals
    (filter (fun kv => kv.1.1.1 <> execution_id) (terminals t))
    (filter (fun kv => kv.1.1.1 <> execution_id) (processors t))
    (filter (fun kv => kv.1.1.1 <> execution_id) (output_states t))
    (filter (fun kv => kv.1.1 <> execution_id) (current_segments t))
    (delete execution_id (last_stream t))
    (filter (fun k : SegmentKey => k.1.1 <> execution_id) (sealed_segments t)).

Definition retire_segment (key : SegmentKey) (t : StreamTerminals) : StreamTerminals :=
  if decide (key ∈ sealed_segments t) then
    mkTerminals (delete key (terminals t)) (delete key (processors t)) (delete key (output_states t))
      (current_segments t) (last_stream t) (sealed_segments t ∖ {[key]})
  else t.

Definition is_sealed (key : SegmentKey) (t : StreamTerminals) : bool := bool_decide (key ∈ sealed_segments t).
Definition has_segment (key : SegmentKey) (t : StreamTerminals) : bool := bool_decide (is_Some (terminals t !! key)).
Definition has_stream (execution_id stream_name : string) (t : StreamTerminals) : bool :=
  match current_segment execution_id stream_name t with
  | Some seg => has_segment (execution_id, stream_name, seg) t
  | None => false
  end.

Definition get_segment_output_state (key : SegmentKey) (t : StreamTerminals) : option StreamOutputState :=
  output_states t !! key.
Definition get_output_state (execution_id stream_name : string) (t : StreamTerminals) : option StreamOutputState :=
  get_segment_output_state (execution_id, stream_name, default 0 (current_segment execution_id stream_name t)) t.

Definition set_segment_output_state (key : SegmentKey) (state : StreamOutputState) (t : StreamTerminals)
    : StreamTerminals :=
  mkTerminals (terminals t) (processors t) (<[key := state]> (output_states t)) (current_segments t)
    (last_stream t) (sealed_segments t).
Definition set_output_state (execution_id stream_name : string) (state : StreamOutputState) (t : StreamTerminals)
    : StreamTerminals :=
  set_segment_output_state (execution_id, stream_name, default 0 (current_segment execution_id stream_name t)) state t.

(** [render] and [feed], which the tests of the code use. *)
Definition render (execution_id stream_name : string) (t : StreamTerminals) : option string :=
  seg ← current_segment execution_id stream_name t; render_segment (execution_id, stream_name, seg) t.
Definition feed (execution_id stream_name : string) (text : bytes) (t : StreamTerminals) : StreamTerminals * string :=
  let '(t, placement) := feed_chunk execution_id stream_name text t in
  (t, default "" (render_segment (execution_id, stream_name, segment placement) t)).

End Terminals.

(** ** The flush buffer *)

(** Times are milliseconds of a monotone clock. *)
Definition STREAM_FLUSH_MAX_DELAY : Z := 75.
Definition STREAM_FLUSH_MAX_BYTES : Z := 64 * 1024.

(** A [PendingStreamFlush] names a segment. *)
Abbreviation PendingStreamFlush := SegmentKey.

Record StreamFlushEntry := mkFlushEntry { pending_bytes : Z; has_flushed : bool; last_flush : Z }.
Record StreamFlushBuffer := mkFlushBuffer { max_delay : Z; max_bytes : Z; entries : gmap SegmentKey StreamFlushEntry }.

Definition default_buffer : StreamFlushBuffer := mkFlushBuffer STREAM_FLUSH_MAX_DELAY STREAM_FLUSH_MAX_BYTES ∅.

Definition with_entries (f : gmap SegmentKey StreamFlushEntry -> gmap SegmentKey StreamFlushEntry)
    (b : StreamFlushBuffer) : StreamFlushBuffer :=
  mkFlushBuffer (max_delay b) (max_bytes b) (f (entries b)).

Definition take_key (key : SegmentKey) (now : Z) (b : StreamFlushBuffer)
    : StreamFlushBuffer * option PendingStreamFlush :=
  match entries b !! key with
  | Some _ => (with_entries (<[key := mkFlushEntry 0 true now]>) b, Some key)
  | None => (b, None)
  end.

(** [usize::saturating_add], [usize] being 64 bits wide. *)
Definition record_chunk (key : SegmentKey) (chunk_bytes now : Z) (b : StreamFlushBuffer)
    : StreamFlushBuffer * option PendingStreamFlush :=
  let entry := default (mkFlushEntry 0 false now) (entries b !! key) in
  let entry := mkFlushEntry (saturating_add_u64 (pending_bytes entry) chunk_bytes) (has_flushed entry) (last_flush entry) in
  let b := with_entries (<[key := entry]>) b in
  let delay_elapsed := has_flushed entry && (max_delay b <=? Z.max 0 (now - last_flush entry)) in
  let bytes_exceeded := max_bytes b <=? pending_bytes entry in
  if negb (has_flushed entry) || delay_elapsed || bytes_exceeded then take_key key now b else (b, None).

Definition segment_le (x y : SegmentKey) : Prop := x.2 <= y.2.
#[export] Instance segment_le_dec : RelDecision segment_le.
Proof. intros x y. unfold segment_le. apply _. Defined.

Definition execution_keys (execution_id : string) (b : StreamFlushBuffer) : list SegmentKey :=
  filter (fun k : SegmentKey => k.1.1 = execution_id) (map_to_list (entries b)).*1.

Fixpoint take_keys (ks : list SegmentKey) (now : Z) (b : StreamFlushBuffer)
    : StreamFlushBuffer * list PendingStreamFlush :=
  match ks with
  | [] => (b, [])
  | k :: ks =>
      let '(b, f) := take_key k now b in
      let '(b, fs) := take_keys ks now b in
      (b, option_list f ++ fs)
  end.

(** [flush_execution]; [order] is the order in which the hash map lists the keys of the
    execution, which is any. *)
Definition flush_execution (order : list SegmentKey) (now : Z) (b : StreamFlushBuffer)
    : StreamFlushBuffer * list PendingStreamFlush :=
  take_keys (merge_sort segment_le order) now b.

Definition take_segment (key : SegmentKey) (now : Z) (b : StreamFlushBuffer)
    : StreamFlushBuffer * option PendingStreamFlush := take_key key now b.

Definition clear_execution (execution_id : string) (b : StreamFlushBuffer) : StreamFlushBuffer :=
  with_entries (filter (fun kv => kv.1.1.1 <> execution_id)) b.

(** ** The manifest of a stream output *)

Class OutputEnv := { redact_text : string -> string; blob_hash : string -> string }.

Definition DEFAULT_INLINE_THRESHOLD : Z := 1024.
Definition PREVIEW_BYTE_CAP : Z := 8 * 1024.
Definition PREVIEW_LINE_CAP : nat := 200.

(** Text as bytes; a continuation byte of UTF-8 is no character boundary. *)
Definition is_boundary (c : Ascii.ascii) : bool := negb ((128 <=? byte_value c) && (byte_value c <? 192)).

Definition text_len (s : list Ascii.ascii) : Z := u64_of_len (length s).

(** [safe_byte_slice]: the start moves back, the end forward, to a boundary. *)
Fixpoint boundary_before (s : list Ascii.ascii) (lo : nat) : nat :=
  match lo with
  | O => O
  | S n => match s !! lo with
      | Some c => if is_boundary c then lo else boundary_before s n
      | None => lo
      end
  end.
Fixpoint boundary_after (s : list Ascii.ascii) (hi fuel : nat) : nat :=
  match fuel with
  | O => hi
  | S fuel => match s !! hi with
      | Some c => if is_boundary c then hi else boundary_after s (S hi) fuel
      | None => hi
      end
  end.
Definition safe_byte_slice (s : list Ascii.ascii) (start fin : nat) : list Ascii.ascii :=
  let lo := boundary_before s (start `min` length s) in
  let hi := boundary_after s (fin `min` length s) (length s) in
  take (hi - lo) (drop lo s).

(** [split_inclusive('\n')]. *)
Fixpoint split_inclusive (s : list Ascii.ascii) : list (list Ascii.ascii) :=
  match s with
  | [] => []
  | c :: s =>
      if decide (byte_value c = 10) then [c] :: split_inclusive s
      else match split_inclusive s with l :: ls => (c :: l) :: ls | [] => [[c]] end
  end.

(** The loop of [take_head] over the remaining lines. *)
Fixpoint head_loop (lines : list (list Ascii.ascii)) (out : list Ascii.ascii) (line_cap byte_cap : nat)
    : list Ascii.ascii :=
  match lines, line_cap with
  | [], _ | _, O => out
  | line :: lines, S line_cap =>
      if decide (byte_cap < length out + length line)%nat then
        let remaining := (byte_cap - length out)%nat in
        if decide (0 < remaining)%nat then out ++ safe_byte_slice line 0 remaining else out
      else head_loop lines (out ++ line) line_cap byte_cap
  end.

Definition take_head (text : list Ascii.ascii) (line_cap byte_cap : nat) : list Ascii.ascii :=
  let out := head_loop (split_inclusive text) [] line_cap byte_cap in
  match out, text with [], _ :: _ => safe_byte_slice text 0 byte_cap | _, _ => out end.

(** The last lines that fit, from the end of [rev_lines]: how many and their bytes. *)
Fixpoint tail_loop (rev_lines : list (list Ascii.ascii)) (total byte_cap : nat) : nat * nat :=
  match rev_lines with
  | [] => (0, total)
  | line :: rev_lines =>
      if decide (byte_cap < total + length line)%nat then (0, total)
      else let '(n, total) := tail_loop rev_lines (total + length line) byte_cap in (S n, total)
  end%nat.

(** The end of the line before them, when bytes are left. *)
Definition tail_fragment (window : list (list Ascii.ascii)) (take_from total byte_cap : nat) : list Ascii.ascii :=
  match take_from with
  | O => []
  | S previous =>
      match window !! previous with
      | Some line =>
          if decide (total < byte_cap)%nat then safe_byte_slice line (length line - (byte_cap - total)) (length line) else []
      | None => []
      end
  end.

Definition take_tail (text : list Ascii.ascii) (line_cap byte_cap : nat) : list Ascii.ascii :=
  let lines := split_inclusive text in
  let window := drop (length lines - line_cap) lines in
  let '(n, total) := tail_loop (reverse window) 0 byte_cap in
  let take_from := (length window - n)%nat in
  let out := tail_fragment window take_from total byte_cap ++ concat (drop take_from window) in
  match out, text with
  | [], _ :: _ => safe_byte_slice text (length text - byte_cap) (length text)
  | _, _ => out
  end.

Record StreamPreview := mkPreview { head : list Ascii.ascii; tail : list Ascii.ascii; total_bytes : Z; total_lines : Z }.

(** [lines().count()]: as many lines as [split_inclusive] has pieces. *)
Definition StreamPreview_from_text (text : list Ascii.ascii) : StreamPreview :=
  let cap := Z.to_nat PREVIEW_BYTE_CAP in
  let head := take_head text PREVIEW_LINE_CAP cap in
  let remainder := drop (length head) text in
  let tail := match remainder with [] => [] | _ => take_tail remainder PREVIEW_LINE_CAP cap end in
  mkPreview head tail (text_len text) (u64_of_len (length (split_inclusive text))).

Inductive ContentRef := Inline (inline : string) | Blob (blob : string) (size : Z).

Section Manifest.
Context {ENV : OutputEnv}.

(** [ContentRef::from_data], once the blob store has answered. *)
Definition from_data (data : string) (threshold : Z) : ContentRef :=
  let len := text_len (String.list_ascii_of_string data) in
  if len <? threshold then Inline data else Blob (blob_hash data) len.

Definition content_json (r : ContentRef) : json :=
  match r with
  | Inline s => JObject {["inline" := JString s]}
  | Blob h n => JObject (<["size" := JNumber (PosInt n)]> {["blob" := JString h]})
  end.

Definition preview_json (p : StreamPreview) : json :=
  let m : gmap string json :=
    <["head" := JString (String.string_of_list_ascii (head p))]>
    (<["total_bytes" := JNumber (PosInt (total_bytes p))]>
     {["total_lines" := JNumber (PosInt (total_lines p))]}) in
  JObject (match tail p with
    | [] => m
    | t => <["tail" := JString (String.string_of_list_ascii t)]> m
    end).

(** The stream branch of [create_manifest_with_redactor] and [to_json]: a new output id. *)
Definition stream_manifest (output_id name rendered_text : string) : json :=
  let text := redact_text rendered_text in
  let content := from_data text DEFAULT_INLINE_THRESHOLD in
  let m : gmap string json :=
    <["output_type" := JString "stream"]> (<["output_id" := JString output_id]>
    (<["name" := JString name]> {["text" := content_json content]})) in
  JObject (match content with
    | Inline _ => m
    | Blob _ _ => <["llm_preview" := preview_json (StreamPreview_from_text (String.list_ascii_of_string text))]> m
    end).

(** What the committer remembers of a manifest's text. *)
Definition manifest_blob_hash (rendered_text : string) : string :=
  match from_data (redact_text rendered_text) DEFAULT_INLINE_THRESHOLD with
  | Blob blob _ => blob
  | Inline inline => inline
  end.

End Manifest.

(** ** Lemmas: previews *)

Abbreviation chars8 := (list Ascii.ascii).

Lemma boundary_before_le s lo : (boundary_before s lo <= lo)%nat.
Proof. induction lo as [|n IH]; [done|]. cbn. destruct (s !! S n) as [c|]; [|done]. destruct (is_boundary c); lia. Qed.

Lemma slice_prefix s n : safe_byte_slice s 0 n `prefix_of` s.
Proof. unfold safe_byte_slice. cbn. rewrite Nat.sub_0_r. by exists (drop (boundary_after s (n `min` length s) (length s)) s); rewrite take_drop. Qed.

Lemma slice_suffix s a : safe_byte_slice s a (length s) `suffix_of` s.
Proof.
  unfold safe_byte_slice. set (lo := boundary_before s _).
  assert (boundary_after s (length s `min` length s) (length s) = length s) as ->.
  { rewrite Nat.min_id. clear. destruct (length s) as [|n] eqn:El; [done|].
    cbn. by rewrite lookup_ge_None_2 by lia. }
  rewrite take_ge by (rewrite length_drop; lia). exists (take lo s). by rewrite take_drop.
Qed.

Lemma concat_split_inclusive s : concat (split_inclusive s) = s.
Proof.
  induction s as [|c s IH]; [done|]. cbn. case_decide; [cbn; by rewrite IH|].
  destruct (split_inclusive s) as [|l ls]; cbn in *; by rewrite <- IH.
Qed.

Lemma head_loop_prefix lines out line_cap byte_cap :
  exists p, head_loop lines out line_cap byte_cap = out ++ p /\ p `prefix_of` concat lines.
Proof.
  revert out line_cap. induction lines as [|line lines IH]; intros out [|line_cap]; cbn [head_loop].
  1-3: exists []; rewrite app_nil_r; split; [done|apply list.prefix_nil].
  case_decide.
  - case_decide; [|exists []; rewrite app_nil_r; split; [done|apply list.prefix_nil]].
    exists (safe_byte_slice line 0 (byte_cap - length out)). split; [done|].
    etransitivity; [apply slice_prefix|]. by exists (concat lines).
  - destruct (IH (out ++ line) line_cap) as (p & -> & Hp). exists (line ++ p).
    rewrite app_assoc. split; [done|]. cbn. by apply prefix_app.
Qed.

Lemma head_loop_whole lines out line_cap byte_cap :
  (length lines <= line_cap)%nat -> (length out + length (concat lines) <= byte_cap)%nat ->
  head_loop lines out line_cap byte_cap = out ++ concat lines.
Proof.
  revert out line_cap. induction lines as [|line lines IH]; intros out [|line_cap] Hl Hb; cbn in *;
    rewrite ?app_nil_r; [done..|lia|].
  rewrite length_app in Hb. rewrite decide_False by lia.
  rewrite IH; rewrite ?length_app; [by rewrite app_assoc|lia..].
Qed.

Lemma take_head_prefix text line_cap byte_cap : take_head text line_cap byte_cap `prefix_of` text.
Proof.
  unfold take_head. destruct (head_loop_prefix (split_inclusive text) [] line_cap byte_cap) as (p & -> & Hp).
  rewrite concat_split_inclusive in Hp. cbn. destruct p; [|done]. destruct text; [done|apply slice_prefix].
Qed.

Lemma take_tail_suffix text line_cap byte_cap : take_tail text line_cap byte_cap `suffix_of` text.
Proof.
  unfold take_tail. set (lines := split_inclusive text). set (window := drop (length lines - line_cap) lines).
  destruct (tail_loop (reverse window) 0 byte_cap) as [n total]. set (from := (length window - n)%nat).
  assert (concat window `suffix_of` text) as Hw.
  { exists (concat (take (length lines - line_cap) lines)). subst window lines.
    by rewrite <- concat_app, take_drop, concat_split_inclusive. }
  assert (tail_fragment window from total byte_cap ++ concat (drop from window) `suffix_of` text) as Hout.
  { etransitivity; [|exact Hw]. destruct from as [|m]; cbn [tail_fragment]; [done|].
    destruct (window !! m) as [line|] eqn:El.
    - assert (concat window = concat (take m window) ++ line ++ concat (drop (S m) window)) as ->.
      { rewrite <- (take_drop_middle window m line El) at 1. by rewrite concat_app. }
      apply suffix_app_r. case_decide; [|by exists line].
      destruct (slice_suffix line (length line - (byte_cap - total))) as [k Hk].
      exists k. by rewrite app_assoc, <- Hk.
    - rewrite <- (take_drop (S m) window) at 2. rewrite concat_app. by exists (concat (take (S m) window)). }
  destruct (tail_fragment window from total byte_cap ++ concat (drop from window)); [|done]. destruct text; [done|]. apply slice_suffix.
Qed.

(** The preview of a spilled stream is its beginning and its end: head and tail never
    overlap, whatever the lines and the characters at the cuts, and a text within the
    limits of the head is the head, with no tail. *)
Theorem stream_preview_cuts_middle text :
  let p := StreamPreview_from_text text in
  (exists middle, text = head p ++ middle ++ tail p) /\
  ((length (split_inclusive text) <= PREVIEW_LINE_CAP)%nat -> text_len text <= PREVIEW_BYTE_CAP ->
   head p = text /\ tail p = []).
Proof.
  unfold StreamPreview_from_text. cbn [head tail]. set (cap := Z.to_nat PREVIEW_BYTE_CAP).
  destruct (take_head_prefix text PREVIEW_LINE_CAP cap) as [r Hr]. split.
  - assert (drop (length (take_head text PREVIEW_LINE_CAP cap)) text = r) as ->
      by (rewrite Hr at 2; apply drop_app_length).
    destruct r as [|c r]; [by exists []|].
    destruct (take_tail_suffix (c :: r) PREVIEW_LINE_CAP cap) as [m Hm]. exists m. by rewrite <- Hm.
  - intros Hl Hb. assert (take_head text PREVIEW_LINE_CAP cap = text) as ->.
    { unfold take_head. rewrite head_loop_whole; [|done|].
      - cbn. rewrite concat_split_inclusive. by destruct text.
      - cbn. rewrite concat_split_inclusive. unfold text_len, u64_of_len, PREVIEW_BYTE_CAP, u64_max in *. subst cap. lia. }
    by rewrite drop_all.
Qed.

(** ** Lemmas: stream outputs in the document *)

(** Only the outputs of one execution changed. *)
Record touches (eid : string) (d d' : RuntimeStateDoc) : Prop := {
  touches_wf : outputs_wf d';
  touches_other : forall x, x <> eid -> exec_outputs x d' = exec_outputs x d;
  touches_executions : forall x, has_execution x d' <-> has_execution x d;
}.

(** They became [l], and at most [n] positions were handed out. *)
Record lists (n : Z) (eid : string) (l : list (string * json)) (d d' : RuntimeStateDoc) : Prop := {
  lists_touches : touches eid d d';
  lists_here : output_list (exec_outputs eid d') = l;
  lists_next : next_seq (scan_output_order (exec_outputs eid d')) <= next_seq (scan_output_order (exec_outputs eid d)) + n;
}.

(** A position is left for [n] more outputs. *)
Definition room_for (n : Z) (eid : string) (d : RuntimeStateDoc) : Prop :=
  next_seq (scan_output_order (exec_outputs eid d)) + n <= u64_max.

Lemma place_all_touches eid l c d d1 :
  outputs_wf d1 -> has_execution eid d1 -> Forall (fun x : json * string => json_ok x.1 = true) l ->
  (forall x, exec_outputs x d1 = exec_outputs x d) -> (forall x, has_execution x d1 <-> has_execution x d) ->
  outputs_wf (with_cache c (place_all eid d1 l)) ->
  let d' := with_cache c (place_all eid d1 l) in
  touches eid d d' /\
  (room_for (zlen l) eid d ->
   lists (zlen l) eid (foldl (fun acc x => upsert_output acc x.2 x.1) (output_list (exec_outputs eid d)) l) d d').
Proof.
  intros Hwf Hh Hl Hx Hhx Hwf' d'. pose proof Hwf as [Ho Hc].
  assert ((forall x, x <> eid -> exec_outputs x d' = exec_outputs x d1) /\
    (forall x, has_execution x d' <-> has_execution x d1) /\
    next_seq (scan_output_order (exec_outputs eid d')) <= next_seq (scan_output_order (exec_outputs eid d1)) + zlen l)
    as (Hother & Hhas & Hnext).
  { clear Hwf' Hx Hhx Hc. subst d'.
    change (exec_outputs eid (with_cache c (place_all eid d1 l))) with (exec_outputs eid (place_all eid d1 l)).
    change (forall x, has_execution x (with_cache c (place_all eid d1 l)) <-> has_execution x d1)
      with (forall x, has_execution x (place_all eid d1 l) <-> has_execution x d1).
    change (forall x, x <> eid -> exec_outputs x (with_cache c (place_all eid d1 l)) = exec_outputs x d1)
      with (forall x, x <> eid -> exec_outputs x (place_all eid d1 l) = exec_outputs x d1).
    clear Hwf. revert d1 Hh Ho. induction Hl as [|[v oid] l Hv Hl IH]; intros d1 Hh Ho.
    { unfold zlen. cbn. split_and!; [done..|lia]. }
    destruct (place_view eid oid v d1 Ho Hh) as (Hview & _ & Hhas1).
    unfold place_all. cbn [foldl fst snd]. fold (place_all eid (place eid oid v d1) l).
    destruct (IH (place eid oid v d1)) as (H1 & H2 & H3); [by apply Hhas1|by apply place_ok|].
    split_and!.
    - intros x Hne. by rewrite H1, Hview, decide_False.
    - intros x. by rewrite H2, Hhas1.
    - rewrite Hview, decide_True in H3 by done.
      pose proof (next_seq_place (exec_outputs eid d1) oid v Hv (Ho eid)). unfold zlen in *. cbn [length]. lia. }
  assert (touches eid d d') as Ht.
  { split; [done|..]; intros x; [intros Hne; by rewrite Hother, Hx|by rewrite Hhas, Hhx]. }
  split; [done|]. intros Hroom. split; [done| |by rewrite Hx in Hnext].
  change (output_list (exec_outputs eid (place_all eid d1 l)) =
    foldl (fun acc x => upsert_output acc x.2 x.1) (output_list (exec_outputs eid d)) l).
  rewrite place_all_list; [by rewrite Hx|done..|]. by rewrite Hx.
Qed.

Lemma place_touches eid oid v c d d1 :
  outputs_wf d1 -> has_execution eid d1 -> json_ok v = true ->
  (forall x, exec_outputs x d1 = exec_outputs x d) -> (forall x, has_execution x d1 <-> has_execution x d) ->
  outputs_wf (with_cache c (place eid oid v d1)) ->
  touches eid d (with_cache c (place eid oid v d1)) /\
  (room_for 1 eid d ->
   lists 1 eid (upsert_output (output_list (exec_outputs eid d)) oid v) d (with_cache c (place eid oid v d1))).
Proof.
  intros Hwf Hh Hv Hx Hhx Hwf'.
  apply (place_all_touches eid [(v, oid)]); [done|done|by constructor|done..].
Qed.

Lemma replace_output_place eid oid v d e :
  outputs_wf d -> has_execution eid d -> json_ok v = true -> get_output_entry eid oid d = Some e ->
  replace_output eid oid v d = (place eid oid v d, Ok true) /\ outputs_wf (place eid oid v d).
Proof.
  intros Hwf Hh Hv He. unfold replace_output. rewrite He. unfold place. rewrite He. split; [done|].
  assert (write_manifest eid oid e v d = place eid oid v d) as Hp by (unfold place; by rewrite He).
  rewrite Hp. pose proof Hwf as [Ho Hc]. destruct (place_view eid oid v d Ho Hh) as (Hview & Hcache & _).
  apply (outputs_wf_update d _ eid); [done| |by apply place_ok|by rewrite Hcache|].
  - intros x Hne. by rewrite Hview, decide_False.
  - intros c. rewrite Hcache, Hview, decide_True, scan_place_output by done.
    destruct (get_output_entry_lookup eid oid d Ho) as [[_ Hg]|(e' & Hl & _)]; [congruence|]. rewrite Hl. apply Hc.
Qed.

(** What is written, and where, by what the cache knows. *)
Definition written (oid : string) (v : json) (known : option StreamOutputState) (m : stream_match) : string * json :=
  match m, known with
  | SReplace existing, Some st => (so_output_id st, patched existing v)
  | _, _ => (oid, v)
  end.

Lemma upsert_stream_place eid v oid known d :
  outputs_wf d -> json_ok v = true -> has_execution eid d -> extract_output_id v = Some oid ->
  exists d1 d' replaced,
    (forall x, exec_outputs x d1 = exec_outputs x d) /\ outputs_wf d1 /\
    let w := written oid v known (match_stream eid known d1).2 in
    upsert_stream_output eid v known d = (d', Ok (replaced, w.1)) /\ touches eid d d' /\
    (room_for 1 eid d -> lists 1 eid (upsert_output (output_list (exec_outputs eid d)) w.1 w.2) d d').
Proof.
  intros Hwf Hv Hh Hid. unfold upsert_stream_output. rewrite Hid.
  destruct (ensure_output_map_spec eid d Hwf Hh) as (d1 & Hens & Hwf1 & Hh1 & Hx & _ & Hhx & _). rewrite Hens.
  exists d1. destruct (match_stream_cache eid known d1 Hwf1) as (c & m & Hm & Hwf2). rewrite Hm.
  assert (is_Some (get_output_map eid d1)) as Hmap.
  { revert Hens. destruct Hh as [e He]. unfold ensure_output_map. rewrite He.
    destruct (e !! "outputs") as [[|o| |]|] eqn:Hoo; intros [= <-];
      try (rewrite get_output_map_put_outputs by (by exists e); rewrite decide_True by done; by eexists).
    rewrite get_output_map_entry, He. simpl. rewrite Hoo. by eexists. }
  assert (ensure_output_map eid (with_cache c d1) = Some (with_cache c d1)) as Hens2 by (by apply ensure_present).
  assert (exists d' b, match append_output eid v (with_cache c d1) with
      | (d, Err err) => (d, Err err) | (d, Ok oid) => (d, Ok (false, oid)) end = (d', Ok (b, oid)) /\
    touches eid d d' /\ (room_for 1 eid d -> lists 1 eid (upsert_output (output_list (exec_outputs eid d)) oid v) d d')) as Happ.
  { destruct (append_output_place eid v oid (with_cache c d1) (with_cache c d1)) as (c' & Hap & Hwf'); [done..|].
    rewrite Hap. rewrite place_with_cache in Hwf' |- *. do 2 eexists. split; [done|]. by apply place_touches. }
  destruct m as [| |existing], known as [st|]; cbn [snd written fst] in *;
    try (destruct Happ as (d' & b & -> & Hl); exists d', b; split; [done|]; split; [done|]; split; [done|]; exact Hl).
  assert (exists e, get_output_entry eid (so_output_id st) d1 = Some e) as [e He].
  { revert Hm. unfold match_stream. destruct (get_output_entry eid (so_output_id st) d1); [eauto|done]. }
  destruct (replace_output_place eid (so_output_id st) (patched existing v) (with_cache c d1) e) as [Hr Hwf'];
    [done|done|by apply patched_ok|done|]. rewrite Hr. rewrite place_with_cache in Hwf' |- *.
  do 2 eexists. split; [done|]. split; [done|]. split; [done|]. apply place_touches; try done. by apply patched_ok.
Qed.

(** The last output of a list is found to be the latest. *)
Lemma match_stream_last eid st existing d :
  outputs_wf d -> last (output_list (exec_outputs eid d)) = Some (so_output_id st, existing) ->
  content_id existing = Some (so_blob_hash st) ->
  (match_stream eid (Some st) d).2 = SReplace existing.
Proof.
  intros Hwf Hlast Hcid. unfold output_list in Hlast. rewrite fmap_last in Hlast.
  destruct (last (output_entries_sorted (exec_outputs eid d))) as [[[oid s] m]|] eqn:El; [|done].
  injection Hlast as Hoid Hmm. cbn in Hoid, Hmm. subst oid m.
  assert ((so_output_id st, s, existing) ∈ output_entries_sorted (exec_outputs eid d)) as Hin
    by (apply list_elem_of_lookup; rewrite last_lookup in El; eauto).
  apply elem_of_rows in Hin as (n & Hn & Hrow). cbn in Hn.
  unfold match_stream. destruct (get_output_entry_lookup eid (so_output_id st) d (wf_outputs _ Hwf))
    as [[Hno _]|(e & He & Hg)]; [congruence|]. rewrite Hg. rewrite He in Hn. injection Hn as <-.
  revert Hrow. unfold output_row. destruct (read_output_seq (NMap e)) as [s'|] eqn:Hs; [|done].
  destruct (read_output_manifest (NMap e)) as [m'|] eqn:Hm; cbn; [|done]. intros [= -> ->].
  unfold output_is_latest. rewrite Hs. destruct (output_order_spec eid d Hwf) as (c & -> & _).
  unfold scan_output_order. rewrite El. cbn [latest_seq]. rewrite bool_decide_eq_true_2 by done.
  cbv beta iota zeta. by rewrite decide_True.
Qed.

(** The two cases a committer that is in step with the document meets. *)
Lemma upsert_new eid v oid d :
  outputs_wf d -> json_ok v = true -> has_execution eid d -> extract_output_id v = Some oid ->
  oid ∉ (output_list (exec_outputs eid d)).*1 ->
  room_for 1 eid d ->
  exists d' b, upsert_stream_output eid v None d = (d', Ok (b, oid)) /\
    lists 1 eid (output_list (exec_outputs eid d) ++ [(oid, v)]) d d'.
Proof.
  intros Hwf Hv Hh Hid Hf Hroom.
  destruct (upsert_stream_place eid v oid None d) as (d1 & d' & b & _ & _ & Hu & _ & Hl); [done..|].
  specialize (Hl Hroom). exists d', b. cbn in Hu, Hl. unfold upsert_output in Hl. by rewrite decide_False in Hl.
Qed.

Lemma upsert_last eid v oid st l existing d :
  outputs_wf d -> json_ok v = true -> has_execution eid d -> extract_output_id v = Some oid ->
  output_list (exec_outputs eid d) = l ++ [(so_output_id st, existing)] -> NoDup (l ++ [(so_output_id st, existing)]).*1 ->
  content_id existing = Some (so_blob_hash st) ->
  room_for 1 eid d ->
  exists d' b, upsert_stream_output eid v (Some st) d = (d', Ok (b, so_output_id st)) /\
    lists 1 eid (l ++ [(so_output_id st, patched existing v)]) d d'.
Proof.
  intros Hwf Hv Hh Hid Hl Hnd Hc Hroom.
  destruct (upsert_stream_place eid v oid (Some st) d) as (d1 & d' & b & Hx & Hwf1 & Hu & _ & Hli); [done..|]. specialize (Hli Hroom).
  pose proof (match_stream_last eid st existing d1 Hwf1) as Hm. rewrite Hx, Hl, last_snoc in Hm.
  rewrite Hm in Hu, Hli by done.
  exists d', b. split; [done|]. cbn in Hli. rewrite Hl in Hli.
  assert (upsert_output (l ++ [(so_output_id st, existing)]) (so_output_id st) (patched existing v) =
    l ++ [(so_output_id st, patched existing v)]) as <-; [|done].
  unfold upsert_output. rewrite decide_True by (rewrite fmap_app; set_solver).
  rewrite fmap_app. cbn. rewrite decide_True by done. f_equal.
  rewrite fmap_app, NoDup_app in Hnd. destruct Hnd as (_ & Hnin & _).
  clear -Hnin. induction l as [|x l IH]; [done|]. cbn in *. rewrite IH by set_solver.
  rewrite decide_False; [done|]. intros E. apply (Hnin x.1); [set_solver|]. rewrite E. set_solver.
Qed.

(** An execution that is not there is not written. *)
Lemma upsert_touches eid v known d :
  outputs_wf d -> json_ok v = true -> touches eid d (upsert_stream_output eid v known d).1.
Proof.
  intros Hwf Hv. assert (touches eid d d) as Hsame by (by split).
  destruct (extract_output_id v) as [oid|] eqn:Hid; [|unfold upsert_stream_output; by rewrite Hid].
  destruct (has_or_not eid d) as [Hh|Hno]; [|unfold upsert_stream_output; by rewrite Hid, Hno].
  destruct (upsert_stream_place eid v oid known d) as (d1 & d' & b & _ & _ & Hu & Ht & _); [done..|]. by rewrite Hu.
Qed.

(** A batch of new outputs. *)
Lemma append_outputs_touches eid ms ids d :
  outputs_wf d -> Forall (fun v => json_ok v = true) ms -> extract_output_ids ms = Ok ids ->
  exists d', append_outputs eid ms d = (d', Ok ids) /\ touches eid d d' /\
    (has_execution eid d -> room_for (zlen ms) eid d ->
     NoDup ids -> (forall oid, oid ∈ ids -> oid ∉ (output_list (exec_outputs eid d)).*1) ->
     lists (zlen ms) eid (output_list (exec_outputs eid d) ++ zip ids ms) d d').
Proof.
  intros Hwf Hms Hids. destruct (has_or_not eid d) as [Hh|Hno].
  - destruct (ensure_output_map_spec eid d Hwf Hh) as (d1 & Hens & Hwf1 & Hh1 & Hx & _ & Hhx & _).
    assert (is_Some (get_output_map eid d1)) as Hmap.
    { revert Hens. destruct Hh as [e He]. unfold ensure_output_map. rewrite He.
      destruct (e !! "outputs") as [[|o| |]|] eqn:Hoo; intros [= <-];
        try (rewrite get_output_map_put_outputs by (by exists e); rewrite decide_True by done; by eexists).
      rewrite get_output_map_entry, He. simpl. rewrite Hoo. by eexists. }
    assert (append_outputs eid ms d = append_outputs eid ms d1) as ->.
    { unfold append_outputs. by rewrite Hids, Hens, (ensure_present _ _ Hmap). }
    destruct (append_outputs_place eid ms ids d1) as (c & -> & Hwf'); [done..|].
    destruct (place_all_touches eid (zip ms ids) c d d1) as [Ht Hl]; [done|done|by apply Forall_zip_json|done..|].
    eexists. split; [done|]. split; [done|]. intros _ Hroom Hnd Hf.
    assert (length ms = length ids) as Hlen by (by eapply Forall2_length, extract_output_ids_spec).
    assert (zlen (zip ms ids) = zlen ms) as Hz by (unfold zlen; rewrite length_zip; lia).
    rewrite Hz in Hl. specialize (Hl Hroom). assert (foldl (fun acc x => upsert_output acc x.2 x.1)
      (output_list (exec_outputs eid d)) (zip ms ids) = output_list (exec_outputs eid d) ++ zip ids ms) as <-; [|done].
    clear -Hnd Hf Hlen. revert ms Hlen Hf. generalize (output_list (exec_outputs eid d)) as l. induction Hnd as [|oid ids Hnin Hnd IH];
      intros l [|m ms] Hlen Hf; try done; cbn; [by rewrite app_nil_r|].
    unfold upsert_output at 2. cbn. rewrite decide_False by (apply Hf; by left).
    rewrite IH; [by rewrite <- app_assoc|by injection Hlen|].
    intros x Hx. rewrite fmap_app, not_elem_of_app. split; [apply Hf; by right|]. cbn. set_solver.
  - exists d. unfold append_outputs. rewrite Hids, Hno. split; [done|]. split; [by split|].
    intros [e He] _ _ _. exfalso. revert Hno. unfold ensure_output_map. rewrite He. by destruct (e !! "outputs") as [[]|].
Qed.
