(* ===== verification/OutputPipeline.v ===== *)
(** * The output pipeline of a kernel

    Model of how the messages of a kernel become outputs in the runtime state document:
    the arms of the IOPub reader of [runtimed/src/jupyter_kernel.rs] for streams, ordinary
    outputs and idle, the stream committer ([stream_committer.rs]) and the ordinary output
    committer ([output_committer.rs]).  The three are tasks that run in parallel; every
    section between two awaits, and every section under the lock of the terminals, is one
    step, and any interleaving of steps is a run.  The step that publishes a manifest or
    writes the document has an outcome that the schedule supplies. *)

From S2P Require Import Prelude Kernel Automunge RuntimeDoc RuntimeOutputs Text TerminalText StreamSegments.

(** ** Signals and ordinary outputs *)

Inductive LifecycleSignal :=
| ExecutionDone (execution_id : string)
| KernelIdle (execution_id : option string)
| CellError (execution_id : string)
| KernelDied.

#[export] Instance LifecycleSignal_eq_dec : EqDecision LifecycleSignal.
Proof. solve_decision. Defined.

Inductive OrdinaryOutputKind := DisplayData | ExecuteResult | ErrorOutput.
#[export] Instance OrdinaryOutputKind_eq_dec : EqDecision OrdinaryOutputKind.
Proof. solve_decision. Defined.

Definition kind_label (k : OrdinaryOutputKind) : string :=
  match k with DisplayData | ExecuteResult => "output" | ErrorOutput => "error" end.

(** The buffers only matter to the blob store. *)
Record OrdinaryOutputCommit := mkOutput { out_execution_id : string; nbformat_value : json; out_kind : OrdinaryOutputKind }.

(** How the manifest of an ordinary output is built and redacted ([output_store.rs],
    [output_redaction.rs]) is outside this model. *)
Class OutputManifests := {
  make_manifest : OrdinaryOutputCommit -> string -> json;
  redact_output_value : json -> json;
}.

(** What preparing an output comes to: a published manifest with a new id, a blob that
    could not be published, a manifest that could not be created. *)
Inductive Prepared := Created (output_id : string) | PublishFailed (error : string) | CreateFailed (output_id : string).

Definition blob_publish_failure_output (kind error : string) : json :=
  let message := ("Unable to publish " +:+ kind +:+ " blob before syncing output: " +:+ error)%string in
  JObject (<["output_type" := JString "error"]> (<["ename" := JString "OutputBlobPublishError"]>
    (<["evalue" := JString message]> {["traceback" := JArray [JString message]]}))).

Definition fallback_output_with_id (output : json) (new_id : string) : json :=
  match output with
  | JObject m =>
      let needs_id := match json_get output "output_id" ≫= json_str with
        | Some s => bool_decide (s = "")
        | None => true
        end in
      if needs_id then JObject (<["output_id" := JString new_id]> m) else output
  | _ => output
  end.

(** ** State *)

Definition STREAM_COMMITTER_QUEUE_CAPACITY : nat := 32.
Definition OUTPUT_COMMITTER_QUEUE_CAPACITY : nat := 2048.
Definition OUTPUT_COMMIT_BATCH_SIZE : nat := 128.

(** The [output] field of a [PriorityOutputRequest] is never set. *)
Record PriorityStreamCommit := mkPriority {
  pr_flushes : list PendingStreamFlush; pr_signal : option LifecycleSignal; pr_ack : bool;
}.
Record PriorityOutputRequest := mkRequest { or_signal : option LifecycleSignal; or_ack : bool }.

(** Where the stream committer is: before polling the priority queue, between the two
    polls, before a flush of its job, waiting for a manifest to be published, after the
    write to the document. *)
Inductive StreamCommitter :=
| PollPriority
| PollPeriodic
| Starting (job : PriorityStreamCommit)
| Rendered (job : PriorityStreamCommit) (flush : PendingStreamFlush) (known : option StreamOutputState) (text : string)
| Written (job : PriorityStreamCommit) (flush : PendingStreamFlush) (state : StreamOutputState).

(** The same of the output committer; a batch is collected for itself or for a request
    that drains the queue. *)
Inductive OutputCommitter :=
| PollRequests
| PollOutputs
| Collecting (batch : list OrdinaryOutputCommit) (request : option PriorityOutputRequest)
| Preparing (batch : list OrdinaryOutputCommit) (request : option PriorityOutputRequest).

(** Where the reader is in an arm. *)
Inductive ReaderAt :=
| AtRead
| WaitOutputs (eid name : string) (text : bytes)
| AtFeed (eid name : string) (text : bytes)
| AtSeal (eid name : string) (len : Z) (placement : StreamChunkPlacement)
| AtRecord (eid name : string) (len seg : Z)
| WaitBoundary (out : OrdinaryOutputCommit) (is_error : bool)
| AtClear (out : OrdinaryOutputCommit) (is_error : bool)
| AtEnqueue (out : OrdinaryOutputCommit) (is_error : bool)
| AtSignal (eid : string)
| WaitDrain (eid : string) (final : list PendingStreamFlush)
| AtFinish (eid : string) (final : list PendingStreamFlush)
| AtRequest (final : list PendingStreamFlush).

Inductive IopubMessage :=
| StreamContent (eid name : string) (text : bytes)
| OutputContent (eid : string) (kind : OrdinaryOutputKind) (value : json) (is_rich_error : bool)
| StatusIdle (eid : option string).

Record Reader := mkReader { stream_flushes : StreamFlushBuffer; stream_awaits_ordinary_outputs : bool; at_point : ReaderAt }.
Record StreamQueues := mkStreams {
  periodic : list PendingStreamFlush; priority : list PriorityStreamCommit;
  committing : StreamCommitter; stream_ack : bool;
}.
Record OutputQueues := mkOutputs {
  output_queue : list OrdinaryOutputCommit; requests : list PriorityOutputRequest;
  batching : OutputCommitter; output_ack : bool;
}.

Section Pipeline.
Context {EM : Emulator} {ENV : OutputEnv} {OM : OutputManifests}.

Record Pipeline := mkPipeline {
  reader : Reader; streams : StreamQueues; outputs : OutputQueues;
  stream_terminals : StreamTerminals; doc : RuntimeStateDoc; sent : list LifecycleSignal;
}.

Definition start (d : RuntimeStateDoc) : Pipeline :=
  mkPipeline (mkReader default_buffer false AtRead) (mkStreams [] [] PollPriority false)
    (mkOutputs [] [] PollRequests false) new_terminals d [].

Definition with_reader (f : Reader -> Reader) (p : Pipeline) : Pipeline :=
  mkPipeline (f (reader p)) (streams p) (outputs p) (stream_terminals p) (doc p) (sent p).
Definition with_streams (f : StreamQueues -> StreamQueues) (p : Pipeline) : Pipeline :=
  mkPipeline (reader p) (f (streams p)) (outputs p) (stream_terminals p) (doc p) (sent p).
Definition with_outputs (f : OutputQueues -> OutputQueues) (p : Pipeline) : Pipeline :=
  mkPipeline (reader p) (streams p) (f (outputs p)) (stream_terminals p) (doc p) (sent p).
Definition with_terminals (f : StreamTerminals -> StreamTerminals) (p : Pipeline) : Pipeline :=
  mkPipeline (reader p) (streams p) (outputs p) (f (stream_terminals p)) (doc p) (sent p).
Definition with_document (f : RuntimeStateDoc -> RuntimeStateDoc) (p : Pipeline) : Pipeline :=
  mkPipeline (reader p) (streams p) (outputs p) (stream_terminals p) (f (doc p)) (sent p).
Definition send_signal (s : LifecycleSignal) (p : Pipeline) : Pipeline :=
  mkPipeline (reader p) (streams p) (outputs p) (stream_terminals p) (doc p) (sent p ++ [s]).
Definition send_optional (s : option LifecycleSignal) (p : Pipeline) : Pipeline :=
  match s with Some s => send_signal s p | None => p end.

Definition go_to (a : ReaderAt) (p : Pipeline) : Pipeline :=
  with_reader (fun r => mkReader (stream_flushes r) (stream_awaits_ordinary_outputs r) a) p.
Definition set_flushes (b : StreamFlushBuffer) (p : Pipeline) : Pipeline :=
  with_reader (fun r => mkReader b (stream_awaits_ordinary_outputs r) (at_point r)) p.
Definition set_awaits (b : bool) (p : Pipeline) : Pipeline :=
  with_reader (fun r => mkReader (stream_flushes r) b (at_point r)) p.

Definition commit_at (c : StreamCommitter) (p : Pipeline) : Pipeline :=
  with_streams (fun s => mkStreams (periodic s) (priority s) c (stream_ack s)) p.
Definition set_stream_ack (b : bool) (p : Pipeline) : Pipeline :=
  with_streams (fun s => mkStreams (periodic s) (priority s) (committing s) b) p.
Definition send_priority (r : PriorityStreamCommit) (p : Pipeline) : Pipeline :=
  with_streams (fun s => mkStreams (periodic s) (priority s ++ [r]) (committing s) (stream_ack s)) p.
Definition set_priority (l : list PriorityStreamCommit) (p : Pipeline) : Pipeline :=
  with_streams (fun s => mkStreams (periodic s) l (committing s) (stream_ack s)) p.
Definition set_periodic (l : list PendingStreamFlush) (p : Pipeline) : Pipeline :=
  with_streams (fun s => mkStreams l (priority s) (committing s) (stream_ack s)) p.

Definition batch_at (c : OutputCommitter) (p : Pipeline) : Pipeline :=
  with_outputs (fun s => mkOutputs (output_queue s) (requests s) c (output_ack s)) p.
Definition set_output_ack (b : bool) (p : Pipeline) : Pipeline :=
  with_outputs (fun s => mkOutputs (output_queue s) (requests s) (batching s) b) p.
Definition send_request (r : PriorityOutputRequest) (p : Pipeline) : Pipeline :=
  with_outputs (fun s => mkOutputs (output_queue s) (requests s ++ [r]) (batching s) (output_ack s)) p.
Definition set_requests (l : list PriorityOutputRequest) (p : Pipeline) : Pipeline :=
  with_outputs (fun s => mkOutputs (output_queue s) l (batching s) (output_ack s)) p.
Definition set_output_queue (l : list OrdinaryOutputCommit) (p : Pipeline) : Pipeline :=
  with_outputs (fun s => mkOutputs l (requests s) (batching s) (output_ack s)) p.

(** ** Handles: what the reader asks of the committers *)

(** [StreamCommitterHandle::request_flush]: dropped when the queue is full. *)
Definition request_flush (f : PendingStreamFlush) (p : Pipeline) : Pipeline :=
  if decide (length (periodic (streams p)) < STREAM_COMMITTER_QUEUE_CAPACITY)%nat
  then set_periodic (periodic (streams p) ++ [f]) p else p.

Definition request_ordered_flush (f : PendingStreamFlush) (p : Pipeline) : Pipeline :=
  send_priority (mkPriority [f] None false) p.

Definition flush_then_signal (fs : list PendingStreamFlush) (s : LifecycleSignal) (p : Pipeline) : Pipeline :=
  send_priority (mkPriority fs (Some s) false) p.

(** The request of [StreamCommitterHandle::flush_for_ordering]; the reader then waits. *)
Definition ask_stream_order (fs : list PendingStreamFlush) (p : Pipeline) : Pipeline :=
  send_priority (mkPriority fs None true) (set_stream_ack false p).

(** The request of [OutputCommitterHandle::flush_for_ordering]. *)
Definition ask_output_order (p : Pipeline) : Pipeline :=
  send_request (mkRequest None true) (set_output_ack false p).

Definition output_flush_then_signal (s : LifecycleSignal) (p : Pipeline) : Pipeline :=
  send_request (mkRequest (Some s) false) p.

(** ** The reader *)

(** [order]: how the hash map of the flush buffer lists the keys of the execution. *)
Definition boundary_flushes (eid : string) (order : list SegmentKey) (now : Z) (p : Pipeline)
    : Pipeline * list PendingStreamFlush :=
  let '(b, fs) := flush_execution order now (stream_flushes (reader p)) in
  (set_flushes (clear_execution eid b) p, fs).

Definition order_ok (eid : string) (order : list SegmentKey) (p : Pipeline) : bool :=
  bool_decide (order ≡ₚ execution_keys eid (stream_flushes (reader p))).

(** The arms up to their first await. *)
Definition read_stream (eid name : string) (text : bytes) (is_registered : bool) (p : Pipeline) : option Pipeline :=
  if negb is_registered then Some p
  else if stream_awaits_ordinary_outputs (reader p)
  then Some (go_to (WaitOutputs eid name text) (ask_output_order p))
  else Some (go_to (AtFeed eid name text) p).

Definition read_output (eid : string) (kind : OrdinaryOutputKind) (value : json) (is_rich_error is_registered : bool)
    (order : list SegmentKey) (now : Z) (p : Pipeline) : option Pipeline :=
  if negb is_registered then Some p
  else if order_ok eid order p then
    let '(p, fs) := boundary_flushes eid order now p in
    let is_error := is_rich_error || bool_decide (kind = ErrorOutput) in
    let out := mkOutput eid value (if is_rich_error then ErrorOutput else kind) in
    match fs with
    | [] => Some (go_to (AtClear out is_error) p)
    | _ => Some (go_to (WaitBoundary out is_error) (ask_stream_order fs p))
    end
  else None.

Definition read_idle (execution_id : option string) (is_registered : bool) (order : list SegmentKey) (now : Z)
    (p : Pipeline) : option Pipeline :=
  let '(p, fs, ok) := match execution_id with
    | Some eid => (boundary_flushes eid order now p, order_ok eid order p)
    | None => (p, [], true)
    end in
  if ok then
    let p := send_signal (KernelIdle execution_id) p in
    match execution_id, is_registered with
    | Some eid, true => Some (go_to (WaitDrain eid fs) (ask_output_order p))
    | _, _ => Some (go_to (AtRequest fs) p)
    end
  else None.

Definition read (m : IopubMessage) (is_registered : bool) (order : list SegmentKey) (now : Z) (p : Pipeline)
    : option Pipeline :=
  match m with
  | StreamContent eid name text => read_stream eid name text is_registered p
  | OutputContent eid kind value is_rich_error => read_output eid kind value is_rich_error is_registered order now p
  | StatusIdle execution_id => read_idle execution_id is_registered order now p
  end.

(** The rest of the arms. *)
Definition read_on (now : Z) (p : Pipeline) : option Pipeline :=
  match at_point (reader p) with
  | AtRead => None
  | WaitOutputs eid name text =>
      if output_ack (outputs p) then Some (go_to (AtFeed eid name text) (set_awaits false p)) else None
  | AtFeed eid name text =>
      let '(t, placement) := feed_chunk eid name text (stream_terminals p) in
      let p := with_terminals (fun _ => t) p in
      Some (match sealed placement with
        | Some _ => go_to (AtSeal eid name (zlen text) placement) p
        | None => go_to (AtRecord eid name (zlen text) (segment placement)) p
        end)
  | AtSeal eid name len placement =>
      let p := go_to (AtRecord eid name len (segment placement)) p in
      match sealed placement with
      | Some s =>
          let '(b, f) := take_segment (eid, sealed_stream_name s, sealed_segment s) now (stream_flushes (reader p)) in
          let p := set_flushes b p in
          Some (match f with Some f => request_ordered_flush f p | None => p end)
      | None => Some p
      end
  | AtRecord eid name len seg =>
      let '(b, f) := record_chunk (eid, name, seg) len now (stream_flushes (reader p)) in
      let p := go_to AtRead (set_flushes b p) in
      Some (match f with Some f => request_flush f p | None => p end)
  | WaitBoundary out is_error => if stream_ack (streams p) then Some (go_to (AtClear out is_error) p) else None
  | AtClear out is_error =>
      Some (go_to (AtEnqueue out is_error) (with_terminals (clear (out_execution_id out)) p))
  | AtEnqueue out is_error =>
      if decide (length (output_queue (outputs p)) < OUTPUT_COMMITTER_QUEUE_CAPACITY)%nat then
        let p := set_awaits true (set_output_queue (output_queue (outputs p) ++ [out]) p) in
        Some (go_to (if is_error then AtSignal (out_execution_id out) else AtRead) p)
      else None
  | AtSignal eid => Some (go_to AtRead (output_flush_then_signal (CellError eid) p))
  | WaitDrain eid fs => if output_ack (outputs p) then Some (go_to (AtFinish eid fs) p) else None
  | AtFinish eid fs => Some (go_to AtRead (flush_then_signal fs (ExecutionDone eid) p))
  | AtRequest [] => Some (go_to AtRead p)
  | AtRequest (f :: fs) => Some (go_to (AtRequest fs) (request_flush f p))
  end.

(** ** The stream committer *)

(** [transact_at_current_heads]: an error leaves the document as it was. *)
Definition transact {A} (m : DocM A) (d : RuntimeStateDoc) : RuntimeStateDoc * result RuntimeStateError A :=
  match m d with (d', Ok a) => (d', Ok a) | (_, Err e) => (d, Err e) end.

(** What becomes of a rendered flush: no manifest is published, Automerge fails, or the
    manifest with a new id is written. *)
Inductive FlushOutcome := Unpublished | WriteFails | Published (output_id : string).

Definition pop_flush (job : PriorityStreamCommit) (rest : list PendingStreamFlush) : PriorityStreamCommit :=
  mkPriority rest (pr_signal job) (pr_ack job).

Definition commit_on (outcome : FlushOutcome) (p : Pipeline) : Pipeline :=
  match committing (streams p) with
  | PollPriority =>
      match priority (streams p) with
      | [] => commit_at PollPeriodic p
      | r :: rs => commit_at (Starting r) (set_priority rs p)
      end
  | PollPeriodic =>
      match periodic (streams p) with
      | [] => commit_at PollPriority p
      | f :: fs => commit_at (Starting (mkPriority [f] None false)) (set_periodic fs p)
      end
  | Starting job =>
      match pr_flushes job with
      | f :: rest =>
          if has_segment f (stream_terminals p) then
            commit_at (Rendered (pop_flush job rest) f (get_segment_output_state f (stream_terminals p))
              (default "" (render_segment f (stream_terminals p)))) p
          else commit_at (Starting (pop_flush job rest)) p
      | [] =>
          let p := send_optional (pr_signal job) p in
          commit_at PollPriority (if pr_ack job then set_stream_ack true p else p)
      end
  | Rendered job f known text =>
      match outcome with
      | Unpublished | WriteFails => commit_at (Starting job) p
      | Published output_id =>
          match transact (upsert_stream_output f.1.1 (stream_manifest output_id f.1.2 text) known) (doc p) with
          | (d, Ok (_, oid)) =>
              commit_at (Written job f (mkStreamState oid (manifest_blob_hash text))) (with_document (fun _ => d) p)
          | (_, Err _) => commit_at (Starting job) p
          end
      end
  | Written job f state =>
      commit_at (Starting job)
        (with_terminals (fun t => retire_segment f (set_segment_output_state f state t)) p)
  end.

(** ** The output committer *)

Definition prepare_output (out : OrdinaryOutputCommit) (outcome : Prepared) : json :=
  match outcome with
  | Created output_id => make_manifest out output_id
  | PublishFailed error => blob_publish_failure_output (kind_label (out_kind out)) error
  | CreateFailed output_id => fallback_output_with_id (redact_output_value (nbformat_value out)) output_id
  end.

(** Consecutive outputs of one execution. *)
Fixpoint execution_runs (l : list (string * json)) : list (string * list json) :=
  match l with
  | [] => []
  | (eid, m) :: l =>
      match execution_runs l with
      | (eid', ms) :: rs => if decide (eid = eid') then (eid, m :: ms) :: rs else (eid, [m]) :: (eid', ms) :: rs
      | [] => [(eid, [m])]
      end
  end.

Fixpoint append_runs (rs : list (string * list json)) : DocM unit := fun d =>
  match rs with
  | [] => (d, Ok tt)
  | (eid, ms) :: rs =>
      match append_outputs eid ms d with
      | (d, Ok _) => append_runs rs d
      | (d, Err e) => (d, Err e)
      end
  end.

Definition commit_output_batch (batch : list OrdinaryOutputCommit) (prepared : list Prepared) (d : RuntimeStateDoc)
    : RuntimeStateDoc :=
  (transact (append_runs (execution_runs
     (zip_with (fun o x => (out_execution_id o, prepare_output o x)) batch prepared))) d).1.

(** [None]: the transaction fails in Automerge. *)
Definition batch_on (outcome : option (list Prepared)) (p : Pipeline) : option Pipeline :=
  match batching (outputs p) with
  | PollRequests =>
      match requests (outputs p) with
      | [] => Some (batch_at PollOutputs p)
      | r :: rs => Some (batch_at (Collecting [] (Some r)) (set_requests rs p))
      end
  | PollOutputs =>
      match output_queue (outputs p) with
      | [] => Some (batch_at PollRequests p)
      | o :: os => Some (batch_at (Collecting [o] None) (set_output_queue os p))
      end
  | Collecting batch request =>
      if decide (length batch < OUTPUT_COMMIT_BATCH_SIZE)%nat then
        match output_queue (outputs p) with
        | o :: os => Some (batch_at (Collecting (batch ++ [o]) request) (set_output_queue os p))
        | [] => Some (batch_at (Preparing batch request) p)
        end
      else Some (batch_at (Preparing batch request) p)
  | Preparing [] None => Some (batch_at PollRequests p)
  | Preparing [] (Some r) =>
      let p := send_optional (or_signal r) p in
      Some (batch_at PollRequests (if or_ack r then set_output_ack true p else p))
  | Preparing batch request =>
      let next := match request with Some _ => Collecting [] request | None => PollRequests end in
      match outcome with
      | None => Some (batch_at next p)
      | Some prepared =>
          if decide (length prepared = length batch)
          then Some (batch_at next (with_document (commit_output_batch batch prepared) p))
          else None
      end
  end.

(** ** Runs *)

Inductive step :=
| Read (m : IopubMessage) (is_registered : bool) (order : list SegmentKey) (now : Z)
| ReadOn (now : Z)
| CommitOn (outcome : FlushOutcome)
| BatchOn (outcome : option (list Prepared)).

Definition pstep (s : step) (p : Pipeline) : option Pipeline :=
  match s with
  | Read m is_registered order now =>
      match at_point (reader p) with AtRead => read m is_registered order now p | _ => None end
  | ReadOn now => read_on now p
  | CommitOn outcome => Some (commit_on outcome p)
  | BatchOn outcome => batch_on outcome p
  end.

Fixpoint prun (ss : list step) (p : Pipeline) : option Pipeline :=
  match ss with
  | [] => Some p
  | s :: ss => p' ← pstep s p; prun ss p'
  end.

End Pipeline.
