(* ===== verification/OutputSpec.v ===== *)
(** * What the output pipeline should do

    The outputs of one execution as nbformat has them, what a schedule of the pipeline of
    [OutputPipeline] must respect, and the lemmas about the parts of the pipeline that one
    execution sees: the manifests of its streams, its terminals, the flushes that wait. *)

From S2P Require Import Prelude Kernel Automunge RuntimeDoc RuntimeOutputs Text TerminalText StreamSegments OutputPipeline.

(** ** What should be shown *)

Inductive Item := Chunk (name : string) (text : bytes) | Output (out : OrdinaryOutputCommit).
Inductive Shown := Segment (name : string) (text : bytes) | Ordinary (out : OrdinaryOutputCommit).

(** nbformat's rule: text of the stream that wrote last is joined to it. *)
Definition add_item (acc : list Shown) (i : Item) : list Shown :=
  match i, acc with
  | Chunk name text, Segment name' text' :: rest =>
      if decide (name = name') then Segment name (text' ++ text) :: rest else Segment name text :: acc
  | Chunk name text, _ => Segment name text :: acc
  | Output out, _ => Ordinary out :: acc
  end.
Definition coalesce (items : list Item) : list Shown := reverse (foldl add_item [] items).

(** The messages of an execution that are outputs. *)
Definition message_item (eid : string) (m : IopubMessage) : list Item :=
  match m with
  | StreamContent e name text => if decide (e = eid) then [Chunk name text] else []
  | OutputContent e kind value is_rich_error =>
      if decide (e = eid) then [Output (mkOutput e value (if is_rich_error then ErrorOutput else kind))] else []
  | StatusIdle _ => []
  end.
Definition step_items (eid : string) (s : step) : list Item :=
  match s with Read m _ _ _ => message_item eid m | _ => [] end.
Definition items (eid : string) (ss : list step) : list Item := ss ≫= step_items eid.

(** ** What the schedule must respect *)

Definition about (eid : string) (m : IopubMessage) : Prop :=
  match m with
  | StreamContent e _ _ | OutputContent e _ _ _ => e = eid
  | StatusIdle e => e = Some eid
  end.
#[export] Instance about_dec eid m : Decision (about eid m).
Proof. destruct m; cbn; apply _. Defined.

(** The messages of a registered execution end with its idle status, as the protocol of
    Jupyter kernels has it. *)
Fixpoint well_behaved (eid : string) (ended : bool) (ss : list step) : Prop :=
  match ss with
  | [] => True
  | Read m is_registered _ _ :: ss =>
      if decide (about eid m)
      then is_registered = true /\ ended = false /\
        well_behaved eid (match m with StatusIdle _ => true | _ => false end) ss
      else well_behaved eid ended ss
  | _ :: ss => well_behaved eid ended ss
  end.

Definition of_exec (eid : string) (f : PendingStreamFlush) : Prop := f.1.1 = eid.
#[export] Instance of_exec_dec eid f : Decision (of_exec eid f).
Proof. unfold of_exec. apply _. Defined.

Definition in_flight (c : StreamCommitter) : option PendingStreamFlush :=
  match c with Rendered _ f _ _ | Written _ f _ => Some f | _ => None end.
Definition job_of (c : StreamCommitter) : option PriorityStreamCommit :=
  match c with Starting job | Rendered job _ _ _ | Written job _ _ => Some job | _ => None end.

(** A segment and the text that went to it. *)
Abbreviation SegText := (SegmentKey * bytes)%type.

Section Order.
Context {EM : Emulator} {ENV : OutputEnv} {OM : OutputManifests}.

Definition jobs (s : StreamQueues) : list PriorityStreamCommit := option_list (job_of (committing s)) ++ priority s.
Definition waiting (s : StreamQueues) : list PendingStreamFlush := jobs s ≫= pr_flushes.

Definition output_ids (eid : string) (d : RuntimeStateDoc) : list string := (output_list (exec_outputs eid d)).*1.

(** The four windows, and no failures.  (1) When the first chunk after a display clears
    the way, no flush from before the display is waiting.  (2) When a stream is sealed, none
    of its text is being written.  (3) When the terminals are cleared, nothing of the
    execution is being written.  (4) A periodic flush is taken only when no ordered flush
    waits, which two polls of two queues do not ensure. *)
Definition all_of {A} (o : option A) (P : A -> Prop) : Prop := forall x, o = Some x -> P x.
Definition some_of {A} (o : option A) (P : A -> Prop) : Prop := exists x, o = Some x /\ P x.

Definition calm_feed (eid name : string) (p : Pipeline) : Prop :=
  match last_stream (stream_terminals p) !! eid with
  | None => Forall (fun f => ~ of_exec eid f) (periodic (streams p) ++ waiting (streams p))
  | Some previous => previous <> name -> all_of (in_flight (committing (streams p))) (fun f => f.1 <> (eid, previous))
  end.

Definition fresh_id (eid : string) (p : Pipeline) (oid : string) : Prop :=
  oid <> "" /\ oid ∉ output_ids eid (doc p).

Definition published (o : FlushOutcome) : option string := match o with Published oid => Some oid | _ => None end.
Definition created (o : option (list Prepared)) : option (list string) :=
  o ≫= mapM (fun x => match x with Created oid => Some oid | _ => None end).

Definition calm (eid : string) (s : step) (p : Pipeline) : Prop :=
  match s with
  | Read _ _ _ _ => True
  | ReadOn _ =>
      match at_point (reader p) with
      | AtFeed e name _ => e = eid -> calm_feed eid name p
      | AtClear out _ => out_execution_id out = eid -> all_of (in_flight (committing (streams p))) (fun f => ~ of_exec eid f)
      | _ => True
      end
  | CommitOn outcome =>
      match committing (streams p) with
      | PollPeriodic => periodic (streams p) <> [] -> priority (streams p) = []
      | Rendered _ f _ _ => of_exec eid f -> some_of (published outcome) (fresh_id eid p)
      | _ => True
      end
  | BatchOn outcome =>
      match batching (outputs p) with
      | Preparing batch _ =>
          Exists (fun o => out_execution_id o = eid) batch ->
          some_of (created outcome) (fun ids => NoDup ids /\ Forall (fresh_id eid p) ids)
      | _ => True
      end
  end.

Fixpoint calm_run (eid : string) (ss : list step) (p : Pipeline) : Prop :=
  match ss with
  | [] => True
  | s :: ss => calm eid s p /\ match pstep s p with Some p => calm_run eid ss p | None => True end
  end.

Lemma published_Some o oid : published o = Some oid -> o = Published oid.
Proof. by destruct o; intros [= <-]. Qed.

Lemma created_Some o ids : created o = Some ids -> o = Some (Created <$> ids).
Proof.
  destruct o as [l|]; [|done]. cbn [created mbind option_bind]. intros H%mapM_Some. f_equal.
  induction H as [|x oid l ids Hx _ IH]; [done|]. rewrite fmap_cons, <- IH. destruct x; cbn in Hx; [by injection Hx as ->|done..].
Qed.

#[export] Instance all_of_dec {A} (o : option A) P `{forall x, Decision (P x)} : Decision (all_of o P).
Proof.
  destruct o as [x|]; [|left; by intros y]. destruct (decide (P x)) as [E|E]; [left; by intros y [= <-]|right; auto].
Defined.
#[export] Instance some_of_dec {A} (o : option A) P `{forall x, Decision (P x)} : Decision (some_of o P).
Proof.
  destruct o as [x|]; [|right; by intros (y & ? & _)].
  destruct (decide (P x)) as [E|E]; [left; by exists x|right; by intros (y & [= <-] & ?)].
Defined.
#[export] Instance fresh_id_dec eid p oid : Decision (fresh_id eid p oid).
Proof. unfold fresh_id. apply _. Defined.
#[export] Instance calm_feed_dec eid name p : Decision (calm_feed eid name p).
Proof. unfold calm_feed. destruct (last_stream _ !! eid); apply _. Defined.
#[export] Instance calm_dec eid s p : Decision (calm eid s p).
Proof.
  destruct s; cbn; [apply _|..].
  - destruct (at_point (reader p)); apply _.
  - destruct (committing (streams p)); apply _.
  - destruct (batching (outputs p)); apply _.
Defined.
#[export] Instance calm_run_dec eid ss p : Decision (calm_run eid ss p).
Proof. revert p. induction ss as [|s ss IH]; intros p; cbn; [apply _|]. destruct (pstep s p); apply _. Defined.
#[export] Instance well_behaved_dec eid ended ss : Decision (well_behaved eid ended ss).
Proof.
  revert ended. induction ss as [|s ss IH]; intros ended; cbn; [apply _|]. destruct s; try apply IH. case_decide; apply _.
Defined.

(** What the document shows for a segment: the contents of a terminal fed its text. *)
Definition final_text (text : bytes) : string := render_term (feed_bytes (new_processor, new_term) text).2.

Definition shows (s : Shown) (x : string * json) : Prop :=
  match s with
  | Segment name text => x.2 = stream_manifest x.1 name (final_text text)
  | Ordinary out => x.2 = make_manifest out x.1
  end.

Class ManifestLaws : Prop := {
  make_manifest_ok out oid : json_ok (make_manifest out oid) = true;
  make_manifest_id out oid : oid <> "" -> extract_output_id (make_manifest out oid) = Some oid;
  redact_value_ok v : json_ok (redact_output_value v) = true;
}.

(** ** Lemmas: manifests of streams *)

Lemma stream_manifest_object name text :
  exists m : gmap string json, (forall o, stream_manifest o name text = JObject (<["output_id" := JString o]> m)) /\
    map_Forall (fun _ v => json_ok v = true) m /\
    m !! "text" = Some (content_json (from_data (redact_text text) DEFAULT_INLINE_THRESHOLD)).
Proof.
  set (content := from_data (redact_text text) DEFAULT_INLINE_THRESHOLD).
  assert (json_ok (content_json content) = true) as Hc.
  { subst content. unfold from_data. destruct (_ <? _); [done|]. apply json_ok_object_2.
    repeat apply map_Forall_insert_2; [|done|apply map_Forall_empty].
    cbn. apply bool_decide_eq_true_2. pose proof (u64_of_len_bounds (length (String.list_ascii_of_string (redact_text text)))).
    unfold text_len. lia. }
  set (m := <["output_type" := JString "stream"]> (<["name" := JString name]> ({["text" := content_json content]} : gmap string json))).
  assert (map_Forall (fun _ v => json_ok v = true) m) as Hm
    by (repeat apply map_Forall_insert_2; [done..|apply map_Forall_empty]).
  assert (m !! "text" = Some (content_json content)) as Ht
    by (subst m; by rewrite !lookup_insert_ne, lookup_singleton_eq).
  assert (forall o : string, <["output_type" := JString "stream"]> (<["output_id" := JString o]>
    (<["name" := JString name]> ({["text" := content_json content]} : gmap string json))) = <["output_id" := JString o]> m) as Hswap
    by (intros o; by apply insert_insert_ne).
  assert (forall o, stream_manifest o name text = JObject (match content with
    | Inline _ => <["output_id" := JString o]> m
    | Blob _ _ => <["llm_preview" := preview_json (StreamPreview_from_text (String.list_ascii_of_string (redact_text text)))]>
        (<["output_id" := JString o]> m) end)) as Hman
    by (intros o; unfold stream_manifest; fold content; rewrite Hswap; reflexivity).
  clearbody m content. destruct content as [inline|blob size]; [exists m; split_and!; [exact Hman|exact Hm|exact Ht]|].
  set (pv := preview_json _) in *. exists (<["llm_preview" := pv]> m). split_and!.
  - intros o. rewrite Hman. apply (f_equal JObject). by apply insert_insert_ne.
  - apply map_Forall_insert_2; [|done]. subst pv. apply json_ok_object_2. set (pv := StreamPreview_from_text _).
    assert (forall n, 0 <= n <= u64_max -> json_ok (JNumber (PosInt n)) = true) as Hnum
      by (intros n Hn; cbn; by apply bool_decide_eq_true_2).
    assert (map_Forall (fun _ v => json_ok v = true) (<["head" := JString (String.string_of_list_ascii (head pv))]>
      (<["total_bytes" := JNumber (PosInt (total_bytes pv))]>
        ({["total_lines" := JNumber (PosInt (total_lines pv))]} : gmap string json)))) as Hpv.
    { repeat apply map_Forall_insert_2; [done|apply Hnum, u64_of_len_bounds..|apply map_Forall_empty]. }
    destruct (tail pv); [done|]. by apply map_Forall_insert_2.
  - by rewrite lookup_insert_ne.
Qed.

Lemma stream_manifest_ok oid name text : json_ok (stream_manifest oid name text) = true.
Proof.
  destruct (stream_manifest_object name text) as (m & -> & Hm & _).
  by apply json_ok_object_2, map_Forall_insert_2.
Qed.

Lemma stream_manifest_id oid name text :
  oid <> "" -> extract_output_id (stream_manifest oid name text) = Some oid.
Proof.
  intros Hne. destruct (stream_manifest_object name text) as (m & -> & _).
  unfold extract_output_id, json_get. rewrite lookup_insert_eq. cbn. by rewrite decide_False.
Qed.

Lemma stream_manifest_content oid name text :
  content_id (stream_manifest oid name text) = Some (manifest_blob_hash text).
Proof.
  destruct (stream_manifest_object name text) as (m & -> & _ & Ht).
  unfold content_id. change (json_get (JObject ?x) ?k) with (x !! k) at 1. rewrite lookup_insert_ne, Ht by done.
  cbn [mbind option_bind]. unfold manifest_blob_hash, from_data. by destruct (_ <? _).
Qed.

Lemma stream_manifest_patched oid oid' name text text' :
  oid <> "" -> patched (stream_manifest oid name text) (stream_manifest oid' name text') = stream_manifest oid name text'.
Proof.
  intros Hne. destruct (stream_manifest_object name text) as (m & -> & _ & _).
  destruct (stream_manifest_object name text') as (m' & Hm' & _ & _). rewrite !Hm'.
  unfold patched, json_get. rewrite lookup_insert_eq, decide_False by done. by rewrite insert_insert_eq.
Qed.

Lemma output_list_NoDup o : NoDup (output_list o).*1.
Proof.
  unfold output_list. rewrite <- list_fmap_compose.
  assert ((fst ∘ (fun r : string * Z * json => (r.1.1, r.2))) <$> output_entries_sorted o = (output_entries_sorted o).*1.*1) as ->
    by (by rewrite <- list_fmap_compose).
  unfold output_entries_sorted. rewrite merge_sort_Permutation. apply rows_ids_NoDup.
Qed.

(** ** The terminals of one execution *)

(** Segments in the order they began: those whose text is in the document for good, those
    sealed that are still to be written, and the one that takes text. *)
Definition seg_shown (x : SegText) : Shown := Segment x.1.1.2 x.2.

Definition fed_term (text : bytes) : Processor * Term := feed_bytes (new_processor, new_term) text.

Record terms_ok (n : Z) (eid : string) (retired sealed_live : list SegText) (current : option SegText)
    (t : StreamTerminals) : Prop := {
  t_exec : Forall (fun x : SegText => x.1.1.1 = eid) (retired ++ sealed_live ++ option_list current);
  t_nodup : NoDup (retired ++ sealed_live ++ option_list current).*1;
  t_none : current = None -> retired = [] /\ sealed_live = [];
  t_live : forall x, x ∈ sealed_live ++ option_list current ->
    terminals t !! x.1 = Some (fed_term x.2).2 /\ processors t !! x.1 = Some (fed_term x.2).1;
  t_gone : forall key, of_exec eid key -> key ∉ (sealed_live ++ option_list current).*1 ->
    terminals t !! key = None /\ processors t !! key = None;
  t_sealed : forall key, of_exec eid key -> key ∈ sealed_segments t <-> key ∈ sealed_live.*1;
  t_last : last_stream t !! eid = (fun x : SegText => x.1.1.2) <$> current;
  t_here : forall c, current = Some c -> current_segments t !! (eid, c.1.1.2) = Some c.1.2;
  t_below : forall x, x ∈ retired ++ sealed_live ++ option_list current ->
    exists c, current_segments t !! (eid, x.1.1.2) = Some c /\ x.1.2 <= c;
  t_bound : forall name c, current_segments t !! (eid, name) = Some c -> 0 <= c <= n;
}.

(** Two sets of terminals agree on an execution. *)
Record same_exec (eid : string) (t t' : StreamTerminals) : Prop := {
  se_terminals : forall key, of_exec eid key -> terminals t' !! key = terminals t !! key;
  se_processors : forall key, of_exec eid key -> processors t' !! key = processors t !! key;
  se_states : forall key, of_exec eid key -> output_states t' !! key = output_states t !! key;
  se_sealed : forall key, of_exec eid key -> key ∈ sealed_segments t' <-> key ∈ sealed_segments t;
  se_current : forall name, current_segments t' !! (eid, name) = current_segments t !! (eid, name);
  se_last : last_stream t' !! eid = last_stream t !! eid;
}.

Lemma terms_ok_same n n' eid R S c t t' :
  terms_ok n eid R S c t -> same_exec eid t t' -> n <= n' -> terms_ok n' eid R S c t'.
Proof.
  intros [] [] Hn. split; try done.
  - intros x Hx. destruct (t_live0 x Hx) as [H1 H2].
    assert (of_exec eid x.1) as Hof.
    { rewrite Forall_forall in t_exec0. apply t_exec0. apply elem_of_app. by right. }
    by rewrite se_terminals0, se_processors0.
  - intros key Hof. rewrite se_terminals0, se_processors0 by done. by apply t_gone0.
  - intros key Hof. rewrite se_sealed0 by done. by apply t_sealed0.
  - by rewrite se_last0.
  - intros x Hx. rewrite se_current0. by apply t_here0.
  - intros x Hx. rewrite se_current0. by apply t_below0.
  - intros name x. rewrite se_current0. intros Hx%t_bound0. lia.
Qed.

Lemma same_exec_refl eid t : same_exec eid t t.
Proof. by split. Qed.

Lemma filter_exec_lookup {A} (e : string) (m : gmap SegmentKey A) key :
  filter (fun kv : SegmentKey * A => kv.1.1.1 <> e) m !! key = if decide (key.1.1 = e) then None else m !! key.
Proof.
  destruct (decide (key.1.1 = e)) as [He|He].
  - apply map_lookup_filter_None. right. by intros x _ [].
  - destruct (m !! key) as [x|] eqn:Hm.
    + by apply map_lookup_filter_Some.
    + apply map_lookup_filter_None. by left.
Qed.

Lemma same_exec_clear eid e t : e <> eid -> same_exec eid t (clear e t).
Proof.
  intros Hne. unfold clear.
  split; cbn [terminals processors output_states sealed_segments current_segments last_stream]; unfold of_exec.
  1-3: intros key Hk; (etransitivity; [refine (filter_exec_lookup e _ key)|]); rewrite decide_False by congruence; done.
  - intros key Hk. rewrite elem_of_filter. naive_solver.
  - intros name. destruct (current_segments t !! (eid, name)) as [c|] eqn:Hc.
    + apply map_lookup_filter_Some. by split; [|cbn; congruence].
    + apply map_lookup_filter_None. by left.
  - by rewrite lookup_delete_ne.
Qed.

Lemma same_exec_feed eid e name text t : e <> eid -> same_exec eid t (feed_chunk e name text t).1.
Proof.
  intros Hne. unfold of_exec, feed_chunk.
  assert (same_exec eid t (seal_previous e name t).1) as Hs.
  { unfold seal_previous. destruct (last_stream t !! e) as [prev|]; [|apply same_exec_refl].
    case_decide; [apply same_exec_refl|].
    assert (forall nm, match current_segments t !! (e, name) with
      | Some seg => <[(e, name) := next_segment seg]> (current_segments t)
      | None => current_segments t end !! (eid, nm) = current_segments t !! (eid, nm)) as Hc.
    { intros nm. destruct (current_segments t !! (e, name)); [|done]. apply lookup_insert_ne. by intros [=]. }
    destruct (current_segments t !! (e, prev)) as [sg|]; split; cbn; try done.
    intros key Hk. unfold of_exec in Hk. rewrite elem_of_union, elem_of_singleton.
    split; [intros [?| ->]; [done|by destruct Hne]|by left]. }
  destruct (seal_previous e name t) as [t1 sl]. cbn [fst] in Hs. destruct Hs.
  set (key := (e, name, default 0 (current_segments t1 !! (e, name)))).
  destruct (feed_bytes _ text) as [pr tm]. split; cbn.
  1-2: intros k Hk; unfold of_exec in Hk; rewrite lookup_insert_ne by (intros <-; exact (Hne Hk)); by auto.
  - done.
  - done.
  - intros nm. rewrite lookup_insert_ne by congruence. done.
  - by rewrite lookup_insert_ne.
Qed.

Lemma same_exec_state eid key st t : ~ of_exec eid key -> same_exec eid t (set_segment_output_state key st t).
Proof. intros Hne. split; cbn; try done. intros k Hk. by rewrite lookup_insert_ne by congruence. Qed.

Lemma same_exec_retire eid key t : ~ of_exec eid key -> same_exec eid t (retire_segment key t).
Proof.
  intros Hne. unfold retire_segment. case_decide; [|apply same_exec_refl].
  split; cbn; try done; intros k Hk; rewrite ?lookup_delete_ne by congruence; try done. set_solver.
Qed.

Lemma same_exec_trans eid t1 t2 t3 : same_exec eid t1 t2 -> same_exec eid t2 t3 -> same_exec eid t1 t3.
Proof.
  intros [] []. split; intros; rewrite ?se_terminals1, ?se_processors1, ?se_states1, ?se_current1, ?se_last1 by done; auto.
  rewrite se_sealed1 by done. auto.
Qed.

Lemma fed_term_app a b : feed_bytes (fed_term a) b = fed_term (a ++ b).
Proof. unfold fed_term, feed_bytes. by rewrite foldl_app. Qed.

(** *** Feeding the execution itself *)

(** What [feed_chunk] does once the segment is settled. *)
Lemma feed_settled eid name text (t : StreamTerminals) :
  exists t', feed_chunk eid name text t =
    (let '(t1, sealed) := seal_previous eid name t in
     (t', mkPlacement (default 0 (current_segments t1 !! (eid, name))) sealed)) /\
    let t1 := (seal_previous eid name t).1 in
    let key := (eid, name, default 0 (current_segments t1 !! (eid, name))) in
    let pt := feed_bytes (default new_processor (processors t1 !! key), default new_term (terminals t1 !! key)) text in
    terminals t' = <[key := pt.2]> (terminals t1) /\ processors t' = <[key := pt.1]> (processors t1) /\
    output_states t' = output_states t1 /\ sealed_segments t' = sealed_segments t1 /\
    current_segments t' = <[(eid, name) := key.2]> (current_segments t1) /\
    last_stream t' = <[eid := name]> (last_stream t1).
Proof.
  unfold feed_chunk. destruct (seal_previous eid name t) as [t1 sl]. cbn [fst].
  destruct (feed_bytes _ text) as [pr tm]. eexists. split; [done|]. cbv zeta. cbn. done.
Qed.

(** More text for the current segment. *)
Lemma feed_same n eid R S c name text t :
  terms_ok n eid R S (Some c) t -> c.1.1.2 = name ->
  exists t', feed_chunk eid name text t = (t', mkPlacement c.1.2 None) /\
    terms_ok n eid R S (Some (c.1, c.2 ++ text)) t' /\ output_states t' = output_states t.
Proof.
  intros [] Hname. destruct (feed_settled eid name text t) as (t' & Hf & Ht).
  assert (seal_previous eid name t = (t, None)) as Hs
    by (unfold seal_previous; rewrite t_last0; cbn; by rewrite decide_True).
  rewrite Hs in Hf, Ht. cbn [fst] in Ht. pose proof (t_here0 c eq_refl) as Hh. rewrite Hname in Hh. rewrite Hh in Hf, Ht.
  change (default 0 (Some c.1.2)) with c.1.2 in Hf, Ht. exists t'. split; [exact Hf|].
  assert (c.1.1.1 = eid) as He.
  { rewrite Forall_forall in t_exec0. apply t_exec0. rewrite !elem_of_app. right. right. by left. }
  assert ((eid, name, c.1.2) = c.1) as Hkey by (destruct c as [[[? ?] ?] ?]; cbn in *; by subst).
  cbv zeta in Ht. cbn [snd] in Ht. rewrite Hkey in Ht. destruct Ht as (Htm & Hpr & Hst & Hse & Hcu & Hla).
  destruct (t_live0 c) as [Hl1 Hl2]; [by rewrite elem_of_app; right; left|].
  rewrite Hl1, Hl2 in Htm, Hpr. change (default ?x (Some ?y)) with y in Htm, Hpr.
  rewrite <- surjective_pairing, fed_term_app in Htm, Hpr.
  assert (forall l : list SegText, (l ++ [(c.1, c.2 ++ text)]).*1 = (l ++ [c]).*1) as Hk by (intros l; by rewrite !fmap_app).
  split; [split|done].
  - rewrite !Forall_app in *. cbn in *. naive_solver.
  - cbn [option_list]. rewrite app_assoc, Hk. cbn in t_nodup0. by rewrite app_assoc in t_nodup0.
  - done.
  - intros x [Hx|Hx]%elem_of_app.
    + rewrite Htm, Hpr. rewrite !lookup_insert_ne; [apply t_live0; apply elem_of_app; by left|..];
        intros E; cbn in t_nodup0; rewrite !fmap_app, !NoDup_app in t_nodup0;
        destruct t_nodup0 as (_ & _ & _ & Hd & _); apply (Hd c.1); rewrite ?E; (by apply list_elem_of_fmap_2) || set_solver.
    + cbn in Hx. apply list_elem_of_singleton in Hx as ->. rewrite Htm, Hpr. by rewrite !lookup_insert_eq.
  - intros key Hof Hnin. cbn [option_list] in Hnin. rewrite Hk in Hnin. rewrite Htm, Hpr.
    rewrite !lookup_insert_ne by (intros <-; apply Hnin; rewrite fmap_app; set_solver). by apply t_gone0.
  - intros key Hof. rewrite Hse. by apply t_sealed0.
  - rewrite Hla, lookup_insert_eq. cbn. by rewrite Hname.
  - intros x [= <-]. cbn. by rewrite Hcu, Hname, lookup_insert_eq.
  - intros x Hx. assert (exists y, y ∈ R ++ S ++ [c] /\ y.1 = x.1) as (y & Hy & Hyx).
    { rewrite !elem_of_app in Hx. destruct Hx as [Hx|[Hx|Hx]]; [exists x..|].
      1-2: split; [rewrite !elem_of_app; tauto|done].
      apply list_elem_of_singleton in Hx as ->. exists c. rewrite !elem_of_app. split; [right; right; by left|done]. }
    destruct (t_below0 y Hy) as (k & Hk1 & Hk2). rewrite Hyx in *. rewrite Hcu.
    destruct (decide (x.1.1.2 = name)) as [E|Hne].
    + exists c.1.2. rewrite E in *. rewrite lookup_insert_eq. split; [done|]. rewrite Hh in Hk1. by injection Hk1 as <-.
    + exists k. rewrite lookup_insert_ne by congruence. done.
  - intros nm k. rewrite Hcu. intros [[[= <-] <-]|[_ H]]%lookup_insert_Some; eauto.
Qed.

(** The state after the previous stream is sealed. *)
Lemma seal_settled n eid R S c name t :
  terms_ok n eid R S c t -> (forall x, c = Some x -> x.1.1.2 <> name) -> 0 <= n -> n + 1 < 2 ^ 64 ->
  exists t1, seal_previous eid name t = (t1, (fun x : SegText => mkSealed x.1.1.2 x.1.2) <$> c) /\
    terminals t1 = terminals t /\ processors t1 = processors t /\ output_states t1 = output_states t /\
    last_stream t1 = last_stream t /\
    (forall key, of_exec eid key -> key ∈ sealed_segments t1 <-> key ∈ (S ++ option_list c).*1) /\
    (forall nm, nm <> name -> current_segments t1 !! (eid, nm) = current_segments t !! (eid, nm)) /\
    let seg := default 0 (current_segments t1 !! (eid, name)) in
    0 <= seg <= n + 1 /\
    (forall x, x ∈ R ++ S ++ option_list c -> x.1.1.2 = name -> x.1.2 < seg).
Proof.
  intros [] Hne Hn0 Hn. unfold seal_previous. rewrite t_last0. destruct c as [c|]; cbn [fmap option_fmap option_map].
  - rewrite decide_False by (by apply Hne). rewrite (t_here0 c eq_refl). eexists. split; [reflexivity|].
    cbn [terminals processors output_states last_stream sealed_segments current_segments]. split_and!; try done.
    + assert ((eid, c.1.1.2, c.1.2) = c.1) as Hkey.
      { rewrite Forall_forall in t_exec0. assert (c.1.1.1 = eid) as <-
          by (apply t_exec0; rewrite !elem_of_app; right; right; by left).
        by destruct c as [[[? ?] ?] ?]. }
      intros key Hof. rewrite elem_of_union, elem_of_singleton, Hkey, fmap_app, elem_of_app, t_sealed0 by done.
      cbn. by rewrite list_elem_of_singleton.
    + intros nm Hnm. destruct (current_segments t !! (eid, name)); [|done]. rewrite lookup_insert_ne; [done|congruence].
    + destruct (current_segments t !! (eid, name)) as [sg|] eqn:Hsg.
      * rewrite lookup_insert_eq. cbn. apply t_bound0 in Hsg. unfold next_segment. rewrite Z.mod_small; lia.
      * rewrite Hsg. cbn. assert (0 <= c.1.2 <= n) by (eapply t_bound0, t_here0; done). lia.
    + destruct (current_segments t !! (eid, name)) as [sg|] eqn:Hsg.
      * rewrite lookup_insert_eq. cbn. apply t_bound0 in Hsg. unfold next_segment. rewrite Z.mod_small; lia.
      * rewrite Hsg. cbn. assert (0 <= c.1.2 <= n) by (eapply t_bound0, t_here0; done). lia.
    + destruct (current_segments t !! (eid, name)) as [sg|] eqn:Hsg.
      * rewrite lookup_insert_eq. cbn. apply t_bound0 in Hsg as Hb. unfold next_segment. rewrite Z.mod_small by lia.
        intros x Hx Hxn. destruct (t_below0 x Hx) as (k & Hk & Hle). rewrite Hxn, Hsg in Hk. injection Hk as <-. cbn. lia.
      * intros x Hx Hxn. destruct (t_below0 x Hx) as (k & Hk & Hle). rewrite Hxn, Hsg in Hk. done.
  - destruct (t_none0 eq_refl) as [-> ->]. exists t. split_and!; try done.
    + destruct (current_segments t !! (eid, name)) as [sg|] eqn:Hsg; cbn; [|lia]. apply t_bound0 in Hsg. lia.
    + destruct (current_segments t !! (eid, name)) as [sg|] eqn:Hsg; cbn; [|lia]. apply t_bound0 in Hsg. lia.
    + intros x Hx. set_solver.
Qed.

(** The first chunk of a segment. *)
Lemma feed_new n eid R S c name text t :
  terms_ok n eid R S c t -> (forall x, c = Some x -> x.1.1.2 <> name) -> 0 <= n -> n + 1 < 2 ^ 64 ->
  exists t' seg, feed_chunk eid name text t = (t', mkPlacement seg ((fun x : SegText => mkSealed x.1.1.2 x.1.2) <$> c)) /\
    ((eid, name, seg) ∉ (R ++ S ++ option_list c).*1) /\
    terms_ok (n + 1) eid R (S ++ option_list c) (Some ((eid, name, seg), text)) t' /\
    output_states t' = output_states t.
Proof.
  intros Hok Hne Hn0 Hn. destruct (seal_settled n eid R S c name t) as (t1 & Hs & Htm1 & Hpr1 & Hst1 & Hla1 & Hse1 & Hcu1 & Hseg & Hmax);
    [done..|]. destruct Hok. destruct (feed_settled eid name text t) as (t' & Hf & Ht).
  rewrite Hs in Hf, Ht. cbv zeta in Ht. cbn [fst snd] in Ht.
  set (seg := default 0 (current_segments t1 !! (eid, name))) in *. set (key := (eid, name, seg)) in *.
  exists t', seg. split; [exact Hf|].
  assert (key ∉ (R ++ S ++ option_list c).*1) as Hfresh.
  { intros (x & Hx & Hin)%list_elem_of_fmap. specialize (Hmax x Hin). rewrite <- Hx in Hmax. cbn in Hmax. specialize (Hmax eq_refl). lia. }
  split; [exact Hfresh|]. destruct Ht as (Htm & Hpr & Hst & Hse & Hcu & Hla).
  assert (key ∉ (S ++ option_list c).*1) as Hfresh2.
  { intros H. apply Hfresh. rewrite fmap_app. apply elem_of_app. by right. }
  destruct (t_gone0 key) as [Hg1 Hg2]; [done|done|].
  rewrite Htm1, Hpr1, Hg1, Hg2 in Htm, Hpr.
  change (default ?x None) with x in Htm, Hpr. fold (fed_term text) in Htm, Hpr.
  split; [split|by rewrite Hst].
  - rewrite !Forall_app in *. cbn. naive_solver.
  - cbn [option_list]. rewrite <- !app_assoc. rewrite !app_assoc, fmap_app, NoDup_app.
    rewrite <- !app_assoc. split; [done|]. split; [|cbn; repeat constructor; set_solver].
    intros x Hx Hx'. cbn in Hx'. apply list_elem_of_singleton in Hx' as ->. by apply Hfresh.
  - done.
  - intros x [Hx|Hx]%elem_of_app.
    + assert (x.1 <> key) as Hxk by (intros E; apply Hfresh2; rewrite <- E; by apply list_elem_of_fmap_2).
      rewrite Htm, Hpr, !lookup_insert_ne by done. by apply t_live0.
    + cbn in Hx. apply list_elem_of_singleton in Hx as ->. cbn. by rewrite Htm, Hpr, !lookup_insert_eq.
  - intros k Hof Hnin. rewrite fmap_app, not_elem_of_app in Hnin. destruct Hnin as [Hn1 Hn2]. cbn in Hn2.
    rewrite Htm, Hpr, !lookup_insert_ne by (intros <-; apply Hn2; by left). by apply t_gone0.
  - intros k Hof. rewrite Hse. by apply Hse1.
  - by rewrite Hla, lookup_insert_eq.
  - intros x [= <-]. cbn. by rewrite Hcu, lookup_insert_eq.
  - intros x Hx. cbn [option_list] in Hx. rewrite <- app_assoc, !app_assoc in Hx. apply elem_of_app in Hx as [Hx|Hx].
    + rewrite <- app_assoc in Hx. destruct (t_below0 x Hx) as (k & Hk & Hle). rewrite Hcu.
      destruct (decide (x.1.1.2 = name)) as [E|Hxn].
      * exists seg. rewrite E, lookup_insert_eq. split; [done|]. specialize (Hmax x Hx E). lia.
      * exists k. rewrite lookup_insert_ne by congruence. by rewrite Hcu1.
    + apply list_elem_of_singleton in Hx as ->. cbn. exists seg. by rewrite Hcu, lookup_insert_eq.
  - intros nm k. rewrite Hcu. intros [[[= <-] <-]|[Hnm H]]%lookup_insert_Some; [cbn; lia|].
    rewrite Hcu1 in H by congruence. apply t_bound0 in H. lia.
Qed.

Lemma terms_ok_set n eid R S c key st t :
  terms_ok n eid R S c t -> terms_ok n eid R S c (set_segment_output_state key st t).
Proof. intros []. by split. Qed.

Lemma retire_head n eid R x S c t :
  terms_ok n eid R (x :: S) c t ->
  terms_ok n eid (R ++ [x]) S c (retire_segment x.1 t) /\
  output_states (retire_segment x.1 t) = delete x.1 (output_states t).
Proof.
  intros []. assert (of_exec eid x.1) as Hx.
  { rewrite Forall_forall in t_exec0. apply t_exec0. rewrite elem_of_app. right. by left. }
  assert (x.1 ∈ sealed_segments t) as Hin by (apply t_sealed0; [done|by left]).
  unfold retire_segment. rewrite decide_True by done. split; [|done].
  assert (x.1 ∉ (S ++ option_list c).*1) as Hfresh.
  { rewrite fmap_app, NoDup_app in t_nodup0. destruct t_nodup0 as (_ & _ & H). cbn in H. by inversion H. }
  split; cbn [terminals processors output_states sealed_segments current_segments last_stream]; try done.
  - by rewrite <- app_assoc.
  - by rewrite <- app_assoc.
  - intros E. by destruct (t_none0 E).
  - intros y Hy. assert (y.1 <> x.1) by (intros E; apply Hfresh; rewrite <- E; by apply list_elem_of_fmap_2).
    rewrite !lookup_delete_ne by done. apply t_live0. by right.
  - intros key Hof Hnin. destruct (decide (key = x.1)) as [->|Hne]; [by rewrite !lookup_delete_eq|].
    rewrite !lookup_delete_ne by done. apply t_gone0; [done|]. cbn. rewrite not_elem_of_cons. done.
  - intros key Hof. rewrite elem_of_difference, elem_of_singleton, t_sealed0 by done. cbn.
    rewrite elem_of_cons. split; [naive_solver|]. intros Hk. split; [by right|]. intros ->. apply Hfresh.
    rewrite fmap_app. apply elem_of_app. by left.
  - intros y Hy. apply t_below0. rewrite <- app_assoc in Hy. done.
Qed.

Lemma clear_own n eid R S c t :
  terms_ok n eid R S c t -> terms_ok n eid [] [] None (clear eid t) /\
  forall key, of_exec eid key -> output_states (clear eid t) !! key = None.
Proof.
  intros []. assert (forall (A : Type) (m : gmap SegmentKey A) key, of_exec eid key ->
    filter (fun kv : SegmentKey * A => kv.1.1.1 <> eid) m !! key = None) as Hf.
  { intros A m key Hk. etransitivity; [refine (filter_exec_lookup eid m key)|]. by rewrite decide_True. }
  unfold clear. split; [|intros key Hk; by apply Hf].
  split; cbn [terminals processors output_states sealed_segments current_segments last_stream]; try done.
  - constructor.
  - intros x Hx. cbn in Hx. set_solver.
  - intros key Hk _. split; by apply Hf.
  - intros key Hk. rewrite elem_of_filter. unfold of_exec in Hk. cbn. set_solver.
  - by rewrite lookup_delete_eq.
  - intros x Hx. cbn in Hx. set_solver.
  - intros nm k [_ Hk]%map_lookup_filter_Some. by cbn in Hk.
Qed.

(** ** The flushes that wait *)

(** Taking the flushes in order, each is of a segment that is gone or of the first one
    not yet written for good: none overtakes. *)
Fixpoint in_order (q : list SegmentKey) (sealed_keys : list SegmentKey) (last : option SegmentKey) : Prop :=
  match q with
  | [] => True
  | f :: q =>
      match sealed_keys with
      | [] => True
      | k :: ks => (f ∉ ks) /\ Some f <> last /\ in_order q (if decide (f = k) then ks else sealed_keys) last
      end
  end.

(** The sealed segments that have no flush of their own. *)
Fixpoint drain (q : list SegmentKey) (sealed_keys : list SegmentKey) : list SegmentKey :=
  match q, sealed_keys with
  | [], _ => sealed_keys
  | _, [] => []
  | f :: q, k :: ks => drain q (if decide (f = k) then ks else sealed_keys)
  end.

Lemma drain_nil q : drain q [] = [].
Proof. by destruct q. Qed.

Lemma drain_app q q' ks : drain (q ++ q') ks = drain q' (drain q ks).
Proof.
  revert ks. induction q as [|f q IH]; intros ks; [done|]. cbn. destruct ks as [|k ks]; [by rewrite drain_nil|]. apply IH.
Qed.

Lemma drain_elem q ks x : x ∈ drain q ks -> x ∈ ks.
Proof.
  revert ks. induction q as [|f q IH]; intros ks; [done|]. destruct ks as [|k ks]; [done|]. cbn [drain].
  destruct (decide (f = k)); intros H%IH; [by right|done].
Qed.

Lemma in_order_app q q' ks last : in_order (q ++ q') ks last <-> in_order q ks last /\ in_order q' (drain q ks) last.
Proof.
  revert ks. induction q as [|f q IH]; intros ks; cbn; [tauto|]. destruct ks as [|k ks].
  - split; [|done]. intros _. split; [done|]. by destruct q'.
  - rewrite IH. tauto.
Qed.

Lemma in_order_done q last : in_order q [] last.
Proof. by destruct q. Qed.

Lemma in_order_first f q ks last :
  in_order (f :: q) (f :: ks) last -> in_order q ks last /\ drain (f :: q) (f :: ks) = drain q ks.
Proof. cbn [in_order drain]. intros (_ & _ & H). revert H. by destruct (decide (f = f)). Qed.

Lemma in_order_gone f q ks last :
  in_order (f :: q) ks last -> f ∉ ks -> in_order q ks last /\ drain (f :: q) ks = drain q ks.
Proof.
  destruct ks as [|k ks]; [intros _ _; split; [apply in_order_done|by rewrite !drain_nil]|]. cbn [in_order drain]. intros (_ & _ & H) Hn. revert H.
  destruct (decide (f = k)) as [->|]; [|done]. destruct Hn. by left.
Qed.

(** The last segment is sealed by a new one nobody asks for yet; a flush that asked for
    the last one was behind those of the others. *)
Lemma in_order_seal q ks k last :
  in_order q ks (Some k) -> (forall f, f ∈ q -> Some f <> last) ->
  in_order q (ks ++ [k]) last /\
  (drain q (ks ++ [k]) = drain q ks ++ [k] \/ drain q ks = [] /\ drain q (ks ++ [k]) = []).
Proof.
  revert ks. induction q as [|f q IH]; intros ks Ho Hq; [by split; [|left]|].
  assert (Some f <> last) as Hfl by (apply Hq; by left).
  assert (forall g, g ∈ q -> Some g <> last) as Hq' by (intros g Hg; apply Hq; by right).
  destruct ks as [|k0 ks]; cbn [app in_order drain].
  - case_decide as E.
    + split; [split_and!; [apply not_elem_of_nil|done|apply in_order_done]|]. right. by rewrite drain_nil.
    + destruct (IH [] (in_order_done q _) Hq') as [H1 H2]. cbn [app] in H1, H2. rewrite drain_nil in H2.
      split; [split_and!; [apply not_elem_of_nil|done|done]|done].
  - cbn [in_order] in Ho. destruct Ho as (Hn & Hs & Ho).
    assert (f ∉ ks ++ [k]) as Hn' by (rewrite not_elem_of_app, list_elem_of_singleton; split; [done|congruence]).
    case_decide as E; [destruct (IH ks Ho Hq') as [H1 H2]|destruct (IH (k0 :: ks) Ho Hq') as [H1 H2]]; done.
Qed.

End Order.

(** ** Coalescing, one item more *)

Lemma coalesce_snoc l i : coalesce (l ++ [i]) = reverse (add_item (reverse (coalesce l)) i).
Proof. unfold coalesce. by rewrite foldl_app, reverse_involutive. Qed.

Lemma coalesce_output l out : coalesce (l ++ [Output out]) = coalesce l ++ [Ordinary out].
Proof. rewrite coalesce_snoc. cbn [add_item]. by rewrite reverse_cons, reverse_involutive. Qed.

Lemma coalesce_join l xs name a b :
  coalesce l = xs ++ [Segment name a] -> coalesce (l ++ [Chunk name b]) = xs ++ [Segment name (a ++ b)].
Proof.
  intros Hl. rewrite coalesce_snoc, Hl, reverse_snoc. cbn [add_item]. rewrite decide_True by done.
  by rewrite reverse_cons, reverse_involutive.
Qed.

Lemma coalesce_begin l name b :
  (forall a, last (coalesce l) <> Some (Segment name a)) ->
  coalesce (l ++ [Chunk name b]) = coalesce l ++ [Segment name b].
Proof.
  intros Hl. rewrite coalesce_snoc. destruct (coalesce l) as [|x xs _] using rev_ind; [done|].
  rewrite last_snoc in Hl. rewrite reverse_snoc. cbn [add_item].
  assert (reverse (Segment name b :: x :: reverse xs) = (xs ++ [x]) ++ [Segment name b]) as Hr
    by (by rewrite !reverse_cons, reverse_involutive).
  destruct x as [name' a|out]; [|done]. rewrite decide_False; [done|]. intros <-. by apply (Hl a).
Qed.

(** ** A batch of outputs *)

Section Batch.
Context {EM : Emulator} {ENV : OutputEnv} {OM : OutputManifests} {ML : ManifestLaws}.
Variable eid : string.

(** The rows a batch adds to the outputs of the execution. *)
Definition new_rows (l : list (string * json)) : list (string * json) :=
  (fun x => (default "" (extract_output_id x.2), x.2)) <$> filter (fun x => x.1 = eid) l.

Definition in_runs (rs : list (string * list json)) : list (string * json) := rs ≫= fun r => (r.1,.) <$> r.2.

Lemma in_runs_runs l : in_runs (execution_runs l) = l.
Proof.
  unfold in_runs. induction l as [|[e m] l IH]; [done|]. cbn. destruct (execution_runs l) as [|[e' ms] rs]; cbn in *; [by rewrite <- IH|].
  case_decide as E; cbn in *; [subst e'|]; by rewrite <- IH.
Qed.

Lemma prepare_output_ok out x : json_ok (prepare_output out x) = true.
Proof.
  destruct x as [oid|error|oid]; cbn.
  - apply make_manifest_ok.
  - unfold blob_publish_failure_output. apply json_ok_object_2.
    repeat apply map_Forall_insert_2; [done..|apply map_Forall_empty].
  - pose proof (redact_value_ok (nbformat_value out)) as H. unfold fallback_output_with_id.
    destruct (redact_output_value (nbformat_value out)) as [| | | | |m]; try done.
    set (b := match _ with Some s => _ | None => _ end). destruct b; [|done].
    apply json_ok_object in H. apply json_ok_object_2. by apply map_Forall_insert_2.
Qed.

Lemma extract_all ms :
  Forall (fun m => is_Some (extract_output_id m)) ms ->
  extract_output_ids ms = Ok ((fun m => default "" (extract_output_id m)) <$> ms).
Proof. induction 1 as [|m ms [o Ho] _ IH]; [done|]. cbn. by rewrite Ho, IH. Qed.

Lemma append_outputs_seen e ms d d' ids :
  outputs_wf d -> Forall (fun v => json_ok v = true) ms -> append_outputs e ms d = (d', Ok ids) -> touches e d d'.
Proof.
  intros Hwf Hms Ha. destruct (extract_output_ids ms) as [ids'|] eqn:Hx.
  - destruct (append_outputs_touches e ms ids' d) as (d'' & Ha' & Ht & _); [done..|]. rewrite Ha in Ha'. by injection Ha' as -> ->.
  - unfold append_outputs in Ha. by rewrite Hx in Ha.
Qed.

Lemma execution_runs_all (P : string -> Prop) l : Forall (fun x => P x.1) l -> Forall (fun r => P r.1) (execution_runs l).
Proof.
  induction 1 as [|[e m] l He Hl IH]; [done|]. cbn. destruct (execution_runs l) as [|[e' ms] rs]; [by constructor|].
  apply Forall_cons in IH as [He' IH]. case_decide; repeat constructor; done.
Qed.

(** A batch without outputs of the execution. *)
Lemma append_runs_foreign rs d d' :
  outputs_wf d -> Forall (fun x => json_ok x.2 = true) (in_runs rs) -> Forall (fun r => r.1 <> eid) rs ->
  append_runs rs d = (d', Ok tt) ->
  outputs_wf d' /\ exec_outputs eid d' = exec_outputs eid d /\ (has_execution eid d -> has_execution eid d').
Proof.
  revert d. induction rs as [|[e ms] rs IH]; intros d Hwf Hok Hne; cbn; [by intros [= <-]|].
  apply Forall_cons in Hne as [Hem Hne]. unfold in_runs in Hok. cbn in Hok. rewrite Forall_app in Hok.
  destruct Hok as [Hms Hok]. apply Forall_fmap in Hms.
  destruct (append_outputs e ms d) as [d1 [ids|]] eqn:Ha; [|done]. intros Hr.
  destruct (append_outputs_seen e ms d d1 ids) as [Hwf1 Hother Hhas]; [done..|].
  destruct (IH d1) as (Hwf' & Hx & Hh); [done..|]. split; [done|]. rewrite Hx, Hother by done. split; [done|].
  intros He. by apply Hh, Hhas.
Qed.

(** A batch whose outputs have new ids. *)
Lemma append_runs_new rs d :
  outputs_wf d -> has_execution eid d -> Forall (fun x => json_ok x.2 = true /\ is_Some (extract_output_id x.2)) (in_runs rs) ->
  room_for (zlen (new_rows (in_runs rs))) eid d -> NoDup (output_list (exec_outputs eid d) ++ new_rows (in_runs rs)).*1 ->
  exists d', append_runs rs d = (d', Ok tt) /\ outputs_wf d' /\ has_execution eid d' /\
    output_list (exec_outputs eid d') = output_list (exec_outputs eid d) ++ new_rows (in_runs rs) /\
    next_seq (scan_output_order (exec_outputs eid d')) <=
      next_seq (scan_output_order (exec_outputs eid d)) + zlen (new_rows (in_runs rs)).
Proof.
  revert d. induction rs as [|[e ms] rs IH]; intros d Hwf Hh Hok Hroom Hnd.
  { exists d. cbn in *. rewrite app_nil_r. split_and!; done || (unfold zlen; cbn; lia). }
  unfold in_runs in Hok, Hroom, Hnd |- *. cbn [mbind list_bind] in Hok, Hroom, Hnd |- *. fold (in_runs rs) in Hok, Hroom, Hnd |- *.
  rewrite Forall_app in Hok. destruct Hok as [Hms Hok]. apply Forall_fmap in Hms. cbn in Hms.
  assert (Forall (fun v => json_ok v = true) ms) as Hj by (eapply Forall_impl; [exact Hms|by intros x [? _]]).
  assert (extract_output_ids ms = Ok ((fun m => default "" (extract_output_id m)) <$> ms)) as Hx
    by (apply extract_all; eapply Forall_impl; [exact Hms|by intros x [_ ?]]).
  assert (forall l l', new_rows (l ++ l') = new_rows l ++ new_rows l') as Happ
    by (intros l l'; unfold new_rows; by rewrite filter_app, fmap_app).
  rewrite Happ in Hroom, Hnd |- *. cbn [fst snd] in Hroom, Hnd |- *. destruct (append_outputs_touches e ms _ d Hwf Hj Hx) as (d1 & Ha & Ht & Hl).
  cbn [append_runs]. rewrite Ha. destruct (decide (e = eid)) as [->|Hne].
  - assert (new_rows ((eid,.) <$> ms) = zip ((fun m => default "" (extract_output_id m)) <$> ms) ms) as Hrows.
    { clear. unfold new_rows. induction ms as [|m ms IH]; [done|]. rewrite fmap_cons, filter_cons_True by done.
      rewrite fmap_cons, IH. done. }
    rewrite Hrows in Hroom, Hnd |- *. set (ids := (fun m => default "" (extract_output_id m)) <$> ms) in *.
    assert (zlen (zip ids ms) = zlen ms) as Hz by (unfold zlen; subst ids; rewrite length_zip, length_fmap; lia).
    assert ((zip ids ms).*1 = ids) as Hfst by (apply fst_zip; subst ids; by rewrite length_fmap).
    unfold room_for in *. rewrite zlen_app in Hroom. pose proof (zlen_nonneg (new_rows (in_runs rs))).
    pose proof (zlen_nonneg ms).
    rewrite !fmap_app, !NoDup_app, Hfst in Hnd. destruct Hnd as (Hnd1 & Hd1 & Hnd2 & Hd2 & Hnd3).
    destruct Hl as [[Hwf1 Hother Hhas] Hlist Hnext]; [done|lia|done|intros oid Ho Hin; apply (Hd1 oid Hin), elem_of_app; by left|].
    destruct (IH d1) as (d' & Hr & Hwf' & Hh' & Hlist' & Hnext'); [done|by apply Hhas|done|lia| |].
    { rewrite Hlist, <- app_assoc, !fmap_app, Hfst, !NoDup_app. done. }
    exists d'. rewrite Hlist', Hlist, zlen_app, <- app_assoc. split_and!; done || lia.
  - assert (new_rows ((e,.) <$> ms) = []) as Hrows.
    { clear -Hne. unfold new_rows. induction ms as [|m ms IH]; [done|].
      by rewrite fmap_cons, filter_cons_False by done. }
    rewrite Hrows in Hroom, Hnd |- *. cbn [app] in *. destruct Ht as [Hwf1 Hother Hhas].
    destruct (IH d1) as (d' & Hr & Hwf' & Hh' & Hlist' & Hnext'); [done|by apply Hhas|done|by unfold room_for; rewrite Hother|by rewrite Hother|].
    exists d'. rewrite Hother in * by done. done.
Qed.

Definition prepared_rows (batch : list OrdinaryOutputCommit) (prepared : list Prepared) : list (string * json) :=
  zip_with (fun o x => (out_execution_id o, prepare_output o x)) batch prepared.

Lemma prepared_rows_ok batch prepared : Forall (fun x => json_ok x.2 = true) (prepared_rows batch prepared).
Proof.
  revert prepared. induction batch as [|o batch IH]; intros [|x prepared]; cbn; constructor; [apply prepare_output_ok|apply IH].
Qed.

Lemma batch_foreign batch prepared d :
  outputs_wf d -> Forall (fun o => out_execution_id o <> eid) batch ->
  let d' := commit_output_batch batch prepared d in
  outputs_wf d' /\ exec_outputs eid d' = exec_outputs eid d /\ (has_execution eid d -> has_execution eid d').
Proof.
  intros Hwf Hne. unfold commit_output_batch. fold (prepared_rows batch prepared). unfold transact.
  destruct (append_runs _ d) as [d' [[]|]] eqn:Hr; [|done]. cbn. revert Hr.
  apply append_runs_foreign; [done|rewrite in_runs_runs; apply prepared_rows_ok|].
  apply (execution_runs_all (fun e => e <> eid)). unfold prepared_rows. clear -Hne. revert prepared.
  induction Hne as [|o batch Ho _ IH]; intros [|x prepared]; cbn; constructor; auto.
Qed.

Lemma batch_own batch ids d :
  outputs_wf d -> has_execution eid d -> length ids = length batch ->
  Forall (fun oid => oid <> "" /\ oid ∉ output_ids eid d) ids -> NoDup ids -> room_for (zlen batch) eid d ->
  let d' := commit_output_batch batch (Created <$> ids) d in
  outputs_wf d' /\ has_execution eid d' /\
  (exists rows, output_list (exec_outputs eid d') = output_list (exec_outputs eid d) ++ rows /\
    Forall2 shows (Ordinary <$> filter (fun o => out_execution_id o = eid) batch) rows) /\
  next_seq (scan_output_order (exec_outputs eid d')) <= next_seq (scan_output_order (exec_outputs eid d)) + zlen batch.
Proof.
  intros Hwf Hh Hlen Hids Hnd Hroom. unfold commit_output_batch. fold (prepared_rows batch (Created <$> ids)).
  set (l := prepared_rows batch (Created <$> ids)).
  assert (Forall2 shows (Ordinary <$> filter (fun o => out_execution_id o = eid) batch) (new_rows l) /\
    (new_rows l).*1 `sublist_of` ids /\ zlen (new_rows l) <= zlen batch /\
    Forall (fun x => is_Some (extract_output_id x.2)) l) as (Hs & Hsub & Hz & Hall).
  { subst l. clear -Hlen Hids ML. revert ids Hlen Hids. induction batch as [|o batch IH]; intros [|oid ids] Hlen Hids; try done.
    apply Forall_cons in Hids as [[Hne _] Hids]. injection Hlen as Hlen. destruct (IH ids Hlen Hids) as (Hs & Hsub & Hz & Hall).
    rewrite fmap_cons. change (prepared_rows (o :: batch) (Created oid :: (Created <$> ids)))
      with ((out_execution_id o, make_manifest o oid) :: prepared_rows batch (Created <$> ids)).
    assert (extract_output_id (make_manifest o oid) = Some oid) as Hx by (by apply make_manifest_id).
    assert (forall A (x : A) k, zlen (x :: k) = 1 + zlen k) as Hzl by (intros A x k; unfold zlen; cbn [length]; lia).
    unfold new_rows in *. destruct (decide (out_execution_id o = eid)) as [E|E].
    - rewrite !filter_cons_True by done. rewrite !fmap_cons. cbn [fst snd]. rewrite Hx. cbn [default]. split_and!.
      * by constructor.
      * by constructor.
      * rewrite !Hzl. lia.
      * constructor; [by eexists|done].
    - rewrite !filter_cons_False by done. split_and!; [done|by constructor|rewrite Hzl; lia|constructor; [by eexists|done]]. }
  destruct (append_runs_new (execution_runs l) d) as (d' & Hr & Hwf' & Hh' & Hl & Hn); rewrite ?in_runs_runs; try done.
  - rewrite Forall_forall in Hall. apply Forall_forall. intros x Hx. split; [|by apply Hall].
    pose proof (prepared_rows_ok batch (Created <$> ids)) as Hok. rewrite Forall_forall in Hok. by apply Hok.
  - unfold room_for in *. lia.
  - rewrite fmap_app, NoDup_app. split; [apply output_list_NoDup|]. split; [|by eapply sublist_NoDup, Hsub].
    intros oid Hin Hin'. eapply elem_of_sublist in Hin'; [|exact Hsub]. rewrite Forall_forall in Hids. by apply (Hids oid Hin').
  - rewrite in_runs_runs in Hl, Hn. unfold transact. rewrite Hr. cbn [fst]. split; [done|]. split; [done|]. split; [|lia].
    exists (new_rows l). done.
Qed.

End Batch.
