(* ===== verification/OutputPlumbing.v ===== *)
(** * Acknowledgements of the output pipeline

    The waits of the reader of [OutputPipeline]: one acknowledgement is outstanding at a
    time, it is that of the last job of the committer asked, and while the reader waits for
    the outputs to drain none is left when the answer comes. *)

From S2P Require Import Prelude Kernel Automunge RuntimeDoc RuntimeOutputs Text TerminalText StreamSegments OutputPipeline OutputSpec.

Section Plumbing.
Context {EM : Emulator} {ENV : OutputEnv} {OM : OutputManifests}.

(** ** Acknowledgements *)

Definition waits_outputs (a : ReaderAt) : bool :=
  match a with WaitOutputs _ _ _ | WaitDrain _ _ => true | _ => false end.
Definition batch_of (b : OutputCommitter) : list OrdinaryOutputCommit :=
  match b with Collecting batch _ | Preparing batch _ => batch | _ => [] end.
Definition request_of (b : OutputCommitter) : option PriorityOutputRequest :=
  match b with Collecting _ r | Preparing _ r => r | _ => None end.
Definition requests_of (b : OutputCommitter) (rs : list PriorityOutputRequest) : list PriorityOutputRequest :=
  option_list (request_of b) ++ rs.
Definition acks_of (b : OutputCommitter) (rs : list PriorityOutputRequest) : list PriorityOutputRequest :=
  filter (fun r => or_ack r = true) (requests_of b rs).
Abbreviation all_requests o := (requests_of (batching o) (requests o)).
Abbreviation acks o := (acks_of (batching o) (requests o)).
Definition no_done (r : PriorityOutputRequest) : Prop := forall e, or_signal r <> Some (ExecutionDone e).

(** The only job of the stream committer with an acknowledgement is the last one, and the
    reader waits for it. *)
Definition stream_plumbed (a : ReaderAt) (ack : bool) (l : list bool) : Prop :=
  match a with
  | WaitBoundary _ _ => if ack then Forall (eq false) l else exists l', l = l' ++ [true] /\ Forall (eq false) l'
  | _ => Forall (eq false) l
  end.

Record plumbing (p : Pipeline) : Prop := {
  pl_stream : stream_plumbed (at_point (reader p)) (stream_ack (streams p)) (pr_ack <$> jobs (streams p));
  pl_batch : (length (batch_of (batching (outputs p))) <= OUTPUT_COMMIT_BATCH_SIZE)%nat;
  pl_quiet : stream_awaits_ordinary_outputs (reader p) = false ->
    batch_of (batching (outputs p)) = [] /\ output_queue (outputs p) = [];
  pl_one : (length (acks (outputs p)) <= 1)%nat;
  pl_acks : acks (outputs p) <> [] -> waits_outputs (at_point (reader p)) = true /\ output_ack (outputs p) = false;
  pl_waited : waits_outputs (at_point (reader p)) = true -> output_ack (outputs p) = true ->
    batch_of (batching (outputs p)) = [] /\ output_queue (outputs p) = [];
  pl_drained : forall r, batching (outputs p) = Preparing [] (Some r) -> or_ack r = true -> output_queue (outputs p) = [];
  pl_signals : Forall no_done (all_requests (outputs p));
  pl_feed : forall e nm tx, at_point (reader p) = AtFeed e nm tx -> stream_awaits_ordinary_outputs (reader p) = false;
}.

Lemma plumbing_start d : plumbing (start d).
Proof. split; cbn; try done; lia. Qed.
Lemma requests_send b rs r : requests_of b (rs ++ [r]) = requests_of b rs ++ [r].
Proof. unfold requests_of. by rewrite app_assoc. Qed.
Lemma acks_send b rs r : acks_of b (rs ++ [r]) = acks_of b rs ++ filter (fun r => or_ack r = true) [r].
Proof. unfold acks_of. by rewrite requests_send, filter_app. Qed.

Lemma no_acks_request b rs r : acks_of b rs = [] -> request_of b = Some r -> or_ack r = false.
Proof.
  intros Hno Hr. destruct (or_ack r) eqn:E; [|done]. assert (r ∈ acks_of b rs) as Hin; [|rewrite Hno in Hin; by apply elem_of_nil in Hin].
  unfold acks_of, requests_of. apply list_elem_of_filter. split; [done|]. rewrite Hr. by left.
Qed.

Ltac pl_simpl := cbn [go_to set_flushes set_awaits commit_at set_stream_ack send_priority set_priority set_periodic
  batch_at set_output_ack send_request set_requests set_output_queue send_signal send_optional
  ask_stream_order ask_output_order output_flush_then_signal flush_then_signal request_ordered_flush
  with_reader with_streams with_outputs with_terminals with_document reader streams outputs stream_terminals doc sent
  stream_flushes stream_awaits_ordinary_outputs at_point periodic priority committing stream_ack
  output_queue requests batching output_ack waits_outputs batch_of request_of job_of in_flight] in *.

Lemma jobs_send per pri com b j : jobs (mkStreams per (pri ++ [j]) com b) = jobs (mkStreams per pri com b) ++ [j].
Proof. unfold jobs. cbn. by rewrite app_assoc. Qed.

Lemma plumbing_no_acks p : plumbing p -> waits_outputs (at_point (reader p)) = false -> acks (outputs p) = [].
Proof. intros [] Hw. destruct (acks (outputs p)); [done|]. destruct pl_acks0; [done|]. congruence. Qed.
Lemma plumbing_unacked p : plumbing p ->
  (forall out b, at_point (reader p) = WaitBoundary out b -> stream_ack (streams p) = true) ->
  Forall (eq false) (pr_ack <$> jobs (streams p)).
Proof.
  intros [] Hb. unfold stream_plumbed in pl_stream0. destruct (at_point (reader p)) eqn:E; try done.
  by rewrite (Hb _ _ eq_refl) in pl_stream0.
Qed.

(** Moves of the reader that only touch its own state, the terminals and unacknowledged
    flushes. *)
Lemma plumbing_moved p p' js :
  plumbing p ->
  jobs (streams p') = jobs (streams p) ++ js -> Forall (eq false) (pr_ack <$> js) ->
  outputs p' = outputs p ->
  stream_awaits_ordinary_outputs (reader p') = stream_awaits_ordinary_outputs (reader p) ->
  waits_outputs (at_point (reader p)) = false -> waits_outputs (at_point (reader p')) = false ->
  (forall out b, at_point (reader p) = WaitBoundary out b -> stream_ack (streams p) = true) ->
  (forall out b, at_point (reader p') <> WaitBoundary out b) ->
  (forall e nm tx, at_point (reader p') = AtFeed e nm tx -> stream_awaits_ordinary_outputs (reader p') = false) ->
  plumbing p'.
Proof.
  intros Hp Hj Hjs Ho Ha Hw Hw' Hb Hb' Hf.
  pose proof (plumbing_unacked p Hp Hb) as Hold. pose proof (plumbing_no_acks p Hp Hw) as Hno. destruct Hp.
  assert (Forall (eq false) (pr_ack <$> jobs (streams p'))) by (rewrite Hj, fmap_app; by apply Forall_app).
  split; rewrite ?Ho, ?Ha, ?Hno, ?Hw'; try (done || (cbn; lia)).
  - unfold stream_plumbed. destruct (at_point (reader p')) eqn:E; try done. by destruct (Hb' out is_error).
  - intros e nm tx E. rewrite <- Ha. by apply (Hf e nm tx).
Qed.

(** The reader asks the output committer to drain and waits. *)
Lemma plumbing_asks p a :
  plumbing p -> waits_outputs (at_point (reader p)) = false -> waits_outputs a = true ->
  (forall out b, at_point (reader p) <> WaitBoundary out b) ->
  plumbing (go_to a (ask_output_order p)).
Proof.
  intros Hp Hw Ha Hb. pose proof (plumbing_no_acks p Hp Hw) as Hno.
  assert (Forall (eq false) (pr_ack <$> jobs (streams p))) as Hold
    by (apply plumbing_unacked; [done|]; intros out b E; by destruct (Hb out b)).
  destruct Hp.
  split; pl_simpl; rewrite ?acks_send, ?Hno; try (done || (cbn; lia)).
  - by destruct a.
  - rewrite requests_send, Forall_app. split; [done|]. by constructor.
  - intros e nm tx ->. done.
Qed.

(** The reader waits for an order of the stream committer. *)
Lemma plumbing_boundary p fs out b :
  plumbing p -> waits_outputs (at_point (reader p)) = false ->
  (forall out b, at_point (reader p) <> WaitBoundary out b) ->
  plumbing (go_to (WaitBoundary out b) (ask_stream_order fs p)).
Proof.
  intros Hp Hw Hb. pose proof (plumbing_no_acks p Hp Hw) as Hno.
  assert (Forall (eq false) (pr_ack <$> jobs (streams p))) as Hold
    by (apply plumbing_unacked; [done|]; intros o' b' E; by destruct (Hb o' b')).
  destruct Hp.
  split; pl_simpl; rewrite ?Hno; try (done || (cbn; lia)).
  exists (pr_ack <$> jobs (streams p)). by rewrite jobs_send, fmap_app.
Qed.

Lemma plumbing_set_flushes b p : plumbing p -> plumbing (set_flushes b p).
Proof. by intros []. Qed.
Lemma plumbing_signal s p : plumbing p -> plumbing (send_signal s p).
Proof. by intros []. Qed.
Lemma plumbing_terminals f p : plumbing p -> plumbing (with_terminals f p).
Proof. by intros []. Qed.
Lemma plumbing_document f p : plumbing p -> plumbing (with_document f p).
Proof. by intros []. Qed.

Lemma at_read_plain p : at_point (reader p) = AtRead ->
  waits_outputs (at_point (reader p)) = false /\ (forall out b, at_point (reader p) <> WaitBoundary out b).
Proof. by intros ->. Qed.

Lemma plumbing_read m reg order now p p' :
  plumbing p -> at_point (reader p) = AtRead -> read m reg order now p = Some p' -> plumbing p'.
Proof.
  intros Hp Hat. destruct (at_read_plain p Hat) as [Hw Hb].
  assert (forall a q, plumbing q -> at_point (reader q) = AtRead -> waits_outputs a = false ->
    (forall out b, a <> WaitBoundary out b) ->
    (forall e nm tx, a = AtFeed e nm tx -> stream_awaits_ordinary_outputs (reader q) = false) -> plumbing (go_to a q)) as Hgo.
  { intros a q Hq Haq Hwa Hba Hfa. apply (plumbing_moved q _ []); cbn; rewrite ?Haq, ?app_nil_r; try done. }
  unfold read, read_stream, read_output, read_idle. destruct m as [e nm tx|e k v rich|[e|]].
  - destruct reg; cbn [negb]; [|by intros [= <-]].
    destruct (stream_awaits_ordinary_outputs (reader p)) eqn:Ha; intros [= <-]; [by apply plumbing_asks|by apply Hgo].
  - destruct reg; cbn [negb]; [|by intros [= <-]]. destruct (order_ok e order p); [|done].
    unfold boundary_flushes. destruct (flush_execution order now _) as [b fs].
    destruct fs as [|f fs]; intros [= <-].
    + apply Hgo; [by apply plumbing_set_flushes|done..].
    + apply plumbing_boundary; [by apply plumbing_set_flushes|done..].
  - unfold boundary_flushes. destruct (flush_execution order now _) as [b fs].
    destruct (order_ok e order p); [|done]. destruct reg; intros [= <-].
    + apply plumbing_asks; [by apply plumbing_signal, plumbing_set_flushes|done..].
    + apply Hgo; [by apply plumbing_signal, plumbing_set_flushes|done..].
  - destruct reg; intros [= <-]; (apply Hgo; [by apply plumbing_signal|done..]).
Qed.

Lemma request_flush_same f p :
  jobs (streams (request_flush f p)) = jobs (streams p) /\ outputs (request_flush f p) = outputs p /\
  reader (request_flush f p) = reader p /\ stream_ack (streams (request_flush f p)) = stream_ack (streams p).
Proof. unfold request_flush. by case_decide. Qed.

Lemma plumbing_read_on now p p' : plumbing p -> read_on now p = Some p' -> plumbing p'.
Proof.
  intros Hp. unfold read_on. destruct (at_point (reader p)) eqn:Hat; [done|..].
  - destruct (output_ack (outputs p)) eqn:Hack; [|done]. intros [= <-]. destruct Hp. rewrite Hat in *.
    destruct pl_waited0 as [Hb Hq]; [done..|].
    assert (acks (outputs p) = []) as Hno.
    { destruct (acks (outputs p)); [done|]. destruct pl_acks0; [done|]. congruence. }
    split; pl_simpl; rewrite ?Hno; try (done || (cbn; lia)).
  - destruct (feed_chunk eid name text (stream_terminals p)) as [t pl].
    destruct (sealed pl); intros [= <-]; (apply (plumbing_moved p _ []); cbn; rewrite ?Hat, ?app_nil_r; done).
  - destruct (sealed placement) as [sl|].
    + cbn [go_to reader with_reader stream_flushes]. destruct (take_segment _ now _) as [b f]. intros [= <-].
      destruct f as [f|].
      * apply (plumbing_moved p _ [mkPriority [f] None false]); cbn; rewrite ?Hat; try done; [apply jobs_send|by constructor].
      * apply (plumbing_moved p _ []); cbn; rewrite ?Hat, ?app_nil_r; done.
    + intros [= <-]. apply (plumbing_moved p _ []); cbn; rewrite ?Hat, ?app_nil_r; done.
  - destruct (record_chunk _ len now _) as [b f]. intros [= <-]. destruct f as [f|].
    + destruct (request_flush_same f (go_to AtRead (set_flushes b p))) as (Hj & Ho & Hr & _).
      apply (plumbing_moved p _ []); rewrite ?Hj, ?Ho, ?Hr; cbn; rewrite ?Hat, ?app_nil_r; done.
    + apply (plumbing_moved p _ []); cbn; rewrite ?Hat, ?app_nil_r; done.
  - destruct (stream_ack (streams p)) eqn:Hack; [|done]. intros [= <-].
    apply (plumbing_moved p _ []); cbn; rewrite ?Hat, ?app_nil_r; done.
  - intros [= <-]. apply (plumbing_moved p _ []); cbn; rewrite ?Hat, ?app_nil_r; done.
  - case_decide as Hlen; [|done]. intros [= <-]. destruct Hp. rewrite Hat in *.
    assert (acks (outputs p) = []) as Hno.
    { destruct (acks (outputs p)); [done|]. by destruct pl_acks0. }
    split; pl_simpl; rewrite ?Hno; try (done || (cbn; lia)).
    + by destruct is_error.
    + by destruct is_error.
    + intros r Hr Hack. by rewrite (no_acks_request _ _ r Hno) in Hack by (by rewrite Hr).
    + by destruct is_error.
  - intros [= <-]. destruct Hp. rewrite Hat in *.
    assert (acks (outputs p) = []) as Hno.
    { destruct (acks (outputs p)); [done|]. by destruct pl_acks0. }
    split; pl_simpl; rewrite ?acks_send, ?Hno; try done; [apply le_S, le_n|].
    rewrite requests_send, Forall_app. split; [done|]. by constructor.
  - destruct (output_ack (outputs p)) eqn:Hack; [|done]. intros [= <-]. destruct Hp. rewrite Hat in *.
    assert (acks (outputs p) = []) as Hno.
    { destruct (acks (outputs p)); [done|]. destruct pl_acks0; [done|]. congruence. }
    split; pl_simpl; rewrite ?Hno; try (done || (cbn; lia)).
  - intros [= <-]. apply (plumbing_moved p _ [mkPriority final (Some (ExecutionDone eid)) false]);
      cbn; rewrite ?Hat; try done; [apply jobs_send|by constructor].
  - destruct final as [|f fs]; intros [= <-].
    + apply (plumbing_moved p _ []); cbn; rewrite ?Hat, ?app_nil_r; done.
    + destruct (request_flush_same f p) as (Hj & Ho & Hr & _).
      apply (plumbing_moved p _ []); cbn; rewrite ?Hj, ?Ho, ?Hr, ?Hat, ?app_nil_r; done.
Qed.

(** *** The committers *)

Lemma plumbed_cons a k l : stream_plumbed a k l -> stream_plumbed a k (false :: l).
Proof.
  unfold stream_plumbed. destruct a; try by constructor. destruct k; [by constructor|].
  intros (l' & -> & Hl). exists (false :: l'). split; [done|]. by constructor.
Qed.
Lemma plumbed_tail a k l : stream_plumbed a k (false :: l) -> stream_plumbed a k l.
Proof.
  unfold stream_plumbed. destruct a; try by inversion 1. destruct k; [by inversion 1|].
  intros ([|b l'] & E & Hl); [done|]. injection E as <- ->. exists l'. split; [done|]. by inversion Hl.
Qed.
Lemma plumbed_ack a k l : stream_plumbed a k (true :: l) -> stream_plumbed a true l.
Proof.
  unfold stream_plumbed. destruct a; try by inversion 1. destruct k; [by inversion 1|].
  intros ([|b l'] & E & Hl); [by injection E as ->|]. injection E as <- ->. inversion Hl. done.
Qed.

Lemma plumbing_streams p p' :
  plumbing p -> reader p' = reader p -> outputs p' = outputs p ->
  stream_plumbed (at_point (reader p)) (stream_ack (streams p')) (pr_ack <$> jobs (streams p')) -> plumbing p'.
Proof. intros [] Hr Ho Hs. split; rewrite ?Hr, ?Ho; done. Qed.

Lemma plumbing_commit_on o p : plumbing p -> plumbing (commit_on o p).
Proof.
  intros Hp. pose proof (pl_stream p Hp) as Hs. unfold commit_on, jobs in *.
  destruct (committing (streams p)) as [| |job|job f known text|job f st] eqn:E.
  - destruct (priority (streams p)) as [|r rs] eqn:Er; apply (plumbing_streams p); try done;
      unfold jobs; pl_simpl; rewrite ?Er; done.
  - destruct (periodic (streams p)) as [|f fs] eqn:Er; apply (plumbing_streams p); try done.
    unfold jobs. cbn. by apply plumbed_cons.
  - destruct (pr_flushes job) as [|f rest].
    + cbn in Hs. destruct (pr_ack job) eqn:Ek.
      * destruct (pr_signal job); apply (plumbing_streams p); try done; by apply plumbed_ack in Hs.
      * destruct (pr_signal job); apply (plumbing_streams p); try done; by apply plumbed_tail in Hs.
    + by destruct (has_segment f (stream_terminals p)); apply (plumbing_streams p).
  - destruct o as [| |oid]; [by apply (plumbing_streams p)..|].
    destruct (transact _ (doc p)) as [d [[b oid']|]]; by apply (plumbing_streams p).
  - by apply (plumbing_streams p).
Qed.

Lemma plumbing_outputs p p' :
  plumbing p -> reader p' = reader p -> streams p' = streams p ->
  all_requests (outputs p') = all_requests (outputs p) -> output_ack (outputs p') = output_ack (outputs p) ->
  (batch_of (batching (outputs p)) = [] /\ output_queue (outputs p) = [] ->
   batch_of (batching (outputs p')) = [] /\ output_queue (outputs p') = []) ->
  (length (batch_of (batching (outputs p'))) <= OUTPUT_COMMIT_BATCH_SIZE)%nat ->
  (forall r, batching (outputs p') = Preparing [] (Some r) -> or_ack r = true -> output_queue (outputs p') = []) ->
  plumbing p'.
Proof.
  intros [] Hr Hs Ha Hk Hq Hlen Hd. split; unfold acks_of in *; rewrite ?Hr, ?Hs, ?Ha, ?Hk; auto.
Qed.

Lemma plumbing_batch_on o p p' : plumbing p -> batch_on o p = Some p' -> plumbing p'.
Proof.
  intros Hp. pose proof (pl_batch p Hp) as Hlen. unfold batch_on.
  destruct (batching (outputs p)) as [| |batch req|batch req] eqn:E.
  - destruct (requests (outputs p)) as [|r rs] eqn:Er; intros [= <-]; apply (plumbing_outputs p); pl_simpl;
      rewrite ?E, ?Er; try done; try lia; cbn; unfold OUTPUT_COMMIT_BATCH_SIZE; lia.
  - destruct (output_queue (outputs p)) as [|r rs] eqn:Er; intros [= <-]; apply (plumbing_outputs p); pl_simpl;
      rewrite ?E, ?Er; try done; try (by intros []); cbn; unfold OUTPUT_COMMIT_BATCH_SIZE; lia.
  - case_decide as Hl; [destruct (output_queue (outputs p)) as [|x q] eqn:Eq|]; intros [= <-];
      apply (plumbing_outputs p); pl_simpl; rewrite ?E, ?Eq; try done.
    + by intros [].
    + rewrite length_app. cbn. lia.
    + intros r [= -> ->]. unfold OUTPUT_COMMIT_BATCH_SIZE in *. cbn in Hl. lia.
  - assert (forall outcome, match outcome with
      | None => Some (batch_at (match req with Some _ => Collecting [] req | None => PollRequests end) p)
      | Some prepared => if decide (length prepared = length batch)
          then Some (batch_at (match req with Some _ => Collecting [] req | None => PollRequests end)
            (with_document (commit_output_batch batch prepared) p)) else None end = Some p' -> plumbing p') as Hgo.
    { intros [prepared|]; [case_decide; [|done]|]; destruct req; intros [= <-]; apply (plumbing_outputs p);
        pl_simpl; rewrite ?E; try done; try naive_solver; cbn; lia. }
    destruct batch as [|x batch]; [|by destruct req; apply Hgo]. destruct req as [r|].
    + intros [= <-]. pose proof (pl_drained p Hp r E) as Hdr. destruct Hp. rewrite E in *.
      unfold acks_of, requests_of in *. pl_simpl. change (option_list (Some r) ++ ?l) with (r :: l) in *.
      destruct (or_ack r) eqn:Er.
      * rewrite filter_cons_True in pl_one0, pl_acks0 by done. cbn in pl_one0.
        assert (filter (fun r => or_ack r = true) (requests (outputs p)) = []) as Hno by (apply nil_length_inv; lia).
        specialize (Hdr eq_refl). apply Forall_cons in pl_signals0 as [_ Hsig].
        destruct (or_signal r); split; unfold acks_of, requests_of; pl_simpl; change (option_list None ++ ?l) with l; rewrite ?Hno; try done; cbn; lia.
      * rewrite filter_cons_False in pl_one0, pl_acks0 by congruence. apply Forall_cons in pl_signals0 as [_ Hsig].
        destruct (or_signal r); split; unfold acks_of, requests_of; pl_simpl; change (option_list None ++ ?l) with l; try done; cbn; lia.
    + intros [= <-]. apply (plumbing_outputs p); pl_simpl; rewrite ?E; try done.
Qed.

Lemma plumbing_step s p p' : plumbing p -> pstep s p = Some p' -> plumbing p'.
Proof.
  destruct s as [m reg order now|now|o|o]; cbn [pstep]; intros Hp.
  - destruct (at_point (reader p)) eqn:E; try done. by apply plumbing_read.
  - by apply plumbing_read_on.
  - intros [= <-]. by apply plumbing_commit_on.
  - by apply plumbing_batch_on.
Qed.

End Plumbing.
