(* ===== verification/OutputOrder.v ===== *)
(** * The outputs of an execution, in order

    What the pipeline of [OutputPipeline] promises for one execution: the outputs in the
    document are its messages in the order the kernel sent them, consecutive text of one
    stream joined, each segment with its own text and each output once, by the time the
    execution is reported done.  The promise holds in every interleaving that keeps the
    stream committer out of four windows; the examples at the end show, window by window,
    a run through it that loses, repeats or reorders output. *)

From S2P Require Import Prelude Kernel Automunge RuntimeDoc RuntimeOutputs Text TerminalText StreamSegments OutputPipeline OutputSpec OutputPlumbing.

Section OutputsInOrder.
Context {EM : Emulator} {ENV : OutputEnv} {OM : OutputManifests} {ML : ManifestLaws}.
Variables (eid : string) (d0 : RuntimeStateDoc).

Abbreviation mine := (of_exec eid).
Abbreviation done_signal := (Some (ExecutionDone eid)).

(** ** The invariant *)

(** What is known of the execution: what the messages fed to the committers so far come
    to before the terminals were last cleared, and the rows of the document for it and for
    the segments written for good; those segments, those sealed since, the one that takes
    text; the row of the first of the latter: its output id and the text it shows. *)
Record Ghost := mkGhost {
  fed : list Item;
  closed : list Shown; rows : list (string * json);
  retired : list SegText; sealed_live : list SegText; current : option SegText;
  row : option (string * string);
}.

Definition unret (g : Ghost) : list SegText := sealed_live g ++ option_list (current g).
Definition known_keys (g : Ghost) : list SegmentKey := (retired g ++ unret g).*1.
Definition sealed_keys (g : Ghost) : list SegmentKey := (sealed_live g).*1.
Definition current_key (g : Ghost) : option SegmentKey := fst <$> current g.

Definition state_of (x : string * string) : StreamOutputState := mkStreamState x.1 (manifest_blob_hash x.2).

Definition row_list (g : Ghost) : list (string * json) :=
  match row g, unret g with
  | Some (oid, text), x :: _ => [(oid, stream_manifest oid x.1.1.2 text)]
  | _, _ => []
  end.

Definition outputs_of (d : RuntimeStateDoc) : list (string * json) := output_list (exec_outputs eid d).
Definition next_of (d : RuntimeStateDoc) : Z := next_seq (scan_output_order (exec_outputs eid d)).

Record doc_ok (n : Z) (g : Ghost) (d : RuntimeStateDoc) : Prop := {
  d_wf : outputs_wf d;
  d_has : has_execution eid d;
  d_list : outputs_of d = outputs_of d0 ++ rows g ++ row_list g;
  d_next : next_of d <= next_of d0 + 128 * n;
  d_rows : Forall2 shows (closed g ++ (seg_shown <$> retired g)) (rows g);
  d_row : forall x, row g = Some x -> x.1 <> "" /\ unret g <> [];
}.

(** The committer knows the row of the first segment, and nothing of the others; a sealed
    segment is written with all its text. *)
Record states_ok (g : Ghost) (com : StreamCommitter) (t : StreamTerminals) : Prop := {
  s_others : forall key, mine key -> (forall x l, unret g = x :: l -> key <> x.1) -> output_states t !! key = None;
  s_first : (forall job f st, com = Written job f st -> ~ mine f) ->
    forall x l, unret g = x :: l -> output_states t !! x.1 = state_of <$> row g;
  s_rendered : forall job f known text, com = Rendered job f known text -> mine f ->
    exists x l, unret g = x :: l /\ f = x.1 /\ known = state_of <$> row g /\
      (sealed_live g <> [] -> text = final_text x.2);
  s_written : forall job f st, com = Written job f st -> mine f ->
    exists x l r, unret g = x :: l /\ f = x.1 /\ row g = Some r /\ st = state_of r /\
      (sealed_live g <> [] -> r.2 = final_text x.2);
}.

Definition my_queue (s : StreamQueues) : list SegmentKey :=
  filter (of_exec eid) (option_list (in_flight (committing s)) ++ waiting s).

(** The segment whose last flush the reader is about to ask for. *)
Definition sealing (a : ReaderAt) : option SegmentKey :=
  match a with
  | AtSeal e name len pl =>
      if decide (e = eid) then (fun s => (eid, sealed_stream_name s, sealed_segment s)) <$> sealed pl else None
  | _ => None
  end.

Record queue_ok (g : Ghost) (a : ReaderAt) (s : StreamQueues) : Prop := {
  q_order : in_order (my_queue s) (sealed_keys g) (current_key g);
  q_drain : drain (my_queue s) (sealed_keys g) = [] \/
    exists k, sealing a = Some k /\ drain (my_queue s) (sealed_keys g) = [k];
  q_known : current g <> None -> forall f, mine f -> f ∈ periodic s ++ my_queue s -> f ∈ known_keys g;
  q_new : sealing a <> None -> forall f, mine f -> current_key g = Some f -> f ∉ periodic s ++ my_queue s;
}.

Definition my_pending (o : OutputQueues) : list OrdinaryOutputCommit :=
  filter (fun o => out_execution_id o = eid) (batch_of (batching o) ++ output_queue o).

Definition reader_items (a : ReaderAt) : list Item :=
  match a with
  | WaitOutputs e name text | AtFeed e name text => if decide (e = eid) then [Chunk name text] else []
  | WaitBoundary out _ | AtClear out _ | AtEnqueue out _ => if decide (out_execution_id out = eid) then [Output out] else []
  | _ => []
  end.
Definition at_enqueue (a : ReaderAt) : Prop := match a with AtEnqueue out _ => out_execution_id out = eid | _ => False end.

Record pending_ok (g : Ghost) (a : ReaderAt) (o : OutputQueues) : Prop := {
  p_order : coalesce (fed g) = closed g ++ (Ordinary <$> my_pending o) ++ (seg_shown <$> (retired g ++ unret g));
  p_alone : my_pending o <> [] -> current g = None;
  p_open : current g = None -> ~ at_enqueue a -> forall nm tx, last (coalesce (fed g)) <> Some (Segment nm tx);
}.

(** The text of the current segment is in the document, or will be by the end of these jobs. *)
Definition saved (g : Ghost) (com : StreamCommitter) (c : SegText) : Prop :=
  sealed_live g = [] /\ (exists oid, row g = Some (oid, final_text c.2)) /\
  (forall job f known text, com = Rendered job f known text -> mine f -> text = final_text c.2).
Definition being_saved (com : StreamCommitter) (c : SegText) : Prop :=
  exists job known, com = Rendered job c.1 known (final_text c.2).
Definition all_saved (g : Ghost) (com : StreamCommitter) : Prop := forall c, current g = Some c -> saved g com c.
Definition will_save (g : Ghost) (com : StreamCommitter) (js : list PriorityStreamCommit) : Prop :=
  forall c, current g = Some c -> c.1 ∈ (js ≫= pr_flushes) \/ being_saved com c \/ saved g com c.

Definition not_done (p : Pipeline) : Prop :=
  ~ (ExecutionDone eid ∈ sent p) /\ ~ (done_signal ∈ (pr_signal <$> jobs (streams p))).
Definition recorded (g : Ghost) (p : Pipeline) : Prop :=
  forall c, current g = Some c -> is_Some (entries (stream_flushes (reader p)) !! c.1).
Definition done_phase (g : Ghost) (p : Pipeline) : Prop :=
  my_pending (outputs p) = [] /\
  (all_saved g (committing (streams p)) \/
   ~ (ExecutionDone eid ∈ sent p) /\ exists i j, jobs (streams p) !! i = Some j /\
     pr_signal j = done_signal /\ ~ (done_signal ∈ (pr_signal <$> take i (jobs (streams p)))) /\
     will_save g (committing (streams p)) (take (S i) (jobs (streams p)))).
Definition resting (ended : bool) (g : Ghost) (p : Pipeline) : Prop :=
  if ended then done_phase g p else recorded g p /\ not_done p.

Definition foreign (fs : list PendingStreamFlush) : Prop := Forall (fun f => ~ mine f) fs.
Definition lists_current (g : Ghost) (fs : list PendingStreamFlush) : Prop :=
  (forall c, current g = Some c -> c.1 ∈ fs) /\ (forall f, f ∈ fs -> f ∈ known_keys g).
Definition no_entries (r : Reader) : Prop := forall key, mine key -> ~ is_Some (entries (stream_flushes r) !! key).

(** What holds where the reader is. *)
Definition point_ok (ended : bool) (g : Ghost) (p : Pipeline) : Prop :=
  match at_point (reader p) with
  | AtRead | AtSignal _ => resting ended g p
  | WaitOutputs e _ _ | AtFeed e _ _ => resting ended g p /\ (e = eid -> ended = false)
  | AtSeal e name _ pl =>
      if decide (e = eid)
      then ended = false /\ not_done p /\ current_key g = Some (eid, name, segment pl) /\
        exists k, sealing (at_point (reader p)) = Some k /\ is_Some (entries (stream_flushes (reader p)) !! k)
      else resting ended g p
  | AtRecord e name _ seg =>
      if decide (e = eid) then ended = false /\ not_done p /\ current_key g = Some (eid, name, seg) else resting ended g p
  | WaitBoundary out _ =>
      if decide (out_execution_id out = eid)
      then ended = false /\ not_done p /\ no_entries (reader p) /\
        (if stream_ack (streams p) then all_saved g (committing (streams p))
         else will_save g (committing (streams p)) (jobs (streams p)))
      else resting ended g p
  | AtClear out _ =>
      if decide (out_execution_id out = eid)
      then ended = false /\ not_done p /\ no_entries (reader p) /\ all_saved g (committing (streams p)) else resting ended g p
  | AtEnqueue out _ =>
      if decide (out_execution_id out = eid) then ended = false /\ not_done p /\ current g = None else resting ended g p
  | WaitDrain e fs =>
      if decide (e = eid) then ended = true /\ not_done p /\ lists_current g fs else resting ended g p /\ foreign fs
  | AtFinish e fs =>
      if decide (e = eid) then ended = true /\ not_done p /\ my_pending (outputs p) = [] /\ lists_current g fs
      else resting ended g p /\ foreign fs
  | AtRequest fs => resting ended g p /\ foreign fs
  end.

Record good (n : Z) (ended : bool) (hist : list Item) (g : Ghost) (p : Pipeline) : Prop := {
  g_terms : terms_ok n eid (retired g) (sealed_live g) (current g) (stream_terminals p);
  g_doc : doc_ok n g (doc p);
  g_states : states_ok g (committing (streams p)) (stream_terminals p);
  g_queue : queue_ok g (at_point (reader p)) (streams p);
  g_pending : pending_ok g (at_point (reader p)) (outputs p);
  g_entries : forall key, mine key -> is_Some (entries (stream_flushes (reader p)) !! key) -> key ∈ known_keys g;
  g_point : point_ok ended g p;
  g_hist : hist = fed g ++ reader_items (at_point (reader p));
}.

Definition nothing : Ghost := mkGhost [] [] [] [] [] None None.

Lemma terms_ok_new : terms_ok 0 eid [] [] None new_terminals.
Proof.
  split; cbn; try done; try by constructor.
  - intros x Hx%elem_of_nil. done.
  - intros key _. split; [by intros ?%elem_of_empty|by intros ?%elem_of_nil].
  - intros x Hx%elem_of_nil. done.
Qed.

Lemma good_start : outputs_wf d0 -> has_execution eid d0 -> good 0 false [] nothing (start d0).
Proof.
  intros Hwf Hh. split; cbn; try done.
  - apply terms_ok_new.
  - split; try done; [by rewrite app_nil_r|lia].
  - split; try done. by left.
  - by intros key _ [x Hx].
  - split; [done|]. split; by intros ?%elem_of_nil.
Qed.

(** ** The segments *)

Lemma mine_live n g t key :
  terms_ok n eid (retired g) (sealed_live g) (current g) t -> key ∈ known_keys g -> mine key.
Proof.
  intros [] (x & -> & Hx)%list_elem_of_fmap. rewrite Forall_forall in t_exec. by apply t_exec.
Qed.

Lemma mine_current n g t c :
  terms_ok n eid (retired g) (sealed_live g) (current g) t -> current g = Some c -> mine c.1.
Proof.
  intros Ht Hc. eapply mine_live; [done|]. unfold known_keys, unret. rewrite Hc, !fmap_app, !elem_of_app. right. right. by left.
Qed.

Lemma unret_NoDup n g t : terms_ok n eid (retired g) (sealed_live g) (current g) t -> NoDup (unret g).*1.
Proof. intros []. rewrite fmap_app in t_nodup. by apply NoDup_app in t_nodup as (_ & _ & ?). Qed.

Lemma live_terminal n g t f :
  terms_ok n eid (retired g) (sealed_live g) (current g) t -> mine f -> has_segment f t = true -> f ∈ (unret g).*1.
Proof.
  intros [] Hf Hs. destruct (decide (f ∈ (unret g).*1)) as [|Hn]; [done|]. unfold has_segment in Hs.
  apply bool_decide_eq_true in Hs as [x Hx]. destruct (t_gone f Hf Hn) as [Hg _]. congruence.
Qed.

Lemma live_render n g t x :
  terms_ok n eid (retired g) (sealed_live g) (current g) t -> x ∈ unret g ->
  has_segment x.1 t = true /\ default "" (render_segment x.1 t) = final_text x.2.
Proof.
  intros [] Hx. destruct (t_live x Hx) as [Hl _]. unfold has_segment, render_segment. rewrite Hl. by rewrite bool_decide_eq_true_2.
Qed.

(** A flush that comes first is of the first segment, or of one that is gone. *)
Lemma first_flush g f q :
  in_order (f :: q) (sealed_keys g) (current_key g) -> f ∈ (unret g).*1 -> exists x l, unret g = x :: l /\ f = x.1.
Proof.
  unfold sealed_keys, current_key, unret. destruct (sealed_live g) as [|k ks]; cbn [fmap list_fmap app].
  - intros _. destruct (current g) as [c|]; intros Hf; [|by apply elem_of_nil in Hf].
    exists c, []. split; [done|]. by apply list_elem_of_singleton in Hf.
  - intros (Hn & Hl & _) Hf. exists k, (ks ++ option_list (current g)). split; [done|].
    rewrite fmap_app, elem_of_cons, elem_of_app in Hf. destruct Hf as [|[Hf|Hf]]; [done..|].
    destruct (current g) as [c|]; [|by apply elem_of_nil in Hf]. apply list_elem_of_singleton in Hf. by destruct Hl; subst f.
Qed.

(** ** Moves of the stream committer *)

(** What was saved or being saved still is. *)
Definition keeps (g : Ghost) (com : StreamCommitter) (g' : Ghost) (com' : StreamCommitter) : Prop :=
  forall c, current g = Some c -> (saved g com c -> saved g' com' c) /\ (being_saved com c -> being_saved com' c \/ saved g' com' c).

Lemma keeps_all g com g' com' : keeps g com g' com' -> current g' = current g -> all_saved g com -> all_saved g' com'.
Proof. intros Hk Hc Ha c. rewrite Hc. intros E. by apply (Hk c E), Ha. Qed.

(** The answer the reader waits for says that the text is saved. *)
Definition boundary_ok (g : Ghost) (p : Pipeline) : Prop :=
  if stream_ack (streams p) then all_saved g (committing (streams p))
  else will_save g (committing (streams p)) (jobs (streams p)).

Lemma point_committer ended g g' p p' :
  point_ok ended g p -> reader p' = reader p -> (my_pending (outputs p) = [] -> my_pending (outputs p') = []) -> current g' = current g -> known_keys g' = known_keys g ->
  (all_saved g (committing (streams p)) -> all_saved g' (committing (streams p'))) ->
  (not_done p -> not_done p') -> (done_phase g p -> done_phase g' p') ->
  (forall out b, at_point (reader p) = WaitBoundary out b -> boundary_ok g p -> boundary_ok g' p') ->
  point_ok ended g' p'.
Proof.
  intros Hp Hr Ho Hc Hk Hall Hnd Hd Hb. unfold boundary_ok in Hb.
  assert (recorded g p -> recorded g' p') as Hrec by (intros H c; rewrite Hc, Hr; by apply H).
  assert (resting ended g p -> resting ended g' p') as Hrest by (unfold resting; destruct ended; naive_solver).
  unfold point_ok in *. rewrite Hr. destruct (at_point (reader p)); unfold current_key, lists_current in *; rewrite ?Hc, ?Hk;
    repeat case_decide; naive_solver.
Qed.

(** The jobs stay, or the first one has written a flush. *)
Lemma point_jobs ended g g' p p' :
  point_ok ended g p -> reader p' = reader p -> outputs p' = outputs p -> sent p' = sent p ->
  stream_ack (streams p') = stream_ack (streams p) -> current g' = current g -> known_keys g' = known_keys g ->
  pr_signal <$> jobs (streams p') = pr_signal <$> jobs (streams p) ->
  keeps g (committing (streams p)) g' (committing (streams p')) ->
  (forall c n, current g = Some c -> c.1 ∈ (take n (jobs (streams p)) ≫= pr_flushes) ->
    c.1 ∈ (take n (jobs (streams p')) ≫= pr_flushes) \/ being_saved (committing (streams p')) c \/
    saved g' (committing (streams p')) c) ->
  point_ok ended g' p'.
Proof.
  intros Hp Hr Ho Hs Ha Hc Hkn Hsig Hk Hj.
  assert (forall n, will_save g (committing (streams p)) (take n (jobs (streams p))) ->
    will_save g' (committing (streams p')) (take n (jobs (streams p')))) as Hw.
  { intros n Hw c. rewrite Hc. intros E. destruct (Hw c E) as [Hin|[Hb|Hsv]]; [by apply Hj|right..].
    - by apply (Hk c E). - right. by apply (Hk c E). }
  assert (all_saved g (committing (streams p)) -> all_saved g' (committing (streams p'))) as Hall by (by apply keeps_all).
  apply (point_committer ended g g' p); rewrite ?Ho; try done.
  - intros [H1 H2]. split; [by rewrite Hs|by rewrite Hsig].
  - intros [H1 H2]. split; [by rewrite Ho|]. destruct H2 as [H2|(H2 & i & j & Hi & Hj' & Hfst & Hw')]; [left; by apply Hall|right].
    split; [by rewrite Hs|]. assert ((pr_signal <$> jobs (streams p')) !! i = Some done_signal) as Hi'
      by (rewrite Hsig, list_lookup_fmap, Hi; cbn; by rewrite Hj').
    apply list_lookup_fmap_Some in Hi' as (j' & Hj2 & Hi'). exists i, j'. split; [done|]. split; [done|].
    rewrite fmap_take, Hsig, <- fmap_take. split; [done|]. by apply Hw.
  - intros out b _. unfold boundary_ok. rewrite Ha. pose proof (Hw (length (jobs (streams p)))) as Hwb.
    assert (length (jobs (streams p)) = length (jobs (streams p'))) as Hlen by (apply (f_equal length) in Hsig; by rewrite !length_fmap in Hsig).
    rewrite Hlen in Hwb at 2. rewrite !firstn_all in Hwb. by destruct (stream_ack (streams p)).
Qed.

(** A periodic flush becomes a job of its own. *)
Lemma point_started ended g p p' f :
  point_ok ended g p -> reader p' = reader p -> outputs p' = outputs p -> sent p' = sent p ->
  stream_ack (streams p') = stream_ack (streams p) ->
  committing (streams p) = PollPeriodic -> jobs (streams p) = [] ->
  jobs (streams p') = [mkPriority [f] None false] -> committing (streams p') = Starting (mkPriority [f] None false) ->
  point_ok ended g p'.
Proof.
  intros Hp Hr Ho Hs Ha Hcom Hj Hj' Hcom'.
  assert (forall c, saved g (committing (streams p)) c -> saved g (committing (streams p')) c) as Hsv.
  { intros c (H1 & H2 & _). split; [done|]. split; [done|]. by rewrite Hcom'. }
  assert (all_saved g (committing (streams p)) -> all_saved g (committing (streams p'))) as Hall by (intros H c E; by apply Hsv, H).
  apply (point_committer ended g g p); rewrite ?Ho; try done.
  - intros [H1 H2]. split; [by rewrite Hs|]. rewrite Hj'. cbn. by intros ?%list_elem_of_singleton.
  - intros [H1 H2]. split; [by rewrite Ho|]. destruct H2 as [H2|(H2 & i & j & Hi & _)]; [left; by apply Hall|]. by rewrite Hj in Hi.
  - intros out b _. unfold boundary_ok. rewrite Ha. destruct (stream_ack (streams p)); [done|].
    intros Hw c E. right. destruct (Hw c E) as [Hin|[(job & known & Hb)|Hd]]; [|congruence|right; by apply Hsv].
    rewrite Hj in Hin. by apply elem_of_nil in Hin.
Qed.

(** The first job is done. *)
Lemma point_finished ended g p p' job js :
  point_ok ended g p -> plumbing p -> reader p' = reader p -> outputs p' = outputs p ->
  jobs (streams p) = job :: js -> pr_flushes job = [] -> jobs (streams p') = js ->
  sent p' = sent p ++ option_list (pr_signal job) ->
  stream_ack (streams p') = (if pr_ack job then true else stream_ack (streams p)) ->
  committing (streams p) = Starting job -> committing (streams p') = PollPriority ->
  point_ok ended g p'.
Proof.
  intros Hp Hpl Hr Ho Hj Hf Hj' Hs Ha Hcom Hcom'.
  assert (forall c, saved g (committing (streams p)) c -> saved g (committing (streams p')) c) as Hsv.
  { intros c (H1 & H2 & _). split; [done|]. split; [done|]. by rewrite Hcom'. }
  assert (all_saved g (committing (streams p)) -> all_saved g (committing (streams p'))) as Hall by (intros H c E; by apply Hsv, H).
  assert (forall l, will_save g (committing (streams p)) (job :: l) -> will_save g (committing (streams p')) l) as Hw.
  { intros l Hw c E. destruct (Hw c E) as [Hin|[(job' & known & Hb)|Hd]]; [left|congruence|right; right; by apply Hsv].
    cbn in Hin. by rewrite Hf in Hin. }
  assert (will_save g (committing (streams p)) [job] -> all_saved g (committing (streams p'))) as Hw1.
  { intros H%Hw c E. destruct (H c E) as [Hin|[(job' & known & Hb)|Hd]]; [by apply elem_of_nil in Hin|congruence|done]. }
  apply (point_committer ended g g p); rewrite ?Ho; try done.
  - intros [H1 H2]. rewrite Hj in H2. cbn in H2. split; [|rewrite Hj'; intros H; apply H2; by right].
    rewrite Hs, elem_of_app. intros [H|H]; [done|]. destruct (pr_signal job) as [sg|]; [|by apply elem_of_nil in H].
    apply list_elem_of_singleton in H as <-. apply H2. by left.
  - intros [H1 H2]. split; [by rewrite Ho|]. destruct H2 as [H2|(H2 & i & j & Hi & Hd & Hfst & H3)]; [left; by apply Hall|].
    rewrite Hj in Hi, Hfst, H3. destruct i as [|i]; [left; by apply Hw1|right]. cbn in Hi, Hfst.
    rewrite elem_of_cons in Hfst. split.
    + rewrite Hs, elem_of_app. intros [H|H]; [done|]. destruct (pr_signal job) as [sg|]; [|by apply elem_of_nil in H].
      apply list_elem_of_singleton in H as <-. tauto.
    + exists i, j. rewrite Hj'. split; [done|]. split; [done|]. split; [tauto|]. by apply Hw.
  - intros out b Hat. pose proof (pl_stream p Hpl) as Hst. unfold boundary_ok. rewrite Hat, Hj in Hst. unfold stream_plumbed in Hst.
    rewrite Ha, Hj, Hj'. destruct (pr_ack job) eqn:Ek.
    + destruct (stream_ack (streams p)); [done|]. destruct Hst as ([|b' l'] & E & Hl); cbn in E; rewrite Ek in E.
      * injection E as E. apply fmap_nil_inv in E as ->. apply Hw1.
      * injection E as <- E. by inversion Hl.
    + destruct (stream_ack (streams p)); [done|]. apply Hw.
Qed.

(** Only the stream committer moved. *)
Lemma good_streams n ended hist g p p' :
  good n ended hist g p -> reader p' = reader p -> outputs p' = outputs p -> stream_terminals p' = stream_terminals p ->
  doc p' = doc p -> states_ok g (committing (streams p')) (stream_terminals p) ->
  queue_ok g (at_point (reader p)) (streams p') -> point_ok ended g p' -> good n ended hist g p'.
Proof. intros [] Hr Ho Ht Hd Hst Hq Hp. split; rewrite ?Hr, ?Ho, ?Ht, ?Hd; done. Qed.

Lemma queue_same g a s s' :
  queue_ok g a s -> my_queue s' = my_queue s -> (forall f, mine f -> f ∈ periodic s' -> f ∈ periodic s) -> queue_ok g a s'.
Proof.
  intros [] Hq Hp. split; rewrite ?Hq; try done.
  - intros Hc f Hf. rewrite elem_of_app. intros [H|H]; apply q_known0; try done; rewrite elem_of_app; auto.
  - intros Ha f Hf Hc. rewrite elem_of_app. intros H. apply (q_new0 Ha f Hf Hc). rewrite elem_of_app.
    destruct H as [H|H]; [left; by apply Hp|by right].
Qed.

(** A flush that comes first is over: its segment is written for good or was gone. *)
Lemma queue_pop g g' a s s' f :
  queue_ok g a s -> my_queue s = f :: my_queue s' -> periodic s' = periodic s ->
  current g' = current g -> known_keys g' = known_keys g ->
  (sealed_keys g = f :: sealed_keys g' \/ ~ (f ∈ sealed_keys g) /\ sealed_keys g' = sealed_keys g) -> queue_ok g' a s'.
Proof.
  intros [] Hq Hp Hc Hk Hs. unfold current_key in *. rewrite Hq in q_order0, q_drain0, q_known0, q_new0.
  assert (in_order (my_queue s') (sealed_keys g') (fst <$> current g) /\
    drain (f :: my_queue s') (sealed_keys g) = drain (my_queue s') (sealed_keys g')) as [Ho Hd].
  { destruct Hs as [Hs|[Hn Hs]]; rewrite Hs in *; [by apply in_order_first|by apply in_order_gone]. }
  rewrite Hd in q_drain0. split; unfold current_key; rewrite ?Hc, ?Hk, ?Hp; try done.
  - intros Hne x Hx Hin. apply q_known0; [done|done|]. rewrite elem_of_app, elem_of_cons in *. tauto.
  - intros Ha x Hx Hcx Hin. apply (q_new0 Ha x Hx Hcx). rewrite elem_of_app, elem_of_cons in *. tauto.
Qed.

(** ** The steps of the stream committer *)

Lemma my_queue_job s job :
  job_of (committing s) = Some job ->
  my_queue s = filter (of_exec eid) (option_list (in_flight (committing s)) ++ pr_flushes job ++ (priority s ≫= pr_flushes)).
Proof. intros Hj. unfold my_queue, waiting, jobs. rewrite Hj. done. Qed.

Lemma states_quiet g com com' t : states_ok g com t -> in_flight com = None -> in_flight com' = None -> states_ok g com' t.
Proof.
  intros [] H H'. split; [done|..].
  - intros _ x l Hu. apply (s_first0) with (l := l); [|done]. intros job f st ->. done.
  - intros job f known text ->. done.
  - intros job f st ->. done.
Qed.

Lemma keeps_quiet g com com' : in_flight com = None -> in_flight com' = None -> keeps g com g com'.
Proof.
  intros H H' c _. split.
  - intros (H1 & H2 & _). split; [done|]. split; [done|]. intros job f known text ->. done.
  - intros (job & known & ->). done.
Qed.

(** A poll that finds nothing, or takes the next job. *)
Lemma good_poll n ended hist g p p' :
  good n ended hist g p -> reader p' = reader p -> outputs p' = outputs p -> stream_terminals p' = stream_terminals p ->
  doc p' = doc p -> sent p' = sent p -> stream_ack (streams p') = stream_ack (streams p) ->
  jobs (streams p') = jobs (streams p) -> periodic (streams p') = periodic (streams p) ->
  in_flight (committing (streams p)) = None -> in_flight (committing (streams p')) = None -> good n ended hist g p'.
Proof.
  intros Hg Hr Ho Ht Hd Hs Ha Hj Hp H H'. pose proof Hg as [].
  apply (good_streams n ended hist g p p'); try done.
  - by eapply states_quiet.
  - eapply queue_same; [done| |by rewrite Hp]. unfold my_queue, waiting. by rewrite Hj, H, H'.
  - apply (point_jobs ended g g p p'); try done; [by rewrite Hj|by apply keeps_quiet|].
    intros c m Hc. rewrite Hj. by left.
Qed.

(** A periodic flush is taken; no ordered one waits. *)
Lemma good_take n ended hist g p f fs :
  good n ended hist g p -> committing (streams p) = PollPeriodic -> periodic (streams p) = f :: fs -> priority (streams p) = [] ->
  good n ended hist g (commit_at (Starting (mkPriority [f] None false)) (set_periodic fs p)).
Proof.
  intros Hg Hcom Hper Hpri. pose proof Hg as [].
  assert (jobs (streams p) = []) as Hj by (unfold jobs; by rewrite Hcom, Hpri).
  assert (my_queue (streams p) = []) as Hq by (unfold my_queue, waiting; by rewrite Hj, Hcom).
  set (p' := commit_at _ _).
  assert (jobs (streams p') = [mkPriority [f] None false]) as Hj' by (unfold jobs; subst p'; cbn; by rewrite Hpri).
  assert (my_queue (streams p') = filter (of_exec eid) [f]) as Hq' by (unfold my_queue, waiting; rewrite Hj'; done).
  apply (good_streams n ended hist g p p'); try done.
  - by apply (states_quiet g (committing (streams p))); [|by rewrite Hcom|].
  - destruct g_queue0. rewrite Hq in *. cbn [drain app] in *. rewrite app_nil_r, Hper in *.
    assert (forall x, mine x -> x ∈ periodic (streams p') ++ my_queue (streams p') -> x ∈ f :: fs) as Hin.
    { intros x Hx. rewrite Hq', elem_of_app, elem_of_cons. intros [H|H]; [by right|left].
      apply list_elem_of_filter in H as [_ H]. by apply list_elem_of_singleton in H. }
    split; rewrite ?Hq'.
    + destruct (decide (mine f)) as [Hm|Hm]; [|by rewrite filter_cons_False by done].
      rewrite filter_cons_True by done. change (filter (of_exec eid) []) with (@nil SegmentKey).
      destruct q_drain0 as [E|(k & Hk & E)]; rewrite E; [done|]. split; [apply not_elem_of_nil|].
      split; [|by case_decide]. intros Hc. apply (q_new0 (ltac:(by rewrite Hk)) f Hm (eq_sym Hc)). by left.
    + destruct (decide (mine f)) as [Hm|Hm].
      * rewrite filter_cons_True by done. change (filter (of_exec eid) []) with (@nil SegmentKey).
        destruct q_drain0 as [E|(k & Hk & E)]; rewrite E; [by left|]. cbn. case_decide; [by left|right; by exists k].
      * by rewrite filter_cons_False by done.
    + intros Hc x Hx H. apply q_known0; [done|done|]. by apply Hin; rewrite ?Hq'.
    + intros Ha x Hx Hc H. apply (q_new0 Ha x Hx Hc). by apply Hin; rewrite ?Hq'.
  - by apply (point_started ended g p p' f).
Qed.

(** The job at hand is done. *)
Lemma good_finish n ended hist g p job :
  good n ended hist g p -> plumbing p -> committing (streams p) = Starting job -> pr_flushes job = [] ->
  good n ended hist g (commit_at PollPriority
    (let p := send_optional (pr_signal job) p in if pr_ack job then set_stream_ack true p else p)).
Proof.
  intros Hg Hpl Hcom Hf. pose proof Hg as []. set (p' := commit_at _ _).
  assert (reader p' = reader p /\ outputs p' = outputs p /\ stream_terminals p' = stream_terminals p /\ doc p' = doc p /\
    periodic (streams p') = periodic (streams p) /\ priority (streams p') = priority (streams p) /\
    committing (streams p') = PollPriority /\ sent p' = sent p ++ option_list (pr_signal job) /\
    stream_ack (streams p') = (if pr_ack job then true else stream_ack (streams p)))
    as (Hr & Ho & Ht & Hd & Hper & Hpri & Hcom' & Hs & Ha).
  { subst p'. destruct (pr_signal job), (pr_ack job); cbn; rewrite ?app_nil_r; done. }
  assert (jobs (streams p) = job :: priority (streams p)) as Hj by (unfold jobs; by rewrite Hcom).
  assert (jobs (streams p') = priority (streams p)) as Hj' by (unfold jobs; by rewrite Hcom', Hpri).
  apply (good_streams n ended hist g p p'); try done.
  - by apply (states_quiet g (committing (streams p))); [|rewrite Hcom|rewrite Hcom'].
  - eapply queue_same; [done| |by rewrite Hper]. unfold my_queue, waiting. rewrite Hj, Hj', Hcom, Hcom'. cbn. by rewrite Hf.
  - by apply (point_finished ended g p p' job (priority (streams p))).
Qed.

Lemma key_unique n g t x y :
  terms_ok n eid (retired g) (sealed_live g) (current g) t -> x ∈ unret g -> y ∈ unret g -> x.1 = y.1 -> x = y.
Proof.
  intros Ht Hx Hy E. pose proof (unret_NoDup n g t Ht) as Hnd.
  apply list_elem_of_lookup in Hx as [i Hi]. apply list_elem_of_lookup in Hy as [j Hj].
  assert (i = j) as ->; [|congruence]. eapply NoDup_lookup; [exact Hnd|by rewrite list_lookup_fmap, Hi|].
  rewrite list_lookup_fmap, Hj. cbn. by rewrite E.
Qed.

Lemma current_unret g c : current g = Some c -> c ∈ unret g.
Proof. intros Hc. unfold unret. rewrite Hc, elem_of_app. right. by apply list_elem_of_singleton. Qed.

(** When the first segment is the current one, none is sealed. *)
Lemma first_current n g t x l c :
  terms_ok n eid (retired g) (sealed_live g) (current g) t -> unret g = x :: l -> current g = Some c -> x.1 = c.1 ->
  x = c /\ sealed_live g = [].
Proof.
  intros Ht Hu Hc E. assert (x = c) as ->.
  { eapply key_unique; [done|rewrite Hu; by left|by apply current_unret|done]. }
  split; [done|]. pose proof (unret_NoDup n g t Ht) as Hnd. unfold unret in *. rewrite Hc in *.
  destruct (sealed_live g) as [|k S]; [done|]. injection Hu as -> _. rewrite fmap_app, NoDup_app in Hnd.
  destruct Hnd as (_ & Hd & _). destruct (Hd c.1); [by left|by apply list_elem_of_singleton].
Qed.

Lemma my_queue_mine s f : f ∈ my_queue s -> mine f.
Proof. unfold my_queue. by intros [H _]%list_elem_of_filter. Qed.

(** A flush of a segment that is gone is skipped. *)
Lemma good_skip n ended hist g p job f rest :
  good n ended hist g p -> committing (streams p) = Starting job -> pr_flushes job = f :: rest ->
  has_segment f (stream_terminals p) = false -> good n ended hist g (commit_at (Starting (pop_flush job rest)) p).
Proof.
  intros Hg Hcom Hf Hno. pose proof Hg as []. set (p' := commit_at _ p).
  assert (mine f -> ~ (f ∈ (unret g).*1)) as Hgone.
  { intros _ (x & -> & Hx)%list_elem_of_fmap. destruct (live_render n g (stream_terminals p) x) as [H _]; [done..|congruence]. }
  assert (jobs (streams p) = job :: priority (streams p)) as Hj by (unfold jobs; by rewrite Hcom).
  apply (good_streams n ended hist g p p'); try done.
  - by apply (states_quiet g (committing (streams p))); [|rewrite Hcom|].
  - assert (my_queue (streams p) = filter (of_exec eid) [f] ++ my_queue (streams p')) as Hq.
    { rewrite (my_queue_job (streams p) job), (my_queue_job (streams p') (pop_flush job rest)) by (by rewrite ?Hcom).
      rewrite Hcom, Hf, <- filter_app. done. }
    destruct (decide (mine f)) as [Hm|Hm].
    + rewrite filter_cons_True in Hq by done. apply (queue_pop g g _ (streams p) _ f); try done.
      right. split; [|done]. intros Hin. apply (Hgone Hm). unfold unret. rewrite fmap_app, elem_of_app. by left.
    + rewrite filter_cons_False in Hq by done. by apply (queue_same g _ (streams p)).
  - apply (point_jobs ended g g p p'); try done.
    + unfold jobs. subst p'. cbn. by rewrite Hcom.
    + apply keeps_quiet; [by rewrite Hcom|done].
    + intros c [|m] Hc; [by left|]. rewrite Hj. unfold jobs. subst p'. cbn. rewrite Hf. cbn. rewrite elem_of_cons.
      intros [H|H]; [|by left]. destruct (Hgone); [rewrite <- H; by eapply mine_current|].
      rewrite <- H. apply list_elem_of_fmap_2. by apply current_unret.
Qed.

(** A flush is rendered. *)
Lemma good_render n ended hist g p job f rest :
  good n ended hist g p -> committing (streams p) = Starting job -> pr_flushes job = f :: rest ->
  has_segment f (stream_terminals p) = true ->
  good n ended hist g (commit_at (Rendered (pop_flush job rest) f (get_segment_output_state f (stream_terminals p))
    (default "" (render_segment f (stream_terminals p)))) p).
Proof.
  intros Hg Hcom Hf Hyes. pose proof Hg as []. set (p' := commit_at _ p).
  assert (jobs (streams p) = job :: priority (streams p)) as Hj by (unfold jobs; by rewrite Hcom).
  assert (my_queue (streams p') = my_queue (streams p)) as Hq.
  { rewrite (my_queue_job (streams p) job), (my_queue_job (streams p') (pop_flush job rest)) by (by rewrite ?Hcom).
    by rewrite Hcom, Hf. }
  assert (mine f -> exists x l, unret g = x :: l /\ f = x.1 /\
    default "" (render_segment f (stream_terminals p)) = final_text x.2) as Hfirst.
  { intros Hm. destruct (first_flush g f (filter (of_exec eid) (rest ++ (priority (streams p) ≫= pr_flushes)))) as (x & l & Hu & ->).
    - pose proof (q_order _ _ _ g_queue0) as Ho. rewrite (my_queue_job (streams p) job), Hcom, Hf in Ho by (by rewrite Hcom).
      change (option_list (in_flight (Starting job)) ++ ?l) with l in Ho. change ((f :: rest) ++ ?l) with (f :: rest ++ l) in Ho.
      by rewrite filter_cons_True in Ho.
    - by eapply live_terminal.
    - exists x, l. split; [done|]. split; [done|]. eapply live_render; [done|]. rewrite Hu. by left. }
  apply (good_streams n ended hist g p p'); try done.
  - destruct g_states0. split; [done|..|done].
    + intros _. apply s_first0. intros job' f' st. by rewrite Hcom.
    + intros job' f' known text [= <- <- <- <-] Hm. destruct (Hfirst Hm) as (x & l & Hu & -> & Ht). exists x, l.
      split; [done|]. split; [done|]. split; [|done]. unfold get_segment_output_state. eapply s_first0; [|done].
      intros job' f' st. by rewrite Hcom.
  - by apply (queue_same g _ (streams p)).
  - apply (point_jobs ended g g p p'); try done.
    + unfold jobs. subst p'. cbn. by rewrite Hcom.
    + intros c Hc. split; [|by rewrite Hcom; intros (? & ? & ?)]. intros (H1 & H2 & _). split; [done|]. split; [done|].
      intros job' f' known text [= <- <- <- <-] Hm. destruct (Hfirst Hm) as (x & l & Hu & -> & ->).
      unfold unret in Hu. rewrite H1, Hc in Hu. by injection Hu as <- _.
    + intros c [|m] Hc; [by left|]. rewrite Hj. unfold jobs. subst p'. cbn. rewrite Hf. cbn. rewrite elem_of_cons.
      intros [H|H]; [|by left]. right. left. assert (mine f) as Hm by (rewrite <- H; by eapply mine_current).
      destruct (Hfirst Hm) as (x & l & Hu & Hx & Ht). destruct (first_current n g (stream_terminals p) x l c) as [-> _]; [done..|congruence|].
      subst f. do 2 eexists. rewrite Ht. done.
Qed.

Lemma terms_ok_mono n n' R S c t : terms_ok n eid R S c t -> n <= n' -> terms_ok n' eid R S c t.
Proof. intros Ht Hn. eapply terms_ok_same; [done|apply same_exec_refl|done]. Qed.

Lemma doc_ok_mono n n' g d : doc_ok n g d -> n <= n' -> doc_ok n' g d.
Proof. intros [] Hn. split; try done. lia. Qed.

Lemma good_mono n n' ended hist g p : good n ended hist g p -> n <= n' -> good n' ended hist g p.
Proof. intros [] Hn. split; try done; [by eapply terms_ok_mono|by eapply doc_ok_mono]. Qed.

Definition set_row (g : Ghost) (r : string * string) : Ghost :=
  mkGhost (fed g) (closed g) (rows g) (retired g) (sealed_live g) (current g) (Some r).

Definition space (n : Z) : Prop := next_of d0 + 128 * n <= u64_max.

(** The row of the first segment is written. *)
Lemma row_written n g d x l oid text :
  doc_ok n g d -> space (n + 1) -> unret g = x :: l -> mine x.1 -> oid <> "" -> ~ (oid ∈ output_ids eid d) ->
  exists d' b r, upsert_stream_output eid (stream_manifest oid x.1.1.2 text) (state_of <$> row g) d = (d', Ok (b, r.1)) /\
    r.2 = text /\ doc_ok (n + 1) (set_row g r) d'.
Proof.
  intros [] Hsp Hu Hm Hne Hfresh. unfold space in Hsp. pose proof (stream_manifest_id oid x.1.1.2 text Hne) as Hid.
  pose proof (stream_manifest_ok oid x.1.1.2 text) as Hok. unfold outputs_of, next_of, row_list in *.
  assert (room_for 1 eid d) as Hroom by (unfold room_for; lia). rewrite Hu in d_list0.
  assert (forall d' b r, lists 1 eid (output_list (exec_outputs eid d0) ++ rows g ++ [(r.1, stream_manifest r.1 x.1.1.2 text)]) d d' ->
    r.1 <> "" -> r.2 = text ->
    upsert_stream_output eid (stream_manifest oid x.1.1.2 text) (state_of <$> row g) d = (d', Ok (b, r.1)) ->
    exists d' b r, upsert_stream_output eid (stream_manifest oid x.1.1.2 text) (state_of <$> row g) d = (d', Ok (b, r.1)) /\
      r.2 = text /\ doc_ok (n + 1) (set_row g r) d') as Hdone.
  { intros d' b r [[Hwf' _ Hh'] Hl Hn] Hr Ht Hup. exists d', b, r. split; [done|]. split; [done|]. split; try done.
    - by apply Hh'.
    - unfold outputs_of, row_list. change (unret (set_row g r)) with (unret g). rewrite Hl, Hu. destruct r as [o t]. cbn in *. by subst.
    - unfold next_of. lia.
    - intros y [= <-]. change (unret (set_row g r)) with (unret g). by rewrite Hu. }
  destruct (row g) as [[o t]|] eqn:Hrow; cbn [fmap option_fmap option_map] in *.
  - destruct (d_row0 _ eq_refl) as [Ho _]. cbn in Ho.
    destruct (upsert_last eid (stream_manifest oid x.1.1.2 text) oid (state_of (o, t)) (output_list (exec_outputs eid d0) ++ rows g)
      (stream_manifest o x.1.1.2 t) d) as (d' & b & Hup & Hl); try done.
    + rewrite d_list0. by rewrite <- app_assoc.
    + pose proof (output_list_NoDup (exec_outputs eid d)) as Hnd. by rewrite d_list0, app_assoc in Hnd.
    + apply stream_manifest_content.
    + rewrite stream_manifest_patched, <- app_assoc in Hl by done. by apply (Hdone d' b (o, text)).
  - destruct (upsert_new eid (stream_manifest oid x.1.1.2 text) oid d) as (d' & b & Hup & Hl); try done.
    rewrite d_list0, app_nil_r, <- app_assoc in Hl. by apply (Hdone d' b (oid, text)).
Qed.

(** Only the row changed. *)
Lemma good_row n ended hist g p p' r :
  good n ended hist g p -> reader p' = reader p -> outputs p' = outputs p -> stream_terminals p' = stream_terminals p ->
  doc_ok (n + 1) (set_row g r) (doc p') ->
  states_ok (set_row g r) (committing (streams p')) (stream_terminals p) ->
  my_queue (streams p') = my_queue (streams p) -> periodic (streams p') = periodic (streams p) ->
  point_ok ended (set_row g r) p' -> good (n + 1) ended hist (set_row g r) p'.
Proof.
  intros [] Hr Ho Ht Hd Hst Hq Hp Hpt. split; rewrite ?Hr, ?Ho, ?Ht; try done.
  - eapply terms_ok_mono; [done|lia].
  - apply (queue_same _ _ (streams p)); [by destruct g_queue0|done|]. by rewrite Hp.
  - by destruct g_pending0.
Qed.

Lemma good_write n ended hist g p job f known text oid :
  good n ended hist g p -> space (n + 1) -> committing (streams p) = Rendered job f known text -> mine f ->
  oid <> "" -> ~ (oid ∈ output_ids eid (doc p)) ->
  exists r, good (n + 1) ended hist (set_row g r) (commit_on (Published oid) p).
Proof.
  intros Hg Hsp Hcom Hm Hne Hfresh. pose proof Hg as [].
  destruct (s_rendered _ _ _ g_states0 job f known text Hcom Hm) as (x & l & Hu & -> & -> & Htext).
  destruct (row_written n g (doc p) x l oid text) as (d' & b & r & Hup & Hr & Hdoc); try done.
  exists r. unfold commit_on. rewrite Hcom. unfold transact. rewrite Hm, Hup.
  set (p' := commit_at _ _).
  assert (manifest_blob_hash text = manifest_blob_hash r.2) as Hh by (by rewrite Hr).
  apply (good_row n ended hist g p p' r); try done.
  - destruct g_states0. split; [done|..].
    + intros H. destruct (H job x.1 _ eq_refl Hm).
    + done.
    + intros job' f' st [= <- <- <-] _. exists x, l, r. split; [done|]. split; [done|]. split; [done|].
      split; [by rewrite Hh|]. intros Hs. rewrite Hr. by apply Htext.
  - unfold my_queue, waiting, jobs. subst p'. cbn. by rewrite Hcom.
  - apply (point_jobs ended g (set_row g r) p p'); try done.
    + unfold jobs. subst p'. cbn. by rewrite Hcom.
    + intros c Hc. assert (saved g (committing (streams p)) c \/ being_saved (committing (streams p)) c ->
        saved (set_row g r) (committing (streams p')) c) as Hs; [|split; [|intros Hb; right]; by auto].
      intros Hs. assert (sealed_live g = [] /\ text = final_text c.2) as [H1 H2].
      { destruct Hs as [(H1 & _ & H3)|(job' & known & Hb)]; [split; [done|by eapply H3]|].
        rewrite Hcom in Hb. injection Hb as <- E <- ->. split; [|done]. by eapply first_current. }
      split; [done|]. split; [|done]. exists r.1. cbn. rewrite <- H2, <- Hr. by destruct r.
    + intros c m Hc H. left. unfold jobs in *. subst p'. cbn. by rewrite Hcom in H.
Qed.

(** A step of the committer for another execution. *)
Definition foreign_doc (d d' : RuntimeStateDoc) : Prop :=
  outputs_wf d -> outputs_wf d' /\ exec_outputs eid d' = exec_outputs eid d /\ (has_execution eid d -> has_execution eid d').

Lemma doc_ok_foreign n g d d' : doc_ok n g d -> foreign_doc d d' -> doc_ok n g d'.
Proof.
  intros [] H. destruct (H d_wf0) as (Hwf & Hx & Hh). split; unfold outputs_of, next_of in *; rewrite ?Hx; auto.
Qed.

Lemma states_same_exec g com t t' : states_ok g com t -> same_exec eid t t' ->
  (forall x, x ∈ unret g -> mine x.1) -> states_ok g com t'.
Proof.
  intros [] [] Hm. split; try done.
  - intros key Hk H. rewrite se_states by done. by apply s_others0.
  - intros H x l Hu. rewrite se_states by (apply Hm; rewrite Hu; by left). by eapply s_first0.
Qed.

Lemma unret_mine n g t x : terms_ok n eid (retired g) (sealed_live g) (current g) t -> x ∈ unret g -> mine x.1.
Proof.
  intros Ht Hx. eapply mine_live; [done|]. unfold known_keys. rewrite fmap_app, elem_of_app. right. by apply list_elem_of_fmap_2.
Qed.

Lemma good_foreign_flush n ended hist g p p' job f :
  good n ended hist g p -> job_of (committing (streams p)) = Some job -> in_flight (committing (streams p)) = Some f -> ~ mine f ->
  reader p' = reader p -> outputs p' = outputs p -> sent p' = sent p -> same_exec eid (stream_terminals p) (stream_terminals p') ->
  foreign_doc (doc p) (doc p') -> periodic (streams p') = periodic (streams p) -> priority (streams p') = priority (streams p) ->
  stream_ack (streams p') = stream_ack (streams p) -> job_of (committing (streams p')) = Some job ->
  in_flight (committing (streams p')) = Some f \/ in_flight (committing (streams p')) = None -> good n ended hist g p'.
Proof.
  intros [] Hj Hf Hm Hr Ho Hs Ht Hd Hper Hpri Ha Hj' Hf'.
  assert (jobs (streams p') = jobs (streams p)) as Hjobs by (unfold jobs; by rewrite Hj, Hj', Hpri).
  assert (forall f', in_flight (committing (streams p')) = Some f' -> ~ mine f') as Hfor.
  { intros f' E. destruct Hf' as [E'|E']; rewrite E in E'; [|done]. by injection E' as ->. }
  split; rewrite ?Hr, ?Ho; try done.
  - by eapply terms_ok_same.
  - by eapply doc_ok_foreign.
  - eapply states_same_exec; [|done|intros x Hx; by eapply unret_mine]. destruct g_states0. split; [done|..].
    + intros _. apply s_first0. intros job' f' st E. rewrite E in Hf. by injection Hf as ->.
    + intros job' f' known text E Hm'. destruct (Hfor f'); [by rewrite E|done].
    + intros job' f' st E Hm'. destruct (Hfor f'); [by rewrite E|done].
  - apply (queue_same _ _ (streams p)); [done| |by rewrite Hper]. unfold my_queue, waiting. rewrite Hjobs, Hf.
    destruct Hf' as [->| ->]; [done|]. change (option_list None ++ ?l) with l. change (option_list (Some f) ++ ?l) with (f :: l).
    by rewrite filter_cons_False.
  - apply (point_jobs ended g g p p'); try done; [by rewrite Hjobs| |intros c m _; rewrite Hjobs; by left].
    intros c Hc. split.
    + intros (H1 & H2 & _). split; [done|]. split; [done|]. intros job' f' known text E Hm'. destruct (Hfor f'); [by rewrite E|done].
    + intros (job' & known & E). rewrite E in Hf. injection Hf as <-. destruct Hm. by eapply mine_current.
Qed.

(** The first segment is written for good. *)
Definition retire_first (g : Ghost) : Ghost :=
  match sealed_live g with
  | x :: l => mkGhost (fed g) (closed g) (rows g ++ row_list g) (retired g ++ [x]) l (current g) None
  | [] => g
  end.

Lemma retire_unsealed f (t : StreamTerminals) : ~ (f ∈ sealed_segments t) -> retire_segment f t = t.
Proof. intros H. unfold retire_segment. by rewrite decide_False. Qed.

Lemma good_written n ended hist g p job f st o :
  good n ended hist g p -> committing (streams p) = Written job f st -> mine f ->
  good n ended hist (retire_first g) (commit_on o p).
Proof.
  intros Hg Hcom Hm. pose proof Hg as []. unfold commit_on. rewrite Hcom. set (p' := commit_at _ _).
  destruct (s_written _ _ _ g_states0 job f st Hcom Hm) as (x & l & r & Hu & -> & Hr & -> & Htext).
  assert (jobs (streams p') = jobs (streams p)) as Hj by (unfold jobs; subst p'; cbn; by rewrite Hcom).
  assert (my_queue (streams p) = x.1 :: my_queue (streams p')) as Hq.
  { rewrite (my_queue_job (streams p) job), (my_queue_job (streams p') job) by (by rewrite ?Hcom).
    rewrite Hcom. change (option_list (in_flight (Written job x.1 (state_of r))) ++ ?l) with (x.1 :: l). by rewrite filter_cons_True. }
  pose proof (terms_ok_set _ _ _ _ _ x.1 (state_of r) _ g_terms0) as Ht.
  unfold retire_first. destruct (sealed_live g) as [|y S] eqn:Hs.
  - assert (stream_terminals p' = set_segment_output_state x.1 (state_of r) (stream_terminals p)) as Ht'.
    { subst p'. cbn. apply retire_unsealed. cbn. destruct g_terms0. rewrite t_sealed by done. apply not_elem_of_nil. }
    split; rewrite ?Ht'; try done.
    + by rewrite Hs.
    + destruct g_states0. split; [..|done|done].
      * intros key Hk H. cbn. rewrite lookup_insert_ne by (intros <-; by eapply H). by apply s_others0.
      * intros _ x' l' Hu'. rewrite Hu' in Hu. injection Hu as -> _. cbn. by rewrite lookup_insert_eq, Hr.
    + apply (queue_pop g g _ (streams p) _ x.1); try done. right. split; [|done]. unfold sealed_keys. rewrite Hs. apply not_elem_of_nil.
    + apply (point_jobs ended g g p p'); try done; [by rewrite Hj| |intros c m Hc; rewrite Hj; by left].
      intros c Hc. split; [|by rewrite Hcom; intros (? & ? & ?)]. intros (H1 & H2 & _). done.
  - assert (y = x /\ l = S ++ option_list (current g)) as [-> ->] by (unfold unret in Hu; rewrite Hs in Hu; by injection Hu).
    set (g' := mkGhost _ _ _ _ _ _ _).
    destruct (retire_head _ _ _ _ _ _ _ Ht) as [Ht' Hst'].
    assert (unret g' = S ++ option_list (current g)) as Hu' by done.
    assert (known_keys g' = known_keys g) as Hk by (unfold known_keys; rewrite Hu, Hu'; cbn; by rewrite <- app_assoc).
    pose proof (unret_NoDup n g _ (ltac:(by rewrite Hs))) as Hnd. rewrite Hu in Hnd. apply NoDup_cons in Hnd as [Hnin _].
    specialize (Htext ltac:(done)). split.
    + done.
    + destruct g_doc0. assert (row_list g = [(r.1, stream_manifest r.1 x.1.1.2 r.2)]) as Hrl by (unfold row_list; rewrite Hr, Hu; by destruct r).
      split; try done.
      * unfold row_list. cbn. by rewrite app_nil_r.
      * cbn. rewrite Hrl, fmap_app, app_assoc. apply Forall2_app; [done|]. constructor; [|done]. cbn. by rewrite Htext.
    + subst p'. cbn [commit_at with_terminals with_streams stream_terminals streams committing]. destruct g_states0. split; [..|done|done].
      * intros key Hkey H. rewrite Hst'. destruct (decide (key = x.1)) as [->|Hne]; [by rewrite lookup_delete_eq|].
        rewrite lookup_delete_ne by done. cbn. rewrite lookup_insert_ne by done. apply s_others0; [done|]. rewrite Hu. by intros ? ? [= <- _].
      * intros _ x' l' E. rewrite Hu' in E. assert (x'.1 <> x.1) as Hne.
        { intros E'. apply Hnin. rewrite <- E', E. by left. }
        rewrite Hst', lookup_delete_ne by done. cbn. rewrite lookup_insert_ne by done. apply s_others0.
        -- eapply unret_mine; [by rewrite <- Hs in g_terms0|]. rewrite Hu, E. right. by left.
        -- rewrite Hu. by intros ? ? [= <- _].
    + apply (queue_pop g g' _ (streams p) _ x.1); try done. left. unfold sealed_keys. by rewrite Hs.
    + destruct g_pending0. split; try done.
      change (retired g') with (retired g ++ [x]). rewrite Hu', <- app_assoc. by rewrite Hu in p_order0.
    + by rewrite Hk.
    + apply (point_jobs ended g g' p p'); try done; [by rewrite Hj| |intros c m Hc; rewrite Hj; by left].
      intros c Hc. split; [|by rewrite Hcom; intros (? & ? & ?)]. intros (H1 & _). by rewrite Hs in H1.
    + done.
Qed.

Lemma good_commit_on n ended hist g p o :
  good n ended hist g p -> plumbing p -> space (n + 1) -> calm eid (CommitOn o) p ->
  exists g', good (n + 1) ended hist g' (commit_on o p).
Proof.
  intros Hg Hpl Hsp Hcalm. cbn [calm] in Hcalm.
  assert (forall p', good n ended hist g p' -> exists g', good (n + 1) ended hist g' p') as Hgo
    by (intros p' H; exists g; eapply good_mono; [done|lia]).
  destruct (committing (streams p)) as [| |job|job f known text|job f st] eqn:Hcom.
  - apply Hgo. unfold commit_on. rewrite Hcom. destruct (priority (streams p)) as [|r rs] eqn:Hpri;
      (apply (good_poll n ended hist g p); try done; [|by rewrite Hcom]); unfold jobs; cbn; by rewrite Hcom, Hpri.
  - apply Hgo. unfold commit_on. rewrite Hcom. destruct (periodic (streams p)) as [|f fs] eqn:Hper.
    + apply (good_poll n ended hist g p); try done; [|by rewrite Hcom]. unfold jobs; cbn; by rewrite Hcom.
    + apply good_take; try done. by apply Hcalm.
  - apply Hgo. unfold commit_on. rewrite Hcom. destruct (pr_flushes job) as [|f rest] eqn:Hf; [by apply good_finish|].
    destruct (has_segment f (stream_terminals p)) eqn:Hs; [by apply good_render|by eapply good_skip].
  - destruct (decide (mine f)) as [Hm|Hm].
    + destruct (Hcalm Hm) as (oid & ->%published_Some & Hne & Hfresh). destruct (good_write n ended hist g p job f known text oid) as [r Hr]; try done. eauto.
    + apply Hgo. unfold commit_on. rewrite Hcom. destruct o as [| |oid].
      1-2: apply (good_foreign_flush n ended hist g p _ job f); rewrite ?Hcom; try done; by right.
      unfold transact. destruct (upsert_stream_output _ _ known (doc p)) as [d' [[b oid']|e]] eqn:Hup.
      * apply (good_foreign_flush n ended hist g p _ job f); rewrite ?Hcom; try done; [|by left].
        intros Hwf. pose proof (upsert_touches f.1.1 (stream_manifest oid f.1.2 text) known (doc p) Hwf (stream_manifest_ok _ _ _)) as Ht.
        rewrite Hup in Ht. destruct Ht as [Hwf' Hx Hh]. split; [done|]. split; [apply Hx; intros E; by apply Hm|]. by rewrite Hh.
      * apply (good_foreign_flush n ended hist g p _ job f); rewrite ?Hcom; try done; by right.
  - destruct (decide (mine f)) as [Hm|Hm].
    + exists (retire_first g). eapply good_mono; [by eapply good_written|lia].
    + apply Hgo. unfold commit_on. rewrite Hcom. apply (good_foreign_flush n ended hist g p _ job f); rewrite ?Hcom; try done.
      * eapply same_exec_trans; [by apply same_exec_state|by apply same_exec_retire].
      * by right.
Qed.

(** ** The steps of the output committer *)

(** Nothing of the execution is committed. *)
Lemma good_outputs n ended hist g p p' :
  good n ended hist g p -> reader p' = reader p -> streams p' = streams p -> stream_terminals p' = stream_terminals p ->
  foreign_doc (doc p) (doc p') -> my_pending (outputs p') = my_pending (outputs p) ->
  (ExecutionDone eid ∈ sent p' <-> ExecutionDone eid ∈ sent p) -> good n ended hist g p'.
Proof.
  intros [] Hr Hs Ht Hd Hp Hsent. split; rewrite ?Hr, ?Hs, ?Ht; try done.
  - by eapply doc_ok_foreign.
  - destruct g_pending0. split; by rewrite ?Hp.
  - apply (point_committer ended g g p p'); rewrite ?Hp, ?Hs; try done; unfold not_done, done_phase, boundary_ok; rewrite ?Hp, ?Hs, ?Hsent; done.
Qed.

(** Outputs of the execution are committed. *)
Definition settle (g : Ghost) (outs : list OrdinaryOutputCommit) (rs : list (string * json)) : Ghost :=
  mkGhost (fed g) (closed g ++ (Ordinary <$> outs)) (rows g ++ rs) (retired g) (sealed_live g) (current g) (row g).

Lemma good_settle n ended hist g p p' batch ids :
  good n ended hist g p -> space (n + 1) -> (length batch <= OUTPUT_COMMIT_BATCH_SIZE)%nat ->
  Exists (fun o => out_execution_id o = eid) batch -> length ids = length batch -> NoDup ids -> Forall (fresh_id eid p) ids ->
  my_pending (outputs p) = filter (fun o => out_execution_id o = eid) batch ++ my_pending (outputs p') ->
  reader p' = reader p -> streams p' = streams p -> stream_terminals p' = stream_terminals p -> sent p' = sent p ->
  doc p' = commit_output_batch batch (Created <$> ids) (doc p) ->
  exists g', good (n + 1) ended hist g' p'.
Proof.
  intros [] Hsp Hlen Hex Hids Hnd Hfresh Hp Hr Hs Ht Hsent Hd.
  set (outs := filter (fun o => out_execution_id o = eid) batch) in *.
  assert (my_pending (outputs p) <> []) as Hne.
  { rewrite Hp. apply Exists_exists in Hex as (o & Ho & E). intros H. apply app_eq_nil in H as [H _].
    assert (o ∈ outs) as Hin by (by apply list_elem_of_filter). rewrite H in Hin. by apply elem_of_nil in Hin. }
  pose proof (p_alone _ _ _ g_pending0 Hne) as Hcur. destruct (t_none _ _ _ _ _ _ g_terms0 Hcur) as [Hret Hsl].
  assert (unret g = []) as Hu by (unfold unret; by rewrite Hsl, Hcur).
  destruct g_doc0. unfold space, next_of, outputs_of in *.
  assert (zlen batch <= 128) as Hz by (unfold zlen, OUTPUT_COMMIT_BATCH_SIZE in *; lia).
  destruct (batch_own eid batch ids (doc p)) as (Hwf & Hh & (rs & Hl & Hrs) & Hn); try done; [unfold room_for; lia|].
  rewrite <- Hd in Hwf, Hh, Hl, Hn. exists (settle g outs rs). split; rewrite ?Hr, ?Hs, ?Ht; try done.
  - eapply terms_ok_mono; [done|lia].
  - assert (row_list g = []) as Hrow by (unfold row_list; rewrite Hu; by destruct (row g) as [[]|]).
    assert (row_list (settle g outs rs) = []) as Hrow' by (unfold row_list; change (unret (settle g outs rs)) with (unret g); rewrite Hu; by destruct (row (settle g outs rs)) as [[]|]).
    split; unfold next_of, outputs_of; try done.
    + rewrite Hl, d_list0, Hrow, Hrow'. cbn [settle rows]. by rewrite !app_nil_r, app_assoc.
    + lia.
    + rewrite Hret in *. cbn [settle closed retired rows] in *. rewrite Hret. change (seg_shown <$> []) with (@nil Shown) in *. rewrite !app_nil_r in *. by apply Forall2_app.
  - by destruct g_states0.
  - by destruct g_queue0.
  - destruct g_pending0. split.
    + cbn [settle fed closed retired]. change (unret (settle g outs rs)) with (unret g). rewrite p_order0, Hp, (fmap_app Ordinary). by rewrite <- !app_assoc.
    + intros _. done.
    + done.
  - apply (point_committer ended g _ p p'); rewrite ?Hs; try done.
    + unfold not_done. by rewrite Hs, Hsent.
    + by intros [H _].
    + intros out b _ _. unfold boundary_ok. destruct (stream_ack (streams p')); intros c; cbn; by rewrite Hcur.
Qed.

Lemma good_batch_on n ended hist g p p' o :
  good n ended hist g p -> plumbing p -> space (n + 1) -> calm eid (BatchOn o) p -> batch_on o p = Some p' ->
  exists g', good (n + 1) ended hist g' p'.
Proof.
  intros Hg Hpl Hsp Hcalm Hb. cbn [calm] in Hcalm.
  assert (forall p', good n ended hist g p' -> exists g', good (n + 1) ended hist g' p') as Hgo
    by (intros p1 H; exists g; eapply good_mono; [done|lia]).
  pose proof (pl_batch p Hpl) as Hlen. pose proof (pl_signals p Hpl) as Hsig. revert Hb. unfold batch_on.
  destruct (batching (outputs p)) as [| |batch req|batch req] eqn:E.
  - destruct (requests (outputs p)); intros [= <-]; apply Hgo, (good_outputs n ended hist g p); try done;
      unfold my_pending; cbn; by rewrite E.
  - destruct (output_queue (outputs p)) eqn:Eq; intros [= <-]; apply Hgo, (good_outputs n ended hist g p); try done;
      unfold my_pending; cbn; by rewrite E, Eq.
  - case_decide; [destruct (output_queue (outputs p)) eqn:Eq|]; intros [= <-]; apply Hgo, (good_outputs n ended hist g p); try done;
      unfold my_pending; cbn; rewrite E, ?Eq; try done. cbn. by rewrite <- app_assoc.
  - cbn [batch_of] in Hlen. set (next := match req with Some _ => Collecting [] req | None => PollRequests end) in *.
    assert (batch_of next = []) as Hnx by (subst next; by destruct req).
    destruct batch as [|x batch].
    { assert (forall q, reader q = reader p -> streams q = streams p -> stream_terminals q = stream_terminals p -> doc q = doc p ->
        my_pending (outputs q) = my_pending (outputs p) -> sent q = sent p ++ option_list (req ≫= or_signal) ->
        exists g', good (n + 1) ended hist g' q) as Hq.
      { intros q Hr Hs Ht Hd Hp Hsent. apply Hgo, (good_outputs n ended hist g p); try done; [by rewrite Hd|].
        rewrite Hsent, elem_of_app. split; [|by left]. intros [H|H]; [done|]. exfalso. destruct req as [r|]; [|by apply elem_of_nil in H].
        cbn in H. apply Forall_cons in Hsig as [Hr' _]. destruct (or_signal r) as [sg|] eqn:Es; [|by apply elem_of_nil in H].
        apply list_elem_of_singleton in H as <-. by apply (Hr' eid). }
      destruct req as [r|]; intros [= <-]; apply Hq; try done;
        try (destruct (or_ack r), (or_signal r); cbn; try done; unfold my_pending; cbn; by rewrite ?E);
        try (unfold my_pending; cbn; by rewrite ?E); try (cbn; by rewrite app_nil_r).
      destruct (or_ack r); cbn; by destruct (or_signal r); rewrite ?app_nil_r. }
    set (full := x :: batch) in *.
    assert (forall c, my_pending (mkOutputs (output_queue (outputs p)) (requests (outputs p)) next c) =
      filter (fun o => out_execution_id o = eid) (output_queue (outputs p))) as Hpend by (intros c; unfold my_pending; cbn; by rewrite Hnx).
    assert (my_pending (outputs p) = filter (fun o => out_execution_id o = eid) full ++
      filter (fun o => out_execution_id o = eid) (output_queue (outputs p))) as Hpold by (unfold my_pending; by rewrite E, filter_app).
    destruct (decide (Exists (fun o => out_execution_id o = eid) full)) as [Hex|Hno].
    + destruct (Hcalm Hex) as (ids & ->%created_Some & Hnd & Hfresh). case_decide as Hl; [|done]. intros [= <-].
      rewrite length_fmap in Hl.
      apply (good_settle n ended hist g p _ full ids); try done. etransitivity; [exact Hpold|]. f_equal. symmetry. apply Hpend.
    + assert (Forall (fun o => out_execution_id o <> eid) full) as Hfor by (by apply not_Exists_Forall in Hno; [|intros y; apply _]).
      assert (filter (fun o => out_execution_id o = eid) full = []) as Hf.
      { clear -Hfor. induction Hfor as [|y l Hy Hl IH]; [done|]. by rewrite filter_cons_False. }
      rewrite Hf in Hpold. destruct o as [prepared|]; [case_decide; [|done]|]; intros [= <-]; apply Hgo, (good_outputs n ended hist g p); try done;
        try (etransitivity; [apply Hpend|symmetry; exact Hpold]).
      intros Hwf. by apply batch_foreign.
Qed.

(** ** The steps of the reader for another execution *)

Definition own (a : ReaderAt) : Prop :=
  match a with
  | AtRead | AtSignal _ | AtRequest _ => False
  | WaitOutputs e _ _ | AtFeed e _ _ | AtSeal e _ _ _ | AtRecord e _ _ _ | WaitDrain e _ | AtFinish e _ => e = eid
  | WaitBoundary out _ | AtClear out _ | AtEnqueue out _ => out_execution_id out = eid
  end.
#[local] Instance own_dec a : Decision (own a).
Proof. destruct a; cbn; apply _. Defined.
Definition held (a : ReaderAt) : list PendingStreamFlush :=
  match a with WaitDrain _ fs | AtFinish _ fs | AtRequest fs => fs | _ => [] end.

Lemma point_foreign ended g p :
  ~ own (at_point (reader p)) -> point_ok ended g p <-> resting ended g p /\ foreign (held (at_point (reader p))).
Proof.
  intros Ho. assert (foreign []) as Hn by constructor.
  unfold point_ok. destruct (at_point (reader p)); cbn in *; rewrite ?decide_False by done; naive_solver.
Qed.

Lemma foreign_point a : ~ own a -> reader_items a = [] /\ sealing a = None /\ ~ at_enqueue a.
Proof. intros Ho. destruct a; cbn in *; rewrite ?decide_False by done; naive_solver. Qed.

Lemma filter_foreign fs : foreign fs -> filter (of_exec eid) fs = [].
Proof. induction 1 as [|f fs Hf _ IH]; [done|]. by rewrite filter_cons_False. Qed.

Lemma my_queue_send s s' js :
  committing s' = committing s -> priority s' = priority s ++ js ->
  my_queue s' = my_queue s ++ filter (of_exec eid) (js ≫= pr_flushes) /\ jobs s' = jobs s ++ js.
Proof.
  intros Hc Hp. assert (jobs s' = jobs s ++ js) as Hj by (unfold jobs; by rewrite Hc, Hp, app_assoc).
  split; [|done]. unfold my_queue, waiting. by rewrite Hj, Hc, bind_app, app_assoc, filter_app.
Qed.

Record elsewhere (p p' : Pipeline) (js : list PriorityStreamCommit) : Prop := {
  e_terms : same_exec eid (stream_terminals p) (stream_terminals p');
  e_doc : doc p' = doc p;
  e_com : committing (streams p') = committing (streams p);
  e_priority : priority (streams p') = priority (streams p) ++ js;
  e_flushes : foreign (js ≫= pr_flushes);
  e_signals : ~ (done_signal ∈ (pr_signal <$> js));
  e_periodic : forall f, mine f -> f ∈ periodic (streams p') -> f ∈ periodic (streams p);
  e_pending : my_pending (outputs p') = my_pending (outputs p);
  e_entries : forall key, mine key -> is_Some (entries (stream_flushes (reader p')) !! key) <->
    is_Some (entries (stream_flushes (reader p)) !! key);
  e_sent : ExecutionDone eid ∈ sent p' <-> ExecutionDone eid ∈ sent p;
}.

Lemma not_done_send p p' js :
  not_done p -> jobs (streams p') = jobs (streams p) ++ js -> ~ (done_signal ∈ (pr_signal <$> js)) ->
  (ExecutionDone eid ∈ sent p' <-> ExecutionDone eid ∈ sent p) -> not_done p'.
Proof. intros [H1 H2] Hj Hs He. split; [by rewrite He|]. rewrite Hj, fmap_app, elem_of_app. tauto. Qed.

Lemma resting_elsewhere ended g p p' js :
  resting ended g p -> elsewhere p p' js -> (forall c, current g = Some c -> mine c.1) -> resting ended g p'.
Proof.
  intros Hr [] Hm. destruct (my_queue_send _ _ _ e_com0 e_priority0) as [_ Hj]. unfold resting in *. destruct ended.
  - destruct Hr as [H1 H2]. split; [by rewrite e_pending0|]. rewrite e_com0. destruct H2 as [H2|(H2 & i & j & Hi & Hd & Hf & Hw)]; [by left|right].
    split; [by rewrite e_sent0|]. exists i, j. pose proof (lookup_lt_Some _ _ _ Hi). rewrite Hj.
    rewrite lookup_app_l, !take_app_le by lia. done.
  - destruct Hr as [H1 H2]. split; [|by eapply not_done_send]. intros c Hc. apply e_entries0; [by apply Hm|by apply H1].
Qed.

Lemma queue_elsewhere g a a' p p' js :
  queue_ok g a (streams p) -> elsewhere p p' js -> sealing a = None -> sealing a' = None -> queue_ok g a' (streams p').
Proof.
  intros [] [] Hs Hs'. destruct (my_queue_send _ _ _ e_com0 e_priority0) as [Hq _].
  rewrite filter_foreign, app_nil_r in Hq by done. split; rewrite ?Hq; try done.
  - left. destruct q_drain0 as [H|(k & H & _)]; [done|congruence].
  - intros Hc f Hf Hin. apply q_known0; [done|done|]. rewrite elem_of_app in *. destruct Hin; [left; by apply e_periodic0|by right].
Qed.

Lemma good_elsewhere n ended hist g p p' js :
  good n ended hist g p -> elsewhere p p' js -> ~ own (at_point (reader p)) -> ~ own (at_point (reader p')) ->
  foreign (held (at_point (reader p'))) -> good n ended hist g p'.
Proof.
  intros [] He Ho Ho' Hh. pose proof He as [].
  destruct (foreign_point _ Ho) as (Hi & Hs & Hq), (foreign_point _ Ho') as (Hi' & Hs' & Hq').
  assert (forall c, current g = Some c -> mine c.1) as Hm by (intros c Hc; by eapply mine_current).
  split.
  - by eapply terms_ok_same.
  - by rewrite e_doc0.
  - rewrite e_com0. eapply states_same_exec; [done..|intros x Hx; by eapply unret_mine].
  - by eapply queue_elsewhere.
  - destruct g_pending0. split; rewrite ?e_pending0; auto.
  - intros key Hk Hx. apply g_entries0; [done|]. by apply e_entries0.
  - apply point_foreign in g_point0 as [Hr _]; [|done]. apply point_foreign; [done|]. split; [by eapply resting_elsewhere|done].
  - by rewrite Hi', <- Hi.
Qed.

(** *** The flush buffer *)

Lemma take_key_domain k now (b : StreamFlushBuffer) key :
  is_Some (entries (take_key k now b).1 !! key) <-> is_Some (entries b !! key).
Proof.
  unfold take_key. destruct (entries b !! k) as [e|] eqn:E; [|done]. cbn.
  destruct (decide (k = key)) as [->|Hne]; [rewrite lookup_insert_eq, E|by rewrite lookup_insert_ne]. by split.
Qed.

Lemma take_keys_spec ks now (b : StreamFlushBuffer) :
  (forall key, is_Some (entries (take_keys ks now b).1 !! key) <-> is_Some (entries b !! key)) /\
  (forall f, f ∈ (take_keys ks now b).2 <-> f ∈ ks /\ is_Some (entries b !! f)).
Proof.
  revert b. induction ks as [|k ks IH]; intros b; cbn.
  { split; [done|]. intros f. split; [by intros ?%elem_of_nil|by intros [?%elem_of_nil _]]. }
  pose proof (take_key_domain k now b) as Hd. destruct (take_key k now b) as [b1 f1] eqn:Ek. cbn in Hd.
  destruct (IH b1) as [H1 H2]. destruct (take_keys ks now b1) as [b2 fs]. cbn in *. split.
  - intros key. by rewrite H1, Hd.
  - intros f. rewrite elem_of_app, H2, Hd, elem_of_cons.
    assert (f ∈ option_list f1 <-> f = k /\ is_Some (entries b !! k)) as ->.
    { revert Ek. unfold take_key. destruct (entries b !! k) as [e|]; intros [= <- <-].
      - split; [intros ->%list_elem_of_singleton; by split|intros [-> _]; by apply list_elem_of_singleton].
      - split; [by intros ?%elem_of_nil|by intros [_ [? ?]]]. }
    naive_solver.
Qed.

Lemma boundary_flushes_spec e order now p p' fs :
  boundary_flushes e order now p = (p', fs) -> order_ok e order p = true ->
  exists b, p' = set_flushes b p /\
    (forall key, is_Some (entries b !! key) <-> key.1.1 <> e /\ is_Some (entries (stream_flushes (reader p)) !! key)) /\
    (forall f, f ∈ fs <-> f.1.1 = e /\ is_Some (entries (stream_flushes (reader p)) !! f)).
Proof.
  unfold boundary_flushes, flush_execution, order_ok. intros Hb Ho%bool_decide_eq_true.
  destruct (take_keys_spec (merge_sort segment_le order) now (stream_flushes (reader p))) as [H1 H2].
  destruct (take_keys _ now _) as [b fs']. injection Hb as <- <-. cbn [fst snd] in *. eexists. split; [done|]. split.
  - intros key. unfold clear_execution, with_entries. cbn [entries].
    match goal with |- is_Some ?x <-> _ => assert (x = if decide (key.1.1 = e) then None else entries b !! key) as -> end.
    { exact (filter_exec_lookup e (entries b) key). }
    rewrite <- H1. case_decide as E; [|tauto]. split; [by intros [? ?]|tauto].
  - intros f. rewrite H2, merge_sort_Permutation, Ho. unfold execution_keys. rewrite list_elem_of_filter.
    split; [tauto|]. intros [E Hs]. split; [|done]. split; [done|]. destruct Hs as [x Hx].
    apply list_elem_of_fmap. exists (f, x). split; [done|]. by apply elem_of_map_to_list.
Qed.

Lemma record_chunk_domain k len now (b : StreamFlushBuffer) b' f :
  record_chunk k len now b = (b', f) ->
  (forall key, is_Some (entries b' !! key) <-> key = k \/ is_Some (entries b !! key)) /\ (forall x, f = Some x -> x = k).
Proof.
  unfold record_chunk. set (e := mkFlushEntry _ _ _). set (b1 := with_entries _ b).
  assert (forall key, is_Some (entries b1 !! key) <-> key = k \/ is_Some (entries b !! key)) as H1.
  { intros key. subst b1. cbn. destruct (decide (k = key)) as [->|Hne]; [rewrite lookup_insert_eq|rewrite lookup_insert_ne by done].
    - split; [by left|by eexists]. - split; [by right|]. intros [->|H]; done. }
  destruct (_ || _ || _).
  - intros Hk. assert (b' = (take_key k now b1).1) as -> by (by rewrite Hk). split.
    + intros key. by rewrite take_key_domain.
    + intros x ->. revert Hk. unfold take_key. destruct (entries b1 !! k); intros E; apply (f_equal snd) in E; cbn in E; congruence.
  - by intros [= <- <-].
Qed.

(** *** Messages *)

Definition next_ended (ended : bool) (s : step) : bool :=
  match s with
  | Read m _ _ _ => if decide (about eid m) then match m with StatusIdle _ => true | _ => false end else ended
  | _ => ended
  end.
Definition behaved (ended : bool) (s : step) : Prop :=
  match s with Read m is_registered _ _ => about eid m -> is_registered = true /\ ended = false | _ => True end.

Lemma elsewhere_flushes e order now p p' fs :
  boundary_flushes e order now p = (p', fs) -> order_ok e order p = true -> e <> eid ->
  foreign fs /\ exists b, p' = set_flushes b p /\
    forall key, mine key -> is_Some (entries b !! key) <-> is_Some (entries (stream_flushes (reader p)) !! key).
Proof.
  intros Hb Ho Hne. destruct (boundary_flushes_spec _ _ _ _ _ _ Hb Ho) as (b & -> & He & Hf). split.
  - apply Forall_forall. intros f [E _]%Hf Hm. apply Hne. by rewrite <- E, Hm.
  - exists b. split; [done|]. intros key Hm. rewrite He. split; [tauto|]. intros H. split; [|done]. intros E. apply Hne. by rewrite <- E, Hm.
Qed.

Lemma elsewhere_refl_with p p' :
  stream_terminals p' = stream_terminals p -> doc p' = doc p -> committing (streams p') = committing (streams p) ->
  priority (streams p') = priority (streams p) -> periodic (streams p') = periodic (streams p) ->
  my_pending (outputs p') = my_pending (outputs p) ->
  (forall key, mine key -> is_Some (entries (stream_flushes (reader p')) !! key) <->
    is_Some (entries (stream_flushes (reader p)) !! key)) ->
  (ExecutionDone eid ∈ sent p' <-> ExecutionDone eid ∈ sent p) -> elsewhere p p' [].
Proof.
  intros Ht Hd Hc Hp Hper Hpend He Hs. split; try done.
  - rewrite Ht. apply same_exec_refl.
  - by rewrite app_nil_r.
  - constructor.
  - apply not_elem_of_nil.
  - by rewrite Hper.
Qed.

Lemma good_read_foreign n ended hist g p m reg order now p' :
  good n ended hist g p -> at_point (reader p) = AtRead -> ~ about eid m -> read m reg order now p = Some p' ->
  good n ended hist g p'.
Proof.
  intros Hg Hat Hm. assert (~ own (at_point (reader p))) as Ho by (rewrite Hat; by intros []).
  assert (forall sg : LifecycleSignal, sg <> ExecutionDone eid -> ExecutionDone eid ∈ sent p ++ [sg] <-> ExecutionDone eid ∈ sent p) as Hsend.
  { intros sg Hsg. rewrite elem_of_app, list_elem_of_singleton. split; [|by left]. intros [H|H]; [done|congruence]. }
  destruct m as [e nm tx|e k v rich|[e|]]; cbn [about] in Hm; unfold read, read_stream, read_output, read_idle.
  - destruct reg; cbn [negb]; [|by intros [= <-]]. destruct (stream_awaits_ordinary_outputs _); intros [= <-];
      (apply (good_elsewhere n ended hist g p _ []); [done|by apply elsewhere_refl_with|done|done|constructor]).
  - destruct reg; cbn [negb]; [|by intros [= <-]]. destruct (order_ok e order p) eqn:Hord; [|done].
    destruct (boundary_flushes e order now p) as [p1 fs] eqn:Hb.
    destruct (elsewhere_flushes e order now p p1 fs Hb Hord Hm) as (Hf & b & -> & He). destruct fs as [|f fs]; intros [= <-].
    + apply (good_elsewhere n ended hist g p _ []); [done|by apply elsewhere_refl_with|done|done|constructor].
    + apply (good_elsewhere n ended hist g p _ [mkPriority (f :: fs) None true]); [done| |done|done|constructor].
      split; try done; cbn; [by rewrite app_nil_r|by intros ?%list_elem_of_singleton].
  - destruct (boundary_flushes e order now p) as [p1 fs] eqn:Hb. destruct (order_ok e order p) eqn:Hord; [|done].
    assert (e <> eid) as Hne by congruence.
    destruct (elsewhere_flushes e order now p p1 fs Hb Hord Hne) as (Hf & b & -> & He).
    destruct reg; intros [= <-]; (apply (good_elsewhere n ended hist g p _ []); [done|apply elsewhere_refl_with; try done; by apply Hsend|done|cbn; tauto|done]).
  - destruct reg; intros [= <-]; (apply (good_elsewhere n ended hist g p _ []); [done|apply elsewhere_refl_with; try done; by apply Hsend|done|cbn; tauto|constructor]).
Qed.

(** *** Between messages *)

Ltac frame := split; try done; cbn; rewrite ?app_nil_r; try done; try (by constructor); try (by apply not_elem_of_nil).

Lemma good_go n ended hist g p a :
  good n ended hist g p -> ~ own (at_point (reader p)) -> ~ own a -> foreign (held a) -> good n ended hist g (go_to a p).
Proof. intros Hg Ho Ho' Hh. apply (good_elsewhere n ended hist g p _ []); try done. by apply elsewhere_refl_with. Qed.

Lemma good_request n ended hist g p f :
  good n ended hist g p -> ~ own (at_point (reader p)) -> ~ mine f -> good n ended hist g (request_flush f p).
Proof.
  intros Hg Ho Hf. pose proof (g_point _ _ _ _ _ Hg) as Hp. apply point_foreign in Hp as [_ Hh]; [|done].
  unfold request_flush. case_decide; [|done]. apply (good_elsewhere n ended hist g p _ []); try done. frame.
  intros x Hx. rewrite elem_of_app, list_elem_of_singleton. intros [H1| ->]; done.
Qed.

Ltac away Hat := rewrite ?Hat; try done; try (by intros []); try (by apply elsewhere_refl_with).

Lemma good_read_on_foreign n ended hist g p now p' :
  good n ended hist g p -> ~ own (at_point (reader p)) -> read_on now p = Some p' -> good n ended hist g p'.
Proof.
  intros Hg Ho. pose proof (g_point _ _ _ _ _ Hg) as Hp. apply point_foreign in Hp as [_ Hh]; [|done].
  unfold read_on. destruct (at_point (reader p)) as [|e nm tx|e nm tx|e nm len pl|e nm len sg|out b|out b|out b|e|e fs|e fs|fs] eqn:Hat;
    cbn in Ho, Hh; [done|..].
  - destruct (output_ack (outputs p)); [|done]. intros [= <-].
    apply (good_elsewhere n ended hist g p _ []); away Hat.
  - pose proof (same_exec_feed eid e nm tx (stream_terminals p) Ho) as Hs.
    destruct (feed_chunk e nm tx (stream_terminals p)) as [t pl]. cbn in Hs.
    assert (forall a, ~ own a -> held a = [] -> good n ended hist g (go_to a (with_terminals (fun _ => t) p))) as Hgo.
    { intros a Ha Ea. apply (good_elsewhere n ended hist g p _ []); away Hat; [|cbn; rewrite Ea; constructor].
      frame. }
    destruct (sealed pl); intros [= <-]; by apply Hgo.
  - destruct (sealed pl) as [sl|]; [|intros [= <-]; by apply good_go; rewrite ?Hat].
    pose proof (take_key_domain (e, sealed_stream_name sl, sealed_segment sl) now (stream_flushes (reader p))) as Hd.
    unfold take_segment. change (stream_flushes (reader (go_to ?a ?q))) with (stream_flushes (reader q)).
    assert (forall f, (take_key (e, sealed_stream_name sl, sealed_segment sl) now (stream_flushes (reader p))).2 = Some f -> ~ mine f) as Hf.
    { unfold take_key. destruct (entries _ !! _); [|done]. by intros f [= <-]. }
    destruct (take_key _ now (stream_flushes (reader p))) as [b [f|]]; cbn in Hd, Hf; intros [= <-].
    + apply (good_elsewhere n ended hist g p _ [mkPriority [f] None false]); away Hat.
      frame; [constructor; [by apply Hf|constructor]|by intros ?%list_elem_of_singleton].
    + apply (good_elsewhere n ended hist g p _ []); away Hat.
  - destruct (record_chunk (e, nm, sg) len now (stream_flushes (reader p))) as [b f] eqn:Hr.
    destruct (record_chunk_domain _ _ _ _ _ _ Hr) as [Hd Hf].
    assert (good n ended hist g (go_to AtRead (set_flushes b p))) as Hg1.
    { apply (good_elsewhere n ended hist g p _ []); away Hat.
      apply elsewhere_refl_with; try done. intros key Hk. cbn. rewrite Hd. split; [|by right]. intros [->|H]; [done|done]. }
    destruct f as [f|]; intros [= <-]; [|done]. apply good_request; [done|by intros []|]. by rewrite (Hf f eq_refl).
  - destruct (stream_ack (streams p)); [|done]. intros [= <-]. by apply good_go; rewrite ?Hat.
  - intros [= <-]. apply (good_elsewhere n ended hist g p _ []); away Hat.
    frame. by apply same_exec_clear.
  - case_decide; [|done]. intros [= <-]. apply (good_elsewhere n ended hist g p _ []); away Hat.
    + apply elsewhere_refl_with; try done. unfold my_pending. cbn. rewrite app_assoc, (filter_app _ (_ ++ _)).
      by rewrite (filter_cons_False _ out []), app_nil_r.
    + destruct b; by intros [].
    + destruct b; constructor.
  - intros [= <-]. apply (good_elsewhere n ended hist g p _ []); away Hat.
  - destruct (output_ack (outputs p)); [|done]. intros [= <-]. by apply good_go; rewrite ?Hat.
  - intros [= <-]. apply (good_elsewhere n ended hist g p _ [mkPriority fs (Some (ExecutionDone e)) false]); away Hat; [|constructor].
    frame. intros [= H]%list_elem_of_singleton. by destruct Ho.
  - destruct fs as [|f fs]; intros [= <-]; [by apply good_go; rewrite ?Hat; try done; intros []|].
    apply Forall_cons in Hh as [Hf Hh]. apply good_go; [apply good_request; rewrite ?Hat; done| |by intros []|done].
    unfold request_flush. case_decide; cbn; by rewrite Hat.
Qed.

(** ** The steps of the reader for the execution *)

(** What the execution is known by stays. *)
Lemma good_reader n ended ended' hist hist' g p p' :
  good n ended hist g p -> same_exec eid (stream_terminals p) (stream_terminals p') -> doc p' = doc p ->
  committing (streams p') = committing (streams p) -> queue_ok g (at_point (reader p')) (streams p') ->
  my_pending (outputs p') = my_pending (outputs p) -> ~ at_enqueue (at_point (reader p)) ->
  (forall key, mine key -> is_Some (entries (stream_flushes (reader p')) !! key) -> key ∈ known_keys g) ->
  point_ok ended' g p' -> hist' = fed g ++ reader_items (at_point (reader p')) -> good n ended' hist' g p'.
Proof.
  intros [] Ht Hd Hc Hq Hp Ha He Hpt Hh. split; try done.
  - by eapply terms_ok_same.
  - by rewrite Hd.
  - rewrite Hc. eapply states_same_exec; [done..|intros x Hx; by eapply unret_mine].
  - destruct g_pending0. split; rewrite ?Hp; auto.
Qed.

Lemma queue_moved g a a' s : queue_ok g a s -> sealing a = None -> sealing a' = None -> queue_ok g a' s.
Proof. intros [] Hs Hs'. split; try done. left. destruct q_drain0 as [H|(k & H & _)]; [done|congruence]. Qed.

(** A job with flushes of known segments is added. *)
Lemma queue_sent g a a' s s' j :
  queue_ok g a s -> sealing a = None -> sealing a' = None -> committing s' = committing s ->
  priority s' = priority s ++ [j] -> periodic s' = periodic s ->
  (forall f, mine f -> f ∈ pr_flushes j -> f ∈ known_keys g) -> queue_ok g a' s'.
Proof.
  intros [] Hs Hs' Hc Hp Hper Hk. destruct (my_queue_send _ _ _ Hc Hp) as [Hq _]. cbn in Hq. rewrite app_nil_r in Hq.
  assert (drain (my_queue s) (sealed_keys g) = []) as Hd by (destruct q_drain0 as [H|(k & H & _)]; [done|congruence]).
  split; rewrite ?Hq, ?Hper; try done.
  - apply in_order_app. split; [done|]. rewrite Hd. apply in_order_done.
  - left. by rewrite drain_app, Hd, drain_nil.
  - intros Hcur f Hf. rewrite !elem_of_app, list_elem_of_filter. intros [H|[H|[_ H]]]; [..|by apply Hk];
      apply q_known0; try done; rewrite elem_of_app; auto.
Qed.

Lemma good_read_own n ended hist g p m reg order now p' :
  good n ended hist g p -> at_point (reader p) = AtRead -> about eid m -> reg = true -> ended = false ->
  read m reg order now p = Some p' ->
  good n (match m with StatusIdle _ => true | _ => false end) (hist ++ message_item eid m) g p'.
Proof.
  intros Hg Hat Hm -> ->. pose proof Hg as []. assert (~ at_enqueue (at_point (reader p))) as Hae by (rewrite Hat; by intros []).
  rewrite Hat in *. cbn [reader_items] in g_hist0. rewrite app_nil_r in g_hist0. subst hist.
  unfold point_ok in g_point0. rewrite Hat in g_point0. destruct g_point0 as [Hrec Hnd].
  assert (forall e order p1 fs, e = eid -> boundary_flushes e order now p = (p1, fs) -> order_ok e order p = true ->
    exists b, p1 = set_flushes b p /\ (forall key, mine key -> ~ is_Some (entries b !! key)) /\
      lists_current g fs) as Hflush.
  { intros e o p1 fs -> Hb Ho. destruct (boundary_flushes_spec _ _ _ _ _ _ Hb Ho) as (b & -> & He & Hf). exists b. split; [done|].
    split; [|split].
    - intros key Hk [H _]%He. done.
    - intros c Hc. apply Hf. split; [by eapply mine_current|]. by apply Hrec.
    - intros f [Hk Hs]%Hf. by apply g_entries0. }
  destruct m as [e nm tx|e k v rich|e]; cbn [about] in Hm; subst e; unfold read, read_stream, read_output, read_idle; cbn [negb message_item].
  - rewrite decide_True by done. destruct (stream_awaits_ordinary_outputs _); intros [= <-];
      (apply (good_reader n false _ (fed g) _ g p); rewrite ?Hat; try done; [by eapply queue_moved|cbn; by rewrite decide_True]).
  - rewrite decide_True by done. destruct (order_ok eid order p) eqn:Ho; [|done].
    destruct (boundary_flushes eid order now p) as [p1 fs] eqn:Hb.
    destruct (Hflush _ _ _ _ eq_refl Hb Ho) as (b & -> & He & Hl).
    destruct fs as [|f fs]; intros [= <-].
    + apply (good_reader n false _ (fed g) _ g p); rewrite ?Hat; try done.
      * by eapply queue_moved.
      * intros key Hk' H. by destruct (He key Hk').
      * unfold point_ok. cbn. rewrite decide_True by done. split; [done|]. split; [done|]. split; [done|].
        intros c Hc. apply Hl in Hc. by apply elem_of_nil in Hc.
      * cbn. by rewrite decide_True.
    + apply (good_reader n false _ (fed g) _ g p); rewrite ?Hat; try done.
      * eapply queue_sent; try done. intros x _. apply Hl.
      * intros key Hk' H. by destruct (He key Hk').
      * unfold point_ok. cbn [at_point reader go_to with_reader]. rewrite decide_True by done. split; [done|]. split.
        -- eapply (not_done_send p _ [mkPriority (f :: fs) None true]); [done|apply jobs_send|by intros ?%list_elem_of_singleton|done].
        -- split; [done|]. cbn. intros c Hc. left. unfold jobs. cbn. rewrite app_assoc, bind_app, elem_of_app. right. cbn. rewrite app_nil_r. by apply Hl.
      * cbn. by rewrite decide_True.
  - destruct (boundary_flushes eid order now p) as [p1 fs] eqn:Hb. destruct (order_ok eid order p) eqn:Ho; [|done].
    destruct (Hflush _ _ _ _ eq_refl Hb Ho) as (b & -> & He & Hl). intros [= <-].
    apply (good_reader n false _ (fed g) _ g p); rewrite ?Hat; try done.
    + by eapply queue_moved.
    + intros key Hk' H. by destruct (He key Hk').
    + unfold point_ok. cbn [at_point reader go_to with_reader]. rewrite decide_True by done. split; [done|]. split; [|done].
      destruct Hnd as [H1 H2]. split; [|done]. cbn. rewrite elem_of_app, list_elem_of_singleton. by intros [H|H].
Qed.

(** *** Text *)

Definition begin_segment (g : Ghost) (key : SegmentKey) (tx : bytes) : Ghost :=
  mkGhost (fed g ++ [Chunk key.1.2 tx]) (closed g) (rows g) (retired g) (unret g) (Some (key, tx)) (row g).
Definition extend_segment (g : Ghost) (c : SegText) (tx : bytes) : Ghost :=
  mkGhost (fed g ++ [Chunk c.1.1.2 tx]) (closed g) (rows g) (retired g) (sealed_live g) (Some (c.1, c.2 ++ tx)) (row g).

Lemma coalesced g a o :
  pending_ok g a o -> my_pending o = [] -> coalesce (fed g) = closed g ++ (seg_shown <$> (retired g ++ unret g)).
Proof. intros [] Hp. by rewrite p_order0, Hp. Qed.

Lemma unret_current g c : current g = Some c -> unret g = sealed_live g ++ [c].
Proof. intros Hc. unfold unret. by rewrite Hc. Qed.

Lemma pending_begin g a a' o key tx :
  pending_ok g a o -> my_pending o = [] -> ~ at_enqueue a ->
  (forall c, current g = Some c -> c.1.1.2 <> key.1.2) -> (current g = None -> retired g = [] /\ sealed_live g = []) ->
  pending_ok (begin_segment g key tx) a' o.
Proof.
  intros Hp He Ha Hne Hnone. pose proof (coalesced g a o Hp He) as Hco. split; [|by rewrite He|done].
  rewrite He. cbn [begin_segment fed closed retired]. rewrite coalesce_begin.
  - change (unret (begin_segment g key tx)) with (unret g ++ [(key, tx)]). rewrite Hco, (app_assoc (retired g)), (fmap_app _ (retired g ++ unret g)).
    cbn. by rewrite <- !app_assoc.
  - intros t. destruct (current g) as [c|] eqn:Hc.
    + rewrite Hco, (unret_current g c Hc), app_assoc, fmap_app, app_assoc. cbn. rewrite last_snoc. intros [= E _]. by apply (Hne c).
    + apply (p_open _ _ _ Hp); [done|done].
Qed.

Lemma pending_extend g a a' o c tx :
  pending_ok g a o -> my_pending o = [] -> current g = Some c -> pending_ok (extend_segment g c tx) a' o.
Proof.
  intros Hp He Hc. pose proof (coalesced g a o Hp He) as Hco. split; [|by rewrite He|done].
  rewrite He. cbn [extend_segment fed closed retired].
  change (unret (extend_segment g c tx)) with (sealed_live g ++ [(c.1, c.2 ++ tx)]).
  rewrite (unret_current g c Hc), app_assoc, fmap_app, app_assoc in Hco. cbn in Hco.
  rewrite (coalesce_join _ _ _ _ tx Hco). rewrite (app_assoc (retired g)), (fmap_app _ (retired g ++ sealed_live g)). cbn. by rewrite <- !app_assoc.
Qed.

Lemma unret_begin g key tx : unret (begin_segment g key tx) = unret g ++ [(key, tx)].
Proof. done. Qed.

Lemma row_list_begin n g key tx d : doc_ok n g d -> row_list (begin_segment g key tx) = row_list g.
Proof.
  intros Hd. unfold row_list. rewrite unret_begin. cbn [begin_segment row]. destruct (row g) as [[oid t]|] eqn:Hr; [|done].
  destruct (d_row _ _ _ Hd _ Hr) as [_ H]. by destruct (unret g).
Qed.

Lemma states_begin n g com t t' key tx d :
  states_ok g com t -> doc_ok n g d -> output_states t' = output_states t -> mine key -> ~ (key ∈ known_keys g) ->
  (forall f c, in_flight com = Some f -> mine f -> current g = Some c -> f <> c.1) -> states_ok (begin_segment g key tx) com t'.
Proof.
  intros [] Hd Hst Hk Hfresh Hcalm.
  assert (forall x l, unret g = x :: l -> unret (begin_segment g key tx) = x :: (l ++ [(key, tx)])) as Hcons by (intros x l Hu; by rewrite unret_begin, Hu).
  assert (forall f x l, in_flight com = Some f -> mine f -> unret g = x :: l -> f = x.1 -> sealed_live g <> []) as Hsealed.
  { intros f x l Hf Hm Hu -> Hs. unfold unret in Hu. rewrite Hs in Hu. destruct (current g) as [c|] eqn:Hc; [|done].
    injection Hu as -> _. by apply (Hcalm x.1 x). }
  split.
  - intros key' Hk' H. rewrite Hst. apply s_others0; [done|]. intros x l Hu. by eapply H, Hcons.
  - intros Hw x l Hu. rewrite Hst. destruct (unret g) as [|y l'] eqn:Hu0.
    + rewrite unret_begin, Hu0 in Hu. injection Hu as <- _. cbn. rewrite s_others0 by done.
      destruct (row g) as [r|] eqn:Hr; [|done]. by destruct (d_row _ _ _ Hd _ Hr).
    + rewrite (Hcons y l' eq_refl) in Hu. injection Hu as <- _. by eapply s_first0.
  - intros job f known text Hcom Hm. destruct (s_rendered0 job f known text Hcom Hm) as (x & l & Hu & Hf & Hkn & Ht).
    exists x, (l ++ [(key, tx)]). split; [by apply Hcons|]. split; [done|]. split; [done|]. intros _. apply Ht. apply (Hsealed f x l); [by rewrite Hcom|done..].
  - intros job f st Hcom Hm. destruct (s_written0 job f st Hcom Hm) as (x & l & r & Hu & Hf & Hr & Hsr & Ht).
    exists x, (l ++ [(key, tx)]), r. split; [by apply Hcons|]. split; [done|]. split; [done|]. split; [done|]. intros _. apply Ht. apply (Hsealed f x l); [by rewrite Hcom|done..].
Qed.

Lemma begin_known g key tx : known_keys (begin_segment g key tx) = known_keys g ++ [key].
Proof. unfold known_keys. rewrite unret_begin. cbn [begin_segment retired]. by rewrite app_assoc, fmap_app. Qed.

(** A segment is sealed, when one took text, and a new one begins. *)
Lemma queue_begin n g t a a' s key tx :
  queue_ok g a s -> terms_ok n eid (retired g) (sealed_live g) (current g) t -> sealing a = None -> mine key ->
  ~ (key ∈ known_keys g) -> (current g = None -> foreign (periodic s) /\ my_queue s = []) -> sealing a' = current_key g ->
  queue_ok (begin_segment g key tx) a' s.
Proof.
  intros [] Ht Ha Hk Hfresh Hnone Ha'.
  assert (drain (my_queue s) (sealed_keys g) = []) as Hd by (destruct q_drain0 as [H|(k & H & _)]; [done|congruence]).
  assert (forall f, mine f -> f ∈ periodic s ++ my_queue s -> f ∈ known_keys g) as Hknown.
  { intros f Hf Hin. destruct (current g) as [c|] eqn:Hc; [by apply q_known0|]. destruct (Hnone eq_refl) as [Hp Hq].
    rewrite Hq, app_nil_r in Hin. unfold foreign in Hp. rewrite Forall_forall in Hp. by destruct (Hp f Hin). }
  assert (forall f, f ∈ my_queue s -> Some f <> Some key) as Hne.
  { intros f Hf [= ->]. apply Hfresh, Hknown; [done|]. rewrite elem_of_app. by right. }
  assert (in_order (my_queue s) (sealed_keys (begin_segment g key tx)) (Some key) /\
    (drain (my_queue s) (sealed_keys (begin_segment g key tx)) = [] \/
     exists k, current_key g = Some k /\ drain (my_queue s) (sealed_keys (begin_segment g key tx)) = [k])) as [Ho Hd'].
  { change (sealed_keys (begin_segment g key tx)) with ((unret g).*1). unfold unret, current_key in *.
    destruct (current g) as [c|] eqn:Hc; [|destruct (Hnone eq_refl) as [_ ->]; destruct (t_none _ _ _ _ _ _ Ht eq_refl) as [_ ->]; split; [done|by left]].
    rewrite fmap_app. cbn. destruct (in_order_seal (my_queue s) (sealed_keys g) c.1 (Some key)) as [H1 H2]; [done|done|].
    split; [done|]. unfold sealed_keys in *. destruct H2 as [H2|[_ H2]]; [right|by left]. exists c.1. split; [done|]. by rewrite H2, Hd. }
  split; try done.
  - by rewrite Ha'.
  - intros _ f Hf Hin. rewrite begin_known, elem_of_app. left. by apply Hknown.
  - intros _ f Hf [= <-] Hin. by apply Hfresh, Hknown.
Qed.

Lemma good_begin n hist g p key tx t' a' :
  good n false hist g p -> at_point (reader p) = AtFeed eid key.1.2 tx -> mine key -> ~ (key ∈ known_keys g) ->
  (forall c, current g = Some c -> c.1.1.2 <> key.1.2) -> my_pending (outputs p) = [] -> calm_feed eid key.1.2 p ->
  terms_ok (n + 1) eid (retired g) (unret g) (Some (key, tx)) t' -> output_states t' = output_states (stream_terminals p) ->
  sealing a' = current_key g -> reader_items a' = [] ->
  (not_done p -> recorded g p -> point_ok false (begin_segment g key tx) (go_to a' (with_terminals (fun _ => t') p))) ->
  good (n + 1) false hist (begin_segment g key tx) (go_to a' (with_terminals (fun _ => t') p)).
Proof.
  intros [] Hat Hk Hfresh Hne Hpend Hcalm Ht Hst Ha' Hi Hpt. rewrite Hat in *. unfold calm_feed in Hcalm.
  rewrite (t_last _ _ _ _ _ _ g_terms0) in Hcalm.
  unfold point_ok in g_point0. rewrite Hat in g_point0. destruct g_point0 as [[Hrec Hnd] _].
  split; try done.
  - apply doc_ok_mono with n; [|lia]. pose proof (row_list_begin n g key tx (doc p) g_doc0) as Hr. destruct g_doc0. split; try done.
    + by rewrite Hr.
    + intros x Hx. destruct (d_row0 x Hx). split; [done|]. rewrite unret_begin. by destruct (unret g).
  - eapply states_begin; try done. intros f c Hf Hm Hc ->. rewrite Hc in Hcalm. cbn in Hcalm.
    apply (Hcalm (Hne c Hc) c.1 Hf). destruct c as [[[? ?] ?] ?]. cbn in *. by rewrite Hm.
  - change (streams (go_to a' (with_terminals (fun _ => t') p))) with (streams p). eapply queue_begin; try done. intros Hc. rewrite Hc in Hcalm. cbn in Hcalm.
    assert (unret g = []) as Hu by (unfold unret; rewrite Hc; by destruct (t_none _ _ _ _ _ _ g_terms0 Hc) as [_ ->]).
    apply Forall_app in Hcalm as [Hp Hw]. split; [done|]. unfold my_queue. rewrite filter_app, (filter_foreign (waiting _)), app_nil_r by done.
    destruct (in_flight (committing (streams p))) as [f|] eqn:Hf; [|done]. apply filter_foreign. constructor; [|constructor]. intros Hm.
    destruct g_states0. destruct (committing (streams p)) as [| |job|job f' known text|job f' st] eqn:Hcom; try done; injection Hf as ->.
    + destruct (s_rendered0 _ _ _ _ eq_refl Hm) as (x & l & E & _). congruence.
    + destruct (s_written0 _ _ _ eq_refl Hm) as (x & l & r & E & _). congruence.
  - eapply pending_begin; try done; [by intros []|by eapply t_none].
  - intros k Hkm Hs. rewrite begin_known, elem_of_app. left. by apply g_entries0.
  - by apply Hpt.
  - cbn. rewrite Hi, app_nil_r. cbn in g_hist0. by rewrite decide_True in g_hist0.
Qed.

Lemma good_extend n hist g p c len tx t' a' :
  good n false hist g p -> at_point (reader p) = AtFeed eid c.1.1.2 tx -> current g = Some c -> my_pending (outputs p) = [] ->
  terms_ok n eid (retired g) (sealed_live g) (Some (c.1, c.2 ++ tx)) t' -> output_states t' = output_states (stream_terminals p) ->
  a' = AtRecord eid c.1.1.2 len c.1.2 ->
  good (n + 1) false hist (extend_segment g c tx) (go_to a' (with_terminals (fun _ => t') p)).
Proof.
  intros Hg Hat Hc Hpend Ht Hst ->. pose proof (mine_current n g _ c (g_terms _ _ _ _ _ Hg) Hc) as Hm. destruct Hg. rewrite Hat in *.
  unfold point_ok in g_point0. rewrite Hat in g_point0. destruct g_point0 as [[Hrec Hnd] _].
  assert (known_keys (extend_segment g c tx) = known_keys g) as Hk
    by (unfold known_keys, unret; cbn [extend_segment retired sealed_live current]; rewrite Hc, !fmap_app; done).
  assert (forall x l, unret (extend_segment g c tx) = x :: l -> exists y l', unret g = y :: l' /\ y.1 = x.1) as Hback.
  { intros x l. unfold unret. cbn [extend_segment sealed_live current]. rewrite Hc. destruct (sealed_live g) as [|y S].
    - intros [= <- _]. by exists c, []. - intros [= <- _]. by exists y, (S ++ [c]). }
  assert (forall y l, unret g = y :: l -> exists x l', unret (extend_segment g c tx) = x :: l' /\ y.1 = x.1 /\ (sealed_live g <> [] -> x = y)) as Hforth.
  { intros y l. unfold unret. cbn [extend_segment sealed_live current]. rewrite Hc. destruct (sealed_live g) as [|z S].
    - intros [= <- _]. by exists (c.1, c.2 ++ tx), []. - intros [= <- _]. by exists z, (S ++ [(c.1, c.2 ++ tx)]). }
  split; try done.
  - eapply terms_ok_mono; [done|lia].
  - apply doc_ok_mono with n; [|lia]. destruct g_doc0. split; try done.
    + assert (row_list (extend_segment g c tx) = row_list g) as ->; [|done]. unfold row_list. cbn [extend_segment row].
      destruct (row g) as [[oid t]|] eqn:Hr; [|done]. destruct (d_row0 _ eq_refl) as [_ Hne]. destruct (unret g) as [|y l] eqn:Hu; [done|].
      destruct (Hforth y l eq_refl) as (x & l' & -> & -> & _). done.
    + intros x Hx. destruct (d_row0 x Hx) as [H1 H2]. split; [done|]. unfold unret. cbn. by destruct (sealed_live g).
  - change (streams (go_to _ _)) with (streams p). destruct g_states0. split.
    + intros key Hkm H. cbn. rewrite Hst. apply s_others0; [done|]. intros y l Hu. destruct (Hforth y l Hu) as (x & l' & Hx & -> & _). by eapply H.
    + intros Hw x l Hu. cbn. rewrite Hst. destruct (Hback x l Hu) as (y & l' & Hy & <-). by eapply s_first0.
    + intros job f known text Hcom Hf. destruct (s_rendered0 _ _ _ _ Hcom Hf) as (y & l & Hu & -> & Hkn & Htx).
      destruct (Hforth y l Hu) as (x & l' & Hx & Hxy & Heq). exists x, l'. split; [done|]. split; [done|]. split; [done|].
      intros Hs. rewrite (Heq Hs). by apply Htx.
    + intros job f st Hcom Hf. destruct (s_written0 _ _ _ Hcom Hf) as (y & l & r & Hu & -> & Hr & Hsr & Htx).
      destruct (Hforth y l Hu) as (x & l' & Hx & Hxy & Heq). exists x, l', r. split; [done|]. split; [done|]. split; [done|]. split; [done|].
      intros Hs. rewrite (Heq Hs). by apply Htx.
  - change (streams (go_to _ _)) with (streams p). destruct g_queue0. unfold current_key in *. rewrite Hc in q_order0. split; try done.
    intros _ f Hf Hin. rewrite Hk. apply q_known0; [by rewrite Hc|done|done].
  - by eapply pending_extend.
  - by rewrite Hk.
  - unfold point_ok. cbn [at_point reader go_to with_reader]. rewrite decide_True by done. split; [done|]. split; [done|].
    cbn. destruct c as [[[e nm] sg] tx']. cbn in *. by rewrite <- Hm.
  - cbn. rewrite app_nil_r. cbn in g_hist0. by rewrite decide_True in g_hist0.
Qed.

(** *** The way through an arm *)

Lemma good_feed n hist g p nm tx now p' :
  good n false hist g p -> plumbing p -> 0 <= n -> n + 1 < 2 ^ 64 -> at_point (reader p) = AtFeed eid nm tx ->
  calm_feed eid nm p -> read_on now p = Some p' -> exists g', good (n + 1) false hist g' p'.
Proof.
  intros Hg Hpl Hn0 Hn Hat Hcalm. unfold read_on. rewrite Hat.
  assert (my_pending (outputs p) = []) as Hpend.
  { destruct (pl_quiet p Hpl (pl_feed p Hpl _ _ _ Hat)) as [H1 H2]. unfold my_pending. by rewrite H1, H2. }
  pose proof (g_terms _ _ _ _ _ Hg) as Ht.
  assert ((exists c, current g = Some c /\ c.1.1.2 = nm) \/ forall c, current g = Some c -> c.1.1.2 <> nm) as [(c & Hc & Hnm)|Hne].
  { destruct (current g) as [c|]; [|by right]. destruct (decide (c.1.1.2 = nm)); [left; by exists c|right; by intros ? [= <-]]. }
  - rewrite Hc in Ht. destruct (feed_same n eid _ _ c nm tx _ Ht Hnm) as (t' & -> & Ht' & Hst). cbn [sealed segment]. intros [= <-].
    exists (extend_segment g c tx). subst nm. by eapply good_extend.
  - destruct (feed_new n eid _ _ _ nm tx _ Ht Hne Hn0 Hn) as (t' & sg & -> & Hfresh & Ht' & Hst). cbn [sealed segment].
    set (key := (eid, nm, sg)) in *. assert (mine key) as Hk by done.
    assert (forall a', sealing a' = current_key g -> reader_items a' = [] ->
      (not_done p -> recorded g p -> point_ok false (begin_segment g key tx) (go_to a' (with_terminals (fun _ => t') p))) ->
      exists g', good (n + 1) false hist g' (go_to a' (with_terminals (fun _ => t') p))) as Hgo.
    { intros a' Ha' Hi Hpt. exists (begin_segment g key tx). by eapply good_begin. }
    destruct (current g) as [c|] eqn:Hc; cbn [fmap option_fmap option_map]; intros [= <-]; apply Hgo; clear Hgo; try done.
    + unfold current_key. rewrite Hc. cbn. rewrite decide_True by done. cbn.
      pose proof (mine_current n g _ c (g_terms _ _ _ _ _ Hg) Hc) as Hm. destruct c as [[[e nm'] sg'] tx']. cbn in *. by rewrite Hm.
    + intros Hnd Hrec. unfold point_ok. cbn [at_point reader go_to with_reader]. rewrite decide_True by done.
      split; [done|]. split; [done|]. split; [done|]. cbn. rewrite decide_True by done. eexists. split; [done|].
      pose proof (mine_current n g _ c (g_terms _ _ _ _ _ Hg) Hc) as Hm. pose proof (Hrec c Hc) as H. destruct c as [[[e nm'] sg'] tx']. cbn in *. by rewrite <- Hm.
    + unfold current_key. by rewrite Hc.
    + intros Hnd Hrec. unfold point_ok. cbn [at_point reader go_to with_reader]. rewrite decide_True by done. done.
Qed.

Lemma good_seal n ended hist g p nm len pl now p' :
  good n ended hist g p -> at_point (reader p) = AtSeal eid nm len pl -> read_on now p = Some p' -> good n ended hist g p'.
Proof.
  intros Hg Hat. pose proof Hg as []. unfold point_ok in g_point0. rewrite Hat in *. cbn [sealing] in g_point0. rewrite decide_True in g_point0 by done.
  destruct g_point0 as (-> & Hnd & Hcur & k & Hk & Hent). unfold read_on. rewrite Hat.
  rewrite decide_True in Hk by done. destruct (sealed pl) as [sl|] eqn:Hsl; [|done]. cbn in Hk. injection Hk as Hk. rewrite Hk.
  change (stream_flushes (reader (go_to ?a ?q))) with (stream_flushes (reader q)).
  unfold take_segment. pose proof (take_key_domain k now (stream_flushes (reader p))) as Hd. revert Hd.
  unfold take_key. destruct Hent as [e He]. rewrite He. cbn [fst]. set (b := with_entries _ _). intros Hd [= <-].
  assert (mine k) as Hm by (by rewrite <- Hk).
  assert (k ∈ known_keys g) as Hkn by (apply g_entries0; [done|by eexists]).
  eapply (good_reader n false false hist hist g p _ Hg); rewrite ?Hat; try done.
  - destruct g_queue0. set (s' := streams _).
    destruct (my_queue_send (streams p) s' [mkPriority [k] None false] eq_refl eq_refl) as [Hq _].
    change ([mkPriority [k] None false] ≫= pr_flushes) with [k] in Hq. rewrite filter_cons_True in Hq by done.
    change (filter (of_exec eid) []) with (@nil SegmentKey) in Hq.
    assert (k ∈ sealed_keys g -> Some k <> current_key g) as Hne.
    { intros Hin. pose proof (unret_NoDup n g _ g_terms0) as Hnd'.
      unfold current_key. destruct (current g) as [c|] eqn:Hc; [|done]. intros [= E]. unfold unret in Hnd'. rewrite Hc, fmap_app, NoDup_app in Hnd'.
      destruct Hnd' as (_ & Hdis & _). apply (Hdis k Hin). rewrite E. by apply list_elem_of_singleton. }
    cbn [sealing] in q_drain0. rewrite decide_True, Hsl in q_drain0 by done. cbn in q_drain0. rewrite Hk in q_drain0.
    assert (drain (my_queue (streams p)) (sealed_keys g) = [] \/
      drain (my_queue (streams p)) (sealed_keys g) = [k] /\ Some k <> current_key g) as Hdr.
    { destruct q_drain0 as [H|(k' & [= <-] & H)]; [by left|right]. split; [done|]. apply Hne, (drain_elem (my_queue (streams p))).
      rewrite H. by left. }
    split; rewrite ?Hq.
    + apply in_order_app. split; [done|]. destruct Hdr as [->|[-> Hnc]]; [apply in_order_done|].
      split; [apply not_elem_of_nil|]. split; [done|by case_decide].
    + left. rewrite drain_app. destruct Hdr as [->|[-> Hnc]]; [apply drain_nil|]. cbn. by rewrite decide_True.
    + intros Hc f Hf. rewrite app_assoc, elem_of_app, list_elem_of_singleton. intros [H| ->]; [by apply q_known0|done].
    + done.
  - by intros [].
  - intros key Hkm Hs. apply g_entries0; [done|]. by apply Hd.
  - unfold point_ok. change (at_point (reader _)) with (AtRecord eid nm len (segment pl)); cbv iota beta. rewrite decide_True by done. split; [done|]. split; [|done].
    eapply (not_done_send p _ [mkPriority [k] None false]); [done|apply jobs_send|by intros ?%list_elem_of_singleton|done].
Qed.

Lemma good_record n ended hist g p nm len sg now p' :
  good n ended hist g p -> at_point (reader p) = AtRecord eid nm len sg -> read_on now p = Some p' -> good n ended hist g p'.
Proof.
  intros Hg Hat. pose proof Hg as []. unfold point_ok in g_point0. rewrite Hat in *. rewrite decide_True in g_point0 by done.
  destruct g_point0 as (-> & Hnd & Hcur). unfold read_on. rewrite Hat.
  destruct (record_chunk (eid, nm, sg) len now (stream_flushes (reader p))) as [b f] eqn:Hr.
  destruct (record_chunk_domain _ _ _ _ _ _ Hr) as [Hd Hf].
  assert (exists c, current g = Some c /\ c.1 = (eid, nm, sg)) as (c & Hc & Hck)
    by (unfold current_key in Hcur; destruct (current g) as [c|]; [injection Hcur as E; by exists c|done]).
  assert ((eid, nm, sg) ∈ known_keys g) as Hkn.
  { rewrite <- Hck. apply list_elem_of_fmap_2. unfold unret. rewrite Hc, !elem_of_app. right. right. by apply list_elem_of_singleton. }
  assert (good n false hist g (go_to AtRead (set_flushes b p))) as Hg1.
  { eapply (good_reader n false false hist hist g p _ Hg); rewrite ?Hat; try done; [by eapply queue_moved|by intros []| |].
    - intros key Hkm. cbn. rewrite Hd. intros [->|H]; [done|by apply g_entries0].
    - split; [|done]. intros c' Hc'. cbn. rewrite Hd. left. rewrite Hc in Hc'. by injection Hc' as <-. }
  destruct f as [f|]; intros [= <-]; [|done]. rewrite (Hf f eq_refl). unfold request_flush. case_decide; [|done].
  destruct Hg1. split; try done. destruct g_queue1. split; try done.
  - intros H1 x Hx. rewrite elem_of_app. cbn. rewrite elem_of_app, list_elem_of_singleton. intros [[H2| ->]|H2]; [..|done|];
      [apply q_known0..]; try done; rewrite elem_of_app; [by left|by right].
Qed.

(** When all text is saved, the document shows everything but the outputs that wait. *)
Lemma rows_show n m g d t com :
  doc_ok n g d -> terms_ok m eid (retired g) (sealed_live g) (current g) t -> all_saved g com ->
  Forall2 shows (closed g ++ (seg_shown <$> (retired g ++ unret g))) (rows g ++ row_list g).
Proof.
  intros [] Ht Hsv. destruct (current g) as [c|] eqn:Hc.
  - destruct (Hsv c Hc) as (H1 & (oid & H2) & _). assert (unret g = [c]) as Hu by (unfold unret; by rewrite H1, Hc).
    unfold row_list. rewrite H2, Hu, fmap_app, app_assoc. apply Forall2_app; [done|]. by constructor.
  - destruct (t_none _ _ _ _ _ _ Ht eq_refl) as [H1 H2]. assert (unret g = []) as Hu by (unfold unret; by rewrite H2, Hc).
    assert (row_list g = []) as -> by (unfold row_list; rewrite Hu; by destruct (row g) as [[]|]). by rewrite app_nil_r, Hu, app_nil_r.
Qed.

Lemma good_clear n ended hist g p out is_error p' now :
  good n ended hist g p -> at_point (reader p) = AtClear out is_error -> out_execution_id out = eid ->
  (forall f, in_flight (committing (streams p)) = Some f -> ~ mine f) -> read_on now p = Some p' ->
  exists g', good n ended hist g' p'.
Proof.
  intros [] Hat Hout Hcalm. unfold point_ok in g_point0. rewrite Hat in *. rewrite decide_True in g_point0 by done.
  destruct g_point0 as (-> & Hnd & Hent & Hsv). unfold read_on. rewrite Hat. intros [= <-]. rewrite Hout.
  destruct (clear_own _ _ _ _ _ _ g_terms0) as [Ht Hst].
  set (g' := mkGhost (fed g) (closed g ++ (seg_shown <$> (retired g ++ unret g))) (rows g ++ row_list g) [] [] None None).
  exists g'. set (p' := go_to _ _).
  pose proof (rows_show _ _ _ _ _ _ g_doc0 g_terms0 Hsv) as Hshows. destruct g_doc0.
  split; try done.
  - split; try done.
    + cbn. by rewrite app_nil_r.
    + cbn. by rewrite app_nil_r.
  - split; try done.
    + intros key Hk _. by apply Hst.
    + intros job f known text Hcom Hm. destruct (Hcalm f); [|done]. change (streams p) with (streams p'). by rewrite Hcom.
    + intros job f st Hcom Hm. destruct (Hcalm f); [|done]. change (streams p) with (streams p'). by rewrite Hcom.
  - split; try done; [apply in_order_done|left; apply drain_nil].
  - destruct g_pending0. split; try done.
    + change (coalesce (fed g) =
        (closed g ++ (seg_shown <$> (retired g ++ unret g))) ++ (Ordinary <$> my_pending (outputs p)) ++ []).
      rewrite p_order0, app_nil_r. destruct (decide (my_pending (outputs p) = [])) as [->|Hp]; [by rewrite app_nil_r|].
      specialize (p_alone0 Hp). destruct (t_none _ _ _ _ _ _ g_terms0 p_alone0) as [H1 H2].
      unfold unret. rewrite H1, H2, p_alone0. cbn. by rewrite !app_nil_r.
  - intros key Hk H. by destruct (Hent key Hk).
  - unfold point_ok. cbn [at_point reader go_to with_reader p']. rewrite decide_True by done. done.
Qed.

Lemma good_enqueue n ended hist g p out is_error p' now :
  good n ended hist g p -> at_point (reader p) = AtEnqueue out is_error -> out_execution_id out = eid ->
  read_on now p = Some p' -> exists g', good n ended hist g' p'.
Proof.
  intros [] Hat Hout. unfold point_ok in g_point0. rewrite Hat in *. rewrite decide_True in g_point0 by done.
  destruct g_point0 as (-> & Hnd & Hcur). unfold read_on. rewrite Hat. case_decide; [|done]. intros [= <-].
  destruct (t_none _ _ _ _ _ _ g_terms0 Hcur) as [Hret Hsl].
  assert (unret g = []) as Hu by (unfold unret; by rewrite Hsl, Hcur).
  set (g' := mkGhost (fed g ++ [Output out]) (closed g) (rows g) (retired g) (sealed_live g) (current g) (row g)).
  exists g'. set (p' := go_to _ _).
  assert (my_pending (outputs p') = my_pending (outputs p) ++ [out]) as Hp.
  { unfold my_pending. change (output_queue (outputs p')) with (output_queue (outputs p) ++ [out]).
    change (batching (outputs p')) with (batching (outputs p)). rewrite app_assoc, (filter_app _ (_ ++ _)). by rewrite (filter_cons_True _ out []). }
  assert (sealing (at_point (reader p')) = None /\ reader_items (at_point (reader p')) = [] /\ resting false g p' /\
    point_ok false g' p' = resting false g' p') as (Hs & Hi & Hr & Hpt).
  { unfold point_ok. subst p'. destruct is_error; cbn; (split; [done|split; [done|split; [|done]]]); (split; [|done]); intros c; by rewrite Hcur. }
  split; try done.
  - by destruct g_doc0.
  - by destruct g_states0.
  - assert (queue_ok g (at_point (reader p')) (streams p)) as [] by (by eapply queue_moved). by split.
  - destruct g_pending0. split.
    + change (coalesce (fed g ++ [Output out]) = closed g ++ (Ordinary <$> my_pending (outputs p')) ++ (seg_shown <$> (retired g ++ unret g))).
      rewrite coalesce_output, p_order0, Hp, Hret, Hu, (fmap_app Ordinary). cbn. by rewrite !app_nil_r, app_assoc.
    + done.
    + intros _ _ nm tx. change (last (coalesce (fed g ++ [Output out])) <> Some (Segment nm tx)).
      by rewrite coalesce_output, last_snoc.
  - by rewrite Hpt.
  - rewrite Hi, app_nil_r. cbn in g_hist0. by rewrite decide_True in g_hist0.
Qed.

Lemma good_finish_arm n ended hist g p fs p' now :
  good n ended hist g p -> at_point (reader p) = AtFinish eid fs -> read_on now p = Some p' -> good n ended hist g p'.
Proof.
  intros Hg Hat. pose proof Hg as []. unfold point_ok in g_point0. rewrite Hat in *. rewrite decide_True in g_point0 by done.
  destruct g_point0 as (-> & [Hnd Hnj] & Hp & Hl & Hkn). unfold read_on. rewrite Hat. intros [= <-].
  apply (good_reader n true true hist hist g p); rewrite ?Hat; try done.
  - eapply queue_sent; try done. intros f _. apply Hkn.
  - by intros [].
  - split; [done|]. right. split; [done|]. set (p' := go_to _ _). set (j := mkPriority fs (Some (ExecutionDone eid)) false).
    assert (jobs (streams p') = jobs (streams p) ++ [j]) as Hj by apply jobs_send. rewrite Hj.
    exists (length (jobs (streams p))), j. split; [by rewrite list_lookup_middle|]. split; [done|].
    rewrite take_app_length. split; [done|]. intros c Hc. left. rewrite take_ge by (rewrite length_app; cbn; lia).
    rewrite bind_app, elem_of_app. right. cbn. rewrite app_nil_r. by apply Hl.
Qed.

Lemma good_read_on n ended hist g p now p' :
  good n ended hist g p -> plumbing p -> 0 <= n -> n + 1 < 2 ^ 64 -> calm eid (ReadOn now) p -> read_on now p = Some p' ->
  exists g', good (n + 1) ended hist g' p'.
Proof.
  intros Hg Hpl Hn0 Hn Hcalm Hon. cbn [calm] in Hcalm.
  assert (forall g', good n ended hist g' p' -> exists g', good (n + 1) ended hist g' p') as Hgo
    by (intros g' H; exists g'; eapply good_mono; [done|lia]).
  destruct (decide (own (at_point (reader p)))) as [Ho|Ho]; [|by eapply Hgo, good_read_on_foreign].
  pose proof (g_point _ _ _ _ _ Hg) as Hpt. unfold point_ok in Hpt.
  destruct (at_point (reader p)) as [|e nm tx|e nm tx|e nm len pl|e nm len sg|out b|out b|out b|e|e fs|e fs|fs] eqn:Hat; cbn in Ho; try done;
    try (subst e); rewrite ?decide_True in Hpt by done.
  - eapply Hgo. revert Hon. unfold read_on. rewrite Hat. destruct (output_ack (outputs p)); [|done]. intros [= <-].
    pose proof Hg as []. rewrite Hat in *. apply (good_reader n ended ended hist hist g p); rewrite ?Hat; try done; [by eapply queue_moved|by intros []].
  - destruct Hpt as [_ He]. rewrite (He eq_refl) in *. eapply good_feed; try done. by apply Hcalm.
  - by eapply Hgo, good_seal.
  - by eapply Hgo, good_record.
  - eapply Hgo. destruct Hpt as (-> & Hnd & Hent & Hsv). revert Hon. unfold read_on. rewrite Hat.
    destruct (stream_ack (streams p)); [|done]. intros [= <-]. pose proof Hg as []. rewrite Hat in *.
    apply (good_reader n false false hist hist g p); rewrite ?Hat; try done; [by eapply queue_moved|by intros []|].
    unfold point_ok. cbn [at_point reader go_to with_reader]. by rewrite decide_True.
  - destruct (good_clear n ended hist g p out b p' now) as [g' H]; try done; [|by eapply Hgo]. by apply Hcalm.
  - destruct (good_enqueue n ended hist g p out b p' now) as [g' H]; try done. by eapply Hgo.
  - eapply Hgo. destruct Hpt as (-> & Hnd & Hl). revert Hon. unfold read_on. rewrite Hat.
    destruct (output_ack (outputs p)) eqn:Hack; [|done]. intros [= <-]. pose proof Hg as []. rewrite Hat in *.
    apply (good_reader n true true hist hist g p); rewrite ?Hat; try done; [by eapply queue_moved|by intros []|].
    unfold point_ok. cbn [at_point reader go_to with_reader]. rewrite decide_True by done. split; [done|]. split; [done|]. split; [|done].
    destruct (pl_waited p Hpl) as [H1 H2]; [by rewrite Hat|done|]. unfold my_pending. cbn. by rewrite H1, H2.
  - by eapply Hgo, good_finish_arm.
Qed.

(** ** Runs *)

Lemma good_step s n ended hist g p p' :
  good n ended hist g p -> plumbing p -> 0 <= n -> n + 1 < 2 ^ 64 -> space (n + 1) -> behaved ended s -> calm eid s p ->
  pstep s p = Some p' -> exists g', good (n + 1) (next_ended ended s) (hist ++ step_items eid s) g' p'.
Proof.
  intros Hg Hpl Hn0 Hn Hsp Hb Hcalm. destruct s as [m reg order now|now|o|o]; cbn [pstep next_ended step_items]; rewrite ?app_nil_r.
  - destruct (at_point (reader p)) eqn:Hat; try done. intros Hr. exists g. apply (good_mono n (n + 1)); [|lia]. case_decide as Hm.
    + destruct (Hb Hm) as [-> ->]. by eapply good_read_own.
    + assert (message_item eid m = []) as -> by (destruct m; cbn in *; by rewrite ?decide_False).
      rewrite app_nil_r. by eapply good_read_foreign.
  - intros Hr. by eapply good_read_on.
  - intros [= <-]. by eapply good_commit_on.
  - intros Hr. by eapply good_batch_on.
Qed.

Lemma well_behaved_step ended s ss :
  well_behaved eid ended (s :: ss) -> behaved ended s /\ well_behaved eid (next_ended ended s) ss.
Proof. destruct s as [m reg order now|now|o|o]; cbn; [|done..]. case_decide as H; [|done]. intros (-> & -> & Hw). done. Qed.

Lemma good_run ss n ended hist g p p' :
  good n ended hist g p -> plumbing p -> 0 <= n -> n + zlen ss < 2 ^ 64 -> space (n + zlen ss) ->
  well_behaved eid ended ss -> calm_run eid ss p -> prun ss p = Some p' ->
  exists ended' g', good (n + zlen ss) ended' (hist ++ items eid ss) g' p'.
Proof.
  revert n ended hist g p. induction ss as [|s ss IH]; intros n ended hist g p Hg Hpl Hn0 Hn Hsp Hwb Hcalm Hrun.
  { injection Hrun as <-. exists ended, g. unfold items, zlen. cbn. by rewrite app_nil_r, Z.add_0_r. }
  assert (zlen (s :: ss) = 1 + zlen ss) as Hz by (unfold zlen; cbn [length]; lia).
  pose proof (zlen_nonneg ss). unfold space in *. apply well_behaved_step in Hwb as [Hb Hwb]. cbn [calm_run prun] in *.
  destruct Hcalm as [Hc Hcalm]. destruct (pstep s p) as [p1|] eqn:Hs; [|done].
  destruct (good_step s n ended hist g p p1) as [g1 Hg1]; [done|done|done|lia|unfold space; lia|done|done|done|].
  destruct (IH (n + 1) (next_ended ended s) (hist ++ step_items eid s) g1 p1) as (ended' & g' & Hg'); [done|by eapply plumbing_step|lia|lia|replace (n + 1 + zlen ss) with (n + zlen (s :: ss)) by lia; done|done|done|done|].
  exists ended', g'. replace (n + zlen (s :: ss)) with (n + 1 + zlen ss) by lia.
  change (items eid (s :: ss)) with (step_items eid s ++ items eid ss). by rewrite app_assoc.
Qed.

(** Once the execution is reported done, everything is in the document. *)
Lemma good_done n ended hist g p :
  good n ended hist g p -> ExecutionDone eid ∈ sent p ->
  exists shown, outputs_of (doc p) = outputs_of d0 ++ shown /\ Forall2 shows (coalesce hist) shown.
Proof.
  intros [] Hin. assert (not_done p -> False) as Hnd by (intros [H _]; by apply H).
  assert (~ own (at_point (reader p))) as Ho.
  { intros Ho. unfold point_ok in g_point0. destruct (at_point (reader p)); cbn in Ho; try done; try (subst eid0);
      rewrite ?decide_True in g_point0 by done; try tauto.
    all: unfold resting in g_point0; destruct g_point0 as [Hr He]; rewrite He in Hr by done; tauto. }
  apply point_foreign in g_point0 as [Hr _]; [|done]. destruct (foreign_point _ Ho) as (Hi & _ & _). rewrite Hi, app_nil_r in g_hist0. subst hist.
  unfold resting in Hr. destruct ended; [|tauto]. destruct Hr as [Hp [Hsv|[H _]]]; [|done].
  exists (rows g ++ row_list g). split; [apply g_doc0|]. rewrite (coalesced _ _ _ g_pending0 Hp). by eapply rows_show.
Qed.

End OutputsInOrder.

(** C8. The outputs of an execution in order, whatever else the kernel and the other tasks
    do: when the execution has been reported done, the document has gained one row for each
    of its outputs and each run of consecutive text on one stream, in the order of the
    messages; each row shows its output, or what a terminal fed exactly the text of its run
    shows.  It holds in every interleaving of the reader, the two committers and the other
    executions that stays out of the windows [calm_run] names. *)
Theorem outputs_follow_messages `{EM : Emulator} `{ENV : OutputEnv} `{OM : OutputManifests} `{ML : !ManifestLaws}
    eid d0 ss p :
  outputs_wf d0 -> has_execution eid d0 ->
  next_seq (scan_output_order (exec_outputs eid d0)) + 128 * zlen ss <= u64_max ->
  well_behaved eid false ss -> calm_run eid ss (start d0) -> prun ss (start d0) = Some p ->
  ExecutionDone eid ∈ sent p ->
  exists shown, output_list (exec_outputs eid (doc p)) = output_list (exec_outputs eid d0) ++ shown /\
    Forall2 shows (coalesce (items eid ss)) shown.
Proof.
  intros Hwf Hh Hsp Hwb Hcalm Hrun Hdone. pose proof (zlen_nonneg ss).
  destruct (next_seq_bound (exec_outputs eid d0) (wf_outputs _ Hwf eid)) as [Hb _]. unfold is_u64, u64_max in *.
  destruct (good_run eid d0 ss 0 false [] nothing (start d0) p) as (ended & g & Hg);
    [by apply good_start|apply plumbing_start|lia|lia|unfold space, next_of, u64_max; lia|done|done|done|].
  by eapply good_done.
Qed.
