(* ===== verification/OutputExamples.v ===== *)
(** * Runs of the output pipeline

    The theorem of [OutputOrder] applied to a run of every arm, and the runs that show why
    its windows are there: text lost, repeated or out of order with no failure of any part,
    and a batch lost with the notice of a failure.  The terminal of these runs keeps the
    printable characters it is fed on one line; the manifests of ordinary outputs carry
    their id and a label. *)

From S2P Require Import Prelude Kernel Automunge RuntimeDoc RuntimeOutputs Text TerminalText StreamSegments OutputPipeline OutputSpec OutputPlumbing OutputOrder.

Module PipelineRuns.

Definition toy_cell (c : Z) : Cell := mkCell c (Named Foreground) (Named Background) no_flags [].

#[local] Instance LineEmulator : Emulator := {|
  Term := list Z; Processor := unit; new_term := []; new_processor := tt;
  advance := fun _ t bs => (tt, t ++ filter (fun c => 32 <= c) (b2Z <$> bs));
  grid_of := fun t => mkGrid 0 [toy_cell <$> t] 0;
|}.
#[local] Instance PlainEnv : OutputEnv := {|
  redact_text := fun s => s; blob_hash := fun s => ("hash of " +:+ s)%string;
|}.
#[local] Instance PlainManifests : OutputManifests := {|
  make_manifest := fun o oid => JObject (<["output_id" := JString oid]> {["output_type" := JString (kind_label (out_kind o))]});
  redact_output_value := fun v => if json_ok v then v else JNull;
|}.

#[local] Instance PlainManifestLaws : ManifestLaws.
Proof.
  split.
  - intros out oid. cbn. apply json_ok_object_2. by repeat apply map_Forall_insert_2; [..|apply map_Forall_empty].
  - intros out oid H. unfold extract_output_id, json_get, make_manifest. cbn. rewrite lookup_insert_eq. cbn. by rewrite decide_False.
  - intros v. cbn. by destruct (json_ok v) eqn:E.
Qed.

Definition doc0 : RuntimeStateDoc := (create_execution "e" new_runtime_doc).1.

(** The outputs of the execution, by id and text, and whether it was reported done. *)
Definition final (p : option Pipeline) : option (list (string * option string) * bool) :=
  p ← p; Some ((fun x => (x.1, content_id x.2)) <$> output_list (exec_outputs "e" (doc p)),
    bool_decide (ExecutionDone "e" ∈ sent p)).

Definition on : step := ReadOn 0.
Definition chunk (name : string) (c : Byte.byte) : step := Read (StreamContent "e" name [c]) true [] 0.
Definition display (order : list SegmentKey) : step := Read (OutputContent "e" DisplayData JNull false) true order 0.
Definition idle (order : list SegmentKey) : step := Read (StatusIdle (Some "e")) true order 0.
Definition commits (n : nat) (oid : string) : list step := replicate n (CommitOn (Published oid)).
Definition batches (n : nat) (l : list Prepared) : list step := replicate n (BatchOn (Some l)).
Definition out0 : SegmentKey := ("e", "stdout", 0).
Definition err0 : SegmentKey := ("e", "stderr", 0).

(** ** A cell *)

(** Text on both streams, a display, text again, the end. *)
Definition cell_run : list step :=
  [chunk "stdout" Byte.x61; on; on] ++ commits 6 "id1" ++
  [chunk "stdout" Byte.x62; on; on; chunk "stderr" Byte.x63; on; on; on] ++ commits 5 "id2" ++ commits 6 "id3" ++
  [display [out0; err0]] ++ commits 6 "id4" ++ [on; on; on] ++ batches 4 [Created "id5"] ++
  [chunk "stdout" Byte.x64] ++ batches 3 [] ++ [on; on; on] ++
  [idle [out0]] ++ batches 3 [] ++ [on; on] ++ commits 5 "id6".

Definition cell_done : Pipeline := default (start doc0) (prun cell_run (start doc0)).

Example cell_outputs :
  final (prun cell_run (start doc0)) = Some ([("id1", Some "ab"); ("id3", Some "c"); ("id5", None); ("id6", Some "d")], true).
Proof. by vm_compute. Qed.

Lemma some_default {A} (x : A) (o : option A) : bool_decide (is_Some o) = true -> o = Some (default x o).
Proof. by intros [y ->]%bool_decide_eq_true. Qed.

Lemma doc0_wf : outputs_wf doc0 /\ has_execution "e" doc0.
Proof.
  split; [apply create_execution_wf, runtime_wf_new|]. eexists. by vm_compute.
Qed.

Lemma outputs_follow_messages_witness :
  exists shown, output_list (exec_outputs "e" (doc cell_done)) = output_list (exec_outputs "e" doc0) ++ shown /\
    Forall2 shows (coalesce (items "e" cell_run)) shown.
Proof.
  apply (outputs_follow_messages "e" doc0 cell_run cell_done).
  - apply doc0_wf.
  - apply doc0_wf.
  - by apply Z.leb_le; vm_compute.
  - apply (bool_decide_eq_true_1 (well_behaved _ _ _)). by vm_compute.
  - apply (bool_decide_eq_true_1 (calm_run _ _ _)). by vm_compute.
  - apply some_default. by vm_compute.
  - apply (bool_decide_eq_true_1 (ExecutionDone "e" ∈ sent cell_done)). by vm_compute.
Defined.

(** ** Through the windows *)

(** Seal while writing: "b" comes while "a" is being written; the switch to stderr seals
    the segment, the commit of "a" then retires it and its last flush finds nothing. *)
Definition seal_while_writing : list step :=
  [chunk "stdout" Byte.x61; on; on] ++ commits 3 "id1" ++
  [chunk "stdout" Byte.x62; on; on; chunk "stderr" Byte.x63; on; on; on] ++ commits 3 "id1" ++
  commits 3 "id2" ++ commits 6 "id3" ++ [idle [out0; err0]] ++ batches 3 [] ++ [on; on] ++ commits 6 "id4".

Example text_lost_at_stream_switch :
  final (prun seal_while_writing (start doc0)) = Some ([("id1", Some "a"); ("id3", Some "c")], true) /\
  coalesce (items "e" seal_while_writing) = [Segment "stdout" [Byte.x61; Byte.x62]; Segment "stderr" [Byte.x63]].
Proof. split; by vm_compute. Qed.

(** A periodic flush left in the queue is taken between the answer to the boundary flush
    and the clearing of the terminals, and written after the display. *)
Definition flush_across_display : list step :=
  [chunk "stdout" Byte.x61; on; on; display [out0]] ++ commits 5 "id1" ++ [on] ++ commits 3 "id3" ++
  [on; on] ++ batches 4 [Created "id2"] ++ commits 3 "id3" ++ [idle []] ++ batches 3 [] ++ [on; on] ++ commits 2 "id4".

Example text_repeated_after_display :
  final (prun flush_across_display (start doc0)) = Some ([("id1", Some "a"); ("id2", None); ("id3", Some "a")], true) /\
  coalesce (items "e" flush_across_display) =
    [Segment "stdout" [Byte.x61]; Ordinary (mkOutput "e" JNull DisplayData)].
Proof. split; by vm_compute. Qed.

(** A periodic flush left from before a display names the first segment of stderr; after
    the display it is taken between the feed that seals stdout and the last flush of stdout. *)
Definition flush_left_over : list step :=
  [chunk "stderr" Byte.x61; on; on; display [err0]] ++ commits 5 "id1" ++ [on; on; on] ++ batches 4 [Created "id2"] ++
  [chunk "stdout" Byte.x62] ++ batches 3 [] ++ [on; on; on; chunk "stderr" Byte.x63; on] ++ commits 6 "id3" ++
  [on; on] ++ commits 5 "id4" ++ [idle [out0; err0]] ++ batches 3 [] ++ [on; on] ++ commits 6 "id5".

Example text_inverted_after_display :
  final (prun flush_left_over (start doc0)) =
    Some ([("id1", Some "a"); ("id2", None); ("id3", Some "c"); ("id4", Some "b"); ("id5", Some "c")], true) /\
  coalesce (items "e" flush_left_over) =
    [Segment "stderr" [Byte.x61]; Ordinary (mkOutput "e" JNull DisplayData);
     Segment "stdout" [Byte.x62]; Segment "stderr" [Byte.x63]].
Proof. split; by vm_compute. Qed.

(** Between the poll of the priority queue, empty, and that of the periodic one, a switch
    of streams fills both; the periodic flush of the new stream goes first. *)
Definition between_polls : list step :=
  [chunk "stdout" Byte.x61; on; on] ++ commits 6 "id1" ++ [chunk "stdout" Byte.x62; on; on] ++ commits 1 "id2" ++
  [chunk "stderr" Byte.x63; on; on; on] ++ commits 5 "id2" ++ commits 5 "id3" ++
  [idle [out0; err0]] ++ batches 3 [] ++ [on; on] ++ commits 6 "id4".

Example text_repeated_between_polls :
  final (prun between_polls (start doc0)) =
    Some ([("id1", Some "a"); ("id2", Some "c"); ("id3", Some "ab"); ("id4", Some "c")], true) /\
  coalesce (items "e" between_polls) = [Segment "stdout" [Byte.x61; Byte.x62]; Segment "stderr" [Byte.x63]].
Proof. split; by vm_compute. Qed.

(** ** A blob that cannot be published *)

(** The notice of the failure has no output id, and the transaction of the whole batch
    fails: the first display is lost too, and so is the notice. *)
Definition failed_blob : list step :=
  [display []; on; on; display []; on; on] ++ batches 5 [Created "id1"; PublishFailed "disk full"].

Example batch_lost_with_notice :
  final (prun failed_blob (start doc0)) = Some ([], false) /\ length (items "e" failed_blob) = 2%nat /\
  (p ← prun failed_blob (start doc0); Some (length (output_queue (outputs p)), batching (outputs p))) = Some (0%nat, PollRequests).
Proof. split_and!; by vm_compute. Qed.

End PipelineRuns.
