(* ===== verification/RuntimeAgent.v ===== *)
(** * The session of the runtime agent

    Model of the part of [runtimed/src/runtime_agent.rs] that drives one kernel: the
    session ([KernelSession]) with its kernel slot, its queue and its guard against
    submitting an execution twice, and the handlers that change it: synced executions,
    lifecycle signals of the kernel, interrupts, shutdown, launch and restart, each with
    every write it makes to the runtime state document.  The queue is the one of [Kernel],
    the document the one of [RuntimeDoc].  Whether a kernel launches or takes an interrupt
    is an outcome given by the caller.  Of what the coordinator syncs, the executions it
    accepted are modelled; its other writes to this document (its own shutdown, restored
    executions) are not.  Comms, environment syncs and the extensions are not modelled. *)

From S2P Require Import OutputPipeline.
From S2P Require Import Prelude Kernel Automunge RuntimeDoc.

(** ** Document writes *)

(** Writes joined by [?] inside one [with_doc] closure. *)
Definition and_then {A B} (f : DocM A) (g : DocM B) : DocM B := fun d =>
  match f d with (d, Ok _) => g d | (d, Err e) => (d, Err e) end.
Infix "&>" := and_then (at level 60, right associativity) : rust_scope.

Definition skip : DocM () := fun d => (d, Ok ()).

Definition when_some {A} (o : option A) (f : A -> DocM ()) : DocM () :=
  match o with Some x => f x | None => skip end.

Fixpoint for_each {A} (f : A -> DocM ()) (l : list A) : DocM () :=
  match l with [] => skip | x :: l => f x &> for_each f l end.

(** A write whose error is only logged. *)
Definition or_warn {A} (f : DocM A) : DocM () := fun d => ((f d).1, Ok ()).

Definition resolve_interrupted_executions (interrupted : option QueueEntry) (cleared : list QueueEntry)
    : DocM () :=
  when_some interrupted (fun e => set_execution_done (qe_execution_id e) false) &>
  for_each (fun e => set_execution_cancelled (qe_execution_id e)) cleared &>
  abort_inflight_executions &> set_queue None [] &> set_lifecycle (Running ActIdle).

(** ** The session *)

(** A kernel in its slot is known by whether it has an out-of-band interrupt handle. *)
Record Session := mkSession {
  kernel : option bool;
  world : World;
  seen_execution_ids : gset string;
  interrupt_handle : bool;
}.

(** [KernelSession::new] on a fresh document. *)
Definition new_session (c : Conn) : Session := mkSession None (kinit new_runtime_doc c) ∅ false.

Definition with_kernel (k : option bool) (s : Session) : Session :=
  mkSession k (world s) (seen_execution_ids s) (interrupt_handle s).
Definition with_world (w : World) (s : Session) : Session :=
  mkSession (kernel s) w (seen_execution_ids s) (interrupt_handle s).
Definition with_seen (x : gset string) (s : Session) : Session :=
  mkSession (kernel s) (world s) x (interrupt_handle s).
Definition with_state (k : KernelState) (s : Session) : Session := with_world (with_ks (world s) k) s.

Definition with_doc {A} (m : DocM A) (s : Session) : Session :=
  with_world (mkWorld (ks (world s)) (m (sd (world s))).1 (conn (world s))) s.

(** [install_kernel_channels]: the handle is that of the kernel in the slot. *)
Definition install_kernel_channels (s : Session) : Session :=
  mkSession (kernel s) (world s) (seen_execution_ids s) (default false (kernel s)).

(** [queue_synced_executions]. *)
Definition queue_synced (now : Z) (s : Session) (x : string * ExecutionState) : Session :=
  if decide (x.1 ∈ seen_execution_ids s) then s
  else match es_source x.2 with
  | None => s
  | Some source =>
      match queue_cell now x.1 (es_cell_id x.2) source (world s) with
      | (w, Ok _) => with_seen (seen_execution_ids s ∪ {[x.1]}) (with_world w s)
      | (w, Err _) => with_world w s
      end
  end.

Definition queue_synced_executions (now : Z) (queued : list (string * ExecutionState)) (s : Session) : Session :=
  match kernel s with
  | None => s
  | Some _ => foldl (queue_synced now) s queued
  end.

(** ** Lifecycle signals *)

Definition handle_lifecycle_signal (signal : LifecycleSignal) (s : Session) : Session :=
  match signal with
  | ExecutionDone eid =>
      match kernel s with Some _ => with_world (execution_done eid (world s)).1 s | None => s end
  | KernelIdle eid =>
      match kernel s with Some _ => with_world (kernel_idle eid (world s)).1 s | None => s end
  | CellError eid =>
      let '(is_current, k) := mark_execution_error eid (ks (world s)) in
      if is_current then
        let '(cleared, k) := clear_queue k in
        with_doc (for_each (fun e => set_execution_cancelled (qe_execution_id e)) cleared &> set_queue None [])
          (with_state k s)
      else s
  | KernelDied =>
      if decide (status (ks (world s)) = ShuttingDown) then s
      else
        let '((interrupted, cleared), k) := kernel_died (ks (world s)) in
        with_doc (abort_inflight_executions &>
            when_some interrupted (fun eid => set_execution_done eid false) &>
            for_each (fun e => set_execution_cancelled (qe_execution_id e)) cleared &>
            set_lifecycle_with_error_details LcError None None &> set_queue None [])
          (with_state k (with_kernel None s))
  end.

Definition handle_session_lifecycle_signal (signal : LifecycleSignal) (s : Session) : Session :=
  let s := handle_lifecycle_signal signal s in
  match signal with KernelDied => with_seen ∅ s | _ => s end.

(** ** Requests *)

Definition take_interrupt (s : Session) : Session :=
  let '((interrupted, cleared), k) := ks_interrupt (ks (world s)) in
  with_doc (resolve_interrupted_executions interrupted cleared) (with_state k s).

(** [InterruptExecution]: past the kernel slot when there is a handle
    ([interrupt_via_handle_if_available]), otherwise through the kernel, which accepts or
    refuses it. *)
Definition interrupt_execution (accepted : bool) (s : Session) : Session :=
  if interrupt_handle s then take_interrupt s
  else
    let s := match kernel s with Some _ => if accepted then take_interrupt s else s | None => s end in
    install_kernel_channels s.

Definition shutdown_kernel (s : Session) : Session :=
  let '((interrupted, cleared), k) := ks_shutdown (ks (world s)) in
  install_kernel_channels (with_doc
    (when_some interrupted (fun eid => set_execution_done eid false) &>
     for_each (fun e => set_execution_cancelled (qe_execution_id e)) cleared &>
     abort_inflight_executions &> set_queue None [] &> set_lifecycle Shutdown)
    (with_seen ∅ (with_state k (with_kernel None s)))).

Section Launch.
Variable runtime_agent_id : string.

Definition record_kernel_launched_state (kernel_type env_source : string) : DocM () :=
  set_lifecycle (Running ActIdle) &> set_kernel_info kernel_type kernel_type env_source &>
  set_runtime_agent_id runtime_agent_id.

Definition record_kernel_launching_state (kernel_type env_source : string) : DocM () :=
  set_lifecycle Launching &> set_kernel_info kernel_type kernel_type env_source &>
  set_runtime_agent_id runtime_agent_id.

Definition record_kernel_launch_failed_state (kernel_type env_source details : string) : DocM nat :=
  set_lifecycle_with_error_details LcError None (Some details) &>
  set_kernel_info kernel_type kernel_type env_source &>
  set_runtime_agent_id runtime_agent_id &> abort_inflight_executions.

(** [Kernel::launch]: a kernel with its environment, or a failure that the coordinator may
    retry or not. *)
Inductive LaunchOutcome :=
| KernelUp (out_of_band : bool) (env_source : string)
| KernelFailed (may_retry : bool) (error : string).

Definition launch_failed (kernel_type env_source : string) (may_retry : bool) (error : string) (s : Session) : Session :=
  if may_retry then s else with_doc (record_kernel_launch_failed_state kernel_type env_source error) s.

Definition launch_kernel (kernel_type env_source : string) (outcome : LaunchOutcome) (now : Z) (s : Session) : Session :=
  let s := with_doc (record_kernel_launching_state kernel_type env_source) s in
  install_kernel_channels match outcome with
  | KernelUp out_of_band es =>
      let s := with_state (ks_set_idle (ks_reset (ks (world s)))) (with_seen ∅ (with_kernel (Some out_of_band) s)) in
      let s := with_doc (record_kernel_launched_state kernel_type es) s in
      queue_synced_executions now (get_queued_executions (sd (world s))) s
  | KernelFailed may_retry error =>
      launch_failed kernel_type env_source may_retry ("Failed to launch kernel: " +:+ error) s
  end.

Definition restart_kernel (kernel_type env_source : string) (outcome : LaunchOutcome) (s : Session) : Session :=
  let interrupted := executing (ks (world s)) in
  let stale := queued_entries (ks (world s)) in
  let s := with_seen ∅ (with_kernel None s) in
  let s := with_doc
    (when_some interrupted (fun eid => set_execution_done eid false) &>
     for_each (fun e => set_execution_cancelled (qe_execution_id e)) stale &>
     or_warn abort_inflight_executions &> set_queue None []) s in
  let s := with_doc (record_kernel_launching_state kernel_type env_source) s in
  install_kernel_channels match outcome with
  | KernelUp out_of_band es =>
      let s := with_state (ks_set_idle (ks_reset (ks (world s)))) (with_kernel (Some out_of_band) s) in
      with_doc (record_kernel_launched_state kernel_type es) s
  | KernelFailed may_retry error =>
      launch_failed kernel_type env_source may_retry ("Failed to restart kernel: " +:+ error) s
  end.

(** ** Synced documents *)

Definition is_stale_runtime_peer_disconnect_error (l : RuntimeLifecycle) (details : option string) : bool :=
  match l, details with
  | LcError, Some t => String.prefix "runtime peer disconnected:" t
  | _, _ => false
  end.

Definition reassert_live_kernel_projection_if_needed (kernel_type env_source : string) (s : Session) : Session :=
  match kernel s with
  | None => s
  | Some _ =>
      let current := read_kernel_state (sd (world s)) in
      let should_reassert :=
        match kd_lifecycle current with NotStarted => true | _ => false end ||
        is_stale_runtime_peer_disconnect_error (kd_lifecycle current) (kd_error_details current) ||
        match kd_lifecycle current with Running _ => true | _ => false end &&
          negb (bool_decide (kd_runtime_agent_id current = runtime_agent_id)) in
      if should_reassert then with_doc (record_kernel_launched_state kernel_type env_source) s else s
  end.

(** What the coordinator sends: executions it accepted. *)
Record Submission := mkSubmission {
  sub_execution_id : string; sub_source : string; sub_seq : Z; sub_by : option string; sub_cell : option string;
}.

Definition accept_submission (x : Submission) : DocM bool :=
  create_execution_with_source_provenance (sub_execution_id x) (sub_source x) (sub_seq x) (sub_by x) (sub_cell x).

(** The arm for [RuntimeStateSync] frames: a message with changes (submissions, possibly
    none, when the changes are elsewhere) or without any.  The launch that a cloud agent
    makes on its own at this point is a [LaunchKernel] of the runs below. *)
Definition runtime_state_sync (changes : option (list Submission)) (kernel_type env_source : string) (now : Z)
    (s : Session) : Session :=
  let s := match changes with
    | Some new =>
        let s := with_doc (for_each (fun x => or_warn (accept_submission x)) new) s in
        queue_synced_executions now (get_queued_executions (sd (world s))) s
    | None => s
    end in
  reassert_live_kernel_projection_if_needed kernel_type env_source s.

(** ** Runs *)

Inductive action :=
| Sync (changes : option (list Submission)) (kernel_type env_source : string) (now : Z)
| Signal (signal : LifecycleSignal)
| InterruptExecution (accepted : bool)
| ShutdownKernel
| LaunchKernel (kernel_type env_source : string) (outcome : LaunchOutcome) (now : Z)
| RestartKernel (kernel_type env_source : string) (outcome : LaunchOutcome).

Definition act (a : action) (s : Session) : Session :=
  match a with
  | Sync changes kt es now => runtime_state_sync changes kt es now s
  | Signal signal => handle_session_lifecycle_signal signal s
  | InterruptExecution accepted => interrupt_execution accepted s
  | ShutdownKernel => shutdown_kernel s
  | LaunchKernel kt es outcome now => launch_kernel kt es outcome now s
  | RestartKernel kt es outcome => restart_kernel kt es outcome s
  end.

Definition run (acts : list action) (s : Session) : Session := foldl (fun s a => act a s) s acts.

(** The coordinator launches a kernel only where there is none; it restarts one otherwise. *)
Fixpoint launches_apart (acts : list action) (s : Session) : bool :=
  match acts with
  | [] => true
  | a :: acts =>
      match a with LaunchKernel _ _ _ _ => bool_decide (kernel s = None) | _ => true end &&
      launches_apart acts (act a s)
  end.

End Launch.

(** ** Lemmas: document writes *)

(** What the agent relies on: the maps of the executions, the queue and the kernel. *)
Definition agent_doc (d : RuntimeStateDoc) : Prop := doc_ok d /\ is_Some (get_map "kernel" d).

(** A write that succeeds on such a document, with what it does to the published queue and
    to the statuses. *)
Definition writes {A} (m : DocM A) (fq : QueueState -> QueueState)
    (fs : (string -> option string) -> string -> option string) : Prop :=
  forall d, agent_doc d -> exists d' a, m d = (d', Ok a) /\ agent_doc d' /\
    read_explicit_queue d' = fq (read_explicit_queue d) /\ (forall eid, doc_status d' eid = fs (doc_status d) eid).

Lemma get_map_other k k' n d : k <> k' -> get_map k' (set_root k n d) = get_map k' d.
Proof. intros. by rewrite get_map_set_root, decide_False. Qed.

Lemma queue_executions exs d : read_explicit_queue (set_root "executions" exs d) = read_explicit_queue d.
Proof. unfold read_explicit_queue. by rewrite get_map_other. Qed.

Lemma update_execution_root eid f d :
  get_map "kernel" (update_execution eid f d).1 = get_map "kernel" d /\
  read_explicit_queue (update_execution eid f d).1 = read_explicit_queue d.
Proof.
  unfold update_execution. destruct (scaffold_map _ _); [|done]. destruct (_ !! eid); [|done].
  destruct (f _); [|done]. unfold set_execution. cbn. by rewrite get_map_other, queue_executions.
Qed.

Definition set_status (eid st : string) (s : string -> option string) (x : string) : option string :=
  if decide (x = eid) then (fun _ => st) <$> s eid else s x.

Lemma update_status_writes eid st f :
  (forall d, doc_ok d -> exists d', update_execution eid f d = (d', Ok ()) /\ doc_ok d' /\
    forall x, doc_status d' x = if decide (x = eid) then (fun _ => st) <$> doc_status d eid else doc_status d x) ->
  writes (update_execution eid f) id (set_status eid st).
Proof.
  intros Hf d [Hok Hk]. destruct (Hf d Hok) as (d' & Hu & Hok' & Hst).
  destruct (update_execution_root eid f d) as [H1 H2]. rewrite Hu in H1, H2. cbn in H1, H2.
  exists d', (). split_and!; [done|split; [done|by rewrite H1]|done|done].
Qed.

Lemma set_execution_running_writes eid : writes (set_execution_running eid) id (set_status eid "running").
Proof. apply update_status_writes. intros d Hok. by apply set_execution_running_spec. Qed.
Lemma set_execution_done_writes eid (b : bool) :
  writes (set_execution_done eid b) id (set_status eid (if b then "done" else "error")).
Proof. apply update_status_writes. intros d Hok. by apply set_execution_done_spec. Qed.
Lemma set_execution_cancelled_writes eid : writes (set_execution_cancelled eid) id (set_status eid "cancelled").
Proof.
  apply update_status_writes. intros d Hok. apply update_status_spec; [done|]. intros e He.
  destruct (obj_put_map e "status" (str_node "cancelled") He) as (e' & Hp & Hm).
  exists e'. split_and!; [done..|]. by eapply read_str_put.
Qed.

Lemma set_queue_writes e q : writes (set_queue e q) (fun _ => mkQueueState e q) id.
Proof.
  intros d [Hok Hk]. destruct (set_queue_spec e q d Hok) as (d' & Hq & Hok' & Hr & He & _).
  exists d', (). split_and!; [done| |done|].
  - split; [done|]. revert Hq. unfold set_queue. destruct (scaffold_map _ _) as [m|]; [|done].
    case_decide; [by intros [= <-]|]. destruct (scaffold_list _ _); [|done]. intros [= <-].
    by rewrite !get_map_other.
  - intros eid. unfold id. rewrite !doc_status_entry. unfold get_execution_entry. by rewrite He.
Qed.

Lemma create_execution_writes eid :
  writes (create_execution eid) id
    (fun s x => if decide (x = eid) then Some (default "queued" (s eid)) else s x).
Proof.
  intros d [Hok Hk]. destruct (create_execution_spec eid d Hok) as (d' & Hc & Hok' & Hst).
  exists d', (). assert (get_map "kernel" d' = get_map "kernel" d /\ read_explicit_queue d' = read_explicit_queue d) as [H1 H2].
  { revert Hc. unfold create_execution. destruct (scaffold_map _ _); [|done].
    destruct (_ !! eid); intros [= <-]; [done|]. unfold set_execution. by rewrite get_map_other, queue_executions. }
  split_and!; [done|split; [done|by rewrite H1]|done|done].
Qed.

Definition settled (s : string -> option string) (x : string) : option string :=
  (fun st => if decide (st = "running") then "error" else if decide (st = "queued") then "cancelled" else st : string) <$> s x.

Lemma abort_inflight_writes : writes abort_inflight_executions id settled.
Proof.
  intros d [Hok Hk]. destruct (abort_resolves_inflight d Hok) as (Hok' & _ & Hst & _).
  destruct (abort_inflight_executions d) as [d' r] eqn:Ha. cbn in Hok', Hst. revert Ha.
  unfold abort_inflight_executions. pose proof Hok as [(exs & He & _) _]. rewrite He. intros [= <- <-].
  eexists _, _. split_and!; [done|split; [done|by rewrite get_map_other]|by rewrite queue_executions|done].
Qed.

(** Writers of the kernel map. *)
Lemma set_kernel_agent k d :
  agent_doc d -> agent_doc (set_kernel k d) /\ read_explicit_queue (set_kernel k d) = read_explicit_queue d /\
    (forall eid, doc_status (set_kernel k d) eid = doc_status d eid).
Proof.
  intros [[(exs & He & Hm) (q & l & Hq & Hl)] _]. unfold set_kernel. split_and!.
  - split; [split; [exists exs|exists q, l]; by rewrite get_map_other|]. rewrite get_map_set_root, decide_True by done. by eexists.
  - unfold read_explicit_queue. by rewrite get_map_other.
  - intros eid. rewrite !doc_status_entry. unfold get_execution_entry. by rewrite get_map_other.
Qed.

Lemma kernel_scaffold d : agent_doc d -> exists k, scaffold_map "kernel" d = Ok k.
Proof. intros [_ [k Hk]]. exists k. by apply get_map_scaffold. Qed.


Lemma set_lifecycle_writes l : writes (set_lifecycle l) id id.
Proof.
  intros d Hd. destruct (kernel_scaffold d Hd) as [k Hk]. unfold set_lifecycle. rewrite Hk.
  eexists _, _. split; [done|]. by apply set_kernel_agent.
Qed.
Lemma set_kernel_info_writes a b c : writes (set_kernel_info a b c) id id.
Proof.
  intros d Hd. destruct (kernel_scaffold d Hd) as [k Hk]. unfold set_kernel_info. rewrite Hk.
  case_decide; eexists _, _; (split; [done|]); [done|]. by apply set_kernel_agent.
Qed.
Lemma set_runtime_agent_id_writes a : writes (set_runtime_agent_id a) id id.
Proof.
  intros d Hd. destruct (kernel_scaffold d Hd) as [k Hk]. unfold set_runtime_agent_id. rewrite Hk.
  case_decide; eexists _, _; (split; [done|]); [done|]. by apply set_kernel_agent.
Qed.
Lemma set_lifecycle_error_writes l a b : writes (set_lifecycle_with_error_details l a b) id id.
Proof.
  intros d Hd. unfold set_lifecycle_with_error_details.
  destruct (set_lifecycle_writes l d Hd) as (d1 & [] & -> & Hd1 & Hq & Hs).
  destruct (kernel_scaffold d1 Hd1) as [k ->]. eexists _, _. split; [done|].
  destruct (set_kernel_agent (<["error_details":=str_node (default "" b)]> (<["error_reason":=str_node (default "" a)]> k)) d1 Hd1)
    as (? & Hq2 & Hs2). split_and!; [done|by rewrite Hq2|]. intros eid. by rewrite Hs2.
Qed.

(** The same, for the published queue alone. *)
Definition queues {A} (m : DocM A) (fq : QueueState -> QueueState) : Prop :=
  forall d, agent_doc d -> exists d' a, m d = (d', Ok a) /\ agent_doc d' /\
    read_explicit_queue d' = fq (read_explicit_queue d).

Definition emptied (q : QueueState) : QueueState := mkQueueState None [].

Create HintDb agent.

Lemma writes_queues {A} (m : DocM A) fq fs : writes m fq fs -> queues m fq.
Proof. intros H d Hd. destruct (H d Hd) as (d' & a & ? & ? & ? & _). eauto. Qed.

Lemma and_then_queues {A B} (f : DocM A) (g : DocM B) fq gq :
  queues f fq -> queues g gq -> queues (f &> g) (fun q => gq (fq q)).
Proof.
  intros Hf Hg d Hd. destruct (Hf d Hd) as (d1 & a & H1 & Hd1 & Hq1).
  destruct (Hg d1 Hd1) as (d2 & b & H2 & Hd2 & Hq2). exists d2, b. unfold and_then. rewrite H1.
  split_and!; [done|done|by rewrite Hq2, Hq1].
Qed.

Lemma and_then_empties {A B} (f : DocM A) (g : DocM B) : queues f id -> queues g emptied -> queues (f &> g) emptied.
Proof. intros Hf Hg. exact (and_then_queues f g id emptied Hf Hg). Qed.
Lemma and_then_emptied {A B} (f : DocM A) (g : DocM B) : queues f emptied -> queues g id -> queues (f &> g) emptied.
Proof. intros Hf Hg. exact (and_then_queues f g emptied id Hf Hg). Qed.
Lemma and_then_keeps {A B} (f : DocM A) (g : DocM B) : queues f id -> queues g id -> queues (f &> g) id.
Proof. intros Hf Hg. exact (and_then_queues f g id id Hf Hg). Qed.

Lemma skip_queues : queues skip id.
Proof. intros d Hd. by exists d, (). Qed.
Lemma when_some_queues {A} (o : option A) f : (forall x, queues (f x) id) -> queues (when_some o f) id.
Proof. intros H. destruct o; [apply H|apply skip_queues]. Qed.
Lemma for_each_queues {A} (f : A -> DocM ()) l : (forall x, queues (f x) id) -> queues (for_each f l) id.
Proof. intros H. induction l as [|x l IH]; [apply skip_queues|]. by apply and_then_keeps. Qed.
Lemma or_warn_queues {A} (f : DocM A) fq : queues f fq -> queues (or_warn f) fq.
Proof.
  intros H d Hd. destruct (H d Hd) as (d' & a & Hf & ? & ?). exists d', (). unfold or_warn. by rewrite Hf.
Qed.

Lemma set_queue_empties : queues (set_queue None []) emptied.
Proof. exact (writes_queues _ _ _ (set_queue_writes None [])). Qed.
Lemma done_queues eid b : queues (set_execution_done eid b) id.
Proof. exact (writes_queues _ _ _ (set_execution_done_writes eid b)). Qed.
Lemma cancelled_queues eid : queues (set_execution_cancelled eid) id.
Proof. exact (writes_queues _ _ _ (set_execution_cancelled_writes eid)). Qed.
Lemma abort_queues : queues abort_inflight_executions id.
Proof. exact (writes_queues _ _ _ abort_inflight_writes). Qed.
Lemma lifecycle_queues l : queues (set_lifecycle l) id.
Proof. exact (writes_queues _ _ _ (set_lifecycle_writes l)). Qed.
Lemma lifecycle_error_queues l a b : queues (set_lifecycle_with_error_details l a b) id.
Proof. exact (writes_queues _ _ _ (set_lifecycle_error_writes l a b)). Qed.
Lemma kernel_info_queues a b c : queues (set_kernel_info a b c) id.
Proof. exact (writes_queues _ _ _ (set_kernel_info_writes a b c)). Qed.
Lemma agent_id_queues a : queues (set_runtime_agent_id a) id.
Proof. exact (writes_queues _ _ _ (set_runtime_agent_id_writes a)). Qed.

#[local] Hint Resolve set_queue_empties done_queues cancelled_queues abort_queues lifecycle_queues
  lifecycle_error_queues kernel_info_queues agent_id_queues when_some_queues for_each_queues
  or_warn_queues and_then_keeps | 1 : agent.
#[local] Hint Resolve and_then_empties | 3 : agent.
#[local] Hint Resolve and_then_emptied | 2 : agent.

(** The laws of the kernel queue, for documents that keep a kernel map. *)
#[local] Instance agent_doc_laws : StateDocLaws (H := runtime_state_doc).
Proof.
  refine {| doc_ready := agent_doc |}; intros.
  - destruct (set_queue_writes e q d) as (d' & [] & ? & ? & _); [done|]. by exists d'.
  - destruct (create_execution_writes eid d) as (d' & [] & ? & ? & _); [done|]. by exists d'.
  - destruct (set_execution_running_writes eid d) as (d' & [] & ? & ? & _); [done|]. by exists d'.
  - destruct (set_execution_done_writes eid b d) as (d' & [] & ? & ? & _); [done|]. by exists d'.
  - destruct (set_queue_writes e q d) as (d2 & [] & Hq & _ & Hr & _); [done|]. cbn in *. congruence.
  - destruct (set_queue_writes e q d) as (d2 & [] & Hq & _ & _ & Hs); [done|]. cbn in *. rewrite Hq. apply Hs.
  - destruct (create_execution_writes eid d) as (d2 & [] & Hq & _ & _ & Hs); [done|]. cbn in *. rewrite Hq. apply Hs.
  - destruct (set_execution_running_writes eid d) as (d2 & [] & Hq & _ & _ & Hs); [done|]. cbn in *. rewrite Hq. apply Hs.
  - destruct (set_execution_done_writes eid b d) as (d2 & [] & Hq & _ & _ & Hs); [done|]. cbn in *. rewrite Hq. apply Hs.
Defined.

(** A write that leaves the published queue and the statuses there are. *)
Definition keeps {A} (m : DocM A) : Prop :=
  forall d, agent_doc d -> exists d' a, m d = (d', Ok a) /\ agent_doc d' /\
    read_explicit_queue d' = read_explicit_queue d /\
    (forall eid st, doc_status d eid = Some st -> doc_status d' eid = Some st).

Lemma writes_keeps {A} (m : DocM A) : writes m id id -> keeps m.
Proof.
  intros H d Hd. destruct (H d Hd) as (d' & a & ? & ? & ? & Hs). exists d', a. split_and!; [done..|].
  intros eid st. by rewrite Hs.
Qed.
Lemma skip_keeps : keeps skip.
Proof. intros d Hd. by exists d, (). Qed.
Lemma and_then_both {A B} (f : DocM A) (g : DocM B) : keeps f -> keeps g -> keeps (f &> g).
Proof.
  intros Hf Hg d Hd. destruct (Hf d Hd) as (d1 & a & H1 & Hd1 & Hq1 & Hs1).
  destruct (Hg d1 Hd1) as (d2 & b & H2 & Hd2 & Hq2 & Hs2). exists d2, b. unfold and_then. rewrite H1.
  split_and!; [done|done|by rewrite Hq2|]. intros. by apply Hs2, Hs1.
Qed.
Lemma for_each_keeps {A} (f : A -> DocM ()) l : (forall x, keeps (f x)) -> keeps (for_each f l).
Proof. intros H. induction l as [|x l IH]; [apply skip_keeps|]. by apply and_then_both. Qed.
Lemma or_warn_keeps {A} (f : DocM A) : keeps f -> keeps (or_warn f).
Proof. intros H d Hd. destruct (H d Hd) as (d' & a & Hf & ?). exists d', (). unfold or_warn. by rewrite Hf. Qed.

Lemma accept_submission_keeps x : keeps (accept_submission x).
Proof.
  intros d Hd. pose proof Hd as [[(exs & He & Hm) (q & l & Hq & Hl)] Hk].
  unfold accept_submission, create_execution_with_source_provenance. rewrite (get_map_scaffold _ _ _ He).
  destruct (exs !! sub_execution_id x) eqn:Hx; [by exists d, false|].
  eexists _, _. split; [done|]. unfold set_execution. split_and!.
  - split; [|by rewrite get_map_other]. split; [|exists q, l; by rewrite get_map_other].
    eexists. split; [by rewrite get_map_set_root, decide_True|]. intros eid e.
    rewrite lookup_insert. case_decide; [intros [= <-]; done|apply Hm].
  - apply queue_executions.
  - intros eid st. rewrite !doc_status_entry. unfold get_execution_entry. rewrite He, get_map_set_root, decide_True by done.
    cbn. rewrite lookup_insert. case_decide; [|done]. subst eid. by rewrite Hx.
Qed.

Lemma launching_keeps agent kt es : keeps (record_kernel_launching_state agent kt es).
Proof. repeat apply and_then_both; apply writes_keeps; auto using set_lifecycle_writes, set_kernel_info_writes, set_runtime_agent_id_writes. Qed.
Lemma launched_keeps agent kt es : keeps (record_kernel_launched_state agent kt es).
Proof. repeat apply and_then_both; apply writes_keeps; auto using set_lifecycle_writes, set_kernel_info_writes, set_runtime_agent_id_writes. Qed.
Lemma launch_failed_queues agent kt es e : queues (record_kernel_launch_failed_state agent kt es e) id.
Proof. unfold record_kernel_launch_failed_state. auto 10 with agent. Qed.

(** Cancelling executions leaves the status of every other one. *)
Lemma cancel_all_status l d :
  agent_doc d -> exists d', for_each (fun e => set_execution_cancelled (qe_execution_id e)) l d = (d', Ok ()) /\
    agent_doc d' /\ forall x, x ∉ (qe_execution_id <$> l) -> doc_status d' x = doc_status d x.
Proof.
  revert d. induction l as [|e l IH]; intros d Hd; [by exists d|].
  destruct (set_execution_cancelled_writes (qe_execution_id e) d Hd) as (d1 & [] & H1 & Hd1 & _ & Hs1).
  destruct (IH d1 Hd1) as (d2 & H2 & Hd2 & Hs2). exists d2. cbn. unfold and_then. rewrite H1.
  split_and!; [done|done|]. intros x [Hx Hl]%not_elem_of_cons. rewrite Hs2 by done. rewrite Hs1. unfold set_status.
  by rewrite decide_False.
Qed.

(** ** The session invariant *)

(** The published queue is that of the kernel; after an error output of the running
    execution it may leave out that execution. *)
Definition shown (w : World) : Prop :=
  let q := read_explicit_queue (sd w) in
  qs_queued q = to_doc_entries (queued_entries (ks w)) /\
  (qs_executing q = to_doc_entry <$> executing_entry (ks w) \/
   execution_had_error (ks w) = true /\ qs_executing q = None).

Record session_ok (s : Session) : Prop := {
  so_doc : agent_doc (sd (world s));
  so_queue : exists a, represents (ks (world s)) a;
  so_shown : match kernel s with
    | None => read_explicit_queue (sd (world s)) = mkQueueState None []
    | Some _ => shown (world s) /\ statuses_recorded (world s)
    end;
}.

Lemma projected_shown w : projected w -> shown w.
Proof. unfold projected, shown. cbn. intros ->. cbn. auto. Qed.

Lemma new_session_ok c : session_ok (new_session c).
Proof.
  split; cbn; [|exists fifo_init; apply represents_new|done].
  split; [apply doc_ok_new|by eexists].
Qed.

(** A write that empties the published queue, on a session whose queue is empty or whose
    kernel is gone. *)
Lemma with_doc_emptied {A} (m : DocM A) s :
  queues m emptied -> agent_doc (sd (world s)) -> (exists a, represents (ks (world s)) a) ->
  (kernel s <> None -> queue (ks (world s)) = [] /\ executing (ks (world s)) = None) ->
  session_ok (with_doc m s).
Proof.
  intros Hm Hd Ha Hk. destruct (Hm _ Hd) as (d' & a & He & Hd' & Hq).
  split; cbn; rewrite ?He; cbn; [done|done|]. destruct (kernel s); [|done].
  destruct Hk as [H1 H2]; [done|]. unfold shown, statuses_recorded, queued_entries, executing_entry. cbn.
  rewrite Hq, H1, H2. split_and!; [done|by left|set_solver|done].
Qed.

Lemma with_doc_keeps {A} (m : DocM A) s : keeps m -> session_ok s -> session_ok (with_doc m s).
Proof.
  intros Hm [Hd Ha Hs]. destruct (Hm _ Hd) as (d' & a & He & Hd' & Hq & Hst).
  split; cbn; rewrite ?He; cbn; [done|done|]. destruct (kernel s); [|by rewrite Hq].
  destruct Hs as [Hs [H1 H2]]. unfold shown in *. cbn. rewrite Hq. split; [done|]. split; cbn.
  - intros eid Hin. destruct (H1 eid Hin) as [st Hx]. eexists. by apply Hst.
  - intros eid Hin. by apply Hst, H2.
Qed.

Lemma with_doc_queues {A} (m : DocM A) s :
  queues m id -> kernel s = None -> session_ok s -> session_ok (with_doc m s).
Proof.
  intros Hm Hk [Hd Ha Hs]. destruct (Hm _ Hd) as (d' & a & He & Hd' & Hq).
  split; cbn; rewrite ?He; cbn; [done|done|]. rewrite Hk in *. by rewrite Hq.
Qed.

Lemma install_ok s : session_ok s -> session_ok (install_kernel_channels s).
Proof. intros [? ? ?]. by split. Qed.
Lemma seen_ok x s : session_ok s -> session_ok (with_seen x s).
Proof. intros [? ? ?]. by split. Qed.

(** A call on the queue keeps the invariant when it shows its queue. *)
Lemma queue_call_ok op k s :
  kernel s = Some k -> session_ok s ->
  doc_ready (StateDocLaws := agent_doc_laws) (sd (kstep (world s) op)) ->
  shown (kstep (world s) op) -> statuses_recorded (kstep (world s) op) ->
  session_ok (with_world (kstep (world s) op) s).
Proof.
  intros Hk [Hd [a Ha] _] Hd' Hsh Hst. split; cbn; [done| |by rewrite Hk].
  destruct (kstep_represents (world s) a op Ha) as (a' & Ha' & _). by exists a'.
Qed.

Lemma queue_nodup s : session_ok s -> NoDup (qc_execution_id <$> queue (ks (world s))).
Proof. intros [_ [a Ha] _]. by apply represents_invariant in Ha as [? _]. Qed.

Lemma queue_synced_ok now k x s :
  kernel s = Some k -> session_ok s -> session_ok (queue_synced now s x) /\ kernel (queue_synced now s x) = Some k.
Proof.
  intros Hk Hs. unfold queue_synced. case_decide; [done|]. destruct (es_source x.2) as [src|]; [|done].
  assert (session_ok (with_world (queue_cell now x.1 (es_cell_id x.2) src (world s)).1 s)) as Hok.
  { pose proof (so_shown s Hs) as Hsh. rewrite Hk in Hsh. destruct Hsh as [Hsh Hst].
    destruct (submit_ready (SDL := agent_doc_laws) (world s) now x.1 (es_cell_id x.2) src (so_doc s Hs) (queue_nodup s Hs))
      as (Hd & Hp & Hst'). apply (queue_call_ok (KSubmit now x.1 (es_cell_id x.2) src) k); [done|done|done| |by apply Hst'].
    cbn [kstep]. destruct Hp as [->|Hp]; [done|by apply projected_shown]. }
  destruct (queue_cell _ _ _ _ _) as [w []]; cbn in *; [|done]. split; [by apply seen_ok|done].
Qed.

Lemma queue_synced_executions_ok now l s : session_ok s -> session_ok (queue_synced_executions now l s).
Proof.
  unfold queue_synced_executions. destruct (kernel s) as [k|] eqn:Hk; [|done].
  revert s Hk. induction l as [|x l IH]; intros s Hk Hs; [done|].
  destruct (queue_synced_ok now k x s Hk Hs) as [Hs' Hk']. by apply IH.
Qed.

Lemma done_signal_ok eid k s :
  kernel s = Some k -> session_ok s ->
  session_ok (with_world (execution_done eid (world s)).1 s) /\
  (executing (ks (world s)) = Some eid ->
   doc_status (sd (execution_done eid (world s)).1) eid =
     Some (if execution_had_error (ks (world s)) then "error" else "done")).
Proof.
  intros Hk Hs. pose proof (so_shown s Hs) as Hsh. rewrite Hk in Hsh. destruct Hsh as [Hsh Hst].
  destruct (decide (executing (ks (world s)) = Some eid)) as [He|He].
  - destruct (so_queue s Hs) as [a Ha]. apply represents_invariant in Ha as (Hnd & Hex & _).
    destruct (done_ready (SDL := agent_doc_laws) (world s) eid (so_doc s Hs) Hnd) as (Hd & Hp & Hst' & Hdone); [by apply Hex|].
    split; [|intros _; pose proof (Hdone He) as Hx; cbn in Hx; rewrite Hx; destruct Hst as [_ Hr];
      pose proof (Hr eid He) as Hy; cbn in Hy; by rewrite Hy].
    apply (queue_call_ok (KDone eid) k); [done|done|done| |by apply Hst'].
    cbn [kstep]. destruct Hp as [->|Hp]; [done|by apply projected_shown].
  - unfold execution_done. rewrite decide_False by done. split; [by destruct s|done].
Qed.

Lemma idle_signal_ok eid k s :
  kernel s = Some k -> session_ok s -> session_ok (with_world (kernel_idle eid (world s)).1 s).
Proof.
  intros Hk Hs. pose proof (so_shown s Hs) as Hsh. rewrite Hk in Hsh. destruct Hsh as [Hsh Hst].
  destruct (idle_ready (SDL := agent_doc_laws) (world s) eid (so_doc s Hs) (queue_nodup s Hs)) as (Hd & Hp & Hst').
  apply (queue_call_ok (KIdle eid) k); [done|done|done| |by apply Hst']. cbn [kstep].
  destruct (interrupt_pending (ks (world s))) as [p|] eqn:Hip; [|unfold kernel_idle; by rewrite Hip].
  apply projected_shown, Hp. destruct (so_queue s Hs) as [a Ha]. apply represents_invariant in Ha as (_ & Hex & _).
  assert (executing (ks (world s)) = None) as Hn.
  { destruct (executing _) as [e|]; [|done]. destruct (Hex e eq_refl) as (_ & ? & _). congruence. }
  destruct Hsh as [H1 H2]. unfold projected, executing_entry in *. rewrite Hn in *. cbn in *.
  destruct (read_explicit_queue _) as [ex q]. cbn in *. destruct H2 as [->|[_ ->]]; by rewrite H1.
Qed.

(** An error output: the waiting executions are cancelled, the failing one still runs. *)
Lemma error_signal_ok eid s : session_ok s -> session_ok (handle_lifecycle_signal (CellError eid) s).
Proof.
  intros Hs. cbn. unfold mark_execution_error. case_decide as He; [|done]. cbn. destruct (so_queue s Hs) as [a Ha].
  destruct (kstep_represents _ a (KError eid) Ha) as (a1 & Ha1 & _).
  destruct (kstep_represents _ a1 KClear Ha1) as (a2 & Ha2 & _). cbn in Ha2. unfold mark_execution_error in Ha2.
  rewrite decide_True in Ha2 by done. cbn in Ha2.
  set (cleared := (fun c => mkQueueEntry "" (qc_execution_id c)) <$> queue (ks (world s))) in *.
  destruct (cancel_all_status cleared _ (so_doc s Hs)) as (d1 & H1 & Hd1 & Hs1).
  destruct (set_queue_writes None [] d1 Hd1) as (d2 & [] & H2 & Hd2 & Hq2 & Hs2). unfold id in Hs2.
  unfold with_doc, and_then. cbn. rewrite H1, H2. split; cbn; [done|by exists a2|].
  pose proof (so_shown s Hs) as Hsh. destruct (kernel s); [|done]. destruct Hsh as [_ [_ Hrun]].
  unfold shown, statuses_recorded. cbn. rewrite Hq2. cbn. split_and!; [done|by right|set_solver|].
  intros x Hx. rewrite Hs2, Hs1; [by apply Hrun|]. destruct (represents_invariant _ _ Ha) as (_ & Hex & _).
  destruct (Hex x Hx) as [Hnin _]. intros Hin. apply Hnin. unfold cleared in Hin. by rewrite <- list_fmap_compose in Hin.
Qed.

Lemma died_signal_ok s : session_ok s -> session_ok (handle_lifecycle_signal KernelDied s).
Proof.
  intros Hs. cbn. case_decide; [done|]. destruct (so_queue s Hs) as [a Ha].
  destruct (kstep_represents _ a KDied Ha) as (a1 & Ha1 & _). cbn in Ha1.
  destruct (kernel_died _) as [[i cleared] k]. apply with_doc_emptied; [|apply Hs|by exists a1|done].
  auto 20 with agent.
Qed.

Lemma take_interrupt_ok s : session_ok s -> session_ok (take_interrupt s).
Proof.
  intros Hs. destruct (so_queue s Hs) as [a Ha]. destruct (kstep_represents _ a KInterrupt Ha) as (a1 & Ha1 & _).
  cbn in Ha1. unfold take_interrupt. cbn. apply with_doc_emptied; [|apply Hs|by exists a1|done].
  unfold resolve_interrupted_executions. auto 20 with agent.
Qed.

Lemma shutdown_ok s : session_ok s -> session_ok (shutdown_kernel s).
Proof.
  intros Hs. destruct (so_queue s Hs) as [a Ha]. destruct (kstep_represents _ a KShutdown Ha) as (a1 & Ha1 & _).
  cbn in Ha1. unfold shutdown_kernel. cbn. apply install_ok, with_doc_emptied; [|apply Hs|by exists a1|done].
  auto 20 with agent.
Qed.

(** A kernel comes up where the published queue is empty. *)
Lemma kernel_up_ok b x s :
  agent_doc (sd (world s)) -> read_explicit_queue (sd (world s)) = mkQueueState None [] ->
  session_ok (with_state (ks_set_idle (ks_reset (ks (world s)))) (with_seen x (with_kernel (Some b) s))).
Proof.
  intros Hd Hq. split; cbn; [done|exists fifo_init; split; cbn; by try constructor|].
  unfold shown, statuses_recorded. cbn. rewrite Hq. split_and!; [done|by left|set_solver|done].
Qed.

Lemma launch_failed_ok agent kt es b e s :
  kernel s = None -> session_ok s -> session_ok (launch_failed agent kt es b e s).
Proof. intros Hk Hs. unfold launch_failed. destruct b; [done|]. by apply with_doc_queues, Hs; [apply launch_failed_queues|]. Qed.

Lemma launch_ok agent kt es o now s :
  kernel s = None -> session_ok s -> session_ok (launch_kernel agent kt es o now s).
Proof.
  intros Hk Hs. unfold launch_kernel.
  apply (with_doc_keeps _ _ (launching_keeps agent kt es)) in Hs. revert Hs. cbv zeta.
  set (s1 := with_doc _ s). assert (kernel s1 = None) as Hk1 by done. clearbody s1. intros Hs.
  apply install_ok. destruct o as [b e|b e]; [|by apply launch_failed_ok].
  apply queue_synced_executions_ok, with_doc_keeps; [apply launched_keeps|].
  apply kernel_up_ok; [apply Hs|]. pose proof (so_shown s1 Hs) as Hsh. by rewrite Hk1 in Hsh.
Qed.

Lemma restart_ok agent kt es o s : session_ok s -> session_ok (restart_kernel agent kt es o s).
Proof.
  intros Hs. unfold restart_kernel. cbv zeta.
  match goal with |- context [with_doc (record_kernel_launching_state agent kt es) ?x] => set (s1 := x) end.
  assert (session_ok s1) as Hs1.
  { apply with_doc_emptied; [auto 20 with agent|apply Hs|apply Hs|done]. }
  assert (kernel s1 = None) as Hk1 by done. clearbody s1.
  apply (with_doc_keeps _ _ (launching_keeps agent kt es)) in Hs1. revert Hs1.
  set (s2 := with_doc _ s1). assert (kernel s2 = None) as Hk2 by done. clearbody s2. intros Hs2.
  apply install_ok. destruct o as [b e|b e]; [|by apply launch_failed_ok].
  apply with_doc_keeps; [apply launched_keeps|].
  apply (kernel_up_ok b (seen_execution_ids s2)); [apply Hs2|]. pose proof (so_shown s2 Hs2) as Hsh. by rewrite Hk2 in Hsh.
Qed.

Lemma sync_ok agent changes kt es now s :
  session_ok s -> session_ok (runtime_state_sync agent changes kt es now s).
Proof.
  intros Hs. unfold runtime_state_sync, reassert_live_kernel_projection_if_needed. cbv zeta.
  match goal with |- context [match kernel ?x with _ => _ end] => set (s1 := x) end.
  assert (session_ok s1) as Hs1.
  { unfold s1. destruct changes as [new|]; [|done]. apply queue_synced_executions_ok, with_doc_keeps; [|done]. apply for_each_keeps. intros x.
    apply or_warn_keeps, accept_submission_keeps. }
  clearbody s1. destruct (kernel s1); [|done]. case_match; [|done]. apply with_doc_keeps; [apply launched_keeps|done].
Qed.

Lemma signal_ok sg s : session_ok s -> session_ok (handle_session_lifecycle_signal sg s).
Proof.
  intros Hs. unfold handle_session_lifecycle_signal. destruct sg; [| | |by apply seen_ok, died_signal_ok].
  all: try by apply error_signal_ok.
  all: cbn; destruct (kernel s) eqn:Hk; [|done].
  all: first [by eapply done_signal_ok|by eapply idle_signal_ok].
Qed.

Lemma act_ok agent a s :
  match a with LaunchKernel _ _ _ _ => kernel s = None | _ => True end -> session_ok s -> session_ok (act agent a s).
Proof.
  intros Hl Hs. destruct a; cbn.
  - by apply sync_ok.
  - by apply signal_ok.
  - unfold interrupt_execution. destruct (interrupt_handle s); [by apply take_interrupt_ok|]. cbv zeta.
    apply install_ok. destruct (kernel s); [|done]. case_match; [by apply take_interrupt_ok|done].
  - by apply shutdown_ok.
  - by apply launch_ok.
  - by apply restart_ok.
Qed.

Lemma run_ok agent acts s : session_ok s -> launches_apart agent acts s = true -> session_ok (run agent acts s).
Proof.
  revert s. induction acts as [|a acts IH]; intros s Hs Hl; [done|]. cbn in *. apply andb_true_iff in Hl as [Ha Hl].
  apply IH; [|done]. apply act_ok; [|done]. destruct a; try done. by apply bool_decide_eq_true in Ha.
Qed.

(** ** The published queue *)

(** C22. What the runtime agent publishes is the queue of its kernel.  After any sequence
    of synced submissions, kernel signals, interrupts, shutdowns, restarts and launches
    (a kernel is launched only where there is none), with any answers of the kernel, the
    queue in the runtime state document is empty when there is no kernel; with a kernel it
    lists the waiting executions in their order and the running one, which it may leave out
    only between an error output of that execution and its end.  The status of the running
    execution is running, every waiting one has an entry, and the completion of the running
    execution records error when it had an error output, done otherwise. *)
Theorem agent_publishes_queue (agent : string) (c : Conn) (acts : list action) :
  launches_apart agent acts (new_session c) = true ->
  let s := run agent acts (new_session c) in
  let k := ks (world s) in
  let d := sd (world s) in
  match kernel s with
  | None => read_explicit_queue d = mkQueueState None []
  | Some _ =>
      qs_queued (read_explicit_queue d) = (fun x => mkDocQueueEntry (qc_execution_id x)) <$> queue k /\
      (qs_executing (read_explicit_queue d) = mkDocQueueEntry <$> executing k \/
       execution_had_error k = true /\ qs_executing (read_explicit_queue d) = None) /\
      (forall x, x ∈ queue k -> is_Some (get_execution (qc_execution_id x) d)) /\
      (forall eid, executing k = Some eid ->
         es_status <$> get_execution eid d = Some "running" /\
         es_status <$> get_execution eid (sd (world (act agent (Signal (ExecutionDone eid)) s))) =
           Some (if execution_had_error k then "error" else "done"))
  end.
Proof.
  intros Hl s k d. pose proof (run_ok agent acts _ (new_session_ok c) Hl) as Hs. fold s in Hs.
  pose proof (so_shown s Hs) as Hsh. destruct (kernel s) as [b|] eqn:Hk; [|done].
  destruct Hsh as [[H1 H2] [H3 H4]]. split_and!.
  - fold d in H1. rewrite H1. unfold to_doc_entries, queued_entries. by rewrite <- list_fmap_compose.
  - fold d k in H2. destruct H2 as [H2|H2]; [left|by right]. rewrite H2. unfold executing_entry. by destruct (executing k).
  - intros x Hx. assert (is_Some (doc_status d (qc_execution_id x))) as Hi by (apply H3; set_solver).
    unfold doc_status in Hi. by destruct (get_execution _ d); [|destruct Hi].
  - intros eid He. split; [by apply H4|]. cbn. rewrite Hk. by eapply done_signal_ok.
Qed.

(** ** Concrete sessions *)

Definition fast : Conn := mkConn [] [].
Definition two_cells : action :=
  Sync (Some [mkSubmission "e1" "x" 0 None (Some "c1"); mkSubmission "e2" "y" 1 None None]) "python" "uv" 5.
Definition up : action := LaunchKernel "python" "uv" (KernelUp true "uv") 1.
Definition mended : list action := [up; two_cells; Signal (CellError "e1"); two_cells].

Lemma agent_publishes_queue_witness :
  let s := run "a" mended (new_session fast) in
  qs_queued (read_explicit_queue (sd (world s))) = [] /\
  es_status <$> get_execution "e1" (sd (world s)) = Some "running" /\
  es_status <$> get_execution "e1" (sd (world (act "a" (Signal (ExecutionDone "e1")) s))) = Some "error".
Proof.
  assert (launches_apart "a" mended (new_session fast) = true) as Hl by (vm_compute; reflexivity).
  pose proof (agent_publishes_queue "a" fast mended Hl) as H. cbv zeta in *.
  assert (kernel (run "a" mended (new_session fast)) = Some true) as Hk by (vm_compute; reflexivity).
  assert (executing (ks (world (run "a" mended (new_session fast)))) = Some "e1") as He by (vm_compute; reflexivity).
  assert (queue (ks (world (run "a" mended (new_session fast)))) = []) as Hq by (vm_compute; reflexivity).
  assert (execution_had_error (ks (world (run "a" mended (new_session fast)))) = true) as Hh by (vm_compute; reflexivity).
  rewrite Hk in H. destruct H as (H1 & _ & _ & H2). destruct (H2 "e1" He) as [H3 H4].
  rewrite Hq in H1. rewrite Hh in H4. exact (conj H1 (conj H3 H4)).
Defined.

(** Two submissions of a live session: the first runs, the second waits; then the second
    runs; then none. *)
Example session_runs_in_order :
  let q acts := read_explicit_queue (sd (world (run "a" (up :: two_cells :: acts) (new_session fast)))) in
  q [] = mkQueueState (Some (mkDocQueueEntry "e1")) [mkDocQueueEntry "e2"] /\
  q [Signal (ExecutionDone "e1")] = mkQueueState (Some (mkDocQueueEntry "e2")) [] /\
  q [Signal (ExecutionDone "e1"); Signal (ExecutionDone "e2")] = mkQueueState None [].
Proof. vm_compute. done. Qed.

(** An error output empties the published queue although the execution still runs. *)
Example error_hides_running :
  let s := run "a" [up; two_cells; Signal (CellError "e1")] (new_session fast) in
  executing (ks (world s)) = Some "e1" /\ read_explicit_queue (sd (world s)) = mkQueueState None [].
Proof. vm_compute. done. Qed.

(** The interrupt handle outlives the kernel: an interrupt after its death shows an idle
    kernel where there is none. *)
Example interrupt_after_death :
  let s := run "a" [up; Signal KernelDied] (new_session fast) in
  let s' := act "a" (InterruptExecution false) s in
  kernel s' = None /\
  kd_lifecycle (read_kernel_state (sd (world s))) = LcError /\
  kd_lifecycle (read_kernel_state (sd (world s'))) = Running ActIdle.
Proof. vm_compute. done. Qed.
